(* ===== verification/_CoqProject ===== *)
-Q . S2P
Prelude.v
Allocator.v
FleetHealth.v
Packing.v
PackingSimple.v
PackingMffd.v
PyVal.v
PyStr.v
StateErr.v
RoutePlan.v
DataPlaneMeta.v
LogicalOwners.v
ReplayManifest.v
TQBuffer.v
Sampler.v
ReplayBuffer.v
Barrier.v
Membership.v
Supervisor.v
Recovery.v
RecoveryLedger.v
RecoveryInv.v
RecoverySeals.v
RecoveryOps.v
RecoverySteps.v
RecoveryViews.v
RecoveryCodec.v
RecoveryRoundTrip.v
RecoveryDecoded.v
RecoveryProps.v
SnapshotDir.v
Snapshots.v
SnapshotIdentity.v
Inventory.v
Router.v
BufferPool.v
RouteAssembly.v
ForestPlan.v
Rewards.v
RewardSettings.v
Media.v
Reassembler.v
FinalizeTotal.v
LogicalRows.v
PackedTensors.v
Wire.v
Publish.v
PublishedRows.v
ForestPublish.v
Sharding.v
ShardingProps.v
ShardingBack.v
Preshard.v
PreshardProps.v
SparseCodec.v
SparseCodecProps.v
SparseRefit.v
SparseRefitProps.v
SparseSync.v
Checkpoints.v
CheckpointProps.v
CheckpointRetention.v
