(* ===== verification/Prelude.v ===== *)
(** * NeMo RL: verified control plane

    This library models the control plane of NeMo RL (sources under
    [src/nemo_rl/]): the Python code that decides which rollouts are generated,
    kept, selected, evicted, recovered and checkpointed, which generation
    engines serve, where requests go, how sequences are packed into bins, how
    captured rollouts become training rows with their rewards, routes and media,
    and how registered memory is managed.
    Kernels, remote calls and file contents are outside; where an operation
    makes such a call, the model returns the call it makes and takes its outcome
    as an argument.

    ** The parts and how they interact

    The single controller drives an asynchronous loop.  The rollout pump asks
    a staleness policy (Sampler) to admit a batch, reserves slots in the replay
    buffer (TQBuffer), records every prompt group in the recovery ledger
    (RecoveryLedger), generates through the router (Router) on the engines the
    fleet-health ledger (FleetHealth) declares healthy, finalizes what was
    captured (Reassembler, LogicalRows) and publishes its rows (Publish) to the
    data plane under a mutation cut of the checkpoint barrier (Barrier), and
    commits the slots.  The train pump asks the same policy to evict and select
    groups; selected groups become training claims until the step commits.  A
    checkpoint takes the barrier exclusively and saves the ledger
    (RecoveryCodec) and the buffer's index with a digest (ReplayManifest) that
    binds it to the saved rows into a snapshot directory (Snapshots) under a
    compatibility anchor (SnapshotIdentity); a restart checks what it finds
    against the data plane (Inventory).  Rows travel as batch metadata
    (DataPlaneMeta) whose tags carry route plans (RoutePlan), which the route
    executor (RouteAssembly) turns into route tensors, and logical owners
    (LogicalOwners).  The older asynchronous GRPO loop uses the per-step buffer
    (ReplayBuffer).  A training batch is sharded over the data-parallel ranks
    (Sharding), by Packing and its algorithms where sequences are packed; the
    driver shards the metadata alone and ships the plan (Preshard).  The data
    plane's storage units manage their registered memory with Allocator, its
    clients with BufferPool.  Dead engines are restarted by the
    engine supervisor (Supervisor); the controller's tick folds the router's
    counters into the fleet ledger; a weight transfer to a changed fleet
    rebuilds its communicator on the layout of Membership.  The weights are
    saved with the training state in checkpoints that are published and pruned in
    the background (Checkpoints).  Remote engines get
    their weights as sparse updates against a baseline (SparseRefit) in a packed
    form (SparseCodec).

    ** Files

    - [Prelude] (this file): Python results and exceptions ([res], [exc]),
      stable sort, bisect, enumerate and index comprehensions, deletion by
      index, with the lemmas and tactics shared by all parts.
    - [PyVal]: dynamically typed Python values, dict access, [traverse].
      [PyStr]: strings, numbers as text, prefixes and splitting.  [StateErr]: the
      state and error monad with its weakest preconditions.
    - [Allocator]: [data_plane/nixl/allocator.py], the slab allocator with
      leases and deferred frees.  [BufferPool]: [data_plane/nixl/bufpool.py],
      the registered buffers of a client, as steps between critical sections.
    - [FleetHealth]: [models/generation/fleet_health.py], the per-shard health
      machine, the ledger that owns it, and shard selection.
    - [Supervisor]: [models/generation/engine_supervisor.py], restarts of dead
      engines, a client of the ledger.
    - [Router]: [models/generation/generation_router.py] and the draining tick
      of [algorithms/single_controller.py], the other client of the ledger.
    - [Membership]: [weight_sync/membership.py], the rank layout of a rebuilt
      weight-transfer communicator.
    - [Packing], [PackingSimple], [PackingMffd]: [data/packing/algorithms.py]:
      the base class with its bin-count adjustment behind the interface
      [Packer]; the concatenative, first-fit and shuffled packers; the
      modified first-fit-decreasing packer and the factory.
    - [Sharding], [ShardingProps], [ShardingBack]:
      [distributed/batched_data_dict.py]: batches cut into parts of ranks, by
      ranges, by length or by bins; that every row goes to one rank and the order
      can be undone; what a rank reads back.  [Preshard], [PreshardProps]:
      [data_plane/preshard.py] and the plan's end of [data_plane/worker_mixin.py].
    - [SparseCodec], [SparseCodecProps]: [utils/weight_transfer_sparse_codec.py],
      the packed form of sparse updates; that it is read back.  [SparseRefit]: its
      [DeltaCompressionTracker], the chunks and buckets of
      [utils/weight_transfer_stream.py], and the receiver,
      [models/generation/vllm/vllm_sparse_delta.py], up to the engine's loader;
      [SparseRefitProps], [SparseSync]: its parts, and the whole way of a sync.
    - [RoutePlan]: [experience/route_plan.py], plans, validation, codec.
      [RouteAssembly]: [experience/route_assembly.py] with
      [utils/routed_experts_codec.py] and the worker's slicing, the executor.
    - [DataPlaneMeta]: [KVBatchMeta] of [data_plane/interfaces.py].
    - [LogicalOwners]: metadata validation of
      [algorithms/single_controller_utils/logical_advantage.py] and the forest
      row identities of [data_plane/schema.py].
    - [ReplayManifest], [TQBuffer], [ReplayBuffer], [Barrier]:
      [algorithms/async_utils/replay_buffer.py]: the canonical manifest; the
      single controller's buffer ([TQReplayBuffer]); the per-step buffer
      ([ReplayBufferImpl]); the checkpoint barrier.
    - [Sampler]: [algorithms/async_utils/staleness_sampler.py], with the
      interface of a policy as the class [PromptGroupSampler], what a policy
      promises as [SamplerLaws], and one instance of each per built-in policy;
      also the window retuning of [algorithms/single_controller.py].
    - [ForestPlan]: the planning part of [experience/rollout_reassembler.py]:
      one row per conversation path of the selected calls.  [Rewards],
      [RewardSettings]: [experience/reward_penalties.py], the reward of a
      captured rollout and its settings.  [Media]:
      [data_plane/tq_token_staging.py] and [data/captured_media.py], the
      captured media of a row.
    - [Reassembler], [FinalizeTotal]: [finalize_rollout], one rollout verified
      against its staged calls, over the classes [GymCapture] (token capture)
      and [TokenSource] (the staging source); that it always returns.
      [LogicalRows]: the rows of forest owners, on top of it.
    - [PackedTensors]: [PackedTensor] of [data/multimodal_utils.py].  [Wire]:
      [data_plane/codec.py], [data_plane/column_io.py] and
      [experience/payload.py], columns as the data plane carries them.
    - [Publish]: [finalize_group] and [_publish_rows], the batch of a group and
      the calls made for it; [PublishedRows], [ForestPublish]: what is published
      of each row, and what the rows of a forest group add.
    - [Recovery], [RecoveryLedger]: the records and the operations of
      [experience/rollout_recovery.py]; [RecoveryInv], [RecoverySeals],
      [RecoveryOps], [RecoverySteps], [RecoveryViews]: the ledger's invariant,
      operation by operation, its step relation and its views;
      [RecoveryCodec], [RecoveryRoundTrip], [RecoveryDecoded]: its checkpoint
      form; [RecoveryProps]: its properties.
    - [SnapshotDir], [Snapshots], [SnapshotIdentity]: the directory with its
      crash points, and [algorithms/rollout_checkpointing/manifest.py] (with
      the file part of [snapshots.py]) over it; [Inventory]:
      [algorithms/rollout_checkpointing/inventory.py].
    - [Checkpoints]: [utils/checkpoint.py] and [utils/checkpoint_storage.py], the
      training checkpoints as programs of file-system calls, run alone or a call
      at a time by the trainer, the finalizer and the remover; [CheckpointProps],
      [CheckpointRetention]: that the newest survives; which others are kept.

    A definition has the name of the Python function it models, and the state
    of a class is a record with the names of its attributes.  An asynchronous
    operation is split at its suspension points, a threaded one at its lock; a
    theorem about it quantifies over what the other operations did in between
    (the [step] relations of TQBuffer, Barrier, Supervisor, Router, BufferPool
    and RecoverySteps, FleetHealth's events, Sampler's [admission_step]).

    ** What the theorems show

    - Allocator, BufferPool: allocations and free extents partition the slab at
      all times, allocation is first fit, reclaiming frees exactly the expired
      leases; no two operations share a buffer, a buffer a failed transfer may
      touch is never handed out again, no waiting thread misses its wake-up,
      and eviction takes the least recently used first and no more than needed.
    - FleetHealth, Supervisor, Router: a condemned shard serves again only
      after a full refit; the probe streaks have their thresholds; a wedged
      engine is condemned; retired shards stay retired; restarts stay within
      the attempt budget and respect the cooldown; the router's accounting is
      exact, requests go to the least loaded serving backend, and a shard is
      condemned by consecutive windows of failures and by nothing less.
    - Membership: the rebuilt rank layout is a partition without holes, and a
      rebuild is decided exactly when some shard left or returned, or when the
      communicator is known to be gone and a shard is absent.
    - Packing: every packer places every sequence exactly once within the
      capacity and honours the bin-count constraints; first fit never leaves
      two bins half empty; the concatenative packer keeps the order.
    - Sharding: every row of every chunk goes to one rank, and the returned order
      undoes the sharding; ranks that pack run their bins within the capacity,
      equally many on every rank; dynamic microbatches tile each rank's rows, the
      same on every rank, within the token limit; the metadata a driver deals out are
      the samples of the batch, and the workers that attach the shipped plan run in
      step.
    - Sparse refit: what the receiver reads of merged payloads is what was encoded;
      chunks and buckets lose nothing and stay within their limits; a sync brings
      the engines, and once confirmed the baseline, to the trainer's weights bit for
      bit, in any order of encoding, commits and arrival, and a failed one forgets
      nothing.
    - Route plans and assembly, batch metadata, owners: round trips,
      consistency of decoded plans, the executor against the tensor built from
      the front, and that staging a conversation call by call and assembling it
      gives the routes of the whole sequence; row-wise specifications of
      concatenation and dropping, completeness of validated owners.
    - Forest planning: a selection is planned as its conversation paths, exactly
      when it is closed, whatever the order of the commits.
    - Rewards, media: a captured reward is shaped and then zeroed by its checks;
      the media of a chain are its parts, and validated media split into their
      items.
    - Reassembly: a row that is kept is the verified chain of its own calls, each
      token trains for its own call and only once over the rows of an owner; a
      rejected rollout keeps every key to clean up; verification always returns;
      an owner's rows are kept or dropped together.
    - Publication: staged rows outlive the put, and are cleared or handed on only
      after it; every rollout, and every segment of a forest, is published as its
      verified row or as one that cannot train; forest rows are padded to whole
      execution rows, and a training step finds each owner's rows in the tags.
    - Packed media and the wire: selection and concatenation keep the rows and
      share what is the same; tokens and media come back from the wire as they
      were packed.
    - TQBuffer: the parallel lists describe one list of slots in every
      reachable state; removals hit only the groups they named; a commit is all
      or nothing; a claim preserves what a checkpoint covers; saving and
      loading is the identity on ready groups.
    - Sampler: a selection claims eligible groups only, within its bounds, and
      never fails on a well-formed buffer; an eviction drops only groups no
      later step could select; admission respects the lookahead under every
      interleaving.
    - ReplayBuffer: sampling consumes exactly the batch meant for a step; gap
      filling agrees with sampling; restoring keeps only usable rows.
    - Barrier: a checkpoint runs alone; no wake-up is lost and no deadlock.
    - Recovery ledger: its invariant holds in every reachable state; no live
      operation loses or duplicates the custody of environment state or of
      staged rows; seals are all or nothing; a saved ledger restores to itself,
      and what a damaged file decodes to is well formed or refused; after a
      restart every generating group can be retried.
    - Snapshots: whatever step a crash follows, a restart finds the snapshot
      that was published before or after; resolution takes the newest
      acceptable one; equal identities agree on every value kept; creating the
      anchor is atomic and its rejections name the difference; cleaning the
      staging partition never removes a row the ledger or the buffer owns.
    - Training checkpoints: under every interleaving and every crash the latest
      path is that of a complete checkpoint, and the newest step never goes back;
      a removal keeps exactly what the rules of retention keep; the best
      checkpoint is among them.

    ** Fuel and bounds

    Loops whose termination is not structural carry fuel, and enough fuel
    gives the result: binary search ([bisect], fuel the length of the list,
    [bisect_loop_spec]); the loops of the greedy packers, which raise
    [OutOfFuel] when the number of sequences is not enough, so that the
    packers' theorem excludes it; the greedy fit of the modified packer (fuel
    the number of remaining items, [fill_bin_fuel]); the admission wait
    ([admit], any fuel beyond the first admissible poll); the pool's eviction
    loop (fuel the number of free buffers, [evict_loop_stops]); the walk to the
    root of a conversation (fuel the number of calls, [path_complete]) and the
    rounds of the topological order (one more, [static_order_spec]); the pattern
    matcher (fuel the length of the pattern) and the comparison of identities
    (fuel their depth).  Python integers are unbounded and are [Z];
    indices are [nat] where the code can only produce non-negative ones.

    ** Not modelled

    Message texts of exceptions, logging, metrics and telemetry sinks; tensor
    arithmetic beyond layout and the rounding to [float32]; JSON text
    and SHA-256 (parameters with named hypotheses); wall-clock time, which is an
    argument; the remote-actor, storage and weight-transfer backends; the
    training algorithms, losses and model code.  Of checkpointing: fsync, the
    pruning of bootstrap snapshots, the projection of the reward configuration,
    the sidecar around the ledger, and the scheduling of snapshots; of training
    checkpoints, resume paths and what a trainer writes, and the theorems are about
    the local storage.  The
    controller loop that ties the modelled parts together
    ([algorithms/single_controller.py]) is modelled only in the parts named
    above.

    What token capture and the staging source compute is theirs: a class states
    what is relied on.  Beyond that, what is left is tensor code and remote calls:
    the training loops, losses and models, the environments, the transports of the
    data plane and the placement of workers.  Of batches: jagged tensors and packed
    media as columns, truncation, repetition and gathering over ranks. *)

From stdpp Require Export base tactics option list gmap sets strings sorting.
From stdpp Require Export list_numbers.
From Stdlib Require Export ZArith Lia.


Declare Scope py_scope.
Delimit Scope py_scope with py.
Open Scope Z_scope.
Open Scope py_scope.

(** ** Python exceptions and results

    A call that may raise returns [res A].  The message of an exception is
    not modelled, only its class. *)
Inductive exc :=
| ValueError
| IndexError
| KeyError
| TypeError
| RuntimeError
| ZeroDivisionError
| UnitFull
| GenerationFleetExhausted
| NoHealthyShards
| NoSurvivingShards
| PoolExhausted
| PoolTimeout
| PostWriteEnrichmentError
| AssertionError
| AttributeError
| CancelledError
| BaseExceptionGroup
| OverflowError
| FileNotFoundError
| OSError
| UnresolvedCaptureAcknowledgement
| RebuildError
| NotImplementedError
| OutOfFuel.

Inductive res (A : Type) :=
| Ok (a : A)
| Raise (e : exc).
Arguments Ok {A} a.
Arguments Raise {A} e.

#[export] Instance exc_eq_dec : EqDecision exc.
Proof. solve_decision. Defined.

#[export] Instance res_ret : MRet res := fun A a => Ok a.
#[export] Instance res_bind : MBind res := fun A B f m =>
  match m with Ok a => f a | Raise e => Raise e end.
#[export] Instance res_fmap : FMap res := fun A B f m =>
  match m with Ok a => Ok (f a) | Raise e => Raise e end.

(** [raise_if b e] is the guard [if b: raise e]. *)
Definition raise_if (b : bool) (e : exc) : res unit :=
  if b then Raise e else Ok tt.

(** Subscripting [l[i]] of a list by a natural index. *)
Definition get_index {A} (l : list A) (i : nat) : res A :=
  match l !! i with Some a => Ok a | None => Raise IndexError end.

(** [d[k]] of a dict. *)
Definition get_key `{Countable K} {V} (d : gmap K V) (k : K) : res V :=
  match d !! k with Some v => Ok v | None => Raise KeyError end.

(** Indexing with a possibly negative index or bound. *)
Definition py_index (n : nat) (i : Z) : option nat :=
  let j := if i <? 0 then i + Z.of_nat n else i in
  if (0 <=? j) && (j <? Z.of_nat n) then Some (Z.to_nat j) else None.
Definition py_bound (n : nat) (i : Z) : nat :=
  Z.to_nat (Z.min (Z.of_nat n) (if i <? 0 then Z.max 0 (i + Z.of_nat n) else i)).
(** [l[a:b]]. *)
Definition py_slice {A} (a b : Z) (l : list A) : list A :=
  let lo := py_bound (length l) a in take (py_bound (length l) b - lo) (drop lo l).

(** [list.insert(i, x)]. *)
Definition list_insert_at {A} (i : nat) (x : A) (l : list A) : list A :=
  take i l ++ x :: drop i l.

(** [min(xs, key=f)] for a non-empty list: the first element of minimal key,
    where [ltb] compares the keys. *)
Fixpoint argmin_by {A} (ltb : A -> A -> bool) (best : A) (l : list A) : A :=
  match l with
  | [] => best
  | x :: l' => argmin_by ltb (if ltb x best then x else best) l'
  end.

(** [sum(xs)]. *)
Fixpoint zsum (l : list Z) : Z :=
  match l with [] => 0 | x :: l' => x + zsum l' end.

(** [enumerate(xs)], as a list of [(index, value)]. *)
Fixpoint enumerate_from {A} (i : nat) (l : list A) : list (nat * A) :=
  match l with
  | [] => []
  | x :: l' => (i, x) :: enumerate_from (S i) l'
  end.
Definition enumerate {A} (l : list A) : list (nat * A) := enumerate_from 0 l.

(** [[i for i, x in enumerate(l) if P(x)]]. *)
Definition indices_where {A} (P : A -> bool) (l : list A) : list nat :=
  (List.filter (fun p => P p.2) (enumerate l)).*1.

(** [[l[i] for i in idxs]], for indices that are in range. *)
Definition select_indices {A} (l : list A) (idxs : list nat) : list A :=
  omap (fun i => l !! i) idxs.

(** ** [list.sort]

    Python's sort is stable; a stable sort has only one possible result, so
    insertion sort computes it.  [ltb] is [__lt__] on the keys. *)
Section sort.
  Context {A : Type} (ltb : A -> A -> bool).

Fixpoint sort_insert (x : A) (l : list A) : list A :=
    match l with
    | [] => [x]
    | y :: l' => if ltb y x then y :: sort_insert x l' else x :: l
    end.

Fixpoint py_sort (l : list A) : list A :=
    match l with
    | [] => []
    | x :: l' => sort_insert x (py_sort l')
    end.
End sort.

(** ** [bisect]

    The binary search of CPython's [bisect] module.  [goright] is the
    comparison of the probe: [not (x < a[mid])] in [bisect_right],
    [a[mid] < x] in [bisect_left]. *)
Section bisect.
  Context {A : Type} (goright : A -> bool).

Fixpoint bisect_loop (fuel : nat) (a : list A) (lo hi : nat) : nat :=
    match fuel with
    | O => lo
    | S fuel' =>
        if (lo <? hi)%nat then
          let mid := ((lo + hi) / 2)%nat in
          match a !! mid with
          | Some y => if goright y then bisect_loop fuel' a (S mid) hi
                      else bisect_loop fuel' a lo mid
          | None => lo
          end
        else lo
    end.

Definition bisect (a : list A) : nat :=
    bisect_loop (length a) a 0 (length a).
End bisect.

(** ** Automation *)



Create HintDb py discriminated.

(** Split every [match] of a goal or hypothesis on booleans and results. *)
Ltac split_if :=
  match goal with
  | |- context [if ?b then _ else _] => destruct b eqn:?
  | H : context [if ?b then _ else _] |- _ => destruct b eqn:?
  end.

(** Turn boolean tests on integers into propositions. *)
Ltac bool_to_prop :=
  repeat match goal with
  | H : (_ && _)%bool = true |- _ => apply andb_true_iff in H as [? ?]
  | H : (_ || _)%bool = false |- _ => apply orb_false_iff in H as [? ?]
  | H : (_ || _)%bool = true |- _ => apply orb_true_iff in H
  | H : (_ && _)%bool = false |- _ => apply andb_false_iff in H
  | H : negb _ = true |- _ => apply negb_true_iff in H
  | H : negb _ = false |- _ => apply negb_false_iff in H
  | H : (_ <? _) = true |- _ => apply Z.ltb_lt in H
  | H : (_ <? _) = false |- _ => apply Z.ltb_ge in H
  | H : (_ <=? _) = true |- _ => apply Z.leb_le in H
  | H : (_ <=? _) = false |- _ => apply Z.leb_gt in H
  | H : (_ =? _) = true |- _ => apply Z.eqb_eq in H
  | H : (_ =? _) = false |- _ => apply Z.eqb_neq in H
  | H : (_ <? _)%nat = true |- _ => apply Nat.ltb_lt in H
  | H : (_ <? _)%nat = false |- _ => apply Nat.ltb_ge in H
  | H : (_ <=? _)%nat = true |- _ => apply Nat.leb_le in H
  | H : (_ <=? _)%nat = false |- _ => apply Nat.leb_gt in H
  | H : (_ =? _)%nat = true |- _ => apply Nat.eqb_eq in H
  | H : (_ =? _)%nat = false |- _ => apply Nat.eqb_neq in H
  | H : bool_decide _ = true |- _ => apply bool_decide_eq_true in H
  | H : bool_decide _ = false |- _ => apply bool_decide_eq_false in H
  end.

(** ** Results *)

Lemma bind_Ok {A B} (m : res A) (f : A -> res B) b :
  m ≫= f = Ok b <-> exists a, m = Ok a /\ f a = Ok b.
Proof.
  destruct m; cbn; split; [eauto|by intros (? & [= <-] & ?)|done|by intros (? & ? & ?)].
Qed.

Lemma bind_Raise {A B} (m : res A) (f : A -> res B) e :
  m ≫= f = Raise e -> m = Raise e \/ exists a, m = Ok a /\ f a = Raise e.
Proof. destruct m; cbn; [by eauto|intros [= ->]; by left]. Qed.

Lemma fmap_Ok {A B} (m : res A) (f : A -> B) b :
  f <$> m = Ok b <-> exists a, m = Ok a /\ b = f a.
Proof.
  destruct m; cbn; split.
  - intros [= <-]. eauto.
  - by intros (? & [= <-] & ->).
  - done.
  - by intros (? & ? & ?).
Qed.

(** The exceptions a computation can raise. *)
Definition raises_only {A} (es : list exc) (m : res A) : Prop := forall e, m = Raise e -> e ∈ es.

Lemma raises_Ok {A} es (a : A) : raises_only es (Ok a).
Proof. done. Qed.
Lemma raises_Raise {A} es e : e ∈ es -> raises_only (A := A) es (Raise e).
Proof. by intros H e' [= <-]. Qed.
Lemma raises_bind {A B} es (m : res A) (f : A -> res B) :
  raises_only es m -> (forall a, m = Ok a -> raises_only es (f a)) -> raises_only es (m ≫= f).
Proof. intros Hm Hf e [H|(a & Ha & H)]%bind_Raise; [by apply Hm|by eapply Hf]. Qed.
Lemma raises_raise_if es b e : e ∈ es -> raises_only es (raise_if b e).
Proof. intros H. destruct b; [by apply raises_Raise|done]. Qed.
Lemma raises_weaken {A} es es' (m : res A) : es ⊆ es' -> raises_only es m -> raises_only es' m.
Proof. intros Hs Hm e He. by apply Hs, Hm. Qed.

(** Decides [e ∈ es] for a literal list. *)
Ltac in_list := apply (bool_decide_unpack _); reflexivity.

(** Splits a computation into its steps and closes those that raise one of the
    exceptions of a literal list. *)
Ltac raises_step :=
  match goal with
  | |- raises_only _ (Ok _) => apply raises_Ok
  | |- raises_only _ (Raise _) => apply raises_Raise; in_list
  | |- raises_only _ (raise_if _ _) => apply raises_raise_if; in_list
  | |- raises_only _ (_ ≫= _) => apply raises_bind; [|intros]
  end.

Lemma raise_if_Ok b e u : raise_if b e = Ok u <-> b = false.
Proof. by destruct u, b. Qed.

Lemma raise_if_Raise b e e' : raise_if b e = Raise e' <-> b = true /\ e = e'.
Proof. destruct b; cbn; split; [by intros [= ->]|by intros [_ ->]|done|by intros []]. Qed.

Lemma get_index_Ok {A} (l : list A) i a :
  get_index l i = Ok a <-> l !! i = Some a.
Proof. unfold get_index. destruct (l !! i); split; congruence. Qed.

(** Decompose a successful monadic computation. *)
Ltac inv_res :=
  repeat match goal with
  | H : Ok _ = Ok _ |- _ => injection H; clear H; intros; subst
  | H : Raise _ = Raise _ |- _ => injection H; clear H; intros; subst
  | H : Ok _ = Raise _ |- _ => discriminate H
  | H : Raise _ = Ok _ |- _ => discriminate H
  | H : mret _ = _ |- _ => unfold mret, res_ret in H
  | H : (_ ≫= _) = Ok _ |- _ =>
      apply bind_Ok in H as (? & ? & ?); cbv beta in *
  | H : (_ <$> _) = Ok _ |- _ =>
      apply fmap_Ok in H as (? & ? & ?); cbv beta in *
  | H : raise_if _ _ = Ok _ |- _ => apply raise_if_Ok in H
  | H : get_index _ _ = Ok _ |- _ => apply get_index_Ok in H
  end.

(** ** Slices *)

Lemma py_bound_nat n i : (i <= n)%nat -> py_bound n (Z.of_nat i) = i.
Proof. intros H. unfold py_bound. rewrite (proj2 (Z.ltb_ge _ 0)) by lia. lia. Qed.

Lemma py_slice_nat {A} (i k : nat) (l : list A) :
  (i + k <= length l)%nat -> py_slice (Z.of_nat i) (Z.of_nat (i + k)) l = take k (drop i l).
Proof. intros H. unfold py_slice. rewrite !py_bound_nat by lia. f_equal. lia. Qed.

(** ** Sums *)

Lemma zsum_app l1 l2 : zsum (l1 ++ l2) = zsum l1 + zsum l2.
Proof. induction l1; cbn; lia. Qed.

#[export] Instance zsum_proper : Proper ((≡ₚ) ==> (=)) zsum.
Proof. intros l1 l2 H. induction H; cbn; lia. Qed.

Lemma zsum_nonneg l : Forall (fun x => 0 <= x) l -> 0 <= zsum l.
Proof. induction 1; cbn; lia. Qed.

(** ** Sorting *)
Section sort_lemmas.
  Context {A : Type} (ltb : A -> A -> bool).

Lemma sort_insert_perm x l : sort_insert ltb x l ≡ₚ x :: l.
  Proof.
    induction l as [|y l IH]; cbn; [done|].
    split_if; [|done]. rewrite IH. apply Permutation_swap.
  Qed.

Lemma py_sort_perm l : py_sort ltb l ≡ₚ l.
  Proof.
    induction l as [|x l IH]; cbn; [done|]. by rewrite sort_insert_perm, IH.
  Qed.

Lemma py_sort_length l : length (py_sort ltb l) = length l.
  Proof. apply Permutation_length, py_sort_perm. Qed.

  (** [leb x y] is [not (y < x)]; it is a total preorder for the keys used. *)
  Context (ltb_trans : forall x y z, ltb y x = false -> ltb z y = false -> ltb z x = false)
          (ltb_asym : forall x y, ltb x y = true -> ltb y x = false).

Lemma sort_insert_sorted x l :
    StronglySorted (fun a b => ltb b a = false) l ->
    StronglySorted (fun a b => ltb b a = false) (sort_insert ltb x l).
  Proof.
    induction 1 as [|y l Hl IH Hy]; cbn; [repeat constructor|].
    destruct (ltb y x) eqn:E.
    - constructor; [done|]. rewrite sort_insert_perm. constructor; auto.
    - constructor; [by constructor|]. constructor; [done|].
      eapply Forall_impl; [done|]. cbn. eauto.
  Qed.

Lemma py_sort_sorted l :
    StronglySorted (fun a b => ltb b a = false) (py_sort ltb l).
  Proof. induction l; cbn; [constructor|by apply sort_insert_sorted]. Qed.
End sort_lemmas.

(** ** Binary search *)
Section bisect_lemmas.
  Context {A : Type} (goright : A -> bool) (a : list A).
  (** The probe is monotone: once it fails, it fails to the right. *)
  Context (Hmono : forall i j x y, (i <= j)%nat -> a !! i = Some x ->
            a !! j = Some y -> goright y = true -> goright x = true).

Lemma bisect_loop_spec fuel lo hi :
    (hi - lo <= fuel)%nat -> (lo <= hi <= length a)%nat ->
    (forall i x, (i < lo)%nat -> a !! i = Some x -> goright x = true) ->
    (forall i x, (hi <= i)%nat -> a !! i = Some x -> goright x = false) ->
    let k := bisect_loop goright fuel a lo hi in
    (k <= length a)%nat /\
    (forall i x, (i < k)%nat -> a !! i = Some x -> goright x = true) /\
    (forall i x, (k <= i)%nat -> a !! i = Some x -> goright x = false).
  Proof.
    revert lo hi. induction fuel as [|fuel IH]; intros lo hi Hf Hb Hl Hr; cbv zeta; cbn [bisect_loop].
    { assert (lo = hi) as -> by lia. split_and!; [lia|done|done]. }
    destruct (Nat.ltb_spec lo hi) as [Hlt|Hge].
    2: { assert (lo = hi) as -> by lia. split_and!; [lia|done|done]. }
    pose proof (Nat.div_mod_eq (lo + hi) 2) as Hdiv.
    pose proof (Nat.mod_upper_bound (lo + hi) 2 ltac:(done)) as Hmod.
    set (mid := ((lo + hi) / 2)%nat) in *.
    assert (lo <= mid < hi)%nat as Hmid by lia. clear Hdiv Hmod.
    assert (mid < length a)%nat as Hm by lia.
    destruct (lookup_lt_is_Some_2 a mid Hm) as [y Hy]. rewrite Hy.
    destruct (goright y) eqn:Ey; apply IH; try lia; try done.
    - intros i x Hi Hx. apply (Hmono i mid x y); [lia|done..].
    - intros i x Hi Hx. destruct (goright x) eqn:Ex; [|done].
      rewrite (Hmono mid i y x) in Ey; [done|lia|done..].
  Qed.

Lemma bisect_spec :
    let k := bisect goright a in
    (k <= length a)%nat /\
    (forall i x, (i < k)%nat -> a !! i = Some x -> goright x = true) /\
    (forall i x, (k <= i)%nat -> a !! i = Some x -> goright x = false).
  Proof.
    apply bisect_loop_spec; [lia|lia|lia|].
    intros i x Hi Hx. apply lookup_lt_Some in Hx. lia.
  Qed.
End bisect_lemmas.

(** ** Enumeration *)

Lemma lookup_enumerate_from {A} (l : list A) k i :
  enumerate_from k l !! i = pair (k + i)%nat <$> l !! i.
Proof.
  revert k i. induction l as [|x l IH]; intros k [|i]; cbn; try done.
  - by rewrite Nat.add_0_r.
  - rewrite IH. by rewrite Nat.add_succ_r.
Qed.

Lemma elem_of_enumerate {A} (l : list A) i x :
  (i, x) ∈ enumerate l <-> l !! i = Some x.
Proof.
  unfold enumerate. rewrite list_elem_of_lookup. setoid_rewrite lookup_enumerate_from.
  split.
  - intros (j & Hj). destruct (l !! j) eqn:E; [|done]. cbn in Hj. by simplify_eq.
  - intros H. exists i. by rewrite H.
Qed.

Lemma enumerate_from_fst {A} (l : list A) k :
  (enumerate_from k l).*1 = seq k (length l).
Proof. revert k. induction l; intros k; cbn; f_equal; auto. Qed.

Lemma enumerate_fst {A} (l : list A) : (enumerate l).*1 = seq 0 (length l).
Proof. apply enumerate_from_fst. Qed.

Lemma length_enumerate {A} (l : list A) : length (enumerate l) = length l.
Proof. by rewrite <- (length_fmap fst), enumerate_fst, length_seq. Qed.

Lemma list_filter_elem_of {A} (P : A -> bool) l x :
  x ∈ List.filter P l <-> x ∈ l /\ P x = true.
Proof. by rewrite !list_elem_of_In, filter_In. Qed.

Lemma elem_of_indices_where {A} (P : A -> bool) (l : list A) i :
  i ∈ indices_where P l <-> exists x, l !! i = Some x /\ P x = true.
Proof.
  unfold indices_where. rewrite list_elem_of_fmap. split.
  - intros ([j x] & -> & [Hin HP]%list_filter_elem_of).
    apply elem_of_enumerate in Hin. eauto.
  - intros (x & Hx & HP). exists (i, x). split; [done|].
    by apply list_filter_elem_of; rewrite elem_of_enumerate.
Qed.

Lemma indices_where_from_sorted {A} (P : A -> bool) (l : list A) k :
  StronglySorted lt (List.filter (fun p => P p.2) (enumerate_from k l)).*1 /\
  Forall (fun i => k <= i)%nat (List.filter (fun p => P p.2) (enumerate_from k l)).*1.
Proof.
  revert k. induction l as [|x l IH]; intros k; cbn; [split; constructor|].
  destruct (IH (S k)) as [IHs IHf].
  assert (Forall (fun i => k <= i)%nat
           (List.filter (fun p => P p.2) (enumerate_from (S k) l)).*1).
  { eapply Forall_impl; [done|]. cbn. lia. }
  destruct (P x); cbn; [|done]. split; constructor; auto.
Qed.

Lemma indices_where_sorted {A} (P : A -> bool) (l : list A) :
  StronglySorted lt (indices_where P l).
Proof. apply (indices_where_from_sorted P l 0). Qed.

Lemma StronglySorted_lt_NoDup (l : list nat) : StronglySorted lt l -> NoDup l.
Proof.
  induction 1 as [|x l Hl IH Hx]; constructor; [|done].
  rewrite Forall_forall in Hx. intros Hin%Hx. lia.
Qed.

Lemma indices_where_NoDup {A} (P : A -> bool) (l : list A) :
  NoDup (indices_where P l).
Proof. apply StronglySorted_lt_NoDup, indices_where_sorted. Qed.

Lemma indices_where_lt {A} (P : A -> bool) (l : list A) i :
  i ∈ indices_where P l -> (i < length l)%nat.
Proof. intros (x & Hx & _)%elem_of_indices_where. by eapply lookup_lt_Some. Qed.

(** ** [min(xs, key=f)] *)

Lemma argmin_by_elem {A} (ltb : A -> A -> bool) best l : argmin_by ltb best l ∈ best :: l.
Proof.
  revert best. induction l as [|x l IH]; intros best; cbn; [set_solver|].
  specialize (IH (if ltb x best then x else best)). destruct (ltb x best); set_solver.
Qed.

Lemma argmin_by_spec {A} (ltb : A -> A -> bool) best l :
  (forall x y z, ltb y x = false -> ltb z y = false -> ltb z x = false) ->
  (forall x y, ltb x y = true -> ltb y x = false) ->
  (forall x, ltb x x = false) ->
  argmin_by ltb best l ∈ best :: l /\
  forall y, y ∈ best :: l -> ltb y (argmin_by ltb best l) = false.
Proof.
  intros Htr Has Hrefl. revert best. induction l as [|x l IH]; intros best; cbn.
  { split; [set_solver|]. intros y ->%list_elem_of_singleton. apply Hrefl. }
  destruct (ltb x best) eqn:E.
  - destruct (IH x) as [Hin Hmin]. split; [set_solver|].
    intros y [->|[->|Hy]%elem_of_cons]%elem_of_cons.
    + eapply Htr; [|by apply Has]. apply Hmin. set_solver.
    + apply Hmin. set_solver.
    + apply Hmin. set_solver.
  - destruct (IH best) as [Hin Hmin]. split; [set_solver|].
    intros y [->|[->|Hy]%elem_of_cons]%elem_of_cons.
    + apply Hmin. set_solver.
    + eapply Htr; [|exact E]. apply Hmin. set_solver.
    + apply Hmin. set_solver.
Qed.

#[export] Hint Resolve zsum_nonneg indices_where_NoDup : py.

(** ** Sorted lists by position *)

Lemma StronglySorted_lookup_lt {A} (R : A -> A -> Prop) l i j x y :
  StronglySorted R l -> (i < j)%nat -> l !! i = Some x -> l !! j = Some y -> R x y.
Proof.
  intros Hs. revert i j. induction Hs as [|z l Hl IH Hz]; intros i j Hij Hx Hy; [done|].
  destruct j as [|j]; [lia|]. destruct i as [|i]; cbn in *.
  - simplify_eq. rewrite Forall_forall in Hz. apply Hz. by eapply list_elem_of_lookup_2.
  - eapply IH; [|done..]. lia.
Qed.

(** For a symmetric relation, pairwise relatedness does not depend on order. *)
Lemma StronglySorted_sym_perm {A} (R : A -> A -> Prop) l1 l2 :
  (forall x y, R x y -> R y x) -> l1 ≡ₚ l2 ->
  StronglySorted R l1 -> StronglySorted R l2.
Proof.
  intros Hsym. induction 1 as [|x l1 l2 Hp IH|x y l|l1 l2 l3 _ IH1 _ IH2]; try by auto.
  - intros [Hs Hx]%StronglySorted_inv. constructor; [auto|]. by rewrite <- Hp.
  - intros [[Hs Hy]%StronglySorted_inv Hx]%StronglySorted_inv.
    inversion Hx as [|? ? Hxy Hxl]; subst. repeat constructor; auto.
Qed.

Lemma alter_as_insert {A} (f : A -> A) (l : list A) i a :
  l !! i = Some a -> alter f i l = <[i := f a]> l.
Proof.
  intros H. rewrite list_insert_alter. apply list_alter_ext; [|done].
  intros x Hx. by simplify_eq.
Qed.

(** ** [list.insert] *)

Lemma list_insert_at_perm {A} i (x : A) l : list_insert_at i x l ≡ₚ x :: l.
Proof.
  unfold list_insert_at. rewrite <- Permutation_middle. by rewrite take_drop.
Qed.

Lemma list_insert_at_fmap {A B} (f : A -> B) i x l :
  f <$> list_insert_at i x l = list_insert_at i (f x) (f <$> l).
Proof. unfold list_insert_at. by rewrite fmap_app, fmap_cons, fmap_take, fmap_drop. Qed.

(** Inserting at the [bisect_right] position keeps a list sorted. *)
Lemma bisect_right_sorted (l : list Z) x :
  StronglySorted Z.le l ->
  StronglySorted Z.le (list_insert_at (bisect (fun y => negb (x <? y)) l) x l).
Proof.
  intros Hs. destruct (bisect_spec (fun y => negb (x <? y)) l) as (Hk & Hl & Hr).
  { intros i j y z Hij Hy Hz. rewrite !negb_true_iff, !Z.ltb_ge. intros.
    destruct (decide (i = j)) as [->|]; [by simplify_eq|].
    pose proof (StronglySorted_lookup_lt _ _ i j _ _ Hs ltac:(lia) Hy Hz). lia. }
  set (k := bisect _ _) in *. clearbody k. unfold list_insert_at.
  pose proof Hs as Hs'. rewrite <- (take_drop k l), StronglySorted_app in Hs'.
  destruct Hs' as (H1 & H2 & H3). apply StronglySorted_app. split_and!; [|done|].
  - intros y z Hy Hz. apply elem_of_cons in Hz as [->|Hz]; [|by apply H1].
    apply list_elem_of_lookup in Hy as (i & Hi). apply lookup_take_Some in Hi as [Hi Hlt].
    specialize (Hl i y Hlt Hi). apply negb_true_iff, Z.ltb_ge in Hl. lia.
  - constructor; [done|]. apply Forall_forall. intros z (i & Hi)%list_elem_of_lookup.
    rewrite lookup_drop in Hi. specialize (Hr _ z (Nat.le_add_r k i) Hi).
    apply negb_false_iff, Z.ltb_lt in Hr. lia.
Qed.

(** ** Deleting several positions *)

Lemma list_fmap_delete {A B} (f : A -> B) i (l : list A) :
  f <$> delete i l = delete i (f <$> l).
Proof. revert i. induction l as [|x l IH]; intros [|i]; cbn; try done. f_equal. apply IH. Qed.

Lemma indices_where_cons {A} (P : A -> bool) x l :
  indices_where P (x :: l) = (if P x then [0%nat] else []) ++ (S <$> indices_where P l).
Proof.
  unfold indices_where, enumerate. cbn.
  assert (forall k, (List.filter (fun p => P p.2) (enumerate_from (S k) l)).*1 =
    S <$> (List.filter (fun p => P p.2) (enumerate_from k l)).*1) as Hs.
  { induction l as [|y l IH]; intros k; cbn; [done|].
    destruct (P y); cbn; [f_equal|]; apply IH. }
  rewrite <- Hs. by destruct (P x).
Qed.

Lemma foldr_delete_S {A} (x : A) l idxs :
  foldr delete (x :: l) (S <$> idxs) = x :: foldr delete l idxs.
Proof. induction idxs as [|i idxs IH]; cbn; [done|]. by rewrite IH. Qed.

Lemma foldl_delete_reverse {A} (l : list A) idxs :
  foldl (fun l i => delete i l) l (reverse idxs) = foldr delete l idxs.
Proof.
  induction idxs as [|i idxs IH]; [done|]. by rewrite reverse_cons, foldl_app, IH.
Qed.

(** Deleting, from the highest down, every position where [P] holds. *)
Lemma foldr_delete_indices {A} (P : A -> bool) (l : list A) :
  foldr delete l (indices_where P l) = List.filter (fun x => negb (P x)) l.
Proof.
  induction l as [|x l IH]; [done|]. rewrite indices_where_cons, foldr_app, foldr_delete_S, IH.
  cbn. by destruct (P x).
Qed.

Lemma StronglySorted_reverse {A} (R : A -> A -> Prop) l :
  StronglySorted R l -> StronglySorted (fun x y => R y x) (reverse l).
Proof.
  induction 1 as [|x l Hl IH Hx]; [constructor|]. rewrite reverse_cons.
  apply StronglySorted_app. split_and!; [|done|repeat constructor].
  intros y z Hy ->%list_elem_of_singleton. rewrite elem_of_reverse in Hy.
  rewrite Forall_forall in Hx. by apply Hx.
Qed.

(** Sorting indices downwards reverses their increasing enumeration. *)
Lemma py_sort_desc (idxs sorted : list nat) :
  StronglySorted lt sorted -> idxs ≡ₚ sorted ->
  py_sort (fun a b => b <? a)%nat idxs = reverse sorted.
Proof.
  intros Hs Hp. apply (StronglySorted_unique_strong ge).
  - intros x y _ _ ? ?. lia.
  - assert (StronglySorted (fun a b => (a <? b)%nat = false)
      (py_sort (fun a b => b <? a)%nat idxs)) as Hd.
    { apply (py_sort_sorted (fun a b => b <? a)%nat); intros *;
        rewrite ?Nat.ltb_ge, ?Nat.ltb_lt; lia. }
    clear -Hd. induction Hd as [|x l Hl IH Hx]; constructor; [done|].
    eapply Forall_impl; [exact Hx|]. cbn. intros y ?%Nat.ltb_ge. lia.
  - pose proof (StronglySorted_reverse _ _ Hs) as Hr.
    clear -Hr. induction Hr as [|x l' Hl IH Hx]; constructor; [done|].
    eapply Forall_impl; [exact Hx|]. cbn. lia.
  - by rewrite py_sort_perm, reverse_Permutation.
Qed.

Lemma sort_desc_indices {A} (P : A -> bool) (l : list A) (idxs : list nat) :
  NoDup idxs -> (forall i, i ∈ idxs <-> i ∈ indices_where P l) ->
  py_sort (fun a b => b <? a)%nat idxs = reverse (indices_where P l).
Proof.
  intros Hnd Hiff. apply py_sort_desc; [apply indices_where_sorted|].
  apply NoDup_Permutation; [done| |done]. apply indices_where_NoDup.
Qed.

(** ** Comprehensions over indices *)

Lemma indices_where_fmap {A B} (f : A -> B) (P : B -> bool) l :
  indices_where P (f <$> l) = indices_where (fun x => P (f x)) l.
Proof.
  induction l as [|x l IH]; [done|]. rewrite fmap_cons, !indices_where_cons. by rewrite IH.
Qed.

Lemma filter_indices_where {A} (P Q : A -> bool) (g : nat -> bool) l :
  (forall i x, l !! i = Some x -> g i = Q x) ->
  List.filter g (indices_where P l) = indices_where (fun x => P x && Q x) l.
Proof.
  intros Hg. unfold indices_where.
  assert (forall p, p ∈ enumerate l -> g p.1 = Q p.2) as Hp.
  { intros [i x] Hi. apply Hg. by apply elem_of_enumerate. }
  induction (enumerate l) as [|p ps IH]; [done|]. cbn.
  rewrite <- (Hp p) by apply list_elem_of_here. specialize (IH (fun q Hq => Hp q (list_elem_of_further _ _ _ Hq))).
  destruct (P p.2); cbn; [|exact IH]. destruct (g p.1); cbn; [|exact IH].
  f_equal. exact IH.
Qed.

Lemma select_indices_where {A} (P : A -> bool) (l : list A) :
  select_indices l (indices_where P l) = List.filter P l.
Proof.
  induction l as [|x l IH]; [done|]. rewrite indices_where_cons. unfold select_indices in *.
  rewrite omap_app. cbn [List.filter].
  assert (forall idxs, omap (fun i => (x :: l) !! i) (S <$> idxs) =
                       omap (fun i => l !! i) idxs) as ->.
  { intros idxs. induction idxs as [|i idxs IHi]; [done|]. cbn.
    destruct (l !! i); cbn; [f_equal|]; exact IHi. }
  rewrite IH. by destruct (P x).
Qed.

Lemma select_indices_fmap {A B} (f : A -> B) l idxs :
  select_indices (f <$> l) idxs = f <$> select_indices l idxs.
Proof.
  unfold select_indices. induction idxs as [|i idxs IH]; [done|]. cbn.
  rewrite list_lookup_fmap. destruct (l !! i); cbn; by rewrite IH.
Qed.

(** Removing the first [n] elements where [P] holds. *)
Fixpoint drop_first {A} (P : A -> bool) (n : nat) (l : list A) : list A :=
  match n, l with
  | O, _ => l
  | _, [] => []
  | S n', x :: l' => if P x then drop_first P n' l' else x :: drop_first P n l'
  end.

Lemma foldr_delete_first {A} (P : A -> bool) (l : list A) : forall n,
  foldr delete l (take n (indices_where P l)) = drop_first P n l.
Proof.
  induction l as [|x l IH]; intros n; [by destruct n|]. destruct n as [|n]; [done|].
  rewrite indices_where_cons. cbn [drop_first]. destruct (P x).
  - cbn [app take foldr]. rewrite <- fmap_take, foldr_delete_S, IH. done.
  - cbn [app]. rewrite <- fmap_take, foldr_delete_S, IH. done.
Qed.

Lemma drop_first_split {A} (P : A -> bool) (l : list A) : forall n,
  List.filter P (drop_first P n l) = drop n (List.filter P l) /\
  List.filter (fun x => negb (P x)) (drop_first P n l) = List.filter (fun x => negb (P x)) l.
Proof.
  induction l as [|x l IH]; intros [|n]; cbn; try done.
  destruct (P x) eqn:E; cbn; [apply IH|]. rewrite E. cbn.
  destruct (IH (S n)) as [-> ->]. done.
Qed.

(** ** Filters *)

Lemma filter_all {A} (P : A -> bool) l :
  (forall x, x ∈ l -> P x = true) -> List.filter P l = l.
Proof.
  induction l as [|x l IH]; intros H; [done|]. cbn. rewrite H by set_solver.
  f_equal. apply IH. set_solver.
Qed.

Lemma filter_none {A} (P : A -> bool) l :
  (forall x, x ∈ l -> P x = false) -> List.filter P l = [].
Proof.
  induction l as [|x l IH]; intros H; [done|]. cbn. rewrite H by set_solver.
  apply IH. set_solver.
Qed.

Lemma filter_sublist {A} (P : A -> bool) l : sublist (List.filter P l) l.
Proof.
  induction l as [|x l IH]; cbn; [done|]. destruct (P x); by constructor.
Qed.

Lemma filter_filter {A} (P Q : A -> bool) l :
  List.filter Q (List.filter P l) = List.filter (fun x => P x && Q x) l.
Proof.
  induction l as [|x l IH]; [done|]. cbn. destruct (P x); cbn; [|done].
  destruct (Q x); by rewrite IH.
Qed.

Lemma indices_where_nil {A} (P : A -> bool) l :
  indices_where P l = [] -> forall x, x ∈ l -> P x = false.
Proof.
  intros Hn x (i & Hi)%list_elem_of_lookup. destruct (P x) eqn:E; [|done].
  assert (i ∈ indices_where P l) as Hin by (apply elem_of_indices_where; eauto).
  rewrite Hn in Hin. by apply not_elem_of_nil in Hin.
Qed.

Lemma length_indices_where {A} (P : A -> bool) l :
  length (indices_where P l) = length (List.filter P l).
Proof.
  induction l as [|x l IH]; [done|]. rewrite indices_where_cons. cbn.
  rewrite length_app, length_fmap, IH. by destruct (P x).
Qed.

Lemma length_omap_Some {A B} (f : A -> option B) l :
  Forall (fun x => is_Some (f x)) l -> length (omap f l) = length l.
Proof. induction 1 as [|x l [y Hy] _ IH]; cbn; [done|]. rewrite Hy. cbn. by rewrite IH. Qed.

(** ** Counting the entries of a map *)

Section count.
  Context {A : Type}.
  Implicit Types (P : A -> bool) (m : gmap nat A).

Definition count (P : A -> bool) (m : gmap nat A) : Z :=
  Z.of_nat (size (filter (fun kv => P kv.2 = true) m)).

Lemma count_empty P : count P ∅ = 0.
Proof. unfold count. by rewrite map_filter_empty, map_size_empty. Qed.

Lemma count_insert_new P m t p :
  m !! t = None -> count P (<[t := p]> m) = count P m + Z.b2z (P p).
Proof.
  intros Hn. unfold count. destruct (P p) eqn:E; cbn.
  - rewrite map_filter_insert_True by done. rewrite map_size_insert_None; [lia|].
    apply map_lookup_filter_None. left. done.
  - rewrite map_filter_insert_False by (cbn; congruence). rewrite delete_id by done. lia.
Qed.

Lemma count_delete P m t p :
  m !! t = Some p -> count P (delete t m) = count P m - Z.b2z (P p).
Proof.
  intros Hs. rewrite <- (insert_delete_id m t p Hs) at 2.
  rewrite count_insert_new by apply lookup_delete_eq. lia.
Qed.

Lemma count_insert P m t q :
  count P (<[t := q]> m) =
    count P m + Z.b2z (P q) - match m !! t with Some p => Z.b2z (P p) | None => 0 end.
Proof.
  destruct (m !! t) as [p|] eqn:E.
  - rewrite <- insert_delete_eq, count_insert_new by apply lookup_delete_eq.
    rewrite (count_delete P m t p E). lia.
  - rewrite count_insert_new by done. lia.
Qed.

Lemma count_nonneg P m : 0 <= count P m.
Proof. unfold count. lia. Qed.

Lemma count_lookup P m t p : m !! t = Some p -> P p = true -> 0 < count P m.
Proof.
  intros Hs Hp. rewrite <- (insert_delete_id m t p Hs), count_insert_new by apply lookup_delete_eq.
  pose proof (count_nonneg P (delete t m)). rewrite Hp. cbn. lia.
Qed.

Lemma count_two P m t t' p p' :
  m !! t = Some p -> m !! t' = Some p' -> P p = true -> P p' = true -> t <> t' -> 1 < count P m.
Proof.
  intros Hs Hs' Hp Hp' Hne. rewrite <- (insert_delete_id m t p Hs), count_insert_new
    by apply lookup_delete_eq. rewrite Hp. cbn.
  assert (0 < count P (delete t m)); [|lia]. eapply count_lookup; [|exact Hp'].
  by rewrite lookup_delete_ne.
Qed.

Lemma count_pos P m : 0 < count P m -> exists t p, m !! t = Some p /\ P p = true.
Proof.
  unfold count. intros Hc.
  destruct (map_choose (filter (fun kv => P kv.2 = true) m)) as (t & p & H).
  - intros He. rewrite He, map_size_empty in Hc. lia.
  - apply map_lookup_filter_Some in H as [H1 H2]. eauto.
Qed.

Lemma count_fmap P m (f : A -> A) :
  (forall x, P (f x) = P x) -> count P (f <$> m) = count P m.
Proof.
  intros Hw. induction m as [|t p m Hn IH] using map_ind.
  - by rewrite fmap_empty.
  - rewrite fmap_insert, !count_insert_new, Hw, IH; [done|done|].
    by rewrite lookup_fmap, Hn.
Qed.
End count.

(** ** Dicts with string keys, in insertion order *)
Section kv.
Context {A : Type}.
Implicit Types (d : list (string * A)).

(** [d.get(k)]. *)
Fixpoint kv_get (k : string) d : option A :=
  match d with
  | [] => None
  | (k', v) :: d' => if decide (k' = k) then Some v else kv_get k d'
  end.

(** [d[k] = v]: in place, or at the end. *)
Fixpoint kv_set (k : string) (v : A) d : list (string * A) :=
  match d with
  | [] => [(k, v)]
  | (k', v') :: d' => if decide (k' = k) then (k, v) :: d' else (k', v') :: kv_set k v d'
  end.

(** [del d[k]], [d.pop(k, None)]. *)
Definition kv_del (k : string) d : list (string * A) :=
  List.filter (fun p => negb (bool_decide (p.1 = k))) d.

Lemma kv_get_elem k d v : NoDup d.*1 -> kv_get k d = Some v <-> (k, v) ∈ d.
Proof.
  induction d as [|[k' v'] d IH]; cbn; intros Hn; [split; [done|by intros ?%not_elem_of_nil]|].
  apply NoDup_cons in Hn as [Hk Hn]. rewrite elem_of_cons. destruct (decide (k' = k)) as [->|Hne].
  - split; [intros [= ->]; by left|]. intros [[= ->]|Hin]; [done|].
    destruct Hk. apply list_elem_of_fmap. by exists (k, v).
  - rewrite (IH Hn). split; [by right|]. by intros [[= -> ->]|].
Qed.

Lemma kv_get_None k d : kv_get k d = None <-> k ∉ d.*1.
Proof.
  induction d as [|[k' v'] d IH]; cbn; [split; [by intros _ ?%not_elem_of_nil|done]|].
  rewrite not_elem_of_cons. destruct (decide (k' = k)) as [->|Hne]; [naive_solver|].
  rewrite IH. naive_solver.
Qed.

Lemma kv_set_fst k v d : (kv_set k v d).*1 = if decide (k ∈ d.*1) then d.*1 else d.*1 ++ [k].
Proof.
  induction d as [|[k' v'] d IH]; cbn; [by rewrite decide_False by apply not_elem_of_nil|].
  destruct (decide (k' = k)) as [->|Hne]; cbn.
  - by rewrite decide_True by apply list_elem_of_here.
  - rewrite IH. destruct (decide (k ∈ d.*1)) as [Hin|Hni].
    + by rewrite decide_True by (by apply list_elem_of_further).
    + by rewrite decide_False by (rewrite elem_of_cons; naive_solver).
Qed.

Lemma kv_set_NoDup k v d : NoDup d.*1 -> NoDup (kv_set k v d).*1.
Proof.
  intros Hn. rewrite kv_set_fst. destruct (decide _) as [|Hni]; [done|].
  apply NoDup_app. split; [done|]. split; [|apply NoDup_singleton].
  intros x Hx ->%list_elem_of_singleton. done.
Qed.

Lemma kv_get_set k k' v d :
  kv_get k' (kv_set k v d) = if decide (k = k') then Some v else kv_get k' d.
Proof.
  induction d as [|[k2 v2] d IH]; cbn; [done|].
  destruct (decide (k2 = k)) as [->|Hne]; cbn; [by destruct (decide (k = k'))|].
  rewrite IH. destruct (decide (k2 = k')), (decide (k = k')); congruence.
Qed.

Lemma elem_of_kv_set k v d p :
  NoDup d.*1 -> p ∈ kv_set k v d <-> p = (k, v) \/ (p ∈ d /\ p.1 <> k).
Proof.
  intros Hn. destruct p as [k' v'].
  rewrite <- !kv_get_elem by auto using kv_set_NoDup. rewrite kv_get_set. cbn.
  destruct (decide (k = k')) as [->|]; naive_solver.
Qed.

Lemma kv_del_sublist k d : sublist (kv_del k d) d.
Proof. apply filter_sublist. Qed.

Lemma kv_del_NoDup k d : NoDup d.*1 -> NoDup (kv_del k d).*1.
Proof. intros Hn. eapply sublist_NoDup; [exact Hn|]. by apply fmap_sublist, kv_del_sublist. Qed.

Lemma elem_of_kv_del k d p : p ∈ kv_del k d <-> p ∈ d /\ p.1 <> k.
Proof.
  unfold kv_del. rewrite list_filter_elem_of, negb_true_iff, bool_decide_eq_false. done.
Qed.
End kv.

Lemma kv_set_same {V} k v (d : list (string * V)) : kv_get k d = Some v -> kv_set k v d = d.
Proof.
  induction d as [|[k' w] d IH]; cbn; [done|]. destruct (decide (k' = k)) as [->|].
  - by intros [= ->].
  - intros H. by rewrite IH.
Qed.

Lemma kv_set_split {A} k (v : A) d :
  kv_get k d = Some v ->
  exists d1 d2, d = d1 ++ (k, v) :: d2 /\ forall v', kv_set k v' d = d1 ++ (k, v') :: d2.
Proof.
  induction d as [|[k' x] d IH]; cbn; [done|]. destruct (decide (k' = k)) as [->|Hne].
  - intros [= ->]. by exists [], d.
  - intros (d1 & d2 & -> & Hd)%IH. exists ((k', x) :: d1), d2. split; [done|]. intros v'.
    by rewrite Hd.
Qed.

Lemma length_join_same {A} (k : nat) (rows : list (list A)) : Forall (fun r => length r = k) rows -> length (mjoin rows) = (length rows * k)%nat.
Proof. induction 1 as [|r rows Hr _ IH]; [done|]. cbn [mjoin list_join length Nat.mul]. rewrite length_app, Hr. f_equal. exact IH. Qed.

Lemma join_cons {A} (a : list A) l : mjoin (a :: l) = (a ++ mjoin l)%list.
Proof. done. Qed.

Lemma concat_join {A} (l : list (list A)) : concat l = mjoin l.
Proof. induction l as [|x l IH]; [done|]. rewrite join_cons. cbn. by rewrite IH. Qed.

(** The little-endian bytes of an integer. *)
Fixpoint le_bytes (w : nat) (z : Z) : list Z :=
  match w with O => [] | S w' => z mod 256 :: le_bytes w' (z / 256) end.
