(* ===== verification/Allocator.v ===== *)
(** * First-fit free-list allocator of the NIXL storage units

    Models [src/nemo_rl/data_plane/nixl/allocator.py].  A region is a byte
    range of a pinned slab; [SlabAllocator] keeps the free ranges sorted and
    coalesced, and parks freed regions that may still be the target of a
    one-sided read in a quarantine until their release time.

    Times ([release_at], [now]) are only compared, so they are integers.
    The optional [on_free] callback is caller code; the model records the
    calls made to it in [on_free_calls]. *)

From S2P Require Import Prelude.

Module SlabAllocator.

Definition align_up (n align : Z) : Z := (n + align - 1) / align * align.

Record Range := mkRange { off : Z; size : Z }.

(** [@dataclass(order=True)]: lexicographic on [(off, size)]. *)
Definition range_ltb (r1 r2 : Range) : bool :=
  (off r1 <? off r2) || ((off r1 =? off r2) && (size r1 <? size r2)).

(** An entry of [_quarantine]: [(release_at, off, nbytes)]. *)
Record QEntry := mkQ { release_at : Z; q_off : Z; q_nbytes : Z }.

Record t := mk {
  capacity : Z;
  align : Z;
  on_free : bool;
  free_list : list Range;
  quarantined : list QEntry;
  used_bytes : Z;
  on_free_calls : list (Z * Z) }.

Definition set_free (l : list Range) (used : Z) (a : t) : t :=
  mk (capacity a) (align a) (on_free a) l (quarantined a) used (on_free_calls a).
Definition set_quarantine (q : list QEntry) (a : t) : t :=
  mk (capacity a) (align a) (on_free a) (free_list a) q (used_bytes a) (on_free_calls a).

Definition init (cap al : Z) (cb : bool) : res t :=
  _ ← raise_if (cap <=? 0) ValueError;
  _ ← raise_if ((al <=? 0) || negb (Z.land al (al - 1) =? 0)) ValueError;
  Ok (mk cap al cb [mkRange 0 cap] [] 0 []).

(** *** alloc / free *)

(** The loop of [alloc]: first range that is large enough; it is deleted when
    it fits exactly and shrunk from the left otherwise. *)
Fixpoint first_fit (sz : Z) (l : list Range) : option (Z * list Range) :=
  match l with
  | [] => None
  | r :: l' =>
      if sz <=? size r then
        Some (off r, if size r =? sz then l'
                     else mkRange (off r + sz) (size r - sz) :: l')
      else '(o, l'') ← first_fit sz l'; Some (o, r :: l'')
  end.

Definition alloc (nbytes : Z) (a : t) : res (Z * t) :=
  _ ← raise_if (nbytes <=? 0) ValueError;
  let sz := align_up nbytes (align a) in
  match first_fit sz (free_list a) with
  | Some (o, l) => Ok (o, set_free l (used_bytes a + sz) a)
  | None => Raise UnitFull
  end.

(** Insertion of a freed range at index [i], merging with its neighbours. *)
Definition insert_free (o sz : Z) (l : list Range) : list Range :=
  let i := bisect (fun x => range_ltb x (mkRange o sz)) l in
  let '(l1, rsize) :=
    match l !! i with
    | Some r => if off r =? o + sz then (delete i l, sz + size r) else (l, sz)
    | None => (l, sz)
    end in
  match (if (0 <? i)%nat then l1 !! (i - 1)%nat else None) with
  | Some r =>
      if off r + size r =? o
      then <[(i - 1)%nat := mkRange (off r) (size r + rsize)]> l1
      else list_insert_at i (mkRange o rsize) l1
  | None => list_insert_at i (mkRange o rsize) l1
  end.

Definition free (o nbytes : Z) (a : t) : res t :=
  let sz := align_up nbytes (align a) in
  _ ← raise_if ((o <? 0) || (capacity a <? o + sz)) ValueError;
  let calls := if on_free a then on_free_calls a ++ [(o, nbytes)]
               else on_free_calls a in
  Ok (mk (capacity a) (align a) (on_free a) (insert_free o sz (free_list a))
         (quarantined a) (used_bytes a - sz) calls).

(** *** quarantine *)

Definition quarantine (o nbytes rel : Z) (a : t) : t :=
  set_quarantine (quarantined a ++ [mkQ rel o nbytes]) a.

(** The loop of [reclaim] over the quarantine as it was on entry.  When a
    [free] raises, the regions freed before it stay freed and [_quarantine]
    is not updated. *)
Fixpoint reclaim_loop (now : Z) (items keep : list QEntry) (n : Z) (a : t)
    : t * res Z :=
  match items with
  | [] => (set_quarantine keep a, Ok n)
  | it :: items' =>
      if release_at it <=? now then
        match free (q_off it) (q_nbytes it) a with
        | Ok a' => reclaim_loop now items' keep (n + 1) a'
        | Raise e => (a, Raise e)
        end
      else reclaim_loop now items' (keep ++ [it]) n a
  end.

Definition reclaim (now : Z) (a : t) : t * res Z :=
  match quarantined a with
  | [] => (a, Ok 0)
  | items => reclaim_loop now items [] 0 a
  end.

(** *** stats *)

Definition free_bytes (a : t) : Z := zsum (size <$> free_list a).
Definition quarantined_bytes (a : t) : Z :=
  zsum ((fun q => align_up (q_nbytes q) (align a)) <$> quarantined a).
Definition largest_free (a : t) : Z :=
  match size <$> free_list a with
  | [] => 0
  | s :: l => foldl Z.max s l
  end.
Definition fragments (a : t) : nat := length (free_list a).

(** ** Well-formed allocators *)

(** [x] is a byte of the region [[o, o+sz)]. *)
Definition in_region (o sz x : Z) : Prop := o <= x < o + sz.

(** Byte [x] is free. *)
Definition free_byte (l : list Range) (x : Z) : Prop :=
  exists r, r ∈ l /\ in_region (off r) (size r) x.

(** Consecutive free ranges are separated by at least one byte: sorted,
    disjoint and fully coalesced. *)
Definition apart (r1 r2 : Range) : Prop := off r1 + size r1 < off r2.

Definition in_slab (cap : Z) (r : Range) : Prop :=
  0 <= off r /\ 0 < size r /\ off r + size r <= cap.

Definition free_list_ok (cap : Z) (l : list Range) : Prop :=
  StronglySorted apart l /\ Forall (in_slab cap) l.

Record wf (a : t) : Prop := mk_wf {
  wf_capacity : 0 < capacity a;
  wf_align : 0 < align a;
  wf_free : free_list_ok (capacity a) (free_list a);
  wf_used : used_bytes a + free_bytes a = capacity a }.

(** ** Arithmetic of alignment *)

Lemma align_up_ge n al : 0 < al -> n <= align_up n al.
Proof.
  intros Hal. unfold align_up.
  pose proof (Z.div_mod (n + al - 1) al ltac:(lia)).
  pose proof (Z.mod_pos_bound (n + al - 1) al Hal). lia.
Qed.

Lemma align_up_lt n al : 0 < al -> align_up n al < n + al.
Proof.
  intros Hal. unfold align_up.
  pose proof (Z.div_mod (n + al - 1) al ltac:(lia)).
  pose proof (Z.mod_pos_bound (n + al - 1) al Hal). lia.
Qed.

Lemma align_up_divide n al : 0 < al -> (al | align_up n al).
Proof. intros _. unfold align_up. apply Z.divide_factor_r. Qed.

Lemma align_up_pos n al : 0 < al -> 0 < n -> 0 < align_up n al.
Proof. intros Hal Hn. pose proof (align_up_ge n al Hal). lia. Qed.

(** ** Free lists *)

Lemma free_byte_app l1 l2 x :
  free_byte (l1 ++ l2) x <-> free_byte l1 x \/ free_byte l2 x.
Proof. unfold free_byte. set_solver. Qed.

Lemma free_byte_cons r l x :
  free_byte (r :: l) x <-> in_region (off r) (size r) x \/ free_byte l x.
Proof. unfold free_byte. set_solver. Qed.

Lemma free_byte_nil x : ~ free_byte [] x.
Proof. unfold free_byte. set_solver. Qed.

Lemma free_list_ok_app cap l1 l2 :
  free_list_ok cap (l1 ++ l2) <->
  free_list_ok cap l1 /\ free_list_ok cap l2 /\
  (forall r1 r2, r1 ∈ l1 -> r2 ∈ l2 -> apart r1 r2).
Proof.
  unfold free_list_ok. rewrite StronglySorted_app, Forall_app. naive_solver.
Qed.

Lemma free_list_ok_cons cap r l :
  free_list_ok cap (r :: l) <->
  in_slab cap r /\ free_list_ok cap l /\ (forall r2, r2 ∈ l -> apart r r2).
Proof.
  unfold free_list_ok. rewrite Forall_cons. split.
  - intros [[Hs Hr]%StronglySorted_inv Hf]. rewrite Forall_forall in Hr. naive_solver.
  - intros (? & [? ?] & ?). split; [|done]. constructor; [done|].
    by apply Forall_forall.
Qed.

Lemma free_list_ok_nil cap : free_list_ok cap [].
Proof. split; constructor. Qed.

(** *** First fit *)

Lemma first_fit_None sz l :
  first_fit sz l = None <-> forall r, r ∈ l -> size r < sz.
Proof.
  induction l as [|r l IH]; cbn; [set_solver|].
  destruct (Z.leb_spec sz (size r)).
  - split; [done|]. intros Hs. specialize (Hs r ltac:(left)). lia.
  - split.
    + intros Hn r' [->|Hr']%elem_of_cons; [done|]. apply IH; [|done].
      by destruct (first_fit sz l) as [[o l']|].
    + intros Hs. by rewrite (proj2 IH (fun r' Hr' => Hs r' ltac:(by right))).
Qed.

(** What a successful search returns: the region was free, and the free list
    now covers exactly the other free bytes. *)
Record carved (cap sz : Z) (l : list Range) (o : Z) (l' : list Range) : Prop := {
  carved_ok : free_list_ok cap l';
  carved_slab : in_slab cap (mkRange o sz);
  carved_free : forall x, in_region o sz x -> free_byte l x;
  carved_bytes : forall x, free_byte l' x <-> free_byte l x /\ ~ in_region o sz x;
  carved_sum : zsum (size <$> l') = zsum (size <$> l) - sz;
  carved_from : forall r', r' ∈ l' -> exists r, r ∈ l /\ off r <= off r' }.

Lemma carve_head cap sz r l :
  0 < sz -> sz <= size r -> free_list_ok cap (r :: l) ->
  carved cap sz (r :: l) (off r)
    (if size r =? sz then l else mkRange (off r + sz) (size r - sz) :: l).
Proof.
  intros Hsz Hfit Hok. apply free_list_ok_cons in Hok as (Hr & Hl & Hap).
  unfold in_slab, apart in *.
  assert (forall x, free_byte l x -> off r + size r < x) as Hafter.
  { intros x (r2 & Hr2 & Hx). specialize (Hap _ Hr2). unfold in_region in Hx. lia. }
  destruct (Z.eqb_spec (size r) sz) as [He|Hne].
  - split; unfold in_slab; cbn; try done; try lia.
    + intros x Hx. apply free_byte_cons. left. unfold in_region in *. lia.
    + intros x. rewrite free_byte_cons. split.
      * intros Hx. split; [by right|]. apply Hafter in Hx. unfold in_region. lia.
      * intros [[Hx|Hx] Hn]; [|done]. unfold in_region in *. lia.
    + intros r' Hr'. exists r'. split; [by right|lia].
  - split; unfold in_slab; cbn; try lia.
    + apply free_list_ok_cons. unfold in_slab, apart; cbn. split_and!; try lia; [done|].
      intros r2 Hr2. specialize (Hap _ Hr2). lia.
    + intros x Hx. apply free_byte_cons. left. unfold in_region in *. lia.
    + intros x. rewrite !free_byte_cons. cbn. split.
      * intros [Hx|Hx].
        -- split; [left|]; unfold in_region in *; lia.
        -- split; [by right|]. apply Hafter in Hx. unfold in_region. lia.
      * intros [[Hx|Hx] Hn]; [left|by right]. unfold in_region in *. lia.
    + intros r' [->|Hr']%elem_of_cons.
      * exists r. split; [by left|cbn; lia].
      * exists r'. split; [by right|lia].
Qed.

Lemma first_fit_Some cap sz l o l' :
  0 < sz -> free_list_ok cap l -> first_fit sz l = Some (o, l') ->
  carved cap sz l o l'.
Proof.
  intros Hsz. revert o l'. induction l as [|r l IH]; intros o l' Hok; [done|].
  cbn. destruct (Z.leb_spec sz (size r)) as [Hfit|Hno].
  { intros [= <- <-]. by apply carve_head. }
  destruct (first_fit sz l) as [[o1 l1]|]; cbn; [|done]. intros [= <- <-].
  apply free_list_ok_cons in Hok as (Hr & Hl & Hap).
  destruct (IH o1 l1 Hl eq_refl) as [Hok1 Hs Hf Hb Hsum Hfrom]. split; try done.
  - apply free_list_ok_cons. split_and!; [done..|]. intros r2 Hr2.
    destruct (Hfrom _ Hr2) as (r1 & Hr1 & Hle). specialize (Hap _ Hr1).
    unfold apart in *. lia.
  - intros x Hx. apply free_byte_cons. right. by apply Hf.
  - intros x. rewrite !free_byte_cons, Hb. split; [|naive_solver].
    intros [Hx|[Hx Hn]]; [|naive_solver]. split; [by left|]. intros Hin.
    destruct (Hf _ Hin) as (r1 & Hr1 & Hx1). specialize (Hap _ Hr1).
    unfold apart, in_region in *. lia.
  - cbn. lia.
  - intros r' [->|Hr']%elem_of_cons; [exists r; split; [by left|lia]|].
    destruct (Hfrom _ Hr') as (r1 & Hr1 & Hle). exists r1. split; [by right|lia].
Qed.

(** *** Insertion with coalescing *)

(** Where [bisect_left] splits the free list for a region that is not free. *)
Lemma bisect_split cap o sz l :
  0 < sz -> free_list_ok cap l ->
  (forall x, in_region o sz x -> ~ free_byte l x) ->
  exists l1 l2, l = l1 ++ l2 /\
    bisect (fun x => range_ltb x (mkRange o sz)) l = length l1 /\
    (forall r, r ∈ l1 -> off r + size r <= o) /\
    (forall r, r ∈ l2 -> o + sz <= off r).
Proof.
  intros Hsz [Hs Hb] Hdis.
  assert (forall r, r ∈ l -> off r + size r <= o \/ o + sz <= off r) as Hsep.
  { intros r Hr. rewrite Forall_forall in Hb. specialize (Hb _ Hr).
    destruct (decide (off r + size r <= o)); [by left|].
    destruct (decide (o + sz <= off r)); [by right|]. exfalso.
    apply (Hdis (Z.max o (off r))); unfold in_slab, in_region in *; [lia|].
    exists r. unfold in_region. split; [done|lia]. }
  assert (forall r, r ∈ l -> range_ltb r (mkRange o sz) = true <->
            off r + size r <= o) as Hiff.
  { intros r Hr. unfold range_ltb; cbn. rewrite orb_true_iff, andb_true_iff,
      !Z.ltb_lt, Z.eqb_eq.
    rewrite Forall_forall in Hb. specialize (Hb _ Hr). unfold in_slab in Hb.
    destruct (Hsep _ Hr); lia. }
  destruct (bisect_spec (fun x => range_ltb x (mkRange o sz)) l) as (Hk & Hlo & Hhi).
  { intros i j x y Hij Hx Hy Hgo.
    apply Hiff; [by eapply list_elem_of_lookup_2|].
    apply Hiff in Hgo; [|by eapply list_elem_of_lookup_2].
    destruct (decide (i = j)) as [->|]; [by simplify_eq|].
    assert (apart x y) as Ha.
    { eapply StronglySorted_lookup_lt; [done| |done|done]. lia. }
    rewrite Forall_forall in Hb. specialize (Hb y ltac:(by eapply list_elem_of_lookup_2)).
    unfold apart, in_slab in *. lia. }
  set (k := bisect _ l) in *. exists (take k l), (drop k l).
  split_and!.
  - by rewrite take_drop.
  - rewrite length_take. lia.
  - intros r (i & Hi)%list_elem_of_lookup. apply lookup_take_Some in Hi as [Hi Hlt].
    apply Hiff; [by eapply list_elem_of_lookup_2|]. by eapply Hlo.
  - intros r (i & Hi)%list_elem_of_lookup. rewrite lookup_drop in Hi.
    specialize (Hhi (k + i)%nat r ltac:(lia) Hi).
    destruct (Hsep r ltac:(by eapply list_elem_of_lookup_2)) as [Hc|]; [|done].
    apply Hiff in Hc; [|by eapply list_elem_of_lookup_2].
    by rewrite Hc in Hhi.
Qed.

(** The right neighbour, when it starts where the freed region ends. *)
Definition merge_right (o sz : Z) (l2 : list Range) : list Range * Z :=
  match l2 with
  | r :: l2' => if off r =? o + sz then (l2', sz + size r) else (l2, sz)
  | [] => ([], sz)
  end.

(** The left neighbour, when it ends where the freed region starts. *)
Definition merge_left (o sz : Z) (l1 : list Range) : list Range :=
  match last l1 with
  | Some p => if off p + size p =? o
              then removelast l1 ++ [mkRange (off p) (size p + sz)]
              else l1 ++ [mkRange o sz]
  | None => [mkRange o sz]
  end.

Lemma insert_free_split o sz l1 l2 :
  bisect (fun x => range_ltb x (mkRange o sz)) (l1 ++ l2) = length l1 ->
  insert_free o sz (l1 ++ l2) =
    merge_left o (merge_right o sz l2).2 l1 ++ (merge_right o sz l2).1.
Proof.
  intros Hk. unfold insert_free. rewrite Hk.
  assert ((match (l1 ++ l2) !! length l1 with
    | Some r => if off r =? o + sz then (delete (length l1) (l1 ++ l2), sz + size r)
                else (l1 ++ l2, sz)
    | None => (l1 ++ l2, sz) end)
    = (l1 ++ (merge_right o sz l2).1, (merge_right o sz l2).2)) as ->.
  { rewrite lookup_app_r, Nat.sub_diag by lia. unfold merge_right.
    destruct l2 as [|r l2]; cbn; [done|]. split_if; [|done].
    by rewrite delete_middle. }
  cbn zeta iota. set (l2' := (merge_right o sz l2).1).
  set (rs := (merge_right o sz l2).2). unfold merge_left.
  destruct l1 as [|p l1 _] using rev_ind.
  - cbn. unfold list_insert_at. by rewrite take_0, drop_0.
  - rewrite last_snoc, length_app; cbn [length].
    destruct (Nat.ltb_spec 0 (length l1 + 1)); [|lia].
    replace (length l1 + 1 - 1)%nat with (length l1) by lia.
    rewrite <- app_assoc; cbn [app]. rewrite list_lookup_middle by done.
    rewrite removelast_last. split_if.
    + rewrite <- app_assoc; cbn [app]. by rewrite insert_app_r_alt, Nat.sub_diag by lia.
    + unfold list_insert_at.
      replace (l1 ++ p :: l2') with ((l1 ++ [p]) ++ l2') by (by rewrite <- app_assoc).
      rewrite take_app_length', drop_app_length' by (rewrite length_app; cbn; lia).
      by rewrite <- !app_assoc.
Qed.

(** What [insert_free] returns: exactly the region became free. *)
Record released (cap o sz : Z) (l l' : list Range) : Prop := {
  released_ok : free_list_ok cap l';
  released_bytes : forall x, free_byte l' x <-> free_byte l x \/ in_region o sz x;
  released_sum : zsum (size <$> l') = zsum (size <$> l) + sz }.

Lemma merge_right_released cap o sz l2 :
  0 < sz -> 0 <= o -> o + sz <= cap -> free_list_ok cap l2 ->
  (forall r, r ∈ l2 -> o + sz <= off r) ->
  released cap o sz l2 (mkRange o (merge_right o sz l2).2 :: (merge_right o sz l2).1).
Proof.
  intros Hsz Ho Hcap Hok Hafter. unfold merge_right.
  destruct l2 as [|r l2]; cbn.
  { split.
    - apply free_list_ok_cons. unfold in_slab; cbn. split_and!; try lia;
        [apply free_list_ok_nil|set_solver].
    - intros x. rewrite free_byte_cons. cbn. pose proof (free_byte_nil x). naive_solver.
    - cbn. lia. }
  apply free_list_ok_cons in Hok as (Hr & Hl & Hap).
  unfold in_slab in Hr. specialize (Hafter r ltac:(left)) as Hr'.
  split_if; bool_to_prop; split; cbn.
  - apply free_list_ok_cons. unfold in_slab, apart; cbn. split_and!; try lia; [done|].
    intros r2 Hr2. specialize (Hap _ Hr2). unfold apart in Hap. lia.
  - intros x. rewrite !free_byte_cons. cbn. unfold in_region.
    intuition lia.
  - lia.
  - apply free_list_ok_cons. unfold in_slab; cbn. split_and!; try lia.
    + apply free_list_ok_cons. done.
    + intros r2 [->|Hr2]%elem_of_cons; unfold apart; cbn; [lia|].
      specialize (Hap _ Hr2). unfold apart in Hap. lia.
  - intros x. rewrite !free_byte_cons. cbn. naive_solver.
  - lia.
Qed.

Lemma merge_left_released cap o sz l1 l2 :
  0 < sz -> free_list_ok cap l1 -> free_list_ok cap (mkRange o sz :: l2) ->
  (forall r, r ∈ l1 -> off r + size r <= o) ->
  released cap o sz (l1 ++ l2) (merge_left o sz l1 ++ l2).
Proof.
  intros Hsz Hok1 Hok2 Hbefore. unfold merge_left.
  apply free_list_ok_cons in Hok2 as (Hn & Hl2 & Hap2). unfold in_slab in Hn; cbn in Hn.
  destruct l1 as [|p l1 _] using rev_ind; cbn.
  { split; cbn.
    - apply free_list_ok_cons. unfold in_slab; cbn. split_and!; done || lia.
    - intros x. rewrite free_byte_cons. cbn. naive_solver.
    - lia. }
  rewrite last_snoc. apply free_list_ok_app in Hok1 as (Hl1 & Hp & Hap1).
  apply free_list_ok_cons in Hp as (Hp & _ & _). unfold in_slab in Hp.
  specialize (Hbefore p ltac:(set_solver)) as Hpo.
  assert (forall r1 r2, r1 ∈ l1 -> r2 ∈ l2 -> apart r1 r2) as Hap12.
  { intros r1 r2 H1 H2. specialize (Hap1 r1 p H1 ltac:(left)).
    specialize (Hap2 r2 H2). unfold apart in *; cbn in *. lia. }
  rewrite removelast_last. split_if; bool_to_prop; rewrite <- !app_assoc; cbn; split.
  - apply free_list_ok_app. split_and!; [done| |].
    + apply free_list_ok_cons. unfold in_slab; cbn. split_and!; try lia; [done|].
      intros r2 H2. specialize (Hap2 r2 H2). unfold apart in *; cbn in *. lia.
    + intros r1 r2 H1 [->|H2]%elem_of_cons; [|auto].
      specialize (Hap1 r1 p H1 ltac:(left)). unfold apart in *; cbn in *. lia.
  - intros x. rewrite !free_byte_app, !free_byte_cons. cbn. unfold in_region.
    intuition lia.
  - rewrite !fmap_app, !zsum_app. cbn. lia.
  - apply free_list_ok_app. split_and!; [done| |].
    + apply free_list_ok_cons. unfold in_slab; cbn. split_and!; try lia.
      * apply free_list_ok_cons. unfold in_slab; cbn. split_and!; done || lia.
      * intros r2 [->|H2]%elem_of_cons; unfold apart in *; cbn; [lia|].
        specialize (Hap2 r2 H2). cbn in *. lia.
    + intros r1 r2 H1 [->|[->|H2]%elem_of_cons]%elem_of_cons; [set_solver| |auto].
      specialize (Hap1 r1 p H1 ltac:(left)). unfold apart in *; cbn in *. lia.
  - intros x. rewrite !free_byte_app, !free_byte_cons. cbn. tauto.
  - rewrite !fmap_app, !zsum_app. cbn. lia.
Qed.

Lemma released_trans cap o sz l l1 l2 :
  (forall x, free_byte l1 x <-> free_byte l x) ->
  zsum (size <$> l1) = zsum (size <$> l) ->
  released cap o sz l1 l2 -> released cap o sz l l2.
Proof.
  intros Hb Hs [H1 H2 H3]. split; [done| |lia]. intros x. by rewrite H2, Hb.
Qed.

Lemma insert_free_released cap o sz l :
  0 < sz -> 0 <= o -> o + sz <= cap -> free_list_ok cap l ->
  (forall x, in_region o sz x -> ~ free_byte l x) ->
  released cap o sz l (insert_free o sz l).
Proof.
  intros Hsz Ho Hcap Hok Hdis.
  destruct (bisect_split cap o sz l Hsz Hok Hdis) as (l1 & l2 & -> & Hk & H1 & H2).
  apply free_list_ok_app in Hok as (Hok1 & Hok2 & Hap).
  rewrite insert_free_split by done.
  destruct (merge_right_released cap o sz l2) as [Hr1 Hr2 Hr3]; try done.
  set (rs := (merge_right o sz l2).2) in *. set (l2' := (merge_right o sz l2).1) in *.
  cbn in Hr3.
  assert (0 < rs) as Hrs.
  { apply free_list_ok_cons in Hr1 as ((_ & Hpos & _) & _ & _). exact Hpos. }
  destruct (merge_left_released cap o rs l1 l2') as [Hl1 Hl2 Hl3]; try done.
  split; [done| |].
  - intros x. rewrite Hl2, !free_byte_app. specialize (Hr2 x).
    rewrite free_byte_cons in Hr2. cbn in Hr2. tauto.
  - rewrite Hl3, !fmap_app, !zsum_app. lia.
Qed.

(** ** Operations preserve well-formedness *)

Lemma init_wf cap al cb a : init cap al cb = Ok a -> wf a.
Proof.
  unfold init. intros H. inv_res. bool_to_prop. split; cbn; try lia.
  - apply free_list_ok_cons. unfold in_slab; cbn. split_and!; try lia;
      [apply free_list_ok_nil|set_solver].
Qed.

(** What a successful [alloc] does. *)
Lemma alloc_Ok a nbytes o a' :
  wf a -> alloc nbytes a = Ok (o, a') ->
  let sz := align_up nbytes (align a) in
  0 < nbytes /\
  carved (capacity a) sz (free_list a) o (free_list a') /\
  a' = set_free (free_list a') (used_bytes a + sz) a.
Proof.
  intros Hwf H. unfold alloc in H. inv_res. bool_to_prop.
  destruct (first_fit _ _) as [[o' l']|] eqn:E; inv_res.
  split_and!; [done| |done]. cbn. apply first_fit_Some; [|apply Hwf|done].
  apply align_up_pos; [apply Hwf|done].
Qed.

Lemma alloc_wf a nbytes o a' : wf a -> alloc nbytes a = Ok (o, a') -> wf a'.
Proof.
  intros Hwf H. destruct (alloc_Ok a nbytes o a' Hwf H) as (Hn & Hc & ->).
  destruct Hwf as [Hcap Hal Hfr Hu], Hc. unfold free_bytes in Hu. split; cbn; try done.
  unfold free_bytes; cbn. lia.
Qed.

(** What a successful [free] of an allocated region does. *)
Lemma free_Ok a o nbytes a' :
  wf a -> 0 < nbytes ->
  (forall x, in_region o (align_up nbytes (align a)) x -> ~ free_byte (free_list a) x) ->
  free o nbytes a = Ok a' ->
  let sz := align_up nbytes (align a) in
  released (capacity a) o sz (free_list a) (free_list a') /\
  capacity a' = capacity a /\ align a' = align a /\
  quarantined a' = quarantined a /\ used_bytes a' = used_bytes a - sz.
Proof.
  intros Hwf Hn Hdis H. unfold free in H. inv_res. bool_to_prop. cbn.
  split_and!; try done. destruct Hwf. apply insert_free_released; try done.
  by apply align_up_pos.
Qed.

Lemma free_wf a o nbytes a' :
  wf a -> 0 < nbytes ->
  (forall x, in_region o (align_up nbytes (align a)) x -> ~ free_byte (free_list a) x) ->
  free o nbytes a = Ok a' -> wf a'.
Proof.
  intros Hwf Hn Hdis H.
  destruct (free_Ok a o nbytes a' Hwf Hn Hdis H) as (Hr & Hc & Ha & _ & Hu).
  destruct Hwf as [Hcap Hal Hfr Hu0], Hr. unfold free_bytes in *.
  split; unfold free_bytes; rewrite ?Hc, ?Ha; try done. lia.
Qed.

(** ** Ownership of regions

    [owns a regs]: the regions handed out and not yet given back are [regs];
    together with the free list they partition the slab. *)

Definition region : Type := Z * Z.   (* (off, nbytes) *)

Definition covers (al : Z) (regs : list region) (x : Z) : Prop :=
  exists o n, (o, n) ∈ regs /\ in_region o (align_up n al) x.

Definition disjoint_regions (al : Z) (r1 r2 : region) : Prop :=
  r1.1 + align_up r1.2 al <= r2.1 \/ r2.1 + align_up r2.2 al <= r1.1.

Definition valid_region (cap al : Z) (r : region) : Prop :=
  0 < r.2 /\ 0 <= r.1 /\ r.1 + align_up r.2 al <= cap.

Record owns (a : t) (regs : list region) : Prop := mk_owns {
  owns_wf : wf a;
  owns_valid : Forall (valid_region (capacity a) (align a)) regs;
  owns_disjoint : StronglySorted (disjoint_regions (align a)) regs;
  owns_not_free : forall x, free_byte (free_list a) x -> ~ covers (align a) regs x;
  owns_all : forall x, 0 <= x < capacity a ->
               free_byte (free_list a) x \/ covers (align a) regs x;
  owns_used : used_bytes a = zsum ((fun r => align_up r.2 (align a)) <$> regs) }.

Lemma covers_cons al o n regs x :
  covers al ((o, n) :: regs) x <-> in_region o (align_up n al) x \/ covers al regs x.
Proof. unfold covers. set_solver. Qed.

Lemma disjoint_regions_sym al r1 r2 :
  disjoint_regions al r1 r2 -> disjoint_regions al r2 r1.
Proof. unfold disjoint_regions. tauto. Qed.

Lemma owns_perm a regs regs' : regs ≡ₚ regs' -> owns a regs -> owns a regs'.
Proof.
  intros Hp [Hwf Hv Hd Hn Ha Hu].
  assert (forall x, covers (align a) regs' x <-> covers (align a) regs x) as Hc.
  { intros x. unfold covers. by setoid_rewrite Hp. }
  split; try done.
  - by rewrite <- Hp.
  - eapply StronglySorted_sym_perm; [apply disjoint_regions_sym|done..].
  - intros x. rewrite Hc. auto.
  - intros x. rewrite Hc. auto.
  - by rewrite Hu, Hp.
Qed.

#[export] Instance owns_proper a : Proper ((≡ₚ) ==> iff) (owns a).
Proof. intros l1 l2 Hp. split; apply owns_perm; done. Qed.

Lemma init_owns cap al cb a : init cap al cb = Ok a -> owns a [].
Proof.
  intros H. pose proof (init_wf _ _ _ _ H) as Hwf. unfold init in H. inv_res.
  split; try done; cbn; try constructor.
  - intros y _ (o & n & Hin & _). by apply not_elem_of_nil in Hin.
  - apply free_byte_cons. by left.
Qed.

Lemma alloc_owns a regs nbytes o a' :
  owns a regs -> alloc nbytes a = Ok (o, a') -> owns a' ((o, nbytes) :: regs).
Proof.
  intros [Hwf Hv Hd Hn Ha Hu] H. pose proof (alloc_wf _ _ _ _ Hwf H) as Hwf'.
  destruct (alloc_Ok _ _ _ _ Hwf H) as (Hpos & [Hok [Ho Hsz] Hf Hb _ _] & Ha').
  assert (0 < align a) as Hal by apply Hwf. cbn in Ho, Hsz.
  rewrite Ha' in *. cbn in *. split; cbn; try done.
  - constructor; [|done]. unfold valid_region; cbn. lia.
  - constructor; [done|]. apply Forall_forall. intros [o2 n2] Hr2.
    rewrite Forall_forall in Hv. destruct (Hv _ Hr2) as (Hp2 & Ho2 & Hc2). cbn in *.
    pose proof (align_up_pos n2 (align a) Hal Hp2). unfold disjoint_regions; cbn.
    destruct (decide (o + align_up nbytes (align a) <= o2)); [by left|].
    destruct (decide (o2 + align_up n2 (align a) <= o)); [by right|]. exfalso.
    apply (Hn (Z.max o o2)).
    + apply Hf. unfold in_region. lia.
    + exists o2, n2. unfold in_region. split; [done|lia].
  - intros x [Hx1 Hx2]%Hb [?|?]%covers_cons; [done|]. by eapply Hn.
  - intros x Hx. rewrite covers_cons.
    destruct (decide (o <= x < o + align_up nbytes (align a))); [by right; left|].
    destruct (Ha x Hx) as [Hx'|]; [left|by right; right]. by apply Hb.
  - lia.
Qed.

Lemma free_owns a regs o n :
  owns a ((o, n) :: regs) -> exists a', free o n a = Ok a' /\ owns a' regs /\
  capacity a' = capacity a /\ align a' = align a /\ quarantined a' = quarantined a.
Proof.
  intros [Hwf Hv Hd Hn Ha Hu].
  apply Forall_cons in Hv as [(Hp & Ho & Hc) Hv]. cbn in *.
  apply StronglySorted_inv in Hd as [Hd Hdo].
  destruct (free o n a) as [a'|e] eqn:E.
  2: { exfalso. unfold free in E.
       destruct ((o <? 0) || (capacity a <? _)) eqn:Hg; [|discriminate E].
       apply orb_true_iff in Hg as [?|?]; bool_to_prop; lia. }
  assert (forall x, in_region o (align_up n (align a)) x ->
            ~ free_byte (free_list a) x) as Hdis.
  { intros x Hx Hfr. apply (Hn x Hfr). apply covers_cons. by left. }
  pose proof (free_wf _ _ _ _ Hwf Hp Hdis E) as Hwf'.
  destruct (free_Ok _ _ _ _ Hwf Hp Hdis E) as ([_ Hb _] & Hca & Hal & Hq & Hus).
  exists a'. split_and!; try done. split; rewrite ?Hal, ?Hca; try done.
  - intros x [Hx|Hx]%Hb.
    + intros Hcov. apply (Hn x Hx). apply covers_cons. by right.
    + intros (o2 & n2 & Hin & Hx2). rewrite Forall_forall in Hdo.
      specialize (Hdo _ Hin). unfold disjoint_regions, in_region in *; cbn in *. lia.
  - intros x Hx. rewrite Hb. destruct (Ha x Hx) as [?|[?|?]%covers_cons]; tauto.
  - lia.
Qed.

(** *** Reclaiming the quarantine *)

Definition region_of (q : QEntry) : region := (q_off q, q_nbytes q).
Definition expired (now : Z) (q : QEntry) : bool := release_at q <=? now.
Definition pending (now : Z) (q : QEntry) : bool := negb (expired now q).

Lemma owns_set_quarantine q a regs : owns (set_quarantine q a) regs <-> owns a regs.
Proof. split; (intros [[] ? ? ? ? ?]; split; [split|..]; done). Qed.

Lemma reclaim_loop_owns now items keep n a regs :
  owns a (regs ++ (region_of <$> keep) ++ (region_of <$> items)) ->
  exists a', reclaim_loop now items keep n a =
      (a', Ok (n + Z.of_nat (length (List.filter (expired now) items)))) /\
    quarantined a' = keep ++ List.filter (pending now) items /\
    capacity a' = capacity a /\ align a' = align a /\
    owns a' (regs ++ (region_of <$> keep ++ List.filter (pending now) items)).
Proof.
  unfold pending, expired.
  revert keep n a. induction items as [|it items IH]; intros keep n a Ho; cbn.
  { exists (set_quarantine keep a). cbn. rewrite Z.add_0_r, !app_nil_r in *.
    split_and!; try done. by apply owns_set_quarantine. }
  destruct (release_at it <=? now) eqn:E; cbn.
  - assert (owns a (region_of it :: regs ++ (region_of <$> keep) ++ (region_of <$> items)))
      as Ho'.
    { eapply owns_perm; [|exact Ho]. cbn. rewrite !app_assoc.
      symmetry. apply Permutation_middle. }
    destruct (free_owns _ _ _ _ Ho') as (a' & -> & Ho2 & Hc & Hal & Hq).
    destruct (IH keep (n + 1) a' Ho2) as (a2 & -> & Hq2 & Hc2 & Hal2 & Ho3).
    exists a2. split_and!; try congruence. do 2 f_equal. lia.
  - destruct (IH (keep ++ [it]) n a) as (a2 & -> & Hq2 & Hc2 & Hal2 & Ho3).
    { rewrite fmap_app, <- app_assoc. done. }
    exists a2. rewrite <- app_assoc in *. split_and!; done.
Qed.

(** ** Clients

    The regions a client holds ([live]) and those it has quarantined.  The
    unit frees or quarantines only what it holds, and reclaims at will. *)
Record client := mkC { alc : t; live : list region }.

Definition held (c : client) : list region :=
  live c ++ (region_of <$> quarantined (alc c)).

Inductive step : client -> client -> Prop :=
| step_alloc c n o a' :
    alloc n (alc c) = Ok (o, a') -> step c (mkC a' ((o, n) :: live c))
| step_free c o n live' a' :
    live c ≡ₚ (o, n) :: live' -> free o n (alc c) = Ok a' -> step c (mkC a' live')
| step_quarantine c o n live' rel :
    live c ≡ₚ (o, n) :: live' -> step c (mkC (quarantine o n rel (alc c)) live')
| step_reclaim c now a' r :
    reclaim now (alc c) = (a', r) -> step c (mkC a' (live c)).

Inductive reachable (cap al : Z) (cb : bool) : client -> Prop :=
| reachable_init a : init cap al cb = Ok a -> reachable cap al cb (mkC a [])
| reachable_step c c' : reachable cap al cb c -> step c c' -> reachable cap al cb c'.

Lemma alloc_quarantined n a o a' :
  alloc n a = Ok (o, a') -> quarantined a' = quarantined a.
Proof.
  unfold alloc. intros H. inv_res. destruct (first_fit _ _) as [[? ?]|]; by inv_res.
Qed.

Lemma reclaim_owns now a regs :
  owns a (regs ++ (region_of <$> quarantined a)) ->
  exists a', reclaim now a =
      (a', Ok (Z.of_nat (length (List.filter (expired now) (quarantined a))))) /\
    quarantined a' = List.filter (pending now) (quarantined a) /\
    owns a' (regs ++ (region_of <$> quarantined a')).
Proof.
  intros Ho. unfold reclaim. destruct (quarantined a) as [|q qs] eqn:E.
  { exists a. cbn in *. rewrite E. done. }
  destruct (reclaim_loop_owns now (q :: qs) [] 0 a regs) as (a' & -> & Hq & _ & _ & Ho');
    [done|]. exists a'. rewrite Hq. done.
Qed.

Lemma step_owns c c' : owns (alc c) (held c) -> step c c' -> owns (alc c') (held c').
Proof.
  unfold held. intros Ho Hs. destruct Hs as [c n o a' H|c o n live' a' Hp H
    |c o n live' rel Hp|c now a' r H]; cbn.
  - rewrite (alloc_quarantined _ _ _ _ H). by eapply alloc_owns.
  - rewrite Hp in Ho. destruct (free_owns _ _ _ _ Ho) as (a2 & H2 & Ho2 & _ & _ & Hq).
    rewrite H in H2. injection H2 as <-. by rewrite Hq.
  - apply owns_set_quarantine. eapply owns_perm; [|exact Ho].
    rewrite Hp, fmap_app. cbn. rewrite app_assoc. apply Permutation_cons_append.
  - destruct (reclaim_owns now _ _ Ho) as (a2 & H2 & _ & Ho2).
    rewrite H in H2. by injection H2 as <- _.
Qed.

Lemma reachable_owns cap al cb c : reachable cap al cb c -> owns (alc c) (held c).
Proof.
  induction 1 as [a H|c c' _ IH Hs]; [|by eapply step_owns].
  assert (quarantined a = []) as Hq by (unfold init in H; by inv_res).
  unfold held; cbn. rewrite Hq. by eapply init_owns.
Qed.

(** C40 In every state a storage unit can reach through alloc, free, quarantine
    and reclaim, the regions that are live or quarantined lie inside the slab,
    are pairwise disjoint, none of their bytes is on the free list, every
    other byte of the slab is, and [used_bytes] is the total of their aligned
    sizes: no two blobs ever overlap and no byte leaks. *)
Theorem slab_partitioned cap al cb c :
  reachable cap al cb c ->
  Forall (valid_region (capacity (alc c)) (align (alc c))) (held c) /\
  StronglySorted (disjoint_regions (align (alc c))) (held c) /\
  (forall x, 0 <= x < capacity (alc c) ->
     free_byte (free_list (alc c)) x <-> ~ covers (align (alc c)) (held c) x) /\
  used_bytes (alc c) = zsum ((fun r => align_up r.2 (align (alc c))) <$> held c) /\
  used_bytes (alc c) + free_bytes (alc c) = capacity (alc c).
Proof.
  intros [Hwf Hv Hd Hn Ha Hu]%reachable_owns. split_and!; try done; [|apply Hwf].
  intros x Hx. split; [apply Hn|]. intros Hnc. destruct (Ha x Hx); [done|contradiction].
Qed.

(** [alloc] raises [UnitFull] exactly when no single free range is large
    enough, and never when the request fits the largest one; on success it
    takes a region of free bytes and removes exactly those from the free
    list, which stays sorted and coalesced. *)
Theorem alloc_first_fit a nbytes :
  wf a -> 0 < nbytes ->
  (alloc nbytes a = Raise UnitFull <->
     forall r, r ∈ free_list a -> size r < align_up nbytes (align a)) /\
  (forall o a', alloc nbytes a = Ok (o, a') ->
     wf a' /\
     (forall x, in_region o (align_up nbytes (align a)) x -> free_byte (free_list a) x) /\
     (forall x, free_byte (free_list a') x <->
        free_byte (free_list a) x /\ ~ in_region o (align_up nbytes (align a)) x)).
Proof.
  intros Hwf Hn. split.
  - unfold alloc. replace (nbytes <=? 0) with false by (symmetry; apply Z.leb_gt; lia).
    cbn. rewrite <- first_fit_None. by destruct (first_fit _ _) as [[? ?]|].
  - intros o a' H. split; [by eapply alloc_wf|].
    by destruct (alloc_Ok _ _ _ _ Hwf H) as (_ & [] & _).
Qed.

(** Reclaiming in a reachable state never raises, returns the number of
    quarantined regions whose release time has passed, and frees exactly
    those: a quarantined region stays unavailable until its release time. *)
Theorem reclaim_frees_expired cap al cb c now :
  reachable cap al cb c ->
  exists a', reclaim now (alc c) =
      (a', Ok (Z.of_nat (length (List.filter (expired now) (quarantined (alc c)))))) /\
    quarantined a' = List.filter (pending now) (quarantined (alc c)) /\
    owns a' (live c ++ (region_of <$> quarantined a')).
Proof. intros Hr. apply reclaim_owns. by apply (reachable_owns cap al cb). Qed.

(** A unit with three blobs, one of them quarantined. *)
Definition sample_client : option client :=
  match init 1024 64 true with
  | Ok a0 =>
      match alloc 100 a0 with
      | Ok (o1, a1) =>
          match alloc 64 a1 with
          | Ok (o2, a2) => Some (mkC (quarantine o1 100 7 a2) [(o2, 64)])
          | Raise _ => None
          end
      | Raise _ => None
      end
  | Raise _ => None
  end.

Lemma sample_client_reachable c :
  sample_client = Some c -> reachable 1024 64 true c.
Proof.
  unfold sample_client. cbn. intros [= <-].
  eapply reachable_step.
  2: { apply (step_quarantine (mkC (mk 1024 64 true [mkRange 192 832] [] 192 [])
                [(128, 64); (0, 100)]) 0 100 [(128, 64)] 7). apply perm_swap. }
  eapply reachable_step.
  2: { apply (step_alloc (mkC (mk 1024 64 true [mkRange 128 896] [] 128 []) [(0, 100)])).
       reflexivity. }
  eapply reachable_step.
  2: { apply (step_alloc (mkC (mk 1024 64 true [mkRange 0 1024] [] 0 []) [])).
       reflexivity. }
  by apply reachable_init.
Qed.

Lemma slab_partitioned_witness :
  exists c, sample_client = Some c /\
    used_bytes (alc c) + free_bytes (alc c) = 1024.
Proof.
  eexists. split; [reflexivity|].
  exact (proj2 (proj2 (proj2 (proj2
    (slab_partitioned 1024 64 true _ (sample_client_reachable _ eq_refl)))))).
Defined.

Lemma alloc_first_fit_witness :
  alloc 2000 (mk 1024 64 true [mkRange 0 1024] [] 0 []) = Raise UnitFull.
Proof.
  refine (proj2 (proj1 (alloc_first_fit _ 2000 (init_wf 1024 64 true _ eq_refl) _)) _).
  - lia.
  - intros r ->%list_elem_of_singleton. cbn. vm_compute. reflexivity.
Defined.

Lemma reclaim_frees_expired_witness :
  exists c a', sample_client = Some c /\ reclaim 7 (alc c) = (a', Ok 1).
Proof.
  eexists. destruct (reclaim_frees_expired 1024 64 true _ 7
    (sample_client_reachable _ eq_refl)) as (a' & H & _).
  exists a'. split; [reflexivity|]. exact H.
Defined.
End SlabAllocator.
