(* ===== verification/FleetHealth.v ===== *)
(** * Liveness bookkeeping of the generation fleet

    Models [src/nemo_rl/models/generation/fleet_health.py]: the per-shard
    state machine [GenerationFleetHealth] and the request router
    [HealthyShardSelector].

    The dict [_shards] has the keys [0 .. shard_count-1] and never changes
    them, so it is a list; looking up another index is a [KeyError].  The
    clock is an argument of the operations that read it.  [_transition]'s
    [print] and the float view [as_metrics] are not modelled. *)

From S2P Require Import Prelude.

Inductive ShardState := HEALTHY | SUSPECT | DEAD | RESTARTING | STALE | RETIRED.

#[export] Instance ShardState_eq_dec : EqDecision ShardState.
Proof. solve_decision. Defined.

Definition serving_state (s : ShardState) : bool :=
  match s with HEALTHY | SUSPECT => true | _ => false end.

Definition absent_state (s : ShardState) : bool :=
  match s with DEAD | RESTARTING | RETIRED => true | _ => false end.

Record ShardHealth := mkShard {
  dp_shard_idx : nat;
  base_url : option string;
  state : ShardState;
  consecutive_probe_failures : Z;
  consecutive_probe_successes : Z;
  consecutive_reported_failures : Z;
  restart_attempts : Z;
  state_before_partial : option ShardState;
  weight_version : Z;
  last_ok_at : Z;
  last_error : string }.

Definition is_serving (sh : ShardHealth) : bool := serving_state (state sh).

(** Field assignments. *)
Definition set_url u sh := mkShard (dp_shard_idx sh) u (state sh)
  (consecutive_probe_failures sh) (consecutive_probe_successes sh)
  (consecutive_reported_failures sh) (restart_attempts sh) (state_before_partial sh)
  (weight_version sh) (last_ok_at sh) (last_error sh).
Definition set_state s sh := mkShard (dp_shard_idx sh) (base_url sh) s
  (consecutive_probe_failures sh) (consecutive_probe_successes sh)
  (consecutive_reported_failures sh) (restart_attempts sh) (state_before_partial sh)
  (weight_version sh) (last_ok_at sh) (last_error sh).
Definition set_probes fails oks sh := mkShard (dp_shard_idx sh) (base_url sh) (state sh)
  fails oks
  (consecutive_reported_failures sh) (restart_attempts sh) (state_before_partial sh)
  (weight_version sh) (last_ok_at sh) (last_error sh).
Definition set_reported n sh := mkShard (dp_shard_idx sh) (base_url sh) (state sh)
  (consecutive_probe_failures sh) (consecutive_probe_successes sh)
  n (restart_attempts sh) (state_before_partial sh)
  (weight_version sh) (last_ok_at sh) (last_error sh).
Definition set_attempts n sh := mkShard (dp_shard_idx sh) (base_url sh) (state sh)
  (consecutive_probe_failures sh) (consecutive_probe_successes sh)
  (consecutive_reported_failures sh) n (state_before_partial sh)
  (weight_version sh) (last_ok_at sh) (last_error sh).
Definition set_before p sh := mkShard (dp_shard_idx sh) (base_url sh) (state sh)
  (consecutive_probe_failures sh) (consecutive_probe_successes sh)
  (consecutive_reported_failures sh) (restart_attempts sh) p
  (weight_version sh) (last_ok_at sh) (last_error sh).
Definition set_version v sh := mkShard (dp_shard_idx sh) (base_url sh) (state sh)
  (consecutive_probe_failures sh) (consecutive_probe_successes sh)
  (consecutive_reported_failures sh) (restart_attempts sh) (state_before_partial sh)
  v (last_ok_at sh) (last_error sh).
Definition set_ok_at t sh := mkShard (dp_shard_idx sh) (base_url sh) (state sh)
  (consecutive_probe_failures sh) (consecutive_probe_successes sh)
  (consecutive_reported_failures sh) (restart_attempts sh) (state_before_partial sh)
  (weight_version sh) t (last_error sh).
Definition set_error e sh := mkShard (dp_shard_idx sh) (base_url sh) (state sh)
  (consecutive_probe_failures sh) (consecutive_probe_successes sh)
  (consecutive_reported_failures sh) (restart_attempts sh) (state_before_partial sh)
  (weight_version sh) (last_ok_at sh) e.

(** [if error: shard.last_error = error]. *)
Definition set_error_if (e : string) sh :=
  if decide (e = "") then sh else set_error e sh.

Record FleetHealthPolicy := mkPolicy {
  unhealthy_threshold : Z;
  healthy_threshold : Z;
  max_restart_attempts_per_shard : Z;
  min_healthy_shards : Z }.

(** [FleetHealthPolicy.__post_init__]. *)
Definition policy_init (u h r m : Z) : res FleetHealthPolicy :=
  _ ← raise_if ((u <? 1) || (h <? 1)) ValueError;
  _ ← raise_if (m <? 1) ValueError;
  Ok (mkPolicy u h r m).

Record Fleet := mkFleet {
  policy : FleetHealthPolicy;
  shards : list ShardHealth;
  membership_epoch : Z;
  last_serving : gset nat }.

(** [GenerationFleetHealth.__init__]; [clock i] is the clock reading taken for
    shard [i]. *)
Definition init (shard_count : Z) (p : FleetHealthPolicy)
    (urls : option (list (option string))) (clock : nat -> Z) : res Fleet :=
  _ ← raise_if (shard_count <? 1) ValueError;
  _ ← raise_if (match urls with
                | Some us => negb (Z.of_nat (length us) =? shard_count)
                | None => false end) ValueError;
  let n := Z.to_nat shard_count in
  let mk i := mkShard i (match urls with Some us => us !! i ≫= id | None => None end)
                HEALTHY 0 0 0 0 None 0 (clock i) "" in
  Ok (mkFleet p (mk <$> seq 0 n) 0 (list_to_set (seq 0 n))).

(** ** Read side *)

(** [[idx for idx in sorted(self._shards) if P(self._shards[idx])]] *)
Definition shards_where (P : ShardHealth -> bool) (f : Fleet) : list nat :=
  indices_where P (shards f).

Definition serving_shards (f : Fleet) : list nat := shards_where is_serving f.

Definition absent_shards (f : Fleet) : list nat :=
  shards_where (fun sh => absent_state (state sh)) f.

Definition suspected_shards (f : Fleet) : list nat :=
  shards_where (fun sh =>
    bool_decide (state sh = SUSPECT)
    || (bool_decide (state sh = STALE)
        && bool_decide (state_before_partial sh = Some SUSPECT))) f.

Definition get_shard (f : Fleet) (idx : nat) : res ShardHealth :=
  match shards f !! idx with Some sh => Ok sh | None => Raise KeyError end.

Definition state_of (idx : nat) (f : Fleet) : res ShardState :=
  sh ← get_shard f idx; Ok (state sh).

Definition serving_base_urls (f : Fleet) : list string :=
  omap (fun idx =>
    sh ← shards f !! idx;
    u ← base_url sh;
    if decide (u = "") then None else Some u) (serving_shards f).

Definition count_state (s : ShardState) (f : Fleet) : nat :=
  length (List.filter (fun sh => bool_decide (state sh = s)) (shards f)).

Definition counts_by_state (f : Fleet) : list (ShardState * nat) :=
  (fun s => (s, count_state s f)) <$> [HEALTHY; SUSPECT; DEAD; RESTARTING; STALE; RETIRED].

Definition shard_for_base_url (url : string) (f : Fleet) : option nat :=
  dp_shard_idx <$> List.find (fun sh => bool_decide (base_url sh = Some url)) (shards f).

Definition raise_if_exhausted (f : Fleet) : res unit :=
  raise_if (Z.of_nat (length (serving_shards f)) <? min_healthy_shards (policy f))
    GenerationFleetExhausted.

(** ** Write side *)

(** Assign the mutated record of shard [idx]; no bookkeeping. *)
Definition put_shard (idx : nat) (sh : ShardHealth) (f : Fleet) : Fleet :=
  mkFleet (policy f) (<[idx := sh]> (shards f)) (membership_epoch f) (last_serving f).

Definition refresh_membership (f : Fleet) : Fleet :=
  let serving : gset nat := list_to_set (serving_shards f) in
  if decide (serving = last_serving f) then f
  else mkFleet (policy f) (shards f) (membership_epoch f + 1) serving.

(** [_transition(shard, new_state)], where [sh] is shard [idx] as mutated so
    far by the caller. *)
Definition transition (idx : nat) (sh : ShardHealth) (s : ShardState) (f : Fleet) : Fleet :=
  if decide (state sh = s) then put_shard idx sh f
  else refresh_membership (put_shard idx (set_state s sh) f).

Definition record_probe (idx : nat) (ok : bool) (error : string) (now : Z) (f : Fleet)
    : res Fleet :=
  sh ← get_shard f idx;
  if negb (is_serving sh) then Ok f
  else if ok then
    let sh := set_ok_at now (set_probes 0 (consecutive_probe_successes sh + 1) sh) in
    if bool_decide (state sh = SUSPECT)
       && (healthy_threshold (policy f) <=? consecutive_probe_successes sh)
    then Ok (transition idx sh HEALTHY f)
    else Ok (put_shard idx sh f)
  else
    let sh := set_error error (set_probes (consecutive_probe_failures sh + 1) 0 sh) in
    if unhealthy_threshold (policy f) <=? consecutive_probe_failures sh
    then Ok (transition idx sh DEAD f)
    else if decide (state sh = HEALTHY) then Ok (transition idx sh SUSPECT f)
    else Ok (put_shard idx sh f).

Definition record_actor_death (idx : nat) (error : string) (f : Fleet) : res Fleet :=
  sh ← get_shard f idx;
  if absent_state (state sh) then Ok f
  else
    let sh := set_probes (unhealthy_threshold (policy f)) 0 (set_error_if error sh) in
    Ok (transition idx sh DEAD f).

Definition condemn_silent_participant (idx : nat) (reason : string) (f : Fleet)
    : res Fleet :=
  sh ← get_shard f idx;
  if absent_state (state sh) then Ok f
  else Ok (transition idx (set_error reason sh) DEAD f).

(** [error] is the text [type(error).__name__: error]. *)
Definition report_failure (idx : nat) (error : string) (f : Fleet) : res Fleet :=
  sh ← get_shard f idx;
  if negb (is_serving sh) then Ok f
  else
    let sh := set_error error (set_reported (consecutive_reported_failures sh + 1) sh) in
    if unhealthy_threshold (policy f) <=? consecutive_reported_failures sh
    then Ok (transition idx sh DEAD f)
    else if decide (state sh = HEALTHY) then Ok (transition idx sh SUSPECT f)
    else Ok (put_shard idx sh f).

Definition report_success (idx : nat) (f : Fleet) : res Fleet :=
  sh ← get_shard f idx;
  Ok (put_shard idx (set_reported 0 sh) f).

Definition retire (idx : nat) (reason : string) (f : Fleet) : res Fleet :=
  sh ← get_shard f idx;
  Ok (transition idx (set_error reason sh) RETIRED f).

Definition mark_restarting (idx : nat) (f : Fleet) : res Fleet :=
  sh ← get_shard f idx;
  if decide (state sh = RETIRED) then Ok f
  else
    let sh := set_attempts (restart_attempts sh + 1) sh in
    if max_restart_attempts_per_shard (policy f) <? restart_attempts sh
    then retire idx "restart attempts exhausted" (put_shard idx sh f)
    else Ok (transition idx sh RESTARTING f).

Definition mark_loaded (idx : nat) (url : option string) (f : Fleet) : res Fleet :=
  sh ← get_shard f idx;
  if decide (state sh = RETIRED) then Ok f
  else
    let sh := match url with
              | Some u => if decide (u = "") then sh else set_url (Some u) sh
              | None => sh
              end in
    let sh := set_before None (set_reported 0 (set_probes 0 0 sh)) in
    Ok (transition idx sh STALE f).

Definition mark_weights_partial (idx : nat) (f : Fleet) : res Fleet :=
  sh ← get_shard f idx;
  if absent_state (state sh) then Ok f
  else
    let sh := if decide (state sh = STALE) then sh
              else set_before (Some (state sh)) sh in
    Ok (transition idx sh STALE f).

Definition mark_restart_failed (idx : nat) (error : string) (f : Fleet) : res Fleet :=
  sh ← get_shard f idx;
  if decide (state sh = RETIRED) then Ok f
  else Ok (transition idx (set_error_if error sh) DEAD f).

Definition record_weight_version (idx : nat) (v : Z) (f : Fleet) : res Fleet :=
  sh ← get_shard f idx;
  if decide (state sh = RETIRED) then Ok f
  else Ok (put_shard idx (set_version v sh) f).

Definition report_refit (idx : nat) (v now : Z) (f : Fleet) : res Fleet :=
  sh ← get_shard f idx;
  if decide (state sh = RETIRED) then Ok f
  else
    let was_before_partial := state_before_partial sh in
    let sh := set_probes 0 0 (set_version v (set_before None sh)) in
    if decide (was_before_partial = Some SUSPECT)
    then Ok (transition idx sh SUSPECT f)
    else Ok (transition idx (set_ok_at now (set_reported 0 sh)) HEALTHY f).

(** ** Events

    One constructor per write operation; the arguments the caller supplies. *)
Inductive event :=
| EvProbe (idx : nat) (ok : bool) (error : string) (now : Z)
| EvActorDeath (idx : nat) (error : string)
| EvCondemn (idx : nat) (reason : string)
| EvReportFailure (idx : nat) (error : string)
| EvReportSuccess (idx : nat)
| EvRestarting (idx : nat)
| EvLoaded (idx : nat) (url : option string)
| EvPartial (idx : nat)
| EvRestartFailed (idx : nat) (error : string)
| EvWeightVersion (idx : nat) (v : Z)
| EvRefit (idx : nat) (v now : Z)
| EvRetire (idx : nat) (reason : string).

Definition apply (e : event) (f : Fleet) : res Fleet :=
  match e with
  | EvProbe i ok err now => record_probe i ok err now f
  | EvActorDeath i err => record_actor_death i err f
  | EvCondemn i r => condemn_silent_participant i r f
  | EvReportFailure i err => report_failure i err f
  | EvReportSuccess i => report_success i f
  | EvRestarting i => mark_restarting i f
  | EvLoaded i u => mark_loaded i u f
  | EvPartial i => mark_weights_partial i f
  | EvRestartFailed i err => mark_restart_failed i err f
  | EvWeightVersion i v => record_weight_version i v f
  | EvRefit i v now => report_refit i v now f
  | EvRetire i r => retire i r f
  end.

Definition target (e : event) : nat :=
  match e with
  | EvProbe i _ _ _ | EvActorDeath i _ | EvCondemn i _ | EvReportFailure i _
  | EvReportSuccess i | EvRestarting i | EvLoaded i _ | EvPartial i
  | EvRestartFailed i _ | EvWeightVersion i _ | EvRefit i _ _ | EvRetire i _ => i
  end.

(** A sequence of calls; one that raises (unknown shard) changes nothing. *)
Definition run (es : list event) (f : Fleet) : Fleet :=
  foldl (fun f e => match apply e f with Ok f' => f' | Raise _ => f end) f es.

(** ** HealthyShardSelector *)

Record Selector := mkSel { monitor : Fleet; inflight_map : gmap nat Z }.

Definition inflight (idx : nat) (s : Selector) : Z := default 0 (inflight_map s !! idx).

(** The key [(inflight, idx)] of the [min]. *)
Definition busier (s : Selector) (i j : nat) : bool :=
  (inflight i s <? inflight j s) || ((inflight i s =? inflight j s) && (i <? j)%nat).

Definition next_shard (s : Selector) : res nat :=
  match serving_shards (monitor s) with
  | [] => Raise NoHealthyShards
  | i :: l => Ok (argmin_by (busier s) i l)
  end.

Definition acquire (idx : nat) (s : Selector) : Selector :=
  mkSel (monitor s) (<[idx := inflight idx s + 1]> (inflight_map s)).

Definition release (idx : nat) (s : Selector) : Selector :=
  mkSel (monitor s) (<[idx := Z.max 0 (inflight idx s - 1)]> (inflight_map s)).

(** ** Abstract specification: independent per-shard machines

    [shard_next] is what one call does to the record of its shard; a call
    raises for an unknown shard, writes that one record, and refreshes the
    membership exactly when the record's state changed. *)
Definition shard_next (p : FleetHealthPolicy) (e : event) (sh : ShardHealth) : ShardHealth :=
  match e with
  | EvProbe _ ok err now =>
      if negb (is_serving sh) then sh
      else if ok then
        let sh' := set_ok_at now (set_probes 0 (consecutive_probe_successes sh + 1) sh) in
        if bool_decide (state sh = SUSPECT)
           && (healthy_threshold p <=? consecutive_probe_successes sh + 1)
        then set_state HEALTHY sh' else sh'
      else
        let sh' := set_error err (set_probes (consecutive_probe_failures sh + 1) 0 sh) in
        if unhealthy_threshold p <=? consecutive_probe_failures sh + 1
        then set_state DEAD sh' else set_state SUSPECT sh'
  | EvActorDeath _ err =>
      if absent_state (state sh) then sh
      else set_state DEAD (set_probes (unhealthy_threshold p) 0 (set_error_if err sh))
  | EvCondemn _ r =>
      if absent_state (state sh) then sh else set_state DEAD (set_error r sh)
  | EvReportFailure _ err =>
      if negb (is_serving sh) then sh
      else
        let sh' := set_error err (set_reported (consecutive_reported_failures sh + 1) sh) in
        if unhealthy_threshold p <=? consecutive_reported_failures sh + 1
        then set_state DEAD sh' else set_state SUSPECT sh'
  | EvReportSuccess _ => set_reported 0 sh
  | EvRestarting _ =>
      if decide (state sh = RETIRED) then sh
      else
        let sh' := set_attempts (restart_attempts sh + 1) sh in
        if max_restart_attempts_per_shard p <? restart_attempts sh + 1
        then set_state RETIRED (set_error "restart attempts exhausted" sh')
        else set_state RESTARTING sh'
  | EvLoaded _ url =>
      if decide (state sh = RETIRED) then sh
      else
        let sh' := match url with
                   | Some u => if decide (u = "") then sh else set_url (Some u) sh
                   | None => sh end in
        set_state STALE (set_before None (set_reported 0 (set_probes 0 0 sh')))
  | EvPartial _ =>
      if absent_state (state sh) then sh
      else if decide (state sh = STALE) then sh
      else set_state STALE (set_before (Some (state sh)) sh)
  | EvRestartFailed _ err =>
      if decide (state sh = RETIRED) then sh else set_state DEAD (set_error_if err sh)
  | EvWeightVersion _ v => if decide (state sh = RETIRED) then sh else set_version v sh
  | EvRefit _ v now =>
      if decide (state sh = RETIRED) then sh
      else
        let sh' := set_probes 0 0 (set_version v (set_before None sh)) in
        if decide (state_before_partial sh = Some SUSPECT) then set_state SUSPECT sh'
        else set_state HEALTHY (set_ok_at now (set_reported 0 sh'))
  | EvRetire _ r => set_state RETIRED (set_error r sh)
  end.

(** Write record [idx], replacing [sh] by [sh']. *)
Definition settle (idx : nat) (sh sh' : ShardHealth) (f : Fleet) : Fleet :=
  if decide (state sh = state sh') then put_shard idx sh' f
  else refresh_membership (put_shard idx sh' f).

(** ** Refinement of the abstract machine *)

Lemma set_state_same sh s : state sh = s -> set_state s sh = sh.
Proof. intros <-. by destruct sh. Qed.

Lemma transition_settle i sh0 sh s f :
  state sh = state sh0 -> transition i sh s f = settle i sh0 (set_state s sh) f.
Proof.
  intros Hs. unfold transition, settle. rewrite <- Hs.
  destruct (decide (state sh = s)) as [E|E].
  - rewrite decide_True by (by cbn). by rewrite set_state_same.
  - by rewrite decide_False by (by cbn).
Qed.

Lemma put_settle i sh0 sh f : state sh = state sh0 -> put_shard i sh f = settle i sh0 sh f.
Proof. intros H. unfold settle. by rewrite decide_True. Qed.

Lemma settle_id i sh f : shards f !! i = Some sh -> settle i sh sh f = f.
Proof.
  intros H. unfold settle. rewrite decide_True by done. unfold put_shard.
  rewrite list_insert_id by done. by destruct f.
Qed.

Lemma put_shard_twice i sh sh' f : put_shard i sh (put_shard i sh' f) = put_shard i sh f.
Proof. unfold put_shard; cbn. by rewrite list_insert_insert_eq. Qed.

Lemma state_error_if e sh : state (set_error_if e sh) = state sh.
Proof. unfold set_error_if. by destruct (decide _). Qed.

(** Close [Ok (put_shard ..) = Ok (settle ..)] and its variants. *)
Ltac settle_tac :=
  first [ by f_equal; symmetry; apply settle_id
        | f_equal; apply transition_settle; first [done | apply state_error_if]
        | f_equal; apply put_settle; first [done | apply state_error_if] ].

Lemma failing_settle (b : bool) i sh0 sh f :
  is_serving sh0 = true -> state sh = state sh0 ->
  (if b then Ok (transition i sh DEAD f)
   else if decide (state sh = HEALTHY) then Ok (transition i sh SUSPECT f)
   else Ok (put_shard i sh f)) =
  Ok (settle i sh0 (if b then set_state DEAD sh else set_state SUSPECT sh) f).
Proof.
  intros Hsv Hst. destruct b; [settle_tac|]. destruct (decide _) as [E|E]; [settle_tac|].
  assert (state sh = SUSPECT) as Hsu.
  { unfold is_serving in Hsv. rewrite <- Hst in Hsv. by destruct (state sh). }
  rewrite set_state_same by done. settle_tac.
Qed.

Lemma apply_spec e f :
  apply e f = match shards f !! target e with
              | None => Raise KeyError
              | Some sh => Ok (settle (target e) sh (shard_next (policy f) e sh) f)
              end.
Proof.
  destruct e; cbn [apply target];
    unfold record_probe, record_actor_death, condemn_silent_participant, report_failure,
      report_success, mark_restarting, mark_loaded, mark_weights_partial,
      mark_restart_failed, record_weight_version, report_refit, retire, get_shard;
    destruct (shards f !! idx) as [sh|] eqn:E; try done; cbn [mbind res_bind shard_next].
  - destruct (is_serving sh) eqn:Es; cbn [negb]; [|settle_tac]. destruct ok; cbn -[Z.leb].
    + destruct (_ && _)%bool; settle_tac.
    + by rewrite <- failing_settle.
  - destruct (absent_state _); settle_tac.
  - destruct (absent_state _); settle_tac.
  - destruct (is_serving sh) eqn:Es; cbn [negb]; [|settle_tac]. cbn -[Z.leb].
    by rewrite <- failing_settle.
  - settle_tac.
  - destruct (decide _); [settle_tac|]. cbn -[Z.ltb].
    destruct (_ <? _); [|settle_tac].
    unfold retire, get_shard. cbn. rewrite list_lookup_insert_eq
      by (by eapply lookup_lt_Some). cbn. f_equal.
    rewrite (transition_settle _ sh) by done. unfold settle. cbn.
    destruct (decide _); by rewrite put_shard_twice.
  - destruct (decide _); [settle_tac|]. destruct url as [u|]; [destruct (decide (u = ""))|];
      settle_tac.
  - destruct (absent_state _); [settle_tac|].
    destruct (decide (state sh = STALE)) as [Es|Es]; [|settle_tac].
    f_equal. rewrite (transition_settle _ sh) by done. by rewrite set_state_same.
  - destruct (decide _); settle_tac.
  - destruct (decide _); settle_tac.
  - destruct (decide (state sh = RETIRED)); [settle_tac|]. cbn.
    destruct (decide _); settle_tac.
  - settle_tac.
Qed.

Lemma settle_shards i sh sh' f : shards (settle i sh sh' f) = <[i := sh']> (shards f).
Proof.
  unfold settle, refresh_membership. destruct (decide _); [done|].
  by destruct (decide _).
Qed.

Lemma settle_policy i sh sh' f : policy (settle i sh sh' f) = policy f.
Proof.
  unfold settle, refresh_membership. destruct (decide _); [done|].
  by destruct (decide _).
Qed.

(** One event seen from shard [i]. *)
Definition step_event (f : Fleet) (e : event) : Fleet :=
  match apply e f with Ok f' => f' | Raise _ => f end.

Lemma step_event_policy f e : policy (step_event f e) = policy f.
Proof.
  unfold step_event. rewrite apply_spec. destruct (shards f !! target e); [|done].
  apply settle_policy.
Qed.

Lemma step_event_lookup f e i sh :
  shards f !! i = Some sh ->
  shards (step_event f e) !! i =
    Some (if decide (target e = i) then shard_next (policy f) e sh else sh).
Proof.
  intros Hi. unfold step_event. rewrite apply_spec.
  destruct (shards f !! target e) as [sh0|] eqn:E.
  - rewrite settle_shards. destruct (decide _) as [<-|Hne].
    + rewrite list_lookup_insert_eq by (by eapply lookup_lt_Some). congruence.
    + by rewrite list_lookup_insert_ne.
  - destruct (decide _) as [<-|Hne]; [congruence|done].
Qed.

Lemma run_cons e es f : run (e :: es) f = run es (step_event f e).
Proof. done. Qed.

Lemma run_app es1 es2 f : run (es1 ++ es2) f = run es2 (run es1 f).
Proof. unfold run. apply foldl_app. Qed.

(** The record of one shard after a run, and the events that reach it. *)
Definition shard_run (p : FleetHealthPolicy) (i : nat) (es : list event)
    (sh : ShardHealth) : ShardHealth :=
  foldl (fun sh e => if decide (target e = i) then shard_next p e sh else sh) sh es.

Lemma run_policy es f : policy (run es f) = policy f.
Proof.
  revert f. induction es as [|e es IH]; intros f; [done|].
  rewrite run_cons, IH. apply step_event_policy.
Qed.

Lemma run_lookup es f i sh :
  shards f !! i = Some sh ->
  shards (run es f) !! i = Some (shard_run (policy f) i es sh).
Proof.
  revert f sh. induction es as [|e es IH]; intros f sh Hi; [done|].
  rewrite run_cons. erewrite IH by (by apply step_event_lookup).
  by rewrite step_event_policy.
Qed.

(** An invariant of the record of shard [i] that every event of a run keeps. *)
Lemma shard_run_inv (P : ShardHealth -> Prop) p i es sh :
  (forall e sh, e ∈ es -> target e = i -> P sh -> P (shard_next p e sh)) ->
  P sh -> P (shard_run p i es sh).
Proof.
  revert sh. induction es as [|e es IH]; intros sh Hstep HP; cbn; [done|].
  apply IH; [intros; apply Hstep; set_solver|].
  destruct (decide _); [|done]. apply Hstep; set_solver.
Qed.

(** ** Serving set *)

Definition serving_set (f : Fleet) : gset nat := list_to_set (serving_shards f).

Lemma elem_of_serving f i :
  i ∈ serving_shards f <-> exists sh, shards f !! i = Some sh /\ is_serving sh = true.
Proof. apply elem_of_indices_where. Qed.

Lemma elem_of_absent f i :
  i ∈ absent_shards f <->
  exists sh, shards f !! i = Some sh /\ absent_state (state sh) = true.
Proof. apply elem_of_indices_where. Qed.

Lemma serving_shards_ext f f' :
  shards f' = shards f -> serving_shards f' = serving_shards f.
Proof. unfold serving_shards, shards_where. by intros ->. Qed.

Lemma serving_set_put i sh sh' f :
  shards f !! i = Some sh -> state sh = state sh' ->
  serving_set (put_shard i sh' f) = serving_set f.
Proof.
  intros Hi Hs. apply set_eq. intros j. unfold serving_set.
  rewrite !elem_of_list_to_set, !elem_of_serving. cbn.
  destruct (decide (i = j)) as [<-|Hne].
  - rewrite list_lookup_insert_eq by (by eapply lookup_lt_Some). rewrite Hi.
    unfold is_serving. split; intros (? & [= <-] & Hv); eexists; (split; [done|]); congruence.
  - by rewrite list_lookup_insert_ne.
Qed.

Definition tracked (f : Fleet) : Prop := last_serving f = serving_set f.

Lemma settle_tracked i sh sh' f :
  tracked f -> shards f !! i = Some sh ->
  let f' := settle i sh sh' f in
  tracked f' /\
  membership_epoch f' = membership_epoch f +
    (if decide (serving_set f' = serving_set f) then 0 else 1).
Proof.
  intros Ht Hi. cbv zeta. unfold settle. destruct (decide _) as [Hs|Hs].
  { rewrite (serving_set_put _ _ _ _ Hi Hs). rewrite decide_True by done.
    split; [|cbn; lia]. unfold tracked. rewrite (serving_set_put _ _ _ _ Hi Hs). exact Ht. }
  unfold refresh_membership. set (f1 := put_shard i sh' f).
  assert (forall p e l, serving_set (mkFleet p (shards f1) e l) = serving_set f1) as Hext
    by done.
  destruct (decide _) as [Hc|Hc]; change (list_to_set (serving_shards f1)) with (serving_set f1) in *.
  - split; [by unfold tracked|]. rewrite decide_True; [cbn; lia|].
    unfold tracked in Ht. rewrite Hc. by rewrite <- Ht.
  - split; [by unfold tracked|]. rewrite Hext, decide_False; [cbn; lia|].
    unfold tracked in Ht. by rewrite <- Ht.
Qed.

Lemma init_tracked n p urls clock f : init n p urls clock = Ok f -> tracked f.
Proof.
  unfold init. intros H. inv_res. unfold tracked. apply set_eq. intros j.
  unfold serving_set. cbn [last_serving].
  rewrite !elem_of_list_to_set, elem_of_serving, elem_of_seq. cbn [shards]. split.
  - intros Hj. eexists. rewrite list_lookup_fmap, lookup_seq_lt by lia. done.
  - intros (sh & Hl & _). apply lookup_lt_Some in Hl.
    rewrite length_fmap, length_seq in Hl. lia.
Qed.

Lemma run_tracked es f : tracked f -> tracked (run es f).
Proof.
  revert f. induction es as [|e es IH]; intros f Hf; [done|]. rewrite run_cons. apply IH.
  unfold step_event. rewrite apply_spec. destruct (shards f !! target e) eqn:E; [|done].
  by apply settle_tracked.
Qed.

(** ** Per-shard lemmas *)

Lemma unserving_stays p e sh :
  is_serving sh = false -> (forall i v now, e <> EvRefit i v now) ->
  is_serving (shard_next p e sh) = false.
Proof.
  intros Hs Hne. destruct e; cbn [shard_next]; rewrite ?Hs; cbn [negb]; try done;
    repeat match goal with
           | |- context [decide ?P] => destruct (decide P)
           | |- context [if ?b then _ else _] => destruct b
           end; try done.
  all: by destruct (Hne idx v now).
Qed.

(** The events that may clear the reported-failure streak of shard [i]. *)
Definition clears_streak (i : nat) (e : event) : bool :=
  match e with
  | EvReportSuccess j | EvLoaded j _ | EvRefit j _ _ => (j =? i)%nat
  | _ => false
  end.

Definition is_failure_report (i : nat) (e : event) : bool :=
  match e with EvReportFailure j _ => (j =? i)%nat | _ => false end.

Definition failure_reports (i : nat) (es : list event) : Z :=
  Z.of_nat (length (List.filter (is_failure_report i) es)).

Lemma reported_error_if e sh :
  consecutive_reported_failures (set_error_if e sh) = consecutive_reported_failures sh.
Proof. unfold set_error_if. by destruct (decide _). Qed.

Lemma streak_kept p e i sh :
  target e = i -> clears_streak i e = false ->
  is_serving (shard_next p e sh) = true ->
  consecutive_reported_failures (shard_next p e sh) =
    consecutive_reported_failures sh + (if is_failure_report i e then 1 else 0) /\
  (is_failure_report i e = true ->
    consecutive_reported_failures (shard_next p e sh) < unhealthy_threshold p).
Proof.
  intros Ht Hc. destruct (is_serving sh) eqn:Hs.
  2: { rewrite unserving_stays; [done|done|]. intros j v now ->. cbn in *.
       subst. by rewrite Nat.eqb_refl in Hc. }
  destruct e; cbn -[Z.leb Z.ltb] in *; subst; rewrite ?Nat.eqb_refl in *; try done; rewrite ?Hs; cbn -[Z.leb Z.ltb];
    repeat (first [split_if; cbn -[Z.leb Z.ltb] |
                   match goal with |- context [decide ?P] => destruct (decide P) end; cbn]);
    try done; intros; bool_to_prop; rewrite ?reported_error_if; cbn; try (split; [lia|done||lia]);
    lia.
Qed.

(** Either the shard left the serving set, or its streak grew by every
    reported failure and is still below the threshold. *)
Lemma shard_run_streak p i es sh :
  Forall (fun e => clears_streak i e = false) es ->
  is_serving (shard_run p i es sh) = true ->
  is_serving sh = true /\
  consecutive_reported_failures (shard_run p i es sh) =
    consecutive_reported_failures sh + failure_reports i es /\
  (0 < failure_reports i es ->
    consecutive_reported_failures (shard_run p i es sh) < unhealthy_threshold p).
Proof.
  unfold failure_reports. induction es as [|e es IH] using rev_ind; intros Hc Hs.
  { cbn in *. split_and!; [done|lia|lia]. }
  apply Forall_app in Hc as [Hc He]. apply Forall_cons in He as [He _].
  unfold shard_run in *. rewrite foldl_app in *. cbn [foldl] in *.
  rewrite List.filter_app, length_app.
  set (s1 := foldl _ sh es) in *.
  destruct (decide (target e = i)) as [Ht|Ht].
  - destruct (streak_kept p e i s1 Ht He Hs) as [Hk1 Hk2].
    destruct (is_serving s1) eqn:Hs1.
    2: { rewrite unserving_stays in Hs; [done|done|]. intros j v now ->. cbn in *.
         subst. by rewrite Nat.eqb_refl in He. }
    destruct (IH Hc eq_refl) as (H1 & H2 & H3). split; [done|].
    rewrite Hk1, H2. cbn [List.filter]. destruct (is_failure_report i e); cbn [length].
    + split; [lia|]. intros _. specialize (Hk2 eq_refl). lia.
    + split; [lia|]. intros Hpos. rewrite H2 in H3. lia.
  - destruct (IH Hc Hs) as (H1 & H2 & H3).
    assert (is_failure_report i e = false) as Hf.
    { destruct e; cbn in *; try done. by apply Nat.eqb_neq. }
    cbn [List.filter]. rewrite Hf. cbn [length]. split; [done|]. split; [lia|]. lia.
Qed.

(** What an aborted refit leaves of a shard, until its next refit. *)
Definition partial_of (before : ShardState) (streak : Z) (sh : ShardHealth) : Prop :=
  state sh = STALE /\ state_before_partial sh = Some before /\
  consecutive_reported_failures sh = streak.

(** Events on [i] that an interrupted shard ignores. *)
Definition ignored_while_partial (i : nat) (e : event) : bool :=
  match e with
  | EvProbe _ _ _ _ | EvReportFailure _ _ | EvWeightVersion _ _ | EvPartial _ => true
  | _ => negb (target e =? i)%nat
  end.

Lemma partial_kept p i e b k sh :
  ignored_while_partial i e = true -> target e = i ->
  partial_of b k sh -> partial_of b k (shard_next p e sh).
Proof.
  intros Hi Ht (H1 & H2 & H3). subst i. unfold partial_of.
  destruct e; cbn in Hi; rewrite ?Nat.eqb_refl in Hi; try done;
    cbn -[Z.leb]; unfold is_serving; rewrite H1; cbn; done.
Qed.

(** [k] failed probes in a row, then [k] successful ones. *)
Lemma shard_run_failed_probes p i err n sh :
  state sh = HEALTHY -> consecutive_probe_failures sh = 0 ->
  let sh' := shard_run p i (repeat (EvProbe i false err 0) n) sh in
  1 <= unhealthy_threshold p ->
  state sh' = (if (n =? 0)%nat then HEALTHY
               else if unhealthy_threshold p <=? Z.of_nat n then DEAD else SUSPECT) /\
  (is_serving sh' = true -> consecutive_probe_failures sh' = Z.of_nat n) /\
  ((0 < n)%nat -> consecutive_probe_successes sh' = 0).
Proof.
  cbv zeta. intros Hst Hc Hthr. induction n as [|n IH].
  { cbn. split_and!; [done|done|lia]. }
  replace (repeat _ (S n)) with (repeat (EvProbe i false err 0) n ++ [EvProbe i false err 0])
    by (rewrite <- repeat_cons; done).
  unfold shard_run in *. rewrite foldl_app. cbn [foldl]. rewrite decide_True by done.
  set (s1 := foldl _ _ _) in *. clearbody s1. destruct IH as (IH1 & IH2 & IH3).
  cbn [shard_next Nat.eqb]. unfold is_serving in *. destruct n as [|n]; cbn [Nat.eqb] in IH1.
  - rewrite IH1 in *. cbn -[Z.leb]. rewrite IH2 by done. cbn [Z.of_nat Z.add].
    destruct (_ <=? _); cbn; by split_and!.
  - destruct (unhealthy_threshold p <=? Z.of_nat (S n)) eqn:E; rewrite IH1 in *; cbn [serving_state negb].
    + rewrite (proj2 (Z.leb_le _ (Z.of_nat (S (S n))))) by (apply Z.leb_le in E; lia).
      split_and!; [done|by rewrite IH1|intros _; apply IH3; lia].
    + rewrite IH2 by done. replace (Z.of_nat (S n) + 1) with (Z.of_nat (S (S n))) by lia.
      clear E. destruct (_ <=? _); cbn -[Z.of_nat]; by split_and!.
Qed.

(** ** Properties *)

(** After any sequence of calls on a new fleet, [_last_serving] is the set
    of shards that may be handed traffic, and a call increments the membership
    epoch exactly when it changed that set; the record of every shard is the
    one its own events produce, whatever the other shards did. *)
Theorem membership_tracks_serving n p urls clock f0 es :
  init n p urls clock = Ok f0 ->
  let f := run es f0 in
  last_serving f = serving_set f /\
  (forall e f', apply e f = Ok f' ->
     last_serving f' = serving_set f' /\
     membership_epoch f' = membership_epoch f +
       (if decide (serving_set f' = serving_set f) then 0 else 1)) /\
  (forall i, shards f !! i = shard_run p i es <$> shards f0 !! i).
Proof.
  intros Hi f. assert (Hp : policy f0 = p) by (unfold init in Hi; by inv_res).
  pose proof (run_tracked es f0 (init_tracked _ _ _ _ _ Hi)) as Ht. split_and!; [done| |].
  - intros e f'. rewrite apply_spec. destruct (shards f !! target e) eqn:E; [|done].
    intros [= <-]. by apply settle_tracked.
  - intros i. destruct (shards f0 !! i) as [sh|] eqn:E; cbn.
    + subst f. erewrite run_lookup by done. by rewrite Hp.
    + apply lookup_ge_None. apply lookup_ge_None in E. unfold f. clear -E. revert f0 E.
      induction es as [|e es IH]; intros f0 E; [done|]. rewrite run_cons. apply IH.
      unfold step_event. rewrite apply_spec. destruct (shards f0 !! target e); [|done].
      by rewrite settle_shards, length_insert.
Qed.

(** C25 A shard outside the serving set is not handed traffic again, however
    many probes it answers, until a completed refit is reported for it. *)
Theorem readmission_needs_refit f i es :
  (i < length (shards f))%nat -> i ∉ serving_shards f ->
  Forall (fun e => forall v now, e <> EvRefit i v now) es ->
  i ∉ serving_shards (run es f).
Proof.
  intros [sh Hi]%lookup_lt_is_Some_2 Hns Hes. rewrite elem_of_serving in Hns |- *.
  erewrite run_lookup by done. intros (sh' & [= <-] & Hs').
  assert (is_serving sh = false) as Hs.
  { destruct (is_serving sh) eqn:E; [|done]. destruct Hns; eauto. }
  revert Hs'. apply not_true_iff_false.
  apply shard_run_inv; [|done]. intros e s Hin Ht Hs'. apply unserving_stays; [done|].
  rewrite Forall_forall in Hes. intros j v now ->. cbn in Ht. subst. by eapply Hes.
Qed.

(** [RETIRED] is terminal: no sequence of calls, refits included, takes a
    retired shard out of it. *)
Theorem retired_is_terminal f i sh es :
  shards f !! i = Some sh -> state sh = RETIRED ->
  state_of i (run es f) = Ok RETIRED.
Proof.
  intros Hi Hs. unfold state_of, get_shard. erewrite run_lookup by done. cbn. f_equal.
  apply (shard_run_inv (fun s => state s = RETIRED)); [|done].
  intros e s _ _ Hr. destruct e; cbn -[Z.leb Z.ltb]; unfold is_serving;
    rewrite ?Hr; done.
Qed.

(** A wedged engine is condemned: once the routing adapters have reported
    [unhealthy_threshold] failed generations of a shard with no successful
    generation, reload or refit of it in between, the shard is out of the
    serving set, whatever it answered to the probes meanwhile. *)
Theorem wedged_engine_condemned f i sh es :
  shards f !! i = Some sh -> 0 <= consecutive_reported_failures sh ->
  1 <= unhealthy_threshold (policy f) ->
  Forall (fun e => clears_streak i e = false) es ->
  unhealthy_threshold (policy f) <= failure_reports i es ->
  i ∉ serving_shards (run es f).
Proof.
  intros Hi Hk Ht Hc Hn. rewrite elem_of_serving. erewrite run_lookup by done.
  intros (sh' & [= <-] & Hs). destruct (shard_run_streak _ _ _ _ Hc Hs) as (_ & H2 & H3).
  lia.
Qed.

(** An aborted refit does not launder a doubted shard: a [SUSPECT] shard
    goes out of service, and the next completed refit brings it back [SUSPECT]
    with its reported-failure streak intact, while a [HEALTHY] one comes back
    [HEALTHY] with a clean streak. *)
Theorem refit_restores_suspicion f i sh es v now :
  shards f !! i = Some sh -> is_serving sh = true ->
  Forall (fun e => ignored_while_partial i e = true) es ->
  let f1 := run (EvPartial i :: es) f in
  let f2 := run [EvRefit i v now] f1 in
  (i ∉ serving_shards f1) /\
  ((i ∈ suspected_shards f1) <-> state sh = SUSPECT) /\
  exists sh2, shards f2 !! i = Some sh2 /\ state sh2 = state sh /\ weight_version sh2 = v /\
    consecutive_reported_failures sh2 =
      (if decide (state sh = SUSPECT) then consecutive_reported_failures sh else 0).
Proof.
  intros Hi Hs Hes f1 f2.
  assert (shards f1 !! i = Some (shard_run (policy f) i (EvPartial i :: es) sh)) as H1
    by (subst f1; by erewrite run_lookup).
  set (s1 := shard_run _ _ _ sh) in H1.
  assert (partial_of (state sh) (consecutive_reported_failures sh) s1) as (P1 & P2 & P3).
  { change s1 with (shard_run (policy f) i es
      (if decide (i = i) then shard_next (policy f) (EvPartial i) sh else sh)).
    rewrite decide_True by done. cbn [shard_next]. apply shard_run_inv.
    { intros e s Hin Ht. rewrite Forall_forall in Hes. eapply partial_kept; eauto. }
    unfold partial_of, is_serving in *. destruct (state sh); done. }
  split_and!.
  - rewrite elem_of_serving, H1. intros (? & [= <-] & Hv). unfold is_serving in Hv.
    by rewrite P1 in Hv.
  - unfold suspected_shards, shards_where. rewrite elem_of_indices_where, H1. split.
    + intros (? & [= <-] & Hv). rewrite P1, P2 in Hv.
      destruct (decide (state sh = SUSPECT)) as [|Hne]; [done|].
      rewrite (bool_decide_eq_false_2 (Some (state sh) = _)) in Hv by congruence. done.
    + intros Hsu. exists s1. split; [done|]. rewrite P1, P2, Hsu. done.
  - eexists. split; [by apply run_lookup|]. unfold shard_run. cbn [foldl target].
    rewrite (decide_True (P := i = i)) by done. cbn [shard_next]. clearbody s1.
    rewrite P1, P2. cbn. unfold is_serving in Hs.
    destruct (state sh); try done; cbn; split_and!; try done.
Qed.

(** Probe streaks: [n] failed probes in a row leave a healthy shard
    [SUSPECT], still serving, below [unhealthy_threshold] and [DEAD] from it
    on; a dead shard ignores further probes. *)
Theorem probe_streak_thresholds f i sh err n :
  shards f !! i = Some sh -> state sh = HEALTHY -> consecutive_probe_failures sh = 0 ->
  1 <= unhealthy_threshold (policy f) -> (0 < n)%nat ->
  let f' := run (repeat (EvProbe i false err 0) n) f in
  state_of i f' = Ok (if unhealthy_threshold (policy f) <=? Z.of_nat n then DEAD else SUSPECT) /\
  ((i ∈ serving_shards f') <-> Z.of_nat n < unhealthy_threshold (policy f)).
Proof.
  intros Hi Hst Hc Ht Hn f'.
  destruct (shard_run_failed_probes (policy f) i err n sh Hst Hc Ht) as (H1 & _).
  replace (n =? 0)%nat with false in H1 by (symmetry; apply Nat.eqb_neq; lia).
  unfold state_of, get_shard. rewrite elem_of_serving.
  subst f'. erewrite run_lookup by done. cbn. unfold is_serving. rewrite H1. split; [done|].
  destruct (Z.leb_spec (unhealthy_threshold (policy f)) (Z.of_nat n)); split.
  - intros (? & [= <-] & Hv). by rewrite H1 in Hv.
  - lia.
  - lia.
  - intros _. eexists. split; [done|]. by rewrite H1.
Qed.

Lemma busier_order s :
  (forall x y z, busier s y x = false -> busier s z y = false -> busier s z x = false) /\
  (forall x y, busier s x y = true -> busier s y x = false) /\
  (forall x, busier s x x = false).
Proof.
  unfold busier. split_and!; intros *; rewrite ?orb_true_iff, ?orb_false_iff,
    ?andb_true_iff, ?andb_false_iff, ?Z.ltb_lt, ?Z.ltb_ge, ?Z.eqb_eq, ?Z.eqb_neq,
    ?Nat.ltb_lt, ?Nat.ltb_ge; lia.
Qed.

(** The router raises exactly when no shard is serving; otherwise it picks
    a serving shard with the fewest requests in flight, the lowest index
    among equals. *)
Theorem next_shard_least_loaded s :
  (next_shard s = Raise NoHealthyShards <-> serving_shards (monitor s) = []) /\
  (forall i, next_shard s = Ok i ->
     i ∈ serving_shards (monitor s) /\
     forall j, j ∈ serving_shards (monitor s) ->
       inflight i s < inflight j s \/ (inflight i s = inflight j s /\ (i <= j)%nat)).
Proof.
  unfold next_shard. destruct (serving_shards (monitor s)) as [|i0 l]; [by split|].
  split; [done|]. intros i [= <-]. destruct (busier_order s) as (Htr & Has & Hrf).
  destruct (argmin_by_spec (busier s) i0 l Htr Has Hrf) as [Hin Hmin].
  split; [done|]. intros j Hj. specialize (Hmin j Hj).
  generalize dependent (argmin_by (busier s) i0 l). intros k _ Hk. unfold busier in Hk.
  rewrite orb_false_iff, andb_false_iff, Z.ltb_ge, Z.eqb_neq, Nat.ltb_ge in Hk. lia.
Qed.

(** ** Witnesses *)

(** Two shards, the default policy. *)
Definition two_shards : Fleet :=
  match init 2 (mkPolicy 3 2 5 1) None (fun _ => 0) with
  | Ok f => f
  | Raise _ => mkFleet (mkPolicy 3 2 5 1) [] 0 ∅
  end.

Definition fresh_shard (i : nat) : ShardHealth := mkShard i None HEALTHY 0 0 0 0 None 0 0 "".

Lemma membership_tracks_serving_witness :
  last_serving (run [EvActorDeath 1 "gone"; EvLoaded 1 None; EvRefit 1 7 0] two_shards) =
    serving_set (run [EvActorDeath 1 "gone"; EvLoaded 1 None; EvRefit 1 7 0] two_shards).
Proof.
  exact (proj1 (membership_tracks_serving 2 (mkPolicy 3 2 5 1) None (fun _ => 0) two_shards
    [EvActorDeath 1 "gone"; EvLoaded 1 None; EvRefit 1 7 0] eq_refl)).
Defined.

Lemma readmission_needs_refit_witness :
  1%nat ∉ serving_shards (run [EvRestarting 1; EvLoaded 1 None; EvProbe 1 true "" 5]
    (run [EvActorDeath 1 "gone"] two_shards)).
Proof.
  apply readmission_needs_refit.
  - vm_compute. lia.
  - vm_compute. set_solver.
  - repeat constructor; discriminate.
Defined.

Lemma retired_is_terminal_witness :
  state_of 0 (run [EvRefit 0 9 0; EvLoaded 0 None] (run [EvRetire 0 "x"] two_shards)) =
    Ok RETIRED.
Proof. eapply retired_is_terminal; vm_compute; reflexivity. Defined.

(** Three reported failures with successful probes in between. *)
Lemma wedged_engine_condemned_witness :
  0%nat ∉ serving_shards (run
    [EvReportFailure 0 "a"; EvProbe 0 true "" 1; EvProbe 0 true "" 2;
     EvReportFailure 0 "b"; EvProbe 0 true "" 3; EvReportFailure 0 "c"] two_shards).
Proof.
  eapply (wedged_engine_condemned _ _ (fresh_shard 0));
    [reflexivity|cbn; lia|vm_compute; discriminate|repeat constructor|vm_compute; discriminate].
Defined.

Lemma refit_restores_suspicion_witness :
  let f := run [EvReportFailure 0 "a"] two_shards in
  exists sh2, shards (run [EvRefit 0 4 0] (run [EvPartial 0; EvProbe 0 true "" 1] f)) !! 0%nat
    = Some sh2 /\ state sh2 = SUSPECT.
Proof.
  intros f. destruct (refit_restores_suspicion f 0
    (set_state SUSPECT (set_error "a" (set_reported 1 (fresh_shard 0))))
    [EvProbe 0 true "" 1] 4 0) as (_ & _ & sh2 & H1 & H2 & _).
  - reflexivity.
  - reflexivity.
  - repeat constructor.
  - exists sh2. exact (conj H1 H2).
Defined.

Lemma probe_streak_thresholds_witness :
  state_of 1 (run (repeat (EvProbe 1 false "timeout" 0) 2) two_shards) = Ok SUSPECT.
Proof.
  refine (proj1 (probe_streak_thresholds two_shards 1 (fresh_shard 1) "timeout" 2 _ _ _ _ _));
    try reflexivity; [vm_compute; discriminate|lia].
Defined.

Lemma next_shard_least_loaded_witness :
  let s := acquire 0 (mkSel two_shards ∅) in
  next_shard s = Ok 1%nat /\ 1%nat ∈ serving_shards (monitor s).
Proof.
  intros s. split; [reflexivity|].
  exact (proj1 (proj2 (next_shard_least_loaded s) 1%nat eq_refl)).
Defined.

(** ** Behaviours the comments rule out *)

(** [report_refit] promotes a [DEAD] shard to [HEALTHY] directly, without
    passing through [STALE]. *)
Example dead_to_healthy_by_refit :
  state_of 0 (run [EvActorDeath 0 "gone"; EvRefit 0 4 0] two_shards) = Ok HEALTHY.
Proof. reflexivity. Qed.

(** A shard that probes brought back to [HEALTHY] before a refit was aborted
    loses the streak of reported failures when the next refit completes. *)
Example probed_streak_is_cleared_by_refit :
  (consecutive_reported_failures <$>
     shards (run [EvReportFailure 0 "a"; EvReportFailure 0 "b";
                  EvProbe 0 true "" 1; EvProbe 0 true "" 2] two_shards) !! 0%nat) = Some 2 /\
  (consecutive_reported_failures <$>
     shards (run [EvReportFailure 0 "a"; EvReportFailure 0 "b";
                  EvProbe 0 true "" 1; EvProbe 0 true "" 2;
                  EvPartial 0; EvRefit 0 4 3] two_shards) !! 0%nat) = Some 0.
Proof. by split. Qed.
