(* ===== verification/Packing.v ===== *)
(** * Sequence packing: the packer interface and the bin-count adjustment

    Models the base class [SequencePacker] of
    [src/nemo_rl/data/packing/algorithms.py]: the constructor's validation,
    [_adjust_bin_count] and [pack], for any [_pack_implementation] that meets
    the class [PackImpl].  The concrete algorithms are in [PackingSimple] and
    [PackingMffd].  A bin is the list of the indices it holds.  Metrics
    collection is not modelled. *)

From S2P Require Import Prelude.

Record Params := mkParams {
  bin_capacity : Z;
  min_bin_count : option Z;
  bin_count_multiple : option Z;
  max_sequences_per_bin : option Z }.

(** [SequencePacker.__init__]. *)
Definition packer_init (cap : Z) (mn mult mx : option Z) : res Params :=
  _ ← raise_if (match mn with Some v => v <? 0 | None => false end) ValueError;
  _ ← raise_if (match mult with Some v => v <? 1 | None => false end) ValueError;
  _ ← raise_if (match mx with Some v => v <? 1 | None => false end) ValueError;
  Ok (mkParams cap mn mult mx).

(** ** [_adjust_bin_count] *)

(** The number of bins the constraints ask for. *)
Definition target_bin_count (p : Params) (current : Z) : Z :=
  let t := match min_bin_count p with Some m => Z.max current m | None => current end in
  match bin_count_multiple p with
  | Some k => let r := t mod k in if r =? 0 then t else t + (k - r)
  | None => t
  end.

(** [(len, i)] tuples, compared lexicographically. *)
Definition size_ltb (a b : nat * nat) : bool :=
  (a.1 <? b.1)%nat || ((a.1 =? b.1)%nat && (a.2 <? b.2)%nat).

(** The inner [while]: advance [source_bin_idx] to a bin that holds at least
    two sequences.  [sources] is [bin_sizes[source_bin_idx:]]. *)
Fixpoint find_source (adj : list (list nat)) (sources : list (nat * nat))
    : option (nat * list (nat * nat)) :=
  match sources with
  | [] => None
  | (_, src) :: rest =>
      if (1 <? length (default [] (adj !! src)))%nat then Some (src, sources)
      else find_source adj rest
  end.

(** [bins[i].pop()]: the last element and what is left. *)
Definition pop_last (b : list nat) : option (nat * list nat) :=
  match last b with
  | Some x => Some (x, take (length b - 1) b)
  | None => None
  end.

(** The [for new_bin_idx in range(...)] loop. *)
Fixpoint fill_bins (new_idxs : list nat) (sources : list (nat * nat))
    (adj : list (list nat)) : res (list (list nat)) :=
  match new_idxs with
  | [] => Ok adj
  | new :: rest =>
      match find_source adj sources with
      | None => Raise ValueError
      | Some (src, sources') =>
          match pop_last (default [] (adj !! src)) with
          | None => Raise IndexError
          | Some (x, b) =>
              let adj1 := <[src := b]> adj in
              fill_bins rest sources' (<[new := default [] (adj1 !! new) ++ [x]]> adj1)
          end
      end
  end.

Definition adjust_bin_count (p : Params) (bins : list (list nat)) : res (list (list nat)) :=
  let current := length bins in
  let target := target_bin_count p (Z.of_nat current) in
  if target =? Z.of_nat current then Ok bins
  else
    _ ← raise_if (Z.of_nat (length (concat bins)) <? target) ValueError;
    let needed := (Z.to_nat target - current)%nat in
    let adj := bins ++ repeat [] needed in
    let bin_sizes := (fun '(i, b) => (length b, i)) <$> enumerate bins in
    fill_bins (seq current needed) (py_sort (fun a b => size_ltb b a) bin_sizes) adj.

(** ** [pack] *)

(** [_validate_sequence_lengths]. *)
Definition validate_sequence_lengths (p : Params) (lens : list Z) : res unit :=
  raise_if (existsb (fun l => bin_capacity p <? l) lens) ValueError.

Section pack.
  Context (pack_implementation : Params -> list Z -> res (list (list nat))).

Definition pack (p : Params) (lens : list Z) : res (list (list nat)) :=
  bins ← pack_implementation p lens;
  adjust_bin_count p bins.
End pack.

(** [len(bins[i]) < max_sequences_per_bin], or no cap. *)
Definition has_sequence_room (p : Params) (count : nat) : bool :=
  match max_sequences_per_bin p with
  | None => true
  | Some m => Z.of_nat count <? m
  end.

(** ** The contract of a packing algorithm *)

Definition load (lens : list Z) (b : list nat) : Z := zsum (select_indices lens b).

Definition within_cap (p : Params) (b : list nat) : Prop :=
  match max_sequences_per_bin p with None => True | Some m => Z.of_nat (length b) <= m end.

(** A bin respects the token capacity and the sequence cap. *)
Definition bin_ok (p : Params) (lens : list Z) (b : list nat) : Prop :=
  load lens b <= bin_capacity p /\ within_cap p b.

(** Every sequence is in exactly one bin, and every bin is used and legal. *)
Record packing (p : Params) (lens : list Z) (bins : list (list nat)) : Prop := {
  packing_once : concat bins ≡ₚ seq 0 (length lens);
  packing_used : Forall (fun b => b <> []) bins;
  packing_legal : Forall (bin_ok p lens) bins }.

Definition valid_params (p : Params) : Prop :=
  (forall m, min_bin_count p = Some m -> 0 <= m) /\
  (forall k, bin_count_multiple p = Some k -> 1 <= k) /\
  (forall m, max_sequences_per_bin p = Some m -> 1 <= m).

(** What [_pack_implementation] promises [pack]: it raises [ValueError] on a
    sequence longer than a bin, and packs every other input it accepts;
    [accepts] is the algorithm's own condition on the input. *)
Class PackImpl (accepts : Params -> list Z -> Prop)
    (impl : Params -> list Z -> res (list (list nat))) : Prop := {
  impl_packs p lens : valid_params p -> accepts p lens ->
    Forall (fun l => l <= bin_capacity p) lens ->
    exists bins, impl p lens = Ok bins /\ packing p lens bins;
  impl_rejects p lens : valid_params p ->
    Exists (fun l => bin_capacity p < l) lens -> impl p lens = Raise ValueError }.

(** ** Loads and moves *)

Lemma select_indices_app {A} (l : list A) b1 b2 :
  select_indices l (b1 ++ b2) = select_indices l b1 ++ select_indices l b2.
Proof. unfold select_indices. by rewrite omap_app. Qed.

Lemma load_app lens b1 b2 : load lens (b1 ++ b2) = load lens b1 + load lens b2.
Proof. unfold load. by rewrite select_indices_app, zsum_app. Qed.

Lemma load_nonneg lens b : Forall (fun l => 0 <= l) lens -> 0 <= load lens b.
Proof.
  intros H. apply zsum_nonneg. rewrite Forall_forall in H |- *. intros x Hx.
  apply list_elem_of_omap in Hx as (i & _ & Hi). apply H.
  by eapply list_elem_of_lookup_2.
Qed.

#[export] Hint Resolve load_nonneg : py.

(** A part of a legal bin is legal, lengths being nonnegative. *)
Lemma bin_ok_part p lens b1 b2 :
  Forall (fun l => 0 <= l) lens -> bin_ok p lens (b1 ++ b2) ->
  bin_ok p lens b1 /\ bin_ok p lens b2.
Proof.
  intros Hl [Hload Hcap]. rewrite load_app in Hload.
  pose proof (load_nonneg lens b1 Hl). pose proof (load_nonneg lens b2 Hl).
  unfold bin_ok, within_cap in *. destruct (max_sequences_per_bin p);
    rewrite ?length_app in Hcap; repeat split; try lia.
Qed.

Lemma pop_last_spec b :
  (1 < length b)%nat -> exists x b', pop_last b = Some (x, b') /\ b = b' ++ [x] /\ b' <> [].
Proof.
  intros Hb. destruct (exists_last (l := b)) as (b' & x & ->); [by destruct b; cbn in *; [lia|]|].
  exists x, b'. unfold pop_last. rewrite last_snoc, length_app. cbn.
  rewrite Nat.add_sub, take_app_length. split_and!; [done|done|].
  intros ->. cbn in Hb. lia.
Qed.

Lemma find_source_None adj sources i :
  find_source adj sources = None -> i ∈ sources.*2 ->
  (length (default [] (adj !! i)) <= 1)%nat.
Proof.
  induction sources as [|[n src] rest IH]; [set_solver|]. cbn [find_source].
  destruct (_ <? _)%nat eqn:E; [done|]. apply Nat.ltb_ge in E. cbn.
  intros H [->|Hi]%elem_of_cons; auto.
Qed.

Lemma find_source_Some adj sources src sources' :
  find_source adj sources = Some (src, sources') ->
  (src ∈ sources.*2) /\ (1 < length (default [] (adj !! src)))%nat /\
  (forall i, i ∈ sources'.*2 -> i ∈ sources.*2) /\
  (forall i, i ∈ sources.*2 -> i ∈ sources'.*2 \/ (length (default [] (adj !! i)) <= 1)%nat).
Proof.
  induction sources as [|[n s] rest IH]; [done|]. cbn [find_source].
  destruct (_ <? _)%nat eqn:E.
  - intros [= <- <-]. apply Nat.ltb_lt in E. split_and!; auto. cbn. set_solver.
  - intros H. apply Nat.ltb_ge in E. destruct (IH H) as (H1 & H2 & H3 & H4).
    cbn. split_and!; [set_solver|done|set_solver|].
    intros i [->|Hi]%elem_of_cons; [by right|]. auto.
Qed.

Lemma concat_insert (l : list (list nat)) i b b' x :
  l !! i = Some b -> b ≡ₚ x :: b' -> x :: concat (<[i := b']> l) ≡ₚ concat l.
Proof.
  intros Hi Hb. rewrite <- (take_drop_middle l i b Hi) at 2.
  rewrite insert_take_drop by (by eapply lookup_lt_Some).
  rewrite !concat_app. cbn. rewrite Hb. cbn.
  rewrite <- Permutation_middle. done.
Qed.

Lemma length_concat_singletons (l : list (list nat)) :
  Forall (fun b => length b <= 1)%nat l -> (length (concat l) <= length l)%nat.
Proof. induction 1; cbn; rewrite ?length_app; lia. Qed.

(** Where the redistribution stands: the original bins, the bins filled so
    far, and [k] bins still empty. *)
Record filling p lens (olds news : list (list nat)) (k : nat) (sources : list (nat * nat)) : Prop := {
  fill_once : concat (olds ++ news) ≡ₚ seq 0 (length lens);
  fill_used : Forall (fun b => b <> []) olds;
  fill_single : Forall (fun b => length b = 1)%nat news;
  fill_legal : Forall (bin_ok p lens) (olds ++ news);
  fill_sources : forall i b, olds !! i = Some b -> (1 < length b)%nat -> i ∈ sources.*2;
  fill_range : forall i, i ∈ sources.*2 -> (i < length olds)%nat }.

Lemma repeat_empty_lookup k (olds news : list (list nat)) :
  (olds ++ news ++ repeat [] (S k)) !! (length olds + length news)%nat = Some [].
Proof.
  rewrite app_assoc, lookup_app_r by (rewrite length_app; lia).
  rewrite length_app. by rewrite Nat.sub_diag.
Qed.

Lemma fill_step p lens olds news k sources :
  Forall (fun l => 0 <= l) lens ->
  (forall m, max_sequences_per_bin p = Some m -> 1 <= m) ->
  filling p lens olds news (S k) sources ->
  (length olds + length news + S k <= length lens)%nat ->
  exists src sources' x b olds',
    find_source (olds ++ news ++ repeat [] (S k)) sources = Some (src, sources') /\
    pop_last (default [] ((olds ++ news ++ repeat [] (S k)) !! src)) = Some (x, b) /\
    (src < length olds)%nat /\ olds' = <[src := b]> olds /\
    filling p lens olds' (news ++ [[x]]) k sources'.
Proof.
  intros Hl Hmx [H1 H2 H3 H4 H5 H6] Hlen.
  assert (forall i, (i < length olds)%nat ->
    default [] ((olds ++ news ++ repeat [] (S k)) !! i) = default [] (olds !! i)) as Hlk.
  { intros i Hi. by rewrite lookup_app_l. }
  destruct (find_source _ _) as [[src sources']|] eqn:E.
  - apply find_source_Some in E as (E1 & E2 & E3 & E4).
    pose proof (H6 _ E1) as Hsrc. rewrite Hlk in * by done.
    destruct (lookup_lt_is_Some_2 olds src Hsrc) as [b0 Hb0]. rewrite Hb0 in *. cbn in E2 |- *.
    destruct (pop_last_spec b0 E2) as (x & b & Hp & Hb & Hne).
    exists src, sources', x, b, (<[src := b]> olds). split_and!; [done|by rewrite Hlk, Hb0|done|done|].
    assert (bin_ok p lens b0) as Hok0.
    { rewrite Forall_forall in H4. apply H4, elem_of_app. left. by eapply list_elem_of_lookup_2. }
    subst b0. apply bin_ok_part in Hok0 as [Hok Hokx]; [|done].
    constructor.
    + rewrite <- H1. rewrite !concat_app. cbn.
      rewrite <- (concat_insert olds src (b ++ [x]) b x Hb0) by apply Permutation_app_comm.
      rewrite app_assoc. symmetry. apply Permutation_cons_append.
    + by apply Forall_insert.
    + apply Forall_app; split; [done|]. by constructor.
    + rewrite Forall_app in H4. destruct H4 as [H4a H4b]. rewrite !Forall_app. split.
      { by apply Forall_insert. } split; [done|]. by constructor.
    + intros i bi Hi Hbi. destruct (decide (i = src)) as [->|Hne'].
      * rewrite list_lookup_insert_eq in Hi by done. simplify_eq.
        destruct (E4 src E1) as [|Hle]; [done|]. rewrite Hlk, Hb0 in Hle by done. cbn in Hle. lia.
      * rewrite list_lookup_insert_ne in Hi by done.
        destruct (E4 i) as [|Hle]; [by eapply H5|done|].
        rewrite Hlk, Hi in Hle by (by eapply lookup_lt_Some). cbn in Hle. lia.
    + intros i Hi. rewrite length_insert. auto.
  - exfalso. assert (Forall (fun b => length b <= 1)%nat (olds ++ news)) as Hall.
    { apply Forall_app; split; [|eapply Forall_impl; [done|cbn; lia]].
      apply Forall_lookup_2. intros i b Hi.
      destruct (decide (1 < length b)%nat) as [Hb|]; [|lia].
      pose proof (find_source_None _ _ i E (H5 _ _ Hi Hb)) as Hle.
      rewrite Hlk, Hi in Hle by (by eapply lookup_lt_Some). done. }
    apply length_concat_singletons in Hall. rewrite H1, length_seq, length_app in Hall. lia.
Qed.

Lemma insert_new_bin k (olds news : list (list nat)) src b x :
  (src < length olds)%nat ->
  let adj1 := <[src := b]> (olds ++ news ++ repeat [] (S k)) in
  let new := (length olds + length news)%nat in
  <[new := default [] (adj1 !! new) ++ [x]]> adj1 =
    <[src := b]> olds ++ (news ++ [[x]]) ++ repeat [] k.
Proof.
  intros Hs adj1 new. assert (adj1 = <[src := b]> olds ++ news ++ repeat [] (S k)) as ->.
  { subst adj1. by rewrite insert_app_l. }
  assert (new = length (<[src := b]> olds) + length news)%nat as ->
    by (subst new; by rewrite length_insert).
  rewrite repeat_empty_lookup. cbn [default app].
  rewrite app_assoc, insert_app_r_alt by (rewrite length_app; lia).
  rewrite length_app, Nat.sub_diag. cbn. by rewrite <- !app_assoc.
Qed.

Lemma fill_bins_spec p lens k : forall olds news sources,
  Forall (fun l => 0 <= l) lens ->
  (forall m, max_sequences_per_bin p = Some m -> 1 <= m) ->
  filling p lens olds news k sources ->
  (length olds + length news + k <= length lens)%nat ->
  exists bins, fill_bins (seq (length olds + length news) k) sources
      (olds ++ news ++ repeat [] k) = Ok bins /\
    packing p lens bins /\ length bins = (length olds + length news + k)%nat.
Proof.
  induction k as [|k IH]; intros olds news sources Hl Hmx Hf Hlen.
  { destruct Hf as [H1 H2 H3 H4 _ _]. exists (olds ++ news).
    cbn. rewrite app_nil_r, length_app. split_and!; [done| |lia]. split; [done| |done].
    apply Forall_app; split; [done|]. eapply Forall_impl; [exact H3|]. by intros []. }
  destruct (fill_step _ _ _ _ _ _ Hl Hmx Hf Hlen)
    as (src & sources' & x & b & olds' & E1 & E2 & Hs & -> & Hf').
  cbn [seq fill_bins]. rewrite E1, E2. cbv zeta. rewrite insert_new_bin by done.
  destruct (IH _ _ _ Hl Hmx Hf') as (bins & Hb & Hp & Hn).
  { rewrite length_insert, length_app. cbn. lia. }
  exists bins. rewrite length_insert, length_app in Hb, Hn. cbn [length] in Hb, Hn.
  replace (length olds + (length news + 1))%nat with (S (length olds + length news)) in Hb by lia.
  split_and!; [done|done|lia].
Qed.

Lemma target_bin_count_spec p c :
  valid_params p -> 0 <= c ->
  let t := target_bin_count p c in
  c <= t /\ (forall m, min_bin_count p = Some m -> m <= t) /\
  (forall k, bin_count_multiple p = Some k -> (k | t)).
Proof.
  intros (Hmn & Hmu & _) Hc t. unfold target_bin_count in t.
  set (t0 := match min_bin_count p with Some m => Z.max c m | None => c end) in t.
  assert (c <= t0 /\ (forall m, min_bin_count p = Some m -> m <= t0)) as [H1 H2].
  { unfold t0. destruct (min_bin_count p); split; try lia; intros ? [=]; lia. }
  destruct (bin_count_multiple p) as [k|] eqn:Ek; [|done].
  specialize (Hmu k eq_refl). unfold t. pose proof (Z.mod_pos_bound t0 k ltac:(lia)).
  destruct (Z.eqb_spec (t0 mod k) 0) as [E|E].
  - split_and!; [done|done|]. intros ? [= <-]. apply Z.mod_divide; lia.
  - split_and!; [lia|intros m Hm; specialize (H2 m Hm); lia|]. intros ? [= <-].
    exists (t0 / k + 1). pose proof (Z.div_mod t0 k ltac:(lia)). lia.
Qed.

Lemma adjust_spec p lens bins :
  valid_params p -> Forall (fun l => 0 <= l) lens -> packing p lens bins ->
  let t := target_bin_count p (Z.of_nat (length bins)) in
  if decide (t = Z.of_nat (length bins) \/ t <= Z.of_nat (length lens))
  then exists bins', adjust_bin_count p bins = Ok bins' /\ packing p lens bins' /\
         Z.of_nat (length bins') = t
  else adjust_bin_count p bins = Raise ValueError.
Proof.
  intros Hv Hl Hp t. unfold adjust_bin_count. fold t.
  pose proof (target_bin_count_spec p (Z.of_nat (length bins)) Hv ltac:(lia)) as (Ht & _ & _).
  fold t in Ht.
  assert (length (concat bins) = length lens) as Hlen.
  { by rewrite (packing_once _ _ _ Hp), length_seq. }
  destruct (Z.eqb_spec t (Z.of_nat (length bins))) as [E|E].
  { rewrite decide_True by auto. eauto. }
  rewrite Hlen. destruct (Z.ltb_spec (Z.of_nat (length lens)) t) as [Hlt|Hge].
  { rewrite decide_False by lia. done. }
  rewrite decide_True by lia. cbn [raise_if mbind res_bind].
  set (k := (Z.to_nat t - length bins)%nat).
  set (srcs := py_sort _ _).
  assert (filling p lens bins [] k srcs) as Hf.
  { destruct Hp as [H1 H2 H3]. assert (forall i, i ∈ srcs.*2 <-> (i < length bins)%nat) as Hsrc.
    { intros i. unfold srcs. rewrite py_sort_perm. rewrite <- list_fmap_compose.
      rewrite list_elem_of_fmap. split.
      - intros ([j b] & -> & Hin). apply elem_of_enumerate in Hin. by eapply lookup_lt_Some.
      - intros [b Hb]%lookup_lt_is_Some_2. exists (i, b). split; [done|]. by apply elem_of_enumerate. }
    constructor; rewrite ?app_nil_r; try done; [|apply Hsrc].
    intros i b Hb _. apply Hsrc. by eapply lookup_lt_Some. }
  destruct (fill_bins_spec p lens k bins [] srcs Hl) as (bins' & Hb & Hp' & Hn); try done.
  { apply Hv. } { cbn. lia. }
  exists bins'. cbn [length app] in Hb. rewrite Nat.add_0_r in Hb. rewrite Hb.
  split_and!; [done|done|]. cbn in Hn. lia.
Qed.

(** ** Properties *)

(** For any algorithm that meets the interface, [pack] rejects inputs with
    a sequence longer than a bin, and otherwise either returns bins in which
    every sequence occurs exactly once, no bin is empty, over capacity or over
    the sequence cap, and the number of bins respects [min_bin_count] and
    [bin_count_multiple], or raises [ValueError] because there are fewer
    sequences than the bins those constraints ask for; redistribution never
    runs out of bins to split. *)
Theorem pack_correct accepts impl `{!PackImpl accepts impl} p lens :
  valid_params p -> accepts p lens -> Forall (fun l => 0 <= l) lens ->
  if existsb (fun l => bin_capacity p <? l) lens
  then pack impl p lens = Raise ValueError
  else exists bins0, impl p lens = Ok bins0 /\
    let t := target_bin_count p (Z.of_nat (length bins0)) in
    (t = Z.of_nat (length bins0) \/ t <= Z.of_nat (length lens) ->
       exists bins, pack impl p lens = Ok bins /\ packing p lens bins /\
         Z.of_nat (length bins) = t /\
         (forall m, min_bin_count p = Some m -> m <= Z.of_nat (length bins)) /\
         (forall k, bin_count_multiple p = Some k -> (k | Z.of_nat (length bins)))) /\
    (Z.of_nat (length bins0) < t -> Z.of_nat (length lens) < t ->
       pack impl p lens = Raise ValueError).
Proof.
  intros Hv Ha Hl. unfold pack. destruct (existsb _ lens) eqn:E.
  - rewrite (impl_rejects p lens Hv); [done|]. apply existsb_exists in E as (l & Hin & Hlt).
    apply Exists_exists. exists l. rewrite list_elem_of_In. split; [done|]. lia.
  - assert (Forall (fun l => l <= bin_capacity p) lens) as Hcap.
    { apply Forall_forall. intros l Hin%list_elem_of_In.
      destruct (Z.leb_spec l (bin_capacity p)) as [|Hgt]; [done|].
      assert (existsb (fun l => bin_capacity p <? l) lens = true); [|congruence].
      apply existsb_exists. exists l. split; [done|]. by apply Z.ltb_lt. }
    destruct (impl_packs p lens Hv Ha Hcap) as (bins0 & Hi & Hp). exists bins0.
    split; [done|]. rewrite Hi. cbn [mbind res_bind].
    pose proof (adjust_spec p lens bins0 Hv Hl Hp) as Had. cbv zeta in *.
    destruct (target_bin_count_spec p (Z.of_nat (length bins0)) Hv ltac:(lia)) as (_ & Hm & Hk).
    destruct (decide _) as [Hd|Hd]; split; intros; try lia.
    + destruct Had as (bins & Hb & Hp' & Hn). exists bins. rewrite Hn. auto.
    + done.
Qed.
