(* ===== verification/PackingSimple.v ===== *)
(** * The direct packing algorithms

    [ConcatenativePacker], [FirstFitPacker] with its two orders,
    [GreedyKnapsackPacker] and [BalancedGreedyKnapsackPacker] of
    [src/nemo_rl/data/packing/algorithms.py], each an instance of the packer
    interface [Packing.PackImpl].  [random.shuffle] is a parameter: any
    function that permutes its list.  Python divides with floats in
    [math.ceil(sum / bin_capacity)]; the model takes the exact quotient, the
    same below 2^53. *)

From S2P Require Import Prelude Packing.

(** ** ConcatenativePacker *)

Definition concat_step (p : Params) (st : list (list nat) * list nat * Z) (it : nat * Z)
    : list (list nat) * list nat * Z :=
  let '(bins, cur, len) := st in
  let '(i, length_i) := it in
  let exceeds_capacity := bin_capacity p <? len + length_i in
  let exceeds_sequence_limit := negb (has_sequence_room p (length cur)) in
  if exceeds_capacity || exceeds_sequence_limit then
    (match cur with [] => bins | _ => bins ++ [cur] end, [i], length_i)
  else (bins, cur ++ [i], len + length_i).

Definition concatenative (p : Params) (lens : list Z) : res (list (list nat)) :=
  _ ← validate_sequence_lengths p lens;
  let '(bins, cur, _) := foldl (concat_step p) ([], [], 0) (enumerate lens) in
  Ok (match cur with [] => bins | _ => bins ++ [cur] end).

(** ** FirstFitPacker *)

(** The first bin with room for [len], by position. *)
Definition find_bin (p : Params) (bins : list (list nat)) (rems : list Z) (len : Z)
    : option nat :=
  fst <$> List.find (fun '(i, r) =>
    (len <=? r) && has_sequence_room p (length (default [] (bins !! i)))) (enumerate rems).

Definition first_fit_step (p : Params) (st : list (list nat) * list Z) (it : Z * nat)
    : res (list (list nat) * list Z) :=
  let '(bins, rems) := st in
  let '(len, idx) := it in
  _ ← raise_if (bin_capacity p <? len) ValueError;
  match find_bin p bins rems len with
  | Some i => Ok (alter (fun b => b ++ [idx]) i bins, alter (fun r => r - len) i rems)
  | None => Ok (bins ++ [[idx]], rems ++ [bin_capacity p - len])
  end.

Fixpoint first_fit_loop (p : Params) (items : list (Z * nat))
    (st : list (list nat) * list Z) : res (list (list nat) * list Z) :=
  match items with
  | [] => Ok st
  | it :: rest => st' ← first_fit_step p st it; first_fit_loop p rest st'
  end.

(** [_pack_implementation] over the items [_prepare_sequences] returns. *)
Definition first_fit (prepare : list (Z * nat) -> list (Z * nat))
    (p : Params) (lens : list Z) : res (list (list nat)) :=
  let indexed := (fun '(i, l) => (l, i)) <$> enumerate lens in
  fst <$> first_fit_loop p (prepare indexed) ([], []).

(** [(length, i)] tuples, compared lexicographically. *)
Definition item_ltb (a b : Z * nat) : bool :=
  (a.1 <? b.1) || ((a.1 =? b.1) && (a.2 <? b.2)%nat).

Definition first_fit_decreasing : Params -> list Z -> res (list (list nat)) :=
  first_fit (py_sort (fun a b => item_ltb b a)).

Definition first_fit_shuffle (shuffle : list (Z * nat) -> list (Z * nat))
    : Params -> list Z -> res (list (list nat)) :=
  first_fit shuffle.

(** ** GreedyKnapsackPacker *)

(** The tuples [(length, -index, index)]. *)
Abbreviation triple := (Z * Z * nat)%type (only parsing).

Definition triple_ltb (a b : triple) : bool :=
  let '(l1, n1, i1) := a in
  let '(l2, n2, i2) := b in
  (l1 <? l2) || ((l1 =? l2) && ((n1 <? n2) || ((n1 =? n2) && (i1 <? i2)%nat))).

(** [bisect_right(remaining, (capacity, 1, n))]. *)
Definition fit_count (n : nat) (capacity : Z) (remaining : list triple) : nat :=
  bisect (fun y => negb (triple_ltb (capacity, 1, n) y)) remaining.

(** The inner [while]: fill one bin. *)
Fixpoint fill_one (fuel : nat) (p : Params) (n : nat) (remaining : list triple)
    (current : list nat) (capacity : Z) : res (list triple * list nat) :=
  if negb (has_sequence_room p (length current)) then Ok (remaining, current)
  else match fit_count n capacity remaining with
  | O => Ok (remaining, current)
  | S k =>
      match fuel, remaining !! k with
      | S fuel', Some (len, _, index) =>
          fill_one fuel' p n (delete k remaining) (current ++ [index]) (capacity - len)
      | O, _ => Raise OutOfFuel
      | _, None => Raise IndexError
      end
  end.

(** The outer [while remaining]. *)
Fixpoint greedy_loop (fuel : nat) (p : Params) (n : nat) (remaining : list triple)
    (bins : list (list nat)) : res (list (list nat)) :=
  match remaining with
  | [] => Ok bins
  | _ =>
      match fuel with
      | O => Raise OutOfFuel
      | S fuel' =>
          '(remaining', current) ← fill_one (length remaining) p n remaining [] (bin_capacity p);
          greedy_loop fuel' p n remaining' (bins ++ [current])
      end
  end.

Definition greedy_knapsack (p : Params) (lens : list Z) : res (list (list nat)) :=
  _ ← validate_sequence_lengths p lens;
  let items := (fun '(i, l) => (l, - Z.of_nat i, i)) <$> enumerate lens in
  greedy_loop (length lens) p (length lens) (py_sort triple_ltb items) [].

(** ** BalancedGreedyKnapsackPacker *)

(** [math.ceil(a / b)]; zero division raises. *)
Definition ceil_div (a b : Z) : res Z :=
  if b =? 0 then Raise ZeroDivisionError else Ok (- ((- a) / b)).

Definition balanced_step (p : Params) (lens : list Z) (st : list (list nat) * list Z)
    (index : nat) : list (list nat) * list Z :=
  let '(bins, loads) := st in
  let len := default 0 (lens !! index) in
  let candidates := fst <$> List.filter (fun '(i, load) =>
      (load + len <=? bin_capacity p)
      && has_sequence_room p (length (default [] (bins !! i)))) (enumerate loads) in
  let '(bins1, loads1, target) :=
    match candidates with
    | [] => (bins ++ [[]], loads ++ [0], length bins)
    | c :: cs =>
        (bins, loads,
         argmin_by (fun i j => default 0 (loads !! i) <? default 0 (loads !! j)) c cs)
    end in
  (alter (fun b => b ++ [index]) target bins1, alter (fun l => l + len) target loads1).

(** [sorted(range(n), key=lens.__getitem__, reverse=True)]: the reverse sort is
    stable, equal lengths stay in index order. *)
Definition by_length_desc (lens : list Z) : list nat :=
  py_sort (fun i j => default 0 (lens !! j) <? default 0 (lens !! i)) (seq 0 (length lens)).

(** [range(k)] is empty for a negative [k]: [Z.to_nat]. *)
Definition balanced_greedy (delta : Z) (p : Params) (lens : list Z)
    : res (list (list nat)) :=
  _ ← validate_sequence_lengths p lens;
  match lens with
  | [] => Ok []
  | _ =>
      count ← ceil_div (zsum lens) (bin_capacity p);
      let k := Z.to_nat (count + delta) in
      let '(bins, _) := foldl (balanced_step p lens) (repeat [] k, repeat 0 k)
                          (by_length_desc lens) in
      Ok (List.filter (fun b => match b with [] => false | _ => true end) bins)
  end.

(** [_create_indexed_lengths] and [_estimate_bins_needed], helpers of the base
    class for its subclasses. *)
Definition create_indexed_lengths (lens : list Z) (rev : bool) : list (Z * nat) :=
  let indexed := (fun '(i, l) => (l, i)) <$> enumerate lens in
  if rev then py_sort (fun a b => item_ltb b a) indexed else indexed.

Definition estimate_bins_needed (p : Params) (lens : list Z) : res Z :=
  c ← ceil_div (zsum lens) (bin_capacity p); Ok (Z.max 1 c).

(** [BalancedGreedyKnapsackPacker.__init__]'s own check. *)
Definition balanced_init (cap : Z) (mn mult mx : option Z) (delta : Z) : res Params :=
  p ← packer_init cap mn mult mx;
  _ ← raise_if (delta <? 0) ValueError;
  Ok p.

(** ** Filling bins one sequence at a time *)

Lemma load_singleton lens i l : lens !! i = Some l -> load lens [i] = l.
Proof. intros H. unfold load, select_indices. cbn. rewrite H. cbn. lia. Qed.

Lemma room_within p b i :
  has_sequence_room p (length b) = true -> within_cap p (b ++ [i]).
Proof.
  unfold has_sequence_room, within_cap. destruct (max_sequences_per_bin p); [|done].
  rewrite length_app. cbn. intros ?%Z.ltb_lt. lia.
Qed.

Lemma bin_ok_snoc p lens b i l :
  lens !! i = Some l -> load lens b + l <= bin_capacity p ->
  has_sequence_room p (length b) = true -> bin_ok p lens (b ++ [i]).
Proof.
  intros Hi Hl Hr. split; [|by apply room_within].
  rewrite load_app, (load_singleton _ _ l) by done. done.
Qed.

Lemma room_empty p :
  valid_params p -> has_sequence_room p 0 = true.
Proof.
  intros (_ & _ & H). unfold has_sequence_room. destruct (max_sequences_per_bin p); [|done].
  apply Z.ltb_lt. specialize (H _ eq_refl). cbn. lia.
Qed.

Lemma bin_ok_single p lens i l :
  valid_params p -> lens !! i = Some l -> l <= bin_capacity p -> bin_ok p lens [i].
Proof.
  intros Hv Hi Hl. apply (bin_ok_snoc p lens [] i l); [done|cbn; lia|by apply room_empty].
Qed.

Lemma concat_alter_snoc (bins : list (list nat)) i b x :
  bins !! i = Some b -> concat (alter (fun b => b ++ [x]) i bins) ≡ₚ x :: concat bins.
Proof.
  intros Hi. rewrite (alter_as_insert _ _ _ b) by done.
  rewrite <- (take_drop_middle bins i b Hi) at 2.
  rewrite insert_take_drop by (by eapply lookup_lt_Some).
  rewrite !concat_app. cbn. rewrite <- app_assoc. cbn.
  by rewrite <- !Permutation_middle.
Qed.

Lemma Forall_alter_snoc P (bins : list (list nat)) i b x :
  bins !! i = Some b -> Forall P bins -> P (b ++ [x]) ->
  Forall P (alter (fun b => b ++ [x]) i bins).
Proof. intros Hi H Hb. rewrite (alter_as_insert _ _ _ b) by done. by apply Forall_insert. Qed.

Lemma validate_ok p lens :
  Forall (fun l => l <= bin_capacity p) lens -> validate_sequence_lengths p lens = Ok tt.
Proof.
  intros H. unfold validate_sequence_lengths.
  destruct (existsb _ lens) eqn:E; [|done].
  apply existsb_exists in E as (l & Hin & Hlt). rewrite Forall_forall in H.
  specialize (H l). rewrite list_elem_of_In in H. specialize (H Hin). lia.
Qed.

Lemma validate_rejects p lens :
  Exists (fun l => bin_capacity p < l) lens ->
  validate_sequence_lengths p lens = Raise ValueError.
Proof.
  intros (l & Hin & Hlt)%Exists_exists. unfold validate_sequence_lengths.
  replace (existsb _ lens) with true; [done|]. symmetry. apply existsb_exists.
  exists l. rewrite <- list_elem_of_In. split; [done|]. by apply Z.ltb_lt.
Qed.

(** ** Concatenative *)

Record concat_inv p lens (k : nat) (st : list (list nat) * list nat * Z) : Prop := {
  ci_order : concat st.1.1 ++ st.1.2 = seq 0 k;
  ci_used : Forall (fun b => b <> []) st.1.1;
  ci_legal : Forall (bin_ok p lens) st.1.1;
  ci_len : st.2 = load lens st.1.2;
  ci_cur : st.1.2 = [] \/ bin_ok p lens st.1.2 }.

Lemma concat_step_inv p lens k st l :
  valid_params p -> lens !! k = Some l -> l <= bin_capacity p ->
  concat_inv p lens k st -> concat_inv p lens (S k) (concat_step p st (k, l)).
Proof.
  intros Hv Hk Hl [H1 H2 H3 H4 H5]. destruct st as [[bins cur] len]. cbn [fst snd] in *.
  unfold concat_step. destruct (_ || _) eqn:E.
  - constructor; cbn -[seq].
    + rewrite seq_S. cbn -[seq]. rewrite <- H1. destruct cur; [by rewrite !app_nil_r|].
      rewrite concat_app. cbn. by rewrite app_nil_r.
    + destruct cur; [done|]. apply Forall_app; split; [done|]. by constructor.
    + destruct H5 as [->|H5]; [done|]. destruct cur; [done|].
      apply Forall_app; split; [done|]. by constructor.
    + symmetry. by apply load_singleton.
    + right. by eapply bin_ok_single.
  - apply orb_false_iff in E as [E1%Z.ltb_ge E2%negb_false_iff]. constructor; cbn [fst snd]; try done.
    + rewrite app_assoc, H1, seq_S. done.
    + rewrite load_app, (load_singleton _ _ l) by done. lia.
    + right. eapply bin_ok_snoc; [done|lia|done].
Qed.

Lemma concat_fold_inv p lens rest : forall k st,
  valid_params p -> Forall (fun l => l <= bin_capacity p) rest ->
  (forall i l, rest !! i = Some l -> lens !! (k + i)%nat = Some l) ->
  concat_inv p lens k st ->
  concat_inv p lens (k + length rest) (foldl (concat_step p) st (enumerate_from k rest)).
Proof.
  induction rest as [|l rest IH]; intros k st Hv Hc Hr Hi; cbn.
  { by rewrite Nat.add_0_r. }
  apply Forall_cons in Hc as [Hl Hc]. rewrite Nat.add_succ_r. apply (IH (S k)); [done|done| |].
  - intros i l' Hi'. specialize (Hr (S i) l' Hi'). by rewrite Nat.add_succ_r in Hr.
  - apply concat_step_inv; try done. specialize (Hr 0%nat l eq_refl).
    by rewrite Nat.add_0_r in Hr.
Qed.

(** Concatenation keeps the sequences in their order. *)
Lemma concatenative_spec p lens :
  valid_params p -> Forall (fun l => l <= bin_capacity p) lens ->
  exists bins, concatenative p lens = Ok bins /\ packing p lens bins /\
    concat bins = seq 0 (length lens).
Proof.
  intros Hv Hc. unfold concatenative. rewrite validate_ok by done. cbn [mbind res_bind].
  pose proof (concat_fold_inv p lens lens 0 ([], [], 0) Hv Hc) as Hf.
  destruct Hf as [H1 H2 H3 H4 H5]; [done|by constructor; auto|].
  unfold enumerate. destruct (foldl _ _ _) as [[bins cur] len]. cbn in *.
  eexists. split; [done|].
  assert (concat (match cur with [] => bins | _ => bins ++ [cur] end) = seq 0 (length lens)) as Ho.
  { rewrite <- H1. destruct cur; [by rewrite app_nil_r|]. rewrite concat_app. cbn.
    by rewrite app_nil_r. }
  split; [|done]. constructor.
  - by rewrite Ho.
  - destruct cur; [done|]. apply Forall_app; split; [done|]. by constructor.
  - destruct H5 as [->|H5]; [done|]. destruct cur; [done|].
    apply Forall_app; split; [done|]. by constructor.
Qed.

#[export] Instance concatenative_impl : PackImpl (fun _ _ => True) concatenative.
Proof.
  split.
  - intros p lens Hv _ Hc. destruct (concatenative_spec p lens Hv Hc) as (b & ? & ? & _). eauto.
  - intros p lens _ He. unfold concatenative. by rewrite validate_rejects.
Qed.

(** ** First fit *)

Record ff_inv p lens (placed : list nat) (st : list (list nat) * list Z) : Prop := {
  ff_once : concat st.1 ≡ₚ placed;
  ff_used : Forall (fun b => b <> []) st.1;
  ff_legal : Forall (bin_ok p lens) st.1;
  ff_rems : st.2 = (fun b => bin_capacity p - load lens b) <$> st.1 }.

Lemma find_bin_Some p bins rems len i :
  find_bin p bins rems len = Some i ->
  exists r, rems !! i = Some r /\ len <= r /\
    has_sequence_room p (length (default [] (bins !! i))) = true.
Proof.
  unfold find_bin. destruct (List.find _ _) as [[j r]|] eqn:E; [|done].
  intros [= <-]. apply find_some in E as [Hin Hb]. rewrite <- list_elem_of_In in Hin.
  apply elem_of_enumerate in Hin. apply andb_true_iff in Hb as [H1%Z.leb_le H2]. eauto.
Qed.

Lemma alter_fmap_snoc p lens (bins : list (list nat)) i b idx len :
  bins !! i = Some b -> lens !! idx = Some len ->
  alter (fun r => r - len) i ((fun b => bin_capacity p - load lens b) <$> bins) =
  (fun b => bin_capacity p - load lens b) <$> alter (fun b => b ++ [idx]) i bins.
Proof.
  intros Hb Hi. rewrite (alter_as_insert _ bins _ b) by done.
  erewrite alter_as_insert by (rewrite list_lookup_fmap, Hb; done).
  rewrite list_fmap_insert. f_equal.
  rewrite load_app, (load_singleton _ _ len) by done. lia.
Qed.

Lemma ff_step_inv p lens placed st len idx :
  valid_params p -> lens !! idx = Some len -> len <= bin_capacity p ->
  ff_inv p lens placed st ->
  exists st', first_fit_step p st (len, idx) = Ok st' /\ ff_inv p lens (idx :: placed) st'.
Proof.
  intros Hv Hi Hl [H1 H2 H3 H4]. destruct st as [bins rems]. cbn [fst snd] in *.
  unfold first_fit_step. replace (bin_capacity p <? len) with false
    by (symmetry; by apply Z.ltb_ge). cbn [raise_if mbind res_bind].
  destruct (find_bin p bins rems len) as [i|] eqn:E; eexists; (split; [done|]).
  - apply find_bin_Some in E as (r & Hr & Hle & Hroom). subst rems.
    rewrite list_lookup_fmap in Hr. destruct (bins !! i) as [b|] eqn:Eb; [|done].
    cbn in Hr, Hroom. injection Hr as <-. constructor; cbn [fst snd].
    + by rewrite (concat_alter_snoc bins i b), H1.
    + eapply Forall_alter_snoc; [done|done|by destruct b].
    + eapply Forall_alter_snoc; [done|done|]. eapply bin_ok_snoc; [done|lia|done].
    + by eapply alter_fmap_snoc.
  - constructor; cbn [fst snd].
    + rewrite concat_app. cbn. rewrite Permutation_app_comm. cbn. by rewrite H1.
    + apply Forall_app; split; [done|]. by constructor.
    + apply Forall_app; split; [done|]. constructor; [|done]. by eapply bin_ok_single.
    + rewrite fmap_app, H4. cbn [fmap list_fmap]. by rewrite (load_singleton _ _ len).
Qed.

Lemma ff_loop_spec p lens items : forall placed st,
  valid_params p ->
  Forall (fun it => lens !! it.2 = Some it.1 /\ it.1 <= bin_capacity p) items ->
  ff_inv p lens placed st ->
  exists st', first_fit_loop p items st = Ok st' /\
    ff_inv p lens (reverse items.*2 ++ placed) st'.
Proof.
  induction items as [|[len idx] items IH]; intros placed st Hv Hit Hi; cbn [first_fit_loop].
  { eauto. }
  apply Forall_cons in Hit as [[Hl1 Hl2] Hit]. cbn in Hl1, Hl2.
  destruct (ff_step_inv p lens placed st len idx Hv Hl1 Hl2 Hi) as (st' & -> & Hi').
  destruct (IH _ _ Hv Hit Hi') as (st2 & Hs & Hi2). exists st2. cbn [mbind res_bind].
  split; [done|]. by rewrite fmap_cons, reverse_cons, <- app_assoc.
Qed.

Lemma ff_loop_rejects p items : forall st,
  Exists (fun it => bin_capacity p < it.1) items ->
  first_fit_loop p items st = Raise ValueError.
Proof.
  induction items as [|[len idx] items IH]; intros [bins rems] He; [by inversion He|].
  cbn [first_fit_loop]. unfold first_fit_step.
  destruct (Z.ltb_spec (bin_capacity p) len) as [|Hle]; [done|].
  apply Exists_cons in He as [He|He]; [cbn in He; lia|]. cbn [raise_if mbind res_bind].
  destruct (find_bin _ _ _ _); cbn; by apply IH.
Qed.

Definition indexed_lengths (lens : list Z) : list (Z * nat) :=
  (fun '(i, l) => (l, i)) <$> enumerate lens.

Lemma elem_of_indexed lens l i : (l, i) ∈ indexed_lengths lens <-> lens !! i = Some l.
Proof.
  unfold indexed_lengths. rewrite list_elem_of_fmap. split.
  - intros ([j x] & [= -> ->] & Hin). by apply elem_of_enumerate.
  - intros Hi. exists (i, l). split; [done|]. by apply elem_of_enumerate.
Qed.

Lemma indexed_lengths_idx lens : (indexed_lengths lens).*2 = seq 0 (length lens).
Proof.
  unfold indexed_lengths. rewrite <- list_fmap_compose, <- enumerate_fst.
  apply list_fmap_ext. by intros ? [].
Qed.

#[export] Instance first_fit_impl prepare :
  (forall items, prepare items ≡ₚ items) ->
  PackImpl (fun _ _ => True) (first_fit prepare).
Proof.
  intros Hp. split.
  - intros p lens Hv _ Hc. unfold first_fit. fold (indexed_lengths lens).
    destruct (ff_loop_spec p lens (prepare (indexed_lengths lens)) [] ([], []) Hv)
      as ([bins rems] & -> & [H1 H2 H3 _]).
    + rewrite (Hp _). apply Forall_forall. intros [l i] Hin%elem_of_indexed. split; [done|].
      rewrite Forall_forall in Hc. cbn. apply Hc. by eapply list_elem_of_lookup_2.
    + by constructor.
    + exists bins. split; [done|]. split; [|done|done]. cbn in H1. rewrite H1.
      rewrite app_nil_r, reverse_Permutation, (Hp _). by rewrite indexed_lengths_idx.
  - intros p lens Hv He. unfold first_fit. fold (indexed_lengths lens).
    rewrite ff_loop_rejects; [done|]. rewrite (Hp _).
    apply Exists_exists in He as (l & [i Hi]%list_elem_of_lookup_1 & Hlt).
    apply Exists_exists. exists (l, i). by rewrite elem_of_indexed.
Qed.

#[export] Instance first_fit_decreasing_impl :
  PackImpl (fun _ _ => True) first_fit_decreasing.
Proof. apply first_fit_impl. intros items. apply py_sort_perm. Qed.

(** ** Greedy knapsack *)

Lemma triple_ltb_trans x y z :
  triple_ltb y x = false -> triple_ltb z y = false -> triple_ltb z x = false.
Proof.
  destruct x as [[x1 x2] x3], y as [[y1 y2] y3], z as [[z1 z2] z3]. unfold triple_ltb.
  rewrite !orb_false_iff, !andb_false_iff, !orb_false_iff, !andb_false_iff,
    !Z.ltb_ge, !Z.eqb_neq, !Nat.ltb_ge. lia.
Qed.

Lemma triple_ltb_asym x y : triple_ltb x y = true -> triple_ltb y x = false.
Proof.
  destruct x as [[x1 x2] x3], y as [[y1 y2] y3]. unfold triple_ltb.
  rewrite !orb_false_iff, !andb_false_iff, !orb_false_iff, !andb_false_iff,
    !orb_true_iff, !andb_true_iff, !orb_true_iff, !andb_true_iff,
    !Z.ltb_ge, !Z.eqb_neq, !Nat.ltb_ge, !Z.ltb_lt, !Z.eqb_eq, !Nat.ltb_lt. lia.
Qed.

Definition triple_len (t : triple) : Z := t.1.1.
Definition triple_idx (t : triple) : nat := t.2.

(** The items of [remaining]: a length, its negated index and its index. *)
Definition valid_items (lens : list Z) (remaining : list triple) : Prop :=
  Forall (fun t => lens !! triple_idx t = Some (triple_len t) /\
                   t.1.2 = - Z.of_nat (triple_idx t)) remaining.

Definition items_sorted (remaining : list triple) : Prop :=
  StronglySorted (fun a b => triple_ltb b a = false) remaining.

Lemma probe_le n c t : t.1.2 <= 0 ->
  negb (triple_ltb (c, 1, n) t) = true <-> triple_len t <= c.
Proof.
  destruct t as [[l m] i]. unfold triple_ltb, triple_len. cbn [fst snd]. intros Hm.
  rewrite negb_true_iff, orb_false_iff, andb_false_iff, orb_false_iff, andb_false_iff,
    !Z.ltb_ge, !Z.eqb_neq, !Nat.ltb_ge. lia.
Qed.

(** The binary search counts the items that fit; the last of them is the one
    taken, a largest item that fits. *)
Lemma fit_count_spec lens n c remaining :
  valid_items lens remaining -> items_sorted remaining ->
  match fit_count n c remaining with
  | O => Forall (fun t => c < triple_len t) remaining
  | S k => exists t, remaining !! k = Some t /\ triple_len t <= c /\
             Forall (fun t' => triple_len t' <= c -> triple_len t' <= triple_len t) remaining
  end.
Proof.
  intros Hval Hs. unfold fit_count.
  assert (forall i t, remaining !! i = Some t -> t.1.2 <= 0) as Hneg.
  { intros i t Hi. eapply Forall_lookup_1 in Hval as [_ ->]; [|done]. lia. }
  destruct (bisect_spec (fun y => negb (triple_ltb (c, 1, n) y)) remaining)
    as (Hk & Hl & Hr).
  { intros i j x y Hij Hx Hy. destruct (decide (i = j)) as [->|]; [by simplify_eq|].
    rewrite !negb_true_iff. intros Hgy. eapply triple_ltb_trans; [|exact Hgy].
    apply (StronglySorted_lookup_lt (fun a b => triple_ltb b a = false) remaining i j);
      [exact Hs|lia|done..]. }
  set (m := bisect _ _) in *. clearbody m. destruct m as [|k].
  - apply Forall_lookup_2. intros i t Hi. specialize (Hr i t ltac:(lia) Hi).
    apply not_true_iff_false in Hr. rewrite probe_le in Hr by eauto. lia.
  - destruct (lookup_lt_is_Some_2 remaining k ltac:(lia)) as [t Ht]. exists t.
    split; [done|]. split; [apply (probe_le n); [eauto|]; eapply Hl; [|done]; lia|].
    apply Forall_lookup_2. intros i t' Hi Hle.
    destruct (decide (i <= k)%nat) as [Hik|Hik].
    + destruct (decide (i = k)) as [->|]; [by simplify_eq|].
      pose proof (StronglySorted_lookup_lt (fun a b => triple_ltb b a = false)
        _ i k t' t Hs ltac:(lia) Hi Ht) as Hlt.
      destruct t as [[l1 l2] l3], t' as [[l1' l2'] l3']. unfold triple_ltb in Hlt. cbn.
      rewrite orb_false_iff, Z.ltb_ge in Hlt. tauto.
    + specialize (Hr i t' ltac:(lia) Hi). apply not_true_iff_false in Hr.
      rewrite probe_le in Hr by eauto. lia.
Qed.

Lemma StronglySorted_delete {A} (R : A -> A -> Prop) l k :
  StronglySorted R l -> StronglySorted R (delete k l).
Proof.
  intros H. revert k. induction H as [|x l Hl IH Hx]; intros [|k]; cbn; [constructor|constructor|done|].
  constructor; [apply IH|]. by apply Forall_delete.
Qed.

Lemma delete_perm {A} (l : list A) k x : l !! k = Some x -> l ≡ₚ x :: delete k l.
Proof. intros H. by apply delete_Permutation. Qed.

(** A bin being filled: what it holds weighs [bin_capacity - capacity]. *)
Record filling_bin p lens (remaining : list triple) (current : list nat) (capacity : Z) : Prop := {
  fb_valid : valid_items lens remaining;
  fb_sorted : items_sorted remaining;
  fb_load : load lens current = bin_capacity p - capacity;
  fb_ok : current = [] \/ bin_ok p lens current }.

Lemma fill_one_spec p lens n fuel : forall remaining current capacity,
  (length remaining <= fuel)%nat -> filling_bin p lens remaining current capacity ->
  exists remaining' current' capacity',
    fill_one fuel p n remaining current capacity = Ok (remaining', current') /\
    filling_bin p lens remaining' current' capacity' /\
    (current ++ (triple_idx <$> remaining) ≡ₚ current' ++ (triple_idx <$> remaining')) /\
    (length current' + length remaining' = length current + length remaining)%nat /\
    (length current <= length current')%nat /\
    (has_sequence_room p (length current') = true ->
       Forall (fun t => capacity' < triple_len t) remaining').
Proof.
  induction fuel as [|fuel IH]; intros remaining current capacity Hf Hi;
    cbn [fill_one]; destruct (has_sequence_room p (length current)) eqn:Hroom; cbn [negb].
  2, 4: exists remaining, current, capacity; split_and!; try done; congruence.
  all: pose proof (fit_count_spec lens n capacity remaining (fb_valid _ _ _ _ _ Hi)
         (fb_sorted _ _ _ _ _ Hi)) as Hfit;
    destruct (fit_count n capacity remaining) as [|k];
    [exists remaining, current, capacity; by split_and!|];
    destruct Hfit as (t & Ht & Hle & _).
  { apply lookup_lt_Some in Ht. lia. }
  rewrite Ht. destruct t as [[len m] index]. unfold triple_len in Hle. cbn in Hle.
  destruct Hi as [H1 H2 H3 H4]. unfold valid_items in H1.
  destruct (Forall_lookup_1 _ _ _ _ H1 Ht) as [Hidx _]. cbn in Hidx. unfold triple_len in Hidx. cbn in Hidx.
  destruct (IH (delete k remaining) (current ++ [index]) (capacity - len))
    as (r' & c' & cap' & E1 & E2 & E3 & E4 & E5 & E6).
  - rewrite length_delete by done. lia.
  - constructor.
    + by apply Forall_delete.
    + by apply StronglySorted_delete.
    + rewrite load_app, H3, (load_singleton _ _ len) by done. lia.
    + right. eapply bin_ok_snoc; [done|lia|done].
  - exists r', c', cap'. rewrite length_app, length_delete in * by done. cbn in E4, E5.
    apply lookup_lt_Some in Ht as Hlt.
    split_and!; [done|done| |lia|lia|done].
    rewrite <- E3, <- app_assoc. f_equiv. rewrite (delete_perm _ _ _ Ht) at 1. done.
Qed.

Lemma greedy_loop_spec p lens n fuel : forall remaining bins,
  valid_params p -> Forall (fun l => l <= bin_capacity p) lens ->
  (length remaining <= fuel)%nat -> valid_items lens remaining -> items_sorted remaining ->
  Forall (fun b => b <> []) bins -> Forall (bin_ok p lens) bins ->
  exists bins', greedy_loop fuel p n remaining bins = Ok bins' /\
    (concat bins' ≡ₚ concat bins ++ (triple_idx <$> remaining)) /\
    Forall (fun b => b <> []) bins' /\ Forall (bin_ok p lens) bins'.
Proof.
  induction fuel as [|fuel IH]; intros remaining bins Hv Hc Hf H1 H2 H3 H4.
  { destruct remaining; [|cbn in Hf; lia]. exists bins. cbn. by rewrite app_nil_r. }
  destruct (decide (remaining = [])) as [->|Hne].
  { exists bins. cbn. by rewrite app_nil_r. }
  destruct (fill_one_spec p lens n (length remaining) remaining [] (bin_capacity p))
    as (r' & c' & cap' & E1 & [F1 F2 F3 F4] & E3 & E4 & E5 & E6); [lia|constructor|].
  { done. } { done. } { cbn. lia. } { by left. }
  assert (c' <> []) as Hc'.
  { intros ->. specialize (E6 (room_empty p Hv)). cbn in E4.
    destruct r' as [|t r']; [destruct remaining; cbn in E4; [done|lia]|].
    apply Forall_cons in E6 as [E6 _]. apply Forall_cons in F1 as [[F1 _] _].
    rewrite Forall_forall in Hc. specialize (Hc (triple_len t)).
    change (load lens []) with 0 in F3.
    assert (triple_len t <= bin_capacity p) by (apply Hc; by eapply list_elem_of_lookup_2). lia. }
  destruct (IH r' (bins ++ [c'])) as (bins' & B1 & B2 & B3 & B4); try done.
  - assert (0 < length c')%nat by (destruct c'; [done|cbn; lia]). cbn in E4. lia.
  - apply Forall_app; split; [done|]. by constructor.
  - apply Forall_app; split; [done|]. constructor; [|done]. by destruct F4.
  - exists bins'. split_and!; try done.
    + destruct remaining as [|t0 rem0]; [done|]. cbn [greedy_loop]. rewrite E1. exact B1.
    + rewrite B2, concat_app. cbn [concat]. rewrite app_nil_r, <- app_assoc. f_equiv.
      by rewrite <- E3.
Qed.

Definition triples (lens : list Z) : list triple :=
  (fun '(i, l) => (l, - Z.of_nat i, i)) <$> enumerate lens.

Lemma triples_valid lens : valid_items lens (triples lens).
Proof.
  unfold valid_items, triples. apply Forall_fmap, Forall_forall.
  intros [i l] Hin%elem_of_enumerate. by split.
Qed.

#[export] Instance greedy_knapsack_impl : PackImpl (fun _ _ => True) greedy_knapsack.
Proof.
  split.
  - intros p lens Hv _ Hc. unfold greedy_knapsack. rewrite validate_ok by done.
    cbn [mbind res_bind]. fold (triples lens).
    destruct (greedy_loop_spec p lens (length lens) (length lens)
      (py_sort triple_ltb (triples lens)) []) as (bins & -> & B1 & B2 & B3); try done.
    + rewrite py_sort_length. unfold triples. rewrite length_fmap.
      by rewrite length_enumerate.
    + unfold valid_items. rewrite py_sort_perm. apply triples_valid.
    + apply py_sort_sorted; [apply triple_ltb_trans|apply triple_ltb_asym].
    + exists bins. split; [done|]. split; [|done..]. rewrite B1. cbn [concat app].
      rewrite py_sort_perm. unfold triples. rewrite <- list_fmap_compose, <- enumerate_fst.
      apply reflexive_eq, list_fmap_ext. by intros ? [].
  - intros p lens _ He. unfold greedy_knapsack. by rewrite validate_rejects.
Qed.

(** ** Balanced greedy *)

Record bal_inv p lens (placed : list nat) (st : list (list nat) * list Z) : Prop := {
  bi_once : concat st.1 ≡ₚ placed;
  bi_legal : Forall (fun b => b = [] \/ bin_ok p lens b) st.1;
  bi_loads : st.2 = load lens <$> st.1 }.

Lemma alter_load_snoc lens (bins : list (list nat)) i b idx len :
  bins !! i = Some b -> lens !! idx = Some len ->
  alter (fun l => l + len) i (load lens <$> bins) =
  load lens <$> alter (fun b => b ++ [idx]) i bins.
Proof.
  intros Hb Hi. rewrite (alter_as_insert _ bins _ b) by done.
  erewrite alter_as_insert by (rewrite list_lookup_fmap, Hb; done).
  rewrite list_fmap_insert. f_equal.
  by rewrite load_app, (load_singleton _ _ len).
Qed.

(** Placing a sequence into a bin with room keeps the invariant. *)
Lemma bal_place p lens placed bins i b idx len :
  lens !! idx = Some len -> bins !! i = Some b ->
  load lens b + len <= bin_capacity p -> has_sequence_room p (length b) = true ->
  bal_inv p lens placed (bins, load lens <$> bins) ->
  bal_inv p lens (idx :: placed)
    (alter (fun b => b ++ [idx]) i bins, alter (fun l => l + len) i (load lens <$> bins)).
Proof.
  intros Hi Hb Hl Hr [H1 H2 H3]. constructor; cbn [fst snd] in *.
  - by rewrite (concat_alter_snoc bins i b), H1.
  - eapply Forall_alter_snoc; [done|done|]. right. by eapply bin_ok_snoc.
  - by eapply alter_load_snoc.
Qed.

Lemma balanced_step_inv p lens placed st idx len :
  valid_params p -> lens !! idx = Some len -> len <= bin_capacity p ->
  bal_inv p lens placed st -> bal_inv p lens (idx :: placed) (balanced_step p lens st idx).
Proof.
  intros Hv Hi Hl Hinv. destruct st as [bins loads].
  assert (loads = load lens <$> bins) as -> by apply Hinv.
  unfold balanced_step. rewrite Hi. cbn [default from_option id].
  destruct (fst <$> List.filter _ _) as [|c cs] eqn:E.
  - replace ((load lens <$> bins) ++ [0]) with (load lens <$> (bins ++ [[]]))
      by (by rewrite fmap_app).
    apply (bal_place _ _ _ _ _ []); [done| |cbn; lia|by apply room_empty|].
    + rewrite lookup_app_r by lia. by rewrite Nat.sub_diag.
    + destruct Hinv as [H1 H2 _]. constructor; cbn [fst snd] in *.
      * by rewrite concat_app, app_nil_r.
      * apply Forall_app; split; [done|]. constructor; auto.
      * done.
  - set (t := argmin_by _ c cs).
    assert (t ∈ c :: cs) as Ht by apply argmin_by_elem. clearbody t.
    rewrite <- E in Ht. apply list_elem_of_fmap in Ht as ([i load_i] & -> & Hin).
    apply list_filter_elem_of in Hin as [Hin Hok]. apply elem_of_enumerate in Hin.
    rewrite list_lookup_fmap in Hin. destruct (bins !! i) as [b|] eqn:Hb; [|done].
    cbn in Hin. injection Hin as <-. apply andb_true_iff in Hok as [Ho1%Z.leb_le Ho2].
    cbn [default from_option id] in Ho2. by apply (bal_place _ _ _ _ _ b).
Qed.

Lemma balanced_fold p lens idxs : forall placed st,
  valid_params p -> Forall (fun l => l <= bin_capacity p) lens ->
  Forall (fun i => (i < length lens)%nat) idxs -> bal_inv p lens placed st ->
  bal_inv p lens (reverse idxs ++ placed) (foldl (balanced_step p lens) st idxs).
Proof.
  induction idxs as [|i idxs IH]; intros placed st Hv Hc Hi Hinv; [done|].
  apply Forall_cons in Hi as [Hi1 Hi]. rewrite reverse_cons, <- app_assoc. cbn [foldl].
  apply IH; [done..|]. destruct (lookup_lt_is_Some_2 _ _ Hi1) as [l Hl].
  apply (balanced_step_inv _ _ _ _ _ l); try done.
  rewrite Forall_forall in Hc. apply Hc. by eapply list_elem_of_lookup_2.
Qed.

Lemma concat_filter_used (bins : list (list nat)) :
  concat (List.filter (fun b => match b with [] => false | _ => true end) bins) = concat bins.
Proof. induction bins as [|[|x b] bins IH]; cbn; [done|done|by rewrite IH]. Qed.

Lemma concat_repeat_nil {A} k : concat (repeat (@nil A) k) = [].
Proof. by induction k. Qed.

#[export] Instance balanced_greedy_impl delta :
  PackImpl (fun p lens => lens = [] \/ bin_capacity p <> 0) (balanced_greedy delta).
Proof.
  split.
  - intros p lens Hv Ha Hc. unfold balanced_greedy. rewrite validate_ok by done.
    cbn [mbind res_bind]. destruct lens as [|l0 lens0] eqn:El.
    { exists []. by repeat constructor. }
    destruct Ha as [|Hcap]; [done|]. rewrite <- El in *. clear El.
    unfold ceil_div. replace (bin_capacity p =? 0) with false by (symmetry; by apply Z.eqb_neq).
    cbn [mbind res_bind]. set (k := Z.to_nat _).
    pose proof (balanced_fold p lens (by_length_desc lens) [] (repeat [] k, repeat 0 k) Hv Hc) as Hf.
    destruct Hf as [H1 H2 H3].
    + unfold by_length_desc. rewrite py_sort_perm. apply Forall_seq. lia.
    + constructor; cbn [fst snd].
      * by rewrite concat_repeat_nil.
      * apply Forall_forall. intros b Hb%list_elem_of_In%repeat_spec. by left.
      * clear. induction k; cbn; [done|by f_equal].
    + destruct (foldl _ _ _) as [bins loads]. cbn [fst snd] in *. eexists. split; [done|].
      split.
      * rewrite concat_filter_used, H1, app_nil_r, reverse_Permutation.
        apply py_sort_perm.
      * apply Forall_forall. intros b [_ Hb]%list_filter_elem_of. by destruct b.
      * rewrite Forall_forall in H2 |- *. intros b [Hin Hb]%list_filter_elem_of.
        by destruct (H2 b Hin) as [->|].
  - intros p lens _ He. unfold balanced_greedy. by rewrite validate_rejects.
Qed.

(** ** First fit wastes less than half of every bin but one *)

(** The first sequence of a bin did not fit in any earlier bin. *)
Definition tight (p : Params) (lens : list Z) (bins : list (list nat)) : Prop :=
  forall i j bi bj x rest, (i < j)%nat -> bins !! i = Some bi -> bins !! j = Some bj ->
    bj = x :: rest -> bin_capacity p < load lens bi + load lens [x].

Lemma load_snoc_mono lens b idx len :
  lens !! idx = Some len -> 0 <= len -> load lens b <= load lens (b ++ [idx]).
Proof. intros Hi Hl. rewrite load_app, (load_singleton _ _ len) by done. lia. Qed.

Lemma find_bin_None p bins rems len i r :
  max_sequences_per_bin p = None -> find_bin p bins rems len = None ->
  rems !! i = Some r -> r < len.
Proof.
  intros Hm. unfold find_bin. destruct (List.find _ _) as [[j r']|] eqn:E; [done|]. intros _ Hi.
  pose proof (find_none _ _ E (i, r)) as Hn. cbn in Hn.
  rewrite <- list_elem_of_In, elem_of_enumerate in Hn. specialize (Hn Hi).
  unfold has_sequence_room in Hn. rewrite Hm, andb_true_r in Hn. by apply Z.leb_gt in Hn.
Qed.

Lemma tight_alter p lens bins i b idx len :
  lens !! idx = Some len -> 0 <= len -> bins !! i = Some b -> b <> [] ->
  tight p lens bins -> tight p lens (alter (fun b => b ++ [idx]) i bins).
Proof.
  intros Hi Hl Hb Hne Ht i' j' bi bj x rest Hij Hbi Hbj ->.
  rewrite list_lookup_alter in Hbi, Hbj.
  assert (exists bi0, bins !! i' = Some bi0 /\ load lens bi0 <= load lens bi) as (bi0 & H1 & H2).
  { destruct (decide (i = i')) as [->|]; [|by exists bi].
    rewrite Hb in Hbi. cbn in Hbi. injection Hbi as <-. exists b. split; [done|].
    by eapply load_snoc_mono. }
  assert (exists rest0, bins !! j' = Some (x :: rest0)) as (rest0 & H3).
  { destruct (decide (i = j')) as [->|]; [|by exists rest].
    rewrite Hb in Hbj |- *. cbn in Hbj. destruct b as [|x0 b]; [done|].
    injection Hbj as <- _. by eexists. }
  specialize (Ht i' j' _ _ x rest0 Hij H1 H3 eq_refl). lia.
Qed.

Lemma ff_step_tight p lens placed st st' len idx :
  max_sequences_per_bin p = None -> 0 <= len -> lens !! idx = Some len ->
  ff_inv p lens placed st -> first_fit_step p st (len, idx) = Ok st' ->
  tight p lens st.1 -> tight p lens st'.1.
Proof.
  intros Hm Hl Hi [H1 H2 H3 H4] Hs Ht. destruct st as [bins rems]. cbn [fst snd] in *. subst rems.
  unfold first_fit_step in Hs. apply bind_Ok in Hs as ([] & _ & Hs).
  destruct (find_bin p bins _ len) as [i|] eqn:E; injection Hs as <-; cbn [fst].
  - apply find_bin_Some in E as (r & Hr & _ & _). rewrite list_lookup_fmap in Hr.
    destruct (bins !! i) as [b|] eqn:Hb; [|done]. eapply tight_alter; try done.
    exact (Forall_lookup_1 _ _ _ _ H2 Hb).
  - intros i j bi bj x rest Hij Hbi Hbj ->.
    destruct (decide (j < length bins)%nat) as [Hj|Hj].
    + rewrite lookup_app_l in Hbi by lia. rewrite lookup_app_l in Hbj by done.
      exact (Ht i j _ _ x rest Hij Hbi Hbj eq_refl).
    + apply lookup_lt_Some in Hbj as Hj2. rewrite length_app in Hj2. cbn in Hj2.
      assert (j = length bins) as -> by lia. rewrite lookup_app_l in Hbi by lia.
      rewrite lookup_app_r, Nat.sub_diag in Hbj by lia. cbn in Hbj. injection Hbj as <- <-.
      rewrite (load_singleton _ _ len) by done.
      eapply find_bin_None in E; [|done|by rewrite list_lookup_fmap, Hbi]. lia.
Qed.

Lemma ff_loop_tight p lens items : forall placed st st',
  valid_params p -> max_sequences_per_bin p = None ->
  Forall (fun it => lens !! it.2 = Some it.1 /\ 0 <= it.1 <= bin_capacity p) items ->
  ff_inv p lens placed st -> tight p lens st.1 ->
  first_fit_loop p items st = Ok st' -> tight p lens st'.1.
Proof.
  induction items as [|[len idx] items IH]; intros placed st st' Hv Hm Hit Hi Ht Hs.
  { by injection Hs as <-. }
  apply Forall_cons in Hit as [[Hl1 Hl2] Hit]. cbn in Hl1, Hl2. cbn [first_fit_loop] in Hs.
  destruct (ff_step_inv p lens placed st len idx Hv Hl1 ltac:(lia) Hi) as (st1 & E & Hi1).
  rewrite E in Hs. cbn [mbind res_bind] in Hs.
  eapply IH; [done|done|done|exact Hi1| |exact Hs].
  eapply (ff_step_tight _ _ _ st); [done| |done..]. lia.
Qed.

(** ** Properties *)

(** Any first-fit order (decreasing or shuffled) leaves at most one bin
    half empty: without a sequence cap, two different bins of the result
    together hold more than one bin's capacity. *)
Theorem first_fit_no_two_half_empty prepare p lens bins :
  (forall items, prepare items ≡ₚ items) -> valid_params p ->
  max_sequences_per_bin p = None -> Forall (fun l => 0 <= l) lens ->
  first_fit prepare p lens = Ok bins ->
  (forall i j bi bj, i <> j -> bins !! i = Some bi -> bins !! j = Some bj ->
     bin_capacity p < load lens bi + load lens bj).
Proof.
  intros Hp Hv Hm Hl Hr. unfold first_fit in Hr. fold (indexed_lengths lens) in Hr.
  apply fmap_Ok in Hr as ([bins' rems] & Hloop & ->). cbn [fst].
  destruct (decide (Exists (fun it => bin_capacity p < it.1) (prepare (indexed_lengths lens))))
    as [He|He].
  { by rewrite ff_loop_rejects in Hloop. }
  assert (Forall (fun it => lens !! it.2 = Some it.1 /\ 0 <= it.1 <= bin_capacity p)
            (prepare (indexed_lengths lens))) as Hit.
  { apply not_Exists_Forall in He; [|intros ?; apply _]. apply Forall_forall. intros [l i] Hin.
    rewrite Forall_forall in He. rewrite Forall_forall in Hl. specialize (He _ Hin). cbn in He.
    rewrite (Hp _), elem_of_indexed in Hin. cbn. split; [done|]. split; [|lia].
    apply Hl. by eapply list_elem_of_lookup_2. }
  assert (tight p lens bins') as Ht.
  { eapply (ff_loop_tight p lens _ [] ([], []) (bins', rems)); try done. }
  assert (ff_inv p lens (reverse (prepare (indexed_lengths lens)).*2 ++ []) (bins', rems)) as Hi.
  { destruct (ff_loop_spec p lens (prepare (indexed_lengths lens)) [] ([], []) Hv)
      as (st & Est & Hi); [|by constructor|congruence].
    eapply Forall_impl; [exact Hit|]. cbn. intros it [? ?]. split; [done|lia]. }
  assert (forall i j bi bj, (i < j)%nat -> bins' !! i = Some bi -> bins' !! j = Some bj ->
            bin_capacity p < load lens bi + load lens bj) as Hlt.
  { intros i j bi bj Hij Hbi Hbj. pose proof (Forall_lookup_1 _ _ _ _ (ff_used _ _ _ _ Hi) Hbj).
    destruct bj as [|x rest]; [done|].
    specialize (Ht i j bi _ x rest Hij Hbi Hbj eq_refl).
    change (x :: rest) with ([x] ++ rest). rewrite load_app.
    pose proof (load_nonneg lens rest Hl). lia. }
  intros i j bi bj Hne Hbi Hbj. destruct (decide (i < j)%nat); [by eapply Hlt|].
  rewrite Z.add_comm. eapply (Hlt j i); [lia|done..].
Qed.

(** The concatenative packer keeps the data order: reading its bins from
    left to right gives the sequences in their original order. *)
Theorem concatenative_keeps_order p lens :
  valid_params p -> Forall (fun l => l <= bin_capacity p) lens ->
  exists bins, concatenative p lens = Ok bins /\ concat bins = seq 0 (length lens).
Proof.
  intros Hv Hc. destruct (concatenative_spec p lens Hv Hc) as (bins & ? & _ & ?). eauto.
Qed.

(** ** Witnesses *)

Definition sample_params : Params := mkParams 8 None None None.
Definition sample_lens : list Z := [4; 1; 3; 2; 1; 3; 4; 5].

Lemma sample_params_valid : valid_params sample_params.
Proof. by repeat split. Qed.

Lemma first_fit_no_two_half_empty_witness :
  first_fit_decreasing sample_params sample_lens = Ok [[7; 5]; [6; 0]; [2; 3; 4; 1]]%nat /\
  bin_capacity sample_params < load sample_lens [7; 5]%nat + load sample_lens [6; 0]%nat.
Proof.
  split; [vm_compute; reflexivity|].
  refine (first_fit_no_two_half_empty (py_sort (fun a b => item_ltb b a)) sample_params
    sample_lens [[7; 5]; [6; 0]; [2; 3; 4; 1]]%nat _ sample_params_valid eq_refl _ _
    0 1 _ _ _ _ _).
  - intros items. apply py_sort_perm.
  - repeat (constructor; [lia|]). constructor.
  - vm_compute. reflexivity.
  - discriminate.
  - reflexivity.
  - reflexivity.
Defined.

Lemma concatenative_keeps_order_witness :
  exists bins, concatenative sample_params sample_lens = Ok bins /\
    concat bins = seq 0 (length sample_lens).
Proof.
  apply concatenative_keeps_order; [exact sample_params_valid|].
  repeat constructor; discriminate.
Defined.

(** [Packing.pack_correct] at the concatenative packer, asking for a multiple
    of three bins. *)
Lemma pack_correct_witness :
  exists bins, pack concatenative (mkParams 8 None (Some 3) None) [4; 1; 3; 2; 1] = Ok bins /\
    packing (mkParams 8 None (Some 3) None) [4; 1; 3; 2; 1] bins.
Proof.
  destruct (pack_correct (fun _ _ => True) concatenative (mkParams 8 None (Some 3) None)
    [4; 1; 3; 2; 1]) as (bins0 & Hb & Hok & _).
  - split_and!; [done| |done]. intros k [= <-]. lia.
  - done.
  - repeat (constructor; [lia|]). constructor.
  - vm_compute in Hb. injection Hb as <-. destruct Hok as (bins & H1 & H2 & _).
    + right. vm_compute. discriminate.
    + exists bins. exact (conj H1 H2).
Defined.
