(* ===== verification/PackingMffd.v ===== *)
(** * Modified first-fit decreasing, and the packer factory

    [ModifiedFirstFitDecreasingPacker] and [get_packer] of
    [src/nemo_rl/data/packing/algorithms.py].  The thresholds [C/2], [C/3],
    [C/6] are floats in the source; a comparison [size > C/k] of an integer
    with the quotient is written [C < k * size], the same for capacities
    below 2^50. *)

From S2P Require Import Prelude Packing PackingSimple.

(** An item is [(index, size)]. *)
Abbreviation item := (nat * Z)%type (only parsing).

Definition bin_size (b : list item) : Z := zsum (snd <$> b).

(** ** [_classify_items] *)
Record classes := mkClasses {
  large : list item; medium : list item; small : list item; tiny : list item }.

Definition classify_item (p : Params) (c : classes) (it : item) : classes :=
  let size := it.2 in
  if bin_capacity p <? 2 * size then
    mkClasses (large c ++ [it]) (medium c) (small c) (tiny c)
  else if bin_capacity p <? 3 * size then
    mkClasses (large c) (medium c ++ [it]) (small c) (tiny c)
  else if bin_capacity p <? 6 * size then
    mkClasses (large c) (medium c) (small c ++ [it]) (tiny c)
  else mkClasses (large c) (medium c) (small c) (tiny c ++ [it]).

Definition classify_items (p : Params) (items : list item) : classes :=
  foldl (classify_item p) (mkClasses [] [] [] []) items.

Definition size_asc (a b : item) : bool := a.2 <? b.2.
Definition size_desc (a b : item) : bool := b.2 <? a.2.

(** The first item of [l] that satisfies [P], by position. *)
Definition find_idx (P : item -> bool) (l : list item) : option nat :=
  fst <$> List.find (fun q => P q.2) (enumerate l).

(** ** Phase 2: one medium item per large bin, in order *)
Definition add_medium (p : Params) (b : list item) (med : list item)
    : list item * list item :=
  let remaining := bin_capacity p - bin_size b in
  match find_idx (fun it => it.2 <=? remaining) med with
  | Some i => match med !! i with
              | Some it => (b ++ [it], delete i med)
              | None => (b, med)
              end
  | None => (b, med)
  end.

(** [for b in bins: ...], where the body changes [b] in place and takes items
    out of a shared pool. *)
Fixpoint for_bins (body : list item -> list item -> list item * list item)
    (bins : list (list item)) (pool : list item) : list (list item) * list item :=
  match bins with
  | [] => ([], pool)
  | b :: rest =>
      let '(b', pool') := body b pool in
      let '(rest', pool'') := for_bins body rest pool' in
      (b' :: rest', pool'')
  end.

Definition phase2 (p : Params) : list (list item) -> list item -> list (list item) * list item :=
  for_bins (add_medium p).

(** ** Phase 3: pairs of small items, over [reversed(bins)]

    [for j in range(len(small) - 1, -1, -1)]: the last position that fits. *)
Definition find_last_idx (P : item -> bool) (l : list item) : option nat :=
  fst <$> List.find (fun q => P q.2) (reverse (enumerate l)).

Definition is_medium (p : Params) (it : item) : bool :=
  (bin_capacity p <? 3 * it.2) && (2 * it.2 <=? bin_capacity p).

(** An item popped from [small] without a partner is dropped, as in the code. *)
Definition add_small_pair (p : Params) (b : list item) (sm : list item)
    : list item * list item :=
  if existsb (is_medium p) b then (b, sm)
  else match sm with
  | s0 :: s1 :: rest =>
      let remaining := bin_capacity p - bin_size b in
      if remaining <? s0.2 + s1.2 then (b, sm)
      else
        let sm1 := s1 :: rest in
        match find_last_idx (fun it => it.2 <=? remaining - s0.2) sm1 with
        | Some j => match sm1 !! j with
                    | Some second => (b ++ [s0; second], delete j sm1)
                    | None => (b, sm1)
                    end
        | None => (b, sm1)
        end
  | _ => (b, sm)
  end.

Definition phase3 (p : Params) (bins : list (list item)) (sm : list item)
    : list (list item) * list item :=
  let '(rbins, sm') := for_bins (add_small_pair p) (reverse bins) sm in (reverse rbins, sm').

(** ** Phase 4: greedy fit of what remains, over the bins in order *)
Fixpoint fill_bin (fuel : nat) (p : Params) (b : list item) (rem_items : list item)
    : list item * list item :=
  match fuel with
  | O => (b, rem_items)
  | S fuel' =>
      match last rem_items with
      | None => (b, rem_items)
      | Some smallest =>
          let room := bin_capacity p - bin_size b in
          if room <? smallest.2 then (b, rem_items)
          else match find_idx (fun it => it.2 <=? room) rem_items with
          | None => (b, rem_items)
          | Some i => match rem_items !! i with
                      | Some it => fill_bin fuel' p (b ++ [it]) (delete i rem_items)
                      | None => (b, rem_items)
                      end
          end
      end
  end.

Definition phase4 (p : Params) : list (list item) -> list item -> list (list item) * list item :=
  for_bins (fun b rem_items => fill_bin (length rem_items) p b rem_items).

(** ** Phase 5: leftovers, bins kept sorted by size *)
Definition phase5_step (p : Params) (st : list (list item) * list Z) (it : item)
    : list (list item) * list Z :=
  match st with
  | (b0 :: bins, s0 :: sizes) =>
      let '(bins1, sizes1, new_bin, new_size) :=
        if it.2 <=? bin_capacity p - s0 then (bins, sizes, b0, s0)
        else (b0 :: bins, s0 :: sizes, [], 0) in
      let new_bin := new_bin ++ [it] in
      let new_size := new_size + it.2 in
      let new_idx := bisect (fun y => negb (new_size <? y)) sizes1 in
      (list_insert_at new_idx new_bin bins1, list_insert_at new_idx new_size sizes1)
  | _ => st
  end.

Definition phase5 (p : Params) (leftovers : list item) : list (list item) * list Z :=
  foldl (phase5_step p) ([[]], [0]) (py_sort size_desc leftovers).

(** ** [_pack_implementation] *)
Definition mffd_bins (p : Params) (lens : list Z) : list (list item) :=
  let c := classify_items p (enumerate lens) in
  let '(bins2, med) := phase2 p ((fun it => [it]) <$> py_sort size_desc (large c))
                         (py_sort size_desc (medium c)) in
  let '(bins3, sm) := phase3 p bins2 (py_sort size_asc (small c)) in
  let remaining_items :=
    py_sort size_desc (med ++ sm ++ py_sort size_asc (tiny c)) in
  let '(bins4, leftovers) := phase4 p bins3 remaining_items in
  bins4 ++ (phase5 p leftovers).1.

Definition mffd (p : Params) (lens : list Z) : res (list (list nat)) :=
  _ ← raise_if (bin_capacity p <=? 0) ValueError;
  _ ← raise_if (existsb (fun l => l <=? 0) lens) ValueError;
  _ ← validate_sequence_lengths p lens;
  match max_sequences_per_bin p with
  | Some m => first_fit_decreasing (mkParams (bin_capacity p) None None (Some m)) lens
  | None => Ok ((fun b : list item => b.*1) <$>
      List.filter (fun b => match b with [] => false | _ => true end) (mffd_bins p lens))
  end.

(** ** [get_packer] *)
Inductive PackingAlgorithm :=
| CONCATENATIVE | FIRST_FIT_DECREASING | FIRST_FIT_SHUFFLE
| MODIFIED_FIRST_FIT_DECREASING | GREEDY_KNAPSACK | BALANCED_GREEDY_KNAPSACK.

#[export] Instance PackingAlgorithm_eq_dec : EqDecision PackingAlgorithm.
Proof. solve_decision. Defined.

(** [str.upper] on ASCII strings. *)
Definition ascii_upper (a : Ascii.ascii) : Ascii.ascii :=
  let n := Ascii.nat_of_ascii a in
  if ((97 <=? n) && (n <=? 122))%nat then Ascii.ascii_of_nat (n - 32) else a.

Fixpoint upper (s : string) : string :=
  match s with
  | EmptyString => EmptyString
  | String a s' => String (ascii_upper a) (upper s')
  end.

Definition algorithm_name (a : PackingAlgorithm) : string :=
  match a with
  | CONCATENATIVE => "CONCATENATIVE"
  | FIRST_FIT_DECREASING => "FIRST_FIT_DECREASING"
  | FIRST_FIT_SHUFFLE => "FIRST_FIT_SHUFFLE"
  | MODIFIED_FIRST_FIT_DECREASING => "MODIFIED_FIRST_FIT_DECREASING"
  | GREEDY_KNAPSACK => "GREEDY_KNAPSACK"
  | BALANCED_GREEDY_KNAPSACK => "BALANCED_GREEDY_KNAPSACK"
  end.

Definition all_algorithms : list PackingAlgorithm :=
  [CONCATENATIVE; FIRST_FIT_DECREASING; FIRST_FIT_SHUFFLE;
   MODIFIED_FIRST_FIT_DECREASING; GREEDY_KNAPSACK; BALANCED_GREEDY_KNAPSACK].

(** [PackingAlgorithm[s.upper()]]. *)
Definition algorithm_of_string (s : string) : res PackingAlgorithm :=
  match List.find (fun a => bool_decide (algorithm_name a = upper s)) all_algorithms with
  | Some a => Ok a
  | None => Raise ValueError
  end.

(** A packer object: its class and its constructor's arguments. *)
Record packer := mkPacker {
  algorithm : PackingAlgorithm; params : Params; delta : Z }.

(** [algorithm] is an enum value ([inl]) or a string ([inr]). *)
Definition get_packer (alg : PackingAlgorithm + string) (cap : Z)
    (mn mult mx balanced_knapsack_delta : option Z) : res packer :=
  a ← match alg with inl a => Ok a | inr s => algorithm_of_string s end;
  _ ← raise_if (match balanced_knapsack_delta with
                | Some _ => negb (bool_decide (a = BALANCED_GREEDY_KNAPSACK))
                | None => false
                end) ValueError;
  let d := default 0 balanced_knapsack_delta in
  p ← (if decide (a = BALANCED_GREEDY_KNAPSACK) then balanced_init cap mn mult mx d
       else packer_init cap mn mult mx);
  Ok (mkPacker a p d).

Section dispatch.
  (** [random.shuffle]. *)
  Context (shuffle : list (Z * nat) -> list (Z * nat)).

(** The [_pack_implementation] of a packer object. *)
Definition implementation (k : packer) : Params -> list Z -> res (list (list nat)) :=
  match algorithm k with
  | CONCATENATIVE => concatenative
  | FIRST_FIT_DECREASING => first_fit_decreasing
  | FIRST_FIT_SHUFFLE => first_fit_shuffle shuffle
  | MODIFIED_FIRST_FIT_DECREASING => mffd
  | GREEDY_KNAPSACK => greedy_knapsack
  | BALANCED_GREEDY_KNAPSACK => balanced_greedy (delta k)
  end.
End dispatch.


(** ** Nothing is lost, nothing overflows *)

Lemma bin_size_app b1 b2 : bin_size (b1 ++ b2) = bin_size b1 + bin_size b2.
Proof. unfold bin_size. by rewrite fmap_app, zsum_app. Qed.

Lemma bin_size_single it : bin_size [it] = it.2.
Proof. unfold bin_size. cbn. lia. Qed.

Lemma find_idx_Some P l i :
  find_idx P l = Some i -> exists x, l !! i = Some x /\ P x = true.
Proof.
  unfold find_idx. destruct (List.find _ _) as [[j x]|] eqn:E; [|done]. intros [= <-].
  apply find_some in E as [Hin HP]. rewrite <- list_elem_of_In in Hin.
  apply elem_of_enumerate in Hin. eauto.
Qed.

Lemma find_last_idx_Some P l i :
  find_last_idx P l = Some i -> exists x, l !! i = Some x /\ P x = true.
Proof.
  unfold find_last_idx. destruct (List.find _ _) as [[j x]|] eqn:E; [|done]. intros [= <-].
  apply find_some in E as [Hin HP].
  rewrite <- list_elem_of_In, elem_of_reverse, elem_of_enumerate in Hin. eauto.
Qed.

Lemma find_last_idx_None P l i x :
  find_last_idx P l = None -> l !! i = Some x -> P x = false.
Proof.
  unfold find_last_idx. destruct (List.find _ _) as [[j y]|] eqn:E; [done|]. intros _ Hi.
  apply (find_none _ _ E (i, x)). apply list_elem_of_In.
  by rewrite elem_of_reverse, elem_of_enumerate.
Qed.

Lemma take_out {A} (b pool : list A) i x :
  pool !! i = Some x -> (b ++ [x]) ++ delete i pool ≡ₚ b ++ pool.
Proof.
  intros H. rewrite <- app_assoc. cbn. f_equiv. symmetry. by apply delete_Permutation.
Qed.

Definition good_bin (p : Params) (b : list item) : Prop :=
  b <> [] /\ bin_size b <= bin_capacity p.

(** A loop body that only moves items from the pool to its bin. *)
Definition moves (p : Params) (body : list item -> list item -> list item * list item) : Prop :=
  forall b pool, good_bin p b ->
    good_bin p (body b pool).1 /\ (body b pool).1 ++ (body b pool).2 ≡ₚ b ++ pool.

Lemma for_bins_moves p body bins : forall pool,
  moves p body -> Forall (good_bin p) bins ->
  Forall (good_bin p) (for_bins body bins pool).1 /\
  concat (for_bins body bins pool).1 ++ (for_bins body bins pool).2 ≡ₚ concat bins ++ pool.
Proof.
  induction bins as [|b bins IH]; intros pool Hm Hb; [done|].
  apply Forall_cons in Hb as [Hb1 Hb]. cbn [for_bins].
  destruct (Hm b pool Hb1) as [Hg Hp]. destruct (body b pool) as [b' pool'].
  destruct (IH pool' Hm Hb) as [IH1 IH2]. destruct (for_bins body bins pool') as [rest pool''].
  cbn [fst snd] in *. split; [by constructor|]. cbn.
  rewrite <- app_assoc, IH2, (Permutation_app_swap_app b'), Hp.
  by rewrite <- app_assoc, (Permutation_app_swap_app b).
Qed.

Lemma good_snoc p b it :
  good_bin p b -> it.2 <= bin_capacity p - bin_size b -> good_bin p (b ++ [it]).
Proof.
  intros [Hb1 Hb2] H. split; [by destruct b|]. rewrite bin_size_app, bin_size_single. lia.
Qed.

Lemma add_medium_moves p : moves p (add_medium p).
Proof.
  intros b med Hg. unfold add_medium. destruct (find_idx _ med) as [i|] eqn:E; [|done].
  apply find_idx_Some in E as (it & Hi & Hle%Z.leb_le). rewrite Hi. cbn [fst snd].
  split; [by apply good_snoc|by apply take_out].
Qed.

(** The partner of the first small item always exists: popping it never
    loses it. *)
Lemma add_small_pair_moves p : moves p (add_small_pair p).
Proof.
  intros b sm Hg. unfold add_small_pair. destruct (existsb _ b); [done|].
  destruct sm as [|s0 [|s1 rest]]; [done|done|].
  destruct (Z.ltb_spec (bin_capacity p - bin_size b) (s0.2 + s1.2)) as [|Hle]; [done|].
  destruct (find_last_idx _ (s1 :: rest)) as [j|] eqn:E.
  - apply find_last_idx_Some in E as (it & Hj & Hit%Z.leb_le). rewrite Hj. cbn [fst snd].
    split.
    + destruct Hg as [Hg1 Hg2]. split; [by destruct b|].
      change [s0; it] with ([s0] ++ [it]). rewrite !bin_size_app, !bin_size_single. lia.
    + change [s0; it] with ([s0] ++ [it]). rewrite app_assoc, (take_out _ _ _ _ Hj).
      by rewrite <- app_assoc.
  - pose proof (find_last_idx_None _ _ 0 s1 E eq_refl) as Hf. apply Z.leb_gt in Hf. lia.
Qed.

(** One unit of fuel per remaining item is enough: more changes nothing. *)
Lemma fill_bin_fuel p extra : forall fuel b rem_items,
  (length rem_items <= fuel)%nat ->
  fill_bin (fuel + extra) p b rem_items = fill_bin fuel p b rem_items.
Proof.
  induction fuel as [|fuel IH]; intros b rem_items Hl.
  - destruct rem_items; [|cbn in Hl; lia]. by destruct extra.
  - cbn [fill_bin Nat.add]. destruct (last rem_items) as [s|]; [|done].
    destruct (_ <? _); [done|]. destruct (find_idx _ rem_items) as [i|]; [|done].
    destruct (rem_items !! i) as [it|] eqn:E; [|done]. apply IH.
    rewrite length_delete by eauto. apply lookup_lt_Some in E. lia.
Qed.

Lemma fill_bin_moves p fuel : moves p (fill_bin fuel p).
Proof.
  induction fuel as [|fuel IH]; intros b pool Hg; [done|]. cbn [fill_bin].
  destruct (last pool); [|done]. destruct (_ <? _); [done|].
  destruct (find_idx _ pool) as [i|] eqn:E; [|done].
  apply find_idx_Some in E as (x & Hi & Hle%Z.leb_le). rewrite Hi.
  destruct (IH (b ++ [x]) (delete i pool)) as [H1 H2]; [by apply good_snoc|].
  split; [done|]. rewrite H2. by apply take_out.
Qed.

(** ** Phase 5 keeps its bins sorted by size *)

Record phase5_inv p (placed : list item) (st : list (list item) * list Z) : Prop := {
  p5_items : concat st.1 ≡ₚ placed;
  p5_fits : Forall (fun b => bin_size b <= bin_capacity p) st.1;
  p5_sizes : st.2 = bin_size <$> st.1;
  p5_some : st.1 <> [];
  p5_sorted : StronglySorted Z.le st.2 }.

Lemma phase5_place p placed (b : list item) (bins : list (list item)) it :
  concat (b :: bins) ≡ₚ placed ->
  Forall (fun b => bin_size b <= bin_capacity p) bins ->
  bin_size b + it.2 <= bin_capacity p ->
  StronglySorted Z.le (bin_size <$> bins) ->
  let idx := bisect (fun y => negb (bin_size b + it.2 <? y)) (bin_size <$> bins) in
  phase5_inv p (it :: placed)
    (list_insert_at idx (b ++ [it]) bins,
     list_insert_at idx (bin_size b + it.2) (bin_size <$> bins)).
Proof.
  intros H1 H2 H3 H4 idx. constructor; cbn [fst snd].
  - rewrite list_insert_at_perm. cbn. rewrite <- H1. cbn. rewrite <- app_assoc. cbn.
    by rewrite <- Permutation_middle.
  - rewrite list_insert_at_perm. constructor; [|done].
    rewrite bin_size_app, bin_size_single. lia.
  - by rewrite list_insert_at_fmap, bin_size_app, bin_size_single.
  - unfold list_insert_at. by destruct (take idx bins).
  - by apply bisect_right_sorted.
Qed.

Lemma phase5_step_inv p placed st it :
  0 <= bin_capacity p -> it.2 <= bin_capacity p ->
  phase5_inv p placed st -> phase5_inv p (it :: placed) (phase5_step p st it).
Proof.
  intros Hcap Hit [H1 H2 H3 H4 H5]. destruct st as [bins sizes]. cbn [fst snd] in *.
  subst sizes. destruct bins as [|b bins]; [done|]. cbn [phase5_step fmap list_fmap].
  apply Forall_cons in H2 as [H2b H2].
  destruct (Z.leb_spec it.2 (bin_capacity p - bin_size b)) as [Hle|Hgt].
  - rewrite fmap_cons, StronglySorted_cons in H5. apply phase5_place; [done|done|lia|tauto].
  - change 0 with (bin_size []).
    apply (phase5_place p placed [] (b :: bins)); [done|by constructor|cbn; lia|done].
Qed.

Lemma phase5_fold p its : forall placed st,
  0 <= bin_capacity p -> Forall (fun it => it.2 <= bin_capacity p) its ->
  phase5_inv p placed st -> phase5_inv p (reverse its ++ placed) (foldl (phase5_step p) st its).
Proof.
  induction its as [|it its IH]; intros placed st Hc Hi Hinv; [done|].
  apply Forall_cons in Hi as [Hi1 Hi]. rewrite reverse_cons, <- app_assoc. cbn [foldl].
  apply IH; [done..|]. by apply phase5_step_inv.
Qed.

Lemma phase5_spec p its :
  0 <= bin_capacity p -> Forall (fun it => it.2 <= bin_capacity p) its ->
  phase5_inv p (reverse (py_sort size_desc its)) (phase5 p its).
Proof.
  intros Hc Hi. rewrite <- (app_nil_r (reverse _)). apply phase5_fold; [done| |].
  - by rewrite py_sort_perm.
  - constructor; cbn; [done|by repeat constructor|done|done|by repeat constructor].
Qed.

(** ** The whole algorithm *)

Lemma classify_perm p items : forall c,
  let c' := foldl (classify_item p) c items in
  large c' ++ medium c' ++ small c' ++ tiny c' ≡ₚ
    (large c ++ medium c ++ small c ++ tiny c) ++ items.
Proof.
  induction items as [|it items IH]; intros c; cbv zeta in *; cbn [foldl].
  { by rewrite app_nil_r. }
  rewrite IH. unfold classify_item.
  repeat (destruct (_ <? _); cbn [large medium small tiny]); solve_Permutation.
Qed.

Lemma mffd_bins_spec p lens :
  0 < bin_capacity p -> Forall (fun l => l <= bin_capacity p) lens ->
  concat (mffd_bins p lens) ≡ₚ enumerate lens /\
  Forall (fun b => bin_size b <= bin_capacity p) (mffd_bins p lens).
Proof.
  intros Hcap Hl. unfold mffd_bins.
  pose proof (classify_perm p (enumerate lens) (mkClasses [] [] [] [])) as Hc.
  cbv zeta in Hc. fold (classify_items p (enumerate lens)) in Hc.
  set (c := classify_items p (enumerate lens)) in *. clearbody c. cbn [large medium small tiny app] in Hc.
  assert (Forall (fun it : item => it.2 <= bin_capacity p) (enumerate lens)) as Hit.
  { apply Forall_forall. intros [i l] Hin%elem_of_enumerate. rewrite Forall_forall in Hl.
    apply Hl. by eapply list_elem_of_lookup_2. }
  rewrite <- Hc in Hit |- *. set (bins1 := (fun it => [it]) <$> py_sort size_desc (large c)).
  assert (Forall (good_bin p) bins1 /\ concat bins1 ≡ₚ large c) as [Hg1 Hp1].
  { apply Forall_app in Hit as [Hit _]. rewrite <- (py_sort_perm size_desc (large c)) in Hit.
    split.
    - apply Forall_fmap. eapply Forall_impl; [exact Hit|]. cbn. intros it Hle.
      split; [done|]. by rewrite bin_size_single.
    - unfold bins1. transitivity (py_sort size_desc (large c)); [|apply py_sort_perm].
      clear. induction (py_sort _ _); cbn; [done|]. by f_equiv. }
  destruct (for_bins_moves p _ bins1 (py_sort size_desc (medium c)) (add_medium_moves p) Hg1)
    as [Hg2 Hp2]. fold (phase2 p) in Hg2, Hp2.
  destruct (phase2 p bins1 _) as [bins2 med]. cbn [fst snd] in Hg2, Hp2.
  destruct (for_bins_moves p _ (reverse bins2) (py_sort size_asc (small c))
    (add_small_pair_moves p)) as [Hg3 Hp3]; [by rewrite reverse_Permutation|].
  unfold phase3. destruct (for_bins (add_small_pair p) _ _) as [rbins3 sm].
  cbn [fst snd] in Hg3, Hp3. rewrite <- (reverse_Permutation rbins3) in Hg3, Hp3.
  rewrite (reverse_Permutation bins2) in Hp3.
  set (remaining := py_sort size_desc _).
  assert (remaining ≡ₚ med ++ sm ++ tiny c) as Hrem.
  { unfold remaining. by rewrite !py_sort_perm. }
  clearbody remaining.
  destruct (for_bins_moves p (fun b r => fill_bin (length r) p b r) (reverse rbins3) remaining)
    as [Hg4 Hp4]; [intros b pool; apply fill_bin_moves|done|].
  fold (phase4 p) in Hg4, Hp4. destruct (phase4 p _ remaining) as [bins4 left].
  cbn [fst snd] in Hg4, Hp4.
  assert (concat bins4 ++ left ≡ₚ large c ++ medium c ++ small c ++ tiny c) as Hall.
  { rewrite Hp4, Hrem. rewrite py_sort_perm in Hp2, Hp3. rewrite Hp1 in Hp2.
    rewrite (Permutation_app_swap_app med sm), app_assoc, Hp3.
    rewrite (Permutation_app_swap_app (medium c)), (app_assoc (large c)).
    assert (concat bins2 ++ med ≡ₚ large c ++ medium c) as Hp2' by done. clear -Hp2'.
    transitivity ((concat bins2 ++ med) ++ small c ++ tiny c); [solve_Permutation|].
    rewrite Hp2'. solve_Permutation. }
  destruct (phase5_spec p left) as [H1 H2 _ _ _]; [lia| |].
  { rewrite <- Hall in Hit. by apply Forall_app in Hit as [_ ?]. }
  split.
  - rewrite concat_app, H1, reverse_Permutation, py_sort_perm. exact Hall.
  - apply Forall_app; split; [|done]. eapply Forall_impl; [exact Hg4|]. by intros ? [].
Qed.

(** ** [mffd] meets the packer interface *)

Lemma bin_size_load lens (b : list item) :
  Forall (fun it => lens !! it.1 = Some it.2) b -> load lens b.*1 = bin_size b.
Proof.
  unfold load, bin_size, select_indices. induction 1 as [|[i l] b Hi Hb IH]; [done|].
  cbn in Hi |- *. rewrite Hi. cbn. by rewrite IH.
Qed.

Lemma concat_fmap_fst (bins : list (list item)) :
  concat ((fun b : list item => b.*1) <$> bins) = (concat bins).*1.
Proof. induction bins as [|b bins IH]; cbn; [done|]. by rewrite fmap_app, IH. Qed.

Lemma concat_filter_items (bins : list (list item)) :
  concat (List.filter (fun b => match b with [] => false | _ => true end) bins) = concat bins.
Proof. induction bins as [|[|x b] bins IH]; cbn; [done|done|by rewrite IH]. Qed.

Lemma mffd_packs p lens :
  max_sequences_per_bin p = None -> 0 < bin_capacity p ->
  Forall (fun l => l <= bin_capacity p) lens ->
  packing p lens ((fun b : list item => b.*1) <$>
    List.filter (fun b => match b with [] => false | _ => true end) (mffd_bins p lens)).
Proof.
  intros Hm Hcap Hl. destruct (mffd_bins_spec p lens Hcap Hl) as [H1 H2]. constructor.
  - rewrite concat_fmap_fst, concat_filter_items, H1. by rewrite enumerate_fst.
  - apply Forall_fmap, Forall_forall. intros b [_ Hb]%list_filter_elem_of. by destruct b.
  - apply Forall_fmap, Forall_forall. intros b [Hin _]%list_filter_elem_of. cbn.
    split; [|unfold within_cap; by rewrite Hm].
    rewrite bin_size_load; [by eapply Forall_forall in H2|].
    apply Forall_forall. intros [i l] Hit. cbn.
    apply elem_of_enumerate. rewrite <- H1. rewrite list_elem_of_In, in_concat.
    exists b. by rewrite <- !list_elem_of_In.
Qed.

Lemma mffd_checks p lens :
  0 < bin_capacity p -> Forall (fun l => 0 < l) lens ->
  (bin_capacity p <=? 0) = false /\ existsb (fun l => l <=? 0) lens = false.
Proof.
  intros Hc Hl. split; [by apply Z.leb_gt|]. apply not_true_iff_false.
  intros (l & Hin & Hle%Z.leb_le)%existsb_exists. rewrite Forall_forall in Hl.
  rewrite <- list_elem_of_In in Hin. specialize (Hl l Hin). lia.
Qed.

#[export] Instance mffd_impl :
  PackImpl (fun p lens => 0 < bin_capacity p /\ Forall (fun l => 0 < l) lens) mffd.
Proof.
  split.
  - intros p lens Hv [Hcap Hpos] Hl. unfold mffd.
    destruct (mffd_checks p lens Hcap Hpos) as [-> ->].
    rewrite validate_ok by done. cbn [raise_if mbind res_bind].
    destruct (max_sequences_per_bin p) as [m|] eqn:Em; [|by eauto using mffd_packs].
    destruct (impl_packs (impl := first_fit_decreasing)
      (mkParams (bin_capacity p) None None (Some m)) lens) as (bins & Hb & [H1 H2 H3]).
    + split_and!; [done|done|]. intros ? [= <-]. by apply Hv.
    + done.
    + done.
    + exists bins. split; [done|]. constructor; [done..|].
      eapply Forall_impl; [exact H3|]. unfold bin_ok, within_cap. cbn. by rewrite Em.
  - intros p lens _ He. unfold mffd.
    destruct (_ <=? 0); [done|]. cbn [raise_if mbind res_bind].
    destruct (existsb _ lens); [done|]. cbn [raise_if mbind res_bind].
    by rewrite validate_rejects.
Qed.

(** ** The factory *)

Lemma packer_init_valid cap mn mult mx p :
  packer_init cap mn mult mx = Ok p ->
  valid_params p /\ p = mkParams cap mn mult mx.
Proof.
  unfold packer_init. intros H. inv_res. split; [|done]. unfold valid_params. cbn.
  destruct mn, mult, mx; bool_to_prop; split_and!; intros ? [=]; lia.
Qed.

Lemma get_packer_Ok alg cap mn mult mx d k :
  get_packer alg cap mn mult mx d = Ok k ->
  valid_params (params k) /\ params k = mkParams cap mn mult mx.
Proof.
  unfold get_packer, balanced_init. intros H.
  apply bind_Ok in H as (a & _ & H). apply bind_Ok in H as (? & _ & H).
  apply bind_Ok in H as (p & Hp & [= <-]). cbn.
  destruct (decide _); [apply bind_Ok in Hp as (p' & Hp & Hp2);
    apply bind_Ok in Hp2 as (? & _ & [= <-])|]; by eapply packer_init_valid.
Qed.

Lemma implementation_packs shuffle k p lens :
  (forall items, shuffle items ≡ₚ items) -> valid_params p -> 0 < bin_capacity p ->
  Forall (fun l => 0 < l <= bin_capacity p) lens ->
  exists bins, implementation shuffle k p lens = Ok bins /\ packing p lens bins.
Proof.
  intros Hs Hv Hcap Hl.
  assert (Forall (fun l => l <= bin_capacity p) lens) as Hle
    by (eapply Forall_impl; [exact Hl|]; cbn; lia).
  assert (Forall (fun l => 0 < l) lens) as Hpos
    by (eapply Forall_impl; [exact Hl|]; cbn; lia).
  unfold implementation. destruct (algorithm k); try by apply impl_packs.
  - pose proof (first_fit_impl shuffle Hs). by apply (impl_packs (accepts := fun _ _ => True)).
  - apply (balanced_greedy_impl (delta k)); [done| |done]. right. lia.
Qed.

(** ** Properties *)


(** Phase 5 looks at its first bin only, and that is enough: the bins stay
    sorted by size, so when the largest leftover does not fit in the first one
    it fits in none, and a bin is opened exactly then. *)
Theorem phase5_first_bin_decides p leftovers it :
  0 <= bin_capacity p -> Forall (fun it => it.2 <= bin_capacity p) leftovers ->
  let '(bins, sizes) := phase5 p leftovers in
  sizes = bin_size <$> bins /\ StronglySorted Z.le sizes /\
  (length (phase5_step p (bins, sizes) it).1 = S (length bins) <->
     Forall (fun b => bin_capacity p < bin_size b + it.2) bins).
Proof.
  intros Hc Hi. destruct (phase5_spec p leftovers Hc Hi) as [_ _ H3 H4 H5].
  destruct (phase5 p leftovers) as [bins sizes]. cbn [fst snd] in *.
  split_and!; [done|done|]. subst sizes. destruct bins as [|b bins]; [done|].
  cbn [phase5_step fmap list_fmap] in *. apply StronglySorted_inv in H5 as [_ Hle].
  change (Forall (Z.le (bin_size b)) (bin_size <$> bins)) in Hle. rewrite Forall_fmap in Hle.
  destruct (Z.leb_spec it.2 (bin_capacity p - bin_size b)); cbn [fst];
    rewrite list_insert_at_perm; cbn [length]; split; try lia.
  - intros Hf%Forall_inv. lia.
  - intros _. constructor; [lia|]. eapply Forall_impl; [exact Hle|]. cbn. lia.
Qed.

(** Selecting a packer by name ignores case and equals selecting it by
    enum value; an unknown name raises [ValueError], and so does a
    [balanced_knapsack_delta] given to any other algorithm. *)
Theorem get_packer_selects a s cap mn mult mx d :
  (upper s = algorithm_name a ->
     get_packer (inr s) cap mn mult mx d = get_packer (inl a) cap mn mult mx d) /\
  (Forall (fun a' => upper s <> algorithm_name a') all_algorithms ->
     get_packer (inr s) cap mn mult mx d = Raise ValueError) /\
  (forall v, d = Some v -> a <> BALANCED_GREEDY_KNAPSACK ->
     get_packer (inl a) cap mn mult mx d = Raise ValueError) /\
  (forall k, get_packer (inl a) cap mn mult mx d = Ok k ->
     algorithm k = a /\ params k = mkParams cap mn mult mx /\ delta k = default 0 d).
Proof.
  split_and!.
  - intros Hu. unfold get_packer, algorithm_of_string. rewrite Hu. by destruct a.
  - intros Hf. unfold get_packer, algorithm_of_string.
    destruct (List.find _ _) as [a'|] eqn:E; [|done].
    apply find_some in E as [Hin Hn]. rewrite <- list_elem_of_In in Hin.
    rewrite Forall_forall in Hf. apply bool_decide_eq_true in Hn. by destruct (Hf a' Hin).
  - intros v -> Hne. unfold get_packer. cbn. by rewrite bool_decide_eq_false_2.
  - intros k Hk. destruct (get_packer_Ok _ _ _ _ _ _ _ Hk) as [_ Hp]. split_and!; [|done|].
    all: unfold get_packer in Hk; apply bind_Ok in Hk as (a' & [= <-] & Hk);
      apply bind_Ok in Hk as (? & _ & Hk); by apply bind_Ok in Hk as (p & _ & [= <-]).
Qed.

(** ** Witnesses *)


Lemma phase5_first_bin_decides_witness :
  StronglySorted Z.le (phase5 (mkParams 100 None None None) [(0%nat, 60); (1%nat, 50); (2%nat, 30)]).2.
Proof.
  pose proof (phase5_first_bin_decides (mkParams 100 None None None)
    [(0%nat, 60); (1%nat, 50); (2%nat, 30)] (3%nat, 20)) as H.
  destruct (phase5 _ _) as [bins sizes]. apply H.
  - cbn. lia.
  - repeat (constructor; [cbn; lia|]). constructor.
Defined.

Lemma get_packer_selects_witness :
  get_packer (inr "greedy_Knapsack"%string) 8 None None None None =
    get_packer (inl GREEDY_KNAPSACK) 8 None None None None.
Proof.
  apply (proj1 (get_packer_selects GREEDY_KNAPSACK "greedy_Knapsack" 8 None None None None)).
  reflexivity.
Defined.

(** ** Phase 5 is not first-fit decreasing

    The code labels the phase an [O(n log n)] implementation of FFD; it is a
    worst-fit and can open a bin FFD does not need. *)
Example phase5_is_not_first_fit :
  mffd (mkParams 100 None None None) [45; 45; 44; 44; 10; 7; 5] =
    Ok [[6]; [0; 1; 5]; [2; 3; 4]]%nat /\
  first_fit_decreasing (mkParams 100 None None None) [45; 45; 44; 44; 10; 7; 5] =
    Ok [[1; 0; 4]; [3; 2; 5; 6]]%nat.
Proof. split; vm_compute; reflexivity. Qed.
