(* ===== verification/PyVal.v ===== *)
(** * Dynamically typed Python values

    The values the checkpoint metadata and the row tags are made of, as far as
    the modelled code inspects them: [None], booleans, integers, floats,
    strings, bytes, lists, tuples and dicts, and any other object.  A dict is
    an association list with distinct keys, in insertion order. *)

From S2P Require Import Prelude.

(** A float: a finite [mant * 2^exp], an infinity or a NaN. *)
Inductive pyfloat := Fin (mant exp : Z) | Inf (negative : bool) | NaN.

#[warnings="-register-all"]
Inductive PyVal :=
| VNone
| VBool (b : bool)
| VInt (z : Z)
| VFloat (f : pyfloat)
| VStr (s : string)
| VBytes (s : string)
| VList (l : list PyVal)
| VTuple (l : list PyVal)
| VDict (d : list (PyVal * PyVal))
| VObj (id : Z).

(** [key == s] for a string [s]. *)
Definition is_str (s : string) (v : PyVal) : bool :=
  match v with VStr s' => String.eqb s' s | _ => false end.

(** [d.get(s)] for a string key. *)
Definition dict_get (s : string) (d : list (PyVal * PyVal)) : option PyVal :=
  match List.find (fun kv => is_str s kv.1) d with
  | Some kv => Some kv.2
  | None => None
  end.

(** [s in d] for a string key. *)
Definition has_key (s : string) (d : list (PyVal * PyVal)) : bool :=
  existsb (fun kv => is_str s kv.1) d.

(** [d[s] = v] for a string key, in place when the key is present. *)
Fixpoint dict_set (s : string) (v : PyVal) (d : list (PyVal * PyVal)) : list (PyVal * PyVal) :=
  match d with
  | [] => [(VStr s, v)]
  | (k, w) :: d' => if is_str s k then (k, v) :: d' else (k, w) :: dict_set s v d'
  end.

(** [d[s]]. *)
Definition dict_index (s : string) (d : list (PyVal * PyVal)) : res PyVal :=
  match dict_get s d with Some v => Ok v | None => Raise KeyError end.

(** [v == n] for an integer [n]: booleans and floats compare numerically. *)
Definition eq_int (v : PyVal) (n : Z) : bool :=
  match v with
  | VInt z => z =? n
  | VBool b => Z.b2z b =? n
  | VFloat (Fin m e) => if 0 <=? e then m * 2 ^ e =? n else m =? n * 2 ^ (- e)
  | _ => false
  end.

(** The value of a number: [True] is 1. *)
Definition as_num (v : PyVal) : option pyfloat :=
  match v with
  | VBool b => Some (Fin (Z.b2z b) 0)
  | VInt z => Some (Fin z 0)
  | VFloat f => Some f
  | _ => None
  end.

(** [x == y] on floats: a NaN differs from itself. *)
Definition float_eqb (x y : pyfloat) : bool :=
  match x, y with
  | Fin m e, Fin m' e' => m * 2 ^ (e - Z.min e e') =? m' * 2 ^ (e' - Z.min e e')
  | Inf b, Inf b' => Bool.eqb b b'
  | _, _ => false
  end.

(** [a == b].  Dicts compare without regard to order.  Containers compare their
    elements by [==] alone: that an element is the same object is not known. *)
Fixpoint py_eq (a b : PyVal) {struct a} : bool :=
  let eq_list := fix go (l m : list PyVal) {struct l} : bool :=
    match l, m with
    | [], [] => true
    | x :: l', y :: m' => py_eq x y && go l' m'
    | _, _ => false
    end in
  match a, b with
  | VNone, VNone => true
  | VStr s, VStr t | VBytes s, VBytes t => String.eqb s t
  | VList l, VList m | VTuple l, VTuple m => eq_list l m
  | VDict d, VDict e =>
      (length d =? length e)%nat
      && (fix go (d : list (PyVal * PyVal)) : bool :=
            match d with
            | [] => true
            | (k, v) :: d' => existsb (fun kv => py_eq k kv.1 && py_eq v kv.2) e && go d'
            end) d
  | VObj i, VObj j => i =? j
  | _, _ =>
      match as_num a, as_num b with
      | Some x, Some y => float_eqb x y
      | _, _ => false
      end
  end.

(** [bool(v)]. *)
Definition truthy (v : PyVal) : bool :=
  match v with
  | VNone => false
  | VBool b => b
  | VInt z => negb (z =? 0)
  | VFloat (Fin m _) => negb (m =? 0)
  | VFloat _ => true
  | VStr s | VBytes s => negb (String.eqb s "")
  | VList l | VTuple l => negb (bool_decide (l = []))
  | VDict d => negb (bool_decide (d = []))
  | VObj _ => true
  end.

(** [list(v)]: what a [for] loop over [v] visits. *)
Definition py_iter (v : PyVal) : res (list PyVal) :=
  match v with
  | VList l | VTuple l => Ok l
  | VDict d => Ok d.*1
  | VStr s => Ok ((fun a => VStr (String a "")) <$> String.list_ascii_of_string s)
  | VBytes s => Ok ((fun a => VInt (Z.of_N (Ascii.N_of_ascii a))) <$> String.list_ascii_of_string s)
  | _ => Raise TypeError
  end.

(** [hash(v)] exists. *)
Fixpoint hashable (v : PyVal) : bool :=
  match v with
  | VList _ | VDict _ => false
  | VTuple l => (fix go (l : list PyVal) : bool :=
                   match l with [] => true | x :: l' => hashable x && go l' end) l
  | _ => true
  end.

(** [v in xs] for a set or list of values. *)
Definition py_in (v : PyVal) (xs : list PyVal) : bool := existsb (fun x => py_eq x v) xs.

(** [isinstance(v, int)]: a [bool] is an [int]. *)
Definition as_int (v : PyVal) : option Z :=
  match v with VInt z => Some z | VBool b => Some (Z.b2z b) | _ => None end.

(** [set(d) == names]. *)
Definition exact_keys (d : list (PyVal * PyVal)) (names : list string) : bool :=
  forallb (fun kv => existsb (fun s => is_str s kv.1) names) d
  && forallb (fun s => existsb (fun kv => is_str s kv.1) d) names.

(** [set(d) - names] is empty. *)
Definition known_keys (d : list (PyVal * PyVal)) (names : list string) : bool :=
  forallb (fun kv => existsb (fun s => is_str s kv.1) names) d.

Definition opt_val {A} (f : A -> PyVal) (o : option A) : PyVal :=
  match o with Some x => f x | None => VNone end.

(** [list(dict.fromkeys(xs))]: the first occurrences, in order. *)
Fixpoint fromkeys (seen xs : list string) : list string :=
  match xs with
  | [] => []
  | x :: xs' => if decide (x ∈ seen) then fromkeys seen xs'
                else x :: fromkeys (x :: seen) xs'
  end.

(** A dict literal with string keys. *)
Definition str_dict (d : list (string * PyVal)) : PyVal :=
  VDict (List.map (fun '(k, v) => (VStr k, v)) d).

Lemma dict_get_cons k k' v d :
  dict_get k ((VStr k', v) :: d) = if decide (k' = k) then Some v else dict_get k d.
Proof.
  unfold dict_get. cbn. destruct (decide (k' = k)) as [->|Hne].
  - by rewrite String.eqb_refl.
  - by rewrite (proj2 (String.eqb_neq k' k)).
Qed.

Lemma dict_get_set k k' v d : dict_get k (dict_set k' v d) = if decide (k' = k) then Some v else dict_get k d.
Proof.
  induction d as [|[k0 w] d IH]; cbn [dict_set]; [apply dict_get_cons|]. unfold is_str at 1. destruct k0 as [| | | |s| | | | |];
    try (unfold dict_get in *; cbn; exact IH). destruct (String.eqb_spec s k') as [->|Hne].
  - rewrite !dict_get_cons. by destruct (decide _).
  - rewrite !dict_get_cons, IH. destruct (decide (s = k)) as [->|]; [|done]. by rewrite decide_False.
Qed.

(** ** Sequencing over a list

    [traverse f l] runs [f] on the elements in order and stops at the first
    exception. *)
Fixpoint traverse {A B} (f : A -> res B) (l : list A) : res (list B) :=
  match l with
  | [] => Ok []
  | x :: l' => y ← f x; ys ← traverse f l'; Ok (y :: ys)
  end.

(** [for x in l: f(x)], for a body that only checks. *)
Fixpoint for_each {A} (f : A -> res unit) (l : list A) : res unit :=
  match l with
  | [] => Ok tt
  | x :: l' => _ ← f x; for_each f l'
  end.

Lemma traverse_Ok {A B} (f : A -> res B) l ys :
  traverse f l = Ok ys <-> Forall2 (fun x y => f x = Ok y) l ys.
Proof.
  revert ys. induction l as [|x l IH]; intros ys; cbn.
  - split; [by intros [= <-]|]. by inversion 1.
  - rewrite bind_Ok. split.
    + intros (y & Hy & Hr). apply bind_Ok in Hr as (ys' & Hys & [= <-]).
      constructor; [done|]. by apply IH.
    + inversion 1; subst. eexists. split; [done|]. apply bind_Ok.
      eexists. split; [by apply IH|done].
Qed.

Lemma for_each_raises {A} (f : A -> res unit) es l :
  (forall x, x ∈ l -> raises_only es (f x)) -> raises_only es (for_each f l).
Proof.
  induction l as [|x l IH]; intros Hf; cbn [for_each]; [done|].
  apply raises_bind; [apply Hf; left|]. intros _ _. apply IH. intros y Hy. apply Hf. by right.
Qed.

Lemma for_each_Ok {A} (f : A -> res unit) l :
  for_each f l = Ok tt <-> Forall (fun x => f x = Ok tt) l.
Proof.
  induction l as [|x l IH]; cbn.
  - split; auto.
  - rewrite bind_Ok, Forall_cons, <- IH. split.
    + intros ([] & ? & ?). done.
    + intros [? ?]. by exists tt.
Qed.

(** ** [dict.fromkeys] *)

Lemma fromkeys_spec xs : forall seen,
  (forall x, x ∈ fromkeys seen xs <-> x ∈ xs /\ x ∉ seen) /\ NoDup (fromkeys seen xs).
Proof.
  induction xs as [|y xs IH]; intros seen; cbn; [split; [set_solver|constructor]|].
  destruct (decide (y ∈ seen)) as [Hy|Hy].
  - destruct (IH seen) as [IH1 IH2]. split; [|done]. intros x. rewrite IH1. set_solver.
  - destruct (IH (y :: seen)) as [IH1 IH2]. split.
    + intros x. rewrite elem_of_cons, IH1.
      destruct (decide (x = y)) as [->|]; set_solver.
    + constructor; [rewrite IH1; set_solver|done].
Qed.
