(* ===== verification/PyStr.v ===== *)
(** * Python strings

    The string operations the identifiers of rollouts are built with: decimal
    and hexadecimal rendering, [rpartition], [isdigit] and [int], membership of
    a character, and the parts of an identifier.  Characters are ASCII, or bytes. *)

From S2P Require Import Prelude.
From Stdlib Require Import DecimalString DecimalN DecimalZ Decimal.
From Stdlib Require Import Ascii String.
#[local] Open Scope string_scope.
#[local] Open Scope Z_scope.

(** [str(z)]. *)
Definition str_of_int (z : Z) : string := NilEmpty.string_of_int (Z.to_int z).

(** [str(n)] of an index. *)
Definition str_of_nat (n : nat) : string := NilEmpty.string_of_uint (N.to_uint (N.of_nat n)).

Definition is_digit (a : ascii) : bool :=
  let n := nat_of_ascii a in ((48 <=? n) && (n <=? 57))%nat.

Fixpoint all_chars (P : ascii -> bool) (s : string) : bool :=
  match s with
  | EmptyString => true
  | String a s' => P a && all_chars P s'
  end.

(** [s.isdigit()]. *)
Definition isdigit (s : string) : bool := negb (String.eqb s "") && all_chars is_digit s.

(** [int(s)] of a string of digits. *)
Definition int_of_digits (s : string) : option nat :=
  (fun d => N.to_nat (N.of_uint d)) <$> NilEmpty.uint_of_string s.

(** [c in s] for a character. *)
Definition has_char (c : ascii) (s : string) : bool :=
  negb (all_chars (fun a => negb (Ascii.eqb a c)) s).

(** [s.startswith(p)]; [Some] rest when it does. *)
Fixpoint strip_prefix (p s : string) : option string :=
  match p, s with
  | EmptyString, _ => Some s
  | String a p', String b s' => if Ascii.eqb a b then strip_prefix p' s' else None
  | _, _ => None
  end.

(** [s.removesuffix(suffix)]. *)
Definition removesuffix (suffix s : string) : string :=
  let n := (String.length s - String.length suffix)%nat in
  if (String.length suffix <=? String.length s)%nat
     && String.eqb (substring n (String.length suffix) s) suffix
  then substring 0 n s else s.

(** [a < b], by code point. *)
Definition string_ltb (a b : string) : bool :=
  match String.compare a b with Lt => true | _ => false end.

(** [s.rpartition(sep)]: the parts around the last occurrence, if any. *)
Fixpoint rpartition (sep s : string) : option (string * string) :=
  match s with
  | EmptyString => None
  | String a s' =>
      match rpartition sep s' with
      | Some (h, t) => Some (String a h, t)
      | None => (fun t => ("", t)) <$> strip_prefix sep s
      end
  end.

(** ** UUIDs

    A UUID is its 16 bytes. *)
Definition uuid : Type := string.

Definition hex_nibble (n : nat) : ascii :=
  ascii_of_nat (if (n <? 10)%nat then 48 + n else 87 + n).

Definition nat_nibble (a : ascii) : nat :=
  let n := nat_of_ascii a in if (n <? 58)%nat then n - 48 else n - 87.

(** [uuid.hex]. *)
Fixpoint hex (s : string) : string :=
  match s with
  | EmptyString => EmptyString
  | String a s' =>
      let n := nat_of_ascii a in
      String (hex_nibble (n / 16)) (String (hex_nibble (n mod 16)) (hex s'))
  end.

Fixpoint unhex (s : string) : string :=
  match s with
  | String a (String b s') => String (ascii_of_nat (16 * nat_nibble a + nat_nibble b)) (unhex s')
  | _ => EmptyString
  end.

(** [str(uuid)]: the hexadecimal digits in groups. *)
Definition uuid_str (u : uuid) : string :=
  let h := hex u in
  substring 0 8 h +:+ "-" +:+ substring 8 4 h +:+ "-" +:+ substring 12 4 h +:+ "-"
  +:+ substring 16 4 h +:+ "-" +:+ substring 20 12 h.

(** ** Characters of a string *)

Lemma string_app_cons a s t : String a s +:+ t = String a (s +:+ t).
Proof. done. Qed.

Lemma all_chars_app P s t : all_chars P (s +:+ t) = all_chars P s && all_chars P t.
Proof. induction s as [|a s IH]; [done|]. rewrite string_app_cons. cbn [all_chars]. by rewrite IH, andb_assoc. Qed.

Lemma all_chars_impl (P Q : ascii -> bool) s :
  (forall a, P a = true -> Q a = true) -> all_chars P s = true -> all_chars Q s = true.
Proof.
  intros H. induction s as [|a s IH]; [done|]. cbn. rewrite !andb_true_iff. intros [? ?]; auto.
Qed.

Lemma uint_digits d : all_chars is_digit (NilEmpty.string_of_uint d) = true.
Proof. induction d; [done|..]; exact IHd. Qed.

Lemma str_of_nat_digits n : all_chars is_digit (str_of_nat n) = true.
Proof. apply uint_digits. Qed.

Lemma int_of_str_of_nat n : int_of_digits (str_of_nat n) = Some n.
Proof.
  unfold int_of_digits, str_of_nat. rewrite NilEmpty.usu. cbn.
  by rewrite Unsigned.of_to, Nat2N.id.
Qed.

Lemma str_of_nat_inj n m : str_of_nat n = str_of_nat m -> n = m.
Proof. intros H. apply (f_equal int_of_digits) in H. rewrite !int_of_str_of_nat in H. congruence. Qed.

Lemma str_of_nat_nonempty n : str_of_nat n <> "".
Proof.
  intros H. pose proof (int_of_str_of_nat n) as Hn. rewrite H in Hn. injection Hn as <-. done.
Qed.

Lemma isdigit_str_of_nat n : isdigit (str_of_nat n) = true.
Proof.
  unfold isdigit. rewrite str_of_nat_digits, andb_true_r. apply negb_true_iff, String.eqb_neq.
  apply str_of_nat_nonempty.
Qed.

Lemma str_of_int_inj z z' : str_of_int z = str_of_int z' -> z = z'.
Proof.
  unfold str_of_int. intros H. apply (f_equal NilEmpty.int_of_string) in H.
  rewrite !NilEmpty.isi in H. injection H as H.
  apply (f_equal Z.of_int) in H. by rewrite !DecimalZ.of_to in H.
Qed.

(** ** Hexadecimal digits *)

Lemma unhex_hex s : unhex (hex s) = s.
Proof.
  induction s as [|a s IH]; [done|]. cbn [hex unhex]. rewrite IH. f_equal.
  destruct a as [[] [] [] [] [] [] [] []]; reflexivity.
Qed.

Lemma hex_inj s t : hex s = hex t -> s = t.
Proof. intros H. by rewrite <- (unhex_hex s), <- (unhex_hex t), H. Qed.

Definition is_hex (a : ascii) : bool :=
  let n := nat_of_ascii a in (((48 <=? n) && (n <=? 57)) || ((97 <=? n) && (n <=? 102)))%nat.

Lemma hex_digits s : all_chars is_hex (hex s) = true.
Proof.
  induction s as [|a s IH]; [done|]. cbn [hex all_chars]. rewrite IH, !andb_true_r.
  destruct a as [[] [] [] [] [] [] [] []]; reflexivity.
Qed.

(** ** [rpartition] *)

Lemma strip_prefix_app p t : strip_prefix p (p +:+ t) = Some t.
Proof. induction p as [|a p IH]; [by destruct t|]. rewrite string_app_cons. cbn. by rewrite Ascii.eqb_refl. Qed.

Lemma strip_prefix_Some p s t : strip_prefix p s = Some t -> s = p +:+ t.
Proof.
  revert s. induction p as [|a p IH]; intros s; [destruct s; by intros [= <-]|].
  destruct s as [|b s]; [done|]. cbn. destruct (Ascii.eqb_spec a b) as [->|]; [|done].
  intros Ht%IH. by subst s.
Qed.

Lemma rpartition_None c sep s :
  all_chars (fun a => negb (Ascii.eqb a c)) s = true -> rpartition (String c sep) s = None.
Proof.
  induction s as [|a s IH]; [done|]. cbn [all_chars]. intros [Ha Hs]%andb_true_iff.
  cbn [rpartition]. rewrite IH by done. cbn [strip_prefix].
  rewrite Ascii.eqb_sym. apply negb_true_iff in Ha. by rewrite Ha.
Qed.

(** The separator's first character does not come back after it. *)
Lemma rpartition_last c sep h t :
  all_chars (fun a => negb (Ascii.eqb a c)) (sep +:+ t) = true ->
  rpartition (String c sep) (h +:+ String c sep +:+ t) = Some (h, t).
Proof.
  intros Hn. induction h as [|a h IH].
  - change ("" +:+ String c sep +:+ t) with (String c (sep +:+ t)). cbn [rpartition].
    rewrite rpartition_None by done.
    change (String c (sep +:+ t)) with (String c sep +:+ t). by rewrite strip_prefix_app.
  - change (String a h +:+ String c sep +:+ t) with (String a (h +:+ String c sep +:+ t)).
    cbn [rpartition]. by rewrite IH.
Qed.

Lemma rpartition_Some sep s h t : rpartition sep s = Some (h, t) -> s = h +:+ sep +:+ t.
Proof.
  revert h. induction s as [|a s IH]; intros h; [done|]. cbn [rpartition].
  destruct (rpartition sep s) as [[h' t']|] eqn:E.
  - intros [= <- ->]. rewrite (IH h' eq_refl). done.
  - destruct (strip_prefix sep (String a s)) as [t'|] eqn:Et; [|done]. intros [= <- ->].
    by apply strip_prefix_Some in Et.
Qed.

(** ** Appending *)

Lemma string_append_assoc (s t u : string) : (s +:+ t) +:+ u = s +:+ (t +:+ u).
Proof. induction s as [|a s IH]; [done|]. by rewrite !string_app_cons, IH. Qed.

Lemma string_append_inj_l (s t u : string) : s +:+ t = s +:+ u -> t = u.
Proof. induction s as [|a s IH]; [done|]. rewrite !string_app_cons. intros [= H]. auto. Qed.

(** ** Order *)

Lemma string_ltb_le a b : if string_ltb a b then String.le a b else String.le b a.
Proof.
  unfold string_ltb, String.le, String.leb. rewrite (String.compare_antisym b a).
  by destruct (String.compare a b).
Qed.

Lemma string_ltb_ge a b : string_ltb b a = false <-> String.le a b.
Proof.
  pose proof (string_ltb_le b a) as H. destruct (string_ltb b a) eqn:E; [|by split].
  split; [done|]. intros H2. assert (a = b) as -> by (by apply (anti_symm String.le)). unfold string_ltb in E.
  pose proof (String.compare_antisym b b) as Hc. by destruct (String.compare b b).
Qed.
