(* ===== verification/StateErr.v ===== *)
(** * Mutable state and exceptions

    A method that changes an object and may raise: a state monad whose state
    survives an exception, as the attributes of a Python object do, with the
    weakest preconditions its invariants are proved by. *)

From S2P Require Import Prelude.

Definition SE (S A : Type) : Type := S -> S * res A.

#[export] Instance se_ret {S} : MRet (SE S) := fun A a s => (s, Ok a).
#[export] Instance se_bind {S} : MBind (SE S) := fun A B f m s =>
  match m s with
  | (s', Ok a) => f a s'
  | (s', Raise e) => (s', Raise e)
  end.

Definition get {S} : SE S S := fun s => (s, Ok s).
Definition modify {S} (f : S -> S) : SE S unit := fun s => (f s, Ok tt).
Definition lift {S A} (r : res A) : SE S A := fun s => (s, r).

(** [if b: raise e]. *)
Definition guard {S} (b : bool) (e : exc) : SE S unit := lift (raise_if b e).

(** [for x in l: body(x)]. *)
Fixpoint for_in {S A} (l : list A) (body : A -> SE S unit) : SE S unit :=
  match l with
  | [] => mret tt
  | x :: l' => _ ← body x; for_in l' body
  end.

(** [[f(x) for x in l]] for an [f] with effects. *)
Fixpoint map_in {S A B} (l : list A) (f : A -> SE S B) : SE S (list B) :=
  match l with
  | [] => mret []
  | x :: l' => y ← f x; ys ← map_in l' f; mret (y :: ys)
  end.

(** ** Runs that end normally *)

Lemma se_bind_Ok {S A B} (m : SE S A) (f : A -> SE S B) s s' b :
  (m ≫= f) s = (s', Ok b) <-> exists s1 a, m s = (s1, Ok a) /\ f a s1 = (s', Ok b).
Proof.
  unfold mbind, se_bind. destruct (m s) as [s1 [a|e]]; split; [by eauto|by intros (? & ? & [= -> ->] & ?)|done|].
  by intros (? & ? & ? & ?).
Qed.
Lemma se_ret_Ok {S A} (a b : A) (s s' : S) : (mret a : SE S A) s = (s', Ok b) <-> s' = s /\ b = a.
Proof. unfold mret, se_ret. split; [by intros [= -> ->]|by intros [-> ->]]. Qed.
Lemma lift_Ok {S A} (r : res A) (s s' : S) a : lift r s = (s', Ok a) <-> s' = s /\ r = Ok a.
Proof. unfold lift. split; [by intros [= -> ->]|by intros [-> ->]]. Qed.
Lemma guard_Ok {S} b e (s s' : S) u : guard b e s = (s', Ok u) <-> s' = s /\ b = false.
Proof. unfold guard. by rewrite lift_Ok, raise_if_Ok. Qed.

(** ** Weakest preconditions *)

Definition wp {S A} (m : SE S A) (Q : S -> res A -> Prop) (s : S) : Prop := Q (m s).1 (m s).2.

(** What an exception leads to. *)
Definition on_ok {S A} (k : S -> A -> Prop) (Q : S -> exc -> Prop) : S -> res A -> Prop :=
  fun s r => match r with Ok a => k s a | Raise e => Q s e end.

Lemma wp_mono {S A} (m : SE S A) (Q Q' : S -> res A -> Prop) s :
  wp m Q s -> (forall s' r, Q s' r -> Q' s' r) -> wp m Q' s.
Proof. unfold wp. auto. Qed.

Lemma wp_ret {S A} (a : A) (Q : S -> res A -> Prop) s : wp (mret a) Q s <-> Q s (Ok a).
Proof. done. Qed.

Lemma wp_bind {S A B} (m : SE S A) (k : A -> SE S B) (Q : S -> res B -> Prop) s :
  wp (m ≫= k) Q s <->
  wp m (fun s' r => match r with Ok a => wp (k a) Q s' | Raise e => Q s' (Raise e) end) s.
Proof. unfold wp, mbind, se_bind. destruct (m s) as [s' [a|e]]; done. Qed.

Lemma wp_get {S} (Q : S -> res S -> Prop) s : wp get Q s <-> Q s (Ok s).
Proof. done. Qed.

Lemma wp_modify {S} f (Q : S -> res unit -> Prop) s : wp (modify f) Q s <-> Q (f s) (Ok tt).
Proof. done. Qed.

Lemma wp_lift {S A} (r : res A) (Q : S -> res A -> Prop) s : wp (lift r) Q s <-> Q s r.
Proof. done. Qed.

Lemma wp_guard {S} b e (Q : S -> res unit -> Prop) s :
  wp (guard b e) Q s <-> (b = true -> Q s (Raise e)) /\ (b = false -> Q s (Ok tt)).
Proof. unfold wp, guard, lift. destruct b; cbn; naive_solver. Qed.

(** A loop whose body keeps an invariant, also when it raises. *)
Lemma wp_for {S A} (I : S -> Prop) (l : list A) (body : A -> SE S unit) s :
  I s -> (forall x s, x ∈ l -> I s -> wp (body x) (fun s' _ => I s') s) ->
  wp (for_in l body) (fun s' _ => I s') s.
Proof.
  revert s. induction l as [|x l IH]; intros s Hs Hb; [done|]. cbn [for_in]. apply wp_bind.
  eapply wp_mono; [by apply Hb; [apply list_elem_of_here|]|]. intros s' [[]|e] Hs'; [|done].
  apply IH; [done|]. intros y s2 Hy. apply Hb. by apply list_elem_of_further.
Qed.

Lemma wp_map {S A B} (I : S -> Prop) (l : list A) (body : A -> SE S B) s :
  I s -> (forall x s, x ∈ l -> I s -> wp (body x) (fun s' _ => I s') s) ->
  wp (map_in l body) (fun s' _ => I s') s.
Proof.
  revert s. induction l as [|x l IH]; intros s Hs Hb; [done|]. cbn [map_in]. apply wp_bind.
  eapply wp_mono; [by apply Hb; [apply list_elem_of_here|]|]. intros s' [y|e] Hs'; [|done].
  apply wp_bind. eapply wp_mono.
  - apply IH; [done|]. intros z s2 Hz. apply Hb. by apply list_elem_of_further.
  - by intros s2 [ys|e] Hs2.
Qed.

(** A loop that never raises, by an invariant on how far it got. *)
Lemma wp_for_seq {S} (J : nat -> S -> Prop) n (body : nat -> SE S unit) s :
  J 0%nat s ->
  (forall k s, (k < n)%nat -> J k s -> wp (body k) (fun s' r => r = Ok tt /\ J (1 + k)%nat s') s) ->
  wp (for_in (seq 0 n) body) (fun s' r => r = Ok tt /\ J n s') s.
Proof.
  intros H0 Hb. assert (forall m k s, (k + m = n)%nat -> J k s ->
    wp (for_in (seq k m) body) (fun s' r => r = Ok tt /\ J n s') s) as H; [|by apply H].
  induction m as [|m IH]; intros k s' Hk Hs; cbn [seq for_in].
  - apply wp_ret. rewrite Nat.add_0_r in Hk. by subst k.
  - apply wp_bind. eapply wp_mono; [apply Hb; [lia|done]|]. intros s2 r [-> Hs2].
    apply (IH (1 + k)%nat); [lia|done].
Qed.

(** A loop is a comprehension whose results are dropped. *)
Lemma for_in_map {S A} (l : list A) (body : A -> SE S unit) s :
  for_in l body s = ((map_in l body s).1, (fun _ => tt) <$> (map_in l body s).2).
Proof.
  revert s. induction l as [|x l IH]; intros s; [done|]. cbn [for_in map_in].
  unfold mbind, se_bind. destruct (body x s) as [s' [[]|e]]; [|done]. rewrite IH.
  by destruct (map_in l body s') as [s2 [ys|e]].
Qed.

Lemma wp_for_map {S A} (l : list A) (body : A -> SE S unit) (Q : S -> res unit -> Prop) s :
  wp (for_in l body) Q s <-> wp (map_in l body) (fun s' r => Q s' ((fun _ => tt) <$> r)) s.
Proof. unfold wp. by rewrite for_in_map. Qed.

(** A comprehension whose body only reads. *)
Lemma wp_map_read {S A B} (R : A -> B -> Prop) (l : list A) (body : A -> SE S B) s :
  (forall x, x ∈ l -> wp (body x) (fun s' r => s' = s /\ forall y, r = Ok y -> R x y) s) ->
  wp (map_in l body) (fun s' r => s' = s /\ forall ys, r = Ok ys -> Forall2 R l ys) s.
Proof.
  induction l as [|x l IH]; intros Hb; cbn [map_in].
  - apply wp_ret. split; [done|]. intros ys [= <-]. constructor.
  - apply wp_bind. eapply wp_mono; [apply Hb, list_elem_of_here|]. intros s' [y|e] [-> Hy]; [|done].
    apply wp_bind. eapply wp_mono; [apply IH; intros z Hz; apply Hb; by apply list_elem_of_further|].
    intros s' [ys|e] [-> Hys]; [|done]. apply wp_ret. split; [done|].
    intros ? [= <-]. constructor; auto.
Qed.

Lemma for_in_fmap {S A B} (h : A -> B) (l : list A) (body : B -> SE S unit) s :
  for_in (h <$> l) body s = for_in l (fun x => body (h x)) s.
Proof.
  revert s. induction l as [|x l IH]; intros s; [done|]. cbn. unfold mbind, se_bind.
  destruct (body (h x) s) as [s' [[]|e]]; [apply IH|done].
Qed.

(** A loop over a list, by position. *)
Lemma for_in_lookup {S A} (l : list A) (body : A -> SE S unit) s :
  for_in l body s =
  for_in (seq 0 (length l)) (fun i => match l !! i with Some x => body x | None => mret tt end) s.
Proof.
  revert s. induction l as [|x l IH]; intros s; [done|]. cbn. unfold mbind, se_bind.
  destruct (body x s) as [s' [[]|e]]; [|done]. by rewrite IH, <- fmap_S_seq, for_in_fmap.
Qed.

(** A loop without exceptions folds its body's effect. *)
Lemma for_in_fold {S A} (f : A -> S -> S) (l : list A) (s : S) :
  for_in l (fun x => modify (f x)) s = (foldl (fun s x => f x s) s l, Ok tt).
Proof. revert s. induction l as [|x l IH]; intros s; [done|]. exact (IH (f x s)). Qed.

(** Reduce the weakest precondition of straight-line code. *)
Ltac wp_simpl :=
  repeat match goal with
  | |- wp (mbind _ _) _ _ => apply wp_bind
  | |- wp (mret _) _ _ => apply wp_ret
  | |- wp get _ _ => apply wp_get
  | |- wp (modify _) _ _ => apply wp_modify
  | |- wp (lift _) _ _ => apply wp_lift
  | |- wp (guard _ _) _ _ => apply wp_guard; split; intro
  end.
