(* ===== verification/RoutePlan.v ===== *)
(** * Deferred routed-expert assembly plans

    Models [src/nemo_rl/experience/route_plan.py]: the plan, its validation and
    its strict codec to primitive tag values.  The JSON size used for
    observability is not modelled. *)

From S2P Require Import Prelude PyVal.

Definition ROUTE_PLAN_SCHEMA_VERSION : Z := 3.
Definition EXTRAS_DIGEST_VERSION : Z := 1.
Definition SHA256_HEX_LENGTH : nat := 64.

Record RouteSpan := mkSpan {
  staging_key : string;
  carry_len : Z;
  generation_len : Z;
  staged_route_len : Z;
  extras_digest_version : Z;
  extras_digest : string;
  boundary_rows : Z }.

Record RouteAssemblyPlan := mkPlan {
  schema_version : Z;
  staging_partition : string;
  spans : list RouteSpan;
  cleanup_staging_keys : list string;
  expected_token_length : Z }.

(** ** Checks on dynamic values *)

Definition require_exact_keys (d : list (PyVal * PyVal)) (expected : list string) : res unit :=
  raise_if (negb (exact_keys d expected)) ValueError.

(** [type(value) is int]: a [bool] is refused. *)
Definition require_int (v : PyVal) : res Z :=
  match v with VInt z => Ok z | _ => Raise TypeError end.

Definition require_nonnegative_int (v : PyVal) : res Z :=
  z ← require_int v; _ ← raise_if (z <? 0) ValueError; Ok z.

Definition require_string (v : PyVal) : res string :=
  match v with
  | VStr s => if decide (s = "") then Raise TypeError else Ok s
  | _ => Raise TypeError
  end.

(** ** [_validate_plan] *)

Definition hex_digit (a : Ascii.ascii) : bool :=
  let n := Ascii.nat_of_ascii a in
  (((48 <=? n) && (n <=? 57)) || ((97 <=? n) && (n <=? 102)))%nat.

Fixpoint all_hex (s : string) : bool :=
  match s with
  | EmptyString => true
  | String a s' => hex_digit a && all_hex s'
  end.

Definition validate_span (cleanup : list string) (index : nat) (span : RouteSpan) : res unit :=
  _ ← require_string (VStr (staging_key span));
  _ ← require_nonnegative_int (VInt (carry_len span));
  _ ← require_nonnegative_int (VInt (generation_len span));
  _ ← require_nonnegative_int (VInt (staged_route_len span));
  _ ← require_int (VInt (boundary_rows span));
  _ ← raise_if (negb ((boundary_rows span =? 0) || (boundary_rows span =? 1))) ValueError;
  _ ← raise_if (negb (boundary_rows span =? 0)
                && ((index =? 0)%nat || (staged_route_len span =? 0))) ValueError;
  _ ← raise_if (negb (extras_digest_version span =? EXTRAS_DIGEST_VERSION)) ValueError;
  _ ← raise_if (negb (String.length (extras_digest span) =? SHA256_HEX_LENGTH)%nat
                || negb (all_hex (extras_digest span))) ValueError;
  raise_if (negb (bool_decide (staging_key span ∈ cleanup))) ValueError.

Definition contribution (spans : list RouteSpan) : Z :=
  zsum ((fun s => carry_len s + generation_len s) <$> spans).

Definition validate_plan (plan : RouteAssemblyPlan) : res unit :=
  _ ← raise_if (negb (schema_version plan =? ROUTE_PLAN_SCHEMA_VERSION)) ValueError;
  _ ← require_string (VStr (staging_partition plan));
  _ ← require_nonnegative_int (VInt (expected_token_length plan));
  _ ← raise_if (negb (bool_decide (NoDup (cleanup_staging_keys plan)))) ValueError;
  _ ← for_each (fun k => _ ← require_string (VStr k); Ok tt) (cleanup_staging_keys plan);
  _ ← for_each (fun '(i, s) => validate_span (cleanup_staging_keys plan) i s)
        (enumerate (spans plan));
  match spans plan with
  | [] => Ok tt
  | _ => raise_if (negb (contribution (spans plan) =? expected_token_length plan)) ValueError
  end.

(** ** Codec *)

Definition encode_span (span : RouteSpan) : PyVal :=
  str_dict [("staging_key", VStr (staging_key span));
            ("carry_len", VInt (carry_len span));
            ("generation_len", VInt (generation_len span));
            ("staged_route_len", VInt (staged_route_len span));
            ("extras_digest_version", VInt (extras_digest_version span));
            ("extras_digest", VStr (extras_digest span));
            ("boundary_rows", VInt (boundary_rows span))].

Definition encode_route_plan (plan : RouteAssemblyPlan) : res PyVal :=
  _ ← validate_plan plan;
  Ok (str_dict [("schema_version", VInt (schema_version plan));
                ("staging_partition", VStr (staging_partition plan));
                ("spans", VList (encode_span <$> spans plan));
                ("cleanup_staging_keys", VList (VStr <$> cleanup_staging_keys plan));
                ("expected_token_length", VInt (expected_token_length plan))]).

Definition plan_keys : list string :=
  ["schema_version"; "staging_partition"; "spans"; "cleanup_staging_keys";
   "expected_token_length"].

Definition span_keys : list string :=
  ["staging_key"; "carry_len"; "generation_len"; "staged_route_len";
   "extras_digest_version"; "extras_digest"; "boundary_rows"].

Definition decode_span (v : PyVal) : res RouteSpan :=
  match v with
  | VDict d =>
      _ ← require_exact_keys d span_keys;
      k ← (dict_index "staging_key" d ≫= require_string);
      c ← (dict_index "carry_len" d ≫= require_nonnegative_int);
      g ← (dict_index "generation_len" d ≫= require_nonnegative_int);
      r ← (dict_index "staged_route_len" d ≫= require_nonnegative_int);
      ev ← (dict_index "extras_digest_version" d ≫= require_int);
      ed ← (dict_index "extras_digest" d ≫= require_string);
      b ← (dict_index "boundary_rows" d ≫= require_int);
      Ok (mkSpan k c g r ev ed b)
  | _ => Raise TypeError
  end.

Definition decode_route_plan (v : PyVal) : res RouteAssemblyPlan :=
  match v with
  | VDict d =>
      _ ← require_exact_keys d plan_keys;
      sv ← dict_index "schema_version" d;
      _ ← raise_if (negb (eq_int sv ROUTE_PLAN_SCHEMA_VERSION)) ValueError;
      spans_v ← dict_index "spans" d;
      spans ← match spans_v with
              | VList l => traverse decode_span l
              | _ => Raise TypeError
              end;
      cleanup_v ← dict_index "cleanup_staging_keys" d;
      cleanup ← match cleanup_v with
                | VList l => traverse require_string l
                | _ => Raise TypeError
                end;
      ver ← require_int sv;
      part ← (dict_index "staging_partition" d ≫= require_string);
      len ← (dict_index "expected_token_length" d ≫= require_nonnegative_int);
      let plan := mkPlan ver part spans cleanup len in
      _ ← validate_plan plan;
      Ok plan
  | _ => Raise TypeError
  end.

(** ** What validation establishes *)

Record valid_span (cleanup : list string) (i : nat) (s : RouteSpan) : Prop := {
  vs_key : staging_key s <> "" /\ staging_key s ∈ cleanup;
  vs_lens : 0 <= carry_len s /\ 0 <= generation_len s /\ 0 <= staged_route_len s;
  vs_boundary : boundary_rows s = 0 \/
    (boundary_rows s = 1 /\ i <> 0%nat /\ staged_route_len s <> 0);
  vs_version : extras_digest_version s = EXTRAS_DIGEST_VERSION;
  vs_digest : String.length (extras_digest s) = SHA256_HEX_LENGTH /\
    all_hex (extras_digest s) = true }.

Record valid_plan (p : RouteAssemblyPlan) : Prop := {
  vp_version : schema_version p = ROUTE_PLAN_SCHEMA_VERSION;
  vp_partition : staging_partition p <> "";
  vp_length : 0 <= expected_token_length p;
  vp_cleanup : NoDup (cleanup_staging_keys p) /\ Forall (fun k => k <> "") (cleanup_staging_keys p);
  vp_spans : forall i s, spans p !! i = Some s -> valid_span (cleanup_staging_keys p) i s;
  vp_total : spans p = [] \/ contribution (spans p) = expected_token_length p }.

Lemma require_string_Ok v s : require_string v = Ok s <-> v = VStr s /\ s <> "".
Proof.
  destruct v; cbn; try (by split; [|intros [? ?]]). destruct (decide (s0 = "")) as [->|Hne].
  - split; [done|]. by intros [[= <-] ?].
  - split; [by intros [= <-]|]. by intros [[= <-] ?].
Qed.

Lemma require_nonneg_Ok v z : require_nonnegative_int v = Ok z <-> v = VInt z /\ 0 <= z.
Proof.
  destruct v; cbn; try (by split; [|intros [? ?]]). destruct (Z.ltb_spec z0 0); cbn.
  - split; [done|]. intros [[= <-] ?]. lia.
  - split; [intros [= <-]; auto|]. by intros [[= <-] ?].
Qed.

(** A check followed by the rest of a function. *)
Lemma raise_bind {B} b e (k : res B) r :
  (raise_if b e ≫= fun _ => k) = Ok r <-> b = false /\ k = Ok r.
Proof. destruct b; cbn; split; [done|by intros []|done|by intros []]. Qed.

Lemma str_bind {B} s (k : res B) r :
  (require_string (VStr s) ≫= fun _ => k) = Ok r <-> s <> "" /\ k = Ok r.
Proof.
  cbn. destruct (decide (s = "")); cbn; split; [done|by intros []|done|by intros []].
Qed.

Lemma nonneg_bind {B} z (k : res B) r :
  (require_nonnegative_int (VInt z) ≫= fun _ => k) = Ok r <-> 0 <= z /\ k = Ok r.
Proof.
  cbn. destruct (Z.ltb_spec z 0); cbn; split; [done|intros []; lia|done|by intros []].
Qed.

Lemma validate_span_Ok cleanup i s :
  validate_span cleanup i s = Ok tt <-> valid_span cleanup i s.
Proof.
  unfold validate_span. rewrite str_bind, !nonneg_bind.
  change (require_int (VInt (boundary_rows s))) with (Ok (boundary_rows s)).
  cbn [mbind res_bind]. rewrite !raise_bind, raise_if_Ok.
  rewrite !negb_false_iff, !andb_false_iff, !orb_false_iff, orb_true_iff,
    !negb_false_iff, !Z.eqb_eq, !Z.eqb_neq, Nat.eqb_eq, Nat.eqb_neq, bool_decide_eq_true.
  split.
  - intros (? & ? & ? & ? & Hb & Hb2 & Hv & [Hd1 Hd2] & Hin). constructor; try done.
    destruct Hb as [|Hb]; [by left|]. right. split; [done|]. destruct Hb2; [lia|tauto].
  - intros [[H1 H2] (H3 & H4 & H5) H6 H7 [H8 H9]]. split_and!; try done; tauto.
Qed.

Lemma validate_plan_Ok p : validate_plan p = Ok tt <-> valid_plan p.
Proof.
  unfold validate_plan. rewrite raise_bind, str_bind, nonneg_bind, raise_bind.
  rewrite !negb_false_iff, Z.eqb_eq, bool_decide_eq_true. split.
  - intros (H1 & H2 & H3 & H4 & H). apply bind_Ok in H as ([] & H5 & H).
    apply bind_Ok in H as ([] & H6 & H). rewrite for_each_Ok in H5. rewrite for_each_Ok in H6.
    constructor; try done.
    + split; [done|]. eapply Forall_impl; [exact H5|]. cbn. intros k Hk.
      by apply str_bind in Hk as [? _].
    + intros i s Hi. apply elem_of_enumerate in Hi. rewrite Forall_forall in H6.
      apply validate_span_Ok. by apply (H6 (i, s)).
    + destruct (spans p); [by left|right].
      by apply raise_if_Ok, negb_false_iff, Z.eqb_eq in H.
  - intros [H1 H2 H3 [H4 H5] H6 H7]. split_and!; try done.
    apply bind_Ok. exists tt. split.
    { apply for_each_Ok. eapply Forall_impl; [exact H5|]. cbn. intros k Hk. by apply str_bind. }
    apply bind_Ok. exists tt. split.
    { apply for_each_Ok, Forall_forall. intros [i s] Hi%elem_of_enumerate.
      by apply validate_span_Ok, H6. }
    destruct H7 as [->|H7]; [done|]. destruct (spans p); [done|].
    by apply raise_if_Ok, negb_false_iff, Z.eqb_eq.
Qed.

(** A plan that is not valid is refused with one of two errors. *)
Lemma validate_plan_raises p : raises_only [TypeError; ValueError] (validate_plan p).
Proof.
  assert (Hs : forall s, raises_only [TypeError; ValueError] (require_string (VStr s))).
  { intros s. cbn. destruct (decide (s = "")); raises_step. }
  assert (Hn : forall z, raises_only [TypeError; ValueError] (require_nonnegative_int (VInt z))).
  { intros z. unfold require_nonnegative_int. cbn [require_int]. repeat raises_step. }
  unfold validate_plan. repeat (raises_step || apply Hs || apply Hn).
  - apply for_each_raises. intros k _. repeat (raises_step || apply Hs).
  - apply for_each_raises. intros [i s] _. unfold validate_span. repeat (raises_step || apply Hs || apply Hn || (apply raises_Ok with (a := boundary_rows s))).
  - destruct (spans p); raises_step.
Qed.

(** ** Round trip *)

Lemma decode_encode_span cleanup i s :
  valid_span cleanup i s -> decode_span (encode_span s) = Ok s.
Proof.
  intros [[H1 _] (H3 & H4 & H5) _ _ [H8 _]].
  assert (extras_digest s <> "") as Hd by (intros E; by rewrite E in H8).
  unfold decode_span, encode_span, str_dict.
  change (require_exact_keys _ span_keys) with (Ok tt). cbn [mbind res_bind].
  destruct s as [k c g r ev ed b]. cbn in *.
  repeat (rewrite decide_False by done; cbn).
  repeat (rewrite (proj2 (Z.ltb_ge _ _)) by done; cbn). done.
Qed.

Lemma traverse_fmap_Ok {A B} (f : B -> res A) (g : A -> B) l :
  Forall (fun x => f (g x) = Ok x) l -> traverse f (g <$> l) = Ok l.
Proof. intros H. apply traverse_Ok, Forall2_fmap_l. by apply Forall_Forall2_diag. Qed.

Lemma decode_encode_valid p :
  valid_plan p -> exists v, encode_route_plan p = Ok v /\ decode_route_plan v = Ok p.
Proof.
  intros Hv. unfold encode_route_plan. rewrite (proj2 (validate_plan_Ok p) Hv).
  cbn [mbind res_bind]. eexists. split; [done|].
  unfold decode_route_plan, str_dict.
  change (require_exact_keys _ plan_keys) with (Ok tt). cbn [mbind res_bind].
  destruct Hv as [H1 H2 H3 [H4 H5] H6 H7] eqn:E. clear E.
  cbn -[Z.eqb ROUTE_PLAN_SCHEMA_VERSION validate_plan encode_span decode_span traverse fmap].
  rewrite (proj2 (Z.eqb_eq _ _) H1). cbn -[validate_plan encode_span decode_span traverse fmap].
  rewrite (traverse_fmap_Ok decode_span encode_span).
  2: { apply Forall_lookup_2. intros i s Hi. by eapply decode_encode_span, H6. }
  cbn -[validate_plan traverse fmap]. rewrite (traverse_fmap_Ok require_string VStr).
  2: { eapply Forall_impl; [exact H5|]. cbn. intros k Hk. by rewrite decide_False. }
  cbn -[validate_plan]. rewrite decide_False by done. cbn -[validate_plan].
  rewrite (proj2 (Z.ltb_ge _ _)) by done. cbn -[validate_plan].
  destruct p as [v part sp cl len]. cbn [schema_version staging_partition spans
    cleanup_staging_keys expected_token_length] in *.
  rewrite (proj2 (validate_plan_Ok _)) by by constructor. done.
Qed.

Lemma decode_valid v p : decode_route_plan v = Ok p -> valid_plan p.
Proof.
  unfold decode_route_plan. destruct v; try done. intros H. inv_res.
  apply validate_plan_Ok.
  match goal with H : validate_plan _ = Ok ?u |- _ => by destruct u end.
Qed.

(** ** Properties *)

(** Encoding and decoding are inverse: a plan that can be encoded decodes
    to itself, and whatever [decode_route_plan] accepts is a plan that passes
    validation and survives another round trip. *)
Theorem route_plan_round_trip p :
  (forall v, encode_route_plan p = Ok v -> decode_route_plan v = Ok p) /\
  (forall v, decode_route_plan v = Ok p ->
     validate_plan p = Ok tt /\
     exists v', encode_route_plan p = Ok v' /\ decode_route_plan v' = Ok p).
Proof.
  split.
  - intros v Hv. pose proof Hv as Hv'. unfold encode_route_plan in Hv'.
    apply bind_Ok in Hv' as ([] & Hval%validate_plan_Ok & _).
    destruct (decode_encode_valid p Hval) as (v' & Hv' & Hd). congruence.
  - intros v Hd%decode_valid. split; [by apply validate_plan_Ok|]. by apply decode_encode_valid.
Qed.

(** A decoded plan owns the staging rows it reads: its spans name only keys
    listed for cleanup, no key is listed twice, the first span never claims a
    boundary row, and the spans contribute exactly the expected tokens. *)
Theorem decoded_plan_is_consistent v p :
  decode_route_plan v = Ok p ->
  NoDup (cleanup_staging_keys p) /\
  Forall (fun s => staging_key s ∈ cleanup_staging_keys p /\
            0 <= carry_len s /\ 0 <= generation_len s /\
            (0 < boundary_rows s -> 0 < staged_route_len s)) (spans p) /\
  (forall s, head (spans p) = Some s -> boundary_rows s = 0) /\
  (spans p <> [] -> zsum ((fun s => carry_len s + generation_len s) <$> spans p) =
                     expected_token_length p).
Proof.
  intros [H1 H2 H3 [H4 H5] H6 H7]%decode_valid. split_and!; [done| | |].
  - apply Forall_lookup_2. intros i s Hi. destruct (H6 i s Hi) as [[? ?] (? & ? & ?) Hb _ _].
    split_and!; [done..|]. lia.
  - intros s Hs. destruct (spans p) as [|s' l] eqn:E; [done|]. injection Hs as ->.
    destruct (H6 0%nat s eq_refl) as [_ _ Hb _ _]. destruct Hb as [|(_ & ? & _)]; done.
  - intros Hne. by destruct H7.
Qed.

(** ** Witnesses *)

Definition sample_plan : RouteAssemblyPlan :=
  mkPlan 3 "staging"
    [mkSpan "a" 0 5 5 1 "0123456789abcdef0123456789abcdef0123456789abcdef0123456789abcdef" 0;
     mkSpan "b" 2 3 6 1 "0123456789abcdef0123456789abcdef0123456789abcdef0123456789abcdef" 1]
    ["a"; "b"] 10.

Lemma route_plan_round_trip_witness :
  exists v, encode_route_plan sample_plan = Ok v /\ decode_route_plan v = Ok sample_plan.
Proof.
  eexists. split; [vm_compute; reflexivity|].
  apply (proj1 (route_plan_round_trip sample_plan)). vm_compute. reflexivity.
Defined.

Definition sample_value : PyVal :=
  match encode_route_plan sample_plan with Ok v => v | Raise _ => VNone end.

Lemma decoded_plan_is_consistent_witness :
  decode_route_plan sample_value = Ok sample_plan /\ NoDup (cleanup_staging_keys sample_plan).
Proof.
  split; [vm_compute; reflexivity|].
  apply (decoded_plan_is_consistent sample_value). vm_compute. reflexivity.
Defined.
