(* ===== verification/DataPlaneMeta.v ===== *)
(** * Batch metadata of the data plane

    Models [KVBatchMeta] of [src/nemo_rl/data_plane/interfaces.py]: the sample
    ids of a batch with their optional lengths and tags, and the transforms
    that need no I/O.  Row indices are natural numbers; Python's negative
    indices are not modelled. *)

From S2P Require Import Prelude PyVal.

Definition tag := list (PyVal * PyVal).

Record KVBatchMeta := mkMeta {
  partition_id : string;
  task_name : option string;
  sample_ids : list string;
  fields : option (list string);
  sequence_lengths : option (list Z);
  extra_info : list (PyVal * PyVal);
  tags : option (list tag) }.

(** The constructor, with [__post_init__]. *)
Definition meta_init (m : KVBatchMeta) : res KVBatchMeta :=
  _ ← raise_if (match tags m with
                | Some ts => negb (length ts =? length (sample_ids m))%nat
                | None => false
                end) ValueError;
  Ok m.

Definition size (m : KVBatchMeta) : nat := length (sample_ids m).

(** [_replace]. *)
Definition replace (m : KVBatchMeta) (ids : list string) (lens : option (list Z))
    (ts : option (list tag)) : res KVBatchMeta :=
  meta_init (mkMeta (partition_id m) (task_name m) ids (fields m) lens (extra_info m) ts).

(** [[xs[i] for i in indices]]. *)
Definition gather {A} (xs : list A) (indices : list nat) : res (list A) :=
  traverse (fun i => get_index xs i) indices.

Definition gather_opt {A} (xs : option (list A)) (indices : list nat) : res (option (list A)) :=
  match xs with
  | Some l => Some <$> gather l indices
  | None => Ok None
  end.

Definition subset (indices : list nat) (m : KVBatchMeta) : res KVBatchMeta :=
  ids ← gather (sample_ids m) indices;
  lens ← gather_opt (sequence_lengths m) indices;
  ts ← gather_opt (tags m) indices;
  replace m ids lens ts.

(** [xs[start:stop]]. *)
Definition list_slice {A} (start stop : nat) (l : list A) : list A :=
  take (stop - start) (drop start l).

Definition slice (start stop : nat) (m : KVBatchMeta) : res KVBatchMeta :=
  replace m (list_slice start stop (sample_ids m))
    (list_slice start stop <$> sequence_lengths m) (list_slice start stop <$> tags m).

(** [x for m in all_m for x in (f(m) or [])] when every [f(m)] is present. *)
Definition merge_all {A} (f : KVBatchMeta -> option (list A)) (ms : list KVBatchMeta)
    : option (list A) :=
  if forallb (fun m => match f m with Some _ => true | None => false end) ms
  then Some (concat ((fun m => default [] (f m)) <$> ms)) else None.

(** [self.concat( *others )]. *)
Definition concat_meta (self : KVBatchMeta) (others : list KVBatchMeta) : res KVBatchMeta :=
  _ ← raise_if (existsb (fun o => negb (bool_decide (partition_id o = partition_id self)))
        others) ValueError;
  let all_m := self :: others in
  let merged_fields := fromkeys [] (concat ((fun m => default [] (fields m)) <$> all_m)) in
  r ← replace self (concat (sample_ids <$> all_m)) (merge_all sequence_lengths all_m)
        (merge_all tags all_m);
  Ok (mkMeta (partition_id r) (task_name r) (sample_ids r)
        (match merged_fields with [] => None | _ => Some merged_fields end)
        (sequence_lengths r) (extra_info r) (tags r)).

Definition drop_rows (indices : list nat) (m : KVBatchMeta) : res (option KVBatchMeta) :=
  match List.filter (fun i => negb (bool_decide (i ∈ indices))) (seq 0 (size m)) with
  | [] => Ok None
  | keep => Some <$> subset keep m
  end.

Definition with_fields (names : list string) (m : KVBatchMeta) : res KVBatchMeta :=
  meta_init (mkMeta (partition_id m) (task_name m) (sample_ids m)
    (Some (fromkeys [] (default [] (fields m) ++ names)))
    (sequence_lengths m) (extra_info m) (tags m)).

(** [stamp_tags]: columns are written in the order of [scalars]; a column of
    the wrong length raises after the earlier ones were written. *)
Fixpoint stamp_columns (n : nat) (scalars : list (string * list PyVal)) (ts : list tag)
    : list tag * res unit :=
  match scalars with
  | [] => (ts, Ok tt)
  | (name, values) :: rest =>
      if negb (length values =? n)%nat then (ts, Raise ValueError)
      else stamp_columns n rest (zip_with (fun t v => dict_set name v t) ts values)
  end.

Definition stamp_tags (scalars : list (string * list PyVal)) (m : KVBatchMeta)
    : KVBatchMeta * res unit :=
  let ts0 := match tags m with Some ts => ts | None => repeat [] (size m) end in
  let '(ts, r) := stamp_columns (size m) scalars ts0 in
  (mkMeta (partition_id m) (task_name m) (sample_ids m) (fields m) (sequence_lengths m)
     (extra_info m) (Some ts), r).

(** ** Rows *)

(** Lengths and tags line up with the sample ids. *)
Definition aligned (m : KVBatchMeta) : Prop :=
  (forall l, sequence_lengths m = Some l -> length l = size m) /\
  (forall l, tags m = Some l -> length l = size m).

(** Row [i]: its id, and its length and tag where the batch has them. *)
Definition row (m : KVBatchMeta) (i : nat) : option (string * option Z * option tag) :=
  id ← sample_ids m !! i;
  Some (id, sequence_lengths m ≫= (.!! i), tags m ≫= (.!! i)).

Lemma gather_Ok {A} (xs : list A) idxs ys :
  gather xs idxs = Ok ys <-> Forall2 (fun i y => xs !! i = Some y) idxs ys.
Proof.
  unfold gather. rewrite traverse_Ok. split; intros H; (eapply Forall2_impl; [exact H|]); intros i y; apply get_index_Ok.
Qed.

Lemma gather_opt_Ok {A} (xs : option (list A)) idxs r :
  gather_opt xs idxs = Ok r ->
  match r with
  | Some ys => exists l, xs = Some l /\ Forall2 (fun i y => l !! i = Some y) idxs ys
  | None => xs = None
  end.
Proof.
  destruct xs as [l|]; cbn; [|by intros [= <-]].
  intros (ys & Hg%gather_Ok & ->)%fmap_Ok. eauto.
Qed.

Lemma replace_Ok m ids lens ts m' :
  replace m ids lens ts = Ok m' ->
  m' = mkMeta (partition_id m) (task_name m) ids (fields m) lens (extra_info m) ts /\
  (forall l, ts = Some l -> length l = length ids).
Proof.
  unfold replace, meta_init. cbn. intros H. apply bind_Ok in H as ([] & Hr & [= <-]).
  apply raise_if_Ok in Hr. split; [done|]. intros l ->.
  apply negb_false_iff, Nat.eqb_eq in Hr. done.
Qed.

Lemma gather_total {A} (xs : list A) idxs :
  Forall (fun i => (i < length xs)%nat) idxs -> exists ys, gather xs idxs = Ok ys.
Proof.
  induction 1 as [|i idxs Hi _ [ys IH]]; [by exists []|].
  destruct (lookup_lt_is_Some_2 xs i Hi) as [y Hy]. exists (y :: ys).
  unfold gather in *. cbn [traverse]. rewrite (proj2 (get_index_Ok xs i y) Hy).
  cbn [mbind res_bind]. by rewrite IH.
Qed.

Lemma subset_spec idxs m m' :
  subset idxs m = Ok m' ->
  aligned m' /\ partition_id m' = partition_id m /\ size m' = length idxs /\
  (forall j i, idxs !! j = Some i -> row m' j = row m i).
Proof.
  unfold subset. intros H. apply bind_Ok in H as (ids & H1%gather_Ok & H).
  apply bind_Ok in H as (lens & H2%gather_opt_Ok & H).
  apply bind_Ok in H as (ts & H3%gather_opt_Ok & H).
  apply replace_Ok in H as [-> _]. unfold aligned, size, row. cbn.
  pose proof (Forall2_length _ _ _ H1) as Hlen. split; [|split_and!; [done|lia|]].
  - split; intros l ->.
    + destruct H2 as (l0 & _ & H2). apply Forall2_length in H2. lia.
    + destruct H3 as (l0 & _ & H3). apply Forall2_length in H3. lia.
  - intros j i Hj. destruct (Forall2_lookup_l _ _ _ _ _ H1 Hj) as (id & Hid & Hi).
    rewrite Hid, Hi. cbn. f_equal. f_equal; [f_equal|].
    + destruct lens as [ls|]; [|by rewrite H2]. destruct H2 as (l0 & -> & H2). cbn.
      destruct (Forall2_lookup_l _ _ _ _ _ H2 Hj) as (y & Hy & ->). done.
    + destruct ts as [ls|]; [|by rewrite H3]. destruct H3 as (l0 & -> & H3). cbn.
      destruct (Forall2_lookup_l _ _ _ _ _ H3 Hj) as (y & Hy & ->). done.
Qed.

Lemma subset_total idxs m :
  aligned m -> Forall (fun i => (i < size m)%nat) idxs -> exists m', subset idxs m = Ok m'.
Proof.
  intros [Hl Ht] Hi. unfold subset. destruct (gather_total (sample_ids m) idxs Hi) as (ids & Hids).
  rewrite Hids. cbn [mbind res_bind]. apply gather_Ok, Forall2_length in Hids.
  assert (exists o, gather_opt (sequence_lengths m) idxs = Ok o) as (lens & ->).
  { destruct (sequence_lengths m) as [l|]; cbn; [|by eexists].
    rewrite <- (Hl l eq_refl) in Hi. destruct (gather_total l idxs Hi) as (ys & ->). by eexists. }
  assert (exists o, gather_opt (tags m) idxs = Ok o /\
            (forall l, o = Some l -> length l = length ids)) as (ts & -> & Hts).
  { destruct (tags m) as [l|]; cbn; [|by eexists].
    rewrite <- (Ht l eq_refl) in Hi. destruct (gather_total l idxs Hi) as (ys & E).
    rewrite E. eexists. split; [done|]. apply gather_Ok, Forall2_length in E.
    intros ? [= <-]. lia. }
  cbn [mbind res_bind]. unfold replace, meta_init. cbn. destruct ts as [l|]; [|by eexists].
  rewrite (Hts l eq_refl), Nat.eqb_refl. by eexists.
Qed.

Lemma merge_all_length {A} (f : KVBatchMeta -> option (list A)) ms l :
  (forall m x, m ∈ ms -> f m = Some x -> length x = size m) ->
  merge_all f ms = Some l -> length l = length (concat (sample_ids <$> ms)).
Proof.
  unfold merge_all. intros Hf H. destruct (forallb _ ms) eqn:E; [|done]. injection H as <-.
  induction ms as [|m ms IH]; [done|]. cbn in E. apply andb_true_iff in E as [E1 E2].
  cbn. rewrite !length_app. f_equal.
  - destruct (f m) as [x|] eqn:Ef; [|done]. apply Hf; [set_solver|done].
  - apply IH; [|done]. intros m' x Hm. apply Hf. set_solver.
Qed.

Lemma concat_meta_ids self others m :
  concat_meta self others = Ok m ->
  sample_ids m = concat (sample_ids <$> (self :: others)) /\ partition_id m = partition_id self.
Proof.
  unfold concat_meta, replace, meta_init. intros H.
  apply bind_Ok in H as (? & _ & H). apply bind_Ok in H as (r & H & [= <-]).
  apply bind_Ok in H as (? & _ & [= <-]). done.
Qed.

Lemma concat_meta_total self others :
  Forall aligned (self :: others) ->
  Forall (fun o => partition_id o = partition_id self) others ->
  exists m, concat_meta self others = Ok m.
Proof.
  intros Ha Hp. unfold concat_meta, replace, meta_init.
  assert (existsb (fun o => negb (bool_decide (partition_id o = partition_id self))) others = false)
    as ->.
  { clear -Hp. induction Hp as [|o others Ho _ IH]; cbn; [done|].
    by rewrite bool_decide_eq_true_2, IH. }
  cbn [raise_if mbind res_bind tags sample_ids].
  assert (forall l, merge_all tags (self :: others) = Some l ->
    length l = length (concat (sample_ids <$> (self :: others)))) as Hl.
  { intros l. apply merge_all_length. intros m x Hm. rewrite Forall_forall in Ha.
    by apply (Ha m Hm). }
  destruct (merge_all tags (self :: others)) as [ts|]; [|by eexists].
  rewrite (Hl ts eq_refl), Nat.eqb_refl. by eexists.
Qed.

(** ** Properties *)

(** Concatenation raises exactly when a batch is from another partition;
    otherwise it keeps every sample in order, with its length and its tag
    where all the batches have them, stays aligned, and lists every field of
    the batches once. *)
Theorem concat_keeps_rows self others :
  aligned self -> Forall aligned others ->
  (concat_meta self others = Raise ValueError <->
     Exists (fun o => partition_id o <> partition_id self) others) /\
  (forall m, concat_meta self others = Ok m ->
     aligned m /\ sample_ids m = concat (sample_ids <$> (self :: others)) /\
     sequence_lengths m = merge_all sequence_lengths (self :: others) /\
     tags m = merge_all tags (self :: others) /\
     partition_id m = partition_id self /\
     (forall x, (exists l, fields m = Some l /\ x ∈ l) <->
        exists o l, o ∈ self :: others /\ fields o = Some l /\ x ∈ l)).
Proof.
  intros Hs Ho.
  assert (forall m, m ∈ self :: others -> aligned m) as Hall.
  { rewrite Forall_forall in Ho. intros m [->|Hm]%elem_of_cons; auto. }
  assert (forall l, merge_all tags (self :: others) = Some l ->
            length l = length (concat (sample_ids <$> (self :: others)))) as Ht.
  { intros l. apply merge_all_length. intros m x Hm. by apply (Hall m Hm). }
  unfold concat_meta. destruct (existsb _ others) eqn:E; cbn [raise_if mbind res_bind].
  - split; [|done]. split; [|done]. intros _. apply existsb_exists in E as (o & Hin & Hb).
    apply Exists_exists. exists o. rewrite list_elem_of_In. split; [done|].
    by apply negb_true_iff, bool_decide_eq_false in Hb.
  - assert (forall l : list tag, merge_all tags (self :: others) = Some l ->
      length l = length (concat (sample_ids <$> (self :: others)))) as Ht' by done.
    unfold replace, meta_init. cbn [tags sample_ids].
    destruct (match merge_all tags (self :: others) with
              | Some ts => negb (length ts =? length (concat (sample_ids <$> (self :: others))))%nat
              | None => false end) eqn:Eb.
    { destruct (merge_all tags _) as [ts|]; [|done].
      apply negb_true_iff, Nat.eqb_neq in Eb. by rewrite (Ht ts eq_refl) in Eb. }
    cbn [raise_if mbind res_bind]. split.
    { split; [done|]. intros (o & Hin & Hne)%Exists_exists. exfalso.
      apply not_true_iff_false in E. apply E, existsb_exists. exists o.
      rewrite <- list_elem_of_In. split; [done|]. by apply negb_true_iff, bool_decide_eq_false. }
    intros m [= <-]. cbn [sample_ids sequence_lengths tags partition_id fields].
    split_and!; try done.
    + split; cbn [sequence_lengths tags]; unfold size; cbn [sample_ids]; [|done].
      intros l. apply merge_all_length. intros m x Hm. by apply (Hall m Hm).
    + intros x. set (fs := fromkeys [] _). assert (forall y, y ∈ fs <->
        exists o l, o ∈ self :: others /\ fields o = Some l /\ y ∈ l) as Hfs.
      { intros y. destruct (fromkeys_spec (concat ((fun m => default [] (fields m)) <$>
          (self :: others))) []) as [Hk _]. unfold fs. rewrite Hk.
        rewrite list_elem_of_In, in_concat. split.
        - intros [(l & Hl & Hy) _]. rewrite <- list_elem_of_In in Hl. rewrite <- list_elem_of_In in Hy.
          apply list_elem_of_fmap in Hl as (o & -> & Hin). exists o.
          destruct (fields o) as [l|]; [by exists l|]. by apply not_elem_of_nil in Hy.
        - intros (o & l & Hin & Hl & Hy). split; [|set_solver]. exists l.
          split; [|by apply list_elem_of_In]. apply list_elem_of_In, list_elem_of_fmap.
          exists o. by rewrite Hl. }
      rewrite <- Hfs. clearbody fs. destruct fs as [|f fs].
      * split; [by intros (? & ? & _)|]. by intros ?%not_elem_of_nil.
      * split; [by intros (l & [= <-] & ?)|]. eauto.
Qed.

(** [drop] is the complement of [subset]: the rows it keeps are the others,
    in order and unchanged, and it returns [None] exactly when every row is
    dropped. *)
Theorem drop_is_complement idxs m :
  aligned m ->
  let keep := List.filter (fun i => negb (bool_decide (i ∈ idxs))) (seq 0 (size m)) in
  (drop_rows idxs m = Ok None <-> forall i, (i < size m)%nat -> i ∈ idxs) /\
  (keep <> [] -> exists m', drop_rows idxs m = Ok (Some m') /\ aligned m' /\
     size m' = length keep /\ (forall j i, keep !! j = Some i -> row m' j = row m i)).
Proof.
  intros Ha keep.
  assert (forall i, i ∈ keep <-> (i < size m)%nat /\ i ∉ idxs) as Hk.
  { intros i. unfold keep. rewrite list_filter_elem_of, elem_of_seq, negb_true_iff,
      bool_decide_eq_false. intuition lia. }
  unfold drop_rows. fold keep.
  assert (Forall (fun i => (i < size m)%nat) keep) as Hr
    by (apply Forall_forall; intros i Hi%Hk; tauto).
  destruct (subset_total keep m Ha Hr) as (m' & Hm').
  clearbody keep. destruct keep as [|k0 keep].
  - split; [|done]. split; [|done]. intros _ i Hi.
    destruct (decide (i ∈ idxs)); [done|]. exfalso.
    apply (not_elem_of_nil i). by apply Hk.
  - rewrite Hm'. cbn [fmap res_fmap]. split.
    + split; [done|]. intros Hd. destruct (proj1 (Hk k0) ltac:(set_solver)) as [H1 H2].
      by apply Hd in H1.
    + intros _. exists m'. split; [done|]. by destruct (subset_spec _ _ _ Hm') as (? & _ & ? & ?).
Qed.

(** ** Witnesses *)

Definition sample_meta (ids : list string) : KVBatchMeta :=
  mkMeta "rollout" (Some "train"%string) ids (Some ["input_ids"%string])
    (Some (const 3 <$> ids)) [] (Some (const [] <$> ids)).

Lemma sample_meta_aligned ids : aligned (sample_meta ids).
Proof. split; intros l [= <-]; by rewrite length_fmap. Qed.

Lemma concat_keeps_rows_witness :
  exists m, concat_meta (sample_meta ["a"; "b"]) [sample_meta ["c"]] = Ok m /\
    sample_ids m = ["a"; "b"; "c"].
Proof.
  eexists. split; [vm_compute; reflexivity|].
  refine (proj1 (proj2 (proj2 (concat_keeps_rows (sample_meta ["a"; "b"]) [sample_meta ["c"]]
    (sample_meta_aligned _) _) _ _))).
  - constructor; [apply sample_meta_aligned|constructor].
  - vm_compute. reflexivity.
Defined.

Lemma drop_is_complement_witness :
  exists m', drop_rows [1%nat] (sample_meta ["a"; "b"; "c"]) = Ok (Some m') /\ size m' = 2%nat.
Proof.
  destruct (proj2 (drop_is_complement [1%nat] (sample_meta ["a"; "b"; "c"])
    (sample_meta_aligned _))) as (m' & H & _ & Hs & _).
  - vm_compute. discriminate.
  - exists m'. split; [exact H|exact Hs].
Defined.

(** ** Slices of lists *)

Lemma list_slice_length {A} start stop (l : list A) : (stop <= length l)%nat -> length (list_slice start stop l) = (stop - start)%nat.
Proof. intros Hl. unfold list_slice. rewrite length_take, length_drop. lia. Qed.

Lemma slice_join {A} (ls : list (list A)) c x : ls !! c = Some x ->
  list_slice (length (mjoin (take c ls))) (length (mjoin (take (S c) ls))) (mjoin ls) = x.
Proof.
  intros Hc. rewrite (take_S_r _ _ _ Hc), join_app, length_app. cbn [mjoin list_join]. rewrite app_nil_r. unfold list_slice.
  replace (length (mjoin (take c ls)) + length x - length (mjoin (take c ls)))%nat with (length x) by lia.
  rewrite <- (take_drop_middle ls c x Hc) at 2. rewrite join_app, drop_app_length, join_cons. apply take_app_length.
Qed.

Lemma slice_even {A} k (p : list (list A)) c x : Forall (fun x => length x = k) p -> p !! c = Some x -> list_slice (c * k) ((c + 1) * k) (mjoin p) = x.
Proof.
  intros Hf Hc. pose proof (lookup_lt_Some _ _ _ Hc). rewrite <- (slice_join p c x Hc). rewrite !(length_join_same k) by (by apply Forall_take).
  rewrite !length_take. f_equal; f_equal; lia.
Qed.
