(* ===== verification/LogicalOwners.v ===== *)
(** * Logical owners of the rows of a forest rollout

    Models the metadata side of
    [src/nemo_rl/algorithms/single_controller_utils/logical_advantage.py] and
    the row identities of [src/nemo_rl/data_plane/schema.py]: one logical
    rollout (an owner: a slot of a dispatch group) may span several physical
    rows, its segments.  The tensor checks of [build_logical_owner_batch] are
    not modelled. *)

From stdpp Require Import pretty.
From S2P Require Import Prelude PyVal DataPlaneMeta.

(** The fields of [LogicalRowTag]. *)
Definition OWNER_TAGS : list string :=
  ["dispatch_group_id"; "logical_rollout_id"; "logical_slot"; "logical_group_size";
   "segment_index"; "segment_count"; "is_execution_padding"].

Definition has_logical_owners (m : KVBatchMeta) : bool :=
  existsb (fun t => existsb (fun s => has_key s t) OWNER_TAGS) (default [] (tags m)).

(** f-strings: [f"{group}_g{slot}"] and [forest_segment_id]. *)
Definition owner_id (group : string) (slot : Z) : string := group +:+ "_g" +:+ pretty slot.

Definition forest_segment_id (owner : string) (segment_index : Z) : string :=
  owner +:+ "_s" +:+ pretty segment_index.

(** [forest_row_ids]. *)
Definition forest_row_ids (group_id : string) (owner_ids : list string)
    (segment_counts : list Z) (execution_row_multiple : Z) : res (list string) :=
  _ ← raise_if (execution_row_multiple <? 1) ValueError;
  _ ← raise_if (negb (length owner_ids =? length segment_counts)%nat) ValueError;
  let real_ids := concat (zip_with (fun owner count =>
    (fun i => forest_segment_id owner (Z.of_nat i)) <$> seq 0 (Z.to_nat count))
    owner_ids segment_counts) in
  let pads := (fun i => group_id +:+ "_pad" +:+ pretty (Z.of_nat i)) <$>
    seq 0 (Z.to_nat ((- Z.of_nat (length real_ids)) mod execution_row_multiple)) in
  Ok (real_ids ++ pads).

(** ** [validate_logical_owner_metadata] *)

(** The rows of each slot of each dispatch group, both dicts in insertion
    order. *)
Definition slots := list (Z * list nat).
Definition groups := list (string * slots).

(** [slots.setdefault(slot, []).append(row)]. *)
Fixpoint add_row (slot : Z) (row : nat) (s : slots) : slots :=
  match s with
  | [] => [(slot, [row])]
  | (k, rows) :: s' =>
      if k =? slot then (k, rows ++ [row]) :: s' else (k, rows) :: add_row slot row s'
  end.

(** [f(groups.setdefault(group, {}))], the dict mutated in place. *)
Fixpoint at_group (group : string) (f : slots -> slots) (g : groups) : groups :=
  match g with
  | [] => [(group, f [])]
  | (k, s) :: g' =>
      if decide (k = group) then (k, f s) :: g' else (k, s) :: at_group group f g'
  end.

(** What a row's tag says: an owner's segment, or padding of a group. *)
Record RowTag := mkRowTag {
  dispatch_group_id : string;
  owner : option (Z * Z * Z) }.  (* slot, segment, count; None for padding *)

Definition check_row (gsize : Z) (sid : string) (t : tag) : res RowTag :=
  _ ← raise_if (negb (forallb (fun s => has_key s t) OWNER_TAGS)) ValueError;
  group_v ← dict_index "dispatch_group_id" t;
  size_v ← dict_index "logical_group_size" t;
  pad_v ← dict_index "is_execution_padding" t;
  match group_v, size_v, pad_v with
  | VStr group, VInt size, VBool padding =>
      _ ← raise_if (bool_decide (group = "") || negb (size =? gsize)) ValueError;
      rid ← dict_index "logical_rollout_id" t;
      slot_v ← dict_index "logical_slot" t;
      seg_v ← dict_index "segment_index" t;
      count_v ← dict_index "segment_count" t;
      if padding then
        match rid, slot_v, seg_v, count_v with
        | VNone, VNone, VNone, VInt 0 => Ok (mkRowTag group None)
        | _, _, _, _ => Raise ValueError
        end
      else
        match rid, slot_v, seg_v, count_v with
        | VStr r, VInt slot, VInt segment, VInt count =>
            _ ← raise_if (negb ((0 <=? slot) && (slot <? size))
                          || negb ((0 <=? segment) && (segment <? count))
                          || negb (bool_decide (r = owner_id group slot))
                          || negb (bool_decide (sid = forest_segment_id (owner_id group slot) segment)))
                  ValueError;
            Ok (mkRowTag group (Some (slot, segment, count)))
        | _, _, _, _ => Raise ValueError
        end
  | _, _, _ => Raise ValueError
  end.

Definition add_tag (row : nat) (t : RowTag) (g : groups) : groups :=
  at_group (dispatch_group_id t) (fun s =>
    match owner t with
    | Some (slot, _, _) => add_row slot row s
    | None => s
    end) g.

(** The loop over the rows; [rows_tags] collects what each tag said. *)
Fixpoint owner_loop (gsize : Z) (rows : list (nat * (string * tag))) (g : groups)
    : res (groups * list RowTag) :=
  match rows with
  | [] => Ok (g, [])
  | (row, (sid, t)) :: rest =>
      rt ← check_row gsize sid t;
      '(g', rts) ← owner_loop gsize rest (add_tag row rt g);
      Ok (g', rt :: rts)
  end.

(** [set(xs) == {n}]. *)
Definition is_singleton (n : Z) (xs : list Z) : bool :=
  match xs with [] => false | _ => forallb (Z.eqb n) xs end.

(** [set(xs) == set(range(n))]. *)
Definition is_range (n : Z) (xs : list Z) : bool :=
  forallb (fun x => (0 <=? x) && (x <? n)) xs
  && forallb (fun i => existsb (Z.eqb (Z.of_nat i)) xs) (seq 0 (Z.to_nat n)).

Definition check_slot (rts : list RowTag) (rows : list nat) : res unit :=
  let segs := omap (fun r => rt ← rts !! r; owner rt) rows in
  raise_if (negb (is_singleton (Z.of_nat (length rows)) ((fun s => s.2) <$> segs)
                  && is_range (Z.of_nat (length rows)) ((fun s => s.1.2) <$> segs))) ValueError.

Definition check_group (gsize : Z) (rts : list RowTag) (s : slots) : res unit :=
  _ ← raise_if (negb (is_range gsize s.*1)) ValueError;
  for_each (check_slot rts) s.*2.

Definition validate_logical_owner_metadata (m : KVBatchMeta) (gsize : Z) : res groups :=
  match tags m with
  | None => Raise ValueError
  | Some ts =>
      _ ← raise_if (negb (length ts =? size m)%nat || negb (bool_decide (NoDup (sample_ids m))))
            ValueError;
      '(g, rts) ← owner_loop gsize (enumerate (zip (sample_ids m) ts)) [];
      _ ← for_each (check_group gsize rts) g.*2;
      _ ← raise_if (match g with [] => true | _ => false end) ValueError;
      Ok g
  end.

(** ** Reading the nested dicts *)

Definition get_slot (slot : Z) (s : slots) : list nat :=
  match List.find (fun kv => kv.1 =? slot) s with Some kv => kv.2 | None => [] end.

Definition get_group (group : string) (g : groups) : slots :=
  match List.find (fun kv => bool_decide (kv.1 = group)) g with Some kv => kv.2 | None => [] end.

Definition rows_of (g : groups) (group : string) (slot : Z) : list nat :=
  get_slot slot (get_group group g).

(** Whether a row's tag makes it a segment of [(group, slot)]. *)
Definition owned_by (group : string) (slot : Z) (rt : RowTag) : bool :=
  bool_decide (dispatch_group_id rt = group)
  && match owner rt with Some (s, _, _) => s =? slot | None => false end.

Definition owned_rows (group : string) (slot : Z) (l : list (nat * RowTag)) : list nat :=
  (List.filter (fun q => owned_by group slot q.2) l).*1.

Lemma get_slot_add_row slot slot' row s :
  get_slot slot (add_row slot' row s) =
    get_slot slot s ++ (if slot' =? slot then [row] else []).
Proof.
  unfold get_slot. induction s as [|[k rows] s IH]; cbn.
  - by destruct (slot' =? slot).
  - destruct (Z.eqb_spec k slot') as [->|Hne]; cbn.
    + destruct (slot' =? slot) eqn:E; cbn; [done|]. by rewrite app_nil_r.
    + destruct (Z.eqb_spec k slot) as [->|]; cbn; [|done].
      rewrite (proj2 (Z.eqb_neq slot' slot)) by done. by rewrite app_nil_r.
Qed.

Lemma get_group_at group group' f g :
  get_group group (at_group group' f g) =
    if decide (group' = group) then f (get_group group g) else get_group group g.
Proof.
  unfold get_group. induction g as [|[k s] g IH]; cbn.
  - destruct (decide (group' = group)) as [->|Hne]; cbn.
    + by rewrite bool_decide_eq_true_2.
    + by rewrite bool_decide_eq_false_2.
  - destruct (decide (k = group')) as [->|Hne]; cbn.
    + destruct (decide (group' = group)) as [->|Hne]; cbn.
      * by rewrite bool_decide_eq_true_2.
      * by rewrite bool_decide_eq_false_2.
    + destruct (decide (k = group)) as [->|]; cbn.
      * rewrite !bool_decide_eq_true_2 by done. by rewrite decide_False.
      * rewrite !bool_decide_eq_false_2 by done. exact IH.
Qed.

Lemma rows_of_add_tag g row rt group slot :
  rows_of (add_tag row rt g) group slot =
    rows_of g group slot ++ (if owned_by group slot rt then [row] else []).
Proof.
  unfold rows_of, add_tag, owned_by. rewrite get_group_at.
  destruct (decide (dispatch_group_id rt = group)) as [->|Hne].
  - rewrite bool_decide_eq_true_2 by done. destruct (owner rt) as [[[s seg] c]|]; cbn.
    + by rewrite get_slot_add_row.
    + by rewrite app_nil_r.
  - rewrite bool_decide_eq_false_2 by done. by rewrite app_nil_r.
Qed.

Lemma owner_loop_spec gsize rows : forall g g' rts,
  owner_loop gsize rows g = Ok (g', rts) ->
  Forall2 (fun r rt => check_row gsize r.2.1 r.2.2 = Ok rt) rows rts /\
  forall group slot, rows_of g' group slot =
    rows_of g group slot ++ owned_rows group slot (zip rows.*1 rts).
Proof.
  induction rows as [|[row [sid t]] rows IH]; intros g g' rts H; cbn [owner_loop] in H.
  { injection H as <- <-. split; [done|]. intros. unfold owned_rows. cbn. by rewrite app_nil_r. }
  apply bind_Ok in H as (rt & Hrt & H). apply bind_Ok in H as ([g1 rts1] & Hl & [= <- <-]).
  destruct (IH _ _ _ Hl) as [IH1 IH2]. split; [by constructor|].
  intros group slot. rewrite IH2, rows_of_add_tag, <- app_assoc. f_equal.
  unfold owned_rows. cbn. by destruct (owned_by group slot rt).
Qed.

Lemma is_range_spec n xs :
  is_range n xs = true ->
  (forall x, x ∈ xs -> 0 <= x < n) /\ (forall x, 0 <= x < n -> x ∈ xs).
Proof.
  unfold is_range. intros [H1 H2]%andb_true_iff. rewrite forallb_forall in H1.
  rewrite forallb_forall in H2. split.
  - intros x Hx%list_elem_of_In. specialize (H1 x Hx). lia.
  - intros x Hx. specialize (H2 (Z.to_nat x)). rewrite in_seq in H2.
    specialize (H2 ltac:(lia)). apply existsb_exists in H2 as (y & Hy & E).
    rewrite list_elem_of_In. apply Z.eqb_eq in E. by replace x with y by lia.
Qed.

(** As many values as the range has, covering it: each occurs once. *)
Lemma range_perm (xs : list Z) :
  (forall x, 0 <= x < Z.of_nat (length xs) -> x ∈ xs) ->
  xs ≡ₚ Z.of_nat <$> seq 0 (length xs).
Proof.
  intros H. symmetry. apply submseteq_length_Permutation; [|by rewrite length_fmap, length_seq].
  apply NoDup_submseteq.
  - apply NoDup_fmap_2; [apply _|]. apply NoDup_seq.
  - intros x (i & -> & Hi)%list_elem_of_fmap. apply elem_of_seq in Hi. apply H. lia.
Qed.

Lemma get_slot_elem slot s : slot ∈ s.*1 -> get_slot slot s ∈ s.*2.
Proof.
  unfold get_slot. intros ((k & rows) & -> & Hin)%list_elem_of_fmap. cbn.
  destruct (List.find _ s) as [kv|] eqn:E.
  - apply find_some in E as [Hin2 _]. apply list_elem_of_fmap. exists kv.
    by rewrite list_elem_of_In.
  - apply list_elem_of_In in Hin. pose proof (find_none _ _ E _ Hin) as Hf. cbn in Hf.
    by rewrite Z.eqb_refl in Hf.
Qed.

Lemma get_group_elem group g : group ∈ g.*1 -> get_group group g ∈ g.*2.
Proof.
  unfold get_group. intros ((k & s) & -> & Hin)%list_elem_of_fmap. cbn.
  destruct (List.find _ g) as [kv|] eqn:E.
  - apply find_some in E as [Hin2 _]. apply list_elem_of_fmap. exists kv.
    by rewrite list_elem_of_In.
  - apply list_elem_of_In in Hin. pose proof (find_none _ _ E _ Hin) as Hf. cbn in Hf.
    by rewrite bool_decide_eq_true_2 in Hf.
Qed.

Lemma elem_of_owned_rows group slot rts i :
  i ∈ owned_rows group slot (zip (seq 0 (length rts)) rts) <->
  exists rt, rts !! i = Some rt /\ owned_by group slot rt = true.
Proof.
  unfold owned_rows. rewrite list_elem_of_fmap. split.
  - intros ([j rt] & -> & [Hin Ho]%list_filter_elem_of). cbn in *.
    apply list_elem_of_lookup in Hin as (k & Hk). apply lookup_zip_with_Some in Hk
      as (a & b & [= -> ->] & Ha & Hb).
    apply lookup_seq in Ha as [-> _]. eauto.
  - intros (rt & Hi & Ho). exists (i, rt). split; [done|]. apply list_filter_elem_of.
    split; [|done]. apply list_elem_of_lookup. exists i. apply lookup_zip_with_Some.
    exists i, rt. split_and!; [done| |done]. apply lookup_seq. split; [done|].
    by eapply lookup_lt_Some.
Qed.

Lemma owned_row_has_owner group slot rts i :
  i ∈ owned_rows group slot (zip (seq 0 (length rts)) rts) -> is_Some (rts !! i ≫= owner).
Proof.
  intros (rt & -> & Ho)%elem_of_owned_rows. cbn. unfold owned_by in Ho.
  apply andb_true_iff in Ho as [_ Ho]. by destruct (owner rt).
Qed.

(** ** Properties *)

(** Metadata that validates describes a complete forest: in every dispatch
    group each of the [gsize] logical slots owns at least one row, the rows it
    owns are exactly the rows whose tag names that slot, their sample ids are
    its segment ids, and their segment numbers are 0, 1, ..., k-1, each
    once. *)
Theorem validated_owners_are_complete m gsize g :
  validate_logical_owner_metadata m gsize = Ok g ->
  g <> [] /\ exists rts,
    Forall2 (fun r rt => check_row gsize r.1 r.2 = Ok rt)
      (zip (sample_ids m) (default [] (tags m))) rts /\
    length rts = size m /\
    forall group slot, group ∈ g.*1 -> 0 <= slot < gsize ->
      let rows := rows_of g group slot in
      rows <> [] /\
      (forall i, i ∈ rows <-> exists rt, rts !! i = Some rt /\ owned_by group slot rt = true) /\
      (fun s : Z * Z * Z => s.1.2) <$> omap (fun r => rts !! r ≫= owner) rows ≡ₚ
        Z.of_nat <$> seq 0 (length rows).
Proof.
  unfold validate_logical_owner_metadata. destruct (tags m) as [ts|] eqn:Ets; [|done].
  intros H. apply bind_Ok in H as ([] & Hr%raise_if_Ok & H).
  apply orb_false_iff in Hr as [Hlen%negb_false_iff%Nat.eqb_eq _].
  apply bind_Ok in H as ([g' rts] & Hloop & H). apply bind_Ok in H as ([] & Hgr & H).
  apply bind_Ok in H as ([] & Hne%raise_if_Ok & [= <-]).
  destruct (owner_loop_spec _ _ _ _ _ Hloop) as [Hrts Hrows].
  split; [by destruct g'|]. exists rts.
  set (rws := zip (sample_ids m) ts) in *.
  assert (length rws = size m) as Hlr.
  { unfold rws, size in *. rewrite length_zip_with. lia. }
  assert (length rts = size m) as Hlt.
  { apply Forall2_length in Hrts. rewrite <- Hrts, <- Hlr.
    apply length_enumerate. }
  assert (forall group slot, rows_of g' group slot =
            owned_rows group slot (zip (seq 0 (length rts)) rts)) as Hrows'.
  { intros group slot. rewrite Hrows. rewrite enumerate_fst.
    by rewrite Hlr, <- Hlt. }
  split_and!; [|done|].
  - change (zip (sample_ids m) (default [] (Some ts))) with rws.
    apply Forall2_same_length_lookup_2; [by rewrite Hlr, Hlt|].
    intros i r rt Hi Hrt. eapply (Forall2_lookup_lr _ _ _ i (i, r) rt) in Hrts; [done| |done].
    unfold enumerate. by rewrite lookup_enumerate_from, Hi.
  - intros group slot Hgin Hslot. cbn zeta.
    rewrite for_each_Ok in Hgr. rewrite Forall_forall in Hgr.
    specialize (Hgr _ (get_group_elem _ _ Hgin)). unfold check_group in Hgr.
    apply bind_Ok in Hgr as ([] & Hrng%raise_if_Ok%negb_false_iff & Hsl).
    apply is_range_spec in Hrng as [_ Hrng]. specialize (Hrng slot Hslot).
    rewrite for_each_Ok in Hsl. rewrite Forall_forall in Hsl.
    specialize (Hsl _ (get_slot_elem _ _ Hrng)). fold (rows_of g' group slot) in Hsl.
    unfold check_slot in Hsl.
    apply raise_if_Ok, negb_false_iff, andb_true_iff in Hsl as [Hsing Hsegs].
    apply is_range_spec in Hsegs as [_ Hsegs].
    assert (length (omap (fun r => rts !! r ≫= owner) (rows_of g' group slot)) =
            length (rows_of g' group slot)) as Hlo.
    { apply length_omap_Some, Forall_forall. intros i Hi. rewrite Hrows' in Hi.
      by eapply owned_row_has_owner. }
    split_and!.
    + intros Hnil. by rewrite Hnil in Hsing.
    + intros i. rewrite Hrows'. apply elem_of_owned_rows.
    + rewrite range_perm; rewrite length_fmap, Hlo; done.
Qed.

(** ** Witness *)

(** One group of two owners, the first with two segments, and a padding row. *)
Definition sample_tag (rid slot seg : PyVal) (count : Z) (pad : bool) : tag :=
  [(VStr "dispatch_group_id", VStr "g"); (VStr "logical_rollout_id", rid);
   (VStr "logical_slot", slot); (VStr "logical_group_size", VInt 2);
   (VStr "segment_index", seg); (VStr "segment_count", VInt count);
   (VStr "is_execution_padding", VBool pad)].

Definition sample_forest : KVBatchMeta :=
  mkMeta "rollout" None ["g_g0_s0"; "g_g0_s1"; "g_g1_s0"; "g_pad0"] None None []
    (Some [sample_tag (VStr "g_g0") (VInt 0) (VInt 0) 2 false;
           sample_tag (VStr "g_g0") (VInt 0) (VInt 1) 2 false;
           sample_tag (VStr "g_g1") (VInt 1) (VInt 0) 1 false;
           sample_tag VNone VNone VNone 0 true]).

Lemma validated_owners_are_complete_witness :
  exists g, validate_logical_owner_metadata sample_forest 2 = Ok g /\
    rows_of g "g" 0 = [0%nat; 1%nat] /\ g <> [].
Proof.
  eexists. split; [vm_compute; reflexivity|]. split; [reflexivity|].
  refine (proj1 (validated_owners_are_complete sample_forest 2 _ _)).
  vm_compute. reflexivity.
Defined.
