(* ===== verification/ReplayManifest.v ===== *)
(** * Replay metadata and its manifest digest

    Models the metadata side of
    [src/nemo_rl/algorithms/async_utils/replay_buffer.py]: the checkpointed
    group record, the canonical form of its values, the digest that binds the
    metadata to a data-plane checkpoint, and the forest compatibility check.
    [json.dumps] with SHA-256 is a parameter: the digest of a canonical value. *)

From S2P Require Import Prelude PyVal DataPlaneMeta.

Definition ROLLOUT_METRICS : string := "rollout_metrics".

(** [TQReplayGroupMetadata]. *)
Record GroupMeta := mkGroup {
  g_meta : KVBatchMeta;
  g_start_weight : Z;
  g_end_weight : Z;
  g_target_step : option Z;
  g_group_id : string }.

(** ** [_canonical_manifest_value] *)
Fixpoint canonical_manifest_value (v : PyVal) : res PyVal :=
  match v with
  | VNone | VBool _ | VStr _ | VInt _ => Ok v
  | VFloat (Fin m e) => Ok (VFloat (Fin m e))
  | VFloat _ => Raise TypeError
  | VList l | VTuple l =>
      VList <$> (fix go (l : list PyVal) : res (list PyVal) :=
        match l with
        | [] => Ok []
        | x :: l' => y ← canonical_manifest_value x; ys ← go l'; Ok (y :: ys)
        end) l
  | VDict d =>
      VDict <$> (fix go (d : list (PyVal * PyVal)) : res (list (PyVal * PyVal)) :=
        match d with
        | [] => Ok []
        | (k, x) :: d' =>
            match k with
            | VStr _ => y ← canonical_manifest_value x; ys ← go d'; Ok ((k, y) :: ys)
            | _ => Raise TypeError
            end
        end) d
  | VBytes _ | VObj _ => Raise TypeError
  end.

Definition without_metrics (d : list (PyVal * PyVal)) : list (PyVal * PyVal) :=
  List.filter (fun kv => negb (is_str ROLLOUT_METRICS kv.1)) d.

(** [_canonical_manifest_extra_info], on the dict [extra_info]. *)
Definition canonical_manifest_extra_info (d : list (PyVal * PyVal)) : res PyVal :=
  canonical_manifest_value (VDict (without_metrics d)).

(** One entry of [digest_input]. *)
Definition digest_entry (g : GroupMeta) : res PyVal :=
  let m := g_meta g in
  ts ← canonical_manifest_value (opt_val (fun l => VList (VDict <$> l)) (tags m));
  ei ← canonical_manifest_extra_info (extra_info m);
  Ok (str_dict
    [("group_id", VStr (g_group_id g));
     ("start_weight", VInt (g_start_weight g));
     ("end_weight", VInt (g_end_weight g));
     ("target_step", opt_val VInt (g_target_step g));
     ("meta", str_dict
       [("partition_id", VStr (partition_id m));
        ("task_name", opt_val VStr (task_name m));
        ("sample_ids", VList (VStr <$> sample_ids m));
        ("fields", opt_val (fun l => VList (VStr <$> l)) (fields m));
        ("sequence_lengths", opt_val (fun l => VList (VInt <$> l)) (sequence_lengths m));
        ("tags", ts);
        ("extra_info", ei)])]).

Section digest.
  Context (sha256_json : PyVal -> string).

Definition replay_manifest_digest (gs : list GroupMeta) : res string :=
  (fun l => sha256_json (VList l)) <$> traverse digest_entry gs.
End digest.

(** ** [validate_forest_checkpoint_metadata] *)

Definition int_val (o : option PyVal) : option Z :=
  match o with Some (VInt z) => Some z | _ => None end.

Definition validate_forest_checkpoint_metadata (metadata : list (PyVal * PyVal))
    (forest_training : bool) (execution_row_multiple : option Z) : res unit :=
  let schema := int_val (dict_get "rollout_recovery_schema_version" metadata) in
  _ ← raise_if (forest_training
                && match schema with Some s => s <? 5 | None => false end) ValueError;
  match dict_get "forest_training" metadata with
  | None =>
      raise_if (forest_training || match schema with Some s => 5 <=? s | None => false end)
        ValueError
  | Some saved_mode =>
      _ ← raise_if (match saved_mode with
                    | VBool b => negb (Bool.eqb b forest_training)
                    | _ => true
                    end) ValueError;
      match dict_get "forest_execution_row_multiple" metadata with
      | None => Raise ValueError
      | Some saved_multiple =>
          raise_if ((forest_training
                     && match saved_multiple with VInt z => z <? 1 | _ => true end)
                    || negb (match execution_row_multiple with
                             | Some n => eq_int saved_multiple n
                             | None => match saved_multiple with VNone => true | _ => false end
                             end)) ValueError
      end
  end.

(** ** The digest identifies the rows, not the metrics *)

Definition same_but_metrics (g g' : GroupMeta) : Prop :=
  g_start_weight g = g_start_weight g' /\ g_end_weight g = g_end_weight g' /\
  g_target_step g = g_target_step g' /\ g_group_id g = g_group_id g' /\
  let m := g_meta g in let m' := g_meta g' in
  partition_id m = partition_id m' /\ task_name m = task_name m' /\
  sample_ids m = sample_ids m' /\ fields m = fields m' /\
  sequence_lengths m = sequence_lengths m' /\ tags m = tags m' /\
  without_metrics (extra_info m) = without_metrics (extra_info m').

Lemma digest_entry_metrics g g' : same_but_metrics g g' -> digest_entry g = digest_entry g'.
Proof.
  destruct g as [[] ? ? ? ?], g' as [[] ? ? ? ?]. unfold same_but_metrics. cbn.
  intros (-> & -> & -> & -> & -> & -> & -> & -> & -> & -> & H). unfold digest_entry. cbn.
  unfold canonical_manifest_extra_info. by rewrite H.
Qed.

(** The manifest digest does not depend on the advisory rollout metrics:
    metadata that differs only there has the same digest, or fails to be
    digested in the same way. *)
Theorem digest_ignores_metrics sha256_json gs gs' :
  Forall2 same_but_metrics gs gs' ->
  replay_manifest_digest sha256_json gs = replay_manifest_digest sha256_json gs'.
Proof.
  intros H. unfold replay_manifest_digest. f_equal.
  induction H as [|g g' gs gs' Hg _ IH]; [done|]. cbn.
  by rewrite (digest_entry_metrics _ _ Hg), IH.
Qed.

(** ** Witness *)
Lemma digest_ignores_metrics_witness :
  let m x := mkMeta "p" None ["a"%string] None None
    [(VStr ROLLOUT_METRICS, x); (VStr "k", VInt 1)] None in
  let g x := mkGroup (m x) 0 1 None "g" in
  replay_manifest_digest (fun _ => "d"%string) [g (VFloat NaN)] =
    replay_manifest_digest (fun _ => "d"%string) [g (VObj 7)].
Proof.
  intros m g. apply digest_ignores_metrics. constructor; [|constructor].
  repeat split.
Defined.
