(* ===== verification/TQBuffer.v ===== *)
(** * The replay buffer of the single controller

    Models [TQReplayBuffer] of
    [src/nemo_rl/algorithms/async_utils/replay_buffer.py]: the controller-local
    index over groups whose rows live in the data plane, kept as parallel
    lists, with reserve-then-commit slots, concurrent removals and training
    claims.

    Concurrency is cooperative: control changes hands at an [await] only.  An
    operation is therefore split at its awaits; what happens in between is any
    sequence of segments of other operations ([step] below).  The data-plane
    client is outside: an operation returns the list of calls it makes, and
    their outcomes are arguments.  The contents written to the data plane
    (tensorization, packing) are not modelled; a commit receives the metadata
    of the rows it wrote. *)

From S2P Require Import Prelude PyVal RoutePlan DataPlaneMeta LogicalOwners ReplayManifest.

Definition ROUTE_PLAN_TAG : string := "route_assembly_plan".
Definition REPLAY_BUFFER_METADATA_SCHEMA_VERSION : Z := 1.
Definition REPLAY_BUFFER_METADATA_STORAGE : string := "tq_checkpoint".

(** Calls to the data-plane client. *)
Inductive dp_call :=
| PutSamples (partition : string) (ids : list string)
| ClearSamples (partition : string) (ids : list string).

Record TQ := mkTQ {
  tq_partition_id : string;
  staging_partition_id : option string;
  barrier_bound : bool;
  meta_list : list (option KVBatchMeta);
  start_weight_list : list Z;
  end_weight_list : list Z;
  target_step_list : list (option Z);
  ready_list : list bool;
  group_ids : list string;
  rollout_ids_list : list (option (list string));
  staging_keys_list : list (option (list string));
  training_claims : list (string * GroupMeta) }.

(** [__init__]. *)
Definition init (partition : string) (staging : option string) : TQ :=
  mkTQ partition staging false [] [] [] [] [] [] [] [] [].

Definition with_lists (st : TQ) ml sl el tl rl gl rol skl : TQ :=
  mkTQ (tq_partition_id st) (staging_partition_id st) (barrier_bound st)
    ml sl el tl rl gl rol skl (training_claims st).

Definition with_claims (st : TQ) (c : list (string * GroupMeta)) : TQ :=
  mkTQ (tq_partition_id st) (staging_partition_id st) (barrier_bound st)
    (meta_list st) (start_weight_list st) (end_weight_list st) (target_step_list st)
    (ready_list st) (group_ids st) (rollout_ids_list st) (staging_keys_list st) c.

Definition set_data_plane_checkpoint_barrier (st : TQ) : res TQ :=
  _ ← raise_if (barrier_bound st) RuntimeError;
  Ok (mkTQ (tq_partition_id st) (staging_partition_id st) true
    (meta_list st) (start_weight_list st) (end_weight_list st) (target_step_list st)
    (ready_list st) (group_ids st) (rollout_ids_list st) (staging_keys_list st)
    (training_claims st)).

(** [self._group_ids.index(group_id)]; [None] is the [ValueError]. *)
Definition index_of (gid : string) (st : TQ) : option nat :=
  fst <$> list_find (fun g => g = gid) (group_ids st).

(** ** Reserve, commit, abort *)

(** [uuid] is the identifier [uuid.uuid4()] would mint. *)
Definition reserve (weight_version : Z) (target_step : option Z) (group_id : option string)
    (rollout_ids : option (list string)) (uuid : string) (st : TQ) : res (TQ * string) :=
  let gid := default uuid group_id in
  _ ← raise_if (bool_decide (gid ∈ group_ids st)) ValueError;
  Ok (with_lists st
        (meta_list st ++ [None]) (start_weight_list st ++ [weight_version])
        (end_weight_list st ++ [-1]) (target_step_list st ++ [target_step])
        (ready_list st ++ [false]) (group_ids st ++ [gid])
        (rollout_ids_list st ++ [rollout_ids]) (staging_keys_list st ++ [None]), gid).

(** [commit] before its first await: nothing is written for a dead slot. *)
Definition commit_check (gid : string) (st : TQ) : res unit :=
  _ ← raise_if (negb (bool_decide (gid ∈ group_ids st))) ValueError;
  raise_if (negb (barrier_bound st)) RuntimeError.

(** How the awaited write and enrichment ended: [put_samples] raised (or the
    task was cancelled), the enricher raised, or the rows are written with
    this metadata. *)
Inductive write_outcome :=
| WriteRaised (e : exc)
| EnrichRaised
| Written (meta : KVBatchMeta).

(** The [except BaseException] branch: clear the rows, keep the first error. *)
Definition commit_rollback (sids : list string) (e : exc) (clear_ok : bool) (st : TQ)
    : TQ * list dp_call * res KVBatchMeta :=
  (st, [ClearSamples (tq_partition_id st) sids],
   if clear_ok then Raise e
   else if decide (e = CancelledError) then Raise CancelledError
   else Raise BaseExceptionGroup).

(** [commit] after its awaits. *)
Definition commit_finish (gid : string) (sids : list string) (end_weight_version : Z)
    (outcome : write_outcome) (clear_ok : bool) (st : TQ)
    : TQ * list dp_call * res KVBatchMeta :=
  match outcome with
  | WriteRaised e => commit_rollback sids e clear_ok st
  | EnrichRaised => commit_rollback sids PostWriteEnrichmentError clear_ok st
  | Written meta =>
      match index_of gid st with
      | None => commit_rollback sids ValueError clear_ok st
      | Some idx =>
          (with_lists st (<[idx := Some meta]> (meta_list st)) (start_weight_list st)
             (<[idx := end_weight_version]> (end_weight_list st)) (target_step_list st)
             (<[idx := true]> (ready_list st)) (group_ids st) (rollout_ids_list st)
             (staging_keys_list st), [], Ok meta)
      end
  end.

(** The encoded plans of a batch's tags. *)
Definition tagged_plans (m : KVBatchMeta) : list PyVal :=
  omap (dict_get ROUTE_PLAN_TAG) (default [] (tags m)).

(** The ownership check of [commit_finalized] on the route plans. *)
Definition check_staging_ownership (m : KVBatchMeta) (staging_keys : option (list string))
    : res unit :=
  match tagged_plans m with
  | [] => Ok tt
  | plans =>
      _ ← raise_if (negb (length plans =? length (sample_ids m))%nat) ValueError;
      decoded ← traverse decode_route_plan plans;
      let planned := concat (cleanup_staging_keys <$> decoded) in
      let provided := default [] staging_keys in
      _ ← raise_if (negb (bool_decide (NoDup provided))) ValueError;
      raise_if (negb (bool_decide (Forall (fun k => k ∈ planned) provided)
                      && bool_decide (Forall (fun k => k ∈ provided) planned))) ValueError
  end.

(** [commit_finalized] before the enrichment; [live] is the cut's state. *)
Definition commit_finalized_check (live : bool) (gid : string) (m : KVBatchMeta)
    (staging_keys : option (list string)) (st : TQ) : res unit :=
  _ ← raise_if (negb live) RuntimeError;
  _ ← (match index_of gid st with None => Raise ValueError | Some _ => Ok tt end);
  check_staging_ownership m staging_keys.

(** [commit_finalized] after the enrichment: the slot is looked up again. *)
Definition commit_finalized_finish (gid : string) (m : KVBatchMeta) (min_wv max_wv : Z)
    (staging_keys : option (list string)) (st : TQ) : res (TQ * KVBatchMeta) :=
  match index_of gid st with
  | None => Raise ValueError
  | Some idx =>
      Ok (with_lists st (<[idx := Some m]> (meta_list st))
            (<[idx := min_wv]> (start_weight_list st)) (<[idx := max_wv]> (end_weight_list st))
            (target_step_list st) (<[idx := true]> (ready_list st)) (group_ids st)
            (rollout_ids_list st) (<[idx := staging_keys]> (staging_keys_list st)), m)
  end.

(** [_delete_slot]: [del] on each of the parallel lists. *)
Definition delete_slot (idx : nat) (st : TQ) : TQ :=
  with_lists st (delete idx (meta_list st)) (delete idx (start_weight_list st))
    (delete idx (end_weight_list st)) (delete idx (target_step_list st))
    (delete idx (ready_list st)) (delete idx (group_ids st))
    (delete idx (rollout_ids_list st)) (delete idx (staging_keys_list st)).

Definition abort (gid : string) (st : TQ) : TQ * bool :=
  match index_of gid st with
  | None => (st, false)
  | Some idx => if default false (ready_list st !! idx) then (st, false)
                else (delete_slot idx st, true)
  end.

(** ** Removal *)

(** The index checks of [remove] before its first await; the groups are
    identified, highest index first. *)
Definition check_indices (idxs : list Z) (st : TQ) : res (list string) :=
  _ ← raise_if (negb (bool_decide (NoDup idxs))) ValueError;
  _ ← raise_if (existsb (fun i => i <? 0) idxs) IndexError;
  let drop := py_sort (fun a b => b <? a) idxs in
  _ ← raise_if (match drop with
                | i :: _ => Z.of_nat (length (meta_list st)) <=? i
                | [] => false
                end) IndexError;
  traverse (fun i => get_index (group_ids st) (Z.to_nat i)) drop.

(** [None]: nothing to remove. *)
Definition remove_resolve (idxs : list Z) (st : TQ) : res (option (list string)) :=
  match idxs with
  | [] => Ok None
  | _ => _ ← raise_if (negb (barrier_bound st)) RuntimeError;
         Some <$> check_indices idxs st
  end.

(** [claim_for_training] checks the indices first, then the barrier, then the
    range. *)
Definition claim_resolve (idxs : list Z) (st : TQ) : res (option (list string)) :=
  match idxs with
  | [] => Ok None
  | _ => _ ← raise_if (negb (bool_decide (NoDup idxs))) ValueError;
         _ ← raise_if (existsb (fun i => i <? 0) idxs) IndexError;
         _ ← raise_if (negb (barrier_bound st)) RuntimeError;
         Some <$> check_indices idxs st
  end.

(** The sample ids and staging keys recorded for a live group. *)
Definition slot_sample_ids (st : TQ) (gid : string) : list string :=
  match index_of gid st ≫= fun i => meta_list st !! i with
  | Some (Some m) => sample_ids m
  | _ => []
  end.

Definition slot_staging_keys (st : TQ) (gid : string) : list string :=
  match index_of gid st ≫= fun i => staging_keys_list st !! i with
  | Some (Some ks) => ks
  | _ => []
  end.

(** [remove_group] and [_remove_groups_unlocked] up to the first await: which
    rows of the two partitions will be cleared. *)
Definition removal_plan (live : bool) (gids : list string) (clear retain : bool) (st : TQ)
    : res (list string * list string) :=
  _ ← raise_if (negb live) RuntimeError;
  _ ← raise_if (clear && retain) ValueError;
  _ ← raise_if (negb (bool_decide (NoDup gids))) ValueError;
  _ ← raise_if (negb (bool_decide (NoDup (group_ids st)))) RuntimeError;
  _ ← raise_if (negb (bool_decide (Forall (fun g => g ∈ group_ids st) gids))) ValueError;
  Ok (concat (slot_sample_ids st <$> gids), concat (slot_staging_keys st <$> gids)).

(** The calls a removal makes, given whether the canonical clear succeeds, and
    whether the whole cleanup does. *)
Definition removal_calls (sids keys : list string) (clear canonical_ok staging_ok : bool)
    (st : TQ) : list dp_call * res unit :=
  if negb clear then ([], Ok tt)
  else
    let c1 := match sids with [] => [] | _ => [ClearSamples (tq_partition_id st) sids] end in
    if (match sids with [] => false | _ => negb canonical_ok end) then (c1, Raise RuntimeError)
    else match keys, staging_partition_id st with
    | _ :: _, Some part =>
        (c1 ++ [ClearSamples part keys], if staging_ok then Ok tt else Raise RuntimeError)
    | _, _ => (c1, Ok tt)
    end.

(** The claims [_remove_groups_unlocked] builds for the groups it retains. *)
Definition build_claim (st : TQ) (gid : string) : res (string * GroupMeta) :=
  match index_of gid st with
  | None => Raise KeyError
  | Some i =>
      match meta_list st !! i, ready_list st !! i with
      | Some (Some m), Some true =>
          _ ← raise_if (bool_decide (gid ∈ (training_claims st).*1)) ValueError;
          Ok (gid, mkGroup m (default 0 (start_weight_list st !! i))
                    (default 0 (end_weight_list st !! i))
                    (default None (target_step_list st !! i)) gid)
      | _, _ => Raise RuntimeError
      end
  end.

(** The local deletion: the stable ids are resolved again, and the slots found
    are deleted from the highest index down. *)
Definition drop_groups (gids : list string) (st : TQ) : TQ * nat :=
  let idxs := py_sort (fun a b => b <? a)%nat (omap (fun g => index_of g st) gids) in
  (foldl (fun st i => delete_slot i st) st idxs, length idxs).

(** [_remove_groups_unlocked] after its awaits, without claims. *)
Definition removal_finish (gids : list string) (st : TQ) : TQ * nat := drop_groups gids st.

(** [claim_for_training] under its mutation cut: with rows retained there is
    no await between the checks and the deletion. *)
Definition claim_groups (gids : list string) (st : TQ) : res (TQ * nat) :=
  _ ← removal_plan true gids false true st;
  claims ← traverse (build_claim st) gids;
  _ ← raise_if (negb (length (omap (fun g => index_of g st) gids) =? length gids)%nat)
        RuntimeError;
  Ok (drop_groups gids (with_claims st (training_claims st ++ claims))).

Definition claim_for_training (idxs : list Z) (st : TQ) : res (TQ * nat) :=
  r ← claim_resolve idxs st;
  match r with None => Ok (st, 0%nat) | Some gids => claim_groups gids st end.

(** [remove] when no other operation runs between its awaits. *)
Definition remove (idxs : list Z) (clear canonical_ok staging_ok : bool) (st : TQ)
    : res (TQ * list dp_call * nat) :=
  r ← remove_resolve idxs st;
  match r with
  | None => Ok (st, [], 0%nat)
  | Some gids =>
      '(sids, keys) ← removal_plan true gids clear false st;
      let '(calls, ok) := removal_calls sids keys clear canonical_ok staging_ok st in
      _ ← ok;
      let '(st', n) := removal_finish gids st in
      Ok (st', calls, n)
  end.

Definition training_owned_replay_groups (st : TQ) : list GroupMeta := (training_claims st).*2.

Definition training_owned_group_ids (st : TQ) : list string := (training_claims st).*1.

Definition release_training_claims (gids : list string) (st : TQ) : res TQ :=
  _ ← raise_if (negb (bool_decide (NoDup gids))) ValueError;
  _ ← raise_if (negb (bool_decide (Forall (fun g => g ∈ (training_claims st).*1) gids)
                      && bool_decide (Forall (fun g => g ∈ gids) (training_claims st).*1)))
        ValueError;
  Ok (with_claims st
    (List.filter (fun c => negb (bool_decide (c.1 ∈ gids))) (training_claims st))).

(** [clear_staging_keys]. *)
Definition clear_staging_keys (live : bool) (keys : list string) (st : TQ) : res (list dp_call) :=
  _ ← raise_if (negb live) RuntimeError;
  match keys with
  | [] => Ok []
  | _ =>
      match staging_partition_id st with
      | None => Raise RuntimeError
      | Some part =>
          _ ← raise_if (negb (barrier_bound st)) RuntimeError;
          Ok [ClearSamples part (fromkeys [] keys)]
      end
  end.

(** ** Target steps *)

Definition count_for_target_step (t : Z) (st : TQ) : nat :=
  length (List.filter (fun x => bool_decide (x = Some t)) (target_step_list st)).

(** The scan for the furthest ready later step: the lender so far. *)
Definition lender_step (to : Z) (ready : list bool) (best : option (nat * Z))
    (q : nat * option Z) : option (nat * Z) :=
  match q.2 with
  | None => best
  | Some t =>
      if (t <=? to) || negb (default false (ready !! q.1)) then best
      else match best with
      | None => Some (q.1, t)
      | Some (_, bt) => if bt <? t then Some (q.1, t) else best
      end
  end.

Definition promote_ready_group (to : Z) (st : TQ) : TQ * option Z :=
  match foldl (lender_step to (ready_list st)) None (enumerate (target_step_list st)) with
  | None => (st, None)
  | Some (idx, t) =>
      (with_lists st (meta_list st) (start_weight_list st) (end_weight_list st)
         (<[idx := Some to]> (target_step_list st)) (ready_list st) (group_ids st)
         (rollout_ids_list st) (staging_keys_list st), Some t)
  end.

Definition size (st : TQ) : nat := length (meta_list st).

(** ** Checkpointing the index *)

(** A checkpointed group as read back: a missing key is [None], and
    [rg_fields_data] says whether the key ["fields_data"] is present. *)
Record RawGroup := mkRaw {
  rg_fields_data : bool;
  rg_meta : option KVBatchMeta;
  rg_start_weight : option Z;
  rg_end_weight : option Z;
  rg_target_step : option (option Z);
  rg_group_id : option string }.

(** The envelope [metadata_state_dict] returns and [load_state_dict] reads. *)
Record Envelope := mkEnv {
  env_schema_version : option Z;
  env_storage : option string;
  env_partition_id : option string;
  env_saved_capacity : option Z;
  env_manifest_digest : option string;
  env_groups : option (list RawGroup) }.

Definition raw_of (g : GroupMeta) : RawGroup :=
  mkRaw false (Some (g_meta g)) (Some (g_start_weight g)) (Some (g_end_weight g))
    (Some (g_target_step g)) (Some (g_group_id g)).

Definition group_of_raw (r : RawGroup) : option GroupMeta :=
  match rg_meta r, rg_start_weight r, rg_end_weight r, rg_target_step r, rg_group_id r with
  | Some m, Some s, Some e, Some t, Some g => Some (mkGroup m s e t g)
  | _, _, _, _, _ => None
  end.

(** The groups of the ready slots, in order. *)
Fixpoint ready_groups (ready : list bool) (i : nat) (st : TQ) : res (list GroupMeta) :=
  match ready with
  | [] => Ok []
  | false :: rest => ready_groups rest (S i) st
  | true :: rest =>
      match default None (meta_list st !! i) with
      | None => Raise AssertionError
      | Some m =>
          gs ← ready_groups rest (S i) st;
          Ok (mkGroup m (default 0 (start_weight_list st !! i)) (default 0 (end_weight_list st !! i))
                (default None (target_step_list st !! i)) (default "" (group_ids st !! i)) :: gs)
      end
  end.

(** The loop over [additional_groups]. *)
Fixpoint add_groups (gs additional : list GroupMeta) : res (list GroupMeta) :=
  match additional with
  | [] => Ok gs
  | g :: rest =>
      _ ← raise_if (bool_decide (g_group_id g ∈ g_group_id <$> gs)) ValueError;
      _ ← raise_if (existsb (fun s => bool_decide (s ∈ concat ((fun g => sample_ids (g_meta g)) <$> gs)))
            (sample_ids (g_meta g))) ValueError;
      add_groups (gs ++ [g]) rest
  end.

(** The checks of [load_state_dict] on one group; returns it with its
    sample ids added to [seen]. *)
Definition load_check_group (partition : string) (gsize : Z) (seen : list string) (r : RawGroup)
    : res (GroupMeta * list string) :=
  _ ← raise_if (rg_fields_data r) ValueError;
  match group_of_raw r with
  | None => Raise ValueError
  | Some g =>
      let m := g_meta g in
      let ids := Z.of_nat (length (sample_ids m)) in
      let num_tags := match tags m with Some l => Z.of_nat (length l) | None => -1 end in
      let num_lengths :=
        match sequence_lengths m with Some l => Z.of_nat (length l) | None => -1 end in
      let logical := has_logical_owners m in
      _ ← raise_if (negb (bool_decide (partition_id m = partition))) ValueError;
      _ ← raise_if (negb ((ids =? num_tags) && (num_tags =? num_lengths))
                    || (negb logical && negb (ids =? gsize))) ValueError;
      _ ← (if logical then
             owners ← validate_logical_owner_metadata m gsize;
             raise_if (negb (forallb (fun k => bool_decide (k = g_group_id g)) owners.*1
                             && negb (bool_decide (owners.*1 = [])))) ValueError
           else Ok tt);
      _ ← raise_if (negb (bool_decide (NoDup (sample_ids m)))
                    || existsb (fun s => bool_decide (s ∈ seen)) (sample_ids m)) ValueError;
      Ok (g, seen ++ sample_ids m)
  end.

Fixpoint load_check_groups (partition : string) (gsize : Z) (seen : list string)
    (rs : list RawGroup) : res (list GroupMeta) :=
  match rs with
  | [] => Ok []
  | r :: rest =>
      '(g, seen') ← load_check_group partition gsize seen r;
      gs ← load_check_groups partition gsize seen' rest;
      Ok (g :: gs)
  end.

(** One restored slot: staging ownership is rebuilt from the route plans. *)
Definition restore_group (st : TQ) (g : GroupMeta) : res TQ :=
  decoded ← traverse decode_route_plan (tagged_plans (g_meta g));
  let keys := concat (cleanup_staging_keys <$> decoded) in
  Ok (with_lists st (meta_list st ++ [Some (g_meta g)])
    (start_weight_list st ++ [g_start_weight g]) (end_weight_list st ++ [g_end_weight g])
    (target_step_list st ++ [g_target_step g]) (ready_list st ++ [true])
    (group_ids st ++ [g_group_id g]) (rollout_ids_list st ++ [Some (sample_ids (g_meta g))])
    (staging_keys_list st ++
       [match keys with [] => None | _ => Some (fromkeys [] keys) end])).

Fixpoint restore_groups (st : TQ) (gs : list GroupMeta) : res TQ :=
  match gs with
  | [] => Ok st
  | g :: rest => st' ← restore_group st g; restore_groups st' rest
  end.

Section checkpoint.
  Context (sha256_json : PyVal -> string).

Definition metadata_state_dict (saved_capacity : Z) (additional : list GroupMeta) (st : TQ)
    : res Envelope :=
  ready ← ready_groups (ready_list st) 0 st;
  gs ← add_groups ready additional;
  digest ← replay_manifest_digest sha256_json gs;
  Ok (mkEnv (Some REPLAY_BUFFER_METADATA_SCHEMA_VERSION) (Some REPLAY_BUFFER_METADATA_STORAGE)
        (Some (tq_partition_id st)) (Some saved_capacity) (Some digest)
        (Some (raw_of <$> gs))).

Definition load_state_dict (env : Envelope) (max_groups : Z) (partition : string) (gsize : Z)
    (expected_digest : string) (st : TQ) : res (TQ * nat) :=
  _ ← raise_if (negb (bool_decide (meta_list st = []) && bool_decide (group_ids st = [])
                      && match training_claims st with [] => true | _ => false end)) RuntimeError;
  match env_schema_version env, env_storage env, env_partition_id env, env_saved_capacity env,
        env_manifest_digest env, env_groups env with
  | Some version, Some storage, Some part, Some _, Some digest, Some raws =>
      _ ← raise_if (negb (version =? REPLAY_BUFFER_METADATA_SCHEMA_VERSION)) ValueError;
      _ ← raise_if (negb (bool_decide (storage = REPLAY_BUFFER_METADATA_STORAGE))) ValueError;
      _ ← raise_if (negb (bool_decide (part = partition))) ValueError;
      gs ← load_check_groups partition gsize [] raws;
      actual ← replay_manifest_digest sha256_json gs;
      _ ← raise_if (negb (bool_decide (digest = actual))) ValueError;
      _ ← raise_if (negb (bool_decide (expected_digest = actual))) ValueError;
      _ ← raise_if (max_groups <? Z.of_nat (length gs)) ValueError;
      st' ← restore_groups st gs;
      Ok (st', length gs)
  | _, _, _, _, _, _ => Raise ValueError
  end.
End checkpoint.

(** ** The parallel lists are one list of slots *)

Record Slot := mkSlot {
  s_meta : option KVBatchMeta;
  s_start : Z;
  s_end : Z;
  s_target : option Z;
  s_ready : bool;
  s_gid : string;
  s_rollouts : option (list string);
  s_staging : option (list string) }.

Record represents (st : TQ) (l : list Slot) : Prop := {
  rep_meta : meta_list st = s_meta <$> l;
  rep_start : start_weight_list st = s_start <$> l;
  rep_end : end_weight_list st = s_end <$> l;
  rep_target : target_step_list st = s_target <$> l;
  rep_ready : ready_list st = s_ready <$> l;
  rep_gid : group_ids st = s_gid <$> l;
  rep_rollouts : rollout_ids_list st = s_rollouts <$> l;
  rep_staging : staging_keys_list st = s_staging <$> l }.

(** The buffer's invariant: aligned lists, one slot per group, metadata in
    every ready slot, one claim per group. *)
Definition wf (st : TQ) : Prop :=
  exists l, represents st l /\ NoDup (s_gid <$> l) /\
    Forall (fun s => s_ready s = true -> s_meta s <> None) l /\
    NoDup (training_claims st).*1.

Lemma index_of_Some st l gid i :
  represents st l -> NoDup (s_gid <$> l) ->
  index_of gid st = Some i <-> exists s, l !! i = Some s /\ s_gid s = gid.
Proof.
  intros Hr Hn. unfold index_of. rewrite (rep_gid _ _ Hr). split.
  - destruct (list_find _ _) as [[j g]|] eqn:E; [|done]. intros [= <-].
    apply list_find_Some in E as (Hl & -> & _). rewrite list_lookup_fmap in Hl.
    apply fmap_Some in Hl as (s & ? & ->). eauto.
  - intros (s & Hi & Hg). destruct (list_find _ _) as [[j g]|] eqn:E.
    + apply list_find_Some in E as (Hl & Heq & _). cbn. f_equal.
      eapply (NoDup_lookup (s_gid <$> l)); [done|exact Hl|].
      by rewrite list_lookup_fmap, Hi, Heq, <- Hg.
    + exfalso. apply (list_find_None (fun g => g = gid)) in E.
      rewrite Forall_forall in E. apply (E gid); [|done]. apply list_elem_of_fmap.
      exists s. split; [done|]. by eapply list_elem_of_lookup_2.
Qed.

Lemma index_of_None st l gid :
  represents st l -> index_of gid st = None <-> gid ∉ s_gid <$> l.
Proof.
  intros Hr. unfold index_of. rewrite (rep_gid _ _ Hr), fmap_None, list_find_None, Forall_forall.
  split; [intros H Hin; by eapply H|]. intros H x Hx ->. done.
Qed.

Lemma delete_slot_represents st l idx :
  represents st l -> represents (delete_slot idx st) (delete idx l).
Proof.
  intros []. constructor; cbn; rewrite list_fmap_delete; congruence.
Qed.

Lemma delete_slot_claims st idx : training_claims (delete_slot idx st) = training_claims st.
Proof. done. Qed.

Lemma foldl_delete_represents idxs : forall st l,
  represents st l ->
  let st' := foldl (fun st i => delete_slot i st) st idxs in
  represents st' (foldl (fun l i => delete i l) l idxs) /\
  training_claims st' = training_claims st.
Proof.
  induction idxs as [|i idxs IH]; intros st l Hr; cbn; [done|].
  destruct (IH _ _ (delete_slot_represents _ _ i Hr)) as [H1 H2]. split; [done|].
  by rewrite H2.
Qed.

Definition keeps (gids : list string) (s : Slot) : bool := negb (bool_decide (s_gid s ∈ gids)).

(** Whatever the other operations did since the groups were named, the local
    deletion removes exactly the slots of the named groups that are still
    there, and keeps the others in order. *)
Lemma drop_groups_spec st l gids :
  represents st l -> NoDup (s_gid <$> l) -> NoDup gids ->
  represents (drop_groups gids st).1 (List.filter (keeps gids) l) /\
  training_claims (drop_groups gids st).1 = training_claims st /\
  (drop_groups gids st).2 = length (List.filter (fun s => negb (keeps gids s)) l).
Proof.
  intros Hr Hn Hg. unfold drop_groups. set (idxs := omap _ gids).
  set (P := fun s : Slot => bool_decide (s_gid s ∈ gids)).
  assert (forall i, i ∈ idxs <-> i ∈ indices_where P l) as Hiff.
  { intros i. unfold idxs. rewrite list_elem_of_omap, elem_of_indices_where. split.
    - intros (g & Hin & Hi). apply (index_of_Some _ _ _ _ Hr Hn) in Hi as (s & Hs & <-).
      exists s. split; [done|]. by apply bool_decide_eq_true.
    - intros (s & Hs & HP%bool_decide_eq_true). exists (s_gid s). split; [done|].
      apply (index_of_Some _ _ _ _ Hr Hn). eauto. }
  assert (NoDup idxs) as Hnd.
  { unfold idxs. clear Hiff idxs P. induction Hg as [|g gids Hgn Hg IH]; cbn; [constructor|].
    destruct (index_of g st) as [i|] eqn:E; [|done]. constructor; [|done].
    intros (g' & Hin & Hi)%list_elem_of_omap.
    apply (index_of_Some _ _ _ _ Hr Hn) in E as (s & Hs & <-).
    apply (index_of_Some _ _ _ _ Hr Hn) in Hi as (s' & Hs' & <-). congruence. }
  rewrite (sort_desc_indices P l idxs Hnd Hiff). cbn [fst snd].
  destruct (foldl_delete_represents (reverse (indices_where P l)) st l Hr) as [H1 H2].
  split; [|split; [done|]].
  - rewrite foldl_delete_reverse in H1.
    change (keeps gids) with (fun s => negb (P s)). by rewrite <- foldr_delete_indices.
  - rewrite length_reverse. clear. unfold P, keeps.
    induction l as [|s l IH]; [done|]. rewrite indices_where_cons, length_app, length_fmap, IH.
    cbn. rewrite negb_involutive. by destruct (bool_decide _).
Qed.

(** The lists determine the slots. *)
Lemma represents_inj st l l' : represents st l -> represents st l' -> l = l'.
Proof.
  intros [A1 A2 A3 A4 A5 A6 A7 A8] [B1 B2 B3 B4 B5 B6 B7 B8].
  rewrite A1 in B1. rewrite A2 in B2. rewrite A3 in B3. rewrite A4 in B4.
  rewrite A5 in B5. rewrite A6 in B6. rewrite A7 in B7. rewrite A8 in B8.
  clear -B1 B2 B3 B4 B5 B6 B7 B8. revert l' B1 B2 B3 B4 B5 B6 B7 B8.
  induction l as [|s l IH]; intros [|s' l']; try done. cbn.
  intros [= ? ?] [= ? ?] [= ? ?] [= ? ?] [= ? ?] [= ? ?] [= ? ?] [= ? ?].
  f_equal; [destruct s, s'; cbn in *; congruence|by apply IH].
Qed.

(** ** Each operation on the list of slots *)

Definition new_slot (w : Z) (t : option Z) (gid : string) (ro : option (list string)) : Slot :=
  mkSlot None w (-1) t false gid ro None.

Lemma reserve_spec w t gid ro uuid st l st' g :
  represents st l -> reserve w t gid ro uuid st = Ok (st', g) ->
  g = default uuid gid /\ (g ∉ s_gid <$> l) /\
  represents st' (l ++ [new_slot w t g ro]) /\ training_claims st' = training_claims st.
Proof.
  intros Hr H. unfold reserve in H. apply bind_Ok in H as ([] & Hd%raise_if_Ok & [= <- <-]).
  apply bool_decide_eq_false in Hd. rewrite (rep_gid _ _ Hr) in Hd.
  split_and!; [done|done| |done].
  destruct Hr. constructor; cbn; rewrite fmap_app; cbn; congruence.
Qed.

Definition commit_slot (m : KVBatchMeta) (e : Z) (s : Slot) : Slot :=
  mkSlot (Some m) (s_start s) e (s_target s) true (s_gid s) (s_rollouts s) (s_staging s).

Definition finalize_slot (m : KVBatchMeta) (mn mx : Z) (ks : option (list string)) (s : Slot)
    : Slot :=
  mkSlot (Some m) mn mx (s_target s) true (s_gid s) (s_rollouts s) ks.

Definition retarget_slot (t : Z) (s : Slot) : Slot :=
  mkSlot (s_meta s) (s_start s) (s_end s) (Some t) (s_ready s) (s_gid s) (s_rollouts s)
    (s_staging s).

Ltac rep_insert Hi :=
  constructor; cbn;
  repeat match goal with
  | H : ?f ?st = ?g <$> _ |- context [?f ?st] => rewrite H; clear H
  end;
  rewrite ?list_fmap_insert; try done;
  symmetry; apply list_insert_id; by rewrite list_lookup_fmap, Hi.

Lemma commit_finish_spec gid sids e outcome clear_ok st l st' calls r :
  represents st l -> NoDup (s_gid <$> l) ->
  commit_finish gid sids e outcome clear_ok st = (st', calls, r) ->
  match r with
  | Ok m => outcome = Written m /\ calls = [] /\ training_claims st' = training_claims st /\
      exists i s, l !! i = Some s /\ s_gid s = gid /\
        represents st' (<[i := commit_slot m e s]> l)
  | Raise _ => st' = st /\ calls = [ClearSamples (tq_partition_id st) sids]
  end.
Proof.
  intros Hr Hn H. unfold commit_finish, commit_rollback in H.
  destruct outcome as [ex| |m].
  - injection H as <- <- <-. by repeat case_match.
  - injection H as <- <- <-. by destruct clear_ok.
  - destruct (index_of gid st) as [idx|] eqn:E; injection H as <- <- <-.
    + split_and!; [done..|]. apply (index_of_Some _ _ _ _ Hr Hn) in E as (s & Hi & Hg).
      exists idx, s. split_and!; [done..|]. destruct Hr. rep_insert Hi.
    + by destruct clear_ok.
Qed.

Lemma commit_finalized_spec gid m mn mx ks st l st' m' :
  represents st l -> NoDup (s_gid <$> l) ->
  commit_finalized_finish gid m mn mx ks st = Ok (st', m') ->
  m' = m /\ training_claims st' = training_claims st /\
  exists i s, l !! i = Some s /\ s_gid s = gid /\
    represents st' (<[i := finalize_slot m mn mx ks s]> l).
Proof.
  intros Hr Hn H. unfold commit_finalized_finish in H.
  destruct (index_of gid st) as [idx|] eqn:E; [|done]. injection H as <- <-.
  split_and!; [done..|]. apply (index_of_Some _ _ _ _ Hr Hn) in E as (s & Hi & Hg).
  exists idx, s. split_and!; [done..|]. destruct Hr. rep_insert Hi.
Qed.

Lemma abort_spec gid st l :
  represents st l -> NoDup (s_gid <$> l) ->
  training_claims (abort gid st).1 = training_claims st /\
  (((abort gid st).1 = st /\ (abort gid st).2 = false) \/
   (exists i s, l !! i = Some s /\ s_gid s = gid /\ s_ready s = false /\
      (abort gid st).2 = true /\ represents (abort gid st).1 (delete i l))).
Proof.
  intros Hr Hn. unfold abort. destruct (index_of gid st) as [idx|] eqn:E; [|by auto].
  apply (index_of_Some _ _ _ _ Hr Hn) in E as (s & Hi & Hg).
  rewrite (rep_ready _ _ Hr), list_lookup_fmap, Hi. cbn.
  destruct (s_ready s) eqn:Es; [by auto|]. split; [done|]. right. exists idx, s.
  split_and!; try done. by apply delete_slot_represents.
Qed.

Lemma gids_insert (l : list Slot) i s s' :
  l !! i = Some s -> s_gid s' = s_gid s -> s_gid <$> <[i := s']> l = s_gid <$> l.
Proof.
  intros Hi Hg. rewrite list_fmap_insert, Hg. apply list_insert_id.
  by rewrite list_lookup_fmap, Hi.
Qed.

(** ** Interleaved operations

    One atomic segment of any operation, under any schedule. *)
Inductive step : TQ -> TQ -> Prop :=
| step_barrier st st' : set_data_plane_checkpoint_barrier st = Ok st' -> step st st'
| step_reserve w t gid ro uuid st st' g :
    reserve w t gid ro uuid st = Ok (st', g) -> step st st'
| step_commit gid sids e outcome ok st st' calls r :
    commit_finish gid sids e outcome ok st = (st', calls, r) -> step st st'
| step_finalize gid m mn mx ks st st' m' :
    commit_finalized_finish gid m mn mx ks st = Ok (st', m') -> step st st'
| step_abort gid st : step st (abort gid st).1
| step_remove gids st : NoDup gids -> step st (removal_finish gids st).1
| step_claim gids st st' n : claim_groups gids st = Ok (st', n) -> step st st'
| step_release gids st st' : release_training_claims gids st = Ok st' -> step st st'
| step_promote to st : step st (promote_ready_group to st).1.

Inductive reachable (partition : string) (staging : option string) : TQ -> Prop :=
| reachable_init : reachable partition staging (init partition staging)
| reachable_step st st' :
    reachable partition staging st -> step st st' -> reachable partition staging st'.

Definition good_slots (l : list Slot) : Prop :=
  NoDup (s_gid <$> l) /\ Forall (fun s => s_ready s = true -> s_meta s <> None) l.

Lemma good_insert (l : list Slot) i s s' :
  good_slots l -> l !! i = Some s -> s_gid s' = s_gid s ->
  (s_ready s' = true -> s_meta s' <> None) -> good_slots (<[i := s']> l).
Proof.
  intros [H1 H2] Hi Hg Hm. split; [by erewrite gids_insert|]. by apply Forall_insert.
Qed.

Lemma good_delete (l : list Slot) i : good_slots l -> good_slots (delete i l).
Proof.
  intros [H1 H2]. split.
  - rewrite list_fmap_delete. eapply sublist_NoDup; [exact H1|]. apply sublist_delete.
  - by apply Forall_delete.
Qed.

Lemma good_filter (l : list Slot) P : good_slots l -> good_slots (List.filter P l).
Proof.
  intros [H1 H2]. pose proof (filter_sublist P l) as Hs. split.
  - eapply sublist_NoDup; [exact H1|]. by apply fmap_sublist.
  - rewrite Forall_forall in H2 |- *. intros s [Hin _]%list_filter_elem_of. auto.
Qed.

Lemma promote_spec to st l :
  represents st l ->
  training_claims (promote_ready_group to st).1 = training_claims st /\
  exists l', represents (promote_ready_group to st).1 l' /\
    (l' = l \/ exists i s, l !! i = Some s /\ l' = <[i := retarget_slot to s]> l).
Proof.
  intros Hr. unfold promote_ready_group. destruct (foldl _ _ _) as [[idx t]|]; [|by eauto].
  split; [done|]. destruct (l !! idx) as [s|] eqn:Hi.
  - exists (<[idx := retarget_slot to s]> l). split; [|by eauto]. destruct Hr. rep_insert Hi.
  - exists l. split; [|by auto]. destruct Hr. constructor; cbn; try done.
    rewrite list_insert_ge; [done|]. apply lookup_ge_None in Hi.
    rewrite rep_target0, length_fmap. done.
Qed.

(** ** Claims *)

Definition group_of_slot (s : Slot) : option GroupMeta :=
  m ← s_meta s; Some (mkGroup m (s_start s) (s_end s) (s_target s) (s_gid s)).

(** The groups of the ready slots: what a checkpoint records. *)
Definition ready_index (l : list Slot) : list GroupMeta :=
  omap (fun s => if s_ready s then group_of_slot s else None) l.

Lemma build_claim_spec st l gid c :
  represents st l -> NoDup (s_gid <$> l) -> build_claim st gid = Ok c ->
  c.1 = gid /\ (gid ∉ (training_claims st).*1) /\
  exists s, s ∈ l /\ s_gid s = gid /\ s_ready s = true /\ group_of_slot s = Some c.2.
Proof.
  intros Hr Hn H. unfold build_claim in H. destruct (index_of gid st) as [i|] eqn:E; [|done].
  apply (index_of_Some _ _ _ _ Hr Hn) in E as (s & Hi & Hg).
  rewrite (rep_meta _ _ Hr), (rep_ready _ _ Hr), (rep_start _ _ Hr), (rep_end _ _ Hr),
    (rep_target _ _ Hr), !list_lookup_fmap, Hi in H. cbn in H.
  destruct (s_meta s) as [m|] eqn:Em; [|done]. destruct (s_ready s) eqn:Es; [|done].
  apply bind_Ok in H as ([] & Hd%raise_if_Ok & [= <-]). apply bool_decide_eq_false in Hd.
  split_and!; [done|done|]. exists s. split_and!; try done.
  - by eapply list_elem_of_lookup_2.
  - unfold group_of_slot. rewrite Em. cbn. by rewrite Hg.
Qed.

Lemma NoDup_gid_inj (l : list Slot) s s' :
  NoDup (s_gid <$> l) -> s ∈ l -> s' ∈ l -> s_gid s = s_gid s' -> s = s'.
Proof.
  intros Hn (i & Hi)%list_elem_of_lookup (j & Hj)%list_elem_of_lookup Hg.
  assert (i = j) as ->; [|congruence].
  eapply (NoDup_lookup (s_gid <$> l)); [done| |]; rewrite list_lookup_fmap.
  - by rewrite Hi.
  - rewrite Hj. cbn. by rewrite Hg.
Qed.

(** The ready groups split into the named ones and the rest. *)
Lemma ready_index_split gids l :
  ready_index l ≡ₚ ready_index (List.filter (keeps gids) l) ++
                   ready_index (List.filter (fun s => negb (keeps gids s)) l).
Proof.
  induction l as [|s l IH]; [done|]. cbn [List.filter].
  destruct (keeps gids s); cbn [negb]; unfold ready_index in *; cbn [omap list_omap];
    destruct (if s_ready s then _ else _); cbn; rewrite IH; try done.
  by rewrite Permutation_middle.
Qed.

#[export] Instance ready_index_proper : Proper ((≡ₚ) ==> (≡ₚ)) ready_index.
Proof. apply omap_Permutation. Qed.

Lemma claims_cover l gids (claims : list (string * GroupMeta)) :
  NoDup (s_gid <$> l) -> NoDup gids ->
  Forall2 (fun g c => c.1 = g /\ exists s, s ∈ l /\ s_gid s = g /\ s_ready s = true /\
             group_of_slot s = Some c.2) gids claims ->
  ready_index (List.filter (fun s => negb (keeps gids s)) l) ≡ₚ claims.*2.
Proof.
  intros Hn Hg Hc.
  assert (exists ss, s_gid <$> ss = gids /\ Forall (fun s => s ∈ l) ss /\
            ready_index ss = claims.*2) as (ss & Hss1 & Hss2 & <-).
  { clear Hg. induction Hc as [|g c gids claims (Hc1 & s & Hs & Hsg & Hsr & Hm) _ IH].
    { by exists []. }
    destruct IH as (ss & <- & H2 & H3). exists (s :: ss). split_and!.
    - cbn. by rewrite Hsg.
    - by constructor.
    - unfold ready_index in *. cbn. by rewrite Hsr, Hm, H3. }
  apply ready_index_proper. apply NoDup_Permutation.
  - apply (NoDup_fmap_1 s_gid). eapply sublist_NoDup; [exact Hn|].
    apply fmap_sublist, filter_sublist.
  - apply (NoDup_fmap_1 s_gid). by rewrite Hss1.
  - intros s. rewrite list_filter_elem_of. unfold keeps.
    rewrite negb_involutive, bool_decide_eq_true, <- Hss1. rewrite Forall_forall in Hss2. split.
    + intros [Hin (s' & Hs' & Hin')%list_elem_of_fmap].
      by rewrite (NoDup_gid_inj l s s' Hn Hin (Hss2 _ Hin') Hs').
    + intros Hin. split; [auto|]. by apply list_elem_of_fmap_2.
Qed.

Lemma claim_groups_spec st l gids st' n :
  represents st l -> NoDup (s_gid <$> l) -> NoDup (training_claims st).*1 ->
  claim_groups gids st = Ok (st', n) ->
  NoDup gids /\ n = length gids /\
  represents st' (List.filter (keeps gids) l) /\
  exists claims, training_claims st' = training_claims st ++ claims /\ claims.*1 = gids /\
    NoDup (training_claims st').*1 /\
    ready_index (List.filter (fun s => negb (keeps gids s)) l) ≡ₚ claims.*2.
Proof.
  intros Hr Hn Hcl H. unfold claim_groups in H. apply bind_Ok in H as (x & Hplan & H).
  apply bind_Ok in H as (claims & Hclaims & H). apply bind_Ok in H as ([] & Hlen & H).
  remember (drop_groups _ _) as d eqn:Hd in H. injection H as ->.
  apply raise_if_Ok, negb_false_iff, Nat.eqb_eq in Hlen.
  assert (NoDup gids) as Hg.
  { unfold removal_plan in Hplan. apply bind_Ok in Hplan as (? & _ & Hplan).
    apply bind_Ok in Hplan as (? & _ & Hplan). apply bind_Ok in Hplan as (? & Hp & _).
    by apply raise_if_Ok, negb_false_iff, bool_decide_eq_true in Hp. }
  assert (Forall2 (fun g c => c.1 = g /\ (g ∉ (training_claims st).*1) /\
     exists s, s ∈ l /\ s_gid s = g /\ s_ready s = true /\ group_of_slot s = Some c.2) gids claims) as Hc.
  { apply traverse_Ok in Hclaims. eapply Forall2_impl; [exact Hclaims|]. cbn.
    intros g c Hb. by apply (build_claim_spec _ _ _ _ Hr Hn). }
  assert (claims.*1 = gids) as Hfst.
  { clear -Hc. induction Hc as [|g c gids claims [Hc _] _ IH]; cbn; [done|]. by rewrite Hc, IH. }
  set (st1 := with_claims st (training_claims st ++ claims)) in *.
  assert (represents st1 l) as Hr1 by (destruct Hr; by constructor).
  destruct (drop_groups_spec st1 l gids Hr1 Hn) as (D1 & D2 & D3); [done|].
  rewrite <- Hd in D1, D2, D3. cbn [fst snd] in *.
  split_and!; [done| |done|].
  - unfold drop_groups in Hd. injection Hd as _ ->. by rewrite py_sort_length.
  - exists claims. rewrite D2. split_and!; [done|done| |].
    + cbn. rewrite fmap_app, Hfst. apply NoDup_app. split_and!; [done| |done].
      intros g Hin Hgin. apply list_elem_of_lookup in Hgin as (i & Hi).
      destruct (Forall2_lookup_l _ _ _ _ _ Hc Hi) as (c & _ & _ & Hni & _). done.
    + apply claims_cover; [done..|]. eapply Forall2_impl; [exact Hc|]. cbn. tauto.
Qed.

(** ** Invariant of every reachable buffer *)

Lemma step_wf st st' l :
  represents st l -> good_slots l -> NoDup (training_claims st).*1 -> step st st' ->
  exists l', represents st' l' /\ good_slots l' /\ NoDup (training_claims st').*1.
Proof.
  intros Hr Hg Hc Hs. pose proof Hg as [Hn Hm]. destruct Hs.
  - unfold set_data_plane_checkpoint_barrier in H. apply bind_Ok in H as (? & _ & [= <-]).
    exists l. split_and!; [|done|done]. destruct Hr. by constructor.
  - destruct (reserve_spec _ _ _ _ _ _ _ _ _ Hr H) as (_ & Hni & Hr' & Hcl).
    exists (l ++ [new_slot w t g ro]). rewrite Hcl. split_and!; [done| |done]. split.
    + rewrite fmap_app. apply NoDup_app. split_and!; [done| |apply NoDup_singleton].
      cbn. set_solver.
    + apply Forall_app; split; [done|]. by constructor.
  - pose proof (commit_finish_spec _ _ _ _ _ _ _ _ _ _ Hr Hn H) as Hsp. destruct r as [m|ex].
    + destruct Hsp as (_ & _ & Hcl & i & s & Hi & Hsg & Hr'). rewrite Hcl.
      eexists. split_and!; [exact Hr'| |done]. by eapply good_insert.
    + destruct Hsp as [-> _]. eauto.
  - destruct (commit_finalized_spec _ _ _ _ _ _ _ _ _ Hr Hn H) as (_ & Hcl & i & s & Hi & Hsg & Hr').
    rewrite Hcl. eexists. split_and!; [exact Hr'| |done]. by eapply good_insert.
  - destruct (abort_spec gid _ _ Hr Hn) as [Hcl [[-> _]|(i & s & Hi & _ & _ & _ & Hr')]]; [eauto|].
    rewrite Hcl. eexists. split_and!; [exact Hr'| |done]. by apply good_delete.
  - destruct (drop_groups_spec _ _ _ Hr Hn H) as (Hr' & Hcl & _). unfold removal_finish.
    rewrite Hcl. eexists. split_and!; [exact Hr'| |done]. by apply good_filter.
  - destruct (claim_groups_spec _ _ _ _ _ Hr Hn Hc H) as (_ & _ & Hr' & claims & _ & _ & Hnd & _).
    eexists. split_and!; [exact Hr'| |done]. by apply good_filter.
  - unfold release_training_claims in H. apply bind_Ok in H as (? & _ & H).
    apply bind_Ok in H as (? & _ & [= <-]). exists l. split_and!; [|done|].
    + destruct Hr. by constructor.
    + cbn. eapply sublist_NoDup; [exact Hc|]. apply fmap_sublist, filter_sublist.
  - destruct (promote_spec to _ _ Hr) as [Hcl (l' & Hr' & Hl')]. rewrite Hcl.
    exists l'. split_and!; [done| |done]. destruct Hl' as [->|(i & s & Hi & ->)]; [done|].
    eapply good_insert; [done|done|done|]. cbn.
    eapply Forall_lookup_1 in Hm; [|done]. done.
Qed.

Lemma reachable_wf partition staging st :
  reachable partition staging st ->
  exists l, represents st l /\ good_slots l /\ NoDup (training_claims st).*1.
Proof.
  induction 1 as [|st st' _ (l & Hr & Hg & Hc) Hs].
  - exists []. split_and!; [by constructor|repeat constructor|constructor].
  - by eapply step_wf.
Qed.

(** ** Saving and loading *)

Lemma ready_groups_spec st l1 l2 :
  represents st (l1 ++ l2) -> good_slots (l1 ++ l2) ->
  ready_groups (s_ready <$> l2) (length l1) st = Ok (ready_index l2).
Proof.
  revert l1. induction l2 as [|s l2 IH]; intros l1 Hr Hg; [done|].
  specialize (IH (l1 ++ [s])). rewrite <- app_assoc, length_app in IH. cbn in IH.
  replace (length l1 + 1)%nat with (S (length l1)) in IH by lia. specialize (IH Hr Hg).
  cbn. unfold ready_index in *. cbn. destruct (s_ready s) eqn:Es; [|done].
  rewrite (rep_meta _ _ Hr), (rep_start _ _ Hr), (rep_end _ _ Hr), (rep_target _ _ Hr),
    (rep_gid _ _ Hr), !list_lookup_fmap, lookup_app_r, Nat.sub_diag by lia. cbn.
  destruct Hg as [_ Hm]. apply Forall_app in Hm as [_ Hm]. apply Forall_cons in Hm as [Hm _].
  specialize (Hm Es). destruct (s_meta s) as [m|] eqn:Em; [|done]. rewrite IH.
  unfold group_of_slot. rewrite Em. done.
Qed.

Lemma add_groups_Ok additional : forall gs r,
  add_groups gs additional = Ok r -> r = gs ++ additional.
Proof.
  induction additional as [|g rest IH]; intros gs r H; cbn in H.
  { injection H as <-. by rewrite app_nil_r. }
  apply bind_Ok in H as (? & _ & H). apply bind_Ok in H as (? & _ & H).
  apply IH in H. by rewrite H, <- app_assoc.
Qed.

Lemma load_check_groups_Ok partition gsize gs : forall seen r,
  load_check_groups partition gsize seen (raw_of <$> gs) = Ok r -> r = gs.
Proof.
  induction gs as [|g gs IH]; intros seen r H; cbn [fmap list_fmap load_check_groups] in H.
  { by injection H as <-. }
  apply bind_Ok in H as ([g' seen'] & Hg & H). apply bind_Ok in H as (gs' & Hgs & [= <-]).
  apply IH in Hgs as ->. f_equal. unfold load_check_group in Hg.
  apply bind_Ok in Hg as (? & _ & Hg). destruct g. cbn in Hg.
  apply bind_Ok in Hg as (? & _ & Hg). apply bind_Ok in Hg as (? & _ & Hg).
  apply bind_Ok in Hg as (? & _ & Hg). apply bind_Ok in Hg as (? & _ & [= <- _]). done.
Qed.

Definition restored_slot (g : GroupMeta) (ks : option (list string)) : Slot :=
  mkSlot (Some (g_meta g)) (g_start_weight g) (g_end_weight g) (g_target_step g) true
    (g_group_id g) (Some (sample_ids (g_meta g))) ks.

Lemma restore_group_Ok g st l st' :
  represents st l -> restore_group st g = Ok st' ->
  training_claims st' = training_claims st /\
  exists ks, represents st' (l ++ [restored_slot g ks]).
Proof.
  intros [] H. unfold restore_group in H. apply bind_Ok in H as (decoded & _ & [= <-]).
  split; [done|]. eexists. constructor; cbn; rewrite fmap_app; cbn; by f_equal.
Qed.

Lemma restore_groups_Ok gs : forall st l st',
  represents st l -> restore_groups st gs = Ok st' ->
  training_claims st' = training_claims st /\
  exists l', represents st' (l ++ l') /\
    Forall2 (fun g s => exists ks, s = restored_slot g ks) gs l'.
Proof.
  induction gs as [|g gs IH]; intros st l st' Hr H; cbn [restore_groups] in H.
  { injection H as <-. split; [done|]. exists []. by rewrite app_nil_r. }
  apply bind_Ok in H as (st1 & H1 & H).
  destruct (restore_group_Ok _ _ _ _ Hr H1) as [Hc1 (ks & Hr1)].
  destruct (IH _ _ _ Hr1 H) as [Hc (l' & Hr' & Hl')]. split; [congruence|].
  exists (restored_slot g ks :: l'). rewrite <- app_assoc in Hr'.
  split; [done|]. constructor; eauto.
Qed.

Lemma ready_index_restored gs l :
  Forall2 (fun g s => exists ks, s = restored_slot g ks) gs l ->
  ready_index l = gs /\ Forall (fun s => s_ready s = true) l.
Proof.
  induction 1 as [|g s gs l (ks & ->) _ [IH1 IH2]]; [done|]. split; [|by constructor].
  unfold ready_index in *. cbn. rewrite IH1. by destruct g.
Qed.

(** Ordinary (not forest) groups a load accepts. *)
Definition restorable_group (partition : string) (gsize : Z) (g : GroupMeta) : Prop :=
  let m := g_meta g in
  has_logical_owners m = false /\ partition_id m = partition /\
  Z.of_nat (length (sample_ids m)) = gsize /\
  (exists l, tags m = Some l /\ length l = length (sample_ids m)) /\
  (exists l, sequence_lengths m = Some l /\ length l = length (sample_ids m)) /\
  (exists ps, traverse decode_route_plan (tagged_plans m) = Ok ps).

Definition restorable (partition : string) (gsize : Z) (gs : list GroupMeta) : Prop :=
  Forall (restorable_group partition gsize) gs /\
  NoDup (concat ((fun g => sample_ids (g_meta g)) <$> gs)).

Lemma existsb_decide_false {A} `{EqDecision A} (xs ys : list A) :
  (forall x, x ∈ xs -> x ∉ ys) -> existsb (fun x => bool_decide (x ∈ ys)) xs = false.
Proof.
  intros H. apply not_true_iff_false. intros (x & Hx & Hb)%existsb_exists.
  apply bool_decide_eq_true in Hb. rewrite <- list_elem_of_In in Hx. by eapply H.
Qed.

Lemma load_check_groups_total partition gsize gs : forall seen,
  Forall (restorable_group partition gsize) gs ->
  NoDup (seen ++ concat ((fun g => sample_ids (g_meta g)) <$> gs)) ->
  load_check_groups partition gsize seen (raw_of <$> gs) = Ok gs.
Proof.
  induction gs as [|g gs IH]; intros seen Hg Hn; [done|].
  apply Forall_cons in Hg as [(H1 & H2 & H3 & (ts & H4 & H4') & (ls & H5 & H5') & _) Hg].
  cbn [fmap list_fmap load_check_groups concat] in *.
  rewrite app_assoc in Hn. specialize (IH _ Hg Hn).
  unfold load_check_group. cbn [raw_of rg_fields_data group_of_raw rg_meta rg_start_weight
    rg_end_weight rg_target_step rg_group_id raise_if mbind res_bind g_meta].
  destruct g as [m sw ew tg gid]. cbn [g_meta g_group_id] in *.
  rewrite H1, H2, H4, H5, H4', H5', H3, !Z.eqb_refl.
  rewrite (bool_decide_eq_true_2 (partition = partition)) by done.
  cbn [negb andb orb raise_if mbind res_bind].
  apply NoDup_app in Hn as (Hn & _ & _). apply NoDup_app in Hn as (_ & Hd & Hn).
  rewrite bool_decide_eq_true_2 by done. rewrite existsb_decide_false.
  - cbn [negb orb raise_if mbind res_bind]. by rewrite IH.
  - intros x Hx Hs. by eapply Hd.
Qed.

Lemma restore_groups_total partition gsize gs : forall st,
  Forall (restorable_group partition gsize) gs -> exists st', restore_groups st gs = Ok st'.
Proof.
  induction gs as [|g gs IH]; intros st Hg; [by eexists|].
  apply Forall_cons in Hg as [(_ & _ & _ & _ & _ & ps & Hps) Hg]. cbn [restore_groups].
  unfold restore_group. rewrite Hps. cbn [mbind res_bind]. by apply IH.
Qed.

Lemma step_partition st st' : step st st' -> tq_partition_id st' = tq_partition_id st.
Proof.
  assert (forall idxs st, tq_partition_id (foldl (fun st i => delete_slot i st) st idxs) =
            tq_partition_id st) as Hd.
  { induction idxs as [|i idxs IH]; intros s; [done|]. cbn. by rewrite IH. }
  destruct 1.
  - unfold set_data_plane_checkpoint_barrier in H. by apply bind_Ok in H as (? & _ & [= <-]).
  - unfold reserve in H. by apply bind_Ok in H as (? & _ & [= <- _]).
  - unfold commit_finish, commit_rollback in H.
    destruct outcome; [..|destruct (index_of gid st)]; by injection H as <- _ _.
  - unfold commit_finalized_finish in H. destruct (index_of gid st); [|done].
    by injection H as <- _.
  - unfold abort. destruct (index_of gid st); [|done]. by destruct (default _ _).
  - apply Hd.
  - unfold claim_groups in H. apply bind_Ok in H as (? & _ & H).
    apply bind_Ok in H as (? & _ & H). apply bind_Ok in H as (? & _ & H).
    remember (drop_groups _ _) as d eqn:E. injection H as ->.
    apply (f_equal fst) in E. cbn [fst] in E. rewrite E. unfold drop_groups. cbn [fst].
    etransitivity; [apply Hd|done].
  - unfold release_training_claims in H. apply bind_Ok in H as (? & _ & H).
    by apply bind_Ok in H as (? & _ & [= <-]).
  - unfold promote_ready_group. by destruct (foldl _ _ _) as [[? ?]|].
Qed.

Lemma reachable_partition partition staging st :
  reachable partition staging st -> tq_partition_id st = partition.
Proof. induction 1 as [|st st' _ IH Hs]; [done|]. by rewrite (step_partition _ _ Hs). Qed.

(** ** Promotion *)

Definition lends (to : Z) (ready : list bool) (q : nat * option Z) (t : Z) : Prop :=
  q.2 = Some t /\ to < t /\ ready !! q.1 = Some true.

Lemma lender_fold to ready qs : forall best,
  let r := foldl (lender_step to ready) best qs in
  match r with
  | None => best = None /\ forall q t, q ∈ qs -> ~ lends to ready q t
  | Some (i, t) =>
      (best = Some (i, t) \/ exists o, (i, o) ∈ qs /\ lends to ready (i, o) t) /\
      (forall q t', q ∈ qs -> lends to ready q t' -> t' <= t) /\
      (forall i0 t0, best = Some (i0, t0) -> t0 <= t)
  end.
Proof.
  induction qs as [|[i o] qs IH]; intros best; cbv zeta in *; cbn [foldl].
  { destruct best as [[i t]|].
    - split; [by left|]. split; [by intros ? ? ?%not_elem_of_nil|].
      intros ? ? [= <- <-]. lia.
    - split; [done|]. by intros ? ? ?%not_elem_of_nil. }
  specialize (IH (lender_step to ready best (i, o))).
  assert (forall t, lends to ready (i, o) t ->
    exists j tj, lender_step to ready best (i, o) = Some (j, tj) /\ t <= tj) as Hstep1.
  { intros t (Ho & Hlt & Hready). cbn in Ho, Hready. subst o. unfold lender_step. cbn.
    rewrite Hready. cbn. replace (t <=? to) with false by (symmetry; by apply Z.leb_gt). cbn.
    destruct best as [[j tj]|]; [|eexists _, _; split; [done|lia]].
    destruct (Z.ltb_spec tj t); eexists _, _; (split; [done|lia]). }
  assert (forall i0 t0, best = Some (i0, t0) ->
    exists j tj, lender_step to ready best (i, o) = Some (j, tj) /\ t0 <= tj) as Hstep2.
  { intros i0 t0 ->. unfold lender_step. cbn. destruct o as [t|]; [|eexists _, _; split; [done|lia]].
    destruct (_ || _); [eexists _, _; split; [done|lia]|].
    destruct (Z.ltb_spec t0 t); eexists _, _; (split; [done|lia]). }
  assert (forall j tj, lender_step to ready best (i, o) = Some (j, tj) ->
    best = Some (j, tj) \/ (j = i /\ lends to ready (i, o) tj)) as Hstep3.
  { intros j tj. unfold lender_step, lends. cbn. destruct o as [t|]; [|by left].
    destruct ((t <=? to) || negb (default false (ready !! i))) eqn:E; [by left|].
    apply orb_false_iff in E as [E1%Z.leb_gt E2%negb_false_iff].
    assert (ready !! i = Some true) as E3 by (destruct (ready !! i) as [[]|]; done).
    destruct best as [[j0 t0]|]; [destruct (t0 <? t); [|by left]|];
      intros [= <- <-]; right; by split_and!. }
  destruct (foldl _ _ qs) as [[j t]|].
  - destruct IH as (I1 & I2 & I3). split_and!.
    + destruct I1 as [H|(o' & Hin & Hl)]; [|right; exists o'; set_solver].
      destruct (Hstep3 _ _ H) as [|[-> Hl]]; [by left|]. right. exists o. set_solver.
    + intros q t' [->|Hq]%elem_of_cons Hl; [|by eapply I2].
      destruct (Hstep1 _ Hl) as (j' & t'' & E & Hle). specialize (I3 _ _ E). lia.
    + intros i0 t0 Hb. destruct (Hstep2 _ _ Hb) as (j' & t'' & E & Hle). specialize (I3 _ _ E). lia.
  - destruct IH as [I1 I2]. split.
    + destruct best as [[j0 t0]|]; [|done]. destruct (Hstep2 _ _ eq_refl) as (? & ? & E & _). congruence.
    + intros q t' [->|Hq]%elem_of_cons Hl; [|by eapply I2].
      destruct (Hstep1 _ Hl) as (? & ? & E & _). congruence.
Qed.

(** ** Properties *)


(** A removal deletes the groups it named and nothing else: whatever other
    operations ran between the moment the indices were turned into group ids
    and the deletion, the slots of the named groups that are still there go,
    all the others stay, in order and unchanged. *)
Theorem removal_hits_only_named_groups partition staging st gids :
  reachable partition staging st -> NoDup gids ->
  exists l, represents st l /\
    represents (removal_finish gids st).1 (List.filter (keeps gids) l) /\
    training_claims (removal_finish gids st).1 = training_claims st /\
    (removal_finish gids st).2 = length (List.filter (fun s => negb (keeps gids s)) l).
Proof.
  intros (l & Hr & [Hn _] & _)%reachable_wf Hg. exists l. split; [done|].
  by apply drop_groups_spec.
Qed.


(** Claiming groups for a train step moves them: their slots leave the
    index, their metadata appears among the claims, and what a checkpoint
    covers (ready groups and claims together) does not change. *)
Theorem claim_preserves_checkpoint_cover partition staging st gids st' n :
  reachable partition staging st -> claim_groups gids st = Ok (st', n) ->
  n = length gids /\ training_owned_group_ids st' = training_owned_group_ids st ++ gids /\
  exists l, represents st l /\ represents st' (List.filter (keeps gids) l) /\
    ready_index (List.filter (keeps gids) l) ++ training_owned_replay_groups st' ≡ₚ
      ready_index l ++ training_owned_replay_groups st.
Proof.
  intros (l & Hr & [Hn _] & Hc)%reachable_wf H.
  destruct (claim_groups_spec _ _ _ _ _ Hr Hn Hc H) as (Hg & -> & Hr' & claims & Hcl & Hfst & _ & Hp).
  split; [done|]. unfold training_owned_group_ids, training_owned_replay_groups.
  rewrite Hcl, !fmap_app, Hfst. split; [done|]. exists l. split_and!; [done|done|].
  rewrite (ready_index_split gids l), Hp. solve_Permutation.
Qed.

(** Saving the index and loading it into a fresh buffer restores exactly
    the saved groups, in order and ready, with the additional (claimed) groups
    after them; the load succeeds for complete groups of the expected size
    that fit the capacity. *)
Theorem checkpoint_round_trip sha256_json partition staging st l cap extra env digest gsize
    max_groups :
  reachable partition staging st -> represents st l ->
  metadata_state_dict sha256_json cap extra st = Ok env ->
  env_manifest_digest env = Some digest ->
  restorable partition gsize (ready_index l ++ extra) ->
  Z.of_nat (length (ready_index l ++ extra)) <= max_groups ->
  exists st' n l', load_state_dict sha256_json env max_groups partition gsize digest
      (init partition staging) = Ok (st', n) /\
    represents st' l' /\ ready_index l' = ready_index l ++ extra /\
    Forall (fun s => s_ready s = true) l' /\ n = length (ready_index l ++ extra).
Proof.
  intros Hreach Hr Hs Hd [Hres Hnd] Hcap.
  destruct (reachable_wf _ _ _ Hreach) as (l0 & Hr0 & Hg & _).
  rewrite (represents_inj _ _ _ Hr0 Hr) in Hg. clear Hr0 l0.
  unfold metadata_state_dict in Hs. apply bind_Ok in Hs as (rg & Hrg & Hs).
  apply bind_Ok in Hs as (gs & Hgs & Hs). apply bind_Ok in Hs as (d & Hdig & [= <-]).
  rewrite (rep_ready _ _ Hr) in Hrg. pose proof (ready_groups_spec st [] l Hr Hg) as Hrs. cbn [length] in Hrs.
  rewrite Hrs in Hrg.
  injection Hrg as <-. apply add_groups_Ok in Hgs as ->.
  cbn in Hd. injection Hd as ->.
  unfold load_state_dict. cbn [init meta_list group_ids training_claims env_schema_version
    env_storage env_partition_id env_saved_capacity env_manifest_digest env_groups].
  rewrite (reachable_partition _ _ _ Hreach).
  rewrite !bool_decide_eq_true_2 by done. rewrite Z.eqb_refl.
  cbn [negb andb raise_if mbind res_bind].
  rewrite (load_check_groups_total partition gsize _ [] Hres Hnd). cbn [mbind res_bind].
  rewrite Hdig. cbn [mbind res_bind].
  rewrite !bool_decide_eq_true_2 by done. cbn [negb raise_if mbind res_bind].
  rewrite (proj2 (Z.ltb_ge _ _) Hcap). cbn [raise_if mbind res_bind].
  destruct (restore_groups_total partition gsize _ (init partition staging) Hres) as (st2 & Hst2).
  rewrite Hst2. cbn [mbind res_bind].
  assert (represents (init partition staging) []) as Hinit by by constructor.
  destruct (restore_groups_Ok _ _ [] _ Hinit Hst2) as [_ (l' & Hr' & Hl')].
  destruct (ready_index_restored _ _ Hl') as [Hri Hall].
  exists st2, (length (ready_index l ++ extra)), l'. split_and!; done.
Qed.

(** Promotion borrows a finished group from the furthest later step that
    has one: only that group's target step changes, and when it reports no
    lender no ready group targets a later step. *)
Theorem promote_takes_furthest_ready to st l :
  represents st l ->
  match promote_ready_group to st with
  | (st', Some t) => to < t /\
      (exists i s, l !! i = Some s /\ s_ready s = true /\ s_target s = Some t /\
         represents st' (<[i := retarget_slot to s]> l)) /\
      (forall s t', s ∈ l -> s_ready s = true -> s_target s = Some t' -> t' <= t)
  | (st', None) => st' = st /\
      (forall s t', s ∈ l -> s_ready s = true -> s_target s = Some t' -> t' <= to)
  end.
Proof.
  intros Hr. unfold promote_ready_group.
  pose proof (lender_fold to (ready_list st) (enumerate (target_step_list st)) None) as Hf.
  cbv zeta in Hf.
  assert (forall s t', s ∈ l -> s_ready s = true -> s_target s = Some t' -> to < t' ->
    exists i, (i, Some t') ∈ enumerate (target_step_list st) /\
      lends to (ready_list st) (i, Some t') t') as Hq.
  { intros s t' (i & Hi)%list_elem_of_lookup Hsr Hst Hlt. exists i.
    rewrite elem_of_enumerate, (rep_target _ _ Hr), list_lookup_fmap, Hi. cbn.
    split; [by rewrite Hst|]. split_and!; [done|done|]. cbn.
    by rewrite (rep_ready _ _ Hr), list_lookup_fmap, Hi, <- Hsr. }
  destruct (foldl _ _ _) as [[i t]|].
  - destruct Hf as ([H|(o & Hin & Ho & Hlt & Hready)] & Hmax & _); [done|]. cbn in Ho, Hready.
    subst o. split; [done|]. rewrite elem_of_enumerate in Hin.
    rewrite (rep_target _ _ Hr), list_lookup_fmap in Hin.
    destruct (l !! i) as [s|] eqn:Hi; [|done]. cbn in Hin. injection Hin as Hst.
    rewrite (rep_ready _ _ Hr), list_lookup_fmap, Hi in Hready. cbn in Hready.
    injection Hready as Hsr. split.
    + exists i, s. split_and!; try done. destruct Hr. rep_insert Hi.
    + intros s' t' Hs' Hsr' Hst'. destruct (decide (to < t')) as [Hlt'|]; [|lia].
      destruct (Hq _ _ Hs' Hsr' Hst' Hlt') as (i' & Hin' & Hl'). by eapply Hmax.
  - destruct Hf as [_ Hf]. split; [done|]. intros s t' Hs Hsr Hst.
    destruct (decide (to < t')) as [Hlt'|]; [|lia].
    destruct (Hq _ _ Hs Hsr Hst Hlt') as (i' & Hin' & Hl'). by destruct (Hf _ _ Hin' Hl').
Qed.

(** ** Witnesses *)

(** A buffer with two committed groups and a reservation. *)
Definition rows (a : string) : KVBatchMeta :=
  mkMeta "p" (Some "train"%string) [a] None (Some [4]) [] (Some [[]]).

Definition commit_ok (gid a : string) (st : TQ) : TQ :=
  (commit_finish gid [a] 1 (Written (rows a)) true st).1.1.

Definition sample_reserve (gid : string) (t : Z) (st : TQ) : TQ :=
  match reserve 0 (Some t) (Some gid) None "" st with Ok r => r.1 | Raise _ => st end.

Definition sample_buffer : TQ :=
  commit_ok "g2" "b" (commit_ok "g1" "a"
    (sample_reserve "g3" 9 (sample_reserve "g2" 8 (sample_reserve "g1" 7
      (match set_data_plane_checkpoint_barrier (init "p" None) with
       | Ok st => st | Raise _ => init "p" None end))))).

Lemma commit_ok_reachable gid a st :
  reachable "p" None st -> reachable "p" None (commit_ok gid a st).
Proof.
  intros H. unfold commit_ok. destruct (commit_finish _ _ _ _ _ _) as [[st' calls] r] eqn:E.
  eapply reachable_step; [exact H|]. by eapply step_commit.
Qed.

Lemma sample_reserve_reachable gid t st :
  reachable "p" None st -> reachable "p" None (sample_reserve gid t st).
Proof.
  intros H. unfold sample_reserve.
  destruct (reserve 0 (Some t) (Some gid) None "" st) as [[st' g]|] eqn:E; [|done].
  eapply reachable_step; [exact H|]. by eapply step_reserve.
Qed.

Lemma sample_reachable : reachable "p" None sample_buffer.
Proof.
  do 2 apply commit_ok_reachable. do 3 apply sample_reserve_reachable.
  eapply reachable_step; [apply reachable_init|]. by apply step_barrier.
Qed.


Lemma removal_hits_only_named_groups_witness :
  exists l, represents sample_buffer l /\
    represents (removal_finish ["g1"; "gone"] sample_buffer).1
      (List.filter (keeps ["g1"; "gone"]) l).
Proof.
  destruct (removal_hits_only_named_groups "p" None sample_buffer ["g1"; "gone"] sample_reachable)
    as (l & H1 & H2 & _).
  - apply NoDup_cons_2; [|apply NoDup_singleton]. intros H. apply list_elem_of_singleton in H.
    discriminate H.
  - exists l. exact (conj H1 H2).
Defined.


Lemma claim_preserves_checkpoint_cover_witness :
  exists st' n, claim_groups ["g2"; "g1"] sample_buffer = Ok (st', n) /\ n = 2%nat.
Proof.
  destruct (claim_groups ["g2"; "g1"] sample_buffer) as [[st' n]|] eqn:E.
  - exists st', n. split; [reflexivity|].
    exact (proj1 (claim_preserves_checkpoint_cover "p" None sample_buffer ["g2"; "g1"] st' n
      sample_reachable E)).
  - exfalso. vm_compute in E. discriminate E.
Defined.

Definition sample_slots : list Slot :=
  [mkSlot (Some (rows "a")) 0 1 (Some 7) true "g1" None None;
   mkSlot (Some (rows "b")) 0 1 (Some 8) true "g2" None None;
   new_slot 0 (Some 9) "g3" None].

Lemma sample_represents : represents sample_buffer sample_slots.
Proof. constructor; reflexivity. Qed.

Lemma rows_restorable a s e t g : restorable_group "p" 1 (mkGroup (rows a) s e t g).
Proof. split_and!; try done; by eexists. Qed.

Lemma checkpoint_round_trip_witness :
  exists env st' n, metadata_state_dict (fun _ => "d"%string) 8 [] sample_buffer = Ok env /\
    load_state_dict (fun _ => "d"%string) env 8 "p" 1 "d" (init "p" None) = Ok (st', n) /\
    n = 2%nat.
Proof.
  destruct (metadata_state_dict (fun _ => "d"%string) 8 [] sample_buffer) as [env|] eqn:E.
  - destruct (checkpoint_round_trip (fun _ => "d"%string) "p" None sample_buffer sample_slots
      8 [] env "d" 1 8 sample_reachable sample_represents E) as (st' & n & l' & H & _ & _ & _ & Hn).
    + vm_compute in E. injection E as <-. reflexivity.
    + split; [repeat constructor; apply rows_restorable|]. vm_compute.
      apply NoDup_cons_2; [|apply NoDup_singleton]. intros Hin.
      apply list_elem_of_singleton in Hin. discriminate Hin.
    + vm_compute. discriminate.
    + exists env, st', n. split; [reflexivity|]. split; [exact H|exact Hn].
  - exfalso. vm_compute in E. discriminate E.
Defined.

Lemma promote_takes_furthest_ready_witness :
  exists l, represents sample_buffer l /\ (promote_ready_group 5 sample_buffer).2 = Some 8 /\
    5 < 8.
Proof.
  exists sample_slots. split; [exact sample_represents|].
  pose proof (promote_takes_furthest_ready 5 sample_buffer sample_slots sample_represents) as H.
  destruct (promote_ready_group 5 sample_buffer) as [st' [t|]] eqn:E.
  - vm_compute in E. injection E as _ <-. exact (conj eq_refl (proj1 H)).
  - exfalso. vm_compute in E. discriminate E.
Defined.
