(* ===== verification/Sampler.v ===== *)
(** * Staleness policies over the replay buffer

    Models [src/nemo_rl/algorithms/async_utils/staleness_sampler.py]: the
    policies that admit prompt batches (rollout side), select groups for
    training and evict stale ones (train side), and their configuration.  The
    interface [PromptGroupSampler] is a class; [select], [evict] and [admit]
    are written once against it, as in [BaseSampler], and every built-in
    policy is an instance.  [SamplerLaws] is what a policy promises to the
    buffer: what its candidates are, and that what it evicts could not be
    selected any more.

    An await in the middle of [select] or [evict] is the acquisition of the
    mutation cut by the buffer; the operations below are the case where no
    other operation runs in it.  Custom policies are outside the repository
    and a parameter of the configuration section. *)

From S2P Require Import Prelude PyVal DataPlaneMeta ReplayManifest TQBuffer.

(** ** The interface

    [dispatch_index] is the attribute [_dispatch_index].  [candidates] is the
    body of [select] up to [_finalize_selection] ([None] is an early
    [return None, 0]), [stale_idxs] the indices [evict] removes. *)
Class PromptGroupSampler (S : Type) := {
  dispatch_index : S -> Z;
  with_dispatch_index : Z -> S -> S;
  admissible : S -> Z -> bool;
  admission : S -> S * option Z;
  candidates : S -> Z -> TQ -> res (option (list nat));
  stale_idxs : S -> Z -> TQ -> res (list nat);
  should_abort_inflight : S -> Z -> Z -> bool;
  eviction_window : S -> Z;
  required_buffer_capacity : S -> Z -> option Z }.

(** [[i for i, x in enumerate(xs) if cond(x) and self._buffer.ready_list[i]]]. *)
Fixpoint ready_where {A} (cond : A -> bool) (ready : list bool) (xs : list (nat * A))
    : res (list nat) :=
  match xs with
  | [] => Ok []
  | (i, x) :: xs' =>
      if cond x then
        b ← get_index ready i;
        rest ← ready_where cond ready xs';
        Ok (if (b : bool) then i :: rest else rest)
      else ready_where cond ready xs'
  end.

Definition ready_starts (cond : Z -> bool) (st : TQ) : res (list nat) :=
  ready_where cond (ready_list st) (enumerate (start_weight_list st)).

Definition ready_targets (cond : option Z -> bool) (st : TQ) : res (list nat) :=
  ready_where cond (ready_list st) (enumerate (target_step_list st)).

(** [for x in v], for the values metadata is made of. *)
Definition py_iter (v : PyVal) : res (list PyVal) :=
  match v with
  | VList l | VTuple l => Ok l
  | VDict d => Ok d.*1
  | VStr s => Ok ((fun a => VStr (String a EmptyString)) <$> String.list_ascii_of_string s)
  | _ => Raise TypeError
  end.

Section base.
  Context {S : Type} `{PromptGroupSampler S}.

Definition set_dispatch_index (resume_from_trainer_version : Z) (s : S) : res S :=
  _ ← raise_if (resume_from_trainer_version <? 0) ValueError;
  Ok (with_dispatch_index (resume_from_trainer_version - 1) s).

Definition restore_dispatch_index (n : Z) (s : S) : res S :=
  _ ← raise_if (n <? -1) ValueError;
  Ok (with_dispatch_index n s).

Definition is_on_policy (s : S) : bool := eviction_window s =? 0.

Definition evict (s : S) (current_train_weight : Z) (canonical_ok staging_ok : bool) (st : TQ)
    : res (TQ * list dp_call * nat) :=
  idxs ← stale_idxs s current_train_weight st;
  match idxs with
  | [] => Ok (st, [], 0%nat)
  | _ => remove (Z.of_nat <$> idxs) true canonical_ok staging_ok st
  end.

Definition validate_group_bounds (min_prompt_groups max_prompt_groups min_remaining_groups : Z)
    : res unit :=
  _ ← raise_if (min_remaining_groups <? 0) ValueError;
  _ ← raise_if (min_prompt_groups <? 1) ValueError;
  raise_if (max_prompt_groups <? min_prompt_groups) ValueError.

(** How many groups [_finalize_selection] takes; [None] defers. *)
Definition requested_groups (n_valid min_prompt_groups max_prompt_groups group_multiple
    min_remaining_groups : Z) : res (option Z) :=
  _ ← raise_if (group_multiple <? 1) ValueError;
  _ ← raise_if (negb (min_remaining_groups =? 0)
                && negb (max_prompt_groups mod group_multiple =? 0)) ValueError;
  _ ← raise_if (max_prompt_groups / group_multiple * group_multiple <? min_prompt_groups)
        ValueError;
  let capped := Z.min n_valid max_prompt_groups in
  let requested := capped - capped mod group_multiple in
  let remaining := max_prompt_groups - requested in
  if requested <? min_prompt_groups then Ok None
  else if (0 <? remaining) && (remaining <? min_remaining_groups) then Ok None
  else Ok (Some requested).

(** [self._buffer.meta_list[i]], used as metadata. *)
Definition slot_meta (st : TQ) (i : nat) : res KVBatchMeta :=
  m ← get_index (meta_list st) i;
  match m with Some m => Ok m | None => Raise AttributeError end.

Definition rollout_metrics_of (m : KVBatchMeta) : res (list PyVal) :=
  match dict_get ROLLOUT_METRICS (extra_info m) with
  | Some v => py_iter v
  | None => Ok []
  end.

Definition with_metrics (metrics : list PyVal) (m : KVBatchMeta) : KVBatchMeta :=
  mkMeta (partition_id m) (task_name m) (sample_ids m) (fields m) (sequence_lengths m)
    (dict_set ROLLOUT_METRICS (VList metrics) (extra_info m)) (tags m).

(** The metadata [_finalize_selection] returns for the selected indices. *)
Definition selected_meta (idxs : list nat) (st : TQ) : res KVBatchMeta :=
  metas ← traverse (slot_meta st) idxs;
  metrics ← traverse rollout_metrics_of metas;
  match metas with
  | [] => Raise IndexError
  | m :: ms => with_metrics (concat metrics) <$> concat_meta m ms
  end.

Definition finalize_selection (valid_idxs : list nat) (min_prompt_groups max_prompt_groups
    group_multiple min_remaining_groups : Z) (st : TQ) : res (TQ * option KVBatchMeta * nat) :=
  r ← requested_groups (Z.of_nat (length valid_idxs)) min_prompt_groups max_prompt_groups
        group_multiple min_remaining_groups;
  match r with
  | None => Ok (st, None, 0%nat)
  | Some n =>
      let selected_idxs := take (Z.to_nat n) valid_idxs in
      m ← selected_meta selected_idxs st;
      '(st', _) ← claim_for_training (Z.of_nat <$> selected_idxs) st;
      Ok (st', Some m, length selected_idxs)
  end.

Definition select (s : S) (current_train_weight min_prompt_groups max_prompt_groups
    group_multiple min_remaining_groups : Z) (st : TQ) : res (TQ * option KVBatchMeta * nat) :=
  _ ← validate_group_bounds min_prompt_groups max_prompt_groups min_remaining_groups;
  c ← candidates s current_train_weight st;
  match c with
  | None => Ok (st, None, 0%nat)
  | Some idxs => finalize_selection idxs min_prompt_groups max_prompt_groups group_multiple
                   min_remaining_groups st
  end.

(** [wait_until_admissible]: poll [k] reads the trainer version [versions k].
    [None] when [fuel] polls are not enough. *)
Fixpoint wait_until_admissible (fuel : nat) (versions : nat -> Z) (k : nat) (s : S) : option nat :=
  match fuel with
  | O => None
  | Datatypes.S fuel' =>
      if admissible s (versions k) then Some k
      else wait_until_admissible fuel' versions (Datatypes.S k) s
  end.

(** [admit]; the poll that let it through is returned with its result. *)
Definition sampler_admit (fuel : nat) (versions : nat -> Z) (s : S) : option (nat * (S * option Z)) :=
  k ← wait_until_admissible fuel versions 0 s;
  Some (k, admission s).

(** [commit_admission] of the transactional interface; [live] is the cut. *)
Definition commit_admission (live : bool) (s : S) : res (S * option Z) :=
  _ ← raise_if (negb live) RuntimeError;
  Ok (admission s).
End base.

(** [BaseSampler.evict]: ready groups below the weight window. *)
Definition evict_by_weight (window current_train_weight : Z) (st : TQ) : res (list nat) :=
  ready_starts (fun w => w <? Z.max 0 (current_train_weight - window)) st.

(** ** [WindowedSampler] *)
Record Windowed := mkWindowed {
  wd_dispatch_index : Z;
  wd_max_staleness_versions : Z;
  wd_sample_freshest_first : bool;
  wd_min_groups : option Z }.

Definition new_windowed (max_staleness_versions : Z) (fresh : bool) (min_groups : option Z)
    : res Windowed :=
  _ ← raise_if (max_staleness_versions <? 0) ValueError;
  Ok (mkWindowed (-1) max_staleness_versions fresh min_groups).

Definition in_window (window w start : Z) : bool :=
  (Z.max 0 (w - window) <=? start) && (start <=? w).

(** The sort key [(current_train_weight - start_weight_list[i], i)]. *)
Definition freshness_ltb (w : Z) (a b : Z * nat) : bool :=
  (w - a.1 <? w - b.1) || ((w - a.1 =? w - b.1) && (a.2 <? b.2)%nat).

Definition freshest_first (w : Z) (st : TQ) (idxs : list nat) : res (list nat) :=
  keyed ← traverse (fun i => x ← get_index (start_weight_list st) i; Ok (x, i)) idxs;
  Ok (py_sort (freshness_ltb w) keyed).*2.

#[export] Instance windowed_sampler : PromptGroupSampler Windowed := {
  dispatch_index := wd_dispatch_index;
  with_dispatch_index n s := mkWindowed n (wd_max_staleness_versions s)
    (wd_sample_freshest_first s) (wd_min_groups s);
  admissible _ _ := true;
  admission s := (s, None);
  candidates s w st :=
    idxs ← ready_starts (in_window (wd_max_staleness_versions s) w) st;
    Some <$> (if wd_sample_freshest_first s then freshest_first w st idxs else Ok idxs);
  stale_idxs s w st := evict_by_weight (wd_max_staleness_versions s) w st;
  should_abort_inflight s start w := start <? Z.max 0 (w - wd_max_staleness_versions s);
  eviction_window := wd_max_staleness_versions;
  required_buffer_capacity s _ := wd_min_groups s }.

(** ** [_GatedSampler] *)
Record Gated := mkGated { gate_dispatch_index : Z; gate_window : Z }.

Definition set_gate_window (window : Z) (g : Gated) : res Gated :=
  _ ← raise_if (window <? 0) ValueError;
  Ok (mkGated (gate_dispatch_index g) window).

Definition new_gated (window : Z) : res Gated := set_gate_window window (mkGated (-1) 0).

Definition gated_required_buffer_capacity (groups_per_step window : Z) : Z :=
  groups_per_step * (window + 1).

(** Negation of the condition of the waiting loop. *)
Definition gate_admissible (g : Gated) (version : Z) : bool :=
  negb (version + gate_window g <=? gate_dispatch_index g).

(** [_commit_admission] without the stamp. *)
Definition advance_gate (g : Gated) : Gated :=
  mkGated (gate_dispatch_index g + 1) (gate_window g).

(** ** [ReadyFirstSampler] *)
Record ReadyFirst := mkReadyFirst { rf_gate : Gated; rf_max_staleness_versions : Z }.

Definition new_ready_first (max_staleness_versions : Z) : res ReadyFirst :=
  g ← new_gated max_staleness_versions;
  Ok (mkReadyFirst g max_staleness_versions).

#[export] Instance ready_first_sampler : PromptGroupSampler ReadyFirst := {
  dispatch_index s := gate_dispatch_index (rf_gate s);
  with_dispatch_index n s :=
    mkReadyFirst (mkGated n (gate_window (rf_gate s))) (rf_max_staleness_versions s);
  admissible s v := gate_admissible (rf_gate s) v;
  admission s := (mkReadyFirst (advance_gate (rf_gate s)) (rf_max_staleness_versions s), None);
  candidates s w st := Some <$> ready_starts (fun start => start <=? w) st;
  stale_idxs s w st := Ok [];
  should_abort_inflight s start w := false;
  eviction_window s := gate_window (rf_gate s);
  required_buffer_capacity s n := Some (gated_required_buffer_capacity n (gate_window (rf_gate s))) }.

(** ** [WeightFifoSampler] *)
Record WeightFifo := mkWeightFifo { wf_gate : Gated; wf_max_staleness_versions : Z }.

Definition new_weight_fifo (max_staleness_versions : Z) : res WeightFifo :=
  g ← new_gated max_staleness_versions;
  Ok (mkWeightFifo g max_staleness_versions).

Definition fifo_candidates (window w : Z) (st : TQ) : res (option (list nat)) :=
  match List.filter (in_window window w) (start_weight_list st) with
  | [] => Ok None
  | x :: xs =>
      let target_version := argmin_by Z.ltb x xs in
      Some <$> ready_starts (fun start => start =? target_version) st
  end.

#[export] Instance weight_fifo_sampler : PromptGroupSampler WeightFifo := {
  dispatch_index s := gate_dispatch_index (wf_gate s);
  with_dispatch_index n s :=
    mkWeightFifo (mkGated n (gate_window (wf_gate s))) (wf_max_staleness_versions s);
  admissible s v := gate_admissible (wf_gate s) v;
  admission s := (mkWeightFifo (advance_gate (wf_gate s)) (wf_max_staleness_versions s), None);
  candidates s w st := fifo_candidates (wf_max_staleness_versions s) w st;
  stale_idxs s w st := evict_by_weight (gate_window (wf_gate s)) w st;
  should_abort_inflight s start w := false;
  eviction_window s := gate_window (wf_gate s);
  required_buffer_capacity s n := Some (gated_required_buffer_capacity n (gate_window (wf_gate s))) }.

(** ** [InOrderSampler] *)
Record InOrder := mkInOrder {
  io_gate : Gated;
  io_max_lookahead_versions : Z;
  io_warmup_lookahead_versions : option Z }.

Definition new_in_order (max_lookahead_versions : Z) (warmup : option Z) : res InOrder :=
  g ← new_gated max_lookahead_versions;
  Ok (mkInOrder g max_lookahead_versions warmup).

(** [target is not None and target < current_train_weight]. *)
Definition target_passed (w : Z) (target : option Z) : bool :=
  match target with Some t => t <? w | None => false end.

#[export] Instance in_order_sampler : PromptGroupSampler InOrder := {
  dispatch_index s := gate_dispatch_index (io_gate s);
  with_dispatch_index n s :=
    mkInOrder (mkGated n (gate_window (io_gate s))) (io_max_lookahead_versions s)
      (io_warmup_lookahead_versions s);
  admissible s v := gate_admissible (io_gate s) v;
  admission s :=
    let g := advance_gate (io_gate s) in
    (mkInOrder g (io_max_lookahead_versions s) (io_warmup_lookahead_versions s),
     Some (gate_dispatch_index g));
  candidates s w st := Some <$> ready_targets (fun t => bool_decide (t = Some w)) st;
  stale_idxs s w st := ready_targets (target_passed w) st;
  should_abort_inflight s start w := false;
  eviction_window s := gate_window (io_gate s);
  required_buffer_capacity s n := Some (gated_required_buffer_capacity n
    (default (io_max_lookahead_versions s) (io_warmup_lookahead_versions s))) }.

(** The driver's [_retune_lookahead_versions] (single_controller.py): the
    window at a trainer version, for a policy frozen before [start]. *)
Definition retuned_window (steady : Z) (warmup : option Z) (start version : Z) : Z :=
  match warmup with
  | None => steady
  | Some warm =>
      if start <=? version then steady
      else Z.max steady (Z.min warm (start + steady - version))
  end.

(** ** Configuration *)
Inductive SamplerConfig :=
| WindowedSamplerConfig (max_staleness_versions : Z) (sample_freshest_first : bool)
| ReadyFirstSamplerConfig (max_staleness_versions : Z)
| WeightFifoSamplerConfig (max_staleness_versions : Z)
| InOrderSamplerConfig (max_lookahead_versions : Z) (warmup_lookahead_versions : option Z)
| CustomSamplerConfig (target : string).

(** The [NonNegativeInt] fields and [validate_warmup_lookahead]. *)
Definition valid_config (cfg : SamplerConfig) : bool :=
  match cfg with
  | WindowedSamplerConfig n _ | ReadyFirstSamplerConfig n | WeightFifoSamplerConfig n => 0 <=? n
  | InOrderSamplerConfig n None => 0 <=? n
  | InOrderSamplerConfig n (Some warm) => (0 <=? n) && (0 <=? warm) && negb (warm <? n)
  | CustomSamplerConfig _ => true
  end.

Definition peak_lookahead_versions (max_lookahead_versions : Z) (warmup : option Z) : Z :=
  match warmup with None => max_lookahead_versions | Some warm => warm end.

Definition required_buffer_capacity_for_config (cfg : SamplerConfig) (groups_per_step
    min_groups_for_streaming_train : Z) : option Z :=
  match cfg with
  | ReadyFirstSamplerConfig n | WeightFifoSamplerConfig n =>
      Some (gated_required_buffer_capacity groups_per_step n)
  | InOrderSamplerConfig n warm =>
      Some (gated_required_buffer_capacity groups_per_step (peak_lookahead_versions n warm))
  | WindowedSamplerConfig _ _ => Some min_groups_for_streaming_train
  | CustomSamplerConfig _ => None
  end.

(** A sampler of any class; [C] is the type of the custom ones. *)
Inductive AnySampler (C : Type) :=
| AWindowed (s : Windowed)
| AReadyFirst (s : ReadyFirst)
| AWeightFifo (s : WeightFifo)
| AInOrder (s : InOrder)
| ACustom (c : C).
Arguments AWindowed {C}. Arguments AReadyFirst {C}. Arguments AWeightFifo {C}.
Arguments AInOrder {C}. Arguments ACustom {C}.

(** [create_sampler]; [build] imports and constructs a custom class. *)
Definition create_sampler {C} (build : string -> res C) (cfg : SamplerConfig)
    (min_groups_for_streaming_train : option Z) : res (AnySampler C) :=
  match cfg with
  | WindowedSamplerConfig n fresh =>
      AWindowed <$> new_windowed n fresh min_groups_for_streaming_train
  | ReadyFirstSamplerConfig n => AReadyFirst <$> new_ready_first n
  | WeightFifoSamplerConfig n => AWeightFifo <$> new_weight_fifo n
  | InOrderSamplerConfig n warm => AInOrder <$> new_in_order n warm
  | CustomSamplerConfig target => ACustom <$> build target
  end.

(** ** What a policy promises

    [eligible s w sl]: the weight and target stamps of the slot allow it to be
    trained at version [w].  [stale s w sl]: they make [evict] drop it. *)
Class SamplerLaws (S : Type) `{PS : PromptGroupSampler S} := {
  well_formed : S -> Prop;
  eligible : S -> Z -> Slot -> bool;
  stale : S -> Z -> Slot -> bool;
  candidates_law s w st l : represents st l ->
    exists c, candidates s w st = Ok c /\
    match c with
    | Some idxs => NoDup idxs /\ forall i, i ∈ idxs ->
        exists sl, l !! i = Some sl /\ s_ready sl = true /\ eligible s w sl = true
    | None => forall sl, sl ∈ l -> eligible s w sl = false
    end;
  stale_law s w st l : represents st l ->
    stale_idxs s w st = Ok (indices_where (fun sl => stale s w sl && s_ready sl) l);
  stale_never_eligible s w w' sl :
    well_formed s -> stale s w sl = true -> w <= w' -> eligible s w' sl = false;
  aborted_never_eligible s w w' sl :
    should_abort_inflight s (s_start sl) w = true -> w <= w' ->
    stale s w sl = true /\ eligible s w' sl = false }.

(** ** The comprehensions *)

Lemma ready_where_from {A} (cond : A -> bool) (proj : Slot -> A) ready l2 : forall l1,
  ready = s_ready <$> (l1 ++ l2) ->
  ready_where cond ready (enumerate_from (length l1) (proj <$> l2)) =
    Ok (List.filter (fun p => cond (proj p.2) && s_ready p.2) (enumerate_from (length l1) l2)).*1.
Proof.
  induction l2 as [|s l2 IH]; intros l1 Hr; cbn; [done|].
  specialize (IH (l1 ++ [s])). rewrite length_app, Nat.add_1_r in IH.
  rewrite IH by (by rewrite Hr, <- app_assoc).
  assert (get_index ready (length l1) = Ok (s_ready s)) as Hg.
  { apply get_index_Ok. rewrite Hr, list_lookup_fmap, lookup_app_r, Nat.sub_diag; [done|lia]. }
  destruct (cond (proj s)); cbn; [|done]. rewrite Hg. cbn. by destruct (s_ready s).
Qed.

Lemma ready_starts_spec cond st l :
  represents st l ->
  ready_starts cond st = Ok (indices_where (fun sl => cond (s_start sl) && s_ready sl) l).
Proof.
  intros Hr. unfold ready_starts. rewrite (rep_start _ _ Hr).
  by apply (ready_where_from cond s_start _ l []), rep_ready.
Qed.

Lemma ready_targets_spec cond st l :
  represents st l ->
  ready_targets cond st = Ok (indices_where (fun sl => cond (s_target sl) && s_ready sl) l).
Proof.
  intros Hr. unfold ready_targets. rewrite (rep_target _ _ Hr).
  by apply (ready_where_from cond s_target _ l []), rep_ready.
Qed.

(** The shape [candidates_law] asks for, for one comprehension. *)
Lemma indices_where_candidates (P : Slot -> bool) l :
  NoDup (indices_where (fun sl => P sl && s_ready sl) l) /\
  forall i, i ∈ indices_where (fun sl => P sl && s_ready sl) l ->
    exists sl, l !! i = Some sl /\ s_ready sl = true /\ P sl = true.
Proof.
  split; [apply indices_where_NoDup|].
  intros i (sl & Hi & [H1 H2]%andb_true_iff)%elem_of_indices_where. eauto.
Qed.

Lemma below_window_never_in window w w' start :
  (start <? Z.max 0 (w - window)) = true -> w <= w' -> in_window window w' start = false.
Proof. unfold in_window. intros ?%Z.ltb_lt ?. apply andb_false_iff. left. lia. Qed.

(** Reordering by freshness keeps the candidates. *)
Lemma freshest_first_spec w st l idxs :
  represents st l -> (forall i, i ∈ idxs -> (i < length l)%nat) ->
  exists keyed, freshest_first w st idxs = Ok (py_sort (freshness_ltb w) keyed).*2 /\
    Forall2 (fun i k => k.2 = i /\ exists sl, l !! i = Some sl /\ s_start sl = k.1) idxs keyed.
Proof.
  intros Hr Hlt. unfold freshest_first.
  assert (exists keyed, traverse (fun i => x ← get_index (start_weight_list st) i; Ok (x, i)) idxs
     = Ok keyed /\
    Forall2 (fun i k => k.2 = i /\ exists sl, l !! i = Some sl /\ s_start sl = k.1) idxs keyed)
    as (keyed & -> & Hk); [|by exists keyed].
  induction idxs as [|i idxs IH]; [by exists []|].
  destruct IH as (keyed & Hk & Hf); [intros j Hj; apply Hlt; set_solver|].
  destruct (lookup_lt_is_Some_2 l i) as [sl Hi]; [apply Hlt; set_solver|].
  exists ((s_start sl, i) :: keyed). cbn.
  assert (get_index (start_weight_list st) i = Ok (s_start sl)) as ->.
  { apply get_index_Ok. by rewrite (rep_start _ _ Hr), list_lookup_fmap, Hi. }
  cbn. rewrite Hk. split; [done|]. constructor; [|done]. eauto.
Qed.

Lemma Forall2_snd_eq {A B} (P : B -> A * B -> Prop) idxs keyed :
  Forall2 P idxs keyed -> (forall i k, P i k -> k.2 = i) -> keyed.*2 = idxs.
Proof.
  intros HF HP. induction HF as [|i k idxs keyed Hk _ IH]; cbn; [done|].
  by rewrite (HP _ _ Hk), IH.
Qed.

Lemma freshest_first_perm w st l idxs :
  represents st l -> (forall i, i ∈ idxs -> (i < length l)%nat) ->
  exists idxs', freshest_first w st idxs = Ok idxs' /\ idxs' ≡ₚ idxs.
Proof.
  intros Hr Hlt. destruct (freshest_first_spec w st l idxs Hr Hlt) as (keyed & -> & Hf).
  eexists; split; [done|]. rewrite py_sort_perm.
  rewrite (Forall2_snd_eq _ _ _ Hf); [done|]. by intros i k [? _].
Qed.

Lemma filter_nil_none {A} (P : A -> bool) l x : List.filter P l = [] -> x ∈ l -> P x = false.
Proof.
  intros Hf Hx. destruct (P x) eqn:E; [|done].
  assert (x ∈ List.filter P l) as Hin by (by apply list_filter_elem_of).
  rewrite Hf in Hin. by apply not_elem_of_nil in Hin.
Qed.

(** The target version of the FIFO policy is the oldest in the window. *)
Lemma fifo_candidates_spec window w st l :
  represents st l ->
  match fifo_candidates window w st with
  | Ok None => forall sl, sl ∈ l -> in_window window w (s_start sl) = false
  | Ok (Some idxs) => exists v,
      idxs = indices_where (fun sl => (s_start sl =? v) && s_ready sl) l /\
      in_window window w v = true /\
      forall sl, sl ∈ l -> in_window window w (s_start sl) = true -> v <= s_start sl
  | Raise _ => False
  end.
Proof.
  intros Hr. unfold fifo_candidates. rewrite (rep_start _ _ Hr).
  destruct (List.filter _ _) as [|x xs] eqn:E.
  { intros sl Hsl. eapply filter_nil_none; [exact E|]. by apply list_elem_of_fmap_2. }
  rewrite (ready_starts_spec _ _ _ Hr). cbn [fmap res_fmap].
  destruct (argmin_by_spec Z.ltb x xs) as [Hin Hmin].
  { intros *. rewrite !Z.ltb_ge. lia. }
  { intros *. rewrite Z.ltb_lt, Z.ltb_ge. lia. }
  { intros *. apply Z.ltb_irrefl. }
  rewrite <- E in Hin, Hmin. eexists. split; [done|]. split.
  - by apply list_filter_elem_of in Hin as [_ ?].
  - intros sl Hsl Hw. apply Z.ltb_ge, Hmin. apply list_filter_elem_of. split; [|done].
    by apply list_elem_of_fmap_2.
Qed.

(** ** The built-in policies keep the promises *)

#[export] Program Instance windowed_laws : SamplerLaws Windowed := {
  well_formed _ := True;
  eligible s w sl := in_window (wd_max_staleness_versions s) w (s_start sl);
  stale s w sl := s_start sl <? Z.max 0 (w - wd_max_staleness_versions s) }.
Next Obligation.
  intros s w st l Hr. cbn [candidates windowed_sampler]. rewrite (ready_starts_spec _ _ _ Hr).
  cbn [mbind res_bind].
  destruct (indices_where_candidates
    (fun sl => in_window (wd_max_staleness_versions s) w (s_start sl)) l) as [Hnd Hin].
  destruct (wd_sample_freshest_first s); [|by eexists].
  destruct (freshest_first_perm w st l _ Hr (fun i => indices_where_lt
    (fun sl => in_window (wd_max_staleness_versions s) w (s_start sl) && s_ready sl) l i)) as (idxs & -> & Hp).
  exists (Some idxs). split; [done|]. rewrite Hp. split; [done|]. intros i. rewrite Hp. apply Hin.
Qed.
Next Obligation. intros s w st l Hr. exact (ready_starts_spec _ _ _ Hr). Qed.
Next Obligation. intros s w w' sl _ Hs Hle. exact (below_window_never_in _ _ _ _ Hs Hle). Qed.
Next Obligation. cbn. intros s w w' sl Hs Hle. split; [done|]. exact (below_window_never_in _ _ _ _ Hs Hle). Qed.

#[export] Program Instance ready_first_laws : SamplerLaws ReadyFirst := {
  well_formed _ := True;
  eligible _ w sl := s_start sl <=? w;
  stale _ _ _ := false }.
Next Obligation.
  intros s w st l Hr. cbn [candidates ready_first_sampler]. rewrite (ready_starts_spec _ _ _ Hr).
  eexists. split; [done|]. apply (indices_where_candidates (fun sl => s_start sl <=? w)).
Qed.
Next Obligation.
  intros s w st l Hr. cbn [stale_idxs ready_first_sampler]. f_equal. unfold indices_where.
  induction (enumerate l) as [|x xs IH]; [done|exact IH].
Qed.
Next Obligation. done. Qed.
Next Obligation. done. Qed.

(** The weight window and the gate are one until somebody retunes the gate. *)
#[export] Program Instance weight_fifo_laws : SamplerLaws WeightFifo := {
  well_formed s := gate_window (wf_gate s) = wf_max_staleness_versions s;
  eligible s w sl := in_window (wf_max_staleness_versions s) w (s_start sl);
  stale s w sl := s_start sl <? Z.max 0 (w - gate_window (wf_gate s)) }.
Next Obligation.
  intros s w st l Hr. cbn [candidates weight_fifo_sampler].
  pose proof (fifo_candidates_spec (wf_max_staleness_versions s) w st l Hr) as Hf.
  destruct (fifo_candidates _ _ _) as [[idxs|]|]; [|by eauto|done].
  destruct Hf as (v & -> & Hv & _). eexists. split; [done|].
  destruct (indices_where_candidates (fun sl => s_start sl =? v) l) as [Hnd Hin].
  split; [done|]. intros i (sl & Hi & Hsr & Hs)%Hin. exists sl. split_and!; try done.
  apply Z.eqb_eq in Hs. by rewrite Hs.
Qed.
Next Obligation. intros s w st l Hr. exact (ready_starts_spec _ _ _ Hr). Qed.
Next Obligation. intros s w w' sl Hwf Hs Hle. cbn in *. rewrite Hwf in Hs. exact (below_window_never_in _ _ _ _ Hs Hle). Qed.
Next Obligation. done. Qed.

#[export] Program Instance in_order_laws : SamplerLaws InOrder := {
  well_formed _ := True;
  eligible _ w sl := bool_decide (s_target sl = Some w);
  stale _ w sl := target_passed w (s_target sl) }.
Next Obligation.
  intros s w st l Hr. cbn [candidates in_order_sampler]. rewrite (ready_targets_spec _ _ _ Hr).
  eexists. split; [done|]. apply (indices_where_candidates (fun sl => bool_decide (s_target sl = Some w))).
Qed.
Next Obligation. intros s w st l Hr. exact (ready_targets_spec _ _ _ Hr). Qed.
Next Obligation.
  intros s w w' sl _ Hs Hle. cbn in *. destruct (s_target sl) as [t|]; [|done].
  apply Z.ltb_lt in Hs. apply bool_decide_eq_false. intros [= ->]. lia.
Qed.
Next Obligation. done. Qed.

(** ** What the buffer does with the indices a policy names *)

Lemma gid_at st l i sl :
  represents st l -> l !! i = Some sl -> get_index (group_ids st) i = Ok (s_gid sl).
Proof. intros Hr Hi. apply get_index_Ok. by rewrite (rep_gid _ _ Hr), list_lookup_fmap, Hi. Qed.

Lemma keeps_permutation g1 g2 l : g1 ≡ₚ g2 -> List.filter (keeps g1) l = List.filter (keeps g2) l.
Proof.
  intros Hp. apply filter_ext. intros s. unfold keeps. f_equal. apply bool_decide_ext. by rewrite Hp.
Qed.

(** Distinct in-range indices name the groups of their slots, in some order. *)
Lemma check_indices_slots st l ns slots :
  represents st l -> NoDup ns -> Forall2 (fun i sl => l !! i = Some sl) ns slots ->
  exists gids, check_indices (Z.of_nat <$> ns) st = Ok gids /\ gids ≡ₚ s_gid <$> slots.
Proof.
  intros Hr Hnd Hs. unfold check_indices.
  rewrite bool_decide_eq_true_2 by (by apply (NoDup_fmap_2 Z.of_nat)). cbn [negb raise_if mbind res_bind].
  assert (existsb (fun i => i <? 0) (Z.of_nat <$> ns) = false) as ->.
  { clear. induction ns as [|n ns IH]; [done|]. cbn [fmap list_fmap existsb]. rewrite IH, orb_false_r.
    apply Z.ltb_ge. lia. }
  cbn [raise_if mbind res_bind].
  pose proof (py_sort_perm (fun a b => b <? a) (Z.of_nat <$> ns)) as Hp.
  set (drop := py_sort _ _) in *. clearbody drop.
  set (f := fun i : Z => default ""%string (group_ids st !! Z.to_nat i)).
  assert (Forall (fun i => 0 <= i < Z.of_nat (length l) /\
            get_index (group_ids st) (Z.to_nat i) = Ok (f i)) drop) as Hdrop.
  { rewrite Hp. apply Forall_forall. intros i (n & -> & Hn)%list_elem_of_fmap.
    apply list_elem_of_lookup in Hn as (j & Hj).
    destruct (Forall2_lookup_l _ _ _ _ _ Hs Hj) as (sl & _ & Hl).
    pose proof (lookup_lt_Some _ _ _ Hl). rewrite Nat2Z.id. split; [lia|].
    rewrite (gid_at _ _ _ _ Hr Hl). unfold f. rewrite Nat2Z.id.
    by rewrite (rep_gid _ _ Hr), list_lookup_fmap, Hl. }
  assert (match drop with i :: _ => Z.of_nat (length (meta_list st)) <=? i | [] => false end = false) as ->.
  { destruct drop as [|i drop]; [done|]. apply Forall_cons in Hdrop as [[? _] _].
    rewrite (rep_meta _ _ Hr), length_fmap. apply Z.leb_gt. lia. }
  cbn [raise_if mbind res_bind]. exists (f <$> drop). split.
  - apply traverse_Ok. clear -Hdrop. induction Hdrop as [|i drop [_ Hi] _ IH]; constructor; done.
  - rewrite Hp. rewrite <- list_fmap_compose. clear -Hs Hr.
    assert ((f ∘ Z.of_nat) <$> ns = s_gid <$> slots) as ->; [|done].
    induction Hs as [|n sl ns slots Hl _ IH]; [done|]. cbn [fmap list_fmap] in IH |- *.
    rewrite IH. unfold f, compose. rewrite Nat2Z.id.
    by rewrite (rep_gid _ _ Hr), list_lookup_fmap, Hl.
Qed.

Lemma claim_resolve_slots st l ns slots :
  represents st l -> barrier_bound st = true -> ns <> [] -> NoDup ns ->
  Forall2 (fun i sl => l !! i = Some sl) ns slots ->
  exists gids, claim_resolve (Z.of_nat <$> ns) st = Ok (Some gids) /\ gids ≡ₚ s_gid <$> slots.
Proof.
  intros Hr Hb Hne Hnd Hs. destruct (check_indices_slots st l ns slots Hr Hnd Hs) as (gids & Hg & Hp).
  exists gids. split; [|done]. unfold claim_resolve. rewrite Hg, Hb.
  unfold check_indices in Hg. apply bind_Ok in Hg as ([] & -> & Hg).
  apply bind_Ok in Hg as ([] & -> & _). by destruct ns.
Qed.

Lemma remove_resolve_slots st l ns slots :
  represents st l -> barrier_bound st = true -> ns <> [] -> NoDup ns ->
  Forall2 (fun i sl => l !! i = Some sl) ns slots ->
  exists gids, remove_resolve (Z.of_nat <$> ns) st = Ok (Some gids) /\ gids ≡ₚ s_gid <$> slots.
Proof.
  intros Hr Hb Hne Hnd Hs. destruct (check_indices_slots st l ns slots Hr Hnd Hs) as (gids & Hg & Hp).
  exists gids. split; [|done]. unfold remove_resolve. rewrite Hg, Hb. by destruct ns.
Qed.

(** The slots a list of candidates stands for. *)
Lemma candidate_slots (P : Slot -> Prop) (l : list Slot) (idxs : list nat) :
  (forall i, i ∈ idxs -> exists sl, l !! i = Some sl /\ P sl) ->
  exists slots, Forall2 (fun i sl => l !! i = Some sl) idxs slots /\ Forall P slots.
Proof.
  induction idxs as [|i idxs IH]; intros H; [by exists []|].
  destruct (H i ltac:(set_solver)) as (sl & Hi & Hp).
  destruct IH as (slots & H1 & H2); [intros j Hj; apply H; set_solver|].
  exists (sl :: slots). split; by constructor.
Qed.

Lemma slots_at_NoDup (l : list Slot) (idxs : list nat) (slots : list Slot) :
  NoDup (s_gid <$> l) -> NoDup idxs -> Forall2 (fun i sl => l !! i = Some sl) idxs slots ->
  NoDup (s_gid <$> slots).
Proof.
  intros Hn Hnd HF. apply NoDup_alt. intros a b g Ha Hb.
  rewrite list_lookup_fmap in Ha, Hb.
  destruct (slots !! a) as [sa|] eqn:Ea; [|done]. destruct (slots !! b) as [sb|] eqn:Eb; [|done].
  cbn in Ha, Hb. injection Ha as Ha. injection Hb as Hb.
  destruct (Forall2_lookup_r _ _ _ _ _ HF Ea) as (i & Hi & Hli).
  destruct (Forall2_lookup_r _ _ _ _ _ HF Eb) as (j & Hj & Hlj).
  assert (i = j) as ->; [|by eapply (NoDup_lookup idxs)].
  eapply (NoDup_lookup (s_gid <$> l)); [done| |]; rewrite list_lookup_fmap.
  - rewrite Hli. cbn. by rewrite Ha.
  - rewrite Hlj. cbn. by rewrite Hb.
Qed.

Lemma slots_at_elem (l : list Slot) (idxs : list nat) (slots : list Slot) :
  Forall2 (fun i sl => l !! i = Some sl) idxs slots -> Forall (fun sl => sl ∈ l) slots.
Proof. induction 1; constructor; [by eapply list_elem_of_lookup_2|done]. Qed.

(** Claiming ready groups that no step owns yet succeeds. *)
Lemma claim_groups_total st l gids slots :
  represents st l -> good_slots l -> NoDup (s_gid <$> slots) -> gids ≡ₚ s_gid <$> slots ->
  Forall (fun sl => sl ∈ l /\ s_ready sl = true) slots ->
  Forall (fun sl => s_gid sl ∉ training_owned_group_ids st) slots ->
  exists st', claim_groups gids st = Ok (st', length gids).
Proof.
  intros Hr [Hn Hm] Hnd Hp Hin Hcl. rewrite Forall_forall in Hin, Hcl.
  assert (forall g, g ∈ gids -> exists i sl, l !! i = Some sl /\ sl ∈ slots /\ s_gid sl = g /\
            index_of g st = Some i) as Hidx.
  { intros g. rewrite Hp. intros (sl & -> & Hsl)%list_elem_of_fmap.
    destruct (Hin _ Hsl) as [Hsl' _]. apply list_elem_of_lookup in Hsl' as (i & Hi).
    exists i, sl. split_and!; try done. apply (index_of_Some _ _ _ _ Hr Hn). eauto. }
  unfold claim_groups, removal_plan. cbn [raise_if negb andb mbind res_bind].
  rewrite (rep_gid _ _ Hr), (bool_decide_eq_true_2 (NoDup gids)) by (by rewrite Hp).
  rewrite (bool_decide_eq_true_2 (NoDup (s_gid <$> l))) by done.
  rewrite (bool_decide_eq_true_2 (Forall _ gids)).
  2: { apply Forall_forall. intros g (i & sl & Hi & _ & <- & _)%Hidx. apply list_elem_of_fmap.
       exists sl. split; [done|]. by eapply list_elem_of_lookup_2. }
  cbn [raise_if negb andb mbind res_bind].
  assert (exists claims, traverse (build_claim st) gids = Ok claims) as [claims ->].
  { clear Hp. induction gids as [|g gids IH]; [by eexists|].
    destruct IH as [claims IH]; [intros g' Hg'; apply Hidx; set_solver|].
    destruct (Hidx g ltac:(set_solver)) as (i & sl & Hi & Hsl & <- & Hio).
    destruct (Hin _ Hsl) as [_ Hready]. pose proof (Forall_lookup_1 _ _ _ _ Hm Hi Hready) as Hmeta.
    assert (exists c, build_claim st (s_gid sl) = Ok c) as [c Hc].
    { unfold build_claim. rewrite Hio, (rep_meta _ _ Hr), (rep_ready _ _ Hr), !list_lookup_fmap, Hi.
      cbn [fmap option_fmap option_map]. rewrite Hready. destruct (s_meta sl) as [m|]; [|done].
      rewrite bool_decide_eq_false_2 by (by apply Hcl). by eexists. }
    cbn [traverse]. rewrite Hc. cbn [mbind res_bind].
    rewrite IH. by eexists. }
  cbn [mbind res_bind].
  assert (length (omap (fun g => index_of g st) gids) = length gids) as Hlen.
  { clear -Hidx. induction gids as [|g gids IH]; [done|].
    destruct (Hidx g ltac:(set_solver)) as (i & _ & _ & _ & _ & Hi). cbn. rewrite Hi. cbn.
    f_equal. apply IH. intros g' Hg'. apply Hidx. set_solver. }
  rewrite Hlen, Nat.eqb_refl. cbn [raise_if negb mbind res_bind].
  unfold drop_groups. eexists. f_equal. f_equal. rewrite py_sort_length. done.
Qed.

(** ** What [_finalize_selection] takes *)

Lemma requested_groups_Some n mn mx mult rem k :
  1 <= mn -> requested_groups n mn mx mult rem = Ok (Some k) ->
  mn <= k <= mx /\ k <= n /\ k mod mult = 0 /\ (k = mx \/ rem <= mx - k).
Proof.
  unfold requested_groups. intros Hmn H.
  apply bind_Ok in H as (? & Hm%raise_if_Ok%Z.ltb_ge & H).
  apply bind_Ok in H as (? & _ & H). apply bind_Ok in H as (? & _ & H). cbv zeta in H.
  destruct (Z.ltb_spec (Z.min n mx - Z.min n mx mod mult) mn) as [|Hge]; [done|].
  destruct (_ && _)%bool eqn:Er in H; [done|]. injection H as <-.
  pose proof (Z.mod_pos_bound (Z.min n mx) mult ltac:(lia)) as Hb.
  pose proof (Z.div_mod (Z.min n mx) mult ltac:(lia)) as Hd.
  split_and!; try lia.
  replace (Z.min n mx - Z.min n mx mod mult) with (Z.min n mx / mult * mult) by lia.
  apply Z.mod_mul. lia.
Qed.

(** The bounds under which the selection cannot raise. *)
Definition bounds_ok (mn mx mult rem : Z) : Prop :=
  0 <= rem /\ 1 <= mn <= mx /\ 1 <= mult /\ (rem = 0 \/ mx mod mult = 0) /\
  mn <= mx / mult * mult.

Lemma requested_groups_total n mn mx mult rem :
  bounds_ok mn mx mult rem -> exists r, requested_groups n mn mx mult rem = Ok r.
Proof.
  intros (Hr & [Hmn Hmx] & Hm & Ha & Hf). unfold requested_groups.
  rewrite (proj2 (Z.ltb_ge mult 1) Hm). cbn [raise_if mbind res_bind].
  assert (negb (rem =? 0) && negb (mx mod mult =? 0) = false) as ->.
  { destruct Ha as [->| ->]; cbn; [done|]. apply andb_false_r. }
  cbn [raise_if mbind res_bind]. rewrite (proj2 (Z.ltb_ge _ _) Hf). cbn [raise_if mbind res_bind].
  cbv zeta. repeat split_if; by eexists.
Qed.

(** The rows of a slot. *)
Definition slot_rows (sl : Slot) : list string :=
  match s_meta sl with Some m => sample_ids m | None => [] end.

Lemma slot_meta_Ok st l i sl m :
  represents st l -> l !! i = Some sl -> slot_meta st i = Ok m <-> s_meta sl = Some m.
Proof.
  intros Hr Hi. unfold slot_meta, get_index.
  rewrite (rep_meta _ _ Hr), list_lookup_fmap, Hi. cbn. destruct (s_meta sl); cbn; split; congruence.
Qed.

Lemma slot_metas st l idxs slots metas :
  represents st l -> Forall2 (fun i sl => l !! i = Some sl) idxs slots ->
  traverse (slot_meta st) idxs = Ok metas <-> Some <$> metas = s_meta <$> slots.
Proof.
  intros Hr HF. rewrite traverse_Ok. revert metas.
  induction HF as [|i sl idxs slots Hi _ IH]; intros metas.
  - split; [by inversion 1|]. destruct metas; [constructor|done].
  - split.
    + inversion 1; subst. cbn. rewrite (proj1 (slot_meta_Ok _ _ _ _ _ Hr Hi)) by done.
      f_equal. by apply IH.
    + destruct metas as [|m metas]; [done|]. cbn. intros [= Hm Hms]. constructor; [|by apply IH].
      by apply (slot_meta_Ok _ _ _ _ _ Hr Hi).
Qed.

Lemma selected_meta_rows st l idxs slots m :
  represents st l -> Forall2 (fun i sl => l !! i = Some sl) idxs slots ->
  selected_meta idxs st = Ok m -> sample_ids m = concat (slot_rows <$> slots).
Proof.
  intros Hr HF H. unfold selected_meta in H. apply bind_Ok in H as (metas & Hm & H).
  apply bind_Ok in H as (metrics & _ & H). rewrite (slot_metas _ _ _ _ _ Hr HF) in Hm.
  assert (slot_rows <$> slots = sample_ids <$> metas) as ->.
  { clear -Hm. revert metas Hm. induction slots as [|sl slots IH]; intros [|m metas] Hm; try done.
    cbn in *. injection Hm as H1 H2. unfold slot_rows at 1. rewrite <- H1. f_equal. by apply IH. }
  destruct metas as [|m0 ms]; [done|]. apply fmap_Ok in H as (m1 & H1 & ->).
  cbn [sample_ids with_metrics]. by apply concat_meta_ids in H1 as [? _].
Qed.

(** Metadata as the rollout side commits it, in the buffer's partition. *)
Definition clean_meta (st : TQ) (m : KVBatchMeta) : Prop :=
  aligned m /\ partition_id m = tq_partition_id st /\ exists xs, rollout_metrics_of m = Ok xs.

Lemma selected_meta_total st l idxs slots :
  represents st l -> Forall2 (fun i sl => l !! i = Some sl) idxs slots -> idxs <> [] ->
  Forall (fun sl => exists m, s_meta sl = Some m /\ clean_meta st m) slots ->
  exists m, selected_meta idxs st = Ok m.
Proof.
  intros Hr HF Hne Hc.
  assert (exists metas, Some <$> metas = s_meta <$> slots /\ Forall (clean_meta st) metas)
    as (metas & Hm & Hcl).
  { clear -Hc. induction Hc as [|sl slots (m & Hm & Hcl) _ (metas & IH1 & IH2)]; [by exists []|].
    exists (m :: metas). cbn. by rewrite Hm, IH1; auto. }
  unfold selected_meta. rewrite (proj2 (slot_metas _ _ _ _ _ Hr HF) Hm). cbn [mbind res_bind].
  assert (exists xs, traverse rollout_metrics_of metas = Ok xs) as [xs ->].
  { clear -Hcl. induction Hcl as [|m metas (_ & _ & ys & Hy) _ [xs IH]]; [by eexists|].
    cbn. rewrite Hy. cbn. rewrite IH. by eexists. }
  cbn [mbind res_bind]. destruct metas as [|m ms].
  { destruct HF; [done|]. done. }
  destruct (concat_meta_total m ms) as [r ->]; [| |by eexists].
  - eapply Forall_impl; [exact Hcl|]. by intros ? [? _].
  - apply Forall_cons in Hcl as [(_ & Hp & _) Hcl]. eapply Forall_impl; [exact Hcl|].
    intros o (_ & Ho & _). congruence.
Qed.

Lemma finalize_selection_spec st l idxs mn mx mult rem st' m n (P : Slot -> Prop) :
  represents st l -> good_slots l -> NoDup (training_claims st).*1 -> 1 <= mn -> NoDup idxs ->
  (forall i, i ∈ idxs -> exists sl, l !! i = Some sl /\ P sl) ->
  finalize_selection idxs mn mx mult rem st = Ok (st', Some m, n) ->
  mn <= Z.of_nat n <= mx /\ Z.of_nat n mod mult = 0 /\
  (Z.of_nat n = mx \/ rem <= mx - Z.of_nat n) /\
  exists slots, Forall2 (fun i sl => l !! i = Some sl) (take n idxs) slots /\
    length slots = n /\ NoDup (s_gid <$> slots) /\ Forall P slots /\
    represents st' (List.filter (keeps (s_gid <$> slots)) l) /\
    training_owned_group_ids st' ≡ₚ training_owned_group_ids st ++ (s_gid <$> slots) /\
    sample_ids m = concat (slot_rows <$> slots).
Proof.
  intros Hr Hg Hcl Hmn Hnd Hin H. unfold finalize_selection in H.
  apply bind_Ok in H as ([k|] & Hk & H); [|done]. cbv zeta in H.
  apply (requested_groups_Some _ _ _ _ _ _ Hmn) in Hk as (Hk1 & Hk2 & Hk3 & Hk4).
  apply bind_Ok in H as (m' & Hm & H). apply bind_Ok in H as ([st1 n1] & Hc & H).
  injection H as <- <- Hn.
  assert (length (take (Z.to_nat k) idxs) = Z.to_nat k) as Hlen by (rewrite length_take; lia).
  rewrite Hlen in Hn. subst n. rewrite Z2Nat.id by lia. split; [lia|]. split; [done|]. split; [done|].
  set (sel := take (Z.to_nat k) idxs) in *.
  assert (NoDup sel) as Hnd' by (eapply sublist_NoDup; [exact Hnd|apply sublist_take]).
  destruct (candidate_slots P l sel) as (slots & HF & HP).
  { intros i Hi. apply Hin. eapply sublist_subseteq; [apply (sublist_take idxs (Z.to_nat k))|done]. }
  exists slots. pose proof (slots_at_NoDup _ _ _ (proj1 Hg) Hnd' HF) as Hsn.
  assert (length slots = Z.to_nat k) as Hls by (by rewrite <- Hlen, (Forall2_length _ _ _ HF)).
  unfold claim_for_training in Hc. apply bind_Ok in Hc as (r & Hres & Hc).
  assert (sel <> []) as Hne by (intros Hs; rewrite Hs in Hlen; cbn in Hlen; lia).
  assert (barrier_bound st = true) as Hb.
  { unfold claim_resolve in Hres. destruct (Z.of_nat <$> sel) eqn:E; [by destruct sel|].
    do 3 (apply bind_Ok in Hres as ([] & ?%raise_if_Ok & Hres)). by destruct (barrier_bound st). }
  destruct (claim_resolve_slots st l sel slots Hr Hb Hne Hnd' HF) as (gids & Hgids & Hp).
  rewrite Hgids in Hres. injection Hres as <-.
  destruct (claim_groups_spec _ _ _ _ _ Hr (proj1 Hg) Hcl Hc)
    as (_ & _ & Hr' & claims & Hcl' & Hfst & _ & _).
  split_and!; [done|done|done|done| | |exact (selected_meta_rows _ _ _ _ _ Hr HF Hm)].
  - by rewrite <- (keeps_permutation _ _ l Hp).
  - unfold training_owned_group_ids. by rewrite Hcl', fmap_app, Hfst, Hp.
Qed.

Lemma keeps_indices_where (P : Slot -> bool) l slots gids :
  NoDup (s_gid <$> l) -> Forall2 (fun i sl => l !! i = Some sl) (indices_where P l) slots ->
  gids ≡ₚ s_gid <$> slots ->
  List.filter (keeps gids) l = List.filter (fun sl => negb (P sl)) l.
Proof.
  intros Hn HF Hp. apply filter_ext_in. intros sl Hsl. rewrite <- list_elem_of_In in Hsl.
  unfold keeps. f_equal. destruct (P sl) eqn:E.
  - apply bool_decide_eq_true. rewrite Hp. apply list_elem_of_fmap_2.
    apply list_elem_of_lookup in Hsl as (i & Hi).
    assert (i ∈ indices_where P l) as Hin by (apply elem_of_indices_where; eauto).
    apply list_elem_of_lookup in Hin as (j & Hj).
    destruct (Forall2_lookup_l _ _ _ _ _ HF Hj) as (sl' & Hs & Hl).
    assert (sl' = sl) as -> by congruence. by eapply list_elem_of_lookup_2.
  - apply bool_decide_eq_false. rewrite Hp. intros (sl' & Hg & Hsl')%list_elem_of_fmap.
    apply list_elem_of_lookup in Hsl' as (j & Hj).
    destruct (Forall2_lookup_r _ _ _ _ _ HF Hj) as (i & Hi & Hl).
    assert (i ∈ indices_where P l) as Hin by (by eapply list_elem_of_lookup_2).
    apply elem_of_indices_where in Hin as (x & Hx & HP).
    assert (sl = sl') as ->; [|congruence].
    eapply NoDup_gid_inj; [exact Hn|done| |done]. by eapply list_elem_of_lookup_2.
Qed.

(** Removing the slots where [P] holds, by index. *)
Lemma remove_where_spec st l (P : Slot -> bool) cok sok st' calls n :
  represents st l -> good_slots l -> barrier_bound st = true -> indices_where P l <> [] ->
  remove (Z.of_nat <$> indices_where P l) true cok sok st = Ok (st', calls, n) ->
  represents st' (List.filter (fun sl => negb (P sl)) l) /\
  training_claims st' = training_claims st /\ n = length (List.filter P l).
Proof.
  intros Hr Hg Hb Hne He. pose proof (indices_where_NoDup P l) as Hnd.
  destruct (candidate_slots (fun sl => P sl = true) l (indices_where P l)) as (slots & HF & _).
  { intros i Hi. by apply elem_of_indices_where in Hi. }
  unfold remove in He. apply bind_Ok in He as (r & Hres & He).
  destruct (remove_resolve_slots st l _ slots Hr Hb Hne Hnd HF) as (gids & Hgids & Hp).
  rewrite Hgids in Hres. injection Hres as <-.
  apply bind_Ok in He as ([sids keys] & _ & He).
  destruct (removal_calls sids keys true cok sok st) as [c ok].
  apply bind_Ok in He as (u & _ & He).
  assert (NoDup gids) as Hgn by (rewrite Hp; exact (slots_at_NoDup _ _ _ (proj1 Hg) Hnd HF)).
  destruct (drop_groups_spec st l gids Hr (proj1 Hg) Hgn) as (D1 & D2 & D3).
  unfold removal_finish in He. destruct (drop_groups gids st) as [st1 n1].
  injection He as <- _ <-. cbn [fst snd] in *.
  pose proof (keeps_indices_where P l slots gids (proj1 Hg) HF Hp) as Hk. rewrite <- Hk.
  split_and!; [done|done|]. rewrite D3.
  assert (forall sl, sl ∈ l -> keeps gids sl = negb (P sl)) as Hkp.
  { intros sl Hsl. destruct (keeps gids sl) eqn:E.
    - assert (sl ∈ List.filter (fun sl => negb (P sl)) l) as Hin by (by rewrite <- Hk, list_filter_elem_of).
      by apply list_filter_elem_of in Hin as [_ ->].
    - destruct (P sl) eqn:EP; [done|].
      assert (sl ∈ List.filter (keeps gids) l) as Hin by (by rewrite Hk, list_filter_elem_of, EP).
      apply list_filter_elem_of in Hin as [_ Hin]. congruence. }
  f_equal. apply filter_ext_in. intros sl Hsl. rewrite Hkp by (by apply list_elem_of_In).
  apply negb_involutive.
Qed.

Lemma evict_spec {S} `{SamplerLaws S} (s : S) w cok sok st l st' calls n :
  represents st l -> good_slots l -> barrier_bound st = true ->
  evict s w cok sok st = Ok (st', calls, n) ->
  represents st' (List.filter (fun sl => negb (stale s w sl && s_ready sl)) l) /\
  training_claims st' = training_claims st /\
  n = length (List.filter (fun sl => stale s w sl && s_ready sl) l).
Proof.
  intros Hr Hg Hb He. unfold evict in He. rewrite (stale_law s w st l Hr) in He.
  cbn [mbind res_bind] in He. set (P := fun sl => stale s w sl && s_ready sl) in *.
  destruct (indices_where P l) as [|i idxs] eqn:Ei.
  - injection He as <- _ <-. assert (forall sl, sl ∈ l -> P sl = false) as Hnone.
    { intros sl (j & Hj)%list_elem_of_lookup. destruct (P sl) eqn:E; [|done].
      assert (j ∈ indices_where P l) as Hin by (apply elem_of_indices_where; eauto).
      rewrite Ei in Hin. by apply not_elem_of_nil in Hin. }
    rewrite (filter_none P l Hnone), filter_all; [done|].
    intros sl Hsl. fold (P sl). by rewrite Hnone.
  - rewrite <- Ei in He. by apply (remove_where_spec st l P _ _ _ _ _ Hr Hg Hb ltac:(by rewrite Ei) He).
Qed.

(** ** Order of selection *)

Lemma freshness_order w (keyed : list (Z * nat)) p q a b :
  (p < q)%nat -> py_sort (freshness_ltb w) keyed !! p = Some a ->
  py_sort (freshness_ltb w) keyed !! q = Some b -> b.1 <= a.1.
Proof.
  intros Hpq Ha Hb.
  assert (freshness_ltb w b a = false) as Hf.
  { eapply (StronglySorted_lookup_lt (fun a b => freshness_ltb w b a = false)); [|exact Hpq|done..].
    apply py_sort_sorted.
    - intros x y z. unfold freshness_ltb. rewrite !orb_false_iff, !andb_false_iff,
        !Z.ltb_ge, !Z.eqb_neq, !Nat.ltb_ge. lia.
    - intros x y. unfold freshness_ltb. rewrite orb_true_iff, orb_false_iff, andb_true_iff,
        andb_false_iff, !Z.ltb_lt, !Z.ltb_ge, Z.eqb_eq, Z.eqb_neq, Nat.ltb_lt, Nat.ltb_ge. lia. }
  unfold freshness_ltb in Hf. apply orb_false_iff in Hf as [Hf%Z.ltb_ge _]. lia.
Qed.

(** A slot among the selected ones sits at a selected index. *)
Lemma selected_index l (idxs : list nat) slots (a : Slot) i :
  NoDup (s_gid <$> l) -> Forall2 (fun i sl => l !! i = Some sl) idxs slots ->
  l !! i = Some a -> s_gid a ∈ s_gid <$> slots <-> i ∈ idxs.
Proof.
  intros Hn HF Hi. split.
  - intros (sl & Hg & Hsl)%list_elem_of_fmap. apply list_elem_of_lookup in Hsl as (p & Hp).
    destruct (Forall2_lookup_r _ _ _ _ _ HF Hp) as (j & Hj & Hl).
    assert (i = j) as ->; [|by eapply list_elem_of_lookup_2].
    eapply (NoDup_lookup (s_gid <$> l)); [done| |]; rewrite list_lookup_fmap.
    + by rewrite Hi.
    + rewrite Hl. cbn. by rewrite Hg.
  - intros (p & Hp)%list_elem_of_lookup.
    destruct (Forall2_lookup_l _ _ _ _ _ HF Hp) as (sl & Hsl & Hl).
    assert (sl = a) as -> by congruence. apply list_elem_of_fmap_2. by eapply list_elem_of_lookup_2.
Qed.

Lemma freshest_selected w st l idxs idxs' (P : Slot -> bool) slots n a b :
  represents st l -> NoDup (s_gid <$> l) -> idxs = indices_where P l ->
  freshest_first w st idxs = Ok idxs' ->
  Forall2 (fun i sl => l !! i = Some sl) (take n idxs') slots ->
  a ∈ l -> b ∈ l -> s_gid a ∈ s_gid <$> slots -> s_gid b ∉ s_gid <$> slots -> P b = true ->
  s_start b <= s_start a.
Proof.
  intros Hr Hn -> Hf HF (i & Hi)%list_elem_of_lookup (j & Hj)%list_elem_of_lookup Ha Hb HP.
  destruct (freshest_first_spec w st l _ Hr (fun i => indices_where_lt P l i)) as (keyed & Hk & Hkey).
  rewrite Hk in Hf. injection Hf as <-.
  rewrite (selected_index l _ slots a i Hn HF Hi) in Ha. rewrite (selected_index l _ slots b j Hn HF Hj) in Hb.
  pose proof (Forall2_snd_eq _ _ _ Hkey ltac:(by intros ? ? [? _])) as Hsnd.
  pose proof (py_sort_perm (freshness_ltb w) keyed) as Hp.
  assert (forall x, x ∈ keyed -> exists sl, l !! x.2 = Some sl /\ s_start sl = x.1) as Hx.
  { intros x (q & Hq)%list_elem_of_lookup.
    destruct (Forall2_lookup_r _ _ _ _ _ Hkey Hq) as (i0 & _ & Heq & sl & Hsl & Hst).
    exists sl. by rewrite Heq. }
  assert (forall q i0, (py_sort (freshness_ltb w) keyed).*2 !! q = Some i0 ->
    exists x sl, py_sort (freshness_ltb w) keyed !! q = Some x /\ l !! i0 = Some sl /\ s_start sl = x.1) as Hq.
  { intros q i0 H. rewrite list_lookup_fmap in H.
    destruct (py_sort (freshness_ltb w) keyed !! q) as [x|] eqn:Ex; [|done]. injection H as <-.
    destruct (Hx x) as (sl & ? & ?); [|by exists x, sl]. rewrite <- Hp. by eapply list_elem_of_lookup_2. }
  apply elem_of_take in Ha as (p & Hap & Hpn).
  assert (j ∈ (py_sort (freshness_ltb w) keyed).*2) as Hjin.
  { rewrite Hp, Hsnd. apply elem_of_indices_where. eauto. }
  apply list_elem_of_lookup in Hjin as (q & Hbq).
  assert (n <= q)%nat as Hnq.
  { destruct (decide (n <= q)%nat); [done|]. exfalso. apply Hb, elem_of_take. exists q. split; [done|lia]. }
  destruct (Hq _ _ Hap) as (xa & sa & H1 & H2 & H3). destruct (Hq _ _ Hbq) as (xb & sb & H4 & H5 & H6).
  assert (sa = a) as -> by congruence. assert (sb = b) as -> by congruence.
  rewrite H3, H6. by apply (freshness_order w keyed p q); [lia| |].
Qed.

(** ** Admission *)

Lemma wait_until_admissible_spec {S} `{PromptGroupSampler S} fuel versions k (s : S) :
  match wait_until_admissible fuel versions k s with
  | Some j => (k <= j < k + fuel)%nat /\ admissible s (versions j) = true /\
      forall i, (k <= i < j)%nat -> admissible s (versions i) = false
  | None => forall i, (k <= i < k + fuel)%nat -> admissible s (versions i) = false
  end.
Proof.
  revert k. induction fuel as [|fuel IH]; intros k; cbn; [intros; lia|].
  destruct (admissible s (versions k)) eqn:E.
  - split_and!; [lia|lia|done|intros; lia].
  - specialize (IH (Datatypes.S k)). destruct (wait_until_admissible _ _ _ _) as [j|].
    + destruct IH as ([? ?] & ? & IH). split_and!; [lia|lia|done|]. intros i Hi.
      destruct (decide (i = k)) as [->|]; [done|]. apply IH. lia.
    + intros i Hi. destruct (decide (i = k)) as [->|]; [done|]. apply IH. lia.
Qed.

(** The in-order policy as the rollout pump, the train pump and the retuning
    driver use it, in any interleaving.  The version is bumped first and the
    window retuned later ([retune_pending]); a batch may be admitted in
    between. *)
Record AdmissionRun := mkRun {
  run_sampler : InOrder;
  run_version : Z;
  retune_pending : bool;
  run_stamps : list Z }.

Inductive admission_step (start : Z) : AdmissionRun -> AdmissionRun -> Prop :=
| admission_admit s s' t v p ts :
    admissible s v = true -> admission s = (s', Some t) ->
    admission_step start (mkRun s v p ts) (mkRun s' v p (ts ++ [t]))
| admission_train s v ts :
    admission_step start (mkRun s v false ts) (mkRun s (v + 1) true ts)
| admission_retune s v p g ts :
    set_gate_window (retuned_window (io_max_lookahead_versions s) (io_warmup_lookahead_versions s)
      start v) (io_gate s) = Ok g ->
    admission_step start (mkRun s v p ts)
      (mkRun (mkInOrder g (io_max_lookahead_versions s) (io_warmup_lookahead_versions s)) v false ts).

Inductive admission_reachable (start : Z) (r0 : AdmissionRun) : AdmissionRun -> Prop :=
| admission_refl : admission_reachable start r0 r0
| admission_more r r' :
    admission_reachable start r0 r -> admission_step start r r' -> admission_reachable start r0 r'.

(** A run starts with a valid configuration, a cursor within the steady
    lookahead, and the window retuned by the constructor. *)
Definition admission_start (start : Z) (r : AdmissionRun) : Prop :=
  let s := run_sampler r in
  valid_config (InOrderSamplerConfig (io_max_lookahead_versions s) (io_warmup_lookahead_versions s)) = true /\
  gate_window (io_gate s) = retuned_window (io_max_lookahead_versions s)
    (io_warmup_lookahead_versions s) start (run_version r) /\
  dispatch_index s <= run_version r + io_max_lookahead_versions s /\
  retune_pending r = false /\ run_stamps r = [].

Definition admission_inv (start d0 steady : Z) (warm : option Z) (r : AdmissionRun) : Prop :=
  let s := run_sampler r in
  io_max_lookahead_versions s = steady /\ io_warmup_lookahead_versions s = warm /\
  gate_window (io_gate s) = retuned_window steady warm start
    (if retune_pending r then run_version r - 1 else run_version r) /\
  d0 <= dispatch_index s /\
  dispatch_index s <= run_version r + default steady warm /\
  dispatch_index s <= Z.max (run_version r + steady) (start + steady + 1) /\
  run_stamps r = seqZ (d0 + 1) (dispatch_index s - d0).

Lemma admission_inv_step start d0 steady warm r r' :
  valid_config (InOrderSamplerConfig steady warm) = true ->
  admission_inv start d0 steady warm r -> admission_step start r r' ->
  admission_inv start d0 steady warm r'.
Proof.
  intros Hv (I1 & I2 & I3 & I4 & I5 & I6 & I7) Hs.
  assert (0 <= steady /\ steady <= default steady warm) as [Hs0 Hsw].
  { cbn in Hv. destruct warm as [w|]; cbn; bool_to_prop; lia. }
  destruct Hs as [s s' t v p ts Ha Hadm|s v ts|s v p g ts Hg]; unfold admission_inv in *; cbn in *.
  - injection Hadm as <- <-. cbn. unfold gate_admissible in Ha.
    apply negb_true_iff, Z.leb_gt in Ha.
    assert (gate_window (io_gate s) <= default steady warm /\
      (if p then v - 1 else v) + gate_window (io_gate s) <= Z.max (start + steady) ((if p then v - 1 else v) + steady))
      as [Hw1 Hw2].
    { rewrite I3. unfold retuned_window. destruct warm as [w|]; cbn in *; [|lia].
      destruct (Z.leb_spec start (if p then v - 1 else v)); lia. }
    split_and!; try done; try lia.
    + destruct p; lia.
    + rewrite I7. replace (gate_dispatch_index (io_gate s) + 1 - d0)
        with ((gate_dispatch_index (io_gate s) - d0) + 1) by lia.
      rewrite seqZ_app by lia.
      by replace (d0 + 1 + (gate_dispatch_index (io_gate s) - d0))
        with (gate_dispatch_index (io_gate s) + 1) by lia.
  - split_and!; try done; try lia. by replace (v + 1 - 1) with v by lia.
  - unfold set_gate_window in Hg. apply bind_Ok in Hg as (? & _ & [= <-]). cbn.
    rewrite I1, I2. split_and!; try done; lia.
Qed.

(** ** Properties *)

(** C24 A selection claims eligible groups only, and exactly the ones it
    reports: between the minimum and the maximum, a multiple of the alignment,
    leaving no tail shorter than the floor; the claimed groups are ready,
    eligible under the policy and distinct, they leave the buffer for the
    training claims, the others stay, and the metadata lists their rows.  A
    deferred selection changes nothing. *)
Theorem selection_claims_eligible_groups {S} `{SamplerLaws S} (s : S) w mn mx mult rem
    partition staging st st' o n :
  reachable partition staging st -> select s w mn mx mult rem st = Ok (st', o, n) ->
  match o with
  | None => st' = st /\ n = 0%nat
  | Some m =>
      mn <= Z.of_nat n <= mx /\ Z.of_nat n mod mult = 0 /\
      (Z.of_nat n = mx \/ rem <= mx - Z.of_nat n) /\
      exists l slots, represents st l /\ length slots = n /\ NoDup (s_gid <$> slots) /\
        Forall (fun sl => sl ∈ l /\ s_ready sl = true /\ eligible s w sl = true) slots /\
        represents st' (List.filter (keeps (s_gid <$> slots)) l) /\
        training_owned_group_ids st' ≡ₚ training_owned_group_ids st ++ (s_gid <$> slots) /\
        sample_ids m = concat (slot_rows <$> slots)
  end.
Proof.
  intros (l & Hr & Hg & Hcl)%reachable_wf H1. unfold select in H1.
  apply bind_Ok in H1 as ([] & Hb & H1). apply bind_Ok in H1 as (c & Hc & H1).
  destruct (candidates_law s w st l Hr) as (c' & Hc' & Hcand). rewrite Hc in Hc'. injection Hc' as <-.
  destruct c as [idxs|]; [|by injection H1 as <- <- <-].
  destruct Hcand as [Hnd Hin]. destruct o as [m|].
  - assert (1 <= mn) as Hmn.
    { unfold validate_group_bounds in Hb. apply bind_Ok in Hb as (? & _ & Hb).
      by apply bind_Ok in Hb as (? & ?%raise_if_Ok%Z.ltb_ge & _). }
    destruct (finalize_selection_spec _ _ _ _ _ _ _ _ _ _ _ Hr Hg Hcl Hmn Hnd Hin H1)
      as (A1 & A2 & A3 & slots & HF & A4 & A5 & A6 & A7 & A8 & A9).
    split_and!; try lia. exists l, slots. split_and!; try done.
    pose proof (slots_at_elem _ _ _ HF) as He. rewrite Forall_forall in *. auto.
  - unfold finalize_selection in H1. apply bind_Ok in H1 as ([k|] & _ & H1); [|by injection H1 as <- <-].
    cbv zeta in H1. apply bind_Ok in H1 as (? & _ & H1). by apply bind_Ok in H1 as ([? ?] & _ & ?).
Qed.

(** A selection within valid bounds never raises: on a buffer bound to the
    barrier whose ready groups have well-formed metadata of its partition and
    are not already claimed, every policy returns a batch or defers. *)
Theorem selection_never_fails {S} `{SamplerLaws S} (s : S) w mn mx mult rem
    partition staging st :
  reachable partition staging st -> barrier_bound st = true -> bounds_ok mn mx mult rem ->
  (forall l sl, represents st l -> sl ∈ l -> s_ready sl = true ->
     (s_gid sl ∉ training_owned_group_ids st) /\ exists m, s_meta sl = Some m /\ clean_meta st m) ->
  exists r, select s w mn mx mult rem st = Ok r.
Proof.
  intros (l & Hr & Hg & Hcl)%reachable_wf Hb Hbounds Hclean. specialize (Hclean l).
  destruct (Hbounds) as (B1 & [B2 B3] & _).
  unfold select, validate_group_bounds.
  rewrite (proj2 (Z.ltb_ge rem 0) B1), (proj2 (Z.ltb_ge mn 1) B2), (proj2 (Z.ltb_ge mx mn) B3).
  cbn [raise_if mbind res_bind].
  destruct (candidates_law s w st l Hr) as ([idxs|] & -> & Hcand); cbn [mbind res_bind]; [|by eexists].
  destruct Hcand as [Hnd Hin]. unfold finalize_selection.
  destruct (requested_groups_total (Z.of_nat (length idxs)) _ _ _ _ Hbounds) as ([k|] & Hk);
    rewrite Hk; cbn [mbind res_bind]; [|by eexists].
  apply (requested_groups_Some _ _ _ _ _ _ B2) in Hk as (Hk1 & Hk2 & _). cbv zeta.
  set (sel := take (Z.to_nat k) idxs).
  assert (sel <> []) as Hne.
  { intros Hs. assert (length sel = 0%nat) as Hl by (by rewrite Hs). unfold sel in Hl.
    rewrite length_take in Hl. lia. }
  assert (NoDup sel) as Hnd' by (eapply sublist_NoDup; [exact Hnd|apply sublist_take]).
  destruct (candidate_slots (fun sl => s_ready sl = true /\ eligible s w sl = true) l sel)
    as (slots & HF & HP).
  { intros i Hi. apply Hin. eapply sublist_subseteq; [apply (sublist_take idxs (Z.to_nat k))|done]. }
  pose proof (slots_at_elem _ _ _ HF) as He. rewrite Forall_forall in HP, He.
  destruct (selected_meta_total st l sel slots Hr HF Hne) as [m ->].
  { apply Forall_forall. intros sl Hsl. by apply Hclean; [done|apply He|apply HP]. }
  cbn [mbind res_bind]. unfold claim_for_training.
  destruct (claim_resolve_slots st l sel slots Hr Hb Hne Hnd' HF) as (gids & -> & Hp).
  cbn [mbind res_bind].
  destruct (claim_groups_total st l gids slots Hr Hg (slots_at_NoDup _ _ _ (proj1 Hg) Hnd' HF) Hp)
    as [st' ->]; [..|by eexists].
  - apply Forall_forall. intros sl Hsl. split; [by apply He|by apply HP].
  - apply Forall_forall. intros sl Hsl. by apply Hclean; [done|apply He|apply HP].
Qed.

(** An eviction is safe: the groups it drops are ready ones that the policy
    could not select now or at any later trainer version, no stale ready group
    survives it, the others stay in order, no claim is touched; and a rollout
    the policy asks to abort would be evicted as soon as it is committed. *)
Theorem eviction_drops_only_unselectable {S} `{SamplerLaws S} (s : S) w cok sok
    partition staging st st' calls n :
  well_formed s -> reachable partition staging st -> barrier_bound st = true ->
  evict s w cok sok st = Ok (st', calls, n) ->
  exists l dropped, represents st l /\ n = length (List.filter dropped l) /\
    represents st' (List.filter (fun sl => negb (dropped sl)) l) /\
    training_claims st' = training_claims st /\
    (forall sl w', sl ∈ l -> dropped sl = true -> w <= w' ->
       s_ready sl = true /\ eligible s w' sl = false) /\
    (forall sl, sl ∈ l -> s_ready sl = true ->
       should_abort_inflight s (s_start sl) w = true -> dropped sl = true).
Proof.
  intros Hwf (l & Hr & Hg & _)%reachable_wf Hb He.
  destruct (evict_spec s w cok sok st l st' calls n Hr Hg Hb He) as (H1 & H2 & H3).
  exists l, (fun sl => stale s w sl && s_ready sl). split_and!; try done.
  - intros sl w' Hsl [Hs Hrd]%andb_true_iff Hle. split; [done|]. by apply (stale_never_eligible s w w').
  - intros sl Hsl Hrd Ha. rewrite Hrd, andb_true_r. by apply (aborted_never_eligible s w w sl Ha).
Qed.

(** The order of selection.  The FIFO policy takes groups of one start
    weight only, and no slot of the window, finished or not, has an older one.
    The freshest-first windowed policy leaves no finished in-window group
    behind that is fresher than one it takes. *)
Theorem selection_follows_the_order partition staging st w mn mx mult rem st' m n :
  reachable partition staging st ->
  exists l, represents st l /\
  (forall s : WeightFifo, select s w mn mx mult rem st = Ok (st', Some m, n) ->
     exists taken v, represents st' (List.filter (keeps taken) l) /\
       (forall sl, sl ∈ l -> s_gid sl ∈ taken -> s_start sl = v) /\
       (forall sl, sl ∈ l -> in_window (wf_max_staleness_versions s) w (s_start sl) = true ->
          v <= s_start sl)) /\
  (forall s : Windowed, wd_sample_freshest_first s = true ->
     select s w mn mx mult rem st = Ok (st', Some m, n) ->
     exists taken, represents st' (List.filter (keeps taken) l) /\
       (forall a b, a ∈ l -> b ∈ l -> s_gid a ∈ taken -> s_gid b ∉ taken ->
          in_window (wd_max_staleness_versions s) w (s_start b) && s_ready b = true ->
          s_start b <= s_start a)).
Proof.
  intros (l & Hr & Hg & Hcl)%reachable_wf. exists l. split; [done|].
  assert (forall u, validate_group_bounds mn mx rem = Ok u -> 1 <= mn) as Hmn.
  { intros u Hb. unfold validate_group_bounds in Hb. apply bind_Ok in Hb as (? & _ & Hb).
    by apply bind_Ok in Hb as (? & ?%raise_if_Ok%Z.ltb_ge & _). }
  split; intros s; [intros Hs|intros Hfresh Hs]; unfold select in Hs;
    apply bind_Ok in Hs as ([] & Hb%Hmn & Hs); apply bind_Ok in Hs as (c & Hc & Hs).
  - destruct c as [idxs|]; [|done]. cbn [candidates weight_fifo_sampler] in Hc.
    pose proof (fifo_candidates_spec (wf_max_staleness_versions s) w st l Hr) as Hf.
    rewrite Hc in Hf. destruct Hf as (v & -> & _ & Hv).
    destruct (indices_where_candidates (fun sl => s_start sl =? v) l) as [Hnd Hin].
    destruct (finalize_selection_spec _ _ _ _ _ _ _ _ _ _ _ Hr Hg Hcl Hb Hnd Hin Hs)
      as (_ & _ & _ & slots & HF & _ & _ & HP & Hr' & _).
    exists (s_gid <$> slots), v. split_and!; [done| |done].
    intros sl Hsl (sl' & Hgid & Hsl')%list_elem_of_fmap. rewrite Forall_forall in HP.
    pose proof (slots_at_elem _ _ _ HF) as He. rewrite Forall_forall in He.
    rewrite (NoDup_gid_inj l sl sl' (proj1 Hg) Hsl (He _ Hsl') Hgid).
    by apply Z.eqb_eq, HP.
  - destruct (candidates_law s w st l Hr) as (c' & Hc' & Hcand). rewrite Hc in Hc'.
    injection Hc' as <-. destruct c as [idxs'|]; [|done]. destruct Hcand as [Hnd Hin].
    cbn [candidates windowed_sampler] in Hc. rewrite (ready_starts_spec _ _ _ Hr) in Hc.
    cbn [mbind res_bind] in Hc. rewrite Hfresh in Hc. apply fmap_Ok in Hc as (x & Hx & [= <-]).
    destruct (finalize_selection_spec _ _ _ _ _ _ _ _ _ _ _ Hr Hg Hcl Hb Hnd Hin Hs)
      as (_ & _ & _ & slots & HF & _ & _ & HP & Hr' & _).
    exists (s_gid <$> slots). split; [done|]. intros a b Ha Hbl Hta Htb HPb.
    by eapply (freshest_selected w st l _ idxs' _ slots n a b Hr (proj1 Hg) eq_refl Hx HF).
Qed.

(** The in-order policy's lookahead.  However the rollout pump, the train
    pump and the retuning of the window interleave: no batch is dispatched
    further ahead than the peak lookahead, so the batches in flight fit the
    capacity the policy asks for; once the policy has trained past its first
    step the warm-up widening has left no extra staleness; and the target
    steps stamped are consecutive, one per admitted batch. *)
Theorem lookahead_is_bounded start r0 r groups_per_step :
  admission_start start r0 -> admission_reachable start r0 r -> 0 <= groups_per_step ->
  let s := run_sampler r in
  let steady := io_max_lookahead_versions (run_sampler r0) in
  (exists cap, required_buffer_capacity s groups_per_step = Some cap /\
     (dispatch_index s - run_version r + 1) * groups_per_step <= cap) /\
  dispatch_index s <= Z.max (run_version r + steady) (start + steady + 1) /\
  (start < run_version r -> dispatch_index s <= run_version r + steady) /\
  run_stamps r = seqZ (dispatch_index (run_sampler r0) + 1)
                      (dispatch_index s - dispatch_index (run_sampler r0)).
Proof.
  intros (Hv & Hw & Hd & Hp & Hst) Hreach Hgs. cbv zeta.
  set (steady := io_max_lookahead_versions (run_sampler r0)) in *.
  set (warm := io_warmup_lookahead_versions (run_sampler r0)) in *.
  assert (0 <= steady /\ steady <= default steady warm) as [Hs0 Hsw].
  { cbn in Hv. destruct warm as [x|]; cbn; bool_to_prop; lia. }
  assert (admission_inv start (dispatch_index (run_sampler r0)) steady warm r) as Hinv.
  { induction Hreach as [|r r' _ IH Hstep]; [|by eapply admission_inv_step].
    unfold admission_inv. rewrite Hp. split_and!; try done; try lia.
    by rewrite Hst, Z.sub_diag. }
  destruct Hinv as (I1 & I2 & _ & I4 & I5 & I6 & I7). split_and!; [|done|lia|done].
  eexists. split; [done|]. rewrite I1, I2. unfold gated_required_buffer_capacity.
  rewrite Z.mul_comm. apply Z.mul_le_mono_nonneg_l; [done|]. lia.
Qed.

(** [admit] waits for the gate and then commits exactly one admission: it
    lets the batch through at the first poll where the trainer version allows
    it, and as soon as one such poll exists enough polling finds it.  A gated
    policy then runs at most its window ahead of the version it read. *)
Theorem admit_waits_for_gate {S} `{PromptGroupSampler S} (s : S) versions k :
  admissible s (versions k) = true ->
  exists j, (j <= k)%nat /\
    (forall fuel, (k < fuel)%nat -> sampler_admit fuel versions s = Some (j, admission s)) /\
    (forall i, (i < j)%nat -> admissible s (versions i) = false) /\
    (forall g v, gate_admissible g v = true ->
       gate_dispatch_index (advance_gate g) = gate_dispatch_index g + 1 /\
       gate_dispatch_index (advance_gate g) <= v + gate_window g).
Proof.
  intros Hk.
  assert (forall fuel, (k < fuel)%nat -> exists j, wait_until_admissible fuel versions 0 s = Some j /\
    (j <= k)%nat /\ admissible s (versions j) = true /\
    forall i, (i < j)%nat -> admissible s (versions i) = false) as Hw.
  { intros fuel Hf. pose proof (wait_until_admissible_spec fuel versions 0 s) as Hs.
    destruct (wait_until_admissible _ _ _ _) as [j|].
    - destruct Hs as (_ & Hj & Hall). exists j. split_and!; try done.
      + destruct (decide (j <= k)%nat); [done|]. rewrite Hall in Hk; [done|lia].
      + intros i Hi. apply Hall. lia.
    - rewrite Hs in Hk; [done|lia]. }
  destruct (Hw (Datatypes.S k) ltac:(lia)) as (j & _ & Hjk & Hj & Hlt).
  exists j. split_and!; [done| |done|].
  - intros fuel Hf. destruct (Hw fuel Hf) as (j' & Hwj & Hjk' & Hj' & Hlt').
    unfold sampler_admit. rewrite Hwj. cbn. repeat f_equal.
    destruct (decide (j' < j)%nat) as [Hc|]; [rewrite (Hlt _ Hc) in Hj'; done|].
    destruct (decide (j < j')%nat) as [Hc|]; [rewrite (Hlt' _ Hc) in Hj; done|]. lia.
  - intros g v Hg. unfold gate_admissible in Hg. apply negb_true_iff, Z.leb_gt in Hg.
    cbn. split; lia.
Qed.

(** The capacity the setup code computes from a configuration, before any
    sampler exists, is the one the constructed sampler reports; and a valid
    built-in configuration always constructs. *)
Theorem config_capacity_is_sampler_capacity {C} (build : string -> res C) cfg groups min_groups :
  valid_config cfg = true -> (forall target, cfg <> CustomSamplerConfig target) ->
  exists a, create_sampler build cfg (Some min_groups) = Ok a /\
  match a with
  | AWindowed s => required_buffer_capacity s groups
  | AReadyFirst s => required_buffer_capacity s groups
  | AWeightFifo s => required_buffer_capacity s groups
  | AInOrder s => required_buffer_capacity s groups
  | ACustom _ => None
  end = required_buffer_capacity_for_config cfg groups min_groups.
Proof.
  intros Hv Hc. destruct cfg as [n fresh|n|n|n [warm|]|target]; cbn in Hv |- *; bool_to_prop;
    [..|by destruct (Hc target)];
    unfold new_windowed, new_ready_first, new_weight_fifo, new_in_order, new_gated, set_gate_window;
    rewrite (proj2 (Z.ltb_ge n 0)) by lia; by eexists.
Qed.

(** ** Witnesses *)

(** The sample buffer holds two finished groups [g1], [g2] of weight 0 and an
    unfinished [g3]. *)
Definition windowed1 : Windowed := mkWindowed (-1) 1 true (Some 2).
Definition fifo1 : WeightFifo := mkWeightFifo (mkGated (-1) 1) 1.

Lemma selection_claims_eligible_groups_witness :
  exists st' m n, select windowed1 1 1 3 1 0 sample_buffer = Ok (st', Some m, n) /\
    1 <= Z.of_nat n <= 3 /\ sample_ids m = ["a"; "b"]%string.
Proof.
  destruct (select windowed1 1 1 3 1 0 sample_buffer) as [[[st' [m|]] n]|] eqn:E;
    [|exfalso; vm_compute in E; discriminate E..].
  exists st', m, n. split; [reflexivity|].
  split; [exact (proj1 (selection_claims_eligible_groups windowed1 1 1 3 1 0 "p" None
    sample_buffer st' (Some m) n sample_reachable E))|].
  vm_compute in E. injection E as _ <- _. reflexivity.
Defined.

Lemma sample_clean sl m :
  sl ∈ sample_slots -> s_meta sl = Some m -> clean_meta sample_buffer m.
Proof.
  intros Hin Hm. assert (m = rows "a" \/ m = rows "b") as [-> | ->].
  { unfold sample_slots in Hin. repeat (apply elem_of_cons in Hin as [-> |Hin]; [cbn in Hm|]).
    - left. congruence.
    - right. congruence.
    - discriminate Hm.
    - by apply not_elem_of_nil in Hin. }
  all: split; [|split; [reflexivity|by eexists]]; split; intros l [= <-]; reflexivity.
Qed.

Lemma selection_never_fails_witness :
  exists r, select fifo1 1 2 2 1 0 sample_buffer = Ok r.
Proof.
  apply (selection_never_fails fifo1 1 2 2 1 0 "p" None sample_buffer sample_reachable eq_refl).
  - split; [lia|]. split; [lia|]. split; [lia|]. split; [left; reflexivity|].
    vm_compute. discriminate.
  - intros l sl Hr Hsl Hrd. rewrite (represents_inj _ _ _ Hr sample_represents) in Hsl.
    split; [vm_compute; intros H; inversion H|].
    destruct (s_meta sl) as [m|] eqn:Em.
    + exists m. split; [reflexivity|]. exact (sample_clean sl m Hsl Em).
    + exfalso. unfold sample_slots in Hsl.
      repeat (apply elem_of_cons in Hsl as [-> |Hsl]; [discriminate|]).
      by apply not_elem_of_nil in Hsl.
Defined.

Lemma eviction_drops_only_unselectable_witness :
  exists st' calls n, evict windowed1 3 true true sample_buffer = Ok (st', calls, n) /\ n = 2%nat /\
    training_claims st' = [].
Proof.
  destruct (evict windowed1 3 true true sample_buffer) as [[[st' calls] n]|] eqn:E;
    [|exfalso; vm_compute in E; discriminate E].
  exists st', calls, n. split; [reflexivity|].
  destruct (eviction_drops_only_unselectable windowed1 3 true true "p" None sample_buffer st' calls n
    ltac:(exact I) sample_reachable eq_refl E) as (l & dropped & _ & _ & _ & H & _).
  split; [vm_compute in E; injection E as _ _ <-; reflexivity|exact H].
Defined.

Lemma selection_follows_the_order_witness :
  exists st' m n taken v, select fifo1 1 2 2 1 0 sample_buffer = Ok (st', Some m, n) /\
    represents st' (List.filter (keeps taken) sample_slots) /\ v <= 0.
Proof.
  destruct (select fifo1 1 2 2 1 0 sample_buffer) as [[[st' [m|]] n]|] eqn:E;
    [|exfalso; vm_compute in E; discriminate E..].
  destruct (selection_follows_the_order "p" None sample_buffer 1 2 2 1 0 st' m n sample_reachable)
    as (l & Hr & Hf & _).
  rewrite (represents_inj _ _ _ Hr sample_represents) in Hf.
  destruct (Hf fifo1 E) as (taken & v & H1 & _ & H2).
  exists st', m, n, taken, v. split; [reflexivity|]. split; [exact H1|].
  exact (H2 (new_slot 0 (Some 9) "g3" None) ltac:(apply list_elem_of_In; right; right; left; reflexivity)
    eq_refl).
Defined.

Definition in_order1 : InOrder := mkInOrder (mkGated (-1) 3) 1 (Some 3).

Lemma lookahead_is_bounded_witness :
  exists r, admission_reachable 5 (mkRun in_order1 0 false []) r /\ run_stamps r = [0].
Proof.
  exists (mkRun (admission in_order1).1 0 false [0]).
  assert (admission_reachable 5 (mkRun in_order1 0 false [])
    (mkRun (admission in_order1).1 0 false [0])) as H.
  { eapply admission_more; [apply admission_refl|].
    exact (admission_admit 5 in_order1 _ 0 0 false [] eq_refl eq_refl). }
  split; [exact H|].
  exact (proj2 (proj2 (proj2 (lookahead_is_bounded 5 (mkRun in_order1 0 false []) _ 4
    ltac:(repeat split; cbn; lia) H ltac:(lia))))).
Defined.

Definition fifo_ahead : WeightFifo := mkWeightFifo (mkGated 3 1) 1.

Lemma admit_waits_for_gate_witness :
  exists j, (j <= 3)%nat /\ sampler_admit 4 Z.of_nat fifo_ahead = Some (j, admission fifo_ahead).
Proof.
  destruct (admit_waits_for_gate (H := weight_fifo_sampler) fifo_ahead Z.of_nat 3 eq_refl) as (j & Hj & Ha & _).
  exists j. split; [exact Hj|]. apply Ha. lia.
Defined.

Lemma config_capacity_is_sampler_capacity_witness :
  exists a, create_sampler (fun _ => Raise ValueError) (InOrderSamplerConfig 1 (Some 3)) (Some 2) =
    Ok (a : AnySampler unit).
Proof.
  destruct (config_capacity_is_sampler_capacity (C := unit) (fun _ => Raise ValueError)
    (InOrderSamplerConfig 1 (Some 3)) 8 2 eq_refl ltac:(discriminate)) as (a & H & _).
  exists a. exact H.
Defined.
