(* ===== verification/ReplayBuffer.v ===== *)
(** * The per-step replay buffer of asynchronous GRPO

    Models [ReplayBufferImpl] of
    [src/nemo_rl/algorithms/async_utils/replay_buffer.py]: trajectory groups in
    parallel lists with the weight version that generated them and the training
    step they are meant for; sampling, gap filling and restoring from a
    checkpoint.  Every operation holds the buffer's lock, so an operation is
    one step of the state.  Diagnostics ([get_debug_info]) and the file I/O
    around a saved state are not modelled. *)

From S2P Require Import Prelude.

(** What the buffer inspects of a trajectory (a dict): its task ordinal, the
    agent names of its batch, the attribution column, and the rest. *)
Record Trajectory := mkTrajectory {
  task_index : option Z;
  agent_ref : option (list string);
  attribution_key : option (list string);
  payload : Z }.

Record RB := mkRB {
  max_size : Z;
  drop_incomplete_targets_on_restore : bool;
  trajectories : list Trajectory;
  trajectory_versions : list Z;
  target_weight_versions : list Z;
  last_target_weight_already_generated : Z }.

(** [__init__]. *)
Definition new_buffer (max_size : Z) (drop_incomplete : bool) : res RB :=
  _ ← raise_if (max_size <=? 0) ValueError;
  Ok (mkRB max_size drop_incomplete [] [] [] (-1)).

Definition with_rows (rb : RB) ts vs gs : RB :=
  mkRB (max_size rb) (drop_incomplete_targets_on_restore rb) ts vs gs
    (last_target_weight_already_generated rb).

Definition with_last (rb : RB) (n : Z) : RB :=
  mkRB (max_size rb) (drop_incomplete_targets_on_restore rb) (trajectories rb)
    (trajectory_versions rb) (target_weight_versions rb) n.

Definition size (rb : RB) : Z := Z.of_nat (length (trajectories rb)).

Definition add (t : Trajectory) (weight_version target_weight_version : Z) (rb : RB)
    : RB * string :=
  if max_size rb <=? size rb then (rb, "full"%string)
  else (with_rows rb (trajectories rb ++ [t]) (trajectory_versions rb ++ [weight_version])
          (target_weight_versions rb ++ [target_weight_version]), "success"%string).

Definition get_existing_target_weights (rb : RB) : gset Z := list_to_set (target_weight_versions rb).

Definition clear (rb : RB) : RB := with_rows rb [] [] [].

(** [_remove_indices]: pop from the highest index down. *)
Definition remove_indices (indices : list nat) (rb : RB) : RB :=
  let drop := py_sort (fun a b => b <? a)%nat indices in
  with_rows rb (foldl (fun l i => delete i l) (trajectories rb) drop)
    (foldl (fun l i => delete i l) (trajectory_versions rb) drop)
    (foldl (fun l i => delete i l) (target_weight_versions rb) drop).

(** [self.xs = [self.xs[i] for i in indices_to_keep]] for the three lists. *)
Definition keep_indices (indices : list nat) (rb : RB) : RB :=
  with_rows rb (select_indices (trajectories rb) indices)
    (select_indices (trajectory_versions rb) indices)
    (select_indices (target_weight_versions rb) indices).

(** [l[:n]]. *)
Definition slice_to {A} (n : Z) (l : list A) : list A :=
  take (Z.to_nat (if 0 <=? n then n else Z.of_nat (length l) + n)) l.

Definition min_valid_version (step max_age_steps : Z) : Z := Z.max 0 (step - max_age_steps).

(** The sampled batch; the average age is the fraction
    [sampled_age_sum / sampled_count]. *)
Record Sampled := mkSampled {
  sampled_trajectories : list Trajectory;
  sampled_age_sum : Z;
  sampled_count : Z }.

Definition sample (num_prompt_groups current_weight_version max_age_steps : Z) (rb : RB)
    : RB * res (option Sampled) :=
  match trajectories rb with
  | [] => (rb, Ok None)
  | _ =>
      let min_valid := min_valid_version current_weight_version max_age_steps in
      let old_indices := indices_where (fun v => v <? min_valid) (trajectory_versions rb) in
      let rb1 := match old_indices with [] => rb | _ => remove_indices old_indices rb end in
      let valid_indices := indices_where
        (fun v => (min_valid <=? v) && (v <=? current_weight_version)) (trajectory_versions rb1) in
      match valid_indices with
      | [] => (rb1, Ok None)
      | _ =>
          if Z.of_nat (length valid_indices) <? num_prompt_groups then (rb1, Ok None) else
          let intended_indices := List.filter (fun i =>
            bool_decide (target_weight_versions rb1 !! i = Some current_weight_version))
            valid_indices in
          if Z.of_nat (length intended_indices) <? num_prompt_groups then (rb1, Ok None) else
          let selected := slice_to num_prompt_groups intended_indices in
          let sampled_weights := select_indices (trajectory_versions rb1) selected in
          match sampled_weights with
          | [] => (rb1, Raise ZeroDivisionError)
          | _ =>
              let count := Z.of_nat (length sampled_weights) in
              let sampled_items := select_indices (trajectories rb1) selected in
              let rb2 := remove_indices selected rb1 in
              (with_last rb2 (Z.max (last_target_weight_already_generated rb2)
                                current_weight_version),
               Ok (Some (mkSampled sampled_items
                     (current_weight_version * count - zsum sampled_weights) count)))
          end
      end
  end.

(** [get_held_task_indices]: the ordinals held, in increasing order. *)
Definition get_held_task_indices (rb : RB) : list Z :=
  py_sort Z.ltb (omap task_index (trajectories rb)).

(** ** Checkpoints *)

(** The saved dict; a missing key is [None]. *)
Record SavedState := mkSaved {
  saved_trajectories : option (list Trajectory);
  saved_versions : option (list Z);
  saved_targets : option (list Z);
  saved_last : option Z;
  saved_max_size : option Z }.

Definition state_dict (rb : RB) : SavedState :=
  mkSaved (Some (trajectories rb)) (Some (trajectory_versions rb))
    (Some (target_weight_versions rb)) (Some (last_target_weight_already_generated rb))
    (Some (max_size rb)).

(** [_is_valid_for_target]. *)
Definition is_valid_for_target (trajectory_version target_step : Z) (max_age_steps : option Z)
    : bool :=
  match max_age_steps with
  | None => true
  | Some age => (min_valid_version target_step age <=? trajectory_version)
                && (trajectory_version <=? target_step)
  end.

(** [_remove_stale_trajectories]. *)
Definition remove_stale_trajectories (max_age_steps : Z) (rb : RB) : RB :=
  let indices := indices_where
    (fun p => negb (is_valid_for_target p.1 p.2 (Some max_age_steps)))
    (zip (trajectory_versions rb) (target_weight_versions rb)) in
  match indices with [] => rb | _ => remove_indices indices rb end.

(** [_count_for_target]. *)
Definition count_for_target (target_step : Z) (max_age_steps : option Z) (rb : RB) : Z :=
  Z.of_nat (length (List.filter
    (fun p => (p.2 =? target_step) && is_valid_for_target p.1 target_step max_age_steps)
    (zip (trajectory_versions rb) (target_weight_versions rb)))).

(** [Counter(targets)[t]], and the targets with fewer rows than a step needs. *)
Definition target_count (t : Z) (targets : list Z) : Z :=
  Z.of_nat (length (List.filter (fun x => x =? t) targets)).

Definition incomplete_targets (num_prompts_per_step : Z) (targets : list Z) : list Z :=
  List.filter (fun t => target_count t targets <? num_prompts_per_step) targets.

(** [_prepare_for_training_step]. *)
Definition prepare_for_training_step (current_step num_prompts_per_step : Z) (rb : RB) : RB :=
  let kept := indices_where (fun t => current_step <=? t) (target_weight_versions rb) in
  let rb1 := if (length kept <? length (trajectories rb))%nat then keep_indices kept rb else rb in
  match trajectories rb1 with
  | [] => with_last rb1 (current_step - 1)
  | _ =>
      let incomplete := incomplete_targets num_prompts_per_step (target_weight_versions rb1) in
      let rb2 :=
        if negb (bool_decide (incomplete = [])) && drop_incomplete_targets_on_restore rb1
        then keep_indices (indices_where (fun t => negb (bool_decide (t ∈ incomplete)))
               (target_weight_versions rb1)) rb1
        else rb1 in
      with_last rb2 (current_step - 1)
  end.

(** [_remove_incomplete_target_steps]. *)
Definition remove_incomplete_target_steps (num_prompts_per_step : Z) (rb : RB) : RB :=
  let incomplete := incomplete_targets num_prompts_per_step (target_weight_versions rb) in
  match incomplete with
  | [] => rb
  | _ =>
      let rb1 := keep_indices (indices_where (fun t => negb (bool_decide (t ∈ incomplete)))
                   (target_weight_versions rb)) rb in
      match target_weight_versions rb1 with
      | t :: ts => with_last rb1 (Z.min (last_target_weight_already_generated rb1)
                                    (argmin_by Z.ltb t ts - 1))
      | [] => with_last rb1 (-1)
      end
  end.

(** The priority [(self.target_weight_versions[i], i)]. *)
Definition priority_ltb (a b : Z * nat) : bool :=
  (a.1 <? b.1) || ((a.1 =? b.1) && (a.2 <? b.2)%nat).

(** [_truncate_to_max_size]. *)
Definition truncate_to_max_size (current_training_step : option Z) (rb : RB) : RB :=
  if size rb <=? max_size rb then rb
  else
    let n := length (trajectories rb) in
    let cap := Z.to_nat (max_size rb) in
    let indices := match current_training_step with
      | None => seq (n - cap) cap
      | Some _ => py_sort Nat.ltb
          (take cap (py_sort priority_ltb (zip (target_weight_versions rb) (seq 0 n))).*2)
      end in
    keep_indices indices rb.

(** Checkpoints written before the attribution column existed. *)
Definition restore_attribution (t : Trajectory) : Trajectory :=
  match agent_ref t, attribution_key t with
  | Some names, None => mkTrajectory (task_index t) (agent_ref t) (Some names) (payload t)
  | _, _ => t
  end.

Definition load_state_dict (state : SavedState)
    (num_prompts_per_step current_training_step max_age_steps : option Z) (rb : RB) : res RB :=
  match saved_trajectories state, saved_versions state, saved_targets state, saved_last state with
  | Some ts, Some vs, Some gs, Some last =>
      _ ← raise_if (negb ((length ts =? length vs)%nat && (length vs =? length gs)%nat)) ValueError;
      let rb0 := with_last (with_rows rb (restore_attribution <$> ts) vs gs) last in
      let rb1 := match max_age_steps, trajectories rb0 with
        | Some age, _ :: _ => remove_stale_trajectories age rb0
        | _, _ => rb0
        end in
      let rb2 := match current_training_step, num_prompts_per_step with
        | Some step, Some n => prepare_for_training_step step n rb1
        | None, Some n => match trajectories rb1 with
                          | [] => rb1
                          | _ => remove_incomplete_target_steps n rb1
                          end
        | _, None => rb1
        end in
      Ok (truncate_to_max_size current_training_step rb2)
  | _, _, _, _ => Raise ValueError
  end.

(** [load_from_path], given the deserialized state: the buffer and the
    coordination metadata (count, next task index, retained indices). *)
Definition load_from_path (state : SavedState)
    (num_prompts_per_step current_training_step max_age_steps : option Z) (rb : RB)
    : res (RB * (Z * Z * list Z)) :=
  let saved_task_indices := omap task_index (default [] (saved_trajectories state)) in
  let next_task_index := foldl Z.max (-1) saved_task_indices + 1 in
  ts ← match saved_trajectories state with Some ts => Ok ts | None => Raise KeyError end;
  rb' ← load_state_dict state num_prompts_per_step current_training_step max_age_steps rb;
  Ok (rb', (Z.of_nat (length ts), next_task_index, get_held_task_indices rb')).

(** ** Gap filling *)

Definition get_trajectories_needed (target_step num_prompts_per_step : Z)
    (max_age_steps : option Z) (rb : RB) : Z :=
  if target_step <=? last_target_weight_already_generated rb then 0
  else Z.max 0 (num_prompts_per_step - count_for_target target_step max_age_steps rb).

Definition has_complete_batch (target_step num_prompts_per_step : Z)
    (max_age_steps : option Z) (rb : RB) : bool :=
  num_prompts_per_step <=? count_for_target target_step max_age_steps rb.

(** ** The buffer as one list of rows *)
Record Entry := mkEntry { e_traj : Trajectory; e_version : Z; e_target : Z }.

Record holds (rb : RB) (l : list Entry) : Prop := {
  h_traj : trajectories rb = e_traj <$> l;
  h_version : trajectory_versions rb = e_version <$> l;
  h_target : target_weight_versions rb = e_target <$> l }.

(** The window and target tests of the operations, on a row. *)
Definition too_old (step age : Z) (e : Entry) : bool := e_version e <? min_valid_version step age.

Definition usable (step : Z) (age : option Z) (e : Entry) : bool :=
  is_valid_for_target (e_version e) step age.

Definition intended (step : Z) (age : option Z) (e : Entry) : bool :=
  (e_target e =? step) && usable step age e.

Lemma holds_size rb l : holds rb l -> size rb = Z.of_nat (length l).
Proof. intros []. unfold size. by rewrite h_traj0, length_fmap. Qed.

Lemma foldl_delete_fmap {A B} (f : A -> B) (idxs : list nat) : forall (l : list A),
  foldl (fun (l : list B) i => delete i l) (f <$> l) idxs =
  f <$> foldl (fun (l : list A) i => delete i l) l idxs.
Proof. induction idxs as [|i idxs IH]; intros l; [done|]. cbn. by rewrite <- list_fmap_delete, IH. Qed.

Lemma holds_remove rb l idxs :
  holds rb l ->
  holds (remove_indices idxs rb)
    (foldl (fun l i => delete i l) l (py_sort (fun a b => b <? a)%nat idxs)).
Proof.
  intros [H1 H2 H3]. constructor; cbn; rewrite ?H1, ?H2, ?H3; apply foldl_delete_fmap.
Qed.

Lemma holds_remove_first (P : Entry -> bool) rb l n :
  holds rb l -> holds (remove_indices (take n (indices_where P l)) rb) (drop_first P n l).
Proof.
  intros Hh. apply (holds_remove _ _ (take n (indices_where P l))) in Hh.
  rewrite (py_sort_desc _ (take n (indices_where P l))) in Hh; [|..|done].
  - by rewrite foldl_delete_reverse, foldr_delete_first in Hh.
  - pose proof (indices_where_sorted P l) as Hs. rewrite <- (take_drop n (indices_where P l)) in Hs.
    by apply StronglySorted_app in Hs as (_ & ? & _).
Qed.

Lemma holds_remove_where (P : Entry -> bool) rb l :
  holds rb l -> holds (remove_indices (indices_where P l) rb) (List.filter (fun e => negb (P e)) l).
Proof.
  intros Hh. apply (holds_remove _ _ (indices_where P l)) in Hh.
  rewrite (py_sort_desc _ (indices_where P l)) in Hh; [|apply indices_where_sorted|done].
  by rewrite foldl_delete_reverse, foldr_delete_indices in Hh.
Qed.

Lemma holds_keep rb l idxs :
  holds rb l -> holds (keep_indices idxs rb) (select_indices l idxs).
Proof. intros [H1 H2 H3]. constructor; cbn; rewrite ?H1, ?H2, ?H3; apply select_indices_fmap. Qed.

Lemma holds_keep_where (P : Entry -> bool) rb l :
  holds rb l -> holds (keep_indices (indices_where P l) rb) (List.filter P l).
Proof. intros Hh. rewrite <- select_indices_where. by apply holds_keep. Qed.

Lemma holds_with_last rb l n : holds (with_last rb n) l <-> holds rb l.
Proof. split; intros [H1 H2 H3]; by constructor. Qed.

Lemma zip_entries l : zip (e_version <$> l) (e_target <$> l) = (fun e => (e_version e, e_target e)) <$> l.
Proof. induction l as [|e l IH]; [done|]. cbn. by f_equal. Qed.

Lemma count_for_target_spec rb l step age :
  holds rb l -> count_for_target step age rb = Z.of_nat (length (List.filter (intended step age) l)).
Proof.
  intros [_ H2 H3]. unfold count_for_target. rewrite H2, H3, zip_entries. f_equal. clear.
  induction l as [|e l IH]; [done|]. cbn. change (intended step age e) with
    ((e_target e =? step) && is_valid_for_target (e_version e) step age).
  destruct (_ && _); cbn; [f_equal|]; exact IH.
Qed.

(** ** Sampling *)

(** The eviction at the head of [sample]. *)
Lemma evicted rb l step age :
  holds rb l ->
  let old := indices_where (fun v => v <? min_valid_version step age) (trajectory_versions rb) in
  holds (match old with [] => rb | _ => remove_indices old rb end)
    (List.filter (fun e => negb (too_old step age e)) l).
Proof.
  intros Hh. cbv zeta. rewrite (h_version _ _ Hh), indices_where_fmap.
  fold (too_old step age). destruct (indices_where _ l) as [|i idxs] eqn:E.
  - rewrite filter_all; [done|]. intros e He. by rewrite (indices_where_nil _ _ E).
  - rewrite <- E. by apply (holds_remove_where (too_old step age)).
Qed.

Lemma remove_indices_last idxs rb :
  last_target_weight_already_generated (remove_indices idxs rb) = last_target_weight_already_generated rb.
Proof. done. Qed.

Lemma slice_to_nonneg {A} n (l : list A) : 0 <= n -> slice_to n l = take (Z.to_nat n) l.
Proof. intros H. unfold slice_to. by rewrite (proj2 (Z.leb_le 0 n) H). Qed.

Lemma select_take {A} (P : A -> bool) l n :
  select_indices l (take n (indices_where P l)) = take n (List.filter P l).
Proof.
  rewrite <- select_indices_where. revert n.
  assert (Forall (fun i => is_Some (l !! i)) (indices_where P l)) as Hr.
  { apply Forall_forall. intros i (x & Hx & _)%elem_of_indices_where. eauto. }
  unfold select_indices. induction Hr as [|i idxs [x Hx] _ IH]; intros [|n]; try done.
  cbn. rewrite Hx. cbn. f_equal. apply IH.
Qed.

Lemma intended_indices rb l step age :
  holds rb l ->
  List.filter (fun i => bool_decide (target_weight_versions rb !! i = Some step))
    (indices_where (fun v => (min_valid_version step age <=? v) && (v <=? step))
       (trajectory_versions rb)) =
  indices_where (intended step (Some age)) l.
Proof.
  intros [_ H2 H3]. rewrite H2, H3, indices_where_fmap.
  rewrite (filter_indices_where _ (fun e => e_target e =? step)).
  - unfold indices_where. f_equal. apply filter_ext. intros [i e]. cbn.
    unfold intended, usable, is_valid_for_target. apply andb_comm.
  - intros i e Hi. rewrite list_lookup_fmap, Hi. cbn.
    destruct (Z.eqb_spec (e_target e) step) as [->|Hne]; [by apply bool_decide_eq_true_2|].
    apply bool_decide_eq_false_2. congruence.
Qed.

(** What [sample] does to the rows. *)
Definition live (step age : Z) (l : list Entry) : list Entry :=
  List.filter (fun e => negb (too_old step age e)) l.

Definition batch (step age : Z) (l : list Entry) : list Entry :=
  List.filter (intended step (Some age)) (live step age l).

Lemma sample_spec n step age rb l :
  holds rb l -> 0 < n ->
  match sample n step age rb with
  | (rb', Ok None) => holds rb' (live step age l) /\
      last_target_weight_already_generated rb' = last_target_weight_already_generated rb /\
      Z.of_nat (length (batch step age l)) < n
  | (rb', Ok (Some r)) =>
      let taken := take (Z.to_nat n) (batch step age l) in
      n <= Z.of_nat (length (batch step age l)) /\
      holds rb' (drop_first (intended step (Some age)) (Z.to_nat n) (live step age l)) /\
      last_target_weight_already_generated rb' =
        Z.max (last_target_weight_already_generated rb) step /\
      r = mkSampled (e_traj <$> taken)
            (step * Z.of_nat (length taken) - zsum (e_version <$> taken)) (Z.of_nat (length taken))
  | (_, Raise _) => False
  end.
Proof.
  intros Hh Hn. unfold sample. destruct (trajectories rb) as [|t0 ts] eqn:Et.
  { assert (l = []) as ->.
    { destruct l; [done|]. pose proof (h_traj _ _ Hh) as H. by rewrite Et in H. }
    split_and!; [done|done|]. cbn. lia. }
  clear t0 ts Et. pose proof (evicted rb l step age Hh) as Hh1. cbv zeta in Hh1 |- *.
  set (old := indices_where _ (trajectory_versions rb)) in *.
  set (rb1 := match old with [] => rb | _ => remove_indices old rb end) in *.
  assert (last_target_weight_already_generated rb1 = last_target_weight_already_generated rb) as Hl
    by (unfold rb1; by destruct old).
  clearbody rb1. clear old. fold (live step age l) in Hh1.
  pose proof (intended_indices rb1 _ step age Hh1) as Hint.
  assert (length (indices_where (intended step (Some age)) (live step age l)) =
          length (batch step age l)) as Hlen by apply length_indices_where.
  set (valid := indices_where _ (trajectory_versions rb1)) in *.
  assert (length (batch step age l) <= length valid)%nat as Hle.
  { rewrite <- Hlen, <- Hint. apply filter_length_le. }
  destruct valid as [|i idxs] eqn:Ev; [split_and!; [done|done|cbn in Hle; lia]|]. rewrite <- Ev in *.
  destruct (Z.ltb_spec (Z.of_nat (length valid)) n); [split_and!; [done|done|lia]|].
  rewrite Hint, Hlen. destruct (Z.ltb_spec (Z.of_nat (length (batch step age l))) n) as [|Hge];
    [by split_and!|].
  rewrite slice_to_nonneg by lia.
  rewrite (h_version _ _ Hh1), (h_traj _ _ Hh1), !select_indices_fmap, select_take.
  fold (batch step age l). set (taken := take (Z.to_nat n) (batch step age l)).
  assert (length taken = Z.to_nat n) as Htl by (unfold taken; rewrite length_take; lia).
  destruct (e_version <$> taken) as [|w ws] eqn:Ew.
  { destruct taken; [cbn in Htl; lia|done]. }
  rewrite <- Ew, length_fmap. split_and!; [done| |by rewrite <- Hl|done].
  apply holds_with_last. by apply (holds_remove_first (intended step (Some age))).
Qed.

Lemma too_old_not_intended step age e :
  too_old step age e = true -> intended step (Some age) e = false.
Proof.
  unfold too_old, intended, usable, is_valid_for_target. intros ?%Z.ltb_lt.
  apply andb_false_iff. right. apply andb_false_iff. left. apply Z.leb_gt. lia.
Qed.

(** Eviction takes no row the step can use. *)
Lemma batch_intended step age l : batch step age l = List.filter (intended step (Some age)) l.
Proof.
  unfold batch, live. rewrite filter_filter. apply filter_ext. intros e.
  destruct (too_old step age e) eqn:E; cbn; [|done]. by rewrite too_old_not_intended.
Qed.

(** ** Adding *)

Definition add_all (ts : list (Trajectory * Z)) (target : Z) (rb : RB) : RB :=
  foldl (fun rb t => (add t.1 t.2 target rb).1) rb ts.

Lemma add_spec t v g rb l :
  holds rb l -> size rb < max_size rb ->
  add t v g rb = (with_rows rb (trajectories rb ++ [t]) (trajectory_versions rb ++ [v])
                    (target_weight_versions rb ++ [g]), "success"%string) /\
  holds (add t v g rb).1 (l ++ [mkEntry t v g]).
Proof.
  intros [H1 H2 H3] Hs. unfold add. rewrite (proj2 (Z.leb_gt _ _) Hs). split; [done|].
  constructor; cbn; rewrite fmap_app; cbn; congruence.
Qed.

Lemma add_all_spec target ts : forall rb l,
  holds rb l -> size rb + Z.of_nat (length ts) <= max_size rb ->
  holds (add_all ts target rb) (l ++ ((fun t => mkEntry t.1 t.2 target) <$> ts)) /\
  last_target_weight_already_generated (add_all ts target rb) =
    last_target_weight_already_generated rb.
Proof.
  induction ts as [|[t v] ts IH]; intros rb l Hh Hs; cbn.
  { by rewrite app_nil_r. }
  cbn [length] in Hs. destruct (add_spec t v target rb l Hh ltac:(lia)) as [Ha Hh'].
  destruct (IH _ _ Hh') as [IH1 IH2].
  - rewrite (holds_size _ _ Hh'), length_app. rewrite (holds_size _ _ Hh) in Hs. cbn.
    rewrite Ha. cbn. lia.
  - rewrite <- app_assoc in IH1. split; [exact IH1|].
    unfold add_all in IH2. rewrite IH2, Ha. done.
Qed.

(** ** Restoring *)

Definition restored (e : Entry) : Entry :=
  mkEntry (restore_attribution (e_traj e)) (e_version e) (e_target e).

Definition fresh (age : Z) (e : Entry) : bool := usable (e_target e) (Some age) e.

Definition upcoming (step : Z) (e : Entry) : bool := step <=? e_target e.

(** The row's target has a complete batch in [l]. *)
Definition complete (n : Z) (l : list Entry) (e : Entry) : bool :=
  negb (target_count (e_target e) (e_target <$> l) <? n).

Lemma remove_stale_spec age rb l :
  holds rb l -> holds (remove_stale_trajectories age rb) (List.filter (fresh age) l) /\
  last_target_weight_already_generated (remove_stale_trajectories age rb) =
    last_target_weight_already_generated rb /\
  max_size (remove_stale_trajectories age rb) = max_size rb /\
  drop_incomplete_targets_on_restore (remove_stale_trajectories age rb) =
    drop_incomplete_targets_on_restore rb.
Proof.
  intros Hh. unfold remove_stale_trajectories.
  rewrite (h_version _ _ Hh), (h_target _ _ Hh), zip_entries, indices_where_fmap. cbv zeta.
  pose proof (holds_remove_where (fun e => negb (fresh age e)) rb l Hh) as Hr.
  change (fun e => negb (is_valid_for_target (e_version e, e_target e).1 (e_version e, e_target e).2
    (Some age))) with (fun e => negb (fresh age e)).
  destruct (indices_where _ l) as [|i idxs] eqn:E.
  - split_and!; try done. rewrite filter_all; [done|]. intros e He.
    by apply negb_false_iff, (indices_where_nil _ _ E).
  - split_and!; try done.
    rewrite (filter_ext (fresh age) (fun e => negb (negb (fresh age e)))); [done|].
    intros e. by rewrite negb_involutive.
Qed.

Lemma filter_full {A} (P : A -> bool) l :
  (length l <= length (List.filter P l))%nat -> List.filter P l = l.
Proof.
  induction l as [|x l IH]; [done|]. cbn. pose proof (filter_length_le P l).
  destruct (P x); cbn; [|lia]. intros. f_equal. apply IH. lia.
Qed.

Lemma elem_of_incomplete n l e :
  e ∈ l -> bool_decide (e_target e ∈ incomplete_targets n (e_target <$> l)) = negb (complete n l e).
Proof.
  intros He. unfold complete. rewrite negb_involutive. unfold incomplete_targets.
  destruct (_ <? n) eqn:E.
  - apply bool_decide_eq_true, list_filter_elem_of. split; [by apply list_elem_of_fmap_2|done].
  - apply bool_decide_eq_false. rewrite list_filter_elem_of. intros [_ Hc]. congruence.
Qed.

(** Keeping the rows of complete targets. *)
Lemma keep_complete_spec n rb l :
  holds rb l ->
  holds (keep_indices (indices_where
      (fun t => negb (bool_decide (t ∈ incomplete_targets n (target_weight_versions rb))))
      (target_weight_versions rb)) rb)
    (List.filter (complete n l) l).
Proof.
  intros Hh. rewrite (h_target _ _ Hh), indices_where_fmap.
  rewrite (filter_ext_in _ (fun e => negb (bool_decide
    (e_target e ∈ incomplete_targets n (e_target <$> l))))); [by apply holds_keep_where|].
  intros e He. rewrite elem_of_incomplete by (by apply list_elem_of_In). by rewrite negb_involutive.
Qed.

Lemma complete_when_none n l :
  incomplete_targets n (e_target <$> l) = [] -> List.filter (complete n l) l = l.
Proof.
  intros Hn. apply filter_all. intros e He. pose proof (elem_of_incomplete n l e He) as Hb.
  rewrite Hn in Hb. rewrite bool_decide_eq_false_2 in Hb by apply not_elem_of_nil.
  by apply negb_false_iff.
Qed.

Definition prepared (drop_incomplete : bool) (step n : Z) (l : list Entry) : list Entry :=
  let l1 := List.filter (upcoming step) l in
  if drop_incomplete then List.filter (complete n l1) l1 else l1.

Lemma prepare_spec step n rb l :
  holds rb l ->
  let rb' := prepare_for_training_step step n rb in
  holds rb' (prepared (drop_incomplete_targets_on_restore rb) step n l) /\
  last_target_weight_already_generated rb' = step - 1 /\ max_size rb' = max_size rb.
Proof.
  intros Hh. unfold prepare_for_training_step. cbv zeta.
  rewrite (h_target _ _ Hh), indices_where_fmap. fold (upcoming step).
  rewrite length_indices_where, (h_traj _ _ Hh), length_fmap.
  set (rb1 := if (_ <? _)%nat then _ else rb).
  assert (holds rb1 (List.filter (upcoming step) l) /\ max_size rb1 = max_size rb /\
    drop_incomplete_targets_on_restore rb1 = drop_incomplete_targets_on_restore rb) as (Hh1 & Hm & Hd).
  { unfold rb1. destruct (Nat.ltb_spec (length (List.filter (upcoming step) l)) (length l)).
    - split_and!; [by apply (holds_keep_where (upcoming step))|done|done].
    - split_and!; try done. rewrite filter_full; [done|lia]. }
  rewrite <- Hd, <- Hm. clearbody rb1. clear Hd Hm Hh rb. unfold prepared.
  set (l1 := List.filter (upcoming step) l) in *. clearbody l1.
  destruct (trajectories rb1) as [|t ts] eqn:Et.
  { assert (l1 = []) as -> by (destruct l1; [done|]; pose proof (h_traj _ _ Hh1) as H; by rewrite Et in H).
    split_and!; try done. apply holds_with_last. by destruct (drop_incomplete_targets_on_restore rb1). }
  clear t ts Et. pose proof (keep_complete_spec n rb1 l1 Hh1) as Hk.
  destruct (decide (incomplete_targets n (target_weight_versions rb1) = [])) as [Hi|Hi].
  - rewrite bool_decide_eq_true_2 by done. split_and!; try done. apply holds_with_last. cbn [negb andb].
    rewrite (h_target _ _ Hh1) in Hi. rewrite complete_when_none by done.
    by destruct (drop_incomplete_targets_on_restore rb1).
  - rewrite bool_decide_eq_false_2 by done. cbn [negb andb].
    destruct (drop_incomplete_targets_on_restore rb1); by split_and!; [apply holds_with_last| |].
Qed.

(** ** Truncating *)

Lemma enumerate_from_snd {A} (l : list A) k : (enumerate_from k l).*2 = l.
Proof. revert k. induction l as [|x l IH]; intros k; cbn; [done|]. by rewrite IH. Qed.

Lemma length_select_indices {A} (l : list A) idxs :
  Forall (fun i => (i < length l)%nat) idxs -> length (select_indices l idxs) = length idxs.
Proof.
  intros Hr. apply length_omap_Some. eapply Forall_impl; [exact Hr|].
  intros i. apply lookup_lt_is_Some_2.
Qed.

Lemma elem_of_select_indices {A} (l : list A) idxs x :
  x ∈ select_indices l idxs <-> exists i, i ∈ idxs /\ l !! i = Some x.
Proof. apply list_elem_of_omap. Qed.

Lemma sorted_as_indices_where {A} (l : list A) idxs :
  StronglySorted lt idxs -> Forall (fun i => (i < length l)%nat) idxs ->
  idxs = indices_where (fun p => bool_decide (p.1 ∈ idxs)) (enumerate l).
Proof.
  intros Hs Hr. apply (StronglySorted_unique_strong lt); [|done|apply indices_where_sorted|].
  { intros x y _ _ ? ?. lia. }
  apply NoDup_Permutation; [by apply StronglySorted_lt_NoDup|apply indices_where_NoDup|].
  intros i. rewrite elem_of_indices_where. rewrite Forall_forall in Hr. split.
  - intros Hi. destruct (lookup_lt_is_Some_2 l i (Hr _ Hi)) as [x Hx]. exists (i, x).
    unfold enumerate. rewrite lookup_enumerate_from, Hx. split; [done|]. by apply bool_decide_eq_true.
  - intros ([j x] & Hl & Hj%bool_decide_eq_true). unfold enumerate in Hl.
    rewrite lookup_enumerate_from in Hl. destruct (l !! i); [|done]. cbn in Hl. by injection Hl as <- _.
Qed.

Lemma select_sublist {A} (l : list A) idxs :
  StronglySorted lt idxs -> Forall (fun i => (i < length l)%nat) idxs ->
  sublist (select_indices l idxs) l.
Proof.
  intros Hs Hr. rewrite (sorted_as_indices_where l idxs Hs Hr).
  assert (forall js, select_indices l js = (select_indices (enumerate l) js).*2) as He.
  { intros js. unfold enumerate. by rewrite <- select_indices_fmap, enumerate_from_snd. }
  rewrite He, select_indices_where.
  assert (sublist (List.filter (fun p => bool_decide (p.1 ∈ idxs)) (enumerate l)).*2 (enumerate l).*2)
    as H by (apply fmap_sublist, filter_sublist).
  unfold enumerate in H at 2. by rewrite enumerate_from_snd in H.
Qed.

Lemma py_sort_asc idxs : NoDup idxs -> StronglySorted lt (py_sort Nat.ltb idxs).
Proof.
  intros Hn. rewrite <- (py_sort_perm Nat.ltb) in Hn.
  assert (StronglySorted (fun a b => (b <? a)%nat = false) (py_sort Nat.ltb idxs)) as Hs.
  { apply py_sort_sorted; intros *; rewrite ?Nat.ltb_ge, ?Nat.ltb_lt; lia. }
  induction Hs as [|x l Hl IH Hx]; constructor.
  - apply IH. by apply NoDup_cons in Hn as [_ ?].
  - apply NoDup_cons in Hn as [Hni _]. rewrite Forall_forall in Hx |- *.
    intros y Hy. pose proof (Hx _ Hy) as Hle%Nat.ltb_ge.
    destruct (decide (x = y)) as [->|]; [done|lia].
Qed.

(** The indices kept, by priority (target, position). *)
Definition priority_indices (cap : nat) (targets : list Z) : list nat :=
  py_sort Nat.ltb (take cap (py_sort priority_ltb (zip targets (seq 0 (length targets)))).*2).

Lemma priority_order keyed p q a b :
  (p < q)%nat -> py_sort priority_ltb keyed !! p = Some a ->
  py_sort priority_ltb keyed !! q = Some b -> a.1 <= b.1.
Proof.
  intros Hpq Ha Hb.
  assert (priority_ltb b a = false) as Hf.
  { eapply (StronglySorted_lookup_lt (fun a b => priority_ltb b a = false)); [|exact Hpq|done..].
    apply py_sort_sorted.
    - intros x y z. unfold priority_ltb. rewrite !orb_false_iff, !andb_false_iff,
        !Z.ltb_ge, !Z.eqb_neq, !Nat.ltb_ge. lia.
    - intros x y. unfold priority_ltb. rewrite orb_true_iff, orb_false_iff, andb_true_iff,
        andb_false_iff, !Z.ltb_lt, !Z.ltb_ge, Z.eqb_eq, Z.eqb_neq, Nat.ltb_lt, Nat.ltb_ge. lia. }
  unfold priority_ltb in Hf. apply orb_false_iff in Hf as [Hf%Z.ltb_ge _]. lia.
Qed.

Lemma zip_seq_snd (ts : list Z) : (zip ts (seq 0 (length ts))).*2 = seq 0 (length ts).
Proof. apply snd_zip. by rewrite length_seq. Qed.

Lemma priority_indices_spec cap ts :
  let idxs := priority_indices cap ts in
  StronglySorted lt idxs /\ Forall (fun i => (i < length ts)%nat) idxs /\
  length idxs = Nat.min cap (length ts) /\
  (forall i j x y, ts !! i = Some x -> ts !! j = Some y -> i ∈ idxs -> j ∉ idxs -> x <= y).
Proof.
  cbv zeta. unfold priority_indices. set (keyed := zip ts (seq 0 (length ts))).
  pose proof (py_sort_perm priority_ltb keyed) as Hp.
  assert ((py_sort priority_ltb keyed).*2 ≡ₚ seq 0 (length ts)) as Hp2.
  { rewrite Hp. unfold keyed. by rewrite zip_seq_snd. }
  set (pre := take cap _). assert (sublist pre (py_sort priority_ltb keyed).*2) as Hsub by apply sublist_take.
  assert (NoDup pre) as Hnd by (eapply sublist_NoDup; [|exact Hsub]; rewrite Hp2; apply NoDup_seq).
  split_and!.
  - by apply py_sort_asc.
  - apply Forall_forall. intros i. rewrite (py_sort_perm Nat.ltb pre). intros Hi.
    apply (sublist_subseteq _ _ Hsub) in Hi. rewrite Hp2, elem_of_seq in Hi. lia.
  - rewrite py_sort_length. unfold pre. rewrite length_take, (Permutation_length Hp2), length_seq. done.
  - intros i j x y Hx Hy. rewrite !(py_sort_perm Nat.ltb pre). intros Hi Hj.
    assert (forall k z q, (py_sort priority_ltb keyed).*2 !! q = Some k -> ts !! k = Some z ->
      py_sort priority_ltb keyed !! q = Some (z, k)) as Hk.
    { intros k z q Hq Hz. rewrite list_lookup_fmap in Hq.
      destruct (py_sort priority_ltb keyed !! q) as [[z' k']|] eqn:E; [|done]. cbn in Hq.
      injection Hq as ->. assert ((z', k) ∈ keyed) as Hin by (rewrite <- Hp; by eapply list_elem_of_lookup_2).
      apply list_elem_of_lookup in Hin as (r & Hr). unfold keyed in Hr.
      apply lookup_zip_with_Some in Hr as (z1 & k1 & [= <- <-] & Hr1 & Hr2).
      apply lookup_seq in Hr2 as [-> _]. cbn in Hz. congruence. }
    apply elem_of_take in Hi as (p & Hip & Hpc).
    assert (j ∈ (py_sort priority_ltb keyed).*2) as Hjin.
    { rewrite Hp2, elem_of_seq. apply lookup_lt_Some in Hy. lia. }
    apply list_elem_of_lookup in Hjin as (q & Hjq).
    assert (cap <= q)%nat as Hcq.
    { destruct (decide (cap <= q)%nat); [done|]. exfalso. apply Hj, elem_of_take. exists q. split; [done|lia]. }
    exact (priority_order keyed p q (x, i) (y, j) ltac:(lia) (Hk _ _ _ Hip Hx) (Hk _ _ _ Hjq Hy)).
Qed.

Lemma truncate_spec step rb l :
  holds rb l -> 0 <= max_size rb ->
  let rb' := truncate_to_max_size (Some step) rb in
  last_target_weight_already_generated rb' = last_target_weight_already_generated rb /\
  exists l', holds rb' l' /\ sublist l' l /\
    Z.of_nat (length l') = Z.min (max_size rb) (Z.of_nat (length l)) /\
    (forall a b, a ∈ l' -> b ∈ l -> b ∉ l' -> e_target a <= e_target b).
Proof.
  intros Hh Hm. unfold truncate_to_max_size. cbv zeta. rewrite (holds_size _ _ Hh).
  destruct (Z.leb_spec (Z.of_nat (length l)) (max_size rb)) as [Hle|Hgt].
  { split; [done|]. exists l. split_and!; [done|done|lia|done]. }
  split; [done|]. rewrite (h_traj _ _ Hh), length_fmap.
  pose proof (priority_indices_spec (Z.to_nat (max_size rb)) (target_weight_versions rb)) as Hs.
  cbv zeta in Hs. unfold priority_indices in Hs.
  rewrite (h_target _ _ Hh), length_fmap in Hs. rewrite (h_target _ _ Hh).
  set (idxs := py_sort Nat.ltb _) in *. clearbody idxs. destruct Hs as (S1 & S2 & S3 & S4).
  exists (select_indices l idxs). split_and!.
  - by apply holds_keep.
  - by apply select_sublist.
  - rewrite length_select_indices by done. rewrite S3. lia.
  - intros a b (i & Hi & Ha)%elem_of_select_indices (j & Hb)%list_elem_of_lookup Hnb.
    apply (S4 i j); [by rewrite list_lookup_fmap, Ha|by rewrite list_lookup_fmap, Hb|done|].
    intros Hj. apply Hnb, elem_of_select_indices. eauto.
Qed.

Lemma sublist_full {A} (l1 l2 : list A) :
  sublist l1 l2 -> (length l2 <= length l1)%nat -> l1 = l2.
Proof.
  induction 1 as [|x l1 l2 Hs IH|x l1 l2 Hs IH]; cbn; intros Hl; [done| |].
  - f_equal. apply IH. lia.
  - apply sublist_length in Hs. lia.
Qed.

(** Keeping complete targets does not change how many rows they have. *)
Lemma complete_count n l e :
  complete n l e = true ->
  target_count (e_target e) (e_target <$> List.filter (complete n l) l) =
  target_count (e_target e) (e_target <$> l).
Proof.
  intros Hc. assert (forall x, e_target x = e_target e -> complete n l x = true) as Hx.
  { intros x Hx. unfold complete. by rewrite Hx. }
  unfold target_count. f_equal. generalize (complete n l) Hx. clear. intros P Hx.
  induction l as [|x l IH]; [done|].
  cbn [List.filter fmap list_fmap]. destruct (P x) eqn:E; cbn.
  - destruct (e_target x =? e_target e); cbn; [f_equal|]; exact IH.
  - destruct (Z.eqb_spec (e_target x) (e_target e)) as [He|]; [|exact IH].
    rewrite (Hx _ He) in E. done.
Qed.

(** ** Properties *)

(** Sampling for a training step either returns exactly the first [n]
    groups, in arrival order, that are meant for the step and inside the age
    window, or reports that fewer than [n] of them are there.  In both cases
    the groups that are too old are dropped; apart from the sampled ones every
    other group stays, in order; the step is recorded as consumed only when a
    batch is returned; and the average age reported lies within the window. *)
Theorem sample_consumes_intended_batch n step age rb l :
  holds rb l -> 0 < n ->
  match sample n step age rb with
  | (rb', Ok None) =>
      holds rb' (List.filter (fun e => negb (too_old step age e)) l) /\
      last_target_weight_already_generated rb' = last_target_weight_already_generated rb /\
      Z.of_nat (length (List.filter (intended step (Some age)) l)) < n
  | (rb', Ok (Some r)) => exists taken rest,
      length taken = Z.to_nat n /\
      List.filter (intended step (Some age)) l = taken ++ rest /\
      sampled_trajectories r = e_traj <$> taken /\
      0 <= sampled_age_sum r <= Z.max 0 age * sampled_count r /\ sampled_count r = n /\
      last_target_weight_already_generated rb' =
        Z.max (last_target_weight_already_generated rb) step /\
      exists l', holds rb' l' /\ List.filter (intended step (Some age)) l' = rest /\
        List.filter (fun e => negb (intended step (Some age) e)) l' =
        List.filter (fun e => negb (intended step (Some age) e))
          (List.filter (fun e => negb (too_old step age e)) l)
  | (_, Raise _) => False
  end.
Proof.
  intros Hh Hn. pose proof (sample_spec n step age rb l Hh Hn) as Hs.
  rewrite !batch_intended in Hs. fold (live step age l).
  destruct (sample n step age rb) as [rb' [[r|]|e]]; [|exact Hs|exact Hs].
  cbv zeta in Hs. destruct Hs as (Hge & Hh' & Hlast & ->).
  set (b := List.filter (intended step (Some age)) l) in *.
  assert (length (take (Z.to_nat n) b) = Z.to_nat n) as Hlen by (rewrite length_take; lia).
  exists (take (Z.to_nat n) b), (drop (Z.to_nat n) b). cbn [sampled_trajectories sampled_age_sum sampled_count].
  split; [done|]. split; [by rewrite take_drop|]. split; [done|]. split; [|split; [lia|split; [done|]]].
  - assert (Forall (fun e => step - Z.max 0 age <= e_version e <= step) (take (Z.to_nat n) b)) as Hv.
    { apply Forall_take, Forall_forall. intros e [_ He]%list_filter_elem_of.
      unfold intended, usable, is_valid_for_target, min_valid_version in He. bool_to_prop. lia. }
    clear -Hv. induction Hv as [|e es He _ IH]; [cbn; lia|]. cbn [fmap list_fmap zsum length].
    change (list_fmap Entry Z e_version es) with (e_version <$> es). lia.
  - destruct (drop_first_split (intended step (Some age)) (live step age l) (Z.to_nat n)) as [D1 D2].
    eexists. split; [exact Hh'|]. split; [|exact D2]. rewrite D1. f_equal. apply batch_intended.
Qed.

(** Gap filling agrees with sampling.  A target has a complete batch
    exactly when sampling it would return one; a consumed target needs
    nothing more; for any other target no group is needed exactly when the
    batch is complete, and adding as many usable groups as
    [get_trajectories_needed] reports completes it. *)
Theorem gap_fill_completes_batch n step age rb l :
  holds rb l -> 0 < n ->
  (has_complete_batch step n (Some age) rb = true <->
     exists r, (sample n step age rb).2 = Ok (Some r)) /\
  (step <= last_target_weight_already_generated rb ->
     get_trajectories_needed step n (Some age) rb = 0) /\
  (last_target_weight_already_generated rb < step ->
     (get_trajectories_needed step n (Some age) rb = 0 <->
        has_complete_batch step n (Some age) rb = true) /\
     forall ts, Z.of_nat (length ts) = get_trajectories_needed step n (Some age) rb ->
       Forall (fun t => is_valid_for_target t.2 step (Some age) = true) ts ->
       size rb + Z.of_nat (length ts) <= max_size rb ->
       has_complete_batch step n (Some age) (add_all ts step rb) = true /\
       get_trajectories_needed step n (Some age) (add_all ts step rb) = 0).
Proof.
  intros Hh Hn. pose proof (sample_spec n step age rb l Hh Hn) as Hs. rewrite !batch_intended in Hs.
  unfold has_complete_batch, get_trajectories_needed. rewrite (count_for_target_spec _ _ _ _ Hh).
  split_and!.
  - rewrite Z.leb_le. destruct (sample n step age rb) as [rb' [[r|]|e]]; cbn in *.
    + split; [by eauto|]. by destruct Hs as (? & _).
    + destruct Hs as (_ & _ & Hs). split; [lia|]. by intros (? & ?).
    + done.
  - intros Hle. by rewrite (proj2 (Z.leb_le _ _) Hle).
  - intros Hlt. rewrite (proj2 (Z.leb_gt _ _) Hlt). split; [rewrite Z.leb_le; lia|].
    intros ts Hts Hv Hroom. destruct (add_all_spec step ts rb l Hh Hroom) as [Hh' Hlast].
    rewrite (count_for_target_spec _ _ _ _ Hh'), Hlast, (proj2 (Z.leb_gt _ _) Hlt).
    rewrite List.filter_app, length_app.
    rewrite (filter_all (intended step (Some age)) ((fun t => mkEntry t.1 t.2 step) <$> ts)).
    + rewrite length_fmap, Z.leb_le. lia.
    + intros e (t & -> & Ht)%list_elem_of_fmap. rewrite Forall_forall in Hv.
      unfold intended. cbn [e_target]. rewrite Z.eqb_refl. exact (Hv _ Ht).
Qed.

(** Resuming at a training step keeps only what the step can use.  The
    restored rows come from the saved ones, in order: those inside the age
    window of their own target, for the current or a later step and, when
    incomplete targets are dropped, of a complete batch; no more than the
    capacity, nearest targets first; and generation restarts at the current
    step.  Without truncation every kept target then has a complete batch. *)
Theorem restore_keeps_only_usable n step age rb0 rb l :
  holds rb0 l -> 0 < max_size rb ->
  let kept := prepared (drop_incomplete_targets_on_restore rb) step n
                (List.filter (fresh age) (restored <$> l)) in
  exists rb' l', load_state_dict (state_dict rb0) (Some n) (Some step) (Some age) rb = Ok rb' /\
    holds rb' l' /\ sublist l' kept /\
    Z.of_nat (length l') = Z.min (max_size rb) (Z.of_nat (length kept)) /\
    (forall a b, a ∈ l' -> b ∈ kept -> b ∉ l' -> e_target a <= e_target b) /\
    Forall (fun e => step <= e_target e /\
      min_valid_version (e_target e) age <= e_version e <= e_target e) l' /\
    last_target_weight_already_generated rb' = step - 1 /\
    (drop_incomplete_targets_on_restore rb = true -> Z.of_nat (length kept) <= max_size rb ->
       Forall (fun e => n <= target_count (e_target e) (e_target <$> l')) l').
Proof.
  intros Hh Hm kept. unfold load_state_dict, state_dict.
  cbn [saved_trajectories saved_versions saved_targets saved_last].
  rewrite (h_traj _ _ Hh), (h_version _ _ Hh), (h_target _ _ Hh), !length_fmap, Nat.eqb_refl.
  cbn [andb negb raise_if mbind res_bind].
  set (rb1 := with_last _ _). assert (holds rb1 (restored <$> l)) as Hh1.
  { unfold rb1. constructor; cbn; rewrite <- ?list_fmap_compose; done. }
  set (rb2 := match trajectories rb1 with [] => rb1 | _ => _ end).
  assert (holds rb2 (List.filter (fresh age) (restored <$> l)) /\ max_size rb2 = max_size rb /\
    drop_incomplete_targets_on_restore rb2 = drop_incomplete_targets_on_restore rb) as (Hh2 & Hm2 & Hd2).
  { destruct (remove_stale_spec age rb1 _ Hh1) as (Hs & _ & Hsm & Hsd). unfold rb2.
    destruct (trajectories rb1) eqn:Et; [|split_and!; done].
    destruct l; [|by pose proof (h_traj _ _ Hh1) as Hx; rewrite Et in Hx]. done. }
  clearbody rb2. destruct (prepare_spec step n rb2 _ Hh2) as (Hh3 & Hl3 & Hm3). cbv zeta in *.
  rewrite Hd2 in Hh3. fold kept in Hh3.
  destruct (truncate_spec step _ _ Hh3 ltac:(lia)) as (Hl4 & l' & Hh4 & Hsub & Hlen & Hprio).
  rewrite Hm3, Hm2 in Hlen. do 2 eexists. split; [done|].
  split; [exact Hh4|]. split; [done|]. split; [done|]. split; [done|]. split; [|split; [by rewrite Hl4|]].
  - apply Forall_forall. intros e He%(sublist_subseteq _ _ Hsub). unfold kept, prepared in He.
    assert (e ∈ List.filter (upcoming step) (List.filter (fresh age) (restored <$> l))) as Hin.
    { destruct (drop_incomplete_targets_on_restore rb); [|done]. by apply list_filter_elem_of in He as [? _]. }
    apply list_filter_elem_of in Hin as [Hin Hup]. apply list_filter_elem_of in Hin as [_ Hfr].
    unfold upcoming in Hup. unfold fresh, usable, is_valid_for_target in Hfr. bool_to_prop. done.
  - intros Hdrop Hcap. assert (l' = kept) as ->.
    { apply sublist_full; [done|]. lia. }
    unfold kept, prepared. rewrite Hdrop. set (l1 := List.filter (upcoming step) _).
    apply Forall_forall. intros e [_ Hc]%list_filter_elem_of. rewrite complete_count by done.
    unfold complete in Hc. by apply negb_true_iff, Z.ltb_ge in Hc.
Qed.

(** ** Witnesses *)
Definition traj (i : Z) : Trajectory := mkTrajectory (Some i) None None i.

(** Two rows for step 5, two for step 6 of which one is of version 3. *)
Definition sample_rows : list Entry :=
  [mkEntry (traj 0) 4 5; mkEntry (traj 1) 3 6; mkEntry (traj 2) 5 5; mkEntry (traj 3) 5 6].

Definition buffer_of (cap : Z) (drop : bool) (l : list Entry) : RB :=
  mkRB cap drop (e_traj <$> l) (e_version <$> l) (e_target <$> l) 4.

Lemma buffer_of_holds cap drop l : holds (buffer_of cap drop l) l.
Proof. constructor; reflexivity. Qed.

Lemma sample_consumes_intended_batch_witness :
  exists rb' r, sample 2 5 1 (buffer_of 8 true sample_rows) = (rb', Ok (Some r)) /\
    sampled_count r = 2 /\ sampled_trajectories r = [traj 0; traj 2].
Proof.
  pose proof (sample_consumes_intended_batch 2 5 1 (buffer_of 8 true sample_rows) sample_rows
    (buffer_of_holds 8 true sample_rows) ltac:(lia)) as H.
  destruct (sample 2 5 1 (buffer_of 8 true sample_rows)) as [rb' [[r|]|e]] eqn:E;
    [|exfalso; vm_compute in E; discriminate E..].
  exists rb', r. split; [reflexivity|].
  destruct H as (taken & rest & _ & _ & _ & _ & Hc & _). split; [exact Hc|].
  vm_compute in E. injection E as _ <-. reflexivity.
Defined.

Lemma gap_fill_completes_batch_witness :
  get_trajectories_needed 6 3 (Some 1) (buffer_of 8 true sample_rows) = 2 /\
  has_complete_batch 6 3 (Some 1)
    (add_all [(traj 7, 6); (traj 8, 5)] 6 (buffer_of 8 true sample_rows)) = true.
Proof.
  split; [reflexivity|].
  destruct (gap_fill_completes_batch 3 6 1 (buffer_of 8 true sample_rows) sample_rows
    (buffer_of_holds 8 true sample_rows) ltac:(lia)) as (_ & _ & H).
  apply H; [reflexivity|reflexivity| |vm_compute; discriminate].
  repeat constructor.
Defined.

Lemma restore_keeps_only_usable_witness :
  exists rb' l', load_state_dict (state_dict (buffer_of 8 true sample_rows)) (Some 2) (Some 5) (Some 1)
      (buffer_of 8 true []) = Ok rb' /\ holds rb' l' /\
    last_target_weight_already_generated rb' = 4.
Proof.
  destruct (restore_keeps_only_usable 2 5 1 (buffer_of 8 true sample_rows) (buffer_of 8 true [])
    sample_rows (buffer_of_holds 8 true sample_rows) ltac:(cbn; lia))
    as (rb' & l' & H1 & H2 & _ & _ & _ & _ & H3 & _).
  exists rb', l'. exact (conj H1 (conj H2 H3)).
Defined.

(** Truncation can leave a partial target although incomplete targets are
    dropped: with two groups per step and a capacity of three, the second of
    two complete targets is cut in half. *)
Definition four_rows : list Entry :=
  [mkEntry (traj 0) 5 5; mkEntry (traj 1) 5 5; mkEntry (traj 2) 5 6; mkEntry (traj 3) 5 6].

Example truncation_leaves_partial_target :
  target_weight_versions <$> load_state_dict (state_dict (buffer_of 8 true four_rows)) (Some 2)
    (Some 5) (Some 1) (buffer_of 3 true []) = Ok [5; 5; 6].
Proof. vm_compute. reflexivity. Qed.
