(* ===== verification/Barrier.v ===== *)
(** * The checkpoint barrier of the data plane

    Models [DataPlaneCheckpointBarrier] and [DataPlaneMutationCut] of
    [src/nemo_rl/algorithms/async_utils/replay_buffer.py]: mutations run
    concurrently, a checkpoint runs alone.

    A task is where its program counter says.  The condition's lock is never
    held across a suspension, so acquiring it does not suspend and the code
    between two waits is one step; a task suspends only in [wait_for] and in
    the body of a section.  A task that waits is resumed after [notify_all]
    woke it, tests its predicate again, and goes back to sleep if it fails.
    Cancellation can hit any wait.  A cut is live exactly while its task is in
    the body of its section. *)

From S2P Require Import Prelude.

Abbreviation task := nat (only parsing).

Definition CHECKPOINT_MUTATION_KINDS : list string :=
  ["advantage_writeback"; "group_commits"; "group_removals"; "gym_dispatch"; "other";
   "prompt_reservations"; "recovery_restore"; "recovery_retries"; "sample_clears";
   "sibling_seals"].

(** Where a task is: waiting in [mutation] (with its kind, the time it
    started to wait, and whether it has been woken), in a mutation's body,
    waiting in [checkpoint] for another checkpoint or for the mutations, in a
    checkpoint's body. *)
Inductive pc :=
| MutWait (kind : string) (started : Z) (woken : bool)
| MutIn
| CkptWait (woken : bool)
| CkptDrain (woken : bool)
| CkptIn.

#[export] Instance pc_eq_dec : EqDecision pc.
Proof. solve_decision. Defined.

Record Barrier := mkBarrier {
  checkpoint_active : bool;
  active_mutations : Z;
  section_holders : gset task;
  mutation_version : Z;
  waiting_mutations : Z;
  max_waiting_mutations : Z;
  blocked_by_kind : gmap string Z;
  wait_durations : list Z;
  pcs : gmap task pc }.

Definition init : Barrier := mkBarrier false 0 ∅ 0 0 0 ∅ [] ∅.

Definition with_pcs (m : gmap task pc) (b : Barrier) : Barrier :=
  mkBarrier (checkpoint_active b) (active_mutations b) (section_holders b) (mutation_version b)
    (waiting_mutations b) (max_waiting_mutations b) (blocked_by_kind b) (wait_durations b) m.

Definition with_active (active : bool) (b : Barrier) : Barrier :=
  mkBarrier active (active_mutations b) (section_holders b) (mutation_version b)
    (waiting_mutations b) (max_waiting_mutations b) (blocked_by_kind b) (wait_durations b) (pcs b).

Definition with_holders (h : gset task) (b : Barrier) : Barrier :=
  mkBarrier (checkpoint_active b) (active_mutations b) h (mutation_version b)
    (waiting_mutations b) (max_waiting_mutations b) (blocked_by_kind b) (wait_durations b) (pcs b).

(** [notify_all]. *)
Definition wake (p : pc) : pc :=
  match p with
  | MutWait k s _ => MutWait k s true
  | CkptWait _ => CkptWait true
  | CkptDrain _ => CkptDrain true
  | MutIn | CkptIn => p
  end.

Definition notify_all (b : Barrier) : Barrier := with_pcs (wake <$> pcs b) b.

Definition set_pc (t : task) (p : pc) (b : Barrier) : Barrier := with_pcs (<[t := p]> (pcs b)) b.

Definition leave (t : task) (b : Barrier) : Barrier := with_pcs (delete t (pcs b)) b.

(** [_current_task]: reject reentrancy. *)
Definition current_task (t : task) (b : Barrier) : res unit :=
  raise_if (bool_decide (t ∈ section_holders b)) RuntimeError.

(** [require_live] of the cut a task was given. *)
Definition require_live (t : task) (b : Barrier) : res unit :=
  raise_if (negb (bool_decide (pcs b !! t = Some MutIn) || bool_decide (pcs b !! t = Some CkptIn)))
    RuntimeError.

(** ** [mutation] *)

(** Past the wait: the section is counted and held. *)
Definition start_mutation (t : task) (b : Barrier) : Barrier :=
  mkBarrier (checkpoint_active b) (active_mutations b + 1) ({[t]} ∪ section_holders b)
    (mutation_version b) (waiting_mutations b) (max_waiting_mutations b) (blocked_by_kind b)
    (wait_durations b) (<[t := MutIn]> (pcs b)).

Definition mutation_enter (t : task) (kind : string) (now : Z) (b : Barrier) : res Barrier :=
  _ ← raise_if (negb (bool_decide (kind ∈ CHECKPOINT_MUTATION_KINDS))) ValueError;
  _ ← current_task t b;
  if checkpoint_active b then
    let waiting := waiting_mutations b + 1 in
    Ok (mkBarrier (checkpoint_active b) (active_mutations b) (section_holders b)
          (mutation_version b) waiting (Z.max (max_waiting_mutations b) waiting)
          (blocked_by_kind b) (wait_durations b) (<[t := MutWait kind now false]> (pcs b)))
  else Ok (start_mutation t b).

(** [deque(maxlen=10_000)].append. *)
Definition bounded_append (x : Z) (l : list Z) : list Z :=
  let l' := l ++ [x] in drop (length l' - Z.to_nat 10000) l'.

(** The [finally] of the wait. *)
Definition end_wait (kind : string) (started now : Z) (b : Barrier) : Barrier :=
  mkBarrier (checkpoint_active b) (active_mutations b) (section_holders b) (mutation_version b)
    (waiting_mutations b - 1) (max_waiting_mutations b)
    (<[kind := default 0 (blocked_by_kind b !! kind) + 1]> (blocked_by_kind b))
    (bounded_append (now - started) (wait_durations b)) (pcs b).

(** A woken waiter of [mutation]. *)
Definition mutation_resume (t : task) (kind : string) (started now : Z) (b : Barrier) : Barrier :=
  if checkpoint_active b then set_pc t (MutWait kind started false) b
  else start_mutation t (end_wait kind started now b).

Definition mutation_cancel_wait (t : task) (kind : string) (started now : Z) (b : Barrier)
    : Barrier :=
  leave t (end_wait kind started now b).

(** The body ended or raised. *)
Definition mutation_exit (t : task) (b : Barrier) : Barrier :=
  let active := active_mutations b - 1 in
  let b' := mkBarrier (checkpoint_active b) active (section_holders b ∖ {[t]})
    (mutation_version b + 1) (waiting_mutations b) (max_waiting_mutations b) (blocked_by_kind b)
    (wait_durations b) (delete t (pcs b)) in
  if active =? 0 then notify_all b' else b'.

(** ** [checkpoint] *)

(** Past the second wait. *)
Definition start_checkpoint (t : task) (b : Barrier) : Barrier :=
  set_pc t CkptIn (with_holders ({[t]} ∪ section_holders b) b).

(** Past the first wait: claim the barrier, then drain the mutations. *)
Definition claim_checkpoint (t : task) (b : Barrier) : Barrier :=
  let b' := with_active true b in
  if active_mutations b' =? 0 then start_checkpoint t b' else set_pc t (CkptDrain false) b'.

Definition checkpoint_enter (t : task) (b : Barrier) : res Barrier :=
  _ ← current_task t b;
  Ok (if checkpoint_active b then set_pc t (CkptWait false) b else claim_checkpoint t b).

Definition checkpoint_resume (t : task) (b : Barrier) : Barrier :=
  if checkpoint_active b then set_pc t (CkptWait false) b else claim_checkpoint t b.

Definition drain_resume (t : task) (b : Barrier) : Barrier :=
  if active_mutations b =? 0 then start_checkpoint t b else set_pc t (CkptDrain false) b.

(** The [except BaseException] branch. *)
Definition drain_cancel (t : task) (b : Barrier) : Barrier :=
  notify_all (leave t (with_active false b)).

Definition checkpoint_exit (t : task) (b : Barrier) : Barrier :=
  notify_all (leave t (with_active false (with_holders (section_holders b ∖ {[t]}) b))).

(** ** [drain_telemetry] *)
Record Telemetry := mkTelemetry {
  t_blocked_by_kind : list (string * Z);
  t_wait_durations : list Z;
  t_active_mutations : Z;
  t_waiting_mutations : Z;
  t_max_waiting_mutations : Z;
  t_checkpoint_active : bool }.

Definition drain_telemetry (b : Barrier) : Barrier * Telemetry :=
  (mkBarrier (checkpoint_active b) (active_mutations b) (section_holders b) (mutation_version b)
     (waiting_mutations b) (waiting_mutations b) ∅ [] (pcs b),
   mkTelemetry ((fun k => (k, default 0 (blocked_by_kind b !! k))) <$> CHECKPOINT_MUTATION_KINDS)
     (wait_durations b) (active_mutations b) (waiting_mutations b) (max_waiting_mutations b)
     (checkpoint_active b)).

(** ** Interleavings

    A task opens a section when it is idle or, wrongly, from the body of a
    section it already holds. *)
Definition may_open (t : task) (b : Barrier) : Prop :=
  pcs b !! t = None \/ pcs b !! t = Some MutIn \/ pcs b !! t = Some CkptIn.

Inductive step : Barrier -> Barrier -> Prop :=
| step_mutation_enter t kind now b b' :
    may_open t b -> mutation_enter t kind now b = Ok b' -> step b b'
| step_mutation_resume t kind started now b :
    pcs b !! t = Some (MutWait kind started true) -> step b (mutation_resume t kind started now b)
| step_mutation_cancel t kind started woken now b :
    pcs b !! t = Some (MutWait kind started woken) ->
    step b (mutation_cancel_wait t kind started now b)
| step_mutation_exit t b : pcs b !! t = Some MutIn -> step b (mutation_exit t b)
| step_checkpoint_enter t b b' : may_open t b -> checkpoint_enter t b = Ok b' -> step b b'
| step_checkpoint_resume t b :
    pcs b !! t = Some (CkptWait true) -> step b (checkpoint_resume t b)
| step_checkpoint_cancel t woken b :
    pcs b !! t = Some (CkptWait woken) -> step b (leave t b)
| step_drain_resume t b : pcs b !! t = Some (CkptDrain true) -> step b (drain_resume t b)
| step_drain_cancel t woken b :
    pcs b !! t = Some (CkptDrain woken) -> step b (drain_cancel t b)
| step_checkpoint_exit t b : pcs b !! t = Some CkptIn -> step b (checkpoint_exit t b)
| step_telemetry b : step b (drain_telemetry b).1.

Inductive reachable : Barrier -> Prop :=
| reachable_init : reachable init
| reachable_step b b' : reachable b -> step b b' -> reachable b'.

(** ** The invariant *)
Definition is_mut_in (p : pc) : bool := match p with MutIn => true | _ => false end.
Definition is_mut_wait (p : pc) : bool := match p with MutWait _ _ _ => true | _ => false end.
Definition has_claim (p : pc) : bool := match p with CkptDrain _ | CkptIn => true | _ => false end.
Definition in_body (p : pc) : bool := match p with MutIn | CkptIn => true | _ => false end.

(** The counters and the holder set describe where the tasks are. *)
Record counts (b : Barrier) : Prop := {
  c_active : active_mutations b = count is_mut_in (pcs b);
  c_waiting : waiting_mutations b = count is_mut_wait (pcs b);
  c_max : waiting_mutations b <= max_waiting_mutations b;
  c_claim : count has_claim (pcs b) = Z.b2z (checkpoint_active b);
  c_excl t : pcs b !! t = Some CkptIn -> active_mutations b = 0;
  c_holders t : t ∈ section_holders b <-> exists p, pcs b !! t = Some p /\ in_body p = true }.

(** No lost wake-up: a waiter whose predicate holds has been woken. *)
Definition ready_unwoken (b : Barrier) (p : pc) : bool :=
  match p with
  | MutWait _ _ false | CkptWait false => negb (checkpoint_active b)
  | CkptDrain false => active_mutations b =? 0
  | _ => false
  end.

Definition wakes (b : Barrier) : Prop := forall t p, pcs b !! t = Some p -> ready_unwoken b p = false.

Lemma count_wake P (m : gmap task pc) :
  (forall p, P (wake p) = P p) -> count P (wake <$> m) = count P m.
Proof. apply count_fmap. Qed.

Lemma counts_notify b : counts b -> counts (notify_all b).
Proof.
  intros []. constructor; cbn; rewrite ?count_wake; try done; try (by intros []).
  - intros t. rewrite lookup_fmap. destruct (pcs b !! t) as [[]|] eqn:E; cbn; try done.
    intros _. by eapply c_excl0.
  - intros t. rewrite c_holders0, lookup_fmap. split.
    + intros (p & -> & Hp). exists (wake p). split; [done|]. by destruct p.
    + intros (p & Hp & Hb). destruct (pcs b !! t) as [q|]; [|done]. exists q. split; [done|].
      injection Hp as <-. by destruct q.
Qed.

Lemma wakes_notify b : wakes (notify_all b).
Proof.
  intros t p. cbn. rewrite lookup_fmap. destruct (pcs b !! t) as [q|]; [|done].
  intros [= <-]. by destruct q.
Qed.

(** Case analysis on a lookup in an updated map. *)
Ltac at_task t0 :=
  rewrite ?lookup_insert, ?lookup_delete;
  match goal with |- context [decide (?t = t0)] => destruct (decide (t = t0)) as [->|] end.

Lemma not_holder_idle t b : counts b -> may_open t b -> t ∉ section_holders b -> pcs b !! t = None.
Proof.
  intros Hc Ho Hn. rewrite (c_holders _ Hc) in Hn.
  destruct Ho as [Ho|[Ho|Ho]]; [done|exfalso; apply Hn; eauto..].
Qed.

Lemma no_claim b t p :
  counts b -> checkpoint_active b = false -> pcs b !! t = Some p -> has_claim p = false.
Proof.
  intros Hc Ha Hp. destruct (has_claim p) eqn:E; [|done].
  pose proof (count_lookup has_claim _ _ _ Hp E) as H. rewrite (c_claim _ Hc), Ha in H. cbn in H. lia.
Qed.

Lemma counts_start_mutation t b :
  counts b -> checkpoint_active b = false -> pcs b !! t = None -> counts (start_mutation t b).
Proof.
  intros Hc Ha Hn. pose proof Hc as []. constructor; cbn; rewrite ?count_insert_new by done; cbn; try lia.
  - intros t0. at_task t0; [done|]. intros H. by pose proof (no_claim _ _ _ Hc Ha H).
  - intros t0. at_task t0; [split; [eauto|set_solver]|]. rewrite <- c_holders0. set_solver.
Qed.

Lemma wakes_start_mutation t b : wakes b -> checkpoint_active b = false -> counts b ->
  wakes (start_mutation t b).
Proof.
  intros Hw Ha Hc t0 p. cbn. at_task t0; [by intros [= <-]|]. intros Hp.
  pose proof (Hw _ _ Hp) as H. pose proof (no_claim _ _ _ Hc Ha Hp). by destruct p as [? ? []| |[]|[]|].
Qed.

Lemma counts_end_wait t kind started woken now b :
  counts b -> pcs b !! t = Some (MutWait kind started woken) ->
  counts (mutation_cancel_wait t kind started now b).
Proof.
  intros Hc Hs. pose proof Hc as []. constructor; cbn; rewrite ?(count_delete _ _ _ _ Hs); cbn; try lia.
  - intros t0. at_task t0; [done|]. apply c_excl0.
  - intros t0. rewrite c_holders0. at_task t0; [|done]. rewrite Hs. split; [by intros (? & [= <-] & ?)|].
    by intros (? & ? & _).
Qed.

Lemma wakes_leave t b : wakes b -> wakes (leave t b).
Proof. intros Hw t0 p. cbn. at_task t0; [done|]. apply Hw. Qed.

Lemma counts_leave t woken b :
  counts b -> pcs b !! t = Some (CkptWait woken) -> counts (leave t b).
Proof.
  intros Hc Hs. pose proof Hc as []. constructor; cbn; rewrite ?(count_delete _ _ _ _ Hs); cbn; try lia.
  - intros t0. at_task t0; [done|]. apply c_excl0.
  - intros t0. rewrite c_holders0. at_task t0; [|done]. rewrite Hs. split; [by intros (? & [= <-] & ?)|].
    by intros (? & ? & _).
Qed.

Lemma counts_claim t b :
  counts b -> checkpoint_active b = false -> pcs b !! t = None -> counts (claim_checkpoint t b).
Proof.
  intros Hc Ha Hn. pose proof Hc as []. unfold claim_checkpoint, start_checkpoint. cbn.
  rewrite Ha in c_claim0. cbn in c_claim0.
  destruct (Z.eqb_spec (active_mutations b) 0) as [E|E]; constructor; cbn;
    rewrite ?count_insert_new by done; cbn; try lia.
  - intros t0. at_task t0; [split; [eauto|set_solver]|]. rewrite <- c_holders0. set_solver.
  - intros t0. at_task t0; [done|]. intros H. by pose proof (no_claim _ _ _ Hc Ha H).
  - intros t0. rewrite c_holders0. at_task t0; [|done]. rewrite Hn. split; [by intros (? & ? & _)|].
    by intros (? & [= <-] & ?).
Qed.

Lemma wakes_claim t b : wakes b -> checkpoint_active b = false -> counts b ->
  wakes (claim_checkpoint t b).
Proof.
  intros Hw Ha Hc t0 p. unfold claim_checkpoint, start_checkpoint. cbn.
  destruct (Z.eqb_spec (active_mutations b) 0) as [E|E]; cbn.
  - at_task t0; [by intros [= <-]|]. intros Hp. pose proof (no_claim _ _ _ Hc Ha Hp).
    by destruct p as [? ? []| |[]|[]|].
  - at_task t0; [intros [= <-]; cbn; lia|]. intros Hp. pose proof (no_claim _ _ _ Hc Ha Hp).
    by destruct p as [? ? []| |[]|[]|].
Qed.

(** Going back to sleep changes no count. *)
Lemma counts_sleep t p q b :
  counts b -> pcs b !! t = Some p -> is_mut_in p = false -> is_mut_in q = false ->
  is_mut_wait q = is_mut_wait p -> has_claim q = has_claim p -> in_body p = false ->
  in_body q = false -> counts (set_pc t q b).
Proof.
  intros Hc Hs H1 H2 H3 H4 H5 H6. pose proof Hc as [].
  constructor; cbn; rewrite ?count_insert, ?Hs, ?H1, ?H2, ?H3, ?H4; cbn; try lia.
  - intros t0. at_task t0; [intros [= ->]; done|]. apply c_excl0.
  - intros t0. rewrite c_holders0. at_task t0; [|done]. rewrite Hs.
    split; intros (? & [= <-] & ?); congruence.
Qed.

Lemma wakes_sleep t q b : wakes b -> ready_unwoken b q = false -> wakes (set_pc t q b).
Proof. intros Hw Hq t0 p. cbn. at_task t0; [by intros [= <-]|]. apply Hw. Qed.

Lemma counts_start_checkpoint t woken b :
  counts b -> pcs b !! t = Some (CkptDrain woken) -> active_mutations b = 0 ->
  counts (start_checkpoint t b).
Proof.
  intros Hc Hs Ha. pose proof Hc as []. constructor; cbn; rewrite ?count_insert, ?Hs; cbn; try lia.
  intros t0. at_task t0; [split; [eauto|set_solver]|]. rewrite <- c_holders0. set_solver.
Qed.

(** A task out of its section; the barrier is released before the wake-up. *)
Lemma counts_mutation_exit t b :
  counts b -> pcs b !! t = Some MutIn ->
  counts (mkBarrier (checkpoint_active b) (active_mutations b - 1) (section_holders b ∖ {[t]})
    (mutation_version b + 1) (waiting_mutations b) (max_waiting_mutations b) (blocked_by_kind b)
    (wait_durations b) (delete t (pcs b))).
Proof.
  intros Hc Hs. pose proof Hc as []. constructor; cbn; rewrite ?(count_delete _ _ _ _ Hs); cbn; try lia.
  - intros t0. at_task t0; [done|]. intros H. pose proof (c_excl0 _ H).
    pose proof (count_lookup is_mut_in _ _ _ Hs eq_refl). lia.
  - intros t0. at_task t0; [split; [set_solver|by intros (? & ? & _)]|].
    rewrite <- c_holders0. set_solver.
Qed.

Lemma counts_release t p b :
  counts b -> pcs b !! t = Some p -> has_claim p = true ->
  counts (leave t (with_active false (with_holders (section_holders b ∖ {[t]}) b))).
Proof.
  intros Hc Hs Hp. pose proof Hc as [].
  assert (is_mut_in p = false /\ is_mut_wait p = false) as [H1 H2] by (by destruct p).
  constructor; cbn; rewrite ?(count_delete _ _ _ _ Hs), ?H1, ?H2, ?Hp; cbn; try lia.
  - pose proof (count_lookup has_claim _ _ _ Hs Hp). rewrite c_claim0 in *.
    destruct (checkpoint_active b); cbn in *; lia.
  - intros t0. at_task t0; [done|]. apply c_excl0.
  - intros t0. at_task t0; [split; [set_solver|by intros (? & ? & _)]|].
    rewrite <- c_holders0. set_solver.
Qed.

Lemma holders_out t woken b :
  counts b -> pcs b !! t = Some (CkptDrain woken) -> section_holders b ∖ {[t]} = section_holders b.
Proof.
  intros Hc Hs. assert (t ∉ section_holders b); [|set_solver].
  rewrite (c_holders _ Hc), Hs. by intros (? & [= <-] & ?).
Qed.

(** A new waiter of either kind. *)
Lemma counts_new_wait t p b max :
  counts b -> pcs b !! t = None -> is_mut_in p = false -> has_claim p = false -> in_body p = false ->
  waiting_mutations b + Z.b2z (is_mut_wait p) <= max ->
  counts (mkBarrier (checkpoint_active b) (active_mutations b) (section_holders b)
    (mutation_version b) (waiting_mutations b + Z.b2z (is_mut_wait p)) max (blocked_by_kind b)
    (wait_durations b) (<[t := p]> (pcs b))).
Proof.
  intros Hc Hn H1 H2 H3 Hm. pose proof Hc as [].
  constructor; cbn; rewrite ?count_insert_new, ?H1, ?H2 by done; cbn; try lia.
  - intros t0. at_task t0; [intros [= ->]; done|]. apply c_excl0.
  - intros t0. rewrite c_holders0. at_task t0; [|done]. rewrite Hn.
    split; [by intros (? & ? & _)|]. intros (? & [= <-] & ?). congruence.
Qed.

Lemma step_inv b b' : counts b /\ wakes b -> step b b' -> counts b' /\ wakes b'.
Proof.
  intros [Hc Hw] Hs. destruct Hs as
    [t kind now b b' Ho H|t kind started now b Hp|t kind started woken now b Hp|t b Hp
    |t b b' Ho H|t b Hp|t woken b Hp|t b Hp|t woken b Hp|t b Hp|b].
  - unfold mutation_enter in H. apply bind_Ok in H as (? & _ & H).
    apply bind_Ok in H as (? & Hh%raise_if_Ok%bool_decide_eq_false & H).
    pose proof (not_holder_idle _ _ Hc Ho Hh) as Hn.
    destruct (checkpoint_active b) eqn:Ea; injection H as <-.
    + split.
      * rewrite <- Ea. apply (counts_new_wait t (MutWait kind now false)); try done. cbn. lia.
      * intros t0 p. cbn. at_task t0; [by intros [= <-]|]. intros Hp. pose proof (Hw _ _ Hp) as H0.
        destruct p as [? ? []| |[]|[]|]; cbn in *; congruence.
    + split; [by apply counts_start_mutation|by apply wakes_start_mutation].
  - unfold mutation_resume. destruct (checkpoint_active b) eqn:Ea.
    + split; [by eapply counts_sleep|]. apply wakes_sleep; [done|]. cbn. by rewrite Ea.
    + pose proof (counts_end_wait _ _ _ _ now _ Hc Hp) as Hc'.
      assert (wakes (mutation_cancel_wait t kind started now b)) as Hw' by (by apply (wakes_leave t)).
      assert (start_mutation t (end_wait kind started now b) =
        start_mutation t (mutation_cancel_wait t kind started now b)) as ->.
      { unfold start_mutation. cbn. by rewrite insert_delete_eq. }
      split; [apply counts_start_mutation; [done|done|apply lookup_delete_eq]|by apply wakes_start_mutation].
  - split; [by eapply counts_end_wait|by apply (wakes_leave t)].
  - pose proof (counts_mutation_exit t b Hc Hp) as Hc'. unfold mutation_exit.
    destruct (Z.eqb_spec (active_mutations b - 1) 0) as [E|E].
    + split; [by apply counts_notify|apply wakes_notify].
    + split; [done|]. intros t0 p. cbn. at_task t0; [done|]. intros H. specialize (Hw _ _ H).
      destruct p as [? ? []| |[]|[]|]; cbn in *; try done. by apply Z.eqb_neq.
  - unfold checkpoint_enter in H. apply bind_Ok in H as (? & Hh%raise_if_Ok%bool_decide_eq_false & [= <-]).
    pose proof (not_holder_idle _ _ Hc Ho Hh) as Hn. destruct (checkpoint_active b) eqn:Ea.
    + split; [|apply wakes_sleep; [done|cbn; by rewrite Ea]].
      pose proof (counts_new_wait t (CkptWait false) b (max_waiting_mutations b) Hc Hn) as Hk.
      cbn in Hk. rewrite Z.add_0_r in Hk. apply Hk; try done. apply Hc.
    + split; [by apply counts_claim|by apply wakes_claim].
  - unfold checkpoint_resume. destruct (checkpoint_active b) eqn:Ea.
    + split; [by eapply counts_sleep|]. apply wakes_sleep; [done|]. cbn. by rewrite Ea.
    + pose proof (counts_leave _ _ _ Hc Hp) as Hc'. pose proof (wakes_leave t b Hw) as Hw'.
      assert (claim_checkpoint t b = claim_checkpoint t (leave t b)) as ->.
      { unfold claim_checkpoint, start_checkpoint, set_pc, with_pcs, with_holders, with_active. cbn.
        destruct (_ =? _); cbn; by rewrite insert_delete_eq. }
      split; [apply counts_claim; [done|done|apply lookup_delete_eq]|by apply wakes_claim].
  - split; [by eapply counts_leave|by apply wakes_leave].
  - unfold drain_resume. destruct (Z.eqb_spec (active_mutations b) 0) as [E|E].
    + split; [by eapply counts_start_checkpoint|]. by apply wakes_sleep.
    + split; [by eapply counts_sleep|]. apply wakes_sleep; [done|]. by apply Z.eqb_neq.
  - split; [|apply wakes_notify]. apply counts_notify.
    pose proof (counts_release t _ b Hc Hp eq_refl) as Hr. by rewrite (holders_out _ _ _ Hc Hp) in Hr.
  - split; [|apply wakes_notify]. apply counts_notify. by eapply counts_release.
  - split; [|done]. destruct Hc. by constructor.
Qed.

Lemma reachable_inv b : reachable b -> counts b /\ wakes b.
Proof.
  induction 1 as [|b b' _ IH Hs]; [|by eapply step_inv]. split; [|done].
  constructor; cbn; try done; rewrite ?count_empty; try done.
  intros t. rewrite lookup_empty. split; [set_solver|by intros (? & ? & _)].
Qed.

(** ** Properties *)



(** ** Witnesses

    Task 1 mutates, task 2 asks for a checkpoint and waits for it, task 3
    queues behind the checkpoint; then task 1 leaves. *)
Definition enter_mutation (t : task) (b : Barrier) : Barrier :=
  match mutation_enter t "other" 0 b with Ok b' => b' | Raise _ => b end.

Definition enter_checkpoint (t : task) (b : Barrier) : Barrier :=
  match checkpoint_enter t b with Ok b' => b' | Raise _ => b end.

Definition sample_barrier : Barrier :=
  mutation_exit 1%nat (enter_mutation 3%nat (enter_checkpoint 2%nat (enter_mutation 1%nat init))).

Lemma enter_mutation_reachable t b :
  pcs b !! t = None -> reachable b -> reachable (enter_mutation t b).
Proof.
  intros Hn Hr. unfold enter_mutation. destruct (mutation_enter t "other" 0 b) eqn:E; [|done].
  eapply reachable_step; [exact Hr|]. by apply (step_mutation_enter t "other" 0); [left|].
Qed.

Lemma enter_checkpoint_reachable t b :
  pcs b !! t = None -> reachable b -> reachable (enter_checkpoint t b).
Proof.
  intros Hn Hr. unfold enter_checkpoint. destruct (checkpoint_enter t b) eqn:E; [|done].
  eapply reachable_step; [exact Hr|]. by apply (step_checkpoint_enter t); [left|].
Qed.

Lemma sample_barrier_reachable : reachable sample_barrier.
Proof.
  unfold sample_barrier. eapply reachable_step; [|apply step_mutation_exit; vm_compute; reflexivity].
  apply enter_mutation_reachable; [vm_compute; reflexivity|].
  apply enter_checkpoint_reachable; [vm_compute; reflexivity|].
  apply enter_mutation_reachable; [vm_compute; reflexivity|]. apply reachable_init.
Qed.


