(* ===== verification/Membership.v ===== *)
(** * Rank layout of a rebuilt refit communicator

    Models [src/nemo_rl/weight_sync/membership.py]: which generation shards
    take part in a weight transfer, where their ranks sit, and when the
    communicator has to be rebuilt.  The absent shards come from the fleet
    health ledger. *)

From S2P Require Import Prelude PyVal.

(** [shard_prefixes] is a dict in insertion order. *)
Record RefitMembership := mkMembership {
  world_size : Z;
  train_world_size : Z;
  shard_prefixes : list (Z * Z);
  workers_per_shard : Z }.

Definition surviving_shards (m : RefitMembership) : list Z := (shard_prefixes m).*1.

(** [sorted(set(xs))]. *)
Definition sorted_set (xs : list Z) : list Z := py_sort Z.ltb (remove_dups xs).

(** [{shard: position * workers for position, shard in enumerate(unique)}]. *)
Definition layout (workers : Z) (unique : list Z) : list (Z * Z) :=
  (fun p => (p.2, Z.of_nat p.1 * workers)) <$> enumerate unique.

Definition plan_refit_membership (survivors : list Z) (dp_size total_gen_workers train : Z)
    : res RefitMembership :=
  _ ← raise_if (dp_size <=? 0) ValueError;
  _ ← raise_if (negb (total_gen_workers mod dp_size =? 0)) ValueError;
  let unique := sorted_set survivors in
  _ ← raise_if (bool_decide (unique = [])) NoSurvivingShards;
  _ ← raise_if (existsb (fun idx => negb ((0 <=? idx) && (idx <? dp_size))) unique) ValueError;
  let workers := total_gen_workers / dp_size in
  Ok (mkMembership (train + Z.of_nat (length unique) * workers) train (layout workers unique) workers).

Definition desired_membership (absent : list Z) (dp_size total_gen_workers train : Z)
    : res RefitMembership :=
  plan_refit_membership
    (List.filter (fun idx => negb (bool_decide (idx ∈ absent))) (seqZ 0 dp_size))
    dp_size total_gen_workers train.

(** Equality of dicts ignores the order. *)
Definition should_rebuild (desired built : RefitMembership) (absent : list Z) (force : bool) : bool :=
  let unchanged := bool_decide
    ((list_to_map (shard_prefixes desired) : gmap Z Z) = list_to_map (shard_prefixes built)) in
  negb (unchanged && negb (force && negb (bool_decide (absent = [])))).

(** The ranks of one shard. *)
Definition owns_rank (m : RefitMembership) (shard rank : Z) : Prop :=
  exists prefix, (shard, prefix) ∈ shard_prefixes m /\
    train_world_size m + prefix <= rank < train_world_size m + prefix + workers_per_shard m.

(** ** Lemmas *)

Lemma sorted_set_spec xs :
  (forall x, x ∈ sorted_set xs <-> x ∈ xs) /\ StronglySorted Z.lt (sorted_set xs).
Proof.
  unfold sorted_set. split.
  - intros x. rewrite (py_sort_perm Z.ltb). apply elem_of_remove_dups.
  - assert (NoDup (py_sort Z.ltb (remove_dups xs))) as Hn
      by (rewrite (py_sort_perm Z.ltb); apply NoDup_remove_dups).
    assert (StronglySorted (fun a b => (b <? a) = false) (py_sort Z.ltb (remove_dups xs))) as Hs.
    { apply py_sort_sorted; intros *; rewrite ?Z.ltb_ge, ?Z.ltb_lt; lia. }
    induction Hs as [|x l _ IH Hx]; constructor; apply NoDup_cons in Hn as [Hni Hn]; [by apply IH|].
    rewrite Forall_forall in Hx |- *. intros y Hy. pose proof (Hx _ Hy) as Hle%Z.ltb_ge.
    destruct (decide (x = y)) as [->|]; [done|lia].
Qed.

Lemma layout_fst workers unique : (layout workers unique).*1 = unique.
Proof.
  unfold layout, enumerate. generalize 0%nat.
  induction unique as [|x l IH]; intros k; [done|]. cbn. f_equal. apply IH.
Qed.

Lemma elem_of_layout workers unique shard prefix :
  (shard, prefix) ∈ layout workers unique <->
  exists p, unique !! p = Some shard /\ prefix = Z.of_nat p * workers.
Proof.
  unfold layout. rewrite list_elem_of_fmap. split.
  - intros ([p x] & [= -> ->] & Hp%elem_of_enumerate). eauto.
  - intros (p & Hp & ->). exists (p, shard). split; [done|]. by apply elem_of_enumerate.
Qed.

Lemma plan_Ok survivors dp total train m :
  plan_refit_membership survivors dp total train = Ok m <->
  0 < dp /\ total mod dp = 0 /\ survivors <> [] /\ (forall x, x ∈ survivors -> 0 <= x < dp) /\
  m = mkMembership (train + Z.of_nat (length (sorted_set survivors)) * (total / dp)) train
        (layout (total / dp) (sorted_set survivors)) (total / dp).
Proof.
  destruct (sorted_set_spec survivors) as [Hel _].
  assert (sorted_set survivors = [] <-> survivors = []) as Hnil.
  { split; intros Hn.
    - destruct survivors as [|x xs]; [done|]. assert (x ∈ sorted_set (x :: xs)) as Hx by (rewrite Hel; set_solver).
      rewrite Hn in Hx. by apply not_elem_of_nil in Hx.
    - by rewrite Hn. }
  assert (existsb (fun idx => negb ((0 <=? idx) && (idx <? dp))) (sorted_set survivors) = false <->
          forall x, x ∈ survivors -> 0 <= x < dp) as Hr.
  { rewrite <- not_true_iff_false, existsb_exists. split.
    - intros Hn x Hx. destruct (decide (0 <= x < dp)); [done|]. destruct Hn. exists x.
      rewrite <- list_elem_of_In, Hel. split; [done|]. lia.
    - intros Hx (x & Hin & Hb). rewrite <- list_elem_of_In, Hel in Hin. specialize (Hx _ Hin). lia. }
  unfold plan_refit_membership. split.
  - intros H. repeat (apply bind_Ok in H as ([] & ?%raise_if_Ok & H)). injection H as <-.
    bool_to_prop. rewrite Hnil in *. rewrite Hr in *. split_and!; [lia|done..].
  - intros (H1 & H2 & H3 & H4 & ->). rewrite (proj2 (Z.leb_gt dp 0) H1), H2.
    rewrite bool_decide_eq_false_2 by (by rewrite Hnil). rewrite (proj2 Hr H4). done.
Qed.

Lemma plan_Raise survivors dp total train e :
  plan_refit_membership survivors dp total train = Raise e ->
  (e = ValueError /\
     (dp <= 0 \/ total mod dp <> 0 \/ exists x, x ∈ survivors /\ ~ (0 <= x < dp))) \/
  (e = NoSurvivingShards /\ 0 < dp /\ total mod dp = 0 /\ survivors = []).
Proof.
  destruct (sorted_set_spec survivors) as [Hel _]. unfold plan_refit_membership, raise_if.
  destruct (Z.leb_spec dp 0); [intros [= <-]; auto|]. cbn [mbind res_bind].
  destruct (Z.eqb_spec (total mod dp) 0); cbn [negb mbind res_bind]; [|intros [= <-]; auto].
  case_bool_decide as Hn; cbn [mbind res_bind].
  - intros [= <-]. right. split_and!; [done|done|done|].
    destruct survivors as [|x xs]; [done|]. exfalso.
    assert (x ∈ sorted_set (x :: xs)) as Hx by (rewrite Hel; set_solver).
    rewrite Hn in Hx. by apply not_elem_of_nil in Hx.
  - destruct (existsb _ _) eqn:Ex; cbn [mbind res_bind]; [|done]. intros [= <-]. left. split; [done|].
    apply existsb_exists in Ex as (x & Hin & Hb). right. right. exists x.
    rewrite <- list_elem_of_In, Hel in Hin. split; [done|]. lia.
Qed.

Lemma layout_inj workers u1 u2 :
  StronglySorted Z.lt u1 -> StronglySorted Z.lt u2 ->
  (list_to_map (layout workers u1) : gmap Z Z) = list_to_map (layout workers u2) <->
  (forall x, x ∈ u1 <-> x ∈ u2).
Proof.
  intros H1 H2. split; [intros Hm x|intros Hx].
  - assert (forall u, x ∈ u <-> x ∈ dom (list_to_map (layout workers u) : gmap Z Z)) as Hd.
    { intros u. by rewrite dom_list_to_map_L, layout_fst, elem_of_list_to_set. }
    by rewrite !Hd, Hm.
  - assert (forall u, StronglySorted Z.lt u -> NoDup u) as Hnd.
    { induction 1 as [|x u _ IH Hf]; constructor; [|done]. rewrite Forall_forall in Hf.
      intros Hin%Hf. lia. }
    assert (u1 = u2) as ->; [|done].
    apply (StronglySorted_unique_strong Z.lt); [intros; lia|done|done|].
    apply NoDup_Permutation; auto.
Qed.

(** The rank blocks of consecutive positions tile the generation block. *)
Lemma owns_rank_layout train w u shard rank :
  owns_rank (mkMembership (train + Z.of_nat (length u) * w) train (layout w u) w) shard rank <->
  exists p, u !! p = Some shard /\ Z.of_nat p * w <= rank - train < Z.of_nat p * w + w.
Proof.
  unfold owns_rank. cbn. split.
  - intros (prefix & (p & Hp & ->)%elem_of_layout & Hlt). exists p. split; [done|lia].
  - intros (p & Hp & Hlt). exists (Z.of_nat p * w). rewrite elem_of_layout. split; [eauto|lia].
Qed.

Lemma rank_has_one_owner train w (u : list Z) rank :
  0 <= w ->
  train <= rank < train + Z.of_nat (length u) * w <->
  exists shard, (exists p, u !! p = Some shard /\ Z.of_nat p * w <= rank - train < Z.of_nat p * w + w) /\
    forall s', (exists p, u !! p = Some s' /\ Z.of_nat p * w <= rank - train < Z.of_nat p * w + w) ->
      s' = shard.
Proof.
  intros Hw. split.
  - intros Hrank. assert (0 < w) as Hw0 by nia.
    pose proof (Z.div_mod (rank - train) w ltac:(lia)) as Hd.
    pose proof (Z.mod_pos_bound (rank - train) w Hw0) as Hb.
    set (q := (rank - train) / w) in *.
    assert (0 <= q < Z.of_nat (length u)) as Hq.
    { split; [apply Z.div_pos; lia|]. apply Z.div_lt_upper_bound; lia. }
    destruct (lookup_lt_is_Some_2 u (Z.to_nat q) ltac:(lia)) as [shard Hsh].
    exists shard. split; [exists (Z.to_nat q); split; [done|]; rewrite Z2Nat.id; lia|].
    intros s' (p & Hp & Hlt). assert (Z.of_nat p = q) as Hpq by nia.
    rewrite <- Hpq, Nat2Z.id in Hsh. congruence.
  - intros (shard & (p & Hp & Hlt) & _). apply lookup_lt_Some in Hp. nia.
Qed.

(** ** Properties *)

(** A rebuilt communicator has no hole and no overlap: the surviving
    shards are the distinct ones given, in increasing order and inside the
    fleet; the trainers keep their ranks; and every rank after them belongs to
    exactly one surviving shard.  Planning raises in exactly the other
    cases. *)
Theorem refit_layout_is_a_partition survivors dp total train :
  match plan_refit_membership survivors dp total train with
  | Ok m =>
      0 < dp /\ survivors <> [] /\
      train_world_size m = train /\ workers_per_shard m * dp = total /\
      StronglySorted Z.lt (surviving_shards m) /\
      (forall x, x ∈ surviving_shards m <-> x ∈ survivors) /\
      (forall x, x ∈ survivors -> 0 <= x < dp) /\
      (0 <= total -> forall rank, train <= rank < world_size m <->
         exists shard, owns_rank m shard rank /\ forall s', owns_rank m s' rank -> s' = shard)
  | Raise e =>
      (e = ValueError /\
         (dp <= 0 \/ total mod dp <> 0 \/ exists x, x ∈ survivors /\ ~ (0 <= x < dp))) \/
      (e = NoSurvivingShards /\ 0 < dp /\ total mod dp = 0 /\ survivors = [])
  end.
Proof.
  destruct (plan_refit_membership survivors dp total train) as [m|e] eqn:E.
  - apply plan_Ok in E as (Hdp & Hmod & Hne & Hr & ->). cbn.
    destruct (sorted_set_spec survivors) as [Hel Hs]. set (u := sorted_set survivors) in *.
    set (w := total / dp) in *. unfold surviving_shards. cbn. rewrite layout_fst.
    split_and!; try done.
    + unfold w. pose proof (Z.div_mod total dp ltac:(lia)). lia.
    + intros Htot rank. setoid_rewrite owns_rank_layout. apply rank_has_one_owner.
      by apply Z.div_pos.
  - apply plan_Raise in E. tauto.
Qed.

(** A rebuild happens when it must: given the membership built for one set
    of absent shards and the one desired now, the communicator is rebuilt
    exactly when some shard left or came back, or when the caller says the
    communicator is gone and a shard is absent. *)
Theorem rebuild_iff_membership_changed absent0 absent dp total train0 train built desired force :
  desired_membership absent0 dp total train0 = Ok built ->
  desired_membership absent dp total train = Ok desired ->
  should_rebuild desired built absent force = true <->
    (exists shard, 0 <= shard < dp /\ ~ (shard ∈ absent0 <-> shard ∈ absent)) \/
    (force = true /\ absent <> []).
Proof.
  intros Hb Hd. apply plan_Ok in Hb as (_ & _ & _ & _ & ->). apply plan_Ok in Hd as (_ & _ & _ & _ & ->).
  unfold should_rebuild. cbn [shard_prefixes].
  destruct (sorted_set_spec (List.filter (fun idx => negb (bool_decide (idx ∈ absent0))) (seqZ 0 dp)))
    as [H0 S0].
  destruct (sorted_set_spec (List.filter (fun idx => negb (bool_decide (idx ∈ absent))) (seqZ 0 dp)))
    as [H1 S1].
  pose proof (layout_inj (total / dp) _ _ S1 S0) as Hi.
  setoid_rewrite H0 in Hi. setoid_rewrite H1 in Hi. setoid_rewrite list_filter_elem_of in Hi.
  setoid_rewrite elem_of_seqZ in Hi. setoid_rewrite negb_true_iff in Hi.
  setoid_rewrite bool_decide_eq_false in Hi.
  rewrite negb_true_iff, andb_false_iff, bool_decide_eq_false, negb_false_iff, andb_true_iff,
    negb_true_iff, bool_decide_eq_false, Hi. clear.
  assert (~ (forall x, (0 <= x < 0 + dp) /\ x ∉ absent <-> (0 <= x < 0 + dp) /\ x ∉ absent0) <->
    exists shard, 0 <= shard < dp /\ ~ (shard ∈ absent0 <-> shard ∈ absent)) as ->; [|done].
  split.
  - intros Hn.
    destruct (decide (Forall (fun x => bool_decide (x ∈ absent0) = bool_decide (x ∈ absent)) (seqZ 0 dp)))
      as [Hf|Hf].
    + exfalso. apply Hn. rewrite Forall_forall in Hf. intros x.
      assert (0 <= x < 0 + dp -> (x ∈ absent0 <-> x ∈ absent)) as Hx; [|tauto].
      intros Hx. specialize (Hf x ltac:(by apply elem_of_seqZ)). cbn in Hf.
      by rewrite <- (bool_decide_eq_true (x ∈ absent0)), Hf, bool_decide_eq_true.
    + apply not_Forall_Exists in Hf; [|intros x; apply _].
      apply Exists_exists in Hf as (x & Hx%elem_of_seqZ & Hne). exists x. split; [lia|].
      intros Hiff. by apply Hne, bool_decide_ext.
  - intros (x & Hx & Hne) Hall. apply Hne. specialize (Hall x).
    destruct (decide (x ∈ absent0)), (decide (x ∈ absent)); tauto || (exfalso; intuition lia).
Qed.

(** ** Witnesses *)
Lemma rebuild_iff_membership_changed_witness :
  exists built desired, desired_membership [1] 3 6 4 = Ok built /\
    desired_membership [] 3 6 4 = Ok desired /\ should_rebuild desired built [] false = true.
Proof.
  destruct (desired_membership [1] 3 6 4) as [built|] eqn:Hb; [|exfalso; vm_compute in Hb; discriminate Hb].
  destruct (desired_membership [] 3 6 4) as [desired|] eqn:Hd; [|exfalso; vm_compute in Hd; discriminate Hd].
  exists built, desired. split; [reflexivity|]. split; [reflexivity|].
  apply (rebuild_iff_membership_changed [1] [] 3 6 4 4 built desired false Hb Hd).
  left. exists 1. split; [lia|]. intros [H _].
  assert (1 ∈ @nil Z) as Hin by (apply H; apply list_elem_of_here). inversion Hin.
Defined.
