(* ===== verification/Supervisor.v ===== *)
(** * Restarting dead generation engines

    Models [EngineSupervisor] of
    [src/nemo_rl/models/generation/engine_supervisor.py], a client of the
    fleet-health ledger: which shards are restarted, the attempt budget the
    ledger keeps, and the cooldown after a failed attempt.  The reload itself
    runs on a thread of its own; how it ended is an argument of the step that
    finishes it.  Times are integers of any unit.  Waiting for running
    restarts at shutdown ([drain]) changes no state and is not modelled. *)

From S2P Require Import Prelude FleetHealth.

(** A restart task: running the given attempt, or finished and not yet
    forgotten by its done callback. *)
Inductive restart_task := Running (attempt : Z) | Finished.

Record Supervisor := mkSupervisor {
  fleet : Fleet;
  restart_backoff : Z;
  in_flight : gmap nat restart_task;
  retry_not_before : gmap nat Z;
  restarts_started : Z;
  restarts_succeeded : Z;
  restarts_failed : Z;
  restarts_timed_out : Z }.

(** [__init__]. *)
Definition new_supervisor (f : Fleet) (backoff : Z) : Supervisor :=
  mkSupervisor f backoff ∅ ∅ 0 0 0 0.

Definition with_fleet (f : Fleet) (s : Supervisor) : Supervisor :=
  mkSupervisor f (restart_backoff s) (in_flight s) (retry_not_before s) (restarts_started s)
    (restarts_succeeded s) (restarts_failed s) (restarts_timed_out s).

Definition with_in_flight (m : gmap nat restart_task) (s : Supervisor) : Supervisor :=
  mkSupervisor (fleet s) (restart_backoff s) m (retry_not_before s) (restarts_started s)
    (restarts_succeeded s) (restarts_failed s) (restarts_timed_out s).

(** [_restartable_shards]. *)
Definition restartable (now : Z) (s : Supervisor) (health : ShardHealth) : bool :=
  bool_decide (state health = DEAD)
  && bool_decide (in_flight s !! dp_shard_idx health = None)
  && (default 0 (retry_not_before s !! dp_shard_idx health) <=? now).

Definition restartable_shards (now : Z) (s : Supervisor) : list nat :=
  dp_shard_idx <$> List.filter (restartable now s) (shards (fleet s)).

(** [_begin_restart]. *)
Definition begin_restart (idx : nat) (s : Supervisor) : res Supervisor :=
  f ← mark_restarting idx (fleet s);
  st ← state_of idx f;
  if decide (st = RETIRED) then Ok (with_fleet f s)
  else
    sh ← get_index (shards f) idx;
    Ok (mkSupervisor f (restart_backoff s) (<[idx := Running (restart_attempts sh)]> (in_flight s))
          (retry_not_before s) (restarts_started s + 1) (restarts_succeeded s) (restarts_failed s)
          (restarts_timed_out s)).

Fixpoint begin_restarts (idxs : list nat) (s : Supervisor) : res Supervisor :=
  match idxs with
  | [] => Ok s
  | idx :: idxs' => s' ← begin_restart idx s; begin_restarts idxs' s'
  end.

Definition tick (now : Z) (s : Supervisor) : res Supervisor :=
  begin_restarts (restartable_shards now s) s.

(** How the reload ended: the engine is up at a URL, an [Exception] (perhaps
    the timeout), or something [except Exception] does not catch. *)
Inductive outcome :=
| EngineUp (url : option string)
| RestartFailed (timed_out : bool) (reason : string)
| Escaped.

(** [_restart] after the await. *)
Definition restart_finish (idx : nat) (o : outcome) (now : Z) (s : Supervisor) : res Supervisor :=
  let flight := <[idx := Finished]> (in_flight s) in
  match o with
  | EngineUp url =>
      f ← mark_loaded idx url (fleet s);
      Ok (mkSupervisor f (restart_backoff s) flight (delete idx (retry_not_before s))
            (restarts_started s) (restarts_succeeded s + 1) (restarts_failed s)
            (restarts_timed_out s))
  | RestartFailed timed_out reason =>
      f ← mark_restart_failed idx reason (fleet s);
      Ok (mkSupervisor f (restart_backoff s) flight
            (<[idx := now + restart_backoff s]> (retry_not_before s))
            (restarts_started s) (restarts_succeeded s) (restarts_failed s + 1)
            (restarts_timed_out s + Z.b2z timed_out))
  | Escaped => Ok (with_in_flight flight s)
  end.

(** [_forget]: the done callback. *)
Definition forget (idx : nat) (s : Supervisor) : Supervisor :=
  with_in_flight (delete idx (in_flight s)) s.

(** ** Interleaving with the rest of the ledger's writers

    Only the supervisor restarts engines; every other write may come at any
    time. *)
Definition foreign (e : event) : bool :=
  match e with EvRestarting _ => false | _ => true end.

Inductive step : Supervisor -> Supervisor -> Prop :=
| step_tick now s s' : tick now s = Ok s' -> step s s'
| step_finish idx attempt o now s s' :
    in_flight s !! idx = Some (Running attempt) -> restart_finish idx o now s = Ok s' -> step s s'
| step_forget idx s : in_flight s !! idx = Some Finished -> step s (forget idx s)
| step_event e f s : foreign e = true -> apply e (fleet s) = Ok f -> step s (with_fleet f s).

Inductive reachable (s0 : Supervisor) : Supervisor -> Prop :=
| reachable_start : reachable s0 s0
| reachable_step s s' : reachable s0 s -> step s s' -> reachable s0 s'.

(** ** What a write does to a shard's attempts *)

(** The part of the attempt budget a shard has used. *)
Definition budget_used (p : FleetHealthPolicy) (sh : ShardHealth) : Z :=
  Z.min (restart_attempts sh) (Z.max 0 (max_restart_attempts_per_shard p)).

Definition total_used (f : Fleet) : Z := zsum (budget_used (policy f) <$> shards f).

(** Shard [i] carries index [i]; attempts are counts. *)
Definition indexed (f : Fleet) : Prop :=
  forall i sh, shards f !! i = Some sh -> dp_shard_idx sh = i /\ 0 <= restart_attempts sh.

Lemma shard_next_idx p e sh : dp_shard_idx (shard_next p e sh) = dp_shard_idx sh.
Proof.
  destruct e; cbn; unfold set_error_if; repeat (case_decide || case_match); done.
Qed.

Lemma shard_next_attempts p e sh :
  foreign e = true -> restart_attempts (shard_next p e sh) = restart_attempts sh.
Proof.
  destruct e; cbn; intros H; try discriminate H; unfold set_error_if;
    repeat (case_decide || case_match); done.
Qed.

Lemma zsum_insert (l : list Z) i x y : l !! i = Some x -> zsum (<[i := y]> l) = zsum l - x + y.
Proof.
  revert i. induction l as [|z l IH]; intros [|i] H; [done..| |].
  - injection H as ->. cbn. lia.
  - change (<[S i := y]> (z :: l)) with (z :: <[i := y]> l). cbn [zsum]. rewrite (IH i H). lia.
Qed.

Lemma total_used_settle i sh sh' f :
  shards f !! i = Some sh ->
  total_used (settle i sh sh' f) =
    total_used f - budget_used (policy f) sh + budget_used (policy f) sh'.
Proof.
  intros Hi. unfold total_used. rewrite settle_policy, settle_shards, list_fmap_insert.
  apply zsum_insert. by rewrite list_lookup_fmap, Hi.
Qed.

Lemma indexed_settle i e sh f :
  shards f !! i = Some sh -> indexed f ->
  0 <= restart_attempts (shard_next (policy f) e sh) ->
  indexed (settle i sh (shard_next (policy f) e sh) f).
Proof.
  intros Hi Hx Ha j sh'. rewrite settle_shards. destruct (decide (i = j)) as [->|Hne].
  - rewrite list_lookup_insert_eq by (by eapply lookup_lt_Some). intros [= <-].
    rewrite shard_next_idx. split; [by apply Hx in Hi as [? _]|done].
  - rewrite list_lookup_insert_ne by done. apply Hx.
Qed.

(** ** Starting a restart *)
Lemma begin_restart_spec idx s sh :
  shards (fleet s) !! idx = Some sh -> state sh = DEAD ->
  let p := policy (fleet s) in
  let sh' := shard_next p (EvRestarting idx) sh in
  let f := settle idx sh sh' (fleet s) in
  restart_attempts sh' = restart_attempts sh + 1 /\
  if max_restart_attempts_per_shard p <? restart_attempts sh + 1
  then state sh' = RETIRED /\ begin_restart idx s = Ok (with_fleet f s)
  else state sh' = RESTARTING /\ begin_restart idx s =
    Ok (mkSupervisor f (restart_backoff s)
          (<[idx := Running (restart_attempts sh + 1)]> (in_flight s))
          (retry_not_before s) (restarts_started s + 1) (restarts_succeeded s) (restarts_failed s)
          (restarts_timed_out s)).
Proof.
  intros Hi Hd p sh' f. assert (mark_restarting idx (fleet s) = Ok f) as Hm.
  { change (mark_restarting idx (fleet s)) with (apply (EvRestarting idx) (fleet s)).
    rewrite apply_spec. cbn [target]. by rewrite Hi. }
  assert (shards f !! idx = Some sh') as Hf.
  { unfold f. rewrite settle_shards, list_lookup_insert_eq; [done|by eapply lookup_lt_Some]. }
  unfold begin_restart. rewrite Hm. cbn [mbind res_bind]. unfold state_of, get_shard, get_index.
  rewrite Hf. cbn [mbind res_bind]. clearbody f. unfold sh'. cbn [shard_next].
  rewrite Hd, decide_False by done. cbv zeta.
  destruct (_ <? _); cbn; (split; [done|]); (split; [done|]).
  - by rewrite decide_True.
  - by rewrite decide_False.
Qed.

(** ** Invariant of the interleaving *)
Definition is_running (t : restart_task) : bool :=
  match t with Running _ => true | Finished => false end.

Record inv (s : Supervisor) : Prop := {
  v_indexed : indexed (fleet s);
  v_started : restarts_started s = total_used (fleet s);
  v_ended : restarts_succeeded s + restarts_failed s + count is_running (in_flight s)
              <= restarts_started s;
  v_succeeded : 0 <= restarts_succeeded s;
  v_timed_out : 0 <= restarts_timed_out s <= restarts_failed s }.

Lemma budget_step p sh sh' :
  0 <= restart_attempts sh -> restart_attempts sh' = restart_attempts sh + 1 ->
  budget_used p sh' = budget_used p sh +
    if max_restart_attempts_per_shard p <? restart_attempts sh + 1 then 0 else 1.
Proof.
  unfold budget_used. intros H0 ->. destruct (Z.ltb_spec (max_restart_attempts_per_shard p)
    (restart_attempts sh + 1)); lia.
Qed.

(** What a task that has just begun leaves unchanged. *)
Lemma begin_restart_inv idx s sh :
  inv s -> shards (fleet s) !! idx = Some sh -> state sh = DEAD -> in_flight s !! idx = None ->
  exists s', begin_restart idx s = Ok s' /\ inv s' /\ retry_not_before s' = retry_not_before s /\
    restart_backoff s' = restart_backoff s /\ policy (fleet s') = policy (fleet s) /\
    (forall j, j <> idx -> shards (fleet s') !! j = shards (fleet s) !! j /\
       in_flight s' !! j = in_flight s !! j).
Proof.
  intros [] Hi Hd Hf. destruct (v_indexed0 _ _ Hi) as [_ H0].
  pose proof (begin_restart_spec idx s sh Hi Hd) as [Hat Hb]. cbv zeta in *.
  set (sh' := shard_next (policy (fleet s)) (EvRestarting idx) sh) in *.
  pose proof (budget_step (policy (fleet s)) sh sh' H0 Hat) as Hbud.
  pose proof (total_used_settle idx sh sh' (fleet s) Hi) as Htot.
  assert (indexed (settle idx sh sh' (fleet s))) as Hx by (apply indexed_settle; [done|done|fold sh'; lia]).
  set (over := max_restart_attempts_per_shard _ <? _) in *. clearbody over sh'.
  destruct over; destruct Hb as [_ ->]; (eexists; split; [done|]).
  - split; [constructor; cbn; try done; lia|]. cbn. rewrite settle_policy. split_and!; try done.
    intros j Hj. by rewrite settle_shards, list_lookup_insert_ne.
  - split; [constructor; cbn; try done; rewrite ?count_insert_new by done; cbn; lia|].
    cbn. rewrite settle_policy. split_and!; try done.
    intros j Hj. by rewrite settle_shards, list_lookup_insert_ne, lookup_insert_ne.
Qed.

Lemma begin_restarts_inv idxs : forall s,
  inv s -> NoDup idxs ->
  (forall idx, idx ∈ idxs -> in_flight s !! idx = None /\
     exists sh, shards (fleet s) !! idx = Some sh /\ state sh = DEAD) ->
  exists s', begin_restarts idxs s = Ok s' /\ inv s' /\ retry_not_before s' = retry_not_before s /\
    restart_backoff s' = restart_backoff s /\ policy (fleet s') = policy (fleet s).
Proof.
  induction idxs as [|idx idxs IH]; intros s Hv Hnd Hidx; [by exists s|].
  apply NoDup_cons in Hnd as [Hni Hnd].
  destruct (Hidx idx (list_elem_of_here _ _)) as (Hf & sh & Hi & Hd).
  destruct (begin_restart_inv idx s sh Hv Hi Hd Hf) as (s1 & E1 & V1 & R1 & B1 & P1 & O1).
  destruct (IH s1 V1 Hnd) as (s' & E2 & V2 & R2 & B2 & P2).
  { intros j Hj. assert (j <> idx) as Hne by congruence. destruct (O1 j Hne) as [-> ->].
    apply Hidx. by apply list_elem_of_further. }
  exists s'. cbn [begin_restarts]. rewrite E1. cbn [mbind res_bind]. by rewrite R2, B2, P2.
Qed.

Lemma elem_of_restartable now s idx :
  indexed (fleet s) ->
  idx ∈ restartable_shards now s <->
  exists sh, shards (fleet s) !! idx = Some sh /\ state sh = DEAD /\ in_flight s !! idx = None /\
    default 0 (retry_not_before s !! idx) <= now.
Proof.
  intros Hx. unfold restartable_shards. rewrite list_elem_of_fmap.
  setoid_rewrite list_filter_elem_of. unfold restartable. split.
  - intros (sh & -> & Hin & Hr). apply list_elem_of_lookup in Hin as (i & Hi).
    destruct (Hx _ _ Hi) as [Hdx _]. rewrite Hdx in *. bool_to_prop. by exists sh.
  - intros (sh & Hi & Hd & Hf & Hn). exists sh. destruct (Hx _ _ Hi) as [Hdx _]. split; [done|].
    split; [by eapply list_elem_of_lookup_2|]. rewrite Hdx, !bool_decide_eq_true_2 by done.
    cbn. by apply Z.leb_le.
Qed.

Lemma restartable_NoDup now s : indexed (fleet s) -> NoDup (restartable_shards now s).
Proof.
  intros Hx. unfold restartable_shards.
  assert (NoDup (dp_shard_idx <$> shards (fleet s))) as Hn.
  { apply NoDup_alt. intros i j k Hi Hj. rewrite list_lookup_fmap in Hi, Hj.
    destruct (shards (fleet s) !! i) as [a|] eqn:Ea; [|done].
    destruct (shards (fleet s) !! j) as [b|] eqn:Eb; [|done]. cbn in *.
    destruct (Hx _ _ Ea) as [Ha _]. destruct (Hx _ _ Eb) as [Hb _]. congruence. }
  eapply sublist_NoDup; [exact Hn|]. apply fmap_sublist, filter_sublist.
Qed.

Lemma tick_inv now s :
  inv s -> exists s', tick now s = Ok s' /\ inv s' /\ retry_not_before s' = retry_not_before s /\
    restart_backoff s' = restart_backoff s /\ policy (fleet s') = policy (fleet s).
Proof.
  intros Hv. apply begin_restarts_inv; [done|by apply restartable_NoDup, Hv|].
  intros idx (sh & Hi & Hd & Hf & _)%elem_of_restartable; [|apply Hv]. eauto.
Qed.

(** A write that is not a restart keeps indices, attempts and policy. *)
Lemma foreign_write e f f' :
  foreign e = true -> apply e f = Ok f' -> indexed f ->
  indexed f' /\ total_used f' = total_used f /\ policy f' = policy f.
Proof.
  intros He Ha Hx. rewrite apply_spec in Ha. destruct (shards f !! target e) as [sh|] eqn:E; [|done].
  injection Ha as <-. pose proof (shard_next_attempts (policy f) e sh He) as Hat.
  split; [|split; [|apply settle_policy]].
  - apply indexed_settle; [done|done|]. rewrite Hat. by apply Hx in E as [_ ?].
  - rewrite (total_used_settle _ _ _ _ E). unfold budget_used. rewrite Hat. lia.
Qed.

Lemma finish_inv idx attempt o now s s' :
  inv s -> in_flight s !! idx = Some (Running attempt) -> restart_finish idx o now s = Ok s' ->
  inv s' /\ policy (fleet s') = policy (fleet s).
Proof.
  intros [] Hf H.
  assert (count is_running (<[idx := Finished]> (in_flight s)) = count is_running (in_flight s) - 1)
    as Hc by (rewrite count_insert, Hf; cbn; lia).
  destruct o as [url|to reason|]; cbn [restart_finish] in H.
  - apply bind_Ok in H as (f & Hm & [= <-]).
    destruct (foreign_write (EvLoaded idx url) _ f eq_refl Hm v_indexed0) as (H1 & H2 & H3).
    split; [|done]. constructor; cbn; try done; lia.
  - apply bind_Ok in H as (f & Hm & [= <-]).
    destruct (foreign_write (EvRestartFailed idx reason) _ f eq_refl Hm v_indexed0) as (H1 & H2 & H3).
    split; [|done]. constructor; cbn; try done; destruct to; cbn; lia.
  - injection H as <-. split; [|done]. constructor; cbn; try done; lia.
Qed.

Lemma supervisor_step_inv s s' : inv s -> step s s' -> inv s' /\ policy (fleet s') = policy (fleet s).
Proof.
  intros Hv Hs. destruct Hs as [now s s' H|idx attempt o now s s' Hf H|idx s Hf|e f s He Ha].
  - destruct (tick_inv now s Hv) as (s1 & E & V & _ & _ & P). rewrite H in E. by injection E as <-.
  - by eapply finish_inv.
  - split; [|done]. destruct Hv. constructor; cbn; try done.
    rewrite (count_delete _ _ _ _ Hf). cbn. lia.
  - destruct Hv. destruct (foreign_write _ _ _ He Ha v_indexed0) as (H1 & H2 & H3).
    split; [|done]. constructor; cbn; try done; lia.
Qed.

(** The ledger of a fresh run. *)
Lemma init_fleet n p urls clock f :
  init n p urls clock = Ok f ->
  policy f = p /\ Z.of_nat (length (shards f)) = n /\ indexed f /\ total_used f = 0.
Proof.
  unfold init. intros H. apply bind_Ok in H as ([] & Hn%raise_if_Ok%Z.ltb_ge & H).
  apply bind_Ok in H as ([] & _ & [= <-]). cbn [policy shards].
  split; [done|]. split; [rewrite length_fmap, length_seq; lia|]. split.
  - intros i sh Hi. cbn [shards] in Hi. rewrite list_lookup_fmap in Hi.
    destruct (seq 0 (Z.to_nat n) !! i) as [j|] eqn:E; [|done]. injection Hi as <-.
    apply lookup_seq in E as [-> _]. cbn. lia.
  - unfold total_used. cbn [policy shards]. generalize (seq 0 (Z.to_nat n)). intros l.
    induction l as [|i l IH]; [done|]. cbn [fmap list_fmap zsum]. unfold budget_used at 1. cbn. lia.
Qed.

Lemma supervisor_reachable_inv n p urls clock f backoff s :
  init n p urls clock = Ok f -> reachable (new_supervisor f backoff) s ->
  inv s /\ policy (fleet s) = p /\ Z.of_nat (length (shards (fleet s))) = n.
Proof.
  intros Hi Hr. destruct (init_fleet _ _ _ _ _ Hi) as (Hp & Hn & Hx & Hu).
  assert (forall e f1 f2, apply e f1 = Ok f2 -> length (shards f2) = length (shards f1)) as Hlen.
  { intros e f1 f2 Ha. rewrite apply_spec in Ha. destruct (shards f1 !! target e); [|done].
    injection Ha as <-. by rewrite settle_shards, length_insert. }
  assert (forall idxs s1 s2, begin_restarts idxs s1 = Ok s2 ->
    length (shards (fleet s2)) = length (shards (fleet s1))) as Hbl.
  { induction idxs as [|idx idxs IH]; intros s1 s2 H; cbn in H; [by injection H as <-|].
    apply bind_Ok in H as (s3 & H3 & H). rewrite (IH _ _ H). unfold begin_restart in H3.
    apply bind_Ok in H3 as (f3 & Hm & H3). apply bind_Ok in H3 as (st & _ & H3).
    rewrite <- (Hlen (EvRestarting idx) _ _ Hm). destruct (decide _); [by injection H3 as <-|].
    by apply bind_Ok in H3 as (sh & _ & [= <-]). }
  induction Hr as [|s s' _ (IHv & IHp & IHn) Hs].
  - split; [|done]. constructor; cbn; try done.
  - destruct (supervisor_step_inv _ _ IHv Hs) as [Hv Hpol]. split; [done|]. split; [congruence|]. rewrite <- IHn.
    f_equal. destruct Hs as [now s s' H|idx attempt o now s s' Hf H|idx s Hf|e g s He Ha].
    + by apply Hbl in H.
    + destruct o; cbn in H; [apply bind_Ok in H as (g & Hm & [= <-])..|by injection H as <-].
      * exact (Hlen (EvLoaded idx url) _ _ Hm).
      * exact (Hlen (EvRestartFailed idx reason) _ _ Hm).
    + done.
    + by apply Hlen in Ha.
Qed.

Lemma zsum_budget p (l : list ShardHealth) :
  zsum (budget_used p <$> l) <= Z.of_nat (length l) * Z.max 0 (max_restart_attempts_per_shard p).
Proof.
  induction l as [|sh l IH]; [done|].
  change (zsum (budget_used p <$> sh :: l)) with (budget_used p sh + zsum (budget_used p <$> l)).
  assert (budget_used p sh <= Z.max 0 (max_restart_attempts_per_shard p)) by (unfold budget_used; lia).
  cbn [length]. lia.
Qed.

(** ** Properties *)

(** The restart budget bounds the whole run: however ticks, finished
    reloads and the other writers of the ledger interleave, a tick never
    raises, the restarts started are exactly the attempts the shards have used
    of their budget, so no more than the fleet size times the budget; every
    one that ended is counted once, and timeouts are failures. *)
Theorem restart_budget_bounds_the_run n p urls clock f backoff s :
  init n p urls clock = Ok f -> reachable (new_supervisor f backoff) s ->
  restarts_started s = total_used (fleet s) /\
  restarts_started s <= n * Z.max 0 (max_restart_attempts_per_shard p) /\
  restarts_succeeded s + restarts_failed s + count is_running (in_flight s) <= restarts_started s /\
  0 <= restarts_timed_out s <= restarts_failed s /\
  (forall now, exists s', tick now s = Ok s').
Proof.
  intros Hi Hr. destruct (supervisor_reachable_inv _ _ _ _ _ _ _ Hi Hr) as (Hv & Hp & Hn).
  split_and!; try apply Hv.
  - rewrite (v_started _ Hv), <- Hn, <- Hp. unfold total_used. rewrite Hp.
    apply zsum_budget.
  - intros now. destruct (tick_inv now s Hv) as (s' & -> & _). by exists s'.
Qed.

(** The retry time of a shard moves only when a restart of it finishes. *)
Inductive step_without_finish (idx : nat) : Supervisor -> Supervisor -> Prop :=
| other_tick now s s' : tick now s = Ok s' -> step_without_finish idx s s'
| other_finish j attempt o now s s' :
    j <> idx -> in_flight s !! j = Some (Running attempt) -> restart_finish j o now s = Ok s' ->
    step_without_finish idx s s'
| other_forget j s : in_flight s !! j = Some Finished -> step_without_finish idx s (forget j s)
| other_event e g s :
    foreign e = true -> apply e (fleet s) = Ok g -> step_without_finish idx s (with_fleet g s).

Inductive steps_without_finish (idx : nat) (s0 : Supervisor) : Supervisor -> Prop :=
| no_steps : steps_without_finish idx s0 s0
| more_steps s s' :
    steps_without_finish idx s0 s -> step_without_finish idx s s' -> steps_without_finish idx s0 s'.

Lemma step_without_finish_keeps idx s s' :
  inv s -> step_without_finish idx s s' ->
  inv s' /\ retry_not_before s' !! idx = retry_not_before s !! idx.
Proof.
  intros Hv Hs. assert (step s s') as Hstep.
  { destruct Hs; [by eapply step_tick|by eapply step_finish|by apply step_forget|by eapply step_event]. }
  split; [by apply (supervisor_step_inv s)|].
  destruct Hs as [now s s' H|j attempt o now s s' Hj Hf H|j s Hf|e g s He Ha]; try done.
  - destruct (tick_inv now s Hv) as (s1 & E & _ & R & _). rewrite H in E. injection E as ->.
    by rewrite R.
  - destruct o; cbn in H; [apply bind_Ok in H as (g & _ & [= <-])..|by injection H as <-]; cbn.
    + by rewrite lookup_delete_ne.
    + by rewrite lookup_insert_ne.
Qed.

(** A finished restart never puts the engine back into traffic, and a
    failed one is not repeated at once: a reloaded engine is stale until a
    refit (or retired), a failed one is dead (or retired); and whatever
    happens until the next restart of that shard ends, a tick starts it again
    only if it is dead, has no restart in flight, and the cooldown has
    passed. *)
Theorem failed_restart_waits_for_backoff n p urls clock f backoff s idx attempt o now s1 :
  init n p urls clock = Ok f -> reachable (new_supervisor f backoff) s ->
  in_flight s !! idx = Some (Running attempt) -> restart_finish idx o now s = Ok s1 ->
  match o with
  | EngineUp _ => exists sh, shards (fleet s1) !! idx = Some sh /\
      (state sh = STALE \/ state sh = RETIRED)
  | RestartFailed _ _ =>
      (exists sh, shards (fleet s1) !! idx = Some sh /\ (state sh = DEAD \/ state sh = RETIRED)) /\
      forall s2 now2, steps_without_finish idx s1 s2 -> idx ∈ restartable_shards now2 s2 ->
        now + restart_backoff s <= now2 /\ in_flight s2 !! idx = None /\
        exists sh, shards (fleet s2) !! idx = Some sh /\ state sh = DEAD
  | Escaped => fleet s1 = fleet s
  end.
Proof.
  intros Hi Hr Hf H. destruct (supervisor_reachable_inv _ _ _ _ _ _ _ Hi Hr) as (Hv & _ & _).
  destruct (finish_inv _ _ _ _ _ _ Hv Hf H) as [Hv1 _].
  assert (forall e g, apply e (fleet s) = Ok g -> target e = idx -> exists sh,
    shards g !! idx = Some (shard_next (policy (fleet s)) e sh)) as Hw.
  { intros e g Ha <-. rewrite apply_spec in Ha. destruct (shards (fleet s) !! target e) as [sh|] eqn:E; [|done].
    injection Ha as <-. exists sh. rewrite settle_shards, list_lookup_insert_eq; [done|by eapply lookup_lt_Some]. }
  destruct o as [url|to reason|]; cbn [restart_finish] in H; [..|by injection H as <-];
    apply bind_Ok in H as (g & Hm & [= <-]); cbn [fleet].
  - destruct (Hw (EvLoaded idx url) g Hm eq_refl) as [sh Hsh]. eexists. split; [exact Hsh|]. cbn.
    destruct (decide _); [by right|by left].
  - destruct (Hw (EvRestartFailed idx reason) g Hm eq_refl) as [sh Hsh]. split.
    + eexists. split; [exact Hsh|]. cbn. destruct (decide _); [by right|by left].
    + intros s2 now2 Hsteps Hin. set (s1 := mkSupervisor _ _ _ _ _ _ _ _) in *.
      assert (inv s2 /\ retry_not_before s2 !! idx = Some (now + restart_backoff s)) as [Hv2 Hr2].
      { clear Hin. induction Hsteps as [|s2 s3 _ [IHv IHr] Hst]; [split; [done|apply lookup_insert_eq]|].
        destruct (step_without_finish_keeps idx s2 s3 IHv Hst) as [? ->]. done. }
      apply elem_of_restartable in Hin as (sh2 & H2 & Hd & Hfl & Hn); [|apply Hv2].
      rewrite Hr2 in Hn. cbn in Hn. eauto.
Qed.

(** ** Witnesses

    Engine 1 of two dies, a tick starts its restart, and the restart times
    out. *)
Definition or_same (s : Supervisor) (r : res Supervisor) : Supervisor :=
  match r with Ok s' => s' | Raise _ => s end.

Definition demo_fresh : Supervisor := new_supervisor two_shards 60.
Definition demo_dead : Supervisor := with_fleet (run [EvActorDeath 1 "gone"] two_shards) demo_fresh.
Definition demo_running : Supervisor := or_same demo_dead (tick 10 demo_dead).
Definition demo_failed : Supervisor :=
  or_same demo_running (restart_finish 1 (RestartFailed true "timeout") 100 demo_running).

Lemma demo_running_reachable : reachable demo_fresh demo_running.
Proof.
  apply (reachable_step _ demo_dead); [|by apply (step_tick 10)].
  apply (reachable_step _ demo_fresh); [constructor|]. by apply (step_event (EvActorDeath 1 "gone")).
Qed.

Lemma restart_budget_bounds_the_run_witness :
  restarts_started demo_failed = 1 /\ restarts_timed_out demo_failed <= restarts_failed demo_failed /\
  restarts_started demo_failed <= 2 * Z.max 0 5.
Proof.
  destruct (restart_budget_bounds_the_run 2 (mkPolicy 3 2 5 1) None (fun _ => 0) two_shards 60 demo_failed)
    as (_ & H1 & _ & H2 & _).
  - reflexivity.
  - apply (reachable_step _ demo_running); [exact demo_running_reachable|].
    by apply (step_finish 1 1 (RestartFailed true "timeout") 100).
  - split; [reflexivity|]. split; [apply H2|exact H1].
Defined.

(** After the done callback, a tick at time 160 picks the shard up again. *)
Lemma failed_restart_waits_for_backoff_witness :
  let s2 := forget 1 demo_failed in
  restartable_shards 160 s2 = [1%nat] /\ 100 + 60 <= 160 /\ in_flight s2 !! 1%nat = None.
Proof.
  destruct (failed_restart_waits_for_backoff 2 (mkPolicy 3 2 5 1) None (fun _ => 0) two_shards 60
    demo_running 1 1 (RestartFailed true "timeout") 100 demo_failed) as [_ H].
  - reflexivity.
  - exact demo_running_reachable.
  - reflexivity.
  - reflexivity.
  - destruct (H (forget 1 demo_failed) 160) as (H1 & H2 & _).
    + apply (more_steps _ _ demo_failed); [constructor|]. by constructor.
    + vm_compute. constructor.
    + split; [reflexivity|]. split; [exact H1|exact H2].
Defined.
