(* ===== verification/Recovery.v ===== *)
(** * The records of the rollout recovery ledger

    Models the data of [src/nemo_rl/experience/rollout_recovery.py]: the
    lifecycle states, the attempts, siblings and prompt groups, their derived
    identities, the proof of staging custody a terminal receipt has to give,
    and, from [experience/reward_penalties.py] and
    [environments/checkpointing/interfaces.py], the records they hold. *)

From S2P Require Import Prelude PyVal PyStr.
From Stdlib Require Import Ascii.

Abbreviation dict := (list (PyVal * PyVal)) (only parsing).

(** ** Lifecycle states *)
Module PromptGroupPhase.
Inductive PromptGroupPhase := RESERVED | ADMITTED.

#[export] Instance phase_eq_dec : EqDecision PromptGroupPhase.
Proof. solve_decision. Defined.
End PromptGroupPhase.
Export (hints) PromptGroupPhase.
Abbreviation PromptGroupPhase := PromptGroupPhase.PromptGroupPhase.

Module RecoveryGranularity.
Inductive RecoveryGranularity := SIBLING | PROMPT_GROUP.

#[export] Instance granularity_eq_dec : EqDecision RecoveryGranularity.
Proof. solve_decision. Defined.
End RecoveryGranularity.
Export (hints) RecoveryGranularity.
Abbreviation RecoveryGranularity := RecoveryGranularity.RecoveryGranularity.

Module RecoveryTargetLevel.
Inductive RecoveryTargetLevel := TURN | SIBLING | PROMPT_GROUP.

#[export] Instance level_eq_dec : EqDecision RecoveryTargetLevel.
Proof. solve_decision. Defined.
End RecoveryTargetLevel.
Export (hints) RecoveryTargetLevel.
Abbreviation RecoveryTargetLevel := RecoveryTargetLevel.RecoveryTargetLevel.

Module RolloutAttemptStatus.
Inductive RolloutAttemptStatus := RESERVED | DISPATCHED | SEALED | FAILED | ABANDONED.

#[export] Instance attempt_status_eq_dec : EqDecision RolloutAttemptStatus.
Proof. solve_decision. Defined.
End RolloutAttemptStatus.
Export (hints) RolloutAttemptStatus.
Abbreviation RolloutAttemptStatus := RolloutAttemptStatus.RolloutAttemptStatus.

Module PromptGroupStatus.
Inductive PromptGroupStatus :=
| GENERATING | READY_TO_FINALIZE | FINALIZING | FINALIZATION_UNKNOWN.

#[export] Instance group_status_eq_dec : EqDecision PromptGroupStatus.
Proof. solve_decision. Defined.
End PromptGroupStatus.
Export (hints) PromptGroupStatus.
Abbreviation PromptGroupStatus := PromptGroupStatus.PromptGroupStatus.

(** [RecoveryTargetLevel.granularity]. *)
Definition granularity (l : RecoveryTargetLevel) : RecoveryGranularity :=
  if decide (l = RecoveryTargetLevel.PROMPT_GROUP) then RecoveryGranularity.PROMPT_GROUP
  else RecoveryGranularity.SIBLING.

(** [RecoveryTargetLevel.rank]: the position in declaration order. *)
Definition rank (l : RecoveryTargetLevel) : nat :=
  match l with
  | RecoveryTargetLevel.TURN => 0
  | RecoveryTargetLevel.SIBLING => 1
  | RecoveryTargetLevel.PROMPT_GROUP => 2
  end.

(** ** Environment episodes *)
Record EnvironmentEpisode := mkEpisode { rollout_id : string; attempt : Z }.

#[export] Instance episode_eq_dec : EqDecision EnvironmentEpisode.
Proof. solve_decision. Defined.

#[export] Program Instance episode_countable : Countable EnvironmentEpisode :=
  inj_countable' (fun e => (rollout_id e, attempt e)) (fun p => mkEpisode p.1 p.2) _.
Next Obligation. by intros []. Qed.

(** [__post_init__]. *)
Definition new_episode (id : string) (n : Z) : res EnvironmentEpisode :=
  _ ← raise_if (bool_decide (id = "")) ValueError;
  _ ← raise_if (n <? 0) ValueError;
  Ok (mkEpisode id n).

(** [<]: the order of the field tuples. *)
Definition episode_ltb (a b : EnvironmentEpisode) : bool :=
  match String.compare (rollout_id a) (rollout_id b) with
  | Lt => true
  | Eq => attempt a <? attempt b
  | Gt => false
  end.

Definition capture_key (e : EnvironmentEpisode) : string :=
  if attempt e =? 0 then rollout_id e
  else rollout_id e +:+ "-a" +:+ str_of_int (attempt e).

Definition next_attempt (e : EnvironmentEpisode) : res EnvironmentEpisode :=
  new_episode (rollout_id e) (attempt e + 1).

(** ** Records saved with an attempt *)
Record RewardChecks := mkChecks {
  duplicated_reasoning : bool;
  empty_final_answer : bool;
  low_effort : bool }.

Record RewardLogContext := mkLogContext {
  agent_name : string;
  full_result_json : option string }.

Record ActionOutputFlags := mkFlags { invalid_tool_call : bool; malformed_thinking : bool }.

Record RolloutSelection := mkSelection {
  response_ids : list string;
  action_flags : list ActionOutputFlags;
  truncated : bool }.

#[export] Instance checks_eq_dec : EqDecision RewardChecks.
Proof. solve_decision. Defined.
#[export] Instance log_context_eq_dec : EqDecision RewardLogContext.
Proof. solve_decision. Defined.
#[export] Instance flags_eq_dec : EqDecision ActionOutputFlags.
Proof. solve_decision. Defined.
#[export] Instance selection_eq_dec : EqDecision RolloutSelection.
Proof. solve_decision. Defined.

Record PromptRef := mkPromptRef { sample_id : string; task_name : option string }.

#[export] Instance prompt_ref_eq_dec : EqDecision PromptRef.
Proof. solve_decision. Defined.

(** [PromptRef.__post_init__]. *)
Definition new_prompt_ref (id : string) (task : option string) : res PromptRef :=
  _ ← raise_if (bool_decide (id = "")) ValueError; Ok (mkPromptRef id task).

Record RolloutAttemptRecord := mkAttempt {
  attempt_uuid : uuid;
  attempt_status : RolloutAttemptStatus;
  receipt : option dict;
  reward : option pyfloat;
  mask_sample : option bool;
  reward_checks : option RewardChecks;
  reward_log_context : option RewardLogContext;
  staging_keys : list string;
  logical_selection : option RolloutSelection;
  environment_instance_id : option string;
  environment_attempt : Z }.

(** The attempts of a sibling, oldest first.  There is always one: a new
    sibling gets an attempt, a restored one must have some, and attempts are
    only appended; so [current_attempt] finds its last. *)
Record RolloutSiblingRecord := mkSibling {
  generation_index : nat;
  past_attempts : list RolloutAttemptRecord;
  current_attempt : RolloutAttemptRecord }.

Definition attempts (s : RolloutSiblingRecord) : list RolloutAttemptRecord :=
  past_attempts s ++ [current_attempt s].

Record PromptGroupRecoveryRecord := mkGroup {
  group_id : string;
  admission_id : string;
  prompt_id : string;
  prompt_ref : PromptRef;
  task_source : option string;
  restore_level : RecoveryTargetLevel;
  runtime_prompt_payload : option dict;
  expected_generations : Z;
  target_step : option Z;
  start_weight_version : Z;
  siblings : list RolloutSiblingRecord;
  phase : PromptGroupPhase;
  status : PromptGroupStatus;
  resolved_agent_name : option string;
  attribution_key : option string }.

(** One terminal sibling result of an atomic seal.  [s_mask_sample] is what
    the caller passed, checked to be a [bool]. *)
Record SiblingSealResult := mkSealResult {
  s_gate_rollout_id : string;
  s_receipt : option dict;
  s_reward : pyfloat;
  s_mask_sample : PyVal;
  s_reward_checks : option RewardChecks;
  s_reward_log_context : option RewardLogContext;
  s_logical_selection : option RolloutSelection;
  s_resolved_agent_name : option string;
  s_attribution_key : option string }.

(** ** Derived views *)

(** [RolloutAttemptRecord.holds_environment_state]. *)
Definition holds_environment_state (a : RolloutAttemptRecord) : bool :=
  bool_decide (attempt_status a = RolloutAttemptStatus.DISPATCHED)
  || (bool_decide (attempt_status a = RolloutAttemptStatus.RESERVED) && (0 <? environment_attempt a)).

Definition recovery_granularity (g : PromptGroupRecoveryRecord) : RecoveryGranularity :=
  granularity (restore_level g).

Definition prompt_payload (g : PromptGroupRecoveryRecord) : res dict :=
  match runtime_prompt_payload g with Some p => Ok p | None => Raise RuntimeError end.

Definition logical_rollout_id (gid : string) (i : nat) : string :=
  gid +:+ "_g" +:+ str_of_nat i.

(** The rollout ID of an attempt, the same for every environment attempt. *)
Definition base_gate_id (gid : string) (i : nat) (u : uuid) : string :=
  logical_rollout_id gid i +:+ "_a" +:+ hex u.

(** [environment_episode] of a sibling at its position. *)
Definition episode_at (gid : string) (i : nat) (a : RolloutAttemptRecord) : EnvironmentEpisode :=
  mkEpisode (base_gate_id gid i (attempt_uuid a)) (environment_attempt a).

Definition environment_episode (g : PromptGroupRecoveryRecord) (i : nat) : res EnvironmentEpisode :=
  s ← get_index (siblings g) i;
  new_episode (base_gate_id (group_id g) i (attempt_uuid (current_attempt s)))
    (environment_attempt (current_attempt s)).

Definition gate_rollout_id (g : PromptGroupRecoveryRecord) (i : nat) : res string :=
  capture_key <$> environment_episode g i.

Definition logical_rollout_ids (g : PromptGroupRecoveryRecord) : list string :=
  (fun s => logical_rollout_id (group_id g) (generation_index s)) <$> siblings g.

Definition gate_rollout_ids (g : PromptGroupRecoveryRecord) : res (list string) :=
  traverse (fun s => gate_rollout_id g (generation_index s)) (siblings g).

Definition is_sealed (s : RolloutSiblingRecord) : bool :=
  bool_decide (attempt_status (current_attempt s) = RolloutAttemptStatus.SEALED).

Definition all_sealed (g : PromptGroupRecoveryRecord) : bool := forallb is_sealed (siblings g).

Definition sealed_generation_indices (g : PromptGroupRecoveryRecord) : list nat :=
  generation_index <$> List.filter is_sealed (siblings g).

Definition continues (s : RolloutSiblingRecord) : bool :=
  bool_decide (attempt_status (current_attempt s) = RolloutAttemptStatus.RESERVED)
  && (0 <? environment_attempt (current_attempt s)).

Definition continued_generation_indices (g : PromptGroupRecoveryRecord) : list nat :=
  generation_index <$> List.filter continues (siblings g).

Definition holds_environment_episode (g : PromptGroupRecoveryRecord) (s : RolloutSiblingRecord)
    : bool :=
  bool_decide (status g = PromptGroupStatus.GENERATING)
  && bool_decide (restore_level g = RecoveryTargetLevel.TURN)
  && holds_environment_state (current_attempt s).

(** [_parse_environment_rollout_id]. *)
Definition parse_environment_rollout_id (id : string) : option (string * nat) :=
  '(logical, _) ← rpartition "_a" id;
  '(gid, index) ← rpartition "_g" logical;
  if isdigit index then (fun n => (gid, n)) <$> int_of_digits index else None.

(** [_new_attempt], with the UUID it draws. *)
Definition new_attempt (u : uuid) : RolloutAttemptRecord :=
  mkAttempt u RolloutAttemptStatus.RESERVED None None None None None [] None None 0.

(** ** [_validate_prompt_identity] *)
Definition prompt_task_name (payload : dict) : res (option string) :=
  match default VNone (dict_get "task_name" payload) with
  | VNone => Ok None
  | VStr t => Ok (Some t)
  | _ => Raise TypeError
  end.

Definition validate_prompt_identity (ref : PromptRef) (payload : dict) : res unit :=
  match default VNone (dict_get "idx" payload) with
  | VInt id =>
      _ ← raise_if (negb (bool_decide (str_of_int id = sample_id ref))) ValueError;
      task ← prompt_task_name payload;
      raise_if (negb (bool_decide (task = task_name ref))) ValueError
  | _ => Raise ValueError
  end.

(** ** The selection's state *)

Definition flags_to_state (f : ActionOutputFlags) : PyVal :=
  str_dict [("invalid_tool_call", VBool (invalid_tool_call f));
            ("malformed_thinking", VBool (malformed_thinking f))].

(** [dataclasses.asdict]. *)
Definition selection_to_state (s : RolloutSelection) : PyVal :=
  str_dict [("response_ids", VTuple (VStr <$> response_ids s));
            ("action_flags", VTuple (flags_to_state <$> action_flags s));
            ("truncated", VBool (truncated s))].

Definition response_from_state (v : PyVal) : option string :=
  match v with VStr s => if decide (s = "") then None else Some s | _ => None end.

Definition flags_from_state (v : PyVal) : option ActionOutputFlags :=
  match v with
  | VDict d =>
      if exact_keys d ["invalid_tool_call"; "malformed_thinking"] then
        match dict_get "invalid_tool_call" d, dict_get "malformed_thinking" d with
        | Some (VBool a), Some (VBool b) => Some (mkFlags a b)
        | _, _ => None
        end
      else None
  | _ => None
  end.

Definition selection_from_state (raw : PyVal) : res (option RolloutSelection) :=
  match raw with
  | VNone => Ok None
  | VDict d =>
      _ ← raise_if (negb (exact_keys d ["response_ids"; "action_flags"; "truncated"])) ValueError;
      match dict_get "response_ids" d, dict_get "action_flags" d, dict_get "truncated" d with
      | Some (VTuple responses), Some (VTuple flags), Some (VBool t) =>
          match mapM response_from_state responses, mapM flags_from_state flags with
          | Some rs, Some fs =>
              _ ← raise_if (negb (bool_decide (NoDup rs))
                            || negb (length fs =? length rs)%nat) ValueError;
              Ok (Some (mkSelection rs fs t))
          | _, _ => Raise ValueError
          end
      | _, _, _ => Raise ValueError
      end
  | _ => Raise ValueError
  end.

(** ** Staging custody

    [staging_key] is the environment package's: the key it stages a call
    under. *)
Section custody.
Context (staging_key : PyVal -> string -> res string).

(** [set(v)]. *)
Definition py_set (v : PyVal) : res (list PyVal) :=
  items ← py_iter v;
  _ ← raise_if (negb (forallb hashable items)) TypeError;
  Ok items.

(** [entry["staging_key"]] of one manifest entry. *)
Definition entry_key (v : PyVal) : res (dict * string) :=
  match v with
  | VDict e => match dict_get "staging_key" e with
               | Some (VStr k) => Ok (e, k)
               | _ => Raise ValueError
               end
  | _ => Raise ValueError
  end.

Definition receipt_manifest (r : dict) : res (list (dict * string)) :=
  match dict_get "manifest" r with
  | Some (VList m) => traverse entry_key m
  | _ => Raise ValueError
  end.

(** A value usable as a path component. *)
Definition call_identity (v : PyVal) : option string :=
  match v with
  | VStr s => if bool_decide (s = "") || has_char "/"%char s then None else Some s
  | _ => None
  end.

(** The loop over the attempted calls. *)
Fixpoint attempted_keys (owner : PyVal) (pending attempted : list PyVal) : res (list string) :=
  match attempted with
  | [] => Ok []
  | call :: rest =>
      match call_identity call with
      | None => Raise ValueError
      | Some c =>
          ks ← (if py_in call pending then Ok []
                else (fun k => [k]) <$> staging_key owner c);
          rest_ks ← attempted_keys owner pending rest;
          Ok (ks ++ rest_ks)
      end
  end.

(** [any(entry.get("model_call_id") in pending for entry in manifest)]. *)
Fixpoint any_pending (pending : list PyVal) (entries : list (dict * string)) : res bool :=
  match entries with
  | [] => Ok false
  | (e, _) :: rest =>
      let call := default VNone (dict_get "model_call_id" e) in
      if negb (hashable call) then Raise TypeError
      else if py_in call pending then Ok true else any_pending pending rest
  end.

Definition receipt_staging_keys (receipt : option dict) : res (list string) :=
  match receipt with
  | None => Ok []
  | Some r =>
      pending ← py_set (default (VList []) (dict_get "pending_call_ids" r));
      _ ← raise_if (negb (bool_decide (pending = []))
                    && negb (truthy (default VNone (dict_get "capture_poisoned" r))))
            UnresolvedCaptureAcknowledgement;
      entries ← receipt_manifest r;
      let owner := default VNone (dict_get "capture_key" r) in
      attempted ← py_set (default (VList []) (dict_get "attempted_call_ids" r));
      _ ← raise_if (negb (forallb (fun c => py_in c attempted) pending)) ValueError;
      stored ← any_pending pending entries;
      _ ← raise_if stored ValueError;
      calls ← attempted_keys owner pending attempted;
      Ok (fromkeys [] (entries.*2 ++ calls))
  end.

(** One manifest entry of a Forest receipt stages under its own attempt. *)
Definition own_entry (gate_id : string) (entry : dict * string) : bool :=
  match call_identity (default VNone (dict_get "model_call_id" entry.1)) with
  | Some c => String.eqb entry.2 (gate_id +:+ "/" +:+ c)
  | None => false
  end.

Definition attempt_staging_keys (gate_id : string) (receipt : option dict)
    (selection : option RolloutSelection) : res (list string) :=
  _ ← match receipt with
      | Some r => raise_if (negb (is_str gate_id (default VNone (dict_get "capture_key" r)))) ValueError
      | None => Ok tt
      end;
  keys ← receipt_staging_keys receipt;
  match selection with
  | None => Ok keys
  | Some sel =>
      _ ← selection_from_state (selection_to_state sel);
      match receipt with
      | None => Raise ValueError
      | Some r =>
          _ ← raise_if (bool_decide (response_ids sel = [])
                        && negb (truthy (default VNone (dict_get "capture_poisoned" r)))) ValueError;
          entries ← receipt_manifest r;
          _ ← raise_if (negb (forallb (own_entry gate_id) entries)) ValueError;
          _ ← raise_if (negb (bool_decide (NoDup entries.*2))) ValueError;
          Ok keys
      end
  end.
End custody.

(** ** Log contexts

    [json_object s] stands for [json.loads(s)] returning an object. *)
Section log_context.
Context (json_object : string -> bool).

(** [RewardLogContext.__post_init__]. *)
Definition log_context_ok (c : RewardLogContext) : bool :=
  negb (bool_decide (agent_name c = ""))
  && match full_result_json c with Some j => json_object j | None => true end.
End log_context.

(** ** Identities *)

Lemma no_underscore_hex s :
  all_chars (fun a => negb (Ascii.eqb a "_"%char)) (hex s) = true.
Proof.
  eapply all_chars_impl; [|apply hex_digits]. intros a.
  destruct a as [[] [] [] [] [] [] [] []]; try done.
Qed.

Lemma no_underscore_digits n :
  all_chars (fun a => negb (Ascii.eqb a "_"%char)) (str_of_nat n) = true.
Proof.
  eapply all_chars_impl; [|apply str_of_nat_digits]. intros a.
  destruct a as [[] [] [] [] [] [] [] []]; try done.
Qed.

(** The rollout ID of an attempt names its group and its sibling. *)
Lemma parse_base_gate_id gid i u :
  parse_environment_rollout_id (base_gate_id gid i u) = Some (gid, i).
Proof.
  unfold parse_environment_rollout_id, base_gate_id, logical_rollout_id.
  rewrite (rpartition_last "_"%char "a") by (rewrite all_chars_app, no_underscore_hex; done).
  cbn [mbind option_bind].
  rewrite (rpartition_last "_"%char "g") by (rewrite all_chars_app, no_underscore_digits; done).
  cbn [mbind option_bind]. by rewrite isdigit_str_of_nat, int_of_str_of_nat.
Qed.

Lemma base_gate_id_inj gid i u gid' i' u' :
  base_gate_id gid i u = base_gate_id gid' i' u' -> gid = gid' /\ i = i' /\ u = u'.
Proof.
  intros H. pose proof (parse_base_gate_id gid i u) as H1. rewrite H, parse_base_gate_id in H1.
  injection H1 as -> ->. split; [done|]. split; [done|].
  unfold base_gate_id in H. apply string_append_inj_l in H.
  apply (string_append_inj_l "_a") in H. by apply hex_inj.
Qed.

Lemma base_gate_id_nonempty gid i u : base_gate_id gid i u <> "".
Proof. intros H. pose proof (parse_base_gate_id gid i u) as Hp. by rewrite H in Hp. Qed.

Lemma new_episode_Ok id n : id <> "" -> 0 <= n -> new_episode id n = Ok (mkEpisode id n).
Proof.
  intros Hid Hn. unfold new_episode. rewrite bool_decide_eq_false_2 by done.
  by rewrite (proj2 (Z.ltb_ge n 0)).
Qed.

Lemma environment_episode_at g i s :
  siblings g !! i = Some s -> 0 <= environment_attempt (current_attempt s) ->
  environment_episode g i = Ok (episode_at (group_id g) i (current_attempt s)).
Proof.
  intros Hi Hn. unfold environment_episode, get_index. rewrite Hi. cbn [mbind res_bind].
  apply new_episode_Ok; [apply base_gate_id_nonempty|done].
Qed.

Lemma selection_round_trip sel :
  selection_from_state (selection_to_state sel) = Ok (Some sel) <->
  Forall (fun r => r <> "") (response_ids sel) /\ NoDup (response_ids sel) /\
  length (action_flags sel) = length (response_ids sel).
Proof.
  destruct sel as [rs fs t]. unfold selection_to_state, selection_from_state. cbn [str_dict List.map].
  cbn [response_ids action_flags truncated].
  assert (mapM flags_from_state (flags_to_state <$> fs) = Some fs) as Hf.
  { induction fs as [|[a b] fs IH]; [done|]. cbn in *. by rewrite IH. }
  assert (Forall (fun r => r <> "") rs <-> mapM response_from_state (VStr <$> rs) = Some rs) as Hr.
  { induction rs as [|r rs IH]; [by split|]. rewrite Forall_cons.
    assert (mapM response_from_state (VStr <$> r :: rs) =
      if decide (r = "") then None
      else l ← mapM response_from_state (VStr <$> rs); Some (r :: l)) as ->
      by (cbn; by destruct (decide (r = ""))).
    destruct (decide (r = "")) as [->|Hne]; [split; [naive_solver|done]|]. rewrite IH.
    destruct (mapM response_from_state (VStr <$> rs)); cbn; naive_solver. }
  cbn. rewrite Hf. destruct (mapM response_from_state (VStr <$> rs)) as [rs'|] eqn:E.
  - rewrite bind_Ok. setoid_rewrite raise_if_Ok.
    split.
    + intros (_ & Hb & [= ->]). rewrite orb_false_iff, negb_false_iff, negb_false_iff in Hb.
      destruct Hb as [Hn Hl]. apply bool_decide_eq_true in Hn. apply Nat.eqb_eq in Hl.
      split; [by apply Hr|done].
    + intros (H1 & H2 & H3). apply Hr in H1. injection H1 as ->. exists tt.
      rewrite bool_decide_eq_true_2 by done. rewrite H3, Nat.eqb_refl. done.
  - split; [done|]. intros (H1 & _). by apply Hr in H1.
Qed.
