(* ===== verification/RecoveryLedger.v ===== *)
(** * The rollout recovery ledger

    Models [RolloutRecoveryLedger] of
    [src/nemo_rl/experience/rollout_recovery.py]: every operation of the
    ledger, on a state that survives exceptions.  [live] says whether the
    data-plane cut an operation was given is still live; [fresh] supplies the
    UUIDs [uuid4] draws, by generation index.  The calls of the event sink are
    a trace; a copy handed to a caller is the record itself. *)

From S2P Require Import Prelude PyVal PyStr StateErr Recovery.

(** One call of the event sink. *)
Record RolloutEvent := mkEvent {
  ev_name : string;
  ev_group : string;
  ev_prompt : string;
  (* generation_index, attempt, environment_attempt, environment_instance_id *)
  ev_attempt : option (nat * nat * Z * option string);
  ev_fields : list (string * PyVal) }.

Record RolloutRecoveryLedger := mkLedger {
  groups : list (string * PromptGroupRecoveryRecord);
  retirements : gmap string (gset EnvironmentEpisode);
  forgets : gmap string (gset EnvironmentEpisode);
  event_sink : bool;
  reported : list RolloutEvent }.

(** [__init__]. *)
Definition new_ledger : RolloutRecoveryLedger := mkLedger [] ∅ ∅ false [].

Definition with_groups gs (l : RolloutRecoveryLedger) : RolloutRecoveryLedger :=
  mkLedger gs (retirements l) (forgets l) (event_sink l) (reported l).
Definition with_retirements m (l : RolloutRecoveryLedger) : RolloutRecoveryLedger :=
  mkLedger (groups l) m (forgets l) (event_sink l) (reported l).
Definition with_forgets m (l : RolloutRecoveryLedger) : RolloutRecoveryLedger :=
  mkLedger (groups l) (retirements l) m (event_sink l) (reported l).
Definition set_event_sink (on : bool) (l : RolloutRecoveryLedger) : RolloutRecoveryLedger :=
  mkLedger (groups l) (retirements l) (forgets l) on (reported l).
Definition report (e : RolloutEvent) (l : RolloutRecoveryLedger) : RolloutRecoveryLedger :=
  mkLedger (groups l) (retirements l) (forgets l) (event_sink l) (reported l ++ [e]).

(** ** Record updates *)
Definition with_siblings ss (g : PromptGroupRecoveryRecord) : PromptGroupRecoveryRecord :=
  mkGroup (group_id g) (admission_id g) (prompt_id g) (prompt_ref g) (task_source g)
    (restore_level g) (runtime_prompt_payload g) (expected_generations g) (target_step g)
    (start_weight_version g) ss (phase g) (status g) (resolved_agent_name g) (attribution_key g).
Definition with_status st (g : PromptGroupRecoveryRecord) : PromptGroupRecoveryRecord :=
  mkGroup (group_id g) (admission_id g) (prompt_id g) (prompt_ref g) (task_source g)
    (restore_level g) (runtime_prompt_payload g) (expected_generations g) (target_step g)
    (start_weight_version g) (siblings g) (phase g) st (resolved_agent_name g) (attribution_key g).
Definition with_names agent key (g : PromptGroupRecoveryRecord) : PromptGroupRecoveryRecord :=
  mkGroup (group_id g) (admission_id g) (prompt_id g) (prompt_ref g) (task_source g)
    (restore_level g) (runtime_prompt_payload g) (expected_generations g) (target_step g)
    (start_weight_version g) (siblings g) (phase g) (status g) agent key.
Definition with_admission target start (g : PromptGroupRecoveryRecord) : PromptGroupRecoveryRecord :=
  mkGroup (group_id g) (admission_id g) (prompt_id g) (prompt_ref g) (task_source g)
    (restore_level g) (runtime_prompt_payload g) (expected_generations g) target
    start (siblings g) PromptGroupPhase.ADMITTED (status g) (resolved_agent_name g)
    (attribution_key g).
Definition with_payload payload (g : PromptGroupRecoveryRecord) : PromptGroupRecoveryRecord :=
  mkGroup (group_id g) (admission_id g) (prompt_id g) (prompt_ref g) (task_source g)
    (restore_level g) payload (expected_generations g) (target_step g)
    (start_weight_version g) (siblings g) (phase g) (status g) (resolved_agent_name g)
    (attribution_key g).

Definition with_attempt_status st (a : RolloutAttemptRecord) : RolloutAttemptRecord :=
  mkAttempt (attempt_uuid a) st (receipt a) (reward a) (mask_sample a) (reward_checks a)
    (reward_log_context a) (staging_keys a) (logical_selection a) (environment_instance_id a)
    (environment_attempt a).
(** [attempt.environment_attempt += 1] and back to reserved. *)
Definition resume_attempt (a : RolloutAttemptRecord) : RolloutAttemptRecord :=
  mkAttempt (attempt_uuid a) RolloutAttemptStatus.RESERVED (receipt a) (reward a) (mask_sample a)
    (reward_checks a) (reward_log_context a) (staging_keys a) (logical_selection a)
    (environment_instance_id a) (environment_attempt a + 1).
Definition with_instance inst (a : RolloutAttemptRecord) : RolloutAttemptRecord :=
  mkAttempt (attempt_uuid a) (attempt_status a) (receipt a) (reward a) (mask_sample a)
    (reward_checks a) (reward_log_context a) (staging_keys a) (logical_selection a) inst
    (environment_attempt a).
(** Dropping the sealed data. *)
Definition clear_result (a : RolloutAttemptRecord) : RolloutAttemptRecord :=
  mkAttempt (attempt_uuid a) (attempt_status a) None None None None None [] None
    (environment_instance_id a) (environment_attempt a).
(** Storing a terminal result. *)
Definition seal_attempt receipt reward mask checks context keys selection
    (a : RolloutAttemptRecord) : RolloutAttemptRecord :=
  mkAttempt (attempt_uuid a) RolloutAttemptStatus.SEALED receipt (Some reward) (Some mask) checks
    context keys selection (environment_instance_id a) (environment_attempt a).

Definition with_current (f : RolloutAttemptRecord -> RolloutAttemptRecord)
    (s : RolloutSiblingRecord) : RolloutSiblingRecord :=
  mkSibling (generation_index s) (past_attempts s) (f (current_attempt s)).
(** [sibling.attempts.append(a)]. *)
Definition append_attempt (a : RolloutAttemptRecord) (s : RolloutSiblingRecord)
    : RolloutSiblingRecord :=
  mkSibling (generation_index s) (attempts s) a.

(** [statuses] tests. *)
Definition given_up (st : RolloutAttemptStatus) : bool :=
  bool_decide (st = RolloutAttemptStatus.ABANDONED \/ st = RolloutAttemptStatus.FAILED).
Definition status_is (st : RolloutAttemptStatus) (a : RolloutAttemptRecord) : bool :=
  bool_decide (attempt_status a = st).

(** ** Working on one record

    An operation on a group runs on the record and the rest of the ledger;
    what it did to the record stays when it raises. *)
Abbreviation GS := (PromptGroupRecoveryRecord * RolloutRecoveryLedger)%type (only parsing).

(** [_require_group]. *)
Definition require_group (gid : string) (l : RolloutRecoveryLedger)
    : res PromptGroupRecoveryRecord :=
  match kv_get gid (groups l) with Some g => Ok g | None => Raise ValueError end.

Definition on_group {A} (gid : string) (body : SE GS A) : SE RolloutRecoveryLedger A := fun l =>
  match require_group gid l with
  | Ok g => let '(g', l', r) := body (g, l) in (with_groups (kv_set gid g' (groups l')) l', r)
  | Raise e => (l, Raise e)
  end.

Definition record : SE GS PromptGroupRecoveryRecord := g ← get; mret g.1.
Definition on_record (f : PromptGroupRecoveryRecord -> PromptGroupRecoveryRecord) : SE GS unit :=
  modify (fun s => (f s.1, s.2)).
Definition on_ledger (f : RolloutRecoveryLedger -> RolloutRecoveryLedger) : SE GS unit :=
  modify (fun s => (s.1, f s.2)).
(** [record.siblings[i]] and a change of its attempts. *)
Definition sibling_at (i : nat) : SE GS RolloutSiblingRecord :=
  g ← record; lift (get_index (siblings g) i).
Definition on_sibling (i : nat) (f : RolloutSiblingRecord -> RolloutSiblingRecord) : SE GS unit :=
  on_record (fun g => with_siblings (alter f i (siblings g)) g).
Definition on_attempt (i : nat) (f : RolloutAttemptRecord -> RolloutAttemptRecord) : SE GS unit :=
  on_sibling i (with_current f).

(** [_require_sibling], as the position it finds. *)
Definition require_sibling (i : Z) (g : PromptGroupRecoveryRecord) : res nat :=
  _ ← raise_if (negb ((0 <=? i) && (i <? Z.of_nat (length (siblings g))))) ValueError;
  Ok (Z.to_nat i).

(** [_emit]. *)
Definition event_of (name : string) (g : PromptGroupRecoveryRecord) (i : option nat)
    (fields : list (string * PyVal)) : res RolloutEvent :=
  match i with
  | None => Ok (mkEvent name (group_id g) (prompt_id g) None fields)
  | Some i =>
      s ← get_index (siblings g) i;
      let a := current_attempt s in
      Ok (mkEvent name (group_id g) (prompt_id g)
            (Some (i, length (past_attempts s), environment_attempt a, environment_instance_id a))
            fields)
  end.

Definition emit (name : string) (i : option nat) (fields : list (string * PyVal)) : SE GS unit :=
  s ← get;
  if event_sink s.2 then
    e ← lift (event_of name s.1 i fields);
    on_ledger (report e)
  else mret tt.

(** The positions a loop over [record.siblings] visits. *)
Definition each_sibling (g : PromptGroupRecoveryRecord) : list nat := seq 0 (length (siblings g)).

Definition require_live {S} (live : bool) : SE S unit := guard (negb live) RuntimeError.

(** ** Reserving and admitting groups *)

(** [x or y] on optional strings. *)
Definition str_or (x : option string) (y : string) : string :=
  match x with Some s => if decide (s = "") then y else s | None => y end.

Definition reserve_group (live : bool) (prompt : string) (payload : dict) (expected : Z)
    (target : option Z) (start : Z) (source : option string) (level : RecoveryTargetLevel)
    (admitted : bool) (gid admission : option string) (ref : option PromptRef)
    (fresh_group : uuid) (fresh : nat -> uuid)
    : SE RolloutRecoveryLedger PromptGroupRecoveryRecord :=
  _ ← require_live live;
  _ ← guard (bool_decide (prompt = "")) ValueError;
  ref ← lift match ref with
             | Some r => Ok r
             | None => task ← prompt_task_name payload; new_prompt_ref prompt task
             end;
  _ ← guard (negb (bool_decide (sample_id ref = prompt))) ValueError;
  _ ← guard (expected <? 1) ValueError;
  let gid := str_or gid (uuid_str fresh_group) in
  l ← get;
  _ ← guard (bool_decide (gid ∈ (groups l).*1)) ValueError;
  let admission := str_or admission gid in
  _ ← guard (bool_decide (admission = "")) ValueError;
  let g := mkGroup gid admission prompt ref source level (Some payload) expected target start
    ((fun i => mkSibling i [] (new_attempt (fresh i))) <$> seq 0 (Z.to_nat expected))
    (if admitted then PromptGroupPhase.ADMITTED else PromptGroupPhase.RESERVED)
    PromptGroupStatus.GENERATING None None in
  _ ← modify (fun l => with_groups (kv_set gid g (groups l)) l);
  _ ← on_group gid (emit "group_reserved" None
        [("admission_id", VStr admission); ("target_step", opt_val VInt target);
         ("admitted", VBool admitted);
         ("restore_level", VStr (match level with
                                 | RecoveryTargetLevel.TURN => "turn"
                                 | RecoveryTargetLevel.SIBLING => "sibling"
                                 | RecoveryTargetLevel.PROMPT_GROUP => "prompt_group" end));
         ("expected_generations", VInt expected)]);
  mret g.

Definition mark_group_admitted (live : bool) (gid : string) (target : option Z) (start : Z)
    : SE RolloutRecoveryLedger unit :=
  _ ← require_live live;
  on_group gid (
    g ← record;
    _ ← guard (negb (bool_decide (phase g = PromptGroupPhase.RESERVED))) ValueError;
    _ ← on_record (with_admission target start);
    emit "group_admitted" None [("target_step", opt_val VInt target)]).

Definition bind_runtime_prompt (live : bool) (gid : string) (payload : dict)
    : SE RolloutRecoveryLedger unit :=
  _ ← require_live live;
  on_group gid (
    g ← record;
    _ ← lift (validate_prompt_identity (prompt_ref g) payload);
    on_record (with_payload (Some payload))).

(** ** Restart *)

Definition unsafe_status (st : PromptGroupStatus) : bool :=
  bool_decide (st = PromptGroupStatus.FINALIZING \/ st = PromptGroupStatus.FINALIZATION_UNKNOWN).

Definition assert_checkpoint_safe (l : RolloutRecoveryLedger) : res unit :=
  raise_if (existsb (fun p => unsafe_status (status p.2)) (groups l)) RuntimeError.

(** [_abandon_entire_group]. *)
Definition abandon_attempt_of_group (reason : string) (i : nat) : SE GS unit :=
  s ← sibling_at i;
  _ ← on_attempt i (with_attempt_status RolloutAttemptStatus.ABANDONED);
  _ ← (if given_up (attempt_status (current_attempt s)) then mret tt
       else emit "attempt_abandoned" (Some (generation_index s))
              [("reason", VStr reason); ("whole_group", VBool true)]);
  on_attempt i clear_result.

Definition abandon_entire_group (reason : string) : SE GS unit :=
  g ← record;
  _ ← for_in (each_sibling g) (abandon_attempt_of_group reason);
  on_record (with_status PromptGroupStatus.GENERATING).

(** An [(instance_id, rollout_id, attempt)] triple. *)
Abbreviation restore_key := (string * string * Z)%type (only parsing).

(** One sibling of a group that keeps its siblings; the restores it used. *)
Definition restart_sibling (restored : gset restore_key) (i : nat) : SE GS (gset restore_key) :=
  s ← sibling_at i;
  g ← record;
  let a := current_attempt s in
  let st := attempt_status a in
  if status_is RolloutAttemptStatus.SEALED a || given_up st then mret ∅
  else
    ep ← lift (environment_episode g (generation_index s));
    let key := (default "" (environment_instance_id a), rollout_id ep, attempt ep) in
    if bool_decide (restore_level g = RecoveryTargetLevel.TURN)
       && bool_decide (st = RolloutAttemptStatus.DISPATCHED \/ st = RolloutAttemptStatus.RESERVED)
       && negb (bool_decide (environment_instance_id a = None))
       && bool_decide (key ∈ restored)
    then
      _ ← on_attempt i resume_attempt;
      _ ← emit "attempt_resumed" (Some (generation_index s)) [];
      mret {[key]}
    else if bool_decide (st = RolloutAttemptStatus.RESERVED) && (environment_attempt a =? 0)
    then mret ∅
    else
      _ ← on_attempt i (with_attempt_status RolloutAttemptStatus.ABANDONED);
      _ ← emit "attempt_abandoned" (Some (generation_index s)) [("reason", VStr "restart")];
      mret ∅.

Definition restart_group (restored : gset restore_key) : SE GS (gset restore_key) :=
  g ← record;
  if negb (bool_decide (status g = PromptGroupStatus.GENERATING)) then mret ∅
  else if decide (recovery_granularity g = RecoveryGranularity.PROMPT_GROUP) then
    _ ← abandon_entire_group "restart"; mret ∅
  else
    used ← map_in (each_sibling g) (restart_sibling restored);
    mret (union_list used).

Definition prepare_for_restart (live : bool) (continued : option (gset restore_key))
    : SE RolloutRecoveryLedger unit :=
  _ ← require_live live;
  l ← get;
  _ ← lift (assert_checkpoint_safe l);
  let restored := default ∅ continued in
  used ← map_in (groups l).*1 (fun gid => on_group gid (restart_group restored));
  guard (negb (bool_decide (restored ∖ union_list used = ∅))) ValueError.

(** ** Environment custody *)

Definition add_episode (inst : string) (e : EnvironmentEpisode)
    (m : gmap string (gset EnvironmentEpisode)) : gmap string (gset EnvironmentEpisode) :=
  <[inst := {[e]} ∪ default ∅ (m !! inst)]> m.

(** [_record_environment_retirements]. *)
Definition retire_sibling (i : nat) : SE GS unit :=
  s ← sibling_at i;
  g ← record;
  let a := current_attempt s in
  match environment_instance_id a with
  | Some inst =>
      if holds_environment_state a then
        e ← lift (environment_episode g (generation_index s));
        on_ledger (fun l => with_retirements (add_episode inst e (retirements l)) l)
      else mret tt
  | None => mret tt
  end.

Definition record_environment_retirements : SE GS unit :=
  g ← record; for_in (each_sibling g) retire_sibling.

(** [environment_retirements] and [environment_forgets], of a pending map. *)
Definition pending_episodes (pending : gmap string (gset EnvironmentEpisode))
    (instance_ids : gset string) : res (gmap string (list EnvironmentEpisode)) :=
  _ ← raise_if (negb (bool_decide (dom pending ⊆ instance_ids))) RuntimeError;
  Ok (set_to_map (fun i => (i, py_sort episode_ltb (elements (default ∅ (pending !! i)))))
        instance_ids).

Definition environment_retirements (ids : gset string) (l : RolloutRecoveryLedger)
    : res (gmap string (list EnvironmentEpisode)) := pending_episodes (retirements l) ids.
Definition environment_forgets (ids : gset string) (l : RolloutRecoveryLedger)
    : res (gmap string (list EnvironmentEpisode)) := pending_episodes (forgets l) ids.

(** [pending.difference_update(episodes)], dropping an empty set. *)
Definition drop_episodes (inst : string) (es : gset EnvironmentEpisode)
    (m : gmap string (gset EnvironmentEpisode)) : gmap string (gset EnvironmentEpisode) :=
  match m !! inst with
  | None => m
  | Some p => if decide (p ∖ es = ∅) then delete inst m else <[inst := p ∖ es]> m
  end.

Definition mark_one_retired (l : RolloutRecoveryLedger) (p : string * list EnvironmentEpisode)
    : RolloutRecoveryLedger :=
  let es : gset EnvironmentEpisode := list_to_set p.2 in
  let l1 := if decide (es = ∅) then l
            else with_forgets (<[p.1 := es ∪ default ∅ (forgets l !! p.1)]> (forgets l)) l in
  with_retirements (drop_episodes p.1 es (retirements l1)) l1.

Definition mark_environment_retired (retired : list (string * list EnvironmentEpisode))
    (l : RolloutRecoveryLedger) : RolloutRecoveryLedger := foldl mark_one_retired l retired.

Definition mark_environment_forgotten (forgotten : list (string * list EnvironmentEpisode))
    (l : RolloutRecoveryLedger) : RolloutRecoveryLedger :=
  foldl (fun l p => with_forgets (drop_episodes p.1 (list_to_set p.2) (forgets l)) l) l forgotten.

(** [_record_environment_forget_if_restored]. *)
Definition record_environment_forget_if_restored (i : nat) : SE GS unit :=
  s ← sibling_at i;
  g ← record;
  let a := current_attempt s in
  match environment_instance_id a with
  | Some inst =>
      if 0 <? environment_attempt a then
        e ← lift (environment_episode g i);
        on_ledger (fun l => with_forgets (add_episode inst e (forgets l)) l)
      else mret tt
  | None => mret tt
  end.

(** The episodes one group lists in the inventory. *)
Fixpoint inventory_siblings (g : PromptGroupRecoveryRecord) (ss : list RolloutSiblingRecord)
    (inv : gmap string (list EnvironmentEpisode)) : res (gmap string (list EnvironmentEpisode)) :=
  match ss with
  | [] => Ok inv
  | s :: rest =>
      if negb (holds_environment_episode g s) then inventory_siblings g rest inv
      else match environment_instance_id (current_attempt s) with
           | None => Raise RuntimeError
           | Some inst =>
               match inv !! inst with
               | None => Raise RuntimeError
               | Some es =>
                   e ← environment_episode g (generation_index s);
                   inventory_siblings g rest (<[inst := es ++ [e]]> inv)
               end
           end
  end.

Fixpoint inventory_groups (gs : list (string * PromptGroupRecoveryRecord))
    (inv : gmap string (list EnvironmentEpisode)) : res (gmap string (list EnvironmentEpisode)) :=
  match gs with
  | [] => Ok inv
  | p :: rest => inv' ← inventory_siblings p.2 (siblings p.2) inv; inventory_groups rest inv'
  end.

Definition environment_inventory (ids : gset string) (l : RolloutRecoveryLedger)
    : res (gmap string (list EnvironmentEpisode)) :=
  fmap (M:=gmap string) (py_sort episode_ltb) <$>
    inventory_groups (groups l) (set_to_map (fun i => (i, [])) ids).

(** Whether the inventory would still list one episode of an instance. *)
Definition still_held (l : RolloutRecoveryLedger) (inst : string) (e : EnvironmentEpisode) : bool :=
  match parse_environment_rollout_id (rollout_id e) with
  | None => false
  | Some (gid, i) =>
      match kv_get gid (groups l) with
      | None => false
      | Some g =>
          match siblings g !! i with
          | None => false
          | Some s =>
              holds_environment_episode g s
              && bool_decide (environment_instance_id (current_attempt s) = Some inst)
              && match environment_episode g i with Ok e' => bool_decide (e' = e) | _ => false end
          end
      end
  end.

Definition environment_episodes_still_held (episodes : list (string * list EnvironmentEpisode))
    (l : RolloutRecoveryLedger) : list (string * gset EnvironmentEpisode) :=
  (fun p => (p.1, list_to_set (List.filter (still_held l p.1) p.2))) <$> episodes.

(** ** Retries, dispatch and dropped dispatches *)

Definition retry_sibling (fresh : nat -> uuid) (i : nat) : SE GS unit :=
  s ← sibling_at i;
  g ← record;
  let a := current_attempt s in
  if bool_decide (recovery_granularity g = RecoveryGranularity.SIBLING)
     && status_is RolloutAttemptStatus.SEALED a
  then mret tt
  else if status_is RolloutAttemptStatus.RESERVED a then mret tt
  else
    _ ← guard (negb (given_up (attempt_status a))) ValueError;
    on_sibling i (append_attempt (new_attempt (fresh i))).

Definition prepare_incomplete_retry (live : bool) (gid : string) (fresh : nat -> uuid)
    : SE RolloutRecoveryLedger PromptGroupRecoveryRecord :=
  _ ← require_live live;
  on_group gid (
    g ← record;
    _ ← guard (negb (bool_decide (status g = PromptGroupStatus.GENERATING))) ValueError;
    let current := (fun s => attempt_status (current_attempt s)) <$> siblings g in
    let retry_prompt_group :=
      bool_decide (recovery_granularity g = RecoveryGranularity.PROMPT_GROUP)
      && existsb given_up current in
    _ ← guard (retry_prompt_group && existsb (fun st => negb (given_up st)) current) ValueError;
    _ ← for_in (each_sibling g) (retry_sibling fresh);
    record).

(** The owner of one attempt that is dispatched. *)
Definition dispatch_attempt (owner : option string) (i : nat) : SE GS unit :=
  s ← sibling_at i;
  g ← record;
  let inst := environment_instance_id (current_attempt s) in
  _ ← guard (bool_decide (restore_level g = RecoveryTargetLevel.TURN)
             && bool_decide (inst = None) && bool_decide (owner = None)) ValueError;
  _ ← match inst with
      | Some _ => guard (negb (bool_decide (owner = inst))) ValueError
      | None => if bool_decide (owner = None) then mret tt
                else on_attempt i (with_instance owner)
      end;
  on_attempt i (with_attempt_status RolloutAttemptStatus.DISPATCHED).

Definition mark_group_dispatched (live : bool) (gid : string) (generation_indices : option (list Z))
    (owner : option string) : SE RolloutRecoveryLedger unit :=
  _ ← require_live live;
  on_group gid (
    g ← record;
    _ ← guard (negb (bool_decide (phase g = PromptGroupPhase.ADMITTED))) ValueError;
    _ ← guard (negb (bool_decide (status g = PromptGroupStatus.GENERATING))) ValueError;
    let indices := default (Z.of_nat <$> seq 0 (Z.to_nat (expected_generations g)))
                     generation_indices in
    positions ← lift (traverse (fun i => require_sibling i g) indices);
    ss ← lift (traverse (get_index (siblings g)) positions);
    _ ← guard (existsb (fun s => negb (status_is RolloutAttemptStatus.RESERVED (current_attempt s)))
                 ss) ValueError;
    _ ← for_in positions (dispatch_attempt owner);
    for_in positions (fun i => emit "attempt_dispatched" (Some i) [])).

Definition release_refused_dispatch (live : bool) (gid : string) (generation_index : Z)
    : SE RolloutRecoveryLedger unit :=
  _ ← require_live live;
  on_group gid (
    g ← record;
    _ ← guard (negb (bool_decide (status g = PromptGroupStatus.GENERATING))) ValueError;
    i ← lift (require_sibling generation_index g);
    s ← sibling_at i;
    _ ← guard (negb (status_is RolloutAttemptStatus.DISPATCHED (current_attempt s))) ValueError;
    _ ← on_attempt i (with_attempt_status RolloutAttemptStatus.RESERVED);
    emit "attempt_refused" (Some i) []).

Definition replace_dropped (fresh : nat -> uuid) (generation_index : Z) : SE GS unit :=
  g ← record;
  i ← lift (require_sibling generation_index g);
  s ← sibling_at i;
  let a := current_attempt s in
  if negb (status_is RolloutAttemptStatus.DISPATCHED a) then mret tt
  else
    _ ← match environment_instance_id a with
        | Some inst =>
            e ← lift (environment_episode g i);
            on_ledger (fun l => with_retirements (add_episode inst e (retirements l)) l)
        | None => mret tt
        end;
    _ ← on_attempt i (with_attempt_status RolloutAttemptStatus.ABANDONED);
    _ ← emit "attempt_abandoned" (Some i) [("reason", VStr "dropped")];
    on_sibling i (append_attempt (new_attempt (fresh i))).

Definition replace_dropped_dispatch (live : bool) (gid : string) (generation_indices : list Z)
    (fresh : nat -> uuid) : SE RolloutRecoveryLedger unit :=
  _ ← require_live live;
  on_group gid (
    g ← record;
    _ ← guard (negb (bool_decide (status g = PromptGroupStatus.GENERATING))) ValueError;
    _ ← guard (bool_decide (recovery_granularity g = RecoveryGranularity.PROMPT_GROUP)) ValueError;
    for_in generation_indices (replace_dropped fresh)).

(** ** Seals *)

Definition validate_agent_name (g : PromptGroupRecoveryRecord) (name : option string) : res unit :=
  _ ← raise_if (bool_decide (name = Some "")) ValueError;
  raise_if (negb (bool_decide (resolved_agent_name g = None))
            && negb (bool_decide (resolved_agent_name g = name))) ValueError.

Definition validate_attribution_key (g : PromptGroupRecoveryRecord) (key : option string)
    : res unit :=
  _ ← raise_if (bool_decide (key = Some "")) ValueError;
  raise_if (negb (bool_decide (attribution_key g = None))
            && negb (bool_decide (attribution_key g = key))) ValueError.

(** [isinstance(mask_sample, bool)]. *)
Definition require_bool (v : PyVal) : res bool :=
  match v with VBool b => Ok b | _ => Raise TypeError end.

(** [receipt is not None and receipt.get("capture_key") != gate_id]. *)
Definition foreign_receipt (gate_id : string) (receipt : option dict) : bool :=
  match receipt with
  | Some r => negb (is_str gate_id (default VNone (dict_get "capture_key" r)))
  | None => false
  end.

Definition receipt_eqb (r r' : option dict) : bool :=
  match r, r' with
  | Some d, Some d' => py_eq (VDict d) (VDict d')
  | None, None => true
  | _, _ => false
  end.

Section seals.
Context (staging_key : PyVal -> string -> res string).

(** The attempt already holds this result. *)
Definition same_result (a : RolloutAttemptRecord) (r : SiblingSealResult) (mask : bool)
    (keys : list string) : bool :=
  receipt_eqb (receipt a) (s_receipt r)
  && bool_decide (logical_selection a = s_logical_selection r)
  && match reward a with Some x => float_eqb x (s_reward r) | None => false end
  && bool_decide (mask_sample a = Some mask)
  && bool_decide (reward_checks a = s_reward_checks r)
  && bool_decide (reward_log_context a = s_reward_log_context r)
  && bool_decide (staging_keys a = keys).

Definition sealed_with (r : SiblingSealResult) (mask : bool) (keys : list string)
    : RolloutAttemptRecord -> RolloutAttemptRecord :=
  seal_attempt (s_receipt r) (s_reward r) mask (s_reward_checks r) (s_reward_log_context r) keys
    (s_logical_selection r).

(** [attribution_key] defaults to the agent. *)
Definition attribution_of (r : SiblingSealResult) : option string :=
  match s_attribution_key r with Some k => Some k | None => s_resolved_agent_name r end.

Definition mark_sibling_sealed (live : bool) (gid : string) (generation_index : Z)
    (r : SiblingSealResult) : SE RolloutRecoveryLedger unit :=
  _ ← require_live live;
  on_group gid (
    g ← record;
    _ ← guard (bool_decide (recovery_granularity g = RecoveryGranularity.PROMPT_GROUP)) ValueError;
    i ← lift (require_sibling generation_index g);
    s ← sibling_at i;
    let a := current_attempt s in
    expected ← lift (gate_rollout_id g i);
    keys ← lift (attempt_staging_keys staging_key (s_gate_rollout_id r) (s_receipt r)
                   (s_logical_selection r));
    mask ← lift (require_bool (s_mask_sample r));
    _ ← lift (validate_agent_name g (s_resolved_agent_name r));
    _ ← lift (validate_attribution_key g (attribution_of r));
    _ ← guard (negb (bool_decide (s_gate_rollout_id r = expected))) ValueError;
    _ ← guard (foreign_receipt (s_gate_rollout_id r) (s_receipt r)) ValueError;
    if status_is RolloutAttemptStatus.SEALED a then
      guard (negb (same_result a r mask keys)) ValueError
    else
      _ ← guard (negb (status_is RolloutAttemptStatus.DISPATCHED a)) ValueError;
      _ ← on_record (with_names (s_resolved_agent_name r) (attribution_of r));
      _ ← on_attempt i (sealed_with r mask keys);
      _ ← record_environment_forget_if_restored i;
      _ ← emit "attempt_sealed" (Some i) [];
      g' ← record;
      if all_sealed g' then
        _ ← on_record (with_status PromptGroupStatus.READY_TO_FINALIZE);
        emit "group_sealed" None []
      else mret tt).

(** The checks on one sibling's result, before any sibling changes. *)
Definition validate_seal (results : gmap Z SiblingSealResult) (i : nat)
    : SE GS (nat * SiblingSealResult * bool * list string) :=
  g ← record;
  r ← lift (match results !! Z.of_nat i with Some r => Ok r | None => Raise KeyError end);
  j ← lift (require_sibling (Z.of_nat i) g);
  s ← sibling_at j;
  expected ← lift (gate_rollout_id g i);
  _ ← guard (negb (status_is RolloutAttemptStatus.DISPATCHED (current_attempt s))) ValueError;
  _ ← guard (negb (bool_decide (s_gate_rollout_id r = expected))) ValueError;
  _ ← guard (foreign_receipt expected (s_receipt r)) ValueError;
  mask ← lift (require_bool (s_mask_sample r));
  keys ← lift (attempt_staging_keys staging_key (s_gate_rollout_id r) (s_receipt r)
                 (s_logical_selection r));
  mret (j, r, mask, keys).

Definition apply_seal (v : nat * SiblingSealResult * bool * list string) : SE GS unit :=
  let '(i, r, mask, keys) := v in
  _ ← on_attempt i (sealed_with r mask keys);
  _ ← record_environment_forget_if_restored i;
  emit "attempt_sealed" (Some i) [].

(** The only element of [{f(r) for r in results.values()}]. *)
Definition common {A} `{EqDecision A} (f : SiblingSealResult -> A)
    (results : gmap Z SiblingSealResult) : res A :=
  match remove_dups ((fun p => f p.2) <$> map_to_list results) with
  | [x] => Ok x
  | _ => Raise ValueError
  end.

Definition mark_group_sealed (live : bool) (gid : string) (results : gmap Z SiblingSealResult)
    : SE RolloutRecoveryLedger unit :=
  _ ← require_live live;
  on_group gid (
    g ← record;
    _ ← guard (negb (bool_decide (recovery_granularity g = RecoveryGranularity.PROMPT_GROUP)))
          ValueError;
    _ ← guard (negb (bool_decide (status g = PromptGroupStatus.GENERATING))) ValueError;
    let indices := seq 0 (Z.to_nat (expected_generations g)) in
    _ ← guard (negb (bool_decide
          (dom results = (list_to_set (Z.of_nat <$> indices) : gset Z)))) ValueError;
    agent ← lift (common s_resolved_agent_name results);
    _ ← lift (validate_agent_name g agent);
    key ← lift (common attribution_of results);
    _ ← lift (validate_attribution_key g key);
    validated ← map_in indices (validate_seal results);
    _ ← on_record (with_names agent key);
    _ ← for_in validated apply_seal;
    _ ← on_record (with_status PromptGroupStatus.READY_TO_FINALIZE);
    emit "group_sealed" None []).
End seals.

(** ** Giving up *)

(** [reason] labels the attempts: "failed" or "cancelled". *)
Definition abandon_sibling (reason : string) (i : nat) : SE GS unit :=
  s ← sibling_at i;
  if status_is RolloutAttemptStatus.SEALED (current_attempt s) then mret tt
  else
    _ ← on_attempt i (with_attempt_status RolloutAttemptStatus.ABANDONED);
    emit "attempt_abandoned" (Some (generation_index s)) [("reason", VStr reason)].

Definition abandon_unsealed (live : bool) (gid reason : string) : SE RolloutRecoveryLedger unit :=
  _ ← require_live live;
  on_group gid (
    g ← record;
    _ ← guard (unsafe_status (status g)) ValueError;
    _ ← record_environment_retirements;
    if bool_decide (recovery_granularity g = RecoveryGranularity.PROMPT_GROUP)
       && bool_decide (status g = PromptGroupStatus.GENERATING)
    then abandon_entire_group reason
    else
      _ ← for_in (each_sibling g) (abandon_sibling reason);
      on_record (fun g => with_status
        (if all_sealed g then PromptGroupStatus.READY_TO_FINALIZE
         else PromptGroupStatus.GENERATING) g)).

(** ** Finalization *)

(** One sibling's receipt, reward, mask, checks and log context. *)
Abbreviation finalized :=
  (option dict * pyfloat * bool * option RewardChecks * option RewardLogContext)%type (only parsing).

Definition finalized_sibling (s : RolloutSiblingRecord) : res finalized :=
  let a := current_attempt s in
  match attempt_status a, reward a, mask_sample a with
  | RolloutAttemptStatus.SEALED, Some x, Some m =>
      Ok (receipt a, x, m, reward_checks a, reward_log_context a)
  | _, _, _ => Raise ValueError
  end.

(** The gate and logical rollout IDs, and each sibling's inputs. *)
Definition finalization_inputs (gid : string) (l : RolloutRecoveryLedger)
    : res (list string * list string * list finalized) :=
  g ← require_group gid l;
  _ ← raise_if (negb (bool_decide (status g = PromptGroupStatus.READY_TO_FINALIZE))) ValueError;
  inputs ← traverse finalized_sibling (siblings g);
  gates ← gate_rollout_ids g;
  Ok (gates, logical_rollout_ids g, inputs).

(** [_require_group_status] with one allowed status. *)
Definition require_group_status (allowed : PromptGroupStatus) (g : PromptGroupRecoveryRecord)
    : res unit := raise_if (negb (bool_decide (status g = allowed))) ValueError.

Definition mark_finalization_started (live : bool) (gid : string) : SE RolloutRecoveryLedger unit :=
  _ ← require_live live;
  on_group gid (
    g ← record;
    _ ← lift (require_group_status PromptGroupStatus.READY_TO_FINALIZE g);
    on_record (with_status PromptGroupStatus.FINALIZING)).

Definition mark_finalization_unknown (live : bool) (gid : string) : SE RolloutRecoveryLedger unit :=
  _ ← require_live live;
  on_group gid (
    g ← record;
    _ ← lift (require_group_status PromptGroupStatus.FINALIZING g);
    on_record (with_status PromptGroupStatus.FINALIZATION_UNKNOWN)).

(** ** Dropping groups *)

(** [_emit("group_discarded", record)], of a record no longer held. *)
Definition report_discarded (g : PromptGroupRecoveryRecord) (l : RolloutRecoveryLedger)
    : RolloutRecoveryLedger :=
  if event_sink l
  then report (mkEvent "group_discarded" (group_id g) (prompt_id g) None []) l else l.

Definition discard_group (live : bool) (gid : string) : SE RolloutRecoveryLedger unit :=
  _ ← require_live live;
  _ ← on_group gid record_environment_retirements;
  l ← get;
  g ← lift (require_group gid l);
  modify (fun l => report_discarded g (with_groups (kv_del gid (groups l)) l)).

Definition discard_canonical (ids : gset string)
    (acc : RolloutRecoveryLedger * Z) (p : string * PromptGroupRecoveryRecord)
    : RolloutRecoveryLedger * Z :=
  if decide (p.1 ∈ ids)
  then (report_discarded p.2 (with_groups (kv_del p.1 (groups acc.1)) acc.1), acc.2 + 1)
  else acc.

Definition discard_canonical_groups (live : bool) (ids : gset string)
    : SE RolloutRecoveryLedger Z :=
  _ ← require_live live;
  l ← get;
  let '(l', n) := foldl (discard_canonical ids) (l, 0) (groups l) in
  _ ← modify (fun _ => l');
  mret n.

(** ** Reading *)

Definition get_group (gid : string) (l : RolloutRecoveryLedger) : res PromptGroupRecoveryRecord :=
  require_group gid l.

(** [groups()], [len(ledger)] and [group_id in ledger]. *)
Definition all_groups (l : RolloutRecoveryLedger) : list PromptGroupRecoveryRecord := (groups l).*2.
Definition ledger_size (l : RolloutRecoveryLedger) : nat := length (groups l).
Definition ledger_has (gid : string) (l : RolloutRecoveryLedger) : bool :=
  bool_decide (gid ∈ (groups l).*1).

(** The staging keys a sealed attempt owns, or those its manifest lists; the
    entries were checked when it was sealed. *)
Definition owned_keys (required_only : bool) (a : RolloutAttemptRecord) : res (list string) :=
  if negb (status_is RolloutAttemptStatus.SEALED a) then Ok []
  else if required_only then
    match receipt a with
    | None | Some [] => Ok []
    | Some r =>
        match dict_get "manifest" r with
        | None => Ok []
        | Some m => items ← py_iter m; (fun es => es.*2) <$> traverse entry_key items
        end
    end
  else Ok (staging_keys a).

Definition expected_staging_keys (required_only : bool) (l : RolloutRecoveryLedger)
    : res (gset string) :=
  keys ← traverse (fun g => traverse (fun s => owned_keys required_only (current_attempt s))
                              (siblings g)) (all_groups l);
  Ok (list_to_set (concat (concat keys))).
