(* ===== verification/RecoveryInv.v ===== *)
(** * Invariant of the rollout recovery ledger

    What every operation of [RecoveryLedger] keeps: attempts carry results
    exactly when sealed, earlier attempts are given up, a group's status says
    whether it is sealed, and an atomic group is sealed as a whole. *)

From S2P Require Import Prelude PyVal PyStr StateErr Recovery RecoveryLedger.

Abbreviation change i f g := (with_siblings (alter f i (siblings g)) g) (only parsing).

Section invariant.
Context (staging_key : PyVal -> string -> res string) (json_object : string -> bool).

(** ** The invariant *)

Definition holds_no_result (a : RolloutAttemptRecord) : Prop :=
  receipt a = None /\ logical_selection a = None /\ reward a = None /\ mask_sample a = None /\
  reward_checks a = None /\ reward_log_context a = None /\ staging_keys a = [].

(** A sealed attempt has a reward and a mask, and the staging keys are those
    its receipt proves it owns. *)
Definition holds_result (gid : string) (i : nat) (a : RolloutAttemptRecord) : Prop :=
  reward a <> None /\ mask_sample a <> None /\
  (forall c, reward_log_context a = Some c -> log_context_ok json_object c = true) /\
  attempt_staging_keys staging_key (capture_key (episode_at gid i a)) (receipt a)
    (logical_selection a) = Ok (staging_keys a).

Definition attempt_ok (gid : string) (i : nat) (a : RolloutAttemptRecord) : Prop :=
  0 <= environment_attempt a /\
  (0 < environment_attempt a -> environment_instance_id a <> None) /\
  environment_instance_id a <> Some "" /\
  String.length (attempt_uuid a) = 16%nat /\
  if decide (attempt_status a = RolloutAttemptStatus.SEALED) then holds_result gid i a
  else holds_no_result a.

Definition sibling_ok (g : PromptGroupRecoveryRecord) (i : nat) (s : RolloutSiblingRecord) : Prop :=
  let a := current_attempt s in
  generation_index s = i /\
  Forall (attempt_ok (group_id g) i) (attempts s) /\
  Forall (fun a => given_up (attempt_status a) = true) (past_attempts s) /\
  (restore_level g = RecoveryTargetLevel.TURN -> attempt_status a = RolloutAttemptStatus.DISPATCHED ->
     environment_instance_id a <> None) /\
  (phase g = PromptGroupPhase.RESERVED ->
     attempt_status a = RolloutAttemptStatus.RESERVED \/ given_up (attempt_status a) = true).

Definition siblings_ok (g : PromptGroupRecoveryRecord) : Prop :=
  forall i s, siblings g !! i = Some s -> sibling_ok g i s.

Definition head_ok (g : PromptGroupRecoveryRecord) : Prop :=
  group_id g <> "" /\ admission_id g <> "" /\ prompt_id g <> "" /\
  sample_id (prompt_ref g) = prompt_id g /\
  1 <= expected_generations g /\ Z.of_nat (length (siblings g)) = expected_generations g /\
  resolved_agent_name g <> Some "" /\ attribution_key g <> Some "".

Definition none_sealed (g : PromptGroupRecoveryRecord) : bool :=
  forallb (fun s => negb (is_sealed s)) (siblings g).

Definition seals_ok (g : PromptGroupRecoveryRecord) : Prop :=
  (status g = PromptGroupStatus.GENERATING <-> all_sealed g = false) /\
  (recovery_granularity g = RecoveryGranularity.PROMPT_GROUP ->
     all_sealed g = true \/ none_sealed g = true).

Definition group_ok (g : PromptGroupRecoveryRecord) : Prop :=
  head_ok g /\ siblings_ok g /\ seals_ok g.

Definition group_uuids (g : PromptGroupRecoveryRecord) : list uuid :=
  concat ((fun s => attempt_uuid <$> attempts s) <$> siblings g).

Definition all_uuids (l : RolloutRecoveryLedger) : list uuid :=
  concat (group_uuids <$> all_groups l).

Definition ledger_ok (l : RolloutRecoveryLedger) : Prop :=
  NoDup (groups l).*1 /\
  (forall gid g, (gid, g) ∈ groups l -> gid = group_id g /\ group_ok g) /\
  NoDup (all_uuids l).

(** ** Changing one sibling *)

Lemma fmap_alter_same {A B} (f : A -> B) (h : A -> A) i (l : list A) :
  (forall x, l !! i = Some x -> f (h x) = f x) -> f <$> alter h i l = f <$> l.
Proof.
  revert i. induction l as [|x l IH]; intros [|i] H; [done|done| |]; cbn.
  - by rewrite H.
  - by rewrite IH.
Qed.

Lemma forallb_fmap {A B} (P : B -> bool) (f : A -> B) (l : list A) :
  forallb P (f <$> l) = forallb (fun x => P (f x)) l.
Proof. induction l as [|x l IH]; [done|]. cbn. by rewrite <- IH. Qed.

Lemma all_sealed_fmap g : all_sealed g = forallb id (is_sealed <$> siblings g).
Proof. by rewrite forallb_fmap. Qed.

Lemma none_sealed_fmap g : none_sealed g = forallb negb (is_sealed <$> siblings g).
Proof. by rewrite forallb_fmap. Qed.

Lemma all_sealed_elem g :
  all_sealed g = true <-> forall i s, siblings g !! i = Some s -> is_sealed s = true.
Proof.
  unfold all_sealed. rewrite forallb_forall. split.
  - intros H i s Hi. apply H, list_elem_of_In. by eapply list_elem_of_lookup_2.
  - intros H s [i Hi]%list_elem_of_In%list_elem_of_lookup. by eapply H.
Qed.

Lemma none_sealed_elem g :
  none_sealed g = true <-> forall i s, siblings g !! i = Some s -> is_sealed s = false.
Proof.
  unfold none_sealed. rewrite forallb_forall. setoid_rewrite negb_true_iff. split.
  - intros H i s Hi. apply H, list_elem_of_In. by eapply list_elem_of_lookup_2.
  - intros H s [i Hi]%list_elem_of_In%list_elem_of_lookup. by eapply H.
Qed.

Lemma lookup_change i j f g :
  siblings (change i f g) !! j = if decide (i = j) then f <$> siblings g !! j else siblings g !! j.
Proof.
  cbn. destruct (decide (i = j)) as [->|Hne]; [apply list_lookup_alter_eq|by apply list_lookup_alter_ne].
Qed.

(** A change of one sibling that does not touch whether it is sealed. *)
Lemma group_ok_change i f g s :
  group_ok g -> siblings g !! i = Some s -> sibling_ok g i (f s) -> is_sealed (f s) = is_sealed s ->
  group_ok (change i f g).
Proof.
  intros (Hh & Hs & Hz) Hi Hok Hse.
  assert (is_sealed <$> alter f i (siblings g) = is_sealed <$> siblings g) as Hf.
  { apply fmap_alter_same. intros x Hx. congruence. }
  split; [|split].
  - unfold head_ok in *. cbn. by rewrite length_alter.
  - intros j s' Hj. rewrite lookup_change in Hj. destruct (decide (i = j)) as [->|Hne].
    + rewrite Hi in Hj. by injection Hj as <-.
    + by apply Hs.
  - unfold seals_ok in *. rewrite all_sealed_fmap, none_sealed_fmap in *. cbn. by rewrite Hf.
Qed.

Lemma group_uuids_change i f g :
  (forall s, siblings g !! i = Some s -> attempt_uuid <$> attempts (f s) = attempt_uuid <$> attempts s) ->
  group_uuids (change i f g) = group_uuids g.
Proof. intros H. unfold group_uuids. cbn. by rewrite fmap_alter_same. Qed.

Lemma current_ok g i s :
  group_ok g -> siblings g !! i = Some s -> attempt_ok (group_id g) i (current_attempt s).
Proof.
  intros (_ & Hs & _) Hi. destruct (Hs i s Hi) as (_ & Ha & _). unfold attempts in Ha.
  by apply Forall_app in Ha as [_ Ha%Forall_inv].
Qed.

(** A change of the current attempt of an unsealed sibling. *)
Lemma group_ok_attempt i h g s :
  let a := current_attempt s in
  group_ok g -> siblings g !! i = Some s -> is_sealed s = false ->
  attempt_ok (group_id g) i (h a) -> attempt_status (h a) <> RolloutAttemptStatus.SEALED ->
  (restore_level g = RecoveryTargetLevel.TURN ->
     attempt_status (h a) = RolloutAttemptStatus.DISPATCHED -> environment_instance_id (h a) <> None) ->
  (phase g = PromptGroupPhase.RESERVED ->
     attempt_status (h a) = RolloutAttemptStatus.RESERVED \/ given_up (attempt_status (h a)) = true) ->
  group_ok (change i (with_current h) g).
Proof.
  intros a Hg Hi Hse Ha Hst Ht Hp. apply (group_ok_change i (with_current h) g s); [done|done| |].
  - destruct Hg as (_ & Hs & _). destruct (Hs i s Hi) as (Hgi & Hats & Hpast & _).
    split; [done|]. split; [|done]. unfold attempts in *. cbn.
    apply Forall_app in Hats as [H1 _]. by apply Forall_app_2; [|constructor].
  - rewrite Hse. by apply bool_decide_eq_false.
Qed.

Lemma uuids_attempt i h g :
  (forall a, attempt_uuid (h a) = attempt_uuid a) ->
  group_uuids (change i (with_current h) g) = group_uuids g.
Proof.
  intros Hh. apply group_uuids_change. intros s _. unfold attempts. cbn.
  rewrite !fmap_app. cbn. by rewrite Hh.
Qed.

(** An unsealed attempt in another unsealed status. *)
Lemma attempt_ok_status gid i a st :
  attempt_ok gid i a -> attempt_status a <> RolloutAttemptStatus.SEALED ->
  st <> RolloutAttemptStatus.SEALED -> attempt_ok gid i (with_attempt_status st a).
Proof.
  unfold attempt_ok. cbn. intros (H1 & H2 & H3 & H4 & H5) Ha Hst.
  rewrite decide_False in H5 by done. by rewrite decide_False.
Qed.

Lemma attempt_ok_new gid i u : String.length u = 16%nat -> attempt_ok gid i (new_attempt u).
Proof. intros Hu. by repeat split. Qed.

(** ** What operations on a record leave alone *)

(** The ledger up to the event log. *)
Definition quiet (l l' : RolloutRecoveryLedger) : Prop :=
  groups l' = groups l /\ retirements l' = retirements l /\ forgets l' = forgets l /\
  event_sink l' = event_sink l.

(** Identities, and how many siblings there are. *)
Definition same_head (g g' : PromptGroupRecoveryRecord) : Prop :=
  group_id g' = group_id g /\ restore_level g' = restore_level g /\
  length (siblings g') = length (siblings g) /\
  expected_generations g' = expected_generations g.

Definition same_state (g g' : PromptGroupRecoveryRecord) : Prop :=
  phase g' = phase g /\ status g' = status g.

#[local] Instance quiet_preorder : PreOrder quiet.
Proof. split; unfold quiet; red; intros; intuition congruence. Qed.
#[local] Instance same_head_preorder : PreOrder same_head.
Proof. split; unfold same_head; red; intros; intuition congruence. Qed.
#[local] Instance same_state_preorder : PreOrder same_state.
Proof. split; unfold same_state; red; intros; intuition congruence. Qed.

Lemma same_head_change i f g : same_head g (change i f g).
Proof. unfold same_head. cbn. by rewrite length_alter. Qed.

Lemma wp_record (Q : GS -> res PromptGroupRecoveryRecord -> Prop) s :
  wp record Q s <-> Q s (Ok s.1).
Proof. done. Qed.

Lemma wp_on_record f (Q : GS -> res unit -> Prop) s :
  wp (on_record f) Q s <-> Q (f s.1, s.2) (Ok tt).
Proof. done. Qed.

Lemma wp_on_ledger f (Q : GS -> res unit -> Prop) s :
  wp (on_ledger f) Q s <-> Q (s.1, f s.2) (Ok tt).
Proof. done. Qed.

Lemma wp_on_sibling i f (Q : GS -> res unit -> Prop) s :
  wp (on_sibling i f) Q s <-> Q (change i f s.1, s.2) (Ok tt).
Proof. done. Qed.

Lemma wp_sibling_at i (Q : GS -> res RolloutSiblingRecord -> Prop) s sib :
  siblings s.1 !! i = Some sib -> Q s (Ok sib) -> wp (sibling_at i) Q s.
Proof.
  intros Hi HQ. unfold sibling_at. apply wp_bind, wp_record, wp_lift. unfold get_index. by rewrite Hi.
Qed.

(** An event names a sibling that exists, so reporting it never raises. *)
Lemma wp_emit name i fields (Q : GS -> res unit -> Prop) g l :
  (forall j, i = Some j -> (j < length (siblings g))%nat) ->
  (forall l', quiet l l' -> Q (g, l') (Ok tt)) -> wp (emit name i fields) Q (g, l).
Proof.
  intros Hj HQ. unfold emit. apply wp_bind, wp_get. cbn. destruct (event_sink l).
  - apply wp_bind, wp_lift. destruct i as [j|]; cbn.
    + destruct (lookup_lt_is_Some_2 (siblings g) j (Hj j eq_refl)) as [s Hs].
      unfold get_index. rewrite Hs. cbn. apply wp_on_ledger. by apply HQ.
    + apply wp_on_ledger. by apply HQ.
  - apply wp_ret. by apply HQ.
Qed.

Lemma each_sibling_lookup g i :
  i ∈ each_sibling g -> exists s, siblings g !! i = Some s.
Proof. intros Hi%elem_of_seq. apply lookup_lt_is_Some_2. lia. Qed.

Lemma each_sibling_head g g' i :
  same_head g g' -> i ∈ each_sibling g -> exists s, siblings g' !! i = Some s.
Proof.
  intros (_ & _ & Hl & _) Hi%elem_of_seq. apply lookup_lt_is_Some_2. rewrite Hl. lia.
Qed.

(** Between two points of an operation on one record. *)
Definition tame (s s' : GS) : Prop :=
  group_ok s'.1 /\ same_head s.1 s'.1 /\ same_state s.1 s'.1 /\
  group_uuids s'.1 = group_uuids s.1 /\ quiet s.2 s'.2.

Lemma tame_refl g l : group_ok g -> tame (g, l) (g, l).
Proof. done. Qed.

Lemma tame_trans s1 s2 s3 : tame s1 s2 -> tame s2 s3 -> tame s1 s3.
Proof.
  intros (_ & A1 & A2 & A3 & A4) (H & B1 & B2 & B3 & B4). split; [done|].
  split; [by etrans|]. split; [by etrans|]. split; [congruence|by etrans].
Qed.

Lemma tame_quiet g l l' : group_ok g -> quiet l l' -> tame (g, l) (g, l').
Proof. intros. split; [done|]. done. Qed.

Lemma tame_attempt i h g l s :
  let a := current_attempt s in
  group_ok g -> siblings g !! i = Some s -> is_sealed s = false ->
  attempt_ok (group_id g) i (h a) -> attempt_status (h a) <> RolloutAttemptStatus.SEALED ->
  (restore_level g = RecoveryTargetLevel.TURN ->
     attempt_status (h a) = RolloutAttemptStatus.DISPATCHED -> environment_instance_id (h a) <> None) ->
  (phase g = PromptGroupPhase.RESERVED ->
     attempt_status (h a) = RolloutAttemptStatus.RESERVED \/ given_up (attempt_status (h a)) = true) ->
  (forall a, attempt_uuid (h a) = attempt_uuid a) ->
  tame (g, l) (change i (with_current h) g, l).
Proof.
  intros. split; [by eapply group_ok_attempt|]. split; [apply same_head_change|].
  split; [done|]. split; [by apply uuids_attempt|done].
Qed.

Lemma not_sealed_status s :
  is_sealed s = false <-> attempt_status (current_attempt s) <> RolloutAttemptStatus.SEALED.
Proof. unfold is_sealed. apply bool_decide_eq_false. Qed.

Lemma is_sealed_status s :
  is_sealed s = true <-> attempt_status (current_attempt s) = RolloutAttemptStatus.SEALED.
Proof. unfold is_sealed. apply bool_decide_eq_true. Qed.

Lemma given_up_spec st :
  given_up st = true <-> st = RolloutAttemptStatus.ABANDONED \/ st = RolloutAttemptStatus.FAILED.
Proof. apply bool_decide_eq_true. Qed.

(** Giving up an unsealed attempt, which drops nothing. *)
Lemma tame_abandon i g l s :
  group_ok g -> siblings g !! i = Some s -> is_sealed s = false ->
  tame (g, l) (change i (with_current (with_attempt_status RolloutAttemptStatus.ABANDONED)) g, l).
Proof.
  intros Hg Hi Hs. eapply tame_attempt; try done.
  - apply attempt_ok_status; [by apply current_ok|by apply not_sealed_status|done].
  - by right.
Qed.

Lemma clear_unsealed gid i a :
  attempt_ok gid i a -> attempt_status a <> RolloutAttemptStatus.SEALED -> clear_result a = a.
Proof.
  intros (_ & _ & _ & _ & H) Hst. rewrite decide_False in H by done. destruct a.
  destruct H as (H1 & H2 & H3 & H4 & H5 & H6 & H7). cbn in *. by subst.
Qed.

(** A loop over the siblings whose body is tame. *)
Lemma wp_each_sibling g l (body : nat -> SE GS unit) :
  group_ok g ->
  (forall i s g' l', tame (g, l) (g', l') -> siblings g' !! i = Some s ->
     wp (body i) (fun s' _ => tame (g, l) s') (g', l')) ->
  wp (for_in (each_sibling g) body) (fun s' _ => tame (g, l) s') (g, l).
Proof.
  intros Hg Hb. apply wp_for; [by apply tame_refl|]. intros i [g' l'] Hi Ht.
  destruct Ht as (H1 & H2 & H3) eqn:E. clear E. apply elem_of_seq in Hi.
  destruct (lookup_lt_is_Some_2 (siblings g') i) as [s Hs].
  { destruct H2 as (_ & _ & Hl & _). cbn in Hl. lia. }
  by eapply Hb.
Qed.

(** ** Loops that treat each sibling on its own

    [only i s s']: from [s] to [s'] at most sibling [i] changed. *)
Definition only (i : nat) (s s' : GS) : Prop :=
  forall j, j <> i -> siblings s'.1 !! j = siblings s.1 !! j.

Definition each_done (P : nat -> RolloutSiblingRecord -> RolloutSiblingRecord -> Prop)
    (k : nat) (g g' : PromptGroupRecoveryRecord) : Prop :=
  forall i s, siblings g !! i = Some s ->
    if (i <? k)%nat then exists s', siblings g' !! i = Some s' /\ P i s s'
    else siblings g' !! i = Some s.

Section each.
Context {A : Type} (P : nat -> RolloutSiblingRecord -> RolloutSiblingRecord -> Prop).
Context (R : nat -> A -> Prop) (body : nat -> SE GS A) (T : GS -> GS -> Prop).
Hypothesis T_trans : forall s1 s2 s3, T s1 s2 -> T s2 s3 -> T s1 s3.

Definition body_ok (g : PromptGroupRecoveryRecord) (l : RolloutRecoveryLedger) : Prop :=
  forall i s g' l', T (g, l) (g', l') -> siblings g !! i = Some s -> siblings g' !! i = Some s ->
    wp (body i) (fun s2 r => (exists y, r = Ok y /\ R i y) /\ T (g', l') s2 /\ only i (g', l') s2 /\
      exists s', siblings s2.1 !! i = Some s' /\ P i s s') (g', l').

Lemma each_done_step k g g' s2 s s' :
  each_done P k g g' -> siblings g !! k = Some s -> (forall l, only k (g', l) s2) ->
  siblings s2.1 !! k = Some s' -> P k s s' -> each_done P (S k) g s2.1.
Proof.
  intros Hd Hk Ho Hk' HP i si Hi. specialize (Hd i si Hi). specialize (Ho s2.2 i). cbn in Ho.
  destruct (Nat.ltb_spec i (S k)); destruct (Nat.ltb_spec i k); try lia.
  - destruct Hd as (s1 & H1 & H2). exists s1. split; [|done]. rewrite Ho; [done|lia].
  - assert (i = k) as -> by lia. rewrite Hk in Hi. injection Hi as <-. eauto.
  - rewrite Ho; [done|lia].
Qed.

Lemma each_done_all g g' :
  each_done P (length (siblings g)) g g' ->
  forall i s, siblings g !! i = Some s -> exists s', siblings g' !! i = Some s' /\ P i s s'.
Proof.
  intros Hd i s Hi. specialize (Hd i s Hi). pose proof (lookup_lt_Some _ _ _ Hi).
  by rewrite (proj2 (Nat.ltb_lt _ _)) in Hd.
Qed.

(** [[body(i) for each sibling]]. *)
Lemma wp_map_each g l :
  T (g, l) (g, l) -> body_ok g l ->
  wp (map_in (each_sibling g) body) (fun s2 r =>
    (exists ys, r = Ok ys /\ Forall2 R (each_sibling g) ys) /\ T (g, l) s2 /\
    forall i s, siblings g !! i = Some s -> exists s', siblings s2.1 !! i = Some s' /\ P i s s') (g, l).
Proof.
  intros Hg Hb. unfold each_sibling.
  assert (forall n k g' l', (k + n = length (siblings g))%nat -> T (g, l) (g', l') ->
    each_done P k g g' ->
    wp (map_in (seq k n) body) (fun s2 r =>
      (exists ys, r = Ok ys /\ Forall2 R (seq k n) ys) /\ T (g, l) s2 /\
      each_done P (k + n) g s2.1) (g', l')) as Hloop.
  { induction n as [|n IH]; intros k g' l' Hlen Ht Hd; cbn [seq map_in].
    - apply wp_ret. rewrite Nat.add_0_r. split; [|done]. exists []. split; [done|constructor].
    - destruct (lookup_lt_is_Some_2 (siblings g) k) as [s Hs]; [lia|].
      assert (siblings g' !! k = Some s) as Hs'.
      { specialize (Hd k s Hs). by rewrite Nat.ltb_irrefl in Hd. }
      apply wp_bind. eapply wp_mono; [by apply Hb|]. cbn.
      intros [g2 l2] r ((y & -> & Hy) & Ht2 & Ho & s' & Hs2 & HP). apply wp_bind.
      eapply wp_mono; [apply (IH (S k) g2 l2); [lia|by eapply T_trans| ]|].
      + by eapply (each_done_step k g g' (g2, l2)).
      + intros s3 r ((ys & -> & Hys) & Ht3 & Hd3). apply wp_ret.
        rewrite <- Nat.add_succ_comm. split; [|done]. exists (y :: ys). split; [done|by constructor]. }
  eapply wp_mono; [apply (Hloop _ 0%nat); [done|done|]|].
  - intros i s Hi. done.
  - intros s2 r (H1 & H2 & H3). split; [done|]. split; [done|]. by apply each_done_all.
Qed.
End each.

(** [for each sibling: body(i)]. *)
Lemma wp_for_each (P : nat -> RolloutSiblingRecord -> RolloutSiblingRecord -> Prop) body
    (T : GS -> GS -> Prop) g l :
  (forall s1 s2 s3, T s1 s2 -> T s2 s3 -> T s1 s3) -> T (g, l) (g, l) ->
  body_ok P (fun _ (_ : unit) => True) body T g l ->
  wp (for_in (each_sibling g) body) (fun s2 r => r = Ok tt /\ T (g, l) s2 /\
    forall i s, siblings g !! i = Some s -> exists s', siblings s2.1 !! i = Some s' /\ P i s s') (g, l).
Proof.
  intros Htr Hg Hb. apply wp_for_map. eapply wp_mono; [by eapply wp_map_each|].
  intros s2 r ((ys & -> & _) & H). done.
Qed.

(** ** Giving up a whole group *)

Lemma only_change i f g l l' : only i (g, l) (change i f g, l').
Proof. intros j Hj. cbn. by apply list_lookup_alter_ne. Qed.

Lemma lookup_changed i f g s :
  siblings g !! i = Some s -> siblings (change i f g) !! i = Some (f s).
Proof. intros Hi. rewrite lookup_change, decide_True by done. by rewrite Hi. Qed.

Lemma atomic_unsealed g :
  group_ok g -> status g = PromptGroupStatus.GENERATING ->
  recovery_granularity g = RecoveryGranularity.PROMPT_GROUP ->
  forall i s, siblings g !! i = Some s -> is_sealed s = false.
Proof.
  intros (_ & _ & Hst & Hat) Hg Hp. apply Hst in Hg. destruct (Hat Hp) as [?|Hn]; [congruence|].
  by apply none_sealed_elem.
Qed.

Lemma same_granularity g g' :
  same_head g g' -> recovery_granularity g' = recovery_granularity g.
Proof. intros (_ & H & _). unfold recovery_granularity. by rewrite H. Qed.

Definition cleared (st : RolloutAttemptStatus) (s s' : RolloutSiblingRecord) : Prop :=
  past_attempts s' = past_attempts s /\
  current_attempt s' = with_attempt_status st (current_attempt s).

Lemma abandon_attempt_of_group_ok reason g l :
  status g = PromptGroupStatus.GENERATING ->
  recovery_granularity g = RecoveryGranularity.PROMPT_GROUP ->
  body_ok (fun _ => cleared RolloutAttemptStatus.ABANDONED) (fun _ _ => True)
    (abandon_attempt_of_group reason) tame g l.
Proof.
  intros Hst Hp i s g' l' Ht _ Hi. destruct Ht as (Hg & Hh & (_ & Hst') & _).
  cbn [fst snd] in *. assert (is_sealed s = false) as Hs.
  { eapply (atomic_unsealed g'); [done|congruence| |done]. by rewrite (same_granularity _ _ Hh). }
  pose proof (tame_abandon i g' l' s Hg Hi Hs) as T1. set (g1 := change i _ g') in *.
  assert (siblings g1 !! i = Some (with_current (with_attempt_status RolloutAttemptStatus.ABANDONED) s))
    as Hi1 by by apply lookup_changed.
  set (s1 := with_current _ s) in *.
  pose proof (current_ok g1 i s1 (proj1 T1) Hi1) as Hc1.
  assert (clear_result (current_attempt s1) = current_attempt s1) as Hcl.
  { by apply (clear_unsealed _ _ _ Hc1). }
  assert (forall l1 l2, quiet l1 l2 -> tame (g1, l1) (change i (with_current clear_result) g1, l2)) as T2.
  { intros l1 l2 Hq. eapply (tame_trans _ (g1, l2)); [apply tame_quiet; [apply T1|done]|].
    eapply (tame_attempt i clear_result g1 l2 s1); rewrite ?Hcl; try done; [apply T1|by right]. }
  unfold abandon_attempt_of_group. apply wp_bind. eapply wp_sibling_at; [exact Hi|].
  apply wp_bind, wp_on_sibling. cbn [fst snd]. fold g1. apply wp_bind.
  assert (forall l2, quiet l' l2 ->
    wp (on_attempt i clear_result) (fun s2 r => (exists y, r = Ok y /\ True) /\
      tame (g', l') s2 /\ only i (g', l') s2 /\
      exists s', siblings s2.1 !! i = Some s' /\ cleared RolloutAttemptStatus.ABANDONED s s')
      (g1, l2)) as Hend.
  { intros l2 Hq. apply wp_on_sibling. cbn [fst snd]. split; [by exists tt|].
    split; [eapply tame_trans; [exact T1|by apply T2]|]. split.
    - intros j Hj. cbn. rewrite !list_lookup_alter_ne by done. done.
    - eexists. split; [by apply lookup_changed|]. split; [done|]. exact Hcl. }
  destruct (given_up _).
  - apply wp_ret. by apply Hend.
  - apply wp_emit.
    + intros j [= <-]. destruct (Hg) as (_ & Hsib & _). destruct (Hsib i s Hi) as (-> & _).
      eapply lookup_lt_Some, Hi1.
    + intros l2 Hq. by apply Hend.
Qed.

Lemma with_status_same g : with_status (status g) g = g.
Proof. by destruct g. Qed.

Lemma abandon_entire_group_ok reason g l :
  group_ok g -> status g = PromptGroupStatus.GENERATING ->
  recovery_granularity g = RecoveryGranularity.PROMPT_GROUP ->
  wp (abandon_entire_group reason) (fun s2 r => r = Ok tt /\ tame (g, l) s2 /\
    forall i s, siblings g !! i = Some s -> exists s', siblings s2.1 !! i = Some s' /\
      cleared RolloutAttemptStatus.ABANDONED s s') (g, l).
Proof.
  intros Hg Hst Hp. unfold abandon_entire_group. apply wp_bind, wp_record, wp_bind.
  eapply wp_mono.
  { apply wp_for_each; [exact tame_trans|by apply tame_refl|by apply abandon_attempt_of_group_ok]. }
  intros [g2 l2] r (-> & Ht & Hd). apply wp_on_record. cbn [fst snd] in *.
  assert (status g2 = PromptGroupStatus.GENERATING) as Hs2.
  { destruct Ht as (_ & _ & (_ & He) & _). cbn in He. congruence. }
  rewrite <- Hs2, with_status_same. done.
Qed.

(** ** Restart *)

(** What a restart makes of one sibling of a group that keeps its siblings,
    and the restored episode it uses. *)
Definition restart_outcome (restored : gset (string * string * Z)) (g : PromptGroupRecoveryRecord)
    (i : nat) (s : RolloutSiblingRecord) : RolloutSiblingRecord * gset (string * string * Z) :=
  let a := current_attempt s in
  let key := (default "" (environment_instance_id a), base_gate_id (group_id g) i (attempt_uuid a),
              environment_attempt a) in
  if is_sealed s || given_up (attempt_status a) then (s, ∅)
  else if bool_decide (restore_level g = RecoveryTargetLevel.TURN)
          && negb (bool_decide (environment_instance_id a = None)) && bool_decide (key ∈ restored)
  then (with_current resume_attempt s, {[key]})
  else if bool_decide (attempt_status a = RolloutAttemptStatus.RESERVED)
          && (environment_attempt a =? 0)
  then (s, ∅)
  else (with_current (with_attempt_status RolloutAttemptStatus.ABANDONED) s, ∅).

Lemma restart_outcome_head restored g g' i s :
  same_head g g' -> restart_outcome restored g' i s = restart_outcome restored g i s.
Proof. intros (H1 & H2 & _). unfold restart_outcome. by rewrite H1, H2. Qed.

Lemma attempt_ok_resume gid i a :
  attempt_ok gid i a -> attempt_status a <> RolloutAttemptStatus.SEALED ->
  environment_instance_id a <> None -> attempt_ok gid i (resume_attempt a).
Proof.
  unfold attempt_ok. cbn. intros (H1 & H2 & H3 & H4 & H5) Ha Hst.
  rewrite decide_False in H5 by done. split; [lia|]. done.
Qed.

Lemma restart_sibling_ok restored g l :
  body_ok (fun i s s' => s' = (restart_outcome restored g i s).1)
    (fun i y => forall s, siblings g !! i = Some s -> y = (restart_outcome restored g i s).2)
    (restart_sibling restored) tame g l.
Proof.
  intros i s g' l' Ht Hi0 Hi. pose proof Ht as (Hg & Hh & _). cbn [fst snd] in *.
  pose proof (current_ok g' i s Hg Hi) as Hc.
  assert (generation_index s = i) as Hgi by (by destruct Hg as (_ & Hsib & _); destruct (Hsib i s Hi)).
  pose proof (restart_outcome_head restored g g' i s Hh) as Eout.
  set (out := restart_outcome restored g i s) in *. unfold restart_outcome in Eout.
  assert (forall t, t = out.2 -> exists y, Ok t = Ok y /\ forall s0, siblings g !! i = Some s0 ->
      y = (restart_outcome restored g i s0).2) as HR.
  { intros t ->. eexists. split; [done|]. intros s0 Hs0. rewrite Hi0 in Hs0. by injection Hs0 as <-. }
  unfold restart_sibling. apply wp_bind. eapply wp_sibling_at; [exact Hi|].
  apply wp_bind, wp_record. cbn [fst snd].
  change (status_is RolloutAttemptStatus.SEALED (current_attempt s)) with (is_sealed s).
  destruct (is_sealed s || given_up _) eqn:Es.
  { apply wp_ret. split; [apply HR; by rewrite <- Eout|]. split; [by apply tame_refl|]. split; [done|].
    exists s. split; [done|]. by rewrite <- Eout. }
  apply orb_false_iff in Es as [Es Eg]. apply wp_bind, wp_lift. rewrite Hgi.
  rewrite (environment_episode_at g' i s Hi) by apply Hc.
  cbn [episode_at rollout_id attempt]. set (key := (_, _, _)) in *.
  pose proof (proj1 (not_sealed_status s) Es) as Hns.
  assert (attempt_status (current_attempt s) = RolloutAttemptStatus.DISPATCHED \/
          attempt_status (current_attempt s) = RolloutAttemptStatus.RESERVED) as Hlive.
  { destruct (attempt_status (current_attempt s)); try done; auto. }
  rewrite (bool_decide_eq_true_2 _ Hlive), andb_true_r.
  assert (forall h j, Some i = Some j -> (j < length (alter (with_current h) i (siblings g')))%nat)
    as Hlt by (intros h j [= <-]; rewrite length_alter; by eapply lookup_lt_Some).
  destruct (bool_decide (restore_level g' = _) && _ && _) eqn:Er.
  - rewrite !andb_true_iff, negb_true_iff, bool_decide_eq_false in Er. destruct Er as ((_ & Hin) & _).
    assert (tame (g', l') (change i (with_current resume_attempt) g', l')) as T.
    { eapply tame_attempt; try done; [by apply attempt_ok_resume|by left]. }
    apply wp_bind, wp_on_sibling, wp_bind. cbn [fst snd]. apply wp_emit; [apply Hlt|]. intros l2 Hq.
    apply wp_ret. split; [apply HR; by rewrite <- Eout|].
    split; [eapply tame_trans; [exact T|apply tame_quiet; [apply T|done]]|].
    split; [apply only_change|]. eexists. split; [by apply lookup_changed|]. by rewrite <- Eout.
  - destruct (bool_decide (_ = RolloutAttemptStatus.RESERVED) && _).
    + apply wp_ret. split; [apply HR; by rewrite <- Eout|]. split; [by apply tame_refl|]. split; [done|].
    exists s. split; [done|]. by rewrite <- Eout.
    + pose proof (tame_abandon i g' l' s Hg Hi Es) as T.
      apply wp_bind, wp_on_sibling, wp_bind. cbn [fst snd]. apply wp_emit; [apply Hlt|]. intros l2 Hq.
      apply wp_ret. split; [apply HR; by rewrite <- Eout|].
      split; [eapply tame_trans; [exact T|apply tame_quiet; [apply T|done]]|].
      split; [apply only_change|]. eexists. split; [by apply lookup_changed|]. by rewrite <- Eout.
Qed.

Lemma restart_group_ok restored g l :
  group_ok g ->
  wp (restart_group restored) (fun s2 r => tame (g, l) s2 /\ exists used, r = Ok used /\
    (status g <> PromptGroupStatus.GENERATING -> s2.1 = g /\ used = ∅) /\
    (status g = PromptGroupStatus.GENERATING ->
       recovery_granularity g = RecoveryGranularity.PROMPT_GROUP ->
       used = ∅ /\ forall i s, siblings g !! i = Some s -> exists s', siblings s2.1 !! i = Some s' /\
         cleared RolloutAttemptStatus.ABANDONED s s') /\
    (status g = PromptGroupStatus.GENERATING ->
       recovery_granularity g = RecoveryGranularity.SIBLING ->
       (forall i s, siblings g !! i = Some s ->
          siblings s2.1 !! i = Some (restart_outcome restored g i s).1) /\
       forall k, k ∈ used <-> exists i s, siblings g !! i = Some s /\
         k ∈ (restart_outcome restored g i s).2)) (g, l).
Proof.
  intros Hg. unfold restart_group. apply wp_bind, wp_record. cbn [fst].
  case_bool_decide as Hst; cbn [negb].
  2:{ apply wp_ret. split; [by apply tame_refl|]. eexists. split; [done|]. split; [done|].
      by split; intros. }
  destruct (decide (recovery_granularity g = RecoveryGranularity.PROMPT_GROUP)) as [Hp|Hp].
  - apply wp_bind. eapply wp_mono; [by apply abandon_entire_group_ok|].
    intros s2 r (-> & Ht & Hd). apply wp_ret. split; [done|]. eexists. split; [done|].
    split; [done|]. split; [done|]. intros _ Hp'. congruence.
  - apply wp_bind. eapply wp_mono.
    { eapply wp_map_each; [exact tame_trans|by apply tame_refl|apply restart_sibling_ok]. }
    intros s2 r ((ys & -> & Hys) & Ht & Hd). apply wp_ret. split; [done|]. eexists. split; [done|].
    split; [done|]. split; [done|]. intros _ _. split.
    + intros i s Hi. destruct (Hd i s Hi) as (s' & Hs' & ->). done.
    + intros k. rewrite elem_of_union_list. split.
      * intros (y & (n & Hn)%list_elem_of_lookup & Hk).
        destruct (Forall2_lookup_r _ _ _ _ _ Hys Hn) as (i & Hi & HR).
        apply lookup_seq in Hi as [-> Hlt]. destruct (lookup_lt_is_Some_2 (siblings g) n) as [s Hs]; [lia|].
        exists n, s. split; [done|]. by rewrite (HR s Hs) in Hk.
      * intros (i & s & Hi & Hk). pose proof (lookup_lt_Some _ _ _ Hi) as Hlt.
        assert (each_sibling g !! i = Some i) as He by (apply lookup_seq; lia).
        destruct (Forall2_lookup_l _ _ _ _ _ Hys He) as (y & Hy & HR).
        exists y. split; [by eapply list_elem_of_lookup_2|]. by rewrite (HR s Hi).
Qed.

(** ** Fresh attempts

    Relative to the record [g0] an operation began with, the UUIDs drawn so
    far are those of siblings whose current attempt is reserved. *)
Definition drawn_ok (fresh : nat -> uuid) (g0 g : PromptGroupRecoveryRecord) : Prop :=
  exists idx : list nat, NoDup idx /\ group_uuids g ≡ₚ group_uuids g0 ++ (fresh <$> idx) /\
    forall i, i ∈ idx -> exists s, siblings g !! i = Some s /\
      attempt_status (current_attempt s) = RolloutAttemptStatus.RESERVED.

Definition evolves (fresh : nat -> uuid) (g0 : PromptGroupRecoveryRecord) (s s' : GS) : Prop :=
  group_ok s'.1 /\ same_head s.1 s'.1 /\ same_state s.1 s'.1 /\
  (drawn_ok fresh g0 s.1 -> drawn_ok fresh g0 s'.1) /\ groups s'.2 = groups s.2.

Lemma evolves_refl fresh g0 g l : group_ok g -> evolves fresh g0 (g, l) (g, l).
Proof. done. Qed.

Lemma evolves_trans fresh g0 s1 s2 s3 :
  evolves fresh g0 s1 s2 -> evolves fresh g0 s2 s3 -> evolves fresh g0 s1 s3.
Proof.
  intros (_ & A1 & A2 & A3 & A4) (H & B1 & B2 & B3 & B4). split; [done|].
  split; [by etrans|]. split; [by etrans|]. split; [auto|congruence].
Qed.

Lemma drawn_ok_refl fresh g : drawn_ok fresh g g.
Proof.
  exists []. split; [constructor|]. split; [by rewrite app_nil_r|]. by intros i ?%not_elem_of_nil.
Qed.

Lemma concat_alter_app {A} (L : list (list A)) i x u :
  L !! i = Some x -> concat (alter (fun x => x ++ [u]) i L) ≡ₚ concat L ++ [u].
Proof.
  revert i. induction L as [|y L IH]; intros [|i] Hi; [done|done| |].
  - cbn. rewrite <- !app_assoc. by rewrite (Permutation_app_comm [u]).
  - cbn. rewrite (IH i Hi). by rewrite app_assoc.
Qed.

Lemma fmap_alter_comm {A B} (f : A -> B) (h : A -> A) (k : B -> B) i (l : list A) :
  (forall x, f (h x) = k (f x)) -> f <$> alter h i l = alter k i (f <$> l).
Proof.
  intros H. revert i. induction l as [|x l IH]; intros [|i]; cbn; [done|done| |].
  - by rewrite H.
  - f_equal. apply IH.
Qed.

Lemma attempts_append a s : attempts (append_attempt a s) = attempts s ++ [a].
Proof. done. Qed.

Lemma uuids_append i u g s :
  siblings g !! i = Some s ->
  group_uuids (change i (append_attempt (new_attempt u)) g) ≡ₚ group_uuids g ++ [u].
Proof.
  intros Hi. unfold group_uuids. cbn.
  rewrite (fmap_alter_comm _ _ (fun x => x ++ [u])).
  - apply (concat_alter_app _ i (attempt_uuid <$> attempts s)).
    by rewrite list_lookup_fmap, Hi.
  - intros x. rewrite attempts_append, fmap_app. done.
Qed.

Lemma group_ok_append i u g s :
  group_ok g -> siblings g !! i = Some s -> given_up (attempt_status (current_attempt s)) = true ->
  String.length u = 16%nat -> group_ok (change i (append_attempt (new_attempt u)) g).
Proof.
  intros Hg Hi Hup Hu. apply (group_ok_change i _ g s); [done|done| |].
  - destruct Hg as (_ & Hs & _). destruct (Hs i s Hi) as (Hgi & Hats & Hpast & _ & _).
    split; [done|]. rewrite attempts_append. split.
    { apply Forall_app_2; [done|]. constructor; [by apply attempt_ok_new|done]. }
    split; [apply Forall_app_2; [done|by constructor]|]. split; [done|]. by left.
  - transitivity false; [done|]. symmetry. apply not_sealed_status.
    apply given_up_spec in Hup as [-> | ->]; done.
Qed.

(** Appending a fresh attempt to a sibling that was given up. *)
Lemma evolves_append fresh g0 i g l s :
  group_ok g -> siblings g !! i = Some s -> given_up (attempt_status (current_attempt s)) = true ->
  String.length (fresh i) = 16%nat ->
  evolves fresh g0 (g, l) (change i (append_attempt (new_attempt (fresh i))) g, l).
Proof.
  intros Hg Hi Hup Hu. split; [by eapply group_ok_append|]. split; [apply same_head_change|].
  split; [done|]. split; [|done]. intros (idx & Hn & Hp & Hr). cbn [fst] in Hp, Hr. exists (i :: idx). split; [|split].
  - constructor; [|done]. intros Hin. destruct (Hr i Hin) as (s' & Hs' & Hst).
    rewrite Hi in Hs'. injection Hs' as <-. rewrite Hst in Hup. done.
  - cbn [fst]. rewrite (uuids_append i (fresh i) g s Hi), Hp, <- app_assoc.
    apply Permutation_app_head. cbn. by rewrite Permutation_app_comm.
  - intros j Hj. destruct (decide (i = j)) as [<-|Hne].
    + eexists. split; [by apply lookup_changed|done].
    + apply elem_of_cons in Hj as [->|Hj]; [done|]. destruct (Hr j Hj) as (s' & Hs' & Hst).
      exists s'. split; [|done]. cbn. by rewrite list_lookup_alter_ne.
Qed.

(** Giving up an attempt that is not reserved keeps the drawn ones. *)
Lemma evolves_abandon fresh g0 i g l s :
  group_ok g -> siblings g !! i = Some s -> is_sealed s = false ->
  attempt_status (current_attempt s) <> RolloutAttemptStatus.RESERVED ->
  evolves fresh g0 (g, l)
    (change i (with_current (with_attempt_status RolloutAttemptStatus.ABANDONED)) g, l).
Proof.
  intros Hg Hi Hs Hr. destruct (tame_abandon i g l s Hg Hi Hs) as (H1 & H2 & H3 & H4 & H5).
  cbn [fst snd] in *. split; [done|]. split; [done|]. split; [done|]. split; [|apply H5].
  intros (idx & Hn & Hp & Hres). exists idx. cbn [fst] in *. split; [done|].
  split; [by rewrite H4|].
  intros j Hj. destruct (Hres j Hj) as (s' & Hs' & Hst). exists s'. split; [|done].
  cbn. rewrite list_lookup_alter_ne; [done|]. intros ->. congruence.
Qed.

Lemma evolves_quiet fresh g0 g l l' :
  group_ok g -> groups l' = groups l -> evolves fresh g0 (g, l) (g, l').
Proof. done. Qed.

(** ** Retry *)

(** The sibling has an attempt to run, or may get one. *)
Definition retryable (g : PromptGroupRecoveryRecord) (s : RolloutSiblingRecord) : bool :=
  let st := attempt_status (current_attempt s) in
  given_up st || bool_decide (st = RolloutAttemptStatus.RESERVED)
  || (is_sealed s && bool_decide (recovery_granularity g = RecoveryGranularity.SIBLING)).

Definition retried (fresh : nat -> uuid) (i : nat) (s : RolloutSiblingRecord)
    : RolloutSiblingRecord :=
  if given_up (attempt_status (current_attempt s)) then append_attempt (new_attempt (fresh i)) s
  else s.

Lemma retry_sibling_ok fresh g0 g i s g' l' :
  String.length (fresh i) = 16%nat -> group_ok g' -> same_head g g' ->
  siblings g' !! i = Some s ->
  wp (retry_sibling fresh i) (fun s2 r => evolves fresh g0 (g', l') s2 /\ only i (g', l') s2 /\
    siblings s2.1 !! i = Some (retried fresh i s) /\ s2.2 = l' /\
    (retryable g s = true -> r = Ok tt) /\ (r = Ok tt -> retryable g s = true)) (g', l').
Proof.
  intros Hu Hg Hh Hi. unfold retry_sibling. apply wp_bind. eapply wp_sibling_at; [exact Hi|].
  apply wp_bind, wp_record. cbn [fst snd]. rewrite (same_granularity _ _ Hh).
  unfold retryable, retried. fold (is_sealed s).
  change (status_is RolloutAttemptStatus.SEALED (current_attempt s)) with (is_sealed s).
  assert (is_sealed s = true -> given_up (attempt_status (current_attempt s)) = false) as Hsg.
  { intros Hs%is_sealed_status. by rewrite Hs. }
  destruct (bool_decide (recovery_granularity g = _)) eqn:Eg, (is_sealed s) eqn:Es; cbn [andb orb].
  1:{ apply wp_ret. rewrite (Hsg eq_refl). split; [by apply evolves_refl|].
      by rewrite orb_true_r. }
  all: unfold status_is; set (res := bool_decide (attempt_status (current_attempt s) = _)).
  all: destruct res eqn:Er; [apply bool_decide_eq_true in Er|].
  1,3,5: apply wp_ret; rewrite Er; split; [by apply evolves_refl|]; done.
  all: apply wp_bind, wp_guard; destruct (given_up (attempt_status (current_attempt s))) eqn:Eu;
    cbn [negb orb andb]; split; try done; intros _.
  all: try (by split; [apply evolves_refl|]).
  all: apply wp_on_sibling; split; [by eapply evolves_append|]; split; [apply only_change|];
    split; [by apply lookup_changed|done].
Qed.

(** ** Dispatch *)

(** Environment state the sibling's attempt holds is still its own. *)
Definition still (s s' : RolloutSiblingRecord) : Prop :=
  holds_environment_state (current_attempt s) = true ->
  holds_environment_state (current_attempt s') = true /\
  attempt_uuid (current_attempt s') = attempt_uuid (current_attempt s) /\
  environment_attempt (current_attempt s') = environment_attempt (current_attempt s) /\
  forall inst, environment_instance_id (current_attempt s) = Some inst ->
    environment_instance_id (current_attempt s') = Some inst.

Definition care (g g' : PromptGroupRecoveryRecord) : Prop :=
  forall i s, siblings g !! i = Some s -> exists s', siblings g' !! i = Some s' /\ still s s'.

#[local] Instance still_preorder : PreOrder still.
Proof.
  split; [by intros s|]. intros s1 s2 s3 H12 H23 H. destruct (H12 H) as (A1 & A2 & A3 & A4).
  destruct (H23 A1) as (B1 & B2 & B3 & B4). split; [done|]. split; [congruence|].
  split; [congruence|auto].
Qed.

#[local] Instance care_preorder : PreOrder care.
Proof.
  split; [intros g i s Hi; by exists s|]. intros g1 g2 g3 H12 H23 i s Hi.
  destruct (H12 i s Hi) as (s2 & Hi2 & S2). destruct (H23 i s2 Hi2) as (s3 & Hi3 & S3).
  exists s3. split; [done|by etrans].
Qed.

Lemma care_only i s s' (x x' : GS) :
  only i x x' -> siblings x.1 !! i = Some s -> siblings x'.1 !! i = Some s' -> still s s' ->
  care x.1 x'.1.
Proof.
  intros Ho Hi Hi' Hs j sj Hj. destruct (decide (j = i)) as [->|Hne].
  - rewrite Hi in Hj. injection Hj as <-. by exists s'.
  - exists sj. split; [by rewrite Ho|done].
Qed.

Definition unstarted (st : RolloutAttemptStatus) : Prop :=
  st = RolloutAttemptStatus.RESERVED \/ st = RolloutAttemptStatus.DISPATCHED.

Lemma attempt_ok_instance gid i a owner :
  attempt_ok gid i a -> attempt_status a <> RolloutAttemptStatus.SEALED ->
  owner <> None -> owner <> Some "" -> attempt_ok gid i (with_instance owner a).
Proof.
  unfold attempt_ok. cbn. intros (H1 & H2 & H3 & H4 & H5) Ha Ho Ho'.
  rewrite decide_False in H5 by done. by rewrite decide_False.
Qed.

Lemma dispatch_attempt_ok owner i g l s :
  group_ok g -> phase g = PromptGroupPhase.ADMITTED -> owner <> Some "" ->
  siblings g !! i = Some s -> unstarted (attempt_status (current_attempt s)) ->
  wp (dispatch_attempt owner i) (fun s2 r => tame (g, l) s2 /\ only i (g, l) s2 /\
    exists s', siblings s2.1 !! i = Some s' /\ unstarted (attempt_status (current_attempt s')) /\ still s s') (g, l).
Proof.
  intros Hg Hp Ho Hi Hst.
  assert (is_sealed s = false) as Hse by (apply not_sealed_status; destruct Hst as [-> | ->]; done).
  pose proof (current_ok g i s Hg Hi) as Hc. pose proof (proj1 (not_sealed_status s) Hse) as Hns.
  unfold dispatch_attempt. apply wp_bind. eapply wp_sibling_at; [exact Hi|].
  apply wp_bind, wp_record, wp_bind, wp_guard. cbn [fst snd]. split; intros Ht.
  { split; [by apply tame_refl|]. split; [done|]. by exists s. }
  rewrite !andb_false_iff, !bool_decide_eq_false in Ht.
  assert (forall g1 s1, tame (g, l) (g1, l) -> siblings g1 !! i = Some s1 -> is_sealed s1 = false ->
    environment_attempt (current_attempt s1) = environment_attempt (current_attempt s) ->
    attempt_uuid (current_attempt s1) = attempt_uuid (current_attempt s) ->
    (restore_level g = RecoveryTargetLevel.TURN -> environment_instance_id (current_attempt s1) <> None) ->
    (forall inst, environment_instance_id (current_attempt s) = Some inst ->
       environment_instance_id (current_attempt s1) = Some inst) ->
    only i (g, l) (g1, l) ->
    wp (on_attempt i (with_attempt_status RolloutAttemptStatus.DISPATCHED))
      (fun s2 r => tame (g, l) s2 /\ only i (g, l) s2 /\
    exists s', siblings s2.1 !! i = Some s' /\ unstarted (attempt_status (current_attempt s')) /\ still s s') (g1, l)) as Hend.
  { intros g1 s1 T1 Hi1 Hs1 He Hu Ht1 Hin Honly. apply wp_on_sibling. cbn [fst snd].
    pose proof T1 as (Hg1 & (_ & Hl & _) & (Hph & _) & _). cbn [fst snd] in *. split.
    - eapply tame_trans; [exact T1|]. eapply tame_attempt; try done.
      + apply attempt_ok_status; [by apply current_ok|by apply not_sealed_status|done].
      + intros Hl1 _. cbn. apply Ht1. congruence.
      + intros Hp1. congruence.
    - split; [intros j Hj; cbn; rewrite list_lookup_alter_ne by done; by apply Honly|].
      eexists. split; [by apply lookup_changed|]. split; [by right|]. done. }
  destruct (environment_instance_id (current_attempt s)) as [inst|] eqn:Ei.
  - apply wp_bind, wp_guard. split; intros Hb.
    + split; [by apply tame_refl|]. split; [done|]. by exists s.
    + eapply Hend; [by apply tame_refl|done..|by rewrite Ei|by rewrite Ei|done].
  - case_bool_decide as Hn.
    + apply wp_bind, wp_ret.
      eapply Hend; [by apply tame_refl|done..|intros Hl; naive_solver|by rewrite Ei|done].
    + apply wp_bind, wp_on_sibling. cbn [fst snd].
      eapply Hend; [|by apply lookup_changed|done..|by intros|done|apply only_change].
      eapply tame_attempt; try done.
      * by apply attempt_ok_instance.
      * intros Hp'. congruence.
Qed.

(** ** From a record to its ledger *)

(** The first [n] UUIDs an operation draws: no two the same, none in use. *)
Definition distinct_uuids (n : nat) (fresh : nat -> uuid) : Prop :=
  (forall i j, (i < n)%nat -> (j < n)%nat -> fresh i = fresh j -> i = j) /\
  (forall i, (i < n)%nat -> String.length (fresh i) = 16%nat).

Definition fresh_for (n : nat) (fresh : nat -> uuid) (l : RolloutRecoveryLedger) : Prop :=
  distinct_uuids n fresh /\ (forall i, (i < n)%nat -> fresh i ∉ all_uuids l).

(** What an operation on a record leaves behind; [new] may be drawn. *)
Definition group_post (new : uuid -> Prop) (s s' : GS) : Prop :=
  group_ok s'.1 /\ group_id s'.1 = group_id s.1 /\ groups s'.2 = groups s.2 /\
  exists us, NoDup us /\ Forall new us /\ group_uuids s'.1 ≡ₚ group_uuids s.1 ++ us.

Definition drawn_from (n : nat) (fresh : nat -> uuid) (u : uuid) : Prop :=
  exists i, (i < n)%nat /\ u = fresh i.
Definition none_drawn (u : uuid) : Prop := False.

Lemma group_post_evolves fresh g l s' :
  distinct_uuids (length (siblings g)) fresh ->
  evolves fresh g (g, l) s' -> group_post (drawn_from (length (siblings g)) fresh) (g, l) s'.
Proof.
  intros (Hinj & _) (H1 & H2 & _ & H4 & H5). split; [done|]. split; [apply H2|]. split; [done|].
  destruct (H4 (drawn_ok_refl _ _)) as (idx & Hn & Hp & Hidx). exists (fresh <$> idx).
  assert (forall i, i ∈ idx -> (i < length (siblings g))%nat) as Hlt.
  { intros i Hi. destruct (Hidx i Hi) as (s & Hs & _). destruct H2 as (_ & _ & Hl & _). cbn [fst] in Hl.
    rewrite <- Hl. by eapply lookup_lt_Some. }
  split; [|split; [|done]].
  - apply NoDup_fmap_2_strong; [|done]. auto.
  - apply Forall_fmap, Forall_forall. intros i Hi. exists i. auto.
Qed.

Lemma group_post_same new g l g' l' :
  group_ok g' -> group_id g' = group_id g -> group_uuids g' = group_uuids g ->
  groups l' = groups l -> group_post new (g, l) (g', l').
Proof.
  intros H1 H2 H3 H4. split; [done|]. split; [done|]. split; [done|]. exists []. cbn.
  rewrite H3, app_nil_r. split; [constructor|]. split; [constructor|done].
Qed.

Lemma group_post_tame new g l s' : tame (g, l) s' -> group_post new (g, l) s'.
Proof.
  destruct s' as [g' l']. intros (H1 & H2 & _ & H4 & H5).
  apply group_post_same; [done|apply H2|done|apply H5].
Qed.

Lemma ledger_ok_group l gid g :
  ledger_ok l -> kv_get gid (groups l) = Some g -> gid = group_id g /\ group_ok g.
Proof. intros (Hn & Hg & _) Hk. apply Hg. by apply kv_get_elem. Qed.

Lemma ledger_ok_set new gid g l g' l' :
  ledger_ok l -> (forall u, new u -> u ∉ all_uuids l) -> kv_get gid (groups l) = Some g ->
  group_post new (g, l) (g', l') -> ledger_ok (with_groups (kv_set gid g' (groups l')) l').
Proof.
  intros Hl Hf Hk (Hok & Hid & Hgs & us & Hus & Hnew & Hperm). cbn [fst snd] in *.
  rewrite Hgs. clear Hgs.
  destruct (ledger_ok_group l gid g Hl Hk) as [-> _]. destruct Hl as (Hn & Hg & Hu).
  split; [by apply kv_set_NoDup|]. split.
  - intros gid2 g2. cbn. rewrite elem_of_kv_set by done. intros [[= -> ->]|[Hin _]]; [done|].
    by apply Hg.
  - destruct (kv_set_split _ _ _ Hk) as (d1 & d2 & Hd & Hset).
    unfold all_uuids, all_groups in *. cbn. rewrite Hset, Hd in *.
    rewrite !fmap_app in *. cbn in *. rewrite concat_app in *. cbn in *.
    rewrite Hperm, <- app_assoc, (Permutation_app_comm us).
    rewrite !app_assoc. rewrite app_assoc in Hu, Hf. apply NoDup_app. split; [done|].
    split; [|done]. intros u Hu1 Hu2. rewrite Forall_forall in Hnew. by apply (Hf u); [apply Hnew|].
Qed.

(** An operation on one group. *)
Lemma wp_on_group {A} gid (body : SE GS A) (Q : RolloutRecoveryLedger -> res A -> Prop) l :
  (forall g, kv_get gid (groups l) = Some g ->
     wp body (fun s' r => Q (with_groups (kv_set gid s'.1 (groups s'.2)) s'.2) r) (g, l)) ->
  (kv_get gid (groups l) = None -> Q l (Raise ValueError)) ->
  wp (on_group gid body) Q l.
Proof.
  intros H1 H2. unfold wp, on_group, require_group.
  destruct (kv_get gid (groups l)) as [g|] eqn:E; [|by apply H2].
  specialize (H1 g eq_refl). unfold wp in H1. destruct (body (g, l)) as [[g' l'] r]. exact H1.
Qed.

(** ** Environment state changes hands

    What the environment may still be running for a group: the episodes of
    attempts that hold environment state. *)
Definition owed (g : PromptGroupRecoveryRecord) (inst : string) (e : EnvironmentEpisode) : Prop :=
  exists i s, siblings g !! i = Some s /\ holds_environment_state (current_attempt s) = true /\
    environment_instance_id (current_attempt s) = Some inst /\
    e = episode_at (group_id g) i (current_attempt s).

(** Waiting to be retired by the environment. *)
Definition pending (m : gmap string (gset EnvironmentEpisode)) (inst : string)
    (e : EnvironmentEpisode) : Prop := exists es, m !! inst = Some es /\ e ∈ es.

(** Over for the environment: the rollout sealed, or was refused. *)
Definition settled (g : PromptGroupRecoveryRecord) (e : EnvironmentEpisode) : Prop :=
  exists i s, siblings g !! i = Some s /\ e = episode_at (group_id g) i (current_attempt s) /\
    (attempt_status (current_attempt s) = RolloutAttemptStatus.SEALED \/
     attempt_status (current_attempt s) = RolloutAttemptStatus.RESERVED).

Definition paid (s s' : GS) : Prop :=
  (forall inst e, owed s.1 inst e ->
     owed s'.1 inst e \/ pending (retirements s'.2) inst e \/ settled s'.1 e) /\
  (forall inst e, pending (retirements s.2) inst e -> pending (retirements s'.2) inst e).

(** What a live operation on a record leaves behind. *)
Definition live_post (new : uuid -> Prop) (s s' : GS) : Prop := group_post new s s' /\ paid s s'.

Lemma care_owed g g' inst e :
  care g g' -> group_id g' = group_id g -> owed g inst e -> owed g' inst e.
Proof.
  intros Hc Hid (i & s & Hi & Hh & Hin & ->). destruct (Hc i s Hi) as (s' & Hi' & Hs).
  destruct (Hs Hh) as (H1 & H2 & H3 & H4). exists i, s'. split; [done|]. split; [done|].
  split; [auto|]. unfold episode_at. by rewrite Hid, H2, H3.
Qed.

Lemma paid_care (s s' : GS) :
  care s.1 s'.1 -> group_id s'.1 = group_id s.1 -> retirements s'.2 = retirements s.2 -> paid s s'.
Proof.
  intros Hc Hid Hr. split; [|by rewrite Hr]. intros inst e Ho. left. by eapply care_owed.
Qed.

Lemma paid_refl s : paid s s.
Proof. by apply paid_care. Qed.

Lemma live_post_refl new g l : group_ok g -> live_post new (g, l) (g, l).
Proof. intros. split; [by apply group_post_tame, tame_refl|apply paid_refl]. Qed.

Lemma live_post_tame new g l s' :
  tame (g, l) s' -> care g s'.1 -> live_post new (g, l) s'.
Proof.
  intros Ht Hc. split; [by apply group_post_tame|]. destruct Ht as (_ & Hh & _ & _ & Hq).
  apply paid_care; [done|apply Hh|apply Hq].
Qed.

Lemma still_retried fresh i s : still s (retried fresh i s).
Proof.
  unfold retried. destruct (given_up _) eqn:Hu; [|done]. intros Hh. exfalso.
  unfold holds_environment_state in Hh. by apply given_up_spec in Hu as [Hu|Hu]; rewrite Hu in Hh.
Qed.

Lemma retry_loop_post fresh g l :
  distinct_uuids (length (siblings g)) fresh -> group_ok g ->
  wp (for_in (each_sibling g) (retry_sibling fresh))
    (fun s' _ => live_post (drawn_from (length (siblings g)) fresh) (g, l) s') (g, l).
Proof.
  intros Hd Hg. eapply wp_mono.
  - apply (wp_for (fun s => evolves fresh g (g, l) s /\ care g s.1 /\ s.2 = l));
      [by split; [apply evolves_refl|]|].
    intros i [g' l'] Hi (He & Hc & Hr). pose proof He as (Hg' & Hh & _).
    destruct (each_sibling_head g g' i Hh Hi) as [s Hs].
    eapply wp_mono; [eapply (retry_sibling_ok fresh g g); try done|].
    { apply elem_of_seq in Hi. apply Hd. lia. }
    cbn [fst snd] in *.
    intros s2 r (He2 & Ho & Hs2 & Hl2 & _). split; [by eapply evolves_trans|]. split; [|congruence].
    etrans; [exact Hc|]. eapply (care_only i s _ (g', l')); try done. apply still_retried.
  - intros s' r (He & Hc & Hl). split; [by apply group_post_evolves|].
    apply paid_care; [done|apply He|by rewrite Hl].
Qed.

Lemma prepare_incomplete_retry_post fresh g l :
  distinct_uuids (length (siblings g)) fresh -> group_ok g -> forall b1 b2 : bool,
  wp (_ ← guard b1 ValueError; _ ← guard b2 ValueError;
      _ ← for_in (each_sibling g) (retry_sibling fresh); record)
    (fun s' _ => live_post (drawn_from (length (siblings g)) fresh) (g, l) s') (g, l).
Proof.
  intros Hd Hg b1 b2. apply wp_bind, wp_guard. split; intros _; [by apply live_post_refl|].
  apply wp_bind, wp_guard. split; intros _; [by apply live_post_refl|].
  apply wp_bind. eapply wp_mono; [by apply retry_loop_post|]. by intros s' [[]|e] H.
Qed.

(** ** Dispatch, refusal and replacement on one record *)

Lemma traverse_require_sibling g indices ps :
  traverse (fun i => require_sibling i g) indices = Ok ps ->
  Forall (fun p => (p < length (siblings g))%nat) ps.
Proof.
  revert ps. induction indices as [|i idxs IH]; intros ps; cbn; [by intros [= <-]|].
  intros (p & Hp & H)%bind_Ok. apply bind_Ok in H as (ps' & Hps & [= <-]). constructor; [|by apply IH].
  unfold require_sibling in Hp. apply bind_Ok in Hp as ([] & Hb%raise_if_Ok & [= <-]). lia.
Qed.

Lemma dispatch_post owner positions g l :
  group_ok g -> phase g = PromptGroupPhase.ADMITTED -> owner <> Some "" ->
  (forall p, p ∈ positions -> exists s, siblings g !! p = Some s /\
     attempt_status (current_attempt s) = RolloutAttemptStatus.RESERVED) ->
  wp (_ ← for_in positions (dispatch_attempt owner);
      for_in positions (fun i => emit "attempt_dispatched" (Some i) []))
    (fun s' _ => tame (g, l) s' /\ care g s'.1) (g, l).
Proof.
  intros Hg Hp Ho Hpos. apply wp_bind. eapply wp_mono.
  - apply (wp_for (fun s => tame (g, l) s /\ care g s.1 /\ forall p, p ∈ positions ->
      exists s', siblings s.1 !! p = Some s' /\ unstarted (attempt_status (current_attempt s')))).
    { split; [by apply tame_refl|]. split; [done|]. intros p Hin.
      destruct (Hpos p Hin) as (s & Hs & Hst). exists s. split; [done|by left]. }
    intros i [g' l'] Hi (Ht & Hc & Hun). pose proof Ht as (Hg' & _ & (Hph & _) & _).
    destruct (Hun i Hi) as (s & Hs & Hst). cbn [fst snd] in *.
    eapply wp_mono; [eapply dispatch_attempt_ok; try done; congruence|].
    intros s2 r (Ht2 & Honly & s' & Hs' & Hst' & Hstill). split; [by eapply tame_trans|]. split.
    { etrans; [exact Hc|]. by eapply (care_only i s s' (g', l')). }
    intros p Hin. destruct (decide (p = i)) as [->|Hne]; [by exists s'|].
    destruct (Hun p Hin) as (sp & Hsp & Hstp). exists sp. by rewrite Honly.
  - intros [g2 l2] [[]|e] (Ht & Hc & Hun); [|done].
    apply (wp_for (fun s => tame (g, l) s /\ care g s.1)); [done|].
    intros i [g3 l3] Hi (Ht3 & Hc3). apply wp_emit.
    + intros j [= <-]. destruct (Hpos i Hi) as (s & Hs & _). destruct (Hc3 i s Hs) as (s3 & Hs3 & _).
      by eapply lookup_lt_Some.
    + intros l4 Hq. split; [|done]. eapply tame_trans; [exact Ht3|]. apply tame_quiet; [apply Ht3|done].
Qed.

(** Everything that is not dispatched keeps what it is. *)
Lemma refuse_post i g l s :
  group_ok g -> siblings g !! i = Some s ->
  attempt_status (current_attempt s) = RolloutAttemptStatus.DISPATCHED ->
  wp (_ ← on_attempt i (with_attempt_status RolloutAttemptStatus.RESERVED);
      emit "attempt_refused" (Some i) [])
    (fun s' _ => live_post none_drawn (g, l) s') (g, l).
Proof.
  intros Hg Hi Hst. assert (is_sealed s = false) as Hse by (apply not_sealed_status; by rewrite Hst).
  apply wp_bind, wp_on_sibling. cbn [fst snd].
  assert (tame (g, l) (change i (with_current (with_attempt_status RolloutAttemptStatus.RESERVED)) g, l))
    as Ht.
  { eapply tame_attempt; try done; [|by left].
    apply attempt_ok_status; [by apply current_ok|by apply not_sealed_status|done]. }
  apply wp_emit.
  { intros j [= <-]. cbn. rewrite length_alter. by eapply lookup_lt_Some. }
  intros l2 Hq. split.
  { apply group_post_tame. eapply tame_trans; [exact Ht|]. apply tame_quiet; [apply Ht|done]. }
  split; [|destruct Hq as (_ & Hr & _); cbn; by rewrite Hr].
  intros inst e (j & sj & Hj & Hh & Hin & ->). cbn [fst snd] in *. destruct (decide (i = j)) as [<-|Hne].
  - rewrite Hi in Hj. injection Hj as <-. right. right. exists i.
    eexists. split; [by apply lookup_changed|]. split; [done|]. by right.
  - left. exists j, sj. split; [cbn; by rewrite list_lookup_alter_ne|]. done.
Qed.

Lemma add_episode_pending inst e m : pending (add_episode inst e m) inst e.
Proof.
  unfold pending, add_episode. eexists. split; [apply lookup_insert_eq|]. set_solver.
Qed.

Lemma add_episode_mono inst e m inst' e' :
  pending m inst' e' -> pending (add_episode inst e m) inst' e'.
Proof.
  intros (es & Hes & He). unfold pending, add_episode.
  destruct (decide (inst = inst')) as [->|Hne].
  - eexists. split; [apply lookup_insert_eq|]. rewrite Hes. set_solver.
  - exists es. by rewrite lookup_insert_ne.
Qed.

(** Nothing settles: what was owed is owed or waits to be retired. *)
Definition kept (s s' : GS) : Prop :=
  (forall inst e, owed s.1 inst e -> owed s'.1 inst e \/ pending (retirements s'.2) inst e) /\
  (forall inst e, pending (retirements s.2) inst e -> pending (retirements s'.2) inst e).

Lemma kept_paid s s' : kept s s' -> paid s s'.
Proof. intros [H1 H2]. split; [|done]. intros inst e Ho. destruct (H1 inst e Ho); auto. Qed.

Lemma kept_refl s : kept s s.
Proof. by split; [left|]. Qed.

Lemma kept_trans s1 s2 s3 : kept s1 s2 -> kept s2 s3 -> kept s1 s3.
Proof.
  intros [A1 A2] [B1 B2]. split; [|auto]. intros inst e Ho.
  destruct (A1 inst e Ho) as [Ho'|]; auto.
Qed.

Lemma kept_care (s s' : GS) :
  care s.1 s'.1 -> group_id s'.1 = group_id s.1 ->
  (forall inst e, pending (retirements s.2) inst e -> pending (retirements s'.2) inst e) -> kept s s'.
Proof. intros Hc Hid Hr. split; [|done]. intros inst e Ho. left. by eapply care_owed. Qed.

Lemma sibling_index g i s : group_ok g -> siblings g !! i = Some s -> generation_index s = i.
Proof. intros (_ & Hs & _) Hi. by destruct (Hs i s Hi). Qed.

Lemma episode_ok g i s :
  group_ok g -> siblings g !! i = Some s ->
  environment_episode g i = Ok (episode_at (group_id g) i (current_attempt s)).
Proof. intros Hg Hi. apply environment_episode_at; [done|]. by apply (current_ok g i s Hg Hi). Qed.

Lemma replace_dropped_ok fresh g0 idx g l :
  distinct_uuids (length (siblings g)) fresh -> group_ok g ->
  wp (replace_dropped fresh idx)
    (fun s' _ => evolves fresh g0 (g, l) s' /\ kept (g, l) s') (g, l).
Proof.
  intros Hlen Hg. unfold replace_dropped. apply wp_bind, wp_record, wp_bind, wp_lift. cbn [fst snd].
  destruct (require_sibling idx g) as [i|e] eqn:Ei; [|by split; [apply evolves_refl|apply kept_refl]].
  assert (exists s, siblings g !! i = Some s) as [s Hi].
  { apply lookup_lt_is_Some_2. unfold require_sibling in Ei.
    apply bind_Ok in Ei as ([] & Hb%raise_if_Ok & [= <-]). lia. }
  apply wp_bind. eapply wp_sibling_at; [exact Hi|]. unfold status_is.
  case_bool_decide as Hst; cbn [negb].
  2:{ apply wp_ret. by split; [apply evolves_refl|apply kept_refl]. }
  assert (is_sealed s = false) as Hse by (apply not_sealed_status; by rewrite Hst).
  assert (forall l1, groups l1 = groups l ->
      (forall inst e, pending (retirements l) inst e -> pending (retirements l1) inst e) ->
      (forall inst, environment_instance_id (current_attempt s) = Some inst ->
         pending (retirements l1) inst (episode_at (group_id g) i (current_attempt s))) ->
      wp (_ ← on_attempt i (with_attempt_status RolloutAttemptStatus.ABANDONED);
          _ ← emit "attempt_abandoned" (Some i) [("reason", VStr "dropped")];
          on_sibling i (append_attempt (new_attempt (fresh i))))
        (fun s' _ => evolves fresh g0 (g, l) s' /\ kept (g, l) s') (g, l1)) as Hend.
  { intros l1 Hgs Hmono Hp. apply wp_bind, wp_on_sibling, wp_bind. cbn [fst snd].
    pose proof (evolves_abandon fresh g0 i g l1 s Hg Hi Hse ltac:(by rewrite Hst)) as E1.
    set (g1 := change i _ g) in *.
    assert (siblings g1 !! i = Some (with_current (with_attempt_status RolloutAttemptStatus.ABANDONED) s))
      as Hi1 by by apply lookup_changed.
    apply wp_emit; [intros j [= <-]; by eapply lookup_lt_Some|]. intros l2 Hq.
    apply wp_on_sibling. cbn [fst snd].
    pose proof (evolves_append fresh g0 i g1 l2 _ (proj1 E1) Hi1 eq_refl (proj2 Hlen i ltac:(by eapply lookup_lt_Some))) as E2.
    split.
    - eapply evolves_trans; [by apply (evolves_quiet _ _ g l l1)|].
      eapply evolves_trans; [exact E1|]. eapply evolves_trans; [|exact E2].
      apply evolves_quiet; [apply E1|apply Hq].
    - destruct Hq as (_ & Hr & _). split; cbn; rewrite Hr; [|exact Hmono].
      intros inst e (j & sj & Hj & Hh & Hin & ->). cbn [fst] in *. destruct (decide (i = j)) as [<-|Hne].
      + rewrite Hi in Hj. injection Hj as <-. right. by apply Hp.
      + left. exists j, sj. split; [|done]. cbn. by rewrite !list_lookup_alter_ne. }
  destruct (environment_instance_id (current_attempt s)) as [inst|] eqn:Ein.
  - apply wp_bind, wp_bind, wp_lift. rewrite (episode_ok g i s) by done. apply wp_on_ledger.
    cbn [fst snd]. apply Hend; [done|intros ??; apply add_episode_mono|].
    intros inst' [= <-]. apply add_episode_pending.
  - apply wp_bind, wp_ret. by apply Hend.
Qed.

Lemma replace_loop_post fresh indices g l :
  distinct_uuids (length (siblings g)) fresh -> group_ok g ->
  wp (for_in indices (replace_dropped fresh))
    (fun s' _ => live_post (drawn_from (length (siblings g)) fresh) (g, l) s') (g, l).
Proof.
  intros Hd Hg. eapply wp_mono.
  - apply (wp_for (fun s => evolves fresh g (g, l) s /\ kept (g, l) s));
      [by split; [apply evolves_refl|apply kept_refl]|].
    intros i [g' l'] _ (He & Hk). eapply wp_mono; [apply (replace_dropped_ok fresh g); [|apply He]|].
    { destruct He as (_ & (_ & _ & Hl & _) & _). cbn [fst] in Hl. by rewrite Hl. }
    intros s2 r (He2 & Hk2). split; [by eapply evolves_trans|by eapply kept_trans].
  - intros s' r (He & Hk). split; [by apply group_post_evolves|by apply kept_paid].
Qed.

(** ** Giving up with the environment's state retired *)

(** Retiring touches only the pending episodes. *)
Definition retiring (l l' : RolloutRecoveryLedger) : Prop :=
  groups l' = groups l /\ forgets l' = forgets l /\ event_sink l' = event_sink l /\
  forall inst e, pending (retirements l) inst e -> pending (retirements l') inst e.

Lemma record_environment_retirements_ok g l :
  group_ok g ->
  wp record_environment_retirements (fun s' r => r = Ok tt /\ s'.1 = g /\ retiring l s'.2 /\
    forall inst e, owed g inst e -> pending (retirements s'.2) inst e) (g, l).
Proof.
  intros Hg. unfold record_environment_retirements. apply wp_bind, wp_record. cbn [fst].
  eapply wp_mono.
  - apply (wp_for_seq (fun k s => s.1 = g /\ retiring l s.2 /\ forall i s0 inst, (i < k)%nat ->
      siblings g !! i = Some s0 -> holds_environment_state (current_attempt s0) = true ->
      environment_instance_id (current_attempt s0) = Some inst ->
      pending (retirements s.2) inst (episode_at (group_id g) i (current_attempt s0)))).
    { split; [done|]. split; [done|lia]. }
    intros k [g' l'] Hk (Hg' & Hret & Hdone). cbn [fst snd] in *. subst g'.
    destruct (lookup_lt_is_Some_2 (siblings g) k Hk) as [s Hs].
    unfold retire_sibling. apply wp_bind. eapply wp_sibling_at; [exact Hs|].
    apply wp_bind, wp_record. cbn [fst snd]. rewrite (sibling_index g k s), (episode_ok g k s) by done.
    assert (forall i s0, (i < 1 + k)%nat -> siblings g !! i = Some s0 ->
      (i < k)%nat \/ (i = k /\ s0 = s)) as Hcase.
    { intros i s0 Hi Hs0. destruct (decide (i = k)) as [->|]; [right|left; lia].
      split; [done|]. rewrite Hs in Hs0. congruence. }
    destruct (environment_instance_id (current_attempt s)) as [inst|] eqn:Ein;
      [destruct (holds_environment_state (current_attempt s)) eqn:Eh|].
    + apply wp_bind, wp_lift, wp_on_ledger. cbn [fst snd]. split; [done|]. split; [done|]. split.
      { destruct Hret as (R1 & R2 & R3 & R4). split; [done|]. split; [done|]. split; [done|].
        intros inst' e' Hp. by apply add_episode_mono, R4. }
      intros i s0 inst' Hi Hs0 Hh Hin. destruct (Hcase i s0 Hi Hs0) as [Hlt|[-> ->]].
      * apply add_episode_mono. by apply Hdone.
      * rewrite Ein in Hin. injection Hin as <-. apply add_episode_pending.
    + apply wp_ret. split; [done|]. split; [done|]. split; [done|]. intros i s0 inst' Hi Hs0 Hh Hin.
      destruct (Hcase i s0 Hi Hs0) as [Hlt|[-> ->]]; [by apply Hdone|congruence].
    + apply wp_ret. split; [done|]. split; [done|]. split; [done|]. intros i s0 inst' Hi Hs0 Hh Hin.
      destruct (Hcase i s0 Hi Hs0) as [Hlt|[-> ->]]; [by apply Hdone|congruence].
  - intros [g' l'] r (-> & -> & Hret & Hdone). split; [done|]. split; [done|]. split; [done|].
    intros inst e (i & s & Hi & Hh & Hin & ->). apply Hdone; [by eapply lookup_lt_Some|done..].
Qed.

Definition abandoned_if_unsealed (s s' : RolloutSiblingRecord) : Prop :=
  s' = if is_sealed s then s
       else with_current (with_attempt_status RolloutAttemptStatus.ABANDONED) s.

Lemma abandon_sibling_ok reason g l :
  body_ok (fun _ => abandoned_if_unsealed) (fun _ _ => True) (abandon_sibling reason) tame g l.
Proof.
  intros i s g' l' Ht _ Hi. pose proof Ht as (Hg & _). cbn [fst snd] in *.
  unfold abandon_sibling, abandoned_if_unsealed. apply wp_bind. eapply wp_sibling_at; [exact Hi|].
  change (status_is RolloutAttemptStatus.SEALED (current_attempt s)) with (is_sealed s).
  destruct (is_sealed s) eqn:Es.
  - apply wp_ret. split; [by exists tt|]. split; [by apply tame_refl|]. split; [done|]. by exists s.
  - pose proof (tame_abandon i g' l' s Hg Hi Es) as T.
    apply wp_bind, wp_on_sibling. cbn [fst snd]. rewrite (sibling_index g' i s) by done.
    apply wp_emit; [intros j [= <-]; cbn; rewrite length_alter; by eapply lookup_lt_Some|].
    intros l2 Hq. split; [by exists tt|].
    split; [eapply tame_trans; [exact T|apply tame_quiet; [apply T|done]]|].
    split; [apply only_change|]. eexists. split; [by apply lookup_changed|done].
Qed.

Lemma status_recomputed g :
  group_ok g -> unsafe_status (status g) = false ->
  (if all_sealed g then PromptGroupStatus.READY_TO_FINALIZE else PromptGroupStatus.GENERATING)
  = status g.
Proof.
  intros (_ & _ & [H1 H2] & _) Hs. unfold unsafe_status in Hs. apply bool_decide_eq_false in Hs.
  destruct (all_sealed g) eqn:Ha; [|by rewrite H2].
  destruct (status g); [by discriminate (H1 eq_refl)|done|naive_solver..].
Qed.

(** Once everything owed is pending, a tame rest keeps it. *)
Lemma retired_then_tame new g l l1 s' :
  retiring l l1 -> (forall inst e, owed g inst e -> pending (retirements l1) inst e) ->
  tame (g, l1) s' -> live_post new (g, l) s'.
Proof.
  intros (R1 & _ & _ & R4) Ho (T1 & T2 & T3 & T4 & Hq). cbn [fst snd] in *. split.
  - destruct s' as [g' l']. apply group_post_same; [done|apply T2|done|].
    destruct Hq as (Hq & _). cbn in *. congruence.
  - destruct Hq as (_ & Hr & _). split; cbn; rewrite Hr; auto.
Qed.

Lemma abandon_post reason g l :
  group_ok g -> unsafe_status (status g) = false ->
  wp (_ ← record_environment_retirements;
      if bool_decide (recovery_granularity g = RecoveryGranularity.PROMPT_GROUP)
         && bool_decide (status g = PromptGroupStatus.GENERATING)
      then abandon_entire_group reason
      else
        _ ← for_in (each_sibling g) (abandon_sibling reason);
        on_record (fun g => with_status
          (if all_sealed g then PromptGroupStatus.READY_TO_FINALIZE
           else PromptGroupStatus.GENERATING) g))
    (fun s2 r => live_post none_drawn (g, l) s2 /\ r = Ok tt /\ status s2.1 = status g /\
       forall i s, siblings g !! i = Some s -> exists s', siblings s2.1 !! i = Some s' /\
         (abandoned_if_unsealed s s' \/ cleared RolloutAttemptStatus.ABANDONED s s')) (g, l).
Proof.
  intros Hg Hst. apply wp_bind. eapply wp_mono; [by apply record_environment_retirements_ok|].
  intros [g1 l1] r (-> & Hg1 & Hret & Ho). cbn [fst snd] in *. subst g1.
  destruct (bool_decide _ && _) eqn:Eb.
  - apply andb_true_iff in Eb as [Hp%bool_decide_eq_true Hgen%bool_decide_eq_true].
    eapply wp_mono; [by apply abandon_entire_group_ok|]. intros s2 r (-> & Ht & Hd).
    split; [by eapply retired_then_tame|]. split; [done|].
    split; [by destruct Ht as (_ & _ & (_ & ?) & _)|].
    intros i s Hi. destruct (Hd i s Hi) as (s' & ? & ?). eauto.
  - apply wp_bind. eapply wp_mono.
    { apply wp_for_each; [exact tame_trans|by apply tame_refl|apply abandon_sibling_ok]. }
    intros [g2 l2] r (-> & Ht & Hd). apply wp_on_record. cbn [fst snd] in *.
    assert (status g2 = status g) as Hs2 by (by destruct Ht as (_ & _ & (_ & ?) & _)).
    rewrite (status_recomputed g2), with_status_same; [|apply Ht|by rewrite Hs2].
    split; [by eapply retired_then_tame|]. split; [done|]. split; [done|].
    intros i s Hi. destruct (Hd i s Hi) as (s' & ? & ?). eauto.
Qed.

(** ** Seals on one record *)

Lemma attempt_ok_sealed gid i a r mask keys :
  attempt_ok gid i a ->
  (forall c, s_reward_log_context r = Some c -> log_context_ok json_object c = true) ->
  attempt_staging_keys staging_key (capture_key (episode_at gid i a)) (s_receipt r)
    (s_logical_selection r) = Ok keys ->
  attempt_ok gid i (sealed_with r mask keys a).
Proof.
  unfold attempt_ok. intros (H1 & H2 & H3 & H4 & _) Hc Hk. cbn. split; [done|]. split; [done|].
  split; [done|]. split; [done|]. rewrite decide_True by done. by repeat split.
Qed.

Lemma sibling_ok_sealed g i s r mask keys :
  group_ok g -> siblings g !! i = Some s -> phase g = PromptGroupPhase.ADMITTED ->
  (forall c, s_reward_log_context r = Some c -> log_context_ok json_object c = true) ->
  attempt_staging_keys staging_key
    (capture_key (episode_at (group_id g) i (current_attempt s))) (s_receipt r)
    (s_logical_selection r) = Ok keys ->
  sibling_ok g i (with_current (sealed_with r mask keys) s).
Proof.
  intros (_ & Hs & _) Hi Hp Hc Hk. destruct (Hs i s Hi) as (H1 & H2 & H3 & _ & _).
  unfold attempts in H2. apply Forall_app in H2 as [H2 Ha%Forall_inv].
  split; [done|]. split; [|by split; [|split; [|intros; congruence]]].
  unfold attempts. cbn. apply Forall_app_2; [done|]. constructor; [|done].
  by apply attempt_ok_sealed.
Qed.

(** A dispatched attempt belongs to an admitted group. *)
Lemma dispatched_admitted g i s :
  group_ok g -> siblings g !! i = Some s ->
  attempt_status (current_attempt s) = RolloutAttemptStatus.DISPATCHED ->
  phase g = PromptGroupPhase.ADMITTED.
Proof.
  intros (_ & Hs & _) Hi Hst. destruct (Hs i s Hi) as (_ & _ & _ & _ & Hp).
  destruct (phase g); [|done]. rewrite Hst in Hp. by destruct (Hp eq_refl).
Qed.

(** Remembering a restored rollout that sealed. *)
Lemma wp_forget i g l s (Q : GS -> res unit -> Prop) :
  siblings g !! i = Some s -> 0 <= environment_attempt (current_attempt s) ->
  (forall l', groups l' = groups l -> retirements l' = retirements l ->
     event_sink l' = event_sink l -> Q (g, l') (Ok tt)) ->
  wp (record_environment_forget_if_restored i) Q (g, l).
Proof.
  intros Hi Hn HQ. unfold record_environment_forget_if_restored. apply wp_bind.
  eapply wp_sibling_at; [exact Hi|]. apply wp_bind, wp_record. cbn [fst snd].
  destruct (environment_instance_id _); [|by apply wp_ret, HQ].
  destruct (0 <? _); [|by apply wp_ret, HQ].
  apply wp_bind, wp_lift. rewrite (environment_episode_at g i s) by done.
  apply wp_on_ledger. by apply HQ.
Qed.

End invariant.
