(* ===== verification/RecoverySeals.v ===== *)
(** * Seals of the rollout recovery ledger

    What [mark_sibling_sealed] and [mark_group_sealed] of [RecoveryLedger]
    leave behind: a seal that raises changes nothing, a sibling's seal stores
    its result, and an atomic group is sealed as a whole. *)

From S2P Require Import Prelude PyVal PyStr StateErr Recovery RecoveryLedger RecoveryInv.

Section seals.
Context (staging_key : PyVal -> string -> res string) (json_object : string -> bool).
#[local] Abbreviation group_ok := (group_ok staging_key json_object) (only parsing).
#[local] Abbreviation ledger_ok := (ledger_ok staging_key json_object) (only parsing).
#[local] Abbreviation live_post := (live_post staging_key json_object) (only parsing).

#[local] Existing Instances same_head_preorder quiet_preorder same_state_preorder.

(** ** Operations on one group *)

(** [P] relates the record and the rest of the ledger before and after. *)
Definition op_post {A} (new : uuid -> Prop) (gid : string) (P : GS -> GS -> res A -> Prop)
    (l l' : RolloutRecoveryLedger) (r : res A) : Prop :=
  (l' = l /\ exists e, r = Raise e) \/
  exists g s', kv_get gid (groups l) = Some g /\ live_post new (g, l) s' /\ P (g, l) s' r /\
    l' = with_groups (kv_set gid s'.1 (groups s'.2)) s'.2.

Lemma wp_op {A} live new gid (body : SE GS A) P l :
  ledger_ok l ->
  (forall g, kv_get gid (groups l) = Some g -> group_ok g ->
     wp body (fun s' r => live_post new (g, l) s' /\ P (g, l) s' r) (g, l)) ->
  wp (_ ← require_live live; on_group gid body) (fun l' r => op_post new gid P l l' r) l.
Proof.
  intros Hl Hb. apply wp_bind. destruct live; [|left; by eauto].
  apply wp_ret, wp_on_group; [|intros _; left; by eauto].
  intros g Hk. destruct (ledger_ok_group _ _ l gid g Hl Hk) as [Hid Hok].
  eapply wp_mono; [by apply Hb|]. intros s' r (Hp & HP). right. exists g, s'. eauto.
Qed.

Lemma op_post_ok {A} new gid (P : GS -> GS -> res A -> Prop) l l' r :
  ledger_ok l -> (forall u, new u -> u ∉ all_uuids l) -> op_post new gid P l l' r -> ledger_ok l'.
Proof.
  intros Hl Hf [[-> _]|(g & [g' lx] & Hk & (Hp & _) & _ & ->)]; [done|]. by eapply ledger_ok_set.
Qed.

(** ** What a seal does to a sibling *)

Definition seals_to (s s' : RolloutSiblingRecord) : Prop :=
  is_sealed s' = true /\ attempt_uuid (current_attempt s') = attempt_uuid (current_attempt s) /\
  environment_attempt (current_attempt s') = environment_attempt (current_attempt s).

(** What siblings keep or seal is paid for. *)
Lemma paid_seals g l g' l' :
  (forall i s, siblings g !! i = Some s -> exists s', siblings g' !! i = Some s' /\
     (s' = s \/ seals_to s s')) ->
  group_id g' = group_id g -> retirements l' = retirements l -> paid (g, l) (g', l').
Proof.
  intros Hs Hid Hr. split; [|cbn; by rewrite Hr]. intros inst e (i & s & Hi & Hh & Hin & ->).
  cbn [fst snd] in *. destruct (Hs i s Hi) as (s' & Hi' & [->|(H1 & H2 & H3)]).
  - left. exists i, s. by rewrite Hid.
  - right. right. exists i, s'. split; [done|]. split; [by unfold episode_at; rewrite Hid, H2, H3|].
    left. by apply is_sealed_status.
Qed.

(** Everything a seal may change besides siblings, names and status. *)
Definition bystanders (s s' : GS) : Prop :=
  same_head s.1 s'.1 /\ phase s'.1 = phase s.1 /\ group_uuids s'.1 = group_uuids s.1 /\
  admission_id s'.1 = admission_id s.1 /\ prompt_id s'.1 = prompt_id s.1 /\
  prompt_ref s'.1 = prompt_ref s.1 /\ groups s'.2 = groups s.2 /\ retirements s'.2 = retirements s.2.

Lemma bystanders_refl s : bystanders s s.
Proof. by repeat split. Qed.

Lemma bystanders_trans s1 s2 s3 : bystanders s1 s2 -> bystanders s2 s3 -> bystanders s1 s3.
Proof.
  intros (A1 & A2 & A3 & A4 & A5 & A6 & A7 & A8) (B1 & B2 & B3 & B4 & B5 & B6 & B7 & B8).
  split; [etrans; [exact A1|exact B1]|]. repeat split; congruence.
Qed.

Lemma bystanders_head s s' :
  bystanders s s' -> head_ok s.1 -> resolved_agent_name s'.1 <> Some "" ->
  attribution_key s'.1 <> Some "" -> head_ok s'.1.
Proof.
  intros ((H1 & H2 & H3 & H4) & _ & _ & H5 & H6 & H7 & _) Hh Ha Hk. unfold head_ok in *.
  rewrite H1, H3, H4, H5, H6, H7. intuition.
Qed.

Lemma sibling_ok_head g g' i s :
  same_head g g' -> phase g' = phase g -> sibling_ok staging_key json_object g i s ->
  sibling_ok staging_key json_object g' i s.
Proof.
  intros (H1 & H2 & _) Hp Hs. unfold sibling_ok in *. by rewrite H1, H2, Hp.
Qed.

(** Where every sibling stays or seals, only the status is left to check. *)
Lemma group_post_seals new g l s' :
  group_ok g -> bystanders (g, l) s' ->
  resolved_agent_name s'.1 <> Some "" -> attribution_key s'.1 <> Some "" ->
  (forall i x, siblings s'.1 !! i = Some x -> sibling_ok staging_key json_object g i x) ->
  seals_ok s'.1 -> group_post staging_key json_object new (g, l) s'.
Proof.
  intros (Hh & _) Hb Ha Hk Hs Hz. destruct s' as [g' l']. pose proof Hb as (Hsh & Hp & Hu & _).
  cbn [fst snd] in *. apply group_post_same; [|apply Hsh|done|apply Hb].
  split; [by eapply (bystanders_head (g, l) (g', l'))|]. split; [|done].
  intros i x Hx. eapply sibling_ok_head; eauto.
Qed.

(** ** Sealing one attempt *)

Lemma wp_seal_attempt i r mask keys (Q : GS -> res unit -> Prop) g l s :
  siblings g !! i = Some s -> 0 <= environment_attempt (current_attempt s) ->
  (forall l', groups l' = groups l -> retirements l' = retirements l ->
     Q (change i (with_current (sealed_with r mask keys)) g, l') (Ok tt)) ->
  wp (apply_seal (i, r, mask, keys)) Q (g, l).
Proof.
  intros Hi He HQ. unfold apply_seal. apply wp_bind, wp_on_sibling, wp_bind. cbn [fst snd].
  eapply wp_forget; [by apply lookup_changed|done|]. intros l1 H1 H2 H3.
  apply wp_emit; [intros j [= <-]; cbn; rewrite length_alter; by eapply lookup_lt_Some|].
  intros l2 (H4 & H5 & _). apply HQ; congruence.
Qed.

(** The same steps, followed by others. *)
Lemma wp_apply_seal {A} i r mask keys (m : SE GS A) (Q : GS -> res A -> Prop) x :
  wp (apply_seal (i, r, mask, keys))
    (fun s' r => match r with Ok _ => wp m Q s' | Raise e => Q s' (Raise e) end) x ->
  wp (_ ← on_attempt i (sealed_with r mask keys);
      _ ← record_environment_forget_if_restored i;
      _ ← emit "attempt_sealed" (Some i) []; m) Q x.
Proof.
  unfold apply_seal. rewrite !wp_bind. intros H. eapply wp_mono; [exact H|].
  intros s' [[]|e]; [|done]. rewrite !wp_bind. intros H1. eapply wp_mono; [exact H1|].
  intros s2 [[]|e]; [|done]. by rewrite wp_bind.
Qed.

Lemma bystanders_seal i r mask keys g l l' s :
  siblings g !! i = Some s -> groups l' = groups l -> retirements l' = retirements l ->
  bystanders (g, l) (change i (with_current (sealed_with r mask keys)) g, l').
Proof.
  intros Hi H1 H2. split; [apply same_head_change|]. split; [done|].
  split; [by apply uuids_attempt|]. by repeat split.
Qed.

Lemma seals_to_sealed r mask keys s : seals_to s (with_current (sealed_with r mask keys) s).
Proof. split; [|done]. by apply is_sealed_status. Qed.

Definition log_contexts_ok (r : SiblingSealResult) : Prop :=
  forall c, s_reward_log_context r = Some c -> log_context_ok json_object c = true.

(** ** [mark_sibling_sealed] *)

(** What the checks of a seal establish. *)
Definition sealable (g : PromptGroupRecoveryRecord) (i : nat) (s : RolloutSiblingRecord)
    (r : SiblingSealResult) (mask : bool) (keys : list string) : Prop :=
  siblings g !! i = Some s /\
  s_gate_rollout_id r = capture_key (episode_at (group_id g) i (current_attempt s)) /\
  s_mask_sample r = VBool mask /\
  attempt_staging_keys staging_key (s_gate_rollout_id r) (s_receipt r) (s_logical_selection r) = Ok keys.

(** The outcome of sealing one sibling. *)
Definition sibling_sealed (r : SiblingSealResult) (x x' : GS) (res : res unit) : Prop :=
  match res with
  | Raise _ => x' = x
  | Ok _ => exists i s mask keys, sealable x.1 i s r mask keys /\
      ((attempt_status (current_attempt s) = RolloutAttemptStatus.SEALED /\
        same_result (current_attempt s) r mask keys = true /\ x' = x) \/
       (attempt_status (current_attempt s) = RolloutAttemptStatus.DISPATCHED /\
        siblings x'.1 = alter (with_current (sealed_with r mask keys)) i (siblings x.1) /\
        (status x'.1 = PromptGroupStatus.READY_TO_FINALIZE <-> all_sealed x'.1 = true)))
  end.

Lemma require_sibling_lookup g i k :
  require_sibling i g = Ok k -> i = Z.of_nat k /\ exists s, siblings g !! k = Some s.
Proof.
  unfold require_sibling. intros ([] & Hb%raise_if_Ok & [= <-])%bind_Ok.
  split; [lia|]. apply lookup_lt_is_Some_2. lia.
Qed.

Lemma gate_rollout_id_at g i s :
  group_ok g -> siblings g !! i = Some s ->
  gate_rollout_id g i = Ok (capture_key (episode_at (group_id g) i (current_attempt s))).
Proof. intros Hg Hi. unfold gate_rollout_id. by rewrite (episode_ok _ _ g i s Hg Hi). Qed.

Lemma require_bool_Ok v b : require_bool v = Ok b -> v = VBool b.
Proof. by destruct v; try done; intros [= ->]. Qed.

Lemma validate_name_Ok (old name : option string) :
  (_ ← raise_if (bool_decide (name = Some "")) ValueError;
   raise_if (negb (bool_decide (old = None)) && negb (bool_decide (old = name))) ValueError) = Ok tt ->
  name <> Some "".
Proof. intros ([] & Hb%raise_if_Ok & _)%bind_Ok. by apply bool_decide_eq_false in Hb. Qed.

Lemma generating_unsealed g i s :
  group_ok g -> siblings g !! i = Some s -> is_sealed s = false ->
  status g = PromptGroupStatus.GENERATING.
Proof.
  intros (_ & _ & Hst & _) Hi Hs. apply Hst. destruct (all_sealed g) eqn:E; [|done].
  rewrite (proj1 (all_sealed_elem g) E i s Hi) in Hs. done.
Qed.
(** Whether a group with a freshly sealed sibling is complete. *)
Lemma wp_complete (Q : GS -> res unit -> Prop) g l :
  status g = PromptGroupStatus.GENERATING ->
  (forall st l', quiet l l' -> (st = PromptGroupStatus.READY_TO_FINALIZE /\ all_sealed g = true \/
     st = PromptGroupStatus.GENERATING /\ all_sealed g = false) -> Q (with_status st g, l') (Ok tt)) ->
  wp (g' ← record;
      if all_sealed g' then
        _ ← on_record (with_status PromptGroupStatus.READY_TO_FINALIZE);
        emit "group_sealed" None []
      else mret tt) Q (g, l).
Proof.
  intros Hst HQ. apply wp_bind, wp_record. cbn [fst snd]. destruct (all_sealed g) eqn:E.
  - apply wp_bind, wp_on_record, wp_emit; [done|]. intros l' Hq. apply HQ; [done|by left].
  - apply wp_ret. rewrite <- (with_status_same g), Hst. apply HQ; [done|by right].
Qed.

(** Sealing one dispatched sibling of a group that keeps its siblings. *)
Lemma seal_dispatched_post agent key i r mask keys g l s :
  group_ok g -> recovery_granularity g = RecoveryGranularity.SIBLING ->
  sealable g i s r mask keys -> log_contexts_ok r ->
  attempt_status (current_attempt s) = RolloutAttemptStatus.DISPATCHED ->
  agent <> Some "" -> key <> Some "" ->
  wp (_ ← on_record (with_names agent key);
      _ ← on_attempt i (sealed_with r mask keys);
      _ ← record_environment_forget_if_restored i;
      _ ← emit "attempt_sealed" (Some i) [];
      g' ← record;
      if all_sealed g' then
        _ ← on_record (with_status PromptGroupStatus.READY_TO_FINALIZE);
        emit "group_sealed" None []
      else mret tt)
    (fun s' res => live_post none_drawn (g, l) s' /\ sibling_sealed r (g, l) s' res) (g, l).
Proof.
  intros Hg Hgran Hseal Hlog Hst Ha Hk. pose proof Hseal as (Hi & Hgate & Hmask & Hkeys).
  assert (is_sealed s = false) as Hse by (apply not_sealed_status; by rewrite Hst).
  pose proof (current_ok _ _ g i s Hg Hi) as (Hat & _).
  pose proof (generating_unsealed g i s Hg Hi Hse) as Hgen.
  apply wp_bind, wp_on_record. cbn [fst snd]. set (g1 := with_names agent key g).
  apply wp_apply_seal. eapply wp_seal_attempt; [exact Hi|done|]. intros l1 Hgs Hr. cbn.
  apply wp_complete; [done|]. intros st l2 (Hq1 & Hq2 & _) Hcase.
  set (g2 := change i (with_current (sealed_with r mask keys)) g1).
  change (st = PromptGroupStatus.READY_TO_FINALIZE /\ all_sealed g2 = true \/
    st = PromptGroupStatus.GENERATING /\ all_sealed g2 = false) in Hcase.
  assert (siblings (with_status st g2) = alter (with_current (sealed_with r mask keys)) i (siblings g))
    as Hsib by done.
  assert (bystanders (g, l) (with_status st g2, l2)) as Hb.
  { destruct (bystanders_seal i r mask keys g l l2 s Hi) as (B1 & B2 & B3 & B4 & B5 & B6 & B7 & B8);
      [congruence..|]. exact (conj B1 (conj B2 (conj B3 (conj B4 (conj B5 (conj B6 (conj B7 B8))))))). }
  split; [split|].
  - apply group_post_seals; try done; cbn [fst snd].
    + intros j x Hj. change (siblings (with_status st g2) !! j = Some x) in Hj. rewrite Hsib in Hj. destruct (decide (i = j)) as [<-|Hne].
      * rewrite list_lookup_alter_eq, Hi in Hj. injection Hj as <-.
        eapply sibling_ok_sealed; try done; [by eapply dispatched_admitted|by rewrite <- Hgate].
      * rewrite list_lookup_alter_ne in Hj by done. by destruct Hg as (_ & Hs & _); apply Hs.
    + split; [|unfold recovery_granularity in *; cbn; by rewrite Hgran].
      change (st = PromptGroupStatus.GENERATING <-> all_sealed g2 = false).
      destruct Hcase as [[-> E]|[-> E]]; rewrite E; done.
  - apply paid_seals; [|done|congruence]. intros j x Hj.
    change (exists x', alter (with_current (sealed_with r mask keys)) i (siblings g) !! j = Some x' /\
      (x' = x \/ seals_to x x')).
    destruct (decide (i = j)) as [<-|Hne].
    + rewrite list_lookup_alter_eq, Hj. eexists. split; [done|]. right. apply seals_to_sealed.
    + rewrite list_lookup_alter_ne by done. eauto.
  - exists i, s, mask, keys. split; [done|]. right. split; [done|]. split; [done|].
    change (st = PromptGroupStatus.READY_TO_FINALIZE <-> all_sealed g2 = true).
    destruct Hcase as [[-> E]|[-> E]]; rewrite E; done.
Qed.

Lemma mark_sibling_sealed_post live gid gi r l :
  ledger_ok l -> log_contexts_ok r ->
  wp (mark_sibling_sealed staging_key live gid gi r)
    (fun l' res => op_post none_drawn gid (sibling_sealed r) l l' res) l.
Proof.
  intros Hl Hlog. apply wp_op; [done|]. intros g _ Hg.
  assert (forall e : exc, live_post none_drawn (g, l) (g, l) /\
    sibling_sealed r (g, l) (g, l) (Raise e)) as Hraise by (intros e; by split; [apply live_post_refl|]).
  apply wp_bind, wp_record, wp_bind, wp_guard. cbn [fst snd]. split; intros Hp; [done|].
  apply bool_decide_eq_false in Hp.
  apply wp_bind, wp_lift. destruct (require_sibling gi g) as [i|e] eqn:Ei; [|done].
  apply require_sibling_lookup in Ei as [_ [s Hi]].
  apply wp_bind. eapply wp_sibling_at; [exact Hi|].
  apply wp_bind, wp_lift. rewrite (gate_rollout_id_at g i s Hg Hi).
  apply wp_bind, wp_lift. destruct (attempt_staging_keys _ _ _ _) as [keys|e] eqn:Ek; [|done].
  apply wp_bind, wp_lift. destruct (require_bool _) as [mask|e] eqn:Em; [|done].
  apply require_bool_Ok in Em.
  apply wp_bind, wp_lift. destruct (validate_agent_name _ _) as [[]|e] eqn:Ea; [|done].
  apply wp_bind, wp_lift. destruct (validate_attribution_key _ _) as [[]|e] eqn:Eat; [|done].
  apply validate_name_Ok in Ea, Eat.
  apply wp_bind, wp_guard. split; intros Hgate; [done|].
  apply negb_false_iff, bool_decide_eq_true in Hgate.
  apply wp_bind, wp_guard. split; intros Hfor; [done|].
  assert (sealable g i s r mask keys) as Hs by done.
  destruct (status_is RolloutAttemptStatus.SEALED _) eqn:Est.
  - apply bool_decide_eq_true in Est. apply wp_guard. split; intros Hsame; [done|].
    apply negb_false_iff in Hsame. split; [by apply live_post_refl|].
    exists i, s, mask, keys. split; [done|]. by left.
  - apply wp_bind, wp_guard. split; intros Hd; [done|].
    apply negb_false_iff, bool_decide_eq_true in Hd.
    apply (seal_dispatched_post _ _ i r mask keys g l s); try done.
    unfold recovery_granularity in *. by destruct (granularity _).
Qed.

(** ** [mark_group_sealed] *)

(** What the checks establish for sibling [i]. *)
Definition validated (results : gmap Z SiblingSealResult) (g : PromptGroupRecoveryRecord) (i : nat)
    (v : nat * SiblingSealResult * bool * list string) : Prop :=
  exists r mask keys s, v = (i, r, mask, keys) /\ results !! Z.of_nat i = Some r /\
    sealable g i s r mask keys /\ attempt_status (current_attempt s) = RolloutAttemptStatus.DISPATCHED.

Lemma validate_seal_ok results g l i :
  group_ok g ->
  wp (validate_seal staging_key results i) (fun s' r => s' = (g, l) /\
    forall v, r = Ok v -> validated results g i v) (g, l).
Proof.
  intros Hg. unfold validate_seal. apply wp_bind, wp_record, wp_bind, wp_lift. cbn [fst snd].
  destruct (results !! Z.of_nat i) as [r|] eqn:Er; [|done].
  apply wp_bind, wp_lift. destruct (require_sibling _ g) as [j|e] eqn:Ei; [|done].
  apply require_sibling_lookup in Ei as [<-%Nat2Z.inj [s Hi]].
  apply wp_bind. eapply wp_sibling_at; [exact Hi|].
  apply wp_bind, wp_lift. rewrite (gate_rollout_id_at g i s Hg Hi).
  apply wp_bind, wp_guard. split; intros Hd; [done|]. apply negb_false_iff, bool_decide_eq_true in Hd.
  apply wp_bind, wp_guard. split; intros Hgate; [done|].
  apply negb_false_iff, bool_decide_eq_true in Hgate.
  apply wp_bind, wp_guard. split; intros Hfor; [done|].
  apply wp_bind, wp_lift. destruct (require_bool _) as [mask|e] eqn:Em; [|done].
  apply require_bool_Ok in Em.
  apply wp_bind, wp_lift. destruct (attempt_staging_keys _ _ _ _) as [keys|e] eqn:Ek; [|done].
  apply wp_ret. split; [done|]. intros v [= <-]. by exists r, mask, keys, s.
Qed.

(** The siblings after the seals, against those before. *)
Definition sealed_by (results : gmap Z SiblingSealResult) (g : PromptGroupRecoveryRecord)
    (i : nat) (s s' : RolloutSiblingRecord) : Prop :=
  exists r mask keys, results !! Z.of_nat i = Some r /\ sealable g i s r mask keys /\
    attempt_status (current_attempt s) = RolloutAttemptStatus.DISPATCHED /\
    s' = with_current (sealed_with r mask keys) s.

Lemma seal_loop_ok results g g1 l vs :
  group_ok g -> siblings g1 = siblings g -> Forall2 (validated results g) (each_sibling g) vs ->
  wp (for_in vs apply_seal) (fun s2 r => r = Ok tt /\
    (bystanders (g1, l) s2 /\ resolved_agent_name s2.1 = resolved_agent_name g1 /\
     attribution_key s2.1 = attribution_key g1) /\
    forall i s, siblings g1 !! i = Some s -> exists s', siblings s2.1 !! i = Some s' /\
      sealed_by results g i s s') (g1, l).
Proof.
  intros Hg Hsib Hvs. unfold wp. rewrite for_in_lookup.
  assert (length vs = length (siblings g1)) as Hlen.
  { rewrite <- (Forall2_length _ _ _ Hvs), Hsib. apply length_seq. }
  rewrite Hlen.
  apply (wp_for_each (sealed_by results g) _ (fun s s' => bystanders s s' /\
    resolved_agent_name s'.1 = resolved_agent_name s.1 /\ attribution_key s'.1 = attribution_key s.1)
    g1 l).
  - intros s1 s2 s3 (A1 & A2 & A3) (B1 & B2 & B3). split; [by eapply bystanders_trans|].
    split; congruence.
  - split; [apply bystanders_refl|done].
  - intros i s g' l' (Hb & Ha & Hk) Hi Hi'. pose proof (lookup_lt_Some _ _ _ Hi) as Hlt.
    destruct (lookup_lt_is_Some_2 vs i) as [v Hv]; [lia|]. rewrite Hv.
    destruct (Forall2_lookup_r _ _ _ _ _ Hvs Hv) as (j & Hj & Hval).
    apply lookup_seq in Hj as [Hj _]. cbn in Hj. subst j.
    destruct Hval as (r & mask & keys & s0 & -> & Hr & Hs & Hd).
    pose proof Hs as (Hi0 & _). rewrite <- Hsib, Hi in Hi0. injection Hi0 as <-.
    assert (0 <= environment_attempt (current_attempt s)) as Hat.
    { rewrite Hsib in Hi. apply (current_ok _ _ g i s Hg Hi). }
    eapply wp_seal_attempt; [exact Hi'|done|]. intros l2 Hgs Hret.
    split; [by exists tt|]. split; [split; [by eapply bystanders_seal|done]|].
    split; [apply only_change|]. eexists. split; [by apply lookup_changed|].
    by exists r, mask, keys.
Qed.

(** The outcome of sealing a whole group: all of it or none of it. *)
Definition group_sealed (results : gmap Z SiblingSealResult) (x x' : GS) (res : res unit) : Prop :=
  match res with
  | Raise _ => x' = x
  | Ok _ => status x'.1 = PromptGroupStatus.READY_TO_FINALIZE /\
      forall i s, siblings x.1 !! i = Some s -> exists s', siblings x'.1 !! i = Some s' /\
        sealed_by results x.1 i s s'
  end.

Lemma each_sibling_expected g :
  group_ok g -> seq 0 (Z.to_nat (expected_generations g)) = each_sibling g.
Proof.
  intros ((_ & _ & _ & _ & _ & Hlen & _) & _). unfold each_sibling. by rewrite <- Hlen, Nat2Z.id.
Qed.

Lemma sealed_by_sealed results g i s s' : sealed_by results g i s s' -> seals_to s s'.
Proof. intros (r & mask & keys & _ & _ & _ & ->). apply seals_to_sealed. Qed.

(** Every sibling sealed by a valid result makes the group ready. *)
Lemma group_post_sealed results g l g' l' :
  group_ok g -> (forall i r, results !! i = Some r -> log_contexts_ok r) ->
  bystanders (g, l) (g', l') -> resolved_agent_name g' <> Some "" -> attribution_key g' <> Some "" ->
  status g' = PromptGroupStatus.READY_TO_FINALIZE ->
  (forall i s, siblings g !! i = Some s -> exists s', siblings g' !! i = Some s' /\
     sealed_by results g i s s') ->
  live_post none_drawn (g, l) (g', l').
Proof.
  intros Hg Hlog Hb Ha Hk Hst Hall. pose proof Hb as (Hh & _ & _ & _ & _ & _ & _ & Hr).
  assert (forall i s', siblings g' !! i = Some s' -> exists s, siblings g !! i = Some s /\
    sealed_by results g i s s') as Hback.
  { intros i s' Hi'. destruct (lookup_lt_is_Some_2 (siblings g) i) as [s Hi].
    - destruct Hh as (_ & _ & Hl & _). apply lookup_lt_Some in Hi'. cbn [fst] in Hl. lia.
    - destruct (Hall i s Hi) as (s2 & Hi2 & Hs2). rewrite Hi2 in Hi'. injection Hi' as <-. eauto. }
  split.
  - apply group_post_seals; try done; cbn [fst].
    + intros i s' Hi'. destruct (Hback i s' Hi') as (s & Hi & r & mask & keys & Hr' & Hs & Hd & ->).
      destruct Hs as (_ & Hgate & _ & Hkeys).
      apply sibling_ok_sealed; try done; [by eapply dispatched_admitted|by eapply Hlog|by rewrite <- Hgate].
    + assert (all_sealed g' = true) as Has.
      { apply all_sealed_elem. intros i s' Hi'. destruct (Hback i s' Hi') as (s & _ & Hs).
        by apply sealed_by_sealed in Hs as [? _]. }
      split; [rewrite Hst, Has; done|by left].
  - apply paid_seals; [|apply Hh|done]. intros i s Hi. destruct (Hall i s Hi) as (s' & Hi' & Hs).
    exists s'. split; [done|]. right. by eapply sealed_by_sealed.
Qed.

Lemma mark_group_sealed_post live gid results l :
  ledger_ok l -> (forall i r, results !! i = Some r -> log_contexts_ok r) ->
  wp (mark_group_sealed staging_key live gid results)
    (fun l' res => op_post none_drawn gid (group_sealed results) l l' res) l.
Proof.
  intros Hl Hlog. apply wp_op; [done|]. intros g _ Hg.
  assert (forall e : exc, live_post none_drawn (g, l) (g, l) /\
    group_sealed results (g, l) (g, l) (Raise e)) as Hraise by (intros e; by split; [apply live_post_refl|]).
  apply wp_bind, wp_record. cbn [fst snd].
  apply wp_bind, wp_guard. split; intros _; [done|].
  apply wp_bind, wp_guard. split; intros _; [done|].
  apply wp_bind, wp_guard. split; intros _; [done|].
  apply wp_bind, wp_lift. destruct (common s_resolved_agent_name results) as [agent|e]; [|done].
  apply wp_bind, wp_lift. destruct (validate_agent_name g agent) as [[]|e] eqn:Ea; [|done].
  apply wp_bind, wp_lift. destruct (common attribution_of results) as [key|e]; [|done].
  apply wp_bind, wp_lift. destruct (validate_attribution_key g key) as [[]|e] eqn:Ek; [|done].
  apply validate_name_Ok in Ea, Ek. rewrite each_sibling_expected by done.
  apply wp_bind. eapply wp_mono.
  { apply (wp_map_read (validated results g)). intros i _. by apply validate_seal_ok. }
  intros s' [vs|e] [-> Hvs]; [|done]. specialize (Hvs vs eq_refl).
  apply wp_bind, wp_on_record, wp_bind. cbn [fst snd].
  eapply wp_mono; [by apply (seal_loop_ok results g (with_names agent key g))|].
  intros [g2 l2] r (-> & (Hb & Ha & Hk) & Hall). cbn [fst snd with_names siblings] in *.
  apply wp_bind, wp_on_record, wp_emit; [done|]. cbn [fst snd]. intros l3 (Hq1 & Hq2 & _).
  assert (bystanders (g, l) (with_status PromptGroupStatus.READY_TO_FINALIZE g2, l3)) as Hb3.
  { destruct Hb as (B1 & B2 & B3 & B4 & B5 & B6 & B7 & B8). cbn [fst snd] in *.
    split; [exact B1|]. split; [exact B2|]. split; [exact B3|]. split; [exact B4|].
    split; [exact B5|]. split; [exact B6|]. split; cbn [snd]; congruence. }
  split; [|done]. apply (group_post_sealed results); try done; cbn [resolved_agent_name attribution_key with_status];
    [by rewrite Ha|by rewrite Hk].
Qed.

End seals.
