(* ===== verification/RecoveryOps.v ===== *)
(** * The operations of the rollout recovery ledger, as steps

    Every operation of [RecoveryLedger] keeps the invariant of [RecoveryInv],
    and every operation of a running controller keeps custody of the
    environment state it may hold. *)

From S2P Require Import Prelude PyVal PyStr StateErr Recovery RecoveryLedger RecoveryInv.
From S2P Require Import RecoverySeals.

Section ops.
Context (staging_key : PyVal -> string -> res string) (json_object : string -> bool).
#[local] Abbreviation group_ok := (group_ok staging_key json_object) (only parsing).
#[local] Abbreviation ledger_ok := (ledger_ok staging_key json_object) (only parsing).
#[local] Abbreviation live_post := (live_post staging_key json_object) (only parsing).
#[local] Abbreviation group_post := (group_post staging_key json_object) (only parsing).
#[local] Abbreviation op_post := (op_post staging_key json_object) (only parsing).

(** How many siblings a group has. *)
Definition group_size (gid : string) (l : RolloutRecoveryLedger) : nat :=
  match kv_get gid (groups l) with Some g => length (siblings g) | None => 0 end.

Definition anything {A} (x x' : GS) (r : res A) : Prop := True.

(** A record whose siblings stay as they are. *)
Lemma live_post_siblings new g l g' l' :
  group_ok g' -> siblings g' = siblings g -> group_id g' = group_id g ->
  groups l' = groups l -> retirements l' = retirements l -> live_post new (g, l) (g', l').
Proof.
  intros Hg Hs Hid Hgs Hr. split.
  - apply group_post_same; try done. unfold group_uuids. by rewrite Hs.
  - apply paid_care; [|done|done]. cbn. intros i s Hi. exists s. by rewrite Hs.
Qed.

Lemma group_ok_status st g :
  group_ok g -> status g <> PromptGroupStatus.GENERATING -> st <> PromptGroupStatus.GENERATING ->
  group_ok (with_status st g).
Proof.
  intros (Hh & Hs & H1 & H2) Hn Hst. split; [done|]. split; [done|]. split; [|done].
  change (st = PromptGroupStatus.GENERATING <-> all_sealed g = false).
  split; [done|]. by intros E%H1.
Qed.

(** ** Live operations on one group *)

Lemma mark_group_admitted_post live gid target start l :
  ledger_ok l ->
  wp (mark_group_admitted live gid target start) (op_post none_drawn gid anything l) l.
Proof.
  intros Hl. apply wp_op; [done|]. intros g _ Hg.
  apply wp_bind, wp_record, wp_bind, wp_guard. cbn [fst snd].
  split; intros Hp; [by split; [apply live_post_refl|]|].
  apply wp_bind, wp_on_record, wp_emit; [done|]. cbn [fst snd]. intros l' (H1 & H2 & _). split; [|done].
  apply live_post_siblings; try done. destruct Hg as (Hh & Hs & Hz). split; [done|]. split; [|done].
  intros i s Hi. destruct (Hs i s Hi) as (A1 & A2 & A3 & A4 & A5). repeat split; done.
Qed.

Lemma bind_runtime_prompt_post live gid payload l :
  ledger_ok l ->
  wp (bind_runtime_prompt live gid payload) (op_post none_drawn gid anything l) l.
Proof.
  intros Hl. apply wp_op; [done|]. intros g _ Hg. apply wp_bind, wp_record, wp_bind, wp_lift.
  destruct (validate_prompt_identity _ _) as [[]|e]; [|by split; [apply live_post_refl|]].
  apply wp_on_record. split; [|done]. by apply live_post_siblings.
Qed.

Lemma prepare_incomplete_retry_op live gid fresh l :
  ledger_ok l -> distinct_uuids (group_size gid l) fresh ->
  wp (prepare_incomplete_retry live gid fresh) (op_post (drawn_from (group_size gid l) fresh) gid anything l) l.
Proof.
  intros Hl. unfold group_size. intros Hd. apply wp_op; [done|]. intros g Hk Hg. rewrite Hk in *. apply wp_bind, wp_record.
  eapply wp_mono; [by eapply prepare_incomplete_retry_post|]. by split.
Qed.

Lemma mark_group_dispatched_post live gid indices owner l :
  ledger_ok l -> owner <> Some "" ->
  wp (mark_group_dispatched live gid indices owner) (op_post none_drawn gid anything l) l.
Proof.
  intros Hl Ho. apply wp_op; [done|]. intros g _ Hg. apply wp_bind, wp_record. cbn [fst snd].
  assert (live_post none_drawn (g, l) (g, l)) as Hrefl by by apply live_post_refl.
  apply wp_bind, wp_guard. split; intros Hp; [done|].
  apply wp_bind, wp_guard. split; intros Hst; [done|].
  apply wp_bind, wp_lift. destruct (traverse _ _) as [ps|e] eqn:Eps; [|done].
  apply wp_bind, wp_lift. destruct (traverse (get_index _) ps) as [ss|e] eqn:Ess; [|done].
  apply wp_bind, wp_guard. split; intros Hr; [done|].
  apply negb_false_iff, bool_decide_eq_true in Hp.
  eapply wp_mono; [apply (dispatch_post staging_key json_object owner ps g l); try done|].
  - intros p Hin. apply traverse_require_sibling in Eps. rewrite Forall_forall in Eps.
    destruct (lookup_lt_is_Some_2 (siblings g) p (Eps p Hin)) as [s Hs]. exists s. split; [done|].
    apply list_elem_of_lookup in Hin as [k Hk]. apply traverse_Ok in Ess.
    destruct (Forall2_lookup_l _ _ _ _ _ Ess Hk) as (s' & Hs' & Hg').
    unfold get_index in Hg'. rewrite Hs in Hg'. injection Hg' as <-.
    destruct (status_is RolloutAttemptStatus.RESERVED (current_attempt s)) eqn:E;
      [by apply bool_decide_eq_true in E|]. exfalso.
    rewrite <- not_true_iff_false, existsb_exists in Hr. apply Hr. exists s.
    split; [by apply list_elem_of_In, list_elem_of_lookup_2 with k|]. by rewrite E.
  - intros s' r (Ht & Hc). split; [by apply live_post_tame|done].
Qed.

Lemma release_refused_dispatch_post live gid gi l :
  ledger_ok l ->
  wp (release_refused_dispatch live gid gi) (op_post none_drawn gid anything l) l.
Proof.
  intros Hl. apply wp_op; [done|]. intros g _ Hg. apply wp_bind, wp_record. cbn [fst snd].
  assert (live_post none_drawn (g, l) (g, l)) as Hrefl by by apply live_post_refl.
  apply wp_bind, wp_guard. split; intros Hst; [done|].
  apply wp_bind, wp_lift. destruct (require_sibling gi g) as [i|e] eqn:Ei; [|done].
  apply require_sibling_lookup in Ei as [_ [s Hi]].
  apply wp_bind. eapply wp_sibling_at; [exact Hi|].
  apply wp_bind, wp_guard. split; intros Hd; [done|].
  apply negb_false_iff, bool_decide_eq_true in Hd.
  eapply wp_mono; [by eapply refuse_post|]. by split.
Qed.

Lemma replace_dropped_dispatch_post live gid indices fresh l :
  ledger_ok l -> distinct_uuids (group_size gid l) fresh ->
  wp (replace_dropped_dispatch live gid indices fresh) (op_post (drawn_from (group_size gid l) fresh) gid anything l) l.
Proof.
  intros Hl. unfold group_size. intros Hd. apply wp_op; [done|]. intros g Hk Hg. rewrite Hk in *. apply wp_bind, wp_record.
  assert (live_post (drawn_from (length (siblings g)) fresh) (g, l) (g, l)) as Hrefl by by apply live_post_refl.
  apply wp_bind, wp_guard. split; intros Hst; [done|].
  apply wp_bind, wp_guard. split; intros Hp; [done|].
  eapply wp_mono; [by eapply replace_loop_post|]. by split.
Qed.

(** The siblings after giving up. *)
Definition given_up_unsealed {A} (x x' : GS) (r : res A) : Prop :=
  (exists e, r = Raise e) /\ x' = x \/
  status x'.1 = status x.1 /\
  forall i s, siblings x.1 !! i = Some s -> exists s', siblings x'.1 !! i = Some s' /\
    (abandoned_if_unsealed s s' \/ cleared RolloutAttemptStatus.ABANDONED s s').

Lemma abandon_unsealed_post live gid reason l :
  ledger_ok l ->
  wp (abandon_unsealed live gid reason) (op_post none_drawn gid given_up_unsealed l) l.
Proof.
  intros Hl. apply wp_op; [done|]. intros g _ Hg. apply wp_bind, wp_record. cbn [fst snd].
  apply wp_bind, wp_guard. split; intros Hst.
  { split; [by apply live_post_refl|]. left. by eauto. }
  eapply wp_mono; [by eapply abandon_post|]. intros s' r (Hp & _ & Hs & Hall). split; [done|].
  by right.
Qed.

(** [status] moves to [st]; the siblings stay. *)
Definition moved (from st : PromptGroupStatus) (x x' : GS) (r : res unit) : Prop :=
  (r <> Ok tt -> x' = x) /\ (r = Ok tt -> status x.1 = from /\ x' = (with_status st x.1, x.2)).

Lemma finalization_post from st live gid l :
  ledger_ok l -> from <> PromptGroupStatus.GENERATING -> st <> PromptGroupStatus.GENERATING ->
  wp (_ ← require_live live;
      on_group gid (g ← record; _ ← lift (require_group_status from g); on_record (with_status st)))
    (op_post none_drawn gid (moved from st) l) l.
Proof.
  intros Hl Hfrom Hto. apply wp_op; [done|]. intros g _ Hg. apply wp_bind, wp_record. cbn [fst snd].
  apply wp_bind, wp_lift. unfold require_group_status. case_bool_decide as Hst; cbn [negb raise_if].
  - apply wp_on_record. split; [|by split]. apply live_post_siblings; try done.
    apply group_ok_status; [done|cbn; congruence|done].
  - split; [by apply live_post_refl|by split].
Qed.
(** ** Reserving a group *)

Lemma str_or_nonempty x y : y <> "" -> str_or x y <> "".
Proof. destruct x as [s|]; cbn; [|done]. by destruct (decide (s = "")). Qed.

Lemma uuid_str_nonempty u : String.length u = 16%nat -> uuid_str u <> "".
Proof. by destruct u. Qed.

(** UUIDs for the siblings of a new group. *)
Lemma reserved_group_ok gid admission prompt ref source level payload expected target start admitted
    (fresh : nat -> uuid) :
  gid <> "" -> admission <> "" -> prompt <> "" -> sample_id ref = prompt -> 1 <= expected ->
  (forall i, (i < Z.to_nat expected)%nat -> String.length (fresh i) = 16%nat) ->
  group_ok (mkGroup gid admission prompt ref source level (Some payload) expected target start
    ((fun i => mkSibling i [] (new_attempt (fresh i))) <$> seq 0 (Z.to_nat expected))
    (if admitted : bool then PromptGroupPhase.ADMITTED else PromptGroupPhase.RESERVED)
    PromptGroupStatus.GENERATING None None).
Proof.
  intros H1 H2 H3 H4 H5 Hlen. set (g := mkGroup _ _ _ _ _ _ _ _ _ _ _ _ _ _ _).
  assert (forall i s, siblings g !! i = Some s ->
    s = mkSibling i [] (new_attempt (fresh i)) /\ (i < Z.to_nat expected)%nat) as Hs.
  { intros i s. cbn. rewrite list_lookup_fmap. intros (j & Hj & Hs)%fmap_Some.
    apply lookup_seq in Hj as [Hj Hlt]. cbn in Hj. by subst j. }
  assert (all_sealed g = false) as Has.
  { apply not_true_iff_false. intros E. rewrite all_sealed_elem in E.
    destruct (lookup_lt_is_Some_2 (siblings g) 0) as [s0 Hs0].
    { cbn. rewrite length_fmap, length_seq. lia. }
    specialize (E 0%nat s0 Hs0). by rewrite (proj1 (Hs _ _ Hs0)) in E. }
  split; [|split].
  - split; [done|]. split; [done|]. split; [done|]. split; [done|]. split; [done|].
    split; [|done]. cbn. rewrite length_fmap, length_seq. lia.
  - intros i s Hi. destruct (Hs i s Hi) as [-> Hlt]. split; [done|]. split.
    { constructor; [by apply attempt_ok_new, Hlen|constructor]. }
    split; [constructor|]. split; [done|]. by left.
  - split; [by rewrite Has|]. intros _. right. apply none_sealed_elem. intros i s Hi.
    by rewrite (proj1 (Hs i s Hi)).
Qed.

Lemma reserved_uuids (fresh : nat -> uuid) n :
  concat ((fun s => attempt_uuid <$> attempts s) <$>
    ((fun i => mkSibling i [] (new_attempt (fresh i))) <$> seq 0 n)) = fresh <$> seq 0 n.
Proof. generalize 0%nat. induction n as [|n IH]; intros k; [done|]. cbn. f_equal. apply IH. Qed.

Lemma kv_set_new {A} k (v : A) d : k ∉ d.*1 -> kv_set k v d = d ++ [(k, v)].
Proof.
  induction d as [|[k' w] d IH]; cbn; [done|]. intros [Hne Hni]%not_elem_of_cons.
  rewrite decide_False by done. by rewrite IH.
Qed.

Lemma ledger_ok_add l l' g :
  ledger_ok l -> group_ok g -> group_id g ∉ (groups l).*1 -> NoDup (group_uuids g) ->
  (forall u, u ∈ group_uuids g -> u ∉ all_uuids l) ->
  groups l' = groups l ++ [(group_id g, g)] -> ledger_ok l'.
Proof.
  intros (Hn & Hgs & Hu) Hg Hni Hnu Hf Hgr. unfold RecoveryInv.ledger_ok, all_uuids, all_groups in *.
  rewrite Hgr. clear Hgr. rewrite !fmap_app, concat_app. cbn. rewrite app_nil_r. split; [|split].
  - apply NoDup_app. split; [done|]. split; [|apply NoDup_singleton].
    intros x Hx ->%list_elem_of_singleton. done.
  - intros gid g'. rewrite elem_of_app, list_elem_of_singleton. intros [Hin|[= -> ->]]; auto.
  - apply NoDup_app. split; [done|]. split; [|done]. intros u H1 H2. by apply (Hf u).
Qed.

Lemma reserve_group_keeps live prompt payload expected target start source level admitted gid
    admission ref fresh_group fresh l :
  ledger_ok l -> fresh_for (Z.to_nat expected) fresh l -> String.length fresh_group = 16%nat ->
  wp (reserve_group live prompt payload expected target start source level admitted gid admission
        ref fresh_group fresh)
    (fun l' r => (l' = l /\ exists e, r = Raise e) \/
       exists g, r = Ok g /\ ledger_ok l' /\ groups l' = groups l ++ [(group_id g, g)] /\
         retirements l' = retirements l /\ forgets l' = forgets l) l.
Proof.
  intros Hl ((Hinj & Hlen) & Hfr) Hfg.
  assert (forall e : exc, (l = l /\ exists e', @Raise PromptGroupRecoveryRecord e = Raise e') \/
    exists g, @Raise PromptGroupRecoveryRecord e = Ok g /\ ledger_ok l /\
      groups l = groups l ++ [(group_id g, g)] /\ retirements l = retirements l /\
      forgets l = forgets l) as Hraise by (intros e; left; eauto).
  unfold reserve_group. apply wp_bind. destruct live; [|by apply wp_lift, Hraise]. apply wp_ret.
  apply wp_bind, wp_guard. split; intros Hpr; [done|]. apply bool_decide_eq_false in Hpr.
  apply wp_bind, wp_lift. set (mref := match ref with Some r => Ok r | None => _ end).
  destruct mref as [rf|e]; [|done].
  apply wp_bind, wp_guard. split; intros Hrf; [done|]. apply negb_false_iff, bool_decide_eq_true in Hrf.
  apply wp_bind, wp_guard. split; intros Hex; [done|].
  apply wp_bind, wp_get. apply wp_bind, wp_guard. split; intros Hdup; [done|].
  apply bool_decide_eq_false in Hdup.
  apply wp_bind, wp_guard. split; intros Had; [done|]. apply bool_decide_eq_false in Had.
  set (gid' := str_or gid _) in *. set (g := mkGroup _ _ _ _ _ _ _ _ _ _ _ _ _ _ _).
  assert (group_ok g) as Hg.
  { apply reserved_group_ok; try done; [by apply str_or_nonempty, uuid_str_nonempty|lia]. }
  apply wp_bind, wp_modify, wp_bind.
  assert (groups (with_groups (kv_set gid' g (groups l)) l) = groups l ++ [(group_id g, g)]) as Hset
    by by apply kv_set_new.
  apply wp_on_group.
  2:{ intros Hnone. cbn in Hnone. rewrite kv_get_set, decide_True in Hnone by done. done. }
  intros g' Hk. cbn in Hk. rewrite kv_get_set, decide_True in Hk by done. injection Hk as <-.
  apply wp_emit; [done|]. intros l' (Hq1 & Hq2 & Hq3 & _). cbn [fst snd] in *. apply wp_ret. right.
  exists g. split; [done|].
  assert (groups (with_groups (kv_set gid' g (groups l')) l') = groups l ++ [(group_id g, g)]) as Hgs.
  { cbn. rewrite Hq1. rewrite kv_set_same; [done|]. rewrite Hset in *.
    rewrite <- Hset. cbn. by rewrite kv_get_set, decide_True. }
  split; [|done].
  apply (ledger_ok_add l _ g); try done.
  - unfold group_uuids. cbn. rewrite reserved_uuids. apply NoDup_fmap_2_strong; [|apply NoDup_seq].
    intros i j Hi%elem_of_seq Hj%elem_of_seq. apply Hinj; lia.
  - intros u. unfold group_uuids. cbn. rewrite reserved_uuids. intros (i & -> & Hi%elem_of_seq)%list_elem_of_fmap.
    apply Hfr. lia.
Qed.

(** ** Dropping groups *)

Lemma sublist_concat {A} (l1 l2 : list (list A)) : sublist l1 l2 -> sublist (concat l1) (concat l2).
Proof.
  induction 1 as [|x l1 l2 _ IH|x l1 l2 _ IH]; cbn; [constructor| |].
  - by apply sublist_app.
  - by apply sublist_inserts_l.
Qed.

(** Fewer records keep the invariant. *)
Lemma ledger_ok_sublist l l' :
  ledger_ok l -> sublist (groups l') (groups l) -> ledger_ok l'.
Proof.
  intros (Hn & Hg & Hu) Hs. split; [|split].
  - eapply sublist_NoDup; [exact Hn|]. by apply fmap_sublist.
  - intros gid g Hin. apply Hg. by eapply elem_of_sublist.
  - eapply sublist_NoDup; [exact Hu|]. unfold all_uuids, all_groups.
    by apply sublist_concat, fmap_sublist, fmap_sublist.
Qed.

Lemma groups_report_discarded g l : groups (report_discarded g l) = groups l.
Proof. unfold report_discarded. by destruct (event_sink l). Qed.

Lemma retirements_report_discarded g l : retirements (report_discarded g l) = retirements l.
Proof. unfold report_discarded. by destruct (event_sink l). Qed.

Lemma discard_group_spec live gid l :
  ledger_ok l ->
  wp (discard_group live gid) (fun l' r => (l' = l /\ exists e, r = Raise e) \/
    exists g, kv_get gid (groups l) = Some g /\ r = Ok tt /\ groups l' = kv_del gid (groups l) /\
      (forall inst e, pending (retirements l) inst e -> pending (retirements l') inst e) /\
      (forall inst e, owed g inst e -> pending (retirements l') inst e)) l.
Proof.
  intros Hl. unfold discard_group. apply wp_bind. destruct live; [|left; by eauto].
  apply wp_ret, wp_bind, wp_on_group; [|intros _; left; by eauto].
  intros g Hk. destruct (ledger_ok_group _ _ l gid g Hl Hk) as [Hid Hok].
  eapply wp_mono; [by eapply record_environment_retirements_ok|].
  intros [g' l1] r (-> & -> & (Hr1 & Hr2 & Hr3 & Hr4) & Ho). cbn [fst snd] in *.
  apply wp_bind, wp_get, wp_bind, wp_lift. unfold require_group. cbn.
  rewrite kv_get_set, decide_True by done. apply wp_modify. right. exists g. split; [done|].
  split; [done|]. rewrite groups_report_discarded, retirements_report_discarded. cbn.
  rewrite Hr1, (kv_set_same gid g (groups l) Hk). done.
Qed.

Lemma discard_canonical_groups_spec live ids l :
  wp (discard_canonical_groups live ids) (fun l' r => sublist (groups l') (groups l) /\
    retirements l' = retirements l /\ forgets l' = forgets l) l.
Proof.
  unfold discard_canonical_groups. apply wp_bind. destruct live; [|by split].
  apply wp_ret, wp_bind, wp_get.
  assert (forall ps acc, let acc' := foldl (discard_canonical ids) acc ps in
    sublist (groups acc'.1) (groups acc.1) /\ retirements acc'.1 = retirements acc.1 /\
    forgets acc'.1 = forgets acc.1) as H.
  { induction ps as [|p ps IH]; intros acc; [by split|]. cbn [foldl].
    destruct (IH (discard_canonical ids acc p)) as (H1 & H2 & H3). rewrite H2, H3.
    assert (sublist (groups (discard_canonical ids acc p).1) (groups acc.1) /\
      retirements (discard_canonical ids acc p).1 = retirements acc.1 /\
      forgets (discard_canonical ids acc p).1 = forgets acc.1) as (A1 & A2 & A3).
    { unfold discard_canonical. destruct (decide _); [|done]. cbn [fst].
      rewrite groups_report_discarded, retirements_report_discarded. split; [apply kv_del_sublist|].
      unfold report_discarded. by destruct (event_sink _). }
    split; [by etrans|done]. }
  specialize (H (groups l) (l, 0)). destruct (foldl _ _ _) as [l' n]. apply wp_bind, wp_modify, wp_ret.
  exact H.
Qed.

(** ** Restart *)

(** The record and its group's outcome. *)
Lemma restart_on_group (restored : gset (string * string * Z)) gid g l :
  ledger_ok l -> kv_get gid (groups l) = Some g ->
  wp (on_group gid (restart_group restored)) (fun l' r => exists used s',
    r = Ok used /\ ledger_ok l' /\ restart_group restored (g, l) = (s', Ok used) /\
    groups l' = kv_set gid s'.1 (groups l) /\ retirements l' = retirements l /\
    forgets l' = forgets l) l.
Proof.
  intros Hl Hk. apply wp_on_group; [|congruence]. intros g0 Hk0. rewrite Hk in Hk0.
  injection Hk0 as <-. destruct (ledger_ok_group _ _ l gid g Hl Hk) as [Hid Hok].
  pose proof (restart_group_ok staging_key json_object restored g l Hok) as Hr. unfold wp in *.
  destruct (restart_group restored (g, l)) as [s' r]. cbn [fst snd] in *.
  destruct Hr as (Ht & used & -> & _). exists used, s'. split; [done|].
  pose proof Ht as (_ & _ & _ & _ & Hq1 & Hq2 & Hq3 & _). split; [|cbn; by rewrite Hq1].
  destruct s' as [g' l']. apply (ledger_ok_set _ _ none_drawn gid g l); try done.
  by apply group_post_tame.
Qed.

Lemma kv_set_keys {A} k (v w : A) d : kv_get k d = Some w -> (kv_set k v d).*1 = d.*1.
Proof.
  intros Hk. rewrite kv_set_fst, decide_True; [done|].
  destruct (decide (k ∈ d.*1)) as [|Hn%kv_get_None]; [done|congruence].
Qed.

(** What a restart makes of the group [g]. *)
Definition restarted (restored : gset (string * string * Z)) (g g' : PromptGroupRecoveryRecord) (used : gset (string * string * Z))
    : Prop :=
  exists lx lx', restart_group restored (g, lx) = ((g', lx'), Ok used).

Lemma prepare_for_restart_loop (restored : gset (string * string * Z)) keys l :
  ledger_ok l -> NoDup keys -> (forall k, k ∈ keys -> k ∈ (groups l).*1) ->
  wp (map_in keys (fun gid => on_group gid (restart_group restored))) (fun l' r =>
    ledger_ok l' /\ (groups l').*1 = (groups l).*1 /\ retirements l' = retirements l /\
    forgets l' = forgets l /\
    (forall k, k ∉ keys -> kv_get k (groups l') = kv_get k (groups l)) /\
    exists us, r = Ok us /\ Forall2 (fun k u => exists g g', kv_get k (groups l) = Some g /\
      kv_get k (groups l') = Some g' /\ restarted restored g g' u) keys us) l.
Proof.
  revert l. induction keys as [|k keys IH]; intros l Hl Hn Hin; cbn [map_in].
  { apply wp_ret. split; [done|]. do 4 (split; [done|]). exists []. split; [done|constructor]. }
  apply NoDup_cons in Hn as [Hnk Hn].
  destruct (kv_get k (groups l)) as [g|] eqn:Hk.
  2:{ apply kv_get_None in Hk. destruct Hk. apply Hin, list_elem_of_here. }
  apply wp_bind. eapply wp_mono; [by apply restart_on_group|].
  intros l1 r (used & [g' lx] & -> & Hl1 & Hrun & Hgs & Hr & Hf). cbn [fst] in Hgs.
  pose proof (kv_set_keys k g' g (groups l) Hk) as Hkeys. rewrite <- Hgs in Hkeys.
  apply wp_bind. eapply wp_mono; [apply IH; [done|done|]|].
  { intros k' Hk'. rewrite Hkeys. apply Hin. by apply list_elem_of_further. }
  intros l2 r (Hl2 & Hk2 & Hr2 & Hf2 & Hout & us & -> & Hus). apply wp_ret.
  assert (forall k', k' <> k -> kv_get k' (groups l1) = kv_get k' (groups l)) as Hne.
  { intros k' Hk'. rewrite Hgs, kv_get_set, decide_False by done. done. }
  split; [done|]. split; [congruence|]. split; [congruence|]. split; [congruence|]. split.
  - intros k' [Hk' Hnin]%not_elem_of_cons. rewrite Hout, Hne by done. done.
  - exists (used :: us). split; [done|]. constructor.
    + exists g, g'. split; [done|]. split; [|by exists l, lx].
      by rewrite (Hout k Hnk), Hgs, kv_get_set, decide_True.
    + rewrite Forall2_lookup in Hus |- *. intros i. specialize (Hus i).
      destruct (keys !! i) as [k'|] eqn:Ek, (us !! i) as [u|]; inversion Hus as [? ? H|]; subst;
        constructor.
      destruct H as (g1 & g2 & H1 & H2 & H3). exists g1, g2. split; [|done].
      rewrite Hne in H1; [done|]. intros ->. apply Hnk. by eapply list_elem_of_lookup_2.
Qed.

Lemma prepare_for_restart_spec live continued l :
  ledger_ok l ->
  wp (prepare_for_restart live continued) (fun l' r => l' = l /\ (exists e, r = Raise e) \/
    ledger_ok l' /\ (groups l').*1 = (groups l).*1 /\ retirements l' = retirements l /\
    forgets l' = forgets l /\
    exists us, (r = Ok tt <-> default ∅ continued ⊆ union_list us) /\
      Forall2 (fun k u => exists g g', kv_get k (groups l) = Some g /\
        kv_get k (groups l') = Some g' /\ restarted (default ∅ continued) g g' u) (groups l).*1 us) l.
Proof.
  intros Hl. unfold prepare_for_restart. apply wp_bind. destruct live; [|left; by eauto].
  apply wp_ret, wp_bind, wp_get, wp_bind, wp_lift.
  destruct (assert_checkpoint_safe l) as [[]|e]; [|left; by eauto]. apply wp_bind. eapply wp_mono.
  { apply prepare_for_restart_loop; [done|apply Hl|done]. }
  intros l' r (H1 & H2 & H3 & H4 & _ & us & -> & Hus).
  assert (forall r, (r = Ok tt <-> default ∅ continued ⊆ union_list us) ->
    l' = l /\ (exists e, r = Raise e) \/
    ledger_ok l' /\ (groups l').*1 = (groups l).*1 /\ retirements l' = retirements l /\
    forgets l' = forgets l /\
    exists us, (r = Ok tt <-> default ∅ continued ⊆ union_list us) /\
      Forall2 (fun k u => exists g g', kv_get k (groups l) = Some g /\
        kv_get k (groups l') = Some g' /\ restarted (default ∅ continued) g g' u) (groups l).*1 us)
    as Hend.
  { intros r Hr. right. split; [done|]. split; [done|]. split; [done|]. split; [done|]. exists us.
    by split. }
  apply wp_guard. split; intros Hb; apply Hend.
  - apply negb_true_iff, bool_decide_eq_false in Hb. split; [done|]. intros Hs. destruct Hb. set_solver.
  - apply negb_false_iff, bool_decide_eq_true in Hb. split; [|done]. intros _. set_solver.
Qed.

End ops.
