(* ===== verification/RecoverySteps.v ===== *)
(** * The recovery ledger as a transition system

    The states a controller can bring a ledger into, operation by operation:
    the invariant holds in all of them, atomic groups seal as a whole, and a
    running controller never loses environment state it may hold. *)

From S2P Require Import Prelude PyVal PyStr StateErr Recovery RecoveryLedger RecoveryInv.
From S2P Require Import RecoverySeals RecoveryOps.

Section steps.
Context (staging_key : PyVal -> string -> res string) (json_object : string -> bool).
#[local] Abbreviation ledger_ok := (ledger_ok staging_key json_object) (only parsing).
#[local] Abbreviation log_contexts_ok := (log_contexts_ok json_object) (only parsing).
#[local] Abbreviation op_post := (op_post staging_key json_object) (only parsing).

(** ** Custody of environment state *)

(** Some group holds environment state [e] of instance [inst]. *)
Definition held (l : RolloutRecoveryLedger) (inst : string) (e : EnvironmentEpisode) : Prop :=
  exists gid g, (gid, g) ∈ groups l /\ owed g inst e.

Definition over (l : RolloutRecoveryLedger) (e : EnvironmentEpisode) : Prop :=
  exists gid g, (gid, g) ∈ groups l /\ settled g e.

(** From [l] to [l'], held state stays held, waits to be retired, or is over;
    what waits to be retired waits on, or waits to be forgotten. *)
Definition custody (l l' : RolloutRecoveryLedger) : Prop :=
  (forall inst e, held l inst e -> held l' inst e \/ pending (retirements l') inst e \/ over l' e) /\
  (forall inst e, pending (retirements l) inst e ->
     pending (retirements l') inst e \/ pending (forgets l') inst e).

Lemma custody_refl l : custody l l.
Proof. split; auto. Qed.

(** An operation on one group keeps custody when it pays what the group owes. *)
Lemma op_post_custody {A} new gid (P : GS -> GS -> res A -> Prop) l l' r :
  ledger_ok l -> op_post new gid P l l' r -> custody l l'.
Proof.
  intros (Hn & Hg & _) [[-> _]|(g & [g' lx] & Hk & ((_ & _ & Hgs & _) & Hpaid & Hret) & _ & ->)];
    [apply custody_refl|].
  cbn [fst snd] in *. unfold custody, held, over. cbn. rewrite Hgs. split; [|auto].
  intros inst e (gid2 & g2 & Hin & Ho). destruct (decide (gid2 = gid)) as [->|Hne].
  - apply kv_get_elem in Hin; [|done]. rewrite Hk in Hin. injection Hin as <-.
    assert ((gid, g') ∈ kv_set gid g' (groups l)) as Hin' by (apply elem_of_kv_set; [done|by left]).
    destruct (Hpaid inst e Ho) as [H|[H|H]]; [left; by exists gid, g'|by right; left|].
    right. right. by exists gid, g'.
  - left. exists gid2, g2. split; [|done]. apply elem_of_kv_set; [done|by right].
Qed.

Lemma custody_discard gid g l l' :
  ledger_ok l -> kv_get gid (groups l) = Some g -> groups l' = kv_del gid (groups l) ->
  (forall inst e, pending (retirements l) inst e -> pending (retirements l') inst e) ->
  (forall inst e, owed g inst e -> pending (retirements l') inst e) -> custody l l'.
Proof.
  intros (Hn & _) Hk Hgs Hmono Ho. split; [|auto]. intros inst e (gid2 & g2 & Hin & Ho2).
  destruct (decide (gid2 = gid)) as [->|Hne].
  - apply kv_get_elem in Hin; [|done]. rewrite Hk in Hin. injection Hin as <-. auto.
  - left. exists gid2, g2. split; [|done]. rewrite Hgs. by apply elem_of_kv_del.
Qed.

(** ** Acknowledgements of the environment *)

Lemma pending_drop inst es m inst' e :
  pending m inst' e -> pending (drop_episodes inst es m) inst' e \/ (inst' = inst /\ e ∈ es).
Proof.
  intros (s & Hs & He). unfold drop_episodes.
  destruct (m !! inst) as [p|] eqn:E; [|left; by exists s].
  destruct (decide (inst' = inst)) as [->|Hne].
  - rewrite E in Hs. injection Hs as ->. destruct (decide (e ∈ es)) as [|Hni]; [by right|left].
    rewrite decide_False; [|set_solver]. exists (s ∖ es). rewrite lookup_insert_eq. set_solver.
  - left. exists s. split; [|done]. destruct (decide (p ∖ es = ∅));
      [by rewrite lookup_delete_ne|by rewrite lookup_insert_ne].
Qed.

Lemma pending_forgets_mono l p inst e :
  pending (forgets l) inst e -> pending (forgets (mark_one_retired l p)) inst e.
Proof.
  intros (s & Hs & He). unfold mark_one_retired. destruct (decide (_ = ∅)); [by exists s|]. cbn.
  unfold pending. destruct (decide (inst = p.1)) as [->|Hne].
  - rewrite lookup_insert_eq, Hs. eexists. split; [done|]. cbn. set_solver.
  - rewrite lookup_insert_ne by done. by exists s.
Qed.

(** Retired episodes are remembered until the environment forgets them. *)
Lemma mark_one_retired_custody l p inst e :
  pending (retirements l) inst e ->
  pending (retirements (mark_one_retired l p)) inst e \/
  pending (forgets (mark_one_retired l p)) inst e.
Proof.
  intros Hp. unfold mark_one_retired. set (es := list_to_set p.2 : gset EnvironmentEpisode).
  destruct (decide (es = ∅)) as [Hes|Hes]; cbn.
  - destruct (pending_drop p.1 es _ _ _ Hp) as [|[-> He]]; [by left|]. rewrite Hes in He. set_solver.
  - destruct (pending_drop p.1 es _ _ _ Hp) as [|[-> He]]; [by left|]. right. unfold pending.
    rewrite lookup_insert_eq. eexists. split; [done|]. set_solver.
Qed.

Lemma groups_mark_retired ps l : groups (mark_environment_retired ps l) = groups l.
Proof.
  unfold mark_environment_retired. revert l. induction ps as [|p ps IH]; intros l; [done|]. cbn.
  rewrite IH. unfold mark_one_retired. by destruct (decide _).
Qed.

Lemma mark_environment_retired_custody ps l : custody l (mark_environment_retired ps l).
Proof.
  split.
  - intros inst e (gid & g & Hin & Ho). left. exists gid, g. by rewrite groups_mark_retired.
  - intros inst e. unfold mark_environment_retired.
    assert (forall l, pending (retirements l) inst e \/ pending (forgets l) inst e ->
      pending (retirements (foldl mark_one_retired l ps)) inst e \/
      pending (forgets (foldl mark_one_retired l ps)) inst e) as H; [|intros ?; apply H; by left].
    clear l. induction ps as [|p ps IH]; intros l Hl; [done|]. cbn. apply IH.
    destruct Hl as [Hl|Hl]; [by apply mark_one_retired_custody|right; by apply pending_forgets_mono].
Qed.

Lemma mark_forgotten_other ps l :
  groups (mark_environment_forgotten ps l) = groups l /\
  retirements (mark_environment_forgotten ps l) = retirements l.
Proof.
  unfold mark_environment_forgotten. revert l. induction ps as [|p ps IH]; intros l; [done|].
  cbn. by rewrite !(proj1 (IH _)), !(proj2 (IH _)).
Qed.

(** ** Steps *)

(** The operations of a running controller. *)
Inductive live_step (l : RolloutRecoveryLedger) : RolloutRecoveryLedger -> Prop :=
| step_set_event_sink on : live_step l (set_event_sink on l)
| step_reserve_group live prompt payload expected target start source level admitted gid admission ref
    fresh_group fresh :
    fresh_for (Z.to_nat expected) fresh l -> String.length fresh_group = 16%nat ->
    live_step l (reserve_group live prompt payload expected target start source level admitted gid
                   admission ref fresh_group fresh l).1
| step_mark_group_admitted live gid target start :
    live_step l (mark_group_admitted live gid target start l).1
| step_bind_runtime_prompt live gid payload :
    live_step l (bind_runtime_prompt live gid payload l).1
| step_prepare_incomplete_retry live gid fresh :
    fresh_for (group_size gid l) fresh l -> live_step l (prepare_incomplete_retry live gid fresh l).1
| step_mark_group_dispatched live gid indices owner :
    owner <> Some "" -> live_step l (mark_group_dispatched live gid indices owner l).1
| step_release_refused_dispatch live gid i :
    live_step l (release_refused_dispatch live gid i l).1
| step_replace_dropped_dispatch live gid indices fresh :
    fresh_for (group_size gid l) fresh l -> live_step l (replace_dropped_dispatch live gid indices fresh l).1
| step_mark_sibling_sealed live gid i r :
    log_contexts_ok r -> live_step l (mark_sibling_sealed staging_key live gid i r l).1
| step_mark_group_sealed live gid results :
    (forall i r, results !! i = Some r -> log_contexts_ok r) ->
    live_step l (mark_group_sealed staging_key live gid results l).1
| step_abandon_unsealed live gid reason : live_step l (abandon_unsealed live gid reason l).1
| step_mark_finalization_started live gid : live_step l (mark_finalization_started live gid l).1
| step_mark_finalization_unknown live gid : live_step l (mark_finalization_unknown live gid l).1
| step_discard_group live gid : live_step l (discard_group live gid l).1
| step_mark_environment_retired ps : live_step l (mark_environment_retired ps l)
| step_mark_environment_forgotten ps : live_step l (mark_environment_forgotten ps l).

(** Those, and what a controller does to a ledger it restored. *)
Inductive ledger_step (l : RolloutRecoveryLedger) : RolloutRecoveryLedger -> Prop :=
| step_live l' : live_step l l' -> ledger_step l l'
| step_prepare_for_restart live continued :
    ledger_step l (prepare_for_restart live continued l).1
| step_discard_canonical_groups live ids : ledger_step l (discard_canonical_groups live ids l).1.

Lemma ledger_ok_groups l l' : ledger_ok l -> groups l' = groups l -> ledger_ok l'.
Proof. intros Hl Hg. eapply ledger_ok_sublist; [exact Hl|]. by rewrite Hg. Qed.

Lemma op_post_keeps {A} new gid (P : GS -> GS -> res A -> Prop) l l' r :
  ledger_ok l -> (forall u, new u -> u ∉ all_uuids l) -> op_post new gid P l l' r ->
  ledger_ok l' /\ custody l l'.
Proof. intros Hl Hf Hp. split; [by eapply op_post_ok|by eapply op_post_custody]. Qed.

Lemma drawn_from_fresh n fresh l :
  fresh_for n fresh l -> forall u, drawn_from n fresh u -> u ∉ all_uuids l.
Proof. intros (_ & Hf) u (i & Hi & ->). by apply Hf. Qed.

Lemma live_step_keeps l l' : ledger_ok l -> live_step l l' -> ledger_ok l' /\ custody l l'.
Proof.
  intros Hl Hstep.
  assert (forall u, none_drawn u -> u ∉ all_uuids l) as Hno by done.
  destruct Hstep.
  - split; [by apply (ledger_ok_groups l)|]. split; auto.
  - pose proof (reserve_group_keeps staging_key json_object live prompt payload expected target start
      source level admitted gid admission ref fresh_group fresh l Hl H H0) as Hp. unfold wp in Hp.
    destruct Hp as [[-> _]|(g & _ & Hok & Hgs & Hr & _)]; [by split; [|apply custody_refl]|].
    split; [done|]. split; [|rewrite Hr; auto]. intros inst e (gid' & g' & Hin & Ho). left.
    exists gid', g'. split; [|done]. rewrite Hgs. apply elem_of_app. by left.
  - eapply op_post_keeps; [done|exact Hno|by eapply mark_group_admitted_post].
  - eapply op_post_keeps; [done|exact Hno|by eapply bind_runtime_prompt_post].
  - eapply op_post_keeps; [done|by apply drawn_from_fresh|by eapply prepare_incomplete_retry_op; [|apply H]].
  - eapply op_post_keeps; [done|exact Hno|by eapply mark_group_dispatched_post].
  - eapply op_post_keeps; [done|exact Hno|by eapply release_refused_dispatch_post].
  - eapply op_post_keeps; [done|by apply drawn_from_fresh|by eapply replace_dropped_dispatch_post; [|apply H]].
  - eapply op_post_keeps; [done|exact Hno|by eapply mark_sibling_sealed_post].
  - eapply op_post_keeps; [done|exact Hno|by eapply mark_group_sealed_post].
  - eapply op_post_keeps; [done|exact Hno|by eapply abandon_unsealed_post].
  - eapply op_post_keeps; [done|exact Hno|by eapply finalization_post].
  - eapply op_post_keeps; [done|exact Hno|by eapply finalization_post].
  - destruct (discard_group_spec staging_key json_object live gid l Hl) as [[Hd _]|(g & Hk & _ & Hgs & Hm & Ho)].
    + rewrite Hd. split; [done|apply custody_refl].
    + split; [|by eapply custody_discard].
      eapply ledger_ok_sublist; [exact Hl|]. rewrite Hgs. apply kv_del_sublist.
  - split; [by apply (ledger_ok_groups l); [|apply groups_mark_retired]|].
    apply mark_environment_retired_custody.
  - destruct (mark_forgotten_other ps l) as [Hgs Hr].
    split; [by apply (ledger_ok_groups l)|]. split; [|rewrite Hr; auto].
    intros inst e (gid & g & Hin & Ho). left. exists gid, g. by rewrite Hgs.
Qed.

Lemma ledger_step_keeps l l' : ledger_ok l -> ledger_step l l' -> ledger_ok l'.
Proof.
  intros Hl [l2 Hs|live continued|live ids].
  - by apply (live_step_keeps l l2).
  - destruct (prepare_for_restart_spec staging_key json_object live continued l Hl) as [[-> _]|[H _]];
      done.
  - eapply ledger_ok_sublist; [exact Hl|]. apply discard_canonical_groups_spec.
Qed.

Lemma new_ledger_ok : ledger_ok new_ledger.
Proof.
  split; [constructor|]. split; [|constructor]. by intros gid g Hin%not_elem_of_nil.
Qed.

End steps.
