(* ===== verification/RecoveryViews.v ===== *)
(** * What the recovery ledger's operations come to

    Restart and retry of a whole group, the inputs of finalization, and the
    inventory of environment state, each computed from a ledger that
    satisfies the invariant of [RecoveryInv]. *)

From S2P Require Import Prelude PyVal PyStr StateErr Recovery RecoveryLedger RecoveryInv.
From S2P Require Import RecoverySeals RecoveryOps.
From Stdlib Require Import Ascii.

Section views.
Context (staging_key : PyVal -> string -> res string) (json_object : string -> bool).
#[local] Abbreviation group_ok := (group_ok staging_key json_object) (only parsing).
#[local] Abbreviation ledger_ok := (ledger_ok staging_key json_object) (only parsing).

(** ** Retrying every sibling *)

Lemma retry_each fresh g l :
  distinct_uuids (length (siblings g)) fresh -> group_ok g ->
  (forall i s, siblings g !! i = Some s -> retryable g s = true) ->
  wp (for_in (each_sibling g) (retry_sibling fresh)) (fun s' r => r = Ok tt /\
    evolves staging_key json_object fresh g (g, l) s' /\
    forall i s, siblings g !! i = Some s -> exists s2, siblings s'.1 !! i = Some s2 /\
      s2 = retried fresh i s) (g, l).
Proof.
  intros Hd Hg Hr. apply (wp_for_each (fun i s s' => s' = retried fresh i s)).
  - intros s1 s2 s3. apply evolves_trans.
  - by apply evolves_refl.
  - intros i s g' l' He Hi Hi'. pose proof (lookup_lt_Some _ _ _ Hi) as Hlt.
    eapply wp_mono; [apply (retry_sibling_ok staging_key json_object fresh g g i s)|].
    + by apply Hd.
    + apply He.
    + apply He.
    + done.
    + intros s2 r (H1 & H2 & H3 & H4 & H5 & H6). split; [exists tt; split; [|done]; by eapply H5, Hr|].
      split; [done|]. split; [done|]. by eexists.
Qed.

(** ** Restart, then retry *)

(** The restored episode keys a restart resumes sibling [i] from. *)
Definition resumed (restored : gset (string * string * Z)) (g : PromptGroupRecoveryRecord) (i : nat)
    (s : RolloutSiblingRecord) : bool :=
  let a := current_attempt s in
  match environment_instance_id a with
  | Some inst =>
      negb (given_up (attempt_status a)) && bool_decide (restore_level g = RecoveryTargetLevel.TURN)
      && bool_decide ((inst, base_gate_id (group_id g) i (attempt_uuid a), environment_attempt a)
                        ∈ restored)
  | None => false
  end.

(** The attempt a sibling runs next after a restart of its group. *)
Definition next_after_restart (restored : gset (string * string * Z)) (fresh : nat -> uuid)
    (g : PromptGroupRecoveryRecord) (i : nat) (s : RolloutSiblingRecord) : RolloutAttemptRecord :=
  let a := current_attempt s in
  if bool_decide (recovery_granularity g = RecoveryGranularity.PROMPT_GROUP) then new_attempt (fresh i)
  else if is_sealed s then a
  else if resumed restored g i s then resume_attempt a
  else if status_is RolloutAttemptStatus.RESERVED a && (environment_attempt a =? 0) then a
  else new_attempt (fresh i).

Lemma current_retried fresh i s :
  current_attempt (retried fresh i s) =
  if given_up (attempt_status (current_attempt s)) then new_attempt (fresh i) else current_attempt s.
Proof. unfold retried. by destruct (given_up _). Qed.

Lemma outcome_next restored fresh g i s :
  recovery_granularity g = RecoveryGranularity.SIBLING ->
  current_attempt (retried fresh i (restart_outcome restored g i s).1) =
    next_after_restart restored fresh g i s.
Proof.
  intros Hg. rewrite current_retried. unfold next_after_restart, restart_outcome, resumed.
  rewrite Hg.
  rewrite (bool_decide_eq_false_2 (RecoveryGranularity.SIBLING = _)) by done. unfold status_is.
  destruct (is_sealed s) eqn:Es; cbn [orb].
  { cbn. apply is_sealed_status in Es. by rewrite Es. }
  destruct (given_up (attempt_status (current_attempt s))) eqn:Eg.
  - cbn [fst]. rewrite Eg. apply given_up_spec in Eg.
    rewrite (bool_decide_eq_false_2 (attempt_status _ = RolloutAttemptStatus.RESERVED))
      by (destruct Eg; congruence).
    by destruct (environment_instance_id _).
  - cbn [negb andb]. destruct (environment_instance_id (current_attempt s)) as [inst|] eqn:Ei.
    + rewrite (bool_decide_eq_false_2 (Some inst = None)) by done. cbn [negb default].
      rewrite andb_true_r. destruct (bool_decide _ && bool_decide _); [done|].
      destruct (bool_decide (attempt_status _ = _) && _); cbn [fst]; [by rewrite Eg|done].
    + rewrite (bool_decide_eq_true_2 (None = None)) by done. cbn [negb]. rewrite andb_false_r. cbn [andb].
      destruct (bool_decide (attempt_status _ = _) && _); cbn [fst]; [by rewrite Eg|done].
Qed.

Lemma outcome_retryable restored g i s :
  recovery_granularity g = RecoveryGranularity.SIBLING ->
  retryable g (restart_outcome restored g i s).1 = true.
Proof.
  intros Hg. unfold retryable, restart_outcome. rewrite Hg.
  rewrite (bool_decide_eq_true_2 (RecoveryGranularity.SIBLING = _)) by done. rewrite andb_true_r.
  destruct (is_sealed s || given_up (attempt_status (current_attempt s))) eqn:E; cbn [fst].
  { apply orb_true_iff in E as [-> | ->]; [by rewrite !orb_true_r|done]. }
  destruct (bool_decide _ && negb _ && bool_decide _); cbn [fst].
  { by rewrite !orb_true_iff; left; right. }
  destruct (bool_decide (attempt_status _ = _) && _) eqn:E2; cbn [fst].
  - apply andb_true_iff in E2 as [-> _]. by rewrite orb_true_r.
  - done.
Qed.

(** What the retry of a restarted group needs. *)
Lemma restarted_retryable restored g g' used :
  group_ok g -> status g = PromptGroupStatus.GENERATING -> restarted restored g g' used ->
  group_ok g' /\ same_head g g' /\ status g' = PromptGroupStatus.GENERATING /\
  forall fresh i s', siblings g' !! i = Some s' -> retryable g' s' = true /\
    exists s, siblings g !! i = Some s /\
      current_attempt (retried fresh i s') = next_after_restart restored fresh g i s /\
      (recovery_granularity g = RecoveryGranularity.PROMPT_GROUP ->
         given_up (attempt_status (current_attempt s')) = true).
Proof.
  intros Hg Hst (lx & lx' & Hrun).
  pose proof (restart_group_ok staging_key json_object restored g lx Hg) as H. unfold wp in H.
  rewrite Hrun in H. cbn [fst snd] in H. destruct H as (Ht & u & [= <-] & _ & Hpg & Hsib).
  pose proof Ht as (Hg' & Hh & (_ & Hst') & _). cbn [fst snd] in *.
  split; [done|]. split; [done|]. split; [congruence|]. intros fresh i s' Hi'.
  assert (exists s, siblings g !! i = Some s) as [s Hi].
  { apply lookup_lt_is_Some_2. destruct Hh as (_ & _ & Hl & _). rewrite <- Hl.
    by eapply lookup_lt_Some. }
  destruct (decide (recovery_granularity g = RecoveryGranularity.PROMPT_GROUP)) as [Hp|Hp].
  - destruct (Hpg Hst Hp) as (_ & Hall). destruct (Hall i s Hi) as (s2 & Hi2 & Hc1 & Hc2).
    rewrite Hi' in Hi2. injection Hi2 as <-.
    assert (given_up (attempt_status (current_attempt s')) = true) as Hup by (rewrite Hc2; done).
    split; [unfold retryable; by rewrite Hup|]. exists s. split; [done|]. split; [|done].
    rewrite current_retried, Hup. unfold next_after_restart. by rewrite bool_decide_eq_true_2.
  - assert (recovery_granularity g = RecoveryGranularity.SIBLING) as Hs
      by (destruct (recovery_granularity g); done).
    destruct (Hsib Hst Hs) as (Hall & _). rewrite (Hall i s Hi) in Hi'. injection Hi' as <-. split.
    + unfold retryable. rewrite (same_granularity g g' Hh). by apply outcome_retryable.
    + exists s. split; [done|]. split; [by apply outcome_next|congruence].
Qed.

Lemma prepare_incomplete_retry_ok gid g l fresh :
  ledger_ok l -> kv_get gid (groups l) = Some g -> status g = PromptGroupStatus.GENERATING ->
  distinct_uuids (length (siblings g)) fresh ->
  (forall i s, siblings g !! i = Some s -> retryable g s = true /\
     (recovery_granularity g = RecoveryGranularity.PROMPT_GROUP ->
        given_up (attempt_status (current_attempt s)) = true)) ->
  exists l2 g2, prepare_incomplete_retry true gid fresh l = (l2, Ok g2) /\
    same_head g g2 /\ kv_get gid (groups l2) = Some g2 /\
    forall i s, siblings g !! i = Some s -> siblings g2 !! i = Some (retried fresh i s).
Proof.
  intros Hl Hk Hst Hd Hall. destruct (ledger_ok_group _ _ l gid g Hl Hk) as [Hid Hg].
  assert (wp (prepare_incomplete_retry true gid fresh) (fun l2 r => exists g2, r = Ok g2 /\
    same_head g g2 /\ kv_get gid (groups l2) = Some g2 /\
    forall i s, siblings g !! i = Some s -> siblings g2 !! i = Some (retried fresh i s)) l) as H.
  { apply wp_bind, wp_ret, wp_on_group; [|congruence]. intros g0 Hk0. rewrite Hk in Hk0.
    injection Hk0 as <-. apply wp_bind, wp_record, wp_bind, wp_guard. cbn [fst snd]. rewrite Hst.
    split; [done|intros _]. apply wp_bind, wp_guard. split; intros Hm.
    { exfalso. apply andb_true_iff in Hm as [[Hp _]%andb_true_iff Hex].
      apply bool_decide_eq_true in Hp. apply existsb_exists in Hex as (st & Hin & Hup).
      apply list_elem_of_In, list_elem_of_fmap in Hin as (s & -> & [i Hi]%list_elem_of_lookup).
      destruct (Hall i s Hi) as [_ Hgu]. by rewrite Hgu in Hup. }
    apply wp_bind. eapply wp_mono; [apply retry_each; [done|done|]; intros i s Hi; by apply (Hall i s)|].
    intros [g2 l2] r (-> & (_ & Hh & _ & _ & Hgs) & Hout). apply wp_record. cbn [fst snd] in *.
    exists g2. split; [done|]. split; [done|]. split.
    - cbn. by rewrite kv_get_set, decide_True.
    - intros i s Hi. destruct (Hout i s Hi) as (s2 & -> & ->). done. }
  unfold wp in H. destruct (prepare_incomplete_retry true gid fresh l) as [l2 r].
  destruct H as (g2 & Hr & H). cbn [fst snd] in *. exists l2, g2. by rewrite Hr.
Qed.

(** ** The inputs of finalization *)

Lemma ready_sealed g :
  group_ok g -> status g <> PromptGroupStatus.GENERATING ->
  forall i s, siblings g !! i = Some s -> is_sealed s = true.
Proof.
  intros (_ & _ & Hst & _) Hn. apply all_sealed_elem. destruct (all_sealed g) eqn:E; [done|].
  destruct Hn. by apply Hst.
Qed.

(** Each sealed sibling has its receipt, reward, mask, checks and context. *)
Lemma finalized_sealed g i s :
  group_ok g -> siblings g !! i = Some s -> is_sealed s = true ->
  exists x m, reward (current_attempt s) = Some x /\ mask_sample (current_attempt s) = Some m /\
    finalized_sibling s = Ok (receipt (current_attempt s), x, m, reward_checks (current_attempt s),
                              reward_log_context (current_attempt s)).
Proof.
  intros Hg Hi Hs. pose proof (current_ok _ _ g i s Hg Hi) as (_ & _ & _ & _ & Ha).
  apply is_sealed_status in Hs. rewrite decide_True in Ha by done. destruct Ha as (Hr & Hm & _).
  unfold finalized_sibling. rewrite Hs. destruct (reward _) as [x|]; [|done].
  destruct (mask_sample _) as [m|]; [|done]. by exists x, m.
Qed.

Lemma traverse_exists {A B} (f : A -> res B) l :
  (forall i x, l !! i = Some x -> exists y, f x = Ok y) -> exists ys, traverse f l = Ok ys.
Proof.
  induction l as [|x l IH]; intros Hf; [by exists []|]. destruct (Hf 0%nat x eq_refl) as [y Hy].
  destruct IH as [ys Hys]; [intros i z Hi; by apply (Hf (S i))|].
  exists (y :: ys). cbn. by rewrite Hy; cbn; rewrite Hys.
Qed.

(** [a] ends where the first [c] is. *)
Lemma first_char_split c a b s t :
  all_chars (fun x => negb (Ascii.eqb x c)) a = true -> all_chars (fun x => negb (Ascii.eqb x c)) b = true ->
  a +:+ String c s = b +:+ String c t -> a = b /\ s = t.
Proof.
  revert b. induction a as [|x a IH]; intros [|y b]; cbn [all_chars]; intros Ha Hb; cbn; intros H.
  - by injection H.
  - injection H as -> _. by rewrite Ascii.eqb_refl in Hb.
  - injection H as <- _. by rewrite Ascii.eqb_refl in Ha.
  - injection H as -> H. apply andb_true_iff in Ha as [_ Ha]. apply andb_true_iff in Hb as [_ Hb].
    destruct (IH b Ha Hb H) as [-> ->]. done.
Qed.

(** Capture keys of different siblings differ. *)
Lemma capture_key_index gid i j a b :
  capture_key (episode_at gid i a) = capture_key (episode_at gid j b) -> i = j.
Proof.
  assert (forall k (e : RolloutAttemptRecord), exists t,
    capture_key (episode_at gid k e) = gid +:+ "_g" +:+ str_of_nat k +:+ String "_" t) as H.
  { intros k e. unfold capture_key, episode_at, base_gate_id, logical_rollout_id. cbn [rollout_id attempt].
    destruct (_ =? 0); rewrite !string_append_assoc.
    - eexists. repeat f_equal.
    - eexists. repeat f_equal. }
  destruct (H i a) as [t ->]. destruct (H j b) as [t' ->].
  intros Heq%string_append_inj_l. apply (string_append_inj_l "_g") in Heq.
  apply first_char_split in Heq as [Heq _]; [|apply no_underscore_digits..]. by apply str_of_nat_inj.
Qed.

Lemma gate_rollout_ids_ok g :
  group_ok g -> exists gates, gate_rollout_ids g = Ok gates /\ NoDup gates /\
    length gates = length (siblings g).
Proof.
  intros Hg. unfold gate_rollout_ids.
  destruct (traverse_exists (fun s => gate_rollout_id g (generation_index s)) (siblings g)) as [ys Hys].
  { intros i s Hi. rewrite (sibling_index _ _ g i s Hg Hi), (gate_rollout_id_at _ _ g i s Hg Hi). eauto. }
  exists ys. split; [done|]. apply traverse_Ok in Hys.
  split; [|symmetry; by eapply Forall2_length]. apply NoDup_alt. intros i j y Hi Hj.
  destruct (Forall2_lookup_r _ _ _ _ _ Hys Hi) as (s & Hs & E1).
  destruct (Forall2_lookup_r _ _ _ _ _ Hys Hj) as (s' & Hs' & E2).
  rewrite (sibling_index _ _ g i s Hg Hs), (gate_rollout_id_at _ _ g i s Hg Hs) in E1.
  rewrite (sibling_index _ _ g j s' Hg Hs'), (gate_rollout_id_at _ _ g j s' Hg Hs') in E2.
  injection E1 as <-. injection E2 as E2. symmetry. by eapply capture_key_index.
Qed.
(** ** The environment's inventory *)

Definition lists (inv : gmap string (list EnvironmentEpisode)) (inst : string)
    (e : EnvironmentEpisode) : Prop := exists es, inv !! inst = Some es /\ e ∈ es.

(** Sibling [s] of [g] is live state of [inst], as episode [e]. *)
Definition live_state (g : PromptGroupRecoveryRecord) (s : RolloutSiblingRecord) (inst : string)
    (e : EnvironmentEpisode) : Prop :=
  holds_environment_episode g s = true /\ environment_instance_id (current_attempt s) = Some inst /\
  e = episode_at (group_id g) (generation_index s) (current_attempt s).

(** What a checkpoint has to cover. *)
Definition live_episode (l : RolloutRecoveryLedger) (inst : string) (e : EnvironmentEpisode) : Prop :=
  exists gid g s, (gid, g) ∈ groups l /\ s ∈ siblings g /\ live_state g s inst e.

Lemma sibling_of g s : group_ok g -> s ∈ siblings g -> siblings g !! generation_index s = Some s.
Proof.
  intros Hg [i Hi]%list_elem_of_lookup. by rewrite (sibling_index _ _ g i s Hg Hi).
Qed.

Lemma holder_has_instance g s :
  group_ok g -> s ∈ siblings g -> holds_environment_episode g s = true ->
  exists inst, environment_instance_id (current_attempt s) = Some inst.
Proof.
  intros Hg Hs Hh. pose proof (sibling_of g s Hg Hs) as Hi.
  pose proof (current_ok _ _ g _ s Hg Hi) as (_ & Hn & _).
  destruct Hg as (_ & Hss & _). destruct (Hss _ _ Hi) as (_ & _ & _ & Ht & _).
  unfold holds_environment_episode, holds_environment_state in Hh.
  rewrite !andb_true_iff, orb_true_iff, andb_true_iff, !bool_decide_eq_true in Hh.
  destruct Hh as ((_ & Hl) & [Hd|[_ Hpos]]).
  - specialize (Ht Hl Hd). destruct (environment_instance_id _); eauto. done.
  - apply Z.ltb_lt in Hpos. specialize (Hn Hpos). destruct (environment_instance_id _); eauto. done.
Qed.

Lemma episode_of g s :
  group_ok g -> s ∈ siblings g ->
  environment_episode g (generation_index s) =
    Ok (episode_at (group_id g) (generation_index s) (current_attempt s)).
Proof. intros Hg Hs. apply (episode_ok _ _ g _ s Hg). by apply sibling_of. Qed.

Lemma inventory_siblings_spec g ss inv :
  group_ok g -> (forall s, s ∈ ss -> s ∈ siblings g) ->
  match inventory_siblings g ss inv with
  | Ok inv' => dom inv' = dom inv /\ forall inst e,
      lists inv' inst e <-> lists inv inst e \/ exists s, s ∈ ss /\ live_state g s inst e
  | Raise _ => exists s inst e, s ∈ ss /\ live_state g s inst e /\ inst ∉ dom inv
  end.
Proof.
  intros Hg. revert inv. induction ss as [|s ss IH]; intros inv Hss; cbn [inventory_siblings].
  { split; [done|]. intros inst e. split; [by left|]. intros [H|(s & Hs & _)]; [done|].
    by apply not_elem_of_nil in Hs. }
  assert (forall s', s' ∈ ss -> s' ∈ siblings g) as Hss' by (intros s' H; by apply Hss, list_elem_of_further).
  pose proof (Hss s (list_elem_of_here _ _)) as Hs.
  destruct (holds_environment_episode g s) eqn:Hh; cbn [negb].
  2:{ specialize (IH inv Hss'). destruct (inventory_siblings g ss inv) as [inv'|x].
      - destruct IH as [Hd IH]. split; [done|]. intros inst e. rewrite IH. setoid_rewrite elem_of_cons.
        split; [naive_solver|]. intros [H|(s' & [->|Hs'] & Hl)]; [by left| |right; by exists s'].
        destruct Hl as (Hl & _). congruence.
      - destruct IH as (s' & inst & e & Hs' & H). exists s', inst, e.
        split; [by apply list_elem_of_further|done]. }
  destruct (holder_has_instance g s Hg Hs Hh) as [inst Hin]. rewrite Hin.
  set (ep := episode_at (group_id g) (generation_index s) (current_attempt s)).
  assert (live_state g s inst ep) as Hlive by done.
  destruct (inv !! inst) as [es|] eqn:Ei.
  2:{ exists s, inst, ep. split; [apply list_elem_of_here|]. split; [done|]. by apply not_elem_of_dom. }
  rewrite (episode_of g s Hg Hs). cbn [mbind res_bind]. fold ep.
  specialize (IH (<[inst := es ++ [ep]]> inv) Hss').
  assert (dom (<[inst := es ++ [ep]]> inv) = dom inv) as Hdom.
  { rewrite dom_insert_L. apply elem_of_dom_2 in Ei. set_solver. }
  destruct (inventory_siblings _ _ _) as [inv'|x].
  - destruct IH as [Hd IH]. split; [congruence|]. intros i e. rewrite IH. setoid_rewrite elem_of_cons.
    assert (lists (<[inst:=es ++ [ep]]> inv) i e <-> lists inv i e \/ (i = inst /\ e = ep)) as ->.
    { unfold lists. destruct (decide (i = inst)) as [->|Hne].
      - rewrite lookup_insert_eq, Ei. split.
        + intros (es' & <-%(inj Some) & [H|H]%elem_of_app); [left; eauto|].
          apply list_elem_of_singleton in H. by right.
        + intros [(es' & <-%(inj Some) & H)|[_ ->]]; eexists; (split; [done|]); apply elem_of_app;
            [by left|right; by apply list_elem_of_singleton].
      - rewrite lookup_insert_ne by done. naive_solver. }
    split.
    + intros [[H|[-> ->]]|(s' & Hs' & H)]; [by left|right; exists s; auto|right; exists s'; auto].
    + intros [H|(s' & [->|Hs'] & H)]; [by left; left| |right; by exists s'].
      left. right. destruct H as (_ & H1 & ->). split; [congruence|done].
  - destruct IH as (s' & i & e & Hs' & H & Hni). exists s', i, e.
    split; [by apply list_elem_of_further|]. split; [done|]. by rewrite <- Hdom.
Qed.

Lemma inventory_groups_spec gs inv :
  (forall gid g, (gid, g) ∈ gs -> group_ok g) ->
  match inventory_groups gs inv with
  | Ok inv' => dom inv' = dom inv /\ forall inst e, lists inv' inst e <-> lists inv inst e \/
      exists gid g s, (gid, g) ∈ gs /\ s ∈ siblings g /\ live_state g s inst e
  | Raise _ => exists gid g s inst e, (gid, g) ∈ gs /\ s ∈ siblings g /\ live_state g s inst e /\
      inst ∉ dom inv
  end.
Proof.
  revert inv. induction gs as [|[gid g] gs IH]; intros inv Hgs; cbn [inventory_groups].
  { split; [done|]. intros inst e. split; [by left|]. intros [H|(gid & g & s & Hin & _)]; [done|].
    by apply not_elem_of_nil in Hin. }
  cbn [snd]. pose proof (inventory_siblings_spec g (siblings g) inv
    (Hgs gid g (list_elem_of_here _ _)) (fun s H => H)) as Hg.
  destruct (inventory_siblings g (siblings g) inv) as [inv1|x]; cbn [mbind res_bind].
  - destruct Hg as [Hd Hg]. specialize (IH inv1).
    assert (forall gid' g', (gid', g') ∈ gs -> group_ok g') as Hgs'
      by (intros gid' g' H; apply (Hgs gid'); by apply list_elem_of_further).
    specialize (IH Hgs'). destruct (inventory_groups gs inv1) as [inv'|x].
    + destruct IH as [Hd' IH]. split; [congruence|]. intros inst e. rewrite IH, Hg.
      setoid_rewrite elem_of_cons. split.
      * intros [[Hl|(s & Hs & Hl)]|(gid' & g' & s & Hin & Hl)]; [by left|right; exists gid, g, s; auto|].
        right. exists gid', g', s. naive_solver.
      * intros [Hl|(gid' & g' & s & [[= -> ->]|Hin] & Hs & Hl)]; [by left; left|left; right; eauto|].
        right. by exists gid', g', s.
    + destruct IH as (gid' & g' & s & inst & e & Hin & H). exists gid', g', s, inst, e.
      split; [by apply list_elem_of_further|]. by rewrite <- Hd.
  - destruct Hg as (s & inst & e & Hs & H & Hni). exists gid, g, s, inst, e.
    split; [apply list_elem_of_here|done].
Qed.

(** The inventory covers exactly the live episodes, and exists when all their
    instances are known. *)
Lemma environment_inventory_spec ids l :
  ledger_ok l ->
  match environment_inventory ids l with
  | Ok inv => dom inv = ids /\ forall inst e, lists inv inst e <-> live_episode l inst e
  | Raise _ => exists inst e, live_episode l inst e /\ inst ∉ ids
  end.
Proof.
  intros (_ & Hg & _). unfold environment_inventory. set (m := set_to_map _ ids).
  assert (dom m = ids) as Hdom.
  { apply set_eq. intros i. rewrite elem_of_dom. unfold m, is_Some.
    setoid_rewrite lookup_set_to_map; [|done]. split; [by intros (x & j & Hj & [= <- _])|].
    intros Hi. by exists [], i. }
  pose proof (inventory_groups_spec (groups l) m (fun gid g H => proj2 (Hg gid g H))) as H.
  destruct (inventory_groups (groups l) m) as [inv|x]; cbn.
  - destruct H as [Hd H]. split; [by rewrite dom_fmap_L, Hd|]. intros inst e.
    transitivity (lists inv inst e).
    + unfold lists. setoid_rewrite lookup_fmap. split.
      * intros (es & (es0 & -> & ->)%fmap_Some & He). exists es0. by rewrite py_sort_perm in He.
      * intros (es & -> & He). eexists. split; [done|]. by rewrite py_sort_perm.
    + rewrite H. split; [|by right]. intros [(es & Hm & He)|]; [|done]. exfalso.
      unfold m in Hm. apply lookup_set_to_map in Hm as (i & _ & [= -> <-]); [|done].
      by apply not_elem_of_nil in He.
  - destruct H as (gid & g & s & inst & e & H1 & H2 & H3 & H4). exists inst, e.
    rewrite <- Hdom. split; [|done]. by exists gid, g, s.
Qed.

(** The check for one episode agrees with the inventory. *)
Lemma still_held_spec l inst e :
  ledger_ok l -> still_held l inst e = true <-> live_episode l inst e.
Proof.
  intros (Hn & Hgs & _). unfold still_held. split.
  - destruct (parse_environment_rollout_id (rollout_id e)) as [[gid i]|] eqn:Ep; [|done].
    destruct (kv_get gid (groups l)) as [g|] eqn:Ek; [|done].
    destruct (siblings g !! i) as [s|] eqn:Ei; [|done].
    apply kv_get_elem in Ek; [|done]. destruct (Hgs gid g Ek) as [-> Hg].
    rewrite (episode_ok _ _ g i s Hg Ei), !andb_true_iff, !bool_decide_eq_true.
    intros ((H1 & H2) & <-). exists (group_id g), g, s. split; [done|].
    split; [by eapply list_elem_of_lookup_2|]. split; [done|]. split; [done|].
    by rewrite (sibling_index _ _ g i s Hg Ei).
  - intros (gid & g & s & Hin & Hs & H1 & H2 & ->). destruct (Hgs gid g Hin) as [-> Hg].
    cbn [rollout_id episode_at]. rewrite parse_base_gate_id. apply kv_get_elem in Hin; [|done].
    rewrite Hin, (sibling_of g s Hg Hs), H1, (episode_of g s Hg Hs).
    by rewrite !bool_decide_eq_true_2.
Qed.

(** ** Sealed positions *)

Lemma sealed_indices_none g : none_sealed g = true -> sealed_generation_indices g = [].
Proof.
  intros H. unfold sealed_generation_indices.
  assert (List.filter is_sealed (siblings g) = []) as ->; [|done].
  unfold none_sealed in H. rewrite forallb_forall in H. induction (siblings g) as [|s ss IH]; [done|].
  cbn. assert (is_sealed s = false) as -> by (apply negb_true_iff, H; by left).
  apply IH. intros x Hx. apply H. by right.
Qed.

Lemma sealed_indices_all g :
  group_ok g -> all_sealed g = true -> sealed_generation_indices g = each_sibling g.
Proof.
  intros Hg H. unfold sealed_generation_indices, each_sibling.
  assert (List.filter is_sealed (siblings g) = siblings g) as ->.
  { unfold all_sealed in H. rewrite forallb_forall in H. induction (siblings g) as [|s ss IH]; [done|].
    cbn. rewrite (H s) by by left. f_equal. apply IH. intros x Hx. apply H. by right. }
  apply list_eq_same_length with (n := length (siblings g)); [by rewrite length_seq|by rewrite length_fmap|].
  intros i x y Hlt Hx Hy. apply lookup_seq in Hy as [-> _].
  rewrite list_lookup_fmap in Hx. apply fmap_Some in Hx as (s & Hs & ->).
  by rewrite (sibling_index _ _ g i s Hg Hs).
Qed.

(** Putting a record back where it was. *)
Lemma with_same_group gid g l :
  kv_get gid (groups l) = Some g -> with_groups (kv_set gid g (groups l)) l = l.
Proof. intros Hk. rewrite kv_set_same by done. by destruct l. Qed.

Lemma kv_get_lookup {A} k (v : A) d : kv_get k d = Some v -> exists n, d.*1 !! n = Some k.
Proof.
  intros Hk. apply list_elem_of_lookup. destruct (decide (k ∈ d.*1)) as [|Hn%kv_get_None]; [done|congruence].
Qed.

End views.
