(* ===== verification/RecoveryCodec.v ===== *)
(** * The checkpoint format of the recovery ledger

    Models [state_dict], [from_state_dict], [load_state_dict] and the schema
    upgrade of [src/nemo_rl/experience/rollout_recovery.py], with
    [parse_reward_log_context] of [experience/reward_penalties.py]. *)

From S2P Require Import Prelude PyVal PyStr StateErr Recovery RecoveryLedger.

(** ** Names of the enum members *)

Definition phase_value (p : PromptGroupPhase) : string :=
  match p with PromptGroupPhase.RESERVED => "reserved" | PromptGroupPhase.ADMITTED => "admitted" end.

Definition level_value (l : RecoveryTargetLevel) : string :=
  match l with
  | RecoveryTargetLevel.TURN => "turn"
  | RecoveryTargetLevel.SIBLING => "sibling"
  | RecoveryTargetLevel.PROMPT_GROUP => "prompt_group"
  end.

Definition status_value (s : PromptGroupStatus) : string :=
  match s with
  | PromptGroupStatus.GENERATING => "generating"
  | PromptGroupStatus.READY_TO_FINALIZE => "ready_to_finalize"
  | PromptGroupStatus.FINALIZING => "finalizing"
  | PromptGroupStatus.FINALIZATION_UNKNOWN => "finalization_unknown"
  end.

Definition attempt_status_value (s : RolloutAttemptStatus) : string :=
  match s with
  | RolloutAttemptStatus.RESERVED => "reserved"
  | RolloutAttemptStatus.DISPATCHED => "dispatched"
  | RolloutAttemptStatus.SEALED => "sealed"
  | RolloutAttemptStatus.FAILED => "failed"
  | RolloutAttemptStatus.ABANDONED => "abandoned"
  end.

(** [Enum(value)] for a string: the member with that value. *)
Definition member {A} (value : A -> string) (members : list A) (v : option PyVal) : res A :=
  match v with
  | Some (VStr s) =>
      match List.find (fun m => String.eqb (value m) s) members with
      | Some m => Ok m
      | None => Raise ValueError
      end
  | _ => Raise ValueError
  end.

Definition phases := [PromptGroupPhase.RESERVED; PromptGroupPhase.ADMITTED].
Definition levels :=
  [RecoveryTargetLevel.TURN; RecoveryTargetLevel.SIBLING; RecoveryTargetLevel.PROMPT_GROUP].
Definition group_statuses :=
  [PromptGroupStatus.GENERATING; PromptGroupStatus.READY_TO_FINALIZE; PromptGroupStatus.FINALIZING;
   PromptGroupStatus.FINALIZATION_UNKNOWN].
Definition attempt_statuses :=
  [RolloutAttemptStatus.RESERVED; RolloutAttemptStatus.DISPATCHED; RolloutAttemptStatus.SEALED;
   RolloutAttemptStatus.FAILED; RolloutAttemptStatus.ABANDONED].

(** ** [state_dict] *)

Definition checks_to_state (c : RewardChecks) : PyVal :=
  str_dict [("duplicated_reasoning", VBool (duplicated_reasoning c));
            ("empty_final_answer", VBool (empty_final_answer c));
            ("low_effort", VBool (low_effort c))].

Definition log_context_to_state (c : RewardLogContext) : PyVal :=
  str_dict [("agent_name", VStr (agent_name c));
            ("full_result_json", opt_val VStr (full_result_json c))].

Definition attempt_to_state (a : RolloutAttemptRecord) : PyVal :=
  str_dict [("attempt_uuid", VBytes (attempt_uuid a));
            ("status", VStr (attempt_status_value (attempt_status a)));
            ("receipt", opt_val VDict (receipt a));
            ("logical_selection", opt_val selection_to_state (logical_selection a));
            ("reward", opt_val VFloat (reward a));
            ("mask_sample", opt_val VBool (mask_sample a));
            ("reward_checks", opt_val checks_to_state (reward_checks a));
            ("reward_log_context", opt_val log_context_to_state (reward_log_context a));
            ("staging_keys", VList (VStr <$> staging_keys a));
            ("gym_instance_id", opt_val VStr (environment_instance_id a));
            ("gym_attempt", VInt (environment_attempt a))].

Definition sibling_to_state (s : RolloutSiblingRecord) : PyVal :=
  str_dict [("generation_index", VInt (Z.of_nat (generation_index s)));
            ("attempts", VList (attempt_to_state <$> attempts s))].

Definition prompt_ref_to_state (p : PromptRef) : PyVal :=
  str_dict [("sample_id", VStr (sample_id p)); ("task_name", opt_val VStr (task_name p))].

Definition group_to_state (g : PromptGroupRecoveryRecord) : PyVal :=
  str_dict [("group_id", VStr (group_id g)); ("admission_id", VStr (admission_id g));
            ("prompt_id", VStr (prompt_id g)); ("prompt_ref", prompt_ref_to_state (prompt_ref g));
            ("task_source", opt_val VStr (task_source g));
            ("resolved_agent_name", opt_val VStr (resolved_agent_name g));
            ("attribution_key", opt_val VStr (attribution_key g));
            ("restore_level", VStr (level_value (restore_level g)));
            ("expected_generations", VInt (expected_generations g));
            ("target_step", opt_val VInt (target_step g));
            ("start_weight_version", VInt (start_weight_version g));
            ("status", VStr (status_value (status g)));
            ("phase", VStr (phase_value (phase g)));
            ("siblings", VList (sibling_to_state <$> siblings g))].

(** The loop over the groups, with its checks. *)
Definition checked_group_state (g : PromptGroupRecoveryRecord) : res PyVal :=
  match runtime_prompt_payload g with
  | None => Raise RuntimeError
  | Some payload => _ ← validate_prompt_identity (prompt_ref g) payload; Ok (group_to_state g)
  end.

Definition schema_version : Z := 7.
Definition pre_turn_versions : list Z := [2; 3; 4; 5].
Definition supported_versions : list Z := [2; 3; 4; 5; 6; 7].

Definition ledger_state (version : Z) (gs : list PyVal) : PyVal :=
  str_dict [("schema_version", VInt version); ("groups", VList gs)].

Definition state_dict (l : RolloutRecoveryLedger) : res PyVal :=
  _ ← assert_checkpoint_safe l;
  gs ← traverse checked_group_state (all_groups l);
  Ok (ledger_state schema_version gs).

(** ** The upgrade of schemas 2 to 5 *)

Definition upgrade_attempt (raw : PyVal) : res PyVal :=
  match raw with
  | VDict d =>
      if has_key "gym_instance_id" d || has_key "gym_attempt" d then Raise ValueError
      else Ok (VDict (dict_set "gym_attempt" (VInt 0) (dict_set "gym_instance_id" VNone d)))
  | _ => Ok raw
  end.

Definition upgrade_sibling (raw : PyVal) : res PyVal :=
  match raw with
  | VDict d =>
      match dict_get "attempts" d with
      | Some (VList attempts) =>
          as' ← traverse upgrade_attempt attempts;
          Ok (VDict (dict_set "attempts" (VList as') d))
      | _ => Ok raw
      end
  | _ => Ok raw
  end.

(** [RecoveryGranularity(v)] succeeds. *)
Definition is_granularity (v : PyVal) : bool := is_str "sibling" v || is_str "prompt_group" v.

Definition upgrade_group (raw : PyVal) : res PyVal :=
  match raw with
  | VDict d =>
      if has_key "restore_level" d then Raise ValueError
      else match dict_get "recovery_granularity" d with
           | None => Raise ValueError
           | Some granularity =>
               _ ← raise_if (negb (is_granularity granularity)) ValueError;
               let d' := dict_set "restore_level" granularity
                           (List.filter (fun kv => negb (is_str "recovery_granularity" kv.1)) d) in
               match dict_get "siblings" d with
               | Some (VList ss) =>
                   ss' ← traverse upgrade_sibling ss; Ok (VDict (dict_set "siblings" (VList ss') d'))
               | _ => Ok (VDict d')
               end
           end
  | _ => Ok raw
  end.

(** ** Reading an attempt *)

(** [float(z)]: the nearest double, ties to even. *)
Definition float_of_int (z : Z) : res pyfloat :=
  let a := Z.abs z in
  let bits := if a =? 0 then 0 else Z.log2 a + 1 in
  if bits <=? 53 then Ok (Fin z 0)
  else
    let e := bits - 53 in
    let q := Z.shiftr a e in
    let r := a - q * 2 ^ e in
    let half := 2 ^ (e - 1) in
    let q' := if (half <? r) || ((half =? r) && Z.odd q) then q + 1 else q in
    if 2 ^ 1024 <=? q' * 2 ^ e then Raise OverflowError else Ok (Fin (Z.sgn z * q') e).

(** [float(v)] for a number. *)
Definition float_of (v : PyVal) : res pyfloat :=
  match v with
  | VFloat f => Ok f
  | _ => match as_int v with Some z => float_of_int z | None => Raise TypeError end
  end.

(** [RewardChecks( **raw )]. *)
Definition checks_from_state (raw : PyVal) : res (option RewardChecks) :=
  match raw with
  | VNone => Ok None
  | VDict d =>
      _ ← raise_if (negb (exact_keys d ["duplicated_reasoning"; "empty_final_answer"; "low_effort"]))
            ValueError;
      match dict_get "duplicated_reasoning" d, dict_get "empty_final_answer" d,
            dict_get "low_effort" d with
      | Some (VBool a), Some (VBool b), Some (VBool c) => Ok (Some (mkChecks a b c))
      | _, _, _ => Raise ValueError
      end
  | _ => Raise ValueError
  end.

(** An optional string that must not be empty. *)
Definition opt_name (v : PyVal) : res (option string) :=
  match v with
  | VNone => Ok None
  | VStr s => if decide (s = "") then Raise ValueError else Ok (Some s)
  | _ => Raise ValueError
  end.

Definition opt_str (v : PyVal) : res (option string) :=
  match v with VNone => Ok None | VStr s => Ok (Some s) | _ => Raise ValueError end.

(** A string that must not be empty. *)
Definition name_of (v : PyVal) : res string :=
  match v with
  | VStr s => if decide (s = "") then Raise ValueError else Ok s
  | _ => Raise ValueError
  end.

Definition str_item (v : PyVal) : option string := match v with VStr s => Some s | _ => None end.

Definition get_or_none (k : string) (d : dict) : PyVal := default VNone (dict_get k d).

Definition attempt_fields (version : Z) : list string :=
  ["attempt_uuid"; "status"; "receipt"; "reward"; "mask_sample"; "reward_checks";
   "reward_log_context"; "staging_keys"; "gym_instance_id"; "gym_attempt"]
  ++ (if 5 <=? version then ["logical_selection"] else []).

Definition reject_unknown_fields (d : dict) (expected : list string) : res unit :=
  raise_if (negb (known_keys d expected)) ValueError.

Section decode.
Context (staging_key : PyVal -> string -> res string) (json_object : string -> bool).

Definition parse_reward_log_context (v : PyVal) : res (option RewardLogContext) :=
  match v with
  | VNone => Ok None
  | VDict d =>
      _ ← raise_if (negb (exact_keys d ["agent_name"; "full_result_json"])) ValueError;
      name ← name_of (get_or_none "agent_name" d);
      json ← opt_str (get_or_none "full_result_json" d);
      let c := mkLogContext name json in
      _ ← raise_if (negb (log_context_ok json_object c)) ValueError;
      Ok (Some c)
  | _ => Raise ValueError
  end.

(** The result fields a sealed attempt must have, and no other may. *)
Definition read_result (gate_id : string) (sealed : bool) (raw_receipt : PyVal)
    (selection : option RolloutSelection) (raw_reward raw_mask : PyVal)
    (checks : option RewardChecks) (context : option RewardLogContext) (keys : list string)
    : res (option dict * option pyfloat * option bool) :=
  if sealed then
    _ ← raise_if (match raw_reward with VFloat _ => false | _ => bool_decide (as_int raw_reward = None) end)
          ValueError;
    mask ← match raw_mask with VBool b => Ok b | _ => Raise ValueError end;
    receipt ← match raw_receipt with
              | VNone => _ ← raise_if (negb (bool_decide (keys = []))) ValueError; Ok None
              | VDict r =>
                  _ ← raise_if (negb (is_str gate_id (get_or_none "capture_key" r))) ValueError;
                  Ok (Some r)
              | _ => Raise ValueError
              end;
    owned ← attempt_staging_keys staging_key gate_id receipt selection;
    _ ← raise_if (negb (bool_decide (owned = keys))) ValueError;
    reward ← float_of raw_reward;
    Ok (receipt, Some reward, Some mask)
  else
    match raw_receipt, selection, raw_reward, raw_mask, checks, context, keys with
    | VNone, None, VNone, VNone, None, None, [] => Ok (None, None, None)
    | _, _, _, _, _, _, _ => Raise ValueError
    end.

Definition attempt_from_state (version : Z) (logical_id : string) (seen : gset uuid) (raw : PyVal)
    : res RolloutAttemptRecord :=
  match raw with
  | VDict d =>
      _ ← reject_unknown_fields d (attempt_fields version);
      u ← match dict_get "attempt_uuid" d with
          | Some (VBytes b) => if (String.length b =? 16)%nat then Ok b else Raise ValueError
          | _ => Raise ValueError
          end;
      _ ← raise_if (bool_decide (u ∈ seen)) ValueError;
      let base_gate_id := logical_id +:+ "_a" +:+ hex u in
      st ← member attempt_status_value attempt_statuses (dict_get "status" d);
      let raw_receipt := get_or_none "receipt" d in
      _ ← raise_if ((version <? 4) && negb (py_eq raw_receipt VNone)) ValueError;
      _ ← raise_if ((5 <=? version) && negb (has_key "logical_selection" d)) ValueError;
      selection ← selection_from_state (get_or_none "logical_selection" d);
      checks ← checks_from_state (get_or_none "reward_checks" d);
      context ← parse_reward_log_context (get_or_none "reward_log_context" d);
      _ ← raise_if (negb (has_key "gym_instance_id" d) || negb (has_key "gym_attempt" d)) ValueError;
      inst ← opt_name (get_or_none "gym_instance_id" d);
      n ← match get_or_none "gym_attempt" d with
          | VInt z => if z <? 0 then Raise ValueError else Ok z
          | _ => Raise ValueError
          end;
      _ ← raise_if ((0 <? n) && bool_decide (inst = None)) ValueError;
      ep ← new_episode base_gate_id n;
      keys ← match get_or_none "staging_keys" d with
             | VList ks => match mapM str_item ks with Some ks => Ok ks | None => Raise ValueError end
             | _ => Raise ValueError
             end;
      '(receipt, reward, mask) ← read_result (capture_key ep)
          (bool_decide (st = RolloutAttemptStatus.SEALED)) raw_receipt selection
          (get_or_none "reward" d) (get_or_none "mask_sample" d) checks context keys;
      Ok (mkAttempt u st receipt reward mask checks context keys selection inst n)
  | _ => Raise ValueError
  end.
(** The attempts of a sibling, remembering the UUIDs. *)
Fixpoint attempts_from_state (version : Z) (logical_id : string) (seen : gset uuid)
    (raws : list PyVal) : res (list RolloutAttemptRecord * gset uuid) :=
  match raws with
  | [] => Ok ([], seen)
  | raw :: rest =>
      a ← attempt_from_state version logical_id seen raw;
      '(as', seen') ← attempts_from_state version logical_id ({[attempt_uuid a]} ∪ seen) rest;
      Ok (a :: as', seen')
  end.

(** A list of attempts as a sibling's: its last is the current one. *)
Definition split_attempts (l : list RolloutAttemptRecord)
    : option (list RolloutAttemptRecord * RolloutAttemptRecord) :=
  match last l with Some a => Some (removelast l, a) | None => None end.

Definition sibling_from_state (version : Z) (gid : string) (i : nat) (seen : gset uuid) (raw : PyVal)
    : res (RolloutSiblingRecord * gset uuid) :=
  match raw with
  | VDict d =>
      _ ← reject_unknown_fields d ["generation_index"; "attempts"];
      _ ← raise_if (negb (eq_int (get_or_none "generation_index" d) (Z.of_nat i))) ValueError;
      match get_or_none "attempts" d with
      | VList raws =>
          _ ← raise_if (bool_decide (raws = [])) ValueError;
          '(l, seen') ← attempts_from_state version (logical_rollout_id gid i) seen raws;
          match split_attempts l with
          | Some (past, current) => Ok (mkSibling i past current, seen')
          | None => Raise ValueError
          end
      | _ => Raise ValueError
      end
  | _ => Raise ValueError
  end.

Fixpoint siblings_from_state (version : Z) (gid : string) (i : nat) (seen : gset uuid)
    (raws : list PyVal) : res (list RolloutSiblingRecord * gset uuid) :=
  match raws with
  | [] => Ok ([], seen)
  | raw :: rest =>
      '(s, seen1) ← sibling_from_state version gid i seen raw;
      '(ss, seen2) ← siblings_from_state version gid (S i) seen1 rest;
      Ok (s :: ss, seen2)
  end.

Definition prompt_ref_from_state (prompt_id : string) (raw : PyVal) : res PromptRef :=
  match raw with
  | VDict d =>
      _ ← reject_unknown_fields d ["sample_id"; "task_name"];
      id ← name_of (get_or_none "sample_id" d);
      task ← opt_str (get_or_none "task_name" d);
      _ ← raise_if (negb (String.eqb id prompt_id)) ValueError;
      new_prompt_ref id task
  | _ => Raise ValueError
  end.

Definition group_fields : list string :=
  ["group_id"; "admission_id"; "prompt_id"; "prompt_ref"; "task_source"; "resolved_agent_name";
   "attribution_key"; "restore_level"; "expected_generations"; "target_step"; "start_weight_version";
   "status"; "phase"; "siblings"].

(** An [int] at least 1; [True] is one. *)
Definition positive_int (v : PyVal) : res Z :=
  match as_int v with
  | Some n => if n <? 1 then Raise ValueError else Ok n
  | None => Raise ValueError
  end.

Definition opt_int (v : PyVal) : res (option Z) :=
  match v with
  | VNone => Ok None
  | _ => match as_int v with Some z => Ok (Some z) | None => Raise ValueError end
  end.

Definition group_from_state (version : Z) (seen : gset uuid) (raw : PyVal)
    : res (PromptGroupRecoveryRecord * gset uuid) :=
  match raw with
  | VDict d =>
      _ ← reject_unknown_fields d group_fields;
      gid ← name_of (get_or_none "group_id" d);
      admission ← name_of (get_or_none "admission_id" d);
      prompt ← name_of (get_or_none "prompt_id" d);
      source ← opt_str (get_or_none "task_source" d);
      agent ← opt_name (get_or_none "resolved_agent_name" d);
      key ← opt_name (default (get_or_none "resolved_agent_name" d) (dict_get "attribution_key" d));
      level ← member level_value levels (dict_get "restore_level" d);
      expected ← positive_int (get_or_none "expected_generations" d);
      raws ← match get_or_none "siblings" d with
             | VList raws => if Z.of_nat (length raws) =? expected then Ok raws else Raise ValueError
             | _ => Raise ValueError
             end;
      st ← member status_value group_statuses (dict_get "status" d);
      ph ← member phase_value phases (dict_get "phase" d);
      '(ss, seen') ← siblings_from_state version gid 0 seen raws;
      pref ← prompt_ref_from_state prompt (get_or_none "prompt_ref" d);
      target ← opt_int (get_or_none "target_step" d);
      start ← match as_int (get_or_none "start_weight_version" d) with
              | Some z => Ok z
              | None => Raise ValueError
              end;
      let all_current_sealed := forallb is_sealed ss in
      _ ← raise_if (bool_decide (st = PromptGroupStatus.GENERATING) && all_current_sealed) ValueError;
      _ ← raise_if (negb (bool_decide (st = PromptGroupStatus.GENERATING)) && negb all_current_sealed)
            ValueError;
      Ok (mkGroup gid admission prompt pref source level None expected target start ss ph st agent key,
          seen')
  | _ => Raise ValueError
  end.

(** The loop over the groups of a state. *)
Fixpoint groups_from_state (version : Z) (seen : gset uuid)
    (acc : list (string * PromptGroupRecoveryRecord)) (raws : list PyVal)
    : res (list (string * PromptGroupRecoveryRecord)) :=
  match raws with
  | [] => Ok acc
  | raw :: rest =>
      '(g, seen') ← group_from_state version seen raw;
      _ ← raise_if (bool_decide (group_id g ∈ acc.*1)) ValueError;
      groups_from_state version seen' (acc ++ [(group_id g, g)]) rest
  end.

(** Groups sharing an admission agree on phase and target step. *)
Fixpoint check_admissions (states : gmap string (PromptGroupPhase * option Z))
    (gs : list PromptGroupRecoveryRecord) : res unit :=
  match gs with
  | [] => Ok tt
  | g :: rest =>
      let signature := (phase g, target_step g) in
      let previous := default signature (states !! admission_id g) in
      _ ← raise_if (negb (bool_decide (previous = signature))) ValueError;
      check_admissions (<[admission_id g := previous]> states) rest
  end.

Definition from_state_dict (state : PyVal) : res RolloutRecoveryLedger :=
  match state with
  | VDict d =>
      _ ← reject_unknown_fields d ["schema_version"; "groups"];
      version ← match get_or_none "schema_version" d with
                | VInt z => if bool_decide (z ∈ supported_versions) then Ok z else Raise ValueError
                | _ => Raise ValueError
                end;
      raws ← match get_or_none "groups" d with VList gs => Ok gs | _ => Raise ValueError end;
      raws ← (if bool_decide (version ∈ pre_turn_versions) then traverse upgrade_group raws else Ok raws);
      gs ← groups_from_state version ∅ [] raws;
      _ ← check_admissions ∅ gs.*2;
      Ok (with_groups gs new_ledger)
  | _ => Raise TypeError
  end.

Definition load_state_dict (live : bool) (state : PyVal) : SE RolloutRecoveryLedger unit :=
  _ ← require_live live;
  l ← get;
  _ ← guard (negb (bool_decide (groups l = []))) RuntimeError;
  restored ← lift (from_state_dict state);
  modify (with_groups (groups restored)).

End decode.
