(* ===== verification/RecoveryRoundTrip.v ===== *)
(** * Saved recovery ledgers restore

    What [state_dict] of a ledger that satisfies the invariant writes,
    [from_state_dict] reads back, but for the prompt payloads. *)

From S2P Require Import Prelude PyVal PyStr StateErr Recovery RecoveryLedger RecoveryInv.
From S2P Require Import RecoveryCodec.

Section round_trip.
Context (staging_key : PyVal -> string -> res string) (json_object : string -> bool).
#[local] Abbreviation attempt_ok := (attempt_ok staging_key json_object) (only parsing).
#[local] Abbreviation group_ok := (group_ok staging_key json_object) (only parsing).
#[local] Abbreviation ledger_ok := (ledger_ok staging_key json_object) (only parsing).

(** ** Fields *)

Lemma member_value {A} (value : A -> string) members m :
  m ∈ members -> (forall x y, x ∈ members -> y ∈ members -> value x = value y -> x = y) ->
  member value members (Some (VStr (value m))) = Ok m.
Proof.
  intros Hm Hinj. unfold member. induction members as [|x members IH]; [by apply not_elem_of_nil in Hm|].
  cbn. destruct (String.eqb_spec (value x) (value m)) as [E|Hne].
  - f_equal. apply Hinj; [apply list_elem_of_here|done|done].
  - apply elem_of_cons in Hm as [->|Hm]; [done|]. apply IH; [done|].
    intros a b Ha Hb. apply Hinj; by apply list_elem_of_further.
Qed.

Lemma phase_round_trip p : member phase_value phases (Some (VStr (phase_value p))) = Ok p.
Proof. by destruct p. Qed.
Lemma level_round_trip p : member level_value levels (Some (VStr (level_value p))) = Ok p.
Proof. by destruct p. Qed.
Lemma status_round_trip p : member status_value group_statuses (Some (VStr (status_value p))) = Ok p.
Proof. by destruct p. Qed.
Lemma attempt_status_round_trip p :
  member attempt_status_value attempt_statuses (Some (VStr (attempt_status_value p))) = Ok p.
Proof. by destruct p. Qed.

Lemma checks_round_trip c : checks_from_state (opt_val checks_to_state c) = Ok c.
Proof. by destruct c as [[a b c]|]. Qed.

Lemma opt_str_round_trip o : opt_str (opt_val VStr o) = Ok o.
Proof. by destruct o. Qed.

Lemma opt_int_round_trip o : opt_int (opt_val VInt o) = Ok o.
Proof. by destruct o. Qed.

Lemma opt_name_round_trip o : o <> Some "" -> opt_name (opt_val VStr o) = Ok o.
Proof.
  destruct o as [s|]; [|done]. intros Hs. cbn. rewrite decide_False; [done|]. congruence.
Qed.

Lemma name_of_round_trip s : s <> "" -> name_of (VStr s) = Ok s.
Proof. intros Hs. cbn. by rewrite decide_False. Qed.

Lemma log_context_round_trip o :
  (forall c, o = Some c -> log_context_ok json_object c = true) ->
  parse_reward_log_context json_object (opt_val log_context_to_state o) = Ok o.
Proof.
  destruct o as [[name json]|]; [|done]. intros Hc. specialize (Hc _ eq_refl).
  unfold parse_reward_log_context, opt_val, log_context_to_state, str_dict. cbn -[name_of opt_str log_context_ok].
  assert (name <> "") as Hn.
  { intros ->. by cbn in Hc. }
  change (get_or_none "agent_name" _) with (VStr name).
  rewrite name_of_round_trip by done. cbn -[opt_str log_context_ok].
  change (get_or_none "full_result_json" _) with (opt_val VStr json).
  rewrite opt_str_round_trip. cbn -[log_context_ok]. by rewrite Hc.
Qed.

Lemma selection_from_to sel x :
  selection_from_state (selection_to_state sel) = Ok x -> x = Some sel.
Proof.
  destruct sel as [rs fs t]. intros H.
  assert (mapM flags_from_state (flags_to_state <$> fs) = Some fs) as Hf.
  { clear. induction fs as [|[a b] fs IH]; [done|]. cbn in *. by rewrite IH. }
  assert (forall rs', mapM response_from_state (VStr <$> rs) = Some rs' -> rs' = rs) as Hr.
  { clear. induction rs as [|r rs IH]; intros rs'; [by intros [= <-]|].
    cbn. destruct (decide (r = "")); [done|]. cbn.
    destruct (mapM response_from_state _) as [l|] eqn:E; [|done]. intros [= <-].
    by rewrite (IH l eq_refl). }
  unfold selection_to_state, selection_from_state in H. cbn [str_dict List.map] in H.
  cbn [response_ids action_flags truncated] in H. cbn in H. rewrite Hf in H.
  destruct (mapM response_from_state (VStr <$> rs)) as [rs'|] eqn:E; [|done].
  apply bind_Ok in H as ([] & _ & [= <-]). by rewrite (Hr rs' eq_refl).
Qed.

Lemma selection_saved gate r sel keys :
  attempt_staging_keys staging_key gate r sel = Ok keys ->
  selection_from_state (opt_val selection_to_state sel) = Ok sel.
Proof.
  destruct sel as [sel|]; [|done]. unfold attempt_staging_keys.
  intros (? & _ & (? & _ & (x & Hx & _)%bind_Ok)%bind_Ok)%bind_Ok.
  change (opt_val selection_to_state (Some sel)) with (selection_to_state sel). rewrite Hx. by rewrite (selection_from_to sel x Hx).
Qed.

Lemma keys_round_trip ks : mapM str_item (VStr <$> ks) = Some ks.
Proof. induction ks as [|k ks IH]; [done|]. cbn in *. by rewrite IH. Qed.

(** ** Attempts *)

Lemma result_round_trip gid i a :
  attempt_ok gid i a ->
  read_result staging_key (capture_key (episode_at gid i a))
    (bool_decide (attempt_status a = RolloutAttemptStatus.SEALED)) (opt_val VDict (receipt a))
    (logical_selection a) (opt_val VFloat (reward a)) (opt_val VBool (mask_sample a)) (reward_checks a)
    (reward_log_context a) (staging_keys a) = Ok (receipt a, reward a, mask_sample a).
Proof.
  intros (_ & _ & _ & _ & Ha). unfold read_result.
  destruct (decide (attempt_status a = RolloutAttemptStatus.SEALED)) as [Hs|Hs].
  - rewrite bool_decide_eq_true_2 by done. destruct Ha as (Hr & Hm & _ & Hk).
    destruct (reward a) as [x|]; [|done]. destruct (mask_sample a) as [m|]; [|done]. cbn -[attempt_staging_keys].
    pose proof Hk as Hk0. unfold attempt_staging_keys in Hk0. apply bind_Ok in Hk0 as ([] & Hcap & Hk0).
    apply bind_Ok in Hk0 as (keys & Hkeys & _).
    assert (match receipt a with
            | None => staging_keys a = []
            | Some r => is_str (capture_key (episode_at gid i a)) (get_or_none "capture_key" r) = true
            end) as Hrec.
    { destruct (receipt a) as [r|] eqn:Er.
      - apply raise_if_Ok in Hcap. by apply negb_false_iff in Hcap.
      - destruct (logical_selection a); unfold attempt_staging_keys in Hk; cbn in Hk;
          [|by injection Hk].
        apply bind_Ok in Hk as (? & _ & Hk). done. }
    assert (match opt_val VDict (receipt a) with
      | VNone => _ ← raise_if (negb (bool_decide (staging_keys a = []))) ValueError; Ok None
      | VDict r =>
          _ ← raise_if (negb (is_str (capture_key (episode_at gid i a)) (get_or_none "capture_key" r)))
                ValueError; Ok (Some r)
      | _ => Raise ValueError
      end = Ok (receipt a)) as Hread.
    { destruct (receipt a) as [r|]; cbn; [by rewrite Hrec|by rewrite bool_decide_eq_true_2]. }
    rewrite Hread. cbn [mbind res_bind]. rewrite Hk. cbn [mbind res_bind].
    by rewrite bool_decide_eq_true_2.
  - rewrite bool_decide_eq_false_2 by done. destruct Ha as (H1 & H2 & H3 & H4 & H5 & H6 & H7).
    by rewrite H1, H2, H3, H4, H5, H6, H7.
Qed.

Lemma attempt_round_trip gid i seen a :
  attempt_ok gid i a -> attempt_uuid a ∉ seen ->
  attempt_from_state staging_key json_object 7 (logical_rollout_id gid i) seen (attempt_to_state a)
    = Ok a.
Proof.
  intros Ha Hu. pose proof Ha as (Hn & Hin & Hne & Hlen & Hres).
  unfold attempt_from_state, attempt_to_state, str_dict. cbn [List.map]. set (d := _ :: _ : dict).
  change (reject_unknown_fields d (attempt_fields 7)) with (Ok tt : res unit). cbn [mbind res_bind].
  change (dict_get "attempt_uuid" d) with (Some (VBytes (attempt_uuid a))). cbn [mbind res_bind].
  rewrite Hlen. cbn [Nat.eqb mbind res_bind].
  rewrite bool_decide_eq_false_2 by done. cbn [raise_if mbind res_bind].
  change (dict_get "status" d) with (Some (VStr (attempt_status_value (attempt_status a)))).
  rewrite attempt_status_round_trip. cbn [mbind res_bind].
  change (get_or_none "receipt" d) with (opt_val VDict (receipt a)).
  change (7 <? 4) with false. change (5 <=? 7) with true. cbn [andb raise_if mbind res_bind].
  change (has_key "logical_selection" d) with true. cbn [negb raise_if mbind res_bind].
  change (get_or_none "logical_selection" d) with (opt_val selection_to_state (logical_selection a)).
  assert (selection_from_state (opt_val selection_to_state (logical_selection a)) =
    Ok (logical_selection a)) as ->.
  { destruct (decide (attempt_status a = _)); [|by destruct Hres as (_ & -> & _)].
    destruct Hres as (_ & _ & _ & Hk). by eapply selection_saved. }
  cbn [mbind res_bind].
  change (get_or_none "reward_checks" d) with (opt_val checks_to_state (reward_checks a)).
  rewrite checks_round_trip. cbn [mbind res_bind].
  change (get_or_none "reward_log_context" d) with (opt_val log_context_to_state (reward_log_context a)).
  rewrite log_context_round_trip.
  2:{ intros c Hc. destruct (decide (attempt_status a = _)); [|destruct Hres; naive_solver].
      destruct Hres as (_ & _ & Hlc & _). by apply Hlc. }
  cbn [mbind res_bind].
  change (has_key "gym_instance_id" d) with true. change (has_key "gym_attempt" d) with true.
  cbn [negb orb raise_if mbind res_bind].
  change (get_or_none "gym_instance_id" d) with (opt_val VStr (environment_instance_id a)).
  rewrite opt_name_round_trip by done. cbn [mbind res_bind].
  change (get_or_none "gym_attempt" d) with (VInt (environment_attempt a)). cbn [mbind res_bind].
  rewrite (proj2 (Z.ltb_ge _ _)) by done. cbn [mbind res_bind].
  assert ((0 <? environment_attempt a) && bool_decide (environment_instance_id a = None) = false) as ->.
  { destruct (Z.ltb_spec 0 (environment_attempt a)) as [Hp|]; [|done].
    rewrite bool_decide_eq_false_2; [done|]. by apply Hin. }
  cbn [raise_if mbind res_bind].
  change (logical_rollout_id gid i +:+ "_a" +:+ hex (attempt_uuid a))
    with (base_gate_id gid i (attempt_uuid a)).
  rewrite new_episode_Ok by (done || apply base_gate_id_nonempty). cbn [mbind res_bind].
  change (get_or_none "staging_keys" d) with (VList (VStr <$> staging_keys a)). cbn [mbind res_bind].
  rewrite keys_round_trip. cbn [mbind res_bind].
  change (get_or_none "reward" d) with (opt_val VFloat (reward a)).
  change (get_or_none "mask_sample" d) with (opt_val VBool (mask_sample a)).
  change (mkEpisode (base_gate_id gid i (attempt_uuid a)) (environment_attempt a)) with (episode_at gid i a).
  rewrite (result_round_trip gid i a Ha). cbn [mbind res_bind]. by destruct a.
Qed.
(** [seen'] are the UUIDs of [seen] and [us]. *)
Definition sees (us : list uuid) (seen seen' : gset uuid) : Prop :=
  forall u, u ∈ seen' <-> u ∈ us \/ u ∈ seen.

Lemma sees_app us us' s1 s2 s3 : sees us s1 s2 -> sees us' s2 s3 -> sees (us ++ us') s1 s3.
Proof. intros H1 H2 u. rewrite (H2 u), (H1 u), elem_of_app. tauto. Qed.

(** No UUID twice, and none seen. *)
Definition unseen (us : list uuid) (seen : gset uuid) : Prop :=
  NoDup us /\ forall u, u ∈ us -> u ∉ seen.

Lemma unseen_app us us' s1 s2 :
  unseen (us ++ us') s1 -> sees us s1 s2 -> unseen us s1 /\ unseen us' s2.
Proof.
  intros [(H1 & H2 & H3)%NoDup_app Hs] Hsees. split; (split; [done|]); intros u Hu.
  - apply Hs, elem_of_app. by left.
  - rewrite (Hsees u). intros [H|H]; [by apply (H2 u)|]. apply (Hs u); [|done]. apply elem_of_app. by right.
Qed.

Lemma unseen_prefix us us' seen : unseen (us ++ us') seen -> unseen us seen.
Proof. intros H. by apply (unseen_app us us' seen (list_to_set us ∪ seen)); [|intros u; set_solver]. Qed.

Lemma attempts_round_trip gid i seen l :
  Forall (attempt_ok gid i) l -> unseen (attempt_uuid <$> l) seen ->
  exists seen', attempts_from_state staging_key json_object 7 (logical_rollout_id gid i) seen
    (attempt_to_state <$> l) = Ok (l, seen') /\ sees (attempt_uuid <$> l) seen seen'.
Proof.
  intros Hl. revert seen. induction Hl as [|a l Ha _ IH]; intros seen Hu; cbn [fmap list_fmap].
  { exists seen. split; [done|]. intros u. set_solver. }
  destruct (unseen_app [attempt_uuid a] (attempt_uuid <$> l) seen ({[attempt_uuid a]} ∪ seen)) as [H1 H2].
  { exact Hu. } { intros u. set_solver. }
  destruct (IH _ H2) as (seen' & Heq & Hs). exists seen'. cbn [attempts_from_state].
  rewrite (attempt_round_trip gid i seen a Ha) by (apply H1; set_solver). cbn [mbind res_bind].
  change (list_fmap _ _ attempt_to_state l) with (attempt_to_state <$> l).
  rewrite Heq. split; [done|]. intros u. rewrite (Hs u). set_solver.
Qed.

Lemma split_attempts_app past a : split_attempts (past ++ [a]) = Some (past, a).
Proof. unfold split_attempts. rewrite last_snoc. by rewrite removelast_last. Qed.

Definition sibling_uuids (s : RolloutSiblingRecord) : list uuid := attempt_uuid <$> attempts s.

Lemma sibling_round_trip gid i seen s :
  generation_index s = i -> Forall (attempt_ok gid i) (attempts s) -> unseen (sibling_uuids s) seen ->
  exists seen', sibling_from_state staging_key json_object 7 gid i seen (sibling_to_state s)
    = Ok (s, seen') /\ sees (sibling_uuids s) seen seen'.
Proof.
  intros Hi Ha Hu. destruct (attempts_round_trip gid i seen _ Ha Hu) as (seen' & Heq & Hs).
  exists seen'. split; [|done]. unfold sibling_from_state, sibling_to_state, str_dict. cbn [List.map].
  set (d := _ :: _ : dict).
  change (reject_unknown_fields d _) with (Ok tt : res unit). cbn [mbind res_bind].
  change (get_or_none "generation_index" d) with (VInt (Z.of_nat (generation_index s))).
  rewrite Hi. cbn [eq_int]. rewrite Z.eqb_refl. cbn [negb raise_if mbind res_bind].
  change (get_or_none "attempts" d) with (VList (attempt_to_state <$> attempts s)). cbn iota.
  rewrite bool_decide_eq_false_2.
  2:{ intros H. apply (f_equal length) in H. rewrite length_fmap in H. unfold attempts in H.
      rewrite length_app in H. cbn in H. lia. }
  cbn [raise_if mbind res_bind]. rewrite Heq. cbn [mbind res_bind]. unfold attempts.
  rewrite split_attempts_app. subst i. by destruct s.
Qed.

Lemma siblings_round_trip gid i seen ss :
  (forall k s, ss !! k = Some s -> generation_index s = (i + k)%nat /\
     Forall (attempt_ok gid (i + k)) (attempts s)) ->
  unseen (concat (sibling_uuids <$> ss)) seen ->
  exists seen', siblings_from_state staging_key json_object 7 gid i seen (sibling_to_state <$> ss)
    = Ok (ss, seen') /\ sees (concat (sibling_uuids <$> ss)) seen seen'.
Proof.
  revert i seen. induction ss as [|s ss IH]; intros i seen Hss Hu.
  { exists seen. split; [done|]. intros u. set_solver. }
  destruct (Hss 0%nat s eq_refl) as [Hi Ha]. rewrite Nat.add_0_r in Hi, Ha.
  cbn [fmap list_fmap concat] in Hu. pose proof (unseen_prefix _ _ _ Hu) as Hu1.
  destruct (sibling_round_trip gid i seen s Hi Ha Hu1) as (seen1 & Heq1 & Hs1).
  destruct (unseen_app _ _ seen seen1 Hu Hs1) as [_ Hu2].
  destruct (IH (S i) seen1) as (seen2 & Heq2 & Hs2).
  { intros k s' Hk. rewrite Nat.add_succ_comm. by apply (Hss (S k)). }
  { exact Hu2. }
  exists seen2. cbn [fmap list_fmap siblings_from_state]. rewrite Heq1. cbn [mbind res_bind].
  change (list_fmap _ _ sibling_to_state ss) with (sibling_to_state <$> ss). rewrite Heq2.
  split; [done|]. by eapply sees_app.
Qed.

(** ** Groups *)

Lemma prompt_ref_round_trip pid p :
  pid <> "" -> sample_id p = pid ->
  prompt_ref_from_state pid (prompt_ref_to_state p) = Ok p.
Proof.
  intros Hp Hs. unfold prompt_ref_from_state, prompt_ref_to_state, str_dict. cbn [List.map].
  set (d := _ :: _ : dict).
  change (reject_unknown_fields d _) with (Ok tt : res unit). cbn [mbind res_bind].
  change (get_or_none "sample_id" d) with (VStr (sample_id p)).
  rewrite Hs, name_of_round_trip by done. cbn [mbind res_bind].
  change (get_or_none "task_name" d) with (opt_val VStr (task_name p)).
  rewrite opt_str_round_trip. cbn [mbind res_bind]. rewrite String.eqb_refl.
  cbn [negb raise_if mbind res_bind]. unfold new_prompt_ref. rewrite bool_decide_eq_false_2 by done.
  subst pid. by destruct p.
Qed.

(** What a saved group restores to. *)
Definition without_payload (g : PromptGroupRecoveryRecord) : PromptGroupRecoveryRecord :=
  with_payload None g.

Lemma group_round_trip seen g :
  group_ok g -> unseen (group_uuids g) seen ->
  exists seen', group_from_state staging_key json_object 7 seen (group_to_state g)
    = Ok (without_payload g, seen') /\ sees (group_uuids g) seen seen'.
Proof.
  intros (Hh & Hss & Hst & _) Hu. destruct Hh as (H1 & H2 & H3 & H4 & H5 & H6 & H7 & H8).
  destruct (siblings_round_trip (group_id g) 0 seen (siblings g)) as (seen' & Heq & Hs); [|exact Hu|].
  { intros k s Hk. destruct (Hss k s Hk) as (A1 & A2 & _). done. }
  exists seen'. split; [|exact Hs].
  unfold group_from_state, group_to_state, str_dict. cbn [List.map]. set (d := _ :: _ : dict).
  change (reject_unknown_fields d group_fields) with (Ok tt : res unit). cbn [mbind res_bind].
  change (get_or_none "group_id" d) with (VStr (group_id g)).
  change (get_or_none "admission_id" d) with (VStr (admission_id g)).
  change (get_or_none "prompt_id" d) with (VStr (prompt_id g)).
  rewrite !name_of_round_trip by done. cbn [mbind res_bind].
  change (get_or_none "task_source" d) with (opt_val VStr (task_source g)).
  rewrite opt_str_round_trip. cbn [mbind res_bind].
  change (get_or_none "resolved_agent_name" d) with (opt_val VStr (resolved_agent_name g)).
  rewrite opt_name_round_trip by done. cbn [mbind res_bind].
  change (dict_get "attribution_key" d) with (Some (opt_val VStr (attribution_key g))). cbn [from_option id].
  rewrite opt_name_round_trip by done. cbn [mbind res_bind].
  change (dict_get "restore_level" d) with (Some (VStr (level_value (restore_level g)))).
  rewrite level_round_trip. cbn [mbind res_bind].
  change (get_or_none "expected_generations" d) with (VInt (expected_generations g)).
  unfold positive_int. cbn [as_int]. rewrite (proj2 (Z.ltb_ge _ 1)) by done. cbn [mbind res_bind].
  change (get_or_none "siblings" d) with (VList (sibling_to_state <$> siblings g)). cbn iota.
  rewrite length_fmap, H6, Z.eqb_refl. cbn [mbind res_bind].
  change (dict_get "status" d) with (Some (VStr (status_value (status g)))).
  rewrite status_round_trip. cbn [mbind res_bind].
  change (dict_get "phase" d) with (Some (VStr (phase_value (phase g)))).
  rewrite phase_round_trip. cbn [mbind res_bind]. rewrite Heq. cbn [mbind res_bind].
  change (get_or_none "prompt_ref" d) with (prompt_ref_to_state (prompt_ref g)).
  rewrite prompt_ref_round_trip by done. cbn [mbind res_bind].
  change (get_or_none "target_step" d) with (opt_val VInt (target_step g)).
  rewrite opt_int_round_trip. cbn [mbind res_bind].
  change (get_or_none "start_weight_version" d) with (VInt (start_weight_version g)).
  cbn [as_int mbind res_bind]. fold (all_sealed g).
  destruct (decide (status g = PromptGroupStatus.GENERATING)) as [Hgen|Hgen].
  - rewrite bool_decide_eq_true_2 by done. rewrite (proj1 Hst Hgen). by destruct g.
  - rewrite bool_decide_eq_false_2 by done. destruct (all_sealed g) eqn:E; [by destruct g|].
    destruct Hgen. by apply Hst.
Qed.

(** ** Ledgers *)

Definition keyed (g : PromptGroupRecoveryRecord) : string * PromptGroupRecoveryRecord :=
  (group_id g, without_payload g).

Lemma groups_round_trip gs seen acc :
  Forall (group_ok) gs -> unseen (concat (group_uuids <$> gs)) seen ->
  NoDup (acc.*1 ++ (group_id <$> gs)) ->
  groups_from_state staging_key json_object 7 seen acc (group_to_state <$> gs)
    = Ok (acc ++ (keyed <$> gs)).
Proof.
  intros Hg. revert seen acc. induction Hg as [|g gs Hg _ IH]; intros seen acc Hu Hn.
  { cbn. by rewrite app_nil_r. }
  cbn [fmap list_fmap concat] in Hu, Hn.
  destruct (group_round_trip seen g Hg (unseen_prefix _ _ _ Hu)) as (seen1 & Heq & Hs).
  cbn [fmap list_fmap groups_from_state]. rewrite Heq. cbn [mbind res_bind].
  change (group_id (without_payload g)) with (group_id g).
  rewrite bool_decide_eq_false_2.
  2:{ apply NoDup_app in Hn as (_ & Hd & _). intros H. apply (Hd _ H). apply list_elem_of_here. }
  cbn [raise_if mbind res_bind]. change (list_fmap _ _ group_to_state gs) with (group_to_state <$> gs).
  destruct (unseen_app _ _ _ _ Hu Hs) as [_ Hu2]. rewrite (IH seen1); [|done|].
  - by rewrite <- app_assoc.
  - rewrite fmap_app, <- app_assoc. exact Hn.
Qed.

Definition signature (g : PromptGroupRecoveryRecord) : PromptGroupPhase * option Z :=
  (phase g, target_step g).

(** Groups sharing an admission agree. *)
Definition admissions_agree (gs : list PromptGroupRecoveryRecord) : Prop :=
  forall g g', g ∈ gs -> g' ∈ gs -> admission_id g = admission_id g' -> signature g = signature g'.

(** [if not P: raise], then [m]. *)
Lemma unless_Ok {A} (P : Prop) `{Decision P} e (m : res A) y :
  (_ ← raise_if (negb (bool_decide P)) e; m) = Ok y <-> P /\ m = Ok y.
Proof. case_bool_decide; cbn; naive_solver. Qed.

Lemma check_admissions_states states gs :
  check_admissions states gs = Ok tt <->
  (forall g sig, g ∈ gs -> states !! admission_id g = Some sig -> sig = signature g) /\
  admissions_agree gs.
Proof.
  revert states. induction gs as [|g gs IH]; intros states; cbn [check_admissions].
  { split; [|done]. intros _. split; [by intros g sig ?%not_elem_of_nil|by intros g g' ?%not_elem_of_nil]. }
  change (phase g, target_step g) with (signature g).
  rewrite unless_Ok, IH. unfold admissions_agree. setoid_rewrite elem_of_cons. split.
  - intros (Hp & Hst & Hag). rewrite Hp in Hst. split.
    + intros g' sig [->|Hin] Hs; [by rewrite Hs in Hp|].
      destruct (decide (admission_id g = admission_id g')) as [E|Hne].
      * specialize (Hst g' (signature g) Hin). rewrite <- E, lookup_insert_eq in Hst.
        rewrite <- E in Hs. rewrite Hs in Hp. cbn in Hp. rewrite <- (Hst eq_refl). done.
      * apply (Hst g' sig Hin). by rewrite lookup_insert_ne.
    + intros g1 g2 [->|H1] [->|H2] E; [done| | |by apply Hag].
      * apply (Hst g2 (signature g) H2). by rewrite <- E, lookup_insert_eq.
      * symmetry. apply (Hst g1 (signature g) H1). by rewrite E, lookup_insert_eq.
  - intros (Hst & Hag).
    assert (default (signature g) (states !! admission_id g) = signature g) as Hp.
    { destruct (states !! admission_id g) as [sig|] eqn:E; [|done]. cbn.
      apply (Hst g); [by left|done]. }
    split; [done|]. rewrite Hp. split; [|intros; apply Hag; auto].
    intros g' sig Hin. destruct (decide (admission_id g = admission_id g')) as [E|Hne].
    + rewrite E, lookup_insert_eq. intros [= <-]. apply Hag; auto.
    + rewrite lookup_insert_ne by done. intros Hs. apply (Hst g' sig); auto.
Qed.

Lemma check_admissions_spec gs : check_admissions ∅ gs = Ok tt <-> admissions_agree gs.
Proof.
  rewrite check_admissions_states. split; [by intros [_ H]|]. intros H. split; [|done].
  intros g sig _. by rewrite lookup_empty.
Qed.

Lemma check_admissions_total states gs e : check_admissions states gs = Raise e -> e = ValueError.
Proof.
  revert states. induction gs as [|g gs IH]; intros states; [done|]. cbn.
  destruct (bool_decide _); cbn; [by apply IH|]. by intros [= <-].
Qed.

Lemma checked_states gs sts :
  traverse checked_group_state gs = Ok sts -> sts = group_to_state <$> gs.
Proof.
  intros H%traverse_Ok. induction H as [|g st gs sts Hg _ IH]; [done|]. cbn. f_equal; [|done].
  unfold checked_group_state in Hg. destruct (runtime_prompt_payload g); [|done].
  by apply bind_Ok in Hg as ([] & _ & [= <-]).
Qed.

Lemma from_state_dict_spec l st :
  ledger_ok l -> state_dict l = Ok st ->
  from_state_dict staging_key json_object st =
    _ ← check_admissions ∅ (without_payload <$> all_groups l);
    Ok (with_groups (keyed <$> all_groups l) new_ledger).
Proof.
  intros (Hn & Hg & Hu) Hst. unfold state_dict in Hst.
  apply bind_Ok in Hst as ([] & _ & (sts & Hsts%checked_states & [= <-])%bind_Ok). subst sts.
  unfold from_state_dict, ledger_state, str_dict. cbn [List.map]. set (d := _ :: _ : dict).
  change (reject_unknown_fields d _) with (Ok tt : res unit). cbn [mbind res_bind].
  change (get_or_none "schema_version" d) with (VInt 7). cbn iota.
  rewrite bool_decide_eq_true_2 by (unfold supported_versions; set_solver).
  cbn [mbind res_bind].
  change (get_or_none "groups" d) with (VList (group_to_state <$> all_groups l)). cbn [mbind res_bind].
  rewrite bool_decide_eq_false_2 by (unfold pre_turn_versions; set_solver).
  cbn [mbind res_bind].
  rewrite groups_round_trip.
  - cbn [mbind res_bind app]. rewrite <- list_fmap_compose. done.
  - apply Forall_forall. intros g Hin. apply list_elem_of_fmap in Hin as ([gid g'] & -> & Hin).
    by apply (Hg gid).
  - split; [exact Hu|]. intros u _. set_solver.
  - cbn. replace (group_id <$> all_groups l) with (groups l).*1; [done|].
    unfold all_groups. rewrite <- list_fmap_compose. apply list_fmap_ext.
    intros i [gid g] Hi. apply (Hg gid g). by eapply list_elem_of_lookup_2.
Qed.

(** ** Checkpoints of schema 5 *)

(** An attempt, a sibling and a group as schema 5 stored them: no environment
    state, and a retry unit instead of a restore level. *)
Definition pre_turn_attempt (a : RolloutAttemptRecord) : PyVal :=
  match attempt_to_state a with VDict d => VDict (take 9 d) | v => v end.

Definition pre_turn_sibling (s : RolloutSiblingRecord) : PyVal :=
  str_dict [("generation_index", VInt (Z.of_nat (generation_index s)));
            ("attempts", VList (pre_turn_attempt <$> attempts s))].

Definition pre_turn_group (g : PromptGroupRecoveryRecord) : PyVal :=
  str_dict [("group_id", VStr (group_id g)); ("admission_id", VStr (admission_id g));
            ("prompt_id", VStr (prompt_id g)); ("prompt_ref", prompt_ref_to_state (prompt_ref g));
            ("task_source", opt_val VStr (task_source g));
            ("resolved_agent_name", opt_val VStr (resolved_agent_name g));
            ("recovery_granularity", VStr (level_value (restore_level g)));
            ("expected_generations", VInt (expected_generations g));
            ("target_step", opt_val VInt (target_step g));
            ("start_weight_version", VInt (start_weight_version g));
            ("status", VStr (status_value (status g)));
            ("phase", VStr (phase_value (phase g)));
            ("siblings", VList (pre_turn_sibling <$> siblings g))].

(** A group schema 5 could hold: no environment state, no restore level of its
    own, and the agent as the attribution key. *)
Definition pre_turn (g : PromptGroupRecoveryRecord) : Prop :=
  restore_level g <> RecoveryTargetLevel.TURN /\ attribution_key g = resolved_agent_name g /\
  forall s a, s ∈ siblings g -> a ∈ attempts s ->
    environment_instance_id a = None /\ environment_attempt a = 0.

Lemma upgrade_attempt_pre_turn a :
  environment_instance_id a = None -> environment_attempt a = 0 ->
  upgrade_attempt (pre_turn_attempt a) = Ok (attempt_to_state a).
Proof. intros H1 H2. unfold pre_turn_attempt, attempt_to_state, str_dict. rewrite H1, H2. done. Qed.

Lemma traverse_fmap {A B C} (f : B -> res C) (h : A -> B) (k : A -> C) l :
  (forall x, x ∈ l -> f (h x) = Ok (k x)) -> traverse f (h <$> l) = Ok (k <$> l).
Proof.
  induction l as [|x l IH]; intros H; [done|]. cbn. rewrite (H x) by apply list_elem_of_here.
  cbn. rewrite IH; [done|]. intros y Hy. apply H. by apply list_elem_of_further.
Qed.

Lemma upgrade_sibling_pre_turn s :
  (forall a, a ∈ attempts s -> environment_instance_id a = None /\ environment_attempt a = 0) ->
  upgrade_sibling (pre_turn_sibling s) = Ok (sibling_to_state s).
Proof.
  intros H. unfold upgrade_sibling, pre_turn_sibling, str_dict. cbn [List.map].
  set (d := _ :: _ : dict).
  change (dict_get "attempts" d) with (Some (VList (pre_turn_attempt <$> attempts s))). cbn iota.
  rewrite (traverse_fmap _ _ attempt_to_state); [done|].
  intros a Ha. destruct (H a Ha). by apply upgrade_attempt_pre_turn.
Qed.

(** A group is read by its fields, whatever their order. *)
Lemma group_from_state_fields version seen d d' :
  (forall k, dict_get k d = dict_get k d') -> known_keys d group_fields = known_keys d' group_fields ->
  group_from_state staging_key json_object version seen (VDict d) =
  group_from_state staging_key json_object version seen (VDict d').
Proof.
  intros Hget Hkeys. unfold group_from_state, reject_unknown_fields, get_or_none.
  by rewrite Hkeys, !Hget.
Qed.

(** The fields of an upgraded group. *)
Definition upgraded (g : PromptGroupRecoveryRecord) : PyVal :=
  str_dict [("group_id", VStr (group_id g)); ("admission_id", VStr (admission_id g));
            ("prompt_id", VStr (prompt_id g)); ("prompt_ref", prompt_ref_to_state (prompt_ref g));
            ("task_source", opt_val VStr (task_source g));
            ("resolved_agent_name", opt_val VStr (resolved_agent_name g));
            ("expected_generations", VInt (expected_generations g));
            ("target_step", opt_val VInt (target_step g));
            ("start_weight_version", VInt (start_weight_version g));
            ("status", VStr (status_value (status g)));
            ("phase", VStr (phase_value (phase g)));
            ("siblings", VList (sibling_to_state <$> siblings g));
            ("restore_level", VStr (level_value (restore_level g)))].

Lemma upgrade_group_pre_turn g : pre_turn g -> upgrade_group (pre_turn_group g) = Ok (upgraded g).
Proof.
  intros (Hl & _ & Ha). unfold upgrade_group, pre_turn_group, str_dict. cbn [List.map].
  set (d := _ :: _ : dict). change (has_key "restore_level" d) with false. cbn iota.
  change (dict_get "recovery_granularity" d) with (Some (VStr (level_value (restore_level g)))). cbn iota.
  assert (is_granularity (VStr (level_value (restore_level g))) = true) as ->
    by by destruct (restore_level g).
  cbn [negb raise_if mbind res_bind].
  change (dict_get "siblings" d) with (Some (VList (pre_turn_sibling <$> siblings g))). cbn iota.
  rewrite (traverse_fmap _ _ sibling_to_state); [done|].
  intros s Hs. apply upgrade_sibling_pre_turn. intros a Hin. by apply (Ha s).
Qed.

Lemma dict_get_str_dict k l :
  dict_get k (List.map (fun '(k, v) => (VStr k, v)) l) = kv_get k l.
Proof.
  induction l as [|[k' v] l IH]; [done|]. cbn [List.map kv_get]. by rewrite dict_get_cons, IH.
Qed.

(** Dropping an attribution key that is the agent changes nothing. *)
Lemma group_from_upgraded version seen g :
  attribution_key g = resolved_agent_name g ->
  group_from_state staging_key json_object version seen (upgraded g) =
  group_from_state staging_key json_object version seen (group_to_state g).
Proof.
  intros Hk. unfold upgraded, group_to_state, str_dict.
  assert (forall d d' : dict,
    dict_get "attribution_key" d = None ->
    get_or_none "attribution_key" d' = get_or_none "resolved_agent_name" d' ->
    dict_get "attribution_key" d' <> None ->
    (forall k, k <> "attribution_key" -> dict_get k d = dict_get k d') ->
    known_keys d group_fields = known_keys d' group_fields ->
    group_from_state staging_key json_object version seen (VDict d) =
    group_from_state staging_key json_object version seen (VDict d')) as H.
  { intros d d' Hn Ha Hs Hget Hkeys.
    assert (default (get_or_none "resolved_agent_name" d) (dict_get "attribution_key" d) =
            default (get_or_none "resolved_agent_name" d') (dict_get "attribution_key" d')) as Hdef.
    { rewrite Hn. unfold get_or_none in *. rewrite (Hget "resolved_agent_name") by done.
      destruct (dict_get "attribution_key" d'); [|done]. cbn in *. by rewrite Ha. }
    unfold group_from_state, reject_unknown_fields. rewrite Hdef, Hkeys. unfold get_or_none.
    by rewrite !Hget by done. }
  apply H.
  - done.
  - unfold get_or_none. rewrite !dict_get_str_dict. cbn. by rewrite Hk.
  - rewrite dict_get_str_dict. done.
  - intros k Hne. rewrite !dict_get_str_dict. cbn [kv_get].
    repeat match goal with |- context [decide (?a = k)] => destruct (decide (a = k)) end; done || congruence.
  - done.
Qed.

(** From schema 5 on, groups are read alike. *)
Lemma attempts_version_5 lid seen raws :
  attempts_from_state staging_key json_object 5 lid seen raws =
  attempts_from_state staging_key json_object 7 lid seen raws.
Proof.
  revert seen. induction raws as [|raw raws IH]; intros seen; [done|]. cbn [attempts_from_state].
  change (attempt_from_state staging_key json_object 5) with (attempt_from_state staging_key json_object 7).
  destruct (attempt_from_state _ _ 7 _ _ _) as [a|e]; [|done]. cbn [mbind res_bind]. by rewrite IH.
Qed.

Lemma siblings_version_5 gid i seen raws :
  siblings_from_state staging_key json_object 5 gid i seen raws =
  siblings_from_state staging_key json_object 7 gid i seen raws.
Proof.
  revert i seen. induction raws as [|raw raws IH]; intros i seen; [done|]. cbn [siblings_from_state].
  assert (sibling_from_state staging_key json_object 5 gid i seen raw =
    sibling_from_state staging_key json_object 7 gid i seen raw) as ->.
  { unfold sibling_from_state. destruct raw; try done. destruct (reject_unknown_fields _ _); [|done].
    cbn [mbind res_bind]. destruct (raise_if _); [|done]. cbn [mbind res_bind].
    destruct (get_or_none "attempts" d); try done. by rewrite attempts_version_5. }
  destruct (sibling_from_state _ _ 7 _ _ _ _) as [[s seen1]|e]; [|done]. cbn [mbind res_bind].
  by rewrite IH.
Qed.

Lemma group_version_5 seen raw :
  group_from_state staging_key json_object 5 seen raw = group_from_state staging_key json_object 7 seen raw.
Proof.
  unfold group_from_state. destruct raw; try done.
  repeat match goal with
  | |- (?m ≫= _) = (?m ≫= _) => destruct m; [cbn [mbind res_bind]|done]
  end.
  by rewrite siblings_version_5.
Qed.

Lemma groups_version_5 seen acc raws :
  groups_from_state staging_key json_object 5 seen acc raws =
  groups_from_state staging_key json_object 7 seen acc raws.
Proof.
  revert seen acc. induction raws as [|raw raws IH]; intros seen acc; [done|]. cbn [groups_from_state].
  rewrite group_version_5. destruct (group_from_state _ _ 7 _ _) as [[g seen']|e]; [|done].
  cbn [mbind res_bind]. destruct (raise_if _); [|done]. apply IH.
Qed.

Lemma groups_from_upgraded seen acc gs :
  Forall (fun g => attribution_key g = resolved_agent_name g) gs ->
  groups_from_state staging_key json_object 7 seen acc (upgraded <$> gs) =
  groups_from_state staging_key json_object 7 seen acc (group_to_state <$> gs).
Proof.
  intros Hg. revert seen acc. induction Hg as [|g gs Hg _ IH]; intros seen acc; [done|].
  cbn [fmap list_fmap groups_from_state]. rewrite group_from_upgraded by done.
  destruct (group_from_state _ _ 7 _ _) as [[g' seen']|e]; [|done].
  cbn [mbind res_bind]. destruct (raise_if _); [|done]. apply IH.
Qed.

(** A schema 5 checkpoint reads as today's would. *)
Lemma from_pre_turn gs :
  Forall pre_turn gs ->
  from_state_dict staging_key json_object (ledger_state 5 (pre_turn_group <$> gs)) =
  from_state_dict staging_key json_object (ledger_state 7 (group_to_state <$> gs)).
Proof.
  intros Hg. unfold from_state_dict, ledger_state, str_dict. cbn [List.map].
  set (d5 := [_; (VStr "groups", VList (pre_turn_group <$> gs))] : dict).
  set (d7 := [_; (VStr "groups", VList (group_to_state <$> gs))] : dict).
  change (reject_unknown_fields d5 _) with (Ok tt : res unit).
  change (reject_unknown_fields d7 _) with (Ok tt : res unit). cbn [mbind res_bind].
  change (get_or_none "schema_version" d5) with (VInt 5).
  change (get_or_none "schema_version" d7) with (VInt 7). cbn iota.
  change (get_or_none "groups" d5) with (VList (pre_turn_group <$> gs)).
  change (get_or_none "groups" d7) with (VList (group_to_state <$> gs)).
  unfold supported_versions, pre_turn_versions.
  do 2 rewrite bool_decide_eq_true_2 by set_solver. cbn [mbind res_bind].
  rewrite bool_decide_eq_true_2 by set_solver. cbn [mbind res_bind].
  rewrite bool_decide_eq_false_2 by set_solver. cbn [mbind res_bind].
  rewrite (traverse_fmap _ _ upgraded).
  - cbn [mbind res_bind]. rewrite groups_version_5, groups_from_upgraded; [done|].
    eapply Forall_impl; [exact Hg|]. by intros g (_ & H & _).
  - intros g Hin. apply upgrade_group_pre_turn. by eapply Forall_forall in Hg.
Qed.

(** ** Restoring *)

Lemma group_ok_without_payload g : group_ok g -> group_ok (without_payload g).
Proof. done. Qed.

Lemma keyed_uuids gs :
  concat (group_uuids <$> (keyed <$> gs).*2) = concat (group_uuids <$> gs).
Proof.
  f_equal. rewrite <- !list_fmap_compose. by apply list_fmap_ext.
Qed.

Lemma restored_ok l st live l0 :
  ledger_ok l -> state_dict l = Ok st -> ledger_ok l0 ->
  ledger_ok (load_state_dict staging_key json_object live st l0).1.
Proof.
  intros Hl Hst Hl0.
  assert (wp (load_state_dict staging_key json_object live st) (fun l' _ => ledger_ok l') l0) as H; [|exact H].
  unfold load_state_dict. apply wp_bind. destruct live; [|done]. apply wp_ret, wp_bind, wp_get, wp_bind.
  apply wp_guard. split; intros _; [done|]. apply wp_bind, wp_lift.
  rewrite (from_state_dict_spec l st Hl Hst). destruct (check_admissions _ _) as [[]|e]; [|done].
  cbn [mbind res_bind]. apply wp_modify. destruct Hl as (Hn & Hg & Hu).
  split; [|split].
  - cbn. rewrite <- list_fmap_compose. replace (fst ∘ keyed <$> all_groups l) with (groups l).*1; [done|].
    unfold all_groups. rewrite <- list_fmap_compose. apply list_fmap_ext.
    intros i [gid g] Hi. apply (Hg gid g). by eapply list_elem_of_lookup_2.
  - intros gid g. cbn. intros (g' & [= -> ->] & Hin)%list_elem_of_fmap. split; [done|].
    apply list_elem_of_fmap in Hin as ([gid2 g2] & -> & Hin). exact (proj2 (Hg gid2 g2 Hin)).
  - unfold all_uuids, all_groups. cbn. by rewrite keyed_uuids.
Qed.

Lemma keyed_groups l :
  ledger_ok l -> keyed <$> all_groups l = (fun p => (p.1, with_payload None p.2)) <$> groups l.
Proof.
  intros (_ & Hg & _). unfold all_groups. rewrite <- list_fmap_compose. apply list_fmap_ext.
  intros i [gid g] Hi. destruct (Hg gid g) as [-> _]; [by eapply list_elem_of_lookup_2|done].
Qed.

Lemma check_admissions_without_payload states gs :
  check_admissions states (without_payload <$> gs) = check_admissions states gs.
Proof.
  revert states. induction gs as [|g gs IH]; intros states; [done|]. cbn.
  destruct (raise_if _); [|done]. apply IH.
Qed.

Lemma admissions_agree_fields gs :
  admissions_agree gs <-> forall g g', g ∈ gs -> g' ∈ gs -> admission_id g = admission_id g' ->
    phase g = phase g' /\ target_step g = target_step g'.
Proof.
  unfold admissions_agree, signature. split; intros H g g' H1 H2 H3.
  - by injection (H g g' H1 H2 H3).
  - by destruct (H g g' H1 H2 H3) as [-> ->].
Qed.

(** Checkpoints written before environment turns restore: a schema 5
    state, which has a retry unit instead of a restore level and no
    environment state, reads exactly as the current format of its groups. *)
Theorem schema_5_restores gs :
  Forall pre_turn gs ->
  from_state_dict staging_key json_object (ledger_state 5 (pre_turn_group <$> gs)) =
  from_state_dict staging_key json_object (ledger_state schema_version (group_to_state <$> gs)).
Proof. apply from_pre_turn. Qed.

End round_trip.
