(* ===== verification/RecoveryDecoded.v ===== *)
(** * Whatever restores is well formed

    [from_state_dict] of any value, not only of what [state_dict] wrote: the
    ledger it returns has distinct groups and attempts, contiguous siblings,
    results exactly on sealed attempts and proven by their receipts, and a
    status that says whether the group is sealed. *)

From S2P Require Import Prelude PyVal PyStr StateErr Recovery RecoveryLedger RecoveryInv.
From S2P Require Import RecoveryCodec RecoveryRoundTrip.

(** Split [H : (x ← m; k x) = Ok y] all the way. *)
Ltac bind_inv H :=
  repeat match type of H with
  | mbind _ _ = Ok _ => let E := fresh "E" in apply bind_Ok in H as (? & E & H)
  end.

Section decoded.
Context (staging_key : PyVal -> string -> res string) (json_object : string -> bool).
#[local] Abbreviation attempt_ok := (attempt_ok staging_key json_object) (only parsing).

(** ** Attempts *)

Lemma name_of_Ok v s : name_of v = Ok s -> s <> "".
Proof. destruct v; try done. cbn. destruct (decide _); [done|]. by intros [= ->]. Qed.

Lemma opt_name_Ok v o : opt_name v = Ok o -> o <> Some "".
Proof. destruct v; try done; cbn; [by intros [= <-]|]. destruct (decide _); [done|]. intros [= <-]. congruence. Qed.

Lemma log_context_Ok v o :
  parse_reward_log_context json_object v = Ok o ->
  forall c, o = Some c -> log_context_ok json_object c = true.
Proof.
  destruct v; try done; cbn; [by intros [= <-]|]. intros H. bind_inv H. injection H as <-.
  apply raise_if_Ok, negb_false_iff in E2. by intros c [= <-].
Qed.

Lemma read_result_Ok gate sealed rr sel rw rm checks ctx keys receipt reward mask :
  read_result staging_key gate sealed rr sel rw rm checks ctx keys = Ok (receipt, reward, mask) ->
  if sealed then reward <> None /\ mask <> None /\ attempt_staging_keys staging_key gate receipt sel = Ok keys
  else receipt = None /\ sel = None /\ reward = None /\ mask = None /\ checks = None /\ ctx = None /\ keys = [].
Proof.
  unfold read_result. destruct sealed.
  - intros H. bind_inv H. injection H as -> <- <-. split; [done|]. split; [done|].
    apply raise_if_Ok, negb_false_iff, bool_decide_eq_true in E3. by subst.
  - intros H. destruct rr; try done. destruct sel; try done. destruct rw; try done. destruct rm; try done.
    destruct checks; try done. destruct ctx; try done. destruct keys; try done. by injection H as <- <- <-.
Qed.

Lemma attempt_decoded version gid i seen raw a :
  attempt_from_state staging_key json_object version (logical_rollout_id gid i) seen raw = Ok a ->
  attempt_ok gid i a /\ attempt_uuid a ∉ seen.
Proof.
  destruct raw; try done. unfold attempt_from_state. intros H. bind_inv H.
  destruct x14 as [[receipt reward] mask]. injection H as <-. cbn [attempt_uuid].
  apply raise_if_Ok, bool_decide_eq_false in E1. split; [|done].
  unfold RecoveryInv.attempt_ok. cbn.
  assert (String.length x0 = 16%nat) as Hlen.
  { destruct (dict_get "attempt_uuid" d) as [[]|]; try done.
    destruct (String.length s =? 16)%nat eqn:El; [|done]. injection E0 as <-. by apply Nat.eqb_eq. }
  assert (0 <= x10) as Hn.
  { destruct (get_or_none "gym_attempt" d); try done. destruct (z <? 0) eqn:Ez; [done|].
    injection E10 as <-. by apply Z.ltb_ge. }
  split; [done|]. split.
  { intros Hp ->. apply raise_if_Ok in E11. rewrite (proj2 (Z.ltb_lt _ _) Hp) in E11. done. }
  split; [by eapply opt_name_Ok|]. split; [done|].
  assert (x12 = mkEpisode (base_gate_id gid i x0) x10) as ->.
  { unfold new_episode in E12. bind_inv E12. by injection E12 as <-. }
  apply read_result_Ok in E14. case_bool_decide as Hs.
  - rewrite decide_True by done. destruct E14 as (H1 & H2 & H3). split; [done|]. split; [done|].
    split; [by eapply log_context_Ok|exact H3].
  - rewrite decide_False by done. destruct E14 as (-> & -> & -> & -> & -> & -> & ->). done.
Qed.

Lemma attempts_decoded version gid i seen raws l seen' :
  attempts_from_state staging_key json_object version (logical_rollout_id gid i) seen raws = Ok (l, seen') ->
  Forall (attempt_ok gid i) l /\ unseen (attempt_uuid <$> l) seen /\ sees (attempt_uuid <$> l) seen seen' /\
  length l = length raws.
Proof.
  revert seen l seen'. induction raws as [|raw raws IH]; intros seen l seen'; cbn [attempts_from_state].
  { intros [= <- <-]. split; [constructor|]. split; [split; [constructor|set_solver]|].
    split; [intros u; set_solver|done]. }
  intros H. bind_inv H. destruct x0 as [l' s']. injection H as <- <-.
  destruct (attempt_decoded _ _ _ _ _ _ E) as [Ha Hu].
  destruct (IH _ _ _ E0) as (H1 & (Hn & Hd) & H3 & H4). split; [by constructor|]. cbn. split; [split|].
  - constructor; [|done]. intros Hin. apply (Hd _ Hin). set_solver.
  - intros u. rewrite elem_of_cons. intros [->|Hin]; [done|]. intros Hs. apply (Hd _ Hin). set_solver.
  - split; [|by rewrite H4]. intros u. rewrite (H3 u). set_solver.
Qed.

Lemma split_attempts_Some l past a : split_attempts l = Some (past, a) -> l = past ++ [a].
Proof.
  unfold split_attempts. destruct (last l) as [b|] eqn:E; [|done]. intros [= <- <-].
  apply last_Some in E as [l' ->]. by rewrite removelast_last.
Qed.

Lemma sibling_decoded version gid i seen raw s seen' :
  sibling_from_state staging_key json_object version gid i seen raw = Ok (s, seen') ->
  generation_index s = i /\ Forall (attempt_ok gid i) (attempts s) /\
  unseen (sibling_uuids s) seen /\ sees (sibling_uuids s) seen seen'.
Proof.
  destruct raw; try done. unfold sibling_from_state. intros H. bind_inv H.
  destruct (get_or_none "attempts" d); try done. bind_inv H. destruct x2 as [l' s'].
  destruct (split_attempts l') as [[past a]|] eqn:Es; [|done]. injection H as <- <-.
  apply split_attempts_Some in Es. destruct (attempts_decoded _ _ _ _ _ _ _ E2) as (H1 & H2 & H3 & _).
  unfold sibling_uuids, attempts. cbn. by rewrite <- Es.
Qed.

Lemma siblings_decoded version gid i seen raws ss seen' :
  siblings_from_state staging_key json_object version gid i seen raws = Ok (ss, seen') ->
  (forall k s, ss !! k = Some s -> generation_index s = (i + k)%nat /\
     Forall (attempt_ok gid (i + k)) (attempts s)) /\
  unseen (concat (sibling_uuids <$> ss)) seen /\ sees (concat (sibling_uuids <$> ss)) seen seen' /\
  length ss = length raws.
Proof.
  revert i seen ss seen'. induction raws as [|raw raws IH]; intros i seen ss seen';
    cbn [siblings_from_state].
  { intros [= <- <-]. split; [done|]. split; [split; [constructor|set_solver]|].
    split; [intros u; set_solver|done]. }
  intros H. bind_inv H. destruct x as [s seen1]. bind_inv H. destruct x as [ss' seen2]. injection H as <- <-.
  destruct (sibling_decoded _ _ _ _ _ _ _ E) as (H1 & H2 & (Hn1 & Hd1) & H4).
  destruct (IH _ _ _ _ E0) as (H5 & (Hn2 & Hd2) & H7 & H8). split; [|split; [split|split]].
  - intros [|k] s'; cbn.
    + intros [= <-]. by rewrite Nat.add_0_r.
    + intros Hk. rewrite <- Nat.add_succ_comm. by apply H5.
  - cbn. apply NoDup_app. split; [done|]. split; [|done]. intros u Hu Hu2. apply (Hd2 u Hu2).
    apply (H4 u). by left.
  - intros u. cbn. rewrite elem_of_app. intros [Hu|Hu]; [by apply Hd1|]. intros Hs. apply (Hd2 u Hu).
    apply (H4 u). by right.
  - by eapply sees_app.
  - cbn. by rewrite H8.
Qed.

(** ** Groups *)

(** What the code checks of a restored group. *)
Definition decoded_group (g : PromptGroupRecoveryRecord) : Prop :=
  head_ok g /\
  (forall i s, siblings g !! i = Some s ->
     generation_index s = i /\ Forall (attempt_ok (group_id g) i) (attempts s)) /\
  (status g = PromptGroupStatus.GENERATING <-> all_sealed g = false) /\
  runtime_prompt_payload g = None.

Lemma group_decoded version seen raw g seen' :
  group_from_state staging_key json_object version seen raw = Ok (g, seen') ->
  decoded_group g /\ unseen (group_uuids g) seen /\ sees (group_uuids g) seen seen'.
Proof.
  destruct raw; try done. unfold group_from_state. intros H. bind_inv H.
  destruct x11 as [ss sn]. bind_inv H. injection H as <- <-.
  destruct (siblings_decoded _ _ _ _ _ _ _ E11) as (H1 & H2 & H3 & H4).
  apply raise_if_Ok in E15, E16. split; [|done].
  split; [|split; [exact H1|split; [|done]]].
  - assert (1 <= x7 /\ Z.of_nat (length x8) = x7) as [He Hl].
    { split.
      - unfold positive_int in E7. destruct (as_int _); [|done]. destruct (z <? 1) eqn:Ez; [done|].
        injection E7 as <-. by apply Z.ltb_ge.
      - destruct (get_or_none "siblings" d); try done. destruct (_ =? x7) eqn:Ez; [|done].
        injection E8 as <-. by apply Z.eqb_eq. }
    assert (sample_id x11 = x2) as Hp.
    { destruct (get_or_none "prompt_ref" d); try done. cbn in E12. bind_inv E12.
      apply raise_if_Ok, negb_false_iff, String.eqb_eq in E20. unfold new_prompt_ref in E12.
      bind_inv E12. by injection E12 as <-. }
    unfold head_ok. cbn. split; [by eapply name_of_Ok|]. split; [by eapply name_of_Ok|].
    split; [by eapply name_of_Ok|]. split; [done|]. split; [done|]. split; [by rewrite H4|].
    split; by eapply opt_name_Ok.
  - cbn. unfold all_sealed. cbn. case_bool_decide as Hg; cbn in *.
    + by rewrite E15.
    + rewrite negb_false_iff in E16. by rewrite E16.
Qed.

(** ** Ledgers *)

Lemma groups_decoded version seen acc raws gs :
  groups_from_state staging_key json_object version seen acc raws = Ok gs ->
  exists new, gs = acc ++ new /\ (forall gid g, (gid, g) ∈ new -> gid = group_id g /\ decoded_group g) /\
    unseen (concat (group_uuids <$> new.*2)) seen /\ (NoDup acc.*1 -> NoDup gs.*1) /\
    length new = length raws.
Proof.
  revert seen acc gs. induction raws as [|raw raws IH]; intros seen acc gs; cbn [groups_from_state].
  { intros [= <-]. exists []. rewrite app_nil_r. split; [done|].
    split; [by intros gid g ?%not_elem_of_nil|]. split; [split; [constructor|set_solver]|done]. }
  intros H. bind_inv H. destruct x as [g seen1]. bind_inv H.
  apply raise_if_Ok, bool_decide_eq_false in E0.
  destruct (group_decoded _ _ _ _ _ E) as (Hg & (Hn & Hd) & Hs).
  destruct (IH _ _ _ H) as (new & -> & H1 & (Hn2 & Hd2) & H3 & H4).
  exists ((group_id g, g) :: new). split; [by rewrite <- app_assoc|]. split; [|split; [split|split]].
  - intros gid' g' [[= -> ->]|Hin]%elem_of_cons; [done|by apply H1].
  - cbn. apply NoDup_app. split; [done|]. split; [|done]. intros u Hu Hu2. apply (Hd2 u Hu2).
    apply (Hs u). by left.
  - intros u. cbn. rewrite elem_of_app. intros [Hu|Hu]; [by apply Hd|]. intros Hin. apply (Hd2 u Hu).
    apply (Hs u). by right.
  - intros Ha. apply H3. rewrite fmap_app. apply NoDup_app. split; [done|]. split; [|apply NoDup_singleton].
    intros k Hk ->%list_elem_of_singleton. done.
  - cbn. by rewrite H4.
Qed.

(** What the code checks of a restored ledger. *)
Definition decoded_ledger (l : RolloutRecoveryLedger) : Prop :=
  NoDup (groups l).*1 /\ (forall gid g, (gid, g) ∈ groups l -> gid = group_id g /\ decoded_group g) /\
  NoDup (all_uuids l) /\ admissions_agree (all_groups l) /\ retirements l = ∅ /\ forgets l = ∅.

Lemma ledger_decoded v l :
  from_state_dict staging_key json_object v = Ok l -> decoded_ledger l.
Proof.
  destruct v; try done. unfold from_state_dict. intros H. bind_inv H. injection H as <-.
  destruct (groups_decoded _ _ _ _ _ E3) as (new & -> & H1 & (Hn & _) & H3 & _).
  destruct x4. apply check_admissions_spec in E4. cbn [app] in *.
  split; [apply H3; constructor|]. split; [exact H1|]. split; [exact Hn|]. by split.
Qed.

(** C39 Whatever restores is well formed: for any value at all, a ledger
    [from_state_dict] returns has distinct group ids and attempt UUIDs,
    non-empty names, one sibling per expected generation in order, results
    exactly on sealed attempts and proven by their receipts, a status that says
    whether all siblings are sealed, agreeing admissions and no pending
    environment work. *)
Theorem restored_state_is_well_formed v l :
  from_state_dict staging_key json_object v = Ok l -> decoded_ledger l.
Proof. apply ledger_decoded. Qed.

End decoded.
