(* ===== verification/RecoveryProps.v ===== *)
(** * What the recovery ledger guarantees

    The theorems about [RolloutRecoveryLedger], for every ledger a controller
    can reach by operations, restarts, and saving and restoring checkpoints. *)

From S2P Require Import Prelude PyVal PyStr StateErr Recovery RecoveryLedger RecoveryInv.
From S2P Require Import RecoverySeals RecoveryOps RecoverySteps RecoveryViews RecoveryCodec.
From S2P Require Import RecoveryRoundTrip RecoveryDecoded.
From Stdlib Require Import Ascii.

Section reachable.
Context (staging_key : PyVal -> string -> res string) (json_object : string -> bool).
#[local] Abbreviation ledger_ok := (ledger_ok staging_key json_object) (only parsing).

(** The ledgers a controller can have: a new one, what an operation leaves
    behind, also when it raises, and one restored from a checkpoint of such a
    ledger. *)
Inductive reachable : RolloutRecoveryLedger -> Prop :=
| reach_new : reachable new_ledger
| reach_step l l' : reachable l -> ledger_step staging_key json_object l l' -> reachable l'
| reach_restore l st live :
    reachable l -> state_dict l = Ok st ->
    reachable (load_state_dict staging_key json_object live st new_ledger).1.

Lemma reachable_ok l : reachable l -> ledger_ok l.
Proof.
  induction 1 as [|l l' _ IH Hs|l st live _ IH Hst].
  - apply new_ledger_ok.
  - by eapply ledger_step_keeps.
  - by apply (restored_ok _ _ l); [|done|apply new_ledger_ok].
Qed.

Lemma reachable_group l gid g :
  reachable l -> kv_get gid (groups l) = Some g ->
  gid = group_id g /\ group_ok staging_key json_object g.
Proof. intros Hl. by apply ledger_ok_group, reachable_ok. Qed.

Lemma op_reachable l l' : reachable l -> live_step staging_key json_object l l' -> reachable l'.
Proof. intros Hl Hs. eapply reach_step; [exact Hl|by apply step_live]. Qed.

End reachable.

(** ** A small run, for the examples *)
Module Demo.

Definition staging (owner : PyVal) (call : string) : res string :=
  match owner with VStr s => Ok (s +:+ "/" +:+ call) | _ => Raise TypeError end.
Definition json (s : string) : bool := true.

Definition fresh (k i : nat) : uuid :=
  String (ascii_of_nat k) (String (ascii_of_nat i) "0123456789abcd").

Definition payload : list (PyVal * PyVal) := [(VStr "idx", VInt 7)].

Definition reserved (level : RecoveryTargetLevel) : RolloutRecoveryLedger :=
  (reserve_group true "7" payload 2 None 0 None level true (Some "g") None None (fresh 0 0) (fresh 1)
     (set_event_sink true new_ledger)).1.

Definition dispatched (level : RecoveryTargetLevel) : RolloutRecoveryLedger :=
  (mark_group_dispatched true "g" None (Some "env") (reserved level)).1.

Definition result (i : nat) : SiblingSealResult :=
  mkSealResult (base_gate_id "g" i (fresh 1 i)) None (Fin 1 0) (VBool false) None None None None None.

(** One of the two siblings sealed. *)
Definition half_sealed : RolloutRecoveryLedger :=
  (mark_sibling_sealed staging true "g" 0 (result 0) (dispatched RecoveryTargetLevel.TURN)).1.

Definition results : gmap Z SiblingSealResult := {[0 := result 0; 1 := result 1]}.

(** The record of the run's group. *)
Definition the_group (l : RolloutRecoveryLedger) : PromptGroupRecoveryRecord :=
  match groups l with p :: _ => p.2 | [] => mkGroup "" "" "" (mkPromptRef "" None) None
    RecoveryTargetLevel.TURN None 0 None 0 [] PromptGroupPhase.RESERVED PromptGroupStatus.GENERATING
    None None end.

Lemma fresh_distinct k : distinct_uuids 2 (fresh k).
Proof.
  split; [|done]. intros i j Hi Hj.
  destruct i as [|[|i]]; [| |lia]; destruct j as [|[|j]]; try lia; done.
Defined.

Lemma fresh_ok k l : bool_decide (fresh k 0 ∈ all_uuids l) = false ->
  bool_decide (fresh k 1 ∈ all_uuids l) = false -> fresh_for 2 (fresh k) l.
Proof.
  intros H0%bool_decide_eq_false H1%bool_decide_eq_false. split; [apply fresh_distinct|].
  intros i Hi. destruct i as [|[|i]]; [done|done|lia].
Defined.

Lemma reserved_reachable level : reachable staging json (reserved level).
Proof.
  eapply op_reachable; [eapply op_reachable; [apply reach_new|apply (step_set_event_sink _ _ _ true)]|].
  by apply step_reserve_group; [apply fresh_ok|].
Defined.

Lemma dispatched_reachable level : reachable staging json (dispatched level).
Proof.
  eapply op_reachable; [apply (reserved_reachable level)|]. by apply step_mark_group_dispatched.
Defined.

Lemma half_sealed_reachable : reachable staging json half_sealed.
Proof.
  eapply op_reachable; [apply (dispatched_reachable RecoveryTargetLevel.TURN)|].
  by apply step_mark_sibling_sealed.
Defined.

Lemma results_log_ok i r : results !! i = Some r -> log_contexts_ok json r.
Proof.
  unfold results. intros [[_ <-]|[_ [_ <-]%lookup_singleton_Some]]%lookup_insert_Some; intros c Hc;
    discriminate Hc.
Defined.

End Demo.
(** ** The properties *)
Section properties.
Context (staging_key : PyVal -> string -> res string) (json_object : string -> bool).
#[local] Abbreviation reachable := (reachable staging_key json_object) (only parsing).
Implicit Types l : RolloutRecoveryLedger.

(** C26 Every reachable recovery ledger is well formed: distinct group ids and
    attempt UUIDs, results exactly on the sealed attempts and proven by their
    receipts, earlier attempts given up, a group generating exactly while some
    sibling is unsealed, and a group that retries as a whole either fully
    sealed or not at all. *)
Theorem recovery_ledger_invariant l : reachable l -> ledger_ok staging_key json_object l.
Proof. apply reachable_ok. Qed.

(** A group that retries as a whole is sealed as a whole: in every
    reachable ledger, either it generates and no sibling's current attempt is
    sealed, or all are and it has left generation. *)
Theorem atomic_group_seals_whole l gid g :
  reachable l -> kv_get gid (groups l) = Some g ->
  recovery_granularity g = RecoveryGranularity.PROMPT_GROUP ->
  (status g = PromptGroupStatus.GENERATING /\ sealed_generation_indices g = []) \/
  (status g <> PromptGroupStatus.GENERATING /\
   sealed_generation_indices g = seq 0 (Z.to_nat (expected_generations g))).
Proof.
  intros Hl Hk Hp. destruct (reachable_group _ _ l gid g Hl Hk) as [_ Hg].
  pose proof Hg as (_ & _ & Hst & Hat). destruct (all_sealed g) eqn:E.
  - right. split; [rewrite Hst; done|]. rewrite (each_sibling_expected _ _ g Hg).
    by eapply sealed_indices_all.
  - left. split; [by apply Hst|]. destruct (Hat Hp) as [|Hn]; [congruence|].
    by apply sealed_indices_none.
Qed.


(** C29 Sealing a prompt group is all or nothing: when it raises the ledger is
    as it was; when it returns, every sibling was dispatched, holds exactly the
    result passed for it under its own gate id, and the group is ready. *)
Theorem group_seal_all_or_nothing l live gid results :
  reachable l -> (forall i r, results !! i = Some r -> log_contexts_ok json_object r) ->
  let '(l', r) := mark_group_sealed staging_key live gid results l in
  match r with
  | Raise _ => l' = l
  | Ok _ => exists g g', kv_get gid (groups l) = Some g /\ kv_get gid (groups l') = Some g' /\
      status g' = PromptGroupStatus.READY_TO_FINALIZE /\
      forall i s, siblings g !! i = Some s -> exists s', siblings g' !! i = Some s' /\
        sealed_by staging_key results g i s s'
  end.
Proof.
  intros Hl Hlog. pose proof (mark_group_sealed_post staging_key json_object live gid results l
    (reachable_ok _ _ l Hl) Hlog) as H. unfold wp in H.
  destruct (mark_group_sealed staging_key live gid results l) as [l' r]. cbn [fst snd] in H.
  destruct H as [[-> [e ->]]|(g & [g' lx] & Hk & ((_ & _ & Hgs & _) & _) & HP & ->)]; [done|].
  destruct r as [[]|e]; cbn [group_sealed fst snd] in *.
  - exists g, g'. split; [done|]. cbn. rewrite kv_get_set, decide_True by done. by destruct HP.
  - injection HP as -> ->. by apply with_same_group.
Qed.

(** Sealing one sibling stores its result or changes nothing: a seal that
    raises leaves the ledger as it was; one that returns either found this very
    result already stored, or stored it on a dispatched attempt, and then the
    group is ready exactly when every sibling is sealed. *)
Theorem sibling_seal_stores_or_rejects l live gid i r :
  reachable l -> log_contexts_ok json_object r ->
  let '(l', res) := mark_sibling_sealed staging_key live gid i r l in
  match res with
  | Raise _ => l' = l
  | Ok _ => exists g g' k s mask keys, kv_get gid (groups l) = Some g /\
      kv_get gid (groups l') = Some g' /\ sealable staging_key g k s r mask keys /\
      ((attempt_status (current_attempt s) = RolloutAttemptStatus.SEALED /\
        same_result (current_attempt s) r mask keys = true /\ l' = l) \/
       (attempt_status (current_attempt s) = RolloutAttemptStatus.DISPATCHED /\
        siblings g' = alter (with_current (sealed_with r mask keys)) k (siblings g) /\
        (status g' = PromptGroupStatus.READY_TO_FINALIZE <-> all_sealed g' = true)))
  end.
Proof.
  intros Hl Hlog. pose proof (mark_sibling_sealed_post staging_key json_object live gid i r l
    (reachable_ok _ _ l Hl) Hlog) as H. unfold wp in H.
  destruct (mark_sibling_sealed staging_key live gid i r l) as [l' res]. cbn [fst snd] in H.
  destruct H as [[-> [e ->]]|(g & [g' lx] & Hk & ((_ & _ & Hgs & _) & _) & HP & ->)]; [done|].
  destruct res as [[]|e]; cbn [sibling_sealed fst snd] in *.
  - destruct HP as (k & s & mask & keys & Hs & HP). exists g, g', k, s, mask, keys.
    split; [done|]. cbn. rewrite kv_get_set, decide_True by done. split; [done|]. split; [done|].
    destruct HP as [(H1 & H2 & [= -> ->])|HP]; [left|by right].
    split; [done|]. split; [done|]. by apply with_same_group.
  - injection HP as -> ->. by apply with_same_group.
Qed.

(** A restarted group runs on: after a restart every generating group can
    be retried, and each sibling's next attempt is the sealed one if it was
    sealed and siblings are kept, the same attempt one environment attempt
    further if its environment state was restored, the attempt itself if it
    never ran, and a fresh one otherwise. *)
Theorem restart_then_retry l l1 continued gid g fresh :
  reachable l -> prepare_for_restart true continued l = (l1, Ok tt) ->
  kv_get gid (groups l) = Some g -> status g = PromptGroupStatus.GENERATING ->
  distinct_uuids (length (siblings g)) fresh ->
  exists l2 g2, prepare_incomplete_retry true gid fresh l1 = (l2, Ok g2) /\
    length (siblings g2) = length (siblings g) /\
    forall i s, siblings g !! i = Some s -> exists s2, siblings g2 !! i = Some s2 /\
      current_attempt s2 = next_after_restart (default ∅ continued) fresh g i s.
Proof.
  intros Hl Hrun Hk Hst Hd. destruct (reachable_group _ _ l gid g Hl Hk) as [_ Hg].
  pose proof (prepare_for_restart_spec staging_key json_object true continued l
    (reachable_ok _ _ l Hl)) as H. unfold wp in H. rewrite Hrun in H. cbn [fst snd] in H.
  destruct H as [[_ [e He]]|(Hl1 & _ & _ & _ & us & _ & Hus)]; [done|].
  destruct (kv_get_lookup _ _ _ Hk) as [n Hn].
  destruct (Forall2_lookup_l _ _ _ _ _ Hus Hn) as (u & _ & g0 & g1 & Hk0 & Hk1 & Hr).
  rewrite Hk in Hk0. injection Hk0 as <-.
  destruct (restarted_retryable _ _ _ g g1 u Hg Hst Hr) as (Hg1 & Hh & Hst1 & Hall).
  destruct (prepare_incomplete_retry_ok _ _ gid g1 l1 fresh Hl1 Hk1 Hst1) as (l2 & g2 & Hrun2 & Hh2 & _ & Hout).
  - destruct Hh as (_ & _ & -> & _). done.
  - intros i s Hi. destruct (Hall fresh i s Hi) as (H1 & s0 & _ & _ & H2). split; [done|].
    intros Hp. apply H2. by rewrite <- (same_granularity g g1 Hh).
  - exists l2, g2. split; [done|]. destruct Hh as (_ & _ & Hlen & _), Hh2 as (_ & _ & Hlen2 & _).
    split; [congruence|]. intros i s Hi.
    destruct (lookup_lt_is_Some_2 (siblings g1) i) as [s1 Hi1].
    { rewrite Hlen. by eapply lookup_lt_Some. }
    exists (retried fresh i s1). split; [by apply Hout|].
    destruct (Hall fresh i s1 Hi1) as (_ & s0 & Hi0 & Hnext & _). rewrite Hi in Hi0.
    by injection Hi0 as <-.
Qed.

(** A ready group can be finalized: its finalization inputs exist, with one
    distinct gate id, one logical id and one result per sibling, each the
    receipt, reward, mask, checks and context its sealed attempt stores. *)
Theorem ready_group_finalizes l gid g :
  reachable l -> kv_get gid (groups l) = Some g -> status g = PromptGroupStatus.READY_TO_FINALIZE ->
  exists gates inputs, finalization_inputs gid l = Ok (gates, logical_rollout_ids g, inputs) /\
    NoDup gates /\ Z.of_nat (length gates) = expected_generations g /\
    Forall2 (fun s x => let a := current_attempt s in
      receipt a = x.1.1.1.1 /\ reward a = Some x.1.1.1.2 /\ mask_sample a = Some x.1.1.2 /\
      reward_checks a = x.1.2 /\ reward_log_context a = x.2) (siblings g) inputs.
Proof.
  intros Hl Hk Hst. destruct (reachable_group _ _ l gid g Hl Hk) as [_ Hg].
  destruct (gate_rollout_ids_ok _ _ g Hg) as (gates & Hgates & Hn & Hlen).
  assert (forall i s, siblings g !! i = Some s -> is_sealed s = true) as Hs
    by (eapply ready_sealed; [exact Hg|by rewrite Hst]).
  destruct (traverse_exists finalized_sibling (siblings g)) as [inputs Hin].
  { intros i s Hi. destruct (finalized_sealed _ _ g i s Hg Hi (Hs i s Hi)) as (x & m & _ & _ & H). eauto. }
  exists gates, inputs. unfold finalization_inputs, require_group. rewrite Hk. cbn [mbind res_bind].
  rewrite bool_decide_eq_true_2 by done. cbn [negb raise_if mbind res_bind]. rewrite Hin, Hgates.
  split; [done|]. split; [done|]. split; [destruct Hg as ((_ & _ & _ & _ & _ & H & _) & _); lia|].
  apply traverse_Ok in Hin. apply Forall2_same_length_lookup in Hin as [Hl2 Hin].
  apply Forall2_same_length_lookup. split; [done|]. intros i s x Hi Hx. specialize (Hin i s x Hi Hx).
  destruct (finalized_sealed _ _ g i s Hg Hi (Hs i s Hi)) as (y & m & Hr & Hm & Hf).
  rewrite Hin in Hf. injection Hf as ->. done.
Qed.

(** The checkpoint inventory is exact: it raises only when some live
    episode belongs to an instance that is not named, and otherwise lists, for
    the named instances, exactly the episodes of the attempts that hold
    environment state in generating groups that restore by turns. *)
Theorem inventory_is_exact l ids :
  reachable l ->
  match environment_inventory ids l with
  | Ok inv => dom inv = ids /\ forall inst e,
      (exists es, inv !! inst = Some es /\ e ∈ es) <-> live_episode l inst e
  | Raise _ => exists inst e, live_episode l inst e /\ inst ∉ ids
  end.
Proof. intros Hl. eapply environment_inventory_spec. by apply reachable_ok. Qed.

(** An episode is still held exactly when the inventory lists it: looking
    the episode up by parsing its rollout id finds the same episodes as the
    walk over every group. *)
Theorem still_held_agrees_with_inventory l ids inv inst e :
  reachable l -> environment_inventory ids l = Ok inv ->
  still_held l inst e = true <-> exists es, inv !! inst = Some es /\ e ∈ es.
Proof.
  intros Hl Hinv. pose proof (environment_inventory_spec _ _ ids l (reachable_ok _ _ l Hl)) as H.
  rewrite Hinv in H. destruct H as [_ H]. rewrite (still_held_spec _ _ l inst e (reachable_ok _ _ l Hl)).
  symmetry. apply H.
Qed.


End properties.

(** ** Witnesses *)
Module Witnesses.
Import Demo.

Lemma recovery_ledger_invariant_witness : ledger_ok staging json half_sealed.
Proof. exact (recovery_ledger_invariant staging json half_sealed half_sealed_reachable). Defined.

Lemma atomic_group_seals_whole_witness :
  let g := the_group (dispatched RecoveryTargetLevel.PROMPT_GROUP) in
  (status g = PromptGroupStatus.GENERATING /\ sealed_generation_indices g = []) \/
  (status g <> PromptGroupStatus.GENERATING /\
   sealed_generation_indices g = seq 0 (Z.to_nat (expected_generations g))).
Proof.
  apply (atomic_group_seals_whole staging json (dispatched RecoveryTargetLevel.PROMPT_GROUP) "g" _
    (dispatched_reachable _)); reflexivity.
Defined.


Lemma group_seal_all_or_nothing_witness :
  let l := dispatched RecoveryTargetLevel.PROMPT_GROUP in
  (mark_group_sealed staging true "g" results l).2 = Ok tt /\
  let '(l', r) := mark_group_sealed staging true "g" results l in
  match r with
  | Raise _ => l' = l
  | Ok _ => exists g g', kv_get "g" (groups l) = Some g /\ kv_get "g" (groups l') = Some g' /\
      status g' = PromptGroupStatus.READY_TO_FINALIZE /\
      forall i s, siblings g !! i = Some s -> exists s', siblings g' !! i = Some s' /\
        sealed_by staging results g i s s'
  end.
Proof.
  intros l. split; [vm_compute; reflexivity|].
  apply (group_seal_all_or_nothing staging json l true "g" results (dispatched_reachable _)).
  exact results_log_ok.
Defined.

Lemma sibling_seal_stores_or_rejects_witness :
  let l := dispatched RecoveryTargetLevel.TURN in
  (mark_sibling_sealed staging true "g" 0 (result 0) l).2 = Ok tt /\
  let '(l', res) := mark_sibling_sealed staging true "g" 0 (result 0) l in
  match res with
  | Raise _ => l' = l
  | Ok _ => exists g g' k s mask keys, kv_get "g" (groups l) = Some g /\
      kv_get "g" (groups l') = Some g' /\ sealable staging g k s (result 0) mask keys /\
      ((attempt_status (current_attempt s) = RolloutAttemptStatus.SEALED /\
        same_result (current_attempt s) (result 0) mask keys = true /\ l' = l) \/
       (attempt_status (current_attempt s) = RolloutAttemptStatus.DISPATCHED /\
        siblings g' = alter (with_current (sealed_with (result 0) mask keys)) k (siblings g) /\
        (status g' = PromptGroupStatus.READY_TO_FINALIZE <-> all_sealed g' = true)))
  end.
Proof.
  intros l. split; [vm_compute; reflexivity|].
  apply (sibling_seal_stores_or_rejects staging json l true "g" 0 (result 0) (dispatched_reachable _)).
  intros c Hc. discriminate Hc.
Defined.

(** The unsealed sibling continues from restored environment state. *)
Definition continued : gset (string * string * Z) := {[("env", base_gate_id "g" 1 (fresh 1 1), 0)]}.

Definition restarted_ledger : RolloutRecoveryLedger :=
  (prepare_for_restart true (Some continued) half_sealed).1.

Lemma restart_then_retry_witness :
  let g := the_group half_sealed in
  exists l2 g2, prepare_incomplete_retry true "g" (fresh 2) restarted_ledger = (l2, Ok g2) /\
    length (siblings g2) = length (siblings g) /\
    forall i s, siblings g !! i = Some s -> exists s2, siblings g2 !! i = Some s2 /\
      current_attempt s2 = next_after_restart continued (fresh 2) g i s.
Proof.
  apply (restart_then_retry staging json half_sealed restarted_ledger (Some continued) "g"
    (the_group half_sealed) (fresh 2) half_sealed_reachable).
  - vm_compute; reflexivity.
  - vm_compute; reflexivity.
  - vm_compute; reflexivity.
  - apply fresh_distinct.
Defined.

(** Both siblings sealed as a group. *)
Definition all_done : RolloutRecoveryLedger :=
  (mark_group_sealed staging true "g" results (dispatched RecoveryTargetLevel.PROMPT_GROUP)).1.

Lemma all_done_reachable : reachable staging json all_done.
Proof.
  eapply op_reachable; [apply (dispatched_reachable RecoveryTargetLevel.PROMPT_GROUP)|].
  apply step_mark_group_sealed.
  exact results_log_ok.
Defined.

Lemma ready_group_finalizes_witness :
  let g := the_group all_done in
  exists gates inputs, finalization_inputs "g" all_done = Ok (gates, logical_rollout_ids g, inputs) /\
    NoDup gates /\ Z.of_nat (length gates) = expected_generations g /\
    Forall2 (fun s x => let a := current_attempt s in
      receipt a = x.1.1.1.1 /\ reward a = Some x.1.1.1.2 /\ mask_sample a = Some x.1.1.2 /\
      reward_checks a = x.1.2 /\ reward_log_context a = x.2) (siblings g) inputs.
Proof.
  apply (ready_group_finalizes staging json all_done "g" (the_group all_done) all_done_reachable);
    vm_compute; reflexivity.
Defined.

Definition env_ids : gset string := {["env"]}.

Lemma inventory_is_exact_witness :
  (exists inv, environment_inventory env_ids half_sealed = Ok inv) /\
  match environment_inventory env_ids half_sealed with
  | Ok inv => dom inv = env_ids /\ forall inst e,
      (exists es, inv !! inst = Some es /\ e ∈ es) <-> live_episode half_sealed inst e
  | Raise _ => exists inst e, live_episode half_sealed inst e /\ inst ∉ env_ids
  end.
Proof.
  split; [by vm_compute; eexists|].
  apply (inventory_is_exact staging json half_sealed env_ids half_sealed_reachable).
Defined.

(** The inventory of the run's instance. *)
Definition the_inventory : gmap string (list EnvironmentEpisode) :=
  {["env" := [mkEpisode (base_gate_id "g" 1 (fresh 1 1)) 0]]}.

Lemma still_held_agrees_with_inventory_witness :
  still_held half_sealed "env" (mkEpisode (base_gate_id "g" 1 (fresh 1 1)) 0) = true <->
  exists es, the_inventory !! "env" = Some es /\ mkEpisode (base_gate_id "g" 1 (fresh 1 1)) 0 ∈ es.
Proof.
  apply (still_held_agrees_with_inventory staging json half_sealed env_ids the_inventory "env" _
    half_sealed_reachable).
  vm_compute. reflexivity.
Defined.

(** What the run's checkpoint holds. *)
Definition saved : PyVal := match state_dict half_sealed with Ok v => v | Raise _ => VNone end.


Definition restored : RolloutRecoveryLedger :=
  match from_state_dict staging json saved with Ok l => l | Raise _ => new_ledger end.

Lemma restored_state_is_well_formed_witness :
  ledger_size restored = 1%nat /\ decoded_ledger staging json restored.
Proof.
  split; [vm_compute; reflexivity|].
  apply (restored_state_is_well_formed staging json saved restored). vm_compute; reflexivity.
Defined.

Lemma schema_5_restores_witness :
  let gs := [the_group (reserved RecoveryTargetLevel.SIBLING)] in
  from_state_dict staging json (ledger_state 5 (pre_turn_group <$> gs)) =
  from_state_dict staging json (ledger_state schema_version (group_to_state <$> gs)).
Proof.
  apply (schema_5_restores staging json).
  constructor; [|constructor]. split; [vm_compute; discriminate|]. split; [reflexivity|].
  intros s a Hs Ha. vm_compute in Hs. repeat (apply elem_of_cons in Hs as [->|Hs];
    [vm_compute in Ha; apply elem_of_cons in Ha as [->|Ha]; [by split|by apply not_elem_of_nil in Ha]|]).
  by apply not_elem_of_nil in Hs.
Defined.

End Witnesses.
