(* ===== verification/SnapshotDir.v ===== *)
(** * A directory of snapshots, call by call
    ([algorithms/rollout_checkpointing/manifest.py], [shutil])

    The directory [rollout_snapshots/] and the atomic file-system calls the
    checkpointer changes it with.  A computation records every state it goes
    through; [always] is what holds of all of them, [leaves] what holds at the
    end of one that succeeds.  The order in which the file system lists a
    directory is a parameter ([order], a permutation). *)

From S2P Require Import Prelude PyVal StateErr.
#[local] Open Scope string_scope.
#[local] Open Scope Z_scope.

(** ** The directory

    The content of a file is what [json.loads(path.read_text())] makes of it. *)
Abbreviation content := (res PyVal).
Inductive node := NFile | NDir (files : gmap string content).
Abbreviation dirmap := (gmap string node).

(** The snapshot root is a directory or absent.  [d_past] holds the states
    before each change, newest first. *)
Record disk := Disk { d_now : option dirmap; d_past : list (option dirmap) }.

Abbreviation FS := (SE disk).

(** [try: m; except BaseException as e: h(e)]. *)
Definition on_error {A} (m : FS A) (h : exc -> FS A) : FS A := fun s =>
  match m s with
  | (s', Ok a) => (s', Ok a)
  | (s', Raise e) => h e s'
  end.

Definition put (d : option dirmap) : FS unit :=
  modify (fun s => Disk d (d_now s :: d_past s)).

(** The states a crash can leave. *)
Definition crash_states (s : disk) : list (option dirmap) := d_now s :: d_past s.

Definition is_dir (d : dirmap) (name : string) : bool :=
  match d !! name with Some (NDir _) => true | _ => false end.

(** *** System calls *)

Definition entries : FS dirmap :=
  s ← get;
  match d_now s with Some d => mret d | None => lift (Raise FileNotFoundError) end.

(** [root.mkdir(parents=True, exist_ok=True)]. *)
Definition mkdir_root : FS unit :=
  s ← get; match d_now s with Some _ => mret tt | None => put (Some ∅) end.

(** [path.mkdir(parents=True)] of a child of the root. *)
Definition mkdir (name : string) : FS unit :=
  d ← entries;
  match d !! name with
  | Some _ => lift (Raise OSError)
  | None => put (Some (<[name := NDir ∅]> d))
  end.

(** [os.rename]: onto a missing name, or onto an empty directory. *)
Definition rename (src dst : string) : FS unit :=
  d ← entries;
  match d !! src with
  | None => lift (Raise FileNotFoundError)
  | Some (NDir files) =>
      match d !! dst with
      | None => put (Some (<[dst := NDir files]> (delete src d)))
      | Some (NDir old) =>
          if (size old =? 0)%nat then put (Some (<[dst := NDir files]> (delete src d)))
          else lift (Raise OSError)
      | Some NFile => lift (Raise OSError)
      end
  | Some NFile =>
      match d !! dst with
      | Some (NDir _) => lift (Raise OSError)
      | _ => put (Some (<[dst := NFile]> (delete src d)))
      end
  end.

Definition unlink (name file : string) : FS unit :=
  d ← entries;
  match d !! name with
  | Some (NDir files) =>
      match files !! file with
      | Some _ => put (Some (<[name := NDir (delete file files)]> d))
      | None => lift (Raise FileNotFoundError)
      end
  | _ => lift (Raise FileNotFoundError)
  end.

Definition rmdir (name : string) : FS unit :=
  d ← entries;
  match d !! name with
  | Some (NDir files) =>
      if (size files =? 0)%nat then put (Some (delete name d)) else lift (Raise OSError)
  | Some NFile => lift (Raise OSError)
  | None => lift (Raise FileNotFoundError)
  end.

(** [path.write_text(text)]: the file is truncated, then filled. *)
Definition write_file (name file : string) (c : content) : FS unit :=
  d ← entries;
  match d !! name with
  | Some (NDir files) =>
      _ ← put (Some (<[name := NDir (<[file := Raise ValueError]> files)]> d));
      put (Some (<[name := NDir (<[file := c]> files)]> d))
  | _ => lift (Raise FileNotFoundError)
  end.

Section removal.
  Context (order : list string -> list string).

(** [root.iterdir()]. *)
Definition listing (d : dirmap) : list string := order (elements (dom d)).

(** [shutil.rmtree(root / name)]. *)
Definition rmtree (name : string) : FS unit :=
  d ← entries;
  match d !! name with
  | Some (NDir files) =>
      _ ← for_in (order (elements (dom files))) (unlink name);
      rmdir name
  | Some NFile => lift (Raise OSError)
  | None => lift (Raise FileNotFoundError)
  end.

(** [if path.exists(): shutil.rmtree(path)]. *)
Definition rmtree_if_exists (name : string) : FS unit :=
  d ← entries; match d !! name with Some _ => rmtree name | None => mret tt end.

End removal.

(** ** What a computation goes through

    [always base P] holds of every state a crash can leave, but for the older
    states [base]. *)
Definition always (base : list (option dirmap)) (P : option dirmap -> Prop) (s : disk) : Prop :=
  exists l, d_past s = (l ++ base)%list /\ Forall P (d_now s :: l).

(** [P] does not look at the names in [N]. *)
Definition blind (N : string -> Prop) (P : option dirmap -> Prop) : Prop :=
  forall d d', (forall k, ~ N k -> d' !! k = d !! k) -> P (Some d) -> P (Some d').

Lemma always_put base P d s : always base P s -> P d -> wp (put d) (fun s' _ => always base P s') s.
Proof.
  intros (l & Hp & Hl) Hd. apply wp_modify. exists (d_now s :: l). cbn. rewrite Hp.
  split; [done|]. by constructor.
Qed.

Lemma wp_entries (Q : disk -> res dirmap -> Prop) s :
  (forall d, d_now s = Some d -> Q s (Ok d)) -> (d_now s = None -> Q s (Raise FileNotFoundError)) ->
  wp entries Q s.
Proof. intros H1 H2. unfold wp, entries, get, mbind, se_bind. cbn. destruct (d_now s) eqn:E; cbn; auto. Qed.

Lemma wp_entries_now d (Q : disk -> res dirmap -> Prop) s :
  d_now s = Some d -> Q s (Ok d) -> wp entries Q s.
Proof. intros Hd HQ. apply wp_entries; congruence. Qed.

Lemma always_now base P s d : always base P s -> d_now s = Some d -> P (Some d).
Proof. intros (l & _ & Hl) <-. by inversion Hl. Qed.

(** A call that reads the directory and then changes it. *)
Lemma always_call base P (body : dirmap -> FS unit) s :
  always base P s -> (forall d, d_now s = Some d -> P (Some d) -> wp (body d) (fun s' _ => always base P s') s) ->
  wp (d ← entries; body d) (fun s' _ => always base P s') s.
Proof.
  intros Hs Hb. apply wp_bind, wp_entries; [|done]. intros d Hd. apply Hb; [done|].
  eapply always_now; eauto.
Qed.

Section frames.
  Context (base : list (option dirmap)) (N : string -> Prop) (P : option dirmap -> Prop) (HP : blind N P).

Lemma always_update s d n v :
  always base P s -> P (Some d) -> N n -> wp (put (Some (<[n := v]> d))) (fun s' _ => always base P s') s.
Proof.
  intros Hs Hd Hn. apply always_put; [done|]. eapply HP; [|exact Hd]. intros k Hk.
  by rewrite lookup_insert_ne by congruence.
Qed.

Lemma always_mkdir n s : always base P s -> N n -> wp (mkdir n) (fun s' _ => always base P s') s.
Proof.
  intros Hs Hn. apply always_call; [done|]. intros d _ Hd. destruct (d !! n); [done|].
  by apply always_update.
Qed.

Lemma always_unlink n f s : always base P s -> N n -> wp (unlink n f) (fun s' _ => always base P s') s.
Proof.
  intros Hs Hn. apply always_call; [done|]. intros d _ Hd. destruct (d !! n) as [[|fs]|]; try done.
  destruct (fs !! f); [|done]. by apply always_update.
Qed.

Lemma always_write n f c s : always base P s -> N n -> wp (write_file n f c) (fun s' _ => always base P s') s.
Proof.
  intros Hs Hn. apply always_call; [done|]. intros d _ Hd. destruct (d !! n) as [[|fs]|]; try done.
  apply wp_bind. eapply wp_mono; [by apply always_update|]. intros s' [[]|e] Hs'; [|done].
  by apply always_update.
Qed.

Lemma always_rmdir n s : always base P s -> N n -> wp (rmdir n) (fun s' _ => always base P s') s.
Proof.
  intros Hs Hn. apply always_call; [done|]. intros d _ Hd. destruct (d !! n) as [[|fs]|]; try done.
  destruct (_ =? _)%nat; [|done]. apply always_put; [done|]. eapply HP; [|exact Hd]. intros k Hk.
  by rewrite lookup_delete_ne by congruence.
Qed.

Lemma always_rename a b s : always base P s -> N a -> N b -> wp (rename a b) (fun s' _ => always base P s') s.
Proof.
  intros Hs Ha Hb. apply always_call; [done|]. intros d _ Hd.
  assert (forall v, wp (put (Some (<[b := v]> (delete a d)))) (fun s' _ => always base P s') s) as Hput.
  { intros v. apply always_put; [done|]. eapply HP; [|exact Hd]. intros k Hk.
    by rewrite lookup_insert_ne, lookup_delete_ne by congruence. }
  destruct (d !! a) as [[|fs]|]; [destruct (d !! b) as [[|gs]|]..|]; try done; try apply Hput.
  destruct (_ =? _)%nat; [apply Hput|done].
Qed.

Lemma always_rmtree order n s : always base P s -> N n -> wp (rmtree order n) (fun s' _ => always base P s') s.
Proof.
  intros Hs Hn. apply always_call; [done|]. intros d _ Hd. destruct (d !! n) as [[|fs]|]; try done.
  apply wp_bind. eapply wp_mono.
  - apply (wp_for (always base P)); [done|]. intros f s' _ Hs'. by apply always_unlink.
  - intros s' [[]|e] Hs'; [|done]. by apply always_rmdir.
Qed.

Lemma always_rmtree_if_exists order n s :
  always base P s -> N n -> wp (rmtree_if_exists order n) (fun s' _ => always base P s') s.
Proof.
  intros Hs Hn. apply always_call; [done|]. intros d _ Hd. destruct (d !! n); [|done].
  by apply always_rmtree.
Qed.

End frames.

(** ** What the calls return *)

(** The call succeeds and leaves the directory [d]. *)
Definition leaves (m : FS unit) (s : disk) (Q : dirmap -> Prop) : Prop :=
  wp m (fun s' r => r = Ok tt /\ exists d, d_now s' = Some d /\ Q d) s.

Lemma leaves_bind m k s (Q R : dirmap -> Prop) :
  leaves m s R -> (forall s' d, d_now s' = Some d -> R d -> leaves k s' Q) ->
  leaves (_ ← m; k) s Q.
Proof.
  unfold leaves. intros Hm Hk. apply wp_bind. eapply wp_mono; [exact Hm|]. intros s' r (-> & d & Hd & HR).
  by eapply Hk.
Qed.

Lemma leaves_mono m s (Q R : dirmap -> Prop) : leaves m s R -> (forall d, R d -> Q d) -> leaves m s Q.
Proof. unfold leaves. intros Hm H. eapply wp_mono; [exact Hm|]. intros s' r (-> & d & Hd & HR). eauto 10. Qed.

Lemma leaves_put d s (Q : dirmap -> Prop) : Q d -> leaves (put (Some d)) s Q.
Proof. intros HQ. apply wp_modify. eauto. Qed.

Lemma leaves_call (body : dirmap -> FS unit) d s (Q : dirmap -> Prop) :
  d_now s = Some d -> leaves (body d) s Q -> leaves (d ← entries; body d) s Q.
Proof. intros Hd H. apply wp_bind. by eapply wp_entries_now. Qed.

Lemma leaves_unlink n f fs d s :
  d_now s = Some d -> d !! n = Some (NDir fs) -> is_Some (fs !! f) ->
  leaves (unlink n f) s (fun d' => d' = <[n := NDir (delete f fs)]> d).
Proof.
  intros Hd Hn [c Hf]. eapply leaves_call; [done|]. cbn beta. rewrite Hn, Hf. by apply leaves_put.
Qed.

Lemma leaves_rmdir n d s :
  d_now s = Some d -> d !! n = Some (NDir ∅) -> leaves (rmdir n) s (fun d' => d' = delete n d).
Proof. intros Hd Hn. eapply leaves_call; [done|]. cbn beta. rewrite Hn. by apply leaves_put. Qed.

Lemma leaves_mkdir n d s :
  d_now s = Some d -> d !! n = None -> leaves (mkdir n) s (fun d' => d' = <[n := NDir ∅]> d).
Proof. intros Hd Hn. eapply leaves_call; [done|]. cbn beta. rewrite Hn. by apply leaves_put. Qed.

Lemma leaves_rename a b fs d s :
  d_now s = Some d -> d !! a = Some (NDir fs) -> d !! b = None ->
  leaves (rename a b) s (fun d' => d' = <[b := NDir fs]> (delete a d)).
Proof. intros Hd Ha Hb. eapply leaves_call; [done|]. cbn beta. rewrite Ha, Hb. by apply leaves_put. Qed.

Lemma leaves_write n f c fs d s :
  d_now s = Some d -> d !! n = Some (NDir fs) ->
  leaves (write_file n f c) s (fun d' => d' = <[n := NDir (<[f := c]> fs)]> d).
Proof.
  intros Hd Hn. eapply leaves_call; [done|]. cbn beta. rewrite Hn.
  eapply leaves_bind; [by apply (leaves_put _ _ (fun _ => True))|]. intros. by apply leaves_put.
Qed.

(** Unlinking every file of a directory empties it. *)
Lemma leaves_unlink_all n l fs d s :
  NoDup l -> (forall f, f ∈ l <-> is_Some (fs !! f)) ->
  d_now s = Some d -> d !! n = Some (NDir fs) ->
  leaves (for_in l (unlink n)) s (fun d' => d' !! n = Some (NDir ∅) /\ delete n d' = delete n d).
Proof.
  revert fs d s. induction l as [|f l IH]; intros fs d s Hnd Hl Hd Hn; cbn [for_in].
  - apply wp_ret. split; [done|]. exists d. split_and!; [done| |done]. rewrite Hn. do 2 f_equal.
    apply map_eq. intros f. rewrite lookup_empty. destruct (fs !! f) eqn:E; [|done].
    assert (f ∈ ([] : list string)) as []%not_elem_of_nil. by apply Hl.
  - apply NoDup_cons in Hnd as [Hf Hnd]. eapply leaves_bind.
    { eapply leaves_unlink; [done..|]. apply Hl, list_elem_of_here. }
    intros s' d' Hd' ->. eapply leaves_mono.
    + eapply (IH (delete f fs)); [done| |exact Hd'|by rewrite lookup_insert_eq].
      intros g. destruct (decide (g = f)) as [->|Hne].
      * rewrite lookup_delete_eq. split; [done|]. by intros [? ?].
      * rewrite lookup_delete_ne by done. rewrite <- Hl, elem_of_cons. naive_solver.
    + intros d2 [H1 H2]. split; [done|]. rewrite H2. apply delete_insert_eq.
Qed.

Section results.
  Context (order : list string -> list string) (Horder : forall l, order l ≡ₚ l).

Lemma listing_elem d k : k ∈ listing order d <-> is_Some (d !! k).
Proof. unfold listing. by rewrite Horder, elem_of_elements, elem_of_dom. Qed.

Lemma listing_NoDup d : NoDup (listing order d).
Proof. unfold listing. rewrite Horder. apply NoDup_elements. Qed.

Lemma leaves_rmtree n d s :
  d_now s = Some d -> is_dir d n = true -> leaves (rmtree order n) s (fun d' => d' = delete n d).
Proof.
  intros Hd Hn. unfold is_dir in Hn. destruct (d !! n) as [[|fs]|] eqn:E; [done| |done].
  eapply leaves_call; [done|]. cbn beta. rewrite E. eapply leaves_bind.
  - eapply (leaves_unlink_all n _ fs d); [|intros f|done..].
    + rewrite Horder. apply NoDup_elements.
    + by rewrite Horder, elem_of_elements, elem_of_dom.
  - intros s' d' Hd' [H1 H2]. eapply leaves_mono; [by apply leaves_rmdir|]. intros ? ->. done.
Qed.

(** [d] without the names of [l]. *)
Definition without (l : list string) (d d' : dirmap) : Prop :=
  forall k, d' !! k = if decide (k ∈ l) then None else d !! k.

Lemma without_nil d : without [] d d.
Proof. intros k. by destruct (decide (k ∈ [])) as [[]%not_elem_of_nil|]. Qed.

Lemma without_app l m d d1 d2 : without l d d1 -> without m d1 d2 -> without (l ++ m) d d2.
Proof.
  intros H1 H2 k. rewrite H2, H1.
  destruct (decide (k ∈ m)), (decide (k ∈ l)), (decide (k ∈ (l ++ m)%list)) as [Hk|Hk]; try done;
    rewrite elem_of_app in Hk; tauto.
Qed.

Lemma without_equiv l m d d' : (forall k, k ∈ l <-> k ∈ m) -> without l d d' -> without m d d'.
Proof.
  intros H Hw k. rewrite Hw. specialize (H k).
  destruct (decide (k ∈ l)), (decide (k ∈ m)); tauto.
Qed.

Lemma without_delete n d : without [n] d (delete n d).
Proof.
  intros k. destruct (decide (k ∈ [n])) as [->%list_elem_of_singleton|Hk]; [apply lookup_delete_eq|].
  rewrite lookup_delete_ne; [done|]. intros ->. apply Hk. by left.
Qed.

Lemma leaves_rmtree_all l d s :
  NoDup l -> d_now s = Some d -> (forall k, k ∈ l -> is_dir d k = true) ->
  leaves (for_in l (rmtree order)) s (without l d).
Proof.
  revert d s. induction l as [|n l IH]; intros d s Hnd Hd Hl; cbn [for_in].
  - apply wp_ret. eauto using without_nil.
  - apply NoDup_cons in Hnd as [Hn Hnd].
    eapply leaves_bind; [apply leaves_rmtree; [done|apply Hl, list_elem_of_here]|].
    intros s' d' Hd' ->. eapply leaves_mono.
    + apply (IH (delete n d)); [done..|]. intros k Hk. unfold is_dir.
      rewrite lookup_delete_ne by congruence. apply Hl. by apply list_elem_of_further.
    + intros d2 H2. apply (without_app [n]) with (delete n d); [apply without_delete|done].
Qed.

End results.

Lemma wp_and {S A} (m : SE S A) (Q R : S -> res A -> Prop) s :
  wp m Q s -> wp m R s -> wp m (fun s' r => Q s' r /\ R s' r) s.
Proof. done. Qed.

Lemma wp_on_error {A} (m : FS A) (h : exc -> FS A) (Q : disk -> res A -> Prop) s :
  wp m (fun s' r => match r with Ok a => Q s' (Ok a) | Raise e => wp (h e) Q s' end) s ->
  wp (on_error m h) Q s.
Proof. unfold wp, on_error. by destruct (m s) as [s' [a|e]]. Qed.
