(* ===== verification/Snapshots.v ===== *)
(** * Rollout snapshot directories
    ([algorithms/rollout_checkpointing/manifest.py])

    A snapshot is written under a temporary name, published by one rename, and
    old ones are retired through a trash name.  A restart resolves the newest
    snapshot of its trainer checkpoint.  The states of the directory in between
    are those [SnapshotDir] records. *)

From S2P Require Import Prelude PyVal PyStr StateErr SnapshotDir.
From Stdlib Require Ascii.
#[local] Open Scope string_scope.
#[local] Open Scope Z_scope.

(** ** Names *)

Definition digits_after (prefix name : string) : option nat :=
  rest ← strip_prefix prefix name;
  if isdigit rest then int_of_digits rest else None.

(** [_SNAPSHOT_RE], [_TMP_SNAPSHOT_RE] and [_TRASH_SNAPSHOT_RE], with
    [int(match.group(1))]. *)
Definition snapshot_sequence (name : string) : option nat := digits_after "snapshot_" name.
Definition tmp_sequence (name : string) : option nat := digits_after "tmp_snapshot_" name.
Definition trash_sequence (name : string) : option nat := digits_after "trash_snapshot_" name.

(** [_snapshot_sequence(path)]. *)
Definition _snapshot_sequence (name : string) : res nat :=
  match snapshot_sequence name with Some n => Ok n | None => Raise ValueError end.

Fixpoint zeros (k : nat) : string :=
  match k with O => "" | S k' => String (Ascii.ascii_of_nat 48) (zeros k') end.

(** [f"{sequence:06d}"]. *)
Definition pad6 (n : nat) : string :=
  let s := str_of_nat n in zeros (6 - String.length s) +:+ s.

Definition final_name (sequence : nat) : string := "snapshot_" +:+ pad6 sequence.
Definition tmp_name (sequence : nat) : string := "tmp_snapshot_" +:+ pad6 sequence.
Definition trash_name (name : string) : string := "trash_" +:+ name.

(** ** The manifest of a snapshot *)

Record RolloutSnapshotManifest := Manifest {
  schema_version : Z;
  base_train_step : Z;
  trainer_version : Z;
  current_epoch : Z;
  sampler_dispatch_index : Z;
  mutation_version : Z;
  rolled_back_train_group_count : Z;
  bootstrap_fingerprint : option string;
  next_nemo_gym_task_index : option Z }.

Definition ROLLOUT_SNAPSHOT_SCHEMA_VERSION : Z := 3.
Definition ROLLOUT_SNAPSHOT_MANIFEST_FILENAME : string := "manifest.json".

(** [raw[key]] when it is an [int] and not a [bool]. *)
Definition required_int (d : list (PyVal * PyVal)) (key : string) : res Z :=
  match dict_get key d with Some (VInt z) => Ok z | _ => Raise ValueError end.

Definition get_fingerprint (d : list (PyVal * PyVal)) : res (option string) :=
  match dict_get "bootstrap_fingerprint" d with
  | None | Some VNone => Ok None
  | Some (VStr s) => Ok (Some s)
  | Some _ => Raise ValueError
  end.

Definition get_task_index (d : list (PyVal * PyVal)) : res (option Z) :=
  match dict_get "next_nemo_gym_task_index" d with
  | None | Some VNone => Ok None
  | Some (VInt z) => if z <? 0 then Raise ValueError else Ok (Some z)
  | Some _ => Raise ValueError
  end.

Definition from_mapping (raw : PyVal) : res RolloutSnapshotManifest :=
  match raw with
  | VDict d =>
      sv ← required_int d "schema_version";
      bs ← required_int d "base_train_step";
      tv ← required_int d "trainer_version";
      ce ← required_int d "current_epoch";
      di ← required_int d "sampler_dispatch_index";
      mv ← required_int d "mutation_version";
      rb ← required_int d "rolled_back_train_group_count";
      fp ← get_fingerprint d;
      ti ← get_task_index d;
      let manifest := Manifest sv bs tv ce di mv rb fp ti in
      _ ← raise_if (negb (sv =? ROLLOUT_SNAPSHOT_SCHEMA_VERSION)) ValueError;
      _ ← raise_if (Z.min (Z.min (Z.min (Z.min bs tv) ce) mv) rb <? 0) ValueError;
      _ ← raise_if (di <? -1) ValueError;
      Ok manifest
  | _ => Raise AttributeError
  end.

Definition to_dict (m : RolloutSnapshotManifest) : PyVal :=
  str_dict [("schema_version", VInt (schema_version m));
            ("base_train_step", VInt (base_train_step m));
            ("trainer_version", VInt (trainer_version m));
            ("current_epoch", VInt (current_epoch m));
            ("sampler_dispatch_index", VInt (sampler_dispatch_index m));
            ("mutation_version", VInt (mutation_version m));
            ("rolled_back_train_group_count", VInt (rolled_back_train_group_count m));
            ("bootstrap_fingerprint", opt_val VStr (bootstrap_fingerprint m));
            ("next_nemo_gym_task_index", opt_val VInt (next_nemo_gym_task_index m))].

(** [child.is_dir() and _SNAPSHOT_RE.fullmatch(child.name)]. *)
Definition committed (d : dirmap) (name : string) : bool :=
  is_dir d name && match snapshot_sequence name with Some _ => true | None => false end.

Definition is_garbage (d : dirmap) (name : string) : bool :=
  is_dir d name
  && (match tmp_sequence name with Some _ => true | None => false end
      || match trash_sequence name with Some _ => true | None => false end).

(** ** Preparing, publishing and resolving *)

Section operations.
  Context (order : list string -> list string).

Definition sequences (d : dirmap) : list nat :=
  omap (fun name => if is_dir d name then snapshot_sequence name else None) (listing order d).

Definition prepare_snapshot_paths : FS (string * string * nat) :=
  _ ← mkdir_root;
  d ← entries;
  _ ← for_in (List.filter (is_garbage d) (listing order d)) (rmtree order);
  d ← entries;
  let sequence := (max_list (sequences d) + 1)%nat in
  let final_path := final_name sequence in
  let tmp_path := tmp_name sequence in
  _ ← rmtree_if_exists order tmp_path;
  _ ← mkdir tmp_path;
  mret (tmp_path, final_path, sequence).

(** [sorted(committed, key=_snapshot_sequence, reverse=True)]. *)
Definition newer (a b : string) : bool :=
  (default 0 (snapshot_sequence b) <? default 0 (snapshot_sequence a))%nat.

Definition candidates (d : dirmap) : list string :=
  py_sort newer (List.filter (committed d) (listing order d)).

Definition retire (stale : string) : FS unit :=
  _ ← rmtree_if_exists order (trash_name stale);
  _ ← rename stale (trash_name stale);
  rmtree order (trash_name stale).

Definition commit_snapshot (tmp_path final_path : string) (keep_latest_k : Z) : FS unit :=
  _ ← guard (keep_latest_k <? 1) ValueError;
  _ ← rename tmp_path final_path;
  d ← entries;
  for_in (drop (Z.to_nat keep_latest_k) (candidates d)) retire.

(** The trainer checkpoint a snapshot must belong to. *)
Record expected := Expected {
  expected_train_step : Z;
  expected_trainer_version : Z;
  expected_bootstrap_fingerprint : option string }.

(** [except (json.JSONDecodeError, OSError, ValueError)]. *)
Definition resolve_catches (e : exc) : bool :=
  bool_decide (e ∈ [ValueError; OSError; FileNotFoundError]).

(** The manifest of a snapshot, read and checked. *)
Definition read_manifest (d : dirmap) (name : string) : option (res RolloutSnapshotManifest) :=
  match d !! name with
  | Some (NDir files) => (fun raw => raw ≫= from_mapping) <$> files !! ROLLOUT_SNAPSHOT_MANIFEST_FILENAME
  | _ => None
  end.

Definition same_lineage (x : expected) (m : RolloutSnapshotManifest) : bool :=
  (base_train_step m =? expected_train_step x)
  && (trainer_version m =? expected_trainer_version x).

Fixpoint resolve_loop (x : expected) (d : dirmap) (cands errors : list string)
  : res (option (string * RolloutSnapshotManifest)) :=
  match cands with
  | [] => if bool_decide (errors = []) then Ok None else Raise ValueError
  | candidate :: cands' =>
      match read_manifest d candidate with
      | None => resolve_loop x d cands' (errors ++ [candidate])
      | Some (Raise e) =>
          if resolve_catches e then resolve_loop x d cands' (errors ++ [candidate]) else Raise e
      | Some (Ok manifest) =>
          if negb (same_lineage x manifest) then resolve_loop x d cands' (errors ++ [candidate])
          else if negb (bool_decide (bootstrap_fingerprint manifest
                                     = expected_bootstrap_fingerprint x))
          then resolve_loop x d cands' (errors ++ [candidate])
          else Ok (Some (candidate, manifest))
      end
  end.

Definition resolve_latest_snapshot (x : expected) (root : option dirmap)
  : res (option (string * RolloutSnapshotManifest)) :=
  match root with
  | None => Ok None
  | Some d => resolve_loop x d (candidates d) []
  end.

(** [RolloutCheckpointer.save_snapshot], as the snapshot root sees it: the files
    the capture writes, and the exception it stops with, if any. *)
Definition save_snapshot (files : list (string * content)) (failure : option exc)
    (keep_latest_k : Z) : FS string :=
  '(tmp_path, final_path, _) ← prepare_snapshot_paths;
  on_error
    (_ ← for_in files (fun '(file, c) => write_file tmp_path file c);
     _ ← lift (match failure with Some e => Raise e | None => Ok tt end);
     _ ← commit_snapshot tmp_path final_path keep_latest_k;
     mret final_path)
    (fun e => _ ← rmtree_if_exists order tmp_path; lift (Raise e)).

End operations.

(** ** Names *)

Lemma zeros_digits k : all_chars is_digit (zeros k) = true.
Proof. induction k; [done|]. exact IHk. Qed.

Lemma int_of_zeros k s n : int_of_digits s = Some n -> int_of_digits (zeros k +:+ s) = Some n.
Proof.
  intros Hs. induction k as [|k IH]; [done|]. revert IH. unfold int_of_digits.
  change (zeros (S k) +:+ s) with (String (Ascii.ascii_of_nat 48) (zeros k +:+ s)).
  destruct (DecimalString.NilEmpty.uint_of_string (zeros k +:+ s)) as [u|] eqn:E; [|done].
  cbn. rewrite E. cbn. auto.
Qed.

Lemma isdigit_pad6 n : isdigit (pad6 n) = true.
Proof.
  unfold isdigit, pad6. rewrite all_chars_app, zeros_digits, str_of_nat_digits, andb_true_r.
  apply negb_true_iff, String.eqb_neq. destruct (6 - _)%nat; [|done]. apply str_of_nat_nonempty.
Qed.

Lemma int_of_pad6 n : int_of_digits (pad6 n) = Some n.
Proof. apply int_of_zeros, int_of_str_of_nat. Qed.

Lemma digits_after_pad6 p n : digits_after p (p +:+ pad6 n) = Some n.
Proof. unfold digits_after. rewrite strip_prefix_app. cbn. by rewrite isdigit_pad6, int_of_pad6. Qed.

Lemma snapshot_sequence_final n : snapshot_sequence (final_name n) = Some n.
Proof. apply digits_after_pad6. Qed.
Lemma tmp_sequence_tmp n : tmp_sequence (tmp_name n) = Some n.
Proof. apply digits_after_pad6. Qed.
Lemma snapshot_sequence_tmp n : snapshot_sequence (tmp_name n) = None.
Proof. done. Qed.
Lemma snapshot_sequence_trash c : snapshot_sequence (trash_name c) = None.
Proof. done. Qed.

Lemma garbage_not_committed d k : is_garbage d k = true -> snapshot_sequence k = None.
Proof.
  unfold is_garbage, tmp_sequence, trash_sequence, snapshot_sequence, digits_after.
  destruct (strip_prefix "snapshot_" k) as [t|] eqn:E; [|done].
  apply strip_prefix_Some in E as ->. cbn. by rewrite andb_false_r.
Qed.

Lemma committed_dir d c : committed d c = true -> exists files, d !! c = Some (NDir files).
Proof. unfold committed, is_dir. destruct (d !! c) as [[|files]|]; [done|eauto|done]. Qed.

Lemma committed_sequence d c : committed d c = true -> exists n, snapshot_sequence c = Some n.
Proof. unfold committed. destruct (is_dir d c), (snapshot_sequence c); eauto; done. Qed.

#[export] Hint Resolve snapshot_sequence_tmp snapshot_sequence_trash : py.

(** ** Retiring *)

Section retiring.
  Context (order : list string -> list string) (Horder : forall l, order l ≡ₚ l).

Lemma always_retire base (N : string -> Prop) P n s :
  blind N P ->
  always base P s -> N n -> N (trash_name n) -> wp (retire order n) (fun s' _ => always base P s') s.
Proof.
  intros HP Hs Hn Ht. apply wp_bind. eapply wp_mono; [by eapply always_rmtree_if_exists|].
  intros s1 [[]|e] H1; [|done]. apply wp_bind. eapply wp_mono; [by eapply always_rename|].
  intros s2 [[]|e] H2; [|done]. by eapply always_rmtree.
Qed.

Lemma leaves_retire n d s :
  d_now s = Some d -> is_dir d n = true -> d !! trash_name n <> Some NFile -> n <> trash_name n ->
  leaves (retire order n) s (without [n; trash_name n] d).
Proof.
  intros Hd Hn Ht Hne. eapply (leaves_bind _ _ _ _ (fun d' => d' = delete (trash_name n) d)).
  { eapply leaves_call; [done|]. cbn beta. destruct (d !! trash_name n) as [[|fs]|] eqn:E; [done|..].
    - apply (leaves_rmtree order Horder); [done|]. unfold is_dir. by rewrite E.
    - apply wp_ret. split; [done|]. exists d. split; [done|]. by rewrite delete_id. }
  intros s1 d1 H1 ->. unfold is_dir in Hn. destruct (d !! n) as [[|fs]|] eqn:E; [done| |done].
  eapply leaves_bind.
  { apply (leaves_rename n _ fs _ _ H1); [by rewrite lookup_delete_ne|apply lookup_delete_eq]. }
  intros s2 d2 H2 ->. eapply leaves_mono.
  { apply (leaves_rmtree order Horder); [exact H2|]. unfold is_dir. by rewrite lookup_insert_eq. }
  intros d3 -> k. destruct (decide (k ∈ _)) as [Hk|Hk]; rewrite !elem_of_cons in Hk.
  - destruct Hk as [->|[->|[]%not_elem_of_nil]].
    + by rewrite lookup_delete_ne, lookup_insert_ne, lookup_delete_eq by done.
    + apply lookup_delete_eq.
  - by rewrite lookup_delete_ne, lookup_insert_ne, !lookup_delete_ne by naive_solver.
Qed.

Lemma leaves_retire_all l d s :
  NoDup l -> d_now s = Some d -> (forall k, k ∈ l -> committed d k = true) ->
  (forall k, k ∈ l -> d !! trash_name k <> Some NFile) ->
  leaves (for_in l (retire order)) s (without (l ++ (trash_name <$> l)) d).
Proof.
  revert d s. induction l as [|n l IH]; intros d s Hnd Hd Hl Ht; cbn [for_in].
  - apply wp_ret. eauto using without_nil.
  - apply NoDup_cons in Hnd as [Hn Hnd].
    assert (forall k j, k ∈ n :: l -> k <> trash_name j) as Hkt.
    { intros k j Hk ->. apply Hl, committed_sequence in Hk as [? Hk].
      by rewrite snapshot_sequence_trash in Hk. }
    eapply leaves_bind.
    { apply leaves_retire; [done|..|by apply Hkt; left]; [|by apply Ht; left].
      assert (n ∈ n :: l) as [fs Hfs]%Hl%committed_dir by left. unfold is_dir. by rewrite Hfs. }
    intros s' d' Hd' Hw. eapply leaves_mono.
    + apply (IH d'); [done..| |].
      * intros k Hk. assert (d' !! k = d !! k) as E.
        { rewrite Hw. rewrite decide_False; [done|]. rewrite !elem_of_cons.
          intros [->|[->|[]%not_elem_of_nil]]; [done|]. eapply (Hkt (trash_name n) n); [by right|done]. }
        unfold committed, is_dir. rewrite E. apply Hl. by right.
      * intros k Hk. rewrite Hw. destruct (decide _); [done|]. apply Ht. by right.
    + intros d2 H2. eapply without_equiv; [|exact (without_app _ _ _ _ _ Hw H2)].
      intros k. rewrite fmap_cons, !elem_of_app, !elem_of_cons, !elem_of_nil. tauto.
Qed.

End retiring.

(** ** Candidates *)

Definition seq_of (name : string) : nat := default 0%nat (snapshot_sequence name).

(** No two committed snapshots have the same number. *)
Definition distinct_sequences (d : dirmap) : Prop :=
  forall a b, committed d a = true -> committed d b = true -> seq_of a = seq_of b -> a = b.

Lemma max_list_le l m : (forall q, q ∈ l -> (q <= m)%nat) -> (max_list l <= m)%nat.
Proof.
  induction l as [|q l IH]; intros H; cbn; [lia|]. assert (q <= m)%nat by (apply H; left).
  assert (max_list l <= m)%nat by (apply IH; intros; apply H; by right). lia.
Qed.

Lemma max_list_ext l l' : (forall q, q ∈ l <-> q ∈ l') -> max_list l = max_list l'.
Proof.
  intros H. apply Nat.le_antisymm; apply max_list_le; intros q Hq; apply max_list_elem_of_le, H, Hq.
Qed.

(** The directories named as snapshots are the same. *)
Definition same_snapshots (d d' : dirmap) : Prop :=
  forall k, snapshot_sequence k <> None -> d !! k = d' !! k.

Lemma same_committed d d' : same_snapshots d d' -> forall k, committed d k = committed d' k.
Proof.
  intros H k. unfold committed, is_dir. destruct (snapshot_sequence k) eqn:E; [|by rewrite !andb_false_r].
  by rewrite (H k) by congruence.
Qed.

Section candidates.
  Context (order : list string -> list string) (Horder : forall l, order l ≡ₚ l).

Lemma sequences_elem d q :
  q ∈ sequences order d <-> exists c, committed d c = true /\ snapshot_sequence c = Some q.
Proof.
  unfold sequences. rewrite list_elem_of_omap. split.
  - intros (c & _ & Hc). exists c. unfold committed. destruct (is_dir d c); [|done]. by rewrite Hc.
  - intros (c & Hc & Hq). exists c. split.
    + apply committed_dir in Hc as [fs Hfs]. apply listing_elem; [done|]. eauto.
    + unfold committed in Hc. by destruct (is_dir d c).
Qed.

Definition next_sequence (d : dirmap) : nat := (max_list (sequences order d) + 1)%nat.

Lemma next_sequence_above d c : committed d c = true -> (seq_of c < next_sequence d)%nat.
Proof.
  intros Hc. destruct (committed_sequence d c Hc) as [q Hq]. unfold seq_of. rewrite Hq. cbn.
  assert (q <= max_list (sequences order d))%nat; [|unfold next_sequence; lia].
  apply max_list_elem_of_le, sequences_elem. eauto.
Qed.

Lemma next_sequence_same d d' : same_snapshots d d' -> next_sequence d = next_sequence d'.
Proof.
  intros H. unfold next_sequence. f_equal. apply max_list_ext. intros q. rewrite !sequences_elem.
  by setoid_rewrite (same_committed d d' H).
Qed.

Lemma candidates_elem d c : c ∈ candidates order d <-> committed d c = true.
Proof.
  unfold candidates. rewrite py_sort_perm, list_elem_of_In, filter_In, <- list_elem_of_In.
  rewrite listing_elem by done. split; [by intros [??]|]. intros Hc. split; [|done].
  apply committed_dir in Hc as [fs Hfs]. eauto.
Qed.

Lemma candidates_NoDup d : NoDup (candidates order d).
Proof.
  unfold candidates. rewrite py_sort_perm. apply NoDup_ListNoDup, List.NoDup_filter, NoDup_ListNoDup.
  by apply listing_NoDup.
Qed.

Lemma candidates_sorted d : StronglySorted (fun a b => (seq_of b <= seq_of a)%nat) (candidates order d).
Proof.
  eapply StronglySorted_ind with
    (P := fun l => StronglySorted (fun a b => (seq_of b <= seq_of a)%nat) l);
    [constructor| |apply (py_sort_sorted newer)].
  - intros a l _ Hl Ha. constructor; [done|]. eapply Forall_impl; [exact Ha|]. intros b Hb.
    by apply Nat.ltb_ge in Hb.
  - unfold newer. intros x y z H1%Nat.ltb_ge H2%Nat.ltb_ge. apply Nat.ltb_ge. lia.
  - unfold newer. intros x y H1%Nat.ltb_lt. apply Nat.ltb_ge. lia.
Qed.

(** The candidates only depend on the committed directories. *)
Lemma candidates_ext d d' :
  distinct_sequences d -> same_snapshots d d' -> candidates order d = candidates order d'.
Proof.
  intros Hd Hs. eapply StronglySorted_unique_strong; [|apply candidates_sorted..|].
  - cbv beta. intros a b Ha%candidates_elem Hb%candidates_elem H1 H2. rewrite <- (same_committed d d' Hs) in Hb.
    apply Hd; [done..|lia].
  - apply NoDup_Permutation; [apply candidates_NoDup..|]. intros k.
    by rewrite !candidates_elem, (same_committed d d' Hs).
Qed.

(** A snapshot above all the others comes first. *)
Lemma candidates_head d c :
  committed d c = true ->
  (forall k, committed d k = true -> k <> c -> (seq_of k < seq_of c)%nat) ->
  exists rest, candidates order d = c :: rest.
Proof.
  intros Hc Ho. pose proof (candidates_sorted d) as Hs. apply candidates_elem in Hc.
  destruct (candidates order d) as [|h rest] eqn:E; [by apply not_elem_of_nil in Hc|].
  apply StronglySorted_inv in Hs as [_ Hh]. destruct (decide (h = c)) as [->|Hne]; [eauto|].
  apply elem_of_cons in Hc as [->|Hc]; [done|]. rewrite Forall_forall in Hh. specialize (Hh c Hc).
  assert (seq_of h < seq_of c)%nat; [|lia]. apply Ho; [|done]. apply candidates_elem. rewrite E. left.
Qed.

(** Resolution reads the candidates only. *)
Lemma resolve_loop_ext x d d' cands errors :
  (forall c, c ∈ cands -> d !! c = d' !! c) ->
  resolve_loop x d cands errors = resolve_loop x d' cands errors.
Proof.
  revert errors. induction cands as [|c cands IH]; intros errors H; [done|]. cbn [resolve_loop].
  assert (read_manifest d c = read_manifest d' c) as ->.
  { unfold read_manifest. by rewrite (H c) by left. }
  assert (forall e, resolve_loop x d cands e = resolve_loop x d' cands e) as IH'.
  { intros e. apply IH. intros k Hk. apply H. by right. }
  rewrite !IH'. done.
Qed.

Lemma resolve_same x d d' :
  distinct_sequences d -> same_snapshots d d' ->
  resolve_latest_snapshot order x (Some d) = resolve_latest_snapshot order x (Some d').
Proof.
  intros Hd Hs. cbn [resolve_latest_snapshot]. rewrite (candidates_ext d d') by done.
  apply resolve_loop_ext. intros c Hc%candidates_elem. apply Hs.
  apply committed_sequence in Hc as [q Hq]. congruence.
Qed.

End candidates.

(** ** Preparing *)

Section snapshots.
  Context (order : list string -> list string) (Horder : forall l, order l ≡ₚ l).

(** Names that preparing a snapshot may change. *)
Definition not_snapshot (k : string) : Prop := snapshot_sequence k = None.

(** The snapshots of the root [root] are untouched. *)
Definition untouched (root o : option dirmap) : Prop :=
  match o with
  | Some d => same_snapshots (default ∅ root) d
  | None => root = None
  end.

Lemma untouched_blind root : blind not_snapshot (untouched root).
Proof. intros d d' H Hd k Hk. rewrite (Hd k Hk). symmetry. by apply H. Qed.

Lemma untouched_refl root : untouched root root.
Proof. by destruct root. Qed.

Lemma resolve_untouched x root o :
  distinct_sequences (default ∅ root) -> untouched root o ->
  resolve_latest_snapshot order x o = resolve_latest_snapshot order x root.
Proof.
  intros Hd Ho. destruct o as [d|]; [|by cbn in Ho; subst]. symmetry.
  transitivity (resolve_latest_snapshot order x (Some (default ∅ root))).
  - destruct root; [done|]. cbn. assert (candidates order ∅ = []) as ->; [|done].
    destruct (candidates order ∅) as [|c l] eqn:E; [done|].
    assert (c ∈ candidates order ∅) as Hc%candidates_elem by (rewrite E; left); [|done].
    apply committed_dir in Hc as [? Hc]. by rewrite lookup_empty in Hc.
  - by apply resolve_same.
Qed.

Lemma garbage_names d k : k ∈ List.filter (is_garbage d) (listing order d) <-> is_garbage d k = true.
Proof.
  rewrite list_elem_of_In, filter_In, <- list_elem_of_In, listing_elem by done.
  split; [by intros []|]. intros Hk. split; [|done]. unfold is_garbage, is_dir in Hk.
  destruct (d !! k); [eauto|done].
Qed.

Lemma always_prepare base root s :
  always base (untouched root) s ->
  wp (prepare_snapshot_paths order)
     (fun s' r => always base (untouched root) s' /\
        forall t f n, r = Ok (t, f, n) ->
          n = next_sequence order (default ∅ root) /\ t = tmp_name n /\ f = final_name n /\
          exists d, d_now s' = Some d /\ d !! t = Some (NDir ∅)) s.
Proof.
  intros Hs. pose proof (untouched_blind root) as HP. apply wp_bind.
  eapply wp_mono with (Q := fun s' _ => always base (untouched root) s').
  { unfold mkdir_root. wp_simpl. destruct (d_now s) as [d|] eqn:E; [done|]. apply always_put; [done|].
    destruct Hs as (l & _ & Hl). inversion Hl as [|? ? Hr]; subst. rewrite E in Hr. cbn in Hr. by rewrite Hr. }
  intros s1 [[]|e] H1; [|by split]. apply wp_bind, wp_entries; [|by split]. intros d1 Hd1.
  apply wp_bind. eapply wp_mono with (Q := fun s' _ => always base (untouched root) s').
  { apply (wp_for (always base (untouched root))); [done|]. intros k s' Hk Hs'.
    apply garbage_names, garbage_not_committed in Hk. by eapply always_rmtree. }
  intros s2 [[]|e] H2; [|by split]. apply wp_bind, wp_entries; [|by split]. intros d2 Hd2.
  apply wp_bind. eapply wp_mono; [eapply (always_rmtree_if_exists _ _ _ HP); [done|apply snapshot_sequence_tmp]|].
  intros s3 [[]|e] H3; [|by split]. apply wp_bind.
  assert (next_sequence order d2 = next_sequence order (default ∅ root)) as Hn.
  { symmetry. apply next_sequence_same; [done|]. exact (always_now _ _ _ _ H2 Hd2). }
  apply wp_bind, wp_entries; [|by split]. intros d3 Hd3.
  destruct (d3 !! _) eqn:E3; [by split|]. apply wp_modify, wp_ret. split.
  - apply (always_put base (untouched root) _ _ H3). cbn.
    eapply HP; [|exact (always_now _ _ _ _ H3 Hd3)]. intros k Hk. rewrite lookup_insert_ne; [done|].
    intros <-. apply Hk, snapshot_sequence_tmp.
  - intros t f n [= <- <- <-]. fold (next_sequence order d2). split_and!; [done..|].
    eexists. split; [done|]. apply lookup_insert_eq.
Qed.

(** A call of [prepare_snapshot_paths] succeeds unless a plain file is in the
    way.  It returns a number above every committed snapshot's, names formed
    from it, and an empty temporary directory; every leftover of an interrupted
    save is gone and nothing else has changed. *)
Theorem prepare_allocates_a_fresh_snapshot s d0 :
  d0 = default ∅ (d_now s) ->
  d0 !! tmp_name (next_sequence order d0) <> Some NFile ->
  let n := next_sequence order d0 in
  (prepare_snapshot_paths order s).2 = Ok (tmp_name n, final_name n, n) /\
  (exists d, d_now (prepare_snapshot_paths order s).1 = Some d /\
     forall k, d !! k = if decide (k = tmp_name n) then Some (NDir ∅)
                        else if is_garbage d0 k then None else d0 !! k) /\
  snapshot_sequence (final_name n) = Some n /\ is_dir d0 (final_name n) = false /\
  forall c, committed d0 c = true -> (seq_of c < n)%nat.
Proof.
  intros Hd0 Hblock n.
  assert (wp (prepare_snapshot_paths order) (fun s' r =>
    r = Ok (tmp_name n, final_name n, n) /\
    (exists d, d_now s' = Some d /\
     forall k, d !! k = if decide (k = tmp_name n) then Some (NDir ∅)
                        else if is_garbage d0 k then None else d0 !! k)) s) as Hwp.
  { apply wp_bind. eapply wp_mono with (Q := fun s' r => r = Ok tt /\ d_now s' = Some d0).
    { unfold mkdir_root. wp_simpl. subst d0. destruct (d_now s) eqn:E; [by apply wp_ret|by apply wp_modify]. }
    intros s1 r [-> H1]. apply wp_bind, (wp_entries_now d0); [done|]. apply wp_bind.
    eapply wp_mono.
    { apply (leaves_rmtree_all order Horder _ d0); [|done|].
      - apply NoDup_ListNoDup, List.NoDup_filter, NoDup_ListNoDup. by apply listing_NoDup.
      - intros k Hk%garbage_names. unfold is_garbage in Hk. by destruct (is_dir d0 k). }
    intros s2 r (-> & d2 & H2 & Hw). apply wp_bind, (wp_entries_now d2); [done|].
    assert (same_snapshots d0 d2) as Hsame.
    { intros k Hk. rewrite Hw. rewrite decide_False; [done|]. by intros ?%garbage_names%garbage_not_committed. }
    fold (next_sequence order d2). rewrite <- (next_sequence_same order Horder d0 d2 Hsame). fold n.
    assert (d2 !! tmp_name n = None) as Htmp.
    { rewrite Hw. destruct (decide _) as [|Hg]; [done|]. rewrite garbage_names in Hg.
      unfold is_garbage, is_dir in Hg. destruct (d0 !! tmp_name n) as [[|fs]|] eqn:E; [done| |done].
      by rewrite tmp_sequence_tmp in Hg. }
    apply wp_bind. eapply wp_mono with (Q := fun s' r => r = Ok tt /\ d_now s' = Some d2).
    { apply wp_bind, (wp_entries_now d2); [done|]. rewrite Htmp. by apply wp_ret. }
    intros s3 r [-> H3]. apply wp_bind. eapply wp_mono; [by apply (leaves_mkdir _ d2)|].
    intros s4 r (-> & d4 & H4 & ->). apply wp_ret. split; [done|]. eexists. split; [done|].
    intros k. destruct (decide (k = tmp_name n)) as [->|Hk]; [apply lookup_insert_eq|].
    rewrite lookup_insert_ne by done. rewrite Hw.
    pose proof (garbage_names d0 k). destruct (decide (k ∈ _)), (is_garbage d0 k); naive_solver. }
  destruct Hwp as [Hr Hd]. split; [exact Hr|]. split; [exact Hd|].
  split_and!; [apply snapshot_sequence_final| |apply next_sequence_above; done].
  destruct (is_dir d0 (final_name n)) eqn:E; [|done].
  assert (committed d0 (final_name n) = true) as Hc.
  { unfold committed. by rewrite E, snapshot_sequence_final. }
  apply (next_sequence_above order Horder) in Hc. unfold seq_of in Hc.
  rewrite snapshot_sequence_final in Hc. cbn in Hc. fold n in Hc. lia.
Qed.


(** ** Publishing *)

Lemma is_dir_Some d k fs : d !! k = Some (NDir fs) -> is_dir d k = true.
Proof. unfold is_dir. by intros ->. Qed.

Lemma committed_intro d k fs q :
  d !! k = Some (NDir fs) -> snapshot_sequence k = Some q -> committed d k = true.
Proof. intros Hk Hq. unfold committed. by rewrite (is_dir_Some d k fs Hk), Hq. Qed.

(** The directory after the publishing rename. *)
Definition published (tmp final : string) (files : gmap string content) (d : dirmap) : dirmap :=
  <[final := NDir files]> (delete tmp d).

Lemma published_head tmp final files d q :
  snapshot_sequence final = Some q ->
  (forall c, committed d c = true -> (seq_of c < q)%nat) ->
  exists rest, candidates order (published tmp final files d) = final :: rest.
Proof.
  intros Hq Hlt. apply candidates_head; [done|..].
  - eapply committed_intro; [apply lookup_insert_eq|done].
  - intros k Hk Hne. unfold seq_of at 2. rewrite Hq. cbn. apply Hlt. revert Hk.
    unfold committed, is_dir, published. rewrite lookup_insert_ne by done.
    destruct (decide (k = tmp)) as [->|]; [by rewrite lookup_delete_eq|].
    by rewrite lookup_delete_ne.
Qed.

Lemma list_elem_of_drop_sub {A} n (l : list A) x : x ∈ drop n l -> x ∈ l.
Proof. intros Hx. rewrite <- (take_drop n l). apply elem_of_app. by right. Qed.

(** The snapshots that stay are those not retired. *)
Lemma candidates_without k d d' :
  without (drop k (candidates order d) ++ (trash_name <$> drop k (candidates order d))) d d' ->
  candidates order d' ≡ₚ take k (candidates order d).
Proof.
  intros Hw. apply NoDup_Permutation.
  { by apply candidates_NoDup. }
  { eapply sublist_NoDup; [apply candidates_NoDup, Horder|]. apply sublist_take. }
  intros c. rewrite candidates_elem by done.
  pose proof (candidates_NoDup order Horder d) as Hnd. rewrite <- (take_drop k (candidates order d)) in Hnd.
  apply NoDup_app in Hnd as (_ & Hdisj & _). unfold committed, is_dir. rewrite Hw. split.
  - destruct (decide _) as [|Hn]; [done|]. fold (is_dir d c). fold (committed d c).
    intros Hc. apply (candidates_elem order Horder) in Hc. rewrite <- (take_drop k) in Hc.
    apply elem_of_app in Hc as [|Hc]; [done|]. destruct Hn. apply elem_of_app. by left.
  - intros Hc. assert (committed d c = true) as Hcom.
    { apply (candidates_elem order Horder). rewrite <- (take_drop k). apply elem_of_app. by left. }
    destruct (decide _) as [Hin|]; [|exact Hcom]. apply elem_of_app in Hin as [Hin|Hin].
    + by apply (Hdisj c) in Hc.
    + apply list_elem_of_fmap in Hin as (j & -> & _). apply committed_sequence in Hcom as [? Hq].
      by rewrite snapshot_sequence_trash in Hq.
Qed.

(** [commit_snapshot] refuses a retention below one before touching anything.
    Otherwise, when no plain file is in the way, it publishes the temporary
    directory with all its files under the final name, keeps exactly the
    [keep_latest_k] newest snapshots, the published one first among them,
    leaves no trash behind, and changes nothing else. *)
Theorem commit_publishes_and_keeps_the_newest s d tmp final files q keep :
  d_now s = Some d -> d !! tmp = Some (NDir files) -> snapshot_sequence tmp = None ->
  d !! final = None -> snapshot_sequence final = Some q ->
  (forall c, committed d c = true -> (seq_of c < q)%nat) ->
  (forall k, d !! trash_name k <> Some NFile) ->
  let d1 := published tmp final files d in
  let k := Z.to_nat keep in
  let stale := drop k (candidates order d1) in
  (keep < 1 -> commit_snapshot order tmp final keep s = (s, Raise ValueError)) /\
  (1 <= keep ->
     (commit_snapshot order tmp final keep s).2 = Ok tt /\
     exists d', d_now (commit_snapshot order tmp final keep s).1 = Some d' /\
       without (stale ++ (trash_name <$> stale)) d1 d' /\
       candidates order d' ≡ₚ take k (candidates order d1) /\
       d' !! final = Some (NDir files) /\
       forall kept old, kept ∈ candidates order d' -> old ∈ stale -> (seq_of old <= seq_of kept)%nat).
Proof.
  intros Hd Htmp Hts Hfinal Hq Hlt Htrash d1 k stale. split.
  { intros Hk. unfold commit_snapshot, guard. by rewrite (proj2 (Z.ltb_lt _ _) Hk). }
  intros Hk. destruct (published_head tmp final files d q Hq Hlt) as [rest Hhead]. fold d1 in Hhead.
  assert (leaves (commit_snapshot order tmp final keep) s
            (without (stale ++ (trash_name <$> stale)) d1)) as [Hr (d' & Hd' & Hw)].
  { apply wp_bind, wp_guard. split; [intros ?%Z.ltb_lt; lia|intros _].
    eapply leaves_bind; [by eapply leaves_rename|]. intros s1 ? H1 ->. fold d1 in H1.
    eapply leaves_call; [exact H1|]. fold d1 k stale. apply leaves_retire_all; [done|..|done| |].
    - eapply sublist_NoDup; [apply (candidates_NoDup order Horder d1)|]. apply sublist_drop.
    - intros c Hc%list_elem_of_drop_sub. by apply candidates_elem in Hc.
    - intros c _. unfold d1, published. rewrite lookup_insert_ne.
      + destruct (decide (tmp = trash_name c)) as [->|]; [by rewrite lookup_delete_eq|].
        by rewrite lookup_delete_ne.
      + intros ->. by rewrite snapshot_sequence_trash in Hq. }
  split; [exact Hr|]. exists d'. pose proof (candidates_without k d1 d' Hw) as Hc.
  split_and!; [done..| |].
  - rewrite Hw. rewrite decide_False; [apply lookup_insert_eq|]. rewrite elem_of_app. intros [Hin|Hin].
    + assert (NoDup (candidates order d1)) as Hnd by by apply candidates_NoDup.
      unfold stale in Hin. rewrite Hhead in Hin, Hnd. apply NoDup_cons in Hnd as [Hn _].
      assert (exists k0, k = S k0) as [k0 Ek] by (exists (pred k); lia). rewrite Ek in Hin. cbn in Hin. by apply list_elem_of_drop_sub in Hin.
    + apply list_elem_of_fmap in Hin as (j & -> & _). by rewrite snapshot_sequence_trash in Hq.
  - intros kept old Hkept Hold. rewrite Hc in Hkept.
    pose proof (candidates_sorted order d1) as Hs. rewrite <- (take_drop k (candidates order d1)) in Hs.
    apply (StronglySorted_app_1_elem_of _ _ _ _ _ Hs Hkept Hold).
Qed.


(** ** Crash safety *)

(** A snapshot the resolver accepts for the trainer checkpoint [x]. *)
Definition accepts (x : expected) (m : RolloutSnapshotManifest) : bool :=
  same_lineage x m && bool_decide (bootstrap_fingerprint m = expected_bootstrap_fingerprint x).

(** The new snapshot is in place, above all the others. *)
Definition in_place (final : string) (files : gmap string content) (o : option dirmap) : Prop :=
  match o with
  | Some d => d !! final = Some (NDir files) /\
              forall k, committed d k = true -> k <> final -> (seq_of k < seq_of final)%nat
  | None => False
  end.

Definition below (final k : string) : Prop :=
  k <> final /\ forall p, snapshot_sequence k = Some p -> (p < seq_of final)%nat.

Lemma in_place_blind final files : blind (below final) (in_place final files).
Proof.
  intros d d' H [Hf Hlt]. split.
  - rewrite H; [done|]. by intros [].
  - intros k Hk Hne. destruct (committed_sequence d' k Hk) as [p Hp].
    destruct (decide (p < seq_of final)%nat) as [Hl|Hl]; [unfold seq_of at 1; by rewrite Hp|].
    apply Hlt; [|done]. unfold committed, is_dir in Hk |- *. rewrite <- H; [done|]. intros [_ Hb].
    by apply Hl, Hb.
Qed.

Lemma resolve_in_place x final files m q o :
  snapshot_sequence final = Some q ->
  (files !! ROLLOUT_SNAPSHOT_MANIFEST_FILENAME ≫= fun raw => Some (raw ≫= from_mapping)) = Some (Ok m) ->
  accepts x m = true -> in_place final files o ->
  resolve_latest_snapshot order x o = Ok (Some (final, m)).
Proof.
  intros Hq Hm Ha. destruct o as [d|]; [|done]. intros [Hf Hlt]. cbn [resolve_latest_snapshot].
  destruct (candidates_head order Horder d final) as [rest ->]; [by eapply committed_intro|done|].
  cbn [resolve_loop]. unfold read_manifest. rewrite Hf.
  destruct (files !! _) as [raw|]; [|done]. cbn in Hm |- *. injection Hm as ->.
  unfold accepts in Ha. apply andb_true_iff in Ha as [-> ->]. done.
Qed.

(** What every state on the way satisfies: first the old snapshots untouched,
    then, once published, the new one in place. *)
Definition trail (root : option dirmap) (final : string) (files : gmap string content) (s : disk) : Prop :=
  always [] (untouched root) s \/
  exists base, Forall (untouched root) base /\ always base (in_place final files) s.

Lemma trail_states root final files s :
  trail root final files s ->
  Forall (fun o => untouched root o \/ in_place final files o) (crash_states s).
Proof.
  unfold crash_states. intros [(l & -> & Hl)|(base & Hb & l & -> & Hl)].
  - rewrite app_nil_r. eapply Forall_impl; [exact Hl|]. cbn. tauto.
  - rewrite app_comm_cons, Forall_app. split; (eapply Forall_impl; [eassumption|]); cbn; tauto.
Qed.

Lemma trail_cleanup root n files tmp s :
  snapshot_sequence tmp = None -> trail root (final_name n) files s ->
  wp (rmtree_if_exists order tmp) (fun s' _ => trail root (final_name n) files s') s.
Proof.
  intros Htmp [Hs|(base & Hb & Hs)].
  - eapply wp_mono; [eapply always_rmtree_if_exists; [apply untouched_blind|done..]|]. by left.
  - eapply wp_mono; [eapply always_rmtree_if_exists; [apply in_place_blind|done|]|].
    + split; [intros ->; by rewrite snapshot_sequence_final in Htmp|congruence].
    + right. eauto.
Qed.

Lemma wp_rename a b fs d (Q : disk -> res unit -> Prop) s :
  d_now s = Some d -> d !! a = Some (NDir fs) ->
  (is_dir d b = false -> d !! b = None -> Q (Disk (Some (published a b fs d)) (d_now s :: d_past s)) (Ok tt)) ->
  (is_dir d b = true -> Q (Disk (Some (published a b fs d)) (d_now s :: d_past s)) (Ok tt)) ->
  (forall e, Q s (Raise e)) ->
  wp (rename a b) Q s.
Proof.
  intros Hd Ha H1 H2 H3. apply wp_bind, (wp_entries_now d); [done|]. rewrite Ha. unfold is_dir in *.
  destruct (d !! b) as [[|gs]|]; [by apply wp_lift| |by apply wp_modify, H1].
  destruct (_ =? _)%nat; [by apply wp_modify, H2|by apply wp_lift].
Qed.

Lemma trail_commit root n files tmp keep d s :
  n = next_sequence order (default ∅ root) ->
  snapshot_sequence tmp = None -> always [] (untouched root) s ->
  d_now s = Some d -> d !! tmp = Some (NDir files) ->
  wp (commit_snapshot order tmp (final_name n) keep)
     (fun s' r => trail root (final_name n) files s' /\
                  (r = Ok tt -> in_place (final_name n) files (d_now s'))) s.
Proof.
  intros -> Htmp Hs Hd Ht. set (n := next_sequence order (default ∅ root)).
  pose proof (always_now _ _ _ _ Hs Hd) as Hsame. cbn in Hsame.
  assert (forall k, committed d k = true -> (seq_of k < n)%nat) as Hlt.
  { intros k Hk. rewrite <- (same_committed _ _ Hsame) in Hk. by apply next_sequence_above. }
  apply wp_bind, wp_guard. split; [intros _; split; [by left|done]|]. intros Hk%Z.ltb_ge.
  assert (is_dir d (final_name n) = false) as Hno.
  { destruct (is_dir d (final_name n)) eqn:E; [|done].
    assert (committed d (final_name n) = true) as Hc by (unfold committed; by rewrite E, snapshot_sequence_final).
    apply Hlt in Hc. unfold seq_of in Hc. rewrite snapshot_sequence_final in Hc. cbn in Hc. lia. }
  apply wp_bind, (wp_rename _ _ files d); [done..| |congruence|intros e; split; [by left|done]].
  intros _ Hnone. set (d1 := published tmp (final_name n) files d).
  assert (in_place (final_name n) files (Some d1)) as Hin.
  { split; [apply lookup_insert_eq|]. intros k Hc Hne. unfold seq_of at 2. rewrite snapshot_sequence_final.
    cbn. apply Hlt. revert Hc. unfold committed, is_dir, d1, published. rewrite lookup_insert_ne by done.
    destruct (decide (k = tmp)) as [->|]; [by rewrite lookup_delete_eq|]. by rewrite lookup_delete_ne. }
  apply wp_bind, (wp_entries_now d1); [done|].
  destruct (published_head tmp (final_name n) files d n (snapshot_sequence_final n) Hlt) as [rest Hhead].
  eapply wp_mono with (Q := fun s' _ => always (d_now s :: d_past s) (in_place (final_name n) files) s').
  - apply (wp_for (always _ _)).
    { exists []. split; [done|]. constructor; [exact Hin|constructor]. }
    intros k s' Hks Hs'. fold d1 in Hhead. rewrite Hhead in Hks.
    assert (exists k0, Z.to_nat keep = S k0) as [k0 Ek] by (exists (pred (Z.to_nat keep)); lia).
    rewrite Ek in Hks. cbn [drop] in Hks. apply list_elem_of_drop_sub in Hks.
    assert (NoDup (candidates order d1)) as Hnd by by apply candidates_NoDup.
    rewrite Hhead in Hnd. apply NoDup_cons in Hnd as [Hnf _].
    assert (committed d1 k = true) as Hck. { apply (candidates_elem order Horder). rewrite Hhead. by right. }
    assert (k <> final_name n) as Hkf by (intros ->; done).
    eapply always_retire; [apply (in_place_blind (final_name n))|done| |].
    + split; [done|]. intros p Hp. destruct Hin as [_ Hin]. specialize (Hin k Hck Hkf).
      unfold seq_of at 1 in Hin. by rewrite Hp in Hin.
    + split; [|by rewrite snapshot_sequence_trash]. intros Heq.
      pose proof (snapshot_sequence_final n) as Hx. by rewrite <- Heq, snapshot_sequence_trash in Hx.
  - intros s' r Hs'. split.
    + right. exists (d_now s :: d_past s). split; [|done].
      destruct Hs as (l & Hp & Hl). rewrite Hp, app_nil_r. done.
    + intros _. destruct Hs' as (l & _ & Hl). by inversion Hl.
Qed.


(** The files a save leaves in its directory. *)
Definition saved_files (fs : gmap string content) (files : list (string * content)) : gmap string content :=
  foldl (fun fs '(f, c) => <[f := c]> fs) fs files.

Lemma leaves_writes tmp files fs d s :
  d_now s = Some d -> d !! tmp = Some (NDir fs) ->
  leaves (for_in files (fun '(f, c) => write_file tmp f c)) s
    (fun d' => d' !! tmp = Some (NDir (saved_files fs files))).
Proof.
  revert fs d s. induction files as [|[f c] files IH]; intros fs d s Hd Ht; cbn [for_in].
  - apply wp_ret. eauto.
  - eapply leaves_bind; [by apply (leaves_write tmp f c fs d)|]. intros s' d' Hd' ->.
    apply (IH (<[f := c]> fs) _ _ Hd'). apply lookup_insert_eq.
Qed.

Lemma always_start root : always [] (untouched root) (Disk root []).
Proof. exists []. split; [done|]. constructor; [apply untouched_refl|constructor]. Qed.

Lemma trail_save root files failure keep :
  let final := final_name (next_sequence order (default ∅ root)) in
  wp (save_snapshot order files failure keep)
     (fun s' r =>
        trail root final (saved_files ∅ files) s' /\
        (forall f, r = Ok f -> f = final /\ in_place final (saved_files ∅ files) (d_now s')) /\
        (failure <> None -> (exists e, r = Raise e) /\ always [] (untouched root) s'))
     (Disk root []).
Proof.
  intros final. pose proof (untouched_blind root) as HP. apply wp_bind.
  eapply wp_mono; [apply (always_prepare [] root), always_start|].
  intros s1 [[[tmp f] n]|e] [H1 Hr]; [|split_and!; [by left|done|eauto]].
  destruct (Hr _ _ _ eq_refl) as (-> & -> & -> & d1 & Hd1 & Ht1). clear Hr.
  set (n := next_sequence order (default ∅ root)) in *.
  apply wp_on_error, wp_bind. eapply wp_mono.
  { pose proof (leaves_writes _ files _ _ _ Hd1 Ht1) as Hw. unfold leaves in Hw.
    apply wp_and; [|exact Hw].
    apply (wp_for (always [] (untouched root))); [done|]. intros [g c] s' _ Hs'.
    by eapply always_write. }
  intros s2 r (H2 & -> & d2 & Hd2 & Ht2). apply wp_bind, wp_lift.
  destruct failure as [e|].
  - apply wp_bind. eapply wp_mono; [by eapply always_rmtree_if_exists|].
    intros s3 [[]|e'] H3; [apply wp_lift|]; (split_and!; [by left|done|eauto]).
  - apply wp_bind. eapply wp_mono; [by eapply (trail_commit root n _ _ keep d2 s2)|].
    intros s3 [[]|e'] [H3 Hin].
    + apply wp_ret. split_and!; [done| |done]. intros f [= <-]. auto.
    + apply wp_bind. eapply wp_mono; [by eapply trail_cleanup|].
      intros s4 [[]|e2] H4; [apply wp_lift|]; done.
Qed.

End snapshots.

(** ** The manifest *)

Definition valid_manifest (m : RolloutSnapshotManifest) : Prop :=
  schema_version m = ROLLOUT_SNAPSHOT_SCHEMA_VERSION /\
  0 <= base_train_step m /\ 0 <= trainer_version m /\ 0 <= current_epoch m /\
  0 <= mutation_version m /\ 0 <= rolled_back_train_group_count m /\
  -1 <= sampler_dispatch_index m /\
  match next_nemo_gym_task_index m with Some z => 0 <= z | None => True end.

Lemma from_mapping_valid raw m : from_mapping raw = Ok m -> valid_manifest m.
Proof.
  destruct raw as [| | | | | | | |d|]; try done. cbn. intros H. unfold get_task_index in H.
  inv_res. unfold valid_manifest. cbn.
  repeat match goal with H : (negb _) = false |- _ => apply negb_false_iff in H end.
  bool_to_prop. split_and!; try lia.
  destruct (dict_get _ d) as [[]|]; inv_res; try done; [].
  match goal with H : context [?z <? 0] |- _ => destruct (z <? 0) eqn:E; inv_res end. by apply Z.ltb_ge.
Qed.

Lemma from_mapping_to_dict m : valid_manifest m -> from_mapping (to_dict m) = Ok m.
Proof.
  destruct m as [sv bs tv ce di mv rb fp ti]. intros (H1 & H2 & H3 & H4 & H5 & H6 & H7 & H8). cbn in *.
  unfold from_mapping, to_dict, str_dict. cbn -[Z.min Z.ltb].
  assert (get_task_index [(VStr "next_nemo_gym_task_index", opt_val VInt ti)] = Ok ti) as Ht.
  { unfold get_task_index. cbn. destruct ti as [z|]; [|done]. cbn. by rewrite (proj2 (Z.ltb_ge z 0)). }
  assert (get_fingerprint [(VStr "bootstrap_fingerprint", opt_val VStr fp)] = Ok fp) as Hf by by destruct fp.
  unfold get_fingerprint, get_task_index in *. cbn -[Z.min Z.ltb] in *. rewrite Hf. cbn -[Z.min Z.ltb].
  rewrite Ht. cbn -[Z.min Z.ltb]. rewrite H1. cbn -[Z.min Z.ltb].
  rewrite (proj2 (Z.ltb_ge _ 0)) by lia. cbn -[Z.ltb]. by rewrite (proj2 (Z.ltb_ge di (-1))).
Qed.

(** A manifest is read back as it was written, exactly when it is valid; what
    reading accepts is always valid. *)
Theorem manifest_reads_back m raw :
  (from_mapping (to_dict m) = Ok m <-> valid_manifest m) /\
  (from_mapping raw = Ok m -> valid_manifest m).
Proof. split; [split|]; eauto using from_mapping_valid, from_mapping_to_dict. Qed.

(** ** Resolution *)

(** What the resolver makes of one candidate: its manifest, nothing when it is
    passed over, or the exception that stops the search. *)
Definition verdict (x : expected) (d : dirmap) (c : string) : res (option RolloutSnapshotManifest) :=
  match read_manifest d c with
  | None => Ok None
  | Some (Raise e) => if resolve_catches e then Ok None else Raise e
  | Some (Ok m) => if accepts x m then Ok (Some m) else Ok None
  end.

Lemma resolve_loop_cons x d c cands errors :
  resolve_loop x d (c :: cands) errors =
  match verdict x d c with
  | Ok None => resolve_loop x d cands (errors ++ [c])
  | Ok (Some m) => Ok (Some (c, m))
  | Raise e => Raise e
  end.
Proof.
  cbn [resolve_loop]. unfold verdict, accepts. destruct (read_manifest d c) as [[m|e]|]; [| |done].
  - destruct (same_lineage x m); [|done]. by destruct (bool_decide _).
  - by destruct (resolve_catches e).
Qed.

Lemma resolve_loop_spec x d cands errors :
  match resolve_loop x d cands errors with
  | Ok (Some (c, m)) =>
      exists l1 l2, cands = (l1 ++ c :: l2)%list /\ verdict x d c = Ok (Some m) /\
                    forall k, k ∈ l1 -> verdict x d k = Ok None
  | Ok None => cands = [] /\ errors = []
  | Raise e =>
      (exists l1 k l2, cands = (l1 ++ k :: l2)%list /\ verdict x d k = Raise e /\
                       forall j, j ∈ l1 -> verdict x d j = Ok None) \/
      (e = ValueError /\ ~ (cands = [] /\ errors = []) /\ forall k, k ∈ cands -> verdict x d k = Ok None)
  end.
Proof.
  revert errors. induction cands as [|c cands IH]; intros errors.
  - cbn. destruct (bool_decide_reflect (errors = [])) as [->|Hne]; [done|]. right.
    split_and!; [done|tauto|]. by intros k ?%not_elem_of_nil.
  - rewrite resolve_loop_cons. destruct (verdict x d c) as [[m|]|e] eqn:E.
    + exists [], cands. split_and!; [done..|]. by intros k ?%not_elem_of_nil.
    + specialize (IH (errors ++ [c])%list).
      assert (forall (l : list string), (forall k, k ∈ l -> verdict x d k = Ok None) ->
        forall k, k ∈ c :: l -> verdict x d k = Ok None) as Hcons.
      { intros l Hl k [->|]%elem_of_cons; auto. }
      destruct (resolve_loop x d cands _) as [[[c' m]|]|e].
      * destruct IH as (l1 & l2 & -> & Hv & Hl). exists (c :: l1), l2. eauto.
      * destruct IH as [_ ?]. by destruct errors.
      * destruct IH as [(l1 & k & l2 & -> & Hv & Hl)|(-> & _ & Hl)].
        -- left. exists (c :: l1), k, l2. eauto.
        -- right. split_and!; [done|by intros []|by apply Hcons].
    + left. exists [], c, cands. split_and!; [done..|]. by intros j ?%not_elem_of_nil.
Qed.

Section resolution.
  Context (order : list string -> list string) (Horder : forall l, order l ≡ₚ l).

(** Everything newer than a candidate is before it. *)
Lemma candidates_before d l1 c l2 k :
  candidates order d = (l1 ++ c :: l2)%list -> committed d k = true -> (seq_of c < seq_of k)%nat -> k ∈ l1.
Proof.
  intros E Hk Hlt. apply (candidates_elem order Horder) in Hk. rewrite E in Hk.
  apply elem_of_app in Hk as [|Hk]; [done|]. exfalso.
  pose proof (candidates_sorted order d) as Hs. rewrite E in Hs.
  apply StronglySorted_app_1_r in Hs. apply StronglySorted_inv in Hs as [_ Hc].
  apply elem_of_cons in Hk as [->|Hk]; [lia|]. rewrite Forall_forall in Hc. specialize (Hc k Hk). lia.
Qed.

(** C31 The resolver returns the newest snapshot it accepts: it has a manifest
    that is valid, of the expected trainer checkpoint and bootstrap lineage, and
    every newer one was passed over.  It returns nothing only when there is no
    snapshot at all; when all are passed over it raises [ValueError], and any
    other exception comes from a manifest below which only rejected ones are
    newer. *)
Theorem resolution_selects_the_newest_acceptable x d :
  match resolve_latest_snapshot order x (Some d) with
  | Ok (Some (c, m)) =>
      committed d c = true /\ read_manifest d c = Some (Ok m) /\ accepts x m = true /\ valid_manifest m /\
      forall k, committed d k = true -> (seq_of c < seq_of k)%nat -> verdict x d k = Ok None
  | Ok None => forall k, committed d k = false
  | Raise e =>
      (exists k, committed d k = true /\ verdict x d k = Raise e /\
         forall j, committed d j = true -> (seq_of k < seq_of j)%nat -> verdict x d j = Ok None) \/
      (e = ValueError /\ (exists k, committed d k = true) /\
         forall k, committed d k = true -> verdict x d k = Ok None)
  end.
Proof.
  cbn [resolve_latest_snapshot]. pose proof (resolve_loop_spec x d (candidates order d) []) as H.
  destruct (resolve_loop x d _ _) as [[[c m]|]|e].
  - destruct H as (l1 & l2 & E & Hv & Hl).
    assert (committed d c = true) as Hc.
    { apply (candidates_elem order Horder). rewrite E. apply elem_of_app. right. left. }
    assert (read_manifest d c = Some (Ok m) /\ accepts x m = true) as [Hm Ha].
    { unfold verdict in Hv. destruct (read_manifest d c) as [[m'|e]|]; [| |done].
      - destruct (accepts x m') eqn:?; [|done]. by injection Hv as ->.
      - by destruct (resolve_catches e). }
    split_and!; [done..| |].
    + unfold read_manifest in Hm. destruct (d !! c) as [[|fs]|]; [done| |done].
      destruct (fs !! _) as [[raw|e]|]; [|done..]. cbn in Hm. injection Hm as Hm.
      by eapply from_mapping_valid.
    + intros k Hk Hlt. apply Hl. by eapply candidates_before.
  - destruct H as [E _]. intros k. destruct (committed d k) eqn:Hk; [|done].
    apply (candidates_elem order Horder) in Hk. rewrite E in Hk. by apply not_elem_of_nil in Hk.
  - destruct H as [(l1 & k & l2 & E & Hv & Hl)|(-> & Hne & Hl)].
    + left. exists k. split_and!; [|done|].
      * apply (candidates_elem order Horder). rewrite E. apply elem_of_app. right. left.
      * intros j Hj Hlt. apply Hl. by eapply candidates_before.
    + right. split_and!; [done| |].
      * destruct (candidates order d) as [|k l] eqn:E; [tauto|]. exists k.
        apply (candidates_elem order Horder). rewrite E. left.
      * intros k Hk. apply Hl. by apply candidates_elem.
Qed.

(** A manifest that is valid JSON but no object is not passed over: an intact
    older snapshot is not reached. *)
Lemma non_object_manifest_stops_resolution x d c rest files v :
  candidates order d = c :: rest -> d !! c = Some (NDir files) ->
  files !! ROLLOUT_SNAPSHOT_MANIFEST_FILENAME = Some (Ok v) ->
  (forall kv, v <> VDict kv) ->
  resolve_latest_snapshot order x (Some d) = Raise AttributeError.
Proof.
  intros E Hd Hf Hv. cbn [resolve_latest_snapshot]. rewrite E, resolve_loop_cons.
  unfold verdict, read_manifest. rewrite Hd, Hf. cbn.
  destruct v as [| | | | | | | |kv|]; try done. by destruct (Hv kv).
Qed.

(** C28 A save is atomic for a restart.  Whatever point of it a crash interrupts,
    the resolver finds what it found before the save, or the new snapshot; when
    the save returns it finds the new one, and when the capture fails it finds
    the old one throughout. *)
Theorem save_is_atomic_for_a_restart x root files rest m failure keep :
  distinct_sequences (default ∅ root) ->
  files = (rest ++ [(ROLLOUT_SNAPSHOT_MANIFEST_FILENAME, Ok (to_dict m))])%list ->
  valid_manifest m -> accepts x m = true ->
  let s' := (save_snapshot order files failure keep (Disk root [])).1 in
  let r := (save_snapshot order files failure keep (Disk root [])).2 in
  let old := resolve_latest_snapshot order x root in
  let final := final_name (next_sequence order (default ∅ root)) in
  (forall o, o ∈ crash_states s' -> resolve_latest_snapshot order x o = old
                                 \/ resolve_latest_snapshot order x o = Ok (Some (final, m))) /\
  (forall f, r = Ok f -> f = final /\ resolve_latest_snapshot order x (d_now s') = Ok (Some (final, m))) /\
  (failure <> None -> (exists e, r = Raise e) /\
     forall o, o ∈ crash_states s' -> resolve_latest_snapshot order x o = old).
Proof.
  intros Hd -> Hm Ha s' r old final.
  destruct (trail_save order Horder root (rest ++ [(ROLLOUT_SNAPSHOT_MANIFEST_FILENAME, Ok (to_dict m))])
              failure keep) as (Ht & Hok & Hfail).
  fold s' in Ht, Hok, Hfail. fold r in Hok, Hfail. fold final in Ht, Hok.
  assert (forall o, in_place final (saved_files ∅ (rest ++ [(ROLLOUT_SNAPSHOT_MANIFEST_FILENAME, Ok (to_dict m))])) o ->
                    resolve_latest_snapshot order x o = Ok (Some (final, m))) as Hnew.
  { intros o. eapply resolve_in_place; [done|apply snapshot_sequence_final| |done].
    unfold saved_files. rewrite foldl_app. cbn [foldl]. rewrite lookup_insert_eq. cbn -[from_mapping to_dict].
    by rewrite from_mapping_to_dict. }
  assert (forall o, untouched root o -> resolve_latest_snapshot order x o = old) as Hold.
  { intros o. by apply resolve_untouched. }
  split_and!.
  - intros o Ho. apply trail_states in Ht. rewrite Forall_forall in Ht.
    destruct (Ht o Ho); [left|right]; auto.
  - intros f Hf. destruct (Hok f Hf) as [-> Hin]. auto.
  - intros Hne. destruct (Hfail Hne) as [He (l & Hp & Hl)]. split; [done|]. intros o Ho.
    rewrite app_nil_r in Hp. apply Hold. rewrite Forall_forall in Hl. apply Hl.
    unfold crash_states in Ho. by rewrite Hp in Ho.
Qed.

End resolution.

(** ** Concrete snapshots *)
Module Demo.

Definition m_old : RolloutSnapshotManifest := Manifest 3 5 5 0 (-1) 7 0 None (Some 12).
Definition m_new : RolloutSnapshotManifest := Manifest 3 5 5 0 2 9 0 None (Some 15).
Definition at_step_5 : expected := Expected 5 5 None.
Definition payload (m : RolloutSnapshotManifest) : list (string * content) :=
  [("rollout_recovery.bin", Raise ValueError);
   (ROLLOUT_SNAPSHOT_MANIFEST_FILENAME, Ok (to_dict m))].
Definition dir_of (m : RolloutSnapshotManifest) : gmap string content := saved_files ∅ (payload m).

(** Two snapshots, the newer one without a manifest, and an interrupted save. *)
Definition root : dirmap :=
  <["snapshot_000002" := NDir (dir_of m_old)]>
  (<["snapshot_000003" := NDir ∅]>
  (<["tmp_snapshot_000009" := NDir ∅]> ∅)).

(** The directory with the next snapshot prepared and filled. *)
Definition filled : dirmap := <["tmp_snapshot_000004" := NDir (dir_of m_new)]> (delete "tmp_snapshot_000009" root).

Lemma root_names k : is_Some (root !! k) -> k ∈ ["snapshot_000002"; "snapshot_000003"; "tmp_snapshot_000009"].
Proof. unfold root. rewrite !lookup_insert_is_Some, lookup_empty. set_solver. Qed.

Lemma root_distinct : distinct_sequences root.
Proof.
  assert (forall k, committed root k = true -> k ∈ ["snapshot_000002"; "snapshot_000003"]) as H.
  { intros k Hk. destruct (committed_dir _ _ Hk) as [fs Hfs].
    assert (is_Some (root !! k)) as Hs%root_names by eauto. rewrite !elem_of_cons in Hs. rewrite !elem_of_cons.
    destruct Hs as [->|[->|[->|[]%not_elem_of_nil]]]; [auto..|done]. }
  intros a b Ha%H Hb%H. rewrite !elem_of_cons, elem_of_nil in Ha, Hb.
  destruct Ha as [->|[->|[]]], Hb as [->|[->|[]]]; done.
Qed.

Lemma filled_names k : is_Some (filled !! k) -> k ∈ ["tmp_snapshot_000004"; "snapshot_000002"; "snapshot_000003"].
Proof.
  unfold filled. rewrite lookup_insert_is_Some, lookup_delete_is_Some.
  intros [<-|(_ & Hne & Hk%root_names)]; [left|]. set_solver.
Qed.

Lemma filled_below c : committed filled c = true -> (seq_of c < 4)%nat.
Proof.
  intros Hc. destruct (committed_dir _ _ Hc) as [fs Hfs].
  assert (is_Some (filled !! c)) as Hs%filled_names by eauto. rewrite !elem_of_cons in Hs.
  destruct Hs as [->|[->|[->|[]%not_elem_of_nil]]]; [done|apply Nat.ltb_lt; vm_compute; reflexivity..].
Qed.

Lemma filled_no_file k : filled !! k <> Some NFile.
Proof.
  intros Hk. assert (is_Some (filled !! k)) as Hs%filled_names by eauto. rewrite !elem_of_cons in Hs.
  destruct Hs as [->|[->|[->|[]%not_elem_of_nil]]]; discriminate Hk.
Qed.

Lemma prepare_allocates_witness :
  (prepare_snapshot_paths id (Disk (Some root) [])).2
  = Ok ("tmp_snapshot_000004", "snapshot_000004", 4%nat).
Proof.
  refine (eq_trans (proj1 (prepare_allocates_a_fresh_snapshot id (fun l => Permutation_refl l)
    (Disk (Some root) []) root eq_refl _)) _); [vm_compute; discriminate|reflexivity].
Defined.

Lemma commit_publishes_witness :
  (commit_snapshot id "tmp_snapshot_000004" "snapshot_000004" 2 (Disk (Some filled) [])).2 = Ok tt /\
  candidates id (default ∅ (d_now (commit_snapshot id "tmp_snapshot_000004" "snapshot_000004" 2
                                     (Disk (Some filled) [])).1))
  = ["snapshot_000004"; "snapshot_000003"].
Proof.
  split; [|vm_compute; reflexivity].
  refine (proj1 (proj2 (commit_publishes_and_keeps_the_newest id (fun l => Permutation_refl l)
    (Disk (Some filled) []) filled "tmp_snapshot_000004" "snapshot_000004" (dir_of m_new) 4 2
    eq_refl eq_refl eq_refl eq_refl eq_refl filled_below (fun k => filled_no_file _)) _)). lia.
Defined.

Lemma resolution_selects_witness :
  resolve_latest_snapshot id at_step_5 (Some root) = Ok (Some ("snapshot_000002", m_old)) /\
  accepts at_step_5 m_old = true.
Proof.
  split; [vm_compute; reflexivity|].
  pose proof (resolution_selects_the_newest_acceptable id (fun l => Permutation_refl l) at_step_5 root) as H.
  assert (resolve_latest_snapshot id at_step_5 (Some root) = Ok (Some ("snapshot_000002", m_old))) as E
    by (vm_compute; reflexivity).
  rewrite E in H. apply H.
Defined.

Lemma save_is_atomic_witness :
  (save_snapshot id (payload m_new) None 2 (Disk (Some root) [])).2 = Ok "snapshot_000004" /\
  forall o, o ∈ crash_states (save_snapshot id (payload m_new) None 2 (Disk (Some root) [])).1 ->
    resolve_latest_snapshot id at_step_5 o = Ok (Some ("snapshot_000002", m_old)) \/
    resolve_latest_snapshot id at_step_5 o = Ok (Some ("snapshot_000004", m_new)).
Proof.
  split; [vm_compute; reflexivity|].
  assert (resolve_latest_snapshot id at_step_5 (Some root) = Ok (Some ("snapshot_000002", m_old))) as <-
    by (vm_compute; reflexivity).
  assert (final_name (next_sequence id root) = "snapshot_000004") as <- by (vm_compute; reflexivity).
  refine (proj1 (save_is_atomic_for_a_restart id (fun l => Permutation_refl l) at_step_5 (Some root)
    (payload m_new) [("rollout_recovery.bin", Raise ValueError)] m_new None 2
    root_distinct eq_refl _ eq_refl)).
  unfold valid_manifest, ROLLOUT_SNAPSHOT_SCHEMA_VERSION. cbn. lia.
Defined.

(** An intact older snapshot is hidden by a newer one whose manifest is a list. *)
Example json_array_manifest_hides_older_snapshots :
  resolve_latest_snapshot id at_step_5 (Some root) = Ok (Some ("snapshot_000002", m_old)) /\
  resolve_latest_snapshot id at_step_5
    (Some (<["snapshot_000003" := NDir {[ROLLOUT_SNAPSHOT_MANIFEST_FILENAME := Ok (VList [])]}]> root))
  = Raise AttributeError.
Proof. split; vm_compute; reflexivity. Qed.

End Demo.
