(* ===== verification/SnapshotIdentity.v ===== *)
(** * The identity of a bootstrap run
    ([algorithms/rollout_checkpointing/manifest.py])

    Which configuration values bind a snapshot taken before the first trainer
    checkpoint: the denylist of path patterns, the projection of the
    configuration it leaves, the anchor that stores it and the differences it
    reports.  [hashlib.sha256] over [json.dumps] is a parameter [digest]. *)

From S2P Require Import Prelude PyVal PyStr StateErr SnapshotDir.
From Stdlib Require Import Ascii.
#[local] Open Scope string_scope.
#[local] Open Scope Z_scope.

(** ** [fnmatch.fnmatchcase] *)

Inductive glob :=
| GStar
| GAny
| GSet (negated : bool) (ranges : list (ascii * ascii))
| GChar (c : ascii).

Definition ch (s : string) : ascii := match s with String c _ => c | "" => zero end.

(** The text up to the next closing bracket. *)
Fixpoint until_bracket (s : string) : option (string * string) :=
  match s with
  | "" => None
  | String c s' =>
      if Ascii.eqb c (ch "]") then Some ("", s')
      else '(body, rest) ← until_bracket s'; Some (String c body, rest)
  end.

(** A bracket expression after its opening bracket: negated or not, its body and
    what follows it. *)
Definition bracket (s : string) : option (bool * string * string) :=
  let '(negated, s1) :=
    match s with
    | String c s' => if Ascii.eqb c (ch "!") then (true, s') else (false, s)
    | "" => (false, s)
    end in
  let '(first, s2) :=
    match s1 with
    | String c s' => if Ascii.eqb c (ch "]") then (String c "", s') else ("", s1)
    | "" => ("", s1)
    end in
  '(body, rest) ← until_bracket s2;
  Some (negated, first +:+ body, rest).

Fixpoint set_ranges (s : string) : list (ascii * ascii) :=
  match s with
  | "" => []
  | String a s' =>
      match s' with
      | String b (String c rest) =>
          if Ascii.eqb b (ch "-") then (a, c) :: set_ranges rest else (a, a) :: set_ranges s'
      | _ => (a, a) :: set_ranges s'
      end
  end.

(** [fnmatch.translate]: the pattern as a list of tokens. *)
Fixpoint translate (fuel : nat) (s : string) : list glob :=
  match fuel with
  | O => []
  | S fuel' =>
      match s with
      | "" => []
      | String c s' =>
          if Ascii.eqb c (ch "*") then GStar :: translate fuel' s'
          else if Ascii.eqb c (ch "?") then GAny :: translate fuel' s'
          else if Ascii.eqb c (ch "[") then
            match bracket s' with
            | Some (negated, body, rest) => GSet negated (set_ranges body) :: translate fuel' rest
            | None => GChar c :: translate fuel' s'
            end
          else GChar c :: translate fuel' s'
      end
  end.

Definition in_range (a : ascii) (r : ascii * ascii) : bool :=
  ((nat_of_ascii r.1 <=? nat_of_ascii a) && (nat_of_ascii a <=? nat_of_ascii r.2))%nat.

Definition glob_char (t : glob) (a : ascii) : bool :=
  match t with
  | GStar => false
  | GAny => true
  | GSet negated ranges => xorb negated (existsb (in_range a) ranges)
  | GChar c => Ascii.eqb c a
  end.

Fixpoint glob_match (ts : list glob) (s : string) {struct ts} : bool :=
  match ts with
  | [] => String.eqb s ""
  | GStar :: ts' =>
      (fix star (s : string) : bool :=
         glob_match ts' s || match s with "" => false | String _ s' => star s' end) s
  | t :: ts' =>
      match s with "" => false | String a s' => glob_char t a && glob_match ts' s' end
  end.

Definition fnmatchcase (name pat : string) : bool :=
  glob_match (translate (String.length pat) pat) name.

(** ** Path patterns *)

Fixpoint _path_matches (pattern path : list string) {struct pattern} : bool :=
  match pattern with
  | [] => bool_decide (path = [])
  | p :: pattern' =>
      if String.eqb p "**" then
        (fix go (path : list string) : bool :=
           _path_matches pattern' path || match path with [] => false | _ :: path' => go path' end) path
      else
        match path with
        | [] => false
        | x :: path' => fnmatchcase x p && _path_matches pattern' path'
        end
  end.

Definition excluded (excluded_paths : list (list string)) (path : list string) : bool :=
  existsb (fun pattern => _path_matches pattern path) excluded_paths.

(** [excluded_path.split(".")]. *)
Fixpoint split_dots (s : string) : list string :=
  match s with
  | "" => [""]
  | String c s' =>
      if Ascii.eqb c (ch ".") then "" :: split_dots s'
      else match split_dots s' with
           | x :: xs => String c x :: xs
           | [] => [String c ""]
           end
  end.

Section projection.
  Context (excluded_paths : list (list string)).

Fixpoint _drop_excluded_paths (value : PyVal) (path : list string) {struct value} : res PyVal :=
  match value with
  | VDict d =>
      projected ← (fix go (d : list (PyVal * PyVal)) : res (list (PyVal * PyVal)) :=
         match d with
         | [] => Ok []
         | (key, child) :: d' =>
             match key with
             | VStr k =>
                 if excluded excluded_paths (path ++ [k]) then go d'
                 else
                   c ← _drop_excluded_paths child (path ++ [k]);
                   rest ← go d';
                   Ok ((key, c) :: rest)
             | _ => Raise TypeError
             end
         end) d;
      Ok (VDict projected)
  | VList l =>
      projected ← (fix go (index : nat) (l : list PyVal) : res (list PyVal) :=
         match l with
         | [] => Ok []
         | child :: l' =>
             if excluded excluded_paths (path ++ [str_of_nat index]) then go (S index) l'
             else
               c ← _drop_excluded_paths child (path ++ [str_of_nat index]);
               rest ← go (S index) l';
               Ok (c :: rest)
         end) O l;
      Ok (VList projected)
  | _ => Ok value
  end.

(** The loop over the items of a mapping. *)
Fixpoint drop_items (path : list string) (d : list (PyVal * PyVal)) : res (list (PyVal * PyVal)) :=
  match d with
  | [] => Ok []
  | (key, child) :: d' =>
      match key with
      | VStr k =>
          if excluded excluded_paths (path ++ [k]) then drop_items path d'
          else
            c ← _drop_excluded_paths child (path ++ [k]);
            rest ← drop_items path d';
            Ok ((key, c) :: rest)
      | _ => Raise TypeError
      end
  end.

Lemma drop_dict d path :
  _drop_excluded_paths (VDict d) path = (p ← drop_items path d; Ok (VDict p)).
Proof.
  cbn [_drop_excluded_paths]. f_equal. induction d as [|[key child] d IH]; [done|].
  cbn [drop_items]. destruct key; try done. by rewrite IH.
Qed.

End projection.

(** ** The denylist and the identity *)

Definition _BOOTSTRAP_FINGERPRINT_EXCLUDED_PATHS : list string :=
  ["async_rl.diagnostics"; "async_rl.generation_fleet_health"; "async_rl.generation_router";
   "async_rl.stall_watchdog"; "checkpointing"; "cluster"; "data.num_workers"; "data.validation";
   "logger"; "policy.generation.colocated"; "policy.generation.port_range_high";
   "policy.generation.port_range_low"; "policy.generation.val_temperature";
   "policy.generation.val_top_k"; "policy.generation.val_top_p";
   "policy.generation.vllm_cfg.env_vars"; "policy.generation.vllm_cfg.http_refit_api_key_env_var";
   "policy.generation.vllm_cfg.http_refit_server_port";
   "policy.generation.vllm_cfg.zmq_refit_server_port"; "policy.optimizer"; "policy.scheduler";
   "rollout_checkpointing"; "rollout_recovery.gym_prepare_timeout_s"; "token_capture.capture_dir";
   "token_capture.control_auth_token"; "token_capture.control_timeout_s";
   "token_capture.num_reassembler_workers"; "**.api_key"; "**.apikey"; "**.password"; "**.secret";
   "**.token"; "**.*_api_key"; "**.*_password"; "**.*_secret"; "**.*_token"; "env.**._copy";
   "env.**._inherit_from"; "env.**.allow_openai_version_skew"; "env.**.api_server_count";
   "env.**.apptainer_memory_limit_mb"; "env.**.cache_dir"; "env.**.component_name";
   "env.**.concurrency"; "env.**.config_paths"; "env.**.debug"; "env.**.default_host";
   "env.**.disallowed_ports"; "env.**.dry_run"; "env.**.entrypoint";
   "env.**.global_aiohttp_connector_limit"; "env.**.global_aiohttp_connector_limit_per_host";
   "env.**.head_server"; "env.**.head_server_deps"; "env.**.json"; "env.**.model_call_capture_dir";
   "env.**.model_endpoint_readiness_timeout_seconds"; "env.**.nemo_gym_log_dir";
   "env.**.num_gpu_nodes"; "env.**.num_processes"; "env.**.num_workers";
   "env.**.observability_enabled"; "env.**.pip_install_verbose"; "env.**.policy_base_url";
   "env.**.port_range_high"; "env.**.port_range_low"; "env.**.python_version"; "env.**.query";
   "env.**.ray_head_node_address"; "env.**.ray_worker_py_executable"; "env.**.results_dir";
   "env.**.should_log_nemo_gym_responses"; "env.**.skip_venv_if_present";
   "env.**.token_id_capture"; "env.**.use_absolute_ip"; "env.**.uv_cache_dir";
   "env.**.uv_pip_set_python"; "env.**.uv_venv_dir"; "env.**.verbose";
   "env.nemo_gym.genrm_model.responses_api_models.genrm_model.base_url";
   "env.nemo_gym.nl2bash_judge_model.responses_api_models.local_vllm_model.base_url"].

(** [sorted(set(a) | set(b))]. *)
Definition sorted_union (a b : list string) : list string := py_sort string_ltb (fromkeys [] (a ++ b)).

Record BootstrapCompatibilityIdentity := Identity {
  identity_schema_version : Z;
  excluded_paths : list string;
  config : PyVal }.

Definition BOOTSTRAP_COMPATIBILITY_SCHEMA_VERSION : Z := 7.

Definition as_str (v : PyVal) : res string := match v with VStr s => Ok s | _ => Raise TypeError end.

(** [bootstrap_compatibility_identity], on the dumped configuration. *)
Definition bootstrap_compatibility_identity (dumped : list (PyVal * PyVal))
  : res BootstrapCompatibilityIdentity :=
  rollout_checkpointing ←
    match dict_get "rollout_checkpointing" dumped with
    | None => Ok []
    | Some (VDict d) => Ok d
    | Some _ => Raise TypeError
    end;
  extra ←
    match dict_get "extra_fingerprint_excluded_paths" rollout_checkpointing with
    | None => Ok []
    | Some (VList l) => traverse as_str l
    | Some _ => Raise TypeError
    end;
  let excl := sorted_union _BOOTSTRAP_FINGERPRINT_EXCLUDED_PATHS extra in
  projected ← _drop_excluded_paths (List.map split_dots excl) (VDict dumped) [];
  Ok (Identity BOOTSTRAP_COMPATIBILITY_SCHEMA_VERSION excl projected).

Definition identity_to_dict (i : BootstrapCompatibilityIdentity) : PyVal :=
  str_dict [("schema_version", VInt (identity_schema_version i));
            ("excluded_paths", VList (List.map VStr (excluded_paths i)));
            ("config", config i)].

(** ** What the patterns mean *)

(** The strings a list of tokens describes. *)
Inductive glob_spec : list glob -> string -> Prop :=
| glob_nil : glob_spec [] ""
| glob_star ts s1 s2 : glob_spec ts s2 -> glob_spec (GStar :: ts) (s1 +:+ s2)
| glob_one t ts a s : glob_char t a = true -> glob_spec ts s ->
                      glob_spec (t :: ts) (String a s).

(** The paths a pattern describes: [**] stands for any number of segments,
    another segment for the names its tokens describe. *)
Inductive path_spec : list string -> list string -> Prop :=
| path_nil : path_spec [] []
| path_any pattern l path : path_spec pattern path -> path_spec ("**" :: pattern) (l ++ path)
| path_one p pattern x path :
    p <> "**" -> glob_spec (translate (String.length p) p) x -> path_spec pattern path ->
    path_spec (p :: pattern) (x :: path).

Lemma glob_match_cons t ts s :
  t = GStar \/ t <> GStar /\
  glob_match (t :: ts) s
  = match s with "" => false | String a s' => glob_char t a && glob_match ts s' end.
Proof. destruct t; [by left|right..]; done. Qed.

Lemma glob_match_spec ts s : glob_match ts s = true <-> glob_spec ts s.
Proof.
  revert s. induction ts as [|t ts IH]; intros s.
  { cbn. rewrite String.eqb_eq. split; [intros ->; constructor|]. by inversion 1. }
  destruct (glob_match_cons t ts s) as [->|[Hc E]].
  - cbn [glob_match]. split.
    + induction s as [|a s IHs].
      * rewrite orb_false_r. intros H%IH. by apply (glob_star ts "" "").
      * intros [H%IH|H]%orb_true_iff; [by apply (glob_star ts "" (String a s))|].
        apply IHs in H. inversion H as [|ts' s1 s2 H2|]; subst; [|done]. by apply (glob_star ts (String a s1) s2).
    + inversion 1 as [|ts' s1 s2 H2|]; subst; [|done].
      clear H. induction s1 as [|a s1 IHs].
      * change ("" +:+ s2) with s2. apply IH in H2. by destruct s2; rewrite H2.
      * rewrite string_app_cons. apply orb_true_iff. right. exact IHs.
  - rewrite E. destruct s as [|a s]; split; try done.
    + by inversion 1; subst.
    + intros [H1 H2%IH]%andb_true_iff. by constructor.
    + inversion 1; subst; [done|]. apply andb_true_iff. split; [done|]. by apply IH.
Qed.

Lemma path_matches_spec pattern path : _path_matches pattern path = true <-> path_spec pattern path.
Proof.
  revert path. induction pattern as [|p pattern IH]; intros path.
  { cbn. rewrite bool_decide_eq_true. split; [intros ->; constructor|]. by inversion 1. }
  cbn [_path_matches]. destruct (String.eqb_spec p "**") as [->|Hp].
  - split.
    + induction path as [|x path IHp].
      * rewrite orb_false_r. intros H%IH. by apply (path_any pattern []).
      * intros [H%IH|H]%orb_true_iff; [by apply (path_any pattern [])|].
        apply IHp in H. inversion H as [|? l ? H2|]; subst; [|done]. by apply (path_any pattern (x :: l)).
    + inversion 1 as [|? l path' H2|]; subst; [|done]. clear H. induction l as [|x l IHl].
      * cbn [app]. apply IH in H2. by destruct path'; rewrite H2.
      * cbn [app]. apply orb_true_iff. right. exact IHl.
  - destruct path as [|x path]; split; try done.
    + inversion 1; subst; done.
    + intros [H1 H2%IH]%andb_true_iff. constructor; [done| |done]. by apply glob_match_spec.
    + inversion 1; subst; [done|]. apply andb_true_iff. split; [by apply glob_match_spec|]. by apply IH.
Qed.

(** ** What the projection keeps *)

(** The value at a path of mapping keys. *)
Fixpoint get_path (v : PyVal) (p : list string) : option PyVal :=
  match p with
  | [] => Some v
  | k :: p' => match v with VDict d => dict_get k d ≫= fun u => get_path u p' | _ => None end
  end.

(** Some step of the way to [p], from [path] on, is denylisted. *)
Fixpoint cut_off (excl : list (list string)) (path p : list string) : bool :=
  match p with
  | [] => false
  | k :: p' => excluded excl (path ++ [k]) || cut_off excl (path ++ [k]) p'
  end.

Lemma dict_get_str k k' v d :
  dict_get k ((VStr k', v) :: d) = if String.eqb k' k then Some v else dict_get k d.
Proof. rewrite dict_get_cons. destruct (String.eqb_spec k' k), (decide (k' = k)); done. Qed.

Lemma drop_items_get excl path d d' k :
  drop_items excl path d = Ok d' ->
  if excluded excl (path ++ [k]) then dict_get k d' = None
  else match dict_get k d with
       | Some u => exists u', _drop_excluded_paths excl u (path ++ [k]) = Ok u' /\ dict_get k d' = Some u'
       | None => dict_get k d' = None
       end.
Proof.
  revert d'. induction d as [|[key child] d IH]; intros d' H; cbn [drop_items] in H.
  { inv_res. by destruct (excluded _ _). }
  destruct key as [| | | |k'| | | | |]; try done.
  rewrite dict_get_str. destruct (excluded excl (path ++ [k'])) eqn:Ek'.
  - specialize (IH d' H). destruct (String.eqb_spec k' k) as [->|Hne]; [|done]. rewrite Ek' in IH |- *. done.
  - inv_res. rewrite dict_get_str. destruct (String.eqb_spec k' k) as [->|Hne]; [|by apply IH].
    rewrite Ek'. eauto.
Qed.

Lemma projection_get excl v w path p :
  _drop_excluded_paths excl v path = Ok w ->
  if cut_off excl path p then get_path w p = None
  else match get_path v p with
       | Some u => exists u', _drop_excluded_paths excl u (path ++ p) = Ok u' /\ get_path w p = Some u'
       | None => get_path w p = None
       end.
Proof.
  revert v w path. induction p as [|k p IH]; intros v w path H; cbn [cut_off get_path].
  { rewrite app_nil_r. eauto. }
  destruct v as [| | | | | |l|l|d|]; try (cbn in H; inv_res; by destruct (_ || _)).
  rewrite drop_dict in H. inv_res. pose proof (drop_items_get excl path d _ k H) as Hk.
  destruct (excluded excl (path ++ [k])) eqn:Ek; cbn [orb].
  { cbn. by rewrite Hk. }
  destruct (dict_get k d) as [u|]; cbn.
  - destruct Hk as (u' & Hu & ->). cbn. specialize (IH u u' (path ++ [k])%list Hu).
    rewrite <- app_assoc in IH. exact IH.
  - rewrite Hk. cbn. by destruct (cut_off _ _ _).
Qed.

(** ** Differences between two manifests

    [None] is [_MISSING].  A difference is its display name with both values;
    their rendering by [repr] is not modelled. *)

Definition difference : Type := string * option PyVal * option PyVal.

Definition opt_eq (a b : option PyVal) : bool :=
  match a, b with
  | Some x, Some y => py_eq x y
  | None, None => true
  | _, _ => false
  end.

Definition display_name (path : list string) : string :=
  let display_path :=
    if bool_decide (take 2 path = ["bootstrap_identity"; "config"]) then drop 2 path
    else if bool_decide (take 1 path = ["bootstrap_identity"]) then drop 1 path
    else path in
  let name := String.concat "." display_path in
  if String.eqb name "" then "bootstrap_identity" else name.

(** The keys of a mapping, which [sorted] needs to be strings. *)
Definition str_keys (d : list (PyVal * PyVal)) : res (list string) := traverse as_str d.*1.

Fixpoint _compatibility_differences (fuel : nat) (checkpoint expected : option PyVal)
    (path : list string) : res (list difference) :=
  match fuel with
  | O => Raise OutOfFuel
  | S fuel' =>
      match checkpoint, expected with
      | Some (VDict d), Some (VDict e) =>
          kd ← str_keys d;
          ke ← str_keys e;
          differences ←
            traverse (fun key =>
              if String.eqb key "bootstrap_fingerprint" && bool_decide (path = []) then Ok []
              else _compatibility_differences fuel' (dict_get key d) (dict_get key e) (path ++ [key]))
              (sorted_union kd ke);
          Ok (List.concat differences)
      | _, _ =>
          if opt_eq checkpoint expected then Ok []
          else Ok [(display_name path, checkpoint, expected)]
      end
  end.

(** How deep the mappings of a value are nested: the fuel that is enough. *)
Fixpoint depth (v : PyVal) : nat :=
  match v with
  | VDict d => S ((fix go (d : list (PyVal * PyVal)) : nat :=
                     match d with [] => O | (_, u) :: d' => Nat.max (depth u) (go d') end) d)
  | _ => O
  end.

(** Mappings have distinct string keys, as those read from JSON. *)
#[warnings="-register-all"]
Inductive keyed : PyVal -> Prop :=
| keyed_dict d : NoDup d.*1 -> Forall keyed d.*2 -> keyed (str_dict d)
| keyed_other v : (forall d, v <> VDict d) -> keyed v.

Lemma keyed_inv d : keyed (VDict d) ->
  exists d0, VDict d = str_dict d0 /\ NoDup d0.*1 /\ Forall keyed d0.*2.
Proof. inversion 1 as [d0 H1 H2 E|? H1]; [eauto|by destruct (H1 d)]. Qed.

Lemma str_dict_get d k : dict_get k (List.map (fun '(k, v) => (VStr k, v)) d) = (list_to_map d : gmap string PyVal) !! k.
Proof.
  induction d as [|[k' v] d IH]; [done|]. cbn [List.map]. rewrite dict_get_cons. cbn.
  destruct (decide (k' = k)) as [->|Hne]; [by rewrite lookup_insert_eq|].
  by rewrite lookup_insert_ne.
Qed.

Lemma str_keys_str_dict d : str_keys (List.map (fun '(k, v) => (VStr k, v)) d) = Ok d.*1.
Proof.
  unfold str_keys. induction d as [|[k v] d IH]; [done|]. cbn in IH |- *. by rewrite IH.
Qed.

Lemma depth_str_dict d k v :
  NoDup d.*1 -> (list_to_map d : gmap string PyVal) !! k = Some v -> (depth v < depth (str_dict d))%nat.
Proof.
  intros Hnd Hk%elem_of_list_to_map; [|done]. unfold str_dict. cbn. clear Hnd.
  induction d as [|[k' v'] d IH]; [by apply not_elem_of_nil in Hk|]. cbn.
  apply elem_of_cons in Hk as [[= -> ->]|Hk]; [lia|]. specialize (IH Hk). lia.
Qed.

Lemma sort_union_elem a b k : k ∈ sorted_union a b <-> k ∈ a \/ k ∈ b.
Proof.
  unfold sorted_union. rewrite py_sort_perm. 
  assert (forall seen xs, k ∈ fromkeys seen xs <-> k ∈ xs /\ k ∉ seen) as H.
  { intros seen xs. revert seen. induction xs as [|x xs IH]; intros seen; cbn [fromkeys]; [set_solver|].
    destruct (decide (x ∈ seen)); [rewrite IH; set_solver|]. rewrite elem_of_cons, IH.
    destruct (decide (k = x)); set_solver. }
  rewrite H, elem_of_app, elem_of_nil. tauto.
Qed.

(** Mappings are equal exactly when they agree at every key. *)
Lemma py_eq_dicts d e :
  NoDup d.*1 -> NoDup e.*1 ->
  py_eq (str_dict d) (str_dict e) = true <->
  forall k, opt_eq ((list_to_map d : gmap string PyVal) !! k) ((list_to_map e : gmap string PyVal) !! k) = true.
Proof.
  intros Hd He. unfold str_dict. cbn [py_eq]. rewrite !length_map.
  assert (forall d' : list (string * PyVal),
    (fix go (d : list (PyVal * PyVal)) : bool :=
       match d with
       | [] => true
       | (k, v) :: d' =>
           existsb (fun kv => py_eq k kv.1 && py_eq v kv.2) (List.map (fun '(k, v) => (VStr k, v)) e) && go d'
       end) (List.map (fun '(k, v) => (VStr k, v)) d') = true <->
    forall k v, (k, v) ∈ d' -> exists w, (k, w) ∈ e /\ py_eq v w = true) as Hgo.
  { induction d' as [|[k v] d' IH]; cbn.
    - split; [|done]. by intros _ k v ?%not_elem_of_nil.
    - rewrite andb_true_iff, IH, existsb_exists. split.
      + intros [([? w] & [[k' w'] [[= <- <-] Hin]]%in_map_iff & [Hk Hv]%andb_true_iff) Hrest] k0 v0 H0.
        apply elem_of_cons in H0 as [[= -> ->]|H0]; [|auto]. cbn in Hk, Hv. apply String.eqb_eq in Hk as ->.
        exists w'. by rewrite list_elem_of_In.
      + intros H. split; [|intros k0 v0 H0; apply H; by right].
        destruct (H k v) as (w & Hw & Hv); [by left|]. exists (VStr k, w). split.
        * apply in_map_iff. exists (k, w). by rewrite <- list_elem_of_In.
        * cbn. by rewrite String.eqb_refl. }
  rewrite andb_true_iff, Nat.eqb_eq, Hgo. split.
  - intros [Hlen Hin] k.
    assert (d.*1 ≡ₚ e.*1) as Hperm.
    { apply submseteq_length_Permutation; [|by rewrite !length_fmap, Hlen].
      apply NoDup_submseteq; [done|]. intros k' ([k0 v] & -> & Hv)%list_elem_of_fmap.
      destruct (Hin _ _ Hv) as (w & Hw & _). apply list_elem_of_fmap. by exists (k0, w). }
    destruct (list_to_map d !! k) as [v|] eqn:Ed.
    + apply elem_of_list_to_map in Ed; [|done]. destruct (Hin _ _ Ed) as (w & Hw & Hv).
      apply elem_of_list_to_map in Hw as ->; done.
    + apply not_elem_of_list_to_map in Ed. rewrite Hperm in Ed.
      by apply not_elem_of_list_to_map in Ed as ->.
  - intros H.
    assert (forall k, k ∈ d.*1 <-> k ∈ e.*1) as Hk.
    { intros k. specialize (H k). destruct (list_to_map d !! k) as [v|] eqn:Ed, (list_to_map e !! k) as [w|] eqn:Ee; try done.
      - apply elem_of_list_to_map in Ed, Ee; [|done..].
        split; intros _; apply list_elem_of_fmap; [by exists (k, w)|by exists (k, v)].
      - apply not_elem_of_list_to_map in Ed, Ee. tauto. }
    split.
    + rewrite <- !(length_fmap fst). by apply Permutation_length, NoDup_Permutation.
    + intros k v Hv. specialize (H k). apply elem_of_list_to_map in Hv as Hd'; [|done]. rewrite Hd' in H.
      destruct (list_to_map e !! k) as [w|] eqn:Ee; [|done]. exists w. split; [|done].
      by apply elem_of_list_to_map.
Qed.

(** ** The differences reported *)

(** [a] and [b] agree, but for the key left out at the top. *)
Definition agree (path : list string) (a b : option PyVal) : Prop :=
  match a, b with
  | Some (VDict d), Some (VDict e) =>
      if bool_decide (path = [])
      then forall k, k <> "bootstrap_fingerprint" -> opt_eq (dict_get k d) (dict_get k e) = true
      else py_eq (VDict d) (VDict e) = true
  | _, _ => opt_eq a b = true
  end.

Lemma agree_inner path a b : path <> [] -> agree path a b <-> opt_eq a b = true.
Proof.
  intros Hp. unfold agree. rewrite bool_decide_eq_false_2 by done.
  by destruct a as [[]|], b as [[]|].
Qed.

Lemma traverse_total {A B} (f : A -> res (list B)) (P : A -> Prop) l :
  (forall x, x ∈ l -> exists y, f x = Ok y /\ (y = [] <-> P x)) ->
  exists ys, traverse f l = Ok ys /\ (List.concat ys = [] <-> forall x, x ∈ l -> P x).
Proof.
  induction l as [|x l IH]; intros H; cbn.
  - exists []. split; [done|]. split; [|done]. by intros _ x ?%not_elem_of_nil.
  - destruct (H x) as (y & -> & Hy); [left|]. destruct IH as (ys & -> & Hys).
    { intros z Hz. apply H. by right. }
    cbn. eexists. split; [done|]. cbn. split.
    + intros [H1 H2]%app_nil z [->|Hz]%elem_of_cons; [by apply Hy|by apply Hys].
    + intros Hall. rewrite (proj2 Hy), (proj2 Hys); [done| |apply Hall; left].
      intros z Hz. apply Hall. by right.
Qed.

Definition opt_keyed (o : option PyVal) : Prop := match o with Some v => keyed v | None => True end.
Definition opt_depth (o : option PyVal) : nat := match o with Some v => depth v | None => O end.

Lemma keyed_get d k :
  NoDup d.*1 -> Forall keyed d.*2 -> opt_keyed ((list_to_map d : gmap string PyVal) !! k).
Proof.
  intros Hnd Hk. destruct (list_to_map d !! k) as [v|] eqn:E; [|done]. cbn.
  apply elem_of_list_to_map in E; [|done]. rewrite Forall_forall in Hk. apply Hk.
  apply list_elem_of_fmap. by exists (k, v).
Qed.

Lemma differences_spec fuel a b path :
  opt_keyed a -> opt_keyed b -> (opt_depth a < fuel)%nat ->
  exists l, _compatibility_differences fuel a b path = Ok l /\ (l = [] <-> agree path a b).
Proof.
  revert a b path. induction fuel as [|fuel IH]; intros a b path Ha Hb Hf; [lia|].
  assert (exists l, (if opt_eq a b then Ok [] else Ok [(display_name path, a, b)]) = Ok l
                    /\ (l = [] <-> opt_eq a b = true)) as Hleaf by (destruct (opt_eq a b); eexists; done).
  cbn [_compatibility_differences].
  destruct a as [[| | | | | | | |da|]|], b as [[| | | | | | | |db|]|]; try exact Hleaf.
  cbn in Ha, Hb. apply keyed_inv in Ha as (d & [= ->] & Hd & Hkd), Hb as (e & [= ->] & He & Hke).
  rewrite !str_keys_str_dict. cbn [mbind res_bind].
  set (dv := List.map (fun '(k, v) => (VStr k, v)) d). set (ev := List.map (fun '(k, v) => (VStr k, v)) e).
  assert (forall key, exists l,
    _compatibility_differences fuel (dict_get key dv) (dict_get key ev) (path ++ [key])%list = Ok l
    /\ (l = [] <-> opt_eq (dict_get key dv) (dict_get key ev) = true)) as Hrec.
  { intros key. destruct (IH (dict_get key dv) (dict_get key ev) (path ++ [key])%list) as (l & Hl & Heq).
    - unfold dv. rewrite str_dict_get. by apply keyed_get.
    - unfold ev. rewrite str_dict_get. by apply keyed_get.
    - unfold dv. rewrite str_dict_get. cbn [opt_depth] in Hf.
      destruct (list_to_map d !! key) as [v|] eqn:E; [|cbn in Hf |- *; lia].
      apply depth_str_dict in E; [|done]. change (depth (str_dict d) < S fuel)%nat in Hf. cbn [opt_depth]. lia.
    - exists l. split; [done|]. rewrite Heq. apply agree_inner. by destruct path. }
  edestruct (traverse_total (fun key =>
     if String.eqb key "bootstrap_fingerprint" && bool_decide (path = []) then Ok []
     else _compatibility_differences fuel (dict_get key dv) (dict_get key ev) (path ++ [key])%list)
     (fun key => (key = "bootstrap_fingerprint" /\ path = []) \/
                 opt_eq (dict_get key dv) (dict_get key ev) = true)
     (sorted_union d.*1 e.*1)) as (ys & -> & Hys).
  { intros key _. destruct (Hrec key) as (l & Hl & Heq).
    destruct (String.eqb_spec key "bootstrap_fingerprint") as [->|Hkey],
      (bool_decide_reflect (path = [])) as [Hp|Hp]; cbn [andb]; [exists []; tauto|..];
      exists l; rewrite Heq; tauto. }
  eexists. split; [done|]. rewrite Hys. cbn [agree]. clear Hys ys Hrec IH Hleaf.
  assert (forall key, key ∉ sorted_union d.*1 e.*1 -> opt_eq (dict_get key dv) (dict_get key ev) = true) as Hout.
  { intros key Hkey. rewrite sort_union_elem in Hkey. unfold dv, ev. rewrite !str_dict_get.
    by rewrite !(proj1 (not_elem_of_list_to_map _ _)) by tauto. }
  assert (forall P : string -> Prop, (forall key, key ∉ sorted_union d.*1 e.*1 -> P key) ->
    (forall key, key ∈ sorted_union d.*1 e.*1 -> P key) <-> forall key, P key) as Hall.
  { intros P HP. split; [|auto]. intros H key. destruct (decide (key ∈ sorted_union d.*1 e.*1)); auto. }
  rewrite Hall by auto. clear Hall Hout. case_bool_decide as Hp.
  - split; intros H key; [intros Hne; by destruct (H key) as [[]|]|].
    destruct (decide (key = "bootstrap_fingerprint")); [by left|right; auto].
  - etransitivity; [|symmetry; exact (py_eq_dicts d e Hd He)]. unfold dv, ev.
    split; intros H key; specialize (H key); rewrite ?str_dict_get in *; tauto.
Qed.

(** ** The bootstrap anchor

    The directory [bootstrap/] of the checkpoint directory.  A written manifest
    reads back as the value it was written from. *)

Definition BOOTSTRAP_DIRNAME : string := "bootstrap".
Definition BOOTSTRAP_MANIFEST_FILENAME : string := "manifest.json".

(** The content of [manifest_path], when it is a file. *)
Definition anchor_manifest (root : option dirmap) : option content :=
  d ← root;
  match d !! BOOTSTRAP_DIRNAME with
  | Some (NDir files) => files !! BOOTSTRAP_MANIFEST_FILENAME
  | _ => None
  end.

(** [os.replace] of one file of a directory by another. *)
Definition replace_file (name src dst : string) : FS unit :=
  d ← entries;
  match d !! name with
  | Some (NDir files) =>
      match files !! src with
      | Some c => put (Some (<[name := NDir (<[dst := c]> (delete src files))]> d))
      | None => lift (Raise FileNotFoundError)
      end
  | _ => lift (Raise FileNotFoundError)
  end.

(** [anchor.mkdir(parents=True, exist_ok=True)]. *)
Definition mkdir_anchor : FS unit :=
  _ ← mkdir_root;
  d ← entries;
  match d !! BOOTSTRAP_DIRNAME with
  | Some (NDir _) => mret tt
  | _ => mkdir BOOTSTRAP_DIRNAME
  end.

Section anchor.
  Context (digest : PyVal -> string).

Definition fingerprint (i : BootstrapCompatibilityIdentity) : string := digest (identity_to_dict i).

Definition _bootstrap_anchor_manifest (i : BootstrapCompatibilityIdentity) : PyVal :=
  str_dict [("schema_version", VInt 3);
            ("base_train_step", VInt 0);
            ("trainer_version", VInt 0);
            ("bootstrap_fingerprint", VStr (fingerprint i));
            ("bootstrap_identity", identity_to_dict i)].

Definition validate_bootstrap_anchor (i : BootstrapCompatibilityIdentity) (root : option dirmap) : res unit :=
  match anchor_manifest root with
  | None => Raise FileNotFoundError
  | Some text =>
      raw ← text;
      match raw with
      | VDict _ =>
          let expected := _bootstrap_anchor_manifest i in
          if py_eq raw expected then Ok tt
          else
            _ ← _compatibility_differences (S (depth raw)) (Some raw) (Some expected) [];
            Raise ValueError
      | _ => Raise ValueError
      end
  end.

Definition ensure_bootstrap_anchor (i : BootstrapCompatibilityIdentity) : FS unit :=
  _ ← mkdir_anchor;
  s ← get;
  match anchor_manifest (d_now s) with
  | Some _ => lift (validate_bootstrap_anchor i (d_now s))
  | None =>
      _ ← write_file BOOTSTRAP_DIRNAME "manifest.json.tmp" (Ok (_bootstrap_anchor_manifest i));
      replace_file BOOTSTRAP_DIRNAME "manifest.json.tmp" BOOTSTRAP_MANIFEST_FILENAME
  end.

Lemma validate_same i root :
  anchor_manifest root = Some (Ok (_bootstrap_anchor_manifest i)) ->
  py_eq (_bootstrap_anchor_manifest i) (_bootstrap_anchor_manifest i) = true ->
  validate_bootstrap_anchor i root = Ok tt.
Proof. intros H Hr. unfold validate_bootstrap_anchor. rewrite H. cbn [mbind res_bind]. by rewrite Hr. Qed.

Lemma se_step {S A B} (m : SE S A) (k : A -> SE S B) s p :
  m s = p -> (m ≫= k) s = match p with (s', Ok a) => k a s' | (s', Raise e) => (s', Raise e) end.
Proof. by intros <-. Qed.

Lemma mkdir_anchor_existing d files past :
  d !! BOOTSTRAP_DIRNAME = Some (NDir files) ->
  mkdir_anchor (Disk (Some d) past) = (Disk (Some d) past, Ok tt).
Proof.
  intros Hd. unfold mkdir_anchor. rewrite (se_step mkdir_root _ (Disk (Some d) past) (Disk (Some d) past, Ok tt) eq_refl).
  rewrite (se_step entries _ (Disk (Some d) past) (Disk (Some d) past, Ok d) eq_refl). by rewrite Hd.
Qed.

Lemma write_file_eq n f c d files past :
  d !! n = Some (NDir files) ->
  write_file n f c (Disk (Some d) past)
  = (Disk (Some (<[n := NDir (<[f := c]> files)]> d))
       (Some (<[n := NDir (<[f := Raise ValueError]> files)]> d) :: Some d :: past), Ok tt).
Proof.
  intros Hd. unfold write_file. rewrite (se_step entries _ (Disk (Some d) past) (Disk (Some d) past, Ok d) eq_refl).
  by rewrite Hd.
Qed.

Lemma replace_file_eq n src dst d files c past :
  d !! n = Some (NDir files) -> files !! src = Some c ->
  replace_file n src dst (Disk (Some d) past)
  = (Disk (Some (<[n := NDir (<[dst := c]> (delete src files))]> d)) (Some d :: past), Ok tt).
Proof.
  intros Hd Hf. unfold replace_file. rewrite (se_step entries _ (Disk (Some d) past) (Disk (Some d) past, Ok d) eq_refl).
  by rewrite Hd, Hf.
Qed.

(** An existing manifest is validated and nothing is written. *)
Lemma ensure_existing i s c :
  anchor_manifest (d_now s) = Some c ->
  ensure_bootstrap_anchor i s = (s, validate_bootstrap_anchor i (d_now s)).
Proof.
  intros H. unfold ensure_bootstrap_anchor, mkdir_anchor, mkdir_root, entries, get, mret, se_ret, mbind, se_bind.
  destruct s as [[d|] past]; [|done]. cbn in H |- *.
  destruct (d !! BOOTSTRAP_DIRNAME) as [[|fs]|] eqn:E; try done. cbn. rewrite E, H. done.
Qed.

(** The directory once the anchor exists. *)
Definition anchored (d : dirmap) (files : gmap string content) : dirmap :=
  <[BOOTSTRAP_DIRNAME := NDir files]> d.

Lemma anchored_manifest d files : anchor_manifest (Some (anchored d files)) = files !! BOOTSTRAP_MANIFEST_FILENAME.
Proof. unfold anchor_manifest, anchored. cbn. by rewrite lookup_insert_eq. Qed.

(** Writing the manifest of an anchor that has none. *)
Lemma ensure_writes i s d files past :
  mkdir_anchor s = (Disk (Some d) past, Ok tt) ->
  files !! BOOTSTRAP_MANIFEST_FILENAME = None -> d !! BOOTSTRAP_DIRNAME = Some (NDir files) ->
  exists f1 f2 f3,
    ensure_bootstrap_anchor i s
    = (Disk (Some (anchored d f3)) (Some (anchored d f2) :: Some (anchored d f1) :: Some d :: past), Ok tt) /\
    f1 !! BOOTSTRAP_MANIFEST_FILENAME = None /\ f2 !! BOOTSTRAP_MANIFEST_FILENAME = None /\
    f3 !! BOOTSTRAP_MANIFEST_FILENAME = Some (Ok (_bootstrap_anchor_manifest i)).
Proof.
  intros Hmk Hm Hd. set (tmp := "manifest.json.tmp").
  exists (<[tmp := Raise ValueError]> files), (<[tmp := Ok (_bootstrap_anchor_manifest i)]> files),
    (<[BOOTSTRAP_MANIFEST_FILENAME := Ok (_bootstrap_anchor_manifest i)]>
       (delete tmp (<[tmp := Ok (_bootstrap_anchor_manifest i)]> files))).
  split_and!; [|by rewrite lookup_insert_ne|by rewrite lookup_insert_ne|apply lookup_insert_eq].
  unfold ensure_bootstrap_anchor. rewrite (se_step _ _ _ _ Hmk).
  rewrite (se_step _ _ _ _ (eq_refl : get (Disk (Some d) past) = (Disk (Some d) past, Ok _))).
  cbn [d_now]. assert (anchor_manifest (Some d) = None) as -> by (unfold anchor_manifest; cbn [mbind option_bind]; by rewrite Hd).
  rewrite (se_step _ _ _ _ (write_file_eq BOOTSTRAP_DIRNAME tmp _ d files past Hd)).
  rewrite (replace_file_eq _ _ _ _ _ (Ok (_bootstrap_anchor_manifest i)) _
             (lookup_insert_eq _ _ _) (lookup_insert_eq _ _ _)).
  unfold anchored. by rewrite insert_insert_eq.
Qed.

End anchor.

(** ** What anchors guarantee *)

Section guarantees.
  Context (digest : PyVal -> string).

(** Creating the anchor of a fresh run.  When it returns, the anchor validates
    for the same identity.  A crash before that leaves no manifest or the
    complete one, never part of one; without one, validating raises
    [FileNotFoundError], and creating the anchor again succeeds. *)
Theorem anchor_creation_is_atomic i d past :
  d !! BOOTSTRAP_DIRNAME = None ->
  py_eq (_bootstrap_anchor_manifest digest i) (_bootstrap_anchor_manifest digest i) = true ->
  let s' := (ensure_bootstrap_anchor digest i (Disk (Some d) past)).1 in
  (ensure_bootstrap_anchor digest i (Disk (Some d) past)).2 = Ok tt /\
  validate_bootstrap_anchor digest i (d_now s') = Ok tt /\
  exists new, d_past s' = (new ++ past)%list /\
    forall o, o ∈ new ->
      validate_bootstrap_anchor digest i o = Raise FileNotFoundError /\
      (ensure_bootstrap_anchor digest i (Disk o past)).2 = Ok tt.
Proof.
  intros Hd Hr s'.
  assert (mkdir_anchor (Disk (Some d) past) = (Disk (Some (anchored d ∅)) (Some d :: past), Ok tt)) as Hmk.
  { unfold mkdir_anchor. rewrite (se_step mkdir_root _ (Disk (Some d) past) (Disk (Some d) past, Ok tt) eq_refl).
    rewrite (se_step entries _ (Disk (Some d) past) (Disk (Some d) past, Ok d) eq_refl), Hd. unfold mkdir.
    rewrite (se_step entries _ (Disk (Some d) past) (Disk (Some d) past, Ok d) eq_refl). by rewrite Hd. }
  destruct (ensure_writes digest i _ _ ∅ _ Hmk) as (f1 & f2 & f3 & E & H1 & H2 & H3); [done|apply lookup_insert_eq|].
  unfold s'. rewrite E. cbn [fst snd d_now d_past]. split; [done|]. split.
  { apply validate_same; [|done]. by rewrite anchored_manifest. }
  exists [Some (anchored (anchored d ∅) f2); Some (anchored (anchored d ∅) f1); Some (anchored d ∅); Some d].
  split; [done|].
  assert (forall f d0, f !! BOOTSTRAP_MANIFEST_FILENAME = None ->
    validate_bootstrap_anchor digest i (Some (anchored d0 f)) = Raise FileNotFoundError /\
    (ensure_bootstrap_anchor digest i (Disk (Some (anchored d0 f)) past)).2 = Ok tt) as Hempty.
  { intros f d0 Hf. unfold validate_bootstrap_anchor. rewrite anchored_manifest, Hf. split; [done|].
    assert (anchored d0 f !! BOOTSTRAP_DIRNAME = Some (NDir f)) as Hn by apply lookup_insert_eq.
    destruct (ensure_writes digest i _ _ f _ (mkdir_anchor_existing _ f past Hn) Hf Hn)
      as (? & ? & ? & -> & _). done. }
  intros o Ho. rewrite !elem_of_cons, elem_of_nil in Ho.
  destruct Ho as [->|[->|[->|[->|[]]]]]; [by apply Hempty..|].
  split; [unfold validate_bootstrap_anchor, anchor_manifest; cbn; by rewrite Hd|]. by rewrite E.
Qed.

End guarantees.

(** *** Equal identities *)

Definition scalar (v : PyVal) : bool := match v with VDict _ | VList _ => false | _ => true end.

Lemma drop_scalar excl v path : scalar v = true -> _drop_excluded_paths excl v path = Ok v.
Proof. by destruct v. Qed.

Lemma drop_container excl v w path :
  _drop_excluded_paths excl v path = Ok w -> scalar v = scalar w.
Proof. destruct v; cbn; intros H; inv_res; done. Qed.

Lemma py_eq_scalar v w : py_eq v w = true -> scalar v = true -> scalar w = true.
Proof. by destruct v, w. Qed.

(** Projection keeps mappings well keyed. *)
Lemma drop_items_shape excl path d0 d' :
  drop_items excl path (List.map (fun '(k, v) => (VStr k, v)) d0) = Ok d' ->
  exists d1, d' = List.map (fun '(k, v) => (VStr k, v)) d1 /\ d1.*1 `sublist_of` d0.*1 /\
    forall k w, (k, w) ∈ d1 -> exists v, (k, v) ∈ d0 /\ _drop_excluded_paths excl v (path ++ [k]) = Ok w.
Proof.
  revert d'. induction d0 as [|[k v] d0 IH]; intros d' H; cbn in H.
  - inv_res. exists []. split_and!; [done..|]. by intros k w ?%not_elem_of_nil.
  - destruct (excluded _ _).
    + destruct (IH _ H) as (d1 & -> & Hs & Hd). exists d1. split_and!; [done|by apply sublist_cons|].
      intros k' w (v' & Hv & ?)%Hd. exists v'. split; [by right|done].
    + inv_res. destruct (IH _ H0) as (d1 & -> & Hs & Hd). exists ((k, x) :: d1).
      split_and!; [done|by apply sublist_skip|]. intros k' w [[= -> ->]|Hin]%elem_of_cons.
      * exists v. split; [by left|done].
      * destruct (Hd k' w Hin) as (v' & Hv & ?). exists v'. split; [by right|done].
Qed.

Lemma drop_keyed fuel excl v w path :
  (depth v < fuel)%nat -> keyed v -> _drop_excluded_paths excl v path = Ok w -> keyed w.
Proof.
  revert v w path. induction fuel as [|fuel IH]; intros v w path Hf Hv H; [lia|].
  inversion Hv as [d0 Hnd Hk E|? Hn E]; subst.
  - unfold str_dict in H. rewrite drop_dict in H. inv_res.
    destruct (drop_items_shape _ _ _ _ H) as (d1 & -> & Hs & Hd). apply (keyed_dict d1).
    + by eapply sublist_NoDup.
    + apply Forall_forall. intros w ([k u] & -> & Hin)%list_elem_of_fmap.
      destruct (Hd k u Hin) as (v & Hv' & Hdrop). eapply IH; [| |exact Hdrop].
      * assert ((list_to_map d0 : gmap string PyVal) !! k = Some v) as Hl by by apply elem_of_list_to_map.
        apply depth_str_dict in Hl; [lia|done].
      * rewrite Forall_forall in Hk. apply Hk, list_elem_of_fmap. by exists (k, v).
  - apply keyed_other. intros d ->. destruct v; cbn in H; inv_res; try done. by eapply Hn.
Qed.

Lemma dict_get_keyed d k u : keyed (VDict d) -> dict_get k d = Some u -> keyed u.
Proof.
  intros (d0 & [= ->] & Hnd & Hk)%keyed_inv. rewrite str_dict_get. intros Hu.
  pose proof (keyed_get d0 k Hnd Hk) as H. by rewrite Hu in H.
Qed.

(** Equal values have equal parts. *)
Lemma py_eq_path v w p :
  keyed v -> keyed w -> py_eq v w = true -> opt_eq (get_path v p) (get_path w p) = true.
Proof.
  revert v w. induction p as [|k p IH]; intros v w Hv Hw H; [exact H|]. cbn [get_path].
  destruct v as [| | | | | | | |dv|]; try by destruct w.
  destruct w as [| | | | | | | |dw|]; try done.
  assert (forall k, opt_eq (dict_get k dv) (dict_get k dw) = true) as Hall.
  { destruct (keyed_inv _ Hv) as (d & [= ->] & Hd & _), (keyed_inv _ Hw) as (e & [= ->] & He & _).
    intros k0. rewrite !str_dict_get. revert k0. by apply py_eq_dicts. }
  specialize (Hall k). destruct (dict_get k dv) as [a|] eqn:Ea, (dict_get k dw) as [b|] eqn:Eb; try done.
  cbn. apply IH; [exact (dict_get_keyed _ _ _ Hv Ea)|exact (dict_get_keyed _ _ _ Hw Eb)|exact Hall].
Qed.

Lemma py_eq_strs a b : py_eq (VList (List.map VStr a)) (VList (List.map VStr b)) = true -> a = b.
Proof.
  revert b. induction a as [|x a IH]; intros [|y b]; try done. cbn [List.map].
  intros H. cbn [py_eq] in H. apply andb_true_iff in H as [Hx%String.eqb_eq H]. subst.
  f_equal. by apply IH.
Qed.

Lemma str_field k k' v d w e :
  py_eq (str_dict d) (str_dict e) = true -> NoDup d.*1 -> NoDup e.*1 ->
  (k, v) ∈ d -> (k', w) ∈ e -> k = k' -> py_eq v w = true.
Proof.
  intros H Hd He Hv Hw <-. rewrite py_eq_dicts in H by done. specialize (H k).
  apply elem_of_list_to_map in Hv, Hw; [|done..]. by rewrite Hv, Hw in H.
Qed.

Lemma identity_parts i1 i2 :
  py_eq (identity_to_dict i1) (identity_to_dict i2) = true ->
  excluded_paths i1 = excluded_paths i2 /\ py_eq (config i1) (config i2) = true.
Proof.
  intros H. unfold identity_to_dict in H.
  split.
  - apply py_eq_strs. eapply (str_field "excluded_paths" "excluded_paths"); [exact H|..|done].
    1-2: apply (bool_decide_unpack _); vm_compute; reflexivity.
    all: right; left.
  - eapply (str_field "config" "config"); [exact H|..|done].
    1-2: apply (bool_decide_unpack _); vm_compute; reflexivity.
    all: right; right; left.
Qed.

Lemma identity_config c i :
  keyed (VDict c) -> bootstrap_compatibility_identity c = Ok i ->
  keyed (config i) /\ _drop_excluded_paths (List.map split_dots (excluded_paths i)) (VDict c) [] = Ok (config i).
Proof.
  intros Hk H. unfold bootstrap_compatibility_identity in H. inv_res. cbn [config excluded_paths].
  split; [|done]. eapply drop_keyed; [|exact Hk|done]. by apply Nat.lt_succ_diag_r.
Qed.

(** The identity of a run is fail-closed.  When two configurations have equal
    identities, the runs exclude the same paths, and every value that is not
    under one of them is present in both and equal. *)
Theorem equal_identities_agree_on_every_value_kept c1 c2 i1 i2 p u1 :
  keyed (VDict c1) -> keyed (VDict c2) ->
  bootstrap_compatibility_identity c1 = Ok i1 -> bootstrap_compatibility_identity c2 = Ok i2 ->
  py_eq (identity_to_dict i1) (identity_to_dict i2) = true ->
  cut_off (List.map split_dots (excluded_paths i1)) [] p = false ->
  get_path (VDict c1) p = Some u1 -> scalar u1 = true ->
  excluded_paths i1 = excluded_paths i2 /\
  exists u2, get_path (VDict c2) p = Some u2 /\ py_eq u1 u2 = true.
Proof.
  intros Hk1 Hk2 H1 H2 Heq Hcut Hu Hs.
  destruct (identity_config c1 i1 Hk1 H1) as [Hw1 Hd1], (identity_config c2 i2 Hk2 H2) as [Hw2 Hd2].
  apply identity_parts in Heq as [He Heq]. split; [done|].
  pose proof (py_eq_path _ _ p Hw1 Hw2 Heq) as Hp.
  pose proof (projection_get _ _ _ _ p Hd1) as Hg1. pose proof (projection_get _ _ _ _ p Hd2) as Hg2.
  rewrite <- He in Hg2. rewrite Hcut, Hu in Hg1. rewrite Hcut in Hg2.
  destruct Hg1 as (v1 & Hv1 & Hg1). rewrite drop_scalar in Hv1 by done. injection Hv1 as <-.
  rewrite Hg1 in Hp. destruct (get_path (VDict c2) p) as [u2|] eqn:Eu2.
  - destruct Hg2 as (v2 & Hv2 & Hg2). rewrite Hg2 in Hp. cbn in Hp. exists u2. split; [done|].
    assert (scalar u2 = true) as Hs2.
    { rewrite (drop_container _ _ _ _ Hv2). by eapply py_eq_scalar. }
    rewrite drop_scalar in Hv2 by done. injection Hv2 as <-. done.
  - rewrite Hg2 in Hp. done.
Qed.

(** A path is left out of the identity exactly when a pattern of the denylist
    describes it: [**] any number of segments, [*], [?] and bracket expressions
    within one segment, any other character itself. *)
Theorem excluded_exactly_when_described excl path :
  excluded excl path = true <-> exists pattern, pattern ∈ excl /\ path_spec pattern path.
Proof.
  unfold excluded. rewrite existsb_exists.
  split; intros (pattern & Hin & Hp); exists pattern; rewrite ?list_elem_of_In in *;
    (split; [done|]); by apply path_matches_spec.
Qed.

(** An anchor is accepted exactly when its manifest equals the expected one.
    Otherwise validation raises [ValueError], with a difference to report unless
    the manifests agree everywhere but at the top-level fingerprint. *)
Theorem anchor_rejection_is_explained digest i root raw :
  anchor_manifest root = Some (Ok (str_dict raw)) ->
  keyed (str_dict raw) -> keyed (_bootstrap_anchor_manifest digest i) ->
  let expected := _bootstrap_anchor_manifest digest i in
  (validate_bootstrap_anchor digest i root = Ok tt <-> py_eq (str_dict raw) expected = true) /\
  (py_eq (str_dict raw) expected = false ->
     validate_bootstrap_anchor digest i root = Raise ValueError /\
     exists l, _compatibility_differences (S (depth (str_dict raw))) (Some (str_dict raw)) (Some expected) [] = Ok l /\
       (l = [] <-> agree [] (Some (str_dict raw)) (Some expected))).
Proof.
  intros Ha Hk He expected.
  destruct (differences_spec (S (depth (str_dict raw))) (Some (str_dict raw)) (Some expected) [] Hk He)
    as (l & Hl & Hagree); [cbn [opt_depth]; lia|].
  assert (validate_bootstrap_anchor digest i root
          = if py_eq (str_dict raw) expected then Ok tt else Raise ValueError) as E.
  { unfold validate_bootstrap_anchor. rewrite Ha. cbn [mbind res_bind].
    change (str_dict raw) with (VDict (List.map (fun '(k, v) => (VStr k, v)) raw)) in Hl |- *.
    fold expected. rewrite Hl. done. }
  rewrite E. split.
  - destruct (py_eq (str_dict raw) expected); done.
  - intros ->. split; [done|]. by exists l.
Qed.

(** ** Concrete configurations *)
Module Demo.

Definition conf (lr : Z) (dir : string) : list (string * PyVal) :=
  [("policy", str_dict [("lr", VInt lr); ("scheduler", str_dict [("warmup", VInt 10)])]);
   ("logger", str_dict [("log_dir", VStr dir)])].

Definition items (c : list (string * PyVal)) : list (PyVal * PyVal) :=
  List.map (fun '(k, v) => (VStr k, v)) c.

(** Literal mappings are well keyed. *)
Ltac solve_keyed :=
  lazymatch goal with
  | |- keyed (str_dict ?d) =>
      apply (keyed_dict d); [apply (bool_decide_unpack _); vm_compute; reflexivity|];
      cbn [fmap list_fmap snd];
      repeat (apply Forall_cons; split; [solve_keyed|]); constructor
  | |- keyed _ => apply keyed_other; intros ? ?; discriminate
  end.

Lemma conf_keyed lr dir : keyed (VDict (items (conf lr dir))).
Proof. change (keyed (str_dict (conf lr dir))). unfold conf. solve_keyed. Qed.

Definition identity_of (lr : Z) : BootstrapCompatibilityIdentity :=
  Identity 7 (sorted_union _BOOTSTRAP_FINGERPRINT_EXCLUDED_PATHS [])
    (str_dict [("policy", str_dict [("lr", VInt lr)])]).

Definition sha (_ : PyVal) : string := "d0".

Definition empty_dir : dirmap := ∅.

Lemma identity_keyed lr : keyed (_bootstrap_anchor_manifest sha (identity_of lr)).
Proof. unfold _bootstrap_anchor_manifest, identity_to_dict. cbn [identity_of config]. solve_keyed. Qed.

(** The log directory and the scheduler are excluded, the learning rate is not. *)
Lemma equal_identities_witness :
  bootstrap_compatibility_identity (items (conf 3 "/a")) = Ok (identity_of 3) /\
  excluded_paths (identity_of 3) = excluded_paths (identity_of 3) /\
  exists u2, get_path (VDict (items (conf 3 "/b"))) ["policy"; "lr"] = Some u2 /\ py_eq (VInt 3) u2 = true.
Proof.
  split; [vm_compute; reflexivity|].
  apply (equal_identities_agree_on_every_value_kept (items (conf 3 "/a")) (items (conf 3 "/b"))
           (identity_of 3) (identity_of 3) ["policy"; "lr"] (VInt 3));
    [apply conf_keyed|apply conf_keyed|vm_compute; reflexivity..].
Defined.

Lemma anchor_creation_witness :
  (ensure_bootstrap_anchor sha (identity_of 3) (Disk (Some empty_dir) [])).2 = Ok tt.
Proof.
  apply (anchor_creation_is_atomic sha (identity_of 3) empty_dir []); vm_compute; reflexivity.
Defined.

Definition raw : list (string * PyVal) :=
  [("schema_version", VInt 3); ("base_train_step", VInt 0); ("trainer_version", VInt 0);
   ("bootstrap_fingerprint", VStr "d0");
   ("bootstrap_identity", identity_to_dict (identity_of 3))].
Definition stored : option dirmap :=
  Some {[BOOTSTRAP_DIRNAME := NDir {[BOOTSTRAP_MANIFEST_FILENAME := Ok (str_dict raw)]}]}.

Lemma anchor_rejection_witness :
  validate_bootstrap_anchor sha (identity_of 4) stored = Raise ValueError /\
  _compatibility_differences 9 (Some (str_dict raw)) (Some (_bootstrap_anchor_manifest sha (identity_of 4))) []
  = Ok [("policy.lr", Some (VInt 3), Some (VInt 4))].
Proof.
  split; [|vm_compute; reflexivity].
  refine (proj1 (proj2 (anchor_rejection_is_explained sha (identity_of 4) stored raw _
    (identity_keyed 3) (identity_keyed 4)) _)); vm_compute; reflexivity.
Defined.

End Demo.
