(* ===== verification/Inventory.v ===== *)
(** * Inventory of the data plane
    ([algorithms/rollout_checkpointing/inventory.py])

    The checks that the data plane holds exactly the rows the controller's state
    references: the canonical partition against the replay index, and the
    staging partition against the recovery ledger, the replay groups' route
    plans and the rows a restored environment owns.  The data plane is a set of
    sample ids per partition; its calls do not fail here. *)

From S2P Require Import Prelude PyVal PyStr StateErr RoutePlan DataPlaneMeta ReplayManifest TQBuffer.
From S2P Require Import Recovery RecoveryLedger RecoveryInv RecoverySeals RecoverySteps RecoveryProps.

Abbreviation DP := (gmap string (gset string)).

(** [list_sample_ids] and [clear_samples] of a partition. *)
Definition list_sample_ids (partition : string) (dp : DP) : gset string := default ∅ (dp !! partition).
Definition clear_samples (partition : string) (ids : gset string) (dp : DP) : DP :=
  <[partition := list_sample_ids partition dp ∖ ids]> dp.

(** The sample ids of the replay index. *)
Definition replay_sample_ids (replay : list GroupMeta) : gset string :=
  list_to_set (concat ((fun g => sample_ids (g_meta g)) <$> replay)).

Definition validate_replay_inventory (replay : list GroupMeta) (partition : string) : SE DP unit :=
  dp ← get;
  let expected_sample_ids := replay_sample_ids replay in
  let actual_sample_ids := list_sample_ids partition dp in
  guard (negb (bool_decide (expected_sample_ids ∖ actual_sample_ids = ∅)
               && bool_decide (actual_sample_ids ∖ expected_sample_ids = ∅))) RuntimeError.

(** [decode_route_plan(encoded_plan).cleanup_staging_keys] of every tag that
    carries a plan. *)
Definition route_keys (encoded_plan : PyVal) : res (list string) :=
  match encoded_plan with
  | VNone => Ok []
  | _ => cleanup_staging_keys <$> decode_route_plan encoded_plan
  end.

Definition replay_route_keys (replay : list GroupMeta) : res (gset string) :=
  keys ← traverse route_keys (concat ((fun g => tagged_plans (g_meta g)) <$> replay));
  Ok (list_to_set (concat keys)).

Definition validate_rollout_recovery_inventory (live : bool) (recovery_ledger : RolloutRecoveryLedger)
    (staging_partition : string) (replay_metadata : option (list GroupMeta)) (clear_unreferenced : bool)
    (additional : option (gset string)) : SE DP nat :=
  _ ← RecoveryLedger.require_live live;
  expected ← lift (expected_staging_keys false recovery_ledger);
  required ← lift (expected_staging_keys true recovery_ledger);
  let expected := expected ∪ default ∅ additional in
  let required := required ∪ default ∅ additional in
  routes ← lift (match replay_metadata with Some gs => replay_route_keys gs | None => Ok ∅ end);
  let expected := expected ∪ routes in
  let required := required ∪ routes in
  dp ← get;
  let actual := list_sample_ids staging_partition dp in
  _ ← guard (negb (bool_decide (required ∖ actual = ∅))) RuntimeError;
  let unreferenced := actual ∖ expected in
  _ ← (if clear_unreferenced && negb (bool_decide (unreferenced = ∅))
       then modify (clear_samples staging_partition unreferenced) else mret tt);
  mret (base.size (expected ∩ actual)).

(** ** The ledger's keys *)

Section keys.
Context (staging_key : PyVal -> string -> res string) (json_object : string -> bool).

(** A sealed attempt requires only keys it owns. *)
Lemma owned_keys_required gid i a :
  attempt_ok staging_key json_object gid i a ->
  exists req, owned_keys true a = Ok req /\
    exists all, owned_keys false a = Ok all /\ req ⊆ all.
Proof.
  intros (_ & _ & _ & _ & Ha). unfold owned_keys, status_is.
  destruct (decide (attempt_status a = RolloutAttemptStatus.SEALED)) as [Hs|Hs].
  2: { rewrite bool_decide_eq_false_2 by done. cbn. exists []. split; [done|]. by exists []. }
  rewrite bool_decide_eq_true_2 by done. cbn [negb]. destruct Ha as (_ & _ & _ & Hk).
  unfold attempt_staging_keys in Hk. inv_res.
  match goal with H : receipt_staging_keys _ _ = Ok _ |- _ => rename H into Hr end.
  assert (x0 = staging_keys a) as ->.
  { destruct (logical_selection a) as [sel|]; [|by inv_res]. inv_res. destruct (receipt a); [|done]. by inv_res. }
  destruct (receipt a) as [r|].
  2: { exists []. split; [done|]. eexists. split; [done|]. apply list_subseteq_nil. }
  destruct r as [|p r].
  { exists []. split; [done|]. eexists. split; [done|]. apply list_subseteq_nil. }
  unfold receipt_staging_keys, receipt_manifest in Hr. inv_res.
  destruct (dict_get "manifest" (p :: r)) as [v|]; [|done].
  destruct v as [| | | | | |m| | |]; try done. cbn [py_iter mbind res_bind].
  match goal with H : traverse entry_key m = Ok _ |- _ => rewrite H end. cbn.
  eexists. split; [done|]. eexists. split; [done|].
  intros k Hin. match goal with H : fromkeys _ _ = staging_keys a |- _ => rewrite <- H end.
  apply (proj1 (fromkeys_spec _ [])). split; [apply elem_of_app; by left|]. by intros ?%not_elem_of_nil.
Qed.

Lemma traverse_pair {A} (f g : A -> res (list string)) (l : list A) :
  (forall x, x ∈ l -> exists req, f x = Ok req /\ exists all, g x = Ok all /\ req ⊆ all) ->
  exists reqs, traverse f l = Ok reqs /\ exists alls, traverse g l = Ok alls /\ concat reqs ⊆ concat alls.
Proof.
  induction l as [|x l IH]; intros H; cbn.
  - exists []. split; [done|]. by exists [].
  - destruct (H x) as (req & -> & all & -> & Hx); [left|].
    destruct IH as (reqs & -> & alls & -> & Hl); [intros y Hy; apply H; by right|].
    cbn. eexists. split; [done|]. eexists. split; [done|]. cbn.
    intros k [Hk|Hk]%elem_of_app; apply elem_of_app; auto.
Qed.

(** In a well-formed ledger both key sets are there, and what is required is
    expected. *)
Lemma required_keys_expected l :
  ledger_ok staging_key json_object l ->
  exists req, expected_staging_keys true l = Ok req /\
    exists all, expected_staging_keys false l = Ok all /\ req ⊆ all.
Proof.
  intros (_ & Hg & _). unfold expected_staging_keys.
  set (keys b := fun g => traverse (fun s => owned_keys b (current_attempt s)) (siblings g)).
  assert (forall g, g ∈ all_groups l ->
    exists req, (c ← keys true g; Ok (concat c)) = Ok req /\
      exists all, (c ← keys false g; Ok (concat c)) = Ok all /\ req ⊆ all) as Hall.
  { intros g ([gid g'] & -> & Hin)%list_elem_of_fmap. cbn. destruct (Hg gid g' Hin) as [-> (_ & Hs & _)].
    destruct (traverse_pair (fun s => owned_keys true (current_attempt s))
                (fun s => owned_keys false (current_attempt s)) (siblings g')) as (r & Hr & a & Ha & Hsub).
    - intros s [i Hi]%list_elem_of_lookup. eapply owned_keys_required, current_ok; [|exact Hi].
      by destruct (Hg (group_id g') g' Hin) as [_ ?].
    - unfold keys. rewrite Hr, Ha. cbn. eexists. split; [done|]. by eexists. }
  destruct (traverse_pair _ _ _ Hall) as (reqs & Hreqs & alls & Halls & Hsub).
  assert (forall b (ys : list (list string)), traverse (fun g => c ← keys b g; Ok (concat c)) (all_groups l) = Ok ys ->
    exists zs, traverse (keys b) (all_groups l) = Ok zs /\ concat ys = concat (concat zs)) as Hflat.
  { intros b. clear. induction (all_groups l) as [|g gs IH]; intros ys H; cbn in H |- *.
    - inv_res. by exists [].
    - destruct (keys b g) as [c|e]; cbn in H; [|done]. apply bind_Ok in H as (ys' & Hys & [= <-]).
      destruct (IH _ Hys) as (zs & -> & E). cbn. eexists. split; [done|].
      cbn. by rewrite concat_app, E. }
  destruct (Hflat true reqs Hreqs) as (zr & Hzr & Er), (Hflat false alls Halls) as (za & Hza & Ea).
  assert (forall b (zs : list (list (list string))), traverse (keys b) (all_groups l) = Ok zs ->
    (ks ← traverse (keys b) (all_groups l); Ok (list_to_set (concat (concat ks)))) =
    Ok (list_to_set (concat (concat zs)) : gset string)) as Hset by (by intros b zs ->).
  eexists. split; [exact (Hset true zr Hzr)|]. eexists. split; [exact (Hset false za Hza)|].
  rewrite <- Er, <- Ea. set_solver.
Qed.

End keys.

Lemma difference_empty (X Y : gset string) : X ∖ Y = ∅ <-> X ⊆ Y.
Proof. split; [apply empty_difference_subseteq_L|apply subseteq_empty_difference_L]. Qed.

(** The replay check passes exactly when the partition holds the ids of the
    index and no others; it changes nothing. *)
Lemma replay_inventory_exact replay partition dp :
  validate_replay_inventory replay partition dp
  = (dp, if decide (list_sample_ids partition dp = replay_sample_ids replay) then Ok tt else Raise RuntimeError).
Proof.
  unfold validate_replay_inventory, mbind, se_bind, get, guard, lift, raise_if. f_equal.
  set (e := replay_sample_ids replay). set (a := list_sample_ids partition dp).
  assert (bool_decide (e ∖ a = ∅) && bool_decide (a ∖ e = ∅) = bool_decide (a = e)) as ->.
  { apply Bool.eq_iff_eq_true. rewrite andb_true_iff, !bool_decide_eq_true, !difference_empty.
    split; [intros [H1 H2]; apply set_eq; set_solver|by intros ->]. }
  by destruct (decide (a = e)), (bool_decide_reflect (a = e)).
Qed.

Section inventory.
Context (staging_key : PyVal -> string -> res string) (json_object : string -> bool).


End inventory.

(** ** A small inventory *)
Module Demo.

Definition gate : string := base_gate_id "g" 0 (RecoveryProps.Demo.fresh 1 0).

(** A receipt that lists one staged row and attempts one call more. *)
Definition receipt : list (PyVal * PyVal) :=
  [(VStr "capture_key", VStr gate);
   (VStr "attempted_call_ids", VList [VStr "c1"; VStr "c2"]);
   (VStr "manifest", VList [VDict [(VStr "staging_key", VStr "row1"); (VStr "model_call_id", VStr "c1")]])].

Definition sealed : RolloutRecoveryLedger :=
  (mark_sibling_sealed RecoveryProps.Demo.staging true "g" 0
     (mkSealResult gate (Some receipt) (Fin 1 0) (VBool false) None None None None None)
     (RecoveryProps.Demo.dispatched RecoveryTargetLevel.TURN)).1.

Lemma sealed_ok : ledger_ok RecoveryProps.Demo.staging RecoveryProps.Demo.json sealed.
Proof.
  apply reachable_ok. eapply op_reachable; [apply (RecoveryProps.Demo.dispatched_reachable RecoveryTargetLevel.TURN)|].
  by apply step_mark_sibling_sealed.
Qed.

Definition store : DP := {["staging" := {["row1"; "orphan"]}; "canonical" := {["s1"]}]}.


End Demo.
