(* ===== verification/Router.v ===== *)
(** * The generation router
    ([models/generation/generation_router.py] and the tick of
    [algorithms/single_controller.py] that drains it)

    One URL in front of the generation fleet: requests go to the serving backend
    with the fewest outstanding requests, failures are counted and stop the
    routing to a backend until the next membership push, and the controller
    drains the counts into the fleet-health ledger.

    A request is split at its wait for the backend; while it waits, any other
    operation may run.  The HTTP exchange itself is outside; its outcome is an
    argument. *)

From S2P Require Import Prelude PyStr FleetHealth.
#[local] Open Scope string_scope.
#[local] Open Scope Z_scope.

Record GenerationRouter := mkRouter {
  all_backends : list string;
  serving : list string;
  inflight : gmap string Z;
  backend_failures : gmap string Z;
  backend_successes : gmap string Z;
  no_healthy_backend_status : Z;
  health_managed : bool;
  requests_total : Z;
  no_backend_total : Z;
  backend_error_total : Z }.

(** [d.get(url, 0)]. *)
Definition get0 (url : string) (d : gmap string Z) : Z := default 0 (d !! url).

(** [{url: 0 for url in backend_urls}]. *)
Definition zeros (urls : list string) : gmap string Z := list_to_map ((fun u => (u, 0)) <$> urls).

Definition init (backend_urls : list string) (status : Z) (managed : bool) : res GenerationRouter :=
  _ ← raise_if (bool_decide (backend_urls = [])) ValueError;
  Ok (mkRouter backend_urls backend_urls (zeros backend_urls) (zeros backend_urls) (zeros backend_urls)
        status managed 0 0 0).

Definition with_serving (l : list string) (r : GenerationRouter) : GenerationRouter :=
  mkRouter (all_backends r) l (inflight r) (backend_failures r) (backend_successes r)
    (no_healthy_backend_status r) (health_managed r) (requests_total r) (no_backend_total r)
    (backend_error_total r).

Definition with_inflight (m : gmap string Z) (r : GenerationRouter) : GenerationRouter :=
  mkRouter (all_backends r) (serving r) m (backend_failures r) (backend_successes r)
    (no_healthy_backend_status r) (health_managed r) (requests_total r) (no_backend_total r)
    (backend_error_total r).

Definition with_outcomes (fails succ : gmap string Z) (r : GenerationRouter) : GenerationRouter :=
  mkRouter (all_backends r) (serving r) (inflight r) fails succ
    (no_healthy_backend_status r) (health_managed r) (requests_total r) (no_backend_total r)
    (backend_error_total r).

Definition with_totals (requests none errors : Z) (r : GenerationRouter) : GenerationRouter :=
  mkRouter (all_backends r) (serving r) (inflight r) (backend_failures r) (backend_successes r)
    (no_healthy_backend_status r) (health_managed r) requests none errors.

Definition set_serving_backends (urls : list string) (r : GenerationRouter) : GenerationRouter :=
  with_serving (List.filter (fun u => bool_decide (is_Some (inflight r !! u))) urls) r.

(** The backends with something to report. *)
Definition reported_urls (r : GenerationRouter) : gset string :=
  dom (filter (fun kv : string * Z => kv.2 <> 0) (backend_successes r))
  ∪ dom (filter (fun kv : string * Z => kv.2 <> 0) (backend_failures r)).

Definition drain_backend_outcomes (r : GenerationRouter) : GenerationRouter * list (string * (Z * Z)) :=
  let urls := elements (reported_urls r) in
  let outcomes := (fun u => (u, (get0 u (backend_successes r), get0 u (backend_failures r)))) <$> urls in
  (with_outcomes (foldr (fun u m => <[u := 0]> m) (backend_failures r) urls)
     (foldr (fun u m => <[u := 0]> m) (backend_successes r) urls) r, outcomes).

(** [key=lambda url: (self._inflight.get(url, 0), url)]. *)
Definition less_loaded (r : GenerationRouter) (a b : string) : bool :=
  (get0 a (inflight r) <? get0 b (inflight r))
  || ((get0 a (inflight r) =? get0 b (inflight r)) && string_ltb a b).

Definition _pick_backend (r : GenerationRouter) : option string :=
  match serving r with
  | [] => None
  | u :: us => Some (argmin_by (less_loaded r) u us)
  end.

Definition _target_url (backend path_qs : string) : string := removesuffix "/v1" backend +:+ path_qs.

(** [_handle] up to the request it forwards; without a backend it answers. *)
Definition handle_begin (r : GenerationRouter) : GenerationRouter * (string + Z) :=
  let r := with_totals (requests_total r + 1) (no_backend_total r) (backend_error_total r) r in
  match _pick_backend r with
  | None =>
      (with_totals (requests_total r) (no_backend_total r + 1) (backend_error_total r) r,
       inr (no_healthy_backend_status r))
  | Some backend =>
      (with_inflight (<[backend := get0 backend (inflight r) + 1]> (inflight r)) r, inl backend)
  end.

(** How a forwarded request ends: a whole response served, a [TimeoutError] or
    [ClientError] (with whether it is the startup probe's reset connection), or
    the cancellation of the handler. *)
Inductive outcome := Served (status : Z) | BackendError (probe_reset : bool) | Cancelled.

Definition _on_backend_error (backend : string) (r : GenerationRouter) : GenerationRouter * Z :=
  let r := with_totals (requests_total r) (no_backend_total r) (backend_error_total r + 1) r in
  let r := with_outcomes (<[backend := get0 backend (backend_failures r) + 1]> (backend_failures r))
             (backend_successes r) r in
  let r := if health_managed r
           then with_serving (List.filter (fun u => negb (String.eqb u backend)) (serving r)) r
           else r in
  (r, if bool_decide (serving r = []) then no_healthy_backend_status r else 500).

(** [finally: self._inflight[backend] = max(0, ...)]. *)
Definition release (backend : string) (r : GenerationRouter) : GenerationRouter :=
  with_inflight (<[backend := Z.max 0 (get0 backend (inflight r) - 1)]> (inflight r)) r.

(** [_handle] from the outcome on; a cancelled handler answers nothing. *)
Definition handle_end (backend : string) (o : outcome) (r : GenerationRouter)
  : GenerationRouter * option Z :=
  match o with
  | Served status =>
      (release backend
         (with_outcomes (backend_failures r)
            (<[backend := get0 backend (backend_successes r) + 1]> (backend_successes r)) r), Some status)
  | BackendError true => (release backend r, Some 404)
  | BackendError false => let '(r', status) := _on_backend_error backend r in (release backend r', Some status)
  | Cancelled => (release backend r, None)
  end.

(** ** The router in operation

    [open] holds the backends of the forwarded requests; the other fields record
    what happened. *)
Record Sys := mkSys {
  router : GenerationRouter;
  open : list string;
  served : list string;
  failed : list string;
  handed : list (string * (Z * Z));
  finished : Z }.

Definition start (r : GenerationRouter) : Sys := mkSys r [] [] [] [] 0.

Inductive step : Sys -> Sys -> Prop :=
| step_reject s r st :
    handle_begin (router s) = (r, inr st) ->
    step s (mkSys r (open s) (served s) (failed s) (handed s) (finished s))
| step_forward s r b :
    handle_begin (router s) = (r, inl b) ->
    step s (mkSys r (b :: open s) (served s) (failed s) (handed s) (finished s))
| step_end s b o r st rest :
    open s ≡ₚ b :: rest -> handle_end b o (router s) = (r, st) ->
    step s (mkSys r rest
              (match o with Served _ => b :: served s | _ => served s end)
              (match o with BackendError false => b :: failed s | _ => failed s end)
              (handed s) (finished s + 1))
| step_push s urls :
    step s (mkSys (set_serving_backends urls (router s)) (open s) (served s) (failed s) (handed s) (finished s))
| step_drain s r out :
    drain_backend_outcomes (router s) = (r, out) ->
    step s (mkSys r (open s) (served s) (failed s) (out ++ handed s) (finished s)).

Inductive reachable (urls : list string) (status : Z) (managed : bool) : Sys -> Prop :=
| reach_init r : init urls status managed = Ok r -> reachable urls status managed (start r)
| reach_step s s' : reachable urls status managed s -> step s s' -> reachable urls status managed s'.

(** *** Counting *)

Definition count (b : string) (l : list string) : Z :=
  Z.of_nat (length (List.filter (String.eqb b) l)).

Definition total (f : Z * Z -> Z) (b : string) (out : list (string * (Z * Z))) : Z :=
  zsum ((fun p => if String.eqb b p.1 then f p.2 else 0) <$> out).

Record accounted (s : Sys) : Prop := {
  acc_inflight b : get0 b (inflight (router s)) = count b (open s);
  acc_serving : serving (router s) ⊆ all_backends (router s);
  acc_domain b : is_Some (inflight (router s) !! b) <-> b ∈ all_backends (router s);
  acc_successes b : count b (served s) = get0 b (backend_successes (router s)) + total fst b (handed s);
  acc_failures b : count b (failed s) = get0 b (backend_failures (router s)) + total snd b (handed s);
  acc_requests : requests_total (router s)
                 = no_backend_total (router s) + Z.of_nat (length (open s)) + finished s;
  acc_errors : backend_error_total (router s) = Z.of_nat (length (failed s)) }.

Lemma count_cons b c l : count b (c :: l) = (if String.eqb b c then 1 else 0) + count b l.
Proof. unfold count. cbn. destruct (String.eqb b c); [|lia]. cbn. lia. Qed.

Lemma open_count_nonneg b l : 0 <= count b l.
Proof. unfold count. lia. Qed.

#[export] Instance count_proper b : Proper ((≡ₚ) ==> (=)) (count b).
Proof.
  intros l l' H. induction H; rewrite ?count_cons; lia || congruence.
Qed.

Lemma get0_insert b c v m : get0 b (<[c := v]> m) = if String.eqb b c then v else get0 b m.
Proof.
  unfold get0. destruct (String.eqb_spec b c) as [->|Hne]; [by rewrite lookup_insert_eq|].
  by rewrite lookup_insert_ne.
Qed.

Lemma get0_zeros b urls : get0 b (zeros urls) = 0.
Proof.
  unfold zeros. induction urls as [|u urls IH]; [done|]. cbn. rewrite get0_insert.
  by destruct (String.eqb b u).
Qed.

Lemma zeros_domain b urls : is_Some (zeros urls !! b) <-> b ∈ urls.
Proof.
  unfold zeros. rewrite <- elem_of_dom, dom_list_to_map_L, elem_of_list_to_set, <- list_fmap_compose.
  rewrite (list_fmap_ext _ id urls); [by rewrite list_fmap_id|done].
Qed.

Lemma get0_reset b urls m :
  get0 b (foldr (fun u m => <[u := 0]> m) m urls) = if bool_decide (b ∈ urls) then 0 else get0 b m.
Proof.
  induction urls as [|u urls IH]; [done|]. cbn [foldr]. rewrite get0_insert, IH.
  destruct (String.eqb_spec b u) as [->|Hne].
  - by rewrite bool_decide_eq_true_2 by left.
  - rewrite (bool_decide_ext (b ∈ u :: urls) (b ∈ urls)); [done|]. rewrite elem_of_cons. tauto.
Qed.

Lemma reported_urls_spec b r :
  b ∈ reported_urls r <-> get0 b (backend_successes r) <> 0 \/ get0 b (backend_failures r) <> 0.
Proof.
  assert (forall m : gmap string Z, b ∈ dom (filter (fun kv : string * Z => kv.2 <> 0) m) <-> get0 b m <> 0) as H.
  { intros m. rewrite elem_of_dom. unfold get0. split.
    - intros [v Hv]. apply map_lookup_filter_Some in Hv as [Hm Hv]. by rewrite Hm.
    - intros Hv. destruct (m !! b) as [v|] eqn:E; [|done]. exists v. by apply map_lookup_filter_Some. }
  unfold reported_urls. by rewrite elem_of_union, !H.
Qed.

Lemma total_map f b (g : string -> Z * Z) urls :
  NoDup urls ->
  total f b ((fun u => (u, g u)) <$> urls) = if bool_decide (b ∈ urls) then f (g b) else 0.
Proof.
  unfold total. induction urls as [|u urls IH]; intros Hnd; [done|]. apply NoDup_cons in Hnd as [Hu Hnd].
  cbn. rewrite (IH Hnd). destruct (String.eqb_spec b u) as [->|Hne].
  - rewrite bool_decide_eq_false_2 by done. rewrite (bool_decide_eq_true_2 (u ∈ u :: urls)) by left. lia.
  - rewrite (bool_decide_ext (b ∈ u :: urls) (b ∈ urls)); [lia|]. rewrite elem_of_cons. tauto.
Qed.

Lemma total_app f b l l' : total f b (l ++ l') = total f b l + total f b l'.
Proof. unfold total. by rewrite fmap_app, zsum_app. Qed.

(** ** Accounting *)

Lemma start_accounted urls status managed r : init urls status managed = Ok r -> accounted (start r).
Proof.
  unfold init. intros H. inv_res. split; cbn; intros; rewrite ?get0_zeros, ?zeros_domain; done.
Qed.

(** Taking or releasing a slot of a known backend. *)
Lemma insert_domain (m : gmap string Z) c v (P : string -> Prop) :
  (forall b, is_Some (m !! b) <-> P b) -> P c -> forall b, is_Some (<[c := v]> m !! b) <-> P b.
Proof.
  intros H Hc b. rewrite lookup_insert_is_Some', H. split; [intros [<-|]; done|]. tauto.
Qed.

Lemma pick_serving r b : _pick_backend r = Some b -> b ∈ serving r.
Proof. unfold _pick_backend. destruct (serving r); [done|]. intros [= <-]. apply argmin_by_elem. Qed.

Lemma filter_subset (P : string -> bool) l (k : list string) : l ⊆ k -> List.filter P l ⊆ k.
Proof. intros H x Hx. apply H. apply list_elem_of_In, filter_In in Hx as [Hx _]. by apply list_elem_of_In. Qed.

Lemma accounted_step s s' : accounted s -> step s s' -> accounted s'.
Proof.
  intros [Hi Hs Hd Hsu Hfa Hr He] Hstep.
  destruct Hstep as [s r st Hb|s r b Hb|s b o r st rest Ho Hb|s urls|s r out Hb].
  - unfold handle_begin in Hb. destruct (_pick_backend _) as [b|]; [done|]. injection Hb as <- _.
    split; cbn -[total count]; auto. lia.
  - unfold handle_begin in Hb. destruct (_pick_backend _) as [c|] eqn:Ep; [|done]. injection Hb as <- <-.
    apply pick_serving in Ep. cbn in Ep. split; cbn -[total count]; auto.
    + intros x. rewrite get0_insert, count_cons, <- !Hi.
      destruct (String.eqb_spec x c) as [->|]; lia.
    + apply insert_domain; [exact Hd|]. by apply Hs.
    + lia.
  - assert (length (open s) = S (length rest)) as Hlen by by rewrite (Permutation_length Ho).
    assert (b ∈ all_backends (router s)) as Hb'.
    { apply Hd. specialize (Hi b). rewrite Ho, count_cons, String.eqb_refl in Hi.
      pose proof (open_count_nonneg b rest). unfold get0 in Hi. destruct (inflight (router s) !! b); [eauto|].
      cbn in Hi. lia. }
    assert (forall x, get0 x (<[b := Z.max 0 (get0 b (inflight (router s)) - 1)]> (inflight (router s)))
                      = count x rest) as Hrel.
    { intros x. rewrite get0_insert, !Hi, !Ho, !count_cons, String.eqb_refl.
      pose proof (open_count_nonneg b rest). destruct (String.eqb_spec x b) as [->|]; lia. }
    assert (forall x, is_Some (<[b := Z.max 0 (get0 b (inflight (router s)) - 1)]> (inflight (router s)) !! x)
                      <-> x ∈ all_backends (router s)) as Hdom.
    { apply insert_domain; auto. }
    destruct o as [status|[]|]; cbn in Hb; injection Hb as <- _; cbn.
    + split; cbn -[total count]; auto; [|lia]. intros x. rewrite count_cons, get0_insert, Hsu.
      destruct (String.eqb_spec x b) as [->|]; lia.
    + split; cbn -[total count]; auto. lia.
    + destruct (health_managed (router s)); split; cbn -[total count]; auto; try lia.
      * by apply filter_subset.
      * intros x. rewrite count_cons, get0_insert, Hfa. destruct (String.eqb_spec x b) as [->|]; lia.
      * intros x. rewrite count_cons, get0_insert, Hfa. destruct (String.eqb_spec x b) as [->|]; lia.
    + split; cbn -[total count]; auto. lia.
  - split; cbn -[total count]; auto. intros x Hx. apply list_elem_of_In, filter_In in Hx as [_ Hx].
    apply bool_decide_eq_true in Hx. by apply Hd.
  - unfold drain_backend_outcomes in Hb. injection Hb as <- <-.
    assert (NoDup (elements (reported_urls (router s)))) as Hnd by apply NoDup_elements.
    split; cbn -[total count]; auto; intros x; rewrite total_app, get0_reset.
    + rewrite (total_map fst x (fun u => (get0 u (backend_successes (router s)), get0 u (backend_failures (router s))))) by done.
      rewrite Hsu. case_bool_decide as Hx; [cbn; lia|]. cbn. lia.
    + rewrite (total_map snd x (fun u => (get0 u (backend_successes (router s)), get0 u (backend_failures (router s))))) by done.
      rewrite Hfa. case_bool_decide as Hx; [cbn; lia|]. cbn. lia.
Qed.


(** ** Selection *)

Lemma argmin_by_least {A} (R : A -> A -> Prop) (ltb : A -> A -> bool) :
  (forall x y, ltb y x = true -> R y x) -> (forall x y, ltb y x = false -> R x y) ->
  (forall x, R x x) -> (forall x y z, R x y -> R y z -> R x z) ->
  forall l x y, y ∈ x :: l -> R (argmin_by ltb x l) y.
Proof.
  intros H1 H2 Hrefl Htrans. induction l as [|z l IH]; intros x y Hy; cbn [argmin_by].
  - apply list_elem_of_singleton in Hy as ->. apply Hrefl.
  - apply elem_of_cons in Hy as [->|Hy].
    + destruct (ltb z x) eqn:E; [|apply IH; left].
      eapply Htrans; [apply IH; left|]. by apply H1.
    + apply elem_of_cons in Hy as [->|Hy].
      * destruct (ltb z x) eqn:E; [apply IH; left|]. eapply Htrans; [apply IH; left|]. by apply H2.
      * destruct (ltb z x); apply IH; by right.
Qed.

(** [a] is not busier than [b], and comes first among equally busy ones. *)
Definition at_most_as_loaded (r : GenerationRouter) (a b : string) : Prop :=
  get0 a (inflight r) < get0 b (inflight r) \/
  (get0 a (inflight r) = get0 b (inflight r) /\ String.le a b).

Lemma at_most_as_loaded_trans r a b c :
  at_most_as_loaded r a b -> at_most_as_loaded r b c -> at_most_as_loaded r a c.
Proof.
  unfold at_most_as_loaded. intros [H1|[H1 H1']] [H2|[H2 H2']]; [left; lia..|].
  right. split; [lia|]. by transitivity b.
Qed.

Lemma less_loaded_spec r a b :
  if less_loaded r a b then at_most_as_loaded r a b else at_most_as_loaded r b a.
Proof.
  unfold less_loaded, at_most_as_loaded. pose proof (string_ltb_le a b) as Hl.
  destruct (Z.ltb_spec (get0 a (inflight r)) (get0 b (inflight r))); cbn [orb]; [by left|].
  destruct (Z.eqb_spec (get0 a (inflight r)) (get0 b (inflight r))) as [E|E]; cbn [andb].
  - destruct (string_ltb a b); right; split; auto.
  - left. lia.
Qed.

(** A request is refused only when no backend serves, with the configured
    status and no slot taken.  Otherwise it goes to a serving backend that no
    serving backend is less loaded than, the first by name among equals, and
    takes one slot there and nowhere else. *)
Theorem requests_go_to_the_least_loaded r :
  match handle_begin r with
  | (r', inr status) => serving r = [] /\ status = no_healthy_backend_status r /\ inflight r' = inflight r
  | (r', inl b) =>
      b ∈ serving r /\ (forall u, u ∈ serving r -> at_most_as_loaded r b u) /\
      (forall u, get0 u (inflight r') = get0 u (inflight r) + if String.eqb u b then 1 else 0) /\
      serving r' = serving r
  end.
Proof.
  unfold handle_begin. cbn zeta.
  destruct (_pick_backend _) as [b|] eqn:Ep.
  - split; [by apply pick_serving in Ep|]. split.
    + unfold _pick_backend in Ep. cbn [serving with_totals] in Ep.
      destruct (serving r) as [|v us]; [done|]. injection Ep as <-. intros u Hu.
      change (less_loaded _) with (less_loaded r).
      apply (argmin_by_least (at_most_as_loaded r) (less_loaded r)); [..|exact Hu].
      * intros x y Hxy. pose proof (less_loaded_spec r y x) as H. by rewrite Hxy in H.
      * intros x y Hxy. pose proof (less_loaded_spec r y x) as H. by rewrite Hxy in H.
      * intros x. right. split; reflexivity.
      * apply at_most_as_loaded_trans.
    + split; [|done]. intros u. cbn. rewrite get0_insert. destruct (String.eqb_spec u b) as [->|]; lia.
  - unfold _pick_backend in Ep. cbn in Ep. by destruct (serving r).
Qed.

(** ** Draining into the ledger *)

(** The controller's tick: each backend's counts become at most one success and
    one failure report for its shard. *)
Definition report_outcome (f : Fleet) (entry : string * (Z * Z)) : Fleet :=
  let '(url, (successes, failures)) := entry in
  match shard_for_base_url url f with
  | None => f
  | Some idx =>
      let f := if successes =? 0 then f else step_event f (EvReportSuccess idx) in
      if failures =? 0 then f else step_event f (EvReportFailure idx "RuntimeError")
  end.

Definition report_outcomes (outcomes : list (string * (Z * Z))) (f : Fleet) : Fleet :=
  foldl report_outcome f outcomes.

(** Shards are numbered by position, and only shard [i] has the address [url]. *)
Definition addressed (url : string) (i : nat) (f : Fleet) : Prop :=
  forall j sh, shards f !! j = Some sh -> dp_shard_idx sh = j /\ (base_url sh = Some url <-> j = i).

(** What one window makes of the record of a shard. *)
Definition window_next (p : FleetHealthPolicy) (i : nat) (o : Z * Z) (sh : ShardHealth) : ShardHealth :=
  let sh := if o.1 =? 0 then sh else shard_next p (EvReportSuccess i) sh in
  if o.2 =? 0 then sh else shard_next p (EvReportFailure i "RuntimeError") sh.

(** The consecutive windows with failures and no success. *)
Definition streak_next (o : Z * Z) (k : Z) : Z :=
  (if o.1 =? 0 then k else 0) + (if o.2 =? 0 then 0 else 1).

(** The counts of [url] in a window. *)
Definition counts_of (url : string) (w : list (string * (Z * Z))) : Z * Z :=
  match List.find (fun p => String.eqb url p.1) w with Some p => p.2 | None => (0, 0) end.

Lemma report_next_address p e sh :
  (exists i, e = EvReportSuccess i) \/ (exists i, e = EvReportFailure i "RuntimeError") ->
  base_url (shard_next p e sh) = base_url sh /\ dp_shard_idx (shard_next p e sh) = dp_shard_idx sh.
Proof.
  intros [[i ->]|[i ->]]; cbn; [done|]. destruct (negb (is_serving sh)); [done|].
  by destruct (unhealthy_threshold p <=? _).
Qed.

Lemma addressed_step url i f e :
  (exists j, e = EvReportSuccess j) \/ (exists j, e = EvReportFailure j "RuntimeError") ->
  addressed url i f -> addressed url i (step_event f e).
Proof.
  intros He Ha j sh Hj. unfold step_event in Hj. rewrite apply_spec in Hj.
  destruct (shards f !! target e) as [sh0|] eqn:E; [|by apply Ha].
  rewrite settle_shards in Hj. destruct (decide (target e = j)) as [<-|Hne].
  - rewrite list_lookup_insert_eq in Hj by (by eapply lookup_lt_Some). injection Hj as <-.
    destruct (report_next_address (policy f) e sh0 He) as [-> ->]. by apply Ha.
  - rewrite list_lookup_insert_ne in Hj by done. by apply Ha.
Qed.

Lemma shard_for_base_url_spec url i f sh :
  addressed url i f -> shards f !! i = Some sh -> shard_for_base_url url f = Some i.
Proof.
  intros Ha Hi. unfold shard_for_base_url.
  destruct (List.find _ (shards f)) as [x|] eqn:E.
  - apply List.find_some in E as [Hin Hu%bool_decide_eq_true]. cbn.
    apply list_elem_of_In, list_elem_of_lookup in Hin as [j Hj]. destruct (Ha j x Hj) as [Hx Hu'].
    apply Hu' in Hu as ->. by rewrite Hx.
  - assert (sh ∈ shards f) as Hin by by eapply list_elem_of_lookup_2.
    apply list_elem_of_In in Hin. apply (List.find_none _ _ E) in Hin as Hn. cbv beta in Hn.
    apply bool_decide_eq_false in Hn. destruct Hn. by apply (Ha i sh Hi).
Qed.

Lemma report_outcome_spec url i f sh entry :
  addressed url i f -> shards f !! i = Some sh ->
  addressed url i (report_outcome f entry) /\ policy (report_outcome f entry) = policy f /\
  shards (report_outcome f entry) !! i
  = Some (if String.eqb url entry.1 then window_next (policy f) i entry.2 sh else sh).
Proof.
  intros Ha Hi. destruct entry as [u [s n]]. cbn [fst snd report_outcome].
  destruct (shard_for_base_url u f) as [j|] eqn:Ej.
  2: { destruct (String.eqb_spec url u) as [<-|]; [|done].
       by rewrite (shard_for_base_url_spec url i f sh Ha Hi) in Ej. }
  assert (j = i <-> u = url) as Hji.
  { unfold shard_for_base_url in Ej. destruct (List.find _ (shards f)) as [x|] eqn:E; [|done].
    injection Ej as <-. apply List.find_some in E as [Hin Hu%bool_decide_eq_true].
    apply list_elem_of_In, list_elem_of_lookup in Hin as [j Hj]. destruct (Ha j x Hj) as [-> Hx].
    rewrite <- Hx, Hu. split; [by intros [= ->]|by intros ->]. }
  set (f1 := if s =? 0 then f else step_event f (EvReportSuccess j)).
  assert (addressed url i f1 /\ policy f1 = policy f /\
          shards f1 !! i = Some (if decide (j = i) then (if s =? 0 then sh else shard_next (policy f) (EvReportSuccess j) sh) else sh))
    as (Ha1 & Hp1 & H1).
  { unfold f1. destruct (s =? 0); [by destruct (decide (j = i))|]. split_and!.
    - apply addressed_step; [left; eauto|done].
    - apply step_event_policy.
    - rewrite (step_event_lookup f _ i sh Hi). cbn [target]. by destruct (decide (j = i)). }
  assert ((if String.eqb url u then window_next (policy f) i (s, n) sh else sh)
          = if decide (j = i) then window_next (policy f) j (s, n) sh else sh) as ->.
  { destruct (String.eqb_spec url u) as [E|E], (decide (j = i)) as [E'|E']; [by subst|..|done].
    - destruct E'. by apply Hji.
    - destruct E. symmetry. by apply Hji. }
  unfold window_next. cbn [fst snd]. destruct (n =? 0).
  - split_and!; [done..|]. rewrite H1. by destruct (decide (j = i)).
  - split_and!.
    + apply addressed_step; [right; eauto|done].
    + by rewrite step_event_policy.
    + rewrite (step_event_lookup f1 _ i _ H1). cbn [target]. rewrite Hp1. by destruct (decide (j = i)).
Qed.

Lemma report_outcomes_spec url i f sh w :
  NoDup w.*1 -> addressed url i f -> shards f !! i = Some sh ->
  addressed url i (report_outcomes w f) /\ policy (report_outcomes w f) = policy f /\
  shards (report_outcomes w f) !! i = Some (window_next (policy f) i (counts_of url w) sh).
Proof.
  unfold report_outcomes. revert f sh. induction w as [|e w IH]; intros f sh Hnd Ha Hi; [done|].
  apply NoDup_cons in Hnd as [He Hnd]. cbn [foldl].
  destruct (report_outcome_spec url i f sh e Ha Hi) as (Ha1 & Hp1 & H1).
  destruct (IH _ _ Hnd Ha1 H1) as (Ha2 & Hp2 & H2). split_and!; [done|congruence|].
  rewrite H2, Hp1. f_equal. unfold counts_of. cbn [List.find].
  destruct (String.eqb_spec url e.1) as [->|Hne]; [|done].
  destruct (List.find _ w) as [p|] eqn:Ef; [|done].
  apply List.find_some in Ef as [Hin Heq%String.eqb_eq]. destruct He. rewrite Heq.
  by apply list_elem_of_fmap_2, list_elem_of_In.
Qed.

(** One window on a serving shard. *)
Lemma window_next_serving p i o sh :
  is_serving sh = true ->
  let k := streak_next o (consecutive_reported_failures sh) in
  if bool_decide (o.2 <> 0 /\ unhealthy_threshold p <= k) then state (window_next p i o sh) = DEAD
  else is_serving (window_next p i o sh) = true /\ consecutive_reported_failures (window_next p i o sh) = k.
Proof.
  intros Hs k. unfold k, streak_next, window_next.
  set (sh1 := if o.1 =? 0 then sh else shard_next p (EvReportSuccess i) sh).
  assert (is_serving sh1 = true /\ consecutive_reported_failures sh1
          = if o.1 =? 0 then consecutive_reported_failures sh else 0) as [Hs1 Hr1].
  { unfold sh1. by destruct (o.1 =? 0). }
  rewrite <- Hr1. destruct (Z.eqb_spec o.2 0) as [E|E].
  - rewrite bool_decide_eq_false_2 by tauto. split; [done|lia].
  - cbn [shard_next]. rewrite Hs1. cbn [negb].
    destruct (Z.leb_spec (unhealthy_threshold p) (consecutive_reported_failures sh1 + 1)).
    + by rewrite bool_decide_eq_true_2.
    + rewrite bool_decide_eq_false_2 by lia. done.
Qed.

(** The failure streak over a list of windows; [None] once it reached the
    threshold in a window with failures. *)
Fixpoint windows_streak (p : FleetHealthPolicy) (os : list (Z * Z)) (k : Z) : option Z :=
  match os with
  | [] => Some k
  | o :: os' =>
      let k' := streak_next o k in
      if bool_decide (o.2 <> 0 /\ unhealthy_threshold p <= k') then None else windows_streak p os' k'
  end.

Definition run_windows (ws : list (list (string * (Z * Z)))) (f : Fleet) : Fleet :=
  foldl (fun f w => report_outcomes w f) f ws.

(** A shard that left service is not brought back by the router's reports. *)
Lemma window_next_dead p i o sh : state sh = DEAD -> state (window_next p i o sh) = DEAD.
Proof.
  intros H. unfold window_next. destruct (o.1 =? 0), (o.2 =? 0); cbn; unfold is_serving; by rewrite ?H; cbn; rewrite ?H.
Qed.

Lemma run_windows_dead url i ws f sh :
  Forall (fun w => NoDup w.*1) ws -> addressed url i f -> shards f !! i = Some sh -> state sh = DEAD ->
  exists sh', shards (run_windows ws f) !! i = Some sh' /\ state sh' = DEAD.
Proof.
  unfold run_windows. revert f sh. induction ws as [|w ws IH]; intros f sh Hnd Ha Hi Hd; [by exists sh|].
  apply Forall_cons in Hnd as [Hw Hnd]. destruct (report_outcomes_spec url i f sh w Hw Ha Hi) as (Ha1 & _ & H1).
  cbn [foldl]. eapply IH; [done..|]. by apply window_next_dead.
Qed.

(** What the router's drained counts do to a serving shard, however many
    requests a window saw: each window is one observation, and the shard is
    condemned exactly when [unhealthy_threshold] windows with failures, counted
    from the last one with a success, have passed; until then it serves. *)
Theorem shard_condemned_by_windows_of_failures url i ws f sh :
  Forall (fun w => NoDup w.*1) ws -> addressed url i f ->
  shards f !! i = Some sh -> is_serving sh = true ->
  exists sh', shards (run_windows ws f) !! i = Some sh' /\
    match windows_streak (policy f) (counts_of url <$> ws) (consecutive_reported_failures sh) with
    | Some k => is_serving sh' = true /\ consecutive_reported_failures sh' = k
    | None => state sh' = DEAD
    end.
Proof.
  unfold run_windows. revert f sh. induction ws as [|w ws IH]; intros f sh Hnd Ha Hi Hs.
  { exists sh. done. }
  apply Forall_cons in Hnd as [Hw Hnd].
  destruct (report_outcomes_spec url i f sh w Hw Ha Hi) as (Ha1 & Hp1 & H1). cbn [foldl fmap list_fmap windows_streak].
  pose proof (window_next_serving (policy f) i (counts_of url w) sh Hs) as Hn. cbv zeta in Hn.
  case_bool_decide as Hb.
  - by apply (run_windows_dead url i ws _ _ Hnd Ha1 H1).
  - destruct Hn as [Hs1 Hk]. destruct (IH _ _ Hnd Ha1 H1 Hs1) as (sh' & Hsh' & Hm).
    exists sh'. split; [done|]. by rewrite Hp1, Hk in Hm.
Qed.

(** A backend that served in every window in which it failed is never condemned
    under a threshold of at least two. *)
Lemma served_backend_keeps_serving p os k :
  2 <= unhealthy_threshold p -> k <= 1 -> Forall (fun o => o.2 <> 0 -> o.1 <> 0) os ->
  exists k', windows_streak p os k = Some k' /\ k' <= 1.
Proof.
  intros Hp. revert k. induction os as [|o os IH]; intros k Hk Ho; [by exists k|].
  apply Forall_cons in Ho as [Ho Hos]. cbn [windows_streak]. unfold streak_next.
  destruct (Z.eqb_spec o.2 0) as [E|E].
  - rewrite bool_decide_eq_false_2 by tauto. apply IH; [|done]. destruct (o.1 =? 0); lia.
  - destruct (Z.eqb_spec o.1 0) as [E1|_]; [by destruct (Ho E)|].
    rewrite bool_decide_eq_false_2 by lia. apply IH; [lia|done].
Qed.

(** ** Concrete runs *)
Module Demo.

Definition a : string := "http://a/v1".
Definition b : string := "http://b/v1".
Definition router0 : GenerationRouter := mkRouter [a; b] [a; b] (zeros [a; b]) (zeros [a; b]) (zeros [a; b]) 409 true 0 0 0.

Definition after_two : Sys :=
  mkSys (handle_begin (handle_begin router0).1).1 [b; a] [] [] [] 0.

Lemma after_two_reachable : reachable [a; b] 409 true after_two.
Proof.
  eapply reach_step; [eapply reach_step; [apply reach_init; vm_compute; reflexivity|]|].
  - by eapply (step_forward (start router0) (handle_begin router0).1 a).
  - by eapply (step_forward (mkSys (handle_begin router0).1 [a] [] [] [] 0)).
Defined.


Definition shard (i : nat) (url : string) : ShardHealth := mkShard i (Some url) HEALTHY 0 0 0 0 None 0 0 "".
Definition fleet : Fleet := mkFleet (mkPolicy 3 1 1 1) [shard 0 a; shard 1 b] 0 {[0%nat; 1%nat]}.

(** Forty failures and one success, then two bursts: still serving; a third
    condemns it. *)
Definition windows : list (list (string * (Z * Z))) := [[(a, (1, 40))]; [(b, (3, 0)); (a, (0, 7))]; [(a, (0, 1))]].

Lemma addressed_fleet : addressed a 0 fleet.
Proof.
  intros j sh Hj. destruct j as [|[|j]]; cbn in Hj; [injection Hj as <-..|done];
    (split; [done|split; [intros [=]; done|done]]).
Defined.

Lemma shard_condemned_witness :
  (exists sh', shards (run_windows (take 2 windows) fleet) !! 0%nat = Some sh' /\
     is_serving sh' = true /\ consecutive_reported_failures sh' = 2) /\
  exists sh', shards (run_windows windows fleet) !! 0%nat = Some sh' /\ state sh' = DEAD.
Proof.
  split.
  - refine (shard_condemned_by_windows_of_failures a 0 (take 2 windows) fleet (shard 0 a) _ addressed_fleet eq_refl eq_refl).
    repeat constructor; set_solver.
  - refine (shard_condemned_by_windows_of_failures a 0 windows fleet (shard 0 a) _ addressed_fleet eq_refl eq_refl).
    repeat constructor; set_solver.
Defined.

(** The server thread increments a count in two steps, a read and a write; the
    drain, on the actor's thread, may run in between.  The write then brings
    back the successes the drain has already handed over. *)
Definition increment (seen : Z) (u : string) (r : GenerationRouter) : GenerationRouter :=
  with_outcomes (backend_failures r) (<[u := seen + 1]> (backend_successes r)) r.

Example drain_between_read_and_write_counts_twice :
  let r := increment 0 a router0 in
  let seen := get0 a (backend_successes r) in
  let '(r1, first) := drain_backend_outcomes r in
  let '(_, second) := drain_backend_outcomes (increment seen a r1) in
  first = [(a, (1, 0))] /\ second = [(a, (2, 0))].
Proof. split; vm_compute; reflexivity. Qed.

End Demo.
