(* ===== verification/BufferPool.v ===== *)
(** * The registered buffer pool ([data_plane/nixl/bufpool.py])

    Buffers registered with the transfer endpoint: a fixed number of base
    buffers that operations wait for, larger ones by powers of two that are
    kept, least recently used first to go, within a byte budget.  A buffer that
    an unfinished transfer may still touch is retired for good.

    Threads interleave at the boundaries of the pool's lock.  The endpoint is
    outside: the address a registration returns, whether it fails, and whether
    a transfer still touches a buffer are arguments of the steps; an address
    that is registered is not returned again. *)

From S2P Require Import Prelude.

(** A buffer: its registered address and its size. *)
Abbreviation buf := (Z * Z)%type.

(** [int.bit_length] and [_round_pow2]. *)
Definition bit_length (n : Z) : Z := if n =? 0 then 0 else Z.log2 (Z.abs n) + 1.
Definition _round_pow2 (n : Z) : Z := Z.shiftl 1 (Z.max 0 (bit_length (n - 1))).

(** Buckets and the list of free base buffers are stacks: the head is the
    element appended last.  [oversize_free] is in the dict's order, the least
    recently used size first. *)
Record BufferPool := mkPool {
  base_bytes : Z;
  max_oversize_bytes : Z;
  free_base : list buf;
  base_live : Z;
  oversize_free : list (Z * list buf);
  oversize_bytes : Z;
  retired : list buf }.

Definition with_base (free : list buf) (live : Z) (p : BufferPool) : BufferPool :=
  mkPool (base_bytes p) (max_oversize_bytes p) free live (oversize_free p) (oversize_bytes p) (retired p).
Definition with_oversize (free : list (Z * list buf)) (bytes : Z) (p : BufferPool) : BufferPool :=
  mkPool (base_bytes p) (max_oversize_bytes p) (free_base p) (base_live p) free bytes (retired p).
Definition with_retired (l : list buf) (p : BufferPool) : BufferPool :=
  mkPool (base_bytes p) (max_oversize_bytes p) (free_base p) (base_live p) (oversize_free p) (oversize_bytes p) l.

(** [__init__] with the addresses the base buffers were registered at. *)
Definition init (base max : Z) (addrs : list Z) : BufferPool :=
  let bufs := (fun a => (a, base)) <$> addrs in
  mkPool base max bufs (Z.of_nat (length bufs)) [] 0 [].

(** ** The base path *)

Inductive base_result := Got (b : buf) | Exhausted | Wait.

(** One pass of the loop of [acquire] for a small request. *)
Definition take_base (p : BufferPool) : BufferPool * base_result :=
  match free_base p with
  | b :: rest => (with_base rest (base_live p) p, Got b)
  | [] => (p, if base_live p =? 0 then Exhausted else Wait)
  end.

(** [self._free_base.append(item)]. *)
Definition put_base (b : buf) (p : BufferPool) : BufferPool := with_base (b :: free_base p) (base_live p) p.

(** A replacement could not be registered: [self._base_live -= 1]. *)
Definition lose_base (p : BufferPool) : BufferPool := with_base (free_base p) (base_live p - 1) p.

(** [_retire(item)], when a transfer may still touch it. *)
Definition _retire (b : buf) (p : BufferPool) : BufferPool := with_retired (retired p ++ [b]) p.

(** ** The oversize path *)

Definition bucket_of (size : Z) (free : list (Z * list buf)) : list buf :=
  match List.find (fun kv => kv.1 =? size) free with Some kv => kv.2 | None => [] end.

Definition drop_size (size : Z) (free : list (Z * list buf)) : list (Z * list buf) :=
  List.filter (fun kv => negb (kv.1 =? size)) free.

(** A buffer of the bucket, if there is one. *)
Definition take_oversize (size : Z) (p : BufferPool) : option (BufferPool * buf) :=
  match bucket_of size (oversize_free p) with
  | [] => None
  | b :: rest =>
      let others := drop_size size (oversize_free p) in
      Some (with_oversize (if bool_decide (rest = []) then others else others ++ [(size, rest)])
              (oversize_bytes p) p, b)
  end.

(** The loop of [_evict_for], with the buffers it takes out; [fuel] bounds their
    number. *)
Fixpoint evict_loop (fuel : nat) (incoming max : Z) (free : list (Z * list buf)) (bytes : Z)
  : list (Z * list buf) * Z * list buf :=
  match fuel with
  | O => (free, bytes, [])
  | S fuel' =>
      if bytes + incoming <=? max then (free, bytes, [])
      else
        match free with
        | [] => (free, bytes, [])
        | (size, bucket) :: others =>
            match bucket with
            | [] => (free, bytes, [])
            | b :: rest =>
                let '(free', bytes', victims) :=
                  evict_loop fuel' incoming max
                    (if bool_decide (rest = []) then others else (size, rest) :: others) (bytes - size) in
                (free', bytes', b :: victims)
            end
        end
  end.

Definition free_count (free : list (Z * list buf)) : nat := length (concat (snd <$> free)).

Definition _evict_for (incoming : Z) (p : BufferPool) : BufferPool * list buf :=
  let '(free, bytes, victims) :=
    evict_loop (free_count (oversize_free p)) incoming (max_oversize_bytes p)
      (oversize_free p) (oversize_bytes p) in
  (with_oversize free bytes p, victims).

(** A buffer of [size] bytes was registered. *)
Definition add_oversize (size : Z) (p : BufferPool) : BufferPool :=
  with_oversize (oversize_free p) (oversize_bytes p + size) p.

Definition lose_oversize (size : Z) (p : BufferPool) : BufferPool :=
  with_oversize (oversize_free p) (oversize_bytes p - size) p.

(** [setdefault(size, []).append(item)], then [move_to_end(size)]. *)
Definition put_oversize (size : Z) (b : buf) (p : BufferPool) : BufferPool :=
  with_oversize (drop_size size (oversize_free p) ++ [(size, b :: bucket_of size (oversize_free p))])
    (oversize_bytes p) p.

(** [close]: the pool without its free buffers, and those to deregister. *)
Definition close (p : BufferPool) : BufferPool * list buf :=
  (mkPool (base_bytes p) (max_oversize_bytes p) [] (base_live p) [] (oversize_bytes p) (retired p),
   free_base p ++ concat (snd <$> oversize_free p)).

(** ** The pool in operation

    Holders of base and oversize buffers, base releases that are replacing a
    retired buffer, oversize acquisitions between eviction and registration,
    evicted buffers not yet deregistered, and the threads waiting for a base
    buffer: [asleep] in the condition, or [awake] and about to look again. *)
Record Sys := mkSys {
  pool : BufferPool;
  in_base : list buf;
  replacing : nat;
  in_over : list buf;
  admitting : list Z;
  victims : list buf;
  asleep : nat;
  awake : nat }.

Definition with_pool (p : BufferPool) (s : Sys) : Sys :=
  mkSys p (in_base s) (replacing s) (in_over s) (admitting s) (victims s) (asleep s) (awake s).

(** [self._cv.notify()] and [notify_all()]. *)
Definition notify (s : Sys) : Sys :=
  match asleep s with
  | O => s
  | S n => mkSys (pool s) (in_base s) (replacing s) (in_over s) (admitting s) (victims s) n (S (awake s))
  end.
Definition notify_all (s : Sys) : Sys :=
  mkSys (pool s) (in_base s) (replacing s) (in_over s) (admitting s) (victims s) O (asleep s + awake s).

Definition all_oversize (p : BufferPool) : list buf := concat (snd <$> oversize_free p).

(** Everything registered. *)
Definition all_bufs (s : Sys) : list buf :=
  free_base (pool s) ++ in_base s ++ all_oversize (pool s) ++ in_over s ++ retired (pool s) ++ victims s.

Definition fresh (a : Z) (s : Sys) : Prop := a ∉ (all_bufs s).*1.

Inductive step : Sys -> Sys -> Prop :=
(* a small request: a buffer, an exception, or the wait *)
| step_take s p b :
    take_base (pool s) = (p, Got b) ->
    step s (mkSys p (b :: in_base s) (replacing s) (in_over s) (admitting s) (victims s) (asleep s) (awake s))
| step_wait s p :
    take_base (pool s) = (p, Wait) ->
    step s (mkSys p (in_base s) (replacing s) (in_over s) (admitting s) (victims s) (S (asleep s)) (awake s))
(* a waiting thread looks again: it takes a buffer, waits on, or gives up *)
| step_woken_take s p b n :
    awake s = S n -> take_base (pool s) = (p, Got b) ->
    step s (mkSys p (b :: in_base s) (replacing s) (in_over s) (admitting s) (victims s) (asleep s) n)
| step_woken_wait s p n :
    awake s = S n -> take_base (pool s) = (p, Wait) ->
    step s (mkSys p (in_base s) (replacing s) (in_over s) (admitting s) (victims s) (S (asleep s)) n)
| step_woken_raise s n :
    awake s = S n -> free_base (pool s) = [] ->
    step s (mkSys (pool s) (in_base s) (replacing s) (in_over s) (admitting s) (victims s) (asleep s) n)
| step_wait_timeout s n :
    asleep s = S n ->
    step s (mkSys (pool s) (in_base s) (replacing s) (in_over s) (admitting s) (victims s) n (S (awake s)))
(* a base buffer comes back *)
| step_release_base s b rest :
    in_base s ≡ₚ b :: rest ->
    step s (notify (mkSys (put_base b (pool s)) rest (replacing s) (in_over s) (admitting s) (victims s) (asleep s) (awake s)))
| step_retire_base s b rest :
    in_base s ≡ₚ b :: rest ->
    step s (mkSys (_retire b (pool s)) rest (S (replacing s)) (in_over s) (admitting s) (victims s) (asleep s) (awake s))
| step_replaced s n a :
    replacing s = S n -> fresh a s ->
    step s (notify (mkSys (put_base (a, base_bytes (pool s)) (pool s)) (in_base s) n (in_over s) (admitting s) (victims s) (asleep s) (awake s)))
| step_replace_failed s n :
    replacing s = S n ->
    step s (notify_all (mkSys (lose_base (pool s)) (in_base s) n (in_over s) (admitting s) (victims s) (asleep s) (awake s)))
(* a large request *)
| step_hit s nbytes p b :
    base_bytes (pool s) < nbytes -> take_oversize (_round_pow2 nbytes) (pool s) = Some (p, b) ->
    step s (mkSys p (in_base s) (replacing s) (b :: in_over s) (admitting s) (victims s) (asleep s) (awake s))
| step_evict s nbytes p vs :
    base_bytes (pool s) < nbytes -> take_oversize (_round_pow2 nbytes) (pool s) = None ->
    _evict_for (_round_pow2 nbytes) (pool s) = (p, vs) ->
    step s (mkSys p (in_base s) (replacing s) (in_over s) (_round_pow2 nbytes :: admitting s) (vs ++ victims s) (asleep s) (awake s))
| step_deregister s b rest :
    victims s ≡ₚ b :: rest ->
    step s (mkSys (pool s) (in_base s) (replacing s) (in_over s) (admitting s) rest (asleep s) (awake s))
| step_register s size rest a :
    admitting s ≡ₚ size :: rest -> fresh a s ->
    step s (mkSys (add_oversize size (pool s)) (in_base s) (replacing s) ((a, size) :: in_over s) rest (victims s) (asleep s) (awake s))
| step_register_failed s size rest :
    admitting s ≡ₚ size :: rest ->
    step s (mkSys (pool s) (in_base s) (replacing s) (in_over s) rest (victims s) (asleep s) (awake s))
| step_release_over s b rest :
    in_over s ≡ₚ b :: rest ->
    step s (mkSys (put_oversize b.2 b (pool s)) (in_base s) (replacing s) rest (admitting s) (victims s) (asleep s) (awake s))
| step_retire_over s b rest :
    in_over s ≡ₚ b :: rest ->
    step s (mkSys (lose_oversize b.2 (_retire b (pool s))) (in_base s) (replacing s) rest (admitting s) (victims s) (asleep s) (awake s)).

Inductive reachable (base max : Z) : Sys -> Prop :=
| reach_init addrs : NoDup addrs -> addrs <> [] ->
    reachable base max (mkSys (init base max addrs) [] 0 [] [] [] 0 0)
| reach_step s s' : reachable base max s -> step s s' -> reachable base max s'.

(** ** Invariant *)

(** How often an address occurs, and the bytes of some buffers. *)
Definition occ (a : Z) (l : list buf) : Z := Z.of_nat (length (List.filter (fun b => b.1 =? a) l)).
Definition bytes_of (l : list buf) : Z := zsum (snd <$> l).

Lemma occ_cons a b l : occ a (b :: l) = (if b.1 =? a then 1 else 0) + occ a l.
Proof. unfold occ. cbn. destruct (b.1 =? a); [|lia]. cbn. lia. Qed.

Lemma occ_app a l k : occ a (l ++ k) = occ a l + occ a k.
Proof. unfold occ. rewrite List.filter_app, length_app. lia. Qed.

Lemma occ_nonneg a l : 0 <= occ a l.
Proof. unfold occ. lia. Qed.

#[export] Instance occ_proper a : Proper ((≡ₚ) ==> (=)) (occ a).
Proof. intros l k H. induction H; rewrite ?occ_cons; lia || congruence. Qed.

Lemma bytes_cons b l : bytes_of (b :: l) = b.2 + bytes_of l.
Proof. done. Qed.

Lemma bytes_app l k : bytes_of (l ++ k) = bytes_of l + bytes_of k.
Proof. unfold bytes_of. by rewrite fmap_app, zsum_app. Qed.

#[export] Instance bytes_proper : Proper ((≡ₚ) ==> (=)) bytes_of.
Proof. intros l k H. unfold bytes_of. by rewrite H. Qed.

Lemma fresh_occ a s : fresh a s -> occ a (all_bufs s) = 0.
Proof.
  unfold fresh. induction (all_bufs s) as [|b l IH]; intros Hf; [done|]. rewrite occ_cons.
  cbn in Hf. apply not_elem_of_cons in Hf as [Hb Hl]. rewrite (proj2 (Z.eqb_neq b.1 a)) by congruence.
  by rewrite IH.
Qed.

(** The buckets: distinct sizes, none empty, each buffer of its bucket's size. *)
Definition buckets_ok (free : list (Z * list buf)) : Prop :=
  NoDup free.*1 /\ Forall (fun kv => kv.2 <> [] /\ Forall (fun b : buf => b.2 = kv.1) kv.2) free.

Definition flat (free : list (Z * list buf)) : list buf := concat (snd <$> free).

Lemma flat_cons k b free : flat ((k, b) :: free) = (b ++ flat free)%list.
Proof. done. Qed.

Lemma flat_app f g : flat (f ++ g) = (flat f ++ flat g)%list.
Proof. unfold flat. by rewrite fmap_app, concat_app. Qed.

Lemma bucket_split size free :
  NoDup free.*1 ->
  flat free ≡ₚ bucket_of size free ++ flat (drop_size size free) /\
  NoDup (drop_size size free).*1 /\ size ∉ (drop_size size free).*1.
Proof.
  unfold bucket_of, drop_size. induction free as [|[k b] free IH]; intros Hnd.
  { split_and!; [done|constructor|]. by intros ?%not_elem_of_nil. }
  apply NoDup_cons in Hnd as [Hk Hnd]. destruct (IH Hnd) as (IH1 & IH2 & IH3).
  cbn -[flat]. destruct (Z.eqb_spec k size) as [->|Hne]; cbn [negb].
  - assert (List.filter (fun kv : Z * list buf => negb (kv.1 =? size)) free = free) as ->.
    { clear -Hk. induction free as [|[j c] free IH]; [done|]. cbn in Hk |- *.
      apply not_elem_of_cons in Hk as [Hj Hf]. rewrite (proj2 (Z.eqb_neq j size)) by congruence.
      cbn. by rewrite IH. }
    split_and!; [done|done|done].
  - cbn -[flat]. split_and!.
    + rewrite flat_cons, flat_cons, IH1. rewrite !(Permutation_app_comm b). by rewrite app_assoc.
    + apply NoDup_cons. split; [|done]. intros Hin. apply Hk.
      apply list_elem_of_fmap in Hin as (kv & -> & Hin). apply list_elem_of_fmap. exists kv. split; [done|].
      apply list_elem_of_In, filter_In in Hin as [Hin _]. by apply list_elem_of_In.
    + apply not_elem_of_cons. split; [congruence|done].
Qed.

Lemma drop_size_ok size free : buckets_ok free -> buckets_ok (drop_size size free).
Proof.
  intros [Hnd Hf]. split; [by apply bucket_split|]. rewrite Forall_forall in Hf |- *. intros kv Hin.
  apply Hf. apply list_elem_of_In, filter_In in Hin as [Hin _]. by apply list_elem_of_In.
Qed.

Lemma bucket_of_sizes size free : buckets_ok free -> Forall (fun b : buf => b.2 = size) (bucket_of size free).
Proof.
  intros [_ Hf]. unfold bucket_of. destruct (List.find _ free) as [kv|] eqn:E; [|constructor].
  apply List.find_some in E as [Hin Hk%Z.eqb_eq]. rewrite Forall_forall in Hf.
  apply list_elem_of_In, Hf in Hin as [_ Hin]. by subst size.
Qed.

Lemma buckets_snoc size b free :
  buckets_ok free -> size ∉ free.*1 -> b <> [] -> Forall (fun x : buf => x.2 = size) b ->
  buckets_ok (free ++ [(size, b)]).
Proof.
  intros [Hnd Hf] Hs Hb Hsz. split.
  - rewrite fmap_app. apply NoDup_app. split_and!; [done| |apply NoDup_singleton].
    intros k Hk ->%list_elem_of_singleton. by apply Hs.
  - apply Forall_app. split; [done|]. by apply Forall_singleton.
Qed.

(** Taking a buffer of a bucket, and putting one back. *)
Lemma take_oversize_spec size p p' b :
  buckets_ok (oversize_free p) -> take_oversize size p = Some (p', b) ->
  exists free, p' = with_oversize free (oversize_bytes p) p /\
  buckets_ok free /\ flat (oversize_free p) ≡ₚ b :: flat free /\ b.2 = size.
Proof.
  intros Hok H. unfold take_oversize in H. pose proof (bucket_of_sizes size _ Hok) as Hsz.
  destruct (bucket_split size (oversize_free p)) as (Hp & _ & Hni); [apply Hok|].
  pose proof (drop_size_ok size _ Hok) as Hd.
  destruct (bucket_of size (oversize_free p)) as [|c rest] eqn:E; [done|]. injection H as <- <-.
  eexists. split; [done|].
  apply Forall_cons in Hsz as [Hc Hrest]. case_bool_decide as Hr.
  - subst rest. split_and!; [done|by rewrite Hp|done].
  - split_and!; [by apply buckets_snoc| |done].
    rewrite Hp, flat_app, flat_cons, app_nil_r. cbn. by rewrite (Permutation_app_comm rest).
Qed.

Lemma put_oversize_spec b p :
  buckets_ok (oversize_free p) ->
  buckets_ok (oversize_free (put_oversize b.2 b p)) /\
  flat (oversize_free (put_oversize b.2 b p)) ≡ₚ b :: flat (oversize_free p).
Proof.
  intros Hok. pose proof (bucket_of_sizes b.2 _ Hok) as Hsz.
  destruct (bucket_split b.2 (oversize_free p)) as (Hp & _ & Hni); [apply Hok|].
  cbn -[flat drop_size bucket_of]. split.
  - apply buckets_snoc; [by apply drop_size_ok|done|done|by constructor].
  - rewrite Hp, flat_app, flat_cons, app_nil_r. by rewrite (Permutation_app_comm (flat _)).
Qed.

(** Eviction takes buffers out, and counts them down. *)
Lemma evict_loop_spec fuel incoming max free bytes free' bytes' vs :
  buckets_ok free -> evict_loop fuel incoming max free bytes = (free', bytes', vs) ->
  buckets_ok free' /\ flat free = (vs ++ flat free')%list /\ bytes' = bytes - bytes_of vs.
Proof.
  revert free bytes free' bytes' vs. induction fuel as [|fuel IH]; intros free bytes free' bytes' vs Hok H.
  { injection H as <- <- <-. split_and!; [done..|]. unfold bytes_of. cbn. lia. }
  cbn [evict_loop] in H. destruct (bytes + incoming <=? max).
  { injection H as <- <- <-. split_and!; [done..|]. unfold bytes_of. cbn. lia. }
  destruct free as [|[size bucket] others].
  { injection H as <- <- <-. split_and!; [done..|]. unfold bytes_of. cbn. lia. }
  destruct bucket as [|b rest].
  { destruct Hok as [_ [[? _] _]%Forall_cons]. done. }
  destruct Hok as [[Hk Hnd]%NoDup_cons [[_ [Hb Hrest]%Forall_cons] Hf]%Forall_cons]. cbn in Hb, Hk.
  set (next := if bool_decide (rest = []) then others else (size, rest) :: others) in *.
  assert (buckets_ok next /\ flat next = (rest ++ flat others)%list) as [Hn Hfl].
  { unfold next. case_bool_decide as Hr; [by subst rest|]. split; [|done].
    split; [by constructor|]. by constructor. }
  destruct (evict_loop fuel incoming max next (bytes - size)) as [[f1 b1] v1] eqn:E.
  injection H as <- <- <-. destruct (IH _ _ _ _ _ Hn E) as (H1 & H2 & H3). split_and!; [done| |].
  - rewrite flat_cons. cbn. by rewrite <- Hfl, H2.
  - rewrite bytes_cons, H3. cbn in Hb. lia.
Qed.

Record pool_ok (s : Sys) : Prop := {
  ok_once a : occ a (all_bufs s) <= 1;
  ok_live : base_live (pool s)
            = Z.of_nat (length (free_base (pool s)) + length (in_base s) + replacing s);
  ok_bytes : oversize_bytes (pool s) = bytes_of (flat (oversize_free (pool s))) + bytes_of (in_over s);
  ok_base : Forall (fun b : buf => b.2 = base_bytes (pool s)) (free_base (pool s) ++ in_base s);
  ok_buckets : buckets_ok (oversize_free (pool s));
  ok_wake : asleep s = O \/ (length (free_base (pool s)) <= awake s)%nat;
  ok_dead : base_live (pool s) = 0 -> asleep s = O }.

Lemma occ_all a s :
  occ a (all_bufs s) = occ a (free_base (pool s)) + occ a (in_base s)
    + occ a (flat (oversize_free (pool s))) + occ a (in_over s) + occ a (retired (pool s)) + occ a (victims s).
Proof. unfold all_bufs, all_oversize. rewrite !occ_app. unfold flat. lia. Qed.

Lemma occ_fresh a a' s : fresh a s -> occ a' (all_bufs s) <= 1 ->
  occ a' (all_bufs s) + (if a =? a' then 1 else 0) <= 1.
Proof. intros Hf Ho. destruct (Z.eqb_spec a a') as [<-|]; [|lia]. by rewrite (fresh_occ a s Hf). Qed.

(** Taking a base buffer. *)
Lemma take_base_got p p' b :
  take_base p = (p', Got b) ->
  exists rest, free_base p = b :: rest /\ p' = with_base rest (base_live p) p.
Proof.
  unfold take_base. destruct (free_base p) as [|c rest]; [by destruct (base_live p =? 0)|].
  intros [= <- <-]. by exists rest.
Qed.

Lemma take_base_wait p p' : take_base p = (p', Wait) -> p' = p /\ free_base p = [] /\ base_live p <> 0.
Proof.
  unfold take_base. destruct (free_base p) as [|c rest]; [|done].
  destruct (Z.eqb_spec (base_live p) 0); [done|]. by intros [= <-].
Qed.

Lemma evict_for_spec size p p' vs :
  buckets_ok (oversize_free p) -> _evict_for size p = (p', vs) ->
  exists free, p' = with_oversize free (oversize_bytes p - bytes_of vs) p /\
  buckets_ok free /\ flat (oversize_free p) = (vs ++ flat free)%list.
Proof.
  intros Hok H. unfold _evict_for in H.
  destruct (evict_loop _ _ _ _ _) as [[free bytes] v] eqn:E. injection H as <- <-.
  destruct (evict_loop_spec _ _ _ _ _ _ _ _ Hok E) as (H1 & H2 & ->). by exists free.
Qed.

(** [notify] and [notify_all] only move waiting threads. *)
Lemma notify_fields s :
  pool (notify s) = pool s /\ in_base (notify s) = in_base s /\ replacing (notify s) = replacing s /\
  in_over (notify s) = in_over s /\ victims (notify s) = victims s /\
  (asleep s = O /\ notify s = s \/ asleep s = S (asleep (notify s)) /\ awake (notify s) = S (awake s)).
Proof. unfold notify. destruct (asleep s) eqn:E; split_and!; auto. Qed.

Lemma pool_ok_notify s :
  pool_ok (mkSys (pool s) (in_base s) (replacing s) (in_over s) (admitting s) (victims s) 0 (awake s)) ->
  (asleep s = O \/ (length (free_base (pool s)) <= S (awake s))%nat) -> base_live (pool s) <> 0 ->
  pool_ok (notify s).
Proof.
  intros [H1 H2 H3 H4 H5 _ _] Hw Hl. destruct (notify_fields s) as (E1 & E2 & E3 & E4 & E5 & E6).
  assert (forall a, occ a (all_bufs (notify s)) = occ a (all_bufs s)) as Ho.
  { intros a. by rewrite !occ_all, E1, E2, E4, E5. }
  split; rewrite ?E1, ?E2, ?E3, ?E4; try done.
  - intros a. rewrite Ho. apply H1.
  - destruct E6 as [[Ha Hn]|[Ha Hn]]; [left; by rewrite Hn|]. destruct Hw as [Hw|Hw]; [by rewrite Hw in Ha|].
    right. by rewrite Hn.
Qed.

(** The addresses registered at the start occur once. *)
Lemma occ_addrs a (base : Z) (addrs : list Z) :
  NoDup addrs -> occ a ((fun x => (x, base)) <$> addrs) <= 1.
Proof.
  induction 1 as [|x l Hx Hnd IH]; [unfold occ; cbn; lia|]. rewrite fmap_cons, occ_cons. cbn [fst].
  destruct (Z.eqb_spec x a) as [->|]; [|lia].
  assert (occ a ((fun x => (x, base)) <$> l) = 0) as ->; [|lia]. clear -Hx.
  induction l as [|y l IH]; [done|]. apply not_elem_of_cons in Hx as [Hy Hl].
  rewrite fmap_cons, occ_cons. cbn [fst]. rewrite (proj2 (Z.eqb_neq y a)) by congruence. by rewrite IH.
Qed.

Lemma init_ok base max addrs : NoDup addrs -> pool_ok (mkSys (init base max addrs) [] 0 [] [] [] 0 0).
Proof.
  intros Hnd. split; try done.
  - intros a. rewrite occ_all. cbn -[occ flat]. pose proof (occ_addrs a base addrs Hnd).
    change (occ a []) with 0. change (occ a (flat [])) with 0. lia.
  - cbn. rewrite length_fmap. lia.
  - cbn. rewrite app_nil_r. apply Forall_forall. by intros b (a & -> & _)%list_elem_of_fmap.
  - split; [constructor|constructor].
  - by left.
Qed.

(** *** Every step keeps it *)

(** The invariant from its two halves: the buffers and the waiting threads. *)
Definition bufs_ok (s : Sys) : Prop := pool_ok (mkSys (pool s) (in_base s) (replacing s) (in_over s) (admitting s) (victims s) 0 (awake s)).
Definition waits_ok (s : Sys) : Prop :=
  (asleep s = O \/ (length (free_base (pool s)) <= awake s)%nat) /\ (base_live (pool s) = 0 -> asleep s = O).

Lemma pool_ok_split s : pool_ok s <-> bufs_ok s /\ waits_ok s.
Proof.
  split.
  - intros [H1 H2 H3 H4 H5 H6 H7]. split; [|done]. split; try done. by left.
  - intros [[H1 H2 H3 H4 H5 _ _] [H6 H7]]. by split.
Qed.

(** The steps that move buffers between the regions: what they need is where
    the addresses and the bytes go. *)
Lemma bufs_intro s s' :
  bufs_ok s ->
  (forall a, occ a (all_bufs s) <= 1 -> occ a (all_bufs s') <= 1) ->
  base_live (pool s') = Z.of_nat (length (free_base (pool s')) + length (in_base s') + replacing s') ->
  oversize_bytes (pool s') = bytes_of (flat (oversize_free (pool s'))) + bytes_of (in_over s') ->
  Forall (fun b : buf => b.2 = base_bytes (pool s')) (free_base (pool s') ++ in_base s') ->
  buckets_ok (oversize_free (pool s')) -> bufs_ok s'.
Proof. intros [H1 _ _ _ _ _ _] Ho Hl Hb Hs Hk. split; try done; [|by left]. intros a. apply Ho, H1. Qed.

Lemma bufs_notify s : bufs_ok s -> bufs_ok (notify s).
Proof. unfold notify. destruct (asleep s); [done|]. intros H. by apply (bufs_intro _ _ H); destruct H. Qed.

Lemma perm_occ (l k : list buf) a : l ≡ₚ k -> occ a l = occ a k.
Proof. by intros ->. Qed.

Ltac fields := cbn [pool in_base replacing in_over admitting victims asleep awake
  with_base with_oversize with_retired put_base lose_base _retire add_oversize lose_oversize put_oversize
  base_bytes max_oversize_bytes free_base base_live oversize_free oversize_bytes retired] in *.

(** Addresses are counted region by region. *)
Ltac count_occ :=
  let a := fresh "a" in
  intros a; rewrite !occ_all; fields;
  repeat match goal with
    | H : ?l ≡ₚ _ |- _ => apply (perm_occ _ _ a) in H
    | H : @eq (list buf) _ _ |- _ => apply (f_equal (occ a)) in H
    end;
  rewrite ?occ_app, ?occ_cons in *; change (occ a []) with 0 in *;
  repeat match goal with H : context [if ?c then 1 else 0] |- _ => destruct c end; lia.

(** Lengths and bytes likewise. *)
Ltac count_len := 
  fields; repeat match goal with
    | H : ?l ≡ₚ _ |- _ => apply Permutation_length in H
    | H : @eq (list buf) _ _ |- _ => apply (f_equal length) in H
    end; cbn [length] in *; lia.

Ltac count_bytes :=
  fields; repeat match goal with
    | H : ?l ≡ₚ _ |- _ => apply bytes_proper in H
    | H : @eq (list buf) _ _ |- _ => apply (f_equal bytes_of) in H
    end; rewrite ?bytes_app, ?bytes_cons in *; cbn [snd] in *; lia.

Ltac regions Hok := apply (bufs_intro _ _ Hok); [count_occ|try count_len|try count_bytes|try done|try done].

Lemma step_bufs s s' : bufs_ok s -> step s s' -> bufs_ok s'.
Proof.
  intros Hok Hs. pose proof Hok as [H1 H2 H3 H4 H5 _ _]. fields.
  destruct Hs.
  - apply take_base_got in H as (rest & E & ->). regions Hok.
    fields. rewrite E in H4. by rewrite <-Permutation_middle.
  - apply take_base_wait in H as (-> & _ & _). regions Hok.
  - apply take_base_got in H0 as (rest & E & ->). regions Hok.
    fields. rewrite E in H4. by rewrite <-Permutation_middle.
  - apply take_base_wait in H0 as (-> & _ & _). regions Hok.
  - regions Hok.
  - regions Hok.
  - apply bufs_notify. regions Hok. fields. rewrite H in H4. by rewrite <-Permutation_middle in H4.
  - regions Hok. fields. rewrite H in H4. rewrite <-Permutation_middle in H4. by apply Forall_cons in H4 as [_ H4].
  - apply bufs_notify. apply (bufs_intro _ _ Hok).
    + intros a' Ho. pose proof (occ_fresh a a' s H0 Ho). revert H6. rewrite !occ_all. fields. rewrite occ_cons. cbn [fst]. lia.
    + fields. cbn [length]. lia.
    + done.
    + fields. by constructor.
    + done.
  - unfold notify_all. regions Hok.
  - apply take_oversize_spec in H0 as (free & -> & Hb & Hp & Hsz); [|done]. regions Hok.
  - apply evict_for_spec in H6 as (free & -> & Hb & Hp); [|done]. regions Hok.
  - regions Hok.
  - apply (bufs_intro _ _ Hok).
    + intros a' Ho. pose proof (occ_fresh a a' s H0 Ho). revert H6. rewrite !occ_all. fields. rewrite occ_cons. cbn [fst]. lia.
    + done.
    + count_bytes.
    + done.
    + done.
  - regions Hok.
  - destruct (put_oversize_spec b (pool s) H5) as [Hb Hp]. fields. regions Hok.
  - regions Hok.
Qed.

(** The waiting threads: a new free base buffer wakes one, the last base
    buffer lost wakes them all. *)
Lemma notify_waits s :
  asleep s = O \/ (length (free_base (pool s)) <= S (awake s))%nat -> base_live (pool s) <> 0 ->
  waits_ok (notify s).
Proof.
  unfold notify. destruct (asleep s) eqn:E; intros Hw Hl; split; fields; try done; [by rewrite E; left|].
  destruct Hw as [|Hw]; [done|]. by right.
Qed.

Lemma step_waits s s' : bufs_ok s -> waits_ok s -> step s s' -> waits_ok s'.
Proof.
  intros [_ Hl _ _ Hk _ _] [Hw Hd] Hs. fields.
  destruct Hs;
    repeat match goal with
      | H : take_base _ = (_, Got _) |- _ => apply take_base_got in H as (? & E & ->); rewrite E in *
      | H : take_base _ = (_, Wait) |- _ => apply take_base_wait in H as (-> & E & Hne)
      | H : take_oversize _ _ = Some _ |- _ => apply take_oversize_spec in H as (free & -> & _); [|done]
      | H : _evict_for _ _ = _ |- _ => apply evict_for_spec in H as (free & -> & _); [|done]
      | H : in_base s ≡ₚ _ |- _ => apply Permutation_length in H
      end;
    try (apply notify_waits; fields; cbn [length] in *; [destruct Hw; [by left|right; lia]|lia]);
    split; fields; cbn [length] in *; intros; rewrite ?E; cbn [length]; try done; try tauto; try lia;
    try (destruct Hw; [by left|right; lia]); try (right; lia);
    try (rewrite H0; cbn; right; lia).
Qed.

Lemma step_ok s s' : pool_ok s -> step s s' -> pool_ok s'.
Proof.
  rewrite !pool_ok_split. intros [Hb Hw] Hs. split; [by eapply step_bufs|by eapply step_waits].
Qed.

Lemma pool_reachable_ok base max s : reachable base max s -> pool_ok s.
Proof. induction 1; [by apply init_ok|by eapply step_ok]. Qed.

(** Each address occurs at most once. *)
Lemma occ_nodup l : (forall a, occ a l <= 1) -> NoDup l.*1.
Proof.
  induction l as [|b l IH]; intros H; [constructor|]. cbn. apply NoDup_cons. split.
  - intros (c & Hc & Hin)%list_elem_of_fmap. specialize (H b.1). rewrite occ_cons, Z.eqb_refl in H.
    assert (1 <= occ b.1 l); [|lia]. apply elem_of_Permutation in Hin as (l' & ->).
    rewrite occ_cons, <-Hc, Z.eqb_refl. pose proof (occ_nonneg b.1 l'). lia.
  - apply IH. intros a. specialize (H a). rewrite occ_cons in H. destruct (b.1 =? a); lia.
Qed.

(** What taking and evicting leave alone. *)
Lemma take_oversize_with size p p' b :
  take_oversize size p = Some (p', b) -> exists free, p' = with_oversize free (oversize_bytes p) p.
Proof.
  unfold take_oversize. destruct (bucket_of size (oversize_free p)); [done|]. intros [= <- _]. by eexists.
Qed.

Lemma evict_for_with size p p' vs :
  _evict_for size p = (p', vs) -> exists free bytes, p' = with_oversize free bytes p.
Proof.
  unfold _evict_for. destruct (evict_loop _ _ _ _ _) as [[free bytes] v]. intros [= <- _]. by exists free, bytes.
Qed.

(** The base size never changes, and a retired buffer stays retired. *)
Lemma step_keeps s s' : step s s' ->
  base_bytes (pool s') = base_bytes (pool s) /\ exists new, retired (pool s') = (retired (pool s) ++ new)%list.
Proof.
  assert (forall t, pool (notify t) = pool t) as Hn by (intros t; unfold notify; by destruct (asleep t)).
  destruct 1; rewrite ?Hn; unfold notify_all; fields;
    repeat match goal with
      | H : take_base _ = (_, Got _) |- _ => apply take_base_got in H as (? & _ & ->)
      | H : take_base _ = (_, Wait) |- _ => apply take_base_wait in H as (-> & _)
      | H : take_oversize _ _ = Some _ |- _ => apply take_oversize_with in H as (free & ->)
      | H : _evict_for _ _ = _ |- _ => apply evict_for_with in H as (free & bytes & ->)
      end;
    (split; [done|]); first [by exists []; rewrite app_nil_r|by eexists].
Qed.

Lemma reachable_base base max s : reachable base max s -> base_bytes (pool s) = base.
Proof. induction 1 as [|s s' _ IH Hs]; [done|]. by rewrite (proj1 (step_keeps _ _ Hs)). Qed.

(** ** Properties *)

(** [_round_pow2] is the next power of two. *)
Lemma round_pow2_spec n :
  1 <= n -> n <= _round_pow2 n < 2 * n /\ exists k, 0 <= k /\ _round_pow2 n = 2 ^ k.
Proof.
  intros Hn. unfold _round_pow2, bit_length. rewrite Z.shiftl_1_l.
  destruct (Z.eqb_spec (n - 1) 0) as [E|E].
  { assert (n = 1) as -> by lia. change (2 ^ Z.max 0 0) with 1. split; [lia|]. by exists 0. }
  pose proof (Z.log2_nonneg (Z.abs (n - 1))). rewrite Z.max_r by lia.
  pose proof (Z.log2_spec (Z.abs (n - 1)) ltac:(lia)) as Hs.
  rewrite <-Z.add_1_r in Hs. rewrite Z.abs_eq in * by lia.
  assert (2 ^ (Z.log2 (n - 1) + 1) = 2 * 2 ^ Z.log2 (n - 1)) by (rewrite Z.pow_add_r by lia; lia).
  split; [lia|]. exists (Z.log2 (n - 1) + 1). lia.
Qed.

(** A registered buffer is in one place: free, in use, retired, or about to be
    deregistered, and a retired one stays where it is, so no two operations
    ever share memory and a buffer a failed transfer may still touch is never
    handed out.  The counters are what they say they are.  While a base buffer
    is free, no waiting thread is left without a wake-up, and none is left
    waiting when no base buffer can ever come back. *)
Theorem buffers_are_never_shared (base max : Z) (s : Sys) :
  reachable base max s ->
  NoDup (all_bufs s).*1 /\
  base_live (pool s) = Z.of_nat (length (free_base (pool s)) + length (in_base s) + replacing s) /\
  oversize_bytes (pool s) = bytes_of (all_oversize (pool s)) + bytes_of (in_over s) /\
  (asleep s = O \/ (length (free_base (pool s)) <= awake s)%nat) /\
  (base_live (pool s) = 0 -> asleep s = O) /\
  forall s', step s s' -> exists new, retired (pool s') = (retired (pool s) ++ new)%list.
Proof.
  intros Hr. destruct (pool_reachable_ok _ _ _ Hr) as [H1 H2 H3 _ _ H6 H7].
  split_and!; [by apply occ_nodup|done..|]. intros s' Hs. by apply step_keeps.
Qed.

(** The buffer an operation gets holds the bytes it asked for, and a large one
    is less than twice as big. *)
Theorem acquired_buffer_is_big_enough (base max : Z) (s : Sys) (nbytes : Z) :
  reachable base max s -> 1 <= nbytes ->
  (nbytes <= base -> forall p b, take_base (pool s) = (p, Got b) -> nbytes <= b.2 /\ b.2 = base) /\
  (base < nbytes ->
   nbytes <= _round_pow2 nbytes < 2 * nbytes /\
   forall p b, take_oversize (_round_pow2 nbytes) (pool s) = Some (p, b) -> b.2 = _round_pow2 nbytes).
Proof.
  intros Hr Hn. destruct (pool_reachable_ok _ _ _ Hr) as [_ _ _ H4 H5 _ _]. rewrite (reachable_base _ _ _ Hr) in H4. split.
  - intros Hb p b (rest & E & _)%take_base_got. rewrite E in H4. apply Forall_cons in H4 as [H4 _]. lia.
  - intros _. split; [by apply round_pow2_spec|]. intros p b (free & _ & _ & _ & Hsz)%take_oversize_spec; [done|done].
Qed.

(** The loop of [_evict_for] stops at the budget or with nothing free left, and
    took each of its victims while over the budget. *)
Lemma evict_loop_stops fuel incoming max free bytes free' bytes' vs :
  buckets_ok free -> (free_count free <= fuel)%nat ->
  evict_loop fuel incoming max free bytes = (free', bytes', vs) ->
  (bytes' + incoming <= max \/ free' = []) /\
  forall pre b post, vs = (pre ++ b :: post)%list -> max < bytes - bytes_of pre + incoming.
Proof.
  revert free bytes free' bytes' vs. induction fuel as [|fuel IH]; intros free bytes free' bytes' vs Hok Hf H.
  { cbn in H. injection H as <- <- <-. split; [right|by intros [] ? ?].
    destruct free as [|[size [|b rest]] others]; [done| |cbn in Hf; lia].
    destruct Hok as [_ [[? _] _]%Forall_cons]. done. }
  cbn [evict_loop] in H. destruct (Z.leb_spec (bytes + incoming) max).
  { injection H as <- <- <-. split; [by left|by intros [] ? ?]. }
  destruct free as [|[size bucket] others].
  { injection H as <- <- <-. split; [by right|by intros [] ? ?]. }
  destruct bucket as [|b rest].
  { destruct Hok as [_ [[? _] _]%Forall_cons]. done. }
  destruct Hok as [[Hk Hnd]%NoDup_cons [[_ [Hb Hrest]%Forall_cons] Hfa]%Forall_cons]. cbn in Hb, Hk.
  set (next := if bool_decide (rest = []) then others else (size, rest) :: others) in *.
  assert (buckets_ok next /\ (free_count next <= fuel)%nat) as [Hn Hc].
  { unfold free_count in *. cbn in Hf. unfold next. case_bool_decide as Hr; [subst rest; split; [done|cbn in Hf; lia]|].
    split; [|cbn; lia]. split; by constructor. }
  destruct (evict_loop fuel incoming max next (bytes - size)) as [[f1 b1] v1] eqn:E.
  injection H as <- <- <-. destruct (IH _ _ _ _ _ Hn Hc E) as [H1 H2]. split; [done|].
  intros [|c pre] b' post [= <- ->]; [unfold bytes_of; cbn; lia|].
  specialize (H2 pre b' post eq_refl). rewrite bytes_cons. lia.
Qed.

(** Eviction makes room for the buffer to come, or empties the pool of free
    large buffers trying: it takes buffers out of the least recently used size
    first, no more of them than the budget asks for, and leaves base buffers
    and buffers in use alone. *)
Theorem eviction_makes_room_oldest_first (base max : Z) (s : Sys) (size : Z) p vs :
  reachable base max s -> _evict_for size (pool s) = (p, vs) ->
  (oversize_bytes p + size <= max_oversize_bytes (pool s) \/ oversize_free p = []) /\
  all_oversize (pool s) = (vs ++ all_oversize p)%list /\
  oversize_bytes p = oversize_bytes (pool s) - bytes_of vs /\
  free_base p = free_base (pool s) /\ retired p = retired (pool s) /\
  (forall pre b post, vs = (pre ++ b :: post)%list ->
     max_oversize_bytes (pool s) < oversize_bytes (pool s) - bytes_of pre + size).
Proof.
  intros Hr H. destruct (pool_reachable_ok _ _ _ Hr) as [_ _ _ _ H5 _ _]. unfold _evict_for in H.
  destruct (evict_loop _ _ _ _ _) as [[free bytes] v] eqn:E. injection H as <- <-. fields.
  destruct (evict_loop_spec _ _ _ _ _ _ _ _ H5 E) as (_ & H2 & H3).
  destruct (evict_loop_stops _ _ _ _ _ _ _ _ H5 (le_n _) E) as [H6 H7]. done.
Qed.

(** [close] gives back what is free and nothing else: buffers in use and retired
    ones stay registered. *)
Lemma close_leaves_what_is_in_use (s : Sys) (p : BufferPool) (l : list buf) :
  close (pool s) = (p, l) ->
  retired p = retired (pool s) /\ (all_bufs s ≡ₚ l ++ all_bufs (with_pool p s)).
Proof.
  intros [= <- <-]. split; [done|]. unfold all_bufs, all_oversize, with_pool. fields.
  change (concat (snd <$> [])) with (@nil buf). cbn [app]. solve_Permutation.
Qed.

(** ** A run of the pool

    Two base buffers of 64 bytes, and room for 256 bytes of large ones.  Both
    are taken, a third request waits, a failed transfer retires one, which is
    replaced and wakes the request; a request of 100 bytes registers a buffer of
    128, which comes back; one of 200 bytes evicts it. *)
Module Demo.

Definition s0 : Sys := mkSys (init 64 256 [1; 2]) [] 0 [] [] [] 0 0.
Definition waiting : Sys := mkSys (with_base [] 2 (pool s0)) [(2, 64); (1, 64)] 0 [] [] [] 1 0.
Definition woken : Sys :=
  mkSys (mkPool 64 256 [(3, 64)] 2 [] 0 [(2, 64)]) [(1, 64)] 0 [] [] [] 0 1.
Definition pooled : Sys :=
  mkSys (mkPool 64 256 [(3, 64)] 2 [(128, [(4, 128)])] 128 [(2, 64)]) [(1, 64)] 0 [] [] [] 0 1.
Definition evicted : Sys :=
  mkSys (mkPool 64 256 [(3, 64)] 2 [] 0 [(2, 64)]) [(1, 64)] 0 [] [256] [(4, 128)] 0 1.

Lemma reach_waiting : reachable 64 256 waiting.
Proof.
  eapply reach_step; [|apply (step_wait (mkSys (with_base [] 2 (pool s0)) [(2, 64); (1, 64)] 0 [] [] [] 0 0)); reflexivity].
  eapply reach_step; [|apply (step_take (mkSys (with_base [(2, 64)] 2 (pool s0)) [(1, 64)] 0 [] [] [] 0 0)); reflexivity].
  eapply reach_step; [|apply (step_take s0); reflexivity].
  apply reach_init; [apply (bool_decide_unpack _); exact I|discriminate].
Qed.

Lemma fresh_of a s : bool_decide (a ∉ (all_bufs s).*1) = true -> fresh a s.
Proof. by intros H%bool_decide_eq_true. Qed.

Lemma reach_woken : reachable 64 256 woken.
Proof.
  eapply reach_step; [eapply reach_step; [apply reach_waiting|]|].
  - apply (step_retire_base waiting (2, 64) [(1, 64)]). reflexivity.
  - apply (step_replaced (mkSys (_retire (2, 64) (pool waiting)) [(1, 64)] 1 [] [] [] 1 0) 0 3); [reflexivity|].
    apply fresh_of. reflexivity.
Qed.

Lemma reach_pooled : reachable 64 256 pooled.
Proof.
  eapply reach_step; [eapply reach_step; [eapply reach_step; [apply reach_woken|]|]|].
  - apply (step_evict woken 100 (with_oversize [] 0 (pool woken)) []); reflexivity.
  - apply (step_register (mkSys (pool woken) [(1, 64)] 0 [] [128] [] 0 1) 128 [] 4); [reflexivity|].
    apply fresh_of. reflexivity.
  - apply (step_release_over (mkSys (add_oversize 128 (pool woken)) [(1, 64)] 0 [(4, 128)] [] [] 0 1) (4, 128) []).
    reflexivity.
Qed.

Lemma reach_evicted : reachable 64 256 evicted.
Proof.
  eapply reach_step; [apply reach_pooled|].
  apply (step_evict pooled 200 (with_oversize [] 0 (pool pooled)) [(4, 128)]); reflexivity.
Qed.

Lemma shared_witness :
  reachable 64 256 evicted /\ NoDup (all_bufs evicted).*1 /\ base_live (pool evicted) = 2.
Proof.
  split; [exact reach_evicted|]. destruct (buffers_are_never_shared 64 256 evicted reach_evicted) as (H & L & _).
  split; [exact H|]. rewrite L. reflexivity.
Defined.

Lemma big_enough_witness : _round_pow2 100 = 128 /\ 100 <= _round_pow2 100 < 200.
Proof.
  split; [reflexivity|].
  exact (proj1 (proj2 (acquired_buffer_is_big_enough 64 256 pooled 100 reach_pooled ltac:(lia)) ltac:(lia))).
Defined.

Lemma eviction_witness :
  let r := _evict_for 256 (pool pooled) in
  r.2 = [(4, 128)] /\ (oversize_bytes r.1 + 256 <= 256 \/ oversize_free r.1 = []).
Proof.
  cbn zeta. split; [reflexivity|].
  exact (proj1 (eviction_makes_room_oldest_first 64 256 pooled 256 _ _ reach_pooled (surjective_pairing _))).
Defined.

End Demo.
