(* ===== verification/RouteAssembly.v ===== *)
(** * Assembling captured expert routes
    ([experience/route_assembly.py], [utils/routed_experts_codec.py] and the
    slicing of [models/generation/vllm/vllm_worker_async.py])

    Each model call of a rollout stages the expert routes of its own tokens; the
    executor of a route plan puts the staged fragments together into one route
    tensor for the whole row, with a sentinel where no route was recorded.

    The table that classifies a span and the digest of the extras belong to
    [nemo_gym], and the SHA-256 and JSON routines to foreign code: they are
    arguments. *)

From S2P Require Import Prelude.
From S2P Require Import PyVal.
From S2P Require Import PyStr.
From S2P Require Import RoutePlan.
#[local] Open Scope string_scope.
#[local] Open Scope Z_scope.

Definition ROUTE_MISSING_SENTINEL : Z := -1.

Definition ROUTE_FAILURE_CANONICAL_LENGTH : string := "canonical_length_mismatch".
Definition ROUTE_FAILURE_MISSING_FRAGMENT : string := "missing_fragment".
Definition ROUTE_FAILURE_INTEGRITY : string := "fragment_integrity".
Definition ROUTE_FAILURE_RANK : string := "fragment_rank".
Definition ROUTE_FAILURE_LENGTH : string := "fragment_length".
Definition ROUTE_FAILURE_MODEL_SHAPE : string := "fragment_model_shape".
Definition ROUTE_FAILURE_ASSEMBLED_LENGTH : string := "assembled_length_mismatch".

Definition boundary_route_rows (prev_len : Z) : Z := if 0 <? prev_len then 1 else 0.

(** ** Route tensors

    The routes of one token: per layer, the experts chosen.  A tensor of another
    rank is only ever refused or turned into nested lists. *)
Abbreviation route_row := (list (list Z)).

Inductive route_dtype := Int8 | Int16 | Int32 | Int64.

Inductive RouteTensor :=
| Routes (dtype : route_dtype) (layers topk : Z) (rows : list route_row)
| OtherRank (dtype : route_dtype) (tolist : PyVal).

(** [tensor.to(torch.int16)] of one element. *)
Definition int16 (z : Z) : Z := (z + 32768) mod 65536 - 32768.
Definition row_to_int16 (r : route_row) : route_row := map (map int16) r.

(** A tensor's rows have its dimensions. *)
Definition row_shape (layers topk : Z) (r : route_row) : Prop :=
  Z.of_nat (length r) = layers /\ Forall (fun l : list Z => Z.of_nat (length l) = topk) r.

(** ** [RouteLayout] *)

Record RouteLayout := mkLayout {
  moe_layer_numbers : list Z;
  total_num_layers : Z;
  top_k : Z }.

Definition new_layout (numbers : list Z) (total k : Z) : res RouteLayout :=
  _ ← raise_if (bool_decide (numbers = []) || (k <=? 0)) ValueError;
  _ ← raise_if ((total <? Z.of_nat (length numbers))
                || existsb (fun n => negb ((1 <=? n) && (n <=? total))) numbers) ValueError;
  Ok (mkLayout numbers total k).

(** [range(1, n + 1)]. *)
Definition one_to (n : Z) : list Z := seqZ 1 n.

Definition compressed (num_moe_layers k : Z) : res RouteLayout :=
  new_layout (one_to num_moe_layers) num_moe_layers k.

Definition num_moe_layers (l : RouteLayout) : Z := Z.of_nat (length (moe_layer_numbers l)).

Definition moe_column_indices (l : RouteLayout) (num_payload_layers : Z) : option (list Z) :=
  if num_payload_layers =? num_moe_layers l then Some (seqZ 0 (num_moe_layers l))
  else if num_payload_layers =? total_num_layers l then Some ((fun n => n - 1) <$> moe_layer_numbers l)
  else None.

(** [row[columns]]. *)
Definition pick_columns (columns : list Z) (r : route_row) : route_row :=
  (fun c => default [] (r !! Z.to_nat c)) <$> columns.

Definition select_moe_columns (l : RouteLayout) (layers k : Z) (rows : list route_row)
  : option (list route_row) :=
  if negb (k =? top_k l) then None
  else match moe_column_indices l layers with
       | None => None
       | Some columns =>
           if Z.of_nat (length columns) =? layers then Some rows else Some (pick_columns columns <$> rows)
       end.

(** ** The envelope of a route tensor *)

Definition dtype_name (d : route_dtype) : option string :=
  match d with Int8 => Some "int8" | Int16 => Some "int16" | Int32 => Some "int32" | Int64 => None end.

Definition itemsize (d : route_dtype) : nat :=
  match d with Int8 => 1 | Int16 => 2 | Int32 => 4 | Int64 => 8 end.

(** [_route_array]: the wire name, the shape and the elements of a tensor of
    rank 3. *)
Definition _route_array (t : RouteTensor) : res (string * list Z * list Z) :=
  match t with
  | OtherRank _ _ => Raise ValueError
  | Routes d layers k rows =>
      match dtype_name d with
      | None => Raise ValueError
      | Some name => Ok (name, [Z.of_nat (length rows); layers; k], concat (map (@concat Z) rows))
      end
  end.

(** The little-endian bytes of the elements. *)
Definition array_bytes (d : route_dtype) (elements : list Z) : list Z := elements ≫= le_bytes (itemsize d).

Definition tensor_dtype (t : RouteTensor) : route_dtype :=
  match t with Routes d _ _ _ => d | OtherRank d _ => d end.

(** [base64.b64encode]. *)
Definition b64_digit (n : Z) : Ascii.ascii :=
  default (Ascii.ascii_of_nat 61) (String.get (Z.to_nat n) "ABCDEFGHIJKLMNOPQRSTUVWXYZabcdefghijklmnopqrstuvwxyz0123456789+/").

Fixpoint b64encode (bytes : list Z) : string :=
  match bytes with
  | [] => ""
  | [a] => String (b64_digit (a / 4)) (String (b64_digit (a mod 4 * 16)) "==")
  | [a; b] =>
      String (b64_digit (a / 4)) (String (b64_digit (a mod 4 * 16 + b / 16)) (String (b64_digit (b mod 16 * 4)) "="))
  | a :: b :: c :: rest =>
      String (b64_digit (a / 4)) (String (b64_digit (a mod 4 * 16 + b / 16))
        (String (b64_digit (b mod 16 * 4 + c / 64)) (String (b64_digit (c mod 64)) (b64encode rest))))
  end.

Definition encode_routed_experts (t : RouteTensor) : res string :=
  '(name, shape, elements) ← _route_array t;
  let dims := match shape with
              | [s; l; k] => str_of_int s +:+ "x" +:+ str_of_int l +:+ "x" +:+ str_of_int k
              | _ => ""
              end in
  Ok ("nrlre1:" +:+ name +:+ ":" +:+ dims +:+ ":" +:+ b64encode (array_bytes (tensor_dtype t) elements)).

(** [tensor.tolist()]. *)
Definition tensor_tolist (t : RouteTensor) : PyVal :=
  match t with
  | Routes _ _ _ rows => VList (map (fun r : route_row => VList (map (fun l => VList (map VInt l)) r)) rows)
  | OtherRank _ l => l
  end.

(** ** Fragments *)

Definition ROUTE_ENCODING_ENVELOPE : Z := 1.
Definition ROUTE_ENCODING_LIST : Z := 2.
Definition ROUTE_ENCODING_TENSOR : Z := 3.
Definition ROUTED_EXPERTS_FIELD : string := "routed_experts".

Record RouteFragment := mkFragment {
  routes : RouteTensor;
  encoding : Z;
  extras_metadata_json : string }.

(** How a span's fragment covers it. *)
Inductive span_mode := Full | Tail | Sentinel.
#[export] Instance span_mode_eq_dec : EqDecision span_mode.
Proof. solve_decision. Defined.

Section foreign.
Context (sha256 : list Z -> string) (json_loads : string -> res PyVal).
Context (GYM_EXTRAS_DIGEST_VERSION : Z) (compute_extras_digest : list (PyVal * PyVal) -> res string).
Context (classify_route_span : Z -> Z -> Z -> res span_mode).

Definition routed_experts_tensor_metadata (t : RouteTensor) : res PyVal :=
  '(name, shape, elements) ← _route_array t;
  Ok (str_dict [("dtype", VStr name); ("shape", VList (VInt <$> shape));
                ("sha256", VStr (sha256 (array_bytes (tensor_dtype t) elements)))]).

(** The extras the digest is computed from, [None] where the function answers
    [False] without one. *)
Definition envelope (f : RouteFragment) : res (option (list (PyVal * PyVal))) :=
  decoded ← json_loads (extras_metadata_json f);
  match (match decoded with VNone => Some [] | VDict d => Some d | _ => None end) with
  | None => Ok None
  | Some extras =>
      if encoding f =? ROUTE_ENCODING_TENSOR then
        v ← routed_experts_tensor_metadata (routes f); Ok (Some (dict_set ROUTED_EXPERTS_FIELD v extras))
      else if encoding f =? ROUTE_ENCODING_ENVELOPE then
        s ← encode_routed_experts (routes f); Ok (Some (dict_set ROUTED_EXPERTS_FIELD (VStr s) extras))
      else if encoding f =? ROUTE_ENCODING_LIST then
        Ok (Some (dict_set ROUTED_EXPERTS_FIELD (tensor_tolist (routes f)) extras))
      else Ok None
  end.

Definition verify_route_fragment_integrity (f : RouteFragment) (version : Z) (expected : string) : res bool :=
  if negb (version =? GYM_EXTRAS_DIGEST_VERSION) then Ok false
  else
    match (e ← envelope f; match e with
                           | None => Ok false
                           | Some extras => d ← compute_extras_digest extras; Ok (String.eqb d expected)
                           end) with
    | Raise ValueError | Raise TypeError => Ok false
    | r => r
    end.

(** ** The executor *)

(** [t[i] = row] and [t[a:b] = rows]: a single row is repeated, any other number
    of rows than the slice has is refused. *)
Definition assign_row (i : Z) (row : route_row) (t : list route_row) : res (list route_row) :=
  match py_index (length t) i with
  | Some j => Ok (<[j := row]> t)
  | None => Raise IndexError
  end.

Definition assign_slice (a b : Z) (rows t : list route_row) : res (list route_row) :=
  let lo := py_bound (length t) a in
  let k := (py_bound (length t) b - lo)%nat in
  match rows with
  | [r] => Ok (take lo t ++ replicate k r ++ drop (lo + k) t)%list
  | _ =>
      if (length rows =? k)%nat then Ok (take lo t ++ rows ++ drop (lo + k) t)%list
      else Raise RuntimeError
  end.

(** [rows[start:]]. *)
Definition slice_from (start : Z) (rows : list route_row) : list route_row := drop (py_bound (length rows) start) rows.

Inductive assembled := Assembled (rows : list route_row) | Unassembled (reason : string).

Definition sentinel_row (l : RouteLayout) : route_row :=
  replicate (length (moe_layer_numbers l)) (replicate (Z.to_nat (top_k l)) ROUTE_MISSING_SENTINEL).

(** The fragment of a span, checked, with the trained layers' columns. *)
Definition fragment_rows (l : RouteLayout) (fragments : gmap string RouteFragment) (span : RouteSpan)
  : res (list route_row + string) :=
  match fragments !! staging_key span with
  | None => Ok (inr ROUTE_FAILURE_MISSING_FRAGMENT)
  | Some f =>
      ok ← verify_route_fragment_integrity f (extras_digest_version span) (extras_digest span);
      if negb ok then Ok (inr ROUTE_FAILURE_INTEGRITY)
      else match routes f with
           | OtherRank _ _ => Ok (inr ROUTE_FAILURE_RANK)
           | Routes _ layers k rows =>
               if negb (Z.of_nat (length rows) =? staged_route_len span) then Ok (inr ROUTE_FAILURE_LENGTH)
               else match select_moe_columns l layers k rows with
                    | None => Ok (inr ROUTE_FAILURE_MODEL_SHAPE)
                    | Some rows => Ok (inl rows)
                    end
           end
  end.

(** The rows of a span written at [position]. *)
Definition write_span (mode : span_mode) (span : RouteSpan) (rows : list route_row) (position : Z)
  (t : list route_row) : res (list route_row) :=
  let contribution := carry_len span + generation_len span in
  '(t, rows) ←
    (if boundary_rows span =? 0 then Ok (t, rows)
     else first ← get_index rows 0;
          t ← assign_row (position - 1) (row_to_int16 first) t;
          Ok (t, slice_from 1 rows));
  match mode with
  | Full => assign_slice position (position + contribution) (row_to_int16 <$> rows) t
  | _ => assign_slice (position + carry_len span) (position + contribution)
           (row_to_int16 <$> slice_from (- generation_len span) rows) t
  end.

Fixpoint execute_spans (l : RouteLayout) (fragments : gmap string RouteFragment) (spans : list RouteSpan)
  (position : Z) (t : list route_row) : res (Z * list route_row + string) :=
  match spans with
  | [] => Ok (inl (position, t))
  | span :: rest =>
      mode ← classify_route_span (carry_len span) (generation_len span)
               (staged_route_len span - boundary_rows span);
      let next := position + (carry_len span + generation_len span) in
      match mode with
      | Sentinel => execute_spans l fragments rest next t
      | _ =>
          r ← fragment_rows l fragments span;
          match r with
          | inr reason => Ok (inr reason)
          | inl rows => t ← write_span mode span rows position t; execute_spans l fragments rest next t
          end
      end
  end.

Definition execute_route_plan (plan : RouteAssemblyPlan) (fragments : gmap string RouteFragment)
  (l : RouteLayout) (canonical_len : Z) : res assembled :=
  if negb (canonical_len =? expected_token_length plan) then Ok (Unassembled ROUTE_FAILURE_CANONICAL_LENGTH)
  else
    r ← execute_spans l fragments (spans plan) 0 (replicate (Z.to_nat canonical_len) (sentinel_row l));
    match r with
    | inr reason => Ok (Unassembled reason)
    | inl (position, t) =>
        if negb (bool_decide (spans plan = [])) && negb (position =? canonical_len)
        then Ok (Unassembled ROUTE_FAILURE_ASSEMBLED_LENGTH)
        else Ok (Assembled t)
    end.

(** ** What an assembled tensor is

    The same tensor built from the front: each span appends its rows, and a
    boundary row replaces the last row so far. *)
Definition set_last (x : route_row) (acc : list route_row) : list route_row :=
  (take (length acc - 1) acc ++ [x])%list.

Definition append_span (l : RouteLayout) (mode : span_mode) (span : RouteSpan) (rows acc : list route_row)
  : list route_row :=
  let carry := Z.to_nat (carry_len span) in
  let gen := Z.to_nat (generation_len span) in
  match mode, (if boundary_rows span =? 0 then [] else take 1 rows) with
  | Sentinel, _ => acc ++ replicate (carry + gen) (sentinel_row l)
  | Full, [] => acc ++ rows
  | Full, b :: _ => set_last b acc ++ drop 1 rows
  | Tail, [] => acc ++ replicate carry (sentinel_row l) ++ rows
  | Tail, b :: _ => set_last b acc ++ replicate carry (sentinel_row l) ++ drop 1 rows
  end%list.

Definition mode_of (span : RouteSpan) : span_mode :=
  match classify_route_span (carry_len span) (generation_len span) (staged_route_len span - boundary_rows span) with
  | Ok m => m
  | Raise _ => Sentinel
  end.

Definition rows_of (l : RouteLayout) (fragments : gmap string RouteFragment) (span : RouteSpan) : list route_row :=
  match fragment_rows l fragments span with Ok (inl rows) => row_to_int16 <$> rows | _ => [] end.

Fixpoint appended (l : RouteLayout) (fragments : gmap string RouteFragment) (spans : list RouteSpan)
  (acc : list route_row) : list route_row :=
  match spans with
  | [] => acc
  | span :: rest => appended l fragments rest (append_span l (mode_of span) span (rows_of l fragments span) acc)
  end.

(** The decision table: a full span's fragment covers it, a tail span's covers
    what was generated. *)
Definition table_sound : Prop := forall c g s m,
  0 <= c -> 0 <= g -> classify_route_span c g s = Ok m ->
  match m with Full => s = c + g | Tail => s = g /\ 0 < g | Sentinel => True end.

Lemma assign_slice_exact lo k rows t :
  (lo + k <= length t)%nat -> length rows = k ->
  assign_slice (Z.of_nat lo) (Z.of_nat (lo + k)) rows t = Ok (take lo t ++ rows ++ drop (lo + k) t)%list.
Proof.
  intros Hk <-. unfold assign_slice. rewrite !py_bound_nat by lia. cbv zeta. replace (lo + length rows - lo)%nat with (length rows) by lia.
  destruct rows as [|r [|r' rows]]; cbn [length]; [by rewrite Nat.eqb_refl|done|by rewrite Nat.eqb_refl].
Qed.

Lemma slice_from_last n rows : (n <= length rows)%nat -> (0 < n)%nat ->
  slice_from (- Z.of_nat n) rows = drop (length rows - n) rows.
Proof.
  intros Hn H0. unfold slice_from, py_bound. rewrite (proj2 (Z.ltb_lt _ 0)) by lia. f_equal. lia.
Qed.

Lemma slice_from_one rows : slice_from 1 rows = drop 1 rows.
Proof.
  unfold slice_from, py_bound. cbn [Z.ltb Z.compare]. destruct rows as [|r rows]; [done|].
  f_equal. cbn [length]. lia.
Qed.

(** Writing into the part of the tensor not yet written. *)
Lemma write_blank acc k x n rows :
  length rows = k -> (length acc + k <= n)%nat ->
  assign_slice (Z.of_nat (length acc)) (Z.of_nat (length acc + k)) rows (acc ++ replicate (n - length acc) x)
  = Ok (acc ++ rows ++ replicate (n - (length acc + k)) x)%list.
Proof.
  intros Hk Hn. rewrite assign_slice_exact; [|rewrite length_app, length_replicate; lia|done].
  f_equal. rewrite take_app_length, drop_app_ge by lia. rewrite drop_replicate. do 3 f_equal. lia.
Qed.

Lemma write_last acc x y n :
  (0 < length acc)%nat ->
  assign_row (Z.of_nat (length acc) - 1) x (acc ++ replicate n y) = Ok (set_last x acc ++ replicate n y)%list.
Proof.
  intros H0. unfold assign_row, py_index. rewrite (proj2 (Z.ltb_ge _ 0)) by lia.
  rewrite (proj2 (Z.leb_le _ _)) by lia. rewrite (proj2 (Z.ltb_lt _ _)) by (rewrite length_app; lia). cbn [andb].
  f_equal. unfold set_last. replace (Z.to_nat (Z.of_nat (length acc) - 1)) with (length acc - 1)%nat by lia.
  rewrite insert_app_l by lia. f_equal. rewrite insert_take_drop by lia. f_equal.
  by rewrite drop_ge by lia.
Qed.

Lemma length_set_last x acc : (0 < length acc)%nat -> length (set_last x acc) = length acc.
Proof. intros H. unfold set_last. rewrite length_app, length_take. cbn. lia. Qed.

(** The second half of [write_span]: the rows that are the span's own. *)
Definition own_rows (l : RouteLayout) (mode : span_mode) (span : RouteSpan) (rows : list route_row) : list route_row :=
  match mode with
  | Full => rows
  | _ => (replicate (Z.to_nat (carry_len span)) (sentinel_row l) ++ rows)%list
  end.

Lemma write_own l mode span rows acc n :
  0 <= carry_len span -> 0 <= generation_len span -> mode <> Sentinel ->
  match mode with
  | Full => Z.of_nat (length rows) = carry_len span + generation_len span
  | _ => Z.of_nat (length rows) = generation_len span /\ 0 < generation_len span
  end ->
  (length acc + (Z.to_nat (carry_len span) + Z.to_nat (generation_len span)) <= n)%nat ->
  (match mode with
   | Full => assign_slice (Z.of_nat (length acc)) (Z.of_nat (length acc) + (carry_len span + generation_len span))
   | _ => assign_slice (Z.of_nat (length acc) + carry_len span)
            (Z.of_nat (length acc) + (carry_len span + generation_len span))
   end) (match mode with Full => row_to_int16 <$> rows | _ => row_to_int16 <$> slice_from (- generation_len span) rows end)
    (acc ++ replicate (n - length acc) (sentinel_row l))%list
  = Ok ((acc ++ own_rows l mode span (row_to_int16 <$> rows))
        ++ replicate (n - (length acc + (Z.to_nat (carry_len span) + Z.to_nat (generation_len span)))) (sentinel_row l))%list.
Proof.
  intros Hc Hg Hm Hl Hn.
  set (c := Z.to_nat (carry_len span)) in *. set (g := Z.to_nat (generation_len span)) in *.
  replace (carry_len span) with (Z.of_nat c) in * by lia. replace (generation_len span) with (Z.of_nat g) in * by lia.
  destruct mode; [| |done]; cbn [own_rows].
  - replace (Z.of_nat (length acc) + (Z.of_nat c + Z.of_nat g)) with (Z.of_nat (length acc + (c + g))) by lia.
    rewrite write_blank; [by rewrite app_assoc|rewrite length_fmap; lia|lia].
  - destruct Hl as [Hl Hg0]. rewrite slice_from_last by lia. replace (length rows - g)%nat with 0%nat by lia. rewrite drop_0.
    set (pre := (acc ++ replicate c (sentinel_row l))%list).
    assert (length pre = (length acc + c)%nat) as Hpre by (unfold pre; by rewrite length_app, length_replicate).
    replace (acc ++ replicate (n - length acc) (sentinel_row l))%list
      with (pre ++ replicate (n - length pre) (sentinel_row l))%list.
    2: { unfold pre. rewrite <- app_assoc, <- replicate_add. do 2 f_equal. rewrite length_app, length_replicate. lia. }
    replace (Z.of_nat (length acc) + Z.of_nat c) with (Z.of_nat (length pre)) by lia.
    replace (Z.of_nat (length acc) + (Z.of_nat c + Z.of_nat g)) with (Z.of_nat (length pre + g)) by lia.
    rewrite write_blank; [|rewrite length_fmap; lia|lia]. replace (length pre + g)%nat with (length acc + (c + g))%nat by lia.
    unfold pre. fold c. by rewrite !app_assoc.
Qed.

Lemma write_span_spec l mode span rows acc n :
  0 <= carry_len span -> 0 <= generation_len span -> mode <> Sentinel ->
  boundary_rows span = 0 \/ (boundary_rows span = 1 /\ (0 < length acc)%nat) ->
  match mode with
  | Full => Z.of_nat (length rows) - boundary_rows span = carry_len span + generation_len span
  | _ => Z.of_nat (length rows) - boundary_rows span = generation_len span /\ 0 < generation_len span
  end ->
  (length acc + (Z.to_nat (carry_len span) + Z.to_nat (generation_len span)) <= n)%nat ->
  write_span mode span rows (Z.of_nat (length acc)) (acc ++ replicate (n - length acc) (sentinel_row l))%list
  = Ok (append_span l mode span (row_to_int16 <$> rows) acc
        ++ replicate (n - (length acc + (Z.to_nat (carry_len span) + Z.to_nat (generation_len span)))) (sentinel_row l))%list.
Proof.
  intros Hc Hg Hm Hb Hl Hn. unfold write_span, append_span. destruct Hb as [Hb|[Hb Ha]].
  - rewrite Hb in *. rewrite Z.eqb_refl. cbn [mbind res_bind].
    pose proof (write_own l mode span rows acc n Hc Hg Hm ltac:(destruct mode; lia) Hn) as Hw.
    destruct mode; [exact Hw|exact Hw|done].
  - rewrite Hb in *. cbn [Z.eqb]. destruct rows as [|first rest].
    { destruct mode; cbn in Hl; lia. }
    cbn [get_index lookup list_lookup mbind res_bind]. unfold get_index. cbn [lookup list_lookup mbind res_bind].
    rewrite write_last by done. cbn [mbind res_bind]. rewrite slice_from_one. cbn [skipn].
    rewrite <- (length_set_last (row_to_int16 first) acc Ha).
    rewrite <- (length_set_last (row_to_int16 first) acc Ha) in Hn.
    pose proof (write_own l mode span rest (set_last (row_to_int16 first) acc) n) as Hw.
    cbn [length] in Hl. rewrite Nat2Z.inj_succ in Hl.
    specialize (Hw Hc Hg Hm ltac:(destruct mode; lia) Hn).
    destruct mode; [exact Hw|exact Hw|done].
Qed.

Lemma length_append_span l mode span rows acc :
  0 <= carry_len span -> 0 <= generation_len span ->
  boundary_rows span = 0 \/ (boundary_rows span = 1 /\ (0 < length acc)%nat) ->
  match mode with
  | Full => Z.of_nat (length rows) - boundary_rows span = carry_len span + generation_len span
  | Tail => Z.of_nat (length rows) - boundary_rows span = generation_len span
  | Sentinel => True
  end ->
  length (append_span l mode span rows acc)
  = (length acc + (Z.to_nat (carry_len span) + Z.to_nat (generation_len span)))%nat.
Proof.
  intros Hc Hg Hb Hl. unfold append_span. destruct Hb as [Hb|[Hb Ha]]; rewrite Hb in *; cbn [Z.eqb].
  - destruct mode; rewrite !length_app, ?length_replicate; lia.
  - destruct rows as [|first rest]; cbn [firstn skipn length] in *.
    + destruct mode; [lia|lia|]. rewrite !length_app, ?length_replicate. lia.
    + destruct mode; rewrite !length_app, ?length_replicate, ?length_set_last by done; rewrite ?drop_0; lia.
Qed.

(** What the executor relies on for the spans still to come: their lengths, and
    a written row before a boundary. *)
Definition span_ok (span : RouteSpan) : Prop :=
  0 <= carry_len span /\ 0 <= generation_len span /\ (boundary_rows span = 0 \/ boundary_rows span = 1).

Lemma fragment_rows_length l fragments span rows :
  fragment_rows l fragments span = Ok (inl rows) -> Z.of_nat (length rows) = staged_route_len span.
Proof.
  unfold fragment_rows. destruct (fragments !! _) as [f|]; [|done]. intros H.
  apply bind_Ok in H as (ok & _ & H). destruct ok; [|done]. cbn [negb] in H.
  destruct (routes f) as [d layers k rs|]; [|done].
  destruct (Z.eqb_spec (Z.of_nat (length rs)) (staged_route_len span)) as [E|]; [|done]. cbn [negb] in H.
  destruct (select_moe_columns l layers k rs) as [rs'|] eqn:Es; [|done]. injection H as <-.
  unfold select_moe_columns in Es. destruct (negb _); [done|]. destruct (moe_column_indices _ _); [|done].
  destruct (_ =? layers); injection Es as <-; [done|]. by rewrite length_fmap.
Qed.

(** A span's rows, by its mode. *)
Lemma mode_lengths l fragments span mode rows :
  table_sound -> span_ok span ->
  classify_route_span (carry_len span) (generation_len span) (staged_route_len span - boundary_rows span) = Ok mode ->
  mode <> Sentinel -> fragment_rows l fragments span = Ok (inl rows) ->
  match mode with
  | Full => Z.of_nat (length rows) - boundary_rows span = carry_len span + generation_len span
  | _ => Z.of_nat (length rows) - boundary_rows span = generation_len span /\ 0 < generation_len span
  end.
Proof.
  intros Ht (Hc & Hg & _) Hm Hne Hr. rewrite (fragment_rows_length _ _ _ _ Hr).
  apply Ht in Hm; [|done|done]. by destruct mode.
Qed.

(** How the executor ends, from [acc] and the spans still to come: with the
    tensor built from the front, or for a reason one of the spans gives. *)
Definition outcome (l : RouteLayout) (fragments : gmap string RouteFragment) (spans : list RouteSpan)
  (acc : list route_row) (n : nat) (r : res (Z * list route_row + string)) : Prop :=
  match r with
  | Ok (inl (position, t)) =>
      position = Z.of_nat (length acc) + contribution spans /\
      Z.of_nat (length (appended l fragments spans acc)) = position /\
      t = (appended l fragments spans acc ++ replicate (n - length (appended l fragments spans acc)) (sentinel_row l))%list
  | Ok (inr reason) => exists span, span ∈ spans /\ mode_of span <> Sentinel /\ fragment_rows l fragments span = Ok (inr reason)
  | Raise e => exists span, span ∈ spans /\
      (classify_route_span (carry_len span) (generation_len span) (staged_route_len span - boundary_rows span) = Raise e \/
       mode_of span <> Sentinel /\ fragment_rows l fragments span = Raise e)
  end.

Lemma contribution_cons span spans :
  contribution (span :: spans) = carry_len span + generation_len span + contribution spans.
Proof. done. Qed.

Lemma contribution_nonneg spans : Forall span_ok spans -> 0 <= contribution spans.
Proof. induction 1 as [|s r (? & ? & _) _ IH]; [done|]. rewrite contribution_cons. lia. Qed.

Lemma outcome_cons l fragments span rest acc n r :
  let acc' := append_span l (mode_of span) span (rows_of l fragments span) acc in
  span_ok span ->
  length acc' = (length acc + (Z.to_nat (carry_len span) + Z.to_nat (generation_len span)))%nat ->
  outcome l fragments rest acc' n r -> outcome l fragments (span :: rest) acc n r.
Proof.
  intros acc' (Hc & Hg & _) Hl. unfold outcome. rewrite contribution_cons. cbn [appended]. fold acc'.
  destruct r as [[[position t]|reason]|e].
  - intros (-> & ? & ?). split_and!; [lia|done|done].
  - intros (s & ? & ?). exists s. split; [by right|done].
  - intros (s & ? & ?). exists s. split; [by right|done].
Qed.

(** One span of the executor: a sentinel span only moves on, another one writes
    its rows where the blank part begins. *)
Lemma blank_moves l acc c n :
  (length acc + c <= n)%nat ->
  (acc ++ replicate (n - length acc) (sentinel_row l))%list
  = ((acc ++ replicate c (sentinel_row l)) ++ replicate (n - (length acc + c)) (sentinel_row l))%list.
Proof. intros H. rewrite <- app_assoc, <- replicate_add. do 2 f_equal. lia. Qed.

(** The spans of a non-empty first call: nothing is a boundary before a row is
    written. *)
Definition starts_ok (acc : list route_row) (spans : list RouteSpan) : Prop :=
  (0 < length acc)%nat \/ forall s, head spans = Some s -> boundary_rows s = 0 /\ 0 < carry_len s + generation_len s.

Lemma starts_next acc span rest acc' :
  starts_ok acc (span :: rest) -> span_ok span ->
  length acc' = (length acc + (Z.to_nat (carry_len span) + Z.to_nat (generation_len span)))%nat ->
  (boundary_rows span = 0 \/ (boundary_rows span = 1 /\ (0 < length acc)%nat)) /\ starts_ok acc' rest.
Proof.
  intros Ha (Hc & Hg & Hb) Hl. destruct Ha as [Ha|Ha].
  - split; [by destruct Hb as [|Hb]; [left|right]|left; lia].
  - destruct (Ha span eq_refl). split; [by left|left; lia].
Qed.

(** The executor against the tensor built from the front. *)
Lemma execute_spans_spec l fragments spans acc n :
  table_sound -> Forall span_ok spans -> starts_ok acc spans ->
  Z.of_nat (length acc) + contribution spans <= Z.of_nat n ->
  outcome l fragments spans acc n
    (execute_spans l fragments spans (Z.of_nat (length acc)) (acc ++ replicate (n - length acc) (sentinel_row l))%list).
Proof.
  intros Ht. revert acc. induction spans as [|span rest IH]; intros acc Hok Ha Hn.
  { cbn. unfold contribution. cbn. split_and!; [lia|lia|done]. }
  apply Forall_cons in Hok as [Hspan Hok]. pose proof Hspan as (Hc & Hg & Hb).
  pose proof (contribution_nonneg _ Hok) as Hrest. rewrite contribution_cons in Hn. cbn [execute_spans].
  destruct (classify_route_span (carry_len span) _ _) as [mode|e] eqn:Em; cbn [mbind res_bind].
  2: { exists span. split; [left|by left]. }
  assert (mode_of span = mode) as Hmode by (unfold mode_of; by rewrite Em).
  set (acc' := append_span l (mode_of span) span (rows_of l fragments span) acc).
  set (k := (Z.to_nat (carry_len span) + Z.to_nat (generation_len span))%nat).
  assert (length acc' = (length acc + k)%nat ->
          outcome l fragments (span :: rest) acc n
            (execute_spans l fragments rest (Z.of_nat (length acc) + (carry_len span + generation_len span))
               (acc' ++ replicate (n - (length acc + k)) (sentinel_row l))%list)) as Hnext.
  { intros Hl'. destruct (starts_next acc span rest acc' Ha Hspan Hl') as [_ Ha'].
    apply outcome_cons; [done|done|]. fold acc'. rewrite <- Hl'.
    replace (Z.of_nat (length acc) + (carry_len span + generation_len span)) with (Z.of_nat (length acc')) by lia.
    apply IH; [done|done|lia]. }
  destruct (decide (mode = Sentinel)) as [->|Hns].
  { rewrite (blank_moves l acc k n) by lia.
    assert (acc' = acc ++ replicate k (sentinel_row l))%list as Ea by (unfold acc', append_span; by rewrite Hmode).
    rewrite <- Ea. apply Hnext. by rewrite Ea, length_app, length_replicate. }
  enough (outcome l fragments (span :: rest) acc n
            (r ← fragment_rows l fragments span;
             match r with
             | inr reason => Ok (inr reason)
             | inl rows =>
                 t ← write_span mode span rows (Z.of_nat (length acc)) (acc ++ replicate (n - length acc) (sentinel_row l))%list;
                 execute_spans l fragments rest (Z.of_nat (length acc) + (carry_len span + generation_len span)) t
             end)) by by destruct mode.
  destruct (fragment_rows l fragments span) as [[rows|reason]|e] eqn:Er; cbn [mbind res_bind].
  - pose proof (mode_lengths l fragments span mode rows Ht Hspan Em Hns Er) as Hlen.
    destruct (starts_next acc span rest (replicate (length acc + k) []) Ha Hspan) as [Hbound _];
      [by rewrite length_replicate|].
    rewrite write_span_spec by (try done; lia). cbn [mbind res_bind]. fold k.
    assert (acc' = append_span l mode span (row_to_int16 <$> rows) acc) as Ea.
    { unfold acc', rows_of. by rewrite Hmode, Er. }
    rewrite <- Ea. apply Hnext. rewrite Ea. apply length_append_span; [done..|]. rewrite length_fmap.
    destruct mode; [done|apply Hlen|done].
  - exists span. split; [left|]. split; [by rewrite Hmode|done].
  - exists span. split; [left|]. right. split; [by rewrite Hmode|done].
Qed.

(** *** Shapes *)

Definition layout_ok (l : RouteLayout) : Prop :=
  0 < top_k l /\ Forall (fun n => 1 <= n <= total_num_layers l) (moe_layer_numbers l).

Definition tensor_ok (t : RouteTensor) : Prop :=
  match t with Routes _ layers k rows => Forall (row_shape layers k) rows | OtherRank _ _ => True end.

Definition trained_shape (l : RouteLayout) : route_row -> Prop := row_shape (num_moe_layers l) (top_k l).

Lemma sentinel_shape l : layout_ok l -> trained_shape l (sentinel_row l).
Proof.
  intros [Hk _]. split; unfold sentinel_row; [by rewrite length_replicate|]. apply Forall_replicate.
  rewrite length_replicate. lia.
Qed.

Lemma pick_columns_shape columns layers k r :
  row_shape layers k r -> Forall (fun c => 0 <= c < layers) columns ->
  row_shape (Z.of_nat (length columns)) k (pick_columns columns r).
Proof.
  intros [Hl Hr] Hc. split; unfold pick_columns; [by rewrite length_fmap|].
  apply Forall_fmap. eapply Forall_impl; [exact Hc|]. cbn. intros c Hlt.
  destruct (lookup_lt_is_Some_2 r (Z.to_nat c)) as [x Hx]; [lia|]. rewrite Hx. cbn.
  rewrite Forall_lookup in Hr. by eapply Hr.
Qed.

Lemma int16_shape layers k r : row_shape layers k r -> row_shape layers k (row_to_int16 r).
Proof.
  intros [Hl Hr]. split; unfold row_to_int16; [by rewrite length_map|]. apply Forall_map.
  eapply Forall_impl; [exact Hr|]. cbn. intros x. by rewrite length_map.
Qed.

Lemma select_shape l layers k rows rows' :
  layout_ok l -> Forall (row_shape layers k) rows -> select_moe_columns l layers k rows = Some rows' ->
  Forall (trained_shape l) rows'.
Proof.
  intros [Hk Hn] Hr H. unfold select_moe_columns in H. destruct (Z.eqb_spec k (top_k l)) as [->|]; [|done].
  cbn [negb] in H. unfold moe_column_indices in H. unfold trained_shape, num_moe_layers in *.
  set (m := Z.of_nat (length (moe_layer_numbers l))) in *.
  destruct (Z.eqb_spec layers m) as [->|Hne].
  { rewrite length_seqZ, Z2Nat.id, Z.eqb_refl in H by lia. by injection H as <-. }
  destruct (Z.eqb_spec layers (total_num_layers l)) as [->|]; [|done]. rewrite length_fmap in H. fold m in H.
  rewrite (proj2 (Z.eqb_neq m _)) in H by congruence. injection H as <-. apply Forall_fmap.
  eapply Forall_impl; [exact Hr|]. cbn. intros r Hrow. unfold m.
  rewrite <- (length_fmap (fun n => n - 1) (moe_layer_numbers l)). eapply pick_columns_shape; [exact Hrow|].
  apply Forall_fmap. eapply Forall_impl; [exact Hn|]. cbn. lia.
Qed.

Lemma rows_of_shape l fragments span :
  layout_ok l -> map_Forall (fun _ f => tensor_ok (routes f)) fragments ->
  Forall (trained_shape l) (rows_of l fragments span).
Proof.
  intros Hl Hf. unfold rows_of. destruct (fragment_rows l fragments span) as [[rows|]|] eqn:E; try by constructor.
  unfold fragment_rows in E. destruct (fragments !! _) as [f|] eqn:Ef; [|done]. apply Hf in Ef.
  apply bind_Ok in E as (ok & _ & E). destruct ok; [|done]. cbn [negb] in E.
  destruct (routes f) as [d layers k rs|]; [|done]. cbn in Ef. destruct (negb _); [done|].
  destruct (select_moe_columns l layers k rs) as [rs'|] eqn:Es; [|done]. injection E as <-.
  apply Forall_fmap. eapply Forall_impl; [by eapply select_shape|]. intros r. apply int16_shape.
Qed.

Lemma append_span_shape l mode span rows acc :
  layout_ok l -> Forall (trained_shape l) rows -> Forall (trained_shape l) acc ->
  Forall (trained_shape l) (append_span l mode span rows acc).
Proof.
  intros Hl Hr Ha. pose proof (sentinel_shape l Hl) as Hs. unfold append_span, set_last.
  destruct mode, (boundary_rows span =? 0), rows as [|b rest]; cbn [firstn skipn];
    repeat match goal with
      | |- Forall _ (_ ++ _) => apply Forall_app; split
      | |- Forall _ (replicate _ _) => apply Forall_replicate
      | |- Forall _ (take _ _) => apply Forall_take
      | H : Forall _ (_ :: _) |- _ => apply Forall_cons in H as [? ?]
      | |- Forall _ [_] => apply Forall_singleton
      end; rewrite ?drop_0; auto.
Qed.

Lemma appended_shape l fragments spans acc :
  layout_ok l -> map_Forall (fun _ f => tensor_ok (routes f)) fragments -> Forall (trained_shape l) acc ->
  Forall (trained_shape l) (appended l fragments spans acc).
Proof.
  intros Hl Hf. revert acc. induction spans as [|span rest IH]; intros acc Ha; [done|]. cbn [appended].
  apply IH. apply append_span_shape; [done|by apply rows_of_shape|done].
Qed.

Lemma new_layout_ok numbers total k l : new_layout numbers total k = Ok l -> layout_ok l.
Proof.
  unfold new_layout. intros H. apply bind_Ok in H as ([] & H1%raise_if_Ok & H). apply bind_Ok in H as ([] & H2%raise_if_Ok & H).
  injection H as <-. apply orb_false_iff in H1 as [_ H1]. apply orb_false_iff in H2 as [_ H2]. split; cbn; [lia|].
  apply Forall_forall. intros n Hn. destruct (Z.leb_spec 1 n) as [Hn1|Hn1], (Z.leb_spec n total) as [Hn2|Hn2]; [done|..];
    (assert (existsb (fun n => negb ((1 <=? n) && (n <=? total))) numbers = true) as E;
     [apply existsb_exists; exists n; split; [by apply list_elem_of_In|]; lia|congruence]).
Qed.

(** C35 Writing the fragments into a blank tensor at their positions is appending
    them: over a validated plan whose first span is not empty, the executor
    returns exactly the rows of the spans one after another, each boundary row
    in place of the row before it and a sentinel where nothing was recorded,
    with one row per token and the model's shape.  When it gives a reason, a
    span has it, and it never fails by itself: an exception comes from the
    classification or the digest. *)
Theorem assembly_appends_the_spans plan fragments numbers total k l canonical_len :
  valid_plan plan -> new_layout numbers total k = Ok l -> table_sound ->
  map_Forall (fun _ f => tensor_ok (routes f)) fragments ->
  (forall s, head (spans plan) = Some s -> 0 < carry_len s + generation_len s) ->
  match execute_route_plan plan fragments l canonical_len with
  | Ok (Assembled t) =>
      canonical_len = expected_token_length plan /\ Z.of_nat (length t) = canonical_len /\
      Forall (trained_shape l) t /\
      t = (if bool_decide (spans plan = []) then replicate (Z.to_nat canonical_len) (sentinel_row l)
           else appended l fragments (spans plan) [])
  | Ok (Unassembled reason) =>
      canonical_len <> expected_token_length plan /\ reason = ROUTE_FAILURE_CANONICAL_LENGTH \/
      exists span, span ∈ spans plan /\ mode_of span <> Sentinel /\ fragment_rows l fragments span = Ok (inr reason)
  | Raise e => exists span, span ∈ spans plan /\
      (classify_route_span (carry_len span) (generation_len span) (staged_route_len span - boundary_rows span) = Raise e \/
       mode_of span <> Sentinel /\ fragment_rows l fragments span = Raise e)
  end.
Proof.
  intros Hv Hl%new_layout_ok Ht Hf Hhead. unfold execute_route_plan.
  destruct (Z.eqb_spec canonical_len (expected_token_length plan)) as [->|]; cbn [negb]; [|by left].
  pose proof (vp_length _ Hv) as Hn. set (n := Z.to_nat (expected_token_length plan)).
  assert (Forall span_ok (spans plan)) as Hok.
  { apply Forall_lookup. intros i s Hs. destruct (vp_spans _ Hv i s Hs) as [_ (? & ? & _) Hb _ _].
    split_and!; [done|done|]. destruct Hb as [|[? _]]; [by left|by right]. }
  assert (starts_ok [] (spans plan)) as Hst.
  { right. intros s Hs. split; [|by apply Hhead]. destruct (spans plan) as [|s' r] eqn:E; [done|]. injection Hs as ->.
    destruct (vp_spans _ Hv 0%nat s) as [_ _ Hb _ _]; [by rewrite E|]. by destruct Hb as [|(_ & ? & _)]. }
  assert (contribution (spans plan) <= Z.of_nat n) as Hc.
  { destruct (vp_total _ Hv) as [->|]; [cbn; lia|lia]. }
  pose proof (execute_spans_spec l fragments (spans plan) [] n Ht Hok Hst Hc) as Ho.
  cbn [length Z.of_nat app] in Ho. rewrite Nat.sub_0_r in Ho. change (Z.of_nat 0) with 0 in Ho.
  destruct (execute_spans l fragments (spans plan) 0 _) as [[[position t]|reason]|e]; cbn [mbind res_bind].
  - destruct Ho as (Hp & Hla & Ht'). cbn [length] in Hp. destruct (vp_total _ Hv) as [Es|Es].
    + rewrite Es in *. rewrite bool_decide_eq_true_2 by done. cbn [negb andb]. cbn [appended] in Ht'. cbn in Ht'.
      rewrite Nat.sub_0_r in Ht'. rewrite Ht'. split_and!; [done|rewrite length_replicate; lia| |done].
      apply Forall_replicate. by apply sentinel_shape.
    + rewrite (proj2 (Z.eqb_eq position _)) by lia. rewrite andb_false_r.
      replace (n - length (appended l fragments (spans plan) []))%nat with 0%nat in Ht' by lia.
      cbn [replicate] in Ht'. rewrite app_nil_r in Ht'. subst t. split_and!; [done|lia|by apply appended_shape|].
      case_bool_decide as E; [|done]. rewrite E in *. cbn in *. by replace n with 0%nat by lia.
  - by right.
  - done.
Qed.

(** ** Staging and assembling a chain of calls

    [_delta_align_routed_experts] on the route tensor of a response: the rows of
    the call's own tokens, with the boundary row before them, and the metadata
    that stands for them in the extras; [None] where no route is staged.  The
    unwrapping of the response's only choice is not modelled. *)
Definition _delta_align_routed_experts (routed : option RouteTensor) (prev_len prompt_len generated_len : Z)
  : option (RouteTensor * PyVal) :=
  match routed with
  | Some (Routes d layers k rows) =>
      if negb (Z.of_nat (length rows) =? prompt_len + generated_len) then None
      else
        let staged := Routes d layers k (slice_from (prev_len - boundary_route_rows prev_len) rows) in
        match routed_experts_tensor_metadata staged with
        | Ok v => Some (staged, v)
        | Raise _ => None
        end
  | _ => None
  end.

(** A call of a linear conversation: the routes of its whole sequence, the
    length of its prompt, its staging key and the extras beside its routes. *)
Record Call := mkCall {
  call_key : string;
  call_routes : list route_row;
  call_prompt : Z;
  call_json : string;
  call_extras : list (PyVal * PyVal) }.

Section chain.
Context (d : route_dtype) (layers k : Z) (l : RouteLayout).

Definition staged_call (prev_len : Z) (c : Call) : option (RouteTensor * PyVal) :=
  _delta_align_routed_experts (Some (Routes d layers k (call_routes c))) prev_len (call_prompt c)
    (Z.of_nat (length (call_routes c)) - call_prompt c).

(** The span and the fragment of a call whose predecessor had [prev_len] tokens. *)
Definition call_span (prev_len : Z) (c : Call) : RouteSpan :=
  mkSpan (call_key c) (call_prompt c - prev_len) (Z.of_nat (length (call_routes c)) - call_prompt c)
    (match staged_call prev_len c with Some (Routes _ _ _ rows, _) => Z.of_nat (length rows) | _ => 0 end)
    EXTRAS_DIGEST_VERSION
    (match staged_call prev_len c with
     | Some (_, v) => match compute_extras_digest (dict_set ROUTED_EXPERTS_FIELD v (call_extras c)) with Ok h => h | Raise _ => "" end
     | None => ""
     end)
    (boundary_route_rows prev_len).

Fixpoint chain_spans (prev : list route_row) (calls : list Call) : list RouteSpan :=
  match calls with
  | [] => []
  | c :: rest => call_span (Z.of_nat (length prev)) c :: chain_spans (call_routes c) rest
  end.

Fixpoint chain_fragments (prev : list route_row) (calls : list Call) : gmap string RouteFragment :=
  match calls with
  | [] => ∅
  | c :: rest =>
      match staged_call (Z.of_nat (length prev)) c with
      | Some (t, _) => <[call_key c := mkFragment t ROUTE_ENCODING_TENSOR (call_json c)]> (chain_fragments (call_routes c) rest)
      | None => chain_fragments (call_routes c) rest
      end
  end.

(** Each call continues the sequence before it, generates something, and finds
    the experts of the earlier tokens as they were; only the last token of the
    sequence before, for which no route was known, may get another row. *)
Fixpoint chain_ok (prev : list route_row) (calls : list Call) : Prop :=
  match calls with
  | [] => True
  | c :: rest =>
      Z.of_nat (length prev) <= call_prompt c < Z.of_nat (length (call_routes c)) /\
      take (length prev - 1) (call_routes c) = take (length prev - 1) prev /\
      json_loads (call_json c) = Ok (VDict (call_extras c)) /\
      (forall e, exists h, compute_extras_digest e = Ok h) /\
      chain_ok (call_routes c) rest
  end.

(** The routes of the whole sequence. *)
Definition last_routes (prev : list route_row) (calls : list Call) : list route_row :=
  match last calls with Some c => call_routes c | None => prev end.

Context (Hd : dtype_name d <> None) (Hlayout : l = mkLayout (one_to layers) layers k) (Hlayers : 0 <= layers).
Context (Hgym : GYM_EXTRAS_DIGEST_VERSION = EXTRAS_DIGEST_VERSION).
Context (Hfull : forall c g, 0 <= c -> 0 <= g -> 0 < c + g -> classify_route_span c g (c + g) = Ok Full).

Lemma staged_rows (prev : list route_row) c :
  Z.of_nat (length prev) <= call_prompt c < Z.of_nat (length (call_routes c)) ->
  exists v, let rows := drop (length prev - 1) (call_routes c) in
    staged_call (Z.of_nat (length prev)) c = Some (Routes d layers k rows, v) /\
    routed_experts_tensor_metadata (Routes d layers k rows) = Ok v.
Proof.
  intros Hp. unfold staged_call, _delta_align_routed_experts.
  rewrite (proj2 (Z.eqb_eq _ _)) by lia. cbn [negb].
  assert (slice_from (Z.of_nat (length prev) - boundary_route_rows (Z.of_nat (length prev))) (call_routes c)
          = drop (length prev - 1) (call_routes c)) as ->.
  { unfold slice_from. f_equal. unfold boundary_route_rows, py_bound.
    destruct (Z.ltb_spec 0 (Z.of_nat (length prev))); destruct (Z.ltb_spec (Z.of_nat (length prev) - 1) 0);
      destruct (Z.ltb_spec (Z.of_nat (length prev) - 0) 0); lia. }
  unfold routed_experts_tensor_metadata, _route_array. destruct (dtype_name d) as [name|]; [|done].
  cbn [mbind res_bind]. eexists. cbn zeta. split; reflexivity.
Qed.

(** A staged call's fragment is accepted for its span. *)
Lemma staged_fragment (prev : list route_row) c fragments :
  Z.of_nat (length prev) <= call_prompt c < Z.of_nat (length (call_routes c)) ->
  json_loads (call_json c) = Ok (VDict (call_extras c)) ->
  (forall e, exists h, compute_extras_digest e = Ok h) ->
  fragments !! call_key c = (match staged_call (Z.of_nat (length prev)) c with
                             | Some (t, _) => Some (mkFragment t ROUTE_ENCODING_TENSOR (call_json c))
                             | None => None
                             end) ->
  let span := call_span (Z.of_nat (length prev)) c in
  mode_of span = Full /\
  fragment_rows l fragments span = Ok (inl (drop (length prev - 1) (call_routes c))).
Proof.
  intros Hp Hj Hdig Hfrag. destruct (staged_rows prev c Hp) as (v & Hs & Hv). cbn zeta in Hs, Hv.
  rewrite Hs in Hfrag. cbn zeta. split.
  - unfold mode_of, call_span. cbn [carry_len generation_len staged_route_len boundary_rows]. rewrite Hs.
    replace (Z.of_nat (length (drop (length prev - 1) (call_routes c))) - boundary_route_rows (Z.of_nat (length prev)))
      with (call_prompt c - Z.of_nat (length prev) + (Z.of_nat (length (call_routes c)) - call_prompt c)).
    + by rewrite Hfull by lia.
    + rewrite length_drop. unfold boundary_route_rows. destruct (Z.ltb_spec 0 (Z.of_nat (length prev))); lia.
  - unfold fragment_rows, call_span. cbn [staging_key staged_route_len extras_digest_version extras_digest].
    rewrite Hfrag, Hs. unfold verify_route_fragment_integrity. rewrite Hgym, Z.eqb_refl. cbn [negb].
    unfold envelope. cbn [extras_metadata_json encoding routes]. rewrite Hj. cbn [mbind res_bind].
    change (ROUTE_ENCODING_TENSOR =? ROUTE_ENCODING_TENSOR) with true. cbn iota. rewrite Hv. cbn [mbind res_bind].
    destruct (Hdig (dict_set ROUTED_EXPERTS_FIELD v (call_extras c))) as [h ->]. cbn [mbind res_bind].
    rewrite String.eqb_refl. cbn [mbind res_bind negb]. rewrite Z.eqb_refl. cbn [negb].
    unfold select_moe_columns. rewrite Hlayout. cbn [top_k]. rewrite Z.eqb_refl. cbn [negb].
    unfold moe_column_indices, num_moe_layers, one_to. cbn [moe_layer_numbers]. rewrite length_seqZ, Z2Nat.id by lia.
    rewrite Z.eqb_refl, length_seqZ, Z2Nat.id, Z.eqb_refl by lia. done.
Qed.

Lemma append_call (prev : list route_row) c :
  Z.of_nat (length prev) <= call_prompt c < Z.of_nat (length (call_routes c)) ->
  take (length prev - 1) (call_routes c) = take (length prev - 1) prev ->
  append_span l Full (call_span (Z.of_nat (length prev)) c) (row_to_int16 <$> drop (length prev - 1) (call_routes c))
    (row_to_int16 <$> prev) = row_to_int16 <$> call_routes c.
Proof.
  intros Hp Ht. unfold append_span, call_span. cbn [boundary_rows]. unfold boundary_route_rows.
  destruct (Z.ltb_spec 0 (Z.of_nat (length prev))) as [H0|H0]; cbn [Z.eqb].
  2: { destruct prev; [|cbn in H0; lia]. cbn [length Nat.sub fmap list_fmap app]. by rewrite drop_0. }
  destruct (drop (length prev - 1) (call_routes c)) as [|b rest] eqn:Ed.
  { apply (f_equal length) in Ed. rewrite length_drop in Ed. cbn in Ed. lia. }
  rewrite fmap_cons. cbn [firstn skipn]. unfold set_last. rewrite length_fmap, <- fmap_take, <- Ht, drop_0.
  rewrite <- (take_drop (length prev - 1) (call_routes c)) at 2. rewrite Ed, fmap_app, fmap_cons.
  by rewrite <- app_assoc.
Qed.

(** The fragments hold each call's own. *)
Lemma chain_fragments_lookup prev calls key :
  key ∉ call_key <$> calls -> chain_fragments prev calls !! key = None.
Proof.
  revert prev. induction calls as [|c rest IH]; intros prev Hk; [done|]. rewrite fmap_cons in Hk.
  apply not_elem_of_cons in Hk as [Hne Hk]. cbn [chain_fragments].
  destruct (staged_call _ c) as [[t v]|]; [|by apply IH]. rewrite lookup_insert_ne by congruence. by apply IH.
Qed.

(** The executor's reference tensor over a chain. *)
Lemma chain_appended prev calls fragments :
  NoDup (call_key <$> calls) -> chain_ok prev calls ->
  (forall key, key ∈ call_key <$> calls -> fragments !! key = chain_fragments prev calls !! key) ->
  appended l fragments (chain_spans prev calls) (row_to_int16 <$> prev) = row_to_int16 <$> last_routes prev calls /\
  Forall (fun span => mode_of span = Full /\ exists rows, fragment_rows l fragments span = Ok (inl rows)) (chain_spans prev calls).
Proof.
  revert prev. induction calls as [|c rest IH]; intros prev Hnd Hok Hf; [by split|].
  rewrite fmap_cons in Hnd. apply NoDup_cons in Hnd as [Hc Hnd]. destruct Hok as (Hp & Ht & Hj & Hdig & Hok).
  destruct (staged_rows prev c Hp) as (v & Hs & Hv). cbn zeta in Hs, Hv.
  assert (mode_of (call_span (Z.of_nat (length prev)) c) = Full /\
          fragment_rows l fragments (call_span (Z.of_nat (length prev)) c) = Ok (inl (drop (length prev - 1) (call_routes c))))
    as [Hmode Hrows].
  { apply staged_fragment; [done..|]. rewrite Hf by by left. cbn [chain_fragments]. rewrite Hs.
    by rewrite lookup_insert_eq. }
  destruct (IH (call_routes c) Hnd Hok) as [IH1 IH2].
  { intros key Hkey. rewrite Hf by by right. cbn [chain_fragments]. rewrite Hs. apply lookup_insert_ne.
    by intros <-. }
  cbn [chain_spans appended]. split.
  - rewrite Hmode. unfold rows_of. rewrite Hrows, (append_call prev c Hp Ht), IH1. f_equal.
    unfold last_routes. destruct rest as [|c' rest']; [done|]. change (last (c :: c' :: rest')) with (last (c' :: rest')).
    destruct (last (c' :: rest')) eqn:E; [done|]. by apply last_None in E.
  - constructor; [|done]. split; [done|]. by eexists.
Qed.

Lemma chain_spans_ok (prev : list route_row) calls :
  chain_ok prev calls ->
  Forall span_ok (chain_spans prev calls) /\
  Z.of_nat (length prev) + contribution (chain_spans prev calls) = Z.of_nat (length (last_routes prev calls)).
Proof.
  revert prev. induction calls as [|c rest IH]; intros prev Hok.
  { split; [constructor|]. unfold contribution. cbn. lia. }
  destruct Hok as (Hp & _ & _ & _ & Hok). destruct (IH _ Hok) as [IH1 IH2]. cbn [chain_spans].
  assert (last_routes prev (c :: rest) = last_routes (call_routes c) rest) as ->.
  { unfold last_routes. destruct rest as [|c' rest']; [done|]. change (last (c :: c' :: rest')) with (last (c' :: rest')).
    destruct (last (c' :: rest')) eqn:E; [done|]. by apply last_None in E. }
  split.
  - constructor; [|done]. unfold span_ok, call_span. cbn [carry_len generation_len boundary_rows].
    split_and!; [lia|lia|]. unfold boundary_route_rows. destruct (0 <? _); [by right|by left].
  - rewrite contribution_cons. unfold call_span at 1 2. cbn [carry_len generation_len]. lia.
Qed.

(** A conversation staged call by call, each call only its own tokens' routes
    and the boundary row before them, is assembled back to the route tensor of
    the whole sequence as the last call saw it: no token's route is lost or
    shifted, and the one row a call could not know, that of its last token,
    comes from the call after it. *)
Theorem staged_chain_replays_the_last_call calls partition cleanup :
  table_sound -> calls <> [] -> NoDup (call_key <$> calls) -> chain_ok [] calls ->
  let total := Z.of_nat (length (last_routes [] calls)) in
  execute_route_plan (mkPlan ROUTE_PLAN_SCHEMA_VERSION partition (chain_spans [] calls) cleanup total)
    (chain_fragments [] calls) l total
  = Ok (Assembled (row_to_int16 <$> last_routes [] calls)).
Proof.
  intros Ht Hne Hnd Hok total. unfold execute_route_plan. cbn [expected_token_length spans]. rewrite Z.eqb_refl. cbn [negb].
  destruct (chain_spans_ok [] calls Hok) as [Hso Hc].
  destruct (chain_appended [] calls (chain_fragments [] calls) Hnd Hok ltac:(done)) as [Ha Hf].
  assert (starts_ok [] (chain_spans [] calls)) as Hst.
  { right. destruct calls as [|c rest]; [done|]. intros s [= <-]. destruct Hok as (Hp & _).
    unfold call_span. cbn [boundary_rows carry_len generation_len length] in *. split; [done|lia]. }
  cbn [length] in Hc. fold total in Hc.
  pose proof (execute_spans_spec l (chain_fragments [] calls) (chain_spans [] calls) [] (Z.to_nat total) Ht Hso Hst) as Ho.
  cbn [length app] in Ho. rewrite Nat.sub_0_r in Ho. change (Z.of_nat 0) with 0 in Ho. specialize (Ho ltac:(lia)).
  rewrite Forall_forall in Hf.
  destruct (execute_spans _ _ _ _ _) as [[[position t]|reason]|e]; cbn [mbind res_bind].
  - destruct Ho as (Hp & Hl & Ht'). cbn [length] in Hp. rewrite (proj2 (Z.eqb_eq position total)) by lia.
    rewrite andb_false_r. rewrite Ht'. change (row_to_int16 <$> []) with (@nil route_row) in Ha. rewrite Ha in *.
    replace (Z.to_nat total - length (row_to_int16 <$> last_routes [] calls))%nat with 0%nat by lia.
    cbn [replicate]. by rewrite app_nil_r.
  - destruct Ho as (span & Hin & _ & Hr). destruct (Hf span Hin) as [_ [rows Hr']]. congruence.
  - destruct Ho as (span & Hin & [Hcl|[_ Hr]]); destruct (Hf span Hin) as [Hm [rows Hr']]; [|congruence].
    unfold mode_of in Hm. by rewrite Hcl in Hm.
Qed.

End chain.
End foreign.

(** ** Concrete runs *)
Module Demo.

(** A classification, a digest and a JSON reader that keep to what is relied
    on. *)
Definition table (c g s : Z) : res span_mode :=
  if s =? 0 then Ok Sentinel else if s =? c + g then Ok Full else if s =? g then Ok Tail else Raise ValueError.
Definition digest (extras : list (PyVal * PyVal)) : res string := Ok (str_of_int (Z.of_nat (length extras))).
Definition sha (bytes : list Z) : string := str_of_int (zsum bytes).
Definition loads (s : string) : res PyVal := if String.eqb s "null" then Ok VNone else Ok (VDict []).

Lemma table_is_sound : table_sound table.
Proof.
  intros c g s m Hc Hg. unfold table. destruct (Z.eqb_spec s 0); [by intros [= <-]|].
  destruct (Z.eqb_spec s (c + g)); [by intros [= <-]|]. destruct (Z.eqb_spec s g); intros [= <-]. lia.
Qed.

Definition row (a b : Z) : route_row := [[a; b]].
Definition calls : list Call :=
  [mkCall "r/c0" [row 10 11; row 12 13; row 14 15; row (-1) (-1)] 2 "{}" [];
   mkCall "r/c1" [row 10 11; row 12 13; row 14 15; row 16 17; row 18 19; row (-1) (-1)] 5 "{}" []].
Definition layout : RouteLayout := mkLayout [1] 1 2.

Lemma chain_witness :
  execute_route_plan sha loads 1 digest table
    (mkPlan 3 "staging" (chain_spans sha digest Int16 1 2 [] calls) ["r/c0"; "r/c1"] 6)
    (chain_fragments sha Int16 1 2 [] calls) layout 6
  = Ok (Assembled [row 10 11; row 12 13; row 14 15; row 16 17; row 18 19; row (-1) (-1)]).
Proof.
  apply (staged_chain_replays_the_last_call sha loads 1 digest table Int16 1 2 layout ltac:(discriminate) eq_refl
           ltac:(lia) eq_refl) with (calls := calls) (partition := "staging") (cleanup := ["r/c0"; "r/c1"]).
  - intros c g Hc Hg Hp. unfold table. rewrite (proj2 (Z.eqb_neq _ 0)) by lia. by rewrite Z.eqb_refl.
  - exact table_is_sound.
  - discriminate.
  - apply (bool_decide_unpack _). exact I.
  - cbn. split_and!; try done; try lia; intros e; by eexists.
Defined.

(** A tail span keeps the generated rows, a sentinel span none, and the boundary
    row of the last span replaces the row before it. *)
Definition demo_span (key : string) (c g s b : Z) (extras : list (PyVal * PyVal)) : RouteSpan :=
  mkSpan key c g s 1 "0000000000000000000000000000000000000000000000000000000000000001" b.
Definition demo_digest (extras : list (PyVal * PyVal)) : res string :=
  Ok "0000000000000000000000000000000000000000000000000000000000000001".
Definition demo_plan : RouteAssemblyPlan :=
  mkPlan 3 "staging" [demo_span "a" 1 1 1 0 []; demo_span "b" 1 0 0 0 []; demo_span "c" 0 2 3 1 []] ["a"; "b"; "c"] 5.
Definition demo_fragments : gmap string RouteFragment :=
  {[ "a" := mkFragment (Routes Int16 1 2 [row 1 2]) 3 "null";
     "c" := mkFragment (Routes Int16 1 2 [row 3 4; row 5 6; row 7 8]) 3 "null" ]}.

Lemma assembly_witness :
  exists t, execute_route_plan sha loads 1 demo_digest table demo_plan demo_fragments layout 5 = Ok (Assembled t) /\
    t = [row (-1) (-1); row 1 2; row 3 4; row 5 6; row 7 8] /\ Z.of_nat (length t) = 5.
Proof.
  pose proof (assembly_appends_the_spans sha loads 1 demo_digest table demo_plan demo_fragments [1] 1 2 layout 5) as H.
  assert (execute_route_plan sha loads 1 demo_digest table demo_plan demo_fragments layout 5
          = Ok (Assembled [row (-1) (-1); row 1 2; row 3 4; row 5 6; row 7 8])) as E by (vm_compute; reflexivity).
  rewrite E in H. eexists. split; [exact E|]. split; [reflexivity|].
  apply H.
  - apply validate_plan_Ok. vm_compute. reflexivity.
  - reflexivity.
  - exact table_is_sound.
  - unfold demo_fragments. apply map_Forall_insert_2; [|apply map_Forall_singleton];
      unfold tensor_ok, row_shape; cbn; repeat constructor.
  - intros s [= <-]. cbn. lia.
Defined.

End Demo.
