(* ===== verification/ForestPlan.v ===== *)
(** * Planning the rows of a selected forest
    ([_plan_selected_calls] of [experience/rollout_reassembler.py])

    An attempt commits its model calls in any order; each call names the call it
    continues.  From the responses an agent selected, the planner makes one
    training row per selected leaf: the path of calls from the root to it.

    Parsing and printing a receipt and naming a staging key belong to [nemo_gym]
    and are arguments; a receipt is modelled by the fields the code reads. *)

From S2P Require Import Prelude.
From S2P Require Import PyVal.
From S2P Require Import Recovery.
#[local] Open Scope string_scope.
#[local] Open Scope Z_scope.

(** ** Receipts *)

Record CallRecord := mkRecord {
  model_call_id : string;
  response_id : string;
  parent_call_id : option string;
  record_staging_key : string;
  prev_len : Z;
  delta_len : Z;
  weight_version : Z }.

Record RolloutReceipt := mkReceipt {
  receipt_capture_key : string;
  manifest : list CallRecord;
  terminal_model_call_id : option string;
  terminal_selection : option string;
  capture_poisoned : bool;
  failure_reason : option string }.

#[export] Instance record_eq_dec : EqDecision CallRecord.
Proof. solve_decision. Defined.
#[export] Instance receipt_eq_dec : EqDecision RolloutReceipt.
Proof. solve_decision. Defined.

Record SegmentReceipt := mkSegment {
  capture_rollout_id : string;
  receipt : option dict;
  selected_response_ids : list string;
  segment_truncated : bool;
  segment_flags : option (list ActionOutputFlags) }.

(** ** The selected calls

    In the order of the selection; a call is looked up among them by its id. *)
Definition find_response (r : string) (l : list CallRecord) : option CallRecord :=
  List.find (fun c => String.eqb (response_id c) r) l.
Definition find_call (i : string) (l : list CallRecord) : option CallRecord :=
  List.find (fun c => String.eqb (model_call_id c) i) l.

Definition parent_selected (calls : list CallRecord) (c : CallRecord) : bool :=
  match parent_call_id c with
  | None => true
  | Some p => bool_decide (is_Some (find_call p calls))
  end.

(** The path from the root to a call; [None] when following the parents comes
    to no end, which is a cycle: no path is longer than the number of calls. *)
Fixpoint walk (fuel : nat) (calls : list CallRecord) (c : CallRecord) : option (list CallRecord) :=
  match fuel with
  | O => None
  | S fuel' =>
      match parent_call_id c with
      | None => Some [c]
      | Some p =>
          q ← find_call p calls;
          l ← walk fuel' calls q;
          Some (l ++ [c])%list
      end
  end.

Definition path (calls : list CallRecord) (c : CallRecord) : option (list CallRecord) :=
  walk (length calls) calls c.

(** [TopologicalSorter] finds a cycle. *)
Definition has_cycle (calls : list CallRecord) : bool := existsb (fun c => bool_decide (path calls c = None)) calls.

Definition selected_calls (parsed : RolloutReceipt) (selected : list string) : res (list CallRecord) :=
  _ ← raise_if (negb (bool_decide (NoDup (response_id <$> manifest parsed)))
                || negb (bool_decide (NoDup (model_call_id <$> manifest parsed)))
                || negb (forallb (fun r => bool_decide (is_Some (find_response r (manifest parsed)))) selected)) ValueError;
  let calls := omap (fun r => find_response r (manifest parsed)) selected in
  _ ← raise_if (match terminal_model_call_id parsed with
                | None => true
                | Some t => negb (bool_decide (is_Some (find_call t calls)))
                end) ValueError;
  _ ← raise_if (negb (forallb (parent_selected calls) calls)) ValueError;
  _ ← raise_if (has_cycle calls) ValueError;
  Ok calls.

(** ** [TopologicalSorter.static_order]

    Nodes enter the sorter with their call and then their parent; each round
    hands out the nodes all of whose predecessors were handed out, in the order
    they became ready. *)
Definition node_order (calls : list CallRecord) : list string :=
  fromkeys [] (calls ≫= fun c => model_call_id c :: option_list (parent_call_id c)).

Definition successors (calls : list CallRecord) (i : string) : list CallRecord :=
  List.filter (fun c => bool_decide (parent_call_id c = Some i)) calls.

Fixpoint rounds (fuel : nat) (calls level : list CallRecord) : list CallRecord :=
  match fuel with
  | O => []
  | S fuel' =>
      match level with
      | [] => []
      | _ => (level ++ rounds fuel' calls (level ≫= fun c => successors calls (model_call_id c)))%list
      end
  end.

Definition static_order (calls : list CallRecord) : list CallRecord :=
  rounds (S (length calls)) calls
    (List.filter (fun c => bool_decide (parent_call_id c = None)) (omap (fun i => find_call i calls) (node_order calls))).

(** ** Roots, endpoints and paths *)

(** [positions[response_id]]. *)
Definition position (selected : list string) (c : CallRecord) : nat :=
  default 0%nat (fst <$> list_find (response_id c =.) selected).

(** The loop that finds each call's root and the calls that were continued. *)
Definition mark_root (selected : list string) (st : gmap string nat * gset string) (c : CallRecord)
  : gmap string nat * gset string :=
  match parent_call_id c with
  | None => (<[model_call_id c := position selected c]> st.1, st.2)
  | Some p => (<[model_call_id c := default 0%nat (st.1 !! p)]> st.1, {[p]} ∪ st.2)
  end.

Definition roots_and_parents (selected : list string) (calls : list CallRecord) : gmap string nat * gset string :=
  foldl (mark_root selected) (∅, ∅) (static_order calls).

(** [key=lambda record: (root_positions[...], positions[...])]. *)
Definition endpoint_ltb (selected : list string) (roots : gmap string nat) (a b : CallRecord) : bool :=
  let ra := default 0%nat (roots !! model_call_id a) in
  let rb := default 0%nat (roots !! model_call_id b) in
  (ra <? rb)%nat || ((ra =? rb)%nat && (position selected a <? position selected b)%nat).

Definition endpoints (selected : list string) (calls : list CallRecord) : list CallRecord :=
  let '(roots, parents) := roots_and_parents selected calls in
  py_sort (endpoint_ltb selected roots)
    (List.filter (fun c => negb (bool_decide (model_call_id c ∈ parents))) (static_order calls)).

(** The paths to the endpoints. *)
Definition chains (selected : list string) (calls : list CallRecord) : list (list CallRecord) :=
  omap (path calls) (endpoints selected calls).

Section foreign.
Context (model_validate : PyVal -> res RolloutReceipt) (model_dump : RolloutReceipt -> dict).
Context (staging_key : PyVal -> string -> res string).

(** Some manifest entry is not staged under the attempt's own key. *)
Fixpoint foreign_entry (owner : string) (m : list CallRecord) : res bool :=
  match m with
  | [] => Ok false
  | c :: rest =>
      k ← staging_key (VStr owner) (model_call_id c);
      if negb (String.eqb (record_staging_key c) k) then Ok true else foreign_entry owner rest
  end.

(** One row: the receipt cut down to its path. *)
Definition chain_segment (owner : string) (parsed : RolloutReceipt) (sel : RolloutSelection) (calls : list CallRecord)
  (chain : list CallRecord) : SegmentReceipt :=
  let flags_by_call := zip (model_call_id <$> calls) (action_flags sel) in
  mkSegment owner
    (Some (model_dump (mkReceipt (receipt_capture_key parsed) chain (model_call_id <$> last chain) (Some "declared")
                         (capture_poisoned parsed) (failure_reason parsed))))
    (response_id <$> chain) (truncated sel)
    (Some (omap (fun c => snd <$> List.find (fun kv => String.eqb kv.1 (model_call_id c)) flags_by_call) chain)).

(** The plan of one parsed attempt. *)
Definition plan_parsed (owner : string) (parsed : RolloutReceipt) (sel : RolloutSelection) : res (list SegmentReceipt) :=
  let selected := response_ids sel in
  _ ← raise_if ((bool_decide (selected = []) && negb (capture_poisoned parsed))
                || negb (bool_decide (NoDup selected))
                || negb (length (action_flags sel) =? length selected)%nat) ValueError;
  if capture_poisoned parsed then Ok [mkSegment owner (Some (model_dump parsed)) [] false (Some [])]
  else
    calls ← selected_calls parsed selected;
    Ok (chain_segment owner parsed sel calls <$> chains selected calls).

Definition plan_owner (owner : string) (r : option dict) (sel : RolloutSelection) : res (list SegmentReceipt) :=
  parsed ← model_validate (match r with Some d => VDict d | None => VNone end);
  _ ← receipt_staging_keys staging_key r;
  foreign ← (if negb (String.eqb (receipt_capture_key parsed) owner) then Ok true
             else foreign_entry owner (manifest parsed));
  _ ← raise_if foreign ValueError;
  plan_parsed owner parsed sel.

Definition _plan_selected_calls (rollout_ids : list string) (receipts : list (option dict))
  (selections : list RolloutSelection) : res (list (list SegmentReceipt)) :=
  _ ← raise_if (negb (length selections =? length rollout_ids)%nat) ValueError;
  plans ← traverse (fun '(owner, r, sel) => plan_owner owner r sel) (zip (zip rollout_ids receipts) selections);
  _ ← raise_if (negb (length receipts =? length rollout_ids)%nat) ValueError;
  Ok plans.
End foreign.

(** ** Paths *)

Inductive is_path (calls : list CallRecord) : list CallRecord -> CallRecord -> Prop :=
| path_root c : parent_call_id c = None -> is_path calls [c] c
| path_step c p q l :
    parent_call_id c = Some p -> find_call p calls = Some q -> is_path calls l q -> is_path calls (l ++ [c])%list c.

Lemma walk_path fuel calls c l : walk fuel calls c = Some l <-> is_path calls l c /\ (length l <= fuel)%nat.
Proof.
  split.
  - revert c l. induction fuel as [|fuel IH]; intros c l; cbn [walk]; [done|].
    destruct (parent_call_id c) as [p|] eqn:E.
    + intros H. apply bind_Some in H as (q & Hq & H). apply bind_Some in H as (l' & Hl & [= <-]).
      apply IH in Hl as [Hp Hl]. split; [by eapply path_step|]. rewrite length_app. cbn. lia.
    + intros [= <-]. split; [by constructor|]. cbn. lia.
  - intros [Hp Hl]. revert fuel Hl. induction Hp as [c E|c p q l E Hq Hp IH]; intros fuel Hl.
    + destruct fuel; [cbn in Hl; lia|]. cbn. by rewrite E.
    + rewrite length_app in Hl. destruct fuel; [cbn in Hl; lia|]. cbn [walk]. rewrite E, Hq. cbn [mbind option_bind].
      rewrite IH; [done|]. cbn in Hl. lia.
Qed.

Lemma is_path_unique calls c l l' : is_path calls l c -> is_path calls l' c -> l = l'.
Proof.
  intros H. revert l'. induction H as [c E|c p q l E Hq Hp IH]; intros l' H'; inversion H'; subst; try congruence.
  f_equal. apply IH. congruence.
Qed.

Lemma is_path_last calls l c : is_path calls l c -> last l = Some c.
Proof. destruct 1; [done|]. apply last_snoc. Qed.

Lemma is_path_nonempty calls l c : is_path calls l c -> (0 < length l)%nat.
Proof. destruct 1; rewrite ?length_app; cbn; lia. Qed.

Lemma find_call_Some i calls c : find_call i calls = Some c -> c ∈ calls /\ model_call_id c = i.
Proof. intros H. apply List.find_some in H as [Hin Hi%String.eqb_eq]. split; [by apply list_elem_of_In|done]. Qed.

Lemma find_by_elem (key : CallRecord -> string) calls c :
  NoDup (key <$> calls) -> c ∈ calls -> List.find (fun d => String.eqb (key d) (key c)) calls = Some c.
Proof.
  intros Hnd Hc. induction calls as [|d calls IH]; [by apply not_elem_of_nil in Hc|]. cbn.
  apply NoDup_cons in Hnd as [Hd Hnd]. apply elem_of_cons in Hc as [<-|Hc]; [by rewrite String.eqb_refl|].
  rewrite (proj2 (String.eqb_neq _ _)); [by apply IH|]. intros E. apply Hd. rewrite E. by apply list_elem_of_fmap_2.
Qed.

Lemma is_path_elem calls l c : c ∈ calls -> is_path calls l c -> Forall (fun d => d ∈ calls) l.
Proof.
  intros Hc H. induction H as [c E|c p q l E Hq Hp IH]; [by apply Forall_singleton|].
  apply Forall_app. split; [|by apply Forall_singleton]. apply IH. by apply find_call_Some in Hq as [? _].
Qed.

(** Every call on a path has the path up to it. *)
Lemma is_path_prefix calls l c l1 d l2 : is_path calls l c -> l = (l1 ++ d :: l2)%list -> is_path calls (l1 ++ [d])%list d.
Proof.
  intros H. revert l1 d l2. induction H as [c E|c p q l E Hq Hp IH]; intros l1 d l2 He.
  - destruct l1 as [|x l1]; [injection He as <- <-; by constructor|]. destruct l1; done.
  - destruct (nil_or_length_pos l2) as [->|Hl2].
    + apply app_inj_tail in He as [-> ->]. by eapply path_step.
    + destruct l2 as [|x l2] using rev_ind; [done|]. clear IHl2.
      apply (IH l1 d l2). change (d :: l2 ++ [x])%list with ((d :: l2) ++ [x])%list in He. rewrite app_assoc in He.
      by apply app_inj_tail in He as [-> _].
Qed.

(** A path does not meet a call twice. *)
Lemma is_path_nodup calls l c : is_path calls l c -> NoDup l.
Proof.
  intros H. apply NoDup_alt. intros i j d Hi Hj.
  assert (forall i, l !! i = Some d -> is_path calls (take i l ++ [d])%list d) as Hpre.
  { intros k Hk. eapply is_path_prefix; [exact H|]. symmetry. by apply take_drop_middle. }
  pose proof (is_path_unique _ _ _ _ (Hpre i Hi) (Hpre j Hj)) as E. apply (f_equal length) in E.
  rewrite !length_app, !length_take in E. apply lookup_lt_Some in Hi, Hj. cbn in E. lia.
Qed.

(** The fuel of [path] is enough for any path. *)
Lemma path_complete calls l c : c ∈ calls -> is_path calls l c -> path calls c = Some l.
Proof.
  intros Hc H. apply walk_path. split; [done|]. apply submseteq_length, NoDup_submseteq; [by eapply is_path_nodup|].
  intros d Hd. pose proof (is_path_elem _ _ _ Hc H) as Hf. rewrite Forall_forall in Hf. by apply Hf.
Qed.

(** ** What the checks establish *)
Record selection_ok (calls : list CallRecord) : Prop := {
  sel_ids : NoDup (model_call_id <$> calls);
  sel_responses : NoDup (response_id <$> calls);
  sel_parents c p : c ∈ calls -> parent_call_id c = Some p -> exists q, find_call p calls = Some q;
  sel_paths c : c ∈ calls -> exists l, is_path calls l c }.

Lemma selected_calls_spec parsed selected calls :
  NoDup selected -> selected_calls parsed selected = Ok calls ->
  selection_ok calls /\ response_id <$> calls = selected /\ (forall c, c ∈ calls -> c ∈ manifest parsed) /\
  exists t c, terminal_model_call_id parsed = Some t /\ find_call t calls = Some c.
Proof.
  intros Hs. unfold selected_calls. intros H.
  apply bind_Ok in H as ([] & H1%raise_if_Ok & H). apply bind_Ok in H as ([] & H2%raise_if_Ok & H).
  apply bind_Ok in H as ([] & H3%raise_if_Ok & H). apply bind_Ok in H as ([] & H4%raise_if_Ok & [= H]).
  set (m := manifest parsed) in *. apply orb_false_iff in H1 as [H1 Hin%negb_false_iff].
  apply orb_false_iff in H1 as [Hr%negb_false_iff%bool_decide_eq_true Hi%negb_false_iff%bool_decide_eq_true].
  rewrite H in *. apply negb_false_iff in H3.
  assert (response_id <$> calls = selected /\ (forall c, c ∈ calls -> c ∈ m)) as [Hresp Hman].
  { rewrite <- H. clear -Hin. induction selected as [|r selected IH].
    - split; [done|]. by intros c ?%not_elem_of_nil.
    - cbn [forallb] in Hin. apply andb_true_iff in Hin as [[c Hc]%bool_decide_eq_true Hin]. destruct (IH Hin) as [IH1 IH2].
      cbn [omap list_omap]. rewrite Hc. apply List.find_some in Hc as [Hc Hr%String.eqb_eq]. split.
      + by rewrite fmap_cons, Hr, IH1.
      + intros d [->|Hd]%elem_of_cons; [by apply list_elem_of_In|by apply IH2]. }
  assert (NoDup calls) as Hcalls by (eapply NoDup_fmap_1; by rewrite Hresp).
  split_and!; [|done|done|].
  - split; [| by rewrite Hresp | |].
    + clear -Hi Hman Hcalls. apply NoDup_fmap_2_strong; [|done]. intros c d Hc%Hman Hd%Hman E.
      pose proof (find_by_elem model_call_id m c Hi Hc) as F1. pose proof (find_by_elem model_call_id m d Hi Hd) as F2.
      rewrite E in F1. congruence.
    + intros c p Hc Hp. rewrite forallb_forall in H3. specialize (H3 c (proj1 (list_elem_of_In _ _) Hc)).
      unfold parent_selected in H3. rewrite Hp in H3. by apply bool_decide_eq_true in H3 as [q Hq]; exists q.
    + intros c Hc. destruct (path calls c) as [l|] eqn:E; [exists l; by apply walk_path in E as [? _]|].
      assert (has_cycle calls = true) as Hx; [|by rewrite Hx in H4].
      apply existsb_exists. exists c. split; [by apply list_elem_of_In|]. by apply bool_decide_eq_true.
  - destruct (terminal_model_call_id parsed) as [t|]; [|done]. apply negb_false_iff, bool_decide_eq_true in H2 as [c Hc].
    by exists t, c.
Qed.

(** ** The topological order *)
Section order.
Context (calls : list CallRecord) (Hok : selection_ok calls).

Definition depth (c : CallRecord) : nat := length (default [] (path calls c)).

Lemma find_self c : c ∈ calls -> find_call (model_call_id c) calls = Some c.
Proof. intros Hc. apply (find_by_elem model_call_id); [apply Hok|done]. Qed.

Lemma call_path c : c ∈ calls -> exists l, path calls c = Some l /\ is_path calls l c.
Proof. intros Hc. destruct (sel_paths _ Hok c Hc) as [l Hl]. exists l. split; [by apply path_complete|done]. Qed.

Lemma depth_root c : c ∈ calls -> parent_call_id c = None <-> depth c = 1%nat.
Proof.
  intros Hc. unfold depth. destruct (call_path c Hc) as (l & -> & Hl). cbn. inversion Hl as [? E|? p q l' E Hq Hl']; subst.
  - done.
  - rewrite length_app. apply is_path_nonempty in Hl'. cbn. split; [congruence|lia].
Qed.

Lemma depth_step c p q : c ∈ calls -> parent_call_id c = Some p -> find_call p calls = Some q -> depth c = S (depth q).
Proof.
  intros Hc Hp Hq. unfold depth. destruct (call_path c Hc) as (l & -> & Hl).
  inversion Hl as [? E|? p' q' l' E Hq' Hl']; subst; [congruence|]. assert (q' = q) as -> by congruence.
  apply find_call_Some in Hq as [Hqc _]. rewrite (path_complete _ _ _ Hqc Hl'). cbn. rewrite length_app. cbn. lia.
Qed.

Lemma depth_bounds c : c ∈ calls -> (1 <= depth c <= length calls)%nat.
Proof.
  intros Hc. unfold depth. destruct (call_path c Hc) as (l & Hp & Hl). rewrite Hp. cbn.
  pose proof (is_path_nonempty _ _ _ Hl). apply walk_path in Hp as [_ ?]. lia.
Qed.

(** A deep call has an ancestor at each depth above. *)
Lemma depth_above c d : c ∈ calls -> (1 <= d <= depth c)%nat -> exists e, e ∈ calls /\ depth e = d.
Proof.
  intros Hc Hd. remember (depth c - d)%nat as k eqn:Ek. revert c Hc Hd Ek.
  induction k as [|k IH]; intros c Hc Hd Ek; [exists c; split; [done|lia]|].
  destruct (parent_call_id c) as [p|] eqn:Ep; [|apply (depth_root c Hc) in Ep; lia].
  destruct (sel_parents _ Hok c p Hc Ep) as [q Hq]. pose proof (depth_step c p q Hc Ep Hq) as Hs.
  apply find_call_Some in Hq as [Hqc _]. by apply (IH q); [|lia|lia].
Qed.

Lemma successors_spec c e : e ∈ successors calls (model_call_id c) <-> e ∈ calls /\ parent_call_id e = Some (model_call_id c).
Proof. unfold successors. rewrite list_elem_of_In, filter_In, bool_decide_eq_true, <- list_elem_of_In. done. Qed.

(** Parents come first. *)
Definition parents_first (before l : list CallRecord) : Prop := forall pre c post p,
  l = (pre ++ c :: post)%list -> parent_call_id c = Some p -> exists q, q ∈ (before ++ pre)%list /\ model_call_id q = p.

Definition level_ok (d : nat) (level : list CallRecord) : Prop :=
  NoDup level /\ forall c, c ∈ level <-> c ∈ calls /\ depth c = d.

Lemma next_level d level :
  level_ok d level -> (1 <= d)%nat -> level_ok (S d) (level ≫= fun c => successors calls (model_call_id c)).
Proof.
  intros [Hnd Hl] Hd. split.
  - assert (forall c, c ∈ level -> c ∈ calls) as Hin by (intros c Hc; by apply Hl). clear Hl.
    induction level as [|c level IH]; [constructor|]. apply NoDup_cons in Hnd as [Hc Hnd]. cbn.
    apply NoDup_app. split_and!.
    + unfold successors. apply NoDup_ListNoDup, List.NoDup_filter, NoDup_ListNoDup. eapply NoDup_fmap_1, Hok.
    + intros e [_ He]%successors_spec (c' & [_ He']%successors_spec & Hlev)%list_elem_of_bind.
      assert (c' = c) as ->; [|done]. pose proof (find_self c' ltac:(apply Hin; by right)) as F.
      rewrite He in He'. injection He' as E. pose proof (find_self c ltac:(apply Hin; by left)). congruence.
    + apply IH; [done|]. intros e He. apply Hin. by right.
  - intros e. rewrite list_elem_of_bind. split.
    + intros (c & [He Hp]%successors_spec & [Hc Hdc]%Hl). split; [done|].
      rewrite (depth_step e _ c He Hp (find_self c Hc)). lia.
    + intros [He Hde]. destruct (parent_call_id e) as [p|] eqn:Ep; [|apply (depth_root e He) in Ep; lia].
      destruct (sel_parents _ Hok e p He Ep) as [q Hq]. pose proof (depth_step e p q He Ep Hq) as Hs.
      apply find_call_Some in Hq as [Hqc Hqi]. exists q. split; [|apply Hl; split; [done|lia]].
      apply successors_spec. by rewrite Hqi.
Qed.

(** The rounds from a level on list everything below, each call once and after
    its parent. *)
Lemma rounds_spec fuel : forall d level before,
  level_ok d level -> (1 <= d)%nat -> (forall c, c ∈ calls -> depth c < d + fuel)%nat ->
  (forall c, c ∈ calls -> (depth c < d)%nat -> c ∈ before) ->
  NoDup (rounds fuel calls level) /\
  (forall c, c ∈ rounds fuel calls level <-> c ∈ calls /\ (d <= depth c)%nat) /\
  parents_first before (rounds fuel calls level).
Proof.
  induction fuel as [|fuel IH]; intros d level before Hlev Hd Hfuel Hbef; cbn [rounds].
  { split_and!; [constructor| |by intros [] ? ? ?].
    intros c. split; [by intros ?%not_elem_of_nil|]. intros [Hc ?]. specialize (Hfuel c Hc). lia. }
  destruct level as [|c0 level0].
  { split_and!; [constructor| |by intros [] ? ? ?]. intros c. split; [by intros ?%not_elem_of_nil|].
    intros [Hc Hdc]. destruct (depth_above c d Hc ltac:(lia)) as (e & He & Hde).
    assert (e ∈ []) as Hx by by apply Hlev. by apply not_elem_of_nil in Hx. }
  remember (c0 :: level0) as level eqn:El. clear c0 level0 El. pose proof (next_level d level Hlev Hd) as Hnext.
  destruct (IH (S d) _ (before ++ level)%list Hnext ltac:(lia)) as (IH1 & IH2 & IH3).
  { intros c Hc. specialize (Hfuel c Hc). lia. }
  { intros c Hc Hdc. apply elem_of_app. destruct (decide (depth c = d)) as [He|He]; [right; by apply Hlev|].
    left. apply Hbef; [done|lia]. }
  destruct Hlev as [Hnd Hl]. set (rest := rounds fuel calls _) in *. split_and!.
  - apply NoDup_app. split_and!; [done| |done]. intros c [_ Hc]%Hl [_ Hc']%IH2. lia.
  - intros c. rewrite elem_of_app, IH2, (Hl c). split; [intros [[? ?]|[? ?]]; (split; [done|lia])|].
    intros [Hc Hdc]. destruct (decide (depth c = d)); [by left|right; split; [done|lia]].
  - intros pre c post p He Hp. apply app_eq_app in He as (m & [[-> Hm]|[-> Hm]]).
    + destruct m as [|x m]; [cbn in Hm|].
      * destruct (IH3 [] c post p (eq_sym Hm) Hp) as (q & Hq & Hqi). exists q. split; [|done].
        rewrite app_nil_r in *. by rewrite app_nil_r in Hq.
      * injection Hm as <- Hm. assert (c ∈ calls /\ depth c = d) as [Hc Hdc] by (apply Hl; set_solver).
        destruct (sel_parents _ Hok c p Hc Hp) as [q Hq]. pose proof (depth_step c p q Hc Hp Hq).
        apply find_call_Some in Hq as [Hqc Hqi]. exists q. split; [|done]. apply elem_of_app. left. apply Hbef; [done|lia].
    + destruct (IH3 m c post p Hm Hp) as (q & Hq & Hqi). exists q. split; [|done]. by rewrite app_assoc.
Qed.

Lemma first_level :
  level_ok 1 (List.filter (fun c => bool_decide (parent_call_id c = None)) (omap (fun i => find_call i calls) (node_order calls))).
Proof.
  assert (forall c, c ∈ omap (fun i => find_call i calls) (node_order calls) <-> c ∈ calls) as Hin.
  { intros c. rewrite list_elem_of_omap. split; [by intros (i & _ & [? _]%find_call_Some)|]. intros Hc.
    exists (model_call_id c). split; [|by apply find_self]. apply fromkeys_spec. split; [|by apply not_elem_of_nil].
    apply list_elem_of_bind. exists c. split; [by left|done]. }
  split.
  - apply NoDup_ListNoDup, List.NoDup_filter, NoDup_ListNoDup.
    destruct (fromkeys_spec (calls ≫= fun c => model_call_id c :: option_list (parent_call_id c)) []) as [_ Hnd].
    fold (node_order calls) in Hnd. clear Hin. induction (node_order calls) as [|i l IH]; [constructor|].
    apply NoDup_cons in Hnd as [Hi Hnd]. cbn [omap list_omap]. specialize (IH Hnd).
    destruct (find_call i calls) as [c|] eqn:E; [|done]. apply NoDup_cons. split; [|done].
    intros (j & Hj & Hc)%list_elem_of_omap. apply find_call_Some in E as [_ <-], Hc as [_ <-]. done.
  - intros c. rewrite list_elem_of_In, filter_In, <- list_elem_of_In, Hin, bool_decide_eq_true.
    split; intros [Hc ?]; (split; [done|]); by apply (depth_root c Hc).
Qed.

Lemma static_order_spec :
  static_order calls ≡ₚ calls /\ parents_first [] (static_order calls).
Proof.
  destruct (rounds_spec (S (length calls)) 1 _ [] first_level (le_n _)) as (H1 & H2 & H3).
  - intros c Hc. pose proof (depth_bounds c Hc). lia.
  - intros c Hc. pose proof (depth_bounds c Hc). lia.
  - fold (static_order calls) in H1, H2, H3. split; [|done].
    apply NoDup_Permutation; [done|eapply NoDup_fmap_1, Hok|]. intros c. rewrite H2.
    split; [by intros [? _]|]. intros Hc. split; [done|]. by apply depth_bounds.
Qed.

(** ** Roots and endpoints *)

Definition root_of (c : CallRecord) : option CallRecord := path calls c ≫= head.

(** The marks after a part of the order: each call has its root's position, and
    the parents are those continued. *)
Definition marked (selected : list string) (done : list CallRecord) (st : gmap string nat * gset string) : Prop :=
  (forall c, c ∈ done -> st.1 !! model_call_id c = position selected <$> root_of c) /\
  (forall i, i ∈ st.2 <-> exists c, c ∈ done /\ parent_call_id c = Some i).

Lemma root_of_root c : c ∈ calls -> parent_call_id c = None -> root_of c = Some c.
Proof.
  intros Hc Hp. unfold root_of. rewrite (path_complete calls [c] c Hc (path_root _ _ Hp)). done.
Qed.

Lemma root_of_step c p q : c ∈ calls -> parent_call_id c = Some p -> find_call p calls = Some q -> root_of c = root_of q.
Proof.
  intros Hc Hp Hq. unfold root_of. pose proof (find_call_Some _ _ _ Hq) as [Hqc _].
  destruct (call_path q Hqc) as (l & Hpath & Hl). rewrite Hpath.
  rewrite (path_complete calls (l ++ [c])%list c Hc) by by eapply path_step. cbn.
  apply is_path_nonempty in Hl. destruct l; [cbn in Hl; lia|done].
Qed.

Lemma root_of_some c : c ∈ calls -> exists r, root_of c = Some r /\ r ∈ calls /\ parent_call_id r = None.
Proof.
  intros Hc. destruct (sel_paths _ Hok c Hc) as [l Hl]. revert Hc.
  induction Hl as [c E|c p q l E Hq Hl IH]; intros Hc; [exists c; split; [by apply root_of_root|done]|].
  pose proof (find_call_Some _ _ _ Hq) as [Hqc _]. destruct (IH Hqc) as (r & Hr & ?). exists r.
  split; [|done]. by rewrite (root_of_step c p q Hc E Hq).
Qed.

Lemma mark_all selected l done st :
  parents_first done l -> NoDup (model_call_id <$> (done ++ l)%list) -> (forall c, c ∈ (done ++ l)%list -> c ∈ calls) ->
  marked selected done st -> marked selected (done ++ l)%list (foldl (mark_root selected) st l).
Proof.
  revert done st. induction l as [|c l IH]; intros dn st Hpf Hnd Hin Hm; [by rewrite app_nil_r|].
  cbn [foldl]. replace (dn ++ c :: l)%list with ((dn ++ [c]) ++ l)%list in * by by rewrite <- app_assoc.
  assert (c ∈ calls) as Hc by (apply Hin; set_solver).
  assert (forall d, d ∈ dn -> model_call_id d <> model_call_id c) as Hfresh.
  { intros d Hd E. rewrite !fmap_app in Hnd. apply NoDup_app in Hnd as [Hnd _]. apply NoDup_app in Hnd as (_ & Hnd & _).
    apply (Hnd (model_call_id d)); [by apply list_elem_of_fmap_2|]. rewrite E. by left. }
  apply IH; [|done|done|].
  - intros pre d post p He Hp. destruct (Hpf (c :: pre) d post p) as (q & Hq & Hqi); [by rewrite He|done|].
    exists q. split; [|done]. by rewrite <- app_assoc.
  - destruct Hm as [Hm1 Hm2]. unfold mark_root. destruct (parent_call_id c) as [p|] eqn:Ep; split; cbn [fst snd].
    + intros d Hd. apply elem_of_app in Hd as [Hd| ->%list_elem_of_singleton].
      * rewrite lookup_insert_ne by (intros E; by apply (Hfresh d Hd)). by apply Hm1.
      * rewrite lookup_insert_eq. destruct (Hpf [] c l p eq_refl Ep) as (q & Hq & <-). rewrite app_nil_r in Hq.
        rewrite (Hm1 q Hq). assert (q ∈ calls) as Hqc by (apply Hin; set_solver).
        rewrite (root_of_step c _ q Hc Ep (find_self q Hqc)). by destruct (root_of_some q Hqc) as (r & -> & _).
    + intros i. rewrite elem_of_union, elem_of_singleton, Hm2. split.
      * intros [->|(d & ? & ?)]; [exists c; set_solver|exists d; set_solver].
      * intros (d & [Hd| ->%list_elem_of_singleton]%elem_of_app & Hp); [right; by exists d|left; congruence].
    + intros d Hd. apply elem_of_app in Hd as [Hd| ->%list_elem_of_singleton].
      * rewrite lookup_insert_ne by (intros E; by apply (Hfresh d Hd)). by apply Hm1.
      * rewrite lookup_insert_eq. by rewrite (root_of_root c Hc Ep).
    + intros i. rewrite Hm2. split.
      * intros (d & ? & ?). exists d. set_solver.
      * intros (d & [Hd| ->%list_elem_of_singleton]%elem_of_app & Hp); [by exists d|congruence].
Qed.

Lemma roots_and_parents_spec selected : marked selected (static_order calls) (roots_and_parents selected calls).
Proof.
  destruct static_order_spec as [Hperm Hpf]. apply (mark_all selected (static_order calls) [] (∅, ∅) Hpf).
  - cbn [app]. rewrite Hperm. apply Hok.
  - intros c Hc. cbn in Hc. by rewrite Hperm in Hc.
  - split; cbn; [by intros c ?%not_elem_of_nil|]. intros i. split; [set_solver|].
    by intros (c & ?%not_elem_of_nil & _).
Qed.

(** A selected call nothing selected continues. *)
Definition is_leaf (c : CallRecord) : Prop :=
  c ∈ calls /\ forall d, d ∈ calls -> parent_call_id d <> Some (model_call_id c).

Definition rank (selected : list string) (c : CallRecord) : nat * nat :=
  (default 0%nat (position selected <$> root_of c), position selected c).

Definition rank_le (selected : list string) (a b : CallRecord) : Prop :=
  ((rank selected a).1 < (rank selected b).1)%nat \/
  ((rank selected a).1 = (rank selected b).1 /\ ((rank selected a).2 <= (rank selected b).2)%nat).

Lemma endpoints_spec selected :
  NoDup (endpoints selected calls) /\ (forall c, c ∈ endpoints selected calls <-> is_leaf c) /\
  StronglySorted (rank_le selected) (endpoints selected calls).
Proof.
  destruct static_order_spec as [Hperm _]. pose proof (roots_and_parents_spec selected) as [Hr Hp].
  unfold endpoints. destruct (roots_and_parents selected calls) as [roots parents] eqn:E. cbn [fst snd] in Hr, Hp.
  set (leaves := List.filter _ (static_order calls)).
  assert (forall c, c ∈ leaves <-> is_leaf c) as Hl.
  { intros c. unfold leaves. rewrite list_elem_of_In, filter_In, <- list_elem_of_In, negb_true_iff, bool_decide_eq_false, Hp, Hperm.
    unfold is_leaf. split; intros [Hc H]; (split; [done|]); [intros d Hd Hpd|intros (d & Hd & Hpd)].
    - apply H. exists d. by rewrite Hperm.
    - rewrite Hperm in Hd. by apply (H d). }
  split_and!.
  - rewrite py_sort_perm. apply NoDup_ListNoDup, List.NoDup_filter, NoDup_ListNoDup. rewrite Hperm. eapply NoDup_fmap_1, Hok.
  - intros c. rewrite py_sort_perm. apply Hl.
  - assert (forall c, c ∈ calls -> default 0%nat (roots !! model_call_id c) = (rank selected c).1) as Hrank.
    { intros c Hc. unfold rank. rewrite Hr by by rewrite Hperm. by destruct (root_of c). }
    assert (Forall (fun c => c ∈ calls) (py_sort (endpoint_ltb selected roots) leaves)) as Hall.
    { apply Forall_forall. intros c Hc. rewrite py_sort_perm in Hc. by apply Hl in Hc as [? _]. }
    assert (StronglySorted (fun a b => endpoint_ltb selected roots b a = false) (py_sort (endpoint_ltb selected roots) leaves)) as Hs.
    { apply py_sort_sorted; intros *; unfold endpoint_ltb;
        rewrite ?orb_false_iff, ?orb_true_iff, ?andb_false_iff, ?andb_true_iff, ?Nat.ltb_ge, ?Nat.ltb_lt, ?Nat.eqb_eq, ?Nat.eqb_neq; lia. }
    induction Hs as [|c l Hs IH Hc]; [constructor|]. apply Forall_cons in Hall as [Hcc Hall].
    constructor; [by apply IH|]. rewrite Forall_forall in Hall, Hc |- *. intros d Hd. specialize (Hc d Hd). cbn beta in Hc.
    unfold endpoint_ltb in Hc. rewrite (Hrank c Hcc), (Hrank d (Hall d Hd)) in Hc.
    apply orb_false_iff in Hc as [H1 H2]. apply Nat.ltb_ge in H1. unfold rank_le.
    apply andb_false_iff in H2 as [H2|H2]; [apply Nat.eqb_neq in H2; lia|apply Nat.ltb_ge in H2]. cbn [snd rank] in *.
    unfold rank at 3 4. cbn [snd]. destruct (decide ((rank selected c).1 < (rank selected d).1)%nat); [by left|right]. 
    unfold rank in *. cbn [fst snd] in *. lia.
Qed.

End order.

(** ** The plan *)

Lemma length_path_child calls c d l : is_path calls l d -> parent_call_id d = Some (model_call_id c) ->
  find_call (model_call_id c) calls = Some c -> exists l', l = (l' ++ [d])%list /\ is_path calls l' c.
Proof. intros H Hp Hc. inversion H; subst; [congruence|]. eexists. split; [done|]. congruence. Qed.

(** Every selected call is on the path to a leaf. *)
Lemma call_below_leaf calls c :
  selection_ok calls -> c ∈ calls -> exists leaf l, is_leaf calls leaf /\ is_path calls l leaf /\ c ∈ l.
Proof.
  intros Hok. remember (length calls - depth calls c)%nat as k eqn:Ek. revert c Ek.
  induction k as [k IH] using lt_wf_ind. intros c -> Hc.
  pose proof (depth_bounds calls Hok c Hc) as Hb.
  destruct (decide (Exists (fun d => parent_call_id d = Some (model_call_id c)) calls)) as [He|He].
  - apply Exists_exists in He as (d & Hd & Hp). pose proof (find_self calls Hok c Hc) as Hself.
    pose proof (depth_step calls Hok d _ c Hd Hp Hself) as Hs. pose proof (depth_bounds calls Hok d Hd).
    destruct (IH (length calls - depth calls d)%nat ltac:(lia) d eq_refl Hd) as (leaf & l & Hleaf & Hl & Hin).
    exists leaf, l. split_and!; [done|done|]. apply list_elem_of_split in Hin as (l1 & l2 & ->).
    pose proof (is_path_prefix _ _ _ _ _ _ Hl eq_refl) as Hd'.
    destruct (length_path_child _ c _ _ Hd' Hp Hself) as (l' & El & Hl'). apply app_inj_tail in El as [-> _].
    apply is_path_last in Hl'. apply elem_of_app. left. apply last_Some in Hl' as [l'' ->]. set_solver.
  - destruct (sel_paths _ Hok c Hc) as [l Hl]. exists c, l. split_and!; [|done|].
    + split; [done|]. intros d Hd Hp. apply He. apply Exists_exists. by exists d.
    + apply is_path_last, last_Some in Hl as [l' ->]. set_solver.
Qed.

Lemma chains_spec calls selected :
  selection_ok calls ->
  last <$> chains selected calls = Some <$> endpoints selected calls /\
  Forall (fun ch => exists leaf, is_leaf calls leaf /\ is_path calls ch leaf) (chains selected calls).
Proof.
  intros Hok. destruct (endpoints_spec calls Hok selected) as (_ & He & _). unfold chains.
  assert (Forall (is_leaf calls) (endpoints selected calls)) as Hf by (apply Forall_forall; intros c; apply He).
  clear He. induction Hf as [|c l Hc Hf [IH1 IH2]]; [by split|]. cbn [omap list_omap].
  destruct (call_path calls Hok c ltac:(apply Hc)) as (p & Hp & Hpath). rewrite Hp. split.
  - rewrite !fmap_cons, IH1. by rewrite (is_path_last _ _ _ Hpath).
  - constructor; [|done]. by exists c.
Qed.

(** What [plan_parsed] accepts of an attempt whose capture is sound. *)
Record plannable (parsed : RolloutReceipt) (sel : RolloutSelection) : Prop := {
  pl_selected : response_ids sel <> [] /\ NoDup (response_ids sel);
  pl_flags : length (action_flags sel) = length (response_ids sel);
  pl_manifest : NoDup (response_id <$> manifest parsed) /\ NoDup (model_call_id <$> manifest parsed);
  pl_known : Forall (fun r => exists c, find_response r (manifest parsed) = Some c) (response_ids sel);
  pl_terminal : exists t c, terminal_model_call_id parsed = Some t /\
    find_call t (omap (fun r => find_response r (manifest parsed)) (response_ids sel)) = Some c;
  pl_closed : let calls := omap (fun r => find_response r (manifest parsed)) (response_ids sel) in
    Forall (fun c => match parent_call_id c with None => True | Some p => is_Some (find_call p calls) end) calls;
  pl_acyclic : let calls := omap (fun r => find_response r (manifest parsed)) (response_ids sel) in
    Forall (fun c => exists l, is_path calls l c) calls }.

Lemma forallb_Forall' {A} (f : A -> bool) (P : A -> Prop) l :
  (forall x, f x = true <-> P x) -> forallb f l = true <-> Forall P l.
Proof.
  intros H. rewrite forallb_forall, Forall_forall. split; intros Hl x Hx; apply H, Hl; by apply list_elem_of_In.
Qed.

Lemma selected_calls_Ok parsed sel calls :
  selected_calls parsed (response_ids sel) = Ok calls <->
  calls = omap (fun r => find_response r (manifest parsed)) (response_ids sel) /\
  (NoDup (response_id <$> manifest parsed) /\ NoDup (model_call_id <$> manifest parsed)) /\
  Forall (fun r => exists c, find_response r (manifest parsed) = Some c) (response_ids sel) /\
  (exists t c, terminal_model_call_id parsed = Some t /\ find_call t calls = Some c) /\
  Forall (fun c => match parent_call_id c with None => True | Some p => is_Some (find_call p calls) end) calls /\
  Forall (fun c => exists l, path calls c = Some l) calls.
Proof.
  unfold selected_calls. set (found := omap _ (response_ids sel)).
  assert (forall c, parent_selected found c = true <->
    match parent_call_id c with None => True | Some p => is_Some (find_call p found) end) as Hpar.
  { intros c. unfold parent_selected. destruct (parent_call_id c); [by rewrite bool_decide_eq_true|done]. }
  assert (has_cycle found = false <-> Forall (fun c => exists l, path found c = Some l) found) as Hcyc.
  { unfold has_cycle. rewrite <- not_true_iff_false, existsb_exists, Forall_forall. split.
    - intros H c Hc. destruct (path found c) as [l|] eqn:E; [by exists l|]. destruct H. exists c.
      split; [by apply list_elem_of_In|by apply bool_decide_eq_true].
    - intros H (c & Hc%list_elem_of_In & Hn%bool_decide_eq_true). destruct (H c Hc). congruence. }
  assert (forallb (fun r => bool_decide (is_Some (find_response r (manifest parsed)))) (response_ids sel) = true <->
    Forall (fun r => exists c, find_response r (manifest parsed) = Some c) (response_ids sel)) as Hkn.
  { apply forallb_Forall'. intros r. rewrite bool_decide_eq_true. split; [by intros [c Hc]; exists c|by intros [c Hc]; exists c]. }
  rewrite <- Hkn. split.
  - intros H. apply bind_Ok in H as ([] & H1%raise_if_Ok & H). apply bind_Ok in H as ([] & H2%raise_if_Ok & H).
    apply bind_Ok in H as ([] & H3%raise_if_Ok & H). apply bind_Ok in H as ([] & H4%raise_if_Ok & [= <-]).
    apply orb_false_iff in H1 as [[H1 H1']%orb_false_iff H5]. apply negb_false_iff in H1, H1', H5, H3.
    apply bool_decide_eq_true in H1, H1'. split_and!; try done.
    + destruct (terminal_model_call_id parsed) as [t|]; [|done]. apply negb_false_iff, bool_decide_eq_true in H2 as [c Hc].
      by exists t, c.
    + by apply (forallb_Forall' _ _ found Hpar).
    + by apply Hcyc.
  - intros (-> & [H1 H1'] & H5 & (t & c & Ht & Hc) & H3 & H4). rewrite H5.
    rewrite !bool_decide_eq_true_2 by done. cbn [negb orb raise_if mbind res_bind]. rewrite Ht, Hc.
    rewrite bool_decide_eq_true_2 by by eexists. cbn [negb raise_if mbind res_bind].
    rewrite (proj2 (forallb_Forall' _ _ found Hpar) H3). cbn [negb raise_if mbind res_bind].
    rewrite (proj2 Hcyc H4). done.
Qed.

Section plan.
Context (model_dump : RolloutReceipt -> dict).

Lemma plan_parsed_Ok owner parsed sel segs :
  capture_poisoned parsed = false ->
  plan_parsed model_dump owner parsed sel = Ok segs <->
  (response_ids sel <> [] /\ NoDup (response_ids sel)) /\ length (action_flags sel) = length (response_ids sel) /\
  exists calls, selected_calls parsed (response_ids sel) = Ok calls /\
    segs = chain_segment model_dump owner parsed sel calls <$> chains (response_ids sel) calls.
Proof.
  intros Hp. unfold plan_parsed. rewrite Hp. cbn [negb]. rewrite andb_true_r. split.
  - intros H. apply bind_Ok in H as ([] & H1%raise_if_Ok & H). apply bind_Ok in H as (calls & Hc & [= <-]).
    apply orb_false_iff in H1 as [[H1%bool_decide_eq_false H2%negb_false_iff%bool_decide_eq_true]%orb_false_iff H3%negb_false_iff%Nat.eqb_eq].
    split_and!; try done. by exists calls.
  - intros ([H1 H2] & H3 & calls & Hc & ->). rewrite bool_decide_eq_false_2 by done. rewrite bool_decide_eq_true_2 by done.
    rewrite H3, Nat.eqb_refl. cbn [negb orb raise_if mbind res_bind]. by rewrite Hc.
Qed.


(** A sound attempt is planned exactly when the selection is non-empty and
    unambiguous, every selected response was committed, the scored call is
    selected, each selected call's predecessor is, and no call continues itself;
    in every other case the planner raises [ValueError]. *)
Theorem selection_is_planned_when_closed owner parsed sel :
  capture_poisoned parsed = false ->
  (plannable parsed sel -> exists segs, plan_parsed model_dump owner parsed sel = Ok segs /\ segs <> []) /\
  (~ plannable parsed sel -> plan_parsed model_dump owner parsed sel = Raise ValueError).
Proof.
  intros Hp.
  assert (forall segs, plan_parsed model_dump owner parsed sel = Ok segs -> plannable parsed sel) as Hback.
  { intros segs H. apply (plan_parsed_Ok _ _ _ _ Hp) in H as (H1 & H2 & calls & Hc & _).
    apply selected_calls_Ok in Hc as (-> & H3 & H4 & H5 & H6 & H7). split; try done. cbn zeta.
    eapply Forall_impl; [exact H7|]. cbn. intros c [l Hl]. exists l. by apply walk_path in Hl as [? _]. }
  split.
  - intros [H1 H2 H3 H4 H5 H6 H7]. cbn zeta in H6, H7.
    set (calls := omap (fun r => find_response r (manifest parsed)) (response_ids sel)) in *.
    assert (selected_calls parsed (response_ids sel) = Ok calls) as Hc.
    { apply selected_calls_Ok. destruct H3. split_and!; try done. apply Forall_forall. intros c Hcc.
      rewrite Forall_forall in H7. destruct (H7 c Hcc) as [l Hl]. exists l. by apply path_complete. }
    eexists. split; [apply plan_parsed_Ok; [done|]; split_and!; [apply H1|apply H1|done|by exists calls]|].
    destruct (selected_calls_spec _ _ _ (proj2 H1) Hc) as (Hok & Hresp & _ & t & c & Ht & Hfc).
    apply find_call_Some in Hfc as [Hcc _]. destruct (call_below_leaf calls c Hok Hcc) as (leaf & l & Hleaf & Hl & _).
    intros Hn. assert (l ∈ chains (response_ids sel) calls) as Hin.
    { apply list_elem_of_omap. exists leaf. split; [by apply (endpoints_spec calls Hok)|]. apply path_complete; [apply Hleaf|done]. }
    apply fmap_nil_inv in Hn. rewrite Hn in Hin. by apply not_elem_of_nil in Hin.
  - intros Hn. destruct (plan_parsed model_dump owner parsed sel) as [segs|e] eqn:E; [by destruct Hn; eapply Hback|].
    unfold plan_parsed, selected_calls in E. rewrite Hp in E.
    repeat match goal with
      | H : (raise_if ?b ValueError ≫= _) = Raise _ |- _ => destruct b; cbn [raise_if mbind res_bind] in H; [congruence|]
      | H : ((raise_if ?b ValueError ≫= _) ≫= _) = Raise _ |- _ => destruct b; cbn [raise_if mbind res_bind] in H; [congruence|]
      end. done.
Qed.

(** The order in which the calls were committed does not matter. *)
Theorem commit_order_does_not_matter owner parsed sel m :
  capture_poisoned parsed = false -> manifest parsed ≡ₚ m ->
  plan_parsed model_dump owner
    (mkReceipt (receipt_capture_key parsed) m (terminal_model_call_id parsed) (terminal_selection parsed)
       (capture_poisoned parsed) (failure_reason parsed)) sel
  = plan_parsed model_dump owner parsed sel.
Proof.
  intros Hp Hm. unfold plan_parsed, chain_segment. cbn [receipt_capture_key capture_poisoned failure_reason]. rewrite Hp.
  assert (selected_calls (mkReceipt (receipt_capture_key parsed) m (terminal_model_call_id parsed)
            (terminal_selection parsed) false (failure_reason parsed)) (response_ids sel)
          = selected_calls parsed (response_ids sel)) as ->; [|done].
  unfold selected_calls. cbn [manifest terminal_model_call_id].
  destruct (decide (NoDup (response_id <$> manifest parsed))) as [Hnd|Hnd].
  2: { rewrite (bool_decide_eq_false_2 (NoDup (response_id <$> m))) by (intros Hm'; apply Hnd; by rewrite Hm).
       by rewrite (bool_decide_eq_false_2 (NoDup (response_id <$> manifest parsed))). }
  assert (forall r, find_response r m = find_response r (manifest parsed)) as Hfind.
  { intros r. unfold find_response. destruct (List.find _ (manifest parsed)) as [c|] eqn:E.
    - apply List.find_some in E as [Hc <-%String.eqb_eq]. apply (find_by_elem response_id); [by rewrite <- Hm|].
      rewrite <- Hm. by apply list_elem_of_In.
    - destruct (List.find _ m) as [c|] eqn:E'; [|done]. apply List.find_some in E' as [Hc He].
      pose proof (List.find_none _ _ E c) as Hn. cbn beta in Hn. rewrite He in Hn. discriminate Hn.
      apply list_elem_of_In. rewrite Hm. by apply list_elem_of_In. }
  rewrite (bool_decide_ext (NoDup (response_id <$> m)) (NoDup (response_id <$> manifest parsed))) by by rewrite Hm.
  rewrite (bool_decide_ext (NoDup (model_call_id <$> m)) (NoDup (model_call_id <$> manifest parsed))) by by rewrite Hm.
  assert (forallb (fun r => bool_decide (is_Some (find_response r m))) (response_ids sel)
          = forallb (fun r => bool_decide (is_Some (find_response r (manifest parsed)))) (response_ids sel)) as ->.
  { induction (response_ids sel) as [|r l IH]; [done|]. cbn [forallb]. by rewrite Hfind, IH. }
  assert (omap (fun r => find_response r m) (response_ids sel)
          = omap (fun r => find_response r (manifest parsed)) (response_ids sel)) as ->; [|done].
  induction (response_ids sel) as [|r l IH]; [done|]. cbn [omap list_omap]. by rewrite Hfind, IH.
Qed.

End plan.

(** ** A concrete forest *)
Module Demo.

Definition record (i : string) (parent : option string) : CallRecord :=
  mkRecord i ("resp-" +:+ i) parent ("run/" +:+ i) 0 4 7.

(** Two conversations; the first forks after [b].  The calls were committed out
    of order, and [x] was not selected. *)
Definition parsed : RolloutReceipt :=
  mkReceipt "run" [record "d" (Some "b"); record "b" (Some "a"); record "x" None; record "e" None;
                   record "a" None; record "c" (Some "b")] (Some "d") None false None.
Definition flag : ActionOutputFlags := mkFlags false false.
Definition sel : RolloutSelection :=
  mkSelection ["resp-e"; "resp-a"; "resp-b"; "resp-c"; "resp-d"] [flag; flag; flag; flag; flag] false.
Definition dump (r : RolloutReceipt) : dict := [(VStr "manifest", VList ((fun c => VStr (model_call_id c)) <$> manifest r))].

Definition planned : list SegmentReceipt :=
  match plan_parsed dump "run" parsed sel with Ok l => l | Raise _ => [] end.

Example three_rows :
  selected_response_ids <$> planned
  = [["resp-e"]; ["resp-a"; "resp-b"; "resp-c"]; ["resp-a"; "resp-b"; "resp-d"]].
Proof. vm_compute. reflexivity. Qed.

Lemma planned_eq : plan_parsed dump "run" parsed sel = Ok planned.
Proof. vm_compute. reflexivity. Qed.


Lemma closed_witness :
  plan_parsed dump "run" parsed (mkSelection ["resp-d"] [flag] false) = Raise ValueError.
Proof.
  apply (proj2 (selection_is_planned_when_closed dump "run" parsed (mkSelection ["resp-d"] [flag] false) eq_refl)).
  intros [_ _ _ _ _ H _]. cbn zeta in H. apply Forall_inv in H. destruct H as [c H]. discriminate.
Defined.

Lemma commit_order_witness :
  plan_parsed dump "run"
    (mkReceipt "run" (rev (manifest parsed)) (Some "d") None false None) sel = Ok planned.
Proof.
  rewrite <- planned_eq. apply (commit_order_does_not_matter dump "run" parsed sel (rev (manifest parsed)) eq_refl).
  apply Permutation_rev.
Defined.

End Demo.
