(* ===== verification/Rewards.v ===== *)
(** * Reward shaping and penalties of captured rollouts
    ([experience/reward_penalties.py] and the configuration classes of
    [algorithms/grpo.py] and [experience/rollouts.py])

    A rollout's reward is shaped by length for low-effort prompts, then zeroed
    when a penalty applies: to the scored text (saved checks) or to the tokens
    each call generated.  A Python float is a binary64 number; the tokenizer's
    decoder is an argument. *)

From Stdlib Require Import SpecFloat.
From S2P Require Import Prelude.
From S2P Require Import PyVal.
From S2P Require Import PyStr.
From S2P Require Import Recovery.
#[local] Open Scope string_scope.
#[local] Open Scope Z_scope.

(** ** Floats *)
Abbreviation float := spec_float.

Definition fadd (x y : float) : float := SFadd 53 1024 x y.
Definition fsub (x y : float) : float := SFsub 53 1024 x y.
Definition fmul (x y : float) : float := SFmul 53 1024 x y.
Definition fdiv (x y : float) : float := SFdiv 53 1024 x y.
Definition of_int (z : Z) : float := binary_normalize 53 1024 z 0 false.
Definition f0 : float := S754_zero false.
Definition f1 : float := of_int 1.

(** The number a [pyfloat] stands for, in binary64. *)
Definition to_float (x : pyfloat) : float :=
  match x with
  | Fin m e => binary_normalize 53 1024 m e false
  | Inf negative => S754_infinity negative
  | NaN => S754_nan
  end.

(** [min(a, b)] and [max(a, b)]: the first unless the second is strictly
    smaller, or larger. *)
Definition py_fmin (a b : float) : float := if SFltb b a then b else a.
Definition py_fmax (a b : float) : float := if SFltb a b then b else a.

(** [a / b] of two integers below [2^53]. *)
Definition int_div (a b : Z) : res float := if b =? 0 then Raise ZeroDivisionError else Ok (fdiv (of_int a) (of_int b)).

(** ** Configuration *)

Record EffortLevelsConfig := mkEffort {
  low_weight : pyfloat;
  low_penalty : pyfloat;
  low_ub : Z;
  low_string : string }.

Record RewardPenaltyTokenIdsConfig := mkTokenIds {
  unwanted : option (list Z);
  think_open : option Z;
  think_close : option Z }.

Record RewardPenaltyConfig := mkPenalties {
  penalize_duplicated_reasoning : bool;
  penalize_empty_final_answer : bool;
  penalize_unwanted_tokens : bool;
  penalize_malformed_think_tag : bool;
  token_ids : option RewardPenaltyTokenIdsConfig }.

(** The validators that run after the fields. *)
Definition _require_unwanted_token_ids_when_penalized (c : RewardPenaltyConfig) : res RewardPenaltyConfig :=
  _ ← raise_if (penalize_unwanted_tokens c
                && match token_ids c with
                   | Some (mkTokenIds (Some (_ :: _)) _ _) => false
                   | _ => true
                   end) ValueError;
  Ok c.

Definition validate_length_bound (c : EffortLevelsConfig) : res EffortLevelsConfig :=
  _ ← raise_if (SFltb f0 (to_float (low_weight c)) && negb (String.eqb (low_string c) "") && (low_ub c <=? 0)) ValueError;
  Ok c.

(** ** Checks on the scored text *)

(** [str.strip], on ASCII. *)
Definition is_space (a : Ascii.ascii) : bool :=
  let n := Ascii.nat_of_ascii a in (((9 <=? n) && (n <=? 13)) || ((28 <=? n) && (n <=? 32)))%nat.

Fixpoint lstrip (s : string) : string :=
  match s with
  | EmptyString => EmptyString
  | String a s' => if is_space a then lstrip s' else s
  end.
Fixpoint rstrip (s : string) : string :=
  match s with
  | EmptyString => EmptyString
  | String a s' => let r := rstrip s' in if is_space a && String.eqb r "" then "" else String a r
  end.
Definition strip (s : string) : string := rstrip (lstrip s).

(** The items are JSON values.  [k in v], [v[k]], [v.get(k)] and [v.strip()]. *)
Definition key_in (k : string) (v : PyVal) : res bool :=
  match v with
  | VDict d => Ok (has_key k d)
  | VStr s => Ok (match String.index 0 k s with Some _ => true | None => false end)
  | VList l => Ok (existsb (is_str k) l)
  | _ => Raise TypeError
  end.

Definition subscript (k : string) (v : PyVal) : res PyVal :=
  match v with VDict d => dict_index k d | _ => Raise TypeError end.

Definition get_or (k : string) (default_ : PyVal) (v : PyVal) : res PyVal :=
  match v with VDict d => Ok (default default_ (dict_get k d)) | _ => Raise AttributeError end.

Definition stripped (v : PyVal) : res string :=
  match v with VStr s => Ok (strip s) | _ => Raise AttributeError end.

(** [x[0]["text"].strip()] where ["text" in x[0]]. *)
Definition first_text (l : list PyVal) : res (option string) :=
  match l with
  | [] => Raise IndexError
  | x :: _ =>
      has ← key_in "text" x;
      if has : bool then v ← subscript "text" x; t ← stripped v; Ok (Some t) else Ok None
  end.

(** The text of an item's content, [None] where the loop moves on. *)
Definition content_text (content : PyVal) : res (option string) :=
  match content with
  | VList [] => Ok None
  | VList l => first_text l
  | VStr s => Ok (Some (strip s))
  | _ => Ok None
  end.

(** The text of a non-empty summary; of a string, the first character holds no
    ["text"]. *)
Definition summary_text (summary : PyVal) : res (option string) :=
  match summary with
  | VList l => first_text l
  | VStr _ => Ok None
  | VDict _ => Raise KeyError
  | _ => Raise TypeError
  end.

Definition duplicated_pair (item1 item2 : PyVal) : res bool :=
  kind ← get_or "type" VNone item1;
  if negb (is_str "reasoning" kind) then Ok false
  else
    summary ← get_or "summary" (VList []) item1;
    if negb (truthy summary) then Ok false
    else
      reasoning ← summary_text summary;
      match reasoning with
      | None => Ok false
      | Some reasoning_text =>
          content ← get_or "content" (VStr "") item2;
          text ← content_text content;
          match text with
          | None => Ok false
          | Some chat_text =>
              Ok (negb (String.eqb reasoning_text "") && negb (String.eqb chat_text "") && String.eqb reasoning_text chat_text)
          end
      end.

Fixpoint has_duplicated_reasoning (items : list PyVal) : res bool :=
  match items with
  | item1 :: (item2 :: _) as rest =>
      dup ← duplicated_pair item1 item2;
      if dup : bool then Ok true else has_duplicated_reasoning rest
  | _ => Ok false
  end.

(** The loop over the reversed items. *)
Fixpoint final_answer (reversed : list PyVal) : res (option string) :=
  match reversed with
  | [] => Ok None
  | item :: rest =>
      has ← key_in "content" item;
      if negb has then final_answer rest
      else
        content ← subscript "content" item;
        text ← content_text content;
        match text with Some t => Ok (Some t) | None => final_answer rest end
  end.

Definition has_empty_final_answer (items : list PyVal) : res bool :=
  call ← match rev items with
         | item :: _ => is_str "function_call" <$> get_or "type" VNone item
         | [] => Ok false
         end;
  if call : bool then Ok false
  else
    text ← final_answer (rev items);
    Ok (match text with None => true | Some t => String.eqb t "" end).

(** ** Effort shaping *)

Definition effort_shaping_enabled (config : option EffortLevelsConfig) : bool :=
  match config with
  | Some c => SFltb f0 (to_float (low_weight c)) && negb (String.eqb (low_string c) "")
  | None => false
  end.

Definition shape_effort_reward (reward : float) (length : Z) (config : EffortLevelsConfig) : res (float * float) :=
  ratio ← int_div length (low_ub config);
  let length_reward := py_fmin f1 (fmul (to_float (low_weight config)) (fsub f1 ratio)) in
  Ok (fadd (fadd reward (fmul reward (py_fmax length_reward f0))) (fmul (to_float (low_penalty config)) (py_fmin length_reward f0)),
      length_reward).

(** ** Token checks *)

Definition zcount (x : Z) (l : list Z) : Z := Z.of_nat (length (List.filter (Z.eqb x) l)).

Definition has_unwanted_tokens (generations : list (list Z)) (unwanted_ids : list Z) : bool :=
  existsb (fun generation => existsb (fun token => existsb (Z.eqb token) generation) unwanted_ids) generations.

(** [text.count(tag)]: occurrences that do not overlap; [skip] characters still
    belong to the last one. *)
Fixpoint count_from (skip : nat) (tag text : string) : Z :=
  match text with
  | EmptyString => if (skip =? 0)%nat && String.eqb tag "" then 1 else 0
  | String _ rest =>
      match skip with
      | S skip' => count_from skip' tag rest
      | O => if String.prefix tag text then 1 + count_from (String.length tag - 1) tag rest else count_from 0 tag rest
      end
  end.
Definition str_count (tag text : string) : Z := count_from 0 tag text.

Section decoder.
Context (decode : list Z -> string).

Definition has_malformed_think_tag (carry generation : list Z) (think_tag_ids : option (Z * Z))
  (thinking_tags : string * string) : bool :=
  let by_text := (0 <? str_count thinking_tags.1 (decode generation)) || (1 <? str_count thinking_tags.2 (decode generation)) in
  match think_tag_ids with
  | None => by_text
  | Some (o, c) =>
      let '(prompt_open, prompt_close) := (zcount o carry, zcount c carry) in
      let expected := if prompt_open =? prompt_close then Some (0, 0)
                      else if prompt_open =? prompt_close + 1 then Some (0, 1) else None in
      match expected with
      | None => true
      | Some e => if negb (bool_decide ((zcount o generation, zcount c generation) = e)) then true else by_text
      end
  end.
End decoder.

(** ** [CAPTURE_PENALTIES] *)

Inductive penalty := DuplicatedReasoning | EmptyFinalAnswer | UnwantedToken | MalformedThinkTag.
#[export] Instance penalty_eq_dec : EqDecision penalty.
Proof. solve_decision. Defined.

Definition CAPTURE_PENALTIES : list penalty := [DuplicatedReasoning; EmptyFinalAnswer; UnwantedToken; MalformedThinkTag].

Definition penalty_name (p : penalty) : string :=
  match p with
  | DuplicatedReasoning => "duplicated_reasoning"
  | EmptyFinalAnswer => "empty_final_answer"
  | UnwantedToken => "unwanted_token"
  | MalformedThinkTag => "malformed_think_tag"
  end.

Definition penalty_flag (p : penalty) : string :=
  match p with
  | DuplicatedReasoning => "penalize_duplicated_reasoning"
  | EmptyFinalAnswer => "penalize_empty_final_answer"
  | UnwantedToken => "penalize_unwanted_tokens"
  | MalformedThinkTag => "penalize_malformed_think_tag"
  end.

Definition enabled (p : penalty) (c : RewardPenaltyConfig) : bool :=
  match p with
  | DuplicatedReasoning => penalize_duplicated_reasoning c
  | EmptyFinalAnswer => penalize_empty_final_answer c
  | UnwantedToken => penalize_unwanted_tokens c
  | MalformedThinkTag => penalize_malformed_think_tag c
  end.

(** [text_match], [None] for a penalty on tokens. *)
Definition text_match (p : penalty) : option (RewardChecks -> bool) :=
  match p with
  | DuplicatedReasoning => Some duplicated_reasoning
  | EmptyFinalAnswer => Some empty_final_answer
  | _ => None
  end.

(** ** [finalize_capture_reward] *)

Record penalty_counts := mkCounts {
  count_duplicated : Z;
  count_empty : Z;
  count_unwanted : Z;
  count_malformed : Z }.

Definition count_of (p : penalty) (c : penalty_counts) : Z :=
  match p with
  | DuplicatedReasoning => count_duplicated c
  | EmptyFinalAnswer => count_empty c
  | UnwantedToken => count_unwanted c
  | MalformedThinkTag => count_malformed c
  end.

(** [any(counts.values())]. *)
Definition any_count (c : penalty_counts) : bool := existsb (fun p => negb (count_of p c =? 0)) CAPTURE_PENALTIES.

Abbreviation link_span := (string * Z * Z)%type.

(** The settings the loop over the spans reads: the unwanted ids, and the tags
    with their ids and the decoder. *)
Record token_rules := mkRules {
  rule_unwanted : option (list Z);
  rule_think : option ((list Z -> string) * option (Z * Z) * (string * string)) }.

Definition resolve_rules (config : RewardPenaltyConfig) (decode : option (list Z -> string))
  (thinking_tags : option (list string)) : res token_rules :=
  unw ← (if penalize_unwanted_tokens config then
           match token_ids config with
           | Some (mkTokenIds (Some ids) _ _) => Ok (Some ids)
           | _ => Raise AssertionError
           end
         else Ok None);
  think ← (if penalize_malformed_think_tag config then
             match decode, thinking_tags with
             | Some dec, Some (open_ :: close_ :: _) =>
                 Ok (Some (dec,
                           match token_ids config with
                           | Some (mkTokenIds _ (Some o) (Some c)) => Some (o, c)
                           | _ => None
                           end,
                           (open_, close_)))
             | _, _ => Raise RuntimeError
             end
           else Ok None);
  Ok (mkRules unw think).

Definition unwanted_in (rules : token_rules) (generation : list Z) : bool :=
  match rule_unwanted rules with Some ids => has_unwanted_tokens [generation] ids | None => false end.

Definition malformed_in (rules : token_rules) (carry generation : list Z) : bool :=
  match rule_think rules with
  | Some (dec, ids, tags) => has_malformed_think_tag dec carry generation ids tags
  | None => false
  end.

Fixpoint span_penalties (rules : token_rules) (tokens : list Z) (offset : Z) (spans : list link_span)
  (unw mal : Z) : Z * Z :=
  match spans with
  | [] => (unw, mal)
  | (_, carry, generated) :: rest =>
      let start := offset + carry in
      let end_ := start + generated in
      let generation := py_slice start end_ tokens in
      let unw := if unwanted_in rules generation then 1 else unw in
      let mal := if mal =? 0 then Z.b2z (malformed_in rules (py_slice offset start tokens) generation) else mal in
      span_penalties rules tokens end_ rest unw mal
  end.

Definition text_count (p : penalty) (config : RewardPenaltyConfig) (checks : option RewardChecks) : Z :=
  match checks, text_match p with
  | Some c, Some match_ => Z.b2z (enabled p config && match_ c)
  | _, _ => 0
  end.

(** The length shaping: the reward and the metrics it leaves. *)
Definition shape (reward : float) (checks : option RewardChecks) (config : option EffortLevelsConfig)
  (spans : list link_span) : res (float * list (string * float)) :=
  match config, effort_shaping_enabled config, checks with
  | Some cfg, true, Some c =>
      match last spans with
      | None => Raise IndexError
      | Some (_, _, len) =>
          let bucket := if low_effort c then "low" else "high" in
          let m := [("finalize/effort/" +:+ bucket +:+ "/" +:+ str_of_int len, f1)] in
          if low_effort c then
            '(reward', lr) ← shape_effort_reward reward len cfg;
            Ok (reward', m ++ [("finalize/effort/length_reward_sum", lr); ("finalize/effort/reward_sum", reward')])%list
          else Ok (reward, m)
      end
  | _, _, _ => Ok (reward, [])
  end.

Definition finalize_capture_reward (reward : float) (checks : option RewardChecks)
  (penalty_config : option RewardPenaltyConfig) (effort_config : option EffortLevelsConfig)
  (tokens : list Z) (spans : list link_span) (decode : option (list Z -> string))
  (thinking_tags : option (list string)) : res (float * penalty_counts * list (string * float)) :=
  let shaping := effort_shaping_enabled effort_config in
  let text_checks := match penalty_config with
                     | Some c => existsb (fun p => bool_decide (is_Some (text_match p)) && enabled p c) CAPTURE_PENALTIES
                     | None => false
                     end in
  _ ← raise_if ((shaping || text_checks) && bool_decide (checks = None)) ValueError;
  '(reward, metrics) ← shape reward checks effort_config spans;
  counts ← match penalty_config with
           | None => Ok (mkCounts 0 0 0 0)
           | Some config =>
               rules ← resolve_rules config decode thinking_tags;
               let '(unw, mal) := span_penalties rules tokens 0 spans 0 0 in
               Ok (mkCounts (text_count DuplicatedReasoning config checks) (text_count EmptyFinalAnswer config checks) unw mal)
           end;
  Ok (if any_count counts then f0 else reward, counts, metrics).

(** ** Properties *)

(** The tokens of the spans: for each, what it carried and what it generated, as
    the spans cut the row. *)
Fixpoint cut (tokens : list Z) (spans : list link_span) : list (list Z * list Z) :=
  match spans with
  | [] => []
  | (_, carry, generated) :: rest =>
      (take (Z.to_nat carry) tokens, take (Z.to_nat generated) (drop (Z.to_nat carry) tokens))
      :: cut (drop (Z.to_nat carry + Z.to_nat generated) tokens) rest
  end.

Definition spans_total (spans : list link_span) : Z := zsum ((fun s : link_span => s.1.2 + s.2) <$> spans).

(** Spans that fit the row. *)
Definition spans_fit (spans : list link_span) (tokens : list Z) : Prop :=
  Forall (fun s : link_span => 0 <= s.1.2 /\ 0 <= s.2) spans /\ spans_total spans <= Z.of_nat (length tokens).

Lemma span_penalties_spec rules tokens offset spans unw mal :
  spans_fit spans (drop offset tokens) -> (offset <= length tokens)%nat ->
  (unw = 0 \/ unw = 1) -> (mal = 0 \/ mal = 1) ->
  span_penalties rules tokens (Z.of_nat offset) spans unw mal
  = (Z.b2z ((unw =? 1) || existsb (fun cg => unwanted_in rules cg.2) (cut (drop offset tokens) spans)),
     Z.b2z ((mal =? 1) || existsb (fun cg => malformed_in rules cg.1 cg.2) (cut (drop offset tokens) spans))).
Proof.
  revert offset unw mal. induction spans as [|[[id carry] gen] rest IH]; intros offset unw mal [Hf Ht] Ho Hu Hm.
  { cbn [span_penalties cut existsb]. rewrite !orb_false_r. f_equal; destruct Hu as [->| ->]; destruct Hm as [->| ->]; done. }
  apply Forall_cons in Hf as [[Hc Hg] Hf]. cbn [fst snd] in Hc, Hg.
  set (c := Z.to_nat carry). set (g := Z.to_nat gen).
  assert (carry = Z.of_nat c) as Ec by lia. assert (gen = Z.of_nat g) as Eg by lia. clearbody c g. subst carry gen.
  unfold spans_total in Ht. rewrite fmap_cons in Ht. cbn [zsum fst snd] in Ht. fold (spans_total rest) in Ht.
  assert (0 <= spans_total rest) as Hr0.
  { clear -Hf. unfold spans_total. induction Hf as [|[[? ?] ?] r [? ?] _ IH]; [done|]. cbn in *. lia. }
  rewrite length_drop in Ht. cbn [span_penalties cut existsb fst snd]. rewrite !Nat2Z.id.
  replace (Z.of_nat offset + Z.of_nat c) with (Z.of_nat (offset + c)) by lia.
  replace (Z.of_nat (offset + c) + Z.of_nat g) with (Z.of_nat (offset + c + g)) by lia.
  rewrite (py_slice_nat (offset + c) g) by lia. rewrite (py_slice_nat offset c) by lia.
  rewrite drop_drop. rewrite IH; [| | |destruct (unwanted_in _ _); auto|].
  - rewrite drop_drop. replace (offset + c + g)%nat with (offset + (c + g))%nat by lia.
    replace (c + offset)%nat with (offset + c)%nat by lia. replace (c + g + offset)%nat with (offset + (c + g))%nat by lia.
    f_equal.
    + destruct (unwanted_in rules _), Hu as [->| ->]; done.
    + destruct Hm as [->| ->]; cbn [Z.eqb]; [|done]. by destruct (malformed_in rules _ _).
  - split; [done|]. rewrite length_drop. lia.
  - lia.
  - destruct Hm as [->| ->]; cbn [Z.eqb]; [|by right]. destruct (malformed_in rules _ _); auto.
Qed.

(** Whether a penalty applies: its flag, and the saved check or some span. *)
Definition applies (p : penalty) (config : RewardPenaltyConfig) (checks : option RewardChecks)
  (decode : option (list Z -> string)) (tags : option (list string)) (spans : list (list Z * list Z)) : bool :=
  enabled p config &&
  match p with
  | DuplicatedReasoning => match checks with Some c => duplicated_reasoning c | None => false end
  | EmptyFinalAnswer => match checks with Some c => empty_final_answer c | None => false end
  | UnwantedToken =>
      match token_ids config with
      | Some (mkTokenIds (Some ids) _ _) => existsb (fun cg => existsb (fun t => existsb (Z.eqb t) cg.2) ids) spans
      | _ => false
      end
  | MalformedThinkTag =>
      match decode, tags with
      | Some dec, Some (open_ :: close_ :: _) =>
          existsb (fun cg => has_malformed_think_tag dec cg.1 cg.2
                               match token_ids config with
                               | Some (mkTokenIds _ (Some o) (Some c)) => Some (o, c)
                               | _ => None
                               end (open_, close_)) spans
      | _, _ => false
      end
  end.

Lemma existsb_one {A} (f : A -> bool) x : existsb f [x] = f x.
Proof. cbn. by rewrite orb_false_r. Qed.

Lemma existsb_ext' {A} (f g : A -> bool) l : (forall x, f x = g x) -> existsb f l = existsb g l.
Proof. intros H. induction l as [|x l IH]; [done|]. cbn. by rewrite H, IH. Qed.

Lemma existsb_false {A} (l : list A) : existsb (fun _ => false) l = false.
Proof. by induction l. Qed.

Lemma resolved_rules config decode tags rules :
  resolve_rules config decode tags = Ok rules ->
  forall spans, existsb (fun cg => unwanted_in rules cg.2) spans = applies UnwantedToken config None decode tags spans /\
    existsb (fun cg => malformed_in rules cg.1 cg.2) spans = applies MalformedThinkTag config None decode tags spans.
Proof.
  unfold resolve_rules. intros H. apply bind_Ok in H as (unw & Hu & H). apply bind_Ok in H as (think & Ht & [= <-]). intros spans.
  unfold unwanted_in, malformed_in, applies. cbn [rule_unwanted rule_think enabled]. split.
  - destruct (penalize_unwanted_tokens config); cbn [andb]; [|injection Hu as <-; by apply existsb_false].
    destruct (token_ids config) as [[[ids|] o c]|]; try done. injection Hu as <-.
    apply existsb_ext'. intros cg. unfold has_unwanted_tokens. by rewrite existsb_one.
  - destruct (penalize_malformed_think_tag config); cbn [andb]; [|injection Ht as <-; by apply existsb_false].
    destruct decode as [dec|], tags as [[|open_ [|close_ rest]]|]; try done. by injection Ht as <-.
Qed.

(** The reward of a captured rollout.  It is first shaped by the length of the
    last generation, only when the prompt asked for low effort; each penalty
    counts exactly when it is enabled and either the saved check or one of the
    calls, in the tokens that call carried and generated, matches it; and the
    reward is zero when any of them counts, the shaped one otherwise. *)
Theorem capture_reward_is_shaped_then_zeroed reward checks config effort tokens spans decode tags r counts metrics :
  spans_fit spans tokens ->
  finalize_capture_reward reward checks config effort tokens spans decode tags = Ok (r, counts, metrics) ->
  let hit p := match config with
               | Some c => applies p c checks decode tags (cut tokens spans)
               | None => false
               end in
  (forall p, count_of p counts = Z.b2z (hit p)) /\
  exists shaped, shape reward checks effort spans = Ok (shaped, metrics) /\
    r = (if existsb hit CAPTURE_PENALTIES then f0 else shaped) /\
    (effort_shaping_enabled effort = false \/ (low_effort <$> checks) <> Some true -> shaped = reward).
Proof.
  intros Hfit H hit. unfold finalize_capture_reward in H. apply bind_Ok in H as ([] & _ & H).
  apply bind_Ok in H as ([shaped m] & Hs & H). apply bind_Ok in H as (cs & Hc & [= <- <- <-]).
  assert (forall p, count_of p cs = Z.b2z (hit p)) as Hcount.
  { unfold hit. destruct config as [c|]; [|by injection Hc as <-; intros []].
    apply bind_Ok in Hc as (rules & Hr & Hc). pose proof (resolved_rules _ _ _ _ Hr (cut tokens spans)) as [H1 H2].
    pose proof (span_penalties_spec rules tokens 0 spans 0 0 Hfit ltac:(lia) ltac:(by left) ltac:(by left)) as Hp.
    change (Z.of_nat 0) with 0 in Hp. rewrite Hp, drop_0, H1, H2 in Hc. cbn [Z.eqb orb] in Hc. injection Hc as <-.
    intros []; cbn [count_of]; [| |done|done]; unfold text_count, applies; cbn [text_match enabled];
      destruct checks; by rewrite ?andb_false_r. }
  split; [done|]. exists shaped. split; [done|]. split.
  - unfold any_count. rewrite (existsb_ext' _ hit); [done|]. intros p. rewrite Hcount. by destruct (hit p).
  - intros Hn. unfold shape in Hs. destruct effort as [e|]; [|by injection Hs as <- _].
    destruct (effort_shaping_enabled (Some e)); [|by injection Hs as <- _].
    destruct checks as [ck|]; [|by injection Hs as <- _]. destruct (last spans) as [[[id c] len]|]; [|done].
    destruct Hn as [Hn|Hn]; [done|]. cbn in Hn. destruct (low_effort ck); [by destruct Hn|]. by injection Hs as <- _.
Qed.

(** It raises only for what is missing: the saved checks, the unwanted ids, the
    tags or their decoder, and a call to measure. *)
Lemma capture_reward_returns reward checks config effort tokens spans decode tags :
  (effort_shaping_enabled effort = true -> checks <> None /\ spans <> [] /\
     forall e, effort = Some e -> low_ub e <> 0) ->
  (forall c, config = Some c ->
     (penalize_duplicated_reasoning c || penalize_empty_final_answer c = true -> checks <> None) /\
     (penalize_unwanted_tokens c = true -> exists ids o cl, token_ids c = Some (mkTokenIds (Some ids) o cl)) /\
     (penalize_malformed_think_tag c = true -> exists dec a b l, decode = Some dec /\ tags = Some (a :: b :: l))) ->
  exists out, finalize_capture_reward reward checks config effort tokens spans decode tags = Ok out.
Proof.
  intros He Hc. unfold finalize_capture_reward.
  assert ((effort_shaping_enabled effort
           || match config with
              | Some c => existsb (fun p => bool_decide (is_Some (text_match p)) && enabled p c) CAPTURE_PENALTIES
              | None => false
              end) && bool_decide (checks = None) = false) as ->.
  { apply andb_false_iff. destruct checks as [ck|]; [by right; apply bool_decide_eq_false|]. left. apply orb_false_iff. split.
    - destruct (effort_shaping_enabled effort); [|done]. by destruct (He eq_refl).
    - destruct config as [c|]; [|done]. destruct (Hc c eq_refl) as [H1 _]. cbn.
      destruct (penalize_duplicated_reasoning c); [by destruct (H1 eq_refl)|].
      destruct (penalize_empty_final_answer c); [by destruct (H1 eq_refl)|done]. }
  cbn [raise_if mbind res_bind].
  assert (exists out, shape reward checks effort spans = Ok out) as [[shaped m] ->].
  { unfold shape. destruct effort as [e|]; [|by eexists]. destruct (effort_shaping_enabled (Some e)); [|by eexists].
    destruct (He eq_refl) as (_ & Hs & Hu). destruct checks as [ck|]; [|by eexists].
    destruct (last spans) as [[[id cr] len]|] eqn:El; [|by apply last_None in El].
    destruct (low_effort ck); [|by eexists]. unfold shape_effort_reward, int_div.
    rewrite (proj2 (Z.eqb_neq _ 0)) by by apply Hu. by eexists. }
  cbn [mbind res_bind]. destruct config as [c|]; [|by eexists]. destruct (Hc c eq_refl) as (_ & H2 & H3).
  assert (exists rules, resolve_rules c decode tags = Ok rules) as [rules ->].
  { unfold resolve_rules. destruct (penalize_unwanted_tokens c).
    - destruct (H2 eq_refl) as (ids & o & cl & ->). cbn [mbind res_bind]. destruct (penalize_malformed_think_tag c); [|by eexists].
      destruct (H3 eq_refl) as (dec & a & b & l & -> & ->). by eexists.
    - cbn [mbind res_bind]. destruct (penalize_malformed_think_tag c); [|by eexists].
      destruct (H3 eq_refl) as (dec & a & b & l & -> & ->). by eexists. }
  cbn [mbind res_bind]. destruct (span_penalties _ _ _ _ _ _). by eexists.
Qed.

(** ** Concrete rewards *)
Module Demo.

Definition effort : EffortLevelsConfig := mkEffort (Fin 2 0) (Fin 1 0) 64 "[low]".
Definition config : RewardPenaltyConfig :=
  mkPenalties true false true true (Some (mkTokenIds (Some [99]) (Some 7) (Some 8))).
Definition decode (l : list Z) : string := if existsb (Z.eqb 50) l then "<think>" else "answer".
Definition checks (low : bool) : RewardChecks := mkChecks false true low.
Definition spans : list link_span := [("c0", 2, 3); ("c1", 1, 16)].
Definition tokens (last : Z) : list Z := [7; 1] ++ [2; 8; 3] ++ [4] ++ replicate 15 5 ++ [last].

(** Thinking is on for the first call and off for the second; a quarter of the
    bound gives the full length reward. *)
Example shaped_reward :
  finalize_capture_reward f1 (Some (checks true)) (Some config) (Some effort) (tokens 6) spans (Some decode)
    (Some ["<think>"; "</think>"])
  = Ok (of_int 2, mkCounts 0 0 0 0,
        [("finalize/effort/low/16", f1); ("finalize/effort/length_reward_sum", f1);
         ("finalize/effort/reward_sum", of_int 2)]).
Proof. vm_compute. reflexivity. Qed.

Lemma fits last : spans_fit spans (tokens last).
Proof. split; [repeat constructor; cbn; lia|]. cbn. lia. Defined.

(** The same row ending in an unwanted token. *)
Lemma zeroed_witness :
  exists counts metrics,
    finalize_capture_reward f1 (Some (checks true)) (Some config) (Some effort) (tokens 99) spans (Some decode)
      (Some ["<think>"; "</think>"]) = Ok (f0, counts, metrics) /\
    count_of UnwantedToken counts = 1 /\ count_of MalformedThinkTag counts = 0.
Proof.
  destruct (finalize_capture_reward f1 (Some (checks true)) (Some config) (Some effort) (tokens 99) spans (Some decode)
    (Some ["<think>"; "</think>"])) as [[[r c] m]|e] eqn:E; [|vm_compute in E; discriminate].
  destruct (capture_reward_is_shaped_then_zeroed _ _ _ _ _ _ _ _ _ _ _ (fits 99) E) as (Hc & shaped & _ & Hr & _).
  exists c, m. split; [|split; [rewrite (Hc UnwantedToken)|rewrite (Hc MalformedThinkTag)]; vm_compute; reflexivity].
  rewrite Hr. vm_compute. reflexivity.
Defined.

(** A reasoning copied into the answer is found; an answer after it is not
    empty. *)
Definition item (fields : list (string * PyVal)) : PyVal := str_dict fields.
Definition output : list PyVal :=
  [item [("type", VStr "reasoning"); ("summary", VList [item [("text", VStr " same ")]])];
   item [("type", VStr "message"); ("content", VList [item [("text", VStr "same")]])]].
Example copied_reasoning : has_duplicated_reasoning output = Ok true /\ has_empty_final_answer output = Ok false.
Proof. split; vm_compute; reflexivity. Qed.

End Demo.
