(* ===== verification/RewardSettings.v ===== *)
(** * The reward settings a checkpoint is bound to
    ([CaptureRewardSettings] of [experience/reward_penalties.py])

    The projection of the live configuration that decides what a saved reward
    means: written into the sidecar, read back, and compared with the run that
    restores it.  The coercion of single fields belongs to pydantic and is a
    class of operations with the laws that are relied on. *)

From S2P Require Import Prelude.
From S2P Require Import PyVal.
From S2P Require Import Rewards.
#[local] Open Scope string_scope.
#[local] Open Scope Z_scope.

Record CaptureRewardSettings := mkSettings {
  enabled_penalties : list string;
  unwanted_tokens : list Z;
  effort : option EffortLevelsConfig;
  think_tag_ids : option (option Z * option Z);
  thinking_tags : option (list PyVal) }.

(** [tuple(sorted(set(xs)))]. *)
Definition sorted_set (l : list Z) : list Z := py_sort Z.ltb (remove_dups l).

Definition from_configs (penalties : RewardPenaltyConfig) (effort_ : option EffortLevelsConfig)
  (tags : PyVal) : res CaptureRewardSettings :=
  unw ← (if penalize_unwanted_tokens penalties then
           match token_ids penalties with
           | Some (mkTokenIds (Some ids) _ _) => Ok (sorted_set ids)
           | _ => Raise AssertionError
           end
         else Ok []);
  ids ← (if penalize_malformed_think_tag penalties then
           _ ← raise_if (negb (truthy tags)) ValueError;
           Ok (Some match token_ids penalties with
                    | Some i => (think_open i, think_close i)
                    | None => (None, None)
                    end)
         else Ok None);
  tags ← (if penalize_malformed_think_tag penalties && truthy tags then Some <$> py_iter tags else Ok None);
  Ok (mkSettings (penalty_flag <$> List.filter (fun p => enabled p penalties) CAPTURE_PENALTIES) unw
        (if effort_shaping_enabled effort_ then effort_ else None) ids tags).

Definition effort_to_state (e : EffortLevelsConfig) : PyVal :=
  str_dict [("low_weight", VFloat (low_weight e)); ("low_penalty", VFloat (low_penalty e));
            ("low_ub", VInt (low_ub e)); ("low_string", VStr (low_string e))].

Definition token_ids_state (unw : list Z) (ids : option (option Z * option Z)) : list (string * PyVal) :=
  (match unw with [] => [] | l => [("unwanted", VList (VInt <$> l))] end
   ++ match ids with
      | Some (o, c) => [("think_open", opt_val VInt o); ("think_close", opt_val VInt c)]
      | None => []
      end)%list.

Definition penalties_state (s : CaptureRewardSettings) : list (string * PyVal) :=
  (((fun flag => (flag, VBool true)) <$> enabled_penalties s)
   ++ match token_ids_state (unwanted_tokens s) (think_tag_ids s) with [] => [] | l => [("token_ids", str_dict l)] end
   ++ match thinking_tags s with Some l => [("thinking_tags", VList l)] | None => [] end)%list.

Definition to_state (s : CaptureRewardSettings) : PyVal :=
  str_dict [("version", VInt 1); ("penalties", str_dict (penalties_state s)); ("effort", opt_val effort_to_state (effort s))].

(** ** Reading

    What pydantic does with the value of a field: keep one of the declared type,
    convert some others, refuse the rest. *)
Class Coercions := {
  coerce_bool : PyVal -> res bool;
  coerce_int : PyVal -> res Z;
  coerce_float : PyVal -> res pyfloat;
  coerce_str : PyVal -> res string;
  coerce_list : PyVal -> res (list PyVal) }.

Class CoercionLaws `{!Coercions} : Prop := {
  coerce_bool_id b : coerce_bool (VBool b) = Ok b;
  coerce_int_id z : coerce_int (VInt z) = Ok z;
  coerce_float_id f : coerce_float (VFloat f) = Ok f;
  coerce_str_id s : coerce_str (VStr s) = Ok s;
  coerce_list_id l : coerce_list (VList l) = Ok l }.

Section reading.
Context `{!Coercions}.

(** A field with a default, and an optional one. *)
Definition field {A} (name : string) (read : PyVal -> res A) (default_ : A) (d : list (PyVal * PyVal)) : res A :=
  match dict_get name d with Some v => read v | None => Ok default_ end.
Definition optional {A} (read : PyVal -> res A) (v : PyVal) : res (option A) :=
  match v with VNone => Ok None | v => Some <$> read v end.

Definition as_dict (v : PyVal) : res (list (PyVal * PyVal)) :=
  match v with VDict d => Ok d | _ => Raise ValueError end.

Definition validate_token_ids (v : PyVal) : res RewardPenaltyTokenIdsConfig :=
  d ← as_dict v;
  unw ← field "unwanted" (optional (fun v => l ← coerce_list v; traverse coerce_int l)) None d;
  o ← field "think_open" (optional coerce_int) None d;
  c ← field "think_close" (optional coerce_int) None d;
  Ok (mkTokenIds unw o c).

Definition validate_penalties (v : PyVal) : res RewardPenaltyConfig :=
  d ← as_dict v;
  dup ← field "penalize_duplicated_reasoning" coerce_bool false d;
  empty ← field "penalize_empty_final_answer" coerce_bool false d;
  unw ← field "penalize_unwanted_tokens" coerce_bool false d;
  mal ← field "penalize_malformed_think_tag" coerce_bool false d;
  ids ← field "token_ids" (optional validate_token_ids) None d;
  _require_unwanted_token_ids_when_penalized (mkPenalties dup empty unw mal ids).

Definition validate_effort (v : PyVal) : res EffortLevelsConfig :=
  d ← as_dict v;
  w ← field "low_weight" coerce_float (Fin 0 0) d;
  p ← field "low_penalty" coerce_float (Fin 1 0) d;
  u ← field "low_ub" coerce_int 64000 d;
  s ← field "low_string" coerce_str "" d;
  validate_length_bound (mkEffort w p u s).

Definition from_state (v : PyVal) : res CaptureRewardSettings :=
  match v with
  | VDict d =>
      _ ← raise_if (negb (exact_keys d ["version"; "penalties"; "effort"])) ValueError;
      version ← dict_index "version" d;
      _ ← raise_if (match version with VInt n => negb (n =? 1) | _ => true end) ValueError;
      pen_v ← dict_index "penalties" d;
      penalties ← validate_penalties pen_v;
      eff_v ← dict_index "effort" d;
      eff ← optional validate_effort eff_v;
      pd ← as_dict pen_v;
      from_configs penalties eff (default VNone (dict_get "thinking_tags" pd))
  | _ => Raise ValueError
  end.
End reading.

(** ** Comparison *)

Definition effort_differences (saved current : EffortLevelsConfig) : list string :=
  ((if float_eqb (low_weight current) (low_weight saved) then [] else ["env.nemo_gym.effort_levels.low_weight"])
   ++ (if float_eqb (low_penalty current) (low_penalty saved) then [] else ["env.nemo_gym.effort_levels.low_penalty"])
   ++ (if low_ub current =? low_ub saved then [] else ["env.nemo_gym.effort_levels.low_ub"])
   ++ (if String.eqb (low_string current) (low_string saved) then [] else ["env.nemo_gym.effort_levels.low_string"]))%list.

(** The saved settings are compared after a restart, so no two floats are the
    same object and a NaN differs from itself. *)
Definition differences (saved current : CaptureRewardSettings) : list string :=
  (((fun p => "reward_penalties." +:+ penalty_flag p) <$>
      List.filter (fun p => xorb (bool_decide (penalty_flag p ∈ enabled_penalties saved))
                                 (bool_decide (penalty_flag p ∈ enabled_penalties current))) CAPTURE_PENALTIES)
   ++ (if bool_decide (unwanted_tokens saved = unwanted_tokens current) then [] else ["reward_penalties.token_ids.unwanted"])
   ++ (if bool_decide (think_tag_ids saved = think_tag_ids current) then []
       else ["reward_penalties.token_ids.think_open/think_close"])
   ++ (if py_eq (opt_val VTuple (thinking_tags saved)) (opt_val VTuple (thinking_tags current)) then [] else ["env.nemo_gym.thinking_tags"])
   ++ match effort saved, effort current with
      | None, None => []
      | Some s, Some c => effort_differences s c
      | _, _ => ["env.nemo_gym.effort_levels"]
      end)%list.

Definition require_compatible (saved current : CaptureRewardSettings) : res unit :=
  raise_if (negb (bool_decide (differences saved current = []))) ValueError.

(** ** A record reads back *)

Lemma sorted_set_sorted l : StronglySorted (fun a b => Z.ltb b a = false) (sorted_set l).
Proof. apply py_sort_sorted; intros *; rewrite ?Z.ltb_ge, ?Z.ltb_lt; lia. Qed.

Lemma elem_of_sorted_set x l : x ∈ sorted_set l <-> x ∈ l.
Proof. unfold sorted_set. rewrite py_sort_perm. apply elem_of_remove_dups. Qed.

Lemma sorted_set_ext l l' : (forall x, x ∈ l <-> x ∈ l') -> sorted_set l = sorted_set l'.
Proof.
  intros H.
  assert (Ha : AntiSymm (=) (fun a b => Z.ltb b a = false)).
  { intros a b. rewrite !Z.ltb_ge. lia. }
  apply (StronglySorted_unique (fun a b => Z.ltb b a = false)); auto using sorted_set_sorted.
  unfold sorted_set. rewrite !py_sort_perm.
  apply NoDup_Permutation; [apply NoDup_remove_dups..|].
  intros x. by rewrite !elem_of_remove_dups.
Qed.

Lemma sorted_set_eq l l' : sorted_set l = sorted_set l' <-> (forall x, x ∈ l <-> x ∈ l').
Proof.
  split; [|apply sorted_set_ext]. intros H x. by rewrite <- (elem_of_sorted_set x l), H, elem_of_sorted_set.
Qed.

Lemma sorted_set_idem l : sorted_set (sorted_set l) = sorted_set l.
Proof. apply sorted_set_ext. intros x. apply elem_of_sorted_set. Qed.

Lemma sorted_set_nil l : sorted_set l = [] -> l = [].
Proof.
  destruct l as [|x l]; [done|]. intros H. exfalso.
  assert (x ∈ sorted_set (x :: l)) as Hx by (apply elem_of_sorted_set; left).
  rewrite H in Hx. by apply not_elem_of_nil in Hx.
Qed.

Section laws.
Context `{!Coercions} `{!CoercionLaws}.

Lemma coerce_ids l : traverse coerce_int (VInt <$> l) = Ok l.
Proof. induction l as [|z l IH]; [done|]. cbn. rewrite coerce_int_id. cbn in IH |- *. by rewrite IH. Qed.

Lemma optional_int o : optional coerce_int (opt_val VInt o) = Ok o.
Proof. destruct o; cbn; [by rewrite coerce_int_id|done]. Qed.

Lemma effort_reads_back e : validate_length_bound e = Ok e -> validate_effort (effort_to_state e) = Ok e.
Proof.
  intros He. unfold validate_effort, effort_to_state. cbn.
  rewrite !coerce_float_id, coerce_int_id, coerce_str_id. cbn. by destruct e.
Qed.

(** What the two optional members of [token_ids] read back as. *)
Definition saved_ids (unw : list Z) (ids : option (option Z * option Z)) : option RewardPenaltyTokenIdsConfig :=
  match unw, ids with
  | [], None => None
  | _, _ => Some (mkTokenIds match unw with [] => None | _ => Some unw end
                    (default None (fst <$> ids)) (default None (snd <$> ids)))
  end.

Lemma token_ids_read_back unw ids t :
  saved_ids unw ids = Some t -> validate_token_ids (str_dict (token_ids_state unw ids)) = Ok t.
Proof.
  unfold saved_ids, validate_token_ids. destruct unw as [|z unw], ids as [[o c]|]; intros [= <-]; cbn.
  - by rewrite !optional_int.
  - rewrite coerce_list_id. cbn. rewrite coerce_int_id. cbn. rewrite coerce_ids. cbn. by rewrite !optional_int.
  - rewrite coerce_list_id. cbn. rewrite coerce_int_id. cbn. by rewrite coerce_ids.
Qed.

Definition flags (d e u m : bool) : list string :=
  penalty_flag <$> List.filter (fun p => enabled p (mkPenalties d e u m None)) CAPTURE_PENALTIES.

Lemma penalties_read_back d e u m unw eff ids tags :
  (u = true -> unw <> []) ->
  validate_penalties (str_dict (penalties_state (mkSettings (flags d e u m) unw eff ids tags)))
  = Ok (mkPenalties d e u m (saved_ids unw ids)).
Proof.
  intros Hu.
  assert (Hreq : _require_unwanted_token_ids_when_penalized (mkPenalties d e u m (saved_ids unw ids))
                 = Ok (mkPenalties d e u m (saved_ids unw ids))).
  { unfold _require_unwanted_token_ids_when_penalized, saved_ids. destruct u, unw, ids; cbn; try done; by destruct (Hu eq_refl). }
  unfold penalties_state. cbn [enabled_penalties unwanted_tokens think_tag_ids thinking_tags].
  destruct (saved_ids unw ids) as [t|] eqn:Et.
  - pose proof (token_ids_read_back unw ids t Et) as Hread.
    assert (token_ids_state unw ids <> []) by (unfold saved_ids in Et; destruct unw, ids as [[]|]; done).
    destruct (token_ids_state unw ids) as [|f fs]; [done|].
    remember (str_dict (f :: fs)) as v eqn:Ev.
    assert (Hv : optional validate_token_ids v = Ok (Some t)) by (subst v; cbn [optional str_dict]; by rewrite Hread).
    clear Hread Ev. unfold validate_penalties.
    destruct d, e, u, m, tags; cbn -[optional _require_unwanted_token_ids_when_penalized];
      rewrite ?coerce_bool_id; cbn -[optional _require_unwanted_token_ids_when_penalized]; rewrite Hv; cbn -[_require_unwanted_token_ids_when_penalized]; done.
  - assert (token_ids_state unw ids = []) as -> by (unfold saved_ids in Et; by destruct unw, ids as [[]|]).
    unfold validate_penalties.
    destruct d, e, u, m, tags; cbn -[_require_unwanted_token_ids_when_penalized];
      rewrite ?coerce_bool_id; cbn -[_require_unwanted_token_ids_when_penalized]; done.
Qed.

Lemma tags_read_back d e u m unw eff ids tags :
  dict_get "thinking_tags" (List.map (fun '(k, v) => (VStr k, v)) (penalties_state (mkSettings (flags d e u m) unw eff ids tags)))
  = VList <$> tags.
Proof.
  unfold penalties_state. cbn [enabled_penalties unwanted_tokens think_tag_ids thinking_tags].
  destruct (token_ids_state unw ids), d, e, u, m, tags; reflexivity.
Qed.

Lemma iter_nonempty v l : truthy v = true -> py_iter v = Ok l -> l <> [].
Proof.
  destruct v as [| | | |s|s|l0|l0|d0|]; cbn; try done.
  - destruct s; [done|]. by intros _ [= <-].
  - destruct s; [done|]. by intros _ [= <-].
  - intros Ht [= <-]. by apply negb_true_iff, bool_decide_eq_false in Ht.
  - intros Ht [= <-]. by apply negb_true_iff, bool_decide_eq_false in Ht.
  - intros Ht [= <-]. apply negb_true_iff, bool_decide_eq_false in Ht. by destruct d0.
Qed.

(** The parts of a record built from validated configurations. *)
Lemma from_configs_parts p eff tags s :
  _require_unwanted_token_ids_when_penalized p = Ok p -> from_configs p eff tags = Ok s ->
  let u := penalize_unwanted_tokens p in
  let m := penalize_malformed_think_tag p in
  s = mkSettings (flags (penalize_duplicated_reasoning p) (penalize_empty_final_answer p) u m)
        (unwanted_tokens s) (if effort_shaping_enabled eff then eff else None) (think_tag_ids s) (thinking_tags s)
  /\ (if u then unwanted_tokens s <> [] /\ exists t l, token_ids p = Some t /\ unwanted t = Some l /\ unwanted_tokens s = sorted_set l
      else unwanted_tokens s = [])
  /\ (if m then think_tag_ids s = Some (default None (think_open <$> token_ids p), default None (think_close <$> token_ids p))
                /\ exists l, thinking_tags s = Some l /\ l <> [] /\ py_iter tags = Ok l
      else think_tag_ids s = None /\ thinking_tags s = None).
Proof.
  unfold from_configs, _require_unwanted_token_ids_when_penalized. destruct p as [d e u m ids]; cbn.
  intros Hreq (unw & Hunw & (i & Hi & (tg & Htg & Hs)%bind_Ok)%bind_Ok)%bind_Ok. injection Hs as <-. cbn.
  split_and!; [done|..].
  - destruct u; [|by inv_res]. destruct ids as [[[[|z l]|] o c]|]; try done. injection Hunw as <-.
    split; [|eauto]. intros Hn. by apply sorted_set_nil in Hn.
  - destruct m; cbn in Htg; [|by inv_res]. destruct (truthy tags) eqn:Ht; [|done].
    cbn in Hi. injection Hi as <-. apply fmap_Ok in Htg as (l & Hl & ->).
    split; [by destruct ids|]. eauto using iter_nonempty.
Qed.

Lemma from_state_unfold pv ev :
  from_state (str_dict [("version", VInt 1); ("penalties", pv); ("effort", ev)])
  = (pen ← validate_penalties pv; eff ← optional validate_effort ev; pd ← as_dict pv;
     from_configs pen eff (default VNone (dict_get "thinking_tags" pd))).
Proof. reflexivity. Qed.

(** Saving the settings of validated configurations and reading them back gives
    the same settings. *)
Lemma settings_read_back p eff tags s :
  _require_unwanted_token_ids_when_penalized p = Ok p ->
  (forall e, eff = Some e -> validate_length_bound e = Ok e) ->
  from_configs p eff tags = Ok s -> from_state (to_state s) = Ok s.
Proof.
  intros Hp Heff Hs. destruct (from_configs_parts _ _ _ _ Hp Hs) as (Es & Hu & Hm).
  revert Hu Hm. set (d := penalize_duplicated_reasoning p) in *. set (e := penalize_empty_final_answer p) in *.
  set (u := penalize_unwanted_tokens p) in *. set (m := penalize_malformed_think_tag p) in *.
  set (eff' := if effort_shaping_enabled eff then eff else None) in *.
  destruct s as [fl unw ef ids tg]; cbn -[flags from_state to_state] in *. injection Es as -> ->. intros Hu Hm.
  assert (u = true -> unw <> []) as Hne by (intros Eu; rewrite Eu in Hu; by destruct Hu).
  unfold to_state. rewrite from_state_unfold, penalties_read_back by done.
  change (_ ≫= ?f) with (f (mkPenalties d e u m (saved_ids unw ids))). cbv beta. cbn [effort].
  assert (optional validate_effort (opt_val effort_to_state eff') = Ok eff') as ->.
  { subst eff'. destruct (effort_shaping_enabled eff); [|done]. destruct eff as [ee|]; [|done].
    change (Some <$> validate_effort (effort_to_state ee) = Ok (Some ee)). by rewrite effort_reads_back by auto. }
  change (_ ≫= ?f) with (f eff'). cbv beta. unfold as_dict, str_dict.
  change (_ ≫= ?f) with (f (List.map (fun '(k, v) => (VStr k, v)) (penalties_state (mkSettings (flags d e u m) unw eff' ids tg)))). cbv beta. rewrite tags_read_back.
  assert (effort_shaping_enabled eff' = true \/ eff' = None) as He.
  { subst eff'. destruct (effort_shaping_enabled eff) eqn:E; auto. }
  unfold from_configs. cbn -[sorted_set].
  assert ((if effort_shaping_enabled eff' then eff' else None) = eff') as -> by (destruct He as [->| ->]; done).
  destruct u.
  - destruct Hu as (_ & t & l & _ & _ & Hl). unfold saved_ids.
    destruct unw as [|z unw]; [by destruct (Hne eq_refl)|]. cbn -[sorted_set].
    assert (sorted_set (z :: unw) = z :: unw) as Hsort by (rewrite Hl; apply sorted_set_idem).
    rewrite Hsort. destruct m.
    + destruct Hm as (-> & tl & -> & Htl & _). destruct tl as [|t0 tl]; [done|]. done.
    + destruct Hm as (-> & ->). done.
  - subst unw. destruct m.
    + destruct Hm as (-> & tl & -> & Htl & _). destruct tl as [|t0 tl]; [done|]. done.
    + destruct Hm as (-> & ->). done.
Qed.

(** ** What a restart accepts *)

(** The rules two configurations put into force are the same. *)
Definition same_rules (p p' : RewardPenaltyConfig) (e e' : option EffortLevelsConfig) (tags tags' : PyVal) : Prop :=
  (forall q, enabled q p = enabled q p')
  /\ (penalize_unwanted_tokens p = true ->
      forall x, x ∈ default [] (token_ids p ≫= unwanted) <-> x ∈ default [] (token_ids p' ≫= unwanted))
  /\ (penalize_malformed_think_tag p = true ->
      token_ids p ≫= think_open = token_ids p' ≫= think_open
      /\ token_ids p ≫= think_close = token_ids p' ≫= think_close
      /\ exists l l', py_iter tags = Ok l /\ py_iter tags' = Ok l' /\ py_eq (VTuple l) (VTuple l') = true)
  /\ effort_shaping_enabled e = effort_shaping_enabled e'
  /\ (effort_shaping_enabled e = true ->
      forall x y, e = Some x -> e' = Some y ->
      float_eqb (low_weight y) (low_weight x) = true /\ float_eqb (low_penalty y) (low_penalty x) = true
      /\ low_ub x = low_ub y /\ low_string x = low_string y).

Lemma effort_differences_nil x y :
  effort_differences x y = [] <->
  float_eqb (low_weight y) (low_weight x) = true /\ float_eqb (low_penalty y) (low_penalty x) = true
  /\ low_ub x = low_ub y /\ low_string x = low_string y.
Proof.
  unfold effort_differences.
  destruct (float_eqb (low_weight y) _), (float_eqb (low_penalty y) _); cbn; try (split; [done|intros (?&?&?&?); done]).
  destruct (Z.eqb_spec (low_ub y) (low_ub x)); cbn; [|split; [done|intros (_&_&?&_); lia]].
  destruct (String.eqb_spec (low_string y) (low_string x)); cbn; [|split; [done|intros (_&_&_&?); congruence]].
  split; [intros _; by split_and!|done].
Qed.

Lemma flag_in q d e u m : penalty_flag q ∈ flags d e u m <-> enabled q (mkPenalties d e u m None) = true.
Proof.
  unfold flags. rewrite list_elem_of_fmap. split.
  - intros (q' & Hq & Hin). rewrite list_filter_elem_of in Hin. destruct Hin as [_ Hin]. by destruct q, q'.
  - intros Hq. exists q. split; [done|]. rewrite list_filter_elem_of. split; [|done]. destruct q; unfold CAPTURE_PENALTIES; set_solver.
Qed.

Lemma flag_differences d e u m d' e' u' m' :
  ((fun q => "reward_penalties." +:+ penalty_flag q) <$>
     List.filter (fun q => xorb (bool_decide (penalty_flag q ∈ flags d e u m))
                                (bool_decide (penalty_flag q ∈ flags d' e' u' m'))) CAPTURE_PENALTIES) = []
  <-> (d, e, u, m) = (d', e', u', m').
Proof.
  assert (Hq : forall q d e u m, bool_decide (penalty_flag q ∈ flags d e u m) = enabled q (mkPenalties d e u m None)).
  { intros q d0 e0 u0 m0. apply eq_true_iff_eq. by rewrite bool_decide_eq_true, flag_in. }
  cbn [List.filter CAPTURE_PENALTIES]. rewrite !Hq. cbn.
  destruct d, d', e, e', u, u', m, m'; cbn; (split; intros; congruence).
Qed.

(** Saving the reward settings of one run and restoring them in another is
    accepted exactly when the two configurations put the same rules into force:
    the same penalties, the same set of unwanted tokens and the same think tags
    where they are used, and the same effort shaping; otherwise the restart
    stops with an error.  Settings that are not in force do not matter. *)
Theorem restart_accepts_exactly_equal_rules p p' e e' tags tags' saved current :
  _require_unwanted_token_ids_when_penalized p = Ok p ->
  _require_unwanted_token_ids_when_penalized p' = Ok p' ->
  (forall x, e = Some x -> validate_length_bound x = Ok x) ->
  from_configs p e tags = Ok saved -> from_configs p' e' tags' = Ok current ->
  let resumed := (s ← from_state (to_state saved); require_compatible s current) in
  (resumed = Ok tt <-> same_rules p p' e e' tags tags') /\ (resumed = Ok tt \/ resumed = Raise ValueError).
Proof.
  intros Hp Hp' He Hs Hc. cbv zeta. rewrite (settings_read_back p e tags saved) by done.
  change (_ ≫= ?f) with (f saved). cbv beta. unfold require_compatible.
  split; [|destruct (negb _); auto]. rewrite raise_if_Ok, negb_false_iff, bool_decide_eq_true.
  destruct (from_configs_parts _ _ _ _ Hp Hs) as (Es & Hu & Hm).
  destruct (from_configs_parts _ _ _ _ Hp' Hc) as (Es' & Hu' & Hm').
  destruct saved as [fl unw ef ids tg], current as [fl' unw' ef' ids' tg'].
  cbn [unwanted_tokens think_tag_ids thinking_tags] in *. injection Es as -> ->. injection Es' as -> ->.
  clear Hs Hc Hp Hp'. unfold differences, same_rules.
  cbn [enabled_penalties unwanted_tokens think_tag_ids thinking_tags effort].
  rewrite !app_nil, flag_differences.
  assert (Hen : (forall q, enabled q p = enabled q p') <->
    (penalize_duplicated_reasoning p, penalize_empty_final_answer p, penalize_unwanted_tokens p, penalize_malformed_think_tag p)
    = (penalize_duplicated_reasoning p', penalize_empty_final_answer p', penalize_unwanted_tokens p', penalize_malformed_think_tag p')).
  { split; [intros Hq|intros [= ? ? ? ?] []; done].
    pose proof (Hq DuplicatedReasoning). pose proof (Hq EmptyFinalAnswer). pose proof (Hq UnwantedToken).
    pose proof (Hq MalformedThinkTag). cbn in *. congruence. }
  rewrite Hen. clear Hen.
  assert (Hsplit : forall P Q Q' R R' : Prop, (P -> (Q <-> Q')) -> (P -> (R <-> R')) -> P /\ Q /\ R <-> P /\ Q' /\ R') by tauto.
  apply Hsplit; clear Hsplit; intros [= _ _ Eu Em]; rewrite <- ?Eu, <- ?Em in *.
  { destruct (penalize_unwanted_tokens p); case_bool_decide as Hunw; (split; [intros Hd|intros Hr]); try done.
    - destruct Hu as (_ & [] & l & -> & El & ->), Hu' as (_ & [] & l' & -> & El' & ->). cbn in *. subst. intros _.
      by apply sorted_set_eq.
    - destruct Hu as (_ & t & l & Et & El & ->), Hu' as (_ & t' & l' & Et' & El' & ->). destruct Hunw.
      apply sorted_set_eq. specialize (Hr eq_refl). destruct t, t'; cbn in El, El'; subst. by rewrite Et, Et' in Hr.
    - by subst. }
  rewrite (assoc and). assert (Hand : forall P P' R R' : Prop, (P <-> P') -> (R <-> R') -> P /\ R <-> P' /\ R') by tauto.
  apply Hand; clear Hand.
  { destruct (penalize_malformed_think_tag p).
    - destruct Hm as (-> & l & -> & _ & Hl), Hm' as (-> & l' & -> & _ & Hl'). rewrite Hl, Hl'.
      assert (Hid : forall {A} (f : RewardPenaltyTokenIdsConfig -> option A) o, default None (f <$> o) = o ≫= f) by (by intros A f []).
      rewrite !Hid. cbn [opt_val]. case_bool_decide as Hids.
      + injection Hids as -> ->. destruct (py_eq (VTuple l) (VTuple l')) eqn:Eq; (split; [intros [_ ?] | intros Hr]); try done.
        * intros _. do 2 (split; [done|]). by exists l, l'.
        * destruct (Hr eq_refl) as (_ & _ & ? & ? & [= <-] & [= <-] & ?). congruence.
      + split; [by intros [? _]|]. intros Hr. destruct (Hr eq_refl) as (Ho & Hcl & _). destruct Hids. by rewrite Ho, Hcl.
    - destruct Hm as [-> ->], Hm' as [-> ->]. by rewrite bool_decide_true. }
  destruct (effort_shaping_enabled e) eqn:E1, (effort_shaping_enabled e') eqn:E2; cbn.
  - destruct e as [x|], e' as [y|]; try done. rewrite effort_differences_nil.
    split; [intros Hd; split; [done|]; intros _ ? ? [= <-] [= <-]; done|intros [_ Hd]; by apply (Hd eq_refl)].
  - destruct e; [|done]. split; [done|by intros [? _]].
  - destruct e'; [|done]. split; [done|by intros [? _]].
  - done.
Qed.
End laws.

Module Demo.
(** A pydantic that converts nothing. *)
#[export] Instance strict : Coercions := {|
  coerce_bool v := match v with VBool b => Ok b | _ => Raise ValueError end;
  coerce_int v := match v with VInt z => Ok z | _ => Raise ValueError end;
  coerce_float v := match v with VFloat f => Ok f | _ => Raise ValueError end;
  coerce_str v := match v with VStr s => Ok s | _ => Raise ValueError end;
  coerce_list v := match v with VList l => Ok l | _ => Raise ValueError end |}.
#[export] Instance strict_laws : CoercionLaws.
Proof. by constructor. Qed.

Definition effort : EffortLevelsConfig := mkEffort (Fin 2 0) (Fin 1 0) 64 "[low]".
Definition config (ids : list Z) : RewardPenaltyConfig :=
  mkPenalties true false true true (Some (mkTokenIds (Some ids) (Some 7) (Some 8))).
Definition tags : PyVal := VList [VStr "<think>"; VStr "</think>"].
Definition settings : CaptureRewardSettings :=
  mkSettings ["penalize_duplicated_reasoning"; "penalize_unwanted_tokens"; "penalize_malformed_think_tag"] [16; 17]
    (Some effort) (Some (Some 7, Some 8)) (Some [VStr "<think>"; VStr "</think>"]).

Example other_ids_are_refused : forall current, from_configs (config [16; 18]) (Some effort) tags = Ok current ->
  require_compatible settings current = Raise ValueError.
Proof. by intros current [= <-]. Qed.

(** The unwanted tokens in another order, one of them twice. *)
Lemma restart_witness :
  from_configs (config [17; 16; 17]) (Some effort) tags = Ok settings
  /\ (s ← from_state (to_state settings); require_compatible s settings) = Ok tt
  /\ same_rules (config [17; 16; 17]) (config [16; 17]) (Some effort) (Some effort) tags tags.
Proof.
  assert (H1 : from_configs (config [17; 16; 17]) (Some effort) tags = Ok settings) by reflexivity.
  assert (H2 : from_configs (config [16; 17]) (Some effort) tags = Ok settings) by reflexivity.
  assert (He : forall x, Some effort = Some x -> validate_length_bound x = Ok x) by (intros x [= <-]; reflexivity).
  destruct (restart_accepts_exactly_equal_rules (config [17; 16; 17]) (config [16; 17]) (Some effort) (Some effort) tags tags
              settings settings eq_refl eq_refl He H1 H2) as [Hiff _].
  assert ((s ← from_state (to_state settings); require_compatible s settings) = Ok tt) as Hok by reflexivity.
  split; [done|]. split; [done|]. by apply Hiff.
Defined.
End Demo.
