(* ===== verification/Media.v ===== *)
(** * Captured media
    ([StagedMediaTensors], [media_item_sizes], [validate_media_tensors],
    [StagedPrefix] of [data_plane/tq_token_sink.py]; [_concat_media] and
    [_trainer_media] of [experience/rollout_reassembler.py])

    The images and videos an engine consumed, staged beside the tokens of a
    call: packed patches, the sizes of the frames and, for videos, how many
    frames each has.  A tensor is its dtype, its shape and its elements in
    row-major order (pixels as bit patterns). *)

From S2P Require Import Prelude.
#[local] Open Scope string_scope.
#[local] Open Scope Z_scope.

Inductive dtype := Float16 | BFloat16 | Float32 | Int32 | Int64 | OtherDtype.
#[export] Instance dtype_eq_dec : EqDecision dtype.
Proof. solve_decision. Defined.

Record Tensor := mkTensor { t_dtype : dtype; shape : list Z; data : list Z }.
#[export] Instance tensor_eq_dec : EqDecision Tensor.
Proof. solve_decision. Defined.

Definition numel (t : Tensor) : Z := foldr Z.mul 1 (shape t).
Definition ndim (t : Tensor) : nat := length (shape t).
Definition dim (t : Tensor) (i : nat) : Z := default 0 (shape t !! i).
(** Every tensor is like this. *)
Definition tensor_ok (t : Tensor) : Prop := Z.of_nat (length (data t)) = numel t /\ Forall (fun d => 0 <= d) (shape t).

Record StagedMediaTensors := mkMedia { imgs : Tensor; imgs_sizes : Tensor; num_frames : option Tensor }.

Definition int32_max : Z := 2 ^ 31 - 1.
(** A sum in 64-bit integers. *)
Definition sum64 (l : list Z) : Z := (zsum l + 2 ^ 63) mod 2 ^ 64 - 2 ^ 63.

(** ** Items *)

(** [tensor.reshape(-1, 2).tolist()]. *)
Fixpoint pairs (l : list Z) : res (list (Z * Z)) :=
  match l with
  | [] => Ok []
  | h :: w :: l' => ps ← pairs l'; Ok ((h, w) :: ps)
  | _ => Raise RuntimeError
  end.

Fixpoint cut_items (sizes : list (Z * Z)) (start : Z) (frames : list Z) : list (list (Z * Z)) :=
  match frames with
  | [] => []
  | count :: rest => py_slice start (start + count) sizes :: cut_items sizes (start + count) rest
  end.

Definition media_item_sizes (sizes : Tensor) (frames : option Tensor) : res (list (list (Z * Z))) :=
  ps ← pairs (data sizes);
  match frames with
  | None => Ok ((fun p => [p]) <$> ps)
  | Some f =>
      _ ← raise_if (existsb (fun n => n <=? 0) (data f) || negb (zsum (data f) =? Z.of_nat (length ps))) ValueError;
      Ok (cut_items ps 0 (data f))
  end.

Definition item_sizes (m : StagedMediaTensors) : res (list (list (Z * Z))) := media_item_sizes (imgs_sizes m) (num_frames m).
Definition patch_size (m : StagedMediaTensors) : Z := Z.sqrt (default 0 (last (shape (imgs m))) / 3).

(** ** Validation *)

(** What an attachment mapping can hold. *)
Inductive attachment := ATensor (t : Tensor) | ANone | AOther.
Inductive attachments := NotMapping | Mapping (m : list (string * attachment)).

Definition MEDIA_TENSOR_COLUMNS : list string := ["imgs"; "imgs_sizes"; "num_frames"].
Definition _MEDIA_REQUIRED : list string := ["imgs"; "imgs_sizes"].
Definition _MEDIA_PIXEL_DTYPES : list dtype := [Float16; BFloat16; Float32].
Definition _MEDIA_INDEX_DTYPES : list dtype := [Int32; Int64].

Definition _check_int32_positive (t : Tensor) : res unit :=
  raise_if (existsb (fun z => z <=? 0) (data t) || existsb (fun z => int32_max <? z) (data t)) ValueError.

Definition get_tensor (m : list (string * attachment)) (name : string) : res Tensor :=
  match kv_get name m with Some (ATensor t) => Ok t | _ => Raise KeyError end.

(** [imgs] is [[1, total_patches, 3*P*P]]; gives the patch size. *)
Definition check_imgs (t : Tensor) : res Z :=
  _ ← raise_if (negb (bool_decide (t_dtype t ∈ _MEDIA_PIXEL_DTYPES))) ValueError;
  _ ← raise_if (negb (ndim t =? 3)%nat || negb (dim t 0 =? 1) || (dim t 1 =? 0)) ValueError;
  let feature := dim t 2 in
  _ ← raise_if ((feature <=? 0) || negb (feature mod 3 =? 0)) ValueError;
  let p := Z.sqrt (feature / 3) in
  _ ← raise_if ((p <=? 0) || negb (3 * p * p =? feature)) ValueError;
  Ok p.

(** The frame sizes describe the patches there are. *)
Definition check_sizes (t : Tensor) (p total : Z) : res unit :=
  _ ← raise_if (negb (bool_decide (t_dtype t ∈ _MEDIA_INDEX_DTYPES))) ValueError;
  _ ← raise_if (negb (ndim t =? 2)%nat || negb (dim t 1 =? 2) || (dim t 0 =? 0)) ValueError;
  _ ← _check_int32_positive t;
  _ ← raise_if (existsb (fun z => negb (z mod p =? 0)) (data t)) ValueError;
  ps ← pairs (data t);
  raise_if (negb (sum64 ((fun hw => hw.1 * hw.2) <$> ps) / (p * p) =? total)) ValueError.

Definition check_frames (t : Tensor) (n : Z) : res unit :=
  _ ← raise_if (negb (bool_decide (t_dtype t ∈ _MEDIA_INDEX_DTYPES))) ValueError;
  _ ← raise_if (negb (ndim t =? 1)%nat || (numel t =? 0)) ValueError;
  _ ← _check_int32_positive t;
  raise_if (negb (sum64 (data t) =? n)) ValueError.

Definition check_mapping (m : list (string * attachment)) : res unit :=
  _ ← raise_if (bool_decide (m = [])) ValueError;
  _ ← raise_if (existsb (fun kv => negb (bool_decide (kv.1 ∈ MEDIA_TENSOR_COLUMNS))) m) ValueError;
  _ ← raise_if (existsb (fun name => match kv_get name m with None | Some ANone => true | _ => false end) _MEDIA_REQUIRED) ValueError;
  raise_if (existsb (fun kv => match kv.2 with
                               | ATensor _ => false
                               | ANone => bool_decide (kv.1 ∈ _MEDIA_REQUIRED)
                               | AOther => true
                               end) m) TypeError.

Definition validate_media_tensors (a : option attachments) : res (option StagedMediaTensors) :=
  match a with
  | None => Ok None
  | Some NotMapping => Raise TypeError
  | Some (Mapping m) =>
      _ ← check_mapping m;
      imgs_ ← get_tensor m "imgs";
      p ← check_imgs imgs_;
      sizes ← get_tensor m "imgs_sizes";
      _ ← check_sizes sizes p (dim imgs_ 1);
      frames ← match kv_get "num_frames" m with
               | Some (ATensor f) => _ ← check_frames f (dim sizes 0); Ok (Some f)
               | _ => Ok None
               end;
      Ok (Some (mkMedia imgs_ sizes frames))
  end.

(** ** Concatenation along a chain of calls *)

(** [torch.cat(parts, dim=1)] of tensors [[1, n, f]], and [torch.cat(parts, dim=0)]. *)
Definition cat_patches (first : Tensor) (rest : list Tensor) : Tensor :=
  mkTensor (t_dtype first) [1; zsum ((fun t => dim t 1) <$> (first :: rest)); dim first 2]
    (concat (data <$> first :: rest)).
(** Integer tensors of different widths are promoted to the wider one. *)
Definition cat_dtype (first : Tensor) (rest : list Tensor) : dtype :=
  if forallb (fun t => bool_decide (t_dtype t = t_dtype first)) rest then t_dtype first else Int64.
Definition cat_sizes (first : Tensor) (rest : list Tensor) : Tensor :=
  let l := concat (data <$> first :: rest) in
  mkTensor (cat_dtype first rest) [Z.of_nat (length l) / 2; 2] l.
Definition cat_frames (first : Tensor) (rest : list Tensor) : Tensor :=
  let l := concat (data <$> first :: rest) in
  mkTensor (cat_dtype first rest) [Z.of_nat (length l)] l.

Definition _concat_media (parts : list StagedMediaTensors) : res StagedMediaTensors :=
  match parts with
  | [] => Raise ValueError
  | [part] => Ok part
  | first :: rest =>
      _ ← raise_if (existsb (fun part => negb (bool_decide (t_dtype (imgs part) = t_dtype (imgs first)))
                                         || negb (default 0 (last (shape (imgs part))) =? default 0 (last (shape (imgs first))))) rest)
            ValueError;
      let present := List.map (fun part => bool_decide (is_Some (num_frames part))) parts in
      _ ← raise_if (existsb id present && negb (forallb id present)) ValueError;
      Ok (mkMedia (cat_patches (imgs first) (imgs <$> rest))
            (cat_sizes (imgs_sizes first) (imgs_sizes <$> rest))
            (match num_frames first with
             | Some f => Some (cat_frames f (omap num_frames rest))
             | None => None
             end))
  end.

(** The trainer's three columns of one row: the patches, the sizes, and the
    frame counts with one frame per still image. *)
Record TrainerMedia := mkTrainerMedia {
  pixel_values : Tensor;
  row_imgs_sizes : list (Z * Z);
  row_num_frames : list Z }.

(** The pixel column of a run that captures media. *)
Record MediaColumnSpec := mkColumnSpec { pixel_dtype : dtype; spec_patch_size : Z }.
Definition new_column_spec (s : MediaColumnSpec) : res MediaColumnSpec :=
  _ ← raise_if (spec_patch_size s <=? 0) ValueError; Ok s.
Definition pixel_feature_dim (s : MediaColumnSpec) : Z := 3 * spec_patch_size s ^ 2.

Definition _trainer_media (m : StagedMediaTensors) : res TrainerMedia :=
  let i := imgs m in
  let i := if (ndim i =? 3)%nat && (dim i 0 =? 1) then mkTensor (t_dtype i) [dim i 1; dim i 2] (data i) else i in
  sizes ← pairs (data (imgs_sizes m));
  Ok (mkTrainerMedia i sizes
        match num_frames m with
        | Some f => data f
        | None => replicate (length sizes) 1
        end).

(** ** What a validated bundle is *)

Lemma pairs_app l1 l2 ps1 ps2 : pairs l1 = Ok ps1 -> pairs l2 = Ok ps2 -> pairs (l1 ++ l2) = Ok (ps1 ++ ps2)%list.
Proof.
  revert ps1. induction l1 as [l1 IH] using (well_founded_induction (well_founded_ltof _ (@length Z))).
  intros ps1. destruct l1 as [|h [|w l1]]; cbn [app pairs]; intros H1 H2; [|discriminate|].
  - by injection H1 as <-.
  - apply bind_Ok in H1 as (ps & Hps & [= <-]). rewrite (IH l1) with (ps1 := ps); [done| |done|done].
    unfold ltof. cbn. lia.
Qed.

Lemma pairs_length l ps : pairs l = Ok ps -> length l = (2 * length ps)%nat.
Proof.
  revert ps. induction l as [l IH] using (well_founded_induction (well_founded_ltof _ (@length Z))).
  destruct l as [|h [|w l]]; cbn [pairs]; intros ps H; [by injection H as <-|discriminate|].
  apply bind_Ok in H as (ps' & H & [= <-]). cbn. rewrite (IH l) with (ps := ps'); [lia| |done]. unfold ltof. cbn. lia.
Qed.

Lemma pairs_even l n : length l = (2 * n)%nat -> exists ps, pairs l = Ok ps.
Proof.
  revert l. induction n as [|n IH]; intros l Hl.
  - destruct l; [by exists []|discriminate].
  - destruct l as [|h [|w l]]; [cbn in Hl; lia..|]. destruct (IH l) as [ps Hps]; [cbn in Hl; lia|].
    exists ((h, w) :: ps). cbn [pairs]. by rewrite Hps.
Qed.

Lemma pairs_elem l ps (P : Z -> Prop) : pairs l = Ok ps -> Forall P l -> Forall (fun hw => P hw.1 /\ P hw.2) ps.
Proof.
  revert ps. induction l as [l IH] using (well_founded_induction (well_founded_ltof _ (@length Z))).
  destruct l as [|h [|w l]]; cbn [pairs]; intros ps H HP; [by injection H as <-|discriminate|].
  apply bind_Ok in H as (ps' & H & [= <-]). apply Forall_cons in HP as [Hh [Hw HP]%Forall_cons].
  constructor; [done|]. apply (IH l); [|done..]. unfold ltof. cbn. lia.
Qed.

(** Positive 32-bit values. *)
Definition int32_positive (z : Z) : Prop := 0 < z <= int32_max.

Lemma check_positive_Ok t u : _check_int32_positive t = Ok u <-> Forall int32_positive (data t).
Proof.
  unfold _check_int32_positive. rewrite raise_if_Ok, orb_false_iff, Forall_forall. split.
  - intros [H1 H2] z Hz. apply list_elem_of_In in Hz. split.
    + apply not_true_iff_false in H1. apply Z.nle_gt. intros Hc. apply H1, existsb_exists. exists z. split; [done|lia].
    + apply not_true_iff_false in H2. apply Z.nlt_ge. intros Hc. apply H2, existsb_exists. exists z. split; [done|lia].
  - intros H. split; apply not_true_iff_false; intros (z & Hz & Hc)%existsb_exists;
      apply list_elem_of_In, H in Hz; unfold int32_positive in Hz; lia.
Qed.

Definition area (ps : list (Z * Z)) : list Z := (fun hw => hw.1 * hw.2) <$> ps.

(** The contract of a captured bundle: packed square RGB patches, frame sizes
    that are multiples of the patch size and cover exactly the patches, and
    frame counts that cover exactly the frames. *)
Record valid_media (p : Z) (ps : list (Z * Z)) (m : StagedMediaTensors) : Prop := {
  vm_dtype : t_dtype (imgs m) ∈ _MEDIA_PIXEL_DTYPES;
  vm_patches : exists n, shape (imgs m) = [1; n; 3 * p * p] /\ n <> 0 /\ sum64 (area ps) / (p * p) = n;
  vm_patch : 0 < p;
  vm_sizes : t_dtype (imgs_sizes m) ∈ _MEDIA_INDEX_DTYPES /\ exists k, shape (imgs_sizes m) = [k; 2] /\ k <> 0;
  vm_pairs : pairs (data (imgs_sizes m)) = Ok ps;
  vm_pos : Forall (fun z => int32_positive z /\ z mod p = 0) (data (imgs_sizes m));
  vm_frames : forall f, num_frames m = Some f ->
    t_dtype f ∈ _MEDIA_INDEX_DTYPES /\ (exists k, shape f = [k] /\ k <> 0) /\ Forall int32_positive (data f)
    /\ sum64 (data f) = dim (imgs_sizes m) 0 }.

Definition as_attachments (m : StagedMediaTensors) : list (string * attachment) :=
  [("imgs", ATensor (imgs m)); ("imgs_sizes", ATensor (imgs_sizes m));
   ("num_frames", match num_frames m with Some f => ATensor f | None => ANone end)].

Lemma check_imgs_Ok t p :
  check_imgs t = Ok p <->
  t_dtype t ∈ _MEDIA_PIXEL_DTYPES /\ 0 < p /\ exists n, shape t = [1; n; 3 * p * p] /\ n <> 0.
Proof.
  unfold check_imgs, ndim, dim. split.
  - intros (? & Hd%raise_if_Ok & (? & Hs%raise_if_Ok & (? & Hf%raise_if_Ok & (? & Hp%raise_if_Ok & [= <-])%bind_Ok)%bind_Ok)%bind_Ok)%bind_Ok.
    apply negb_false_iff, bool_decide_eq_true in Hd. split; [done|].
    destruct (shape t) as [|a [|n [|f [|? ?]]]]; try discriminate. cbn in *.
    rewrite !orb_false_iff, !negb_false_iff, ?Z.eqb_eq, ?Z.eqb_neq, ?Z.leb_gt in *.
    split; [apply Hp|]. exists n. split; [|lia]. do 2 f_equal; [lia|f_equal; lia].
  - intros (Hd & Hp & n & Hs & Hn). rewrite bool_decide_true by done. rewrite Hs. cbn.
    assert (3 * p * p / 3 = p * p) as E by (replace (3 * p * p) with (p * p * 3) by lia; apply Z.div_mul; lia).
    rewrite E, Z.sqrt_square by lia.
    assert ((3 * p * p) mod 3 = 0) as -> by (replace (3 * p * p) with (p * p * 3) by lia; apply Z.mod_mul; lia).
    assert ((n =? 0) = false) as -> by lia. assert ((3 * p * p <=? 0) = false) as -> by nia.
    assert ((p <=? 0) = false) as -> by lia. rewrite Z.eqb_refl. done.
Qed.

Lemma check_sizes_Ok t p total u :
  0 < p ->
  check_sizes t p total = Ok u <->
  t_dtype t ∈ _MEDIA_INDEX_DTYPES /\ (exists k, shape t = [k; 2] /\ k <> 0)
  /\ Forall (fun z => int32_positive z /\ z mod p = 0) (data t)
  /\ exists ps, pairs (data t) = Ok ps /\ sum64 (area ps) / (p * p) = total.
Proof.
  intros Hp. unfold check_sizes, ndim, dim. split.
  - intros (? & Hd%raise_if_Ok & (? & Hs%raise_if_Ok & (? & Hpos%check_positive_Ok & (? & Hdiv%raise_if_Ok & (ps & Hps & Htot%raise_if_Ok)%bind_Ok)%bind_Ok)%bind_Ok)%bind_Ok)%bind_Ok.
    apply negb_false_iff, bool_decide_eq_true in Hd. split; [done|]. split.
    { destruct (shape t) as [|k [|two [|? ?]]]; try discriminate. cbn in *.
      rewrite !orb_false_iff, !negb_false_iff, ?Z.eqb_eq, ?Z.eqb_neq in *. exists k. split; [|lia]. do 2 f_equal; lia. }
    split; [|exists ps; split; [done|]; apply negb_false_iff in Htot; unfold area; lia].
    rewrite Forall_forall in *. intros z Hz. split; [auto|].
    apply not_true_iff_false in Hdiv. apply Z.eqb_eq. apply not_false_iff_true. intros Hc. apply Hdiv, existsb_exists.
    exists z. rewrite Hc. split; [by apply list_elem_of_In|done].
  - intros (Hd & (k & Hs & Hk) & Hall & ps & Hps & Htot). rewrite bool_decide_true by done. rewrite Hs. cbn -[_check_int32_positive].
    assert ((k =? 0) = false) as -> by lia. cbn -[_check_int32_positive].
    assert (_check_int32_positive t = Ok tt) as ->.
    { apply check_positive_Ok. eapply Forall_impl; [done|]. by intros z [? _]. }
    cbn. assert (existsb (fun z => negb (z mod p =? 0)) (data t) = false) as ->.
    { apply not_true_iff_false. intros (z & Hz & Hc)%existsb_exists. rewrite Forall_forall in Hall.
      apply list_elem_of_In in Hz. destruct (Hall z Hz) as [_ Hmod]. rewrite Hmod in Hc. done. }
    cbn. rewrite Hps. cbn. unfold area in Htot. rewrite Htot, Z.eqb_refl. by destruct u.
Qed.

Lemma check_frames_Ok t n u :
  check_frames t n = Ok u <->
  t_dtype t ∈ _MEDIA_INDEX_DTYPES /\ (exists k, shape t = [k] /\ k <> 0) /\ Forall int32_positive (data t) /\ sum64 (data t) = n.
Proof.
  unfold check_frames, ndim, numel. split.
  - intros (? & Hd%raise_if_Ok & (? & Hs%raise_if_Ok & (? & Hpos%check_positive_Ok & Htot%raise_if_Ok)%bind_Ok)%bind_Ok)%bind_Ok.
    apply negb_false_iff, bool_decide_eq_true in Hd. split; [done|].
    destruct (shape t) as [|k [|? ?]]; try discriminate. cbn in *. split; [exists k; split; [done|lia]|]. split; [done|]. lia.
  - intros (Hd & (k & Hs & Hk) & Hall & Htot). rewrite bool_decide_true by done. rewrite Hs. cbn -[_check_int32_positive].
    assert ((k * 1 =? 0) = false) as -> by lia. cbn -[_check_int32_positive].
    assert (_check_int32_positive t = Ok tt) as -> by by apply check_positive_Ok.
    cbn. rewrite Htot, Z.eqb_refl. by destruct u.
Qed.

Lemma check_mapping_of m : check_mapping (as_attachments m) = Ok tt.
Proof. unfold check_mapping, as_attachments. by destruct (num_frames m). Qed.

Lemma validate_unfold m :
  validate_media_tensors (Some (Mapping (as_attachments m)))
  = (p ← check_imgs (imgs m); _ ← check_sizes (imgs_sizes m) p (dim (imgs m) 1);
     frames ← match num_frames m with
              | Some f => _ ← check_frames f (dim (imgs_sizes m) 0); Ok (Some f)
              | None => Ok None
              end;
     Ok (Some (mkMedia (imgs m) (imgs_sizes m) frames))).
Proof.
  unfold validate_media_tensors. rewrite check_mapping_of. by destruct m as [? ? [?|]].
Qed.

(** A bundle is accepted exactly when it keeps the contract. *)
Lemma validate_iff m :
  validate_media_tensors (Some (Mapping (as_attachments m))) = Ok (Some m) <-> exists p ps, valid_media p ps m.
Proof.
  rewrite validate_unfold. split.
  - intros (p & Hi%check_imgs_Ok & (? & Hs & (fr & Hf & Heq)%bind_Ok)%bind_Ok)%bind_Ok.
    destruct Hi as (Hd & Hp & n & Hshape & Hn).
    apply check_sizes_Ok in Hs as (Hsd & Hss & Hall & ps & Hps & Htot); [|done].
    injection Heq as Heq. exists p, ps. constructor; try done.
    + exists n. unfold dim in Htot. rewrite Hshape in Htot. done.
    + intros f Ef. rewrite Ef in Hf. apply bind_Ok in Hf as (? & Hf%check_frames_Ok & _). done.
  - intros (p & ps & [Hd (n & Hshape & Hn & Htot) Hp Hsz Hps Hpos Hfr]).
    assert (check_imgs (imgs m) = Ok p) as -> by (apply check_imgs_Ok; eauto).
    cbn -[check_imgs check_sizes check_frames].
    assert (check_sizes (imgs_sizes m) p (dim (imgs m) 1) = Ok tt) as ->.
    { apply check_sizes_Ok; [done|]. split_and!; try done; try apply Hsz. exists ps. unfold dim. rewrite Hshape. done. }
    cbn -[check_frames]. destruct m as [im sz [f|]]; cbn -[check_frames] in *; [|done].
    assert (check_frames f (dim sz 0) = Ok tt) as -> by (apply check_frames_Ok; by apply Hfr).
    done.
Qed.

(** ** Items *)

Lemma sum64_small l : 0 <= zsum l < 2 ^ 63 -> sum64 l = zsum l.
Proof. intros H. unfold sum64. rewrite Z.mod_small; lia. Qed.

Lemma zsum_positive l : Forall (fun z => 0 < z) l -> Z.of_nat (length l) <= zsum l.
Proof. induction 1; cbn [zsum length]; lia. Qed.

Lemma zsum_int32 l : Forall int32_positive l -> 0 <= zsum l <= int32_max * Z.of_nat (length l).
Proof. unfold int32_positive. induction 1; cbn [zsum length]; lia. Qed.

Lemma length_concat_items {A} (ll : list (list A)) : Z.of_nat (length (concat ll)) = zsum ((fun l : list A => Z.of_nat (length l)) <$> ll).
Proof. induction ll as [|l ll IH]; [done|]. cbn [concat]. rewrite length_app, fmap_cons. cbn [zsum]. lia. Qed.

Lemma cut_items_spec frames : forall ps start,
  (start <= length ps)%nat -> Forall (fun n => 0 < n) frames ->
  zsum frames = Z.of_nat (length ps - start) ->
  concat (cut_items ps (Z.of_nat start) frames) = drop start ps
  /\ Forall2 (fun n (item : list (Z * Z)) => Z.of_nat (length item) = n) frames (cut_items ps (Z.of_nat start) frames).
Proof.
  induction frames as [|n frames IH]; intros ps start Hs Hpos Hsum; cbn [cut_items concat zsum] in *.
  - split; [|constructor]. rewrite drop_ge; [done|lia].
  - apply Forall_cons in Hpos as [Hn Hpos]. pose proof (zsum_nonneg frames) as Hnn.
    assert (0 <= zsum frames) as H0 by (apply Hnn; eapply Forall_impl; [done|]; cbn; lia).
    replace (Z.of_nat start + n) with (Z.of_nat (start + Z.to_nat n)) by lia.
    rewrite py_slice_nat by lia. replace (start + Z.to_nat n - start)%nat with (Z.to_nat n) by lia.
    destruct (IH ps (start + Z.to_nat n)%nat) as [IH1 IH2]; [lia|done|lia|].
    split; [|constructor; [|done]].
    + rewrite IH1. rewrite <- (take_drop (Z.to_nat n) (drop start ps)) at 2. by rewrite drop_drop.
    + rewrite length_take, length_drop. lia.
Qed.

(** The number of elements a tensor can have without its sum leaving 64 bits. *)
Definition few (m : StagedMediaTensors) : Prop :=
  forall f, num_frames m = Some f -> Z.of_nat (length (data f)) < 2 ^ 32.
Definition tensors_ok (m : StagedMediaTensors) : Prop := tensor_ok (imgs m) /\ tensor_ok (imgs_sizes m).

(** Every row of the sizes is one frame. *)
Lemma rows_are_pairs p ps m : valid_media p ps m -> tensor_ok (imgs_sizes m) -> dim (imgs_sizes m) 0 = Z.of_nat (length ps).
Proof.
  intros [_ _ _ [_ (k & Hs & Hk)] Hps _ _] [Hlen Hnn]. apply pairs_length in Hps.
  unfold numel, dim in *. rewrite Hs in *. cbn in *. lia.
Qed.

(** The frames of each item, by the rule the engine and the learner share. *)
Definition item_lengths (m : StagedMediaTensors) (n : nat) : list Z :=
  match num_frames m with Some f => data f | None => replicate n 1 end.

Lemma frames_tile p ps m :
  valid_media p ps m -> tensors_ok m -> few m ->
  Forall (fun n => 0 < n) (item_lengths m (length ps)) /\ zsum (item_lengths m (length ps)) = Z.of_nat (length ps).
Proof.
  intros Hv [_ Hok] Hfew. pose proof (rows_are_pairs p ps m Hv Hok) as Hrows. destruct Hv as [_ _ _ _ _ _ Hfr].
  unfold item_lengths. destruct (num_frames m) as [f|] eqn:Ef.
  - destruct (Hfr f eq_refl) as (_ & _ & Hpos & Hsum). specialize (Hfew f Ef). rewrite <- Hrows, <- Hsum.
    split; [eapply Forall_impl; [done|]; unfold int32_positive; lia|].
    pose proof (zsum_int32 _ Hpos). rewrite sum64_small; [done|]. unfold int32_max in *. nia.
  - split; [by apply Forall_replicate|]. clear. induction (length ps); cbn [replicate zsum]; lia.
Qed.

Definition lengths_are (l : list Z) (items : list (list (Z * Z))) : Prop :=
  Forall2 (fun n (item : list (Z * Z)) => Z.of_nat (length item) = n) l items.

(** Counts that cover the rows cut them into items. *)
Lemma items_of_tiling ps m :
  pairs (data (imgs_sizes m)) = Ok ps ->
  Forall (fun n => 0 < n) (item_lengths m (length ps)) -> zsum (item_lengths m (length ps)) = Z.of_nat (length ps) ->
  exists items, item_sizes m = Ok items /\ concat items = ps /\ lengths_are (item_lengths m (length ps)) items.
Proof.
  intros Hps Hpos Hsum.
  unfold item_sizes, media_item_sizes. rewrite Hps. cbn [mbind res_bind]. unfold item_lengths in *.
  destruct (num_frames m) as [f|].
  - assert (existsb (fun n => n <=? 0) (data f) = false) as ->.
    { apply not_true_iff_false. intros (n & Hn & Hc)%existsb_exists. rewrite Forall_forall in Hpos.
      apply list_elem_of_In, Hpos in Hn. lia. }
    rewrite Hsum, Z.eqb_refl. cbn.
    destruct (cut_items_spec (data f) ps 0) as [Hc Hl]; [lia|done|by rewrite Nat.sub_0_r|].
    exists (cut_items ps 0 (data f)). rewrite drop_0 in Hc. done.
  - exists ((fun q => [q]) <$> ps). split; [done|]. clear. split.
    + induction ps as [|q ps IH]; [done|]. cbn. f_equal. apply IH.
    + induction ps as [|q ps IH]; [constructor|]. cbn. by constructor.
Qed.

Lemma items_spec p ps m :
  valid_media p ps m -> tensors_ok m -> few m ->
  exists items, item_sizes m = Ok items /\ concat items = ps /\ lengths_are (item_lengths m (length ps)) items.
Proof.
  intros Hv Hok Hfew. destruct (frames_tile p ps m Hv Hok Hfew). apply items_of_tiling; [apply (vm_pairs _ _ _ Hv)|done..].
Qed.

(** There is one way to cut a list into pieces of given lengths. *)
Lemma cut_unique ls (l1 l2 : list (list (Z * Z))) :
  lengths_are ls l1 -> lengths_are ls l2 -> concat l1 = concat l2 -> l1 = l2.
Proof.
  intros H1. revert l2. induction H1 as [|n x ls l1 Hx _ IH]; intros l2 H2 Heq; inversion H2 as [|? y ? l2' Hy Hl]; subst; [done|].
  cbn [concat] in Heq. apply app_inj_1 in Heq as [-> Heq]; [|lia]. f_equal. by apply IH.
Qed.

(** ** A chain of calls *)

Lemma area_app l1 l2 : area (l1 ++ l2) = (area l1 ++ area l2)%list.
Proof. apply fmap_app. Qed.

Lemma area_nonneg l ps : pairs l = Ok ps -> Forall (fun z => int32_positive z) l -> 0 <= zsum (area ps).
Proof.
  intros Hps Hl. apply zsum_nonneg. apply (pairs_elem _ _ _ Hps) in Hl. unfold area. rewrite Forall_fmap.
  eapply Forall_impl; [done|]. unfold int32_positive. intros [h w] [? ?]. cbn in *. nia.
Qed.

Lemma area_divides p l ps : 0 < p -> pairs l = Ok ps -> Forall (fun z => z mod p = 0) l -> (p * p | zsum (area ps)).
Proof.
  intros Hp Hps Hl. apply (pairs_elem _ _ _ Hps) in Hl. clear Hps l.
  induction Hl as [|[h w] ps [Hh Hw] _ IH]; [apply Z.divide_0_r|].
  unfold area. rewrite fmap_cons. cbn [zsum]. apply Z.divide_add_r; [|done]. cbn in *.
  apply Z.mod_divide in Hh as [a ->], Hw as [b ->]; [|lia..]. exists (a * b). lia.
Qed.

Section chain.
Context (p : Z) (Hp : 0 < p).

(** A part of a chain, with the frame sizes it holds. *)
Definition part_ok (ps : list (Z * Z)) (m : StagedMediaTensors) : Prop :=
  valid_media p ps m /\ tensors_ok m /\ few m.

Lemma parts_pairs pss ms :
  Forall2 part_ok pss ms -> pairs (concat (data <$> (imgs_sizes <$> ms))) = Ok (concat pss).
Proof.
  induction 1 as [|ps m pss ms [Hv _] _ IH]; [done|]. rewrite !fmap_cons. cbn [concat].
  by apply pairs_app; [apply (vm_pairs _ _ _ Hv)|].
Qed.

Lemma part_patches ps m :
  part_ok ps m -> zsum (area ps) < 2 ^ 63 -> 0 < dim (imgs m) 1 /\ dim (imgs m) 1 * (p * p) = zsum (area ps)
  /\ 0 <= zsum (area ps).
Proof.
  intros [[_ (n & Hs & Hn & Htot) _ _ Hps Hpos _] [[[_ Hnn] _] _]] Hsmall.
  assert (Hpos' : Forall int32_positive (data (imgs_sizes m))) by (eapply Forall_impl; [done|]; by intros z [? _]).
  assert (Hdiv : Forall (fun z => z mod p = 0) (data (imgs_sizes m))) by (eapply Forall_impl; [exact Hpos|]; by intros z [_ ?]).
  pose proof (area_nonneg _ _ Hps Hpos') as H0.
  rewrite sum64_small in Htot by lia. unfold dim. rewrite Hs in *. cbn in *.
  apply Forall_cons in Hnn as [_ [Hn0 _]%Forall_cons].
  destruct (area_divides p _ _ Hp Hps Hdiv) as [q Hq]. rewrite Hq, Z.div_mul in Htot by nia.
  subst q. lia.
Qed.

Lemma parts_patches pss ms :
  Forall2 part_ok pss ms -> zsum (area (concat pss)) < 2 ^ 63 ->
  zsum ((fun t => dim t 1) <$> (imgs <$> ms)) * (p * p) = zsum (area (concat pss))
  /\ 0 <= zsum (area (concat pss)) /\ 0 <= zsum ((fun t => dim t 1) <$> (imgs <$> ms)).
Proof.
  induction 1 as [|ps m pss ms Hm Hms IH]; intros Hsmall; [done|].
  cbn [concat] in Hsmall. rewrite area_app, zsum_app in Hsmall.
  assert (Hnn : forall pss ms, Forall2 part_ok pss ms -> 0 <= zsum (area (concat pss))).
  { clear. induction 1 as [|ps m pss ms [Hv _] _ IH]; [done|]. cbn [concat]. rewrite area_app, zsum_app.
    pose proof (area_nonneg _ _ (vm_pairs _ _ _ Hv)). assert (0 <= zsum (area ps)); [|lia]. apply H.
    eapply Forall_impl; [apply (vm_pos _ _ _ Hv)|]. by intros z [? _]. }
  assert (0 <= zsum (area ps)) as Hps.
  { pose proof (Hnn [ps] [m]) as H1. cbn [concat] in H1. rewrite app_nil_r in H1. apply H1. by constructor. }
  specialize (Hnn _ _ Hms). destruct IH as (IH1 & IH2 & IH3); [lia|].
  destruct (part_patches _ _ Hm) as (H1 & H2 & H3); [lia|].
  cbn [concat]. rewrite area_app, zsum_app. rewrite !fmap_cons. cbn [List.map zsum]. split_and!; lia.
Qed.

Lemma parts_sizes pss ms :
  Forall2 part_ok pss ms ->
  Forall (fun z => int32_positive z /\ z mod p = 0) (concat (data <$> (imgs_sizes <$> ms))).
Proof.
  induction 1 as [|ps m pss ms [Hv _] _ IH]; [constructor|]. rewrite !fmap_cons. cbn [concat].
  apply Forall_app. split; [apply (vm_pos _ _ _ Hv)|done].
Qed.

Definition parts_lengths (pss : list (list (Z * Z))) (ms : list StagedMediaTensors) : list Z :=
  concat (zip_with (fun m (ps : list (Z * Z)) => item_lengths m (length ps)) ms pss).

Lemma parts_items pss ms :
  Forall2 part_ok pss ms -> exists items, Forall2 (fun m its => item_sizes m = Ok its) ms items
    /\ concat (concat items) = concat pss /\ lengths_are (parts_lengths pss ms) (concat items).
Proof.
  induction 1 as [|ps m pss ms (Hv & Hok & Hfew) _ (items & IH1 & IH2 & IH3)].
  { exists []. split; [constructor|]. split; [done|constructor]. }
  destruct (items_spec p ps m Hv Hok Hfew) as (its & H1 & H2 & H3).
  exists (its :: items). split; [by constructor|]. unfold parts_lengths. cbn [concat zip_with]. split.
  - rewrite concat_app. by rewrite H2, IH2.
  - by apply Forall2_app.
Qed.

Lemma parts_tile pss ms :
  Forall2 part_ok pss ms ->
  Forall (fun n => 0 < n) (parts_lengths pss ms) /\ zsum (parts_lengths pss ms) = Z.of_nat (length (concat pss)).
Proof.
  induction 1 as [|ps m pss ms (Hv & Hok & Hfew) _ [IH1 IH2]]; [by split; [constructor|]|].
  destruct (frames_tile p ps m Hv Hok Hfew) as [H1 H2]. unfold parts_lengths in *. cbn [concat zip_with].
  rewrite zsum_app, length_app, H2. split; [by apply Forall_app|lia].
Qed.

(** The counts of the bundle put together are those of the parts. *)
Lemma parts_frames pss ms m l :
  Forall2 part_ok pss ms -> length l = length (concat pss) ->
  Forall (fun part => num_frames part = None) ms /\ num_frames m = None
  \/ Forall (fun part => is_Some (num_frames part)) ms /\ (data <$> num_frames m) = Some (concat (data <$> omap num_frames ms)) ->
  item_lengths m (length (l : list (Z * Z))) = parts_lengths pss ms.
Proof.
  intros Hms -> Hcase. unfold item_lengths.
  destruct Hcase as [[Hall ->]|[Hall Hf]].
  - unfold parts_lengths. induction Hms as [|ps part pss ms _ _ IH]; [done|].
    apply Forall_cons in Hall as [Hn Hall]. cbn [concat zip_with]. rewrite length_app, replicate_add, IH by done.
    unfold item_lengths at 2. by rewrite Hn.
  - destruct (num_frames m) as [f|]; [|done]. injection Hf as ->. unfold parts_lengths.
    induction Hms as [|ps part pss ms _ _ IH]; [done|].
    apply Forall_cons in Hall as [[fp Hn] Hall]. cbn [concat zip_with omap list_omap]. rewrite Hn. rewrite fmap_cons. cbn [concat].
    rewrite IH by done. unfold item_lengths at 2. by rewrite Hn.
Qed.

Definition joined (first : StagedMediaTensors) (rest : list StagedMediaTensors) : StagedMediaTensors :=
  mkMedia (cat_patches (imgs first) (imgs <$> rest)) (cat_sizes (imgs_sizes first) (imgs_sizes <$> rest))
    (match num_frames first with Some f => Some (cat_frames f (omap num_frames rest)) | None => None end).

(** All parts have frame counts, or none has. *)
Definition uniform_frames (ms : list StagedMediaTensors) : Prop :=
  Forall (fun part => num_frames part = None) ms \/ Forall (fun part => is_Some (num_frames part)) ms.

Lemma joined_frames first rest :
  uniform_frames (first :: rest) ->
  Forall (fun part => num_frames part = None) (first :: rest) /\ num_frames (joined first rest) = None
  \/ Forall (fun part => is_Some (num_frames part)) (first :: rest)
     /\ (data <$> num_frames (joined first rest)) = Some (concat (data <$> omap num_frames (first :: rest))).
Proof.
  intros [Hall|Hall]; [left|right]; (split; [done|]); apply Forall_cons in Hall as [Hf _].
  - unfold joined. by rewrite Hf.
  - destruct Hf as [f Hf]. unfold joined. cbn [omap list_omap]. by rewrite Hf.
Qed.

Lemma cat_dtype_in first rest :
  t_dtype first ∈ _MEDIA_INDEX_DTYPES -> cat_dtype first rest ∈ _MEDIA_INDEX_DTYPES.
Proof. unfold cat_dtype. destruct (forallb _ _); [done|]. intros _. apply (bool_decide_unpack _). done. Qed.

Lemma joined_data first rest : data (imgs_sizes (joined first rest)) = concat (data <$> (imgs_sizes <$> first :: rest)).
Proof. done. Qed.

Lemma joined_tiles pss first rest :
  Forall2 part_ok pss (first :: rest) -> uniform_frames (first :: rest) ->
  Forall (fun n => 0 < n) (item_lengths (joined first rest) (length (concat pss)))
  /\ zsum (item_lengths (joined first rest) (length (concat pss))) = Z.of_nat (length (concat pss)).
Proof.
  intros Hms Hu. rewrite (parts_frames pss (first :: rest)) by (try done; by apply joined_frames). by apply parts_tile.
Qed.

Lemma few_rows ps l : pairs l = Ok ps -> Forall int32_positive l -> Z.of_nat (length ps) <= zsum (area ps).
Proof.
  intros Hps Hl. apply (pairs_elem _ _ _ Hps) in Hl. clear Hps l. unfold area.
  induction Hl as [|[h w] ps [Hh Hw] _ IH]; [done|]. rewrite fmap_cons. cbn [zsum length]. unfold int32_positive in *. cbn in *. nia.
Qed.

Lemma parts_frames_positive pss ms :
  Forall2 part_ok pss ms -> Forall int32_positive (concat (data <$> omap num_frames ms)).
Proof.
  induction 1 as [|ps m pss ms [Hv _] _ IH]; [constructor|]. cbn [omap list_omap].
  destruct (num_frames m) as [f|] eqn:Ef; [|done]. rewrite fmap_cons. cbn [concat]. apply Forall_app. split; [|done].
  by apply (vm_frames _ _ _ Hv).
Qed.

Lemma half_of_double n : Z.of_nat (2 * n) / 2 = Z.of_nat n.
Proof. rewrite Nat2Z.inj_mul, Z.mul_comm. apply Z.div_mul. lia. Qed.

Lemma joined_valid pss first rest :
  Forall2 part_ok pss (first :: rest) -> uniform_frames (first :: rest) -> zsum (area (concat pss)) < 2 ^ 63 ->
  valid_media p (concat pss) (joined first rest).
Proof.
  intros Hms Hu Hsmall. pose proof (parts_patches _ _ Hms Hsmall) as (Hn & Hnn & Hd).
  pose proof (parts_pairs _ _ Hms) as Hpairs. pose proof (parts_sizes _ _ Hms) as Hpos.
  pose proof (joined_tiles _ _ _ Hms Hu) as [_ Htile].
  assert (Hpos' : Forall int32_positive (concat (data <$> (imgs_sizes <$> first :: rest)))).
  { eapply Forall_impl; [exact Hpos|]. by intros z [? _]. }
  pose proof (few_rows _ _ Hpairs Hpos') as Hrows. pose proof (pairs_length _ _ Hpairs) as Hlen.
  inversion Hms as [|ps ? pss' ? Hfirst Hrest]; subst. destruct Hfirst as ([Hdt (n & Hshape & Hn0 & _) _ [Hsd (k & Hks & Hk)] Hps _ Hfr] & [[_ Hdim] [Hsn _]] & _).
  assert (0 < Z.of_nat (length ps)) as Hps0.
  { apply pairs_length in Hps. unfold numel in Hsn. rewrite Hks in Hsn. cbn in Hsn. lia. }
  assert (0 < zsum ((fun t => dim t 1) <$> (imgs <$> first :: rest))) as Hpos1.
  { assert (0 < zsum (area (concat (ps :: pss')))); [|nia]. cbn [concat] in Hrows. rewrite length_app in Hrows. cbn [concat]. lia. }
  constructor; try done.
  - exists (zsum ((fun t => dim t 1) <$> (imgs <$> first :: rest))). split_and!; [|lia|].
    + unfold joined, cat_patches. cbn [imgs shape]. do 2 f_equal. f_equal. unfold dim. by rewrite Hshape.
    + rewrite sum64_small by lia. rewrite <- Hn. apply Z.div_mul. nia.
  - split; [by apply cat_dtype_in|]. eexists. split; [reflexivity|].
    fold (imgs_sizes <$> rest). change (data <$> imgs_sizes first :: (imgs_sizes <$> rest)) with (data <$> (imgs_sizes <$> first :: rest)).
    rewrite Hlen, half_of_double. cbn [concat]. rewrite length_app. lia.
  - intros f Hf. pose proof (parts_frames_positive _ _ Hms) as Hfp.
    unfold joined, item_lengths in Hf, Htile. cbn [num_frames imgs_sizes] in *. cbn [omap list_omap] in Hfp.
    destruct (num_frames first) as [f0|] eqn:Ef0; [|discriminate]. injection Hf as <-.
    destruct (Hfr f0 eq_refl) as (Hfd & _). cbn [cat_frames data] in Htile.
    split_and!; [by apply cat_dtype_in| |done|].
    + eexists. split; [reflexivity|]. intros H0. apply Nat2Z.inj with (m := 0%nat), nil_length_inv in H0.
      rewrite H0 in Htile. cbn [zsum concat] in Htile. rewrite length_app in Htile. lia.
    + unfold cat_frames at 1. cbn [data]. rewrite sum64_small by lia. rewrite Htile.
      transitivity (Z.of_nat (length (concat (data <$> (imgs_sizes <$> first :: rest)))) / 2); [by rewrite Hlen, half_of_double|done].
Qed.

End chain.

(** What [_concat_media] checked about parts that are sound by themselves. *)
Lemma concat_joins first second rest m :
  Forall (fun part => validate_media_tensors (Some (Mapping (as_attachments part))) = Ok (Some part)
                      /\ tensors_ok part /\ few part) (first :: second :: rest) ->
  _concat_media (first :: second :: rest) = Ok m ->
  exists p, 0 < p /\ uniform_frames (first :: second :: rest) /\ m = joined first (second :: rest)
    /\ exists pss, Forall2 (part_ok p) pss (first :: second :: rest).
Proof.
  remember (second :: rest) as others eqn:Eo. intros Hall Hm. pose proof Hall as Hall'.
  apply Forall_cons in Hall' as [[Hv _] _]. apply validate_iff in Hv as (p & ps & Hv).
  assert (Hshape : default 0 (last (shape (imgs first))) = 3 * p * p) by (destruct (vm_patches _ _ _ Hv) as (n & -> & _); done).
  assert (Hc : (_ ← raise_if (existsb (fun part => negb (bool_decide (t_dtype (imgs part) = t_dtype (imgs first)))
                                         || negb (default 0 (last (shape (imgs part))) =? default 0 (last (shape (imgs first))))) others)
            ValueError;
      let present := List.map (fun part => bool_decide (is_Some (num_frames part))) (first :: others) in
      _ ← raise_if (existsb id present && negb (forallb id present)) ValueError;
      Ok (joined first others)) = Ok m) by (subst others; exact Hm). clear Hm Eo.
  apply bind_Ok in Hc as (? & Hd%raise_if_Ok & (? & Hf%raise_if_Ok & [= <-])%bind_Ok).
  exists p. split; [apply (vm_patch _ _ _ Hv)|]. split; [|split; [done|]].
  - unfold uniform_frames. apply andb_false_iff in Hf as [Hf|Hf].
    + left. apply not_true_iff_false in Hf. apply Forall_forall. intros part Hin. destruct (num_frames part) eqn:E; [|done].
      destruct Hf. apply existsb_exists. exists true. split; [|done]. apply in_map_iff. exists part. rewrite E.
      split; [by rewrite bool_decide_true|by apply list_elem_of_In].
    + right. apply negb_false_iff in Hf. rewrite forallb_forall in Hf. apply Forall_forall. intros part Hin.
      apply (bool_decide_unpack _). apply Is_true_true. apply Hf, in_map_iff. exists part. split; [done|by apply list_elem_of_In].
  - assert (Forall (fun part => exists ps, part_ok p ps part) (first :: others)) as Hex.
    { apply Forall_forall. intros part Hin. rewrite Forall_forall in Hall. destruct (Hall part Hin) as (Hvp & Hok & Hfew).
      apply validate_iff in Hvp as (p' & ps' & Hvp). exists ps'. split; [|done].
      assert (p' = p) as ->; [|done]. apply elem_of_cons in Hin as [->|Hin].
      - destruct (vm_patches _ _ _ Hvp) as (n & Hn & _). rewrite Hn in Hshape. cbn in Hshape.
        pose proof (vm_patch _ _ _ Hvp). pose proof (vm_patch _ _ _ Hv). nia.
      - destruct (vm_patches _ _ _ Hvp) as (n & Hn & _). pose proof (vm_patch _ _ _ Hvp). pose proof (vm_patch _ _ _ Hv).
        apply not_true_iff_false in Hd. destruct (Z.eq_dec (3 * p' * p') (3 * p * p)) as [E|E]; [nia|].
        destruct Hd. apply existsb_exists. exists part. split; [by apply list_elem_of_In|].
        rewrite Hshape, Hn. cbn [last default]. apply orb_true_iff. right. apply negb_true_iff, Z.eqb_neq. done. }
    clear - Hex. induction Hex as [|part ms [ps Hps] _ [pss IH]]; [by exists []|]. exists (ps :: pss). by constructor.
Qed.

(** The media of a chain of calls: when the parts are sound and agree on pixel
    type, patch width and on being images or videos, the bundle put together is
    sound again; its patches and its items are those of the calls, in order, so
    the number of items a call is told to skip is the number its predecessors
    staged.  Parts that disagree are refused. *)
Theorem chain_media_is_its_parts ms m :
  Forall (fun part => validate_media_tensors (Some (Mapping (as_attachments part))) = Ok (Some part)
                      /\ tensors_ok part /\ few part) ms ->
  (forall pss, Forall2 (fun part ps => pairs (data (imgs_sizes part)) = Ok ps) ms pss -> zsum (area (concat pss)) < 2 ^ 63) ->
  _concat_media ms = Ok m ->
  validate_media_tensors (Some (Mapping (as_attachments m))) = Ok (Some m)
  /\ data (imgs m) = concat (data <$> (imgs <$> ms))
  /\ exists items, Forall2 (fun part its => item_sizes part = Ok its) ms items /\ item_sizes m = Ok (concat items).
Proof.
  intros Hall Hsmall Hm.
  destruct ms as [|first [|second rest]]; [discriminate| |].
  { injection Hm as ->. apply Forall_singleton in Hall as (Hv & Hok & Hfew). split; [done|]. split; [by cbn; rewrite app_nil_r|].
    apply validate_iff in Hv as (p & ps & Hv). destruct (items_spec p ps m Hv Hok Hfew) as (its & Hits & _).
    exists [its]. split; [by repeat constructor|]. cbn [concat]. by rewrite app_nil_r. }
  remember (second :: rest) as others eqn:Eo.
  assert (exists p, 0 < p /\ uniform_frames (first :: others) /\ m = joined first others
          /\ exists pss, Forall2 (part_ok p) pss (first :: others)) as (p & Hp & Hu & -> & pss & Hpss).
  { subst others. by apply concat_joins. }
  assert (zsum (area (concat pss)) < 2 ^ 63) as Hs.
  { apply Hsmall. clear - Hpss. induction Hpss as [|ps part pss ms [Hv _] _ IH]; constructor; [apply (vm_pairs _ _ _ Hv)|done]. }
  split; [apply validate_iff; eauto using joined_valid|]. split; [done|].
  destruct (parts_items p pss (first :: others) Hpss) as (items & Hits & Hcat & Hlens).
  exists items. split; [done|].
  destruct (joined_tiles p pss first others Hpss Hu) as [Ht1 Ht2].
  destruct (items_of_tiling (concat pss) (joined first others)) as (its & -> & Hc & Hl); [|done..|].
  { rewrite joined_data. by apply (parts_pairs p). }
  f_equal. rewrite (parts_frames p pss (first :: others)) in Hl by (try done; by apply joined_frames).
  eapply cut_unique; [done..|]. congruence.
Qed.

(** C19 A valid bundle splits into items: the shared rule never refuses a bundle the
    validation accepted, the items hold every frame once and in order, none is
    empty, and an image is an item of one frame. *)
Theorem validated_media_splits_into_items m :
  validate_media_tensors (Some (Mapping (as_attachments m))) = Ok (Some m) -> tensors_ok m -> few m ->
  exists items ps, item_sizes m = Ok items /\ pairs (data (imgs_sizes m)) = Ok ps /\ concat items = ps
    /\ Forall (fun item => item <> []) items
    /\ (num_frames m = None -> items = (fun q => [q]) <$> ps).
Proof.
  intros (p & ps & Hv)%validate_iff Hok Hfew. destruct (frames_tile p ps m Hv Hok Hfew) as [Hpos Hsum].
  destruct (items_spec p ps m Hv Hok Hfew) as (items & Hi & Hc & Hl). exists items, ps.
  split_and!; [done|apply (vm_pairs _ _ _ Hv)|done| |].
  - clear - Hpos Hl. induction Hl as [|n item ls items Hn _ IH]; [constructor|]. apply Forall_cons in Hpos as [Hn0 Hpos].
    constructor; [|auto]. intros ->. cbn in Hn. lia.
  - intros Hnone. unfold item_sizes, media_item_sizes in Hi. rewrite (vm_pairs _ _ _ Hv), Hnone in Hi. cbn in Hi. congruence.
Qed.

Module Demo.
Definition pixels (n : Z) (l : list Z) : Tensor := mkTensor BFloat16 [1; n; 3] l.
(** One still of 1x2 patches of one pixel, and then one of 1x1. *)
Definition still : StagedMediaTensors := mkMedia (pixels 2 [1; 2; 3; 4; 5; 6]) (mkTensor Int32 [1; 2] [1; 2]) None.
Definition next : StagedMediaTensors := mkMedia (pixels 1 [7; 8; 9]) (mkTensor Int64 [1; 2] [1; 1]) None.
Definition video : StagedMediaTensors :=
  mkMedia (pixels 3 (replicate 9 0)) (mkTensor Int32 [3; 2] [1; 1; 1; 1; 1; 1]) (Some (mkTensor Int32 [2] [2; 1])).

Example video_items : item_sizes video = Ok [[(1, 1); (1, 1)]; [(1, 1)]].
Proof. reflexivity. Qed.

Example mixed_chain_is_refused : _concat_media [still; video] = Raise ValueError.
Proof. reflexivity. Qed.

Example patches_must_match :
  validate_media_tensors (Some (Mapping (as_attachments (mkMedia (pixels 1 [1; 2; 3]) (mkTensor Int32 [1; 2] [1; 2]) None))))
  = Raise ValueError.
Proof. reflexivity. Qed.

Lemma sound (m : StagedMediaTensors) :
  Z.of_nat (length (data (imgs m))) = numel (imgs m) -> Forall (fun d => 0 <= d) (shape (imgs m)) ->
  Z.of_nat (length (data (imgs_sizes m))) = numel (imgs_sizes m) -> Forall (fun d => 0 <= d) (shape (imgs_sizes m)) ->
  tensors_ok m.
Proof. by repeat split. Qed.

Lemma chain_media_witness :
  exists m, _concat_media [still; next] = Ok m /\ data (imgs m) = [1; 2; 3; 4; 5; 6; 7; 8; 9]
  /\ item_sizes m = Ok [[(1, 2)]; [(1, 1)]].
Proof.
  eexists. split; [reflexivity|].
  assert (Hall : Forall (fun part => validate_media_tensors (Some (Mapping (as_attachments part))) = Ok (Some part)
                      /\ tensors_ok part /\ few part) [still; next]).
  { repeat constructor; try done. }
  destruct (chain_media_is_its_parts [still; next] (joined still [next]) Hall) as (_ & Hd & items & Hi & Hj); [|reflexivity|].
  { intros pss H. inversion_clear H as [|? ? ? ? H1 H2]. inversion_clear H2 as [|? ? ? ? H3 H4]. inversion_clear H4.
    injection H1 as <-. injection H3 as <-. done. }
  split; [exact Hd|]. apply Forall2_cons_inv_l in Hi as (i1 & r1 & H1 & (i2 & r2 & H3 & ->%Forall2_nil_inv_l & ->)%Forall2_cons_inv_l & ->).
  injection H1 as <-. injection H3 as <-. exact Hj.
Defined.

Lemma splits_witness : exists items ps, item_sizes video = Ok items /\ concat items = ps /\ length ps = 3%nat.
Proof.
  destruct (validated_media_splits_into_items video) as (items & ps & H1 & H2 & H3 & _); [reflexivity|by repeat constructor| |].
  { intros f [= <-]. done. }
  exists items, ps. split; [exact H1|]. split; [exact H3|]. injection H2 as <-. reflexivity.
Defined.
End Demo.
