(* ===== verification/Reassembler.v ===== *)
(** * Reassembling one rollout
    ([RolloutReassembler.finalize_rollout], [_resolve_media] and
    [_execute_direct_plan] of [experience/rollout_reassembler.py])

    From the receipt of a captured rollout to one training row, or to the reason
    why there is none.  The receipt, the verification of its chain and the
    staging store are interfaces: [GymCapture] and [TokenSource]; routes go
    through [RouteAssembly], rewards through [Rewards], media through [Media]. *)

From S2P Require Import Prelude.
From S2P Require Import PyVal.
From S2P Require Import Recovery.
From S2P Require Import RoutePlan.
From S2P Require Import RouteAssembly.
From S2P Require Import ForestPlan.
From S2P Require Import Rewards.
From S2P Require Import Media.
#[local] Open Scope string_scope.
#[local] Open Scope Z_scope.

(** ** What the neighbours provide *)

(** The verified row of a chain: its tokens, the spans of its calls, and the
    commitments to the routes they staged. *)
Record LinearRow := mkLinear {
  lin_token_ids : list Z;
  lin_token_mask : list float;
  lin_logprobs : list float;
  lin_prompt_len : Z;
  link_spans : list link_span;
  weight_version_spans : list (string * Z * Z);
  extras_commitments : list (string * (Z * string));
  lin_model_call_ids : list string }.

(** Token capture in [nemo_gym]: receipts, verification, digests. *)
Class GymCapture := {
  Snapshot : Type;
  snapshot_call_id : Snapshot -> string;
  receipt_validate : PyVal -> res RolloutReceipt;
  receipt_build : RolloutReceipt -> res RolloutReceipt;
  receipt_dump : RolloutReceipt -> dict;
  gym_staging_key : PyVal -> string -> res string;
  verify_and_linearize : RolloutReceipt -> list Snapshot -> res LinearRow;
  classify_route_span : Z -> Z -> Z -> res span_mode;
  gym_extras_digest_version : Z;
  compute_extras_digest : dict -> res string;
  sha256 : list Z -> string;
  json_loads : string -> res PyVal }.

Record FetchedStagedCall `{GymCapture} := mkFetched {
  fetched_key : string;
  snapshot : Snapshot;
  routed_len : Z;
  fragment : option RouteFragment;
  media_present : bool;
  media_has_frames : bool;
  sampler_topk : option (Tensor * Tensor) }.

(** The staging store, as one finalization sees it. *)
Class TokenSource `{GymCapture} := {
  fetch_for_finalization : list string -> bool -> bool -> res (list FetchedStagedCall);
  fetch_media : list FetchedStagedCall -> res (list StagedMediaTensors);
  Occurrences : Type;
  verified_media_items : FetchedStagedCall -> res Occurrences;
  verify_media_geometry : Occurrences -> StagedMediaTensors -> res unit }.

(** ** Results *)

Inductive detail := NoDetail | Text (s : string) | Message (e : exc).

(** Why there is no row: the part of the reason before the first colon, and what
    follows it, where [Message] is the text of an exception. *)
Record rejection := mkRejection { reason : string; reason_detail : detail }.
#[export] Instance detail_eq_dec : EqDecision detail.
Proof. solve_decision. Defined.
#[export] Instance rejection_eq_dec : EqDecision rejection.
Proof. solve_decision. Defined.

Record FinalizedRollout := mkFinalized {
  fr_rollout_id : string;
  valid : bool;
  rejection_reason : option rejection;
  token_ids : list Z;
  token_mask : list float;
  logprobs : list float;
  prompt_len : Z;
  fr_reward : float;
  staging_keys : list string;
  min_wv : option Z;
  max_wv : option Z;
  routed_experts : option (list route_row);
  route_plan : option RouteAssemblyPlan;
  model_call_ids : list string;
  media : option TrainerMedia;
  fr_penalty_counts : option penalty_counts;
  reward_metrics : list (string * float);
  topk : option (Tensor * Tensor);
  output_masks : option (list bool * list bool);
  generation_lengths : list Z }.

Definition rejected (rollout_id : string) (reward : float) (r : rejection) (keys : list string) : FinalizedRollout :=
  mkFinalized rollout_id false (Some r) [] [] [] 0 reward keys None None None None [] None None [] None None [].

(** ** Early returns

    A step yields a value, rejects the rollout, or raises. *)
Inductive fin (A : Type) := Got (a : A) | Rejected (r : rejection) | Raised (e : exc).
Arguments Got {A} a.
Arguments Rejected {A} r.
Arguments Raised {A} e.

#[export] Instance fin_ret : MRet fin := fun A a => Got a.
#[export] Instance fin_bind : MBind fin := fun A B f m =>
  match m with Got a => f a | Rejected r => Rejected r | Raised e => Raised e end.

Lemma fin_bind_Got {A B} (m : fin A) (f : A -> fin B) b : m ≫= f = Got b <-> exists a, m = Got a /\ f a = Got b.
Proof. destruct m; cbn; split; [by eauto|by intros (? & [= ->] & ?)|done|by intros (? & ? & ?)|done|by intros (? & ? & ?)]. Qed.

Definition of_res {A} (m : res A) : fin A := match m with Ok a => Got a | Raise e => Raised e end.
(** [try: ... except caught: return rejected(...)]. *)
Definition catching {A} (m : res A) (caught : list exc) (r : exc -> rejection) : fin A :=
  match m with
  | Ok a => Got a
  | Raise e => if bool_decide (e ∈ caught) then Rejected (r e) else Raised e
  end.
Definition reject_if (b : bool) (name : string) (d : detail) : fin unit :=
  if b then Rejected (mkRejection name d) else Got tt.
Definition value_errors : list exc := [TypeError; ValueError].

Lemma of_res_Got {A} (m : res A) a : of_res m = Got a <-> m = Ok a.
Proof. destruct m; cbn; split; intros [=]; subst; done. Qed.
Lemma catching_Got {A} (m : res A) caught r a : catching m caught r = Got a <-> m = Ok a.
Proof. destruct m; cbn; [split; intros [=]; subst; done|]. case_bool_decide; split; discriminate. Qed.
Lemma reject_if_Got b name d u : reject_if b name d = Got u <-> b = false.
Proof. destruct b, u; cbn; split; done. Qed.

(** ** The finalizer *)

Record RolloutReassembler := mkReassembler {
  partition_id : string;
  fin_staging_partition : string;
  pad_token_id : Z;
  max_seq_len : Z;
  reward_penalty_config : option RewardPenaltyConfig;
  effort_config : option EffortLevelsConfig;
  router_replay_enabled : bool;
  defer_routed_experts_to_policy : bool;
  capture_media : bool;
  media_columns : option MediaColumnSpec;
  tokenizer : option (list Z -> string);
  thinking_tags : option (list string);
  top_logprobs : Z }.

(** The checks of the constructor. *)
Definition new_reassembler (s : RolloutReassembler) : res RolloutReassembler :=
  _ ← raise_if (capture_media s && negb (bool_decide (is_Some (media_columns s)))) ValueError;
  _ ← raise_if (defer_routed_experts_to_policy s && negb (router_replay_enabled s)) ValueError;
  Ok s.

Section finalize.
Context `{TokenSource} (self : RolloutReassembler).

(** What the arguments of one call are. *)
Record request := mkRequest {
  forest_training : bool;
  action_flags : option (list ActionOutputFlags);
  loss_excluded_call_ids : gset string;
  reward_checks : option RewardChecks;
  reward_call_id : option string }.

(** *** The receipt *)

Definition manifest_keys (parsed : RolloutReceipt) : list string := record_staging_key <$> manifest parsed.

(** The checks on the receipt; a later rejection keeps the keys the manifest
    names, so that they are cleaned up. *)
Definition check_receipt (rollout_id : string) (parsed : RolloutReceipt) : fin unit :=
  _ ← reject_if (negb (String.eqb (receipt_capture_key parsed) rollout_id)) "identity_mismatch" (Text (receipt_capture_key parsed));
  _ ← match failure_reason parsed with
      | Some why => reject_if true "rollout_failed" (Text why)
      | None => Got tt
      end;
  _ ← reject_if (capture_poisoned parsed) "capture_poisoned" NoDetail;
  _ ← reject_if (negb (bool_decide (NoDup (manifest_keys parsed)))) "duplicate_staging_key" NoDetail;
  reject_if (negb (bool_decide (NoDup (model_call_id <$> manifest parsed)))) "duplicate_manifest_call_id" NoDetail.

(** *** The staged rows *)

Definition fetch_fragments (forest : bool) : bool :=
  (router_replay_enabled self && negb (defer_routed_experts_to_policy self)) || (capture_media self && forest).

Fixpoint match_rows (records : list CallRecord) (fetched : list FetchedStagedCall) : fin (list (string * FetchedStagedCall)) :=
  match records, fetched with
  | record :: records, item :: fetched =>
      _ ← reject_if (negb (String.eqb (fetched_key item) (record_staging_key record))) "staging_key_mismatch" (Text (model_call_id record));
      _ ← reject_if (negb (String.eqb (snapshot_call_id (snapshot item)) (model_call_id record))) "call_id_mismatch" (Text (model_call_id record));
      rest ← match_rows records fetched;
      Got ((model_call_id record, item) :: rest)
  | _, _ => Got []
  end.

Definition read_rows (forest : bool) (parsed : RolloutReceipt)
  : fin (list FetchedStagedCall * list (string * FetchedStagedCall)) :=
  fetched ← match fetch_for_finalization (manifest_keys parsed) (fetch_fragments forest) (0 <? top_logprobs self) with
            | Ok fetched => Got fetched
            | Raise KeyError => Rejected (mkRejection "missing_staging_row" (Message KeyError))
            | Raise TypeError => Rejected (mkRejection "invalid_staging_row" (Message TypeError))
            | Raise ValueError => Rejected (mkRejection "invalid_staging_row" (Message ValueError))
            | Raise e => Raised e
            end;
  by_call ← match_rows (manifest parsed) fetched;
  _ ← reject_if (negb (length by_call =? length fetched)%nat) "duplicate_fetched_call_id" NoDetail;
  Got (fetched, by_call).

Definition rebuild_errors : list exc := [KeyError; ValueError; TypeError; RebuildError; NotImplementedError].

(** *** The reward *)

(** [reward_spans[: call_ids.index(reward_call_id) + 1]]. *)
Definition spans_until (call : string) (spans : list link_span) : option (list link_span) :=
  '(i, _) ← list_find (fun s : link_span => s.1.1 = call) spans; Some (take (S i) spans).

Definition reward_of (req : request) (reward : float) (row : LinearRow)
  : fin (float * option penalty_counts * list (string * float)) :=
  if forest_training req && bool_decide (reward_call_id req = None) then Got (reward, None, [])
  else
    spans ← match reward_call_id req with
            | None => Got (link_spans row)
            | Some call => match spans_until call (link_spans row) with
                           | Some spans => Got spans
                           | None => Rejected (mkRejection "reward_call_missing" NoDetail)
                           end
            end;
    '(r, counts, metrics) ← catching (finalize_capture_reward reward (reward_checks req) (reward_penalty_config self)
                                        (effort_config self) (lin_token_ids row) spans (tokenizer self) (thinking_tags self))
                              [ValueError] (fun e => mkRejection "reward_processing" (Message e));
    Got (r, Some counts, metrics).

(** *** Media *)

Definition media_errors : list exc := [KeyError; TypeError; ValueError].

(** The calls of the chain that carry media, with the items their evidence names
    where it is to be verified. *)
Fixpoint media_items (verify : bool) (by_call : list (string * FetchedStagedCall)) (spans : list link_span)
  : fin (list FetchedStagedCall * list Occurrences) :=
  match spans with
  | [] => Got ([], [])
  | (call_id, _, _) :: rest =>
      match kv_get call_id by_call with
      | None => Rejected (mkRejection "media_chain_identity" (Text call_id))
      | Some item =>
          occ ← (if verify then
                   o ← catching (verified_media_items item) media_errors (fun e => mkRejection "invalid_media_evidence" (Message e));
                   Got (if media_present item then [o] else [])
                 else Got []);
          '(items, descriptors) ← media_items verify by_call rest;
          Got ((if media_present item then item :: items else items), (occ ++ descriptors)%list)
      end
  end.

(** [for occurrences, part in zip(descriptors, parts, strict=True)]. *)
Fixpoint verify_parts (descriptors : list Occurrences) (parts : list StagedMediaTensors) : res unit :=
  match descriptors, parts with
  | [], [] => Ok tt
  | o :: descriptors, part :: parts => _ ← verify_media_geometry o part; verify_parts descriptors parts
  | _, _ => Raise ValueError
  end.

Definition _resolve_media (row : LinearRow) (by_call : list (string * FetchedStagedCall)) (verify : bool)
  : fin (option TrainerMedia) :=
  if negb (capture_media self) then Got None
  else
    '(items, descriptors) ← media_items verify by_call (link_spans row);
    match items with
    | [] => Got None
    | first :: _ =>
        _ ← reject_if (existsb (fun item => negb (Bool.eqb (media_has_frames item) (media_has_frames first))) items)
              "media_chain_incompatible" (Text "mixed image and video calls");
        parts ← catching (parts ← fetch_media items;
                          _ ← (if verify then verify_parts descriptors parts else Ok tt);
                          Ok parts)
                  media_errors (fun e => mkRejection "invalid_media_columns" (Message e));
        media ← catching (combined ← _concat_media parts; _trainer_media combined)
                  [TypeError; ValueError; RuntimeError] (fun e => mkRejection "media_chain_incompatible" (Message e));
        Got (Some media)
    end.

(** *** The sampler's top-k *)

Definition zeros (rows k : Z) (t : dtype) : Tensor := mkTensor t [rows; k] (replicate (Z.to_nat (rows * k)) 0).
(** [torch.cat] of [[n, k]] tensors; no tensors at all is an error. *)
Definition cat_rows (parts : list Tensor) : res Tensor :=
  match parts with
  | [] => Raise RuntimeError
  | first :: _ => Ok (mkTensor (t_dtype first) [zsum ((fun t => dim t 0) <$> parts); dim first 1] (concat (data <$> parts)))
  end.

Fixpoint topk_parts (by_call : list (string * FetchedStagedCall)) (spans : list link_span)
  : fin (list Tensor * list Tensor) :=
  match spans with
  | [] => Got ([], [])
  | (call_id, carry_len, generation_len) :: rest =>
      item ← of_res (match kv_get call_id by_call with Some item => Ok item | None => Raise KeyError end);
      '(ids, lps) ← of_res (match sampler_topk item with Some p => Ok p | None => Raise AssertionError end);
      _ ← reject_if (negb (bool_decide (shape ids = [generation_len; top_logprobs self]))
                     || negb (bool_decide (shape lps = [generation_len; top_logprobs self]))) "topk_length_mismatch" (Text call_id);
      _ ← of_res (raise_if (carry_len <? 0) RuntimeError);
      '(ids_parts, lp_parts) ← topk_parts by_call rest;
      Got (zeros carry_len (top_logprobs self) Int32 :: ids :: ids_parts,
           zeros carry_len (top_logprobs self) Float32 :: lps :: lp_parts)
  end.

Definition sampler_topk_of (row : LinearRow) (by_call : list (string * FetchedStagedCall)) : fin (option (Tensor * Tensor)) :=
  if negb (0 <? top_logprobs self) then Got None
  else
    '(ids_parts, lp_parts) ← topk_parts by_call (link_spans row);
    ids ← of_res (cat_rows ids_parts);
    lps ← of_res (cat_rows lp_parts);
    Got (Some (ids, lps)).

(** *** Routes *)

(** [{commitment.model_call_id: commitment for ...}[call_id]]: the last one. *)
Definition commitment_of (row : LinearRow) (call_id : string) : option (Z * string) :=
  kv_get call_id (reverse (extras_commitments row)).

Definition route_span (forest : bool) (by_call : list (string * FetchedStagedCall)) (parsed : RolloutReceipt)
  (row : LinearRow) (s : link_span) : fin RouteSpan :=
  let '(call_id, carry, generation) := s in
  match find_call call_id (manifest parsed), kv_get call_id by_call, commitment_of row call_id with
  | Some record, Some item, Some (version, digest) =>
      let expected_routed_len := delta_len record + boundary_route_rows (prev_len record) in
      _ ← reject_if (forest && (routed_len item =? 0)) "route_assembly" (Text ROUTE_FAILURE_MISSING_FRAGMENT);
      _ ← reject_if (negb ((routed_len item =? 0) || (routed_len item =? expected_routed_len))) "routed_len_mismatch" (Text call_id);
      _ ← reject_if ((generation <? 0) || (delta_len record <? generation)) "route_generation_span_mismatch" (Text call_id);
      _ ← reject_if (carry <? 0) "route_carry_span_mismatch" (Text call_id);
      Got (mkSpan (record_staging_key record) carry generation (routed_len item) version digest
             (if routed_len item =? 0 then 0 else boundary_route_rows (prev_len record)))
  | _, _, _ => Rejected (mkRejection "route_span_identity" (Text call_id))
  end.

Fixpoint route_spans (forest : bool) (by_call : list (string * FetchedStagedCall)) (parsed : RolloutReceipt)
  (row : LinearRow) (seen : list string) (l : list link_span) : fin (list RouteSpan) :=
  match l with
  | [] => Got []
  | s :: rest =>
      _ ← reject_if (bool_decide (s.1.1 ∈ seen)) "duplicate_route_span" (Text s.1.1);
      span ← route_span forest by_call parsed row s;
      spans ← route_spans forest by_call parsed row (s.1.1 :: seen) rest;
      Got (span :: spans)
  end.

Definition build_route_plan (forest : bool) (by_call : list (string * FetchedStagedCall)) (parsed : RolloutReceipt)
  (row : LinearRow) : fin RouteAssemblyPlan :=
  spans ← route_spans forest by_call parsed row [] (link_spans row);
  let n := Z.of_nat (length (lin_token_ids row)) in
  _ ← reject_if (negb (contribution spans =? n)) "route_span_length_mismatch" NoDetail;
  let plan := mkPlan ROUTE_PLAN_SCHEMA_VERSION (fin_staging_partition self) spans (manifest_keys parsed) n in
  _ ← catching (validate_plan plan) value_errors (fun e => mkRejection "invalid_route_plan" (Message e));
  Got plan.

(** [self._routed_dims]: the layers and experts per layer learned so far. *)
Abbreviation dims := (option (Z * Z)) (only parsing).

Definition fragments_of (fetched : list FetchedStagedCall) : gmap string RouteFragment :=
  foldl (fun m item => match fragment item with Some f => <[fetched_key item := f]> m | None => m end) ∅ fetched.

(** Learn the dimensions from the first fragment. *)
Definition learn_dims (routed_dims : dims) (fetched : list FetchedStagedCall) : fin dims :=
  match omap fragment fetched with
  | [] => Got routed_dims
  | first :: _ =>
      match routes first with
      | Routes _ layers k _ => Got (Some (layers, k))
      | OtherRank _ _ => Rejected (mkRejection "route_assembly" (Text ROUTE_FAILURE_RANK))
      end
  end.

(** The state, and the tensor or why there is none. *)
Definition _execute_direct_plan (routed_dims : dims) (plan : RouteAssemblyPlan) (fetched : list FetchedStagedCall)
  : dims * fin (option (list route_row)) :=
  if negb (existsb (fun span => 0 <? staged_route_len span) (spans plan)) then (routed_dims, Got None)
  else
    match learn_dims routed_dims fetched with
    | Raised e => (routed_dims, Raised e)
    | Rejected r => (routed_dims, Rejected r)
    | Got None => (None, Rejected (mkRejection "route_assembly" (Text ROUTE_FAILURE_MISSING_FRAGMENT)))
    | Got (Some (layers, k)) =>
        (Some (layers, k),
         layout ← of_res (compressed layers k);
         assembled ← of_res (execute_route_plan sha256 json_loads gym_extras_digest_version compute_extras_digest
                               classify_route_span plan (fragments_of fetched) layout (expected_token_length plan));
         match assembled with
         | Assembled rows => Got (Some rows)
         | Unassembled why => Rejected (mkRejection "route_assembly" (Text why))
         end)
    end.

Definition routes_of (routed_dims : dims) (forest : bool) (fetched : list FetchedStagedCall)
  (by_call : list (string * FetchedStagedCall)) (parsed : RolloutReceipt) (row : LinearRow)
  : dims * fin (option RouteAssemblyPlan * option (list route_row)) :=
  if negb (router_replay_enabled self) then (routed_dims, Got (None, None))
  else
    match build_route_plan forest by_call parsed row with
    | Raised e => (routed_dims, Raised e)
    | Rejected r => (routed_dims, Rejected r)
    | Got plan =>
        if defer_routed_experts_to_policy self then (routed_dims, Got (Some plan, None))
        else let '(routed_dims, r) := _execute_direct_plan routed_dims plan fetched in
             (routed_dims, tensor ← r; Got (Some plan, tensor))
    end.

(** *** Loss and output masks *)

(** [l[a:b] = vals] on a list. *)
Definition list_assign {A} (a b : Z) (vals l : list A) : list A :=
  let lo := py_bound (length l) a in
  let hi := Nat.max lo (py_bound (length l) b) in
  (take lo l ++ vals ++ drop hi l)%list.

Fixpoint exclude_loss (excluded : gset string) (spans : list (string * Z * Z)) (mask : list float) : list float :=
  match spans with
  | [] => mask
  | (call_id, start, end_) :: rest =>
      exclude_loss excluded rest
        (if bool_decide (call_id ∈ excluded) then list_assign start end_ (replicate (Z.to_nat (end_ - start)) f0) mask else mask)
  end.

Fixpoint mark_flags (excluded : gset string) (position : Z) (flags : list ActionOutputFlags) (spans : list link_span)
  (masks : list bool * list bool) : list bool * list bool :=
  match flags, spans with
  | f :: flags, (call_id, carry, generation) :: spans =>
      let start := position + carry in
      let end_ := start + generation in
      let owned := negb (bool_decide (call_id ∈ excluded)) in
      mark_flags excluded end_ flags spans
        (list_assign start end_ (replicate (Z.to_nat generation) (invalid_tool_call f && owned)) masks.1,
         list_assign start end_ (replicate (Z.to_nat generation) (malformed_thinking f && owned)) masks.2)
  | _, _ => masks
  end.

Definition output_masks_of (req : request) (row : LinearRow) : fin (option (list bool * list bool)) :=
  match action_flags req with
  | None => Got None
  | Some flags =>
      _ ← reject_if (negb (length flags =? length (link_spans row))%nat) "action_flags_mismatch" NoDetail;
      let blank := replicate (length (lin_token_ids row)) false in
      Got (Some (mark_flags (loss_excluded_call_ids req) 0 flags (link_spans row) (blank, blank)))
  end.

Definition owned_lengths (excluded : gset string) (spans : list link_span) : list Z :=
  (fun s : link_span => s.2) <$> List.filter (fun s : link_span => negb (bool_decide (s.1.1 ∈ excluded))) spans.

(** [min(xs)] and [max(xs)]. *)
Definition zmin (l : list Z) : res Z := match l with [] => Raise ValueError | x :: l => Ok (foldl Z.min x l) end.
Definition zmax (l : list Z) : res Z := match l with [] => Raise ValueError | x :: l => Ok (foldl Z.max x l) end.

(** *** [finalize_rollout] *)

(** Everything before the routes. *)
Record prepared := mkPrepared {
  p_fetched : list FetchedStagedCall;
  p_by_call : list (string * FetchedStagedCall);
  p_row : LinearRow;
  p_reward : float;
  p_counts : option penalty_counts;
  p_metrics : list (string * float);
  p_min : Z;
  p_max : Z;
  p_media : option TrainerMedia;
  p_topk : option (Tensor * Tensor) }.

Definition prepare (rollout_id : string) (parsed : RolloutReceipt) (reward : float) (req : request) : fin prepared :=
  _ ← check_receipt rollout_id parsed;
  '(fetched, by_call) ← read_rows (forest_training req) parsed;
  row ← catching (verify_and_linearize parsed (snapshot <$> fetched)) rebuild_errors (fun e => mkRejection "rebuild_failed" (Message e));
  '(r, counts, metrics) ← reward_of req reward row;
  lo ← of_res (zmin (weight_version <$> manifest parsed));
  hi ← of_res (zmax (weight_version <$> manifest parsed));
  media ← _resolve_media row by_call (forest_training req);
  tk ← sampler_topk_of row by_call;
  Got (mkPrepared fetched by_call row r counts metrics lo hi media tk).

(** The reward a rejection keeps: the shaped one once it is computed. *)
Definition rejected_reward (rollout_id : string) (parsed : RolloutReceipt) (reward : float) (req : request) : float :=
  match (_ ← check_receipt rollout_id parsed;
         '(fetched, _) ← read_rows (forest_training req) parsed;
         row ← of_res (verify_and_linearize parsed (snapshot <$> fetched));
         reward_of req reward row) with
  | Got (r, _, _) => r
  | _ => reward
  end.

Definition finish (rollout_id : string) (parsed : RolloutReceipt) (req : request) (p : prepared)
  (routes : option RouteAssemblyPlan * option (list route_row)) : fin FinalizedRollout :=
  let row := p_row p in
  masks ← output_masks_of req row;
  Got (mkFinalized rollout_id true None (lin_token_ids row)
         (exclude_loss (loss_excluded_call_ids req) (weight_version_spans row) (lin_token_mask row))
         (lin_logprobs row) (lin_prompt_len row) (p_reward p) (manifest_keys parsed) (Some (p_min p)) (Some (p_max p))
         routes.2 routes.1 (lin_model_call_ids row) (p_media p) (p_counts p) (p_metrics p) (p_topk p) masks
         (owned_lengths (loss_excluded_call_ids req) (link_spans row))).

Definition finalize_parsed (routed_dims : dims) (rollout_id : string) (parsed : RolloutReceipt) (reward : float)
  (req : request) : dims * fin FinalizedRollout :=
  match prepare rollout_id parsed reward req with
  | Raised e => (routed_dims, Raised e)
  | Rejected r => (routed_dims, Rejected r)
  | Got p =>
      let '(routed_dims, r) := routes_of routed_dims (forest_training req) (p_fetched p) (p_by_call p) parsed (p_row p) in
      (routed_dims, routes ← r; finish rollout_id parsed req p routes)
  end.

(** The keys of a rejected rollout: those of the manifest, each once where they
    repeat. *)
Definition cleanup_keys (parsed : RolloutReceipt) : list string := fromkeys [] (manifest_keys parsed).

Definition finalize_rollout (routed_dims : dims) (rollout_id : string) (receipt : option dict) (reward : float)
  (req : request) : dims * res FinalizedRollout :=
  match receipt with
  | None => (routed_dims, Ok (rejected rollout_id reward (mkRejection "missing_receipt" NoDetail) []))
  | Some d =>
      match receipt_validate (VDict d) with
      | Raise e =>
          (routed_dims,
           if bool_decide (e ∈ value_errors) then Ok (rejected rollout_id reward (mkRejection "invalid_receipt" (Message e)) [])
           else Raise e)
      | Ok parsed =>
          let '(routed_dims, r) := finalize_parsed routed_dims rollout_id parsed reward req in
          (routed_dims,
           match r with
           | Got row => Ok row
           | Rejected why =>
               Ok (rejected rollout_id (rejected_reward rollout_id parsed reward req) why
                     (if String.eqb (reason why) "duplicate_staging_key" then cleanup_keys parsed else manifest_keys parsed))
           | Raised e => Raise e
           end)
      end
  end.
End finalize.

(** ** Slices assigned within a list *)

Lemma list_assign_within {A} (a b : nat) (vals l : list A) :
  (a <= b <= length l)%nat -> length vals = (b - a)%nat ->
  list_assign (Z.of_nat a) (Z.of_nat b) vals l = (take a l ++ vals ++ drop b l)%list.
Proof.
  intros Hab Hv. unfold list_assign. rewrite !py_bound_nat by lia. by replace (Nat.max a b) with b by lia.
Qed.

Lemma list_assign_lookup {A} (a b : nat) (vals l : list A) i :
  (a <= b <= length l)%nat -> length vals = (b - a)%nat ->
  list_assign (Z.of_nat a) (Z.of_nat b) vals l !! i = if decide (a <= i < b)%nat then vals !! (i - a)%nat else l !! i.
Proof.
  intros Hab Hv. rewrite list_assign_within by done.
  destruct (decide (i < a)%nat) as [Hi|Hi].
  - rewrite lookup_app_l by (rewrite length_take; lia). rewrite lookup_take_lt by done. by rewrite decide_False by lia.
  - rewrite lookup_app_r by (rewrite length_take; lia). rewrite length_take_le by lia.
    destruct (decide (i < b)%nat) as [Hb|Hb].
    + rewrite decide_True by lia. by rewrite lookup_app_l by lia.
    + rewrite decide_False by lia. rewrite lookup_app_r by lia. rewrite lookup_drop. f_equal. lia.
Qed.

Lemma list_assign_length {A} (a b : nat) (vals l : list A) :
  (a <= b <= length l)%nat -> length vals = (b - a)%nat -> length (list_assign (Z.of_nat a) (Z.of_nat b) vals l) = length l.
Proof. intros Hab Hv. rewrite list_assign_within by done. rewrite !length_app, length_take, length_drop. lia. Qed.

(** The tokens of the spans of excluded calls. *)
Definition in_excluded (excluded : gset string) (spans : list (string * Z * Z)) (i : nat) : bool :=
  existsb (fun s : string * Z * Z => bool_decide (s.1.1 ∈ excluded) && (s.1.2 <=? Z.of_nat i) && (Z.of_nat i <? s.2)) spans.
(** The spans lie within a row of [n] tokens. *)
Definition spans_within (n : nat) (spans : list (string * Z * Z)) : Prop :=
  Forall (fun s : string * Z * Z => 0 <= s.1.2 <= s.2 /\ s.2 <= Z.of_nat n) spans.

Lemma exclude_loss_spec excluded spans : forall mask,
  spans_within (length mask) spans ->
  length (exclude_loss excluded spans mask) = length mask
  /\ forall i, (i < length mask)%nat ->
     exclude_loss excluded spans mask !! i = if in_excluded excluded spans i then Some f0 else mask !! i.
Proof.
  induction spans as [|[[c a] b] spans IH]; intros mask Hw; [done|].
  apply Forall_cons in Hw as [[Hab Hb] Hw]. cbn [fst snd] in *.
  set (mask' := if bool_decide (c ∈ excluded) then list_assign a b (replicate (Z.to_nat (b - a)) f0) mask else mask).
  assert (Hm : length mask' = length mask /\ forall i, (i < length mask)%nat ->
            mask' !! i = if bool_decide (c ∈ excluded) && (a <=? Z.of_nat i) && (Z.of_nat i <? b) then Some f0 else mask !! i).
  { subst mask'. case_bool_decide; [|done]. cbn [andb].
    destruct (Z_of_nat_complete a) as [a' ->]; [lia|]. destruct (Z_of_nat_complete b) as [b' ->]; [lia|].
    assert (Hlen : length (replicate (Z.to_nat (Z.of_nat b' - Z.of_nat a')) f0) = (b' - a')%nat)
      by (rewrite length_replicate; lia).
    split; [apply list_assign_length; [lia|done]|]. intros i Hi. rewrite list_assign_lookup by (done || lia).
    destruct (decide _) as [Hd|Hd].
    - rewrite lookup_replicate_2 by lia. by rewrite (proj2 (andb_true_iff _ _)) by lia.
    - by rewrite (proj2 (andb_false_iff _ _)) by lia. }
  destruct Hm as [Hlen Hlook]. destruct (IH mask') as [IH1 IH2]; [by rewrite Hlen|].
  cbn [exclude_loss]. fold mask'. split; [congruence|]. intros i Hi. rewrite IH2 by lia. unfold in_excluded. cbn [existsb fst snd].
  destruct (existsb _ spans) eqn:E; [by rewrite orb_true_r|]. rewrite orb_false_r. by apply Hlook.
Qed.

(** The call whose generated tokens hold position [i], counting from [position]. *)
Fixpoint generator (position : nat) (spans : list link_span) (i : nat) : option nat :=
  match spans with
  | [] => None
  | (_, carry, generation) :: rest =>
      let start := (position + Z.to_nat carry)%nat in
      let end_ := (start + Z.to_nat generation)%nat in
      if decide (start <= i < end_)%nat then Some 0%nat else S <$> generator end_ rest i
  end.
(** Spans that fit into [n] tokens from [position] on. *)
Definition links_fit (n position : nat) (spans : list link_span) : Prop :=
  Forall (fun s : link_span => 0 <= s.1.2 /\ 0 <= s.2) spans
  /\ Z.of_nat position + zsum ((fun s : link_span => s.1.2 + s.2) <$> spans) <= Z.of_nat n.

Definition flag_at (excluded : gset string) (flag : ActionOutputFlags -> bool) (flags : list ActionOutputFlags)
  (spans : list link_span) (j : nat) : bool :=
  match flags !! j, spans !! j with
  | Some f, Some s => flag f && negb (bool_decide (s.1.1 ∈ excluded))
  | _, _ => false
  end.

Lemma mark_flags_spec excluded flags : forall spans position masks n,
  length flags = length spans -> length masks.1 = n -> length masks.2 = n -> links_fit n position spans ->
  let r := mark_flags excluded (Z.of_nat position) flags spans masks in
  length r.1 = n /\ length r.2 = n /\ forall i, (i < n)%nat ->
    r.1 !! i = (match generator position spans i with Some j => Some (flag_at excluded invalid_tool_call flags spans j) | None => masks.1 !! i end)
    /\ r.2 !! i = (match generator position spans i with Some j => Some (flag_at excluded malformed_thinking flags spans j) | None => masks.2 !! i end).
Proof.
  induction flags as [|f flags IH]; intros [|[[c carry] gen] spans] position masks n Hl H1 H2 [Hnn Hfit]; try discriminate; [done|].
  apply Forall_cons in Hnn as [[Hc Hg] Hnn]. rewrite fmap_cons in Hfit. cbn [fst snd zsum] in *.
  assert (0 <= zsum ((fun s : link_span => s.1.2 + s.2) <$> spans)) as Hrest.
  { apply zsum_nonneg. rewrite Forall_fmap. eapply Forall_impl; [done|]. cbn. lia. }
  set (start := (position + Z.to_nat carry)%nat). set (end_ := (start + Z.to_nat gen)%nat).
  assert (Hstart : Z.of_nat position + carry = Z.of_nat start) by lia.
  assert (Hend : Z.of_nat start + gen = Z.of_nat end_) by lia.
  cbn [mark_flags]. rewrite Hstart, Hend.
  set (v1 := replicate (Z.to_nat gen) (invalid_tool_call f && negb (bool_decide (c ∈ excluded)))).
  set (v2 := replicate (Z.to_nat gen) (malformed_thinking f && negb (bool_decide (c ∈ excluded)))).
  assert (length v1 = (end_ - start)%nat) as Hv1 by (unfold v1; rewrite length_replicate; lia).
  assert (length v2 = (end_ - start)%nat) as Hv2 by (unfold v2; rewrite length_replicate; lia).
  destruct (IH spans end_ (list_assign (Z.of_nat start) (Z.of_nat end_) v1 masks.1, list_assign (Z.of_nat start) (Z.of_nat end_) v2 masks.2) n)
    as (IH1 & IH2 & IH3); cbn [fst snd]; try (rewrite list_assign_length; [done|lia|done]); [cbn in Hl; lia|by split; [|lia]|].
  split; [done|]. split; [done|]. intros i Hi. destruct (IH3 i Hi) as [-> ->]. cbn [fst snd generator].
  fold start end_. rewrite !list_assign_lookup by (done || lia).
  destruct (decide (start <= i < end_)%nat) as [Hd|Hd].
  - assert (generator end_ spans i = None) as ->.
    { assert (Hlt : (i < end_)%nat) by lia. clear - Hlt Hnn. revert Hlt. generalize end_. induction Hnn as [|[[c' carry'] gen'] spans [? ?] _ IH]; intros e Hlt; [done|].
      cbn [generator]. rewrite decide_False by lia. rewrite IH; [done|lia]. }
    unfold flag_at, v1, v2. cbn. rewrite !lookup_replicate_2 by lia. done.
  - destruct (generator end_ spans i); done.
Qed.

(** ** What a row is *)

Section theorems.
Context `{TokenSource} (self : RolloutReassembler).

(** A receipt the finalizer accepts. *)
Record sound_receipt (rollout_id : string) (parsed : RolloutReceipt) : Prop := {
  sr_identity : receipt_capture_key parsed = rollout_id;
  sr_completed : failure_reason parsed = None /\ capture_poisoned parsed = false;
  sr_keys : NoDup (manifest_keys parsed);
  sr_calls : NoDup (model_call_id <$> manifest parsed) }.

Lemma check_receipt_Got rollout_id parsed u : check_receipt rollout_id parsed = Got u <-> sound_receipt rollout_id parsed.
Proof.
  unfold check_receipt. split.
  - intros (? & Hid%reject_if_Got & (? & Hf & (? & Hp%reject_if_Got & (? & Hk%reject_if_Got & Hc%reject_if_Got)%fin_bind_Got)%fin_bind_Got)%fin_bind_Got)%fin_bind_Got.
    apply negb_false_iff in Hid, Hk, Hc. apply bool_decide_eq_true in Hk, Hc. apply String.eqb_eq in Hid.
    destruct (failure_reason parsed) eqn:E; [done|]. by constructor.
  - intros [<- [Hf Hp] Hk Hc]. rewrite String.eqb_refl, Hf, Hp, !bool_decide_true by done. by destruct u.
Qed.

(** The fetched rows are those of the manifest, call by call. *)
Definition rows_match (records : list CallRecord) (fetched : list FetchedStagedCall) : Prop :=
  Forall2 (fun record item => fetched_key item = record_staging_key record /\ snapshot_call_id (snapshot item) = model_call_id record)
    (take (length fetched) records) fetched.

Lemma match_rows_Got records : forall fetched by_call,
  match_rows records fetched = Got by_call -> length by_call = length fetched ->
  rows_match records fetched /\ by_call = zip (model_call_id <$> records) fetched.
Proof.
  induction records as [|record records IH]; intros [|item fetched] by_call; cbn [match_rows].
  - intros [= <-] _. by split; [constructor|].
  - by intros [= <-].
  - intros [= <-] _. by split; [constructor|].
  - intros (? & Hk%reject_if_Got & (? & Hc%reject_if_Got & (rest & Hr & [= <-])%fin_bind_Got)%fin_bind_Got)%fin_bind_Got Hl.
    apply negb_false_iff in Hk, Hc. apply String.eqb_eq in Hk, Hc.
    destruct (IH fetched rest Hr) as [IH1 ->]; [by injection Hl|]. split; [by constructor|done].
Qed.

Lemma read_rows_Got forest parsed fetched by_call :
  read_rows self forest parsed = Got (fetched, by_call) ->
  fetch_for_finalization (manifest_keys parsed) (fetch_fragments self forest) (0 <? top_logprobs self) = Ok fetched
  /\ rows_match (manifest parsed) fetched /\ by_call = zip (model_call_id <$> manifest parsed) fetched.
Proof.
  unfold read_rows. intros (fetched' & Hf & (by_call' & Hm & (? & Hl%reject_if_Got & [= <- <-])%fin_bind_Got)%fin_bind_Got)%fin_bind_Got.
  apply negb_false_iff, Nat.eqb_eq in Hl. split; [|by apply match_rows_Got].
  destruct (fetch_for_finalization _ _ _) as [|[]]; try discriminate. by injection Hf as <-.
Qed.

Lemma zmin_spec l m : zmin l = Ok m -> m ∈ l /\ Forall (fun x => m <= x) l.
Proof.
  destruct l as [|x l]; [discriminate|]. cbn. intros [= <-].
  assert (Hg : forall l x, (foldl Z.min x l = x \/ foldl Z.min x l ∈ l) /\ foldl Z.min x l <= x /\ Forall (fun y => foldl Z.min x l <= y) l).
  { clear. induction l as [|y l IH]; intros x; cbn [foldl]; [repeat split; [by left|lia|constructor]|].
    destruct (IH (Z.min x y)) as (H1 & H2 & H3). split; [|split; [lia|constructor; [lia|done]]].
    destruct H1 as [->|H1]; [|right; by right]. destruct (Z.min_spec x y) as [[_ ->]|[_ ->]]; [by left|right; by left]. }
  destruct (Hg l x) as (H1 & H2 & H3). split; [|by constructor]. destruct H1 as [->|H1]; [by left|by right].
Qed.

Lemma zmax_spec l m : zmax l = Ok m -> m ∈ l /\ Forall (fun x => x <= m) l.
Proof.
  destruct l as [|x l]; [discriminate|]. cbn. intros [= <-].
  assert (Hg : forall l x, (foldl Z.max x l = x \/ foldl Z.max x l ∈ l) /\ x <= foldl Z.max x l /\ Forall (fun y => y <= foldl Z.max x l) l).
  { clear. induction l as [|y l IH]; intros x; cbn [foldl]; [repeat split; [by left|lia|constructor]|].
    destruct (IH (Z.max x y)) as (H1 & H2 & H3). split; [|split; [lia|constructor; [lia|done]]].
    destruct H1 as [->|H1]; [|right; by right]. destruct (Z.max_spec x y) as [[_ ->]|[_ ->]]; [right; by left|by left]. }
  destruct (Hg l x) as (H1 & H2 & H3). split; [|by constructor]. destruct H1 as [->|H1]; [by left|by right].
Qed.

(** The parts of a finished row. *)
Lemma finalize_parsed_Got dims rollout_id parsed reward req dims' row :
  finalize_parsed self dims rollout_id parsed reward req = (dims', Got row) ->
  exists p routes, prepare self rollout_id parsed reward req = Got p
    /\ routes_of self dims (forest_training req) (p_fetched p) (p_by_call p) parsed (p_row p) = (dims', Got routes)
    /\ finish rollout_id parsed req p routes = Got row.
Proof.
  unfold finalize_parsed. destruct (prepare _ _ _ _ _) as [p| |] eqn:Ep; [|discriminate..].
  destruct (routes_of _ _ _ _ _ _ _) as [d r] eqn:Er. intros [= -> Hr].
  change (r ≫= (fun routes => finish rollout_id parsed req p routes) = Got row) in Hr.
  apply fin_bind_Got in Hr as (routes & -> & Hfin). by exists p, routes.
Qed.

(** *** The verified row *)

Lemma prepare_Got rollout_id parsed reward req p :
  prepare self rollout_id parsed reward req = Got p ->
  sound_receipt rollout_id parsed
  /\ fetch_for_finalization (manifest_keys parsed) (fetch_fragments self (forest_training req)) (0 <? top_logprobs self) = Ok (p_fetched p)
  /\ rows_match (manifest parsed) (p_fetched p)
  /\ p_by_call p = zip (model_call_id <$> manifest parsed) (p_fetched p)
  /\ verify_and_linearize parsed (snapshot <$> p_fetched p) = Ok (p_row p)
  /\ reward_of self req reward (p_row p) = Got (p_reward p, p_counts p, p_metrics p)
  /\ zmin (weight_version <$> manifest parsed) = Ok (p_min p) /\ zmax (weight_version <$> manifest parsed) = Ok (p_max p)
  /\ _resolve_media self (p_row p) (p_by_call p) (forest_training req) = Got (p_media p)
  /\ sampler_topk_of self (p_row p) (p_by_call p) = Got (p_topk p).
Proof.
  intros (? & Hc%check_receipt_Got & ([fetched by_call] & Hr%read_rows_Got & (row & Hv%catching_Got & ([[r counts] metrics] & Hrw & (lo & Hlo%of_res_Got &
    (hi & Hhi%of_res_Got & (media & Hm & (tk & Htk & [= <-])%fin_bind_Got)%fin_bind_Got)%fin_bind_Got)%fin_bind_Got)%fin_bind_Got)%fin_bind_Got)%fin_bind_Got)%fin_bind_Got.
  destruct Hr as (Hf & Hrows & ->). split_and!; done.
Qed.

(** Where a valid row comes from. *)
Lemma valid_row_parts dims rollout_id receipt reward req dims' row :
  finalize_rollout self dims rollout_id receipt reward req = (dims', Ok row) -> valid row = true ->
  exists d parsed p routes, receipt = Some d /\ receipt_validate (VDict d) = Ok parsed
    /\ prepare self rollout_id parsed reward req = Got p
    /\ routes_of self dims (forest_training req) (p_fetched p) (p_by_call p) parsed (p_row p) = (dims', Got routes)
    /\ finish rollout_id parsed req p routes = Got row.
Proof.
  intros Hf Hvalid. unfold finalize_rollout in Hf. destruct receipt as [d|]; [|by injection Hf as _ <-].
  destruct (receipt_validate (VDict d)) as [parsed|e] eqn:Ev.
  2: { injection Hf as _ Hf. destruct (bool_decide _); [|discriminate]. by injection Hf as <-. }
  destruct (finalize_parsed self dims rollout_id parsed reward req) as [d' r] eqn:Ep. injection Hf as -> Hf.
  destruct r as [row'|why|e]; [|by injection Hf as <-|discriminate]. injection Hf as ->.
  apply finalize_parsed_Got in Ep as (p & routes & Hp & Hr & Hfin). by exists d, parsed, p, routes.
Qed.

Lemma build_route_plan_Got forest by_call parsed row plan :
  build_route_plan self forest by_call parsed row = Got plan ->
  route_spans forest by_call parsed row [] (link_spans row) = Got (spans plan)
  /\ contribution (spans plan) = Z.of_nat (length (lin_token_ids row))
  /\ plan = mkPlan ROUTE_PLAN_SCHEMA_VERSION (fin_staging_partition self) (spans plan) (manifest_keys parsed) (Z.of_nat (length (lin_token_ids row)))
  /\ validate_plan plan = Ok tt.
Proof.
  intros (spans_ & Hs & (? & Hn%reject_if_Got & (u & Hv%catching_Got & [= <-])%fin_bind_Got)%fin_bind_Got)%fin_bind_Got.
  apply negb_false_iff, Z.eqb_eq in Hn. cbn [spans]. by destruct u.
Qed.

(** What the routes of a row are: none without router replay; the plan alone when
    the policy workers execute it; or the tensor the executor builds from it. *)
Definition routes_ok (fetched : list FetchedStagedCall) (row : FinalizedRollout) : Prop :=
  if negb (router_replay_enabled self) then route_plan row = None /\ routed_experts row = None
  else exists plan, route_plan row = Some plan /\ validate_plan plan = Ok tt
    /\ contribution (spans plan) = Z.of_nat (length (token_ids row))
    /\ expected_token_length plan = Z.of_nat (length (token_ids row))
    /\ cleanup_staging_keys plan = staging_keys row
    /\ match routed_experts row with
       | None => defer_routed_experts_to_policy self = true \/ existsb (fun span => 0 <? staged_route_len span) (spans plan) = false
       | Some t => defer_routed_experts_to_policy self = false /\ exists layout,
           execute_route_plan sha256 json_loads gym_extras_digest_version compute_extras_digest classify_route_span
             plan (fragments_of fetched) layout (Z.of_nat (length (token_ids row))) = Ok (Assembled t)
       end.

Lemma routes_of_Got dims forest fetched by_call parsed row dims' routes :
  routes_of self dims forest fetched by_call parsed row = (dims', Got routes) ->
  if negb (router_replay_enabled self) then routes = (None, None)
  else exists plan, build_route_plan self forest by_call parsed row = Got plan /\ routes.1 = Some plan
    /\ match routes.2 with
       | None => defer_routed_experts_to_policy self = true \/ existsb (fun span => 0 <? staged_route_len span) (spans plan) = false
       | Some t => defer_routed_experts_to_policy self = false /\ exists layout,
           execute_route_plan sha256 json_loads gym_extras_digest_version compute_extras_digest classify_route_span
             plan (fragments_of fetched) layout (expected_token_length plan) = Ok (Assembled t)
       end.
Proof.
  unfold routes_of. destruct (router_replay_enabled self); cbn [negb]; [|by intros [= _ <-]].
  destruct (build_route_plan _ _ _ _ _) as [plan| |]; [|discriminate..].
  destruct (defer_routed_experts_to_policy self) eqn:Ed.
  { intros [= _ <-]. exists plan. split; [done|]. split; [done|]. by left. }
  destruct (_execute_direct_plan dims plan fetched) as [d r] eqn:Er. intros [= <- Hr].
  change (r ≫= (fun tensor => Got (Some plan, tensor)) = Got routes) in Hr.
  apply fin_bind_Got in Hr as (tensor & -> & [= <-]). exists plan. split; [done|]. split; [done|]. cbn [snd].
  unfold _execute_direct_plan in Er. destruct (existsb _ (spans plan)) eqn:Ex; cbn [negb] in Er; [|injection Er as _ <-; auto].
  destruct (learn_dims dims fetched) as [[[layers k]|]| |]; try discriminate. injection Er as _ Er.
  change (of_res (compressed layers k) ≫= (fun layout => of_res (execute_route_plan sha256 json_loads gym_extras_digest_version compute_extras_digest
                               classify_route_span plan (fragments_of fetched) layout (expected_token_length plan)) ≫= (fun assembled =>
         match assembled with
         | Assembled rows => Got (Some rows)
         | Unassembled why => Rejected (mkRejection "route_assembly" (Text why))
         end)) = Got tensor) in Er.
  apply fin_bind_Got in Er as (layout & _ & (a & Ha%of_res_Got & Hr)%fin_bind_Got).
  destruct a as [rows|]; [|discriminate]. injection Hr as <-. eauto.
Qed.

(** C17 A valid row is what the verified chain of its receipt says and nothing else:
    the receipt is the rollout's own, unfailed and unpoisoned; the rows fetched
    are those its manifest names; tokens, log-probabilities and prompt are those
    the verification returned, the reward the shaped one; the row owns every
    staging key of the manifest, carries the range of the weight versions that
    generated it, and its route plan is valid, covers exactly its tokens, and
    gave the route tensor if there is one. *)
Theorem valid_row_is_the_verified_chain dims rollout_id d reward req dims' row :
  finalize_rollout self dims rollout_id (Some d) reward req = (dims', Ok row) -> valid row = true ->
  exists parsed fetched lin,
    receipt_validate (VDict d) = Ok parsed /\ sound_receipt rollout_id parsed
    /\ fetch_for_finalization (manifest_keys parsed) (fetch_fragments self (forest_training req)) (0 <? top_logprobs self) = Ok fetched
    /\ rows_match (manifest parsed) fetched
    /\ verify_and_linearize parsed (snapshot <$> fetched) = Ok lin
    /\ (token_ids row, logprobs row, prompt_len row, model_call_ids row)
       = (lin_token_ids lin, lin_logprobs lin, lin_prompt_len lin, lin_model_call_ids lin)
    /\ reward_of self req reward lin = Got (fr_reward row, fr_penalty_counts row, reward_metrics row)
    /\ staging_keys row = manifest_keys parsed
    /\ (exists lo hi, min_wv row = Some lo /\ max_wv row = Some hi
         /\ lo ∈ weight_version <$> manifest parsed /\ hi ∈ weight_version <$> manifest parsed
         /\ Forall (fun c => lo <= weight_version c <= hi) (manifest parsed))
    /\ routes_ok fetched row.
Proof.
  intros Hf Hvalid. destruct (valid_row_parts _ _ _ _ _ _ _ Hf Hvalid) as (? & parsed & p & routes & [= <-] & Hv & Hp & Hr & Hfin).
  apply prepare_Got in Hp as (Hs & Hfetch & Hrows & Hby & Hver & Hrw & Hmin & Hmax & _ & _).
  apply fin_bind_Got in Hfin as (masks & _ & [= <-]). cbn [token_ids logprobs prompt_len model_call_ids staging_keys min_wv max_wv fr_reward fr_penalty_counts reward_metrics].
  exists parsed, (p_fetched p), (p_row p). split_and!; try done.
  - exists (p_min p), (p_max p). apply zmin_spec in Hmin as [H1 H2]. apply zmax_spec in Hmax as [H3 H4].
    split_and!; try done. rewrite Forall_fmap in H2. rewrite Forall_fmap in H4.
    rewrite Forall_forall in *. intros c Hc. split; [by apply H2|by apply H4].
  - apply routes_of_Got in Hr. unfold routes_ok. cbn [route_plan routed_experts token_ids staging_keys].
    destruct (router_replay_enabled self); cbn [negb] in *; [|by subst routes].
    destruct Hr as (plan & Hb & Hr1 & Hr2). apply build_route_plan_Got in Hb as (_ & Hc & Hplan & Hval).
    assert (expected_token_length plan = Z.of_nat (length (lin_token_ids (p_row p)))) as Hlen by (by rewrite Hplan).
    exists plan. rewrite <- Hlen. split_and!; try done; [by rewrite Hlen|by rewrite Hplan].
Qed.

(** A verified row whose parts fit together. *)
Record linear_ok (lin : LinearRow) : Prop := {
  lo_mask : length (lin_token_mask lin) = length (lin_token_ids lin);
  lo_spans : spans_within (length (lin_token_ids lin)) (weight_version_spans lin);
  lo_links : links_fit (length (lin_token_ids lin)) 0 (link_spans lin) }.

(** The value at [i] of a per-call flag spread over the tokens the call generated. *)
Definition spread (excluded : gset string) (flag : ActionOutputFlags -> bool) (flags : list ActionOutputFlags)
  (spans : list link_span) (i : nat) : bool :=
  match generator 0 spans i with Some j => flag_at excluded flag flags spans j | None => false end.

Lemma finished_weights rollout_id parsed req p routes row :
  finish rollout_id parsed req p routes = Got row -> linear_ok (p_row p) ->
  length (token_mask row) = length (token_ids row)
  /\ forall i, (i < length (token_ids row))%nat ->
       token_mask row !! i = if in_excluded (loss_excluded_call_ids req) (weight_version_spans (p_row p)) i then Some f0
                             else lin_token_mask (p_row p) !! i.
Proof.
  intros (masks & _ & [= <-])%fin_bind_Got [Hmask Hspans _]. cbn [token_ids token_mask].
  rewrite <- Hmask in Hspans. destruct (exclude_loss_spec (loss_excluded_call_ids req) _ _ Hspans) as [Hl Hlook].
  split; [congruence|]. intros i Hi. apply Hlook. congruence.
Qed.

(** Whose tokens train and which are flagged.  A token keeps its verified loss
    weight unless it belongs to a call another row owns, where the weight is
    zero; a token is flagged exactly when its own call generated it, this row
    owns the call and the call was flagged; carried tokens never are. *)
Theorem tokens_train_for_their_own_call dims rollout_id d reward req dims' row parsed fetched lin :
  finalize_rollout self dims rollout_id (Some d) reward req = (dims', Ok row) -> valid row = true ->
  receipt_validate (VDict d) = Ok parsed ->
  fetch_for_finalization (manifest_keys parsed) (fetch_fragments self (forest_training req)) (0 <? top_logprobs self) = Ok fetched ->
  verify_and_linearize parsed (snapshot <$> fetched) = Ok lin -> linear_ok lin ->
  length (token_mask row) = length (token_ids row)
  /\ (forall i, (i < length (token_ids row))%nat ->
       token_mask row !! i = if in_excluded (loss_excluded_call_ids req) (weight_version_spans lin) i then Some f0
                             else lin_token_mask lin !! i)
  /\ match action_flags req with
     | None => output_masks row = None
     | Some flags =>
         exists invalid malformed, output_masks row = Some (invalid, malformed)
         /\ length invalid = length (token_ids row) /\ length malformed = length (token_ids row)
         /\ forall i, (i < length (token_ids row))%nat ->
            invalid !! i = Some (spread (loss_excluded_call_ids req) invalid_tool_call flags (link_spans lin) i)
            /\ malformed !! i = Some (spread (loss_excluded_call_ids req) malformed_thinking flags (link_spans lin) i)
     end.
Proof.
  intros Hf Hvalid Hparsed Hfetch Hver Hok.
  destruct (valid_row_parts _ _ _ _ _ _ _ Hf Hvalid) as (? & parsed' & p & routes & [= <-] & Hv & Hp & _ & Hfin).
  assert (parsed' = parsed) as -> by congruence. apply prepare_Got in Hp as (_ & Hfetch' & _ & _ & Hver' & _).
  assert (p_fetched p = fetched) as Ef by congruence. rewrite Ef in Hver'. assert (p_row p = lin) as El by congruence. subst lin.
  destruct (finished_weights _ _ _ _ _ _ Hfin Hok) as [Hlen Hw]. split; [done|]. split; [done|]. clear Hlen Hw.
  apply fin_bind_Got in Hfin as (masks & Hm & [= <-]). destruct Hok as [_ _ Hlinks]. set (lin := p_row p) in *. cbn [token_ids output_masks].
  unfold output_masks_of in Hm. destruct (action_flags req) as [flags|]; [|by injection Hm as <-].
  apply fin_bind_Got in Hm as (? & Hn%reject_if_Got & [= <-]). apply negb_false_iff, Nat.eqb_eq in Hn.
  set (blank := replicate (length (lin_token_ids lin)) false).
  destruct (mark_flags_spec (loss_excluded_call_ids req) flags (link_spans lin) 0 (blank, blank) (length (lin_token_ids lin)))
    as (H1 & H2 & H3); [done|apply length_replicate..|done|].
  destruct (mark_flags _ _ _ _ _) as [m1 m2]. exists m1, m2. split; [done|]. split; [done|]. split; [done|].
  intros i Hi. destruct (H3 i Hi) as [E1 E2]. cbn [fst snd] in *. unfold spread. rewrite E1, E2. unfold blank.
  rewrite !lookup_replicate_2 by done. by destruct (generator 0 (link_spans lin) i).
Qed.

Lemma elem_of_cleanup k parsed : k ∈ cleanup_keys parsed <-> k ∈ manifest_keys parsed.
Proof. unfold cleanup_keys. rewrite (proj1 (fromkeys_spec _ [])). set_solver. Qed.

(** A rejected rollout trains nothing and loses nothing: its row is empty, says
    why, and names exactly the staging keys of the receipt, so that the rows the
    rollout staged are still cleaned up; without a readable receipt there is
    nothing to clean. *)
Theorem rejection_keeps_the_cleanup dims rollout_id receipt reward req dims' row :
  finalize_rollout self dims rollout_id receipt reward req = (dims', Ok row) -> valid row = false ->
  (token_ids row, token_mask row, logprobs row, prompt_len row) = ([], [], [], 0)
  /\ routed_experts row = None /\ route_plan row = None /\ media row = None /\ generation_lengths row = []
  /\ fr_rollout_id row = rollout_id /\ rejection_reason row <> None
  /\ match receipt with
     | Some d => match receipt_validate (VDict d) with
                 | Ok parsed => forall k, k ∈ staging_keys row <-> k ∈ manifest_keys parsed
                 | Raise _ => staging_keys row = []
                 end
     | None => staging_keys row = []
     end.
Proof.
  intros Hf Hvalid. unfold finalize_rollout in Hf. destruct receipt as [d|]; [|by injection Hf as _ <-].
  destruct (receipt_validate (VDict d)) as [parsed|e].
  2: { injection Hf as _ Hf. destruct (bool_decide _); [|discriminate]. by injection Hf as <-. }
  destruct (finalize_parsed self dims rollout_id parsed reward req) as [d' r] eqn:Ep. injection Hf as -> Hf.
  destruct r as [row'|why|e]; [|injection Hf as <-|discriminate].
  { injection Hf as ->. apply finalize_parsed_Got in Ep as (p & routes & _ & _ & Hfin).
    by apply fin_bind_Got in Hfin as (masks & _ & [= <-]). }
  split_and!; try done. cbn [staging_keys rejected]. intros k. destruct (String.eqb _ _); [apply elem_of_cleanup|done].
Qed.
End theorems.

(** ** A concrete rollout *)
Module Demo.

(** A call as a small verifier sees it: its id, and how many of its tokens were
    carried and generated. *)
Definition links_fine (parsed : RolloutReceipt) (l : list link_span) : bool :=
  forallb (fun s : link_span => bool_decide (s.1.1 ∈ model_call_id <$> manifest parsed) && (0 <=? s.1.2) && (0 <=? s.2)) l
  && match l with s :: _ => 0 <? s.1.2 + s.2 | [] => false end.

(** Tokens numbered by their call; generated tokens train. *)
Fixpoint version_spans (position : Z) (l : list link_span) : list (string * Z * Z) :=
  match l with
  | [] => []
  | (c, carry, gen) :: l => (c, position + carry, position + carry + gen) :: version_spans (position + carry + gen) l
  end.
Definition linear (l : list link_span) : LinearRow :=
  let mask := l ≫= (fun s : link_span => replicate (Z.to_nat s.1.2) f0 ++ replicate (Z.to_nat s.2) f1)%list in
  mkLinear (seqZ 0 (Z.of_nat (length mask))) mask mask 2 l (version_spans 0 l)
    ((fun s : link_span => (s.1.1, (1, "0123456789abcdef0123456789abcdef0123456789abcdef0123456789abcdef"))) <$> l) (fst ∘ fst <$> l).

Definition call (i : string) (parent : option string) (prev delta version : Z) : CallRecord :=
  mkRecord i ("resp-" +:+ i) parent ("run/" +:+ i) prev delta version.
Definition receipt : RolloutReceipt :=
  mkReceipt "run" [call "a" None 0 5 7; call "b" (Some "a") 5 3 8] (Some "b") None false None.
Definition poisoned : RolloutReceipt := mkReceipt "run" (manifest receipt) None None true None.
Definition stored (name : string) : option dict := Some [(VStr name, VNone)].

#[export] Instance gym : GymCapture := {|
  Snapshot := link_span;
  snapshot_call_id s := s.1.1;
  receipt_validate v := match v with
                        | VDict [(VStr "run", _)] => Ok receipt
                        | VDict [(VStr "poisoned", _)] => Ok poisoned
                        | _ => Raise ValueError
                        end;
  receipt_build r := Ok r;
  receipt_dump r := [];
  gym_staging_key v i := Ok ("run/" +:+ i);
  verify_and_linearize parsed l := if links_fine parsed l then Ok (linear l) else Raise RebuildError;
  classify_route_span c g n := Ok (if n =? c + g then Full else if (n =? g) && (0 <? g) then Tail else Sentinel);
  gym_extras_digest_version := 1;
  compute_extras_digest d := Ok "digest";
  sha256 l := "digest";
  json_loads s := Raise ValueError |}.

Definition item (i : string) (carry gen routed : Z) : FetchedStagedCall :=
  mkFetched gym ("run/" +:+ i) (i, carry, gen) routed None false false None.
Definition fetch (k : string) : res FetchedStagedCall :=
  if String.eqb k "run/a" then Ok (item "a" 2 3 5) else if String.eqb k "run/b" then Ok (item "b" 1 2 4) else Raise KeyError.
#[export] Instance source : TokenSource := {|
  fetch_for_finalization keys frags tk := if tk then Raise KeyError else traverse fetch keys;
  fetch_media items := Raise KeyError;
  Occurrences := unit;
  verified_media_items i := Raise ValueError;
  verify_media_geometry o p := Ok tt |}.

Lemma fetch_item k i : fetch k = Ok i -> fragment i = None /\ fetched_key i = k.
Proof.
  unfold fetch. destruct (String.eqb_spec k "run/a") as [->|]; [by intros [= <-]|].
  destruct (String.eqb_spec k "run/b") as [->|]; [by intros [= <-]|done].
Qed.

Definition self : RolloutReassembler :=
  mkReassembler "train" "staging" 0 8 None None true true false None None None 0.
Definition flag (b : bool) : ActionOutputFlags := mkFlags b false.
Definition req : request := mkRequest false (Some [flag true; flag true]) {["a"]} None None.

Definition outcome : FinalizedRollout :=
  match finalize_rollout self None "run" (stored "run") f1 req with
  | (_, Ok row) => row
  | _ => rejected "" f0 (mkRejection "" NoDetail) []
  end.
Lemma outcome_eq : finalize_rollout self None "run" (stored "run") f1 req = (None, Ok outcome).
Proof. vm_compute. reflexivity. Qed.

(** The tokens of call [a], which another row owns, do not train here and are
    not flagged. *)
Example the_row :
  token_mask outcome = [f0; f0; f0; f0; f0; f0; f1; f1]
  /\ output_masks outcome = Some ([false; false; false; false; false; false; true; true], replicate 8 false)
  /\ generation_lengths outcome = [2] /\ (min_wv outcome, max_wv outcome) = (Some 7, Some 8)
  /\ (boundary_rows <$> (default [] (spans <$> route_plan outcome))) = [0; 1].
Proof. vm_compute. done. Qed.

Lemma verified_witness : token_ids outcome = [0; 1; 2; 3; 4; 5; 6; 7] /\ staging_keys outcome = ["run/a"; "run/b"]
  /\ exists plan, route_plan outcome = Some plan /\ contribution (spans plan) = 8.
Proof.
  destruct (valid_row_is_the_verified_chain self None "run" [(VStr "run", VNone)] f1 req None outcome outcome_eq eq_refl)
    as (parsed & fetched & lin & _ & _ & _ & _ & _ & _ & _ & _ & _ & plan & H1 & _ & H2 & _).
  split; [vm_compute; reflexivity|]. split; [vm_compute; reflexivity|]. exists plan. split; [exact H1|exact H2].
Defined.

Lemma train_witness : length (token_mask outcome) = 8%nat /\ token_mask outcome !! 3%nat = Some f0 /\ token_mask outcome !! 7%nat = Some f1.
Proof.
  destruct (tokens_train_for_their_own_call self None "run" [(VStr "run", VNone)] f1 req None outcome
              receipt [item "a" 2 3 5; item "b" 1 2 4] (linear [("a", 2, 3); ("b", 1, 2)]) outcome_eq eq_refl eq_refl eq_refl eq_refl)
    as (H1 & H2 & _).
  { constructor; [reflexivity|repeat constructor; vm_compute; discriminate|]. split; [repeat constructor; vm_compute; discriminate|vm_compute; discriminate]. }
  split; [exact H1|]. split; [rewrite (H2 3%nat ltac:(vm_compute; lia)); vm_compute; reflexivity|].
  rewrite (H2 7%nat ltac:(vm_compute; lia)). vm_compute. reflexivity.
Defined.

Definition refused : FinalizedRollout := rejected "run" f1 (mkRejection "capture_poisoned" NoDetail) ["run/a"; "run/b"].
Lemma refused_eq : finalize_rollout self None "run" (stored "poisoned") f1 req = (None, Ok refused).
Proof. vm_compute. reflexivity. Qed.

Lemma rejection_witness : token_ids refused = [] /\ rejection_reason refused <> None /\ "run/b" ∈ staging_keys refused.
Proof.
  destruct (rejection_keeps_the_cleanup self None "run" (stored "poisoned") f1 req None refused refused_eq eq_refl)
    as (_ & _ & _ & _ & _ & _ & H1 & H2).
  split; [reflexivity|]. split; [exact H1|]. apply H2. right. left.
Defined.
End Demo.
