(* ===== verification/FinalizeTotal.v ===== *)
(** * The finalizer returns
    (the promise of [RolloutReassembler.finalize_rollout])

    [finalize_rollout] never raises for a problem of one rollout.  What this
    rests on is the class [CaptureLaws] of its neighbours, and a configuration
    the setup accepted. *)

From S2P Require Import Prelude.
From S2P Require Import PyVal.
From S2P Require Import Recovery.
From S2P Require Import RoutePlan.
From S2P Require Import RouteAssembly.
From S2P Require Import ForestPlan.
From S2P Require Import Rewards.
From S2P Require Import Media.
From S2P Require Import Reassembler.
#[local] Open Scope string_scope.
#[local] Open Scope Z_scope.

(** A step that does not raise. *)
Definition returns {A} (m : fin A) : Prop := forall e, m <> Raised e.

Lemma returns_bind {A B} (m : fin A) (f : A -> fin B) :
  returns m -> (forall a, m = Got a -> returns (f a)) -> returns (m ≫= f).
Proof. intros Hm Hf e. destruct m; cbn; [by apply Hf|done|]. intros [= ->]. by apply (Hm e). Qed.
Lemma returns_Got {A} (a : A) : returns (Got a).
Proof. done. Qed.
Lemma returns_Rejected {A} r : returns (A := A) (Rejected r).
Proof. done. Qed.
Lemma returns_reject_if b name d : returns (reject_if b name d).
Proof. by destruct b. Qed.
Lemma returns_catching {A} (m : res A) caught r :
  (forall e, m = Raise e -> e ∈ caught) -> returns (catching m caught r).
Proof. intros Hm e. destruct m as [a|e']; cbn; [done|]. by rewrite bool_decide_true by auto. Qed.
Lemma returns_of_res {A} (m : res A) : (forall e, m <> Raise e) -> returns (of_res m).
Proof. intros Hm e. destruct m as [a|e']; cbn; [done|]. by destruct (Hm e'). Qed.

Create HintDb finalizes.
#[export] Hint Resolve returns_Got returns_Rejected returns_reject_if : finalizes.

(** What the finalizer relies on: which errors its neighbours raise, that a
    sound receipt has calls, that the store returns a row per key, that a
    verified chain is made of manifest calls and starts with tokens, and that
    the table of route spans is total and means what its names say. *)
Class CaptureLaws `{TokenSource} : Prop := {
  validate_raises v e : receipt_validate v = Raise e -> e ∈ value_errors;
  validate_nonempty v parsed : receipt_validate v = Ok parsed -> failure_reason parsed = None ->
    capture_poisoned parsed = false -> manifest parsed <> [];
  fetch_raises keys frags tk e : fetch_for_finalization keys frags tk = Raise e -> e ∈ media_errors;
  fetch_all keys frags tk l : fetch_for_finalization keys frags tk = Ok l -> length l = length keys;
  fetch_topk keys frags l item : fetch_for_finalization keys frags true = Ok l -> item ∈ l -> sampler_topk item <> None;
  fetch_dims keys frags tk l item f : fetch_for_finalization keys frags tk = Ok l -> item ∈ l -> fragment item = Some f ->
    match routes f with Routes _ layers k _ => 0 < layers /\ 0 < k | OtherRank _ _ => True end;
  verify_raises parsed snaps e : verify_and_linearize parsed snaps = Raise e -> e ∈ rebuild_errors;
  verify_links parsed snaps lin : verify_and_linearize parsed snaps = Ok lin ->
    (exists s l, link_spans lin = s :: l /\ 0 < s.1.2 + s.2)
    /\ Forall (fun s : link_span => s.1.1 ∈ model_call_id <$> manifest parsed /\ 0 <= s.1.2 /\ 0 <= s.2) (link_spans lin);
  media_raises items e : fetch_media items = Raise e -> e ∈ media_errors;
  evidence_raises item e : verified_media_items item = Raise e -> e ∈ media_errors;
  geometry_raises o part e : verify_media_geometry o part = Raise e -> e ∈ media_errors;
  classify_total c g n : 0 <= c -> 0 <= g -> exists m, classify_route_span c g n = Ok m;
  classify_sound : table_sound classify_route_span;
  json_raises s e : json_loads s = Raise e -> e ∈ value_errors;
  digest_raises d e : compute_extras_digest d = Raise e -> e ∈ value_errors }.

(** A configuration that passed the setup's checks. *)
Record config_ok (self : RolloutReassembler) : Prop := {
  co_effort : forall e, effort_config self = Some e -> effort_shaping_enabled (Some e) = true -> low_ub e <> 0;
  co_unwanted : forall c, reward_penalty_config self = Some c -> penalize_unwanted_tokens c = true ->
    exists ids o cl, Rewards.token_ids c = Some (mkTokenIds (Some ids) o cl);
  co_tags : forall c, reward_penalty_config self = Some c -> penalize_malformed_think_tag c = true ->
    exists dec a b l, tokenizer self = Some dec /\ thinking_tags self = Some (a :: b :: l) }.
Definition dims_ok (routed_dims : option (Z * Z)) : Prop := forall l k, routed_dims = Some (l, k) -> 0 < l /\ 0 < k.

Section total.
Context `{CaptureLaws} (self : RolloutReassembler) (Hself : config_ok self).

Lemma reward_returns_or_value_error reward checks tokens spans e :
  spans <> [] ->
  finalize_capture_reward reward checks (reward_penalty_config self) (effort_config self) tokens spans (tokenizer self) (thinking_tags self)
  = Raise e -> e = ValueError.
Proof.
  intros Hs Hr. destruct checks as [ck|].
  - destruct (capture_reward_returns reward (Some ck) (reward_penalty_config self) (effort_config self) tokens spans
                (tokenizer self) (thinking_tags self)) as [out Ho]; [| |congruence].
    + intros He. split_and!; [done|done|]. intros e' He'. rewrite He' in He. by apply (co_effort _ Hself).
    + intros c Hc. split_and!; [done|by apply (co_unwanted _ Hself)|by apply (co_tags _ Hself)].
  - unfold finalize_capture_reward in Hr. destruct (_ && bool_decide (None = None)) eqn:E; [by injection Hr|].
    rewrite bool_decide_true in E by done. rewrite andb_true_r in E. apply orb_false_iff in E as [E1 E2].
    exfalso. destruct (capture_reward_returns reward None (reward_penalty_config self) (effort_config self) tokens spans
                (tokenizer self) (thinking_tags self)) as [out Ho].
    + by rewrite E1.
    + intros c Hc. rewrite Hc in E2. cbn in E2.
      destruct (penalize_duplicated_reasoning c), (penalize_empty_final_answer c); try done. cbn.
      split_and!; [done|by apply (co_unwanted _ Hself)|by apply (co_tags _ Hself)].
    + unfold finalize_capture_reward in Ho. rewrite E1, E2 in Ho. cbn [orb andb] in Ho. congruence.
Qed.

Lemma by_call_lookup parsed (fetched : list FetchedStagedCall) (call_id : string) :
  length fetched = length (manifest parsed) -> call_id ∈ model_call_id <$> manifest parsed ->
  exists item, kv_get call_id (zip (model_call_id <$> manifest parsed) fetched) = Some item /\ item ∈ fetched.
Proof.
  generalize (manifest parsed). intros records Hl. revert fetched Hl.
  induction records as [|c records IH]; intros [|item fetched] Hl Hin; try discriminate; [by apply not_elem_of_nil in Hin|].
  rewrite fmap_cons in *. cbn [zip zip_with kv_get]. destruct (decide (model_call_id c = call_id)) as [E|E].
  - exists item. split; [done|left].
  - apply elem_of_cons in Hin as [->|Hin]; [done|]. destruct (IH fetched) as (x & Hx & Hin'); [by injection Hl|done|].
    exists x. split; [done|by right].
Qed.

Lemma media_items_returns verify by_call spans : returns (media_items verify by_call spans).
Proof.
  induction spans as [|[[c a] g] spans IH]; cbn [media_items]; [done|]. destruct (kv_get c by_call) as [item|]; [|done].
  apply returns_bind.
  - destruct verify; [|done]. apply returns_bind; [|auto with finalizes]. apply returns_catching. apply evidence_raises.
  - intros occ _. apply returns_bind; [done|]. intros [items ds] _. done.
Qed.

Lemma verify_parts_raises ds : forall parts e, verify_parts ds parts = Raise e -> e ∈ media_errors.
Proof.
  induction ds as [|o ds IH]; intros [|part parts] e; cbn [verify_parts]; try done.
  - intros [= <-]. by apply (bool_decide_unpack _).
  - intros [= <-]. by apply (bool_decide_unpack _).
  - destruct (verify_media_geometry o part) eqn:E; cbn; [apply IH|]. intros [= <-]. by eapply geometry_raises.
Qed.

Lemma pairs_raises l : raises_only [RuntimeError] (pairs l).
Proof.
  induction l as [l IH] using (well_founded_induction (well_founded_ltof _ (@length Z))).
  destruct l as [|h [|w l]]; cbn [pairs]; [raises_step..|]. repeat raises_step. apply IH. unfold ltof. cbn. lia.
Qed.

Lemma join_raises parts : raises_only [TypeError; ValueError; RuntimeError] (m ← _concat_media parts; _trainer_media m).
Proof.
  apply raises_bind.
  - unfold _concat_media. destruct parts as [|a [|b l]]; [raises_step..|]. repeat raises_step.
  - intros m _. unfold _trainer_media. repeat raises_step. eapply raises_weaken; [|apply pairs_raises].
    intros e He. apply list_elem_of_singleton in He as ->. in_list.
Qed.

Lemma resolve_media_returns row by_call verify : returns (_resolve_media self row by_call verify).
Proof.
  unfold _resolve_media. destruct (negb _); [done|]. apply returns_bind; [apply media_items_returns|].
  intros [[|first items] ds] _; [done|]. apply returns_bind; [apply returns_reject_if|]. intros _ _.
  apply returns_bind.
  - apply returns_catching. intros e. destruct (fetch_media _) as [parts|] eqn:E; cbn.
    + destruct verify; [|done]. destruct (verify_parts ds parts) eqn:Ev; cbn; [done|]. intros [= <-]. by eapply verify_parts_raises.
    + intros [= <-]. by eapply media_raises.
  - intros parts _. apply returns_bind; [|done]. apply returns_catching. apply join_raises.
Qed.

(** The links of a verified chain point at fetched rows. *)
Definition links_known (parsed : RolloutReceipt) (spans : list link_span) : Prop :=
  Forall (fun s : link_span => s.1.1 ∈ model_call_id <$> manifest parsed /\ 0 <= s.1.2 /\ 0 <= s.2) spans.

Lemma topk_parts_returns parsed fetched spans :
  length fetched = length (manifest parsed) -> (forall item, item ∈ fetched -> sampler_topk item <> None) ->
  links_known parsed spans ->
  returns (topk_parts self (zip (model_call_id <$> manifest parsed) fetched) spans)
  /\ forall ids lps, topk_parts self (zip (model_call_id <$> manifest parsed) fetched) spans = Got (ids, lps) ->
     (ids = [] -> spans = []) /\ (lps = [] -> spans = []).
Proof.
  intros Hl Htk. induction 1 as [|[[c a] g] spans (Hin & Ha & Hg) _ IH]; cbn [topk_parts]; [by split|]. cbn [fst snd] in *.
  destruct (by_call_lookup parsed fetched c Hl Hin) as (item & -> & Hitem).
  destruct (sampler_topk item) as [[ids lps]|] eqn:Et; [|by apply Htk in Hitem].
  cbn [of_res mbind fin_bind]. rewrite Et. cbn [of_res mbind fin_bind].
  destruct IH as [IH _]. split.
  - apply returns_bind; [apply returns_reject_if|]. intros _ _. rewrite (proj2 (Z.ltb_ge _ _)) by done. cbn [raise_if of_res mbind fin_bind].
    apply returns_bind; [done|]. by intros [? ?] _.
  - intros ids' lps' (? & _ & (? & _ & ([? ?] & _ & [= <- <-])%fin_bind_Got)%fin_bind_Got)%fin_bind_Got. done.
Qed.

Lemma cat_rows_Ok parts : parts <> [] -> exists t, cat_rows parts = Ok t.
Proof. destruct parts; [done|]. by eexists. Qed.

Lemma topk_returns parsed fetched row :
  length fetched = length (manifest parsed) ->
  ((0 <? top_logprobs self) = true -> forall item, item ∈ fetched -> sampler_topk item <> None) ->
  links_known parsed (link_spans row) -> link_spans row <> [] ->
  returns (sampler_topk_of self row (zip (model_call_id <$> manifest parsed) fetched)).
Proof.
  intros Hl Htk Hk Hne. unfold sampler_topk_of. destruct (0 <? top_logprobs self); [|done]. cbn [negb].
  destruct (topk_parts_returns parsed fetched (link_spans row) Hl (Htk eq_refl) Hk) as [Hr1 Hr2].
  apply returns_bind; [done|]. intros [ids lps] [Hi Hp]%Hr2.
  destruct (cat_rows_Ok ids) as [t1 ->]; [auto|]. destruct (cat_rows_Ok lps) as [t2 ->]; [auto|]. done.
Qed.

(** *** Routes *)

Lemma route_spans_returns forest by_call parsed row seen l : returns (route_spans forest by_call parsed row seen l).
Proof.
  revert seen. induction l as [|[[c a] g] l IH]; intros seen; cbn [route_spans]; [done|].
  apply returns_bind; [apply returns_reject_if|]. intros _ _. apply returns_bind.
  - unfold route_span. destruct (find_call _ _) as [record|], (kv_get c by_call) as [item|], (commitment_of row c) as [[]|]; try done.
    repeat (apply returns_bind; [apply returns_reject_if|intros _ _]). done.
  - intros span _. apply returns_bind; [apply IH|done].
Qed.

(** The spans keep the links' lengths, and nothing precedes the first. *)
Lemma route_spans_links forest by_call parsed row seen l rs :
  route_spans forest by_call parsed row seen l = Got rs ->
  Forall2 (fun (s : link_span) r => carry_len r = s.1.2 /\ generation_len r = s.2) l rs.
Proof.
  revert seen rs. induction l as [|[[c a] g] l IH]; intros seen rs; cbn [route_spans]; [intros [= <-]; constructor|].
  intros (? & _ & (span & Hs & (rest & Hrest & [= <-])%fin_bind_Got)%fin_bind_Got)%fin_bind_Got.
  constructor; [|by eapply IH]. unfold route_span in Hs.
  destruct (find_call _ _) as [record|], (kv_get c by_call) as [item|], (commitment_of row c) as [[]|]; try discriminate.
  by apply fin_bind_Got in Hs as (? & _ & (? & _ & (? & _ & (? & _ & [= <-])%fin_bind_Got)%fin_bind_Got)%fin_bind_Got).
Qed.

Lemma integrity_returns f version expected e :
  verify_route_fragment_integrity sha256 json_loads gym_extras_digest_version compute_extras_digest f version expected <> Raise e.
Proof.
  unfold verify_route_fragment_integrity. destruct (negb _); [done|].
  assert (Hr : raises_only value_errors (x ← envelope sha256 json_loads f;
            match x with None => Ok false | Some extras => d ← compute_extras_digest extras; Ok (String.eqb d expected) end)).
  { apply raises_bind.
    - unfold envelope. apply raises_bind; [intros x; apply json_raises|]. intros v _.
      assert (Ht : forall t, raises_only value_errors (_route_array t)).
      { intros [d layers k rows|d l]; cbn; [destruct (dtype_name d)|]; raises_step. }
      destruct (match v with VNone => _ | _ => _ end) as [extras|]; [|raises_step].
      destruct (_ =? _); [|destruct (_ =? _); [|destruct (_ =? _); raises_step]].
      + apply raises_bind; [|intros; raises_step]. unfold routed_experts_tensor_metadata.
        apply raises_bind; [apply Ht|]. intros [[? ?] ?] _. raises_step.
      + apply raises_bind; [|intros; raises_step]. unfold encode_routed_experts.
        apply raises_bind; [apply Ht|]. intros [[? ?] ?] _. raises_step.
    - intros [extras|] _; [|raises_step]. apply raises_bind; [intros x; apply digest_raises|intros; raises_step]. }
  destruct (x ← envelope sha256 json_loads f; _) as [b|e']; [done|]. specialize (Hr e' eq_refl).
  unfold value_errors in Hr. apply elem_of_cons in Hr as [->|Hr]; [done|]. by apply list_elem_of_singleton in Hr as ->.
Qed.

Lemma fragment_rows_returns l frags span e :
  fragment_rows sha256 json_loads gym_extras_digest_version compute_extras_digest l frags span <> Raise e.
Proof.
  unfold fragment_rows. destruct (frags !! _) as [f|]; [|done].
  intros [He|(ok & _ & He)]%bind_Raise; [by apply integrity_returns in He|].
  destruct (negb ok); [done|]. destruct (routes f); [|done]. destruct (negb _); [done|]. by destruct (select_moe_columns _ _ _ _).
Qed.

Lemma plan_executes plan frags l e :
  validate_plan plan = Ok tt -> (exists s rest, spans plan = s :: rest /\ 0 < carry_len s + generation_len s) ->
  contribution (spans plan) = expected_token_length plan ->
  execute_route_plan sha256 json_loads gym_extras_digest_version compute_extras_digest classify_route_span plan frags l
    (expected_token_length plan) <> Raise e.
Proof.
  intros Hv%validate_plan_Ok (s & rest & Hs & Hpos) Hc. unfold execute_route_plan. rewrite Z.eqb_refl. cbn [negb].
  assert (Hok : Forall span_ok (spans plan)).
  { apply Forall_lookup. intros i x Hx. destruct (vp_spans _ Hv i x Hx) as [_ (H2 & H3 & _) H5 _ _].
    split_and!; [done|done|]. destruct H5 as [|(? & _)]; [by left|by right]. }
  assert (Hstart : starts_ok [] (spans plan)).
  { right. intros x Hx. rewrite Hs in Hx. injection Hx as <-. split; [|done].
    destruct (vs_boundary _ _ _ (vp_spans _ Hv 0%nat s ltac:(by rewrite Hs))) as [|(_ & ? & _)]; done. }
  pose proof (execute_spans_spec sha256 json_loads gym_extras_digest_version compute_extras_digest classify_route_span
                l frags (spans plan) [] (Z.to_nat (expected_token_length plan)) classify_sound Hok Hstart) as Hout.
  cbn [length] in Hout. rewrite Nat.sub_0_r in Hout. cbn [app] in Hout. change (Z.of_nat 0) with 0 in Hout.
  pose proof (vp_length _ Hv) as Hlen. specialize (Hout ltac:(lia)).
  intros [He|([[pos t]|why] & _ & He)]%bind_Raise; [|by destruct (_ && _)|done].
  rewrite He in Hout. destruct Hout as (x & Hx & [Hcl|[_ Hfr]]).
  - rewrite Forall_forall in Hok. destruct (Hok x Hx) as (Hca & Hge & _).
    destruct (classify_total (carry_len x) (generation_len x) (staged_route_len x - boundary_rows x) Hca Hge) as [m Hm]. congruence.
  - by apply fragment_rows_returns in Hfr.
Qed.

Lemma compressed_Ok layers k : 0 < layers -> 0 < k -> exists l, compressed layers k = Ok l.
Proof.
  intros Hl Hk. unfold compressed, new_layout, one_to.
  rewrite bool_decide_false by (intros E; apply (f_equal length) in E; rewrite length_seqZ in E; cbn in E; lia).
  rewrite (proj2 (Z.leb_gt _ _)) by done. cbn. rewrite length_seqZ, Z2Nat.id by lia. rewrite Z.ltb_irrefl. cbn.
  replace (existsb _ _) with false; [by eexists|]. symmetry. apply not_true_iff_false. intros (n & Hn & Hc)%existsb_exists.
  apply list_elem_of_In, elem_of_seqZ in Hn. apply negb_true_iff, andb_false_iff in Hc. lia.
Qed.

Lemma learn_dims_ok dims keys frags tk fetched :
  dims_ok dims -> fetch_for_finalization keys frags tk = Ok fetched ->
  returns (learn_dims dims fetched) /\ forall d, learn_dims dims fetched = Got d -> dims_ok d.
Proof.
  intros Hd Hf. unfold learn_dims. destruct (omap fragment fetched) as [|f fs] eqn:Ef; [split; [done|by intros d [= <-]]|].
  assert (exists item, item ∈ fetched /\ fragment item = Some f) as (item & Hin & Hitem).
  { apply list_elem_of_omap. rewrite Ef. left. }
  pose proof (fetch_dims _ _ _ _ _ _ Hf Hin Hitem) as Hdim. destruct (routes f); (split; [done|]); [|done].
  intros d [= <-] ? ? [= <- <-]. done.
Qed.

Lemma direct_plan_returns dims plan keys frags tk fetched :
  dims_ok dims -> fetch_for_finalization keys frags tk = Ok fetched ->
  validate_plan plan = Ok tt -> (exists s rest, spans plan = s :: rest /\ 0 < carry_len s + generation_len s) ->
  contribution (spans plan) = expected_token_length plan ->
  dims_ok (_execute_direct_plan dims plan fetched).1 /\ returns (_execute_direct_plan dims plan fetched).2.
Proof.
  intros Hd Hf Hv Hpos Hc. unfold _execute_direct_plan. destruct (negb _); [done|].
  destruct (learn_dims_ok dims keys frags tk fetched Hd Hf) as [Hr Hok].
  destruct (learn_dims dims fetched) as [[[layers k]|]|r|e]; [|done|done|by destruct (Hr e)].
  specialize (Hok _ eq_refl). split; [done|]. cbn [snd]. destruct (Hok layers k eq_refl) as [Hl Hk].
  destruct (compressed_Ok layers k Hl Hk) as [l ->]. cbn [of_res mbind fin_bind].
  apply returns_bind; [apply returns_of_res; intros e; by apply plan_executes|]. by intros [rows|why] _.
Qed.

Lemma zmin_raises l : l <> [] -> exists m, zmin l = Ok m.
Proof. destruct l; [done|]. by eexists. Qed.
Lemma zmax_raises l : l <> [] -> exists m, zmax l = Ok m.
Proof. destruct l; [done|]. by eexists. Qed.

Lemma read_rows_returns forest parsed : returns (read_rows self forest parsed).
Proof.
  unfold read_rows. apply returns_bind.
  - intros e. destruct (fetch_for_finalization _ _ _) as [l|e'] eqn:Ef; [done|]. apply fetch_raises in Ef.
    unfold media_errors in Ef. repeat (apply elem_of_cons in Ef as [->|Ef]; [done|]). by apply not_elem_of_nil in Ef.
  - intros fetched _. apply returns_bind.
    + generalize (manifest parsed). intros records. revert fetched. induction records as [|c records IH]; intros [|item fetched]; cbn [match_rows]; try done.
      apply returns_bind; [apply returns_reject_if|intros _ _]. apply returns_bind; [apply returns_reject_if|intros _ _].
      apply returns_bind; [apply IH|done].
    + intros by_call _. apply returns_bind; [apply returns_reject_if|done].
Qed.

Lemma spans_until_nonempty call l l' : spans_until call l = Some l' -> l' <> [].
Proof.
  unfold spans_until. destruct (list_find _ l) as [[i x]|] eqn:E; [|done]. cbn. intros [= <-].
  apply list_find_Some in E as (Hi & _). destruct l; [done|]. done.
Qed.

Lemma reward_of_returns req reward row : link_spans row <> [] -> returns (reward_of self req reward row).
Proof.
  intros Hne. unfold reward_of. destruct (_ && _); [done|]. apply returns_bind.
  - destruct (reward_call_id req) as [call|]; [|done]. by destruct (spans_until call (link_spans row)).
  - intros spans Hs. assert (spans <> []) as Hspans.
    { destruct (reward_call_id req) as [call|]; [|by injection Hs as <-].
      destruct (spans_until call (link_spans row)) eqn:E; [|done]. injection Hs as <-. by eapply spans_until_nonempty. }
    apply returns_bind; [|by intros [[? ?] ?] _]. apply returns_catching. intros e He.
    apply reward_returns_or_value_error in He as ->; [|done]. left.
Qed.

Lemma check_receipt_returns rollout_id parsed : returns (check_receipt rollout_id parsed).
Proof.
  unfold check_receipt. repeat (apply returns_bind; [|intros _ _]); auto with finalizes.
  destruct (failure_reason parsed); auto with finalizes.
Qed.

Lemma prepare_returns d rollout_id parsed reward req :
  receipt_validate d = Ok parsed -> returns (prepare self rollout_id parsed reward req).
Proof.
  intros Hd. unfold prepare. apply returns_bind; [apply check_receipt_returns|]. intros u Hc.
  apply check_receipt_Got in Hc as [_ [Hfail Hpois] _ _]. pose proof (validate_nonempty _ _ Hd Hfail Hpois) as Hne.
  apply returns_bind; [apply read_rows_returns|]. intros [fetched by_call] Hr. apply read_rows_Got in Hr as (Hf & _ & ->).
  apply returns_bind; [apply returns_catching; apply verify_raises|]. intros row Hv%catching_Got.
  destruct (verify_links _ _ _ Hv) as [(s & l & Hs & _) Hk]. assert (link_spans row <> []) as Hl by by rewrite Hs.
  apply returns_bind; [by apply reward_of_returns|]. intros [[r counts] metrics] _.
  destruct (zmin_raises (weight_version <$> manifest parsed)) as [lo ->]; [by destruct (manifest parsed)|].
  destruct (zmax_raises (weight_version <$> manifest parsed)) as [hi ->]; [by destruct (manifest parsed)|].
  cbn [of_res]. change (Got lo ≫= ?f) with (f lo). cbv beta. change (Got hi ≫= ?f) with (f hi). cbv beta.
  apply returns_bind; [apply resolve_media_returns|]. intros media _.
  apply returns_bind; [|done]. apply topk_returns; [| |done|done].
  - apply fetch_all in Hf as ->. unfold manifest_keys. by rewrite length_fmap.
  - intros Htk. rewrite Htk in Hf. intros item Hi. by eapply fetch_topk.
Qed.

Lemma routes_of_returns dims req parsed rollout_id reward p :
  dims_ok dims -> prepare self rollout_id parsed reward req = Got p ->
  let r := routes_of self dims (forest_training req) (p_fetched p) (p_by_call p) parsed (p_row p) in
  dims_ok r.1 /\ returns r.2.
Proof.
  intros Hd Hp. apply prepare_Got in Hp as (_ & Hf & _ & _ & Hv & _). unfold routes_of. cbn zeta.
  destruct (negb (router_replay_enabled self)); [done|].
  assert (returns (build_route_plan self (forest_training req) (p_by_call p) parsed (p_row p))) as Hb.
  { unfold build_route_plan. apply returns_bind; [apply route_spans_returns|]. intros spans _.
    apply returns_bind; [apply returns_reject_if|]. intros _ _. apply returns_bind; [|done].
    apply returns_catching, validate_plan_raises. }
  destruct (build_route_plan _ _ _ _ _) as [plan|r|e] eqn:E; [|done|by destruct (Hb e)].
  destruct (defer_routed_experts_to_policy self); [done|].
  apply build_route_plan_Got in E as (Hlinks%route_spans_links & Hc & Hplan & Hval).
  destruct (verify_links _ _ _ Hv) as [(s & l & Hs & Hpos) _]. rewrite Hs in Hlinks.
  apply Forall2_cons_inv_l in Hlinks as (sp & rest & [Hca Hge] & _ & Hsp).
  destruct (direct_plan_returns dims plan _ _ _ (p_fetched p) Hd Hf Hval) as [Hd' Hr'].
  { exists sp, rest. split; [done|lia]. }
  { rewrite Hc. by rewrite Hplan. }
  destruct (_execute_direct_plan dims plan (p_fetched p)) as [d r]. split; [done|]. cbn [snd].
  apply returns_bind; [exact Hr'|done].
Qed.

End total.


Module Demo.
Import Reassembler.Demo.

#[export] Instance laws : CaptureLaws.
Proof.
  constructor.
  - intros v e. cbn. repeat (match goal with |- context [match ?x with _ => _ end] => destruct x end; try done);
      intros [= <-]; in_list.
  - intros v parsed. cbn. repeat (match goal with |- context [match ?x with _ => _ end] => destruct x end; try done); by intros [= <-].
  - intros keys frags [] e; [intros [= <-]; in_list|]. cbn. revert e.
    assert (raises_only media_errors (traverse fetch keys)) as H; [|exact H].
    induction keys as [|k keys IH]; cbn [traverse]; [raises_step|]. apply raises_bind; [|intros; apply raises_bind; [done|intros; raises_step]].
    unfold fetch. destruct (String.eqb _ _); [raises_step|]. destruct (String.eqb _ _); raises_step.
  - intros keys frags [] l; [done|]. intros H%traverse_Ok. symmetry. by eapply Forall2_length.
  - done.
  - intros keys frags [] l i f; [done|]. intros H%traverse_Ok Hi Hf.
    apply (Forall2_Forall_r _ (fun i => fragment i = None)) in H; [|apply Forall_forall; intros k _ y; by intros [? _]%fetch_item].
    rewrite Forall_forall in H. rewrite (H i Hi) in Hf. done.
  - intros parsed l e. cbn. destruct (links_fine parsed l); [done|]. intros [= <-]. in_list.
  - intros parsed l lin. cbn. destruct (links_fine parsed l) eqn:E; [|done]. intros [= <-]. cbn [link_spans linear].
    unfold links_fine in E. apply andb_true_iff in E as [E1 E2]. destruct l as [|s l]; [done|]. split; [exists s, l; split; [done|lia]|].
    rewrite forallb_forall in E1. apply Forall_forall. intros x Hx%list_elem_of_In%E1.
    rewrite !andb_true_iff, bool_decide_eq_true, !Z.leb_le in Hx. tauto.
  - intros items e [= <-]. in_list.
  - intros i e [= <-]. in_list.
  - done.
  - intros c g n _ _. by eexists.
  - intros c g n m _ _. cbn. destruct (Z.eqb_spec n (c + g)); [by intros [= <-]|]. destruct (_ && _) eqn:E; intros [= <-]; [lia|done].
  - intros s e [= <-]. in_list.
  - done.
Qed.


(** What the store may hold and the laws exclude: a fragment without layers.  The
    layout learned from it is refused outside any handler. *)
Definition no_layers : RouteFragment := mkFragment (Routes Int16 0 1 (replicate 5 [])) 3 "null".
Definition other_source : TokenSource := {|
  fetch_for_finalization keys frags tk := Ok [mkFetched gym "run/a" ("a", 2, 3) 5 (Some no_layers) false false None;
                                             mkFetched gym "run/b" ("b", 1, 2) 4 None false false None];
  fetch_media items := Raise KeyError;
  Occurrences := unit;
  verified_media_items i := Raise ValueError;
  verify_media_geometry o p := Ok tt |}.
Definition direct : RolloutReassembler := mkReassembler "train" "staging" 0 8 None None true false false None None None 0.

Example fragment_without_layers_raises :
  (@finalize_rollout gym other_source direct None "run" (stored "run") f1 req).2 = Raise ValueError.
Proof. vm_compute. reflexivity. Qed.
End Demo.
