(* ===== verification/LogicalRows.v ===== *)
(** * The rows of the owners of a forest group
    ([RolloutReassembler._finalize_logical_rows] of
    [experience/rollout_reassembler.py])

    Every logical rollout (an owner) has one row per planned path
    ([ForestPlan]).  The rows are finalized one after another; a call several
    paths share trains in the first of them.  An owner's rows are kept or
    dropped together. *)

From S2P Require Import Prelude.
From S2P Require Import PyVal.
From S2P Require Import StateErr.
From S2P Require Import Recovery.
From S2P Require Import ForestPlan.
From S2P Require Import Rewards.
From S2P Require Import Media.
From S2P Require Import DataPlaneMeta.
From S2P Require Import LogicalOwners.
From S2P Require Import Reassembler.
#[local] Open Scope string_scope.
#[local] Open Scope Z_scope.

Record LogicalRows := mkLogical {
  rows : list FinalizedRollout;
  prompt_ids : list (list Z);
  lr_mask_sample : list bool;
  row_tags : list tag;
  lr_staging_keys : list string;
  lr_truncated : list bool;
  valid_owner_count : Z }.

Definition no_rows : LogicalRows := mkLogical [] [] [] [] [] [] 0.
Definition append_rows (a b : LogicalRows) : LogicalRows :=
  mkLogical (rows a ++ rows b) (prompt_ids a ++ prompt_ids b) (lr_mask_sample a ++ lr_mask_sample b)
    (row_tags a ++ row_tags b) (lr_staging_keys a ++ lr_staging_keys b) (lr_truncated a ++ lr_truncated b)
    (valid_owner_count a + valid_owner_count b).

(** [replace(row, ...)]. *)
Definition with_id_and_reward (rollout_id : string) (reward : float) (r : FinalizedRollout) : FinalizedRollout :=
  mkFinalized rollout_id (valid r) (rejection_reason r) (token_ids r) (token_mask r) (logprobs r) (prompt_len r) reward
    (staging_keys r) (min_wv r) (max_wv r) (routed_experts r) (route_plan r) (model_call_ids r) (media r)
    (fr_penalty_counts r) (reward_metrics r) (topk r) (output_masks r) (generation_lengths r).
(** The placeholder of an owner that is not valid, made from its first row. *)
Definition invalid_owner (rollout_id : string) (r : FinalizedRollout) : FinalizedRollout :=
  mkFinalized rollout_id false (Some (mkRejection "logical_owner_invalid" NoDetail)) [] [] [] 0 (fr_reward r)
    (staging_keys r) (min_wv r) (max_wv r) None None [] None
    (fr_penalty_counts r) (reward_metrics r) (topk r) None (generation_lengths r).

Definition is_finite (x : float) : bool :=
  match x with SpecFloat.S754_infinity _ | SpecFloat.S754_nan => false | _ => true end.

Section logical.
Context `{TokenSource} (self : RolloutReassembler).

(** ** One segment *)

(** What the loop over an owner's segments has found so far. *)
Record OwnerState := mkOwner {
  rebuilt : list FinalizedRollout;
  reward_row : option FinalizedRollout;
  parsed_receipts : list (option RolloutReceipt);
  owner_valid : bool;
  owner_records : list (string * CallRecord);
  owner_flags : list (string * ActionOutputFlags);
  owner_responses : gset string;
  owned_responses : list (gset string);
  owner_keys : list string }.
Definition new_owner : OwnerState := mkOwner [] None [] true [] [] ∅ [] [].

(** The loop over the flags: a response must be given the same flags again. *)
Fixpoint merge_flags (l : list (string * ActionOutputFlags)) (flags : list (string * ActionOutputFlags)) (ok : bool)
  : list (string * ActionOutputFlags) * bool :=
  match l with
  | [] => (flags, ok)
  | (r, f) :: rest =>
      let ok := match kv_get r flags with Some f' => ok && bool_decide (f' = f) | None => ok end in
      merge_flags rest (kv_set r f flags) ok
  end.

(** No call of the row contradicts what an earlier segment said about it. *)
Definition call_agrees (st : OwnerState) (c : CallRecord) : bool :=
  match kv_get (model_call_id c) (owner_records st) with
  | Some c' => bool_decide (c' = c)
  | None => negb (bool_decide (response_id c ∈ owner_responses st))
  end.

Definition selection_agrees (seen : gset string) (st : OwnerState) (selected actual : list string) : bool :=
  negb (bool_decide (selected = []))
  && forallb (fun r => negb (String.eqb r "")) selected
  && bool_decide (NoDup selected)
  && forallb (fun r => negb (bool_decide (r ∈ seen))) selected
  && match last selected with Some r => negb (bool_decide (r ∈ owner_responses st)) | None => true end
  && bool_decide (actual = selected).

Definition parse_segment (expected_id : string) (segment : SegmentReceipt) : res (option RolloutReceipt) :=
  _ ← raise_if (negb (String.eqb (capture_rollout_id segment) expected_id)) ValueError;
  match receipt segment with
  | None => Ok None
  | Some d =>
      parsed ← receipt_validate (VDict d);
      foreign ← (if negb (String.eqb (receipt_capture_key parsed) expected_id) then Ok true
                 else foreign_entry gym_staging_key expected_id (manifest parsed));
      _ ← raise_if foreign ValueError;
      Ok (Some parsed)
  end.

(** The row that carries the reward is the first whose path holds the scored
    call. *)
Definition applies_reward (scored_call : option string) (st : OwnerState) (parsed : option RolloutReceipt) : bool :=
  bool_decide (reward_row st = None)
  && match parsed with
     | Some p => existsb (fun c => bool_decide (Some (model_call_id c) = scored_call)) (manifest p)
     | None => false
     end.

Definition segment_request (scored_call : option string) (checks : option RewardChecks) (st : OwnerState)
  (parsed : option RolloutReceipt) (segment : SegmentReceipt) : request :=
  mkRequest true (segment_flags segment) (list_to_set (owner_records st).*1) checks
    (if applies_reward scored_call st parsed then scored_call else None).

(** What a finalized segment adds to its owner. *)
Definition add_segment (seen : gset string) (scored_call : option string) (st : OwnerState)
  (parsed : option RolloutReceipt) (segment : SegmentReceipt) (row : FinalizedRollout) : res OwnerState :=
  let selected := selected_response_ids segment in
  records ← traverse (fun i => match parsed ≫= (fun p => find_call i (manifest p)) with Some c => Ok c | None => Raise KeyError end)
              (model_call_ids row);
  let '(flags, flags_ok) := merge_flags (zip selected (default [] (segment_flags segment))) (owner_flags st) true in
  let selection_valid := selection_agrees seen st selected (response_id <$> records)
                         && forallb (call_agrees st) records && flags_ok in
  Ok (mkOwner (rebuilt st ++ [row])
        (if applies_reward scored_call st parsed then Some row else reward_row st)
        (parsed_receipts st ++ [parsed])
        (owner_valid st && valid row && selection_valid)
        (if selection_valid then foldl (fun d c => kv_set (model_call_id c) c d) (owner_records st) records else owner_records st)
        flags
        (if selection_valid then owner_responses st ∪ list_to_set selected else owner_responses st)
        (owned_responses st ++ [list_to_set selected ∖ owner_responses st])
        (owner_keys st ++ match parsed with Some p => manifest_keys p | None => [] end))%list.

(** The learned route dimensions are the state; [finalize_rollout] raises only
    outside the laws of its neighbours. *)
Abbreviation M := (SE (option (Z * Z))) (only parsing).

Fixpoint segments_loop (expected_id : string) (reward : float) (checks : option RewardChecks) (scored_call : option string)
  (seen : gset string) (segments : list SegmentReceipt) (st : OwnerState) : M OwnerState :=
  match segments with
  | [] => mret st
  | segment :: rest =>
      parsed ← lift (parse_segment expected_id segment);
      row ← (fun dims => finalize_rollout self dims expected_id (receipt segment) reward (segment_request scored_call checks st parsed segment));
      st ← lift (add_segment seen scored_call st parsed segment row);
      segments_loop expected_id reward checks scored_call seen rest st
  end.

(** ** One owner *)

(** The selected root of the first segment. *)
Definition roots_of (parsed : option RolloutReceipt) (selected : list string) : list CallRecord :=
  match parsed, selected with
  | Some p, first :: _ => List.filter (fun c => String.eqb (response_id c) first && bool_decide (parent_call_id c = None)) (manifest p)
  | _, _ => []
  end.

Definition failed_capture (parsed : option RolloutReceipt) (selected : list string) : bool :=
  match parsed with Some p => capture_poisoned p && bool_decide (selected = []) | None => false end.

(** The prompt the group is formed by: of the first segment, or of its sound root
    when a later call spoiled the segment. *)
Definition initial_prompt (expected_id : string) (reward : float) (segment : SegmentReceipt)
  (parsed : option RolloutReceipt) (first : FinalizedRollout) : M (list Z) :=
  let selected := selected_response_ids segment in
  let roots := roots_of parsed selected in
  _ ← guard (negb (failed_capture parsed selected) && negb (length roots =? 1)%nat) ValueError;
  if failed_capture parsed selected then mret [pad_token_id self]
  else if valid first then
    call ← lift (get_index (model_call_ids first) 0);
    root ← lift (get_index roots 0);
    _ ← guard (negb (String.eqb call (model_call_id root))) ValueError;
    mret (py_slice 0 (prompt_len first) (token_ids first))
  else
    root_call ← lift (get_index roots 0);
    built ← lift (receipt_build (mkReceipt (capture_rollout_id segment) roots (Some (model_call_id root_call)) (Some "declared") false None));
    root ← (fun dims => finalize_rollout self dims (capture_rollout_id segment) (Some (receipt_dump built)) reward (mkRequest true None ∅ None None));
    _ ← guard (negb (valid root)) ValueError;
    mret (py_slice 0 (prompt_len root) (token_ids root)).

Definition vbool_count (f : ActionOutputFlags -> bool) (flags : list ActionOutputFlags) : Z :=
  Z.of_nat (length (List.filter f flags)).

(** [asdict(LogicalRowTag(...)) | {counts}]. *)
Definition row_tag (group_id owner : string) (slot n segment_index segment_count : Z)
  (owned : gset string) (segment : SegmentReceipt) : tag :=
  let flags := snd <$> List.filter (fun rf => bool_decide (rf.1 ∈ owned))
                 (zip (selected_response_ids segment) (default [] (segment_flags segment))) in
  [(VStr "dispatch_group_id", VStr group_id); (VStr "logical_rollout_id", VStr owner); (VStr "logical_slot", VInt slot);
   (VStr "logical_group_size", VInt n); (VStr "segment_index", VInt segment_index); (VStr "segment_count", VInt segment_count);
   (VStr "is_execution_padding", VBool false);
   (VStr "num_invalid_tool_calls", VInt (vbool_count invalid_tool_call flags));
   (VStr "num_malformed_thinking", VInt (vbool_count malformed_thinking flags));
   (VStr "num_assistant_messages", VInt (Z.of_nat (base.size owned)))].

(** The owner's rows: all of them with the scored reward, or as many
    placeholders. *)
Definition owner_rows (owner_id : string) (st : OwnerState) (first : FinalizedRollout) : res (list FinalizedRollout) :=
  if owner_valid st then
    match reward_row st with
    | None => Raise ValueError
    | Some r => Ok (imap (fun i row => with_id_and_reward (forest_segment_id owner_id (Z.of_nat i)) (fr_reward r) row) (rebuilt st))
    end
  else Ok (imap (fun i _ => invalid_owner (forest_segment_id owner_id (Z.of_nat i)) first) (rebuilt st)).

Definition finalize_owner (group_id expected_id owner_id : string) (slot n : Z) (scored_call : option string)
  (segments : list SegmentReceipt) (reward : float) (owner_mask : bool) (checks : option RewardChecks) (seen : gset string)
  : M (LogicalRows * gset string) :=
  st ← segments_loop expected_id reward checks scored_call seen segments new_owner;
  segment ← lift (get_index segments 0);
  first ← lift (get_index (rebuilt st) 0);
  parsed ← lift (get_index (parsed_receipts st) 0);
  prompt ← initial_prompt expected_id reward segment parsed first;
  _ ← guard (bool_decide (prompt = [])) ValueError;
  out ← lift (owner_rows owner_id st first);
  let k := length segments in
  mret (mkLogical out (replicate k prompt) (replicate k owner_mask)
          (imap (fun i so => row_tag group_id owner_id slot n (Z.of_nat i) (Z.of_nat (length out)) so.2 so.1) (zip segments (owned_responses st)))
          (owner_keys st) (replicate k (existsb segment_truncated segments)) (if owner_valid st then 1 else 0),
        seen ∪ owner_responses st).

(** ** The group *)

Fixpoint owners_loop (group_id : string) (n : Z) (receipts : list (option dict)) (reward_checks_ : list (option RewardChecks))
  (slot : nat) (owners : list (string * string * list SegmentReceipt * float * bool)) (seen : gset string) (prepared : LogicalRows)
  : M LogicalRows :=
  match owners with
  | [] => mret prepared
  | (owner_id, expected_id, segments, reward, mask) :: rest =>
      _ ← guard (bool_decide (segments = [])) ValueError;
      r ← lift (get_index receipts slot);
      parsed ← lift (receipt_validate (match r with Some d => VDict d | None => VNone end));
      checks ← lift (get_index reward_checks_ slot);
      '(out, seen) ← finalize_owner group_id expected_id owner_id (Z.of_nat slot) n (terminal_model_call_id parsed) segments reward mask checks seen;
      owners_loop group_id n receipts reward_checks_ (S slot) rest seen (append_rows prepared out)
  end.

(** [zip(..., strict=True)]: what the loop sees before it finds the lists
    unequal. *)
Definition zip_owners (canonical expected : list string) (segments : list (list SegmentReceipt)) (rewards : list float) (mask : list bool) :=
  zip (zip (zip (zip canonical expected) segments) rewards) mask.

Definition _finalize_logical_rows (group_id : string) (rollout_ids : list string) (logical_segments : list (list SegmentReceipt))
  (rewards : list float) (mask_sample : list bool) (canonical_sample_ids : list string) (receipts : list (option dict))
  (reward_checks_ : list (option RewardChecks)) : M LogicalRows :=
  let n := length rollout_ids in
  _ ← guard ((n =? 0)%nat || negb (length logical_segments =? n)%nat) ValueError;
  _ ← guard (negb (bool_decide (canonical_sample_ids = (fun i => owner_id group_id (Z.of_nat i)) <$> seq 0 n))) ValueError;
  _ ← guard (negb (forallb is_finite rewards)) ValueError;
  _ ← guard (defer_routed_experts_to_policy self) ValueError;
  prepared ← owners_loop group_id (Z.of_nat n) receipts reward_checks_ 0
               (zip_owners canonical_sample_ids rollout_ids logical_segments rewards mask_sample) ∅ no_rows;
  _ ← guard (negb (length rewards =? n)%nat || negb (length mask_sample =? n)%nat) ValueError;
  mret (mkLogical (rows prepared) (prompt_ids prepared) (lr_mask_sample prepared) (row_tags prepared)
          (fromkeys [] (lr_staging_keys prepared)) (lr_truncated prepared) (valid_owner_count prepared)).
End logical.

(** ** Lookup tables *)

Lemma elem_of_kv_set_fst {V} k k' (v : V) d : k ∈ (kv_set k' v d).*1 <-> k = k' \/ k ∈ d.*1.
Proof.
  rewrite kv_set_fst. destruct (decide (k' ∈ d.*1)) as [Hin|Hn].
  - split; [by right|]. by intros [->|?].
  - rewrite elem_of_app, list_elem_of_singleton. tauto.
Qed.

Lemma elem_of_foldl_records (l : list CallRecord) : forall d k,
  k ∈ (foldl (fun d c => kv_set (model_call_id c) c d) d l).*1 <-> k ∈ model_call_id <$> l \/ k ∈ d.*1.
Proof.
  induction l as [|c l IH]; intros d k; cbn [foldl fmap list_fmap].
  - split; [by right|]. intros [H|?]; [by apply not_elem_of_nil in H|done].
  - rewrite IH, elem_of_kv_set_fst, elem_of_cons. tauto.
Qed.

Lemma find_call_id i l c : find_call i l = Some c -> model_call_id c = i.
Proof. unfold find_call. intros [_ H]%find_some. by apply String.eqb_eq. Qed.

Section owner.
Context `{TokenSource} (self : RolloutReassembler).

(** The calls of the rows before the [k]-th. *)
Definition earlier_call (l : list FinalizedRollout) (k : nat) (c : string) : Prop :=
  exists j row, (j < k)%nat /\ l !! j = Some row /\ c ∈ model_call_ids row.

(** How a row came about. *)
Definition made_from (expected_id : string) (reward : float) (l : list FinalizedRollout) (segments : list SegmentReceipt)
  (k : nat) (row : FinalizedRollout) : Prop :=
  exists segment dims dims' req, segments !! k = Some segment
    /\ finalize_rollout self dims expected_id (receipt segment) reward req = (dims', Ok row)
    /\ forest_training req = true /\ action_flags req = segment_flags segment
    /\ forall c, c ∈ loss_excluded_call_ids req <-> earlier_call l k c.

Record segments_inv (seen : gset string) (expected_id : string) (reward : float) (done : list SegmentReceipt) (st : OwnerState) : Prop := {
  si_rows : length (rebuilt st) = length done;
  si_owned : length (owned_responses st) = length done;
  si_parsed : length (parsed_receipts st) = length done;
  si_reward : forall r, reward_row st = Some r -> r ∈ rebuilt st;
  si_seen : owner_responses st ## seen;
  si_keys : forall segment d parsed c, segment ∈ done -> receipt segment = Some d -> receipt_validate (VDict d) = Ok parsed ->
    c ∈ manifest_keys parsed -> c ∈ owner_keys st;
  si_valid : owner_valid st = true ->
    Forall (fun row => valid row = true) (rebuilt st)
    /\ (forall segment r, segment ∈ done -> r ∈ selected_response_ids segment -> r ∈ owner_responses st)
    /\ (forall c, c ∈ (owner_records st).*1 <-> earlier_call (rebuilt st) (length done) c)
    /\ forall k row, rebuilt st !! k = Some row -> made_from expected_id reward (rebuilt st) done k row }.

Lemma earlier_call_app l row k c : (k <= length l)%nat -> earlier_call (l ++ [row]) k c <-> earlier_call l k c.
Proof.
  intros Hk. unfold earlier_call. split; intros (j & r & Hj & Hl & Hc); exists j, r; split_and!; try done.
  - by rewrite lookup_app_l in Hl by lia.
  - by rewrite lookup_app_l by lia.
Qed.

Lemma earlier_call_snoc l row c : earlier_call (l ++ [row]) (S (length l)) c <-> c ∈ model_call_ids row \/ earlier_call l (length l) c.
Proof.
  split.
  - intros (j & r & Hj & Hl & Hc). destruct (decide (j = length l)) as [->|Hne].
    + rewrite lookup_app_r in Hl by lia. rewrite Nat.sub_diag in Hl. injection Hl as <-. by left.
    + right. exists j, r. split_and!; [lia| |done]. by rewrite lookup_app_l in Hl by lia.
  - intros [Hc|(j & r & Hj & Hl & Hc)].
    + exists (length l), row. split_and!; [lia| |done]. rewrite lookup_app_r by lia. by rewrite Nat.sub_diag.
    + exists j, r. split_and!; [lia| |done]. by rewrite lookup_app_l by lia.
Qed.

Lemma records_of_row l (p : option RolloutReceipt) records :
  traverse (fun i => match p ≫= (fun p => find_call i (manifest p)) with Some c => Ok c | None => Raise KeyError end) l = Ok records ->
  model_call_id <$> records = l.
Proof.
  intros Ht%traverse_Ok. induction Ht as [|i c l records Hc _ IH]; [done|]. rewrite fmap_cons. f_equal; [|done].
  destruct p as [p|]; [|done]. cbn in Hc. destruct (find_call i (manifest p)) eqn:E; [|done]. injection Hc as <-.
  by eapply find_call_id.
Qed.

Lemma selection_fresh seen st selected actual : selection_agrees seen st selected actual = true ->
  forall r, r ∈ selected -> r ∉ seen.
Proof.
  unfold selection_agrees. rewrite !andb_true_iff. intros (((((_ & _) & _) & Hall) & _) & _) r Hr.
  rewrite forallb_forall in Hall. apply list_elem_of_In, Hall in Hr. by apply negb_true_iff, bool_decide_eq_false in Hr.
Qed.

Lemma parse_segment_spec expected_id segment parsed : parse_segment expected_id segment = Ok parsed ->
  forall d p, receipt segment = Some d -> receipt_validate (VDict d) = Ok p -> parsed = Some p.
Proof.
  unfold parse_segment. intros (_ & _ & Hp)%bind_Ok d p Hd Hv. rewrite Hd in Hp.
  apply bind_Ok in Hp as (p' & Hp' & (foreign & _ & (_ & _ & [= <-])%bind_Ok)%bind_Ok). congruence.
Qed.

Lemma add_segment_inv seen expected_id reward scored checks done st parsed segment dims dims' row st' :
  segments_inv seen expected_id reward done st ->
  parse_segment expected_id segment = Ok parsed ->
  finalize_rollout self dims expected_id (receipt segment) reward (segment_request scored checks st parsed segment) = (dims', Ok row) ->
  add_segment seen scored st parsed segment row = Ok st' ->
  segments_inv seen expected_id reward (done ++ [segment]) st'.
Proof.
  intros [Hrows Howned Hparsed Hrw Hseen Hkeys Hv] Hpar Hfin Hadd.
  pose proof (parse_segment_spec _ _ _ Hpar) as Hreceipt. unfold add_segment in Hadd.
  apply bind_Ok in Hadd as (records & Hrec%records_of_row & Hadd).
  destruct (merge_flags _ _ _) as [flags flags_ok].
  set (ok := selection_agrees seen st (selected_response_ids segment) (response_id <$> records) && forallb (call_agrees st) records && flags_ok) in Hadd.
  assert (ok = true -> forall r, r ∈ selected_response_ids segment -> r ∉ seen) as Hfresh.
  { intros [[Hsel _]%andb_true_iff _]%andb_true_iff. by eapply selection_fresh. }
  injection Hadd as <-. constructor; cbn [rebuilt owned_responses parsed_receipts reward_row owner_valid owner_records owner_responses owner_keys].
  1-3: rewrite !length_app; cbn; lia.
  - intros r. destruct (applies_reward _ _ _); [intros [= <-]|intros Hr%Hrw]; apply elem_of_app; [right; left|by left].
  - destruct ok; [|done]. specialize (Hfresh eq_refl). set_solver.
  - intros sg d p c Hsg Hd Hp Hc. apply elem_of_app in Hsg as [Hsg| ->%list_elem_of_singleton]; apply elem_of_app.
    + left. by eapply Hkeys.
    + right. by rewrite (Hreceipt _ _ Hd Hp).
  - intros Hvalid. apply andb_true_iff in Hvalid as [[Hst Hrow]%andb_true_iff Hok].
    destruct (Hv Hst) as (Hall & Hresp & Hcalls & Hmade). rewrite Hok. split_and!.
    + apply Forall_app. split; [done|]. by constructor.
    + intros sg r Hsg Hr. apply elem_of_app in Hsg as [Hsg| ->%list_elem_of_singleton]; apply elem_of_union.
      * left. by eapply Hresp.
      * right. by apply elem_of_list_to_set.
    + intros c. rewrite elem_of_foldl_records, Hrec, Hcalls, length_app. cbn [length].
      rewrite Nat.add_1_r, <- Hrows. symmetry. apply earlier_call_snoc.
    + intros k r Hk. apply lookup_snoc_Some in Hk as [[Hlt Hk]|[-> <-]].
      * destruct (Hmade k r Hk) as (seg & d1 & d2 & req & Hseg & Hf & H1' & H2' & H3'). exists seg, d1, d2, req.
        split_and!; try done; [by rewrite lookup_app_l by lia|]. intros c. rewrite H3'. symmetry. apply earlier_call_app. lia.
      * exists segment, dims, dims', (segment_request scored checks st parsed segment).
        split_and!; try done; [by rewrite lookup_app_r, Hrows, Nat.sub_diag by lia|].
        intros c. cbn [loss_excluded_call_ids segment_request]. rewrite elem_of_list_to_set, Hcalls, <- Hrows.
        symmetry. by apply earlier_call_app.
Qed.

Lemma segments_loop_inv seen expected_id reward checks scored segments : forall done st dims dims' st',
  segments_inv seen expected_id reward done st ->
  segments_loop self expected_id reward checks scored seen segments st dims = (dims', Ok st') ->
  segments_inv seen expected_id reward (done ++ segments) st'.
Proof.
  induction segments as [|segment rest IH]; intros done st dims dims' st' Hinv; cbn [segments_loop].
  - intros [_ ->]%se_ret_Ok. by rewrite app_nil_r.
  - intros (d1 & parsed & [-> Hp]%lift_Ok & (d2 & row & Hrow & (d3 & st1 & [-> Hadd]%lift_Ok & Hloop)%se_bind_Ok)%se_bind_Ok)%se_bind_Ok.
    rewrite cons_middle, app_assoc. eapply IH; [|exact Hloop]. by eapply add_segment_inv.
Qed.

Lemma new_owner_inv seen expected_id reward : segments_inv seen expected_id reward [] new_owner.
Proof.
  constructor; try done; cbn.
  - by intros ? ? ? ? Hin%not_elem_of_nil.
  - intros _. split_and!; [constructor|by intros ? ? Hin%not_elem_of_nil| |done].
    intros c. split; [by intros Hin%not_elem_of_nil|]. intros (j & r & Hj & _). cbn in Hj. lia.
Qed.

(** ** What is prepared of one owner *)

(** A row that is kept: the finalized row [raw] under its own id, with the
    reward of the row of the scored call. *)
Definition kept (owner : string) (reward : float) (raw : list FinalizedRollout) (out : list FinalizedRollout) : Prop :=
  out = imap (fun i row => with_id_and_reward (forest_segment_id owner (Z.of_nat i)) reward row) raw
  /\ reward ∈ fr_reward <$> raw /\ Forall (fun row => valid row = true) raw.

(** A row that holds the place of one that is dropped. *)
Definition placeholder (row : FinalizedRollout) : Prop :=
  valid row = false /\ token_ids row = [] /\ token_mask row = [] /\ logprobs row = [] /\ model_call_ids row = []
  /\ media row = None /\ routed_experts row = None /\ route_plan row = None.

Record owner_block (group_id expected_id owner : string) (slot n : Z) (reward : float) (mask : bool) (segments : list SegmentReceipt)
  (seen seen' : gset string) (out : LogicalRows) : Prop := {
  ob_ids : fr_rollout_id <$> rows out = (fun i => forest_segment_id owner (Z.of_nat i)) <$> seq 0 (length segments);
  ob_prompt : exists prompt, prompt <> [] /\ prompt_ids out = replicate (length segments) prompt;
  ob_mask : lr_mask_sample out = replicate (length segments) mask;
  ob_truncated : lr_truncated out = replicate (length segments) (existsb segment_truncated segments);
  ob_tags : length (row_tags out) = length segments /\ forall i t, row_tags out !! i = Some t ->
    exists owned segment, segments !! i = Some segment
      /\ t = row_tag group_id owner slot n (Z.of_nat i) (Z.of_nat (length segments)) owned segment;
  ob_keys : forall segment d parsed c, segment ∈ segments -> receipt segment = Some d -> receipt_validate (VDict d) = Ok parsed ->
    c ∈ manifest_keys parsed -> c ∈ lr_staging_keys out;
  ob_seen : seen ⊆ seen';
  ob_rows :
    (valid_owner_count out = 1
     /\ (exists raw scored, kept owner scored raw (rows out)
         /\ forall k row, raw !! k = Some row -> made_from expected_id reward raw segments k row)
     /\ forall segment r, segment ∈ segments -> r ∈ selected_response_ids segment -> r ∈ seen' /\ r ∉ seen)
    \/ (valid_owner_count out = 0 /\ Forall placeholder (rows out)) }.

Lemma imap_ids {A} (f : nat -> A -> FinalizedRollout) owner (l : list A) :
  (forall i a, fr_rollout_id (f i a) = forest_segment_id owner (Z.of_nat i)) ->
  fr_rollout_id <$> imap f l = (fun i => forest_segment_id owner (Z.of_nat i)) <$> seq 0 (length l).
Proof.
  intros Hf. apply list_eq. intros i. rewrite !list_lookup_fmap, list_lookup_imap.
  destruct (l !! i) as [a|] eqn:E.
  - apply lookup_lt_Some in E as Hlt. rewrite lookup_seq_lt by done. cbn. by rewrite Hf.
  - apply lookup_ge_None in E. rewrite lookup_seq_ge by done. done.
Qed.

Lemma finalize_owner_block group_id expected_id owner slot n scored segments reward mask checks seen dims dims' out seen' :
  finalize_owner self group_id expected_id owner slot n scored segments reward mask checks seen dims = (dims', Ok (out, seen')) ->
  owner_block group_id expected_id owner slot n reward mask segments seen seen' out.
Proof.
  intros (d1 & st & Hloop & Hf)%se_bind_Ok.
  pose proof (segments_loop_inv _ _ _ _ _ _ [] _ _ _ _ (new_owner_inv seen expected_id reward) Hloop) as Hinv.
  destruct Hinv as [Hrows Howned _ Hreward Hseen Hkeys Hvalid]. cbn [app] in *.
  apply se_bind_Ok in Hf as (d2 & segment & [-> _]%lift_Ok & Hf).
  apply se_bind_Ok in Hf as (d3 & first & [-> Hfirst]%lift_Ok & Hf).
  apply se_bind_Ok in Hf as (d4 & parsed & [-> _]%lift_Ok & Hf).
  apply se_bind_Ok in Hf as (d5 & prompt & _ & Hf).
  apply se_bind_Ok in Hf as (d6 & [] & [-> Hprompt%bool_decide_eq_false]%guard_Ok & Hf).
  apply se_bind_Ok in Hf as (d7 & new & [-> Hnew]%lift_Ok & [-> [= -> ->]]%se_ret_Ok).
  assert (length new = length segments) as Hlen.
  { unfold owner_rows in Hnew. destruct (owner_valid st); [destruct (reward_row st); [|done]|]; injection Hnew as <-;
      by rewrite length_imap. }
  constructor; cbn [rows prompt_ids lr_mask_sample row_tags lr_staging_keys lr_truncated valid_owner_count]; try done.
  - unfold owner_rows in Hnew. destruct (owner_valid st); [destruct (reward_row st); [|done]|]; injection Hnew as <-;
      rewrite (imap_ids _ owner) by done; by rewrite Hrows.
  - by eexists.
  - split; [rewrite length_imap, length_zip_with; lia|]. intros i t Ht. rewrite list_lookup_imap in Ht.
    destruct (zip segments (owned_responses st) !! i) as [[sg owned]|] eqn:E; [|done]. injection Ht as <-.
    apply lookup_zip_with_Some in E as (? & ? & [= <- <-] & Hs & _). rewrite Hlen. eauto.
  - set_solver.
  - unfold owner_rows in Hnew. destruct (owner_valid st); [left|right]; split; try done.
    + destruct (Hvalid eq_refl) as (Hall & Hresp & _ & Hmade). split.
      * destruct (reward_row st) as [r|] eqn:Er; [|done]. injection Hnew as <-. exists (rebuilt st), (fr_reward r).
        split; [|done]. unfold kept. split_and!; [done| |done]. apply list_elem_of_fmap. eauto.
      * intros sg r Hsg Hr. specialize (Hresp _ _ Hsg Hr). set_solver.
    + injection Hnew as <-. apply Forall_lookup. intros i row. rewrite list_lookup_imap.
      destruct (rebuilt st !! i); [|done]. by intros [= <-].
Qed.

(** ** The blocks of a group *)

Inductive owner_blocks (group_id : string) (n : Z) :
  nat -> list (string * string * list SegmentReceipt * float * bool) -> gset string -> list LogicalRows -> Prop :=
| no_blocks slot seen : owner_blocks group_id n slot [] seen []
| next_block slot owner expected_id segments reward mask rest seen seen' b bs :
    segments <> [] ->
    owner_block group_id expected_id owner (Z.of_nat slot) n reward mask segments seen seen' b ->
    owner_blocks group_id n (S slot) rest seen' bs ->
    owner_blocks group_id n slot ((owner, expected_id, segments, reward, mask) :: rest) seen (b :: bs).

Lemma owners_loop_blocks group_id n receipts checks owners : forall slot seen prepared dims dims' out,
  owners_loop self group_id n receipts checks slot owners seen prepared dims = (dims', Ok out) ->
  exists bs, out = foldl append_rows prepared bs /\ owner_blocks group_id n slot owners seen bs.
Proof.
  induction owners as [|[[[[owner expected_id] segments] reward] mask] rest IH]; intros slot seen prepared dims dims' out.
  - intros [_ ->]%se_ret_Ok. exists []. split; [done|constructor].
  - cbn [owners_loop]. intros (d1 & [] & [-> Hne%bool_decide_eq_false]%guard_Ok & H')%se_bind_Ok.
    apply se_bind_Ok in H' as (d2 & r & [-> _]%lift_Ok & H').
    apply se_bind_Ok in H' as (d3 & parsed & [-> _]%lift_Ok & H').
    apply se_bind_Ok in H' as (d4 & ck & [-> _]%lift_Ok & H').
    apply se_bind_Ok in H' as (d5 & [b seen'] & Hb%finalize_owner_block & (bs & -> & Hbs)%IH).
    exists (b :: bs). split; [done|]. by econstructor.
Qed.

Lemma foldl_append bs : forall p, let out := foldl append_rows p bs in
  rows out = (rows p ++ concat (rows <$> bs))%list /\ prompt_ids out = (prompt_ids p ++ concat (prompt_ids <$> bs))%list
  /\ lr_mask_sample out = (lr_mask_sample p ++ concat (lr_mask_sample <$> bs))%list
  /\ row_tags out = (row_tags p ++ concat (row_tags <$> bs))%list
  /\ lr_staging_keys out = (lr_staging_keys p ++ concat (lr_staging_keys <$> bs))%list
  /\ lr_truncated out = (lr_truncated p ++ concat (lr_truncated <$> bs))%list
  /\ valid_owner_count out = valid_owner_count p + foldr Z.add 0 (valid_owner_count <$> bs).
Proof.
  induction bs as [|b bs IH]; intros p; cbn [foldl fmap list_fmap concat foldr]; [rewrite !app_nil_r; split_and!; try done; lia|].
  destruct (IH (append_rows p b)) as (-> & -> & -> & -> & -> & -> & ->).
  cbn [append_rows rows prompt_ids lr_mask_sample row_tags lr_staging_keys lr_truncated valid_owner_count].
  rewrite <- !app_assoc. split_and!; try done. lia.
Qed.

Lemma owner_blocks_length group_id n slot owners seen bs : owner_blocks group_id n slot owners seen bs -> length bs = length owners.
Proof. induction 1; cbn; congruence. Qed.

Lemma owner_blocks_lookup group_id n slot owners seen bs : owner_blocks group_id n slot owners seen bs ->
  forall i owner expected_id segments reward mask, owners !! i = Some (owner, expected_id, segments, reward, mask) ->
  exists b seen1 seen2, bs !! i = Some b /\ segments <> [] /\ seen ⊆ seen1
    /\ owner_block group_id expected_id owner (Z.of_nat (slot + i)) n reward mask segments seen1 seen2 b.
Proof.
  induction 1 as [|slot o e sg rw m rest seen seen' b bs Hne Hb _ IH]; intros [|i] *; cbn [lookup list_lookup]; intros Hi; try done.
  - injection Hi as -> -> -> -> ->. exists b, seen, seen'. rewrite Nat.add_0_r. done.
  - apply IH in Hi as (b' & s1 & s2 & Hb' & Hne' & Hs & Hbl). exists b', s1, s2. split_and!; try done.
    + pose proof (ob_seen _ _ _ _ _ _ _ _ _ _ _ Hb). set_solver.
    + by rewrite <- Nat.add_succ_comm.
Qed.

(** Later owners keep their hands off what a kept owner selected. *)
Lemma owner_blocks_disjoint group_id n slot owners seen bs : owner_blocks group_id n slot owners seen bs ->
  forall i j o e sg rw m o' e' sg' rw' m' b b', (i < j)%nat ->
  owners !! i = Some (o, e, sg, rw, m) -> owners !! j = Some (o', e', sg', rw', m') ->
  bs !! i = Some b -> bs !! j = Some b' -> valid_owner_count b = 1 -> valid_owner_count b' = 1 ->
  forall s s' r, s ∈ sg -> s' ∈ sg' -> r ∈ selected_response_ids s -> r ∉ selected_response_ids s'.
Proof.
  induction 1 as [|slot o e sg rw m rest seen seen' b bs Hne Hb Hbs IH]; intros i j *; [done|].
  destruct j as [|j]; [lia|]. destruct i as [|i]; cbn [lookup list_lookup].
  - intros _ [= <- <- <- <- <-] Hj [= <-] Hbj Hv Hv' s s' r Hs Hs' Hr Hr'.
    destruct (owner_blocks_lookup _ _ _ _ _ _ Hbs _ _ _ _ _ _ Hj) as (b2 & s1 & s2 & Hb2 & _ & Hsub & Hbl).
    change (bs !! j = Some b') in Hbj. assert (b2 = b') as -> by congruence.
    destruct (ob_rows _ _ _ _ _ _ _ _ _ _ _ Hb) as [(_ & _ & Hin)|[? _]]; [|lia].
    destruct (ob_rows _ _ _ _ _ _ _ _ _ _ _ Hbl) as [(_ & _ & Hin')|[? _]]; [|lia].
    destruct (Hin _ _ Hs Hr) as [Hin1 _]. destruct (Hin' _ _ Hs' Hr') as [_ Hn]. set_solver.
  - intros Hlt. eapply IH. lia.
Qed.

(** The prepared rows of a group are the blocks of its owners, in order. *)
Record group_blocks (group_id : string) (rollout_ids : list string) (segments : list (list SegmentReceipt)) (rewards : list float)
  (mask : list bool) (out : LogicalRows) (bs : list LogicalRows) : Prop := {
  gb_length : length bs = length rollout_ids;
  gb_rows : rows out = concat (rows <$> bs);
  gb_prompts : prompt_ids out = concat (prompt_ids <$> bs);
  gb_mask : lr_mask_sample out = concat (lr_mask_sample <$> bs);
  gb_tags : row_tags out = concat (row_tags <$> bs);
  gb_truncated : lr_truncated out = concat (lr_truncated <$> bs);
  gb_count : valid_owner_count out = foldr Z.add 0 (valid_owner_count <$> bs);
  gb_keys : NoDup (lr_staging_keys out) /\ forall k, k ∈ lr_staging_keys out <-> exists b, b ∈ bs /\ k ∈ lr_staging_keys b;
  gb_blocks : forall i b, bs !! i = Some b -> exists expected_id sg reward m seen seen',
    rollout_ids !! i = Some expected_id /\ segments !! i = Some sg /\ rewards !! i = Some reward /\ mask !! i = Some m /\ sg <> []
    /\ owner_block group_id expected_id (owner_id group_id (Z.of_nat i)) (Z.of_nat i) (Z.of_nat (length rollout_ids)) reward m sg seen seen' b;
  gb_disjoint : forall i j sg sg' b b', (i < j)%nat -> segments !! i = Some sg -> segments !! j = Some sg' ->
    bs !! i = Some b -> bs !! j = Some b' -> valid_owner_count b = 1 -> valid_owner_count b' = 1 ->
    forall s s' r, s ∈ sg -> s' ∈ sg' -> r ∈ selected_response_ids s -> r ∉ selected_response_ids s' }.

Lemma zip_owners_lookup canonical expected segments rewards mask i : length canonical = length expected ->
  length segments = length expected -> length rewards = length expected -> length mask = length expected -> (i < length expected)%nat ->
  exists c e sg r m, canonical !! i = Some c /\ expected !! i = Some e /\ segments !! i = Some sg /\ rewards !! i = Some r /\ mask !! i = Some m
    /\ zip_owners canonical expected segments rewards mask !! i = Some (c, e, sg, r, m).
Proof.
  intros H1 H2 H3 H4 Hi.
  destruct (lookup_lt_is_Some_2 canonical i) as [c Hc]; [lia|]. destruct (lookup_lt_is_Some_2 expected i) as [e He]; [lia|].
  destruct (lookup_lt_is_Some_2 segments i) as [sg Hs]; [lia|]. destruct (lookup_lt_is_Some_2 rewards i) as [r Hr]; [lia|].
  destruct (lookup_lt_is_Some_2 mask i) as [m Hm]; [lia|]. exists c, e, sg, r, m. split_and!; try done.
  unfold zip_owners. rewrite !lookup_zip_with, Hc, He, Hs, Hr, Hm. done.
Qed.

Lemma finalize_logical_rows_blocks group_id rollout_ids segments rewards mask ids receipts checks dims dims' out :
  _finalize_logical_rows self group_id rollout_ids segments rewards mask ids receipts checks dims = (dims', Ok out) ->
  exists bs, group_blocks group_id rollout_ids segments rewards mask out bs.
Proof.
  unfold _finalize_logical_rows. intros (d1 & [] & [-> Hn]%guard_Ok & Hf)%se_bind_Ok.
  apply orb_false_iff in Hn as [_ Hsegs%negb_false_iff%Nat.eqb_eq].
  apply se_bind_Ok in Hf as (d2 & [] & [-> Hids%negb_false_iff%bool_decide_eq_true]%guard_Ok & Hf).
  apply se_bind_Ok in Hf as (d3 & [] & [-> _]%guard_Ok & Hf). apply se_bind_Ok in Hf as (d4 & [] & [-> _]%guard_Ok & Hf).
  apply se_bind_Ok in Hf as (d5 & prepared & (bs & -> & Hbs)%owners_loop_blocks & Hf).
  apply se_bind_Ok in Hf as (d6 & [] & [-> Hl]%guard_Ok & [-> ->]%se_ret_Ok).
  apply orb_false_iff in Hl as [Hrew%negb_false_iff%Nat.eqb_eq Hmask%negb_false_iff%Nat.eqb_eq].
  destruct (foldl_append bs no_rows) as (Hr & Hp & Hm & Ht & Hk & Htr & Hc). cbn [no_rows rows prompt_ids lr_mask_sample row_tags lr_staging_keys lr_truncated valid_owner_count app] in *.
  assert (length ids = length rollout_ids) as Hidl by (by rewrite Hids, length_fmap, length_seq).
  pose proof (owner_blocks_length _ _ _ _ _ _ Hbs) as Hlen.
  assert (length bs = length rollout_ids) as Hlen'.
  { rewrite Hlen. unfold zip_owners. rewrite !length_zip_with. lia. }
  exists bs. constructor; cbn [rows prompt_ids lr_mask_sample row_tags lr_staging_keys lr_truncated valid_owner_count]; try done.
  - rewrite Hk. destruct (fromkeys_spec (concat (lr_staging_keys <$> bs)) []) as [Hin Hnd]. split; [done|].
    intros k. rewrite Hin, list_elem_of_In, in_concat. setoid_rewrite <- list_elem_of_In. split.
    + intros [(l & (b & -> & Hb)%list_elem_of_fmap & Hkl) _]. eauto.
    + intros (b & Hb & Hkb). split; [|by apply not_elem_of_nil]. exists (lr_staging_keys b). split; [|done]. apply list_elem_of_fmap. eauto.
  - intros i b Hb. pose proof (lookup_lt_Some _ _ _ Hb) as Hi. rewrite Hlen' in Hi.
    destruct (zip_owners_lookup ids rollout_ids segments rewards mask i) as (c & e & sg & r & m & Hc' & He & Hs & Hr' & Hm' & Hz); [done..|].
    destruct (owner_blocks_lookup _ _ _ _ _ _ Hbs _ _ _ _ _ _ Hz) as (b' & s1 & s2 & Hb' & Hne & _ & Hbl).
    assert (b' = b) as -> by congruence. exists e, sg, r, m, s1, s2. split_and!; try done.
    rewrite Hids, list_lookup_fmap, lookup_seq_lt in Hc' by done. injection Hc' as <-. done.
  - intros i j sg sg' b b' Hij Hsi Hsj Hbi Hbj. pose proof (lookup_lt_Some _ _ _ Hbj) as Hj. rewrite Hlen' in Hj.
    destruct (zip_owners_lookup ids rollout_ids segments rewards mask i) as (c & e & sg1 & r & m & _ & _ & Hs1 & _ & _ & Hz1); [done..|lia|].
    destruct (zip_owners_lookup ids rollout_ids segments rewards mask j) as (c2 & e2 & sg2 & r2 & m2 & _ & _ & Hs2 & _ & _ & Hz2); [done..|].
    assert (sg1 = sg) as -> by congruence. assert (sg2 = sg') as -> by congruence.
    eapply (owner_blocks_disjoint _ _ _ _ _ _ Hbs i j); done.
Qed.

(** ** Theorems *)


Lemma row_tag_checks group_id slot n k count owned segment : group_id <> "" -> 0 <= slot < n -> 0 <= k < count ->
  check_row n (forest_segment_id (owner_id group_id slot) k) (row_tag group_id (owner_id group_id slot) slot n k count owned segment)
  = Ok (mkRowTag group_id (Some (slot, k, count))).
Proof.
  intros Hg Hslot Hk. unfold check_row, row_tag. cbn -[owner_id forest_segment_id Z.leb Z.ltb Z.eqb vbool_count bool_decide base.size].
  rewrite (bool_decide_false (group_id = "")), Z.eqb_refl by done.
  rewrite !bool_decide_true by done. cbn [orb negb raise_if mbind].
  rewrite (proj2 (Z.leb_le 0 slot)), (proj2 (Z.ltb_lt slot n)), (proj2 (Z.leb_le 0 k)), (proj2 (Z.ltb_lt k count)) by lia. done.
Qed.
(** C16 A generation trains once.  In the rows of a kept owner, the tokens of a call
    carry the verified loss weight in the first row whose path holds the call and
    weight zero in every later one; and no two kept owners selected the same
    response. *)
Theorem shared_calls_train_once group_id rollout_ids segments rewards mask ids receipts checks dims dims' out :
  (forall parsed snaps lin, verify_and_linearize parsed snaps = Ok lin -> linear_ok lin) ->
  _finalize_logical_rows self group_id rollout_ids segments rewards mask ids receipts checks dims = (dims', Ok out) ->
  exists bs, rows out = concat (rows <$> bs)
    /\ (forall i b, bs !! i = Some b -> valid_owner_count b = 1 -> forall k row, rows b !! k = Some row ->
         exists parsed snaps lin excluded, verify_and_linearize parsed snaps = Ok lin
           /\ (token_ids row, model_call_ids row) = (lin_token_ids lin, lin_model_call_ids lin)
           /\ (forall c, c ∈ excluded <-> earlier_call (rows b) k c)
           /\ length (token_mask row) = length (token_ids row)
           /\ forall x, (x < length (token_ids row))%nat ->
                token_mask row !! x = if in_excluded excluded (weight_version_spans lin) x then Some f0 else lin_token_mask lin !! x)
    /\ forall i j sg sg' b b', (i < j)%nat -> segments !! i = Some sg -> segments !! j = Some sg' ->
         bs !! i = Some b -> bs !! j = Some b' -> valid_owner_count b = 1 -> valid_owner_count b' = 1 ->
         forall s s' r, s ∈ sg -> s' ∈ sg' -> r ∈ selected_response_ids s -> r ∉ selected_response_ids s'.
Proof.
  intros Hlaw (bs & [Hlen Hrows _ _ _ _ _ _ Hb Hdis])%finalize_logical_rows_blocks. exists bs. split_and!; [done| |done].
  intros i b Hi Hv k row Hk. destruct (Hb i b Hi) as (e & sg & rw & m & s1 & s2 & _ & _ & _ & _ & _ & Hbl).
  destruct (ob_rows _ _ _ _ _ _ _ _ _ _ _ Hbl) as [(_ & (raw & scored & (Hout & _ & Hvalid) & Hmade) & _)|[? _]]; [|lia].
  assert (forall c, earlier_call (rows b) k c <-> earlier_call raw k c) as Hearlier.
  { intros c. rewrite Hout. unfold earlier_call. split.
    - intros (j & r & Hj & Hl & Hc). rewrite list_lookup_imap in Hl. destruct (raw !! j) as [r'|] eqn:E; [|done]. injection Hl as <-. by exists j, r'.
    - intros (j & r & Hj & Hl & Hc). eexists j, _. split; [done|]. rewrite list_lookup_imap, Hl. split; [reflexivity|done]. }
  rewrite Hout, list_lookup_imap in Hk. destruct (raw !! k) as [row0|] eqn:E; [|done]. injection Hk as <-.
  destruct (Hmade k row0 E) as (segment & d1 & d2 & req & _ & Hfin & _ & _ & Hex).
  rewrite Forall_lookup in Hvalid.
  destruct (valid_row_parts _ _ _ _ _ _ _ _ Hfin (Hvalid _ _ E)) as (d & parsed & p & routes & _ & _ & Hp & _ & Hfinish).
  apply prepare_Got in Hp as (_ & _ & _ & _ & Hver & _).
  exists parsed, (snapshot <$> p_fetched p), (p_row p), (loss_excluded_call_ids req).
  destruct (finished_weights _ _ _ _ _ _ Hfinish (Hlaw _ _ _ Hver)) as [Hl Hw].
  apply fin_bind_Got in Hfinish as (masks & _ & [= <-]).
  split_and!; try done. intros c. by rewrite Hex, Hearlier.
Qed.
End owner.

(** ** A concrete owner
    Its first segment ends with call [a], its second goes on to [c]. *)
Module Demo.
Import Reassembler.Demo.

Definition one : RolloutReceipt := mkReceipt "run" [call "a" None 0 5 7] (Some "a") None false None.
Definition two : RolloutReceipt := mkReceipt "run" [call "a" None 0 5 7; call "c" (Some "a") 5 3 8] (Some "c") None false None.

#[export] Instance gym : GymCapture := {|
  Snapshot := link_span;
  snapshot_call_id s := s.1.1;
  receipt_validate v := match v with
                        | VDict [(VStr "one", _)] => Ok one
                        | VDict [(VStr "two", _)] => Ok two
                        | _ => Raise ValueError
                        end;
  receipt_build r := Ok r;
  receipt_dump r := [];
  gym_staging_key v i := Ok ("run/" +:+ i);
  verify_and_linearize parsed l := if links_fine parsed l then Ok (linear l) else Raise RebuildError;
  classify_route_span c g n := Raise ValueError;
  gym_extras_digest_version := 1;
  compute_extras_digest d := Ok "digest";
  sha256 l := "digest";
  json_loads s := Raise ValueError |}.

Definition item (i : string) (carry gen : Z) : FetchedStagedCall :=
  mkFetched gym ("run/" +:+ i) (i, carry, gen) 0 None false false None.
#[export] Instance source : TokenSource := {|
  fetch_for_finalization keys frags tk :=
    traverse (fun k => if String.eqb k "run/a" then Ok (item "a" 2 3) else if String.eqb k "run/c" then Ok (item "c" 1 2) else Raise KeyError) keys;
  fetch_media items := Raise KeyError;
  Occurrences := unit;
  verified_media_items i := Raise ValueError;
  verify_media_geometry o p := Ok tt |}.

Definition self : RolloutReassembler :=
  mkReassembler "train" "staging" 0 8 None None false false false None None None 0.
Definition segment (name : string) (selected : list string) : SegmentReceipt :=
  mkSegment "run" (stored name) selected false (Some ((fun _ => flag false) <$> selected)).
Definition segments : list (list SegmentReceipt) := [[segment "one" ["resp-a"]; segment "two" ["resp-a"; "resp-c"]]].
Definition result := _finalize_logical_rows self "g" ["run"] segments [f1] [true] ["g_g0"] [stored "two"] [None] None.
Definition out : LogicalRows := match result with (_, Ok out) => out | _ => no_rows end.
Lemma out_eq : _finalize_logical_rows self "g" ["run"] segments [f1] [true] ["g_g0"] [stored "two"] [None] None = (None, Ok out).
Proof. vm_compute. reflexivity. Qed.


Lemma version_spans_within l : Forall (fun s : link_span => 0 <= s.1.2 /\ 0 <= s.2) l -> forall position n, 0 <= position ->
  position + zsum ((fun s : link_span => s.1.2 + s.2) <$> l) <= Z.of_nat n -> spans_within n (version_spans position l).
Proof.
  induction 1 as [|[[c carry] gen] l [Hc Hg] Hl IH]; intros position n Hp Hn; cbn [version_spans]; [constructor|].
  cbn [fst snd] in *. rewrite fmap_cons in Hn. cbn [zsum fst snd] in Hn.
  assert (0 <= zsum ((fun s : link_span => s.1.2 + s.2) <$> l)).
  { clear -Hl. induction Hl as [|s l [? ?] _ IHl]; [done|]. cbn in *. lia. }
  constructor; [cbn [fst snd]; lia|]. apply IH; lia.
Qed.

Lemma linear_length l : Forall (fun s : link_span => 0 <= s.1.2 /\ 0 <= s.2) l ->
  Z.of_nat (length (lin_token_mask (linear l))) = zsum ((fun s : link_span => s.1.2 + s.2) <$> l).
Proof.
  cbn [linear lin_token_mask]. induction 1 as [|[[c carry] gen] l [Hc Hg] _ IH]; [done|]. cbn [fst snd] in *.
  rewrite bind_cons, fmap_cons, !length_app, !length_replicate. cbn [zsum fst snd]. lia.
Qed.

Lemma verified_ok parsed snaps lin : verify_and_linearize parsed snaps = Ok lin -> linear_ok lin.
Proof.
  change (verify_and_linearize parsed snaps) with (if links_fine parsed snaps then Ok (linear snaps) else Raise RebuildError).
  destruct (links_fine parsed snaps) eqn:E; [|discriminate]. intros [= <-].
  apply andb_true_iff in E as [E _]. rewrite forallb_forall in E.
  assert (Forall (fun s : link_span => 0 <= s.1.2 /\ 0 <= s.2) snaps) as Hs.
  { apply Forall_forall. intros s Hs%list_elem_of_In%E. rewrite !andb_true_iff in Hs. lia. }
  pose proof (linear_length _ Hs) as Hl. cbn [linear lin_token_mask] in Hl.
  constructor; cbn [linear lin_token_mask lin_token_ids weight_version_spans link_spans]; rewrite length_seqZ, Nat2Z.id; [done| |].
  - apply version_spans_within; [done|done|]. lia.
  - split; [done|]. lia.
Qed.

Lemma once_witness : (exists row, rows out !! 1%nat = Some row /\ token_mask row !! 3%nat = Some f0 /\ token_mask row !! 6%nat = Some f1)
  /\ exists bs, rows out = concat (rows <$> bs).
Proof.
  destruct (shared_calls_train_once self "g" ["run"] segments [f1] [true] ["g_g0"] [stored "two"] [None] None None out verified_ok out_eq)
    as (bs & Hbs & _).
  split; [|exists bs; exact Hbs]. eexists. split; [vm_compute; reflexivity|]. split; vm_compute; reflexivity.
Defined.
End Demo.
