(* ===== verification/PackedTensors.v ===== *)
(** * Packed media of a batch
    ([PackedTensor] of [data/multimodal_utils.py])

    The media of a batch of samples: every logical row is a list of tensors, its
    segments.  Rows that share media share the physical tensor: [_row_offsets]
    cuts [_segment_indices] into rows, whose entries point into [tensors].  Only
    provenance, an identity minted when sharing is switched on, is evidence that
    two physical tensors are the same.

    The state is the supply of identities: [uuid4] gives one never given before.
    A negative offset or index, which the constructor refuses, cannot be written
    here; devices and [as_tensor] are not modelled. *)

From S2P Require Import Prelude.
From S2P Require Import PyVal.
From S2P Require Import StateErr.
From S2P Require Import Media.
#[local] Open Scope string_scope.
#[local] Open Scope Z_scope.

(** The preprocessing setting: [preprocess_mode] and [preprocess_kwargs]. *)
Record preprocess := mkPreprocess { preprocess_mode : option string; preprocess_kwargs : gmap string Z }.
#[export] Instance preprocess_eq_dec : EqDecision preprocess.
Proof. solve_decision. Defined.

Record PackedTensor := mkPacked {
  tensors : list (option Tensor);
  dim_to_pack : Z;
  _preprocess_spec : preprocess;
  _row_offsets : option (list nat);
  _segment_indices : option (list nat);
  _segment_provenance : option (list N) }.

(** The identities given so far are those below the state. *)
Abbreviation M := (SE N) (only parsing).
Definition uuid4 : M N := i ← get; _ ← modify N.succ; mret i.

(** ** The constructor *)

Definition known_mode (p : preprocess) : bool :=
  match preprocess_mode p with
  | None => true
  | Some m => String.eqb m "pad_to_max_shape" || String.eqb m "patchify"
  end.
(** [not (preprocess_kwargs or {}).get("patch_dim")]. *)
Definition missing_patch_dim (p : preprocess) : bool :=
  bool_decide (preprocess_mode p = Some "patchify")
  && match preprocess_kwargs p !! "patch_dim" with Some d => d =? 0 | None => true end.
(** Each offset is at most the next. *)
Fixpoint non_decreasing (l : list nat) : bool :=
  match l with
  | current :: (following :: _) as rest => (current <=? following)%nat && non_decreasing rest
  | _ => true
  end.

Definition new_packed (p : PackedTensor) : res PackedTensor :=
  _ ← raise_if (bool_decide (tensors p = []) && bool_decide (_row_offsets p = None)) AssertionError;
  _ ← raise_if (negb (known_mode (_preprocess_spec p)) || missing_patch_dim (_preprocess_spec p)) ValueError;
  _ ← match _row_offsets p, _segment_indices p with
      | None, None => Ok tt
      | Some offsets, Some indices =>
          _ ← raise_if (negb (bool_decide (head offsets = Some 0%nat))) ValueError;
          _ ← raise_if (negb (non_decreasing offsets)) ValueError;
          _ ← raise_if (negb (bool_decide (last offsets = Some (length indices)))) ValueError;
          raise_if (existsb (fun i => (length (tensors p) <=? i)%nat) indices) ValueError
      | _, _ => Raise ValueError
      end;
  _ ← raise_if (match _segment_provenance p with Some l => negb (length l =? length (tensors p))%nat | None => false end) ValueError;
  Ok p.

(** ** Rows *)

Definition deduplication_enabled (p : PackedTensor) : bool := bool_decide (is_Some (_segment_provenance p)).
(** Neither shared nor cut into rows: one tensor per row. *)
Definition legacy (p : PackedTensor) : bool := negb (deduplication_enabled p) && bool_decide (_row_offsets p = None).

Definition rows_of (p : PackedTensor) : nat :=
  match _row_offsets p with Some offsets => pred (length offsets) | None => length (tensors p) end.

Definition _row_segment_indices (p : PackedTensor) (row : nat) : list nat :=
  match _row_offsets p with
  | None => [row]
  | Some offsets =>
      let indices := default [] (_segment_indices p) in
      let lo := nth row offsets 0%nat in
      take (nth (S row) offsets 0%nat - lo) (drop lo indices)
  end.

Definition physical (p : PackedTensor) (i : nat) : option Tensor := mjoin (tensors p !! i).

Definition _row_segments (p : PackedTensor) : list (list Tensor) :=
  (fun row => omap (physical p) (_row_segment_indices p row)) <$> seq 0 (rows_of p).

Definition _shapes_of (rows : list (list Tensor)) : list (list (list Z)) := (fun segs : list Tensor => shape <$> segs) <$> rows.
Definition row_shapes (p : PackedTensor) : list (list (list Z)) := _shapes_of (_row_segments p).

Definition present (p : PackedTensor) (i : nat) : bool := bool_decide (is_Some (physical p i)).
Definition logical_segment_counts_by_row (p : PackedTensor) : list nat :=
  match _row_offsets p with
  | None => (fun t : option Tensor => match t with Some _ => 1%nat | None => 0%nat end) <$> tensors p
  | Some _ => (fun row => length (List.filter (present p) (_row_segment_indices p row))) <$> seq 0 (rows_of p)
  end.

Definition iter_logical_segments (p : PackedTensor) : list (option Tensor) :=
  match _segment_indices p with
  | None => tensors p
  | Some indices => physical p <$> indices
  end.

Definition enable_deduplication (p : PackedTensor) : M PackedTensor :=
  match _segment_provenance p with
  | Some _ => mret p
  | None =>
      ids ← map_in (tensors p) (fun _ => uuid4);
      mret (mkPacked (tensors p) (dim_to_pack p) (_preprocess_spec p) (_row_offsets p) (_segment_indices p) (Some ids))
  end.

(** ** Selecting rows *)

(** [l[i]], from the end where [i] is negative. *)
Definition py_get {A} (l : list A) (i : Z) : res A :=
  match py_index (length l) i ≫= (fun k => l !! k) with Some a => Ok a | None => Raise IndexError end.


(** What the loop of [slice] has collected. *)
Record Sliced := mkSliced {
  physical_remap : gmap nat nat;
  sl_tensors : list (option Tensor);
  sl_provenances : list N;
  sl_indices : list nat }.

Definition slice_segment (p : PackedTensor) (st : Sliced) (i : nat) : Sliced :=
  match physical_remap st !! i with
  | Some new => mkSliced (physical_remap st) (sl_tensors st) (sl_provenances st) (sl_indices st ++ [new])
  | None =>
      let new := length (sl_tensors st) in
      mkSliced (<[i := new]> (physical_remap st)) (sl_tensors st ++ [physical p i])
        (sl_provenances st ++ match _segment_provenance p with Some l => [nth i l 0%N] | None => [] end)
        (sl_indices st ++ [new])
  end%list.

Fixpoint slice_rows (p : PackedTensor) (idx : list Z) (st : Sliced) (offsets : list nat) : res (Sliced * list nat) :=
  match idx with
  | [] => Ok (st, offsets)
  | row :: rest =>
      match py_index (rows_of p) row with
      | None => Raise IndexError
      | Some r =>
          let st := foldl (slice_segment p) st (_row_segment_indices p r) in
          slice_rows p rest st (offsets ++ [length (sl_indices st)])%list
      end
  end.

Definition packed_slice (p : PackedTensor) (idx : list Z) : res PackedTensor :=
  if legacy p then
    ts ← traverse (py_get (tensors p)) idx;
    new_packed (mkPacked ts (dim_to_pack p) (_preprocess_spec p) None None None)
  else
    '(st, offsets) ← slice_rows p idx (mkSliced ∅ [] [] []) [0%nat];
    new_packed (mkPacked (sl_tensors st) (dim_to_pack p) (_preprocess_spec p) (Some offsets) (Some (sl_indices st))
                  (match _segment_provenance p with Some _ => Some (sl_provenances st) | None => None end)).

Definition empty_rows_like (other : PackedTensor) (num_rows : Z) : res PackedTensor :=
  _ ← raise_if (num_rows <? 0) ValueError;
  let n := Z.to_nat num_rows in
  if negb (legacy other) then
    new_packed (mkPacked [] (dim_to_pack other) (_preprocess_spec other) (Some (replicate (S n) 0%nat)) (Some []) (Some []))
  else if num_rows =? 0 then
    new_packed (mkPacked [] (dim_to_pack other) (_preprocess_spec other) (Some [0%nat]) (Some []) None)
  else new_packed (mkPacked (replicate n None) (dim_to_pack other) (_preprocess_spec other) None None None).

Definition empty_like (other : PackedTensor) : res PackedTensor := empty_rows_like other (Z.of_nat (rows_of other)).

(** ** Concatenation *)

(** What the loop of [concat] has collected. *)
Record Concatenated := mkConcatenated {
  cc_tensors : list (option Tensor);
  cc_provenances : list N;
  provenance_to_physical : gmap N nat;
  cc_indices : list nat;
  cc_offsets : list nat }.

(** One physical tensor: its index in the result. *)
Definition intern (st : Concatenated) (t : option Tensor) (provenance : option N) : M (Concatenated * nat) :=
  match provenance ≫= (fun i => provenance_to_physical st !! i) with
  | Some new => mret (st, new)
  | None =>
      let new := length (cc_tensors st) in
      i ← match provenance with Some i => mret i | None => uuid4 end;
      mret (mkConcatenated (cc_tensors st ++ [t]) (cc_provenances st ++ [i]) (<[i := new]> (provenance_to_physical st))
              (cc_indices st) (cc_offsets st), new)
  end%list.

(** The physical tensors of one input; their new indices in order. *)
Fixpoint intern_all (st : Concatenated) (ts : list (option Tensor)) (provenances : list (option N))
  : M (Concatenated * list nat) :=
  match ts, provenances with
  | t :: ts, i :: provenances =>
      '(st, new) ← intern st t i;
      '(st, remap) ← intern_all st ts provenances;
      mret (st, new :: remap)
  | _, _ => mret (st, [])
  end.

Definition append_row (remap : list nat) (p : PackedTensor) (st : Concatenated) (row : nat) : Concatenated :=
  let indices := (cc_indices st ++ ((fun i => nth i remap 0%nat) <$> _row_segment_indices p row))%list in
  mkConcatenated (cc_tensors st) (cc_provenances st) (provenance_to_physical st) indices (cc_offsets st ++ [length indices])%list.

Definition concat_one (st : Concatenated) (p : PackedTensor) : M Concatenated :=
  '(st, remap) ← intern_all st (tensors p)
                   (match _segment_provenance p with Some l => Some <$> l | None => replicate (length (tensors p)) None end);
  mret (foldl (append_row remap p) st (seq 0 (rows_of p))).

Fixpoint concat_all (st : Concatenated) (ps : list PackedTensor) : M Concatenated :=
  match ps with
  | [] => mret st
  | p :: ps => st ← concat_one st p; concat_all st ps
  end.

Definition packed_concat (ps : list PackedTensor) : M PackedTensor :=
  match ps with
  | [] => lift (Raise AssertionError)
  | first :: rest =>
      _ ← guard (existsb (fun p => negb (dim_to_pack p =? dim_to_pack first)) rest) AssertionError;
      _ ← guard (existsb (fun p => negb (bool_decide (_preprocess_spec p = _preprocess_spec first))) rest) AssertionError;
      if existsb (fun p => negb (legacy p)) ps then
        st ← concat_all (mkConcatenated [] [] ∅ [] [0%nat]) ps;
        lift (new_packed (mkPacked (cc_tensors st) (dim_to_pack first) (_preprocess_spec first) (Some (cc_offsets st))
                            (Some (cc_indices st)) (Some (cc_provenances st))))
      else lift (new_packed (mkPacked (ps ≫= tensors) (dim_to_pack first) (_preprocess_spec first) None None None))
  end.

Definition merge_segments (ps : list PackedTensor) : M PackedTensor :=
  q ← packed_concat ps;
  if negb (existsb (fun p => negb (legacy p)) ps) then mret q
  else
    match _segment_indices q with
    | None => lift (Raise AssertionError)
    | Some indices =>
        lift (new_packed (mkPacked (tensors q) (dim_to_pack q) (_preprocess_spec q) (Some [0%nat; length indices]) (Some indices)
                            (_segment_provenance q)))
    end.

(** ** Rows cut out of a list *)

(** The offsets of rows put one after another. *)
Definition offsets_of (rs : list (list nat)) : list nat :=
  (fun k => length (mjoin (take k rs))) <$> seq 0 (S (length rs)).

Lemma offsets_of_length rs : length (offsets_of rs) = S (length rs).
Proof. unfold offsets_of. by rewrite length_fmap, length_seq. Qed.

Lemma offsets_of_nth rs k : (k <= length rs)%nat -> nth k (offsets_of rs) 0%nat = length (mjoin (take k rs)).
Proof.
  intros Hk. apply nth_lookup_Some. unfold offsets_of. rewrite list_lookup_fmap, lookup_seq_lt by lia. done.
Qed.

Lemma offsets_of_snoc rs r : offsets_of (rs ++ [r]) = (offsets_of rs ++ [length (mjoin (rs ++ [r]))])%list.
Proof.
  unfold offsets_of. rewrite length_app. cbn [length]. rewrite Nat.add_1_r, (seq_S (S (length rs))), fmap_app. f_equal.
  - apply list_fmap_ext. intros i x Hx. apply lookup_seq in Hx as [-> Hi]. rewrite take_app_le by lia. done.
  - cbn. rewrite take_ge by (rewrite length_app; cbn; lia). done.
Qed.

Lemma row_of_csr rs k r : rs !! k = Some r ->
  take (nth (S k) (offsets_of rs) 0 - nth k (offsets_of rs) 0)%nat (drop (nth k (offsets_of rs) 0%nat) (mjoin rs)) = r.
Proof.
  intros Hk. apply lookup_lt_Some in Hk as Hlt. rewrite !offsets_of_nth by lia.
  rewrite (take_S_r _ _ _ Hk), join_app, length_app. cbn [mjoin list_join]. rewrite app_nil_r.
  replace (length (mjoin (take k rs)) + length r - length (mjoin (take k rs)))%nat with (length r) by lia.
  rewrite <- (take_drop_middle rs k r Hk) at 2. rewrite join_app. cbn [mjoin list_join].
  by rewrite drop_app_length, take_app_length.
Qed.

(** A value whose index lists are the rows [rs]. *)
Definition has_rows (p : PackedTensor) (rs : list (list nat)) : Prop :=
  _row_offsets p = Some (offsets_of rs) /\ _segment_indices p = Some (mjoin rs).

Lemma csr_row_indices p rs k r : has_rows p rs -> rs !! k = Some r -> _row_segment_indices p k = r.
Proof. intros [Ho Hi] Hk. unfold _row_segment_indices. rewrite Ho, Hi. exact (row_of_csr rs k r Hk). Qed.

Lemma has_rows_index p rs : has_rows p rs -> _row_segment_indices p <$> seq 0 (rows_of p) = rs.
Proof.
  intros Hp. unfold rows_of. rewrite (proj1 Hp), offsets_of_length. cbn [pred]. apply list_eq. intros k.
  rewrite list_lookup_fmap. destruct (rs !! k) as [r|] eqn:E.
  - apply lookup_lt_Some in E as Hlt. rewrite lookup_seq_lt by done. cbn. f_equal. by apply (csr_row_indices _ rs).
  - apply lookup_ge_None in E. by rewrite lookup_seq_ge.
Qed.

Lemma has_rows_segments p rs : has_rows p rs -> _row_segments p = (fun r : list nat => omap (physical p) r) <$> rs.
Proof.
  intros Hp. rewrite <- (has_rows_index _ _ Hp). unfold _row_segments. by rewrite <- list_fmap_compose.
Qed.

(** ** Well-formed values *)

(** A value the constructor accepted. *)
Definition packed_ok (p : PackedTensor) : Prop := new_packed p = Ok p.


Lemma packed_in_range p row i : packed_ok p -> (row < rows_of p)%nat -> i ∈ _row_segment_indices p row -> (i < length (tensors p))%nat.
Proof.
  unfold packed_ok, new_packed, rows_of, _row_segment_indices. intros (? & _ & (? & _ & ([] & Hc & _)%bind_Ok)%bind_Ok)%bind_Ok.
  destruct (_row_offsets p) as [offsets|], (_segment_indices p) as [indices|]; try done.
  - intros _ Hi. apply bind_Ok in Hc as (? & _ & (? & _ & (? & _ & Hr%raise_if_Ok)%bind_Ok)%bind_Ok).
    cbn [default] in Hi. apply elem_of_take in Hi as (j & Hj%list_elem_of_lookup_2 & _).
    apply (subseteq_drop _ indices) in Hj || apply elem_of_drop in Hj as (? & Hj%list_elem_of_lookup_2 & _).
    destruct (decide (length (tensors p) <= i)%nat) as [Hle|]; [|lia].
    rewrite (proj2 (existsb_exists _ _)) in Hr; [done|]. exists i. split; [by apply list_elem_of_In|by apply Nat.leb_le].
  - intros Hrow ->%list_elem_of_singleton. done.
Qed.

Lemma non_decreasing_offsets rs : non_decreasing (offsets_of rs) = true.
Proof.
  induction rs as [|r rs IH] using rev_ind; [done|]. rewrite offsets_of_snoc.
  assert (forall l x, non_decreasing l = true -> (forall y, last l = Some y -> (y <= x)%nat) -> non_decreasing (l ++ [x]) = true) as Hsnoc.
  { clear. induction l as [|a [|b l] IH]; intros x Hn Hx; [done| |].
    - cbn. rewrite andb_true_r. apply Nat.leb_le. by apply Hx.
    - cbn [app non_decreasing] in *. apply andb_true_iff in Hn as [-> Hn]. by apply IH. }
  apply Hsnoc; [done|]. intros y Hy. rewrite last_lookup, offsets_of_length in Hy. cbn [pred] in Hy.
  apply (nth_lookup_Some _ _ 0%nat) in Hy. rewrite offsets_of_nth, take_ge in Hy by lia. subst y.
  rewrite join_app, length_app. lia.
Qed.

Lemma new_packed_csr ts d spec rs prov :
  negb (known_mode spec) || missing_patch_dim spec = false ->
  (forall r i, r ∈ rs -> i ∈ r -> (i < length ts)%nat) -> (forall l, prov = Some l -> length l = length ts) ->
  new_packed (mkPacked ts d spec (Some (offsets_of rs)) (Some (mjoin rs)) prov)
  = Ok (mkPacked ts d spec (Some (offsets_of rs)) (Some (mjoin rs)) prov).
Proof.
  intros Hspec Hin Hprov. unfold new_packed. cbn [tensors _row_offsets _preprocess_spec _segment_indices _segment_provenance].
  rewrite (bool_decide_false (Some (offsets_of rs) = None)), andb_false_r by done. rewrite Hspec.
  assert (head (offsets_of rs) = Some 0%nat) as -> by done. rewrite (bool_decide_true (Some 0%nat = Some 0%nat)) by done.
  rewrite non_decreasing_offsets.
  assert (last (offsets_of rs) = Some (length (mjoin rs))) as ->.
  { rewrite last_lookup, offsets_of_length. cbn [pred]. unfold offsets_of. rewrite list_lookup_fmap, lookup_seq_lt by lia. cbn.
    by rewrite take_ge. }
  rewrite bool_decide_true by done.
  assert (existsb (fun i => (length ts <=? i)%nat) (mjoin rs) = false) as ->.
  { apply not_true_iff_false. rewrite existsb_exists. intros (i & Hi%list_elem_of_In & Hle%Nat.leb_le).
    apply list_elem_of_join in Hi as (r & Hi & Hr). specialize (Hin _ _ Hr Hi). lia. }
  destruct prov as [l|]; [|done]. cbn. by rewrite (Hprov l eq_refl), Nat.eqb_refl.
Qed.

Lemma new_packed_same p q : new_packed p = Ok q -> q = p.
Proof. unfold new_packed. by intros (? & _ & (? & _ & (? & _ & (? & _ & [= <-])%bind_Ok)%bind_Ok)%bind_Ok)%bind_Ok. Qed.

Lemma packed_spec_ok p : packed_ok p -> negb (known_mode (_preprocess_spec p)) || missing_patch_dim (_preprocess_spec p) = false.
Proof. unfold packed_ok, new_packed. by intros (? & _ & (? & Hs%raise_if_Ok & _)%bind_Ok)%bind_Ok. Qed.

Lemma packed_provenance p l : packed_ok p -> _segment_provenance p = Some l -> length l = length (tensors p).
Proof.
  unfold packed_ok, new_packed. intros (? & _ & (? & _ & (? & _ & (? & Hp%raise_if_Ok & _)%bind_Ok)%bind_Ok)%bind_Ok)%bind_Ok Hl.
  rewrite Hl in Hp. by apply negb_false_iff, Nat.eqb_eq in Hp.
Qed.

Lemma new_packed_legacy ts d spec : ts <> [] -> negb (known_mode spec) || missing_patch_dim spec = false ->
  new_packed (mkPacked ts d spec None None None) = Ok (mkPacked ts d spec None None None).
Proof.
  intros Hts Hspec. unfold new_packed. cbn [tensors _row_offsets _preprocess_spec _segment_indices _segment_provenance].
  rewrite (bool_decide_false (ts = [])) by done. by rewrite Hspec.
Qed.

Lemma legacy_spec p : legacy p = true <-> _segment_provenance p = None /\ _row_offsets p = None.
Proof.
  unfold legacy, deduplication_enabled. rewrite andb_true_iff, negb_true_iff, bool_decide_eq_false, bool_decide_eq_true.
  split; intros [H1 H2]; (split; [|done]); [by apply eq_None_not_Some|]. rewrite H1. by intros [].
Qed.

Lemma legacy_segments p : _row_offsets p = None -> _row_segments p = (fun t : option Tensor => option_list t) <$> tensors p.
Proof.
  intros Ho. unfold _row_segments, rows_of, _row_segment_indices. rewrite Ho. apply list_eq. intros k. rewrite !list_lookup_fmap.
  destruct (tensors p !! k) as [t|] eqn:E.
  - apply lookup_lt_Some in E as Hlt. rewrite lookup_seq_lt by done. cbn. unfold physical. rewrite E. by destruct t.
  - apply lookup_ge_None in E. by rewrite lookup_seq_ge.
Qed.

(** ** [slice] *)

Lemma py_index_lt n i k : py_index n i = Some k -> (k < n)%nat.
Proof. unfold py_index. repeat case_match; intros [= <-]; lia. Qed.

(** The new index of every physical index met so far; distinct indices stay
    distinct, and each keeps its tensor and its identity. *)
Record slice_inv (p : PackedTensor) (st : Sliced) : Prop := {
  sv_range : forall i n, physical_remap st !! i = Some n -> (i < length (tensors p))%nat;
  sv_map : forall i n, physical_remap st !! i = Some n -> sl_tensors st !! n = Some (physical p i);
  sv_inj : forall i j n, physical_remap st !! i = Some n -> physical_remap st !! j = Some n -> i = j;
  sv_onto : forall n, (n < length (sl_tensors st))%nat -> exists i, physical_remap st !! i = Some n;
  sv_prov : forall l, _segment_provenance p = Some l -> length (sl_provenances st) = length (sl_tensors st)
    /\ forall i n, physical_remap st !! i = Some n -> sl_provenances st !! n = Some (nth i l 0%N) }.

(** The later state extends the earlier one by the images of [is_]. *)
Definition slice_ext (st st' : Sliced) (is_ : list nat) : Prop :=
  physical_remap st ⊆ physical_remap st'
  /\ exists ns, sl_indices st' = (sl_indices st ++ ns)%list /\ Forall2 (fun i n => physical_remap st' !! i = Some n) is_ ns.

Lemma slice_segment_inv p st i : (i < length (tensors p))%nat -> slice_inv p st -> slice_inv p (slice_segment p st i) /\ slice_ext st (slice_segment p st i) [i].
Proof.
  intros Hi [Hrange Hmap Hinj Honto Hprov]. unfold slice_segment. destruct (physical_remap st !! i) as [new|] eqn:E.
  - split; [by constructor|]. split; [done|]. exists [new]. split; [done|]. by repeat constructor.
  - set (new := length (sl_tensors st)).
    assert (forall j n, physical_remap st !! j = Some n -> (n < new)%nat) as Hlt.
    { intros j n Hj. by eapply lookup_lt_Some, Hmap. }
    split; [constructor; cbn [physical_remap sl_tensors sl_provenances]|].
    + by intros j n [[<- <-]|[_ Hj%Hrange]]%lookup_insert_Some.
    + intros j n [[<- <-]|[_ Hj]]%lookup_insert_Some.
      * rewrite lookup_app_r by (unfold new; lia). unfold new. by rewrite Nat.sub_diag.
      * rewrite lookup_app_l by (by eapply Hlt). by apply Hmap.
    + intros j k n [[<- <-]|[Hne Hj]]%lookup_insert_Some [[<- Hn]|[Hne' Hk]]%lookup_insert_Some; try done.
      * apply Hlt in Hk. lia.
      * apply Hlt in Hj. lia.
      * by eapply Hinj.
    + intros n. rewrite length_app. cbn [length]. intros Hn. destruct (decide (n = new)) as [->|Hne].
      * exists i. by rewrite lookup_insert_eq.
      * destruct (Honto n) as [j Hj]; [unfold new in *; lia|]. exists j. rewrite lookup_insert_ne; [done|]. by intros ->; congruence.
    + intros l Hl. destruct (Hprov l Hl) as [Hlen Hp]. rewrite Hl, !length_app. split; [cbn; lia|].
      intros j n [[<- <-]|[_ Hj]]%lookup_insert_Some.
      * unfold new. rewrite <- Hlen, lookup_app_r by lia. by rewrite Nat.sub_diag.
      * rewrite lookup_app_l by (rewrite Hlen; by eapply Hlt). by apply Hp.
    + split; [by apply insert_subseteq|]. exists [new]. split; [done|]. constructor; [cbn [physical_remap]; by rewrite lookup_insert_eq|constructor].
Qed.

Lemma slice_row_inv p is_ : Forall (fun i => (i < length (tensors p))%nat) is_ -> forall st, slice_inv p st ->
  slice_inv p (foldl (slice_segment p) st is_) /\ slice_ext st (foldl (slice_segment p) st is_) is_.
Proof.
  induction 1 as [|i is_ Hi _ IH]; intros st Hst; cbn [foldl].
  - split; [done|]. split; [done|]. exists []. by rewrite app_nil_r.
  - destruct (slice_segment_inv p st i Hi Hst) as [H1 (Hs1 & ns1 & Hi1 & Hf1)].
    destruct (IH _ H1) as [H2 (Hs2 & ns2 & Hi2 & Hf2)]. split; [done|]. split; [by etrans|].
    exists (ns1 ++ ns2)%list. rewrite Hi2, Hi1, app_assoc. split; [done|]. change (i :: is_) with ([i] ++ is_)%list.
    apply Forall2_app; [|done]. eapply Forall2_impl; [exact Hf1|]. intros j n Hj. exact (lookup_weaken _ _ _ _ Hj Hs2).
Qed.

(** The rows collected so far. *)
Definition sliced_rows (p : PackedTensor) (st : Sliced) (ks : list nat) (rs : list (list nat)) : Prop :=
  sl_indices st = mjoin rs /\ Forall2 (fun k r => Forall2 (fun i n => physical_remap st !! i = Some n) (_row_segment_indices p k) r) ks rs.

Lemma slice_rows_spec p idx : packed_ok p -> forall st ks rs, slice_inv p st -> sliced_rows p st ks rs ->
  match mapM (py_index (rows_of p)) idx with
  | None => slice_rows p idx st (offsets_of rs) = Raise IndexError
  | Some ks' => exists st' rs', slice_rows p idx st (offsets_of rs) = Ok (st', offsets_of rs') /\ slice_inv p st'
                  /\ sliced_rows p st' (ks ++ ks') rs'
  end.
Proof.
  intros Hok. induction idx as [|row idx IH]; intros st ks rs Hst [Hi Hr]; cbn [slice_rows mapM].
  - exists st, rs. by rewrite app_nil_r.
  - destruct (py_index (rows_of p) row) as [k|] eqn:Ek; cbn [mbind option_bind]; [|done]. apply py_index_lt in Ek.
    destruct (slice_row_inv p (_row_segment_indices p k) ltac:(apply Forall_forall; intros i; by apply packed_in_range) st Hst) as [Hst' (Hsub & ns & Hns & Hf)].
    set (st' := foldl (slice_segment p) st (_row_segment_indices p k)) in *.
    assert (sliced_rows p st' (ks ++ [k]) (rs ++ [ns])) as Hrows.
    { split; [rewrite Hns, Hi, join_app; cbn; by rewrite app_nil_r|]. apply Forall2_app; [|by constructor].
      eapply Forall2_impl; [exact Hr|]. intros a r Ha. eapply Forall2_impl; [exact Ha|]. intros i n Hin. exact (lookup_weaken _ _ _ _ Hin Hsub). }
    rewrite (proj1 Hrows), <- offsets_of_snoc. specialize (IH st' _ _ Hst' Hrows).
    destruct (mapM _ idx) as [ks'|]; cbn [mret option_ret]; [|done]. by rewrite <- app_assoc in IH.
Qed.

Lemma traverse_py_get {A} (l : list A) idx :
  match mapM (py_index (length l)) idx with
  | None => traverse (py_get l) idx = Raise IndexError
  | Some ks => exists ts, traverse (py_get l) idx = Ok ts /\ Forall2 (fun k t => l !! k = Some t) ks ts
  end.
Proof.
  induction idx as [|i idx IH]; cbn [mapM traverse]; [by exists []|].
  assert (py_get l i = match py_index (length l) i ≫= (fun k => l !! k) with Some a => Ok a | None => Raise IndexError end) as Hg by done.
  destruct (py_index _ i) as [k|] eqn:Ek; cbn [mbind option_bind] in *; [|by rewrite Hg].
  destruct (lookup_lt_is_Some_2 l k) as [t Hk]; [by eapply py_index_lt|]. rewrite Hk in Hg. rewrite Hg. cbn [mbind res_bind].
  destruct (mapM _ idx) as [ks|]; cbn [mret option_ret]; [|by rewrite IH]. destruct IH as (ts & -> & Hts).
  exists (t :: ts). split; [done|]. by constructor.
Qed.

Lemma nth_row_segments p k : (k < rows_of p)%nat -> nth k (_row_segments p) [] = omap (physical p) (_row_segment_indices p k).
Proof.
  intros Hk. apply nth_lookup_Some. unfold _row_segments. by rewrite list_lookup_fmap, lookup_seq_lt by done.
Qed.

Lemma omap_along {A B C} (f : A -> option C) (g : B -> option C) l r : Forall2 (fun a b => g b = f a) l r -> omap g r = omap f l.
Proof. induction 1 as [|a b l r Hab _ IH]; [done|]. cbn. by rewrite Hab, IH. Qed.

Lemma sliced_segments p st ks rs d spec prov : slice_inv p st -> sliced_rows p st ks rs -> Forall (fun k => (k < rows_of p)%nat) ks ->
  _row_segments (mkPacked (sl_tensors st) d spec (Some (offsets_of rs)) (Some (sl_indices st)) prov)
  = (fun k => nth k (_row_segments p) []) <$> ks.
Proof.
  intros Hst [Hi Hr] Hks. rewrite (has_rows_segments _ rs) by (split; [done|by rewrite Hi]). clear Hi.
  induction Hr as [|k r ks rs Hkr _ IH]; [done|]. apply Forall_cons in Hks as [Hk Hks]. rewrite !fmap_cons. f_equal; [|by apply IH].
  rewrite nth_row_segments by done. apply omap_along. eapply Forall2_impl; [exact Hkr|]. intros i n Hin.
  unfold physical at 1. cbn [tensors]. by rewrite (sv_map p st Hst _ _ Hin).
Qed.

(** An identity stands for one tensor. *)
Definition sound (m : N -> option Tensor) (p : PackedTensor) : Prop :=
  forall l k i, _segment_provenance p = Some l -> l !! k = Some i -> tensors p !! k = Some (m i).
(** No tensor is stored twice. *)
Definition interned (p : PackedTensor) : Prop := forall l, _segment_provenance p = Some l -> NoDup l.

(** The identity of a physical tensor met by the loop. *)
Lemma sliced_identity p st l' n i : packed_ok p -> slice_inv p st -> _segment_provenance p = Some l' -> sl_provenances st !! n = Some i ->
  exists j, physical_remap st !! j = Some n /\ l' !! j = Some i.
Proof.
  intros Hok Hst Hl Hn. destruct (sv_prov p st Hst l' Hl) as [Hlen Hp].
  destruct (sv_onto p st Hst n) as [j Hj]; [rewrite <- Hlen; by eapply lookup_lt_Some|]. exists j. split; [done|].
  pose proof (sv_range p st Hst _ _ Hj) as Hlt. rewrite <- (packed_provenance p l' Hok Hl) in Hlt.
  destruct (lookup_lt_is_Some_2 l' j Hlt) as [id Hid]. rewrite (Hp _ _ Hj), (nth_lookup_Some _ _ 0%N _ Hid) in Hn. congruence.
Qed.

(** The value [slice] builds. *)
Definition sliced (p : PackedTensor) (st : Sliced) (rs : list (list nat)) : PackedTensor :=
  mkPacked (sl_tensors st) (dim_to_pack p) (_preprocess_spec p) (Some (offsets_of rs)) (Some (mjoin rs))
    (match _segment_provenance p with Some _ => Some (sl_provenances st) | None => None end).

Lemma sliced_sound p st rs m : packed_ok p -> slice_inv p st -> sound m p -> sound m (sliced p st rs).
Proof.
  intros Hok Hst Hm l k i Hl Hk. unfold sliced in *. cbn [tensors _segment_provenance] in *.
  destruct (_segment_provenance p) as [l'|] eqn:El; [|done]. injection Hl as <-.
  destruct (sliced_identity p st l' k i Hok Hst El Hk) as (j & Hj & Hi). rewrite (sv_map p st Hst _ _ Hj). f_equal.
  unfold physical. by rewrite (Hm l' j i El Hi).
Qed.

Lemma sliced_interned p st rs : packed_ok p -> slice_inv p st -> interned p -> interned (sliced p st rs).
Proof.
  intros Hok Hst Hnd l Hl. unfold sliced in Hl. cbn [_segment_provenance] in Hl.
  destruct (_segment_provenance p) as [l'|] eqn:El; [|done]. injection Hl as <-. apply NoDup_alt. intros a b i Ha Hb.
  destruct (sliced_identity p st l' a i Hok Hst El Ha) as (x & Hx & Hxi).
  destruct (sliced_identity p st l' b i Hok Hst El Hb) as (y & Hy & Hyi).
  assert (x = y) as -> by (by eapply (proj1 (NoDup_alt l') (Hnd l' El))). congruence.
Qed.

Lemma sliced_ok p st ks rs : packed_ok p -> slice_inv p st -> sliced_rows p st ks rs -> new_packed (sliced p st rs) = Ok (sliced p st rs).
Proof.
  intros Hok Hst [_ Hr]. apply new_packed_csr; [by apply packed_spec_ok| |].
  - intros r n Hrr Hnr. apply list_elem_of_lookup in Hrr as [j Hj]. destruct (Forall2_lookup_r _ _ _ _ _ Hr Hj) as (k & _ & Hf).
    apply list_elem_of_lookup in Hnr as [x Hx]. destruct (Forall2_lookup_r _ _ _ _ _ Hf Hx) as (i & _ & Hi).
    by eapply lookup_lt_Some, sv_map.
  - intros l Hl. destruct (_segment_provenance p) as [l'|] eqn:El; [|done]. injection Hl as <-. by apply (sv_prov p st Hst l').
Qed.

Lemma slice_inv_start p : slice_inv p (mkSliced ∅ [] [] []).
Proof.
  constructor; cbn; [by intros ? ? ?%lookup_empty_Some|by intros ? ? ?%lookup_empty_Some|by intros ? ? ? ?%lookup_empty_Some|lia|].
  intros l _. split; [done|]. by intros ? ? ?%lookup_empty_Some.
Qed.

Lemma mapM_index_lt n idx ks : mapM (py_index n) idx = Some ks -> Forall (fun k => (k < n)%nat) ks.
Proof. intros Em%mapM_Some. induction Em as [|i k idx ks Hk _ IH]; constructor; [by eapply py_index_lt|done]. Qed.

(** Selecting rows gives those rows, with negative positions counted from the
    end, and refuses a position out of range; what is shared stays shared (the
    identities stay sound, and none is stored twice).  Only the form without
    sharing cannot select nothing. *)
Theorem slice_selects_rows p idx : packed_ok p ->
  match mapM (py_index (rows_of p)) idx with
  | None => packed_slice p idx = Raise IndexError
  | Some ks =>
      if legacy p && bool_decide (idx = []) then packed_slice p idx = Raise AssertionError
      else exists q, packed_slice p idx = Ok q /\ packed_ok q
             /\ _row_segments q = (fun k => nth k (_row_segments p) []) <$> ks
             /\ (forall m, sound m p -> sound m q) /\ (interned p -> interned q)
  end.
Proof.
  intros Hok. pose proof (packed_spec_ok p Hok) as Hspec. unfold packed_slice. destruct (legacy p) eqn:El.
  - apply legacy_spec in El as [Hprov Hoff]. cbn [andb].
    assert (rows_of p = length (tensors p)) as Hn by (unfold rows_of; by rewrite Hoff). rewrite Hn.
    pose proof (traverse_py_get (tensors p) idx) as Ht.
    destruct (mapM _ idx) as [ks|] eqn:Em; [|by rewrite Ht]. destruct Ht as (ts & -> & Hts). cbn [mbind res_bind].
    case_bool_decide as Hidx.
    { subst idx. injection Em as <-. by inversion Hts. }
    rewrite new_packed_legacy; [|intros ->; apply Forall2_nil_inv_r in Hts as ->; apply mapM_Some in Em; by inversion Em; subst|done].
    eexists. split; [done|]. split; [|split; [|split; [|by intros ? ? [=]]]].
    + apply new_packed_legacy; [|done]. intros ->. apply Forall2_nil_inv_r in Hts as ->. apply mapM_Some in Em. by inversion Em; subst.
    + rewrite !legacy_segments by done. cbn [tensors]. clear -Hts. induction Hts as [|k t ks ts Hk _ IH]; [done|].
      rewrite !fmap_cons, IH. f_equal. symmetry. apply nth_lookup_Some. by rewrite list_lookup_fmap, Hk.
    + by intros m _ l k i [=].
  - cbn [andb].
    pose proof (slice_rows_spec p idx Hok (mkSliced ∅ [] [] []) [] [] (slice_inv_start p) ltac:(split; [done|constructor])) as Hs.
    change (offsets_of []) with [0%nat] in Hs. destruct (mapM _ idx) as [ks|] eqn:Em; [|by rewrite Hs].
    destruct Hs as (st & rs & -> & Hst & Hrs). cbn [app] in Hrs. cbn [mbind res_bind]. rewrite (proj1 Hrs).
    change (mkPacked _ _ _ _ _ _) with (sliced p st rs). rewrite (sliced_ok p st ks) by done. exists (sliced p st rs).
    split; [done|]. split; [by eapply sliced_ok|]. split; [|split; [intros m; by apply sliced_sound|by apply sliced_interned]].
    unfold sliced. rewrite <- (proj1 Hrs). apply sliced_segments; [done|done|by eapply mapM_index_lt].
Qed.

(** ** [concat] *)

(** Identities given so far. *)
Definition below (n : N) (p : PackedTensor) : Prop := forall l i, _segment_provenance p = Some l -> i ∈ l -> (i < n)%N.

(** What is stored so far: every identity once, standing for its tensor. *)
Record concat_inv (m : N -> option Tensor) (n : N) (st : Concatenated) : Prop := {
  ci_length : length (cc_provenances st) = length (cc_tensors st);
  ci_map : forall i k, provenance_to_physical st !! i = Some k <-> cc_provenances st !! k = Some i;
  ci_sound : forall i k, cc_provenances st !! k = Some i -> cc_tensors st !! k = Some (m i);
  ci_below : forall i, i ∈ cc_provenances st -> (i < n)%N }.

(** Both meanings agree on the identities given before. *)
Definition agree (n : N) (m m' : N -> option Tensor) : Prop := forall i, (i < n)%N -> m' i = m i.

Lemma concat_inv_agree m m' n n' st : agree n m m' -> (n <= n')%N -> concat_inv m n st -> concat_inv m' n' st.
Proof.
  intros Hm Hn [Hl Hmap Hs Hb]. constructor; [done|done| |].
  - intros i k Hk. rewrite Hm; [by apply Hs|]. apply Hb. by eapply list_elem_of_lookup_2.
  - intros i Hi%Hb. lia.
Qed.

Lemma intern_inv m n st t provenance n' st' new : concat_inv m n st ->
  (forall i, provenance = Some i -> (i < n)%N /\ m i = t) ->
  intern st t provenance n = (n', Ok (st', new)) ->
  (n <= n')%N /\ cc_tensors st `prefix_of` cc_tensors st' /\ cc_tensors st' !! new = Some t
  /\ cc_indices st' = cc_indices st /\ cc_offsets st' = cc_offsets st
  /\ exists m', agree n m m' /\ concat_inv m' n' st'.
Proof.
  intros Hst Hp Hi. pose proof Hst as [Hl Hmap Hs Hb]. unfold intern in Hi.
  destruct (provenance ≫= (fun i => provenance_to_physical st !! i)) as [k|] eqn:E.
  - apply se_ret_Ok in Hi as [-> [= -> ->]]. destruct provenance as [i|]; [|done]. cbn in E.
    destruct (Hp i eq_refl) as [Hin <-]. apply Hmap in E. split_and!; try done; [by apply Hs|]. by exists m.
  - apply se_bind_Ok in Hi as (n1 & i & Hi & [-> [= -> ->]]%se_ret_Ok). cbn [cc_tensors cc_indices cc_offsets].
    assert ((n <= n1)%N /\ (i < n1)%N /\ (i ∉ cc_provenances st) /\ exists m', agree n m m' /\ m' i = t) as (Hn & Hin & Hnew & m' & Hm' & Hmi).
    { destruct provenance as [i'|].
      - apply se_ret_Ok in Hi as [-> ->]. destruct (Hp i' eq_refl) as [Hlt Hmi]. split_and!; [done|done| |by exists m].
        intros [k Hk]%list_elem_of_lookup. apply Hmap in Hk. cbn in E. congruence.
      - unfold uuid4 in Hi. injection Hi as <- <-. split_and!; [lia|lia|intros Hc%Hb; lia|].
        exists (fun j => if decide (j = n) then t else m j). split; [intros j Hj; by rewrite decide_False by lia|by rewrite decide_True]. }
    pose proof (concat_inv_agree m m' n n1 st Hm' Hn Hst) as [Hl' Hmap' Hs' Hb'].
    split_and!; [done|by eexists|by rewrite lookup_app_r, Nat.sub_diag by lia|done|done|].
    exists m'. split; [done|]. constructor; cbn [cc_provenances cc_tensors provenance_to_physical].
    + rewrite !length_app. cbn. lia.
    + intros j k. rewrite lookup_insert_Some, Hmap'. split.
      * intros [[<- <-]|[Hne Hk]]; [by rewrite <- Hl, lookup_app_r, Nat.sub_diag by lia|].
        rewrite lookup_app_l; [done|]. by eapply lookup_lt_Some.
      * intros [Hk|[Hk Hj]]%lookup_app_Some.
        -- right. split; [intros <-; by apply Hnew; eapply list_elem_of_lookup_2|done].
        -- apply list_lookup_singleton_Some in Hj as [Hz <-]. left. split; [done|]. lia.
    + intros j k [Hk|[Hk Hj]]%lookup_app_Some.
      * rewrite lookup_app_l; [by apply Hs'|]. rewrite <- Hl. by eapply lookup_lt_Some.
      * apply list_lookup_singleton_Some in Hj as [Hz <-]. rewrite Hmi, lookup_app_r by lia.
        replace (k - length (cc_tensors st))%nat with 0%nat by lia. done.
    + intros j [Hj| ->%list_elem_of_singleton]%elem_of_app; [by apply Hb'|done].
Qed.

Lemma intern_all_inv ts : forall provenances m n st n' st' remap, concat_inv m n st ->
  Forall2 (fun t provenance => forall i, provenance = Some i -> (i < n)%N /\ m i = t) ts provenances ->
  intern_all st ts provenances n = (n', Ok (st', remap)) ->
  (n <= n')%N /\ cc_tensors st `prefix_of` cc_tensors st' /\ Forall2 (fun t new => cc_tensors st' !! new = Some t) ts remap
  /\ cc_indices st' = cc_indices st /\ cc_offsets st' = cc_offsets st
  /\ exists m', agree n m m' /\ concat_inv m' n' st'.
Proof.
  induction ts as [|t ts IH]; intros [|provenance provenances] m n st n' st' remap Hst Hf Hi; try by inversion Hf.
  - apply se_ret_Ok in Hi as [-> [= -> ->]]. split_and!; try done. by exists m.
  - apply Forall2_cons in Hf as [Hp Hf]. cbn [intern_all] in Hi. apply se_bind_Ok in Hi as (n1 & [st1 new] & H1 & Hi).
    apply se_bind_Ok in Hi as (n2 & [st2 remap'] & H2 & [-> [= -> ->]]%se_ret_Ok).
    destruct (intern_inv _ _ _ _ _ _ _ _ Hst Hp H1) as (Hn1 & Hpre1 & Hnew & Hi1 & Ho1 & m1 & Hm1 & Hst1).
    assert (Forall2 (fun t provenance => forall i, provenance = Some i -> (i < n1)%N /\ m1 i = t) ts provenances) as Hf'.
    { eapply Forall2_impl; [exact Hf|]. intros t' p' Hp' i Hi'. destruct (Hp' i Hi') as [Hlt <-]. split; [lia|by apply Hm1]. }
    destruct (IH _ _ _ _ _ _ _ Hst1 Hf' H2) as (Hn2 & Hpre2 & Hf2 & Hi2 & Ho2 & m2 & Hm2 & Hst2).
    split_and!; [lia|by etrans| |congruence|congruence|].
    + constructor; [|done]. destruct Hpre2 as [l ->]. by rewrite lookup_app_l by (by eapply lookup_lt_Some).
    + exists m2. split; [|done]. intros i Hlt. rewrite Hm2 by lia. by apply Hm1.
Qed.

Lemma intern_total st t provenance n : exists n' st' new, intern st t provenance n = (n', Ok (st', new)).
Proof.
  unfold intern. destruct (provenance ≫= _); [by eexists _, _, _|]. destruct provenance; by eexists _, _, _.
Qed.

Lemma intern_all_total ts : forall provenances st n, exists n' st' remap, intern_all st ts provenances n = (n', Ok (st', remap)).
Proof.
  induction ts as [|t ts IH]; intros [|i provenances] st n; try (by eexists _, _, _).
  destruct (intern_total st t i n) as (n1 & st1 & new & H1). destruct (IH provenances st1 n1) as (n2 & st2 & remap & H2).
  exists n2, st2, (new :: remap). cbn [intern_all]. unfold mbind, se_bind. rewrite H1. cbn. unfold mbind, se_bind. by rewrite H2.
Qed.

(** The rows of one input, with its physical tensors renumbered. *)
Definition renumbered (remap : list nat) (p : PackedTensor) : list (list nat) :=
  (fun row => (fun i => nth i remap 0%nat) <$> _row_segment_indices p row) <$> seq 0 (rows_of p).

Lemma append_rows remap p rows : forall st rs, cc_indices st = mjoin rs -> cc_offsets st = offsets_of rs ->
  let rs' := (rs ++ ((fun row => (fun i => nth i remap 0%nat) <$> _row_segment_indices p row) <$> rows))%list in
  let st' := foldl (append_row remap p) st rows in
  cc_indices st' = mjoin rs' /\ cc_offsets st' = offsets_of rs' /\ cc_tensors st' = cc_tensors st
  /\ cc_provenances st' = cc_provenances st /\ provenance_to_physical st' = provenance_to_physical st.
Proof.
  induction rows as [|row rows IH]; intros st rs Hi Ho; cbn [foldl fmap list_fmap]; [by rewrite app_nil_r|].
  set (r := (fun i => nth i remap 0%nat) <$> _row_segment_indices p row).
  assert (cc_indices (append_row remap p st row) = mjoin (rs ++ [r])%list) as Hi'.
  { cbn [append_row cc_indices]. rewrite Hi, join_app. cbn. by rewrite app_nil_r. }
  destruct (IH (append_row remap p st row) (rs ++ [r])%list Hi') as (H1 & H2 & H3 & H4 & H5).
  { rewrite offsets_of_snoc, <- Hi'. cbn [append_row cc_offsets cc_indices]. by rewrite Ho. }
  rewrite <- app_assoc in H1, H2. split_and!; done.
Qed.

(** The segments of rows [rs] over the physical tensors [ts]. *)
Definition segments_in (ts : list (option Tensor)) (rs : list (list nat)) : list (list Tensor) :=
  (fun r : list nat => omap (fun i => mjoin (ts !! i)) r) <$> rs.

Lemma renumbered_segments remap p ts : packed_ok p -> Forall2 (fun t new => ts !! new = Some t) (tensors p) remap ->
  segments_in ts (renumbered remap p) = _row_segments p.
Proof.
  intros Hok Hf. unfold segments_in, renumbered, _row_segments. rewrite <- list_fmap_compose. apply list_fmap_ext. intros k row Hk.
  apply lookup_seq in Hk as [-> Hlt]. cbn [compose]. apply omap_along. apply Forall2_fmap_r, Forall_Forall2_diag, Forall_forall.
  intros i Hi. apply packed_in_range in Hi; [|done|lia].
  destruct (lookup_lt_is_Some_2 (tensors p) i Hi) as [t Ht]. destruct (Forall2_lookup_l _ _ _ _ _ Hf Ht) as (new & Hnew & Hts).
  unfold compose. rewrite (nth_lookup_Some _ _ 0%nat _ Hnew), Hts. unfold physical. by rewrite Ht.
Qed.

Definition in_range (ts : list (option Tensor)) (rs : list (list nat)) : Prop :=
  forall r i, r ∈ rs -> i ∈ r -> (i < length ts)%nat.

Lemma segments_in_prefix ts ts' rs : ts `prefix_of` ts' -> in_range ts rs -> segments_in ts' rs = segments_in ts rs /\ in_range ts' rs.
Proof.
  intros [l ->] Hin. split; [|intros r i Hr Hi; specialize (Hin r i Hr Hi); rewrite length_app; lia].
  apply list_fmap_ext. intros k r Hr%list_elem_of_lookup_2. apply omap_along, Forall_Forall2_diag, Forall_forall.
  intros i Hi. by rewrite lookup_app_l by (by eapply Hin).
Qed.

(** What the loop has built after some inputs. *)
Record built (m : N -> option Tensor) (n : N) (st : Concatenated) (rs : list (list nat)) : Prop := {
  bu_inv : concat_inv m n st;
  bu_indices : cc_indices st = mjoin rs;
  bu_offsets : cc_offsets st = offsets_of rs;
  bu_range : in_range (cc_tensors st) rs }.

Lemma own_provenances m n p : packed_ok p -> sound m p -> below n p ->
  Forall2 (fun t provenance => forall i, provenance = Some i -> (i < n)%N /\ m i = t) (tensors p)
    (match _segment_provenance p with Some l => Some <$> l | None => replicate (length (tensors p)) None end).
Proof.
  intros Hok Hs Hb. apply Forall2_same_length_lookup. destruct (_segment_provenance p) as [l|] eqn:E.
  - split; [by rewrite length_fmap, (packed_provenance p l)|]. intros k t o Ht Ho i ->.
    apply list_lookup_fmap_Some in Ho as (i' & [= <-] & Hl). pose proof (Hs l k i E Hl) as Hm.
    split; [apply (Hb l i E); by eapply list_elem_of_lookup_2|congruence].
  - split; [by rewrite length_replicate|]. intros k t o _ Ho i ->. by apply lookup_replicate in Ho as [? _].
Qed.

Lemma concat_one_spec m n st p rs : packed_ok p -> sound m p -> below n p -> built m n st rs ->
  exists n' st' rs' m', concat_one st p n = (n', Ok st') /\ (n <= n')%N /\ agree n m m' /\ built m' n' st' (rs ++ rs')
    /\ cc_tensors st `prefix_of` cc_tensors st' /\ segments_in (cc_tensors st') rs' = _row_segments p.
Proof.
  intros Hok Hs Hb [Hinv Hi Ho Hr]. unfold concat_one.
  set (provs := match _segment_provenance p with Some l => Some <$> l | None => replicate (length (tensors p)) None end).
  destruct (intern_all_total (tensors p) provs st n) as (n' & st1 & remap & Hall).
  destruct (intern_all_inv _ _ _ _ _ _ _ _ Hinv (own_provenances m n p Hok Hs Hb) Hall) as (Hn & Hpre & Hf & Hi1 & Ho1 & m' & Hm' & Hinv').
  destruct (append_rows remap p (seq 0 (rows_of p)) st1 rs) as (Hi2 & Ho2 & Ht2 & Hp2 & Hmap2); [congruence..|].
  set (st2 := foldl (append_row remap p) st1 (seq 0 (rows_of p))) in *.
  exists n', st2, (renumbered remap p), m'. unfold mbind, se_bind. rewrite Hall.
  split_and!; [done|done|done| |by rewrite Ht2|rewrite Ht2; by apply renumbered_segments].
  constructor; [|done|done|].
  - destruct Hinv' as [H1 H2 H3 H4]. constructor; rewrite ?Ht2, ?Hp2, ?Hmap2; done.
  - rewrite Ht2. intros r i [Hrr|Hrr]%elem_of_app Hir.
    + eapply segments_in_prefix; [exact Hpre|exact Hr|exact Hrr|exact Hir].
    + apply list_elem_of_fmap in Hrr as (row & -> & Hrow%elem_of_seq). apply list_elem_of_fmap in Hir as (j & -> & Hj).
      apply packed_in_range in Hj; [|done|lia]. destruct (lookup_lt_is_Some_2 (tensors p) j Hj) as [t Ht].
      destruct (Forall2_lookup_l _ _ _ _ _ Hf Ht) as (new & Hnew & Hts). rewrite (nth_lookup_Some _ _ 0%nat _ Hnew).
      by eapply lookup_lt_Some.
Qed.

Lemma below_mono n n' p : (n <= n')%N -> below n p -> below n' p.
Proof. intros Hn Hb l i Hl Hi. specialize (Hb l i Hl Hi). lia. Qed.
Lemma sound_agree n m m' p : packed_ok p -> below n p -> agree n m m' -> sound m p -> sound m' p.
Proof. intros Hok Hb Hm Hs l k i Hl Hk. rewrite Hm; [by eapply Hs|]. eapply Hb; [done|]. by eapply list_elem_of_lookup_2. Qed.

Lemma concat_all_spec ps : forall m n st rs, Forall (fun p => packed_ok p /\ sound m p /\ below n p) ps -> built m n st rs ->
  exists n' st' rs' m', concat_all st ps n = (n', Ok st') /\ (n <= n')%N /\ agree n m m' /\ built m' n' st' (rs ++ rs')
    /\ cc_tensors st `prefix_of` cc_tensors st' /\ segments_in (cc_tensors st') rs' = mjoin (_row_segments <$> ps).
Proof.
  induction ps as [|p ps IH]; intros m n st rs Hps Hst; cbn [concat_all].
  - exists n, st, [], m. rewrite app_nil_r. split_and!; try done.
  - apply Forall_cons in Hps as [(Hok & Hs & Hb) Hps].
    destruct (concat_one_spec m n st p rs Hok Hs Hb Hst) as (n1 & st1 & rs1 & m1 & H1 & Hn1 & Hm1 & Hst1 & Hpre1 & Hseg1).
    assert (Forall (fun p => packed_ok p /\ sound m1 p /\ below n1 p) ps) as Hps1.
    { eapply Forall_impl; [exact Hps|]. intros q (Hq1 & Hq2 & Hq3). split_and!; [done|by eapply sound_agree|by eapply below_mono]. }
    destruct (IH m1 n1 st1 _ Hps1 Hst1) as (n2 & st2 & rs2 & m2 & H2 & Hn2 & Hm2 & Hst2 & Hpre2 & Hseg2).
    exists n2, st2, (rs1 ++ rs2)%list, m2. unfold mbind, se_bind. rewrite H1.
    split_and!; [done|lia| |by rewrite app_assoc|by etrans|].
    + intros i Hi. rewrite Hm2 by lia. by apply Hm1.
    + unfold segments_in in *. rewrite fmap_app, Hseg2, fmap_cons. cbn [mjoin list_join]. f_equal. rewrite <- Hseg1.
      apply segments_in_prefix; [done|]. intros r i Hr. apply (bu_range _ _ _ _ Hst1). apply elem_of_app. by right.
Qed.

(** The inputs of a concatenation: packed alike, with identities that mean the
    same tensor in each. *)
Definition fits (m : N -> option Tensor) (n : N) (first p : PackedTensor) : Prop :=
  packed_ok p /\ sound m p /\ below n p /\ dim_to_pack p = dim_to_pack first /\ _preprocess_spec p = _preprocess_spec first.

Lemma fits_checks m n first ps : Forall (fits m n first) ps ->
  existsb (fun p => negb (dim_to_pack p =? dim_to_pack first)) ps = false
  /\ existsb (fun p => negb (bool_decide (_preprocess_spec p = _preprocess_spec first))) ps = false.
Proof.
  induction 1 as [|p ps (_ & _ & _ & Hd & Hs) _ [IH1 IH2]]; [done|]. cbn [existsb].
  by rewrite Hd, Hs, Z.eqb_refl, bool_decide_true.
Qed.

Lemma legacy_concat_rows ps : existsb (fun p => negb (legacy p)) ps = false ->
  (fun t : option Tensor => option_list t) <$> (ps ≫= tensors) = mjoin (_row_segments <$> ps).
Proof.
  induction ps as [|p ps IH]; [done|]. cbn [existsb]. intros [Hp%negb_false_iff Hps]%orb_false_iff.
  rewrite bind_cons, fmap_app, fmap_cons, IH by done. cbn [mjoin list_join]. f_equal.
  rewrite legacy_segments; [done|]. by apply legacy_spec in Hp as [_ ?].
Qed.

(** Concatenation puts the rows of its inputs one after another, each with its
    segments in order; a tensor that several inputs share is stored once. *)
Theorem concatenation_keeps_rows m n first ps : Forall (fits m n first) (first :: ps) ->
  exists n' q, packed_concat (first :: ps) n = (n', Ok q) /\ packed_ok q
    /\ _row_segments q = mjoin (_row_segments <$> first :: ps)
    /\ interned q /\ exists m', agree n m m' /\ sound m' q /\ below n' q.
Proof.
  intros Hall. pose proof Hall as [(Hok & _) Hps]%Forall_cons. destruct (fits_checks m n first ps Hps) as [Hd Hs].
  pose proof (packed_spec_ok first Hok) as Hspec. unfold packed_concat. unfold guard, raise_if. rewrite Hd, Hs.
  cbn [lift mbind se_bind]. unfold mbind, se_bind, lift.
  destruct (existsb (fun p => negb (legacy p)) (first :: ps)) eqn:El.
  - destruct (concat_all_spec (first :: ps) m n (mkConcatenated [] [] ∅ [] [0%nat]) []) as (n' & st & rs & m' & Hc & Hn & Hm' & Hst & _ & Hseg).
    { eapply Forall_impl; [exact Hall|]. by intros q (? & ? & ? & _). }
    { constructor; [|done|done|by intros ? ? ?%not_elem_of_nil]. constructor; cbn.
      - done.
      - intros i k. rewrite lookup_empty, lookup_nil. done.
      - intros i k. by rewrite lookup_nil.
      - by intros i ?%not_elem_of_nil. }
    rewrite Hc. cbn [app] in Hst. destruct Hst as [Hinv Hi Ho Hr]. rewrite Hi, Ho. destruct Hinv as [Hl Hmap Hso Hbe].
    exists n'. eexists. split; [rewrite new_packed_csr; [done|done|exact Hr|by intros l [= <-]]|].
    split; [apply new_packed_csr; [done|exact Hr|by intros l [= <-]]|]. split; [|split].
    + rewrite (has_rows_segments _ rs) by done. exact Hseg.
    + intros l [= <-]. apply NoDup_alt. intros a b i Ha%Hmap Hb%Hmap. congruence.
    + exists m'. split; [done|]. split; [intros l k i [= <-]; apply Hso|intros l i [= <-]; apply Hbe].
  - assert ((first :: ps) ≫= tensors <> []) as Hne.
    { cbn [existsb] in El. apply orb_false_iff in El as [[_ Ho]%negb_false_iff%legacy_spec _].
      rewrite bind_cons. intros [Ht _]%app_eq_nil. unfold packed_ok, new_packed in Hok. rewrite Ht, Ho in Hok. discriminate. }
    rewrite new_packed_legacy by done. eexists n, _. split; [done|]. split; [by apply new_packed_legacy|].
    split; [rewrite legacy_segments by done; by apply legacy_concat_rows|]. split; [done|].
    exists m. split; [done|]. split; by intros ? ? ? [=] || by intros ? ? [=].
Qed.

(** ** Instances *)

Module Demo.
Definition image (z : Z) : Tensor := mkTensor Float32 [1; 2] [z; z + 1].
Definition spec := mkPreprocess (Some "patchify") {[ "patch_dim" := 14 ]}.
(** Three samples, of which two show the second image; and one of its own. *)
Definition shared := mkPacked [Some (image 10); Some (image 20)] 0 spec (Some [0; 2; 3; 3]%nat) (Some [0; 1; 1]%nat) (Some [0; 1]%N).
Definition alone := mkPacked [Some (image 30)] 0 spec None None None.
Definition named (i : N) : option Tensor := if (i =? 0)%N then Some (image 10) else Some (image 20).

Lemma slice_witness : exists q, packed_slice shared [-1; 1; 0] = Ok q
  /\ _row_segments q = [[]; [image 20]; [image 10; image 20]] /\ interned q.
Proof.
  destruct (slice_selects_rows shared [-1; 1; 0] eq_refl) as (q & Hq & _ & Hs & _ & Hi).
  exists q. split; [exact Hq|]. split; [rewrite Hs; vm_compute; reflexivity|].
  apply Hi. intros l [= <-]. repeat constructor; set_solver.
Defined.

Lemma concat_witness : exists n' q, packed_concat [shared; alone; shared] 2%N = (n', Ok q)
  /\ _row_segments q = [[image 10; image 20]; [image 20]; []; [image 30]; [image 10; image 20]; [image 20]; []] /\ interned q.
Proof.
  destruct (concatenation_keeps_rows named 2%N shared [alone; shared]) as (n' & q & Hq & _ & Hs & Hi & _).
  - assert (fits named 2%N shared shared) as Hf.
    { split; [reflexivity|]. split.
      - intros l [|[|k]] i [= <-] Hk; cbn in Hk; [injection Hk as <-; reflexivity..|discriminate].
      - split; [|done]. intros l i [= <-] Hi. repeat (apply elem_of_cons in Hi as [->|Hi]; [lia|]). by apply elem_of_nil in Hi. }
    constructor; [exact Hf|]. constructor; [|constructor; [exact Hf|constructor]].
    split; [reflexivity|]. split; [by intros ? ? ? [=]|]. split; [by intros ? ? [=]|done].
  - exists n', q. split; [exact Hq|]. split; [rewrite Hs; vm_compute; reflexivity|exact Hi].
Defined.
End Demo.
