(* ===== verification/Wire.v ===== *)
(** * The wire form of a batch
    ([data_plane/codec.py], the wire part of [PackedTensor] and the multimodal
    registry of [data/multimodal_utils.py], [get_multimodal_dict] of
    [distributed/batched_data_dict.py], [pack_payload] of
    [experience/payload.py])

    What a producer puts into the data plane and what a consumer makes of it:
    fields with one value per token travel without their padding, packed media
    travel flat, one row per sample, with their shapes beside them in the tags.

    A tensor is a dtype, a shape and its elements ([Media.Tensor]); a jagged
    tensor is its rows.  Timers are not modelled. *)

From S2P Require Import Prelude.
From S2P Require Import PyVal.
From S2P Require Import DataPlaneMeta.
From S2P Require Import LogicalOwners.
From S2P Require Import Media.
From S2P Require Import PackedTensors.
#[local] Open Scope string_scope.
#[local] Open Scope Z_scope.

(** A column of a batch: a tensor, a jagged tensor, an object array, packed
    media; or nothing, as the rebuilding of media without rows gives. *)
Inductive column :=
| Dense (t : Tensor)
| Nested (rows : list Tensor)
| Objects (l : list PyVal)
| Packed (p : PackedTensor)
| Absent.
Abbreviation batch := (list (string * column)) (only parsing).

(** ** Registries *)

Definition PER_TOKEN_MULTIMODAL_FIELDS : list string :=
  ["token_type_ids"; "mm_token_type_ids"; "media_token_validity_mask"].
Definition PACKED_MULTIMODAL_FIELDS : list string :=
  ["pixel_values"; "pixel_values_videos"; "image_grid_thw"; "video_grid_thw"; "second_per_grid_ts"; "input_features";
   "feature_attention_mask"; "video_second_per_grid"; "imgs_sizes"; "num_frames"].
Definition OPD_FULL_FIELDS : list string := ["teacher_full_hidden_states"; "teacher_full_logits"].
Definition SAMPLER_TOPK_FIELDS : list string := ["sampler_topk_token_ids"; "sampler_topk_logprobs"].
Definition TOKEN_ALIGNED_FIELDS : list string :=
  (["input_ids"; "generation_logprobs"; "prev_logprobs"; "reference_policy_logprobs"; "teacher_reference_logprobs"]
   ++ OPD_FULL_FIELDS ++ ["advantages"; "returns"; "values"; "token_mask"; "sample_mask"; "routed_experts"]
   ++ SAMPLER_TOPK_FIELDS ++ ["invalid_tool_call_mask"; "malformed_thinking_mask"] ++ PER_TOKEN_MULTIMODAL_FIELDS)%list.
Definition is_packed_field (k : string) : bool := bool_decide (k ∈ PACKED_MULTIMODAL_FIELDS).

Definition row_shapes_key (field : string) : string := field +:+ "__row_shapes".
Definition ROW_GEOMETRY_SHAPES : string := "shapes".
Definition ROW_GEOMETRY_PREPROCESS_MODE : string := "preprocess_mode".
Definition ROW_GEOMETRY_PREPROCESS_KWARGS : string := "preprocess_kwargs".

(** ** Tensors *)

Definition numel_of (shape : list Z) : Z := foldr Z.mul 1 shape.
Definition flat (t : Tensor) : Tensor := mkTensor (t_dtype t) [numel t] (data t).
(** The elements of one entry along the first dimension. *)
Definition stride (t : Tensor) : Z := numel_of (tl (shape t)).
(** [t[i]]. *)
Definition row_at (t : Tensor) (i : nat) : Tensor :=
  let s := Z.to_nat (stride t) in mkTensor (t_dtype t) (tl (shape t)) (take s (drop (i * s) (data t))).
(** [t[:k]]. *)
Definition upto (k : Z) (t : Tensor) : Tensor :=
  let n := py_bound (Z.to_nat (dim t 0)) k in
  mkTensor (t_dtype t) (Z.of_nat n :: tl (shape t)) (take (n * Z.to_nat (stride t)) (data t)).
(** [torch.stack(rows)] of rows of one shape. *)
Definition stack (first : Tensor) (rest : list Tensor) : Tensor :=
  mkTensor (t_dtype first) (Z.of_nat (S (length rest)) :: shape first) (mjoin (data <$> first :: rest)).

(** [torch.nested.as_nested_tensor(rows, layout=torch.jagged)]: only the first
    dimension may be ragged. *)
Definition as_nested_tensor (rows : list Tensor) : res column :=
  match rows with
  | [] => Ok (Nested [])
  | first :: rest =>
      _ ← raise_if (existsb (fun r => negb (bool_decide (t_dtype r = t_dtype first))) rest) RuntimeError;
      _ ← raise_if ((ndim first =? 0)%nat || existsb (fun r => negb (bool_decide (tl (shape r) = tl (shape first))) || (ndim r =? 0)%nat) rest)
            RuntimeError;
      Ok (Nested rows)
  end.

(** ** Packing *)

Definition to_nested_by_length (padded : Tensor) (lengths : list Z) : res column :=
  _ ← raise_if (ndim padded <? 2)%nat ValueError;
  let n := Z.to_nat (dim padded 0) in
  _ ← raise_if (negb (length lengths =? n)%nat) ValueError;
  as_nested_tensor (imap (fun i len => upto len (row_at padded i)) lengths).

Definition stack_or_nest (ts : list Tensor) : res column :=
  match ts with
  | [] => Ok (Dense (mkTensor Float32 [0] []))
  | first :: rest =>
      if forallb (fun t => bool_decide (shape t = shape first)) rest then
        _ ← raise_if (existsb (fun r => negb (bool_decide (t_dtype r = t_dtype first))) rest) RuntimeError;
        Ok (Dense (stack first rest))
      else as_nested_tensor ts
  end.

(** [lengths.max()]; there is at least one. *)
Definition max_length (lengths : list Z) : Z :=
  match lengths with [] => 0 | x :: l => foldl Z.max x l end.

Definition pack_per_token_field (val : Tensor) (lengths : list Z) : res column :=
  let n := length lengths in
  if (n =? 0)%nat then Ok (Dense val)
  else if (ndim val <? 2)%nat || negb (dim val 0 =? Z.of_nat n) || (dim val 1 <? max_length lengths) then Ok (Dense val)
  else to_nested_by_length val lengths.

(** The leading dimension of a column of a [TensorDict]. *)
Definition batch_dim (c : column) : option Z :=
  match c with
  | Dense t => head (shape t)
  | Nested rows => Some (Z.of_nat (length rows))
  | _ => None
  end.

Definition pack_field (lengths : option (list Z)) (aligned : list string) (k : string) (v : column) : res column :=
  match v with
  | Objects l => Ok (Objects l)
  | Dense t =>
      match lengths with
      | Some ls => if bool_decide (k ∈ aligned) then pack_per_token_field t ls else Ok (Dense t)
      | None => Ok (Dense t)
      end
  | Nested rows => Ok (Nested rows)
  | _ => Raise TypeError
  end.

(** A field that is already nested passes through: what the function does with a
    nested per-token field is outside the model.  The [TensorDict] refuses a
    tensor whose leading dimension is not the batch size. *)
Definition pack_jagged_fields (fields : batch) (lengths : option (list Z)) (aligned : list string) : res batch :=
  let n := match lengths with Some ls => Z.of_nat (length ls) | None => 0 end in
  packed ← traverse (fun kv => c ← pack_field lengths aligned kv.1 kv.2; Ok (kv.1, c)) fields;
  _ ← raise_if (existsb (fun kv : string * column => match kv.2 with
                                | Objects _ => false
                                | c => negb (bool_decide (batch_dim c = Some n))
                                end) packed) RuntimeError;
  Ok packed.

(** ** Padding *)

(** [t] with its first dimension widened to [width] by [pad]. *)
Definition pad_row (pad width : Z) (t : Tensor) : list Z :=
  (data t ++ replicate (Z.to_nat ((width - dim t 0) * stride t)) pad)%list.

(** [torch.nested.to_padded_tensor(value, pad, output_size=(rows, width, ...))]. *)
Definition to_padded (rows : list Tensor) (pad width : Z) : Tensor :=
  let first := default (mkTensor Float32 [0] []) (head rows) in
  mkTensor (t_dtype first) (Z.of_nat (length rows) :: width :: tl (shape first)) (mjoin (pad_row pad width <$> rows)).

(** [torch.nn.functional.pad] on the right of the second dimension. *)
Definition pad_dense (t : Tensor) (pad width : Z) : Tensor :=
  mkTensor (t_dtype t) (dim t 0 :: width :: drop 2 (shape t))
    (mjoin ((fun i => pad_row pad width (row_at t i)) <$> seq 0 (Z.to_nat (dim t 0)))).

Definition pad_field (key : string) (value : column) (pad pad_to_seqlen : Z) : column :=
  if is_packed_field key then value
  else
    let widen := negb (bool_decide (key ∈ OPD_FULL_FIELDS)) in
    match value with
    | Nested rows =>
        let seqlen := max_length ((fun r => dim r 0) <$> rows) in
        Dense (to_padded rows pad (if widen then Z.max seqlen pad_to_seqlen else seqlen))
    | Dense t =>
        if negb widen || (ndim t <? 2)%nat || (pad_to_seqlen <=? dim t 1) then Dense t
        else Dense (pad_dense t pad pad_to_seqlen)
    | c => c
    end.

(** The pad value of a field, as an element of its column. *)
Definition pad_of (pads : option (list (string * Z))) (key : string) : Z := default 0 (kv_get key (default [] pads)).

(** [isinstance(val, torch.Tensor)]. *)
Definition is_tensor (c : column) : bool := match c with Dense _ | Nested _ => true | _ => false end.

Definition pad_batch (fields : batch) (pads : option (list (string * Z))) (pad_to_seqlen : Z) (skip : list string) : batch :=
  (fun kv : string * column =>
     (kv.1, if is_tensor kv.2 && negb (bool_decide (kv.1 ∈ skip)) then pad_field kv.1 kv.2 (pad_of pads kv.1) pad_to_seqlen else kv.2)) <$> fields.

(** [response_from_nested]: the last [resp_len] values of each row, one token
    earlier. *)
Fixpoint response_rows (full : list Tensor) (lens : list Z) (offset : Z) (values : Tensor) : list Tensor :=
  match full, lens with
  | r :: full, n :: lens =>
      let seq_offset := offset + dim r 0 in
      let lo := py_bound (Z.to_nat (dim values 0)) (seq_offset - n - 1) in
      let hi := py_bound (Z.to_nat (dim values 0)) (seq_offset - 1) in
      let s := Z.to_nat (stride values) in
      mkTensor (t_dtype values) (Z.of_nat (hi - lo) :: tl (shape values)) (take ((hi - lo) * s) (drop (lo * s) (data values)))
      :: response_rows full lens seq_offset values
  | _, _ => []
  end.
(** [full.values()]. *)
Definition values_of (rows : list Tensor) : Tensor :=
  let first := default (mkTensor Float32 [0] []) (head rows) in
  mkTensor (t_dtype first) (zsum ((fun r => dim r 0) <$> rows) :: tl (shape first)) (mjoin (data <$> rows)).
Definition response_from_nested (full response_mask : list Tensor) : res column :=
  _ ← raise_if (negb (length full =? length response_mask)%nat) ValueError;
  as_nested_tensor (response_rows full ((fun r => dim r 0) <$> response_mask) 0 (values_of full)).

(** ** Packed media on the wire *)

Section media.
(** [torch.cat] of flat tensors of different dtypes promotes them. *)
Context (promoted : list Tensor -> Tensor).

(** One row: its segments flattened, one after another. *)
Definition wire_row (segs : list Tensor) : option Tensor :=
  match segs with
  | [] => None
  | first :: rest =>
      Some (if forallb (fun t => bool_decide (t_dtype t = t_dtype first)) rest
            then mkTensor (t_dtype first) [zsum (numel <$> segs)] (mjoin (data <$> segs))
            else promoted (flat <$> segs))
  end.

Definition to_wire (p : PackedTensor) : res (option column * list (list (list Z))) :=
  _ ← raise_if (negb (dim_to_pack p =? 0)) NotImplementedError;
  let rows := wire_row <$> _row_segments p in
  match head (omap id rows) with
  | None => Ok (None, [])
  | Some ref =>
      nested ← as_nested_tensor (default (mkTensor (t_dtype ref) [0] []) <$> rows);
      Ok (Some nested, row_shapes p)
  end.

(** [torch.split(flat, numels)], each view reshaped. *)
Fixpoint split_row (t : dtype) (values : list Z) (shapes : list (list Z)) : list Tensor :=
  match shapes with
  | [] => []
  | s :: shapes =>
      let n := Z.to_nat (numel_of s) in
      mkTensor t s (take n values) :: split_row t (drop n values) shapes
  end.

Definition split_checked (row : Tensor) (shapes : list (list Z)) : res (list Tensor) :=
  _ ← raise_if (negb (zsum (numel_of <$> shapes) =? dim row 0)) RuntimeError;
  Ok (split_row (t_dtype row) (data row) shapes).

Fixpoint row_ends (start : nat) (rows : list (list Tensor)) : list nat :=
  match rows with
  | [] => [start]
  | r :: rows => start :: row_ends (start + length r) rows
  end.

Definition from_wire (nested : column) (shapes : list (list (list Z))) (spec : preprocess) : res (option PackedTensor) :=
  match nested with
  | Nested [] => Ok None
  | Nested rows =>
      _ ← raise_if (negb (length shapes =? length rows)%nat) ValueError;
      segments ← traverse (fun rs => split_checked rs.1 rs.2) (zip rows shapes);
      let segments_flat := mjoin segments in
      p ← new_packed (mkPacked (Some <$> segments_flat) 0 spec (Some (row_ends 0 segments)) (Some (seq 0 (length segments_flat))) None);
      Ok (Some p)
  | _ => Raise TypeError
  end.

Definition encode_multimodal_for_wire (k : string) (v : column) : res (option column) :=
  if is_packed_field k then
    match v with Packed p => '(nested, _) ← to_wire p; Ok nested | _ => Raise AssertionError end
  else if bool_decide (k ∈ PER_TOKEN_MULTIMODAL_FIELDS) then
    match v with Dense _ | Nested _ => Ok (Some v) | _ => Raise AssertionError end
  else Raise KeyError.
End media.

(** ** Shapes in the tags *)

Definition shapes_value (row : list (list Z)) : PyVal := VList ((fun s => VList (VInt <$> s)) <$> row).
Definition kwargs_value (kw : gmap string Z) : PyVal := str_dict ((fun kv => (kv.1, VInt kv.2)) <$> map_to_list kw).
Definition geometry (p : PackedTensor) (row : list (list Z)) : PyVal :=
  str_dict [(ROW_GEOMETRY_SHAPES, shapes_value row);
            (ROW_GEOMETRY_PREPROCESS_MODE, match preprocess_mode (_preprocess_spec p) with Some m => VStr m | None => VNone end);
            (ROW_GEOMETRY_PREPROCESS_KWARGS, kwargs_value (preprocess_kwargs (_preprocess_spec p)))].

Fixpoint row_tags_loop (multimodal : batch) (sample_count : nat) (ts : list tag) : res (list tag) :=
  match multimodal with
  | [] => Ok ts
  | (key, Packed p) :: rest =>
      if negb (is_packed_field key) || forallb (fun r => bool_decide (r = [])) (row_shapes p) then row_tags_loop rest sample_count ts
      else
        _ ← raise_if (negb (length (row_shapes p) =? sample_count)%nat) ValueError;
        row_tags_loop rest sample_count (zip_with (fun t r => dict_set (row_shapes_key key) (geometry p r) t) ts (row_shapes p))
  | _ :: rest => row_tags_loop rest sample_count ts
  end.

Definition multimodal_row_tags (multimodal : batch) (sample_count : nat) : res (option (list tag)) :=
  ts ← row_tags_loop multimodal sample_count (replicate sample_count []);
  Ok (if existsb (fun t : tag => negb (bool_decide (t = []))) ts then Some ts else None).

(** Reading a geometry back. *)
Definition int_value (v : PyVal) : res Z := match v with VInt z => Ok z | _ => Raise TypeError end.
Definition list_value (v : PyVal) : res (list PyVal) := match v with VList l | VTuple l => Ok l | _ => Raise TypeError end.
Definition read_shapes (v : PyVal) : res (list (list Z)) :=
  l ← list_value v; traverse (fun s => dims ← list_value s; traverse int_value dims) l.
Definition read_mode (v : PyVal) : res (option string) :=
  match v with VNone => Ok None | VStr m => Ok (Some m) | _ => Raise ValueError end.
Definition read_kwargs (v : PyVal) : res (gmap string Z) :=
  match v with
  | VNone => Ok ∅
  | VDict d =>
      kvs ← traverse (fun kv : PyVal * PyVal => match kv with (VStr k, VInt z) => Ok (k, z) | _ => Raise TypeError end) d;
      Ok (list_to_map kvs)
  | _ => Raise TypeError
  end.
Definition subscript_str (k : string) (v : PyVal) : res PyVal :=
  match v with VDict d => dict_index k d | _ => Raise TypeError end.

(** [t.get(key)], where [None] is no value. *)
Definition tag_get (key : string) (t : tag) : option PyVal :=
  match dict_get key t with Some VNone => None | r => r end.

Section media.
Context (promoted : list Tensor -> Tensor).

(** The rows of one packed field rebuilt from its tags. *)
Definition reassemble_field (key : string) (value : column) (ts : option (list tag)) : res column :=
  if negb (is_packed_field key) then Ok value
  else
    match value with
    | Nested _ =>
        let rows := tag_get (row_shapes_key key) <$> default [] ts in
        match List.filter truthy (omap id rows) with
        | [] => Raise ValueError
        | first :: _ =>
            shapes ← traverse (fun r => match r with None => Ok [] | Some v => s ← subscript_str ROW_GEOMETRY_SHAPES v; read_shapes s end) rows;
            mode_v ← subscript_str ROW_GEOMETRY_PREPROCESS_MODE first;
            mode ← read_mode mode_v;
            kw_v ← subscript_str ROW_GEOMETRY_PREPROCESS_KWARGS first;
            kw ← read_kwargs kw_v;
            p ← from_wire value shapes (mkPreprocess mode kw);
            Ok (match p with Some p => Packed p | None => Absent end)
        end
    | _ => Ok value
    end.

Definition reassemble_packed_multimodal (fields : batch) (ts : option (list tag)) : res batch :=
  traverse (fun kv => c ← reassemble_field kv.1 kv.2 ts; Ok (kv.1, c)) fields.

(** ** [materialize] *)

Definition materialize (td : batch) (padded : bool) (pads : option (list (string * Z))) (pad_to_seqlen : Z) (ts : option (list tag))
  : res batch :=
  out ← traverse (fun kv : string * column =>
          match kv.2 with
          | Objects l => Ok (kv.1, Objects l)
          | Dense _ | Nested _ => Ok (kv.1, if padded then pad_field kv.1 kv.2 (pad_of pads kv.1) pad_to_seqlen else kv.2)
          | _ => Raise TypeError
          end) td;
  reassemble_packed_multimodal out ts.

(** ** [pack_payload] *)

(** [get_multimodal_dict(as_tensors=False)]. *)
Fixpoint get_multimodal_dict (fields : batch) : res batch :=
  match fields with
  | [] => Ok []
  | (k, v) :: rest =>
      keep ← match v with
             | Packed _ => Ok true
             | _ => if bool_decide (k ∈ PER_TOKEN_MULTIMODAL_FIELDS) then Ok true
                    else if is_packed_field k then Raise ValueError else Ok false
             end;
      r ← get_multimodal_dict rest;
      Ok (if keep : bool then (k, v) :: r else r)
  end.

(** Adding the wire values to the tensor fields. *)
Fixpoint add_wire_fields (multimodal : batch) (tensor_fields : batch) : res batch :=
  match multimodal with
  | [] => Ok tensor_fields
  | (key, value) :: rest =>
      w ← encode_multimodal_for_wire promoted key value;
      add_wire_fields rest (match w with Some c => kv_set key c tensor_fields | None => tensor_fields end)
  end.

Definition GROUP_ID_TAG : string := "group_id".
(** [{**a, **b}]: string keys of [b] set in [a]. *)
Definition dict_update (a b : tag) : tag :=
  foldl (fun d kv => match kv.1 with VStr k => dict_set k kv.2 d | _ => (d ++ [kv])%list end) a b.

Definition row_payload_tag (weight_version prompt_idx : Z) (group_id : string) (violations media : tag) : tag :=
  dict_update (dict_update [(VStr "weight_version", VInt weight_version); (VStr "prompt_idx", VInt prompt_idx); (VStr GROUP_ID_TAG, VStr group_id)]
                 violations) media.

(** The fields that travel as they are. *)
Definition plain_fields (fields : batch) : batch :=
  List.filter (fun kv : string * column => match kv.2 with Dense _ | Nested _ | Objects _ => true | _ => false end) fields.

(** [violation_counts], which is no column, is an argument: one dict per row. *)
Definition pack_payload (train_batch : batch) (violation_counts : option (list tag)) (weight_version : Z) (group_id : string) (prompt_idx : Z)
  : res (list string * batch * list tag) :=
  lengths ← match kv_get "input_lengths" train_batch with Some (Dense t) => Ok (data t) | Some _ => Raise AttributeError | None => Raise KeyError end;
  let n := length lengths in
  multimodal ← get_multimodal_dict train_batch;
  tensor_fields ← add_wire_fields multimodal (plain_fields train_batch);
  fields ← pack_jagged_fields tensor_fields (Some lengths) TOKEN_ALIGNED_FIELDS;
  let violations := default (replicate n []) violation_counts in
  media_tags ← multimodal_row_tags multimodal n;
  ts ← traverse (fun i => v ← get_index violations i; m ← get_index (default (replicate n []) media_tags) i;
                          Ok (row_payload_tag weight_version prompt_idx group_id v m)) (seq 0 n);
  Ok ((fun i => owner_id group_id (Z.of_nat i)) <$> seq 0 n, fields, ts).
End media.

(** ** Which media a consumer asks for *)

Definition WIRE_MULTIMODAL_FIELDS : list string := (PER_TOKEN_MULTIMODAL_FIELDS ++ PACKED_MULTIMODAL_FIELDS)%list.
(** [sorted(names & fields)]. *)
Definition present_multimodal_fields (m : KVBatchMeta) : list string :=
  py_sort String.ltb (fromkeys [] (List.filter (fun k => bool_decide (k ∈ WIRE_MULTIMODAL_FIELDS)) (default [] (fields m)))).

Definition list_or_tuple (v : PyVal) : option (list PyVal) := match v with VList l | VTuple l => Some l | _ => None end.
(** The dimensions, where each is a non-negative integer. *)
Definition empty_shape (shape : PyVal) : bool :=
  match list_or_tuple shape with
  | Some dims =>
      forallb (fun d => match d with VInt z => 0 <=? z | _ => false end) dims
      && (foldr (fun d acc => match d with VInt z => z * acc | _ => acc end) 1 dims =? 0)
  | None => false
  end.
Definition row_is_empty (t : tag) (field : string) : bool :=
  match dict_get (row_shapes_key field) t with
  | Some (VDict g) =>
      match dict_get ROW_GEOMETRY_SHAPES g ≫= list_or_tuple with
      | Some shapes => forallb empty_shape shapes
      | None => false
      end
  | _ => false
  end.

Definition teacher_multimodal_fields (m : KVBatchMeta) : list string :=
  let fields := present_multimodal_fields m in
  match tags m with
  | None | Some [] => fields
  | Some ts =>
      if negb (length ts =? size m)%nat then fields
      else List.filter (fun field => negb (is_packed_field field) || negb (forallb (fun t => row_is_empty t field) ts)) fields
  end.

(** ** Rows of a tensor *)

Lemma join_chunk {A} (k : nat) (rows : list (list A)) i r :
  Forall (fun r => length r = k) rows -> rows !! i = Some r -> take k (drop (i * k) (mjoin rows)) = r.
Proof.
  intros Hk. revert i. induction Hk as [|r0 rows Hr0 _ IH]; intros [|i] Hi; [done|done| |].
  - injection Hi as ->. cbn [Nat.mul mjoin list_join]. rewrite drop_0. by rewrite <- Hr0, take_app_length.
  - cbn [mjoin list_join]. replace (S i * k)%nat with (length r0 + i * k)%nat by (cbn; lia).
    rewrite <- drop_drop, drop_app_length. by apply IH.
Qed.

Lemma chunks_join {A} (k n : nat) (l : list A) : length l = (n * k)%nat ->
  mjoin ((fun i => take k (drop (i * k) l)) <$> seq 0 n) = l.
Proof.
  revert l. induction n as [|n IH]; intros l Hl; [by destruct l|]. cbn [seq fmap list_fmap mjoin list_join Nat.mul].
  rewrite drop_0, <- fmap_S_seq, <- list_fmap_compose.
  rewrite <- (take_drop k l) at 2. f_equal. rewrite <- (IH (drop k l)) by (rewrite length_drop; lia).
  f_equal. apply list_fmap_ext. intros i x _. cbn [compose]. by rewrite drop_drop.
Qed.

Lemma numel_nonneg l : Forall (fun d => 0 <= d) l -> 0 <= numel_of l.
Proof. unfold numel_of. induction 1; cbn; lia || nia. Qed.

(** A tensor of [n] rows of [s] entries of [k] elements each. *)
Definition rectangular (n s k : nat) (rest : list Z) (t : Tensor) : Prop :=
  shape t = Z.of_nat n :: Z.of_nat s :: rest /\ numel_of rest = Z.of_nat k /\ length (data t) = (n * (s * k))%nat.

Lemma tensor_ok_rectangular t n s rest : tensor_ok t -> shape t = Z.of_nat n :: Z.of_nat s :: rest ->
  exists k, rectangular n s k rest t.
Proof.
  intros [Hd Hs] Hsh. rewrite Hsh in Hs. apply Forall_cons in Hs as [_ [_ Hs]%Forall_cons]. apply numel_nonneg in Hs.
  exists (Z.to_nat (numel_of rest)). split; [done|]. split; [lia|]. unfold numel in Hd. rewrite Hsh in Hd. cbn in Hd. unfold numel_of in *. nia.
Qed.

Lemma row_at_rectangular n s k rest t i : rectangular n s k rest t -> (i < n)%nat ->
  shape (row_at t i) = Z.of_nat s :: rest /\ data (row_at t i) = take (s * k) (drop (i * (s * k)) (data t)) /\ length (data (row_at t i)) = (s * k)%nat.
Proof.
  intros (Hsh & Hk & Hl) Hi. unfold row_at, stride. rewrite Hsh. cbn [tl shape data].
  assert (Z.to_nat (numel_of (Z.of_nat s :: rest)) = (s * k)%nat) as -> by (cbn; unfold numel_of in *; nia).
  split_and!; [done|done|]. rewrite length_take, length_drop. nia.
Qed.

(** The elements of a row's first [l] entries, and padding up to [w]. *)
Definition padded_row (k : nat) (pad : Z) (l w : nat) (row : list Z) : list Z := (take (l * k) row ++ replicate ((w - l) * k) pad)%list.

Lemma padded_row_length k pad l w row : (l <= w)%nat -> (l * k <= length row)%nat -> length (padded_row k pad l w row) = (w * k)%nat.
Proof. intros. unfold padded_row. rewrite length_app, length_take, length_replicate. nia. Qed.

Lemma upto_row n s k rest t i (l : nat) : rectangular n s k rest t -> (i < n)%nat -> (l <= s)%nat ->
  upto (Z.of_nat l) (row_at t i) = mkTensor (t_dtype t) (Z.of_nat l :: rest) (take (l * k) (data (row_at t i))).
Proof.
  intros Ht Hi Hl. destruct (row_at_rectangular _ _ _ _ _ _ Ht Hi) as (Hsh & Hd & Hlen). destruct Ht as (_ & Hk & _).
  unfold upto. assert (dim (row_at t i) 0 = Z.of_nat s) as -> by (unfold dim; by rewrite Hsh).
  assert (stride (row_at t i) = Z.of_nat k) as -> by (unfold stride; by rewrite Hsh).
  rewrite !Nat2Z.id, py_bound_nat, Hsh by done. done.
Qed.

Lemma max_length_spec (l : list nat) n : l <> [] -> Forall (fun x => (x <= n)%nat) l ->
  exists m, (m <= n)%nat /\ max_length (Z.of_nat <$> l) = Z.of_nat m /\ Forall (fun x => (x <= m)%nat) l.
Proof.
  destruct l as [|x l]; [done|]. intros _ [Hx Hl]%Forall_cons. cbn [fmap list_fmap max_length].
  revert x Hx. induction Hl as [|y l Hy _ IH]; intros x Hx; cbn [fmap list_fmap foldl].
  - exists x. split_and!; [done|done|by repeat constructor].
  - rewrite <- Nat2Z.inj_max. destruct (IH (Nat.max x y)) as (m & Hm & He & Hf); [lia|]. exists m. split_and!; [done|done|].
    apply Forall_cons in Hf as [? ?]. repeat constructor; [lia|lia|done].
Qed.

(** What packing does to a rectangular per-token field. *)
Definition packed_rows (n s k : nat) (rest : list Z) (t : Tensor) (lengths : list nat) : list Tensor :=
  imap (fun i l => mkTensor (t_dtype t) (Z.of_nat l :: rest) (take (l * k) (data (row_at t i)))) lengths.

Lemma nested_rows (d : dtype) (rest : list Z) rows :
  Forall (fun r => t_dtype r = d /\ exists l, shape r = l :: rest) rows -> as_nested_tensor rows = Ok (Nested rows).
Proof.
  destruct rows as [|first rows]; [done|]. intros [[Hd (l & Hs)] Hrows]%Forall_cons. unfold as_nested_tensor.
  assert (existsb (fun r => negb (bool_decide (t_dtype r = t_dtype first))) rows = false) as ->.
  { apply not_true_iff_false. rewrite existsb_exists. intros (r & Hr%list_elem_of_In & Hn). rewrite Forall_forall in Hrows.
    destruct (Hrows r Hr) as [Hrd _]. rewrite Hrd, Hd, bool_decide_true in Hn; done. }
  assert ((ndim first =? 0)%nat || existsb (fun r => negb (bool_decide (tl (shape r) = tl (shape first))) || (ndim r =? 0)%nat) rows = false) as ->.
  { apply orb_false_iff. split; [unfold ndim; by rewrite Hs|]. apply not_true_iff_false. rewrite existsb_exists.
    intros (r & Hr%list_elem_of_In & Hn). rewrite Forall_forall in Hrows. destruct (Hrows r Hr) as [_ (l' & Hrs)].
    unfold ndim in Hn. rewrite Hrs, Hs in Hn. cbn [tl length] in Hn. rewrite bool_decide_true in Hn; done. }
  done.
Qed.

Lemma pack_rectangular n s k rest t lengths : rectangular n s k rest t -> (0 < n)%nat -> length lengths = n ->
  Forall (fun l => (l <= s)%nat) lengths ->
  pack_per_token_field t (Z.of_nat <$> lengths) = Ok (Nested (packed_rows n s k rest t lengths)).
Proof.
  intros Ht Hn Hlen Hl. pose proof Ht as (Hsh & _ & _). unfold pack_per_token_field. rewrite length_fmap, Hlen.
  rewrite (proj2 (Nat.eqb_neq n 0)) by lia.
  assert (dim t 0 = Z.of_nat n) as Hd0 by (unfold dim; by rewrite Hsh). assert (dim t 1 = Z.of_nat s) as Hd1 by (unfold dim; by rewrite Hsh).
  assert ((ndim t <? 2)%nat = false) as Hnd by (unfold ndim; by rewrite Hsh).
  destruct (max_length_spec lengths s) as (m & Hm & Hmax & _); [by intros ->; cbn in *; lia|done|].
  rewrite Hnd, Hd0, Hd1, Hmax, Z.eqb_refl, (proj2 (Z.ltb_ge _ _)) by lia. cbn [negb orb].
  unfold to_nested_by_length. rewrite Hnd, Hd0, length_fmap, Hlen, Nat2Z.id, Nat.eqb_refl. cbn [negb raise_if mbind res_bind].
  assert (imap (fun i len => upto len (row_at t i)) (Z.of_nat <$> lengths) = packed_rows n s k rest t lengths) as ->.
  { apply list_eq. intros i. unfold packed_rows. rewrite !list_lookup_imap, list_lookup_fmap.
    destruct (lengths !! i) as [l|] eqn:E; [|done]. cbn. f_equal. apply upto_row with (s := s) (n := n); [done| |].
    - rewrite <- Hlen. by eapply lookup_lt_Some.
    - rewrite Forall_lookup in Hl. by eapply Hl. }
  apply (nested_rows (t_dtype t) rest). apply Forall_lookup. intros i r. unfold packed_rows. rewrite list_lookup_imap.
  destruct (lengths !! i) as [l|]; [|done]. intros [= <-]. split; [done|]. by eexists.
Qed.

Lemma to_padded_cons rows first rest pad w : rows = first :: rest ->
  to_padded rows pad w = mkTensor (t_dtype first) (Z.of_nat (length rows) :: w :: tl (shape first)) (mjoin (pad_row pad w <$> rows)).
Proof. by intros ->. Qed.

Lemma pad_packed n s k rest t lengths pad w : rectangular n s k rest t -> (0 < n)%nat -> length lengths = n ->
  Forall (fun l => (l <= s)%nat /\ (l <= w)%nat) lengths ->
  let u := to_padded (packed_rows n s k rest t lengths) pad (Z.of_nat w) in
  rectangular n w k rest u /\ t_dtype u = t_dtype t
  /\ forall i l, lengths !! i = Some l -> data (row_at u i) = padded_row k pad l w (data (row_at t i)).
Proof.
  intros Ht Hn Hlen Hl u. pose proof Ht as (Hsh & Hk & _).
  assert (exists first rows, packed_rows n s k rest t lengths = first :: rows /\ t_dtype first = t_dtype t /\ tl (shape first) = rest)
    as (first & rows & Hrows & Hdt & Htl).
  { destruct lengths as [|l lengths]; [cbn in *; lia|]. unfold packed_rows. cbn [imap]. by eexists _, _. }
  assert (pad_row pad (Z.of_nat w) <$> packed_rows n s k rest t lengths
          = imap (fun i l => padded_row k pad l w (data (row_at t i))) lengths) as Hpad.
  { apply list_eq. intros i. unfold packed_rows. rewrite list_lookup_fmap, !list_lookup_imap. destruct (lengths !! i) as [l|] eqn:E; [|done].
    cbn. f_equal. unfold pad_row, padded_row, stride, dim. cbn [shape data tl lookup list_lookup]. f_equal.
    rewrite Forall_lookup in Hl. destruct (Hl _ _ E). unfold numel_of in Hk. rewrite Hk. f_equal. nia. }
  assert (Forall (fun r => length r = (w * k)%nat) (imap (fun i l => padded_row k pad l w (data (row_at t i))) lengths)) as Hall.
  { apply Forall_lookup. intros i r. rewrite list_lookup_imap. destruct (lengths !! i) as [l|] eqn:E; [|done]. intros [= <-].
    rewrite Forall_lookup in Hl. destruct (Hl _ _ E). apply padded_row_length; [done|].
    destruct (row_at_rectangular _ _ _ _ _ i Ht) as (_ & _ & Hd); [rewrite <- Hlen; by eapply lookup_lt_Some|]. change (l * k <= length (data (row_at t i)))%nat. rewrite Hd. nia. }
  assert (length (packed_rows n s k rest t lengths) = n) as Hln by (unfold packed_rows; by rewrite length_imap).
  assert (rectangular n w k rest u) as Hu.
  { unfold u. rewrite (to_padded_cons _ _ _ _ _ Hrows), Hln, Htl, Hpad. split; [done|]. split; [done|].
    cbn [data]. rewrite (length_join_same (w * k)) by done. rewrite length_imap. lia. }
  split; [done|]. split; [unfold u; by rewrite (to_padded_cons _ _ _ _ _ Hrows)|]. intros i l Hi.
  destruct (row_at_rectangular _ _ _ _ _ i Hu) as (_ & -> & _); [rewrite <- Hlen; by eapply lookup_lt_Some|].
  unfold u, to_padded. rewrite Hpad. cbn [data]. apply join_chunk; [done|]. by rewrite list_lookup_imap, Hi.
Qed.

Lemma rectangular_data n s k rest t : rectangular n s k rest t -> data t = mjoin ((fun i => data (row_at t i)) <$> seq 0 n).
Proof.
  intros Ht. pose proof Ht as (_ & _ & Hl). rewrite <- (chunks_join (s * k) n (data t)) at 1 by done. f_equal.
  apply list_fmap_ext. intros j i Hi. apply lookup_seq in Hi as [-> Hi].
  destruct (row_at_rectangular _ _ _ _ _ j Ht Hi) as (_ & Hd & _). exact (eq_sym Hd).
Qed.

Lemma rectangular_eq n s k rest t u : rectangular n s k rest t -> rectangular n s k rest u -> t_dtype u = t_dtype t ->
  (forall i, (i < n)%nat -> data (row_at u i) = data (row_at t i)) -> u = t.
Proof.
  intros Ht Hu Hd Hrows. assert (data u = data t) as Hdata.
  { rewrite (rectangular_data _ _ _ _ _ Hu), (rectangular_data _ _ _ _ _ Ht). f_equal. apply list_fmap_ext. intros j i Hi.
    apply lookup_seq in Hi as [-> Hi]. by apply Hrows. }
  destruct Ht as (Hst & _), Hu as (Hsu & _). destruct t, u. cbn in *. congruence.
Qed.

Lemma packed_rows_dims n s k rest t lengths : (fun r => dim r 0) <$> packed_rows n s k rest t lengths = Z.of_nat <$> lengths.
Proof. unfold packed_rows. apply list_eq. intros i. rewrite !list_lookup_fmap, list_lookup_imap. by destruct (lengths !! i). Qed.

(** The width a field is given: that of its longest row, or of the forward pass
    where that is more and the field takes part in it. *)
Definition width_of (key : string) (lengths : list nat) (pad_to_seqlen : nat) : Z :=
  let longest := max_length (Z.of_nat <$> lengths) in
  if bool_decide (key ∈ OPD_FULL_FIELDS) then longest else Z.max longest (Z.of_nat pad_to_seqlen).

(** C21 A per-token field survives the wire.  Packed, its row [i] is the first
    [lengths[i]] entries; padded again, each row is those entries and then the
    pad value, in the width of the forward pass; so a field that was padded to
    that width with that value comes back as it was. *)
Theorem tokens_survive_the_wire key t (n s : nat) rest lengths pad pad_to_seqlen :
  key ∈ TOKEN_ALIGNED_FIELDS -> is_packed_field key = false ->
  tensor_ok t -> shape t = Z.of_nat n :: Z.of_nat s :: rest -> (0 < n)%nat -> length lengths = n -> Forall (fun l => (l <= s)%nat) lengths ->
  exists wire u k w, pack_field (Some (Z.of_nat <$> lengths)) TOKEN_ALIGNED_FIELDS key (Dense t) = Ok (Nested wire)
    /\ (forall i l, lengths !! i = Some l -> exists r, wire !! i = Some r /\ shape r = Z.of_nat l :: rest
                                                 /\ data r = take (l * k) (data (row_at t i)))
    /\ pad_field key (Nested wire) pad (Z.of_nat pad_to_seqlen) = Dense u
    /\ Z.of_nat w = width_of key lengths pad_to_seqlen
    /\ shape u = Z.of_nat n :: Z.of_nat w :: rest /\ t_dtype u = t_dtype t
    /\ (forall i l, lengths !! i = Some l -> data (row_at u i) = padded_row k pad l w (data (row_at t i)))
    /\ (s = w -> (forall i l, lengths !! i = Some l -> data (row_at t i) = padded_row k pad l s (data (row_at t i))) -> u = t).
Proof.
  intros Hkey Hnot Hok Hsh Hn Hlen Hl. destruct (tensor_ok_rectangular t n s rest Hok Hsh) as [k Ht].
  destruct (max_length_spec lengths s) as (m & Hm & Hmax & Hall); [by intros ->; cbn in *; lia|done|].
  set (w := if bool_decide (key ∈ OPD_FULL_FIELDS) then m else Nat.max m pad_to_seqlen).
  assert (Forall (fun l => (l <= s)%nat /\ (l <= w)%nat) lengths) as Hlw.
  { apply Forall_and. split; [done|]. eapply Forall_impl; [exact Hall|]. intros l Hlm. cbn in *. unfold w. destruct (bool_decide _); lia. }
  destruct (pad_packed n s k rest t lengths pad w Ht Hn Hlen Hlw) as (Hu & Hd & Hrows).
  set (u := to_padded (packed_rows n s k rest t lengths) pad (Z.of_nat w)) in *.
  exists (packed_rows n s k rest t lengths), u, k, w. split_and!; [| | | |by destruct Hu|done|done|].
  - unfold pack_field. rewrite bool_decide_true by done. by apply pack_rectangular.
  - intros i l Hi. unfold packed_rows. rewrite list_lookup_imap, Hi. by eexists.
  - unfold pad_field. rewrite Hnot, packed_rows_dims, Hmax. f_equal. unfold u. f_equal. unfold w.
    destruct (bool_decide _); cbn [negb]; lia.
  - unfold width_of, w. rewrite Hmax. destruct (bool_decide _); lia.
  - intros <- Hpad. apply (rectangular_eq n s k rest); [done|done|done|]. intros i Hi.
    destruct (lookup_lt_is_Some_2 lengths i) as [l Hli]; [lia|]. by rewrite (Hrows i l Hli), <- Hpad.
Qed.

(** ** Packed media there and back *)

(** Tensors of one dtype whose elements fill their shapes. *)
Definition uniform (d : dtype) (segs : list Tensor) : Prop := Forall (fun t => tensor_ok t /\ t_dtype t = d) segs.
(** The wire row of such segments. *)
Definition row_of (d : dtype) (segs : list Tensor) : Tensor := mkTensor d [zsum (numel <$> segs)] (mjoin (data <$> segs)).

Lemma split_row_join d segs : uniform d segs -> split_row d (mjoin (data <$> segs)) (shape <$> segs) = segs.
Proof.
  induction 1 as [|t segs [[Hlen _] Hd] _ IH]; [done|]. cbn [fmap list_fmap mjoin list_join split_row].
  assert (Z.to_nat (numel_of (shape t)) = length (data t)) as -> by (unfold numel, numel_of in *; lia).
  rewrite take_app_length, drop_app_length. f_equal; [by destruct t; cbn in *; subst|exact IH].
Qed.

Lemma split_checked_row d segs : uniform d segs -> split_checked (row_of d segs) (shape <$> segs) = Ok segs.
Proof.
  intros Hu. unfold split_checked, row_of, dim. cbn [shape t_dtype data lookup list_lookup default from_option].
  assert (numel_of <$> (shape <$> segs) = numel <$> segs) as -> by by rewrite <- list_fmap_compose.
  rewrite Z.eqb_refl. cbn. by rewrite split_row_join.
Qed.

Section media.
Context (promoted : list Tensor -> Tensor).

Lemma wire_row_uniform d segs : uniform d segs ->
  default (mkTensor d [0] []) (wire_row promoted segs) = row_of d segs
  /\ forall t, wire_row promoted segs = Some t -> t_dtype t = d.
Proof.
  destruct segs as [|first rest]; [done|]. intros [[_ Hd] Hrest]%Forall_cons. unfold wire_row.
  assert (forallb (fun t => bool_decide (t_dtype t = t_dtype first)) rest = true) as ->.
  { apply forallb_forall. intros t Ht%list_elem_of_In. rewrite Forall_forall in Hrest. apply bool_decide_eq_true. rewrite Hd. by apply Hrest. }
  cbn. unfold row_of. rewrite Hd. split; [done|]. by intros t [= <-].
Qed.

Lemma to_wire_uniform d p : dim_to_pack p = 0 -> Forall (uniform d) (_row_segments p) -> Exists (fun segs => segs <> []) (_row_segments p) ->
  to_wire promoted p = Ok (Some (Nested (row_of d <$> _row_segments p)), row_shapes p).
Proof.
  intros Hdim Hu Hex. unfold to_wire. rewrite Hdim. cbn [negb Z.eqb raise_if mbind res_bind].
  destruct (head (omap id (wire_row promoted <$> _row_segments p))) as [ref|] eqn:Href.
  - assert (t_dtype ref = d) as ->.
    { destruct (omap id _) as [|x l] eqn:E; [done|]. injection Href as ->. assert (ref ∈ omap id (wire_row promoted <$> _row_segments p)) as Hin
        by (rewrite E; left).
      apply list_elem_of_omap in Hin as (o & (segs & -> & Hs)%list_elem_of_fmap & Ho). rewrite Forall_forall in Hu.
      by apply (wire_row_uniform d segs (Hu _ Hs)). }
    assert (default (mkTensor d [0] []) <$> (wire_row promoted <$> _row_segments p) = row_of d <$> _row_segments p) as ->.
    { rewrite <- list_fmap_compose. apply Forall_fmap_ext_1. eapply Forall_impl; [exact Hu|]. intros segs Hs. by apply wire_row_uniform. }
    rewrite (nested_rows d []); [done|]. apply Forall_fmap, Forall_forall. intros segs _. split; [done|]. by eexists.
  - exfalso. apply Exists_exists in Hex as (segs & Hs & Hne). destruct segs as [|t rest]; [done|].
    assert (exists x, wire_row promoted (t :: rest) = Some x) as [x Hx] by by eexists.
    assert (x ∈ omap id (wire_row promoted <$> _row_segments p)) as Hin.
    { apply list_elem_of_omap. exists (Some x). split; [|done]. apply list_elem_of_fmap. by eexists. }
    by destruct (omap id _); [apply elem_of_nil in Hin|].
Qed.
End media.

(** The index rows of segments stored one after another. *)
Fixpoint spans (start : nat) (rows : list (list Tensor)) : list (list nat) :=
  match rows with [] => [] | r :: rows => seq start (length r) :: spans (start + length r) rows end.

Lemma spans_join start rows : mjoin (spans start rows) = seq start (length (mjoin rows)).
Proof.
  revert start. induction rows as [|r rows IH]; intros start; [done|]. cbn [spans mjoin list_join]. rewrite length_app, seq_app. f_equal. apply IH.
Qed.

Lemma offsets_of_cons r rs : offsets_of (r :: rs) = 0%nat :: ((fun x => length r + x)%nat <$> offsets_of rs).
Proof.
  unfold offsets_of. cbn [length]. rewrite <- (cons_seq (S (length rs)) 0), fmap_cons. f_equal.
  rewrite <- fmap_S_seq, <- !list_fmap_compose. apply list_fmap_ext. intros i x _. cbn [compose take mjoin list_join]. by rewrite length_app.
Qed.

Lemma row_ends_offsets start rows : row_ends start rows = (fun x => start + x)%nat <$> offsets_of (spans start rows).
Proof.
  revert start. induction rows as [|r rows IH]; intros start; [by cbn; rewrite Nat.add_0_r|]. cbn [row_ends spans].
  rewrite offsets_of_cons, fmap_cons, Nat.add_0_r, length_seq, IH. f_equal. rewrite <- list_fmap_compose. apply list_fmap_ext. intros i x _. cbn. lia.
Qed.

Lemma omap_seq {A} (l : list A) a n : (a + n <= length l)%nat ->
  omap (fun i => mjoin ((Some <$> l) !! i)) (seq a n) = take n (drop a l).
Proof.
  revert a. induction n as [|n IH]; intros a Ha; [done|]. destruct (lookup_lt_is_Some_2 l a) as [x Hx]; [lia|].
  cbn [seq omap list_omap]. rewrite list_lookup_fmap, Hx. cbn [fmap option_fmap option_map mjoin option_join].
  rewrite (drop_S l x a Hx). cbn [take]. f_equal. apply IH. lia.
Qed.

Lemma spans_segments (before : list Tensor) rows :
  (fun r => omap (fun i => mjoin ((Some <$> (before ++ mjoin rows)%list) !! i)) r) <$> spans (length before) rows = rows.
Proof.
  revert before. induction rows as [|r rows IH]; intros before; [done|]. cbn [spans mjoin list_join]. rewrite fmap_cons. f_equal.
  - rewrite omap_seq by (rewrite !length_app; lia). by rewrite drop_app_length, take_app_length.
  - rewrite <- (IH (before ++ r)%list) at 2. rewrite length_app. apply list_fmap_ext. intros i x _. by rewrite <- app_assoc.
Qed.

(** What [from_wire] builds: rows of segments of its own. *)
Definition unshared (rows : list (list Tensor)) (spec : preprocess) : PackedTensor :=
  mkPacked (Some <$> mjoin rows) 0 spec (Some (offsets_of (spans 0 rows))) (Some (mjoin (spans 0 rows))) None.

Lemma unshared_segments rows spec : _row_segments (unshared rows spec) = rows.
Proof.
  rewrite (has_rows_segments (unshared rows spec) (spans 0 rows)) by done. exact (spans_segments [] rows).
Qed.

Lemma spans_range start rows r i : r ∈ spans start rows -> i ∈ r -> (i < start + length (mjoin rows))%nat.
Proof.
  intros Hr Hi. assert (i ∈ mjoin (spans start rows)) as Hin by (apply list_elem_of_join; by eexists).
  rewrite spans_join in Hin. apply elem_of_seq in Hin. lia.
Qed.

Lemma from_wire_nonempty rows shapes spec : rows <> [] ->
  from_wire (Nested rows) shapes spec
  = (_ ← raise_if (negb (length shapes =? length rows)%nat) ValueError;
     segments ← traverse (fun rs => split_checked rs.1 rs.2) (zip rows shapes);
     p ← new_packed (mkPacked (Some <$> mjoin segments) 0 spec (Some (row_ends 0 segments)) (Some (seq 0 (length (mjoin segments)))) None);
     Ok (Some p)).
Proof. by destruct rows. Qed.

Lemma from_wire_rows d sel spec : sel <> [] -> Forall (uniform d) sel -> negb (known_mode spec) || missing_patch_dim spec = false ->
  from_wire (Nested (row_of d <$> sel)) (_shapes_of sel) spec = Ok (Some (unshared sel spec)).
Proof.
  intros Hne Hu Hspec. rewrite from_wire_nonempty by (by destruct sel). unfold _shapes_of.
  rewrite !length_fmap, Nat.eqb_refl. cbn [negb raise_if mbind res_bind].
  assert (traverse (fun rs => split_checked rs.1 rs.2) (zip (row_of d <$> sel) ((fun segs : list Tensor => shape <$> segs) <$> sel)) = Ok sel) as ->.
  { apply traverse_Ok. rewrite zip_with_fmap_l, zip_with_fmap_r, zip_with_diag. apply Forall2_fmap_l, Forall_Forall2_diag.
    eapply Forall_impl; [exact Hu|]. intros segs Hs. by apply split_checked_row. }
  cbn [mbind res_bind]. rewrite row_ends_offsets.
  assert ((fun x => 0 + x)%nat <$> offsets_of (spans 0 sel) = offsets_of (spans 0 sel)) as -> by apply list_fmap_id.
  rewrite <- spans_join, new_packed_csr; [done|done| |done]. intros r i Hr Hi. rewrite length_fmap. by apply (spans_range 0 sel r).
Qed.

(** ** Shapes in the tags, read back *)

Lemma read_shapes_value row : read_shapes (shapes_value row) = Ok row.
Proof.
  unfold read_shapes, shapes_value. cbn [list_value mbind res_bind]. apply traverse_Ok, Forall2_fmap_l, Forall_Forall2_diag, Forall_forall.
  intros s _. cbn. apply traverse_Ok, Forall2_fmap_l, Forall_Forall2_diag, Forall_forall. by intros z _.
Qed.

Lemma read_kwargs_value kw : read_kwargs (kwargs_value kw) = Ok kw.
Proof.
  unfold read_kwargs, kwargs_value, str_dict.
  assert (traverse (fun kv : PyVal * PyVal => match kv with (VStr k, VInt z) => Ok (k, z) | _ => Raise TypeError end)
            (List.map (fun '(k, v) => (VStr k, v)) ((fun kv : string * Z => (kv.1, VInt kv.2)) <$> map_to_list kw)) = Ok (map_to_list kw)) as ->.
  { apply traverse_Ok. rewrite <- list_fmap_compose. apply Forall2_fmap_l, Forall_Forall2_diag, Forall_forall. by intros [k z] _. }
  cbn [mbind res_bind]. by rewrite list_to_map_to_list.
Qed.

Lemma read_mode_value (mode : option string) : read_mode (match mode with Some m => VStr m | None => VNone end) = Ok mode.
Proof. by destruct mode. Qed.

(** Rows gathered in any order, with their tags, are rebuilt as they were. *)
Lemma reassemble_rows d key p sel ts :
  is_packed_field key = true -> sel <> [] -> Forall (uniform d) sel ->
  negb (known_mode (_preprocess_spec p)) || missing_patch_dim (_preprocess_spec p) = false ->
  Forall2 (fun segs t => dict_get (row_shapes_key key) t = Some (geometry p (shape <$> segs))) sel ts ->
  reassemble_field key (Nested (row_of d <$> sel)) (Some ts) = Ok (Packed (unshared sel (_preprocess_spec p))).
Proof.
  intros Hkey Hne Hu Hspec Hts. unfold reassemble_field. rewrite Hkey. cbn [negb]. change (default [] (Some ts)) with ts.
  assert (tag_get (row_shapes_key key) <$> ts = (fun segs : list Tensor => Some (geometry p (shape <$> segs))) <$> sel) as Hg.
  { clear Hne Hu. induction Hts as [|segs t sel ts Ht _ IH]; [done|]. rewrite !fmap_cons, IH. f_equal. unfold tag_get. by rewrite Ht. }
  rewrite Hg. destruct sel as [|s0 sel]; [done|].
  assert (List.filter truthy (omap id ((fun segs : list Tensor => Some (geometry p (shape <$> segs))) <$> s0 :: sel))
          = (fun segs : list Tensor => geometry p (shape <$> segs)) <$> s0 :: sel) as ->.
  { clear. induction (s0 :: sel) as [|s l IH]; [done|]. rewrite !fmap_cons. cbn [omap list_omap id List.filter]. f_equal. exact IH. }
  rewrite fmap_cons. cbn match.
  assert (traverse (fun r => match r with None => Ok [] | Some v => s ← subscript_str ROW_GEOMETRY_SHAPES v; read_shapes s end)
            ((fun segs : list Tensor => Some (geometry p (shape <$> segs))) <$> s0 :: sel) = Ok (_shapes_of (s0 :: sel))) as ->.
  { apply traverse_Ok, Forall2_fmap_l, Forall2_fmap_r, Forall_Forall2_diag, Forall_forall. intros segs _. apply read_shapes_value. }
  cbn [mbind res_bind]. change (subscript_str ROW_GEOMETRY_PREPROCESS_MODE (geometry p (shape <$> s0))) with
    (Ok (match preprocess_mode (_preprocess_spec p) with Some m => VStr m | None => VNone end)).
  cbn [mbind res_bind]. rewrite read_mode_value. cbn [mbind res_bind].
  change (subscript_str ROW_GEOMETRY_PREPROCESS_KWARGS (geometry p (shape <$> s0))) with (Ok (kwargs_value (preprocess_kwargs (_preprocess_spec p)))).
  cbn [mbind res_bind]. rewrite read_kwargs_value. cbn [mbind res_bind].
  assert (mkPreprocess (preprocess_mode (_preprocess_spec p)) (preprocess_kwargs (_preprocess_spec p)) = _preprocess_spec p) as ->
    by by destruct (_preprocess_spec p).
  by rewrite from_wire_rows.
Qed.

(** ** Dicts with string keys *)

(** A dict whose keys are distinct strings. *)
Definition str_keys (d : tag) (ks : list string) : Prop := d.*1 = VStr <$> ks /\ NoDup ks.

Lemma dict_set_keys k v d ks : str_keys d ks -> exists ks', str_keys (dict_set k v d) ks'.
Proof.
  revert ks. assert (forall ks, d.*1 = VStr <$> ks -> (dict_set k v d).*1 = VStr <$> (if decide (k ∈ ks) then ks else ks ++ [k])%list) as Hk.
  { induction d as [|[k0 w] d IH]; intros [|s ks]; try done. cbn [fmap list_fmap fst]. intros [= -> Hks]. cbn [dict_set is_str].
    destruct (String.eqb_spec s k) as [->|Hne].
    - rewrite decide_True by left. cbn. by rewrite Hks.
    - cbn [fmap list_fmap fst]. rewrite (IH ks Hks). destruct (decide (k ∈ ks)) as [Hin|Hni].
      + by rewrite decide_True by (by right).
      + rewrite decide_False; [done|]. by intros [->|]%elem_of_cons. }
  intros ks [Hd Hn]. eexists. split; [by apply Hk|]. destruct (decide (k ∈ ks)); [done|]. apply NoDup_app. split_and!; [done| |by apply NoDup_singleton].
  by intros x Hx ->%list_elem_of_singleton.
Qed.

Lemma dict_update_get a b ks k : str_keys b ks ->
  dict_get k (dict_update a b) = match dict_get k b with Some v => Some v | None => dict_get k a end.
Proof.
  unfold dict_update. revert a ks. induction b as [|[k0 v] b IH]; intros a [|s ks] [Hd Hn]; try done.
  cbn [fmap list_fmap fst] in Hd. injection Hd as -> Hd. apply NoDup_cons in Hn as [Hs Hn]. cbn [foldl fst snd].
  rewrite (IH _ ks) by done. rewrite dict_get_cons, dict_get_set. destruct (decide (s = k)) as [->|]; [|done].
  assert (dict_get k b = None) as ->; [|done]. unfold dict_get. destruct (List.find _ b) as [[k' w]|] eqn:E; [|done].
  apply List.find_some in E as [Hin Hk]. exfalso. apply Hs. assert (k' ∈ VStr <$> ks) as (s & -> & Hin')%list_elem_of_fmap.
  { rewrite <- Hd. apply list_elem_of_fmap. exists (k', w). split; [done|]. by apply list_elem_of_In. }
  cbn in Hk. by apply String.eqb_eq in Hk as ->.
Qed.

(** ** From a batch to the wire *)

(** What the loop over the media leaves of a tag: it keeps distinct string
    keys, and what it says of a field that is not among the media. *)
Definition carried (mm : batch) (t t' : tag) : Prop :=
  ((exists ks, str_keys t ks) -> exists ks, str_keys t' ks)
  /\ forall key, key ∉ mm.*1 -> dict_get (row_shapes_key key) t' = dict_get (row_shapes_key key) t.

Lemma length_append_str (a b : string) : String.length (a +:+ b) = (String.length a + String.length b)%nat.
Proof. induction a as [|c a IH]; [done|]. exact (f_equal S IH). Qed.

Lemma row_shapes_key_inj k k' : row_shapes_key k = row_shapes_key k' -> k = k'.
Proof.
  unfold row_shapes_key. revert k'. induction k as [|c k IH]; intros [|c' k'] H; [done| | |].
  - apply (f_equal String.length) in H. rewrite !length_append_str in H. cbn in H. lia.
  - apply (f_equal String.length) in H. rewrite !length_append_str in H. cbn in H. lia.
  - cbn in H. injection H as -> H. by rewrite (IH _ H).
Qed.

Lemma carried_set mm key g t : key ∈ mm.*1 -> carried mm t (dict_set (row_shapes_key key) g t).
Proof.
  intros Hkey. split; [intros [ks Hks]; by eapply dict_set_keys|]. intros k Hk. rewrite dict_get_set, decide_False; [done|].
  by intros ->%row_shapes_key_inj.
Qed.

Lemma carried_cons kv mm t t' : carried mm t t' -> carried (kv :: mm) t t'.
Proof. intros [Hs Hc]. split; [done|]. intros key Hk. apply Hc. intros Hin. apply Hk. by right. Qed.

Lemma carried_trans mm t t' t'' : carried mm t t' -> carried mm t' t'' -> carried mm t t''.
Proof. intros [Hs Hc] [Hs' Hc']. split; [auto|]. intros key Hk. by rewrite Hc', Hc. Qed.

Lemma Forall2_zip_set key p n (ts : list tag) (rs : list (list (list Z))) : length ts = n -> length rs = n ->
  Forall2 (fun t t' => exists r, t' = dict_set (row_shapes_key key) (geometry p r) t) ts
    (zip_with (fun t r => dict_set (row_shapes_key key) (geometry p r) t) ts rs).
Proof.
  revert ts rs. induction n as [|n IH]; intros [|t ts] [|r rs] Ht Hr; try done; constructor; [by eexists|].
  apply IH; cbn in *; lia.
Qed.

Lemma zip_set_length {A B C} (f : A -> B -> C) (ts : list A) (rs : list B) n : length ts = n -> length rs = n -> length (zip_with f ts rs) = n.
Proof. intros Ht Hr. rewrite length_zip_with, Ht, Hr. apply Nat.min_id. Qed.

Lemma row_tags_loop_carried mm n ts ts' : row_tags_loop mm n ts = Ok ts' -> length ts = n -> Forall2 (carried mm) ts ts'.
Proof.
  revert ts. induction mm as [|[key c] mm IH]; intros ts; cbn [row_tags_loop].
  - intros [= ->] _. by apply Forall_Forall2_diag, Forall_true.
  - assert (forall us, row_tags_loop mm n us = Ok ts' -> length us = n -> Forall2 (carried ((key, c) :: mm)) us ts') as Hrest.
    { intros us Hl Hlen. eapply Forall2_impl; [by apply IH|]. apply carried_cons. }
    destruct c as [t|rows|l|p|]; try exact (Hrest ts). destruct (_ || _); [exact (Hrest ts)|].
    intros (? & Hn%raise_if_Ok%negb_false_iff%Nat.eqb_eq & Hl)%bind_Ok Hlen.
    eapply Forall2_trans; [|exact (Forall2_zip_set key p n _ _ Hlen Hn)|apply (Hrest _ Hl); exact (zip_set_length _ _ _ _ Hlen Hn)].
    intros t u v [r ->]. apply carried_trans, carried_set. by left.
Qed.

(** The tags of a row hold the geometry of that row of every packed field. *)
Lemma row_tags_loop_geometry mm n ts ts' key p :
  row_tags_loop mm n ts = Ok ts' -> length ts = n -> NoDup mm.*1 -> (key, Packed p) ∈ mm -> is_packed_field key = true ->
  Exists (fun r => r <> []) (row_shapes p) ->
  length (row_shapes p) = n /\ Forall2 (fun r t => dict_get (row_shapes_key key) t = Some (geometry p r)) (row_shapes p) ts'.
Proof.
  unfold tag in *. intros Hl Hlen Hn Hin Hkey Hex. revert ts Hl Hlen. induction mm as [|[k c] mm IH]; intros ts; [by apply elem_of_nil in Hin|].
  cbn [fmap list_fmap fst] in Hn. apply NoDup_cons in Hn as [Hk Hn]. cbn [row_tags_loop]. apply elem_of_cons in Hin as [[= <- <-]|Hin].
  - assert (forallb (fun r => bool_decide (r = [])) (row_shapes p) = false) as ->.
    { apply not_true_iff_false. rewrite forallb_forall. intros Hall. apply Exists_exists in Hex as (r & Hr%list_elem_of_In & Hne).
      apply Hne. exact (bool_decide_eq_true_1 _ (Hall r Hr)). }
    rewrite Hkey. cbn [negb orb]. intros (? & Hp%raise_if_Ok%negb_false_iff%Nat.eqb_eq & Hl)%bind_Ok Hlen. split; [done|].
    apply row_tags_loop_carried in Hl; [|exact (zip_set_length _ _ _ _ Hlen Hp)].
    apply Forall2_same_length_lookup. apply Forall2_same_length_lookup in Hl as [Hll Hl]. rewrite (zip_set_length _ _ _ n Hlen Hp) in Hll. split; [by rewrite Hp|].
    intros i r t Hr Ht. destruct (lookup_lt_is_Some_2 ts i) as [t0 Ht0]; [rewrite Hlen, <- Hp; by eapply lookup_lt_Some|].
    destruct (Hl i (dict_set (row_shapes_key key) (geometry p r) t0) t) as [_ Hc]; [|done|].
    { apply lookup_zip_with_Some. by exists t0, r. }
    rewrite Hc by done. rewrite dict_get_set. by rewrite decide_True.
  - destruct c as [t|rows|l|q|]; try by apply IH. destruct (_ || _); [by apply IH|].
    intros (? & Hq%raise_if_Ok%negb_false_iff%Nat.eqb_eq & Hl)%bind_Ok Hlen. apply (IH Hn Hin _ Hl). exact (zip_set_length _ _ _ _ Hlen Hq).
Qed.

Lemma multimodal_tags_geometry mm n o key p :
  multimodal_row_tags mm n = Ok o -> NoDup mm.*1 -> (key, Packed p) ∈ mm -> is_packed_field key = true ->
  Exists (fun r => r <> []) (row_shapes p) ->
  exists ts, o = Some ts /\ length (row_shapes p) = n /\ length ts = n /\ Forall (fun t => exists ks, str_keys t ks) ts
    /\ Forall2 (fun r t => dict_get (row_shapes_key key) t = Some (geometry p r)) (row_shapes p) ts.
Proof.
  unfold multimodal_row_tags. intros (ts & Hl & [= <-])%bind_Ok Hn Hin Hkey Hex.
  pose proof (row_tags_loop_carried _ _ _ _ Hl (length_replicate n [])) as Hc.
  destruct (row_tags_loop_geometry _ _ _ _ key p Hl (length_replicate n []) Hn Hin Hkey Hex) as [Hlen Hg]. exists ts.
  assert (existsb (fun t : tag => negb (bool_decide (t = []))) ts = true) as ->.
  { apply Exists_exists in Hex as (r & Hr & _). apply list_elem_of_lookup in Hr as [i Hr]. destruct (Forall2_lookup_l _ _ _ _ _ Hg Hr) as (t & Ht & Hd).
    apply existsb_exists. exists t. split; [apply list_elem_of_In; by eapply list_elem_of_lookup_2|].
    apply negb_true_iff, bool_decide_eq_false. by intros ->. }
  split_and!; [done|done|rewrite <- Hlen; symmetry; exact (Forall2_length _ _ _ Hg)| |done].
  apply Forall_lookup. intros i t Ht. destruct (Forall2_lookup_r _ _ _ _ _ Hc Ht) as (t0 & [-> _]%lookup_replicate & [Hs _]).
  apply Hs. exists []. split; [done|constructor].
Qed.

Lemma multimodal_entries b mm : get_multimodal_dict b = Ok mm -> sublist mm b.
Proof.
  revert mm. induction b as [|[k v] b IH]; intros mm; cbn [get_multimodal_dict]; [by intros [= <-]|].
  intros ([] & _ & (r & Hr & [= <-])%bind_Ok)%bind_Ok; constructor; by apply IH.
Qed.

Lemma multimodal_packed b mm key p : get_multimodal_dict b = Ok mm -> (key, Packed p) ∈ b -> (key, Packed p) ∈ mm.
Proof.
  revert mm. induction b as [|[k v] b IH]; intros mm; cbn [get_multimodal_dict]; [by intros _ ?%elem_of_nil|].
  intros (keep & Hkeep & (r & Hr & [= <-])%bind_Ok)%bind_Ok [[= <- <-]|Hin]%elem_of_cons.
  - injection Hkeep as <-. left.
  - destruct keep; [right|]; by apply IH.
Qed.

Section payload.
Context (promoted : list Tensor -> Tensor).

Lemma add_wire_fields_other mm b b' key : add_wire_fields promoted mm b = Ok b' -> key ∉ mm.*1 -> kv_get key b' = kv_get key b.
Proof.
  revert b. induction mm as [|[k v] mm IH]; intros b; cbn [add_wire_fields]; [by intros [= <-]|].
  intros (w & _ & Hadd)%bind_Ok [Hk Hmm]%not_elem_of_cons. cbn [fst] in Hk. rewrite (IH _ Hadd Hmm). destruct w as [c|]; [|done].
  rewrite kv_get_set, decide_False; [done|]. by intros ->.
Qed.

Lemma add_wire_fields_packed mm b b' key p c ss : add_wire_fields promoted mm b = Ok b' -> NoDup mm.*1 -> (key, Packed p) ∈ mm ->
  is_packed_field key = true -> to_wire promoted p = Ok (Some c, ss) -> kv_get key b' = Some c.
Proof.
  revert b. induction mm as [|[k v] mm IH]; intros b Hadd Hn Hin Hkey Hw; [by apply elem_of_nil in Hin|].
  cbn [fmap list_fmap fst] in Hn. apply NoDup_cons in Hn as [Hk Hn]. cbn [add_wire_fields] in Hadd. apply bind_Ok in Hadd as (w & He & Hadd).
  apply elem_of_cons in Hin as [[= <- <-]|Hin]; [|by eapply IH].
  rewrite (add_wire_fields_other _ _ _ _ Hadd Hk). unfold encode_multimodal_for_wire in He. rewrite Hkey, Hw in He. injection He as <-.
  rewrite kv_get_set. by rewrite decide_True.
Qed.

Lemma traverse_kv_get (f : string -> column -> res column) b b' key v v' :
  traverse (fun kv : string * column => c ← f kv.1 kv.2; Ok (kv.1, c)) b = Ok b' -> kv_get key b = Some v -> f key v = Ok v' ->
  kv_get key b' = Some v'.
Proof.
  intros Ht%traverse_Ok Hg Hf. revert Hg. induction Ht as [|[k c] [k' c'] b b' Hc _ IH]; cbn [kv_get]; [done|].
  cbn [fst snd] in Hc. apply bind_Ok in Hc as (w & Hw & [= <- <-]). destruct (decide (k = key)) as [->|]; [|done].
  intros [= ->]. congruence.
Qed.

Lemma packed_not_aligned key : is_packed_field key = true -> key ∉ TOKEN_ALIGNED_FIELDS.
Proof.
  unfold is_packed_field. rewrite bool_decide_eq_true. intros Hk Ha.
  assert (forall k, k ∈ PACKED_MULTIMODAL_FIELDS -> k ∈ TOKEN_ALIGNED_FIELDS -> False) as Hd; [|by eapply Hd].
  assert (Forall (fun k => bool_decide (k ∈ TOKEN_ALIGNED_FIELDS) = false) PACKED_MULTIMODAL_FIELDS) as Hall by (repeat constructor).
  intros k Hp Hin. rewrite Forall_forall in Hall. specialize (Hall _ Hp). by apply bool_decide_eq_false in Hall.
Qed.

(** Where the media of a field have a segment, the payload holds their rows flat
    and each row's tag holds its geometry. *)
Lemma pack_payload_media b violations w g pi ids fields ts key p d :
  pack_payload promoted b violations w g pi = Ok (ids, fields, ts) -> NoDup b.*1 -> kv_get key b = Some (Packed p) ->
  is_packed_field key = true -> dim_to_pack p = 0 -> Forall (uniform d) (_row_segments p) -> Exists (fun segs => segs <> []) (_row_segments p) ->
  kv_get key fields = Some (Nested (row_of d <$> _row_segments p)) /\ length ids = length (_row_segments p)
  /\ Forall2 (fun segs t => dict_get (row_shapes_key key) t = Some (geometry p (shape <$> segs))) (_row_segments p) ts.
Proof.
  unfold pack_payload. intros (lengths & _ & (mm & Hmm & (tf & Htf & (fs & Hfs & (o & Ho & (us & Hus & [= <- <- <-])%bind_Ok)%bind_Ok)%bind_Ok)%bind_Ok)%bind_Ok)%bind_Ok
    Hn Hg Hkey Hdim Hu Hex.
  assert (NoDup mm.*1) as Hnm by (eapply sublist_NoDup; [exact Hn|apply fmap_sublist, multimodal_entries; exact Hmm]).
  apply kv_get_elem in Hg; [|done]. pose proof (multimodal_packed _ _ _ _ Hmm Hg) as Hin.
  pose proof (add_wire_fields_packed _ _ _ _ _ _ _ Htf Hnm Hin Hkey (to_wire_uniform promoted d p Hdim Hu Hex)) as Hw.
  assert (Exists (fun r => r <> []) (row_shapes p)) as Hex'.
  { unfold row_shapes, _shapes_of. apply Exists_fmap. eapply Exists_impl; [exact Hex|]. intros segs Hne. by destruct segs. }
  destruct (multimodal_tags_geometry _ _ _ _ _ Ho Hnm Hin Hkey Hex') as (mts & -> & Hlen & Hlm & Hks & Hgeo).
  unfold row_shapes, _shapes_of in Hlen, Hgeo. rewrite length_fmap in Hlen. apply Forall2_fmap_l in Hgeo. split_and!.
  - unfold pack_jagged_fields in Hfs. apply bind_Ok in Hfs as (packed & Hp & (? & _ & [= <-])%bind_Ok).
    eapply traverse_kv_get; [exact Hp|exact Hw|done].
  - by rewrite length_fmap, length_seq.
  - apply traverse_Ok in Hus. apply Forall2_same_length_lookup. pose proof (Forall2_length _ _ _ Hus) as Hl. rewrite length_seq in Hl.
    split; [rewrite Hlen; exact Hl|]. intros i segs t Hs Ht. destruct (Forall2_lookup_r _ _ _ _ _ Hus Ht) as (j & [-> Hj]%lookup_seq & Hrow).
    apply bind_Ok in Hrow as (v & _ & (m & Hm%get_index_Ok & [= <-])%bind_Ok). change (mts !! i = Some m) in Hm.
    rewrite Forall_lookup in Hks. destruct (Hks _ _ Hm) as [ks Hk]. unfold row_payload_tag. rewrite (dict_update_get _ _ ks) by done.
    pose proof (Forall2_lookup_lr _ _ _ _ _ _ Hgeo Hs Hm) as Hd. cbn in Hd. by rewrite Hd.
Qed.
End payload.

(** What is not media reaches the payload as [pack_field] makes it. *)
Lemma multimodal_kinds b mm k v : get_multimodal_dict b = Ok mm -> (k, v) ∈ mm -> k ∈ PER_TOKEN_MULTIMODAL_FIELDS \/ exists p, v = Packed p.
Proof.
  revert mm. induction b as [|[k' v'] b IH]; intros mm; cbn [get_multimodal_dict]; [by intros [= <-] ?%elem_of_nil|].
  intros (keep & Hkeep & (r & Hr & [= <-])%bind_Ok)%bind_Ok Hin. destruct keep; [|by eapply IH].
  apply elem_of_cons in Hin as [[= -> ->]|Hin]; [|by eapply IH].
  destruct v' as [t|rows|l|p|]; try (right; by eexists); left;
    (destruct (bool_decide (k' ∈ PER_TOKEN_MULTIMODAL_FIELDS)) eqn:E; [by apply bool_decide_eq_true in E|]; destruct (is_packed_field k'); discriminate).
Qed.

Lemma plain_fields_get b key v : kv_get key b = Some v -> (match v with Dense _ | Nested _ | Objects _ => true | _ => false end) = true ->
  kv_get key (plain_fields b) = Some v.
Proof.
  induction b as [|[k c] b IH]; [done|]. cbn [kv_get]. unfold plain_fields in *. cbn [List.filter snd]. destruct (decide (k = key)) as [->|Hne].
  - intros [= ->] Hk. rewrite Hk. cbn [kv_get]. by rewrite decide_True.
  - intros Hg Hk. destruct (match c with Dense _ | Nested _ | Objects _ => true | _ => false end); [|by apply IH].
    cbn [kv_get]. rewrite decide_False by done. by apply IH.
Qed.

Lemma traverse_kv_some (f : string -> column -> res column) b b' key v :
  traverse (fun kv : string * column => c ← f kv.1 kv.2; Ok (kv.1, c)) b = Ok b' -> kv_get key b = Some v -> exists c, f key v = Ok c.
Proof.
  intros Ht%traverse_Ok Hg. induction Ht as [|[k c] [k' c'] b b' Hc _ IH]; cbn [kv_get] in Hg; [done|].
  cbn [fst snd] in Hc. apply bind_Ok in Hc as (w & Hw & _). destruct (decide (k = key)) as [->|]; [|by apply IH].
  injection Hg as ->. by exists w.
Qed.

Lemma pack_payload_field promoted b violations w g pi ids fields ts lt key t :
  pack_payload promoted b violations w g pi = Ok (ids, fields, ts) -> NoDup b.*1 ->
  kv_get "input_lengths" b = Some (Dense lt) -> kv_get key b = Some (Dense t) -> key ∉ PER_TOKEN_MULTIMODAL_FIELDS ->
  exists c, pack_field (Some (data lt)) TOKEN_ALIGNED_FIELDS key (Dense t) = Ok c /\ kv_get key fields = Some c.
Proof.
  unfold pack_payload. intros (lengths & Hl & (mm & Hmm & (tf & Htf & (fs & Hfs & (o & _ & (us & _ & [= <- <- <-])%bind_Ok)%bind_Ok)%bind_Ok)%bind_Ok)%bind_Ok)%bind_Ok
    Hn Hlen Hg Hkey. rewrite Hlen in Hl. injection Hl as <-.
  assert (key ∉ mm.*1) as Hni.
  { intros ((k & v) & Hk & Hin)%list_elem_of_fmap. cbn in Hk. subst k. pose proof (multimodal_entries _ _ Hmm) as Hsub.
    assert ((key, v) ∈ b) as Hb by (by eapply (sublist_subseteq)). apply kv_get_elem in Hb; [|done]. rewrite Hg in Hb. injection Hb as <-.
    destruct (multimodal_kinds _ _ _ _ Hmm Hin) as [?|[p Hp]]; [done|discriminate]. }
  assert (kv_get key tf = Some (Dense t)) as Ht.
  { rewrite (add_wire_fields_other _ _ _ _ _ Htf Hni). by apply plain_fields_get. }
  unfold pack_jagged_fields in Hfs. apply bind_Ok in Hfs as (packed & Hp & (? & _ & [= <-])%bind_Ok).
  destruct (traverse_kv_some _ _ _ _ _ Hp Ht) as [c Hc]. exists c. split; [done|]. by eapply traverse_kv_get.
Qed.

Lemma pack_payload_ids promoted b violations w g pi ids fields ts lt :
  pack_payload promoted b violations w g pi = Ok (ids, fields, ts) -> kv_get "input_lengths" b = Some (Dense lt) ->
  ids = (fun i => owner_id g (Z.of_nat i)) <$> seq 0 (length (data lt)).
Proof.
  unfold pack_payload. intros (lengths & Hl & (mm & _ & (tf & _ & (fs & _ & (o & _ & (us & _ & [= <- _ _])%bind_Ok)%bind_Ok)%bind_Ok)%bind_Ok)%bind_Ok)%bind_Ok Hlen.
  rewrite Hlen in Hl. by injection Hl as <-.
Qed.

(** C20 Packed media reach the consumer with their samples.  Whatever rows the
    consumer gathers, in whatever order and however often, the rows of a field
    and their tags rebuild those samples' segments, with their shapes and
    elements, and the preprocessing they ask for. *)
Theorem media_survive_the_wire promoted b violations w g pi ids fields ts key p d idx :
  pack_payload promoted b violations w g pi = Ok (ids, fields, ts) -> NoDup b.*1 ->
  kv_get key b = Some (Packed p) -> is_packed_field key = true -> packed_ok p -> dim_to_pack p = 0 ->
  Forall (uniform d) (_row_segments p) -> Exists (fun segs => segs <> []) (_row_segments p) ->
  idx <> [] -> Forall (fun i => (i < length ids)%nat) idx ->
  exists rows wire tags segs q,
    kv_get key fields = Some (Nested rows) /\ traverse (get_index rows) idx = Ok wire /\ traverse (get_index ts) idx = Ok tags
    /\ traverse (get_index (_row_segments p)) idx = Ok segs
    /\ reassemble_field key (Nested wire) (Some tags) = Ok (Packed q)
    /\ _row_segments q = segs /\ _preprocess_spec q = _preprocess_spec p /\ packed_ok q.
Proof.
  intros Hp Hn Hg Hkey Hok Hdim Hu Hex Hne Hidx.
  destruct (pack_payload_media _ _ _ _ _ _ _ _ _ _ _ _ Hp Hn Hg Hkey Hdim Hu Hex) as (Hrows & Hlen & Htags).
  assert (exists segs, Forall2 (fun i s => _row_segments p !! i = Some s) idx segs) as [segs Hsegs].
  { clear Hne. induction Hidx as [|i idx Hi _ [segs IH]]; [by exists []|]. rewrite Hlen in Hi.
    destruct (lookup_lt_is_Some_2 _ _ Hi) as [s Hs]. exists (s :: segs). by constructor. }
  assert (exists tags, Forall2 (fun i t => ts !! i = Some t) idx tags
          /\ Forall2 (fun segs t => dict_get (row_shapes_key key) t = Some (geometry p (shape <$> segs))) segs tags) as (tags & Hts & Hgeo).
  { clear Hne Hidx. induction Hsegs as [|i s idx segs Hs _ (tags & IH & IHg)]; [by exists []|].
    destruct (Forall2_lookup_l _ _ _ _ _ Htags Hs) as (t & Ht & Hd). exists (t :: tags). by repeat constructor. }
  exists (row_of d <$> _row_segments p), (row_of d <$> segs), tags, segs, (unshared segs (_preprocess_spec p)).
  assert (Forall (uniform d) segs) as Hus.
  { clear Hgeo Hne Hidx Hts. induction Hsegs as [|i s idx segs Hs _ IH]; [done|]. constructor; [|done]. rewrite Forall_lookup in Hu. by eapply Hu. }
  pose proof (packed_spec_ok p Hok) as Hspec. split_and!; [done| | | | | |done|].
  - apply traverse_Ok, Forall2_fmap_r. eapply Forall2_impl; [exact Hsegs|]. intros i s Hs. apply get_index_Ok. by rewrite list_lookup_fmap, Hs.
  - apply traverse_Ok. eapply Forall2_impl; [exact Hts|]. intros i t. apply get_index_Ok.
  - apply traverse_Ok. eapply Forall2_impl; [exact Hsegs|]. intros i t. apply get_index_Ok.
  - apply (reassemble_rows d); [done| |done|done|done]. destruct Hsegs; [done|by intros ?].
  - apply unshared_segments.
  - unfold packed_ok, unshared. apply new_packed_csr; [done| |done]. intros r i Hr Hi. rewrite length_fmap. by apply (spans_range 0 segs r).
Qed.

(** ** Instances *)

Module Demo.
(** What [torch.cat] makes of mixed dtypes is not looked at. *)
Definition promoted (l : list Tensor) : Tensor := mkTensor Float32 [zsum (numel <$> l)] (mjoin (data <$> l)).
Definition image (z : Z) : Tensor := mkTensor Float32 [1; 2] [z; z + 1].
Definition spec := mkPreprocess (Some "patchify") {[ "patch_dim" := 14 ]}.
Definition media := mkPacked [Some (image 10); Some (image 20)] 0 spec (Some [0; 2; 2; 3]%nat) (Some [0; 1; 1]%nat) None.
Definition tokens := mkTensor Int64 [3; 4] [1; 2; 3; 0; 4; 5; 0; 0; 6; 7; 8; 9].
Definition train_batch : batch :=
  [("input_ids", Dense tokens); ("input_lengths", Dense (mkTensor Int64 [3] [3; 2; 4])); ("pixel_values", Packed media)].

Lemma tokens_witness : exists wire u,
  pack_field (Some [3; 2; 4]) TOKEN_ALIGNED_FIELDS "input_ids" (Dense tokens) = Ok (Nested wire)
  /\ wire !! 1%nat = Some (mkTensor Int64 [2] [4; 5]) /\ pad_field "input_ids" (Nested wire) 0 4 = Dense u /\ u = tokens.
Proof.
  destruct (tokens_survive_the_wire "input_ids" tokens 3 4 [] [3; 2; 4]%nat 0 4) as (wire & u & k & w & Hp & Hr & Hu & Hw & _ & _ & _ & Hback).
  - by apply (bool_decide_unpack _).
  - reflexivity.
  - split; [reflexivity|repeat constructor; lia].
  - reflexivity.
  - lia.
  - reflexivity.
  - repeat constructor.
  - exists wire, u. split; [exact Hp|]. assert (w = 4%nat) as ->. { change (Z.of_nat w = 4) in Hw. lia. }
    vm_compute in Hp. injection Hp as <-. split; [reflexivity|]. split; [exact Hu|]. vm_compute in Hu. by injection Hu as <-.
Defined.

Definition payload := pack_payload promoted train_batch None 7 "g" 0.

Lemma media_witness : exists ids fields ts rows wire tags q, payload = Ok (ids, fields, ts)
  /\ kv_get "pixel_values" fields = Some (Nested rows) /\ traverse (get_index rows) [2; 0; 1]%nat = Ok wire
  /\ traverse (get_index ts) [2; 0; 1]%nat = Ok tags
  /\ reassemble_field "pixel_values" (Nested wire) (Some tags) = Ok (Packed q)
  /\ _row_segments q = [[image 20]; [image 10; image 20]; []] /\ _preprocess_spec q = spec.
Proof.
  destruct payload as [[[ids fields] ts]|e] eqn:E; [|vm_compute in E; discriminate].
  destruct (media_survive_the_wire promoted train_batch None 7 "g" 0 ids fields ts "pixel_values" media Float32 [2; 0; 1]%nat E)
    as (rows & wire & tags & segs & q & Hr & Hw & Ht & Hs & Hq & Hseg & Hspec & _).
  - by apply (bool_decide_unpack _).
  - reflexivity.
  - reflexivity.
  - reflexivity.
  - reflexivity.
  - repeat constructor; cbn; lia.
  - left. discriminate.
  - discriminate.
  - assert (length ids = 3%nat) as ->; [|repeat constructor]. vm_compute in E. injection E as <- _ _. reflexivity.
  - exists ids, fields, ts, rows, wire, tags, q. split; [reflexivity|]. split; [exact Hr|]. split; [exact Hw|]. split; [exact Ht|].
    split; [exact Hq|]. split; [|exact Hspec]. rewrite Hseg. vm_compute in Hs. injection Hs as <-. reflexivity.
Defined.
End Demo.
