(* ===== verification/Publish.v ===== *)
(** * Publishing a prompt group
    ([RolloutReassembler.finalize_group], [_publish_rows],
    [_build_routed_experts_tensor], [_drop_group] and [_clear_staging] of
    [experience/rollout_reassembler.py])

    The finalized rows of a group become one batch of tensors, which is put into
    the training partition in one call; the staged rows it was made of are
    cleared afterwards, or handed on when the routes are assembled later.

    The state is what the object learned of the routes, and the calls made to the
    data plane in order; each call ends as [outcome] says.  A tensor of [float32]
    holds bit patterns; a tensor of booleans holds 0 and 1.  Metrics and logs are
    not modelled, except where computing them raises. *)

From S2P Require Import Prelude.
From S2P Require Import PyVal.
From S2P Require Import StateErr.
From S2P Require Import Recovery.
From S2P Require Import RoutePlan.
From S2P Require Import RouteAssembly.
From S2P Require Import ForestPlan.
From S2P Require Import Rewards.
From S2P Require Import Media.
From S2P Require Import PackedTensors.
From S2P Require Import DataPlaneMeta.
From S2P Require Import LogicalOwners.
From S2P Require Import Wire.
From S2P Require Import Reassembler.
From S2P Require Import LogicalRows.
#[local] Open Scope string_scope.
#[local] Open Scope Z_scope.

(** ** Numbers *)

(** The bits of a number in [float32], rounded to nearest even. *)
Definition sign_bit (s : bool) : Z := if s then 2 ^ 31 else 0.
Definition to_float32 (x : float) : float :=
  match x with
  | SpecFloat.S754_finite s m e => SpecFloat.binary_normalize 24 128 (if s then Zneg m else Zpos m) e s
  | x => x
  end.
Definition f32_bits (x : float) : Z :=
  match to_float32 x with
  | SpecFloat.S754_zero s => sign_bit s
  | SpecFloat.S754_infinity s => sign_bit s + 255 * 2 ^ 23
  | SpecFloat.S754_nan => 255 * 2 ^ 23 + 2 ^ 22
  | SpecFloat.S754_finite s m e =>
      sign_bit s + (if Zpos m <? 2 ^ 23 then Zpos m else (e + 150) * 2 ^ 23 + (Zpos m - 2 ^ 23))
  end.
(** [int(x)]. *)
Definition py_int (x : float) : res Z :=
  match x with
  | SpecFloat.S754_zero _ => Ok 0
  | SpecFloat.S754_finite s m e => Ok ((if s then -1 else 1) * Z.shiftl (Zpos m) e)
  | SpecFloat.S754_infinity _ => Raise OverflowError
  | SpecFloat.S754_nan => Raise ValueError
  end.
Definition bool_bits (b : bool) : Z := if b then 1 else 0.

(** ** State *)

Inductive effect :=
| PutSamples (ids : list string) (partition : string) (values : batch) (row_tags : list tag)
| ClearStaging (keys : list string).

Record Publisher := mkPublisher { routed_dims : option (Z * Z); effects : list effect }.
Abbreviation M := (SE Publisher) (only parsing).

Definition with_dims {A} (m : SE (option (Z * Z)) A) : M A := fun g =>
  let '(d, r) := m (routed_dims g) in (mkPublisher d (effects g), r).

(** ** Results *)

Record FinalizedReward := mkReward {
  sample_id : string; reward_rollout_id : string; reward_value : float; log_context : option RewardLogContext }.
Definition new_reward (r : FinalizedReward) : res FinalizedReward :=
  _ ← raise_if (String.eqb (sample_id r) "" || String.eqb (reward_rollout_id r) "") ValueError; Ok r.

Record FinalizedGroup := mkGroup {
  meta : option KVBatchMeta;
  group_min_wv : Z;
  group_max_wv : Z;
  group_staging_keys : list string;
  canonical_output_tokens : Z;
  reward_observations : list FinalizedReward;
  dropped : bool;
  drop_reason : option string;
  valid_row_count : Z;
  total_row_count : Z }.

(** ** Media of a group *)

(** The trainer's one-row media. *)
Definition sizes_data (l : list (Z * Z)) : list Z := l ≫= (fun hw => [hw.1; hw.2]).
Definition no_preprocess : preprocess := mkPreprocess None ∅.
Definition one_dim (ts : list (option Tensor)) : PackedTensor := mkPacked ts 0 no_preprocess None None None.
Definition media_field (key : string) (m : TrainerMedia) : PackedTensor :=
  if String.eqb key "imgs_sizes" then
    one_dim [Some (mkTensor Int32 [Z.of_nat (length (row_imgs_sizes m)); 2] (sizes_data (row_imgs_sizes m)))]
  else if String.eqb key "num_frames" then
    one_dim [Some (mkTensor Int32 [Z.of_nat (length (row_num_frames m))] (row_num_frames m))]
  else one_dim [Some (pixel_values m)].
Definition media_keys : list string := ["imgs_sizes"; "num_frames"; "pixel_values"].

Definition _empty_trainer_media (spec : MediaColumnSpec) (num_rows : nat) : res batch :=
  let rows (t : Tensor) := new_packed (one_dim (replicate num_rows (Some t))) in
  pixels ← rows (mkTensor (pixel_dtype spec) [0; pixel_feature_dim spec] []);
  sizes ← rows (mkTensor Int32 [0; 2] []);
  frames ← rows (mkTensor Int32 [0] []);
  Ok [("pixel_values", Packed pixels); ("imgs_sizes", Packed sizes); ("num_frames", Packed frames)].

Definition row_media (row : FinalizedRollout) : option TrainerMedia := if valid row then media row else None.

(** The values have no identities, so none is minted. *)
Definition _media_fields_for_group (rows : list FinalizedRollout) : res batch :=
  match omap row_media rows with
  | [] => Ok []
  | first :: _ =>
      traverse (fun key =>
        let reference := media_field key first in
        parts ← traverse (fun row => match row_media row with
                                     | Some m => Ok (media_field key m)
                                     | None => empty_rows_like reference 1
                                     end) rows;
        p ← (packed_concat parts 0%N).2;
        Ok (key, Packed p)) media_keys
  end.

(** ** Rows of tensors *)

(** [row[:k] = values]: as many values as positions, or one for all. *)
Definition assign_prefix {A} (k : nat) (values row : list A) : res (list A) :=
  let n := Nat.min k (length row) in
  match values with
  | [v] => Ok (replicate n v ++ drop n row)%list
  | _ => _ ← raise_if (negb (length values =? n)%nat) RuntimeError; Ok (values ++ drop n row)%list
  end.

(** The rows of a tensor of [k] columns. *)
Definition rows_of_width (k : Z) (t : Tensor) : res (list (list Z)) :=
  match shape t with
  | [n; k'] => _ ← raise_if (negb (k' =? k)) RuntimeError;
      Ok ((fun i => take (Z.to_nat k) (drop (i * Z.to_nat k) (data t))) <$> seq 0 (Z.to_nat n))
  | _ => Raise RuntimeError
  end.

(** [[len(rows), width, ...]], from its rows of positions. *)
Definition matrix (d : dtype) (width : nat) (rows : list (list Z)) : column :=
  Dense (mkTensor d [Z.of_nat (length rows); Z.of_nat width] (mjoin rows)).
Definition vector (d : dtype) (l : list Z) : column := Dense (mkTensor d [Z.of_nat (length l)] l).
Definition cube (d : dtype) (width : nat) (dims : list Z) (rows : list (list (list Z))) : column :=
  Dense (mkTensor d (Z.of_nat (length rows) :: Z.of_nat width :: dims) (mjoin (mjoin <$> rows))).

(** ** One row of the tensors *)

Record RowColumns := mkColumns {
  c_input : list Z;
  c_mask : list Z;
  c_logprobs : list Z;
  c_weight : Z;
  c_topk : list (list Z) * list (list Z) }.

Section publish.
Context `{TokenSource} (self : RolloutReassembler).
Context (promoted : list Tensor -> Tensor) (outcome : effect -> res unit).

Definition no_topk (max_len : nat) : list (list Z) :=
  if 0 <? top_logprobs self then replicate max_len (replicate (Z.to_nat (top_logprobs self)) 0) else [].

Definition topk_row (max_len : nat) (row : FinalizedRollout) : res (list (list Z) * list (list Z)) :=
  if 0 <? top_logprobs self then
    match topk row with
    | None => Raise AssertionError
    | Some (ids, lps) =>
        ids ← rows_of_width (top_logprobs self) ids;
        ids ← assign_prefix (length (token_ids row)) ids (no_topk max_len);
        lps ← rows_of_width (top_logprobs self) lps;
        lps ← assign_prefix (length (token_ids row)) lps (no_topk max_len);
        Ok (ids, lps)
    end
  else Ok ([], []).

(** A row's place in every tensor: [layout] gives a forest row its tokens. *)
Definition row_columns (max_len : nat) (layout : option (FinalizedRollout * nat)) (loss_multiplier : float) (row : FinalizedRollout)
  : res RowColumns :=
  let blank := replicate max_len 0 in
  input ← match layout with
          | Some (l, seq_len) => assign_prefix seq_len (token_ids l) (replicate max_len (pad_token_id self))
          | None => Ok (replicate max_len (pad_token_id self))
          end;
  if negb (valid row) then Ok (mkColumns input blank blank 0 (no_topk max_len, no_topk max_len))
  else
    let length := length (token_ids row) in
    input ← assign_prefix length (token_ids row) input;
    mask ← assign_prefix length (f32_bits <$> token_mask row) blank;
    lps ← assign_prefix length (f32_bits <$> logprobs row) blank;
    top ← topk_row max_len row;
    Ok (mkColumns input mask lps (f32_bits loss_multiplier) top).

(** The output masks of a forest row. *)
Definition flag_columns (max_len : nat) (row : FinalizedRollout) : res (list Z * list Z) :=
  let blank := replicate max_len 0 in
  match (if valid row then output_masks row else None) with
  | None => Ok (blank, blank)
  | Some (invalid, malformed) =>
      a ← assign_prefix (length (token_ids row)) (bool_bits <$> invalid) blank;
      b ← assign_prefix (length (token_ids row)) (bool_bits <$> malformed) blank;
      Ok (a, b)
  end.

(** ** Routes *)

(** The layers and experts of a tensor of routes, of its first row. *)
Definition dims_of (rows : list route_row) : Z * Z :=
  match rows with
  | r :: _ => (Z.of_nat (length r), Z.of_nat (length (default [] (head r))))
  | [] => (0, 0)
  end.
Definition has_shape (n layers k : Z) (rows : list route_row) : bool :=
  (Z.of_nat (length rows) =? n)
  && forallb (fun r : route_row => (Z.of_nat (length r) =? layers) && forallb (fun c : list Z => Z.of_nat (length c) =? k) r) rows.
Definition row_routes (row : FinalizedRollout) : option (list route_row) := if valid row then routed_experts row else None.

Definition route_rows (max_len : nat) (layers k : Z) (row : FinalizedRollout) : res (list (list Z)) :=
  let missing := replicate max_len (replicate (Z.to_nat (layers * k)) ROUTE_MISSING_SENTINEL) in
  match row_routes row with
  | None => Ok missing
  | Some rr =>
      _ ← raise_if (negb (has_shape (Z.of_nat (length (token_ids row))) layers k rr)) RuntimeError;
      assign_prefix (length rr) ((fun r : route_row => mjoin r) <$> rr) missing
  end.

Definition _build_routed_experts_tensor (rows : list FinalizedRollout) (max_len : nat) : M column :=
  _ ← match omap row_routes rows with
      | first :: _ => modify (fun g => mkPublisher (Some (dims_of first)) (effects g))
      | [] => mret tt
      end;
  g ← get;
  match routed_dims g with
  | None => lift (Raise RuntimeError)
  | Some (layers, k) =>
      routed ← lift (traverse (route_rows max_len layers k) rows);
      mret (cube OtherDtype max_len [layers; k] routed)
  end.

(** ** The data plane *)

Definition call_dp (e : effect) : M unit := fun g => (mkPublisher (routed_dims g) (effects g ++ [e])%list, outcome e).

(** [except Exception: raise RuntimeError]. *)
Definition _clear_staging (keys : list string) : M unit :=
  match keys with
  | [] => mret tt
  | _ => fun g => match call_dp (ClearStaging keys) g with (g', Raise _) => (g', Raise RuntimeError) | r => r end
  end.

Definition dropped_group (lo hi : Z) (why : string) (rewards : list FinalizedReward) : FinalizedGroup :=
  mkGroup None lo hi [] 0 rewards true (Some why) 0 0.
Definition _drop_group (reason : string) (keys : list string) (lo hi : Z) : M FinalizedGroup :=
  _ ← _clear_staging keys; mret (dropped_group lo hi reason []).

(** ** Execution padding *)

Definition padding_tag (group_id : string) (group_size : nat) : tag :=
  [(VStr "dispatch_group_id", VStr group_id); (VStr "logical_rollout_id", VNone); (VStr "logical_slot", VNone);
   (VStr "logical_group_size", VInt (Z.of_nat group_size)); (VStr "segment_index", VNone); (VStr "segment_count", VInt 0);
   (VStr "is_execution_padding", VBool true);
   (VStr "num_invalid_tool_calls", VInt 0); (VStr "num_malformed_thinking", VInt 0); (VStr "num_assistant_messages", VInt 0)].

(** [replace(dummy_layout, rollout_id=..., valid=False, reward=0.0, staging_keys=[])]. *)
Definition padding_row (layout : FinalizedRollout) (rollout_id : string) : FinalizedRollout :=
  mkFinalized rollout_id false (rejection_reason layout) (token_ids layout) (token_mask layout) (logprobs layout) (prompt_len layout) f0
    [] (min_wv layout) (max_wv layout) (routed_experts layout) (route_plan layout) (model_call_ids layout) (media layout)
    (fr_penalty_counts layout) (reward_metrics layout) (topk layout) (output_masks layout) (generation_lengths layout).

Definition first_segment (t : tag) : res bool := v ← dict_index "segment_index" t; Ok (eq_int v 0).
(** [[tag["segment_count"] for tag in tags if tag["segment_index"] == 0]]. *)
Fixpoint segment_counts (ts : list tag) : res (list Z) :=
  match ts with
  | [] => Ok []
  | t :: ts =>
      first ← first_segment t;
      count ← (if (first : bool) then v ← dict_index "segment_count" t; match v with VInt z => Ok [z] | _ => Raise TypeError end else Ok []);
      rest ← segment_counts ts;
      Ok (count ++ rest)%list
  end.

(** The rows with their padding, what the owners say of them, and the planned
    ids. *)
Definition pad_rows (group_id : string) (canonical : list string) (group_size : nat) (multiple : Z) (layout : FinalizedRollout)
  (l : LogicalRows) : res (LogicalRows * list string) :=
  counts ← segment_counts (row_tags l);
  planned ← forest_row_ids group_id canonical counts multiple;
  let real := length (rows l) in
  let n := (length planned - real)%nat in
  Ok (mkLogical (rows l ++ (padding_row layout <$> take n (drop real planned)))
        (prompt_ids l ++ replicate n [pad_token_id self])
        (lr_mask_sample l ++ replicate n true)
        (row_tags l ++ replicate n (padding_tag group_id group_size))
        (lr_staging_keys l) (lr_truncated l ++ replicate n false) (valid_owner_count l), planned)%list.

(** [tag["uses_borrowed_input"] = not row.valid], for each row. *)
Definition mark_borrowed (rows : list FinalizedRollout) (ts : list tag) : res (list tag) :=
  _ ← raise_if (negb (length rows =? length ts)%nat) ValueError;
  Ok (zip_with (fun (row : FinalizedRollout) t => dict_set "uses_borrowed_input" (VBool (negb (valid row))) t) rows ts).

(** ** The batch *)

Definition MASK_SAMPLE : string := "mask_sample".
Definition TRUNCATED : string := "truncated".
Definition ROUTE_PLAN_TAG : string := "route_assembly_plan".

Definition _truncated_flags (rows : list FinalizedRollout) (logical : option LogicalRows) : list bool :=
  match logical with
  | Some l => lr_truncated l
  | None => (fun row => Z.of_nat (length (token_ids row)) =? max_seq_len self) <$> rows
  end.

Definition prompts_column (rows : list FinalizedRollout) (logical : option LogicalRows) : res column :=
  match logical with
  | None =>
      let prompt := match List.filter valid rows with r :: _ => py_slice 0 (prompt_len r) (token_ids r) | [] => [] end in
      let prompt := match prompt with [] => [pad_token_id self] | p => p end in
      Ok (matrix Int64 (length prompt) (replicate (length rows) prompt))
  | Some l => as_nested_tensor ((fun p => mkTensor Int64 [Z.of_nat (length p)] p) <$> prompt_ids l)
  end.

Definition seq_lens (layouts : list FinalizedRollout) : list nat := (fun row => Nat.max 1 (length (token_ids row))) <$> layouts.

(** The layouts of forest rows, by position. *)
Definition layout_at (logical : bool) (layouts : list FinalizedRollout) (i : nat) : res (option (FinalizedRollout * nat)) :=
  if logical then l ← get_index layouts i; Ok (Some (l, Nat.max 1 (length (token_ids l)))) else Ok None.

Definition train_tensors (rows layouts : list FinalizedRollout) (logical : option LogicalRows) (mask_sample : list bool)
  (loss_multiplier : float) : res (nat * batch) :=
  let lens := seq_lens layouts in
  let max_len := foldr Nat.max 0%nat lens in
  let k := top_logprobs self in
  prompts ← prompts_column rows logical;
  cols ← traverse (fun i => row ← get_index rows i;
                            layout ← layout_at (bool_decide (is_Some logical)) layouts i;
                            row_columns max_len layout loss_multiplier row) (seq 0 (length rows));
  flags ← (if bool_decide (is_Some logical) then traverse (flag_columns max_len) rows else Ok []);
  Ok (max_len,
      [("input_ids", matrix Int64 max_len (c_input <$> cols));
       ("input_lengths", vector Int64 (Z.of_nat <$> lens));
       ("generation_logprobs", matrix Float32 max_len (c_logprobs <$> cols));
       ("token_mask", matrix Float32 max_len (c_mask <$> cols));
       ("sample_mask", vector Float32 (c_weight <$> cols));
       ("prompt_ids_for_adv", prompts);
       ("total_reward", vector Float32 ((fun row => f32_bits (fr_reward row)) <$> rows));
       (MASK_SAMPLE, vector OtherDtype (bool_bits <$> mask_sample));
       (TRUNCATED, vector OtherDtype (bool_bits <$> _truncated_flags rows logical))]
      ++ (if 0 <? k then [("sampler_topk_token_ids", cube Int32 max_len [k] ((fun c => (c_topk c).1) <$> cols));
                          ("sampler_topk_logprobs", cube Float32 max_len [k] ((fun c => (c_topk c).2) <$> cols))] else [])
      ++ (if bool_decide (is_Some logical)
          then [("invalid_tool_call_mask", matrix OtherDtype max_len flags.*1); ("malformed_thinking_mask", matrix OtherDtype max_len flags.*2)]
          else []))%list.

(** [train_batch.update(media_fields)]. *)
Definition update_batch (b c : batch) : batch := foldl (fun b kv => kv_set kv.1 kv.2 b) b c.

Definition media_of_group (layouts : list FinalizedRollout) (n : nat) : res batch :=
  fields ← _media_fields_for_group layouts;
  match fields with
  | [] => if capture_media self then
            match media_columns self with Some spec => _empty_trainer_media spec n | None => Raise AssertionError end
          else Ok []
  | _ => Ok fields
  end.

(** ** Tags *)

(** The plan a row without one is given. *)
Definition plan_of (row : FinalizedRollout) (expected_length : nat) : RouteAssemblyPlan :=
  match route_plan row with
  | Some plan => plan
  | None => mkPlan ROUTE_PLAN_SCHEMA_VERSION (fin_staging_partition self) [] (staging_keys row) (Z.of_nat expected_length)
  end.
Fixpoint plan_tags (ts : list tag) (rows : list FinalizedRollout) (lens : list nat) : res (list tag) :=
  match ts, rows, lens with
  | t :: ts, row :: rows, len :: lens =>
      encoded ← encode_route_plan (plan_of row len);
      rest ← plan_tags ts rows lens;
      Ok (dict_set ROUTE_PLAN_TAG encoded t :: rest)
  | ts, _, _ => Ok ts
  end.

(** The published ids and tags. *)
Definition final_ids (rows : list FinalizedRollout) (canonical sample_ids : list string) (ts : list tag)
  (logical : option (LogicalRows * list string)) : res (list string * list tag) :=
  match logical with
  | None => _ ← raise_if (negb (bool_decide (sample_ids = canonical))) AssertionError; Ok (sample_ids, ts)
  | Some (l, planned) =>
      let ids := fr_rollout_id <$> rows in
      _ ← raise_if (negb (bool_decide (ids = planned))) ValueError;
      _ ← raise_if (negb (length ts =? length (row_tags l))%nat) ValueError;
      Ok (ids, zip_with dict_update ts (row_tags l))
  end.

(** ** [_publish_rows] *)

Record GroupRequest := mkGroupRequest {
  gr_group_id : string;
  gr_rollout_ids : list string;
  gr_mask_sample : list bool;
  gr_fallback : Z;
  gr_prompt_idx : Z;
  gr_keys : list string;
  gr_rewards : list FinalizedReward;
  gr_multiple : Z;
  gr_canonical : list string;
  gr_loss_multiplier : float }.

Definition least (fallback : Z) (l : list Z) : Z := match l with [] => fallback | x :: l => foldl Z.min x l end.
Definition greatest (fallback : Z) (l : list Z) : Z := match l with [] => fallback | x :: l => foldl Z.max x l end.

(** From the tensors on: routes, media, payload, the put and the cleanup.
    [valid_rows] and [real] are those before padding. *)
Definition send_rows (r : GroupRequest) (valid_rows rows layouts : list FinalizedRollout) (real : nat)
  (logical : option (LogicalRows * list string)) : M FinalizedGroup :=
  let lo := least (gr_fallback r) (omap min_wv valid_rows) in
  let hi := greatest (gr_fallback r) (omap max_wv valid_rows) in
  let mask := match logical with Some (l, _) => lr_mask_sample l | None => gr_mask_sample r end in
  '(max_len, b) ← lift (train_tensors rows layouts (fst <$> logical) mask (gr_loss_multiplier r));
  g ← get;
  let direct := router_replay_enabled self && negb (defer_routed_experts_to_policy self) in
  if direct && bool_decide (omap row_routes rows = []) && bool_decide (routed_dims g = None) && bool_decide (valid_rows = []) then
    _drop_group "router replay on, no rollout carried routed_experts, and (L, K) is unknown yet" (gr_keys r) lo hi
  else
    b ← (if direct then routed ← _build_routed_experts_tensor rows max_len; mret (kv_set "routed_experts" routed b) else mret b);
    media ← lift (media_of_group layouts (length rows));
    '(sample_ids, values, ts) ← lift (pack_payload promoted (update_batch b media) None lo (gr_group_id r) (gr_prompt_idx r));
    ts ← (if defer_routed_experts_to_policy self then lift (plan_tags ts rows (seq_lens layouts)) else mret ts);
    '(ids, ts) ← lift (final_ids rows (gr_canonical r) sample_ids ts logical);
    _ ← call_dp (PutSamples ids (Reassembler.partition_id self) values ts);
    _ ← (if defer_routed_experts_to_policy self then mret tt else _clear_staging (gr_keys r));
    m ← lift (meta_init (mkMeta (Reassembler.partition_id self) (Some "train") ids (Some values.*1)
                           (Some (Z.of_nat <$> seq_lens layouts)) [] (Some ts)));
    tokens ← lift (traverse py_int (valid_rows ≫= token_mask));
    mret (mkGroup (Some m) lo hi (if defer_routed_experts_to_policy self then gr_keys r else []) (zsum tokens) (gr_rewards r)
            false None (Z.of_nat (length valid_rows)) (Z.of_nat real)).

Definition _publish_rows (r : GroupRequest) (rows : list FinalizedRollout) (logical : option LogicalRows) : M FinalizedGroup :=
  let valid_rows := List.filter valid rows in
  match logical with
  | None => send_rows r valid_rows rows rows (length rows) None
  | Some l =>
      match valid_rows with
      | [] =>
          _ ← _clear_staging (gr_keys r);
          mret (dropped_group (gr_fallback r) (gr_fallback r) "Forest group has no verified input layout for dummy rows" [])
      | dummy :: _ =>
          '(l', planned) ← lift (pad_rows (gr_group_id r) (gr_canonical r) (length (gr_rollout_ids r)) (gr_multiple r) dummy l);
          ts ← lift (mark_borrowed (LogicalRows.rows l') (row_tags l'));
          let l' := mkLogical (LogicalRows.rows l') (prompt_ids l') (lr_mask_sample l') ts (lr_staging_keys l') (lr_truncated l') (valid_owner_count l') in
          let layouts := (fun row => if valid row then row else dummy) <$> LogicalRows.rows l' in
          send_rows r valid_rows (LogicalRows.rows l') layouts (length rows) (Some (l', planned))
      end
  end.

(** ** [finalize_group] *)

(** The rows whose rewards are kept: one per rollout, with its slot. *)
Definition reward_slot (tr : tag * FinalizedRollout) : res (list (nat * FinalizedRollout)) :=
  first ← first_segment tr.1;
  if (first : bool) then
    v ← dict_index "logical_slot" tr.1;
    match v with VInt z => Ok [(Z.to_nat z, tr.2)] | _ => Raise TypeError end
  else Ok [].
Definition reward_slots (rows : list FinalizedRollout) (logical : option LogicalRows) : res (list (nat * FinalizedRollout)) :=
  match logical with
  | None => Ok (imap pair rows)
  | Some l =>
      _ ← raise_if (negb (length (row_tags l) =? length rows)%nat) ValueError;
      picked ← traverse reward_slot (zip (row_tags l) rows);
      Ok (concat picked)
  end.

Definition observed_rewards (canonical rollout_ids : list string) (contexts : list (option RewardLogContext))
  (slots : list (nat * FinalizedRollout)) : res (list FinalizedReward) :=
  traverse (fun sr : nat * FinalizedRollout =>
    c ← get_index canonical sr.1; i ← get_index rollout_ids sr.1; x ← get_index contexts sr.1;
    new_reward (mkReward c i (fr_reward sr.2) x)) (List.filter (fun sr : nat * FinalizedRollout => valid sr.2) slots).

Definition is_one (x : float) : bool := SpecFloat.SFeqb x f1.

(** The default arguments of [finalize_rollout]. *)
Definition plain_request (checks : option RewardChecks) : request := mkRequest false None ∅ checks None.

(** The staging keys of every receipt of a forest, once. *)
Definition receipts_keys (receipts : list (option dict)) : res (list string) :=
  keys ← traverse (receipt_staging_keys gym_staging_key) receipts; Ok (fromkeys [] (mjoin keys)).

Definition prepare_rows (group_id : string) (rollout_ids : list string) (receipts : list (option dict)) (rewards : list float)
  (mask_sample : list bool) (canonical : list string) (selections : option (list RolloutSelection))
  (checks : list (option RewardChecks)) : M (list FinalizedRollout * option LogicalRows * list string) :=
  match selections with
  | None =>
      rows ← with_dims (map_in (zip (zip (zip rollout_ids receipts) rewards) checks) (fun a dims =>
               let '(i, receipt, reward, c) := a in finalize_rollout self dims i receipt reward (plain_request c)));
      mret (rows, None, rows ≫= staging_keys)
  | Some sel =>
      segments ← lift (_plan_selected_calls receipt_validate receipt_dump gym_staging_key rollout_ids receipts sel);
      l ← with_dims (_finalize_logical_rows self group_id rollout_ids segments rewards mask_sample canonical receipts checks);
      keys ← lift (receipts_keys receipts);
      mret (LogicalRows.rows l, Some l, keys)
  end.

Definition finalize_group (group_id : string) (rollout_ids : list string) (receipts : list (option dict)) (rewards : list float)
  (mask_sample : list bool) (fallback_weight_version prompt_idx : Z) (loss_multiplier : float)
  (canonical_sample_ids : option (list string)) (logical_selections : option (list RolloutSelection)) (execution_row_multiple : Z)
  (reward_checks_ : option (list (option RewardChecks))) (reward_log_contexts : option (list (option RewardLogContext)))
  : M FinalizedGroup :=
  let n := length rollout_ids in
  _ ← guard (negb (length receipts =? n)%nat || negb (length rewards =? n)%nat || negb (length mask_sample =? n)%nat) AssertionError;
  let canonical := default rollout_ids canonical_sample_ids in
  _ ← guard (negb (length canonical =? n)%nat) AssertionError;
  let checks := default (replicate n None) reward_checks_ in
  _ ← guard (negb (length checks =? n)%nat) AssertionError;
  let contexts := default (replicate n None) reward_log_contexts in
  _ ← guard (negb (length contexts =? n)%nat) AssertionError;
  _ ← guard (execution_row_multiple <? 1) ValueError;
  _ ← guard (bool_decide (logical_selections = None) && negb (execution_row_multiple =? 1)) ValueError;
  _ ← guard (bool_decide (is_Some logical_selections) && negb (is_one loss_multiplier)) ValueError;
  '(rows, logical, keys) ← prepare_rows group_id rollout_ids receipts rewards mask_sample canonical logical_selections checks;
  _ ← guard (bool_decide (rows = [])) ZeroDivisionError;
  slots ← lift (reward_slots rows logical);
  observed ← lift (observed_rewards canonical rollout_ids contexts slots);
  _publish_rows (mkGroupRequest group_id rollout_ids mask_sample fallback_weight_version prompt_idx keys observed execution_row_multiple
                   canonical loss_multiplier) rows logical.
End publish.

(** ** Which calls are made, and when *)

Section effects.
Context `{TokenSource} (self : RolloutReassembler).
Context (promoted : list Tensor -> Tensor) (outcome : effect -> res unit).

(** A part that makes no call. *)
Definition quiet {A} (m : M A) : Prop := forall g, effects (m g).1 = effects g.

Lemma quiet_ret {A} (a : A) : quiet (mret a).
Proof. done. Qed.
Lemma quiet_lift {A} (r : res A) : quiet (lift r).
Proof. done. Qed.
Lemma quiet_get : quiet get.
Proof. done. Qed.
Lemma quiet_dims {A} (m : SE (option (Z * Z)) A) : quiet (with_dims m).
Proof. intros g. unfold with_dims. by destruct (m (routed_dims g)). Qed.
Lemma quiet_bind {A B} (m : M A) (f : A -> M B) : quiet m -> (forall a, quiet (f a)) -> quiet (m ≫= f).
Proof.
  intros Hm Hf g. specialize (Hm g). unfold mbind, se_bind. destruct (m g) as [g' [a|e]]; [|done]. cbn in *. by rewrite Hf.
Qed.

Lemma quiet_routes rows max_len : quiet (_build_routed_experts_tensor rows max_len).
Proof.
  apply quiet_bind; [by destruct (omap row_routes rows)|]. intros _. apply quiet_bind; [apply quiet_get|].
  intros g. destruct (routed_dims g) as [[layers k]|]; [|apply quiet_lift]. apply quiet_bind; [apply quiet_lift|]. intros r. apply quiet_ret.
Qed.

Lemma quiet_prepare group_id rollout_ids receipts rewards mask canonical sel checks :
  quiet (prepare_rows self group_id rollout_ids receipts rewards mask canonical sel checks).
Proof.
  destruct sel as [sel|]; [|apply quiet_bind; [apply quiet_dims|intros r; apply quiet_ret]].
  apply quiet_bind; [apply quiet_lift|]. intros segments. apply quiet_bind; [apply quiet_dims|]. intros l.
  apply quiet_bind; [apply quiet_lift|]. intros keys. apply quiet_ret.
Qed.

(** The call that clears the keys, where there are any. *)
Definition clearing (keys : list string) : list effect := match keys with [] => [] | _ => [ClearStaging keys] end.

(** What a group's publication may be, as the calls made and the result: nothing
    is touched; or the group is dropped, its staged rows cleared; or its rows are
    put, and only after that succeeded are the staged rows cleared, or handed on
    where the routes are still to be read. *)
Inductive publication (defer : bool) (keys : list string) : list effect -> res FinalizedGroup -> Prop :=
| NothingTouched e : publication defer keys [] (Raise e)
| GroupDropped group : dropped group = true -> meta group = None -> group_staging_keys group = [] ->
    (keys <> [] -> outcome (ClearStaging keys) = Ok tt) -> publication defer keys (clearing keys) (Ok group)
| DropFailed e : outcome (ClearStaging keys) = Raise e -> publication defer keys [ClearStaging keys] (Raise RuntimeError)
| PutFailed ids part values ts e : outcome (PutSamples ids part values ts) = Raise e ->
    publication defer keys [PutSamples ids part values ts] (Raise e)
| HandedOn ids part values ts r : outcome (PutSamples ids part values ts) = Ok tt -> defer = true ->
    (forall group, r = Ok group -> dropped group = false /\ group_staging_keys group = keys) ->
    publication defer keys [PutSamples ids part values ts] r
| ClearFailed ids part values ts e : outcome (PutSamples ids part values ts) = Ok tt -> defer = false ->
    outcome (ClearStaging keys) = Raise e -> publication defer keys [PutSamples ids part values ts; ClearStaging keys] (Raise RuntimeError)
| Cleared ids part values ts r : outcome (PutSamples ids part values ts) = Ok tt -> defer = false ->
    (keys <> [] -> outcome (ClearStaging keys) = Ok tt) ->
    (forall group, r = Ok group -> dropped group = false /\ group_staging_keys group = []) ->
    publication defer keys (PutSamples ids part values ts :: clearing keys) r.

Definition publishes (keys : list string) (m : M FinalizedGroup) : Prop := forall g,
  exists new, effects (m g).1 = (effects g ++ new)%list /\ publication (defer_routed_experts_to_policy self) keys new (m g).2.

Lemma publishes_quiet {A} keys (m : M A) (f : A -> M FinalizedGroup) : quiet m -> (forall a, publishes keys (f a)) -> publishes keys (m ≫= f).
Proof.
  intros Hm Hf g. specialize (Hm g). unfold mbind, se_bind. destruct (m g) as [g' [a|e]]; cbn in Hm.
  - destruct (Hf a g') as (new & He & Hp). exists new. by rewrite He, Hm.
  - exists []. rewrite app_nil_r. split; [done|]. constructor.
Qed.

Lemma clear_spec keys g :
  (exists e, _clear_staging outcome keys g = (mkPublisher (routed_dims g) (effects g ++ [ClearStaging keys]), Raise RuntimeError)
     /\ outcome (ClearStaging keys) = Raise e)%list
  \/ (exists g', _clear_staging outcome keys g = (g', Ok tt) /\ effects g' = (effects g ++ clearing keys)%list
        /\ (keys <> [] -> outcome (ClearStaging keys) = Ok tt)).
Proof.
  unfold _clear_staging. destruct keys as [|k keys]; [right; exists g; cbn; rewrite app_nil_r; done|].
  unfold call_dp. destruct (outcome (ClearStaging (k :: keys))) as [[]|e] eqn:E; [right|left; by exists e]. by eexists.
Qed.

Lemma drop_publishes reason keys lo hi : publishes keys (_drop_group outcome reason keys lo hi).
Proof.
  intros g. unfold _drop_group, mbind, se_bind. destruct (clear_spec keys g) as [(e & -> & He)|(g' & -> & Hg & Ho)].
  - exists [ClearStaging keys]. split; [done|]. by eapply DropFailed.
  - exists (clearing keys). split; [done|]. by constructor.
Qed.

Lemma put_publishes ids part values ts keys (m : M FinalizedGroup) :
  (forall g, quiet m /\ forall group, (m g).2 = Ok group ->
     dropped group = false /\ group_staging_keys group = if defer_routed_experts_to_policy self then keys else []) ->
  publishes keys (_ ← call_dp outcome (PutSamples ids part values ts);
                  _ ← (if defer_routed_experts_to_policy self then mret tt else _clear_staging outcome keys); m).
Proof.
  intros Hm g. unfold mbind at 1 2, se_bind at 1 2. unfold call_dp.
  destruct (outcome (PutSamples ids part values ts)) as [[]|e] eqn:Ep; [|eexists; split; [done|by econstructor]].
  set (g1 := mkPublisher _ _). destruct (Hm g1) as [Hq Hr]. unfold mbind, se_bind.
  destruct (defer_routed_experts_to_policy self) eqn:Ed; fold g1.
  - cbn [mret se_ret]. exists [PutSamples ids part values ts]. split; [exact (Hq g1)|]. apply HandedOn; [done|done|]. exact Hr.
  - destruct (clear_spec keys g1) as [(e & -> & He)|(g' & -> & Hg & Ho)].
    + eexists. split; [cbn; by rewrite <- app_assoc|]. cbn. by eapply ClearFailed.
    + exists (PutSamples ids part values ts :: clearing keys). split; [etrans; [apply Hq|]; rewrite Hg; cbn; by rewrite <- app_assoc|].
      apply Cleared; [done|done|done|]. apply Hm.
Qed.

Lemma send_rows_publishes r valid_rows rows layouts real logical :
  publishes (gr_keys r) (send_rows self promoted outcome r valid_rows rows layouts real logical).
Proof.
  unfold send_rows. apply publishes_quiet; [apply quiet_lift|]. intros [max_len b]. apply publishes_quiet; [apply quiet_get|]. intros g0.
  destruct (_ && _ && _ && _); [apply drop_publishes|]. apply publishes_quiet.
  { destruct (router_replay_enabled self && _); [|apply quiet_ret]. apply quiet_bind; [apply quiet_routes|]. intros c. apply quiet_ret. }
  intros B. apply publishes_quiet; [apply quiet_lift|]. intros media. apply publishes_quiet; [apply quiet_lift|]. intros [[pre values] ts].
  apply publishes_quiet; [destruct (defer_routed_experts_to_policy self); [apply quiet_lift|apply quiet_ret]|]. intros ts'.
  apply publishes_quiet; [apply quiet_lift|]. intros [ids ts2]. apply put_publishes. intros g.
  split; [by apply quiet_bind; [apply quiet_lift|]; intros; apply quiet_bind; [apply quiet_lift|]; intros; apply quiet_ret|].
  intros group. unfold mbind, se_bind. destruct (meta_init _) as [m|]; [|done]. cbn. destruct (traverse py_int _); [|done]. by intros [= <-].
Qed.

Lemma publish_rows_publishes r rows logical : publishes (gr_keys r) (_publish_rows self promoted outcome r rows logical).
Proof.
  unfold _publish_rows. destruct logical as [l|]; [|apply send_rows_publishes]. destruct (List.filter valid rows) as [|dummy rest].
  - intros g. unfold mbind, se_bind. destruct (clear_spec (gr_keys r) g) as [(e & -> & He)|(g' & -> & Hg & Ho)].
    + exists [ClearStaging (gr_keys r)]. split; [done|]. by eapply DropFailed.
    + exists (clearing (gr_keys r)). split; [done|]. by constructor.
  - apply publishes_quiet; [apply quiet_lift|]. intros [l' planned]. apply publishes_quiet; [apply quiet_lift|]. intros ts. apply send_rows_publishes.
Qed.

(** C4 Staged rows outlive the put.  Whatever [finalize_group] is given and
    however the data plane answers, the calls it makes are one of: none; the
    cleanup of a dropped group; or one put of the group's rows, and only after
    that put succeeded the cleanup of the keys the rows were made of, unless the
    routes are still to be read from them, in which case the group hands the keys
    on.  So a failure before or in the put leaves every staged row in place. *)
Theorem staging_outlives_the_put group_id rollout_ids receipts rewards mask fallback prompt_idx loss canonical sel multiple checks contexts g g' out :
  finalize_group self promoted outcome group_id rollout_ids receipts rewards mask fallback prompt_idx loss canonical sel multiple checks contexts g = (g', out) ->
  exists keys new, effects g' = (effects g ++ new)%list /\ publication (defer_routed_experts_to_policy self) keys new out
    /\ (new <> [] -> exists g1 rows logical,
          prepare_rows self group_id rollout_ids receipts rewards mask (default rollout_ids canonical) sel
            (default (replicate (length rollout_ids) None) checks) g = (g1, Ok (rows, logical, keys))).
Proof.
  intros Hf.
  assert (forall (b : bool) e (m : M FinalizedGroup), (_ ← guard b e; m) g = (g', out) -> m g = (g', out) \/ (g' = g /\ exists e', out = Raise e')) as Hguard.
  { intros b e m. unfold guard, mbind, se_bind, lift. destruct b; cbn; [intros [= <- <-]; right; eauto|by left]. }
  assert (forall e, g' = g -> out = Raise e -> exists keys new, effects g' = (effects g ++ new)%list /\ publication (defer_routed_experts_to_policy self) keys new out
    /\ (new <> [] -> exists g1 rows logical,
          prepare_rows self group_id rollout_ids receipts rewards mask (default rollout_ids canonical) sel
            (default (replicate (length rollout_ids) None) checks) g = (g1, Ok (rows, logical, keys)))) as Hquiet.
  { intros e -> ->. exists [], []. rewrite app_nil_r. split_and!; [done|constructor|done]. }
  unfold finalize_group in Hf. do 7 (apply Hguard in Hf as [Hf|[Hg [e He]]]; [|by eapply Hquiet]). clear Hguard Hquiet.
  pose proof (quiet_prepare group_id rollout_ids receipts rewards mask (default rollout_ids canonical) sel (default (replicate (length rollout_ids) None) checks) g) as Hq.
  unfold mbind at 1, se_bind at 1 in Hf. destruct (prepare_rows _ _ _ _ _ _ _ _ _ g) as [g1 [[[rows logical] keys]|e]] eqn:Ep; cbn [fst] in Hq;
    [|injection Hf as <- <-; exists [], []; rewrite app_nil_r; split_and!; [done|constructor|done]].
  assert (publishes keys (_ ← guard (bool_decide (rows = [])) ZeroDivisionError; slots ← lift (reward_slots rows logical);
    observed ← lift (observed_rewards (default rollout_ids canonical) rollout_ids (default (replicate (length rollout_ids) None) contexts) slots);
    _publish_rows self promoted outcome (mkGroupRequest group_id rollout_ids mask fallback prompt_idx keys observed multiple
      (default rollout_ids canonical) loss) rows logical)) as Hpub.
  { apply publishes_quiet; [apply quiet_lift|]. intros _. apply publishes_quiet; [apply quiet_lift|]. intros slots.
    apply publishes_quiet; [apply quiet_lift|]. intros observed. apply publish_rows_publishes. }
  destruct (Hpub g1) as (new & He & Hp). rewrite Hf in He, Hp. exists keys, new. split; [by rewrite <- Hq|]. split; [done|]. intros _. eauto.
Qed.
End effects.

(** ** A concrete group
    Its routes are read at once, so its staged rows are cleared after the put. *)
Module Demo.
Import Reassembler.Demo.

Definition promoted (l : list Tensor) : Tensor := default (mkTensor Float32 [] []) (head l).
Definition self : RolloutReassembler :=
  mkReassembler "train" "staging" 0 8 None None false false false None None None 0.
(** A data plane that takes no row. *)
Definition full (e : effect) : res unit := match e with PutSamples _ _ _ _ => Raise KeyError | ClearStaging _ => Ok tt end.
Definition run (outcome : effect -> res unit) :=
  finalize_group self promoted outcome "g" ["run"] [stored "run"] [f1] [false] 3 0 f1 (Some ["g_g0"]) None 1 None None (mkPublisher None []).

Example cleared_after_the_put :
  (fun e => match e with PutSamples ids _ _ _ => ids | ClearStaging keys => keys end) <$> effects (run (fun _ => Ok tt)).1
  = [["g_g0"]; ["run/a"; "run/b"]].
Proof. vm_compute. reflexivity. Qed.

Lemma outlives_witness : exists ids part values ts, effects (run full).1 = [PutSamples ids part values ts] /\ (run full).2 = Raise KeyError.
Proof.
  assert ((run full).2 = Raise KeyError) as Hr by (vm_compute; reflexivity).
  destruct (staging_outlives_the_put self promoted full "g" ["run"] [stored "run"] [f1] [false] 3 0 f1 (Some ["g_g0"]) None 1 None None
              (mkPublisher None []) (run full).1 (run full).2 (surjective_pairing _)) as (keys & new & He & Hp & Hkeys).
  rewrite He. cbn [effects app]. assert (new <> []) as Hne by (intros ->; revert He; vm_compute; discriminate).
  rewrite Hr in Hp |- *. inversion Hp; subst; try done; try (cbn in *; congruence).
  all: try (revert He; vm_compute; discriminate).
  eexists _, _, _, _. split; [reflexivity|done].
Defined.
End Demo.
