(* ===== verification/PublishedRows.v ===== *)
(** * What the rows of a group are published as

    The columns [RolloutReassembler._publish_rows] puts into the training
    partition, row by row: the verified tokens with their masks and
    log-probabilities, without padding between rows; zero weight for whatever was
    not verified.  Then what the rows of a forest group add: their padding, their
    borrowed inputs and the tags their owners are found by. *)

From S2P Require Import Prelude.
From S2P Require Import PyVal.
From S2P Require Import StateErr.
From S2P Require Import Recovery.
From S2P Require Import RoutePlan.
From S2P Require Import RouteAssembly.
From S2P Require Import ForestPlan.
From S2P Require Import Rewards.
From S2P Require Import Media.
From S2P Require Import PackedTensors.
From S2P Require Import DataPlaneMeta.
From S2P Require Import LogicalOwners.
From S2P Require Import Wire.
From S2P Require Import Reassembler.
From S2P Require Import LogicalRows.
From S2P Require Import Publish.
#[local] Open Scope string_scope.
#[local] Open Scope Z_scope.

(** ** Rows filled from the left *)

Lemma assign_prefix_length {A} k (values row out : list A) : assign_prefix k values row = Ok out -> length out = length row.
Proof.
  unfold assign_prefix. destruct values as [|v [|v' values]].
  - intros (? & Hn%raise_if_Ok%negb_false_iff%Nat.eqb_eq & [= <-])%bind_Ok. cbn in Hn. rewrite <- Hn. by rewrite drop_0.
  - intros [= <-]. rewrite length_app, length_replicate, length_drop. lia.
  - intros (? & Hn%raise_if_Ok%negb_false_iff%Nat.eqb_eq & [= <-])%bind_Ok.
    cbn [length] in *. rewrite length_app, length_drop. lia.
Qed.

Lemma assign_prefix_exact {A} (values row : list A) : (length values <= length row)%nat ->
  assign_prefix (length values) values row = Ok (values ++ drop (length values) row)%list.
Proof.
  intros Hl. unfold assign_prefix. rewrite Nat.min_l by done. destruct values as [|v [|v' values]]; [done|done|].
  by rewrite Nat.eqb_refl.
Qed.

Lemma assign_blank {A} (values : list A) m x : (length values <= m)%nat ->
  assign_prefix (length values) values (replicate m x) = Ok (resize m x values).
Proof.
  intros Hl. rewrite assign_prefix_exact by (by rewrite length_replicate). f_equal. rewrite resize_spec, take_ge by done. by rewrite drop_replicate.
Qed.

Lemma assign_again {A} (values : list A) m x : (length values <= m)%nat ->
  assign_prefix (length values) values (resize m x values) = Ok (resize m x values).
Proof.
  intros Hl. rewrite assign_prefix_exact by (by rewrite length_resize). f_equal. rewrite resize_spec, take_ge, drop_app_length by done. done.
Qed.

Lemma assign_borrowed {A} (values : list A) m x out : (length values <= m)%nat -> (1 <= m)%nat ->
  assign_prefix (Nat.max 1 (length values)) values (replicate m x) = Ok out -> out = resize m x values /\ (1 <= length values)%nat.
Proof.
  intros Hl Hm. destruct values as [|v values].
  - unfold assign_prefix. rewrite length_replicate. cbn [length Nat.max]. rewrite Nat.min_l by done. discriminate.
  - replace (Nat.max 1 (length (v :: values))) with (length (v :: values)) by (cbn; lia). rewrite assign_blank by done.
    intros [= <-]. split; [done|]. cbn. lia.
Qed.

(** ** One row *)

Section rows.
Context `{TokenSource} (self : RolloutReassembler).

(** The lists of a verified row are of one length. *)
Definition lists_agree (row : FinalizedRollout) : Prop :=
  valid row = true -> length (token_mask row) = length (token_ids row) /\ length (logprobs row) = length (token_ids row).

(** The tokens, masks and log-probabilities a row contributes. *)
Definition own_tokens (layout : option FinalizedRollout) (row : FinalizedRollout) : list Z :=
  if valid row then token_ids row else match layout with Some l => token_ids l | None => [] end.
Definition own_mask (row : FinalizedRollout) : list Z := if valid row then f32_bits <$> token_mask row else [].
Definition own_logprobs (row : FinalizedRollout) : list Z := if valid row then f32_bits <$> logprobs row else [].

Lemma row_columns_lengths max_len layout loss row c : row_columns self max_len layout loss row = Ok c ->
  length (c_input c) = max_len /\ length (c_mask c) = max_len /\ length (c_logprobs c) = max_len.
Proof.
  unfold row_columns. intros (input & Hi & Hc)%bind_Ok.
  assert (length input = max_len) as Hin.
  { destruct layout as [[l s]|]; [apply assign_prefix_length in Hi|injection Hi as <-]; by rewrite ?Hi, length_replicate. }
  destruct (negb (valid row)); [injection Hc as <-; cbn; by rewrite !length_replicate|].
  apply bind_Ok in Hc as (i & Hi'%assign_prefix_length & (m & Hm%assign_prefix_length & (l & Hl%assign_prefix_length & (t & _ & [= <-])%bind_Ok)%bind_Ok)%bind_Ok).
  cbn. rewrite length_replicate in Hm, Hl. split_and!; congruence.
Qed.

Lemma row_columns_weight max_len layout loss row c : row_columns self max_len layout loss row = Ok c ->
  c_weight c = if valid row then f32_bits loss else 0.
Proof.
  unfold row_columns. intros (input & _ & Hc)%bind_Ok. destruct (valid row); cbn [negb] in Hc; [|by injection Hc as <-].
  by apply bind_Ok in Hc as (i & _ & (m & _ & (l & _ & (t & _ & [= <-])%bind_Ok)%bind_Ok)%bind_Ok).
Qed.

Lemma row_columns_spec max_len layout loss row c :
  row_columns self max_len ((fun l => (l, Nat.max 1 (length (token_ids l)))) <$> layout) loss row = Ok c ->
  lists_agree row -> (1 <= max_len)%nat -> (length (own_tokens layout row) <= max_len)%nat ->
  (forall l, layout = Some l -> (length (token_ids l) <= max_len)%nat /\ (valid row = true -> token_ids l = token_ids row)) ->
  c_input c = resize max_len (pad_token_id self) (own_tokens layout row)
  /\ c_mask c = resize max_len 0 (own_mask row) /\ c_logprobs c = resize max_len 0 (own_logprobs row).
Proof.
  intros Hc Hag Hm Hlen Hlay. unfold row_columns in Hc. apply bind_Ok in Hc as (input & Hi & Hc).
  assert (input = resize max_len (pad_token_id self) (match layout with Some l => token_ids l | None => [] end)) as Hin.
  { destruct layout as [l|]; [|injection Hi as <-; by rewrite resize_nil]. apply assign_borrowed in Hi as [-> _]; [done| |done]. by apply Hlay. }
  unfold own_tokens, own_mask, own_logprobs in *. destruct (valid row) eqn:Hv; cbn [negb] in Hc; [|injection Hc as <-; cbn; by rewrite !resize_nil].
  destruct (Hag Hv) as [Hmk Hlp]. apply bind_Ok in Hc as (i & Hi' & (m & Hm' & (l & Hl' & (t & _ & [= <-])%bind_Ok)%bind_Ok)%bind_Ok).
  cbn [c_input c_mask c_logprobs]. split_and!.
  - subst input. destruct layout as [y|].
    + destruct (Hlay y eq_refl) as [_ Heq]. rewrite (Heq eq_refl) in Hi'. rewrite assign_again in Hi' by done. by injection Hi' as <-.
    + rewrite resize_nil, assign_blank in Hi' by done. by injection Hi' as <-.
  - rewrite <- Hmk, <- (length_fmap f32_bits), assign_blank in Hm' by (rewrite length_fmap; lia). by injection Hm' as <-.
  - rewrite <- Hlp, <- (length_fmap f32_bits), assign_blank in Hl' by (rewrite length_fmap; lia). by injection Hl' as <-.
Qed.

(** ** The batch *)

Definition layout_of (logical : option LogicalRows) (l : FinalizedRollout) : option FinalizedRollout :=
  match logical with Some _ => Some l | None => None end.

(** The tensors, and the columns of each row they are made of. *)
Record batch_of (rows layouts : list FinalizedRollout) (logical : option LogicalRows) (loss : float) (max_len : nat) (b : batch)
  (cols : list RowColumns) : Prop := {
  bo_width : max_len = foldr Nat.max 0%nat (seq_lens layouts);
  bo_length : length cols = length rows;
  bo_keys : NoDup b.*1;
  bo_cols : forall i row l, rows !! i = Some row -> layouts !! i = Some l -> exists c, cols !! i = Some c
    /\ row_columns self max_len ((fun l => (l, Nat.max 1 (length (token_ids l)))) <$> layout_of logical l) loss row = Ok c;
  bo_input : kv_get "input_ids" b = Some (matrix Int64 max_len (c_input <$> cols));
  bo_lengths : kv_get "input_lengths" b = Some (vector Int64 (Z.of_nat <$> seq_lens layouts));
  bo_mask : kv_get "token_mask" b = Some (matrix Float32 max_len (c_mask <$> cols));
  bo_logprobs : kv_get "generation_logprobs" b = Some (matrix Float32 max_len (c_logprobs <$> cols));
  bo_weight : kv_get "sample_mask" b = Some (vector Float32 (c_weight <$> cols));
  bo_reward : kv_get "total_reward" b = Some (vector Float32 ((fun row => f32_bits (fr_reward row)) <$> rows)) }.

Lemma train_tensors_batch rows layouts logical mask loss max_len b :
  train_tensors self rows layouts logical mask loss = Ok (max_len, b) -> exists cols, batch_of rows layouts logical loss max_len b cols.
Proof.
  unfold train_tensors. intros (prompts & _ & (cols & Hc & (flags & _ & [= <- <-])%bind_Ok)%bind_Ok)%bind_Ok. exists cols.
  apply traverse_Ok in Hc. constructor; try reflexivity.
  - rewrite <- (Forall2_length _ _ _ Hc). by rewrite length_seq.
  - apply (bool_decide_unpack _). destruct (0 <? top_logprobs self), logical; vm_compute; reflexivity.
  - intros i row l Hr Hl. assert (seq 0 (length rows) !! i = Some i) as Hi by (apply lookup_seq; split; [done|by eapply lookup_lt_Some]).
    destruct (Forall2_lookup_l _ _ _ _ _ Hc Hi) as (c & Hci & Hrow). exists c. split; [done|].
    apply bind_Ok in Hrow as (row' & Hr'%get_index_Ok & (lay & Hlay & Hrow)%bind_Ok). rewrite Hr in Hr'. injection Hr' as <-.
    unfold layout_at in Hlay. destruct logical as [lg|]; cbn in Hlay.
    + apply bind_Ok in Hlay as (l' & Hl'%get_index_Ok & [= <-]). rewrite Hl in Hl'. by injection Hl' as <-.
    + by injection Hlay as <-.
Qed.

(** Media and routes have columns of their own. *)
Lemma media_of_group_keys layouts n media : media_of_group self layouts n = Ok media -> Forall (fun k => k ∈ media_keys) media.*1.
Proof.
  unfold media_of_group. intros (fields & Hf & Hm)%bind_Ok. assert (Forall (fun k => k ∈ media_keys) fields.*1) as Hk.
  { unfold _media_fields_for_group in Hf. destruct (omap row_media layouts) as [|first rest]; [by injection Hf as <-|].
    apply traverse_Ok in Hf. clear Hm. rewrite Forall_fmap. eapply Forall2_Forall_r; [exact Hf|].
    apply Forall_forall. intros k Hin [k' p] Hk. apply bind_Ok in Hk as (parts & _ & (q & _ & [= <- <-])%bind_Ok). exact Hin. }
  destruct fields as [|f fs]; [|by injection Hm as <-]. destruct (capture_media self); [|by injection Hm as <-].
  destruct (media_columns self) as [spec|]; [|discriminate]. unfold _empty_trainer_media in Hm.
  apply bind_Ok in Hm as (p & _ & (s & _ & (q & _ & [= <-])%bind_Ok)%bind_Ok). repeat constructor; by apply (bool_decide_unpack _).
Qed.

Lemma update_batch_keys b c : NoDup b.*1 -> NoDup (update_batch b c).*1.
Proof. unfold update_batch. revert b. induction c as [|kv c IH]; intros b Hn; [done|]. cbn [foldl]. apply IH. by apply kv_set_NoDup. Qed.

Lemma update_batch_other b c key : key ∉ c.*1 -> kv_get key (update_batch b c) = kv_get key b.
Proof.
  unfold update_batch. revert b. induction c as [|[k v] c IH]; intros b; [done|]. cbn [foldl fmap list_fmap fst snd]. intros [Hk Hc]%not_elem_of_cons.
  rewrite (IH _ Hc), kv_get_set, decide_False; [done|]. by intros ->.
Qed.

(** ** The payload *)

Lemma matrix_packed key d w rs lens : key ∈ TOKEN_ALIGNED_FIELDS -> (0 < length rs)%nat -> length lens = length rs ->
  Forall (fun r => length r = w) rs -> Forall (fun l => (l <= w)%nat) lens ->
  exists nested, pack_field (Some (Z.of_nat <$> lens)) TOKEN_ALIGNED_FIELDS key (matrix d w rs) = Ok (Nested nested)
    /\ forall i r l, rs !! i = Some r -> lens !! i = Some l -> nested !! i = Some (mkTensor d [Z.of_nat l] (take l r)).
Proof.
  intros Hkey Hn Hlen Hw Hl. set (t := mkTensor d [Z.of_nat (length rs); Z.of_nat w] (mjoin rs)).
  assert (rectangular (length rs) w 1 [] t) as Ht.
  { split; [done|]. split; [done|]. cbn. rewrite (length_join_same w) by done. lia. }
  exists (packed_rows (length rs) w 1 [] t lens). split.
  - cbn [matrix pack_field]. rewrite bool_decide_true by done. by apply pack_rectangular.
  - intros i r l Hr Hli. unfold packed_rows. rewrite list_lookup_imap, Hli.
    assert (data (row_at t i) = r) as Hd.
    { destruct (row_at_rectangular _ _ _ _ _ i Ht) as (_ & Hd & _); [by eapply lookup_lt_Some|]. rewrite Nat.mul_1_r in Hd. etrans; [exact Hd|].
      by apply join_chunk. }
    change (Some (mkTensor d [Z.of_nat l] (take (l * 1) (data (row_at t i)))) = Some (mkTensor d [Z.of_nat l] (take l r))).
    by rewrite Hd, Nat.mul_1_r.
Qed.

Lemma vector_packed key d l lens : (0 < length lens)%nat ->
  pack_field (Some (Z.of_nat <$> lens)) TOKEN_ALIGNED_FIELDS key (Dense (mkTensor d [Z.of_nat (length l)] l)) = Ok (vector d l).
Proof.
  intros Hl. unfold pack_field. case_bool_decide; [|done]. unfold pack_per_token_field. rewrite length_fmap.
  by rewrite (proj2 (Nat.eqb_neq _ 0)) by lia.
Qed.

(** The columns looked at. *)
Definition plain_columns : list string := ["input_ids"; "input_lengths"; "token_mask"; "generation_logprobs"; "sample_mask"; "total_reward"].

Lemma plain_columns_apart key : key ∈ plain_columns -> (key ∉ PER_TOKEN_MULTIMODAL_FIELDS) /\ (key ∉ "routed_experts" :: media_keys).
Proof.
  assert (Forall (fun k => (k ∉ PER_TOKEN_MULTIMODAL_FIELDS) /\ (k ∉ "routed_experts" :: media_keys)) plain_columns) as Hall
    by (repeat constructor; by apply (bool_decide_unpack _)).
  rewrite Forall_forall in Hall. apply Hall.
Qed.

(** Row [i] of a jagged column. *)
Definition row_published (values : batch) (key : string) (i : nat) (d : dtype) (l : list Z) : Prop :=
  exists rows, kv_get key values = Some (Nested rows) /\ rows !! i = Some (mkTensor d [Z.of_nat (length l)] l).

(** What is published of one row: as many positions as its layout has tokens, at
    least one. *)
Definition published_as (values : batch) (i : nat) (layout : option FinalizedRollout) (width : nat) (row : FinalizedRollout) : Prop :=
  row_published values "input_ids" i Int64 (resize width (pad_token_id self) (own_tokens layout row))
  /\ row_published values "token_mask" i Float32 (resize width 0 (own_mask row))
  /\ row_published values "generation_logprobs" i Float32 (resize width 0 (own_logprobs row)).

Section payload.
Context (promoted : list Tensor -> Tensor).
Context (rows layouts : list FinalizedRollout) (logical : option LogicalRows) (loss : float) (max_len : nat) (b B : batch) (cols : list RowColumns).
Hypothesis Hb : batch_of rows layouts logical loss max_len b cols.
Hypothesis HB : NoDup B.*1.
Hypothesis Hsame : forall key, key ∈ plain_columns ->
  kv_get key B = kv_get key b.
Context (lo : Z) (g : string) (pi : Z) (ids : list string) (values : batch) (ts : list tag).
Hypothesis Hpay : pack_payload promoted B None lo g pi = Ok (ids, values, ts).
Hypothesis Hlay : length layouts = length rows.
Hypothesis Hrows : rows <> [].

Lemma lens_lookup i l : layouts !! i = Some l -> seq_lens layouts !! i = Some (Nat.max 1 (length (token_ids l))).
Proof. intros Hl. unfold seq_lens. by rewrite list_lookup_fmap, Hl. Qed.

Lemma lens_le : Forall (fun l => (l <= max_len)%nat) (seq_lens layouts).
Proof.
  rewrite (bo_width _ _ _ _ _ _ _ Hb). induction (seq_lens layouts) as [|l ls IH]; constructor; cbn; [lia|].
  eapply Forall_impl; [exact IH|]. cbn. lia.
Qed.

Lemma payload_column key c : key ∈ plain_columns ->
  kv_get key b = Some (Dense c) -> exists v, pack_field (Some (Z.of_nat <$> seq_lens layouts)) TOKEN_ALIGNED_FIELDS key (Dense c) = Ok v
    /\ kv_get key values = Some v.
Proof.
  intros Hkey Hc. rewrite <- Hsame in Hc by done.
  assert (kv_get "input_lengths" B = Some (vector Int64 (Z.of_nat <$> seq_lens layouts))) as Hlen.
  { rewrite Hsame by (by apply (bool_decide_unpack _)). by destruct Hb. }
  apply (pack_payload_field _ _ _ _ _ _ _ _ _ _ _ _ Hpay HB Hlen Hc). by apply plain_columns_apart.
Qed.

Lemma matrix_row key d col i r l : key ∈ TOKEN_ALIGNED_FIELDS ->
  key ∈ plain_columns ->
  kv_get key b = Some (matrix d max_len (col <$> cols)) -> Forall (fun c => length (col c) = max_len) cols ->
  (col <$> cols) !! i = Some r -> layouts !! i = Some l ->
  row_published values key i d (take (Nat.max 1 (length (token_ids l))) r).
Proof.
  intros Hal Hkey Hcol Hw Hr Hl. pose proof (bo_length _ _ _ _ _ _ _ Hb) as Hlen.
  destruct (matrix_packed key d max_len (col <$> cols) (seq_lens layouts) Hal) as (nested & Hpack & Hn).
  - rewrite length_fmap, Hlen. by destruct rows; [|cbn; lia].
  - rewrite length_fmap, Hlen. unfold seq_lens. by rewrite length_fmap.
  - by apply Forall_fmap.
  - apply lens_le.
  - destruct (payload_column key _ Hkey Hcol) as (v & Hv & Hg). unfold matrix in Hpack. rewrite Hv in Hpack. injection Hpack as ->. exists nested. split; [done|].
    pose proof (lens_lookup i l Hl) as Hll. rewrite (Hn i r _ Hr Hll). f_equal. f_equal. f_equal. rewrite length_take.
    apply list_lookup_fmap_Some in Hr as (c & -> & Hc). rewrite Forall_lookup in Hw. rewrite (Hw _ _ Hc). f_equal.
    pose proof lens_le as Hle. rewrite Forall_lookup in Hle. specialize (Hle _ _ Hll). cbn in Hle. lia.
Qed.

(** The columns that hold one value per row. *)
Lemma weights_published : kv_get "sample_mask" values = Some (vector Float32 ((fun row => if valid row then f32_bits loss else 0) <$> rows))
  /\ kv_get "total_reward" values = Some (vector Float32 ((fun row => f32_bits (fr_reward row)) <$> rows)).
Proof.
  assert (0 < length (seq_lens layouts))%nat as Hpos by (unfold seq_lens; rewrite length_fmap, Hlay; destruct rows; [done|cbn; lia]).
  assert (c_weight <$> cols = (fun row => if valid row then f32_bits loss else 0) <$> rows) as <-.
  { apply list_eq. intros i. rewrite !list_lookup_fmap. destruct (rows !! i) as [row|] eqn:Er.
    - destruct (lookup_lt_is_Some_2 layouts i) as [l Hl]; [rewrite Hlay; by eapply lookup_lt_Some|].
      destruct (bo_cols _ _ _ _ _ _ _ Hb i row l Er Hl) as (c & -> & Hc). cbn. f_equal. by eapply row_columns_weight.
    - apply lookup_ge_None in Er. rewrite lookup_ge_None_2; [done|]. by rewrite (bo_length _ _ _ _ _ _ _ Hb). }
  split; (edestruct payload_column as (v & Hv & ->); [by apply (bool_decide_unpack _)|by destruct Hb|]);
    rewrite vector_packed in Hv by done; by injection Hv as <-.
Qed.

Lemma rows_published i row l : rows !! i = Some row -> layouts !! i = Some l -> lists_agree row -> (valid row = true -> l = row) ->
  published_as values i (layout_of logical l) (Nat.max 1 (length (token_ids l))) row.
Proof.
  intros Hr Hl Hag Heq. destruct (bo_cols _ _ _ _ _ _ _ Hb i row l Hr Hl) as (c & Hc & Hrow).
  pose proof lens_le as Hle. rewrite Forall_lookup in Hle. specialize (Hle _ _ (lens_lookup i l Hl)). cbn in Hle.
  assert (forall j c', cols !! j = Some c' -> exists layout row', row_columns self max_len layout loss row' = Ok c') as Hall.
  { intros j c' Hj. destruct (lookup_lt_is_Some_2 rows j) as [row' Hr'].
    { rewrite <- (bo_length _ _ _ _ _ _ _ Hb). by eapply lookup_lt_Some. }
    destruct (lookup_lt_is_Some_2 layouts j) as [l' Hl']; [rewrite Hlay; by eapply lookup_lt_Some|].
    destruct (bo_cols _ _ _ _ _ _ _ Hb j row' l' Hr' Hl') as (c2 & Hj2 & Hc2). rewrite Hj in Hj2. injection Hj2 as <-. by eexists _, _. }
  assert (Forall (fun c => length (c_input c) = max_len /\ length (c_mask c) = max_len /\ length (c_logprobs c) = max_len) cols) as Hw.
  { apply Forall_lookup. intros j c' Hj. destruct (Hall j c' Hj) as (layout & row' & Hc'). by eapply row_columns_lengths. }
  destruct (row_columns_spec max_len (layout_of logical l) loss row c Hrow Hag) as (Hi & Hm & Hp); [lia| | |].
  - unfold own_tokens. destruct (valid row) eqn:Hv; [rewrite <- (Heq eq_refl); lia|]. destruct logical; cbn; lia.
  - unfold layout_of. destruct logical; [|done]. intros l' [= <-]. split; [lia|]. intros Hv. by rewrite (Heq Hv).
  - assert (forall (col : RowColumns -> list Z), (col <$> cols) !! i = Some (col c)) as Hlk by (intros; by rewrite list_lookup_fmap, Hc).
    split_and!; [rewrite <- (take_resize_le _ _ max_len), <- Hi by done|rewrite <- (take_resize_le _ _ max_len), <- Hm by done|
                 rewrite <- (take_resize_le _ _ max_len), <- Hp by done];
      (eapply matrix_row; [by apply (bool_decide_unpack _)|by apply (bool_decide_unpack _)|by destruct Hb| |apply Hlk|done]);
      (eapply Forall_impl; [exact Hw|]); cbn; tauto.
Qed.
End payload.

(** ** What is put *)

Definition batch_keys (b : batch) (routed : option column) (media : batch) : batch :=
  update_batch (match routed with Some c => kv_set "routed_experts" c b | None => b end) media.

Lemma batch_keys_spec b routed media : NoDup b.*1 -> Forall (fun k => k ∈ media_keys) media.*1 ->
  NoDup (batch_keys b routed media).*1 /\ forall key, key ∈ plain_columns -> kv_get key (batch_keys b routed media) = kv_get key b.
Proof.
  intros Hn Hm. unfold batch_keys. split.
  - apply update_batch_keys. destruct routed; [by apply kv_set_NoDup|done].
  - intros key [_ [Hr Hk]%not_elem_of_cons]%plain_columns_apart. rewrite update_batch_other.
    + destruct routed; [|done]. rewrite kv_get_set, decide_False; [done|]. by intros <-.
    + intros Hin. apply Hk. rewrite Forall_forall in Hm. by apply Hm.
Qed.

(** What a group that is not dropped has put: its ids and tags, and its rows. *)
Record put_rows (r : GroupRequest) (rows layouts : list FinalizedRollout) (logical : option (LogicalRows * list string))
  (ids : list string) (values : batch) (ts : list tag) : Prop := {
  pr_ids : exists pre, final_ids rows (gr_canonical r) ((fun i => owner_id (gr_group_id r) (Z.of_nat i)) <$> seq 0 (length rows)) pre logical = Ok (ids, ts);
  pr_rows : forall i row l, rows !! i = Some row -> layouts !! i = Some l -> lists_agree row -> (valid row = true -> l = row) ->
    published_as values i (layout_of (fst <$> logical) l) (Nat.max 1 (length (token_ids l))) row;
  pr_weights : kv_get "sample_mask" values
    = Some (vector Float32 ((fun row => if valid row then f32_bits (gr_loss_multiplier r) else 0) <$> rows));
  pr_rewards : kv_get "total_reward" values = Some (vector Float32 ((fun row => f32_bits (fr_reward row)) <$> rows)) }.

Context (promoted : list Tensor -> Tensor) (outcome : effect -> res unit).

Lemma call_dp_Ok e g g' u : call_dp outcome e g = (g', Ok u) -> outcome e = Ok tt /\ effects g' = (effects g ++ [e])%list.
Proof. unfold call_dp. intros [= <- Ho]. by destruct u. Qed.

Lemma maybe_clear_Ok keys g g' u (defer : bool) :
  (if defer then mret tt else _clear_staging outcome keys) g = (g', Ok u) -> exists new, effects g' = (effects g ++ new)%list.
Proof.
  destruct defer; [intros [-> _]%se_ret_Ok; exists []; by rewrite app_nil_r|]. intros Hc.
  destruct (clear_spec outcome keys g) as [(e & Hr & _)|(g2 & Hr & Hg & _)]; rewrite Hr in Hc; [discriminate|].
  injection Hc as <- _. by eexists.
Qed.

Lemma dropped_spec reason keys lo hi g g' group : _drop_group outcome reason keys lo hi g = (g', Ok group) -> dropped group = true.
Proof. by intros (? & ? & _ & [_ ->]%se_ret_Ok)%se_bind_Ok. Qed.

Lemma meta_init_same m m' : meta_init m = Ok m' -> m' = m.
Proof. unfold meta_init. by intros (? & _ & [= <-])%bind_Ok. Qed.

Lemma send_rows_put r valid_rows rows layouts real logical g g' group :
  send_rows self promoted outcome r valid_rows rows layouts real logical g = (g', Ok group) -> dropped group = false ->
  length layouts = length rows -> rows <> [] ->
  exists ids values ts m, put_rows r rows layouts logical ids values ts /\ PutSamples ids (Reassembler.partition_id self) values ts ∈ effects g'
    /\ meta group = Some m /\ sample_ids m = ids /\ tags m = Some ts.
Proof.
  intros Hs Hd Hlay Hne. unfold send_rows in Hs. apply se_bind_Ok in Hs as (g1 & [max_len b] & [-> Ht]%lift_Ok & Hs).
  apply se_bind_Ok in Hs as (g2 & g2' & [-> [= ->]]%lift_Ok & Hs). destruct (train_tensors_batch _ _ _ _ _ _ _ Ht) as [cols Hb].
  destruct (_ && _ && _ && _); [by apply dropped_spec in Hs; congruence|].
  apply se_bind_Ok in Hs as (g3 & B & HB & Hs).
  assert (exists routed, B = match routed with Some c => kv_set "routed_experts" c b | None => b end) as [routed ->].
  { destruct (router_replay_enabled self && _); [|apply se_ret_Ok in HB as [_ ->]; by exists None].
    apply se_bind_Ok in HB as (? & c & _ & [_ ->]%se_ret_Ok). by exists (Some c). }
  apply se_bind_Ok in Hs as (g4 & media & [-> Hm]%lift_Ok & Hs).
  destruct (batch_keys_spec b routed media (bo_keys _ _ _ _ _ _ _ Hb) (media_of_group_keys _ _ _ Hm)) as [HN Hsame].
  apply se_bind_Ok in Hs as (g5 & [[pre_ids values] pre_ts] & [-> Hpay]%lift_Ok & Hs).
  apply se_bind_Ok in Hs as (g6 & ts & _ & Hs). apply se_bind_Ok in Hs as (g7 & [ids ts'] & [-> Hfin]%lift_Ok & Hs).
  apply se_bind_Ok in Hs as (g8 & ? & [_ Heff]%call_dp_Ok & Hs). apply se_bind_Ok in Hs as (g9 & ? & [new Hnew]%maybe_clear_Ok & Hs).
  apply se_bind_Ok in Hs as (g10 & m & [-> Hmeta%meta_init_same]%lift_Ok & Hs).
  apply se_bind_Ok in Hs as (g11 & tokens & [-> _]%lift_Ok & [-> ->]%se_ret_Ok).
  exists ids, values, ts', m. split_and!; [|rewrite Hnew, Heff; set_solver|done|by rewrite Hmeta|by rewrite Hmeta].
  fold (batch_keys b routed media) in Hpay.
  assert (pre_ids = (fun i => owner_id (gr_group_id r) (Z.of_nat i)) <$> seq 0 (length rows)) as ->.
  { erewrite (pack_payload_ids _ _ _ _ _ _ _ _ _ _ Hpay); [|rewrite Hsame by (by apply (bool_decide_unpack _)); by apply (bo_lengths _ _ _ _ _ _ _ Hb)].
    cbn [data]. unfold seq_lens. by rewrite !length_fmap, Hlay. }
  destruct (weights_published promoted rows layouts _ _ _ _ _ _ Hb HN Hsame _ _ _ _ _ _ Hpay Hlay Hne) as [Hw Hr].
  constructor; [by eexists| |done|done].
  intros i row l Hri Hli. by eapply (rows_published promoted rows layouts).
Qed.

(** ** Ordinary groups *)

Lemma map_in_finalized (l : list (string * option dict * float * option RewardChecks)) dims dims' rows :
  map_in l (fun a dims => let '(i, receipt, reward, c) := a in finalize_rollout self dims i receipt reward (plain_request c)) dims = (dims', Ok rows) ->
  Forall2 (fun a row => let '(i, receipt, reward, c) := a in exists d d', finalize_rollout self d i receipt reward (plain_request c) = (d', Ok row)) l rows.
Proof.
  revert dims dims' rows. induction l as [|[[[i receipt] reward] c] l IH]; intros dims dims' rows; cbn [map_in].
  - intros [_ ->]%se_ret_Ok. constructor.
  - intros (d1 & row & Hrow & (d2 & rest & Hrest & [_ ->]%se_ret_Ok)%se_bind_Ok)%se_bind_Ok. constructor; [by exists dims, d1|by eapply IH].
Qed.

Lemma with_dims_Ok {A} (m : SE (option (Z * Z)) A) g g' a : with_dims m g = (g', Ok a) -> exists d, m (routed_dims g) = (d, Ok a) /\ effects g' = effects g.
Proof. unfold with_dims. destruct (m (routed_dims g)) as [d r]. intros [= <- ->]. by exists d. Qed.

(** A group that is published went through its preparation. *)
Record went_through (group_id : string) (rollout_ids : list string) (receipts : list (option dict)) (rewards : list float) (mask_sample : list bool)
  (fallback prompt_idx : Z) (loss : float) (canonical : list string) (selections : option (list RolloutSelection)) (multiple : Z)
  (checks : list (option RewardChecks)) (g g' : Publisher) (group : FinalizedGroup) : Prop := {
  wt_lengths : length receipts = length rollout_ids /\ length rewards = length rollout_ids /\ length mask_sample = length rollout_ids
    /\ length canonical = length rollout_ids /\ length checks = length rollout_ids;
  wt_multiple : 1 <= multiple;
  wt_rows : exists g1 rows logical keys observed,
    prepare_rows self group_id rollout_ids receipts rewards mask_sample canonical selections checks g = (g1, Ok (rows, logical, keys))
    /\ rows <> [] /\ _publish_rows self promoted outcome (mkGroupRequest group_id rollout_ids mask_sample fallback prompt_idx keys observed multiple canonical loss)
         rows logical g1 = (g', Ok group) }.

Lemma finalize_group_Ok group_id rollout_ids receipts rewards mask fallback prompt_idx loss canonical sel multiple checks contexts g g' group :
  finalize_group self promoted outcome group_id rollout_ids receipts rewards mask fallback prompt_idx loss canonical sel multiple checks contexts g = (g', Ok group) ->
  went_through group_id rollout_ids receipts rewards mask fallback prompt_idx loss (default rollout_ids canonical) sel multiple
    (default (replicate (length rollout_ids) None) checks) g g' group.
Proof.
  unfold finalize_group. intros (? & ? & [-> H1]%guard_Ok & Hf)%se_bind_Ok. apply orb_false_iff in H1 as [[Ha Hb]%orb_false_iff Hc].
  apply negb_false_iff, Nat.eqb_eq in Ha, Hb, Hc. apply se_bind_Ok in Hf as (? & ? & [-> Hcan%negb_false_iff%Nat.eqb_eq]%guard_Ok & Hf).
  apply se_bind_Ok in Hf as (? & ? & [-> Hch%negb_false_iff%Nat.eqb_eq]%guard_Ok & Hf).
  apply se_bind_Ok in Hf as (? & ? & [-> _]%guard_Ok & Hf). apply se_bind_Ok in Hf as (? & ? & [-> Hm]%guard_Ok & Hf).
  apply se_bind_Ok in Hf as (? & ? & [-> _]%guard_Ok & Hf). apply se_bind_Ok in Hf as (? & ? & [-> _]%guard_Ok & Hf).
  apply se_bind_Ok in Hf as (g1 & [[rows logical] keys] & Hp & Hf). apply se_bind_Ok in Hf as (? & ? & [-> Hne%bool_decide_eq_false]%guard_Ok & Hf).
  apply se_bind_Ok in Hf as (? & slots & [-> _]%lift_Ok & Hf). apply se_bind_Ok in Hf as (? & observed & [-> _]%lift_Ok & Hf).
  constructor; [done|lia|]. by exists g1, rows, logical, keys, observed.
Qed.

(** C15 An ordinary group publishes one row per rollout, in order, under the stable
    ids.  A verified rollout's row is its verified tokens, with the loss mask and
    the log-probabilities of each, as [float32] and nothing else between them;
    any other row carries a mask of zeros and no weight, so it trains nothing. *)
Theorem each_rollout_is_published group_id rollout_ids receipts rewards mask fallback prompt_idx loss canonical multiple checks contexts g g' group :
  finalize_group self promoted outcome group_id rollout_ids receipts rewards mask fallback prompt_idx loss canonical None multiple checks contexts g = (g', Ok group) ->
  dropped group = false ->
  let ids := default rollout_ids canonical in
  exists rows values ts m,
    Forall2 (fun a row => let '(i, receipt, reward, c) := a in exists d d', finalize_rollout self d i receipt reward (plain_request c) = (d', Ok row))
      (zip (zip (zip rollout_ids receipts) rewards) (default (replicate (length rollout_ids) None) checks)) rows
    /\ length rows = length rollout_ids
    /\ PutSamples ids (Reassembler.partition_id self) values ts ∈ effects g'
    /\ ids = (fun i => owner_id group_id (Z.of_nat i)) <$> seq 0 (length rollout_ids)
    /\ meta group = Some m /\ sample_ids m = ids /\ tags m = Some ts
    /\ (forall i row, rows !! i = Some row -> lists_agree row -> published_as values i None (Nat.max 1 (length (token_ids row))) row)
    /\ kv_get "sample_mask" values = Some (vector Float32 ((fun row => if valid row then f32_bits loss else 0) <$> rows))
    /\ kv_get "total_reward" values = Some (vector Float32 ((fun row => f32_bits (fr_reward row)) <$> rows)).
Proof.
  intros Hf Hd ids. apply finalize_group_Ok in Hf as [(H1 & H2 & _ & H3 & H4) _ (g1 & rows & logical & keys & observed & Hp & Hne & Hpub)].
  fold ids in H3, Hpub. unfold prepare_rows in Hp. apply se_bind_Ok in Hp as (g2 & rows' & (d & Hrows & _)%with_dims_Ok & [_ [= -> -> ->]]%se_ret_Ok).
  apply map_in_finalized in Hrows. pose proof (Forall2_length _ _ _ Hrows) as Hlen. rewrite !length_zip_with in Hlen.
  assert (length rows' = length rollout_ids) as Hln by lia.
  unfold _publish_rows in Hpub. cbn match in Hpub.
  destruct (send_rows_put _ _ _ _ _ _ _ _ _ Hpub Hd eq_refl Hne) as (pids & values & ts & m & [(pre & Hids) Hpr Hw Hr] & Hput & Hm & Hmi & Hmt).
  unfold final_ids in Hids. apply bind_Ok in Hids as (? & Hids%raise_if_Ok%negb_false_iff%bool_decide_eq_true & [= <- <-]). cbn [gr_group_id gr_canonical] in *.
  rewrite Hids in Hput, Hmi. rewrite Hln in Hids. exists rows', values, pre, m. split_and!; try done.
  intros i row Hi Hag. by apply (Hpr i row row).
Qed.
End rows.

(** ** A concrete group *)
Module Demo.
Import Reassembler.Demo.

Definition promoted (l : list Tensor) : Tensor := default (mkTensor Float32 [] []) (head l).
Definition fine (e : effect) : res unit := Ok tt.
Definition run := finalize_group self promoted fine "g" ["run"] [stored "run"] [f1] [false] 3 0 f1 (Some ["g_g0"]) None 1 None None
                    (mkPublisher None []).
Definition group : FinalizedGroup := match run.2 with Ok group => group | Raise _ => dropped_group 0 0 "" [] end.
Lemma row_run_eq : run = (run.1, Ok group).
Proof. vm_compute. reflexivity. Qed.

Lemma row_witness : exists values ts, PutSamples ["g_g0"] "train" values ts ∈ effects run.1
  /\ kv_get "sample_mask" values = Some (vector Float32 [1065353216]).
Proof.
  destruct (each_rollout_is_published self promoted fine "g" ["run"] [stored "run"] [f1] [false] 3 0 f1 (Some ["g_g0"]) 1 None None
              (mkPublisher None []) run.1 group row_run_eq eq_refl)
    as (rows & values & ts & m & Hrows & Hlen & Hput & _ & _ & _ & _ & _ & Hw & _).
  exists values, ts. split; [exact Hput|]. rewrite Hw.
  apply Forall2_cons_inv_l in Hrows as (row & rest & Hrow & Hrest & ->). apply Forall2_nil_inv_l in Hrest as ->.
  destruct Hrow as ([[x y]|] & d' & Hrow); vm_compute in Hrow; injection Hrow as _ <-; vm_compute; reflexivity.
Defined.
End Demo.
