(* ===== verification/ForestPublish.v ===== *)
(** * The published rows of a forest group

    What [RolloutReassembler._publish_rows] adds for forest groups: execution
    padding, borrowed inputs, and the owner tags, which
    [validate_logical_owner_metadata] of [data_plane/logical_owners.py] demands of
    what a training step is given. *)

From stdpp Require Import pretty.
From S2P Require Import Prelude.
From S2P Require Import PyVal.
From S2P Require Import PyStr.
From S2P Require Import StateErr.
From S2P Require Import Recovery.
From S2P Require Import ForestPlan.
From S2P Require Import Rewards.
From S2P Require Import Media.
From S2P Require Import DataPlaneMeta.
From S2P Require Import LogicalOwners.
From S2P Require Import Wire.
From S2P Require Import Reassembler.
From S2P Require Import LogicalRows.
From S2P Require Import Publish.
From S2P Require Import PublishedRows.
#[local] Open Scope string_scope.
#[local] Open Scope Z_scope.

(** ** Tags that validate *)

(** The tags of owners with [counts] segments each, in slot order. *)
Definition owner_tags (group : string) (slot c : nat) : list RowTag :=
  (fun k => mkRowTag group (Some (Z.of_nat slot, Z.of_nat k, Z.of_nat c))) <$> seq 0 c.
Fixpoint owners_from (group : string) (slot : nat) (counts : list nat) : list RowTag :=
  match counts with [] => [] | c :: counts => (owner_tags group slot c ++ owners_from group (S slot) counts)%list end.
(** The rows of each slot. *)
Fixpoint slots_from (slot start : nat) (counts : list nat) : slots :=
  match counts with [] => [] | c :: counts => (Z.of_nat slot, seq start c) :: slots_from (S slot) (start + c) counts end.

Lemma add_row_new slot row s : slot ∉ s.*1 -> add_row slot row s = (s ++ [(slot, [row])])%list.
Proof.
  induction s as [|[k l] s IH]; [done|]. cbn [fmap list_fmap fst add_row]. intros [Hk Hs]%not_elem_of_cons.
  rewrite (proj2 (Z.eqb_neq k slot)) by congruence. by rewrite IH.
Qed.

Lemma add_row_last slot row l s : slot ∉ s.*1 -> add_row slot row (s ++ [(slot, l)])%list = (s ++ [(slot, (l ++ [row])%list)])%list.
Proof.
  induction s as [|[k l'] s IH]; cbn [app add_row]; [by rewrite Z.eqb_refl|]. cbn [fmap list_fmap fst]. intros [Hk Hs]%not_elem_of_cons.
  rewrite (proj2 (Z.eqb_neq k slot)) by congruence. by rewrite IH.
Qed.

Abbreviation note_row := (fun (g : groups) (r : nat * RowTag) => add_tag r.1 r.2 g) (only parsing).

Lemma note_tag row group slot k c s :
  add_tag row (mkRowTag group (Some (slot, k, c))) [(group, s)] = [(group, add_row slot row s)].
Proof. unfold add_tag. cbn. by rewrite decide_True. Qed.

(** Before the first row there is no group; after it there is one. *)
Definition one_group (group : string) (s : slots) : groups := match s with [] => [] | _ => [(group, s)] end.

Lemma note_first row group slot k c s : slot ∉ s.*1 ->
  add_tag row (mkRowTag group (Some (slot, k, c))) (one_group group s) = [(group, (s ++ [(slot, [row])])%list)].
Proof.
  intros Hs. destruct s as [|kv s]; [done|]. unfold one_group. by rewrite note_tag, add_row_new.
Qed.

Lemma note_rest group slot (c : Z) s n : forall j start l, slot ∉ s.*1 ->
  foldl note_row [(group, (s ++ [(slot, l)])%list)] (zip (seq start n) ((fun k => mkRowTag group (Some (slot, Z.of_nat k, c))) <$> seq j n))
  = [(group, (s ++ [(slot, (l ++ seq start n)%list)])%list)].
Proof.
  induction n as [|n IH]; intros j start l Hs; cbn [seq fmap list_fmap zip_with foldl]; [by rewrite app_nil_r|].
  cbn [fst snd]. rewrite note_tag, add_row_last by done. rewrite IH by done. by rewrite <- app_assoc.
Qed.

Lemma note_owner group (slot c start : nat) s : Z.of_nat slot ∉ s.*1 -> (0 < c)%nat ->
  foldl note_row (one_group group s) (zip (seq start c) (owner_tags group slot c)) = one_group group (s ++ [(Z.of_nat slot, seq start c)])%list.
Proof.
  intros Hs Hc. destruct c as [|c]; [lia|]. unfold owner_tags. cbn [seq fmap list_fmap zip_with foldl fst snd].
  rewrite note_first by done. rewrite note_rest by done. by destruct s.
Qed.

Lemma slots_from_keys slot start counts : (slots_from slot start counts).*1 = Z.of_nat <$> seq slot (length counts).
Proof. revert slot start. induction counts as [|c counts IH]; intros slot start; [done|]. cbn. by rewrite IH. Qed.

Lemma note_owners group counts : forall slot start s, Forall (fun c => (0 < c)%nat) counts ->
  (forall i, (slot <= i)%nat -> Z.of_nat i ∉ s.*1) ->
  foldl note_row (one_group group s) (zip (seq start (list_sum counts)) (owners_from group slot counts))
  = one_group group (s ++ slots_from slot start counts)%list.
Proof.
  induction counts as [|c counts IH]; intros slot start s Hc Hs; [by rewrite app_nil_r|]. apply Forall_cons in Hc as [Hc Hcs].
  cbn [list_sum foldr owners_from slots_from]. change (foldr Nat.add 0%nat counts) with (list_sum counts).
  rewrite seq_app, zip_with_app by (unfold owner_tags; by rewrite length_fmap, !length_seq). rewrite foldl_app, note_owner by auto.
  rewrite IH; [by rewrite <- app_assoc|done|]. intros i Hi. rewrite fmap_app, not_elem_of_app. split; [apply Hs; lia|].
  cbn. rewrite list_elem_of_singleton. lia.
Qed.

Lemma note_padding group s start n : s <> [] ->
  foldl note_row (one_group group s) (zip (seq start n) (replicate n (mkRowTag group None))) = one_group group s.
Proof.
  intros Hs. revert start. induction n as [|n IH]; intros start; [done|]. cbn [seq replicate zip_with foldl fst snd].
  assert (add_tag start (mkRowTag group None) (one_group group s) = one_group group s) as ->; [|by apply IH].
  destruct s; [done|]. unfold add_tag. cbn. by rewrite decide_True.
Qed.

Lemma owner_loop_total gsize rows rts g : Forall2 (fun r rt => check_row gsize r.2.1 r.2.2 = Ok rt) rows rts ->
  owner_loop gsize rows g = Ok (foldl note_row g (zip rows.*1 rts), rts).
Proof.
  intros Hf. revert g. induction Hf as [|[row [sid t]] rt rows rts Hr _ IH]; intros g; [done|]. cbn [owner_loop].
  cbn [fst snd] in Hr. rewrite Hr. cbn [mbind res_bind]. rewrite IH. done.
Qed.

Lemma is_range_seq n : is_range (Z.of_nat n) (Z.of_nat <$> seq 0 n) = true.
Proof.
  unfold is_range. apply andb_true_iff. split; apply forallb_forall.
  - intros x (i & -> & Hi%elem_of_seq)%list_elem_of_In%list_elem_of_fmap. lia.
  - intros i Hi. apply existsb_exists. exists (Z.of_nat i). split; [|apply Z.eqb_refl]. rewrite Nat2Z.id in Hi.
    apply list_elem_of_In, list_elem_of_fmap. exists i. split; [done|]. by apply list_elem_of_In.
Qed.

Lemma owners_from_length group slot counts : length (owners_from group slot counts) = list_sum counts.
Proof.
  revert slot. induction counts as [|c counts IH]; intros slot; [done|]. cbn. unfold owner_tags. rewrite length_app, length_fmap, length_seq, IH. done.
Qed.

Lemma owners_from_lookup group counts : forall slot start p, Forall (fun c => (0 < c)%nat) counts ->
  p ∈ slots_from slot start counts -> exists i j c, p = (Z.of_nat i, seq (start + j) c) /\ (0 < c)%nat
    /\ forall k, (k < c)%nat -> owners_from group slot counts !! (j + k)%nat = Some (mkRowTag group (Some (Z.of_nat i, Z.of_nat k, Z.of_nat c))).
Proof.
  induction counts as [|c counts IH]; intros slot start p Hc; [by intros ?%elem_of_nil|]. apply Forall_cons in Hc as [Hc Hcs].
  cbn [slots_from owners_from]. intros [->|Hp]%elem_of_cons.
  - exists slot, 0%nat, c. rewrite Nat.add_0_r. split_and!; [done|done|]. intros k Hk. unfold owner_tags.
    rewrite lookup_app_l by (by rewrite length_fmap, length_seq). rewrite list_lookup_fmap, lookup_seq_lt by done. done.
  - destruct (IH (S slot) (start + c)%nat p Hcs Hp) as (i & j & c' & -> & Hc' & Hk). exists i, (c + j)%nat, c'.
    split_and!; [by rewrite Nat.add_assoc|done|]. intros k Hlt. unfold owner_tags.
    rewrite lookup_app_r; rewrite length_fmap, length_seq; [|lia]. replace (c + j + k - c)%nat with (j + k)%nat by lia. by apply Hk.
Qed.

Lemma check_slot_block rts (j c : nat) (slot : Z) group : (0 < c)%nat ->
  (forall k, (k < c)%nat -> rts !! (j + k)%nat = Some (mkRowTag group (Some (slot, Z.of_nat k, Z.of_nat c)))) ->
  check_slot rts (seq j c) = Ok tt.
Proof.
  intros Hc Hk. unfold check_slot.
  assert (omap (fun r => rt ← rts !! r; owner rt) (seq j c) = (fun k => (slot, Z.of_nat k, Z.of_nat c)) <$> seq 0 c) as ->.
  { replace (seq j c) with ((fun k => j + k)%nat <$> seq 0 c) by (rewrite fmap_add_seq; f_equal; lia).
    assert (forall l, Forall (fun k => (k < c)%nat) l -> omap (fun r => rt ← rts !! r; owner rt) ((fun k => j + k)%nat <$> l)
              = (fun k => (slot, Z.of_nat k, Z.of_nat c)) <$> l) as Hl; [|apply Hl, Forall_forall; intros k ?%elem_of_seq; lia].
    induction 1 as [|k l Hlt _ IH]; [done|]. cbn [fmap list_fmap omap list_omap]. rewrite (Hk k Hlt). cbn [mbind option_bind owner]. f_equal. exact IH. }
  rewrite length_seq, <- !list_fmap_compose.
  change (((fun s : Z * Z * Z => s.1.2) ∘ (fun k : nat => (slot, Z.of_nat k, Z.of_nat c)))) with Z.of_nat. rewrite is_range_seq, andb_true_r.
  assert (is_singleton (Z.of_nat c) (((fun s : Z * Z * Z => s.2) ∘ (fun k : nat => (slot, Z.of_nat k, Z.of_nat c))) <$> seq 0 c) = true) as ->; [|done].
  unfold is_singleton. destruct c as [|c]; [lia|]. cbn [seq fmap list_fmap]. apply forallb_forall.
  intros x [->|(k & -> & _)%list_elem_of_fmap]%list_elem_of_In%elem_of_cons; apply Z.eqb_refl.
Qed.

(** Tags of a whole group of owners, with padding, are what a training step
    demands. *)
Lemma owners_validate m ts group counts pads : tags m = Some ts -> length ts = size m -> NoDup (sample_ids m) ->
  Forall2 (fun r rt => check_row (Z.of_nat (length counts)) r.1 r.2 = Ok rt) (zip (sample_ids m) ts)
    (owners_from group 0 counts ++ replicate pads (mkRowTag group None)) ->
  counts <> [] -> Forall (fun c => (0 < c)%nat) counts ->
  validate_logical_owner_metadata m (Z.of_nat (length counts)) = Ok [(group, slots_from 0 0 counts)].
Proof.
  intros Hts Hlen Hnd Hrows Hne Hc. unfold validate_logical_owner_metadata. rewrite Hts, Hlen, Nat.eqb_refl, bool_decide_true by done.
  cbn [negb orb raise_if mbind res_bind].
  set (rts := (owners_from group 0 counts ++ replicate pads (mkRowTag group None))%list) in *.
  set (rws := zip (sample_ids m) ts) in *. pose proof (Forall2_length _ _ _ Hrows) as Hl.
  assert (Forall2 (fun r rt => check_row (Z.of_nat (length counts)) r.2.1 r.2.2 = Ok rt) (enumerate rws) rts) as Hall.
  { apply Forall2_same_length_lookup. split; [by rewrite length_enumerate|]. intros i [j r] rt Hi Hrt. unfold enumerate in Hi.
    rewrite lookup_enumerate_from in Hi. destruct (rws !! i) as [r'|] eqn:Er; [|done]. injection Hi as _ <-.
    exact (Forall2_lookup_lr _ _ _ _ _ _ Hrows Er Hrt). }
  rewrite (owner_loop_total _ _ _ _ Hall), enumerate_fst, Hl. unfold rts. rewrite length_app, length_replicate, seq_app, owners_from_length.
  rewrite zip_with_app by (by rewrite owners_from_length, length_seq). rewrite foldl_app.
  assert (foldl note_row [] (zip (seq 0 (list_sum counts)) (owners_from group 0 counts)) = one_group group (slots_from 0 0 counts)) as ->
    by (apply (note_owners group counts 0 0 []); [done|by intros i _ ?%elem_of_nil]).
  assert (slots_from 0 0 counts <> []) as Hs by (by destruct counts). rewrite note_padding by done.
  assert (one_group group (slots_from 0 0 counts) = [(group, slots_from 0 0 counts)]) as -> by (by destruct (slots_from 0 0 counts)).
  cbn [fmap list_fmap snd for_each mbind res_bind]. unfold check_group. rewrite slots_from_keys, is_range_seq. cbn [negb raise_if mbind res_bind].
  assert (for_each (check_slot (owners_from group 0 counts ++ replicate pads (mkRowTag group None))%list) (slots_from 0 0 counts).*2 = Ok tt) as ->; [|done].
  apply for_each_Ok, Forall_fmap, Forall_forall. intros p Hp. destruct (owners_from_lookup group counts 0 0 p Hc Hp) as (i & j & c & -> & Hc' & Hk).
  cbn. apply (check_slot_block _ j c (Z.of_nat i) group Hc'). intros k Hlt. apply lookup_app_l_Some. by apply Hk.
Qed.

(** ** Row ids are distinct *)

Lemma pretty_N_go_digits x : forall s, all_chars is_digit s = true -> all_chars is_digit (pretty_N_go x s) = true.
Proof.
  induction (N.lt_wf_0 x) as [x _ IH]; intros s Hs. destruct (decide (x = 0)%N) as [->|Hne]; [done|].
  rewrite pretty_N_go_step by lia. apply IH; [apply N.div_lt; lia|]. cbn [all_chars]. rewrite Hs, andb_true_r.
  unfold pretty_N_char. by repeat case_match.
Qed.

Lemma pretty_digits n : all_chars is_digit (pretty (Z.of_nat n)) = true.
Proof.
  destruct n as [|n]; [done|]. change (pretty (Z.of_nat (S n))) with (pretty (N.pos (Pos.of_succ_nat n))).
  unfold pretty, pretty_N. rewrite decide_False by done. by apply pretty_N_go_digits.
Qed.

(** Two runs of digits followed by a separator are the same up to it. *)
Lemma digits_end c (a b x y : string) : is_digit c = false -> all_chars is_digit a = true -> all_chars is_digit b = true ->
  a +:+ String c x = b +:+ String c y -> a = b /\ x = y.
Proof.
  intros Hc. revert b. induction a as [|d a IH]; intros [|e b] Ha Hb Heq.
  - change (String c x = String c y) in Heq. split; [done|]. by injection Heq.
  - change (String c x = String e b +:+ String c y) in Heq. rewrite string_app_cons in Heq. injection Heq as <- _.
    cbn [all_chars] in Hb. by rewrite Hc in Hb.
  - change (String d a +:+ String c x = String c y) in Heq. rewrite string_app_cons in Heq. injection Heq as -> _. cbn [all_chars] in Ha. by rewrite Hc in Ha.
  - rewrite !string_app_cons in Heq. injection Heq as -> Heq. cbn [all_chars] in Ha, Hb. apply andb_true_iff in Ha as [_ Ha], Hb as [_ Hb].
    destruct (IH b Ha Hb Heq) as [-> ->]. done.
Qed.

Lemma of_nat_pretty_inj i j : pretty (Z.of_nat i) = pretty (Z.of_nat j) -> i = j.
Proof. intros H%(inj pretty). lia. Qed.

(** The id of a segment, and of a padding row. *)
Definition segment_name (group : string) (i k : nat) : string := forest_segment_id (owner_id group (Z.of_nat i)) (Z.of_nat k).
Definition padding_name (group : string) (i : nat) : string := group +:+ "_pad" +:+ pretty (Z.of_nat i).

Lemma segment_name_inj group i k i' k' : segment_name group i k = segment_name group i' k' -> i = i' /\ k = k'.
Proof.
  unfold segment_name, forest_segment_id, owner_id. rewrite !string_append_assoc.
  intros H%string_append_inj_l%string_append_inj_l. rewrite !string_app_cons in H.
  apply digits_end in H as [Hi Hk]; [|done|apply pretty_digits|apply pretty_digits]. injection Hk as Hk. split; by apply of_nat_pretty_inj.
Qed.

Lemma padding_name_inj group i j : padding_name group i = padding_name group j -> i = j.
Proof. unfold padding_name. intros H%string_append_inj_l%string_append_inj_l. by apply of_nat_pretty_inj. Qed.

Lemma segment_not_padding group i k j : segment_name group i k <> padding_name group j.
Proof.
  unfold segment_name, padding_name, forest_segment_id, owner_id. rewrite !string_append_assoc.
  intros H%string_append_inj_l. rewrite !string_app_cons in H. injection H as H. discriminate.
Qed.

Fixpoint segment_names (group : string) (slot : nat) (counts : list nat) : list string :=
  match counts with [] => [] | c :: counts => ((segment_name group slot <$> seq 0 c) ++ segment_names group (S slot) counts)%list end.

Lemma elem_of_segment_names group slot counts s : s ∈ segment_names group slot counts -> exists i k, s = segment_name group i k /\ (slot <= i)%nat.
Proof.
  revert slot. induction counts as [|c counts IH]; intros slot; [by intros ?%elem_of_nil|]. cbn [segment_names].
  intros [(k & -> & _)%list_elem_of_fmap|Hs]%elem_of_app; [by exists slot, k|]. destruct (IH _ Hs) as (i & k & -> & Hi). exists i, k. split; [done|lia].
Qed.

Lemma segment_names_NoDup group slot counts : NoDup (segment_names group slot counts).
Proof.
  revert slot. induction counts as [|c counts IH]; intros slot; [constructor|]. cbn [segment_names]. apply NoDup_app. split_and!; [| |apply IH].
  - apply NoDup_fmap_2_strong; [|apply NoDup_seq]. by intros k k' _ _ [_ ?]%segment_name_inj.
  - intros s (k & -> & _)%list_elem_of_fmap (i & k' & [-> _]%segment_name_inj & Hi)%elem_of_segment_names. lia.
Qed.

Lemma planned_names group counts multiple planned :
  forest_row_ids group ((fun i => owner_id group (Z.of_nat i)) <$> seq 0 (length counts)) (Z.of_nat <$> counts) multiple = Ok planned ->
  let n := list_sum counts in let pads := Z.to_nat ((- Z.of_nat n) mod multiple) in
  1 <= multiple /\ planned = (segment_names group 0 counts ++ (padding_name group <$> seq 0 pads))%list
  /\ length planned = (n + pads)%nat /\ (multiple | Z.of_nat (length planned)) /\ NoDup planned.
Proof.
  intros Hf n pads. unfold forest_row_ids in Hf. apply bind_Ok in Hf as (? & Hm%raise_if_Ok & (? & _ & [= <-])%bind_Ok).
  assert (forall slot, concat (zip_with (fun owner count => (fun i => forest_segment_id owner (Z.of_nat i)) <$> seq 0 (Z.to_nat count))
            ((fun i => owner_id group (Z.of_nat i)) <$> seq slot (length counts)) (Z.of_nat <$> counts)) = segment_names group slot counts) as Hreal.
  { induction counts as [|c counts IH]; intros slot; [done|]. cbn [length seq fmap list_fmap zip_with concat segment_names]. by rewrite Nat2Z.id, <- IH. }
  assert (forall slot, length (segment_names group slot counts) = n) as Hlen.
  { unfold n. clear. induction counts as [|c counts IH]; intros slot; [done|]. cbn. rewrite length_app, length_fmap, length_seq, IH. done. }
  rewrite Hreal, Hlen. fold n pads.
  split; [lia|]. split; [done|]. rewrite length_app, length_fmap, length_seq, Hlen. split; [done|]. split.
  - unfold pads. rewrite Nat2Z.inj_add, Z2Nat.id by (apply Z.mod_pos_bound; lia). apply Z.mod_divide; [lia|].
    rewrite Zplus_mod_idemp_r. by rewrite Z.add_opp_diag_r.
  - apply NoDup_app. split_and!; [apply segment_names_NoDup| |apply NoDup_fmap_2_strong; [|apply NoDup_seq]; by intros i j _ _ ?%padding_name_inj].
    intros s (i & k & -> & _)%elem_of_segment_names (j & Hj & _)%list_elem_of_fmap. by apply segment_not_padding in Hj.
Qed.

(** ** What the tags say *)

Lemma has_key_get k t : has_key k t = bool_decide (is_Some (dict_get k t)).
Proof.
  unfold has_key, dict_get. induction t as [|kv t IH]; [done|]. cbn [existsb List.find]. destruct (is_str k kv.1); [done|]. exact IH.
Qed.

Lemma check_row_ext n sid t t' : (forall k, k ∈ OWNER_TAGS -> dict_get k t' = dict_get k t) -> check_row n sid t' = check_row n sid t.
Proof.
  intros Hk. unfold check_row.
  assert (forallb (fun s => has_key s t') OWNER_TAGS = forallb (fun s => has_key s t) OWNER_TAGS) as ->.
  { assert (forall l, l ⊆ OWNER_TAGS -> forallb (fun s => has_key s t') l = forallb (fun s => has_key s t) l) as Hl; [|by apply Hl].
    induction l as [|k l IH]; intros Hsub; [done|]. cbn [forallb]. rewrite !has_key_get, Hk by (apply Hsub; left). rewrite IH; [done|].
    intros x Hx. apply Hsub. by right. }
  unfold dict_index. rewrite !Hk by (by apply (bool_decide_unpack _)). done.
Qed.

(** A published tag keeps what the owner's tag says. *)
Definition keeps_tag (t t' : tag) : Prop := forall k, k ∈ OWNER_TAGS -> dict_get k t' = dict_get k t.

Lemma published_tag pre v t ks : str_keys t ks -> (forall k, k ∈ OWNER_TAGS -> is_Some (dict_get k t)) ->
  keeps_tag t (dict_update pre (dict_set "uses_borrowed_input" v t)).
Proof.
  intros Hks Hsome k Hk. destruct (dict_set_keys "uses_borrowed_input" v t ks Hks) as [ks' Hks']. rewrite (dict_update_get _ _ _ _ Hks').
  rewrite dict_get_set, decide_False.
  - destruct (Hsome k Hk) as [w ->]. done.
  - intros <-. revert Hk. by apply (bool_decide_unpack _).
Qed.

Section group.
Context (group : string) (n : nat).

(** What a row's owner tag is, by what it says. *)
Definition says (t : tag) (rt : RowTag) : Prop :=
  match owner rt with
  | Some (slot, seg, count) => (exists owned segment, t = row_tag group (owner_id group slot) slot (Z.of_nat n) seg count owned segment)
      /\ 0 <= slot < Z.of_nat n /\ 0 <= seg < count
  | None => t = padding_tag group n
  end /\ dispatch_group_id rt = group.

Definition names (sid : string) (rt : RowTag) : Prop :=
  match owner rt with Some (slot, seg, _) => sid = forest_segment_id (owner_id group slot) seg | None => True end.

Lemma says_keys t rt : says t rt -> (exists ks, str_keys t ks) /\ forall k, k ∈ OWNER_TAGS -> is_Some (dict_get k t).
Proof.
  unfold says. destruct (owner rt) as [[[slot seg] count]|].
  - intros [((owned & segment & ->) & _) _]. split.
      exists ["dispatch_group_id"; "logical_rollout_id"; "logical_slot"; "logical_group_size"; "segment_index"; "segment_count"; "is_execution_padding";
              "num_invalid_tool_calls"; "num_malformed_thinking"; "num_assistant_messages"]. split; [reflexivity|]. by apply (bool_decide_unpack _).
    + apply Forall_forall. repeat constructor; by eexists.
  - intros [-> _]. split.
    + exists ["dispatch_group_id"; "logical_rollout_id"; "logical_slot"; "logical_group_size"; "segment_index"; "segment_count"; "is_execution_padding";
              "num_invalid_tool_calls"; "num_malformed_thinking"; "num_assistant_messages"]. split; [reflexivity|]. by apply (bool_decide_unpack _).
    + apply Forall_forall. repeat constructor; by eexists.
Qed.

Lemma says_checks t t' rt sid : group <> "" -> says t rt -> names sid rt -> keeps_tag t t' -> check_row (Z.of_nat n) sid t' = Ok rt.
Proof.
  intros Hg Hs Hn Hk. rewrite (check_row_ext _ _ _ _ Hk). destruct rt as [g o]. unfold says, names in *. cbn [owner dispatch_group_id] in *.
  destruct o as [[[slot seg] count]|].
  - destruct Hs as [((owned & segment & ->) & Hslot & Hseg) ->]. subst sid. by apply row_tag_checks.
  - destruct Hs as [-> ->]. unfold check_row, padding_tag. cbn -[Z.eqb bool_decide]. rewrite bool_decide_false, Z.eqb_refl by done. done.
Qed.

(** The tags of the blocks of all owners. *)
Definition block_says (slot : nat) (b : LogicalRows) : Prop :=
  (slot < n)%nat /\ row_tags b <> [] /\ forall k t, row_tags b !! k = Some t -> exists owned segment,
    t = row_tag group (owner_id group (Z.of_nat slot)) (Z.of_nat slot) (Z.of_nat n) (Z.of_nat k) (Z.of_nat (length (row_tags b))) owned segment.

Lemma blocks_say bs : forall slot, (forall j b, bs !! j = Some b -> block_says (slot + j) b) ->
  let counts := (fun b => length (row_tags b)) <$> bs in
  Forall2 says (concat (row_tags <$> bs)) (owners_from group slot counts) /\ Forall2 names (segment_names group slot counts) (owners_from group slot counts)
  /\ Forall (fun c => (0 < c)%nat) counts /\ segment_counts (concat (row_tags <$> bs)) = Ok (Z.of_nat <$> counts).
Proof.
  induction bs as [|b bs IH]; intros slot Hbs counts; [by repeat constructor|].
  destruct (Hbs 0%nat b eq_refl) as (Hslot & Hne & Ht). rewrite Nat.add_0_r in *.
  destruct (IH (S slot)) as (H1 & H2 & H3 & H4). { intros j b' Hj. replace (S slot + j)%nat with (slot + S j)%nat by lia. by apply Hbs. }
  cbn [fmap list_fmap concat owners_from segment_names counts]. split_and!.
  - apply Forall2_app; [|done]. apply Forall2_same_length_lookup. unfold owner_tags. rewrite length_fmap, length_seq. split; [done|].
    intros k t rt Hk (j & -> & [-> Hlt]%lookup_seq)%list_lookup_fmap_Some. split; [|done]. split; [by apply Ht|]. lia.
  - apply Forall2_app; [|done]. unfold owner_tags. apply Forall2_fmap_l, Forall2_fmap_r, Forall_Forall2_diag, Forall_forall. done.
  - constructor; [|done]. destruct (row_tags b); [done|cbn; lia].
  - destruct (row_tags b) as [|t0 ts] eqn:Eb; [done|]. destruct (Ht 0%nat t0 eq_refl) as (o0 & s0 & ->). rewrite <- app_comm_cons. cbn [segment_counts].
    assert (forall l j rest, (0 < j)%nat -> (forall k t, l !! k = Some t -> exists c owned segment,
        t = row_tag group (owner_id group (Z.of_nat slot)) (Z.of_nat slot) (Z.of_nat n) (Z.of_nat (j + k)) c owned segment) ->
        segment_counts (l ++ rest)%list = segment_counts rest) as Hskip.
    { clear. induction l as [|t l IHl]; intros j rest Hj Hl; [done|]. cbn [app segment_counts]. destruct (Hl 0%nat t eq_refl) as (c & o & s & ->).
      change (first_segment (row_tag _ _ _ _ _ _ _ _)) with (Ok (Z.of_nat (j + 0) =? 0)). rewrite (proj2 (Z.eqb_neq _ 0)) by lia.
      cbn [mbind res_bind]. rewrite (IHl (S j)); [by destruct (segment_counts rest)|lia|]. intros k t Hk. replace (S j + k)%nat with (j + S k)%nat by lia. by apply Hl. }
    rewrite (Hskip ts 1%nat); [|lia|intros k t Hk; destruct (Ht (S k) t Hk) as (o & s & ->); by eexists _, _, _].
    cbn in H4 |- *. rewrite H4. done.
Qed.
End group.

(** ** The rows of the blocks *)

Lemma logical_rows_canonical `{TokenSource} self group_id rollout_ids segments rewards mask ids receipts checks dims dims' out :
  _finalize_logical_rows self group_id rollout_ids segments rewards mask ids receipts checks dims = (dims', Ok out) ->
  rollout_ids <> [] /\ length segments = length rollout_ids /\ ids = (fun i => owner_id group_id (Z.of_nat i)) <$> seq 0 (length rollout_ids).
Proof.
  unfold _finalize_logical_rows. intros (d1 & [] & [-> Hn]%guard_Ok & Hf)%se_bind_Ok. apply orb_false_iff in Hn as [Hn%Nat.eqb_neq Hsg%negb_false_iff%Nat.eqb_eq].
  apply se_bind_Ok in Hf as (d2 & [] & [-> Hids%negb_false_iff%bool_decide_eq_true]%guard_Ok & _). split; [by intros ->|done].
Qed.

Section blocks.
Context `{TokenSource} (self : RolloutReassembler) (group_id : string) (rollout_ids : list string) (segments : list (list SegmentReceipt)) (rewards : list float) (mask : list bool).
Context (l : LogicalRows) (bs : list LogicalRows) (Hb : group_blocks self group_id rollout_ids segments rewards mask l bs).

(** How many segments each owner has. *)
Definition block_counts : list nat := (fun b => length (row_tags b)) <$> bs.

Lemma blocks_of_tags j b : bs !! j = Some b -> block_says group_id (length rollout_ids) j b.
Proof.
  intros Hj. destruct (gb_blocks _ _ _ _ _ _ _ _ Hb j b Hj) as (e & sg & rw & m & s1 & s2 & He & _ & _ & _ & Hne & Hbl).
  destruct (ob_tags _ _ _ _ _ _ _ _ _ _ _ _ Hbl) as [Hl Ht]. split; [by eapply lookup_lt_Some|]. split; [destruct sg; [done|by destruct (row_tags b)]|].
  intros k t Hk. destruct (Ht k t Hk) as (owned & segment & _ & ->). rewrite Hl. by eexists _, _.
Qed.

Lemma blocks_say_all :
  Forall2 (says group_id (length rollout_ids)) (row_tags l) (owners_from group_id 0 block_counts)
  /\ Forall2 (names group_id) (segment_names group_id 0 block_counts) (owners_from group_id 0 block_counts)
  /\ Forall (fun c => (0 < c)%nat) block_counts /\ segment_counts (row_tags l) = Ok (Z.of_nat <$> block_counts).
Proof.
  rewrite (gb_tags _ _ _ _ _ _ _ _ Hb). exact (blocks_say group_id (length rollout_ids) bs 0 blocks_of_tags).
Qed.

Lemma block_rows_length : length (rows l) = list_sum block_counts.
Proof.
  rewrite (gb_rows _ _ _ _ _ _ _ _ Hb). unfold block_counts.
  assert (forall b, b ∈ bs -> length (rows b) = length (row_tags b)) as Hlen.
  { intros b [j Hj]%list_elem_of_lookup. destruct (gb_blocks _ _ _ _ _ _ _ _ Hb j b Hj) as (e & sg & rw & m & s1 & s2 & _ & _ & _ & _ & _ & Hbl).
    destruct (ob_tags _ _ _ _ _ _ _ _ _ _ _ _ Hbl) as [Hl _]. rewrite Hl, <- (length_fmap fr_rollout_id), (ob_ids _ _ _ _ _ _ _ _ _ _ _ _ Hbl).
    by rewrite length_fmap, length_seq. }
  clear Hb. induction bs as [|b bs' IH]; [done|]. cbn [fmap list_fmap concat list_sum foldr]. rewrite length_app, Hlen by left.
  f_equal. apply IH. intros b' Hb'. apply Hlen. by right.
Qed.

Lemma block_rows_tags : length (row_tags l) = list_sum block_counts.
Proof. destruct blocks_say_all as (Hs & _). by rewrite (Forall2_length _ _ _ Hs), owners_from_length. Qed.
End blocks.

(** ** A forest group that is published *)

Section forest.
Context `{TokenSource} (self : RolloutReassembler) (promoted : list Tensor -> Tensor) (outcome : effect -> res unit).

(** The input a row is published with. *)
Definition layout_row (dummy row : FinalizedRollout) : FinalizedRollout := if valid row then row else dummy.

Lemma padded_ids layout (names : list string) : fr_rollout_id <$> (padding_row layout <$> names) = names.
Proof. rewrite <- list_fmap_compose. change (fr_rollout_id ∘ padding_row layout) with (@id string). by rewrite list_fmap_id. Qed.

(** What is published: the prepared rows and the padding, of a multiple of rows. *)
Record forest_put (group_id : string) (rollout_ids : list string) (segments : list (list SegmentReceipt)) (rewards : list float)
  (mask : list bool) (multiple : Z) (l : LogicalRows) (bs : list LogicalRows) (dummy : FinalizedRollout)
  (padding : list FinalizedRollout) (ids : list string) (ts : list tag) : Prop := {
  fp_blocks : group_blocks self group_id rollout_ids segments rewards mask l bs;
  fp_dummy : dummy ∈ rows l /\ valid dummy = true;
  fp_padding : padding = padding_row dummy <$> (padding_name group_id <$> seq 0 (length padding));
  fp_count : length padding = Z.to_nat ((- Z.of_nat (length (rows l))) mod multiple);
  fp_multiple : (multiple | Z.of_nat (length (rows l ++ padding)%list));
  fp_ids : ids = fr_rollout_id <$> (rows l ++ padding)%list;
  fp_names : ids = (segment_names group_id 0 (block_counts bs) ++ (padding_name group_id <$> seq 0 (length padding)))%list;
  fp_distinct : NoDup ids;
  fp_tags : exists pre, length pre = length ids /\ ts = zip_with dict_update pre
    (zip_with (fun (row : FinalizedRollout) t => dict_set "uses_borrowed_input" (VBool (negb (valid row))) t) (rows l ++ padding)%list
       (row_tags l ++ replicate (length padding) (padding_tag group_id (length rollout_ids)))%list) }.

Lemma pad_rows_Ok group_id rollout_ids segments rewards mask l bs multiple dummy l' planned :
  group_blocks self group_id rollout_ids segments rewards mask l bs ->
  pad_rows self group_id ((fun i => owner_id group_id (Z.of_nat i)) <$> seq 0 (length rollout_ids)) (length rollout_ids) multiple dummy l = Ok (l', planned) ->
  let pads := Z.to_nat ((- Z.of_nat (length (rows l))) mod multiple) in
  rows l' = (rows l ++ (padding_row dummy <$> (padding_name group_id <$> seq 0 pads)))%list
  /\ row_tags l' = (row_tags l ++ replicate pads (padding_tag group_id (length rollout_ids)))%list
  /\ planned = (segment_names group_id 0 (block_counts bs) ++ (padding_name group_id <$> seq 0 pads))%list
  /\ (multiple | Z.of_nat (length planned)) /\ length planned = (length (rows l) + pads)%nat /\ NoDup planned.
Proof.
  intros Hb Hp pads. unfold pad_rows in Hp. destruct (blocks_say_all _ _ _ _ _ _ _ _ Hb) as (_ & _ & _ & Hc). rewrite Hc in Hp. cbn [mbind res_bind] in Hp.
  apply bind_Ok in Hp as (names & Hn & [= <- <-]). pose proof (block_rows_length _ _ _ _ _ _ _ _ Hb) as Hr.
  assert (length rollout_ids = length (block_counts bs)) as Hlen by (unfold block_counts; rewrite length_fmap; by rewrite (gb_length _ _ _ _ _ _ _ _ Hb)).
  rewrite Hlen in Hn. destruct (planned_names _ _ _ _ Hn) as (_ & Hpl & Hl & Hm & Hnd). rewrite <- Hr in Hl, Hpl. fold pads in Hl, Hpl.
  cbn [rows row_tags]. rewrite Hl. replace (length (rows l) + pads - length (rows l))%nat with pads by lia.
  assert (drop (length (rows l)) names = padding_name group_id <$> seq 0 pads) as ->.
  { rewrite Hpl. apply drop_app_length'. apply (f_equal length) in Hpl. rewrite length_app, length_fmap, length_seq in Hpl. lia. }
  rewrite firstn_all2 by (rewrite length_fmap, length_seq; lia). split_and!; try done. by rewrite <- Hl.
Qed.

Lemma mark_borrowed_Ok rows ts out : mark_borrowed rows ts = Ok out -> length rows = length ts
  /\ out = zip_with (fun (row : FinalizedRollout) t => dict_set "uses_borrowed_input" (VBool (negb (valid row))) t) rows ts.
Proof. unfold mark_borrowed. intros (? & Hl%raise_if_Ok%negb_false_iff%Nat.eqb_eq & [= <-])%bind_Ok. done. Qed.

Lemma forest_rows_put group_id rollout_ids receipts rewards mask fallback prompt_idx loss canonical sel multiple checks contexts g g' group :
  finalize_group self promoted outcome group_id rollout_ids receipts rewards mask fallback prompt_idx loss canonical (Some sel) multiple checks contexts g = (g', Ok group) ->
  dropped group = false ->
  exists r segments l bs dummy padding ids values ts m pre_l,
    gr_group_id r = group_id /\ gr_loss_multiplier r = loss /\ rollout_ids <> [] /\ length segments = length rollout_ids
    /\ _plan_selected_calls receipt_validate receipt_dump gym_staging_key rollout_ids receipts sel = Ok segments
    /\ (exists d d', _finalize_logical_rows self group_id rollout_ids segments rewards mask (default rollout_ids canonical) receipts
          (default (replicate (length rollout_ids) None) checks) d = (d', Ok l))
    /\ forest_put group_id rollout_ids segments rewards mask multiple l bs dummy padding ids ts
    /\ put_rows self r (rows l ++ padding)%list (layout_row dummy <$> (rows l ++ padding)%list) (Some pre_l) ids values ts
    /\ PutSamples ids (Reassembler.partition_id self) values ts ∈ effects g'
    /\ meta group = Some m /\ sample_ids m = ids /\ tags m = Some ts.
Proof.
  intros Hf Hd. apply finalize_group_Ok in Hf as [_ _ (g1 & rws & logical & keys & observed & Hp & Hne & Hpub)].
  unfold prepare_rows in Hp. apply se_bind_Ok in Hp as (g2 & segments & [-> Hplan]%lift_Ok & Hp).
  apply se_bind_Ok in Hp as (g3 & l & (d & Hl & _)%with_dims_Ok & Hp). apply se_bind_Ok in Hp as (g4 & keys' & _ & [-> [= -> -> ->]]%se_ret_Ok).
  destruct (finalize_logical_rows_blocks _ _ _ _ _ _ _ _ _ _ _ _ Hl) as [bs Hb]. destruct (logical_rows_canonical _ _ _ _ _ _ _ _ _ _ _ _ Hl) as (Hnr & Hsgl & Hcan).
  unfold _publish_rows in Hpub. cbn match in Hpub. destruct (List.filter valid (rows l)) as [|dummy others] eqn:Ev.
  { apply se_bind_Ok in Hpub as (? & ? & _ & [_ ->]%se_ret_Ok). discriminate. }
  assert (dummy ∈ rows l /\ valid dummy = true) as Hdummy.
  { assert (In dummy (List.filter valid (rows l))) as Hin by (rewrite Ev; by left). apply filter_In in Hin as [Hin Hv]. by rewrite list_elem_of_In. }
  rewrite <- Ev in Hpub. apply se_bind_Ok in Hpub as (? & [l' planned] & [-> Hpad]%lift_Ok & Hpub). cbn [gr_group_id gr_canonical gr_rollout_ids gr_multiple] in Hpad.
  rewrite Hcan in Hpad. destruct (pad_rows_Ok _ _ _ _ _ _ _ _ _ _ _ Hb Hpad) as (Hrows & Htags & Hpl & Hm & Hlen & Hnd).
  apply se_bind_Ok in Hpub as (? & ts & [-> [Hmk ->]%mark_borrowed_Ok]%lift_Ok & Hpub).
  change (fun row => if valid row then row else dummy) with (layout_row dummy) in Hpub.
  set (pads := Z.to_nat ((- Z.of_nat (length (rows l))) mod multiple)) in *.
  set (padding := padding_row dummy <$> (padding_name group_id <$> seq 0 pads)) in *.
  assert (length padding = pads) as Hpadl by (unfold padding; by rewrite !length_fmap, length_seq).
  destruct (send_rows_put _ _ _ _ _ _ _ _ _ _ _ _ Hpub Hd) as (ids & values & ts & m & Hput & Heff & Hmg & Hmi & Hmt).
  { by rewrite length_fmap. } { cbn. rewrite Hrows. by destruct (rows l). }
  pose proof (pr_ids _ _ _ _ _ _ _ _ Hput) as [pre Hfin]. unfold final_ids in Hfin. cbn [rows row_tags] in Hfin, Hput.
  apply bind_Ok in Hfin as (? & Hids%raise_if_Ok%negb_false_iff%bool_decide_eq_true & (? & Hln%raise_if_Ok%negb_false_iff%Nat.eqb_eq & [= <- <-])%bind_Ok).
  rewrite Hrows, Htags in *. eexists _, segments, l, bs, dummy, padding, _, values, _, m, _.
  split_and!; [| |exact Hnr|exact Hsgl|exact Hplan|by exists (routed_dims g), d| |exact Hput|exact Heff|done|done|done]; [done|done|].
  rewrite Hids. constructor; try done.
  - by rewrite Hpadl.
  - rewrite length_app, Hpadl. by rewrite <- Hlen.
  - rewrite Hpadl. exact Hpl.
  - exists pre. split; [|by rewrite Hpadl]. rewrite Hln, length_zip_with. rewrite Hlen, length_app, length_app, length_replicate, Hpadl in *. lia.
Qed.

(** The tags say of each row which owner's segment it is. *)
Lemma forest_tags_check group_id rollout_ids segments rewards mask multiple l bs dummy padding ids ts : group_id <> "" ->
  forest_put group_id rollout_ids segments rewards mask multiple l bs dummy padding ids ts ->
  length ts = length ids /\
  Forall2 (fun r rt => check_row (Z.of_nat (length rollout_ids)) r.1 r.2 = Ok rt) (zip ids ts)
    (owners_from group_id 0 (block_counts bs) ++ replicate (length padding) (mkRowTag group_id None))%list.
Proof.
  intros Hg [Hb _ _ _ _ Hids Hnm _ (pre & Hpre & Hts)]. destruct (blocks_say_all _ _ _ _ _ _ _ _ Hb) as (Hs & Hn & _ & _).
  set (tgs := (row_tags l ++ replicate (length padding) (padding_tag group_id (length rollout_ids)))%list) in *.
  set (rts := (owners_from group_id 0 (block_counts bs) ++ replicate (length padding) (mkRowTag group_id None))%list).
  assert (Forall2 (says group_id (length rollout_ids)) tgs rts) as Hsays.
  { apply Forall2_app; [exact Hs|]. apply Forall2_replicate. done. }
  assert (Forall2 (names group_id) ids rts) as Hnames.
  { rewrite Hnm. apply Forall2_app; [exact Hn|]. apply Forall2_same_length_lookup. rewrite length_fmap, length_seq, length_replicate. split; [done|].
    by intros i x rt _ [-> _]%lookup_replicate. }
  pose proof (Forall2_length _ _ _ Hsays) as Hl1. pose proof (Forall2_length _ _ _ Hnames) as Hl2.
  assert (length (rows l ++ padding) = length ids) as Hl3 by (by rewrite Hids, length_fmap).
  assert (length ts = length ids) as Hlts by (rewrite Hts, !length_zip_with; unfold tag in *; lia). split; [done|].
  apply Forall2_same_length_lookup. split; [rewrite length_zip_with; lia|]. intros i [sid t] rt Hi Hrt.
  apply lookup_zip_with_Some in Hi as (x & y & [= <- <-] & Hx & Hy). cbn [fst snd].
  rewrite Hts in Hy. apply lookup_zip_with_Some in Hy as (p & q & -> & _ & Hq). apply lookup_zip_with_Some in Hq as (row & t0 & -> & _ & Ht0).
  pose proof (Forall2_lookup_lr _ _ _ _ _ _ Hsays Ht0 Hrt) as Hsay. destruct (says_keys _ _ _ _ Hsay) as [[ks Hks] Hsome].
  eapply says_checks; [done|exact Hsay|exact (Forall2_lookup_lr _ _ _ _ _ _ Hnames Hx Hrt)|]. by eapply published_tag.
Qed.

Lemma block_counts_segments group_id rollout_ids segments rewards mask l bs :
  group_blocks self group_id rollout_ids segments rewards mask l bs -> length segments = length rollout_ids -> block_counts bs = length <$> segments.
Proof.
  intros Hb Hl. apply list_eq. intros i. unfold block_counts. rewrite !list_lookup_fmap. destruct (bs !! i) as [b|] eqn:Eb.
  - destruct (gb_blocks _ _ _ _ _ _ _ _ Hb i b Eb) as (e & sg & rw & m & s1 & s2 & _ & -> & _ & _ & _ & Hbl). cbn.
    by destruct (ob_tags _ _ _ _ _ _ _ _ _ _ _ _ Hbl) as [-> _].
  - apply lookup_ge_None in Eb. rewrite (gb_length _ _ _ _ _ _ _ _ Hb) in Eb. rewrite lookup_ge_None_2 by lia. done.
Qed.

(** Every owner's rows reach the training partition, padded to whole
    execution rows.  The rows of a forest group that is not dropped are the
    prepared rows, one per segment of every owner, then as many padding rows as
    bring their number to a multiple of what is asked, under distinct ids.  A
    verified row is published as its tokens, masks and log-probabilities; a row
    that is not, padding included, borrows the input of a verified row of the
    group, so it has tokens to run on, and a mask of zeros and no weight, so it
    trains nothing. *)
Theorem forest_rows_are_published group_id rollout_ids receipts rewards mask fallback prompt_idx loss canonical sel multiple checks contexts g g' group :
  finalize_group self promoted outcome group_id rollout_ids receipts rewards mask fallback prompt_idx loss canonical (Some sel) multiple checks contexts g = (g', Ok group) ->
  dropped group = false ->
  exists segments l dummy padding values ts m,
    _plan_selected_calls receipt_validate receipt_dump gym_staging_key rollout_ids receipts sel = Ok segments
    /\ (exists d d', _finalize_logical_rows self group_id rollout_ids segments rewards mask (default rollout_ids canonical) receipts
          (default (replicate (length rollout_ids) None) checks) d = (d', Ok l))
    /\ dummy ∈ rows l /\ valid dummy = true
    /\ let all := (rows l ++ padding)%list in let ids := fr_rollout_id <$> all in
       length (rows l) = list_sum (length <$> segments)
    /\ length padding = Z.to_nat ((- Z.of_nat (length (rows l))) mod multiple) /\ (multiple | Z.of_nat (length all))
    /\ Forall (fun row => valid row = false) padding
    /\ NoDup ids /\ PutSamples ids (Reassembler.partition_id self) values ts ∈ effects g'
    /\ meta group = Some m /\ sample_ids m = ids /\ tags m = Some ts
    /\ (forall i row, all !! i = Some row -> lists_agree row ->
          published_as self values i (Some (layout_row dummy row)) (Nat.max 1 (length (token_ids (layout_row dummy row)))) row)
    /\ kv_get "sample_mask" values = Some (vector Float32 ((fun row => if valid row then f32_bits loss else 0) <$> all))
    /\ kv_get "total_reward" values = Some (vector Float32 ((fun row => f32_bits (fr_reward row)) <$> all)).
Proof.
  intros Hf Hd. destruct (forest_rows_put _ _ _ _ _ _ _ _ _ _ _ _ _ _ _ _ Hf Hd)
    as (r & segments & l & bs & dummy & padding & ids & values & ts & m & pl & _ & Hloss & _ & Hsl & Hplan & Hl & Hfp & [_ Hpr Hw Hr] & Hput & Hm & Hmi & Hmt).
  destruct Hfp as [Hb [Hin Hv] Hpad Hcnt Hmul Hids _ Hnd _]. rewrite Hloss in Hw. subst ids.
  exists segments, l, dummy, padding, values, ts, m. cbv zeta. split_and!; try done.
  - rewrite (block_rows_length _ _ _ _ _ _ _ _ Hb). by rewrite (block_counts_segments _ _ _ _ _ _ _ Hb Hsl).
  - rewrite Hpad. apply Forall_fmap, Forall_forall. done.
  - intros i row Hi Hag. apply (Hpr i row (layout_row dummy row)); [done|by rewrite list_lookup_fmap, Hi|done|].
    intros Hvr. unfold layout_row. by rewrite Hvr.
Qed.

End forest.

(** ** A concrete forest
    Calls [b] and [c] both follow [a]: two rows, and two rows of padding. *)
Module Demo.
Import Reassembler.Demo.

Definition a : CallRecord := call "a" None 0 5 7.
Definition b : CallRecord := call "b" (Some "a") 5 3 8.
Definition c : CallRecord := call "c" (Some "a") 5 2 8.
Definition whole : RolloutReceipt := mkReceipt "run" [a; b; c] (Some "c") None false None.
Definition path_to (last : CallRecord) : RolloutReceipt :=
  mkReceipt "run" [a; last] (Some (model_call_id last)) (Some "declared") false None.

Definition whole_receipt : dict :=
  [(VStr "whole", VNone); (VStr "manifest", VList []); (VStr "capture_key", VStr "run");
   (VStr "attempted_call_ids", VList [VStr "a"; VStr "b"; VStr "c"])].

#[export] Instance gym : GymCapture := {|
  Snapshot := link_span;
  snapshot_call_id s := s.1.1;
  receipt_validate v := match v with
                        | VDict ((VStr "whole", _) :: _) => Ok whole
                        | VDict [(VStr "b", _)] => Ok (path_to b)
                        | VDict [(VStr "c", _)] => Ok (path_to c)
                        | _ => Raise ValueError
                        end;
  receipt_build r := Ok r;
  receipt_dump r := [(VStr (default "" (terminal_model_call_id r)), VNone)];
  gym_staging_key v i := Ok ("run/" +:+ i);
  verify_and_linearize parsed l := if links_fine parsed l then Ok (linear l) else Raise RebuildError;
  classify_route_span c g n := Raise ValueError;
  gym_extras_digest_version := 1;
  compute_extras_digest d := Ok "digest";
  sha256 l := "digest";
  json_loads s := Raise ValueError |}.

Definition item (i : string) (carry gen : Z) : FetchedStagedCall :=
  mkFetched gym ("run/" +:+ i) (i, carry, gen) 0 None false false None.
#[export] Instance source : TokenSource := {|
  fetch_for_finalization keys frags tk :=
    traverse (fun k => if String.eqb k "run/a" then Ok (item "a" 2 3) else if String.eqb k "run/b" then Ok (item "b" 1 2)
                       else if String.eqb k "run/c" then Ok (item "c" 1 1) else Raise KeyError) keys;
  fetch_media items := Raise KeyError;
  Occurrences := unit;
  verified_media_items i := Raise ValueError;
  verify_media_geometry o p := Ok tt |}.

Definition self : RolloutReassembler :=
  mkReassembler "train" "staging" 0 8 None None false false false None None None 0.
Definition sel : RolloutSelection := mkSelection ["resp-a"; "resp-b"; "resp-c"] ((fun _ => flag false) <$> [1; 2; 3]) false.
Definition promoted (l : list Tensor) : Tensor := default (mkTensor Float32 [] []) (head l).
Definition fine (e : effect) : res unit := Ok tt.
Definition run := finalize_group self promoted fine "g" ["run"] [Some whole_receipt] [f1] [false] 3 0 f1 (Some ["g_g0"])
                    (Some [sel]) 4 None None (mkPublisher None []).
Definition group : FinalizedGroup := match run.2 with Ok group => group | Raise _ => dropped_group 0 0 "" [] end.
Lemma forest_run_eq : run = (run.1, Ok group).
Proof. vm_compute. reflexivity. Qed.

Lemma published_witness : exists l, length (rows l) = 2%nat /\ exists padding, length padding = 2%nat /\ (4 | Z.of_nat (length (rows l ++ padding)%list)).
Proof.
  destruct (forest_rows_are_published self promoted fine "g" ["run"] [Some whole_receipt] [f1] [false] 3 0 f1 (Some ["g_g0"]) [sel] 4 None None
              (mkPublisher None []) run.1 group forest_run_eq eq_refl)
    as (segments & l & dummy & padding & values & ts & m & Hplan & _ & _ & _ & Hall).
  destruct Hall as (Hlen & Hpad & Hmul & _).
  assert (length (rows l) = 2%nat) as Hl.
  { rewrite Hlen. revert Hplan. vm_compute. by intros [= <-]. }
  exists l. split; [exact Hl|]. exists padding. split; [rewrite Hpad, Hl; reflexivity|exact Hmul].
Defined.

End Demo.
