(* ===== verification/Sharding.v ===== *)
(** * Sharding a batch over data-parallel ranks
    ([BatchedDataDict] of [distributed/batched_data_dict.py])

    [shard_by_batch_size] cuts a batch into chunks, one per optimizer step, and
    each chunk into one part per rank: by ranges; by ranges after sorting by
    length (dynamic batching), where microbatches are planned that are the same on
    every rank; or by the bins of a packer (sequence packing).  [get_batch] and the
    iterators are what a rank reads back.

    A column is the list of its rows: those of a tensor along its batch dimension,
    or the elements of a list.  Jagged tensors and packed media are not modelled
    here (see [PackedTensors] for the latter). *)

From S2P Require Import Prelude.
From S2P Require Import PyVal.
From S2P Require Import PyStr.
From S2P Require Import DataPlaneMeta.
From S2P Require Import LogicalOwners.
From S2P Require Import Packing.
From S2P Require Import PackingMffd.
#[local] Open Scope string_scope.
#[local] Open Scope Z_scope.

(** ** Batches *)

(** A row: of a one-dimensional tensor, of another tensor, or of a list. *)
Inductive cell :=
| Num (z : Z)
| Row (dims data : list Z)
| Obj (v : PyVal).

Inductive col :=
| TensorCol (rows : list cell)
| ListCol (rows : list cell).

Definition rows_of (c : col) : list cell := match c with TensorCol l | ListCol l => l end.
Definition with_rows (c : col) (l : list cell) : col := match c with TensorCol _ => TensorCol l | ListCol _ => ListCol l end.

Abbreviation table := (list (string * col)) (only parsing).

(** A [SlicedDataDict] with its attributes. *)
Record Shard := mkShard {
  sh_data : list (string * col);
  micro_batch_indices : option (list (list (nat * nat)));
  micro_batch_lengths : option (list (list Z));
  elem_counts_per_gb : option (list nat) }.
Definition plain_shard (d : list (string * col)) : Shard := mkShard d None None None.

(** The common size of the columns. *)
Definition batch_rows (b : table) : res nat :=
  match b with
  | [] => Raise AssertionError
  | (_, c) :: rest =>
      let n := length (rows_of c) in
      _ ← raise_if (negb (forallb (fun kv => length (rows_of kv.2) =? n)%nat rest)) AssertionError; Ok n
  end.

(** [v[idx]] of every column. *)
Definition select_rows (idx : list nat) (c : col) : res col := l ← gather (rows_of c) idx; Ok (with_rows c l).
Definition select (idx : list nat) (b : table) : res table := traverse (fun kv => c ← select_rows idx kv.2; Ok (kv.1, c)) b.

Definition column_at (k : string) (b : table) : res col := match kv_get k b with Some c => Ok c | None => Raise KeyError end.

(** [t[i].item()], and an element of a list of lengths. *)
Definition item (c : cell) : res Z :=
  match c with Num z => Ok z | Row _ [z] => Ok z | Row _ _ => Raise RuntimeError | Obj (VInt z) => Ok z | Obj _ => Raise TypeError end.
Definition lengths_of (c : col) : res (list Z) := traverse item (rows_of c).

(** ** Ranges *)

(** [l[i::k]]. *)
Definition every {A} (k i : nat) (l : list A) : list A := omap (fun j => l !! (i + j * k)%nat) (seq 0 (length l)).

(** The rows of one rank: [shard_ranges], written out. *)
Definition shard_range (uneven : bool) (total batch_size shard_size shard chunk : nat) : list nat :=
  let start := (chunk * batch_size + shard * shard_size)%nat in
  let stop := (chunk * batch_size + (shard + 1) * shard_size)%nat in
  let start := if uneven then Nat.min start total else start in
  let stop := if uneven then Nat.min stop total else stop in
  if (start <? stop)%nat then seq start (stop - start) else [].
Definition shard_rows (uneven : bool) (total batch_size shard_size num_chunks shard : nat) : list nat :=
  mjoin ((fun chunk => shard_range uneven total batch_size shard_size shard chunk) <$> seq 0 num_chunks).

(** The sizes, checked: the total, the chunk, the number of chunks and the part
    of a rank. *)
Record Sizes := mkSizes { total_batch_size : nat; chunk_size : nat; num_chunks : nat; shard_size : nat }.
Definition check_sizes (b : table) (shards : nat) (batch_size : option nat) (uneven : bool) : res Sizes :=
  _ ← raise_if (uneven && bool_decide (is_Some batch_size)) AssertionError;
  total ← batch_rows b;
  let size := default total batch_size in
  _ ← raise_if (size =? 0)%nat ZeroDivisionError;
  _ ← raise_if (negb (total mod size =? 0)%nat) AssertionError;
  _ ← raise_if (shards =? 0)%nat ZeroDivisionError;
  _ ← raise_if (negb uneven && negb (size mod shards =? 0)%nat) AssertionError;
  Ok (mkSizes total size (total / size) (if uneven then (size + shards - 1) / shards else size / shards)).

Definition range_shards (uneven : bool) (sz : Sizes) (shards : nat) (b : table) : res (list Shard) :=
  traverse (fun s => d ← select (shard_rows uneven (total_batch_size sz) (chunk_size sz) (shard_size sz) (num_chunks sz) s) b; Ok (plain_shard d))
    (seq 0 shards).

(** ** Dynamic batching *)

Record DynamicBatchingArgs := mkDynamic {
  d_max_tokens_per_microbatch : Z;
  sequence_length_round : Z;
  d_input_key : string;
  d_input_lengths_key : string }.

(** One chunk sorted by length and dealt out to the ranks. *)
Definition sorted_chunk (args : DynamicBatchingArgs) (b : table) (size shards chunk : nat) : res (list nat) :=
  c ← column_at (d_input_lengths_key args) b;
  lens ← lengths_of c;
  let start := (chunk * size)%nat in
  let chunk_seqlens := list_slice start (start + size) lens in
  keyed ← traverse (fun i => z ← get_index chunk_seqlens i; Ok (z, i)) (seq 0 size);
  let idx := (fun p : Z * nat => (p.2 + start)%nat) <$> py_sort (fun a b : Z * nat => a.1 <? b.1) keyed in
  Ok (mjoin ((fun i => every shards i idx) <$> seq 0 shards)).

(** The length of the longest row at this place of any rank. *)
Fixpoint longest_at (shards : list (list Z)) (i : nat) (acc : Z) : res Z :=
  match shards with
  | [] => Ok acc
  | lens :: rest => z ← get_index lens i; longest_at rest i (Z.max acc z)
  end.

Definition round_up (m z : Z) : res Z := _ ← raise_if (m =? 0) ZeroDivisionError; Ok ((z + m - 1) / m * m).

(** The microbatches of a chunk so far, the last one first, and the longest row
    of that one. *)
Record MicroState := mkMicro { mb_done : list (nat * nat * Z); mb_start : nat; mb_end : nat; mb_length : Z; mb_longest : Z }.
Definition micro_step (cap : Z) (st : MicroState) (i : nat) (len : Z) : MicroState :=
  let size := (mb_end st - mb_start st + 1)%nat in
  let longest := Z.max (mb_longest st) len in
  if Z.of_nat size * longest <=? cap
  then mkMicro (mb_done st) (mb_start st) (mb_end st + 1) longest longest
  else mkMicro (mb_done st ++ [(mb_start st, mb_end st, mb_length st)]) i (i + 1) len len.
Definition micro_all (st : MicroState) : list (nat * nat * Z) := (mb_done st ++ [(mb_start st, mb_end st, mb_length st)])%list.

(** A place of the chunk, its length rounded and clamped. *)
Definition place_length (args : DynamicBatchingArgs) (width : Z) (lens : list (list Z)) (i : nat) : res Z :=
  z ← longest_at lens i 0;
  r ← round_up (sequence_length_round args) z;
  let len := Z.min r width in
  _ ← raise_if (negb (len <=? d_max_tokens_per_microbatch args)) AssertionError;
  Ok len.

Fixpoint micro_loop (args : DynamicBatchingArgs) (width : Z) (lens : list (list Z)) (places : list nat) (st : MicroState) : res MicroState :=
  match places with
  | [] => Ok st
  | i :: places =>
      len ← place_length args width lens i;
      micro_loop args width lens places (micro_step (d_max_tokens_per_microbatch args) st i len)
  end.

(** [data[key].shape[1]]. *)
Definition width_of (c : col) : res Z :=
  match c with
  | TensorCol (Row (w :: _) _ :: _) => Ok w
  | TensorCol _ => Raise IndexError
  | ListCol _ => Raise AttributeError
  end.
(** [.item()] is asked of the elements, which those of a list do not have. *)
Definition tensor_lengths (c : col) : res (list Z) := match c with TensorCol _ => lengths_of c | ListCol _ => Raise AttributeError end.

Definition micro_chunk (args : DynamicBatchingArgs) (width : Z) (lens : list (list Z)) (size chunk : nat) : res (list (nat * nat * Z)) :=
  let lens := list_slice (chunk * size) ((chunk + 1) * size) <$> lens in
  st ← micro_loop args width lens (seq 0 size) (mkMicro [] 0 0 0 0);
  Ok (micro_all st).

Definition plan_microbatches (args : DynamicBatchingArgs) (sz : Sizes) (b : table) (shards : list Shard) : res (list (list (nat * nat * Z))) :=
  if (num_chunks sz =? 0)%nat then Ok []
  else
    lens ← traverse (fun s => c ← column_at (d_input_lengths_key args) (sh_data s); tensor_lengths c) shards;
    c ← column_at (d_input_key args) b;
    width ← width_of c;
    traverse (fun chunk => micro_chunk args width lens (shard_size sz) chunk) (seq 0 (num_chunks sz)).

Definition shard_dynamic (args : DynamicBatchingArgs) (uneven : bool) (sz : Sizes) (shards : nat) (b : table) : res (list Shard * list nat) :=
  orders ← traverse (fun chunk => sorted_chunk args b (chunk_size sz) shards chunk) (seq 0 (num_chunks sz));
  let order := mjoin orders in
  data ← select order b;
  parts ← range_shards uneven sz shards data;
  plans ← plan_microbatches args sz data parts;
  let indices := (fun p : list (nat * nat * Z) => p.*1) <$> plans in
  let lengths := (fun p : list (nat * nat * Z) => p.*2) <$> plans in
  Ok ((fun s => mkShard (sh_data s) (Some indices) (Some lengths) None) <$> parts, order).

(** ** Sequence packing *)

Record SequencePackingArgs := mkSeqPacking {
  p_max_tokens_per_microbatch : Z;
  p_input_lengths_key : string;
  p_algorithm : PackingAlgorithm + string;
  microbatch_order : option string;
  sequence_length_pad_multiple : Z;
  pair_grouping_key : option string;
  p_max_sequences_per_bin : option Z }.

(** [group_to_members]. *)
Definition group_members (groups : list Z) : slots := foldl (fun d ig => add_row ig.2 ig.1 d) [] (enumerate groups).
Definition sorted_groups (d : slots) : slots := py_sort (fun a b : Z * list nat => a.1 <? b.1) d.

Section packing.
(** [random.shuffle], at the packing of each chunk. *)
Context (shuffle : nat -> list (Z * nat) -> list (Z * nat)).

(** [bin_packer.pack]. *)
Definition pack_with (k : packer) (chunk : nat) (lens : list Z) : res (list (list nat)) :=
  pack (implementation (shuffle chunk) k) (params k) lens.

(** Pairs are packed as one item each, and the bins expanded to their rows. *)
Definition grouped_bins (k : packer) (cap : Z) (chunk : nat) (padded groups : list Z) : res (list (list nat)) :=
  let members := sorted_groups (group_members groups) in
  group_lengths ← traverse (fun g : Z * list nat => ls ← gather padded g.2; Ok (zsum ls)) members;
  _ ← raise_if (existsb (fun l => cap <? l) group_lengths) ValueError;
  group_bins ← pack_with k chunk group_lengths;
  traverse (fun bin => ms ← gather members bin; Ok (mjoin ms.*2)) group_bins.

(** One chunk: its bins, and the padded lengths of its rows. *)
Definition chunk_bins (args : SequencePackingArgs) (k : packer) (lens : list Z) (groups : option (list Z)) (size chunk : nat)
  : res (list (list nat) * list Z) :=
  padded ← traverse (round_up (sequence_length_pad_multiple args)) (list_slice (chunk * size) ((chunk + 1) * size) lens);
  bins ← match groups with
         | None => pack_with k chunk padded
         | Some groups => grouped_bins k (p_max_tokens_per_microbatch args) chunk padded (list_slice (chunk * size) ((chunk + 1) * size) groups)
         end;
  Ok (bins, padded).

Definition bin_seqlen (padded : list Z) (bin : list nat) : res Z := ls ← gather padded bin; Ok (zsum ls).

(** The bins of one rank, in the order they run. *)
Definition shard_bins (order : option string) (shards shard : nat) (padded : list Z) (bins : list (list nat)) : res (list (list nat * Z)) :=
  keyed ← traverse (fun bin => z ← bin_seqlen padded bin; Ok (bin, z)) (every shards shard bins);
  Ok (if bool_decide (order = Some "largest_first") then py_sort (fun a b : list nat * Z => b.2 <? a.2) keyed else keyed).

(** [[start, end]] of consecutive bins. *)
Fixpoint offsets (start : nat) (bins : list (list nat)) : list (nat * nat) :=
  match bins with [] => [] | bin :: bins => (start, (start + length bin)%nat) :: offsets (start + length bin) bins end.

(** What one rank gets of one chunk. *)
Record ShardChunk := mkShardChunk {
  sc_rows : list nat;
  sc_indices : list (nat * nat);
  sc_lengths : list Z;
  sc_count : nat }.
Definition shard_chunk (order : option string) (shards shard : nat) (start : nat) (padded : list Z) (bins : list (list nat)) : res ShardChunk :=
  keyed ← shard_bins order shards shard padded bins;
  let indices := offsets 0 keyed.*1 in
  count ← match last indices with Some (_, e) => Ok e | None => Raise IndexError end;
  Ok (mkShardChunk ((fun i => (i + start)%nat) <$> mjoin keyed.*1) indices keyed.*2 count).

(** [from_batches] of selections of one batch, whose tensors need no padding. *)
Definition stack_column (k : string) (pieces : list table) : res (string * col) :=
  _ ← raise_if (existsb (fun p : table => bool_decide (kv_get k p = None) && match p with (_, c) :: _ => negb (length (rows_of c) =? 0)%nat | [] => false end)
                  pieces) KeyError;
  match omap (kv_get k) pieces with
  | [] => Raise IndexError
  | c :: cs => Ok (k, with_rows c (mjoin (rows_of <$> c :: cs)))
  end.
Definition from_selected (pieces : list table) : res table :=
  traverse (fun k => stack_column k pieces) (py_sort string_ltb (fromkeys [] (pieces ≫= (fun p : table => p.*1)))).

(** One rank: its pieces are the bins it was given, chunk by chunk. *)
Definition packed_shard (b : table) (order : option string) (size shards shard : nat) (chunks : list (list (list nat) * list Z)) : res (Shard * list nat) :=
  parts ← traverse (fun ic : nat * (list (list nat) * list Z) => shard_chunk order shards shard (ic.1 * size) ic.2.2 ic.2.1) (enumerate chunks);
  pieces ← traverse (fun p => select (sc_rows p) b) parts;
  data ← from_selected pieces;
  Ok (mkShard data (Some (sc_indices <$> parts)) (Some (sc_lengths <$> parts)) (Some (sc_count <$> parts)), mjoin (sc_rows <$> parts)).

Definition known_order (order : option string) : bool :=
  match order with None => true | Some s => String.eqb s "packer" || String.eqb s "largest_first" end.

Definition shard_packed (args : SequencePackingArgs) (sz : Sizes) (shards : nat) (b : table) : res (list Shard * list nat) :=
  _ ← raise_if (negb (known_order (microbatch_order args))) ValueError;
  k ← get_packer (p_algorithm args) (p_max_tokens_per_microbatch args) (Some (Z.of_nat shards)) (Some (Z.of_nat shards))
        (p_max_sequences_per_bin args) None;
  c ← column_at (p_input_lengths_key args) b;
  lens ← lengths_of c;
  groups ← match pair_grouping_key args with
           | None => Ok None
           | Some g => c ← column_at g b; l ← lengths_of c; Ok (Some l)
           end;
  chunks ← traverse (fun chunk => chunk_bins args k lens groups (chunk_size sz) chunk) (seq 0 (num_chunks sz));
  parts ← traverse (fun shard => packed_shard b (microbatch_order args) (chunk_size sz) shards shard chunks) (seq 0 shards);
  Ok (parts.*1, mjoin parts.*2).

(** ** [shard_by_batch_size]

    The second result is [None] where Python returns the shards alone. *)
Inductive batching := NoBatching | Dynamic (args : DynamicBatchingArgs) | Packed (args : SequencePackingArgs).

Definition shard_by_batch_size (b : table) (shards : nat) (batch_size : option nat) (allow_uneven_shards : bool) (mode : batching)
  : res (list Shard * option (list nat)) :=
  sz ← check_sizes b shards batch_size allow_uneven_shards;
  match mode with
  | NoBatching => parts ← range_shards allow_uneven_shards sz shards b; Ok (parts, None)
  | Dynamic args => '(parts, order) ← shard_dynamic args allow_uneven_shards sz shards b; Ok (parts, Some order)
  | Packed args => '(parts, order) ← shard_packed args sz shards b; Ok (parts, Some order)
  end.
End packing.

(** ** Reading a shard back *)

(** [slice]: of a list, Python's slice stops at its end; a tensor must reach. *)
Definition slice_column (start stop : nat) (c : col) : res col :=
  _ ← raise_if (match c with TensorCol l => (length l <? stop)%nat | ListCol _ => false end) AssertionError;
  Ok (with_rows c (list_slice start stop (rows_of c))).
Definition slice_table (start stop : nat) (b : table) : res table := traverse (fun kv => c ← slice_column start stop kv.2; Ok (kv.1, c)) b.

(** [get_batch], where the shard knows its elements per chunk. *)
Definition get_packed_batch (sh : Shard) (counts : list nat) (i : nat) : res Shard :=
  _ ← raise_if (bool_decide (micro_batch_indices sh = None)) AssertionError;
  count ← get_index counts i;
  d ← slice_table (foldr Nat.add 0%nat (take i counts)) (foldr Nat.add 0%nat (take (S i) counts)) (sh_data sh);
  idx ← get_index (default [] (micro_batch_indices sh)) i;
  lens ← match micro_batch_lengths sh with Some l => get_index l i | None => Raise TypeError end;
  Ok (mkShard d (Some [idx]) (Some [lens]) (Some [count])).
Definition get_batch (sh : Shard) (i : nat) (batch_size : option nat) : res Shard :=
  match elem_counts_per_gb sh with
  | Some counts => get_packed_batch sh counts i
  | None =>
      size ← match batch_size with Some n => Ok n | None => Raise TypeError end;
      d ← slice_table (size * i) (size * (i + 1)) (sh_data sh);
      match micro_batch_indices sh with
      | None => Ok (plain_shard d)
      | Some indices =>
          idx ← get_index indices i;
          lens ← match micro_batch_lengths sh with Some l => get_index l i | None => Raise TypeError end;
          Ok (mkShard d (Some [idx]) (Some [lens]) None)
      end
  end.

(** The microbatches of one chunk: their rows, and the length each is read with;
    both iterators slice alike, the dynamic one then truncates to that length. *)
Definition microbatches (sh : Shard) : res (list (table * Z)) :=
  match micro_batch_indices sh, micro_batch_lengths sh with
  | Some [idx], Some [] => Raise IndexError
  | Some [idx], Some (lens :: _) =>
      traverse (fun p : Z * (nat * nat) => d ← slice_table p.2.1 p.2.2 (sh_data sh); Ok (d, p.1)) (zip lens idx)
  | _, _ => Raise AssertionError
  end.

(** [reorder_data]: row [i] goes where its key puts it. *)
Definition reorder_data (keys : list nat) (b : table) : res table :=
  n ← batch_rows b;
  select ((snd <$> py_sort (fun a b : nat * nat => a.1 <? b.1)%nat (zip keys (seq 0 n)))) b.

(** [size]: of the first column. *)
Definition dict_size (b : table) : nat := match b with [] => 0%nat | (_, c) :: _ => length (rows_of c) end.

(** [range(0, n, m)] counts its steps. *)
Definition make_microbatch_iterator (m : nat) (b : table) : res (list table) :=
  let n := dict_size b in
  _ ← raise_if (m =? 0)%nat ZeroDivisionError;
  _ ← raise_if (negb (n mod m =? 0)%nat) AssertionError;
  traverse (fun i => slice_table (i * m) (i * m + m) b) (seq 0 (n / m)).
