(* ===== verification/ShardingProps.v ===== *)
(** * What each rank is given

    The parts of [shard_by_batch_size] ([Sharding]): every row of every chunk goes
    to one rank, whatever the way of batching, and the outputs of the ranks can be
    put back in order. *)

From S2P Require Import Prelude.
From S2P Require Import PyVal.
From S2P Require Import PyStr.
From S2P Require Import DataPlaneMeta.
From S2P Require Import LogicalOwners.
From S2P Require Import Packing.
From S2P Require Import PackingSimple.
From S2P Require Import PackingMffd.
From S2P Require Import Sharding.
#[local] Open Scope string_scope.
#[local] Open Scope Z_scope.

(** ** Dealing out a list *)

Lemma every_nil {A} k i : every k i (@nil A) = [].
Proof. done. Qed.

Lemma every_bound {A} k i n m (l : list A) : (length l <= i + n * k)%nat -> (n <= m)%nat ->
  omap (fun j => l !! (i + j * k)%nat) (seq 0 m) = omap (fun j => l !! (i + j * k)%nat) (seq 0 n).
Proof.
  intros Hn Hm. replace m with (n + (m - n))%nat by lia. rewrite seq_app, omap_app.
  assert (omap (fun j => l !! (i + j * k)%nat) (seq (0 + n) (m - n)) = []) as ->; [|by rewrite app_nil_r].
  assert (forall s : list nat, Forall (fun j => (n <= j)%nat) s -> omap (fun j => l !! (i + j * k)%nat) s = []) as Hs.
  { induction 1 as [|j s Hj _ IH]; [done|]. cbn. rewrite lookup_ge_None_2; [exact IH|]. nia. }
  apply Hs, Forall_forall. intros j ?%elem_of_seq. lia.
Qed.

Lemma every_0 {A} k x (l : list A) : every (S k) 0 (x :: l) = x :: every (S k) k l.
Proof.
  unfold every. cbn [length seq]. cbn [omap list_omap]. cbn. f_equal. rewrite <- fmap_S_seq.
  assert (forall s : list nat, omap (fun j : nat => (x :: l) !! (j * S k)%nat) (S <$> s) = omap (fun j => l !! (k + j * S k)%nat) s) as Hs; [|apply Hs].
  induction s as [|j s IH]; [done|]. cbn [fmap list_fmap omap list_omap]. rewrite IH. cbn. done.
Qed.

Lemma every_S {A} k i x (l : list A) : (0 < k)%nat -> every k (S i) (x :: l) = every k i l.
Proof.
  intros Hk. unfold every. cbn [length]. change (fun j => (x :: l) !! (S i + j * k)%nat) with (fun j => l !! (i + j * k)%nat).
  rewrite (every_bound k i (length l)); [done|nia|lia].
Qed.

Lemma every_deal {A} k (l : list A) : (0 < k)%nat -> mjoin ((fun i => every k i l) <$> seq 0 k) ≡ₚ l.
Proof.
  intros Hk. destruct k as [|k]; [lia|]. induction l as [|x l IH].
  - assert (forall s : list nat, mjoin ((fun i => every (S k) i (@nil A)) <$> s) = []) as ->; [|done]. by induction s.
  - rewrite seq_S, fmap_app, join_app in IH. cbn [fmap list_fmap] in IH. rewrite join_cons, app_nil_r in IH.
    change (seq 0 (S k)) with (0%nat :: seq 1 k). rewrite fmap_cons, join_cons, every_0, <- fmap_S_seq, <- list_fmap_compose.
    assert (((fun i => every (S k) i (x :: l)) ∘ S) <$> seq 0 k = (fun i => every (S k) i l) <$> seq 0 k) as ->.
    { apply list_fmap_ext. intros i j _. cbn [compose]. by rewrite every_S by lia. }
    rewrite <- app_comm_cons. constructor. rewrite Permutation_app_comm. exact IH.
Qed.

Lemma every_block {A} k i x (l1 l2 : list A) : length l1 = k -> l1 !! i = Some x -> every k i (l1 ++ l2)%list = x :: every k i l2.
Proof.
  intros Hk Hx. pose proof (lookup_lt_Some _ _ _ Hx) as Hi. unfold every. rewrite length_app, Hk.
  rewrite (every_bound k i (S (length l2))); [|rewrite length_app; nia|lia]. cbn [seq omap list_omap]. rewrite Nat.add_0_r, lookup_app_l, Hx by lia.
  f_equal. rewrite <- fmap_S_seq. generalize (seq 0 (length l2)) as s. induction s as [|j s IH]; [done|]. cbn [fmap list_fmap omap list_omap]. rewrite IH.
  rewrite lookup_app_r by nia. by replace (i + S j * k - length l1)%nat with (i + j * k)%nat by nia.
Qed.

(** As many for each, when they are a multiple. *)
Lemma every_length {A} k i m : (i < k)%nat -> forall l : list A, length l = (m * k)%nat -> length (every k i l) = m.
Proof.
  intros Hi. induction m as [|m IH]; intros l Hl; [by destruct l|]. rewrite <- (take_drop k l).
  assert (length (take k l) = k) as Ht by (rewrite length_take; nia).
  destruct (lookup_lt_is_Some_2 (take k l) i) as [x Hx]; [lia|]. rewrite (every_block k i x) by done. cbn [length]. f_equal.
  apply IH. rewrite length_drop. nia.
Qed.

(** Two ways to join a matrix. *)
Lemma join_swap {A B C} (f : A -> B -> list C) (l : list A) (l' : list B) :
  mjoin ((fun a => mjoin (f a <$> l')) <$> l) ≡ₚ mjoin ((fun b => mjoin ((fun a => f a b) <$> l)) <$> l').
Proof.
  induction l as [|a l IH].
  - cbn. induction l' as [|b l' IH]; [done|]. cbn. exact IH.
  - cbn [fmap list_fmap]. rewrite !join_cons. rewrite IH. clear IH.
    induction l' as [|b l' IH]; [done|]. cbn [fmap list_fmap]. rewrite !join_cons.
    rewrite <- IH. rewrite <- !app_assoc. apply Permutation_app_head. rewrite !app_assoc. apply Permutation_app_tail, Permutation_app_comm.
Qed.

(** Consecutive ranges. *)
Lemma join_ranges (k : nat) : forall n start, mjoin ((fun i => seq (start + i * k) k) <$> seq 0 n) = seq start (n * k).
Proof.
  induction n as [|n IH]; intros start; [done|]. rewrite seq_S, fmap_app, join_app, IH. cbn.
  rewrite app_nil_r. by rewrite <- seq_app, Nat.add_comm.
Qed.

(** ** Selecting rows *)

Lemma gather_selects {A} (xs : list A) idx : Forall (fun i => (i < length xs)%nat) idx -> gather xs idx = Ok (select_indices xs idx).
Proof.
  intros Hi. apply gather_Ok. unfold select_indices. induction Hi as [|i idx Hi _ IH]; [constructor|].
  destruct (lookup_lt_is_Some_2 xs i Hi) as [x Hx]. cbn [omap list_omap]. rewrite Hx. by constructor.
Qed.

Lemma gather_select {A} (xs : list A) idx ys : gather xs idx = Ok ys -> ys = select_indices xs idx /\ length ys = length idx /\ Forall (fun i => (i < length xs)%nat) idx.
Proof.
  intros Hg%gather_Ok. unfold select_indices. induction Hg as [|i y idx ys Hi _ (IH & IHl & IHf)]; [done|]. cbn [omap list_omap]. rewrite Hi.
  split_and!; [by f_equal|cbn; by f_equal|]. constructor; [by eapply lookup_lt_Some|done].
Qed.

Lemma select_keys idx b d : select idx b = Ok d -> d.*1 = b.*1.
Proof.
  unfold select. intros H%traverse_Ok. induction H as [|kv kv' b d Hk _ IH]; [done|]. apply bind_Ok in Hk as (c & _ & [= <-]). cbn. by f_equal.
Qed.

Lemma select_column idx b d k c : select idx b = Ok d -> kv_get k b = Some c -> exists c', kv_get k d = Some c' /\ select_rows idx c = Ok c'.
Proof.
  unfold select. intros H%traverse_Ok. induction H as [|kv kv' b d Hk _ IH]; [done|]. apply bind_Ok in Hk as (c0 & Hc0 & [= <-]).
  destruct kv as [k0 v]. cbn [kv_get fst snd] in *. destruct (decide (k0 = k)); [intros [= ->]; eauto|exact IH].
Qed.

Lemma rows_with_rows c l : rows_of (with_rows c l) = l.
Proof. by destruct c. Qed.

Lemma batch_rows_spec b n : batch_rows b = Ok n -> b <> [] /\ Forall (fun kv => length (rows_of kv.2) = n) b.
Proof.
  unfold batch_rows. destruct b as [|[k c] rest]; [done|]. intros (? & Hf%raise_if_Ok%negb_false_iff & [= <-])%bind_Ok. split; [done|].
  constructor; [done|]. apply Forall_forall. intros kv Hkv. rewrite forallb_forall in Hf. by apply Nat.eqb_eq, Hf, list_elem_of_In.
Qed.

Lemma batch_rows_intro b n : b <> [] -> Forall (fun kv => length (rows_of kv.2) = n) b -> batch_rows b = Ok n.
Proof.
  intros Hne Hf. destruct b as [|[k c] rest]; [done|]. apply Forall_cons in Hf as [Hn Hf]. cbn [batch_rows snd] in *.
  assert (forallb (fun kv : string * col => length (rows_of kv.2) =? length (rows_of c))%nat rest = true) as ->; [|by rewrite Hn].
  apply forallb_forall. intros kv Hkv%list_elem_of_In. rewrite Forall_forall in Hf. by rewrite (Hf kv Hkv), Hn, Nat.eqb_refl.
Qed.

Lemma select_total b n idx : batch_rows b = Ok n -> Forall (fun i => (i < n)%nat) idx -> exists d, select idx b = Ok d.
Proof.
  intros [_ Hb]%batch_rows_spec Hi. unfold select. induction Hb as [|kv b Hkv _ [d IH]]; [by exists []|].
  exists ((kv.1, with_rows kv.2 (select_indices (rows_of kv.2) idx)) :: d). apply traverse_Ok. constructor; [|by apply traverse_Ok].
  unfold select_rows. by rewrite gather_selects by (by rewrite Hkv).
Qed.

Lemma select_size b n idx d : batch_rows b = Ok n -> select idx b = Ok d -> batch_rows d = Ok (length idx) /\ Forall (fun i => (i < n)%nat) idx.
Proof.
  intros [Hne Hb]%batch_rows_spec H. unfold select in H. apply traverse_Ok in H.
  assert (Forall2 (fun kv kv' : string * col => length (rows_of kv'.2) = length idx /\ Forall (fun i => (i < length (rows_of kv.2))%nat) idx) b d) as Hf.
  { eapply Forall2_impl; [exact H|]. intros kv kv' (c & (l & Hl & [= <-])%bind_Ok & [= <-])%bind_Ok. cbn. rewrite rows_with_rows.
    by apply gather_select in Hl as (_ & Hl & Hi). }
  split.
  - apply batch_rows_intro; [by inversion H; subst|]. eapply Forall2_Forall_r; [exact Hf|]. apply Forall_forall. by intros kv _ kv' [? _].
  - destruct Hf as [|kv kv' b d [_ Hi] _]; [done|]. apply Forall_cons in Hb as [Hn _]. by rewrite Hn in Hi.
Qed.

Lemma select_indices_lookup {A} (l : list A) idx : Forall (fun i => (i < length l)%nat) idx -> forall j, select_indices l idx !! j = (idx !! j) ≫= (l !!.).
Proof.
  unfold select_indices. induction 1 as [|i idx Hi _ IH]; intros j; [done|]. destruct (lookup_lt_is_Some_2 l i Hi) as [x Hx].
  cbn [omap list_omap]. rewrite Hx. destruct j as [|j]; [cbn; done|]. exact (IH j).
Qed.

Lemma select_cons {A} (l : list A) i x r : l !! i = Some x -> select_indices l (i :: r) = x :: select_indices l r.
Proof. intros Hx. unfold select_indices. cbn [omap list_omap]. by rewrite Hx. Qed.

Lemma select_indices_comp {A} (l : list A) o r : Forall (fun i => (i < length l)%nat) o -> Forall (fun i => (i < length o)%nat) r ->
  select_indices (select_indices l o) r = select_indices l (select_indices o r).
Proof.
  intros Ho Hr. induction Hr as [|i r Hi _ IH]; [done|]. destruct (lookup_lt_is_Some_2 o i Hi) as [x Hx].
  rewrite Forall_lookup in Ho. destruct (lookup_lt_is_Some_2 l x (Ho _ _ Hx)) as [y Hy].
  rewrite (select_cons o i x), (select_cons l x y) by done. rewrite (select_cons (select_indices l o) i y); [by rewrite IH|].
  rewrite select_indices_lookup by (by rewrite Forall_lookup). by rewrite Hx.
Qed.

(** Selecting twice. *)
Lemma select_select o r b d e : select o b = Ok d -> select r d = Ok e -> Forall (fun i => (i < length o)%nat) r -> select (select_indices o r) b = Ok e.
Proof.
  unfold select. intros Hd%traverse_Ok He%traverse_Ok Hr. apply traverse_Ok. revert e He.
  induction Hd as [|kv kv' b d Hk _ IH]; intros e He; inversion He as [|? kv2 ? e' Hk2 He']; subst; constructor; [|by apply IH].
  apply bind_Ok in Hk as (c & (l & Hl & [= <-])%bind_Ok & [= <-]). apply bind_Ok in Hk2 as (c2 & (l2 & Hl2 & [= <-])%bind_Ok & [= <-]). cbn [fst snd] in *.
  apply gather_select in Hl as (-> & _ & Hi). rewrite rows_with_rows in Hl2. apply gather_select in Hl2 as (-> & _ & _).
  unfold select_rows. rewrite gather_selects.
  - cbn [mbind res_bind]. rewrite <- select_indices_comp by done. by destruct kv as [k [?|?]].
  - apply Forall_forall. intros i (j & Hj & Hx)%list_elem_of_omap. rewrite Forall_forall in Hi. apply Hi. by eapply list_elem_of_lookup_2.
Qed.

(** ** Plans

    A plan says which rows of each chunk each rank has: [plan !! rank !! chunk]. *)

Abbreviation plan_t := (list (list (list nat))) (only parsing).

Definition part (p : list (list nat)) (c : nat) : list nat := default [] (p !! c).

(** Every row of every chunk goes to one rank. *)
Record dealt (size chunks shards : nat) (plan : plan_t) : Prop := {
  dealt_ranks : length plan = shards;
  dealt_chunks : Forall (fun p => length p = chunks) plan;
  dealt_once : forall c, (c < chunks)%nat -> mjoin ((fun p => part p c) <$> plan) ≡ₚ seq (c * size) size }.

Lemma parts_all p n : length p = n -> mjoin p = mjoin (part p <$> seq 0 n).
Proof.
  intros <-. f_equal. apply list_eq. intros i. rewrite list_lookup_fmap. destruct (p !! i) as [x|] eqn:E.
  - rewrite lookup_seq_lt by (by eapply lookup_lt_Some). cbn. unfold part. by rewrite E.
  - by rewrite lookup_seq_ge by (by apply lookup_ge_None).
Qed.

(** The rows of each rank. *)
Definition rank_rows (plan : plan_t) : list (list nat) := (fun p : list (list nat) => mjoin p) <$> plan.

Lemma dealt_rows size chunks shards plan : dealt size chunks shards plan -> mjoin (rank_rows plan) ≡ₚ seq 0 (chunks * size).
Proof.
  intros [_ Hc Ho]. assert (rank_rows plan = (fun p => mjoin (part p <$> seq 0 chunks)) <$> plan) as ->.
  { apply list_fmap_ext. intros i p Hp. apply parts_all. rewrite Forall_lookup in Hc. by eapply Hc. }
  rewrite (join_swap part). rewrite <- (join_ranges size chunks 0).
  assert (forall l, Forall (fun c => (c < chunks)%nat) l -> mjoin ((fun c => mjoin ((fun p => part p c) <$> plan)) <$> l) ≡ₚ mjoin ((fun i => seq (0 + i * size) size) <$> l)) as Hl.
  { induction 1 as [|c l Hlt _ IH]; [done|]. cbn [fmap list_fmap]. rewrite !join_cons, IH, (Ho c Hlt). done. }
  apply Hl, Forall_forall. intros c ?%elem_of_seq. lia.
Qed.

(** A plan made of positions in an order of the rows. *)
Definition through (order : list nat) (plan : plan_t) : plan_t := (fun p : list (list nat) => select_indices order <$> p) <$> plan.

Lemma select_indices_join {A} (l : list A) (rs : list (list nat)) : select_indices l (mjoin rs) = mjoin (select_indices l <$> rs).
Proof. induction rs as [|r rs IH]; [done|]. rewrite join_cons, select_indices_app, IH. done. Qed.

#[export] Instance select_indices_perm {A} (l : list A) : Proper ((≡ₚ) ==> (≡ₚ)) (select_indices l).
Proof. intros r r' Hr. unfold select_indices. by rewrite Hr. Qed.

Lemma part_fmap (order : list nat) (p : list (list nat)) c : part (select_indices order <$> p) c = select_indices order (part p c).
Proof. unfold part. rewrite list_lookup_fmap. by destruct (p !! c). Qed.

Lemma dealt_through size chunks shards plan order : dealt size chunks shards plan ->
  (forall c, (c < chunks)%nat -> select_indices order (seq (c * size) size) ≡ₚ seq (c * size) size) -> dealt size chunks shards (through order plan).
Proof.
  intros [H1 H2 H3] Ho. constructor.
  - unfold through. by rewrite length_fmap.
  - apply Forall_fmap. eapply Forall_impl; [exact H2|]. intros p Hp. cbn. by rewrite length_fmap.
  - intros c Hc. unfold through. rewrite <- list_fmap_compose. etrans; [|by apply Ho]. rewrite <- (H3 c Hc), select_indices_join, <- list_fmap_compose.
    assert ((fun p => part p c) ∘ (fun p : list (list nat) => select_indices order <$> p) <$> plan = (select_indices order ∘ (fun p => part p c)) <$> plan) as ->; [|done].
    apply list_fmap_ext. intros i p _. cbn. apply part_fmap.
Qed.

(** ** By ranges *)

Record sizes_ok (b : table) (shards : nat) (uneven : bool) (sz : Sizes) : Prop := {
  so_rows : batch_rows b = Ok (total_batch_size sz);
  so_size : chunk_size sz <> 0%nat;
  so_total : total_batch_size sz = (num_chunks sz * chunk_size sz)%nat;
  so_shards : shards <> 0%nat;
  so_even : uneven = false -> chunk_size sz = (shards * shard_size sz)%nat;
  so_uneven : uneven = true -> num_chunks sz = 1%nat /\ (total_batch_size sz <= shards * shard_size sz)%nat }.

Lemma sizes_checked b shards batch_size uneven sz : check_sizes b shards batch_size uneven = Ok sz ->
  sizes_ok b shards uneven sz /\ (batch_size = None -> num_chunks sz = 1%nat) /\ (forall n, batch_size = Some n -> chunk_size sz = n).
Proof.
  unfold check_sizes. intros (? & Hu%raise_if_Ok & (total & Ht & (? & Hs%raise_if_Ok%Nat.eqb_neq & (? & Hm%raise_if_Ok%negb_false_iff%Nat.eqb_eq
    & (? & Hz%raise_if_Ok%Nat.eqb_neq & (? & He%raise_if_Ok & [= <-])%bind_Ok)%bind_Ok)%bind_Ok)%bind_Ok)%bind_Ok)%bind_Ok.
  assert (batch_size = None -> (total / default total batch_size = 1)%nat) as H1 by (intros ->; apply Nat.div_same; done).
  split; [constructor; cbn; try done|by split; [|intros n ->]].
  - pose proof (Nat.div_mod_eq total (default total batch_size)). lia.
  - intros ->. cbn [negb andb] in He. apply negb_false_iff, Nat.eqb_eq in He. pose proof (Nat.div_mod_eq (default total batch_size) shards). lia.
  - intros ->. cbn [andb] in Hu. apply bool_decide_eq_false in Hu. assert (batch_size = None) as -> by (destruct batch_size; [by destruct Hu|done]).
    split; [by apply H1|]. cbn [default]. pose proof (Nat.div_mod_eq (total + shards - 1) shards). pose proof (Nat.mod_upper_bound (total + shards - 1) shards Hz). change (default total None) with total in *. lia.
Qed.

Definition range_plan (uneven : bool) (sz : Sizes) (shards : nat) : plan_t :=
  (fun s => (fun c => shard_range uneven (total_batch_size sz) (chunk_size sz) (shard_size sz) s c) <$> seq 0 (num_chunks sz)) <$> seq 0 shards.

Lemma shard_range_even total size ss s c : shard_range false total size ss s c = seq (c * size + s * ss) ss.
Proof.
  unfold shard_range. cbn match. destruct (Nat.ltb_spec (c * size + s * ss) (c * size + (s + 1) * ss)); [f_equal; lia|].
  by replace ss with 0%nat by lia.
Qed.

Lemma shard_range_uneven total size ss s : shard_range true total size ss s 0 = seq (Nat.min (s * ss) total) (Nat.min ((s + 1) * ss) total - Nat.min (s * ss) total).
Proof.
  unfold shard_range. cbn [Nat.mul Nat.add]. destruct (Nat.ltb_spec (Nat.min (s * ss) total) (Nat.min ((s + 1) * ss) total)); [done|].
  by replace (Nat.min ((s + 1) * ss) total - Nat.min (s * ss) total)%nat with 0%nat by lia.
Qed.

Lemma uneven_ranges total size ss n : mjoin ((fun s => shard_range true total size ss s 0) <$> seq 0 n) = seq 0 (Nat.min (n * ss) total).
Proof.
  induction n as [|n IH]; [done|]. rewrite seq_S, fmap_app, join_app, IH. cbn [fmap list_fmap]. rewrite join_cons, app_nil_r, shard_range_uneven.
  cbn [Nat.add]. etrans; [symmetry; apply (seq_app _ _ 0)|]. f_equal. lia.
Qed.

Lemma range_plan_dealt b uneven sz shards : sizes_ok b shards uneven sz -> dealt (chunk_size sz) (num_chunks sz) shards (range_plan uneven sz shards).
Proof.
  intros [_ _ Ht _ He Hu]. constructor.
  - unfold range_plan. by rewrite length_fmap, length_seq.
  - apply Forall_fmap, Forall_forall. intros s _. cbn. by rewrite length_fmap, length_seq.
  - intros c Hc. unfold range_plan. rewrite <- list_fmap_compose.
    assert ((fun p => part p c) ∘ (fun s => (fun c => shard_range uneven (total_batch_size sz) (chunk_size sz) (shard_size sz) s c) <$> seq 0 (num_chunks sz)) <$> seq 0 shards
            = (fun s => shard_range uneven (total_batch_size sz) (chunk_size sz) (shard_size sz) s c) <$> seq 0 shards) as ->.
    { apply list_fmap_ext. intros i s _. cbn. unfold part. by rewrite list_lookup_fmap, lookup_seq_lt by done. }
    destruct uneven.
    + destruct (Hu eq_refl) as [Hn Hle]. assert (c = 0%nat) as -> by lia. rewrite uneven_ranges. rewrite Hn in Ht. by rewrite Nat.min_r, Ht, Nat.mul_1_l by lia.
    + specialize (He eq_refl).
      assert (seq (c * chunk_size sz) (chunk_size sz) = seq (c * chunk_size sz) (shards * shard_size sz)) as -> by (by rewrite <- He).
      rewrite <- (join_ranges (shard_size sz)).
      assert ((fun s => shard_range false (total_batch_size sz) (chunk_size sz) (shard_size sz) s c) <$> seq 0 shards
              = (fun i => seq (c * chunk_size sz + i * shard_size sz) (shard_size sz)) <$> seq 0 shards) as ->; [|done].
      apply list_fmap_ext. intros i s _. apply shard_range_even.
Qed.

(** A rank has these rows of the batch, column by column. *)
Definition holds (b data : table) (idx : list nat) : Prop := exists d, select idx b = Ok d /\ data ≡ₚ d.
Definition given (b : table) (sh : Shard) (idx : list nat) : Prop := holds b (sh_data sh) idx.

Lemma kv_get_perm {A} (a d : list (string * A)) k : NoDup d.*1 -> a ≡ₚ d -> kv_get k a = kv_get k d.
Proof.
  intros Hn Hp. assert (NoDup a.*1) as Ha by (by rewrite Hp). destruct (kv_get k d) as [v|] eqn:E.
  - apply (kv_get_elem k d v Hn) in E. apply (kv_get_elem k a v Ha). by rewrite Hp.
  - apply kv_get_None in E. apply kv_get_None. by rewrite Hp.
Qed.

Lemma range_shards_given b uneven sz shards parts : range_shards uneven sz shards b = Ok parts ->
  Forall2 (fun sh idx => select idx b = Ok (sh_data sh)) parts (rank_rows (range_plan uneven sz shards)).
Proof.
  unfold range_shards, rank_rows, range_plan. intros H%traverse_Ok. rewrite <- list_fmap_compose. apply Forall2_fmap_r, Forall2_flip.
  eapply Forall2_impl; [exact H|]. intros s sh (d & Hd & [= <-])%bind_Ok. exact Hd.
Qed.

(** ** Sorted by length *)

Lemma sorted_chunk_Ok args b size shards c out : (0 < shards)%nat -> sorted_chunk args b size shards c = Ok out -> out ≡ₚ seq (c * size) size.
Proof.
  unfold sorted_chunk. intros Hs (col & _ & (lens & _ & (keyed & Hk & [= <-])%bind_Ok)%bind_Ok)%bind_Ok. rewrite every_deal by done.
  rewrite py_sort_perm. apply traverse_Ok in Hk.
  assert ((fun p : Z * nat => (p.2 + c * size)%nat) <$> keyed = (fun i => (i + c * size)%nat) <$> seq 0 size) as ->.
  { induction Hk as [|i p l keyed Hp _ IH]; [done|]. apply bind_Ok in Hp as (z & _ & [= <-]). cbn [fmap list_fmap snd]. by rewrite IH. }
  assert ((fun i => (i + c * size)%nat) <$> seq 0 size = Nat.add (c * size) <$> seq 0 size) as -> by (apply list_fmap_ext; intros; lia).
  by rewrite fmap_add_seq, Nat.add_0_r.
Qed.

(** The chunks of an order made chunk by chunk. *)
Lemma select_chunk (size : nat) : forall (orders : list (list nat)) c, Forall (fun o => length o = size) orders -> (c < length orders)%nat ->
  select_indices (mjoin orders) (seq (c * size) size) = part orders c.
Proof.
  intros orders c Hl Hc. destruct (lookup_lt_is_Some_2 orders c Hc) as [o Ho]. unfold part. rewrite Ho. cbn [default].
  assert (length (mjoin (take c orders)) = (c * size)%nat) as Ht.
  { rewrite (length_join_same size) by (by apply Forall_take). rewrite length_take. lia. }
  assert (length o = size) as Hlo by (rewrite Forall_lookup in Hl; by eapply Hl).
  rewrite <- (take_drop_middle _ _ _ Ho), join_app, join_cons. apply list_eq. intros i. rewrite select_indices_lookup.
  - destruct (decide (i < size)%nat) as [Hi|Hi].
    + rewrite lookup_seq_lt by done. cbn [mbind option_bind]. rewrite lookup_app_r by lia. rewrite lookup_app_l by lia. f_equal. lia.
    + rewrite lookup_seq_ge by lia. cbn. symmetry. apply lookup_ge_None. lia.
  - apply Forall_forall. intros j ?%elem_of_seq. rewrite !length_app. lia.
Qed.

Lemma orders_Ok args b size shards n orders : (0 < shards)%nat -> traverse (fun c => sorted_chunk args b size shards c) (seq 0 n) = Ok orders ->
  length orders = n /\ Forall (fun o => length o = size) orders /\ (forall c, (c < n)%nat -> part orders c ≡ₚ seq (c * size) size).
Proof.
  intros Hs H%traverse_Ok. pose proof (Forall2_length _ _ _ H) as Hl. rewrite length_seq in Hl.
  assert (forall c o, orders !! c = Some o -> o ≡ₚ seq (c * size) size) as Ho.
  { intros c o Ho. destruct (Forall2_lookup_r _ _ _ _ _ H Ho) as (c' & [-> _]%lookup_seq & Hc). by apply sorted_chunk_Ok in Hc. }
  split_and!; [done| |].
  - apply Forall_lookup. intros c o Hc%Ho. by rewrite Hc, length_seq.
  - intros c Hc. destruct (lookup_lt_is_Some_2 orders c) as [o Hoc]; [lia|]. unfold part. rewrite Hoc. by apply Ho.
Qed.

Lemma rank_rows_through order plan : rank_rows (through order plan) = select_indices order <$> rank_rows plan.
Proof. unfold rank_rows, through. rewrite <- !list_fmap_compose. apply list_fmap_ext. intros i p _. cbn [compose]. by rewrite select_indices_join. Qed.

Lemma select_all {A} (l : list A) : select_indices l (seq 0 (length l)) = l.
Proof.
  apply list_eq. intros i. rewrite select_indices_lookup by (apply Forall_forall; intros j ?%elem_of_seq; lia).
  destruct (decide (i < length l)%nat) as [Hi|Hi]; [by rewrite lookup_seq_lt by done|]. rewrite lookup_seq_ge by lia. by rewrite lookup_ge_None_2 by lia.
Qed.

Lemma range_plan_one b uneven sz shards : sizes_ok b shards uneven sz -> num_chunks sz = 1%nat ->
  mjoin (rank_rows (range_plan uneven sz shards)) = seq 0 (total_batch_size sz).
Proof.
  intros [_ _ Ht _ He Hu] Hn. unfold rank_rows, range_plan. rewrite Hn in *. rewrite <- list_fmap_compose. destruct uneven.
  - destruct (Hu eq_refl) as [_ Hle]. rewrite <- (Nat.min_r (shards * shard_size sz) (total_batch_size sz)), <- (uneven_ranges _ (chunk_size sz)) by done.
    f_equal. apply list_fmap_ext. intros i s _. cbn. by rewrite app_nil_r, Nat.min_r.
  - rewrite Ht, Nat.mul_1_l, (He eq_refl), <- (join_ranges (shard_size sz)). f_equal. apply list_fmap_ext. intros i s _. cbn [seq fmap list_fmap compose].
    by rewrite join_cons, app_nil_r, shard_range_even.
Qed.

Lemma shard_dynamic_given args b uneven sz shards parts order : sizes_ok b shards uneven sz -> shard_dynamic args uneven sz shards b = Ok (parts, order) ->
  let plan := through order (range_plan uneven sz shards) in
  dealt (chunk_size sz) (num_chunks sz) shards plan /\ Forall2 (given b) parts (rank_rows plan)
  /\ order ≡ₚ seq 0 (total_batch_size sz) /\ (num_chunks sz = 1%nat -> mjoin (rank_rows plan) = order).
Proof.
  intros Hz Hsd plan. pose proof (range_plan_dealt _ _ _ _ Hz) as Hd. pose proof Hz as [Hb _ Ht Hs He Hu].
  unfold shard_dynamic in Hsd. apply bind_Ok in Hsd as (orders & Ho & (data & Hdata & (ps & Hps & (plans & _ & [= <- <-])%bind_Ok)%bind_Ok)%bind_Ok).
  apply orders_Ok in Ho as (Hl & Hsz & Hperm); [|lia].
  assert (length (mjoin orders) = total_batch_size sz) as Hlen by (rewrite (length_join_same (chunk_size sz)), Hl by done; lia).
  destruct (select_size _ _ _ _ Hb Hdata) as [Hdr Hbound].
  assert (forall c, (c < num_chunks sz)%nat -> select_indices (mjoin orders) (seq (c * chunk_size sz) (chunk_size sz)) ≡ₚ seq (c * chunk_size sz) (chunk_size sz)) as Hch.
  { intros c Hc. rewrite select_chunk by (try done; lia). by apply Hperm. }
  assert (mjoin orders ≡ₚ seq 0 (total_batch_size sz)) as Hall.
  { rewrite (parts_all orders (num_chunks sz)) by done. rewrite Ht, <- (join_ranges (chunk_size sz)).
    assert (forall l, Forall (fun c => (c < num_chunks sz)%nat) l -> mjoin (part orders <$> l) ≡ₚ mjoin ((fun i => seq (0 + i * chunk_size sz) (chunk_size sz)) <$> l)) as Hl'.
    { induction 1 as [|c l Hc _ IH]; [done|]. cbn [fmap list_fmap]. by rewrite !join_cons, IH, (Hperm c Hc). }
    apply Hl', Forall_forall. intros c ?%elem_of_seq. lia. }
  split_and!; [by apply dealt_through| |done|].
  - apply range_shards_given in Hps. unfold plan. rewrite rank_rows_through. apply Forall2_fmap_l, Forall2_fmap_r.
    eapply Forall2_impl; [exact Hps|]. intros sh idx Hsel. exists (sh_data sh). split; [|done].
    destruct (select_size _ _ _ _ Hdr Hsel) as [_ Hi]. by eapply select_select.
  - intros Hn. unfold plan. rewrite rank_rows_through, <- select_indices_join, (range_plan_one b) by done. rewrite <- Hlen. apply select_all.
Qed.

(** ** Stacking selections *)

Section stack.
Context (b : table) (Hn : NoDup b.*1) (idxs : list (list nat)) (pieces : list table).
Hypothesis Hsel : Forall2 (fun idx p => holds b p idx) idxs pieces.

(** A column of the rows selected. *)
Definition stacked (k : string) : string * col :=
  (k, match kv_get k b with Some c => with_rows c (select_indices (rows_of c) (mjoin idxs)) | None => ListCol [] end).

Lemma pieces_columns k c : kv_get k b = Some c -> omap (kv_get k) pieces = (fun idx => with_rows c (select_indices (rows_of c) idx)) <$> idxs
  /\ Forall (fun idx => Forall (fun i => (i < length (rows_of c))%nat) idx) idxs.
Proof.
  intros Hk. induction Hsel as [|idx p idxs' pieces' (d & Hd & Hp) Hf IH]; [done|]. destruct (select_column _ _ _ _ _ Hd Hk) as (c' & Hc' & Hs).
  rewrite <- (kv_get_perm p d k) in Hc' by (done || by rewrite (select_keys _ _ _ Hd)).
  apply bind_Ok in Hs as (l & Hl & [= <-]). apply gather_select in Hl as (-> & _ & Hi). destruct IH as [IH1 IH2]; [done|].
  cbn [omap list_omap fmap list_fmap]. rewrite Hc', IH1. by split; [|constructor].
Qed.

Lemma stack_column_Ok k c kv : kv_get k b = Some c -> stack_column k pieces = Ok kv -> kv = stacked k.
Proof.
  intros Hk. destruct (pieces_columns k c Hk) as [Hc _]. unfold stack_column. rewrite Hc. intros (? & _ & Hs)%bind_Ok. unfold stacked. rewrite Hk.
  destruct idxs as [|idx idxs']; [done|]. cbn [fmap list_fmap] in Hs. injection Hs as <-. f_equal.
  rewrite join_cons, rows_with_rows, select_indices_app, select_indices_join, <- list_fmap_compose.
  assert (((rows_of ∘ (fun idx : list nat => with_rows c (select_indices (rows_of c) idx))) <$> idxs') = select_indices (rows_of c) <$> idxs') as ->.
  { apply list_fmap_ext. intros i y _. cbn. by rewrite rows_with_rows. }
  by destruct c.
Qed.

Lemma from_selected_given data : idxs <> [] -> from_selected pieces = Ok data -> holds b data (mjoin idxs).
Proof.
  intros Hne Hd. exists (stacked <$> b.*1). split.
  - unfold select. apply traverse_Ok, Forall2_fmap_r, Forall2_fmap_r, Forall_Forall2_diag, Forall_forall. intros [k c] Hin.
    assert (kv_get k b = Some c) as Hk by (by apply kv_get_elem). change ((c' ← select_rows (mjoin idxs) c; Ok (k, c')) = Ok (stacked k)). unfold stacked, select_rows. rewrite Hk.
    destruct (pieces_columns k c Hk) as [_ Hi]. rewrite gather_selects; [done|]. apply Forall_forall. intros i (l & Hil & Hl)%list_elem_of_join.
    rewrite Forall_forall in Hi. specialize (Hi _ Hl). rewrite Forall_forall in Hi. by apply Hi.
  - unfold from_selected in Hd. apply traverse_Ok in Hd.
    assert (forall p, p ∈ pieces -> p.*1 ≡ₚ b.*1) as Hkeys.
    { intros p [i Hp]%list_elem_of_lookup. destruct (Forall2_lookup_r _ _ _ _ _ Hsel Hp) as (idx & _ & d & Hs & Hpd). rewrite Hpd. by rewrite (select_keys _ _ _ Hs). }
    assert (py_sort string_ltb (fromkeys [] (pieces ≫= (fun p : table => p.*1))) ≡ₚ b.*1) as Hp.
    { rewrite py_sort_perm. destruct (fromkeys_spec (pieces ≫= (fun p : table => p.*1)) []) as [Hin Hnd]. apply NoDup_Permutation; [done|done|].
      intros k. rewrite Hin, list_elem_of_bind. split.
      - intros [(p & Hk & Hp) _]. by rewrite <- (Hkeys p Hp).
      - intros Hk. split; [|by apply not_elem_of_nil]. destruct pieces as [|p rest]; [by inversion Hsel; subst|]. exists p. rewrite Hkeys by left. split; [done|left]. }
    assert (data = stacked <$> py_sort string_ltb (fromkeys [] (pieces ≫= (fun p : table => p.*1)))) as ->; [|by rewrite Hp].
    assert (Forall (fun k => k ∈ b.*1) (py_sort string_ltb (fromkeys [] (pieces ≫= (fun p : table => p.*1))))) as Hall by (apply Forall_forall; intros k; by rewrite Hp).
    clear Hp. induction Hd as [|k kv ks data Hk _ IH]; [done|]. apply Forall_cons in Hall as [Hkb Hall]. rewrite fmap_cons, <- IH by done. f_equal.
    destruct (kv_get k b) as [c|] eqn:Ek; [by eapply stack_column_Ok|]. by apply kv_get_None in Ek.
Qed.
End stack.

(** ** Packed into bins *)

Section packed.
Context (shuffle : nat -> list (Z * nat) -> list (Z * nat)) (Hshuffle : forall c items, shuffle c items ≡ₚ items).

Lemma implementation_rejects c k p lens : valid_params p -> Exists (fun l => bin_capacity p < l) lens ->
  exists e, implementation (shuffle c) k p lens = Raise e.
Proof.
  intros Hv He. exists ValueError. pose proof (first_fit_impl (shuffle c) (Hshuffle c)) as Hff. unfold implementation. destruct (algorithm k); eapply (impl_rejects _ _ Hv); exact He.
Qed.

(** The bins of a packer, for [n] ranks. *)
Record packed_bins (cap : Z) (n : nat) (lens : list Z) (bins : list (list nat)) : Prop := {
  pb_once : mjoin bins ≡ₚ seq 0 (length lens);
  pb_used : Forall (fun bin => bin <> []) bins;
  pb_fit : Forall (fun bin => load lens bin <= cap) bins;
  pb_even : exists m, length bins = (m * n)%nat /\ (0 < m)%nat }.

Lemma pack_with_spec alg cap n mx k c lens bins : (0 < n)%nat -> 0 < cap -> get_packer alg cap (Some (Z.of_nat n)) (Some (Z.of_nat n)) mx None = Ok k ->
  Forall (fun l => 0 < l) lens -> pack_with shuffle k c lens = Ok bins -> packed_bins cap n lens bins.
Proof.
  intros Hn Hcap [Hv Hk]%get_packer_Ok Hpos Hp. unfold pack_with, pack in Hp. apply bind_Ok in Hp as (bins0 & Hi & Ha).
  assert (Forall (fun l => 0 < l <= cap) lens) as Hle.
  { apply Forall_forall. intros l Hl. rewrite Forall_forall in Hpos. split; [by apply Hpos|]. destruct (Z.leb_spec l cap) as [|Hgt]; [done|].
    destruct (implementation_rejects c k (params k) lens Hv) as [e He]; [|congruence]. apply Exists_exists. exists l. split; [done|]. by rewrite Hk. }
  destruct (implementation_packs (shuffle c) k (params k) lens (Hshuffle c) Hv) as (bins1 & Hi' & Hpk); [by rewrite Hk|by rewrite Hk|].
  rewrite Hi in Hi'. injection Hi' as <-.
  pose proof (target_bin_count_spec (params k) (Z.of_nat (length bins0)) Hv ltac:(lia)) as (_ & Hmin & Hmul).
  pose proof (adjust_spec (params k) lens bins0 Hv) as Had. cbv zeta in *. set (t := target_bin_count (params k) (Z.of_nat (length bins0))) in *.
  assert (Forall (fun l => 0 <= l) lens) as Hnn by (eapply Forall_impl; [exact Hpos|]; cbn; lia).
  specialize (Had Hnn Hpk). destruct (decide _); [|congruence]. destruct Had as (bins' & Hb & [H1 H2 H3] & Hl). rewrite Ha in Hb. injection Hb as <-.
  constructor; [by rewrite <- concat_join|exact H2| |].
  - eapply Forall_impl; [exact H3|]. intros bin [Hc _]. by rewrite Hk in Hc.
  - rewrite Hk in Hmin, Hmul. cbn in Hmin, Hmul. destruct (Hmul _ eq_refl) as [m Hm]. specialize (Hmin _ eq_refl). exists (Z.to_nat m). split; [|nia].
    apply Nat2Z.inj. rewrite Hl, Nat2Z.inj_mul, Z2Nat.id by nia. exact Hm.
Qed.

(** Expanding bins of groups to their rows. *)
Lemma load_join lens bins : load lens (mjoin bins) = zsum (load lens <$> bins).
Proof. induction bins as [|bin bins IH]; [done|]. rewrite join_cons, load_app, IH. done. Qed.

Lemma add_row_join g i d : mjoin (add_row g i d).*2 ≡ₚ i :: mjoin d.*2.
Proof.
  induction d as [|[k l] d IH]; [done|]. cbn [add_row]. destruct (k =? g); cbn [fmap list_fmap snd]; rewrite !join_cons.
  - rewrite <- app_assoc. cbn. by rewrite Permutation_middle.
  - rewrite IH. by rewrite Permutation_middle.
Qed.

Lemma add_row_used g i d : Forall (fun l => l <> []) d.*2 -> Forall (fun l => l <> []) (add_row g i d).*2.
Proof.
  induction d as [|[k l] d IH]; cbn [add_row fmap list_fmap snd]; [by repeat constructor|]. intros [Hl Hd]%Forall_cons.
  destruct (k =? g); cbn [fmap list_fmap snd]; constructor; try done; [by destruct l|by apply IH].
Qed.

Lemma group_members_spec groups : let members := sorted_groups (group_members groups) in
  mjoin members.*2 ≡ₚ seq 0 (length groups) /\ Forall (fun l => l <> []) members.*2.
Proof.
  intros members. assert (members ≡ₚ group_members groups) as Hp by apply py_sort_perm. rewrite Hp. unfold group_members, enumerate. clear members Hp.
  assert (forall i d, Forall (fun l => l <> []) d.*2 ->
    mjoin (foldl (fun (d : slots) ig => add_row ig.2 ig.1 d) d (enumerate_from i groups)).*2 ≡ₚ (mjoin d.*2 ++ seq i (length groups))%list
    /\ Forall (fun l => l <> []) (foldl (fun (d : slots) ig => add_row ig.2 ig.1 d) d (enumerate_from i groups)).*2) as Hf.
  { induction groups as [|g groups IH]; intros i d Hd; [cbn; by rewrite app_nil_r|]. cbn [enumerate_from foldl fst snd].
    destruct (IH (S i) (add_row g i d) (add_row_used g i d Hd)) as [IH1 IH2]. split; [|done]. rewrite IH1, add_row_join. cbn. by rewrite Permutation_middle. }
  destruct (Hf 0%nat [] ltac:(done)) as [H1 H2]. split; [exact H1|exact H2].
Qed.

Lemma load_gather padded idx ls : gather padded idx = Ok ls -> zsum ls = load padded idx.
Proof. intros Hg%gather_select. destruct Hg as (-> & _). done. Qed.

Lemma load_positive lens bin : Forall (fun l => 0 < l) lens -> Forall (fun i => (i < length lens)%nat) bin -> bin <> [] -> 0 < load lens bin.
Proof.
  intros Hl Hb Hne. assert (0 <= load lens bin) as Hnn by (apply load_nonneg; eapply Forall_impl; [exact Hl|]; cbn; lia).
  destruct bin as [|i bin]; [done|]. apply Forall_cons in Hb as [Hi _]. destruct (lookup_lt_is_Some_2 lens i Hi) as [x Hx].
  assert (0 <= load lens bin) as Hrest by (apply load_nonneg; eapply Forall_impl; [exact Hl|]; cbn; lia).
  rewrite Forall_lookup in Hl. specialize (Hl _ _ Hx). cbn in Hl. unfold load in *. rewrite (select_cons lens i x) by done. cbn [zsum]. lia.
Qed.

Lemma grouped_bins_spec alg cap n mx k c padded groups bins : (0 < n)%nat -> 0 < cap ->
  get_packer alg cap (Some (Z.of_nat n)) (Some (Z.of_nat n)) mx None = Ok k -> Forall (fun l => 0 < l) padded -> length groups = length padded ->
  grouped_bins shuffle k cap c padded groups = Ok bins -> packed_bins cap n padded bins.
Proof.
  intros Hn Hcap Hk Hpos Hlen Hg. unfold grouped_bins in Hg. destruct (group_members_spec groups) as [Hmem Hused]. cbv zeta in *.
  set (M := sorted_groups (group_members groups)) in *. apply bind_Ok in Hg as (gl & Hgl%traverse_Ok & (? & _ & (gb & Hgb & Hb%traverse_Ok)%bind_Ok)%bind_Ok).
  assert (gl = load padded <$> M.*2) as ->.
  { clear -Hgl. induction Hgl as [|g l M gl Hg _ IH]; [done|]. apply bind_Ok in Hg as (ls & Hls%load_gather & [= <-]). cbn. by rewrite Hls, IH. }
  assert (forall l, l ∈ M.*2 -> Forall (fun i => (i < length padded)%nat) l) as Hin.
  { intros l Hl. apply Forall_forall. intros i Hi. assert (i ∈ seq 0 (length groups)) as Hs.
    { rewrite <- Hmem. apply list_elem_of_join. by exists l. } apply elem_of_seq in Hs. lia. }
  assert (Forall (fun l => 0 < l) (load padded <$> M.*2)) as Hglp.
  { apply Forall_fmap, Forall_forall. intros l Hl. cbn. apply load_positive; [done|by apply Hin|]. rewrite Forall_forall in Hused. by apply Hused. }
  destruct (pack_with_spec _ _ _ _ _ _ _ _ Hn Hcap Hk Hglp Hgb) as [H1 H2 H3 (m & Hm & Hm0)]. rewrite !length_fmap in H1.
  assert (bins = (fun bin => mjoin (select_indices M.*2 bin)) <$> gb) as ->.
  { clear -Hb. induction Hb as [|bin out gb bins Ho _ IH]; [done|]. apply bind_Ok in Ho as (ms & Hms & [= <-]). apply gather_select in Hms as (-> & _).
    cbn. rewrite <- IH. by rewrite select_indices_fmap. }
  assert (forall bin, bin ∈ gb -> Forall (fun i => (i < length M.*2)%nat) bin) as Hbin.
  { intros bin Hbin. apply Forall_forall. intros i Hi. rewrite length_fmap. assert (i ∈ seq 0 (length M)) as Hs.
    { rewrite <- H1. apply list_elem_of_join. by exists bin. } apply elem_of_seq in Hs. lia. }
  constructor.
  - assert (mjoin ((fun bin => mjoin (select_indices M.*2 bin)) <$> gb) = mjoin (select_indices M.*2 (mjoin gb))) as ->.
    { clear. induction gb as [|bin gb IH]; [done|]. rewrite fmap_cons, !join_cons, IH, select_indices_app, join_app. done. }
    rewrite H1, <- Hlen, <- Hmem. by rewrite <- (length_fmap snd), select_all.
  - apply Forall_fmap, Forall_forall. intros bin Hb'. cbn. rewrite Forall_forall in H2. specialize (H2 bin Hb'). specialize (Hbin bin Hb').
    destruct bin as [|i bin]; [done|]. apply Forall_cons in Hbin as [Hi _]. destruct (lookup_lt_is_Some_2 _ _ Hi) as [l Hl].
    rewrite (select_cons _ _ l), join_cons by done. rewrite Forall_forall in Hused. specialize (Hused l (list_elem_of_lookup_2 _ _ _ Hl)). by destruct l.
  - apply Forall_fmap. eapply Forall_impl; [exact H3|]. intros bin Hl. change (load padded (mjoin (select_indices M.*2 bin)) <= cap). rewrite load_join, <- select_indices_fmap. exact Hl.
  - exists m. by rewrite length_fmap.
Qed.

Lemma round_up_spec m z r : 0 < m -> round_up m z = Ok r -> z <= r /\ (m | r) /\ r < z + m.
Proof.
  intros Hm. unfold round_up. intros (? & _ & [= <-])%bind_Ok. pose proof (Z.div_mod (z + m - 1) m ltac:(lia)). pose proof (Z.mod_pos_bound (z + m - 1) m Hm).
  split_and!; [lia| |lia]. by exists ((z + m - 1) / m).
Qed.

(** What a chunk is packed as. *)
Record chunk_packed (args : SequencePackingArgs) (n size : nat) (lens : list Z) (c : nat) (bins : list (list nat)) (padded : list Z) : Prop := {
  cp_padded : Forall2 (fun l p => round_up (sequence_length_pad_multiple args) l = Ok p) (list_slice (c * size) ((c + 1) * size) lens) padded;
  cp_length : length padded = size;
  cp_bins : packed_bins (p_max_tokens_per_microbatch args) n padded bins }.

Lemma chunk_bins_spec args n k lens groups size c total bins padded : (0 < n)%nat -> 0 < p_max_tokens_per_microbatch args ->
  0 < sequence_length_pad_multiple args -> Forall (fun l => 0 < l) lens -> length lens = total -> ((c + 1) * size <= total)%nat ->
  (forall g, groups = Some g -> length g = total) ->
  get_packer (p_algorithm args) (p_max_tokens_per_microbatch args) (Some (Z.of_nat n)) (Some (Z.of_nat n)) (p_max_sequences_per_bin args) None = Ok k ->
  chunk_bins shuffle args k lens groups size c = Ok (bins, padded) -> chunk_packed args n size lens c bins padded.
Proof.
  intros Hn Hcap Hm Hpos Hlen Hc Hg Hk Hcb. unfold chunk_bins in Hcb. apply bind_Ok in Hcb as (p & Hp%traverse_Ok & (bs & Hb & [= <- <-])%bind_Ok).
  assert (length p = size) as Hpl by (rewrite <- (Forall2_length _ _ _ Hp), list_slice_length by (by rewrite Hlen); lia).
  assert (Forall (fun l => 0 < l) p) as Hpp.
  { assert (Forall (fun l => 0 < l) (list_slice (c * size) ((c + 1) * size) lens)) as Hs by (unfold list_slice; apply Forall_take, Forall_drop, Hpos).
    clear -Hp Hs Hm. induction Hp as [|l r ls rs Hr _ IH]; [constructor|]. apply Forall_cons in Hs as [Hl Hs]. constructor; [|by apply IH].
    apply round_up_spec in Hr; [|done]. lia. }
  constructor; [done|done|]. destruct groups as [g|]; [|by eapply pack_with_spec].
  eapply grouped_bins_spec; [done|done|exact Hk|done| |exact Hb]. rewrite list_slice_length by (rewrite (Hg g eq_refl); done). lia.
Qed.

Lemma offsets_last sb : forall start, sb <> [] -> exists a, last (offsets start sb) = Some (a, (start + length (mjoin sb))%nat).
Proof.
  induction sb as [|bin [|bin2 sb] IH]; intros start Hne; [done| |].
  - exists start. cbn. by rewrite app_nil_r.
  - destruct (IH (start + length bin)%nat ltac:(done)) as [a Ha]. exists a. cbn [offsets] in *. rewrite last_cons_cons, Ha. f_equal. f_equal.
    rewrite !join_cons, !length_app. lia.
Qed.

(** What one rank runs of a chunk. *)
Record rank_chunk (order : option string) (n s start : nat) (padded : list Z) (bins : list (list nat)) (sc : ShardChunk) (sb : list (list nat)) : Prop := {
  rc_bins : sb ≡ₚ every n s bins;
  rc_rows : sc_rows sc = (fun i => (i + start)%nat) <$> mjoin sb;
  rc_indices : sc_indices sc = offsets 0 sb;
  rc_lengths : sc_lengths sc = load padded <$> sb;
  rc_count : sc_count sc = length (mjoin sb);
  rc_largest : order = Some "largest_first" -> StronglySorted (fun a b => b <= a) (sc_lengths sc) }.

Lemma sorted_snd (l : list (list nat * Z)) : StronglySorted (fun a b : list nat * Z => (a.2 <? b.2) = false) l -> StronglySorted (fun a b => b <= a) l.*2.
Proof. induction 1 as [|x l _ IH Hx]; constructor; [done|]. apply Forall_fmap. eapply Forall_impl; [exact Hx|]. cbn. intros y Hy%Z.ltb_ge. done. Qed.

Lemma shard_chunk_spec order n s start padded bins sc : shard_chunk order n s start padded bins = Ok sc -> exists sb, rank_chunk order n s start padded bins sc sb.
Proof.
  unfold shard_chunk, shard_bins. intros (keyed & (kd & Hk%traverse_Ok & [= <-])%bind_Ok & (count & Hc & [= <-])%bind_Ok)%bind_Ok.
  set (keyed := if bool_decide (order = Some "largest_first") then py_sort (fun a b : list nat * Z => b.2 <? a.2) kd else kd) in *.
  assert (keyed ≡ₚ kd) as Hp by (unfold keyed; case_bool_decide; [apply py_sort_perm|done]).
  assert (kd = (fun bin => (bin, load padded bin)) <$> every n s bins) as Hkd.
  { clear -Hk. induction Hk as [|bin kv l kd Hb _ IH]; [done|]. unfold bin_seqlen in Hb. apply bind_Ok in Hb as (z & (ls & Hls%load_gather & [= <-])%bind_Ok & [= <-]).
    by rewrite fmap_cons, <- IH, Hls. }
  assert (keyed.*2 = load padded <$> keyed.*1) as Hl.
  { assert (Forall (fun kv : list nat * Z => kv.2 = load padded kv.1) keyed) as Hf.
    { rewrite Hp, Hkd. by apply Forall_fmap, Forall_forall. }
    clear -Hf. induction Hf as [|kv l Hkv _ IH]; [done|]. by rewrite !fmap_cons, <- IH, Hkv. }
  exists keyed.*1. constructor; cbn [sc_rows sc_indices sc_lengths sc_count]; try done.
  - rewrite Hp, Hkd, <- list_fmap_compose. change (fst ∘ (fun bin => (bin, load padded bin))) with (@id (list nat)). by rewrite list_fmap_id.
  - destruct keyed.*1 as [|bin sb]; [done|]. destruct (offsets_last (bin :: sb) 0) as [a Ha]; [done|]. rewrite Ha in Hc. by injection Hc as <-.
  - intros ->. unfold keyed. rewrite bool_decide_eq_true_2 by done.
    apply sorted_snd, py_sort_sorted; [intros x y z ?%Z.ltb_ge ?%Z.ltb_ge; apply Z.ltb_ge; lia|intros x y ?%Z.ltb_lt; apply Z.ltb_ge; lia].
Qed.

Lemma collect {A B C} (P : A -> B -> C -> Prop) l1 l2 : Forall2 (fun a b => exists c, P a b c) l1 l2 ->
  exists l3, length l3 = length l2 /\ forall i a b c, l1 !! i = Some a -> l2 !! i = Some b -> l3 !! i = Some c -> P a b c.
Proof.
  induction 1 as [|a b l1 l2 [c Hc] _ (l3 & Hl & H3)]; [by exists []|]. exists (c :: l3). split; [cbn; by rewrite Hl|].
  intros [|i] a' b' c'; cbn; [by intros [= <-] [= <-] [= <-]|]. apply H3.
Qed.

(** All of it: the chunks, and what every rank runs of each. *)
Record packed_run (args : SequencePackingArgs) (n : nat) (sz : Sizes) (b : table) (parts : list Shard) (order : list nat)
  (lens : list Z) (chunks : list (list (list nat) * list Z)) (runs : list (list ShardChunk)) : Prop := {
  pr_lens : exists c, column_at (p_input_lengths_key args) b = Ok c /\ lengths_of c = Ok lens;
  pr_chunks : length chunks = num_chunks sz /\ forall c bins padded, chunks !! c = Some (bins, padded) -> chunk_packed args n (chunk_size sz) lens c bins padded;
  pr_runs : length runs = n /\ forall s run, runs !! s = Some run -> length run = num_chunks sz /\ forall c sc, run !! c = Some sc ->
    exists bins padded sb, chunks !! c = Some (bins, padded) /\ rank_chunk (microbatch_order args) n s (c * chunk_size sz) padded bins sc sb;
  pr_parts : Forall2 (fun sh run => given b sh (mjoin (sc_rows <$> run)) /\ micro_batch_indices sh = Some (sc_indices <$> run)
    /\ micro_batch_lengths sh = Some (sc_lengths <$> run) /\ elem_counts_per_gb sh = Some (sc_count <$> run)) parts runs;
  pr_order : order = mjoin ((fun run => mjoin (sc_rows <$> run)) <$> runs) }.

Lemma column_length b n k c lens : batch_rows b = Ok n -> column_at k b = Ok c -> lengths_of c = Ok lens -> length lens = n.
Proof.
  intros [_ Hf]%batch_rows_spec Hc Hl%traverse_Ok. unfold column_at in Hc. destruct (kv_get k b) as [c'|] eqn:E; [|done]. injection Hc as ->.
  assert (exists k', (k', c) ∈ b) as [k' Hin].
  { clear -E. induction b as [|[k0 v] b IH]; [done|]. cbn [kv_get] in E. destruct (decide (k0 = k)); [injection E as ->; exists k0; left|].
    destruct (IH E) as [k' Hk]. exists k'. by right. }
  rewrite Forall_forall in Hf. specialize (Hf _ Hin). cbn in Hf. rewrite <- Hf. symmetry. by eapply Forall2_length.
Qed.

Lemma packed_shard_spec b order size n s chunks sh rows : NoDup b.*1 -> chunks <> [] -> packed_shard b order size n s chunks = Ok (sh, rows) ->
  exists run, rows = mjoin (sc_rows <$> run) /\ given b sh rows /\ micro_batch_indices sh = Some (sc_indices <$> run)
    /\ micro_batch_lengths sh = Some (sc_lengths <$> run) /\ elem_counts_per_gb sh = Some (sc_count <$> run)
    /\ length run = length chunks /\ forall c sc, run !! c = Some sc -> exists bins padded sb, chunks !! c = Some (bins, padded)
         /\ rank_chunk order n s (c * size) padded bins sc sb.
Proof.
  intros Hnd Hne Hp. unfold packed_shard in Hp. apply bind_Ok in Hp as (run & Hrun%traverse_Ok & (pieces & Hpc%traverse_Ok & (data & Hd & [= <- <-])%bind_Ok)%bind_Ok).
  pose proof (Forall2_length _ _ _ Hrun) as Hl. rewrite length_enumerate in Hl. exists run. split_and!; try done.
  - apply (from_selected_given b Hnd (sc_rows <$> run) pieces); [| |done].
    { apply Forall2_fmap_l. eapply Forall2_impl; [exact Hpc|]. intros sc d Hsc. by exists d. }
    intros H%fmap_nil_inv. rewrite H in Hl. by destruct chunks.
  - intros c sc Hc. destruct (Forall2_lookup_r _ _ _ _ _ Hrun Hc) as ([i [bins padded]] & Hi & Hsc). unfold enumerate in Hi. rewrite lookup_enumerate_from in Hi.
    destruct (chunks !! c) as [ck|] eqn:E; [|done]. injection Hi as <- ->. apply shard_chunk_spec in Hsc as [sb Hsb]. by exists bins, padded, sb.
Qed.

Lemma shard_packed_run args n sz b uneven parts order : sizes_ok b n uneven sz -> NoDup b.*1 -> total_batch_size sz <> 0%nat ->
  0 < p_max_tokens_per_microbatch args -> 0 < sequence_length_pad_multiple args ->
  (forall c lens, column_at (p_input_lengths_key args) b = Ok c -> lengths_of c = Ok lens -> Forall (fun l => 0 < l) lens) ->
  shard_packed shuffle args sz n b = Ok (parts, order) -> exists lens chunks runs, packed_run args n sz b parts order lens chunks runs.
Proof.
  intros [Hb _ Ht Hs _ _] Hnd Hne Hcap Hm Hpos Hsp. unfold shard_packed in Hsp.
  apply bind_Ok in Hsp as (? & _ & (k & Hk & (c & Hc & (lens & Hl & (groups & Hg & (chunks & Hch%traverse_Ok & (ps & Hps%traverse_Ok & [= <- <-])%bind_Ok)%bind_Ok)%bind_Ok)%bind_Ok)%bind_Ok)%bind_Ok).
  pose proof (Forall2_length _ _ _ Hch) as Hcl. rewrite length_seq in Hcl. pose proof (column_length _ _ _ _ _ Hb Hc Hl) as Hll.
  assert (chunks <> []) as Hcne by (intros ->; cbn in Hcl; lia).
  assert (forall g, groups = Some g -> length g = total_batch_size sz) as Hgl.
  { intros g ->. destruct (pair_grouping_key args); [|done]. apply bind_Ok in Hg as (c' & Hc' & (l & Hl' & [= <-])%bind_Ok). by eapply column_length. }
  destruct (collect (fun s (p : Shard * list nat) run => p.2 = mjoin (sc_rows <$> run) /\ given b p.1 p.2 /\ micro_batch_indices p.1 = Some (sc_indices <$> run)
      /\ micro_batch_lengths p.1 = Some (sc_lengths <$> run) /\ elem_counts_per_gb p.1 = Some (sc_count <$> run)
      /\ length run = length chunks /\ forall c sc, run !! c = Some sc -> exists bins padded sb, chunks !! c = Some (bins, padded)
           /\ rank_chunk (microbatch_order args) n s (c * chunk_size sz) padded bins sc sb) (seq 0 n) ps) as (runs & Hrl & Hruns).
  { eapply Forall2_impl; [exact Hps|]. intros s [sh rows] Hp. by apply packed_shard_spec in Hp. }
  pose proof (Forall2_length _ _ _ Hps) as Hpl. rewrite length_seq in Hpl.
  exists lens, chunks, runs. constructor; [by exists c| | | |].
  - split; [lia|]. intros i bins padded Hi. destruct (Forall2_lookup_r _ _ _ _ _ Hch Hi) as (i' & [-> Hlt]%lookup_seq & Hcb).
    eapply (chunk_bins_spec _ n k lens groups _ i (total_batch_size sz)); try done; [lia|by eapply Hpos|nia].
  - split; [lia|]. intros s run Hrun. destruct (lookup_lt_is_Some_2 ps s) as [p Hp]; [rewrite <- Hrl; by eapply lookup_lt_Some|].
    destruct (Hruns s s p run) as (_ & _ & _ & _ & _ & Hl' & Hc'); [|done|done|split; [lia|done]]. apply lookup_seq. split; [done|].
    rewrite Hpl. by eapply lookup_lt_Some.
  - apply Forall2_fmap_l, Forall2_same_length_lookup. split; [done|]. intros s p run Hp Hrun.
    destruct (Hruns s s p run) as (H1 & H2 & H3 & H4 & H5 & _); [|done|done|by rewrite H1 in H2]. apply lookup_seq. split; [done|].
    rewrite Hpl. by eapply lookup_lt_Some.
  - f_equal. apply list_eq. intros s. rewrite !list_lookup_fmap. destruct (ps !! s) as [p|] eqn:Ep.
    + destruct (lookup_lt_is_Some_2 runs s) as [run Hrun]; [rewrite Hrl; by eapply lookup_lt_Some|]. rewrite Hrun. cbn. f_equal.
      destruct (Hruns s s p run) as (H1 & _); [|done|done|done]. apply lookup_seq. split; [done|]. rewrite Hpl. by eapply lookup_lt_Some.
    + apply lookup_ge_None in Ep. rewrite lookup_ge_None_2 by lia. done.
Qed.

Lemma join_Forall2_perm {A} (l l' : list (list A)) : Forall2 (≡ₚ) l l' -> mjoin l ≡ₚ mjoin l'.
Proof. induction 1 as [|x y l l' Hx _ IH]; [done|]. by rewrite !join_cons, Hx, IH. Qed.

Definition packed_plan (runs : list (list ShardChunk)) : plan_t := (fun run : list ShardChunk => sc_rows <$> run) <$> runs.

Lemma fmap_seq_shift k n start : (fun i => (i + k)%nat) <$> seq start n = seq (start + k) n.
Proof. rewrite Nat.add_comm, <- fmap_add_seq. apply list_fmap_ext. intros i x _. lia. Qed.

Lemma packed_plan_dealt args n sz b parts order lens chunks runs : (0 < n)%nat -> packed_run args n sz b parts order lens chunks runs ->
  dealt (chunk_size sz) (num_chunks sz) n (packed_plan runs) /\ Forall2 (given b) parts (rank_rows (packed_plan runs)) /\ order = mjoin (rank_rows (packed_plan runs)).
Proof.
  intros Hn [_ [Hcl Hch] [Hrl Hrs] Hparts ->]. split_and!.
  - constructor; [by unfold packed_plan; rewrite length_fmap| |].
    + apply Forall_fmap, Forall_lookup. intros s run Hrun. cbn. rewrite length_fmap. by destruct (Hrs s run Hrun).
    + intros c Hc. destruct (lookup_lt_is_Some_2 chunks c) as [[bins padded] Hcc]; [lia|]. destruct (Hch c bins padded Hcc) as [_ Hpl [Honce _ _ _]].
      etrans; [apply (join_Forall2_perm _ ((fun s => (fun i => (i + c * chunk_size sz)%nat) <$> mjoin (every n s bins)) <$> seq 0 n))|].
      * unfold packed_plan. rewrite <- list_fmap_compose. apply Forall2_fmap, Forall2_same_length_lookup. rewrite length_seq. split; [done|].
        intros s run s' Hrun [-> _]%lookup_seq. destruct (Hrs s run Hrun) as [Hl Hsc]. destruct (lookup_lt_is_Some_2 run c) as [sc Hrc]; [lia|].
        destruct (Hsc c sc Hrc) as (bins' & padded' & sb & Hcc' & [Hb Hr _ _ _ _]). rewrite Hcc in Hcc'. injection Hcc' as <- <-. cbn [compose].
        unfold part. rewrite list_lookup_fmap, Hrc. change (sc_rows sc ≡ₚ (fun i => (i + c * chunk_size sz)%nat) <$> mjoin (every n s bins)). rewrite Hr. by rewrite Hb.
      * assert (forall l, mjoin ((fun s => (fun i => (i + c * chunk_size sz)%nat) <$> mjoin (every n s bins)) <$> l)
                  = (fun i => (i + c * chunk_size sz)%nat) <$> mjoin (mjoin ((fun s => every n s bins) <$> l))) as ->.
        { induction l as [|s l IH]; [done|]. rewrite !fmap_cons, !join_cons, IH, join_app, fmap_app. done. }
        rewrite every_deal by done. rewrite Honce, Hpl. by rewrite fmap_seq_shift.
  - unfold rank_rows, packed_plan. rewrite <- list_fmap_compose. apply Forall2_fmap_r. eapply Forall2_impl; [exact Hparts|]. by intros sh run (H & _).
  - unfold rank_rows, packed_plan. by rewrite <- list_fmap_compose.
Qed.
End packed.

(** ** Putting rows back in order *)

Lemma traverse_perm {A B} (f : A -> res B) l l' ys : l ≡ₚ l' -> traverse f l = Ok ys -> exists ys', traverse f l' = Ok ys' /\ ys ≡ₚ ys'.
Proof.
  intros Hp. revert ys. induction Hp as [|x l l' _ IH|x y l|l l' l'' _ IH1 _ IH2]; intros ys Hy.
  - by exists ys.
  - apply traverse_Ok in Hy. inversion Hy as [|? z ? zs Hx Hr]; subst. apply traverse_Ok, IH in Hr as (zs' & Hz & Hp). exists (z :: zs').
    split; [|by rewrite Hp]. apply traverse_Ok. constructor; [done|by apply traverse_Ok].
  - apply traverse_Ok in Hy. inversion Hy as [|? z1 ? zs1 Hx Hr]; subst. inversion Hr as [|? z2 ? zs2 Hx2 Hr2]; subst. exists (z2 :: z1 :: zs2).
    split; [apply traverse_Ok; by repeat constructor|]. apply Permutation_swap.
  - apply IH1 in Hy as (ys1 & Hy1 & Hp1). apply IH2 in Hy1 as (ys2 & Hy2 & Hp2). exists ys2. split; [done|]. by rewrite Hp1.
Qed.

Lemma select_identity b n : batch_rows b = Ok n -> select (seq 0 n) b = Ok b.
Proof.
  intros [_ Hf]%batch_rows_spec. apply traverse_Ok. induction Hf as [|[k c] b Hc _ IH]; constructor; [|done]. cbn [snd fst] in *. unfold select_rows.
  rewrite gather_selects by (apply Forall_forall; intros i ?%elem_of_seq; lia). cbn [mbind res_bind]. rewrite <- Hc, select_all. by destruct c.
Qed.

(** Sorting positions by where they belong inverts a permutation. *)
Lemma sort_inverts order n : order ≡ₚ seq 0 n ->
  let back := snd <$> py_sort (fun a b : nat * nat => a.1 <? b.1)%nat (zip order (seq 0 n)) in
  Forall (fun i => (i < n)%nat) back /\ select_indices order back = seq 0 n.
Proof.
  intros Ho back. assert (length order = n) as Hl by (rewrite Ho; apply length_seq).
  set (Z := py_sort (fun a b : nat * nat => a.1 <? b.1)%nat (zip order (seq 0 n))) in *.
  assert (Z ≡ₚ zip order (seq 0 n)) as HZ by apply py_sort_perm.
  assert (Forall (fun kp => order !! kp.2 = Some kp.1) Z) as Hall.
  { rewrite HZ. apply Forall_lookup. intros i [k p] Hi. apply lookup_zip_with_Some in Hi as (k' & p' & [= <- <-] & Hk & [-> _]%lookup_seq). done. }
  assert (Z.*1 = seq 0 n) as Hfst.
  { apply (StronglySorted_unique le).
    - assert (StronglySorted (fun a b : nat * nat => (b.1 <? a.1)%nat = false) Z) as Hs.
      { apply py_sort_sorted; [intros x y z ?%Nat.ltb_ge ?%Nat.ltb_ge; apply Nat.ltb_ge; lia|intros x y ?%Nat.ltb_lt; apply Nat.ltb_ge; lia]. }
      clear -Hs. induction Hs as [|x Z _ IH Hx]; constructor; [done|]. apply Forall_fmap. eapply Forall_impl; [exact Hx|]. cbn. intros y Hy%Nat.ltb_ge. done.
    - apply (StronglySorted_seq 0 n) || (clear; generalize 0%nat as s; induction n as [|n IH]; intros s; constructor; [apply IH|apply Forall_forall; intros i ?%elem_of_seq; lia]).
    - rewrite HZ, fst_zip by (rewrite length_seq; lia). exact Ho. }
  split.
  - unfold back. apply Forall_fmap. eapply Forall_impl; [exact Hall|]. intros [k p] Hk. cbn in *. rewrite <- Hl. by eapply lookup_lt_Some.
  - rewrite <- Hfst. unfold back. clear -Hall. induction Hall as [|[k p] Z Hk _ IH]; [done|]. cbn [fmap list_fmap fst snd] in *. by rewrite (select_cons order p k), IH.
Qed.

Lemma reorder_restores b all n order : NoDup b.*1 -> batch_rows b = Ok n -> order ≡ₚ seq 0 n -> holds b all order ->
  exists r, reorder_data order all = Ok r /\ r ≡ₚ b.
Proof.
  intros Hnd Hb Ho (d & Hd & Hp). destruct (select_size _ _ _ _ Hb Hd) as [Hdr _]. assert (length order = n) as Hl by (rewrite Ho; apply length_seq). rewrite Hl in Hdr.
  assert (batch_rows all = Ok n) as Har.
  { apply batch_rows_spec in Hdr as [Hne Hf]. apply batch_rows_intro; [|by rewrite Hp]. intros ->. apply Hne. by apply Permutation_nil_l in Hp. }
  destruct (sort_inverts order n Ho) as [Hback Hinv]. cbv zeta in *. set (back := snd <$> py_sort _ _) in *.
  destruct (select_total all n back Har Hback) as [r Hr]. exists r. unfold reorder_data. rewrite Har. cbn [mbind res_bind]. fold back. split; [done|].
  destruct (traverse_perm _ _ _ _ Hp Hr) as (r' & Hr' & Hrp). rewrite Hrp.
  assert (select (select_indices order back) b = Ok r') as Hs by (eapply select_select; [exact Hd|exact Hr'|by rewrite Hl]).
  rewrite Hinv, (select_identity b n Hb) in Hs. by injection Hs as <-.
Qed.

(** ** Properties *)

Section properties.
Context (shuffle : nat -> list (Z * nat) -> list (Z * nat)) (Hshuffle : forall c items, shuffle c items ≡ₚ items).

(** Packing is asked for on rows with tokens. *)
Definition packable (b : table) (mode : batching) : Prop :=
  match mode with
  | Packed args =>
      batch_rows b <> Ok 0%nat /\ 0 < p_max_tokens_per_microbatch args /\ 0 < sequence_length_pad_multiple args
      /\ forall c lens, column_at (p_input_lengths_key args) b = Ok c -> lengths_of c = Ok lens -> Forall (fun l => 0 < l) lens
  | _ => True
  end.

Lemma packable_run args b n uneven sz parts order : sizes_ok b n uneven sz -> NoDup b.*1 -> packable b (Packed args) ->
  shard_packed shuffle args sz n b = Ok (parts, order) -> exists lens chunks runs, packed_run args n sz b parts order lens chunks runs.
Proof.
  intros Hz Hnd (Hne & Hcap & Hm & Hpos) Hp. eapply (shard_packed_run shuffle Hshuffle args n sz b uneven); try done.
  pose proof Hz as [Hb _ _ _ _ _]. intros H0. apply Hne. by rewrite Hb, H0.
Qed.

(** The rows of the ranks, and the order that was returned where it is theirs. *)
Lemma sharded_rows b n batch_size uneven mode parts order :
  NoDup b.*1 -> packable b mode -> shard_by_batch_size shuffle b n batch_size uneven mode = Ok (parts, order) ->
  exists plan total, batch_rows b = Ok total /\ n <> 0%nat /\ length plan = n /\ Forall2 (given b) parts (rank_rows plan) /\ mjoin (rank_rows plan) ≡ₚ seq 0 total
    /\ forall o, order = Some o -> (forall args, mode = Dynamic args -> batch_size = None) -> o = mjoin (rank_rows plan).
Proof.
  intros Hnd Hpk Hs. unfold shard_by_batch_size in Hs. apply bind_Ok in Hs as (sz & (Hz & Hbs & _)%sizes_checked & Hs). pose proof Hz as [Hb _ Ht Hn0 _ _].
  destruct mode as [|args|args].
  - apply bind_Ok in Hs as (ps & Hps%range_shards_given & [= <- <-]). pose proof (range_plan_dealt _ _ _ _ Hz) as Hd.
    eexists _, _. split_and!; [exact Hb|done|apply Hd| |rewrite Ht; by eapply dealt_rows|done]. eapply Forall2_impl; [exact Hps|]. intros sh idx Hsel. by exists (sh_data sh).
  - apply bind_Ok in Hs as ([ps o] & Hd & [= <- <-]). destruct (shard_dynamic_given _ _ _ _ _ _ _ Hz Hd) as (H1 & H2 & _ & H4).
    eexists _, _. split_and!; [exact Hb|done|apply H1|exact H2|rewrite Ht; by eapply dealt_rows|]. intros o' [= <-] Hmode. rewrite H4; [done|]. apply Hbs. by eapply Hmode.
  - apply bind_Ok in Hs as ([ps o] & Hp & [= <- <-]). destruct (packable_run args b n uneven sz ps o Hz Hnd Hpk Hp) as (lens & chunks & runs & Hrun).
    destruct (packed_plan_dealt args n sz b ps o lens chunks runs) as (H1 & H2 & ->); [lia|done|].
    eexists _, _. split_and!; [exact Hb|done|apply H1|exact H2|rewrite Ht; by eapply dealt_rows|]. by intros o' [= <-] _.
Qed.

(** C6 Every row goes to one rank.  Whatever the way of batching, each chunk of
    [batch_size] rows is dealt out whole: every row of the chunk is in exactly one
    rank's part of it, each rank has, column by column, the rows of its parts in
    order, and the returned order of a packed batch, or of a sorted one of a single
    chunk, is that of the ranks' rows; without batching a rank's part of a chunk is
    its range. *)
Theorem every_row_goes_to_one_rank b n batch_size uneven mode parts order :
  NoDup b.*1 -> packable b mode -> shard_by_batch_size shuffle b n batch_size uneven mode = Ok (parts, order) ->
  exists size chunks plan, batch_rows b = Ok (chunks * size)%nat
    /\ (batch_size = Some size \/ (batch_size = None /\ chunks = 1%nat))
    /\ dealt size chunks n plan /\ Forall2 (given b) parts (rank_rows plan) /\ mjoin (rank_rows plan) ≡ₚ seq 0 (chunks * size)
    /\ match mode with
       | NoBatching => order = None /\ (uneven = false -> plan = (fun s => (fun c => seq (c * size + s * (size / n)) (size / n)) <$> seq 0 chunks) <$> seq 0 n)
       | Dynamic _ => chunks = 1%nat -> order = Some (mjoin (rank_rows plan))
       | Packed _ => order = Some (mjoin (rank_rows plan))
       end.
Proof.
  intros Hnd Hpk Hs. unfold shard_by_batch_size in Hs. apply bind_Ok in Hs as (sz & (Hz & Hbs & Hbs')%sizes_checked & Hs). pose proof Hz as [Hb Hsz Ht Hn0 He _].
  assert (batch_size = Some (chunk_size sz) \/ batch_size = None /\ num_chunks sz = 1%nat) as Hsize.
  { destruct batch_size as [m|]; [left; by rewrite (Hbs' m eq_refl)|right; split; [done|by apply Hbs]]. }
  rewrite Ht in Hb. exists (chunk_size sz), (num_chunks sz). destruct mode as [|args|args].
  - apply bind_Ok in Hs as (ps & Hps%range_shards_given & [= <- <-]). pose proof (range_plan_dealt _ _ _ _ Hz) as Hd.
    exists (range_plan uneven sz n). split_and!; try done; [|by eapply dealt_rows| ].
    + eapply Forall2_impl; [exact Hps|]. intros sh idx Hsel. by exists (sh_data sh).
    + intros Hu. assert (chunk_size sz / n = shard_size sz)%nat as -> by (rewrite (He Hu), Nat.mul_comm; by apply Nat.div_mul).
      rewrite Hu. unfold range_plan. apply list_fmap_ext. intros i s _. apply list_fmap_ext. intros j c _. apply shard_range_even.
  - apply bind_Ok in Hs as ([ps o] & Hd & [= <- <-]). destruct (shard_dynamic_given _ _ _ _ _ _ _ Hz Hd) as (H1 & H2 & _ & H4).
    eexists. split_and!; [done|done|exact H1|exact H2|by eapply dealt_rows|]. intros Hc. by rewrite H4.
  - apply bind_Ok in Hs as ([ps o] & Hp & [= <- <-]). destruct (packable_run args b n uneven sz ps o Hz Hnd Hpk Hp) as (lens & chunks & runs & Hrun).
    destruct (packed_plan_dealt args n sz b ps o lens chunks runs) as (H1 & H2 & ->); [lia|done|].
    eexists. split_and!; [done|done|exact H1|exact H2|by eapply dealt_rows|done].
Qed.

(** C10 The outputs of the ranks can be put back in order.  Stacking the ranks'
    parts in rank order and reordering them by the order that was returned gives
    the batch, up to the order of its columns: after sorting by length, of a batch
    that is one chunk, and after packing, of any batch. *)
Theorem reordering_restores_the_batch b n batch_size uneven mode parts order all :
  NoDup b.*1 -> packable b mode -> shard_by_batch_size shuffle b n batch_size uneven mode = Ok (parts, Some order) ->
  (forall args, mode = Dynamic args -> batch_size = None) -> from_selected (sh_data <$> parts) = Ok all ->
  exists r, reorder_data order all = Ok r /\ r ≡ₚ b.
Proof.
  intros Hnd Hpk Hs Hmode Hall. destruct (sharded_rows _ _ _ _ _ _ _ Hnd Hpk Hs) as (plan & total & Hb & Hn & Hpl & Hg & Hperm & Ho).
  rewrite (Ho order eq_refl Hmode). apply (reorder_restores b all total); try done. apply (from_selected_given b Hnd (rank_rows plan) (sh_data <$> parts)); [| |done].
  - apply Forall2_fmap_r. apply Forall2_flip. eapply Forall2_impl; [exact Hg|]. done.
  - intros H%fmap_nil_inv. subst plan. done.
Qed.
End properties.

(** ** Witnesses *)

Module Demo.
Definition batch : list (string * col) :=
  [("input_ids", TensorCol ((fun i => Row [8] [Z.of_nat i]) <$> seq 0 8));
   ("input_lengths", TensorCol (Num <$> [3; 7; 2; 8; 5; 5; 1; 4]));
   ("names", ListCol ((fun i => Obj (VInt (Z.of_nat i))) <$> seq 0 8))].
Definition packing : SequencePackingArgs :=
  mkSeqPacking 8 "input_lengths" (inl MODIFIED_FIRST_FIT_DECREASING) (Some "largest_first") 1 None None.
Definition sorting : DynamicBatchingArgs := mkDynamic 16 2 "input_ids" "input_lengths".
Definition shuffle (c : nat) (items : list (Z * nat)) : list (Z * nat) := reverse items.

Lemma shuffle_perm c items : shuffle c items ≡ₚ items.
Proof. apply reverse_Permutation. Qed.

Lemma batch_keys : NoDup batch.*1.
Proof. by apply (bool_decide_unpack _). Qed.

Lemma batch_packable : packable batch (Packed packing).
Proof. split_and!; [done..|]. intros c lens [= <-] [= <-]. by apply (bool_decide_unpack _). Qed.

Definition packed := match shard_by_batch_size shuffle batch 2 (Some 4%nat) false (Packed packing) with Ok r => r | Raise _ => ([], None) end.
Definition sorted := match shard_by_batch_size shuffle batch 2 None false (Dynamic sorting) with Ok r => r | Raise _ => ([], None) end.
Definition stacked := match from_selected (sh_data <$> sorted.1) with Ok t => t | Raise _ => [] end.

Lemma rows_witness : shard_by_batch_size shuffle batch 2 (Some 4%nat) false (Packed packing) = Ok (packed.1, Some [3; 0; 4; 7; 1; 2; 5; 6]%nat)
  /\ exists size chunks plan, batch_rows batch = Ok (chunks * size)%nat /\ dealt size chunks 2 plan /\ Forall2 (given batch) packed.1 (rank_rows plan)
     /\ mjoin (rank_rows plan) ≡ₚ seq 0 (chunks * size).
Proof.
  split; [by vm_compute|].
  destruct (every_row_goes_to_one_rank shuffle shuffle_perm batch 2 (Some 4%nat) false (Packed packing) packed.1 (Some [3; 0; 4; 7; 1; 2; 5; 6]%nat)
    batch_keys batch_packable ltac:(by vm_compute)) as (size & chunks & plan & Hb & _ & Hd & Hg & Hp & _).
  by exists size, chunks, plan.
Defined.

Lemma restore_witness : shard_by_batch_size shuffle batch 2 None false (Dynamic sorting) = Ok (sorted.1, Some [6; 0; 4; 1; 2; 7; 5; 3]%nat)
  /\ exists r, reorder_data [6; 0; 4; 1; 2; 7; 5; 3]%nat stacked = Ok r /\ r ≡ₚ batch.
Proof.
  split; [by vm_compute|].
  exact (reordering_restores_the_batch shuffle shuffle_perm batch 2 None false (Dynamic sorting) sorted.1 [6; 0; 4; 1; 2; 7; 5; 3]%nat stacked
    batch_keys I ltac:(by vm_compute) (fun _ _ => eq_refl) ltac:(by vm_compute)).
Defined.
End Demo.
