(* ===== verification/ShardingBack.v ===== *)
(** * What a rank reads back

    [get_batch] and the microbatch iterators ([Sharding]) on the parts of
    [shard_by_batch_size]: a rank that packs runs the bins it was dealt, as many as
    the other ranks; a rank with dynamic batches runs consecutive ranges of its
    rows that hold no more tokens than allowed, the same ranges on every rank; a
    plain batch is cut into microbatches of the size asked for. *)

From S2P Require Import Prelude.
From S2P Require Import PyVal.
From S2P Require Import PyStr.
From S2P Require Import DataPlaneMeta.
From S2P Require Import LogicalOwners.
From S2P Require Import Packing.
From S2P Require Import PackingSimple.
From S2P Require Import PackingMffd.
From S2P Require Import Sharding.
From S2P Require Import ShardingProps.
#[local] Open Scope string_scope.
#[local] Open Scope Z_scope.

(** ** Slices *)

Lemma select_seq {A} (l : list A) s k : (s + k <= length l)%nat -> select_indices l (seq s k) = take k (drop s l).
Proof.
  intros Hl. apply list_eq. intros j. rewrite select_indices_lookup by (apply Forall_forall; intros i ?%elem_of_seq; lia).
  destruct (decide (j < k)%nat) as [Hj|Hj].
  - by rewrite lookup_seq_lt, lookup_take_lt, lookup_drop by done.
  - rewrite lookup_seq_ge by lia. rewrite lookup_ge_None_2; [done|]. rewrite length_take. lia.
Qed.

Lemma slice_is_select s e d n : batch_rows d = Ok n -> (s <= e <= n)%nat -> slice_table s e d = select (seq s (e - s)) d.
Proof.
  intros [_ Hf]%batch_rows_spec Hse. unfold slice_table, select. induction Hf as [|[k c] d Hc _ IH]; [done|]. cbn [traverse fst snd] in *. rewrite IH. f_equal.
  unfold slice_column, select_rows. rewrite gather_selects by (apply Forall_forall; intros i ?%elem_of_seq; lia). rewrite select_seq by lia.
  assert ((length (rows_of c) <? e)%nat = false) as Hlt by (apply Nat.ltb_ge; lia). destruct c; cbn [rows_of] in *; rewrite ?Hlt; done.
Qed.

Lemma holds_rows b n data idx : batch_rows b = Ok n -> holds b data idx -> batch_rows data = Ok (length idx) /\ Forall (fun i => (i < n)%nat) idx.
Proof.
  intros Hb (d & Hd & Hp). destruct (select_size _ _ _ _ Hb Hd) as [Hr Hi]. split; [|done]. apply batch_rows_spec in Hr as [Hne Hf].
  apply batch_rows_intro; [|by rewrite Hp]. intros ->. apply Hne. by apply Permutation_nil_l in Hp.
Qed.

(** A slice of rows of a batch is those rows of it. *)
Lemma slice_holds b n data idx s e : batch_rows b = Ok n -> holds b data idx -> (s <= e <= length idx)%nat ->
  exists t, slice_table s e data = Ok t /\ holds b t (list_slice s e idx).
Proof.
  intros Hb Hh Hse. destruct (holds_rows _ _ _ _ Hb Hh) as [Hr _]. destruct Hh as (d & Hd & Hp). rewrite (slice_is_select s e data _ Hr Hse).
  destruct (select_total data (length idx) (seq s (e - s)) Hr) as [t Ht]; [apply Forall_forall; intros i ?%elem_of_seq; lia|]. exists t. split; [done|].
  destruct (traverse_perm _ _ _ _ Hp Ht) as (t' & Ht' & Htp). exists t'. split; [|done]. unfold list_slice. rewrite <- select_seq by lia.
  eapply select_select; [exact Hd|exact Ht'|]. apply Forall_forall. intros i ?%elem_of_seq. lia.
Qed.

(** One microbatch: its rows, and the length it is read with. *)
Definition reads (b data : table) (rows : list nat) (t : table * Z) (mb : nat * nat * Z) : Prop :=
  slice_table mb.1.1 mb.1.2 data = Ok t.1 /\ holds b t.1 (list_slice mb.1.1 mb.1.2 rows) /\ t.2 = mb.2.

Lemma microbatches_read b n sh rows idx lens : batch_rows b = Ok n -> holds b (sh_data sh) rows ->
  micro_batch_indices sh = Some [idx] -> micro_batch_lengths sh = Some [lens] -> Forall (fun p => (p.1 <= p.2 <= length rows)%nat) idx ->
  exists tables, microbatches sh = Ok tables /\ Forall2 (reads b (sh_data sh) rows) tables (zip idx lens).
Proof.
  intros Hb Hh Hi Hl Hin. unfold microbatches. rewrite Hi, Hl. clear Hi Hl. revert lens. induction Hin as [|p idx Hp _ IH]; intros lens.
  - exists []. by destruct lens.
  - destruct lens as [|z lens]; [by exists []|]. destruct (IH lens) as (tables & Ht & Hf). destruct (slice_holds b n _ rows p.1 p.2 Hb Hh Hp) as (t & Hs & Hth).
    exists ((t, z) :: tables). split; [|by constructor]. cbn [zip zip_with traverse fst snd]. rewrite Hs. cbn [mbind res_bind]. cbn [zip] in Ht. by rewrite Ht.
Qed.

Lemma Forall2_exists_seq {A} (P : nat -> A -> Prop) k : (forall i, (i < k)%nat -> exists x, P i x) -> exists l, Forall2 P (seq 0 k) l.
Proof.
  induction k as [|k IH]; intros H; [by exists []|]. destruct IH as [l Hl]; [intros i Hi; apply H; lia|]. destruct (H k ltac:(lia)) as [x Hx].
  exists (l ++ [x])%list. rewrite seq_S. apply Forall2_app; [done|by constructor].
Qed.

(** Microbatches of a size that divides the batch cover it in order. *)
Lemma plain_microbatches b n data rows m : batch_rows b = Ok n -> holds b data rows -> m <> 0%nat -> (length rows mod m = 0)%nat ->
  exists tables cuts, make_microbatch_iterator m data = Ok tables /\ Forall2 (holds b) tables cuts
    /\ mjoin cuts = rows /\ Forall (fun cut => length cut = m) cuts.
Proof.
  intros Hb Hh Hm Hd. destruct (holds_rows _ _ _ _ Hb Hh) as [Hr _]. assert (dict_size data = length rows) as Hs.
  { apply batch_rows_spec in Hr as [Hne Hf]. destruct data as [|[k c] data]; [done|]. by apply Forall_cons in Hf as [Hc _]. }
  unfold make_microbatch_iterator. rewrite Hs. destruct (Nat.eqb_spec m 0) as [|_]; [done|]. rewrite Hd. cbn [Nat.eqb negb raise_if mbind res_bind].
  pose proof (Nat.div_mod_eq (length rows) m) as Hdiv. rewrite Hd in Hdiv. set (k := (length rows / m)%nat) in *. rewrite Nat.add_0_r, Nat.mul_comm in Hdiv.
  assert (exists tables, Forall2 (fun i t => slice_table (i * m) (i * m + m) data = Ok t /\ holds b t (list_slice (i * m) (i * m + m) rows)) (seq 0 k) tables)
    as [tables Ht].
  { apply Forall2_exists_seq. intros i Hi. apply (slice_holds b n); [done|done|nia]. }
  exists tables, ((fun i => list_slice (i * m) (i * m + m) rows) <$> seq 0 k). split_and!.
  - apply traverse_Ok. eapply Forall2_impl; [exact Ht|]. by intros i t [H _].
  - apply Forall2_fmap_r, Forall2_flip. eapply Forall2_impl; [exact Ht|]. by intros i t [_ H].
  - etrans; [|apply select_all]. rewrite Hdiv, <- (join_ranges m), select_indices_join, <- list_fmap_compose. f_equal. apply list_fmap_ext.
    intros j i [-> Hj]%lookup_seq. cbn [compose Nat.add]. rewrite select_seq by nia. unfold list_slice. f_equal. lia.
  - apply Forall_fmap, Forall_forall. intros i ?%elem_of_seq. cbn. rewrite list_slice_length by nia. lia.
Qed.

(** ** Packed ranks *)

Lemma offsets_slices {A} (f : nat -> A) : forall sb pre, Forall2 (fun p (bin : list nat) => (p.1 <= p.2 <= length pre + length (mjoin sb))%nat
  /\ list_slice p.1 p.2 (pre ++ (f <$> mjoin sb))%list = f <$> bin) (offsets (length pre) sb) sb.
Proof.
  induction sb as [|bin sb IH]; intros pre; [constructor|]. cbn [offsets]. rewrite join_cons, fmap_app. constructor.
  - cbn [fst snd]. split; [rewrite length_app; lia|]. unfold list_slice. rewrite drop_app_length.
    replace (length pre + length bin - length pre)%nat with (length (f <$> bin)) by (rewrite length_fmap; lia). apply take_app_length.
  - specialize (IH (pre ++ (f <$> bin))%list). rewrite length_app, length_fmap in IH. eapply Forall2_impl; [exact IH|]. intros p b' [Hp Hs].
    split; [rewrite length_app; lia|]. by rewrite <- app_assoc in Hs.
Qed.

Lemma sum_lengths {A} (ls : list (list A)) : foldr Nat.add 0%nat (length <$> ls) = length (mjoin ls).
Proof. induction ls as [|l ls IH]; [done|]. rewrite join_cons, length_app, <- IH. done. Qed.

Lemma sum_take {A} (ls : list (list A)) c : foldr Nat.add 0%nat (take c (length <$> ls)) = length (mjoin (take c ls)).
Proof. by rewrite <- fmap_take, sum_lengths. Qed.

Lemma slice_bounds {A} (ls : list (list A)) c x : ls !! c = Some x ->
  (length (mjoin (take c ls)) <= length (mjoin (take (S c) ls)) <= length (mjoin ls))%nat.
Proof.
  intros Hc. assert (length (mjoin ls) = length (mjoin (take c ls)) + (length x + length (mjoin (drop (S c) ls))))%nat as ->.
  { rewrite <- (take_drop_middle ls c x Hc) at 1. by rewrite join_app, join_cons, !length_app. }
  rewrite (take_S_r _ _ _ Hc), join_app, length_app, join_cons, length_app. cbn. lia.
Qed.

(** A rank's batch of a chunk is what it was given of it. *)
Lemma get_packed_given b n sh run c sc : batch_rows b = Ok n -> given b sh (mjoin (sc_rows <$> run)) -> micro_batch_indices sh = Some (sc_indices <$> run) ->
  micro_batch_lengths sh = Some (sc_lengths <$> run) -> elem_counts_per_gb sh = Some (sc_count <$> run) -> Forall (fun sc => sc_count sc = length (sc_rows sc)) run ->
  run !! c = Some sc ->
  exists mb, get_batch sh c None = Ok mb /\ given b mb (sc_rows sc) /\ micro_batch_indices mb = Some [sc_indices sc] /\ micro_batch_lengths mb = Some [sc_lengths sc].
Proof.
  intros Hb Hg Hi Hl He Hcount Hc. assert (sc_count <$> run = length <$> (sc_rows <$> run)) as Hcs.
  { rewrite <- list_fmap_compose. apply list_fmap_ext. intros i x Hx. rewrite Forall_lookup in Hcount. by eapply Hcount. }
  assert ((sc_rows <$> run) !! c = Some (sc_rows sc)) as Hrc by (by rewrite list_lookup_fmap, Hc).
  unfold get_batch. rewrite He. unfold get_packed_batch. rewrite Hi, Hl. rewrite bool_decide_eq_false_2 by done.
  cbn [raise_if mbind res_bind default]. unfold id.
  assert (forall B (f : ShardChunk -> B), get_index (f <$> run) c = Ok (f sc)) as Hget by (intros B f; apply get_index_Ok; by rewrite list_lookup_fmap, Hc).
  destruct (slice_holds b n (sh_data sh) (mjoin (sc_rows <$> run)) (foldr Nat.add 0%nat (take c (sc_count <$> run))) (foldr Nat.add 0%nat (take (S c) (sc_count <$> run))) Hb Hg)
    as (t & Ht & Hh).
  { rewrite Hcs, !sum_take. by eapply slice_bounds. }
  rewrite (Hget _ sc_count). cbn [mbind res_bind]. rewrite Ht. cbn [mbind res_bind]. rewrite (Hget _ sc_indices). cbn [mbind res_bind]. rewrite (Hget _ sc_lengths). cbn [mbind res_bind]. eexists. split; [done|]. split_and!; [|done|done].
  unfold given. cbn [sh_data]. rewrite Hcs, !sum_take in Hh. by rewrite (slice_join _ _ _ Hrc) in Hh.
Qed.

(** A rank reads these bins of a chunk, each within the capacity. *)
Definition runs_bins (b : table) (start : nat) (padded : list Z) (cap : Z) : list (table * Z) -> list (list nat) -> Prop :=
  Forall2 (fun t bin => holds b t.1 ((fun i => (i + start)%nat) <$> bin) /\ t.2 = load padded bin /\ t.2 <= cap).

Lemma chunk_reads b total order n s start padded bins sc sb mb cap : batch_rows b = Ok total -> rank_chunk order n s start padded bins sc sb ->
  Forall (fun bin => load padded bin <= cap) bins -> given b mb (sc_rows sc) ->
  micro_batch_indices mb = Some [sc_indices sc] -> micro_batch_lengths mb = Some [sc_lengths sc] ->
  exists tables, microbatches mb = Ok tables /\ runs_bins b start padded cap tables sb /\ tables.*2 = sc_lengths sc.
Proof.
  intros Hb [Hsb Hr Hi Hl _ _] Hcap Hg Hmi Hml. pose proof (offsets_slices (fun i => (i + start)%nat) sb []) as Hoff. cbn [length Nat.add app] in Hoff.
  destruct (microbatches_read b total mb (sc_rows sc) (sc_indices sc) (sc_lengths sc) Hb Hg Hmi Hml) as (tables & Ht & Hf).
  { rewrite Hi, Hr, length_fmap. apply Forall_lookup. intros i p Hp. destruct (Forall2_lookup_l _ _ _ _ _ Hoff Hp) as (bin & _ & H & _). exact H. }
  exists tables. split; [done|]. assert (Forall (fun bin => load padded bin <= cap) sb) as Hfit.
  { rewrite Hsb. apply Forall_forall. intros bin Hin. rewrite Forall_forall in Hcap. apply Hcap. unfold every in Hin.
    apply list_elem_of_omap in Hin as (j & _ & Hj). by eapply list_elem_of_lookup_2. }
  rewrite Hi, Hl, Hr in *. clear -Hf Hoff Hfit. set (L := (fun i => (i + start)%nat) <$> mjoin sb) in *. clearbody L. revert tables Hf Hfit. unfold runs_bins.
  induction Hoff as [|p bin ps bs [_ Hs] _ IH]; intros tables Hf Hfit; [inversion Hf; by subst|]. rewrite fmap_cons in Hf. cbn [zip zip_with] in Hf.
  inversion Hf as [|t ? tables' ? (_ & Ht1 & Ht2) Hf']; subst. apply Forall_cons in Hfit as [Hc Hfit]. cbn [fst snd] in *. rewrite Hs in Ht1.
  destruct (IH _ Hf' Hfit) as [H1 H2]. split; [|by rewrite !fmap_cons, <- H2, Ht2]. constructor; [|done]. rewrite Ht2. done.
Qed.

(** A shard of any batch with the attributes of a run reads the run's bins. *)
Lemma run_reads args B total n sz lens chunks run s sh c bins padded m : batch_rows B = Ok total -> (s < n)%nat ->
  (forall c bins padded, chunks !! c = Some (bins, padded) -> chunk_packed args n (chunk_size sz) lens c bins padded) ->
  length run = length chunks -> (forall c sc, run !! c = Some sc -> exists bins padded sb, chunks !! c = Some (bins, padded)
    /\ rank_chunk (microbatch_order args) n s (c * chunk_size sz) padded bins sc sb) ->
  given B sh (mjoin (sc_rows <$> run)) -> micro_batch_indices sh = Some (sc_indices <$> run) -> micro_batch_lengths sh = Some (sc_lengths <$> run) ->
  elem_counts_per_gb sh = Some (sc_count <$> run) -> chunks !! c = Some (bins, padded) -> length bins = (m * n)%nat ->
  exists mb tables sb, get_batch sh c None = Ok mb /\ microbatches mb = Ok tables /\ length tables = m /\ sb ≡ₚ every n s bins
    /\ runs_bins B (c * chunk_size sz) padded (p_max_tokens_per_microbatch args) tables sb
    /\ (microbatch_order args = Some "largest_first" -> StronglySorted (fun x y => y <= x) tables.*2).
Proof.
  intros Hb Hs Hch Hlen Hsc Hg Hi Hl He Hc Hm.
  destruct (lookup_lt_is_Some_2 run c) as [sc Hrc]; [rewrite Hlen; by eapply lookup_lt_Some|].
  destruct (Hsc c sc Hrc) as (bins' & padded' & sb & Hc' & Hk). rewrite Hc in Hc'. injection Hc' as <- <-.
  destruct (get_packed_given B _ sh run c sc Hb Hg Hi Hl He) as (mb & Hmb & Hmg & Hmi & Hml); [|done|].
  { apply Forall_lookup. intros i x Hx. destruct (Hsc i x Hx) as (? & ? & ? & _ & [_ Hr _ _ Hct _]). by rewrite Hr, length_fmap. }
  destruct (Hch c bins padded Hc) as [_ _ [_ _ Hfit _]].
  destruct (chunk_reads B _ _ n s _ padded bins sc sb mb _ Hb Hk Hfit Hmg Hmi Hml) as (tables & Ht & Hruns & Htl).
  exists mb, tables, sb. split_and!; try done; [|by apply Hk|by rewrite Htl; apply Hk].
  rewrite (Forall2_length _ _ _ Hruns), (rc_bins _ _ _ _ _ _ _ _ Hk). by apply every_length.
Qed.

(** ** Dynamic batches *)

(** Consecutive ranges from [a] to [z], none of them empty. *)
Fixpoint tiles (a z : nat) (l : list (nat * nat)) : Prop :=
  match l with [] => a = z | p :: l => p.1 = a /\ (a < p.2)%nat /\ tiles p.2 z l end.

Lemma tiles_app a z l p : tiles a p.1 l -> (p.1 < p.2)%nat -> z = p.2 -> tiles a z (l ++ [p])%list.
Proof. revert a. induction l as [|q l IH]; intros a; cbn; [intros -> Hp ->; done|]. intros (-> & Hq & Ht) Hp ->. split_and!; [done|done|by apply IH]. Qed.

Lemma tiles_bounds a z l : tiles a z l -> (a <= z)%nat /\ Forall (fun p => (a <= p.1 <= p.2 /\ p.2 <= z)%nat) l.
Proof.
  revert a. induction l as [|q l IH]; intros a; cbn; [intros ->; by split|]. intros (<- & Hq & [Hz Hl]%IH). split; [lia|]. constructor; [lia|].
  eapply Forall_impl; [exact Hl|]. cbn. lia.
Qed.

Lemma longest_at_spec lens i : forall acc z, longest_at lens i acc = Ok z -> acc <= z /\ Forall (fun ls => exists x, ls !! i = Some x /\ x <= z) lens.
Proof.
  induction lens as [|ls lens IH]; intros acc z; cbn [longest_at]; [intros [= ->]; by split; [lia|]|].
  intros (x & Hx%get_index_Ok & [Ha Hf]%IH)%bind_Ok. split; [lia|]. constructor; [exists x; split; [done|lia]|done].
Qed.

Section micro.
Context (args : DynamicBatchingArgs) (width : Z) (lens : list (list Z)).
Context (Hcap : 0 <= d_max_tokens_per_microbatch args) (Hround : 0 < sequence_length_round args).

Lemma place_length_spec i len : place_length args width lens i = Ok len ->
  len <= d_max_tokens_per_microbatch args /\ Forall (fun ls => exists x, ls !! i = Some x /\ Z.min x width <= len) lens.
Proof.
  unfold place_length. intros (z & [_ Hz]%longest_at_spec & (r & Hr%round_up_spec & (? & Hl%raise_if_Ok%negb_false_iff%Z.leb_le & [= <-])%bind_Ok)%bind_Ok)%bind_Ok; [|done].
  split; [done|]. eapply Forall_impl; [exact Hz|]. intros ls (v & Hx & Hle). exists v. split; [done|]. lia.
Qed.

(** A microbatch within the limit that is as long as its rows. *)
Record micro_ok (mb : nat * nat * Z) : Prop := {
  mo_fits : Z.of_nat (mb.1.2 - mb.1.1) * mb.2 <= d_max_tokens_per_microbatch args;
  mo_covers : forall j, (mb.1.1 <= j < mb.1.2)%nat -> Forall (fun ls => exists x, ls !! j = Some x /\ Z.min x width <= mb.2) lens }.

Record micro_inv (i : nat) (st : MicroState) : Prop := {
  mi_end : mb_end st = i;
  mi_tiles : tiles 0 (mb_start st) (mb_done st).*1;
  mi_start : (mb_start st < i)%nat \/ (i = 0%nat /\ st = mkMicro [] 0 0 0 0);
  mi_longest : mb_longest st = mb_length st;
  mi_done : Forall micro_ok (mb_done st);
  mi_last : micro_ok (mb_start st, mb_end st, mb_length st) }.

Lemma micro_inv_init : micro_inv 0 (mkMicro [] 0 0 0 0).
Proof. constructor; try done; [by right|]. constructor; [cbn; lia|cbn; lia]. Qed.

Lemma micro_step_inv i st len : micro_inv i st -> place_length args width lens i = Ok len ->
  micro_inv (S i) (micro_step (d_max_tokens_per_microbatch args) st i len).
Proof.
  intros [He Ht Hs Hl Hd [Hf Hc]] [Hle Hp]%place_length_spec. cbn [fst snd] in *. unfold micro_step. rewrite Hl. case (Z.leb_spec _ _); intros Hfit.
  - constructor; cbn; try done; [lia|left; destruct Hs as [|[-> ->]]; cbn; lia|]. constructor; cbn.
    + etrans; [|exact Hfit]. apply Z.eq_le_incl. f_equal. destruct Hs as [|[-> ->]]; cbn in *; lia.
    + intros j Hj. destruct (decide (j = i)) as [->|Hne]; [eapply Forall_impl; [exact Hp|]|eapply Forall_impl; [apply (Hc j); lia|]];
        intros ls (x & Hx & Hm); exists x; (split; [done|lia]).
  - destruct Hs as [Hs|[-> ->]]; [|cbn in Hfit; lia]. constructor; cbn; try done.
    + lia.
    + rewrite fmap_app. cbn. apply tiles_app; cbn; [done|lia|done].
    + left. lia.
    + apply Forall_app. split; [done|]. by repeat constructor.
    + constructor; cbn; [replace (i + 1 - i)%nat with 1%nat by lia; lia|]. intros j Hj. by replace j with i by lia.
Qed.

Lemma micro_loop_inv n : forall i st st', micro_inv i st -> micro_loop args width lens (seq i n) st = Ok st' -> micro_inv (i + n) st'.
Proof.
  induction n as [|n IH]; intros i st st' Hi; cbn [seq micro_loop]; [intros [= <-]; by rewrite Nat.add_0_r|].
  intros (len & Hl & Hr)%bind_Ok. rewrite Nat.add_succ_r. apply (IH (S i) _ _ (micro_step_inv _ _ _ Hi Hl) Hr).
Qed.
End micro.

Lemma micro_chunk_spec args width lens size c mbs : 0 <= d_max_tokens_per_microbatch args -> 0 < sequence_length_round args -> (0 < size)%nat ->
  micro_chunk args width lens size c = Ok mbs ->
  tiles 0 size mbs.*1 /\ Forall (micro_ok args width (list_slice (c * size) ((c + 1) * size) <$> lens)) mbs.
Proof.
  intros Hcap Hr Hs. unfold micro_chunk. intros (st & Hst & [= <-])%bind_Ok. apply (micro_loop_inv _ _ _ Hcap Hr) in Hst; [|by apply micro_inv_init].
  destruct Hst as [He Ht Hst _ Hd Hl]. cbn [Nat.add] in *. destruct Hst as [Hst|[? _]]; [|lia]. unfold micro_all. split.
  - rewrite fmap_app. cbn. apply tiles_app; cbn; [done|lia|done].
  - apply Forall_app. split; [done|by constructor].
Qed.

Lemma traverse_slice {A B} (f : A -> res B) s e l ys : traverse f l = Ok ys -> traverse f (list_slice s e l) = Ok (list_slice s e ys).
Proof. intros H%traverse_Ok. apply traverse_Ok. unfold list_slice. by apply Forall2_take, Forall2_drop. Qed.

(** The lengths of a slice are a slice of the lengths. *)
Lemma slice_lengths s e d t k c ls : slice_table s e d = Ok t -> column_at k d = Ok c -> lengths_of c = Ok ls ->
  exists c', column_at k t = Ok c' /\ lengths_of c' = Ok (list_slice s e ls).
Proof.
  intros Ht%traverse_Ok Hc Hl. unfold column_at in *. induction Ht as [|[k0 v] kv' d t Hk _ IH]; [done|].
  apply bind_Ok in Hk as (v' & (? & _ & [= <-])%bind_Ok & [= <-]). cbn [kv_get fst snd] in *. destruct (decide (k0 = k)) as [->|Hne]; [|by apply IH].
  injection Hc as ->. exists (with_rows c (list_slice s e (rows_of c))). split; [done|]. unfold lengths_of. rewrite rows_with_rows. by apply traverse_slice.
Qed.

Lemma get_range_given b n sh rows ss c idxs lens idx ls : batch_rows b = Ok n -> given b sh rows -> elem_counts_per_gb sh = None ->
  micro_batch_indices sh = Some idxs -> micro_batch_lengths sh = Some lens -> idxs !! c = Some idx -> lens !! c = Some ls -> ((c + 1) * ss <= length rows)%nat ->
  exists mb, get_batch sh c (Some ss) = Ok mb /\ slice_table (c * ss) ((c + 1) * ss) (sh_data sh) = Ok (sh_data mb)
    /\ given b mb (list_slice (c * ss) ((c + 1) * ss) rows) /\ micro_batch_indices mb = Some [idx] /\ micro_batch_lengths mb = Some [ls].
Proof.
  intros Hb Hg He Hi Hl Hidx%get_index_Ok Hls%get_index_Ok Hc. destruct (slice_holds b n (sh_data sh) rows (c * ss) ((c + 1) * ss) Hb Hg ltac:(lia)) as (t & Ht & Hh).
  unfold get_batch. rewrite He, Hi, Hl. cbn [mbind res_bind]. rewrite (Nat.mul_comm ss c), (Nat.mul_comm ss (c + 1)), Ht. cbn [mbind res_bind].
  rewrite Hidx. cbn [mbind res_bind]. rewrite Hls. cbn [mbind res_bind]. by eexists.
Qed.

(** What was planned for the parts of a dynamic batch. *)
Record dynamic_run (args : DynamicBatchingArgs) (sz : Sizes) (b : table) (parts : list Shard) (width : Z) (lens : list (list Z))
  (plans : list (list (nat * nat * Z))) : Prop := {
  dr_width : exists k data, column_at (d_input_key args) b = Ok k /\ Row (width :: data.1) data.2 ∈ rows_of k;
  dr_lens : Forall2 (fun sh ls => exists c, column_at (d_input_lengths_key args) (sh_data sh) = Ok c /\ lengths_of c = Ok ls) parts lens;
  dr_plans : forall c, (c < num_chunks sz)%nat -> exists mbs, plans !! c = Some mbs /\ micro_chunk args width lens (shard_size sz) c = Ok mbs;
  dr_parts : Forall (fun sh => micro_batch_indices sh = Some ((fun p : list (nat * nat * Z) => p.*1) <$> plans)
    /\ micro_batch_lengths sh = Some ((fun p : list (nat * nat * Z) => p.*2) <$> plans) /\ elem_counts_per_gb sh = None) parts }.

Lemma select_width order b d k w : select order b = Ok d -> column_at k d = Ok w ->
  exists c, column_at k b = Ok c /\ Forall (fun x => x ∈ rows_of c) (rows_of w).
Proof.
  intros Hd%traverse_Ok Hw. unfold column_at in *. induction Hd as [|[k0 v] kv' b d Hk _ IH]; [done|].
  apply bind_Ok in Hk as (v' & (l & Hl%gather_Ok & [= <-])%bind_Ok & [= <-]). cbn [kv_get fst snd] in *. destruct (decide (k0 = k)) as [->|Hne]; [|by apply IH].
  injection Hw as <-. exists v. split; [done|]. rewrite rows_with_rows. clear -Hl. induction Hl as [|i x idx l Hi _ IH]; constructor; [by eapply list_elem_of_lookup_2|done].
Qed.

Lemma shard_dynamic_run args uneven sz n b parts order : num_chunks sz <> 0%nat -> shard_dynamic args uneven sz n b = Ok (parts, order) ->
  exists width lens plans, dynamic_run args sz b parts width lens plans.
Proof.
  intros Hn H. unfold shard_dynamic in H.
  apply bind_Ok in H as (orders & _ & (data & Hdata & (ps & _ & (plans & Hp & [= <- <-])%bind_Ok)%bind_Ok)%bind_Ok).
  unfold plan_microbatches in Hp. destruct (Nat.eqb_spec (num_chunks sz) 0) as [|_]; [done|].
  apply bind_Ok in Hp as (lens & Hl%traverse_Ok & (k & Hk & (width & Hw & Hpl%traverse_Ok)%bind_Ok)%bind_Ok). exists width, lens, plans. constructor.
  - destruct (select_width _ _ _ _ _ Hdata Hk) as (c & Hc & Hf). unfold width_of in Hw. destruct k as [[|[|[|w dims] x|] rows]|]; try done. injection Hw as ->.
    exists c, (dims, x). split; [done|]. by apply Forall_cons in Hf as [Hx _].
  - apply Forall2_fmap_l. eapply Forall2_impl; [exact Hl|]. intros sh ls (c & Hc & Hls)%bind_Ok. exists c. split; [done|]. by destruct c.
  - intros c Hc. destruct (Forall2_lookup_l _ _ _ _ _ Hpl (lookup_seq_lt 0 _ c Hc)) as (mbs & Hm & Hmc). by exists mbs.
  - apply Forall_fmap, Forall_forall. intros sh _. done.
Qed.

(** A microbatch as a rank reads it: these rows, none longer than it unless the
    whole batch is narrower. *)
Definition runs_range (args : DynamicBatchingArgs) (b : table) (width : Z) (rows : list nat) (t : table * Z) (mb : nat * nat * Z) : Prop :=
  holds b t.1 (list_slice mb.1.1 mb.1.2 rows) /\ t.2 = mb.2
  /\ exists k zs, column_at (d_input_lengths_key args) t.1 = Ok k /\ lengths_of k = Ok zs /\ Forall (fun z => Z.min z width <= t.2) zs.

Lemma covered_slice args width lens ls mb : micro_ok args width lens mb -> ls ∈ lens -> Forall (fun z => Z.min z width <= mb.2) (list_slice mb.1.1 mb.1.2 ls).
Proof.
  intros [_ Hc] Hin. apply Forall_lookup. intros j z Hz. unfold list_slice in Hz. apply lookup_take_Some in Hz as [Hz Hj]. rewrite lookup_drop in Hz.
  specialize (Hc (mb.1.1 + j)%nat ltac:(lia)). rewrite Forall_forall in Hc. destruct (Hc _ Hin) as (x & Hx & Hle). rewrite Hx in Hz. by injection Hz as <-.
Qed.

Lemma dynamic_rank args sz b n parts width lens plans s sh rows c mbs : batch_rows b = Ok n -> dynamic_run args sz b parts width lens plans ->
  parts !! s = Some sh -> given b sh rows -> plans !! c = Some mbs -> ((c + 1) * shard_size sz <= length rows)%nat -> tiles 0 (shard_size sz) mbs.*1 ->
  Forall (micro_ok args width (list_slice (c * shard_size sz) ((c + 1) * shard_size sz) <$> lens)) mbs ->
  exists mb tables, get_batch sh c (Some (shard_size sz)) = Ok mb /\ microbatches mb = Ok tables
    /\ Forall2 (runs_range args b width (list_slice (c * shard_size sz) ((c + 1) * shard_size sz) rows)) tables mbs.
Proof.
  intros Hb [_ Hlens _ Hparts] Hs Hg Hc Hle Ht Hmo. set (ss := shard_size sz) in *. rewrite Forall_lookup in Hparts. destruct (Hparts s sh Hs) as (Hi & Hl & He).
  destruct (Forall2_lookup_l _ _ _ _ _ Hlens Hs) as (ls & Hls & k & Hk & Hkl).
  destruct (get_range_given b n sh rows ss c _ _ mbs.*1 mbs.*2 Hb Hg He Hi Hl) as (mb & Hmb & Hmd & Hmg & Hmi & Hml); [by rewrite list_lookup_fmap, Hc..|lia|].
  set (part := list_slice (c * ss) ((c + 1) * ss) rows) in *. assert (length part = ss) as Hpl by (unfold part; rewrite list_slice_length; lia).
  destruct (microbatches_read b n mb part mbs.*1 mbs.*2 Hb Hmg Hmi Hml) as (tables & Htab & Hf).
  { rewrite Hpl. apply tiles_bounds in Ht as [_ Ht]. eapply Forall_impl; [exact Ht|]. cbn. lia. }
  exists mb, tables. split_and!; [done..|]. rewrite zip_fst_snd in Hf. destruct (slice_lengths _ _ _ _ _ _ _ Hmd Hk Hkl) as (k' & Hk' & Hkl').
  apply Forall2_same_length_lookup. split; [by eapply Forall2_length|]. intros i t m Hti Hmi'. destruct (Forall2_lookup_l _ _ _ _ _ Hf Hti) as (m' & Hm' & Hsl & Hh & Htl).
  rewrite Hmi' in Hm'. injection Hm' as <-. split_and!; [done|done|]. destruct (slice_lengths _ _ _ _ _ _ _ Hsl Hk' Hkl') as (k2 & Hk2 & Hkl2).
  eexists k2, _. split_and!; [done|done|]. rewrite Htl. rewrite Forall_lookup in Hmo. eapply covered_slice; [by eapply Hmo|].
  apply list_elem_of_fmap. exists ls. split; [done|]. by eapply list_elem_of_lookup_2.
Qed.

Lemma tiles_cover a z l j : tiles a z l -> (a <= j < z)%nat -> exists p, p ∈ l /\ (p.1 <= j < p.2)%nat.
Proof.
  revert a. induction l as [|q l IH]; intros a; cbn; [lia|]. intros (<- & Hq & Hl) Hj. destruct (decide (j < q.2)%nat) as [|Hge].
  - exists q. split; [by left|lia].
  - destruct (IH _ Hl ltac:(lia)) as (p & Hp & Hpj). exists p. split; [by right|done].
Qed.

(** The plan reached the last row of every rank. *)
Lemma planned_length args width lens ss c mbs ls : (0 < ss)%nat -> tiles 0 ss mbs.*1 -> Forall (micro_ok args width (list_slice (c * ss) ((c + 1) * ss) <$> lens)) mbs ->
  ls ∈ lens -> ((c + 1) * ss <= length ls)%nat.
Proof.
  intros Hss Ht Hmo Hls. destruct (tiles_cover _ _ _ (ss - 1) Ht ltac:(lia)) as (p & (mb & -> & Hmb)%list_elem_of_fmap & Hp). rewrite Forall_forall in Hmo.
  destruct (Hmo _ Hmb) as [_ Hc]. specialize (Hc _ Hp). rewrite Forall_forall in Hc. destruct (Hc (list_slice (c * ss) ((c + 1) * ss) ls)) as (x & Hx & _).
  - apply list_elem_of_fmap. by exists ls.
  - apply lookup_lt_Some in Hx. unfold list_slice in Hx. rewrite length_take, length_drop in Hx. lia.
Qed.

(** ** The ranks of a dynamic batch have equal parts *)

Lemma tight {A} (k : nat) (p : list (list A)) : Forall (fun x => (length x <= k)%nat) p -> (length p * k <= length (mjoin p))%nat -> Forall (fun x => length x = k) p.
Proof.
  intros Hf Hl. assert (length (mjoin p) <= length p * k)%nat as Hle.
  { clear Hl. induction Hf as [|x p Hx _ IH]; [done|]. rewrite join_cons, length_app. cbn. lia. }
  revert Hl. clear Hle. induction Hf as [|x p Hx Hp IH]; [constructor|]. rewrite join_cons, length_app. cbn [length]. intros Hl.
  assert (length (mjoin p) <= length p * k)%nat as Hle.
  { clear -Hp. induction Hp as [|y p Hy _ IH]; [done|]. rewrite join_cons, length_app. cbn. lia. }
  constructor; [lia|]. apply IH. lia.
Qed.

Lemma length_select {A} (l : list A) r : (length (select_indices l r) <= length r)%nat.
Proof. unfold select_indices. induction r as [|i r IH]; [done|]. cbn [omap list_omap]. destruct (l !! i); cbn; lia. Qed.

Lemma shard_range_length uneven total size ss s c : (length (shard_range uneven total size ss s c) <= ss)%nat.
Proof. unfold shard_range. destruct (_ <? _)%nat eqn:E; [|cbn; lia]. rewrite length_seq. destruct uneven; lia. Qed.

Lemma dynamic_parts_bound uneven sz n order : Forall (Forall (fun r => (length r <= shard_size sz)%nat)) (through order (range_plan uneven sz n)).
Proof.
  apply Forall_fmap, Forall_fmap, Forall_forall. intros s _. apply Forall_fmap, Forall_fmap, Forall_forall. intros c _. cbn.
  etrans; [apply length_select|apply shard_range_length].
Qed.

Lemma shard_size_pos b n uneven sz : sizes_ok b n uneven sz -> num_chunks sz <> 0%nat -> (0 < shard_size sz)%nat.
Proof. intros [_ Hs Ht _ He Hu] Hc. destruct uneven; [destruct (Hu eq_refl)|specialize (He eq_refl)]; nia. Qed.

Lemma dynamic_lengths args b sz parts width lens plans n s sh rows : batch_rows b = Ok n -> dynamic_run args sz b parts width lens plans ->
  parts !! s = Some sh -> given b sh rows -> exists ls, ls ∈ lens /\ length ls = length rows.
Proof.
  intros Hb [_ Hlens _ _] Hs Hg. destruct (Forall2_lookup_l _ _ _ _ _ Hlens Hs) as (ls & Hls & k & Hk & Hkl). exists ls. split; [by eapply list_elem_of_lookup_2|].
  destruct (holds_rows _ _ _ _ Hb Hg) as [Hr _]. by eapply column_length.
Qed.

Section properties.
Context (shuffle : nat -> list (Z * nat) -> list (Z * nat)) (Hshuffle : forall c items, shuffle c items ≡ₚ items).

(** C8 Ranks that pack run their bins.  Whatever the chunk, its rows are in its
    bins, each once, and a multiple of the number of ranks of them; every rank asks
    for the chunk and iterates over as many microbatches as any other rank; these
    are the bins it was dealt, with the rows of the batch, the padded length of each
    within the capacity, and the largest first if that was asked for. *)
Theorem packed_ranks_run_their_bins args b n batch_size uneven parts order :
  NoDup b.*1 -> packable b (Packed args) -> shard_by_batch_size shuffle b n batch_size uneven (Packed args) = Ok (parts, order) ->
  exists size chunks lens, batch_rows b = Ok (chunks * size)%nat
    /\ (batch_size = Some size \/ (batch_size = None /\ chunks = 1%nat))
    /\ (exists k, column_at (p_input_lengths_key args) b = Ok k /\ lengths_of k = Ok lens) /\ length parts = n
    /\ forall c, (c < chunks)%nat -> exists bins padded m, chunk_packed args n size lens c bins padded /\ length bins = (m * n)%nat /\ (0 < m)%nat
       /\ forall s sh, parts !! s = Some sh -> exists mb tables sb, get_batch sh c None = Ok mb /\ microbatches mb = Ok tables /\ length tables = m
          /\ sb ≡ₚ every n s bins /\ runs_bins b (c * size) padded (p_max_tokens_per_microbatch args) tables sb
          /\ (microbatch_order args = Some "largest_first" -> StronglySorted (fun x y => y <= x) tables.*2).
Proof.
  intros Hnd Hpk Hs. unfold shard_by_batch_size in Hs. apply bind_Ok in Hs as (sz & (Hz & Hbs & Hbs')%sizes_checked & Hs). pose proof Hz as [Hb _ Ht Hn0 _ _].
  apply bind_Ok in Hs as ([ps o] & Hp & [= <- <-]). destruct (packable_run shuffle Hshuffle args b n uneven sz ps o Hz Hnd Hpk Hp) as (lens & chunks & runs & Hrun).
  pose proof Hrun as [Hlens [Hcl Hch] [Hrl Hrs] Hparts _]. exists (chunk_size sz), (num_chunks sz), lens. split_and!; [by rewrite <- Ht| |done| |].
  - destruct batch_size as [k|]; [left; by rewrite (Hbs' k eq_refl)|right; split; [done|by apply Hbs]].
  - rewrite (Forall2_length _ _ _ Hparts). done.
  - intros c Hc. destruct (lookup_lt_is_Some_2 chunks c) as [[bins padded] Hck]; [lia|]. pose proof (Hch c bins padded Hck) as Hcp.
    pose proof Hcp as [_ _ [_ _ _ (m & Hm & Hm0)]]. exists bins, padded, m. split_and!; try done.
    intros s sh Hsh. destruct (Forall2_lookup_l _ _ _ _ _ Hparts Hsh) as (run & Hrun' & Hg & Hi & Hl & He).
    destruct (Hrs s run Hrun') as [Hrl' Hsc].
    eapply (run_reads args b _ n sz lens chunks run s); try done; [rewrite <- Hrl; by eapply lookup_lt_Some|lia].
Qed.

(** C11 Dynamic microbatches fit.  A batch sorted by length is dealt out in equal
    parts, and each chunk of a rank's part is cut into consecutive ranges, none of
    them empty, the same on every rank.  The rank asks for the chunk and iterates
    over these ranges of its rows: as many rows as the range has, times the length
    they are read with, stay within the limit, and no row is longer than that length
    unless the batch itself is not as wide. *)
Theorem dynamic_microbatches_fit args b n batch_size uneven parts order :
  0 <= d_max_tokens_per_microbatch args -> 0 < sequence_length_round args ->
  shard_by_batch_size shuffle b n batch_size uneven (Dynamic args) = Ok (parts, order) ->
  exists size chunks ss plan, batch_rows b = Ok (chunks * size)%nat
    /\ (batch_size = Some size \/ (batch_size = None /\ chunks = 1%nat)) /\ dealt size chunks n plan /\ length parts = n
    /\ forall c, (c < chunks)%nat -> exists mbs width, tiles 0 ss mbs.*1
       /\ Forall (fun mb => Z.of_nat (mb.1.2 - mb.1.1) * mb.2 <= d_max_tokens_per_microbatch args) mbs
       /\ (exists k x, column_at (d_input_key args) b = Ok k /\ Row (width :: x.1) x.2 ∈ rows_of k)
       /\ forall s sh, parts !! s = Some sh -> exists p mb tables, plan !! s = Some p /\ length (part p c) = ss
          /\ get_batch sh c (Some ss) = Ok mb /\ microbatches mb = Ok tables /\ Forall2 (runs_range args b width (part p c)) tables mbs.
Proof.
  intros Hcap Hround Hs. unfold shard_by_batch_size in Hs. apply bind_Ok in Hs as (sz & (Hz & Hbs & Hbs')%sizes_checked & Hs). pose proof Hz as [Hb _ Ht _ _ _].
  apply bind_Ok in Hs as ([ps o] & Hd & [= <- <-]). destruct (shard_dynamic_given _ _ _ _ _ _ _ Hz Hd) as (Hdl & Hg & _ & _).
  set (plan := through o (range_plan uneven sz n)) in *. exists (chunk_size sz), (num_chunks sz), (shard_size sz), plan. split_and!; [by rewrite <- Ht| |done| |].
  - destruct batch_size as [k|]; [left; by rewrite (Hbs' k eq_refl)|right; split; [done|by apply Hbs]].
  - rewrite (Forall2_length _ _ _ Hg). unfold rank_rows. rewrite length_fmap. apply Hdl.
  - intros c Hc. assert (num_chunks sz <> 0%nat) as Hnz by lia. pose proof (shard_size_pos _ _ _ _ Hz Hnz) as Hss.
    destruct (shard_dynamic_run _ _ _ _ _ _ _ Hnz Hd) as (width & lens & plans & Hrun). destruct (dr_plans _ _ _ _ _ _ _ Hrun c Hc) as (mbs & Hmbs & Hmc).
    destruct (micro_chunk_spec _ _ _ _ _ _ Hcap Hround Hss Hmc) as [Htiles Hmo]. exists mbs, width. split_and!; [done| | |].
    { eapply Forall_impl; [exact Hmo|]. intros mb [Hf _]. exact Hf. }
    { destruct (dr_width _ _ _ _ _ _ _ Hrun) as (k & x & Hk & Hx). by exists k, x. }
    intros s sh Hsh. destruct (Forall2_lookup_l _ _ _ _ _ Hg Hsh) as (rows & Hrows & Hgs). unfold rank_rows in Hrows. rewrite list_lookup_fmap in Hrows.
    destruct (plan !! s) as [p|] eqn:Hp; [|done]. injection Hrows as <-. destruct (dynamic_lengths _ _ _ _ _ _ _ _ _ _ _ Hb Hrun Hsh Hgs) as (ls & Hls & Hll).
    pose proof (dealt_chunks _ _ _ _ Hdl) as Hpl. rewrite Forall_lookup in Hpl. specialize (Hpl s p Hp).
    assert (forall i, (i < num_chunks sz)%nat -> ((i + 1) * shard_size sz <= length (mjoin p))%nat) as Hlong.
    { intros i Hi. destruct (dr_plans _ _ _ _ _ _ _ Hrun i Hi) as (mi & _ & Hmi). destruct (micro_chunk_spec _ _ _ _ _ _ Hcap Hround Hss Hmi) as [Hti Hmoi].
      rewrite <- Hll. by eapply planned_length. }
    assert (Forall (fun r => length r = shard_size sz) p) as Heven.
    { pose proof (dynamic_parts_bound uneven sz n o) as Hbd. rewrite Forall_lookup in Hbd. apply tight; [by eapply Hbd|]. rewrite Hpl.
      specialize (Hlong (num_chunks sz - 1)%nat ltac:(lia)). replace (num_chunks sz - 1 + 1)%nat with (num_chunks sz) in Hlong by lia. exact Hlong. }
    destruct (lookup_lt_is_Some_2 p c) as [r Hr]; [lia|]. assert (part p c = r) as Hpart by (unfold part; by rewrite Hr).
    destruct (dynamic_rank args sz b (total_batch_size sz) ps width lens plans s sh (mjoin p) c mbs) as (mb & tables & H1 & H2 & H3); try done; [by apply Hlong|].
    rewrite (slice_even _ _ _ _ Heven Hr) in H3. exists p, mb, tables. rewrite Hpart. split_and!; try done. rewrite Forall_lookup in Heven. by eapply Heven.
Qed.
End properties.

(** ** Witnesses *)

Module Demo.
Import ShardingProps.Demo.

Definition dynamic_parts := match shard_by_batch_size shuffle batch 2 (Some 4%nat) false (Dynamic sorting) with Ok r => r.1 | Raise _ => [] end.

Lemma bins_witness : shard_by_batch_size shuffle batch 2 (Some 4%nat) false (Packed packing) = Ok packed
  /\ exists size chunks lens, batch_rows batch = Ok (chunks * size)%nat /\ length packed.1 = 2%nat
     /\ forall c, (c < chunks)%nat -> exists bins padded m, chunk_packed packing 2 size lens c bins padded /\ length bins = (m * 2)%nat /\ (0 < m)%nat
       /\ forall s sh, packed.1 !! s = Some sh -> exists mb tables sb, get_batch sh c None = Ok mb /\ microbatches mb = Ok tables /\ length tables = m
          /\ sb ≡ₚ every 2 s bins /\ runs_bins batch (c * size) padded 8 tables sb
          /\ (microbatch_order packing = Some "largest_first" -> StronglySorted (fun x y => y <= x) tables.*2).
Proof.
  split; [by vm_compute|].
  destruct (packed_ranks_run_their_bins shuffle shuffle_perm packing batch 2 (Some 4%nat) false packed.1 packed.2
    batch_keys batch_packable ltac:(by vm_compute)) as (size & chunks & lens & Hb & _ & _ & Hl & Hc).
  by exists size, chunks, lens.
Defined.

Lemma ranges_witness : length dynamic_parts = 2%nat
  /\ exists size chunks ss plan, batch_rows batch = Ok (chunks * size)%nat /\ dealt size chunks 2 plan
    /\ forall c, (c < chunks)%nat -> exists mbs width, tiles 0 ss mbs.*1
       /\ Forall (fun mb => Z.of_nat (mb.1.2 - mb.1.1) * mb.2 <= 16) mbs
       /\ forall s sh, dynamic_parts !! s = Some sh -> exists p mb tables, plan !! s = Some p /\ get_batch sh c (Some ss) = Ok mb
          /\ microbatches mb = Ok tables /\ Forall2 (runs_range sorting batch width (part p c)) tables mbs.
Proof.
  split; [by vm_compute|].
  destruct (dynamic_microbatches_fit shuffle sorting batch 2 (Some 4%nat) false dynamic_parts (Some [2; 1; 0; 3; 6; 4; 7; 5]%nat)
    ltac:(done) ltac:(done) ltac:(by vm_compute)) as (size & chunks & ss & plan & Hb & _ & Hd & _ & Hc).
  exists size, chunks, ss, plan. split_and!; [done|done|]. intros c Hlt. destruct (Hc c Hlt) as (mbs & width & Ht & Hf & _ & Hs).
  exists mbs, width. split_and!; [done|done|]. intros s sh Hsh. destruct (Hs s sh Hsh) as (p & mb & tables & H1 & _ & H2 & H3 & H4). by exists p, mb, tables.
Defined.
End Demo.
