(* ===== verification/Preshard.v ===== *)
(** * Sharding metadata over ranks
    ([data_plane/preshard.py], [data_plane/worker_mixin.py])

    The driver shards a batch it does not hold: it cuts a skeleton of the batch with
    [shard_by_batch_size] ([Sharding]), gives each rank the metadata of its rows,
    and ships the planned microbatches in [extra_info].  A worker fetches its rows
    and reads the batches of the plan, or packs them itself where none was shipped. *)

From S2P Require Import Prelude.
From S2P Require Import PyVal.
From S2P Require Import PyStr.
From S2P Require Import DataPlaneMeta.
From S2P Require Import LogicalOwners.
From S2P Require Import Packing.
From S2P Require Import PackingMffd.
From S2P Require Import Sharding.
#[local] Open Scope string_scope.
#[local] Open Scope Z_scope.

Definition MICRO_BATCH_INDICES := "micro_batch_indices".
Definition MICRO_BATCH_LENGTHS := "micro_batch_lengths".
Definition ELEM_COUNTS_PER_GB := "elem_counts_per_gb".
Definition INPUT_IDS := "input_ids".
Definition INPUT_LENGTHS := "input_lengths".
Definition SAMPLE_MASK := "sample_mask".
Definition META_IDX := "meta_idx".

(** The skeleton: placeholders of the width given, the lengths, ones, and the
    index of each row. *)
Definition skeleton (seq_lens : list Z) (width : Z) : table :=
  [(INPUT_IDS, TensorCol ((fun _ => Row [width] (repeat 0 (Z.to_nat width))) <$> seq_lens));
   (INPUT_LENGTHS, TensorCol (Num <$> seq_lens));
   (SAMPLE_MASK, TensorCol ((fun _ => Num 1) <$> seq_lens));
   (META_IDX, TensorCol ((fun i => Num (Z.of_nat i)) <$> seq 0 (length seq_lens)))].

(** The attributes of a shard as values of [extra_info]. *)
Definition indices_value (l : list (list (nat * nat))) : PyVal :=
  VList ((fun idx : list (nat * nat) => VList ((fun p => VList [VInt (Z.of_nat p.1); VInt (Z.of_nat p.2)]) <$> idx)) <$> l).
Definition lengths_value (l : list (list Z)) : PyVal := VList ((fun ls : list Z => VList (VInt <$> ls)) <$> l).
Definition counts_value (l : list nat) : PyVal := VList ((fun n => VInt (Z.of_nat n)) <$> l).
Definition set_if {A} (key : string) (f : A -> PyVal) (o : option A) (d : list (PyVal * PyVal)) : list (PyVal * PyVal) :=
  match o with Some a => dict_set key (f a) d | None => d end.
Definition rank_extra (base : list (PyVal * PyVal)) (sh : Shard) : list (PyVal * PyVal) :=
  set_if ELEM_COUNTS_PER_GB counts_value (elem_counts_per_gb sh)
    (set_if MICRO_BATCH_LENGTHS lengths_value (micro_batch_lengths sh)
      (set_if MICRO_BATCH_INDICES indices_value (micro_batch_indices sh) base)).

(** One rank: the indices of its rows, and its metadata. *)
Definition rank_meta (meta : KVBatchMeta) (sh : Shard) : res (list nat * KVBatchMeta) :=
  c ← column_at META_IDX (sh_data sh);
  l ← lengths_of c;
  let idx_list := Z.to_nat <$> l in
  m ← subset idx_list meta;
  r ← meta_init (mkMeta (partition_id m) (task_name m) (sample_ids m) (fields m) (sequence_lengths m) (rank_extra (extra_info meta) sh) (tags m));
  Ok (idx_list, r).

(** [unsorted[old_idx] = new_pos], in order. *)
Fixpoint invert (pos : nat) (flat : list nat) (unsorted : list nat) : res (list nat) :=
  match flat with
  | [] => Ok unsorted
  | i :: flat => _ ← raise_if (length unsorted <=? i)%nat IndexError; invert (S pos) flat (<[i := pos]> unsorted)
  end.

Section presharding.
Context (shuffle : nat -> list (Z * nat) -> list (Z * nat)).

Definition shard_meta_for_dp (meta : KVBatchMeta) (dp_world : nat) (batch_size : option nat)
    (sequence_packing_args : option SequencePackingArgs) (dynamic_batching_args : option DynamicBatchingArgs)
  : res (list KVBatchMeta * option (list nat)) :=
  let n := length (sample_ids meta) in
  _ ← raise_if (n =? 0)%nat ValueError;
  seq_lens ← match sequence_lengths meta with
             | Some l => _ ← raise_if (negb (length l =? n)%nat) ValueError; Ok l
             | None => Raise ValueError
             end;
  mode ← match sequence_packing_args, dynamic_batching_args with
         | Some _, Some _ => Raise ValueError
         | _, Some args => Ok (Dynamic args)
         | Some args, None => Ok (Packed args)
         | None, None => Ok NoBatching
         end;
  let width := match mode with Dynamic args => d_max_tokens_per_microbatch args | _ => 1 end in
  _ ← raise_if (width <? 0) RuntimeError;
  '(sharded, _) ← shard_by_batch_size shuffle (skeleton seq_lens width) dp_world batch_size false mode;
  ranks ← traverse (rank_meta meta) sharded;
  let flat := mjoin ranks.*1 in
  unsorted ← (if decide (flat = seq 0 n) then Ok None else u ← invert 0 flat (repeat 0%nat n); Ok (Some u));
  Ok (ranks.*2, unsorted).

(** ** The worker *)

(** Reading the attributes back; the values are those of the driver, anything else
    fails where it is used. *)
Definition as_list (v : PyVal) : res (list PyVal) := match v with VList l => Ok l | _ => Raise TypeError end.
Definition as_count (v : PyVal) : res nat := match v with VInt z => _ ← raise_if (z <? 0) TypeError; Ok (Z.to_nat z) | _ => Raise TypeError end.
Definition as_int (v : PyVal) : res Z := match v with VInt z => Ok z | _ => Raise TypeError end.
Definition as_pair (v : PyVal) : res (nat * nat) :=
  match v with VList [s; e] => s ← as_count s; e ← as_count e; Ok (s, e) | _ => Raise ValueError end.
Definition read_indices (v : PyVal) : res (list (list (nat * nat))) := l ← as_list v; traverse (fun v => l ← as_list v; traverse as_pair l) l.
Definition read_lengths (v : PyVal) : res (list (list Z)) := l ← as_list v; traverse (fun v => l ← as_list v; traverse as_int l) l.
Definition read_counts (v : PyVal) : res (list nat) := l ← as_list v; traverse as_count l.

(** [cfg.get(name, {}) or {}]. *)
Definition cfg_section (name : string) (cfg : list (PyVal * PyVal)) : res (list (PyVal * PyVal)) :=
  match dict_get name cfg with
  | Some v => if truthy v then match v with VDict d => Ok d | _ => Raise AttributeError end else Ok []
  | None => Ok []
  end.
Definition enabled (d : list (PyVal * PyVal)) : bool := match dict_get "enabled" d with Some v => truthy v | None => false end.
Definition str_at (k : string) (d : list (PyVal * PyVal)) : res string := v ← dict_index k d; match v with VStr s => Ok s | _ => Raise AttributeError end.
Definition int_at (k : string) (d : list (PyVal * PyVal)) : res Z := v ← dict_index k d; as_int v.

Definition local_packing (cfg seqpack : list (PyVal * PyVal)) : res SequencePackingArgs :=
  algorithm ← str_at "algorithm" seqpack;
  multiple ← int_at "make_sequence_length_divisible_by" cfg;
  tokens ← int_at "train_mb_tokens" seqpack;
  order ← match dict_get "microbatch_order" seqpack with
          | None | Some VNone => Ok None
          | Some (VStr s) => Ok (Some s)
          | Some _ => Raise ValueError
          end;
  Ok (mkSeqPacking tokens "input_lengths" (inr algorithm) order multiple None None).
Definition local_batching (dynbatch : list (PyVal * PyVal)) : res DynamicBatchingArgs :=
  round ← int_at "sequence_length_round" dynbatch;
  tokens ← int_at "train_mb_tokens" dynbatch;
  Ok (mkDynamic tokens round "input_ids" "input_lengths").

(** [packed[0]]. *)
Definition first_shard (r : list Shard * option (list nat)) : res Shard := match r.1 with sh :: _ => Ok sh | [] => Raise IndexError end.

Definition _apply_packing_prep (cfg : PyVal) (data : table) : res Shard :=
  match cfg with
  | VDict cfg =>
      seqpack ← cfg_section "sequence_packing" cfg;
      dynbatch ← cfg_section "dynamic_batching" cfg;
      if enabled seqpack then
        args ← local_packing cfg seqpack;
        r ← shard_by_batch_size shuffle data 1 None false (Packed args); first_shard r
      else if enabled dynbatch then
        args ← local_batching dynbatch;
        r ← shard_by_batch_size shuffle data 1 None false (Dynamic args); first_shard r
      else Ok (plain_shard data)
  | _ => Ok (plain_shard data)
  end.

Definition _attach_or_repack_pack_metadata (cfg : PyVal) (data : table) (meta : KVBatchMeta) : res Shard :=
  let extra := extra_info meta in
  match dict_get MICRO_BATCH_INDICES extra, dict_get MICRO_BATCH_LENGTHS extra with
  | Some i, Some l =>
      idx ← read_indices i;
      lens ← read_lengths l;
      counts ← match dict_get ELEM_COUNTS_PER_GB extra with Some c => c ← read_counts c; Ok (Some c) | None => Ok None end;
      Ok (mkShard data (Some idx) (Some lens) counts)
  | _, _ => _apply_packing_prep cfg data
  end.
End presharding.
