(* ===== verification/PreshardProps.v ===== *)
(** * Presharded ranks

    Properties of [Preshard]: the metadata of the ranks are the samples of the
    batch, each once; and a rank that fetches its samples and attaches the plan
    shipped with them runs the bins the driver packed, as many as any other rank. *)

From S2P Require Import Prelude.
From S2P Require Import PyVal.
From S2P Require Import PyStr.
From S2P Require Import DataPlaneMeta.
From S2P Require Import LogicalOwners.
From S2P Require Import Packing.
From S2P Require Import PackingMffd.
From S2P Require Import Sharding.
From S2P Require Import ShardingProps.
From S2P Require Import ShardingBack.
From S2P Require Import Preshard.
#[local] Open Scope string_scope.
#[local] Open Scope Z_scope.

(** ** The plan survives [extra_info] *)

Lemma traverse_values {A B C} (f : A -> B) (g : B -> res C) (h : A -> C) l : (forall x, g (f x) = Ok (h x)) -> traverse g (f <$> l) = Ok (h <$> l).
Proof. intros H. induction l as [|x l IH]; [done|]. cbn [fmap list_fmap traverse]. rewrite H. cbn [mbind res_bind]. by rewrite IH. Qed.

Lemma as_count_of n : as_count (VInt (Z.of_nat n)) = Ok n.
Proof. cbn. destruct (Z.ltb_spec (Z.of_nat n) 0); [lia|]. cbn. by rewrite Nat2Z.id. Qed.

Lemma read_indices_value l : read_indices (indices_value l) = Ok l.
Proof.
  unfold read_indices, indices_value. cbn [as_list mbind res_bind]. rewrite (traverse_values _ _ id), list_fmap_id; [done|]. intros idx.
  cbn [as_list mbind res_bind]. rewrite (traverse_values _ _ id), list_fmap_id; [done|]. intros [a b]. cbn [as_pair fst snd]. by rewrite !as_count_of.
Qed.

Lemma read_lengths_value l : read_lengths (lengths_value l) = Ok l.
Proof.
  unfold read_lengths, lengths_value. cbn [as_list mbind res_bind]. rewrite (traverse_values _ _ id), list_fmap_id; [done|]. intros ls.
  cbn [as_list mbind res_bind]. by rewrite (traverse_values _ _ id), list_fmap_id.
Qed.

Lemma read_counts_value l : read_counts (counts_value l) = Ok l.
Proof. unfold read_counts, counts_value. cbn [as_list mbind res_bind]. rewrite (traverse_values _ _ id), list_fmap_id; [done|]. intros n. apply as_count_of. Qed.

Lemma rank_extra_get k base sh : dict_get k (rank_extra base sh) =
  if decide (k = ELEM_COUNTS_PER_GB /\ is_Some (elem_counts_per_gb sh)) then counts_value <$> elem_counts_per_gb sh
  else if decide (k = MICRO_BATCH_LENGTHS /\ is_Some (micro_batch_lengths sh)) then lengths_value <$> micro_batch_lengths sh
  else if decide (k = MICRO_BATCH_INDICES /\ is_Some (micro_batch_indices sh)) then indices_value <$> micro_batch_indices sh
  else dict_get k base.
Proof.
  assert (forall A (f : A -> PyVal) key o d, dict_get k (set_if key f o d) = if decide (k = key /\ is_Some o) then f <$> o else dict_get k d) as Hset.
  { intros A f key [a|] d; cbn [set_if]; [rewrite dict_get_set|]; repeat case_decide; naive_solver. }
  unfold rank_extra. by rewrite !Hset.
Qed.

(** A worker that was shipped a plan attaches it. *)
Lemma attach_plan shuffle cfg data m base sh idx lens counts : extra_info m = rank_extra base sh ->
  micro_batch_indices sh = Some idx -> micro_batch_lengths sh = Some lens -> elem_counts_per_gb sh = Some counts ->
  _attach_or_repack_pack_metadata shuffle cfg data m = Ok (mkShard data (Some idx) (Some lens) (Some counts)).
Proof.
  intros He Hi Hl Hc. unfold _attach_or_repack_pack_metadata. rewrite He.
  assert (dict_get MICRO_BATCH_INDICES (rank_extra base sh) = Some (indices_value idx)) as -> by (rewrite rank_extra_get, Hi; done).
  assert (dict_get MICRO_BATCH_LENGTHS (rank_extra base sh) = Some (lengths_value lens)) as -> by (rewrite rank_extra_get, Hl; done).
  assert (dict_get ELEM_COUNTS_PER_GB (rank_extra base sh) = Some (counts_value counts)) as -> by (rewrite rank_extra_get, Hc; done).
  rewrite read_indices_value. cbn [mbind res_bind]. rewrite read_lengths_value. cbn [mbind res_bind]. by rewrite read_counts_value.
Qed.

(** ** The skeleton *)

Lemma skeleton_rows lens w : batch_rows (skeleton lens w) = Ok (length lens).
Proof. apply batch_rows_intro; [done|]. repeat constructor; cbn [snd rows_of]; by rewrite !length_fmap, ?length_seq. Qed.

Lemma skeleton_keys lens w : NoDup (skeleton lens w).*1.
Proof. by apply (bool_decide_unpack _). Qed.

Lemma skeleton_lengths lens w : column_at INPUT_LENGTHS (skeleton lens w) = Ok (TensorCol (Num <$> lens)) /\ lengths_of (TensorCol (Num <$> lens)) = Ok lens.
Proof. split; [done|]. unfold lengths_of. cbn [rows_of]. by rewrite (traverse_values _ _ id), list_fmap_id. Qed.

(** The rows of a shard of the skeleton name themselves. *)
Lemma skeleton_index lens w data rows : holds (skeleton lens w) data rows ->
  exists c, column_at META_IDX data = Ok c /\ lengths_of c = Ok (Z.of_nat <$> rows).
Proof.
  intros (d & Hd & Hp). assert (NoDup d.*1) as Hnd by (rewrite (select_keys _ _ _ Hd); apply skeleton_keys).
  destruct (select_column _ _ _ META_IDX (TensorCol ((fun i => Num (Z.of_nat i)) <$> seq 0 (length lens))) Hd eq_refl) as (c & Hc & Hs).
  exists c. unfold column_at. rewrite (kv_get_perm _ _ _ Hnd Hp), Hc. split; [done|]. unfold select_rows in Hs. apply bind_Ok in Hs as (l & Hl%gather_Ok & [= <-]).
  unfold lengths_of. cbn [rows_of with_rows]. apply traverse_Ok, Forall2_fmap_r, Forall2_flip. eapply Forall2_impl; [exact Hl|]. intros i x Hx.
  cbn [rows_of] in Hx. rewrite list_lookup_fmap in Hx. destruct (seq 0 (length lens) !! i) as [j|] eqn:E; [|done]. injection Hx as <-. by apply lookup_seq in E as [-> _].
Qed.

(** ** The metadata of a rank *)

(** These rows of the batch, the plan of the shard, and everything else as it was. *)
Record rank_of (meta : KVBatchMeta) (sh : Shard) (idx : list nat) (m : KVBatchMeta) : Prop := {
  ro_partition : partition_id m = partition_id meta;
  ro_aligned : aligned m;
  ro_size : DataPlaneMeta.size m = length idx;
  ro_rows : forall j i, idx !! j = Some i -> DataPlaneMeta.row m j = DataPlaneMeta.row meta i;
  ro_extra : extra_info m = rank_extra (extra_info meta) sh }.

Lemma rank_meta_Ok meta lens w sh rows idx m : given (skeleton lens w) sh rows -> rank_meta meta sh = Ok (idx, m) -> idx = rows /\ rank_of meta sh idx m.
Proof.
  intros Hg Hr. destruct (skeleton_index _ _ _ _ Hg) as (c & Hc & Hl). unfold rank_meta in Hr. rewrite Hc in Hr. cbn [mbind res_bind] in Hr. rewrite Hl in Hr.
  cbn [mbind res_bind] in Hr. apply bind_Ok in Hr as (m0 & Hm0 & (m1 & Hm1 & [= <- <-])%bind_Ok).
  unfold meta_init in Hm1. apply bind_Ok in Hm1 as (? & _ & [= <-]). apply subset_spec in Hm0 as (Hal & Hp & Hs & Hrow).
  assert (Z.to_nat <$> (Z.of_nat <$> rows) = rows) as Hid by (rewrite <- list_fmap_compose; etrans; [|apply list_fmap_id]; apply list_fmap_ext; intros; cbn; lia).
  split; [done|]. constructor; try done.
Qed.

(** ** The inverse permutation *)

Lemma invert_spec : forall flat pos u u', NoDup flat -> invert pos flat u = Ok u' -> length u' = length u
  /\ (forall j i, flat !! j = Some i -> u' !! i = Some (pos + j)%nat) /\ (forall i, i ∉ flat -> u' !! i = u !! i).
Proof.
  induction flat as [|x flat IH]; intros pos u u' Hnd; cbn [invert]; [intros [= ->]; by split_and!|].
  intros (? & Hx%raise_if_Ok%Nat.leb_gt & Hr)%bind_Ok. apply NoDup_cons in Hnd as [Hni Hnd]. apply IH in Hr as (Hl & Hin & Hout); [|done].
  rewrite length_insert in Hl. split_and!; [done| |].
  - intros [|j] i; cbn [lookup list_lookup].
    + intros [= ->]. rewrite (Hout i Hni), list_lookup_insert_eq by lia. f_equal. lia.
    + intros Hj. rewrite (Hin _ _ Hj). f_equal. lia.
  - intros i Hi. rewrite Hout by (intros H; apply Hi; by right). apply list_lookup_insert_ne. intros ->. apply Hi. by left.
Qed.

Lemma inverted flat n u : flat ≡ₚ seq 0 n -> invert 0 flat (repeat 0%nat n) = Ok u -> length u = n /\ select_indices flat u = seq 0 n.
Proof.
  intros Hp Hu. assert (NoDup flat) as Hnd by (rewrite Hp; apply NoDup_seq). apply invert_spec in Hu as (Hl & Hin & _); [|done].
  rewrite repeat_length in Hl. assert (forall i, (i < n)%nat -> exists j, u !! i = Some j /\ flat !! j = Some i) as Hinv.
  { intros i Hi. assert (i ∈ flat) as [j Hj]%list_elem_of_lookup_1 by (rewrite Hp; apply elem_of_seq; lia). exists j. split; [by apply (Hin j i)|done]. }
  split; [done|]. apply list_eq. intros i. assert (Forall (fun j => (j < length flat)%nat) u) as Hf.
  { apply Forall_lookup. intros k j Hk. destruct (Hinv k) as (j' & Hj' & Hfl); [rewrite <- Hl; by eapply lookup_lt_Some|]. rewrite Hk in Hj'. injection Hj' as <-.
    by eapply lookup_lt_Some. }
  rewrite select_indices_lookup by done. destruct (decide (i < n)%nat) as [Hi|Hi].
  - destruct (Hinv i Hi) as (j & -> & Hj). cbn. by rewrite Hj, lookup_seq_lt.
  - rewrite lookup_seq_ge by lia. rewrite (lookup_ge_None_2 u) by lia. done.
Qed.

Section properties.
Context (shuffle : nat -> list (Z * nat) -> list (Z * nat)) (Hshuffle : forall c items, shuffle c items ≡ₚ items).

(** What the driver asks for when it packs. *)
Definition packs (lens : list Z) (args : SequencePackingArgs) : Prop :=
  p_input_lengths_key args = INPUT_LENGTHS /\ 0 < p_max_tokens_per_microbatch args /\ 0 < sequence_length_pad_multiple args /\ Forall (fun l => 0 < l) lens.

Lemma skeleton_packable lens w args : lens <> [] -> packs lens args -> packable (skeleton lens w) (Packed args).
Proof.
  intros Hne (Hk & Hcap & Hm & Hl). split_and!; [rewrite skeleton_rows; intros [= H]; by apply length_zero_iff_nil in H|done|done|].
  rewrite Hk. destruct (skeleton_lengths lens w) as [-> Hls]. intros c ls [= <-]. rewrite Hls. by intros [= <-].
Qed.

(** A successful call, taken apart. *)
Lemma shard_meta_Ok meta dp batch_size spa dba metas unsorted : shard_meta_for_dp shuffle meta dp batch_size spa dba = Ok (metas, unsorted) ->
  exists lens mode w sharded order ranks, sequence_lengths meta = Some lens /\ length lens = length (sample_ids meta) /\ lens <> []
    /\ (forall args, mode = Packed args <-> spa = Some args) /\ shard_by_batch_size shuffle (skeleton lens w) dp batch_size false mode = Ok (sharded, order)
    /\ Forall2 (fun sh r => rank_meta meta sh = Ok r) sharded ranks /\ metas = ranks.*2
    /\ ((unsorted = None /\ mjoin ranks.*1 = seq 0 (length (sample_ids meta)))
        \/ exists u, unsorted = Some u /\ invert 0 (mjoin ranks.*1) (repeat 0%nat (length (sample_ids meta))) = Ok u).
Proof.
  unfold shard_meta_for_dp. intros (? & Hn%raise_if_Ok%Nat.eqb_neq & (lens & Hl & (mode & Hm & (? & _ & ([sharded order] & Hs & (ranks & Hr%traverse_Ok
    & (u & Hu & [= <- <-])%bind_Ok)%bind_Ok)%bind_Ok)%bind_Ok)%bind_Ok)%bind_Ok)%bind_Ok.
  destruct (sequence_lengths meta) as [l|]; [|done]. apply bind_Ok in Hl as (? & Hle%raise_if_Ok%negb_false_iff%Nat.eqb_eq & [= <-]).
  eexists l, mode, _, sharded, order, ranks. split_and!; [done|done|intros ->; cbn in Hle; lia| |exact Hs|done|done|].
  - intros args. destruct spa as [a|], dba as [d|]; try done; injection Hm as <-; split; congruence.
  - destruct (decide _); [left; injection Hu as <-; done|right]. apply bind_Ok in Hu as (u' & Hu & [= <-]). by exists u'.
Qed.

(** The ranks of the shards of the skeleton. *)
Lemma ranks_given meta lens w sharded ranks rows : Forall2 (given (skeleton lens w)) sharded rows -> Forall2 (fun sh r => rank_meta meta sh = Ok r) sharded ranks ->
  ranks.*1 = rows /\ Forall2 (fun sh r => rank_of meta sh r.1 r.2) sharded ranks.
Proof.
  intros Hg. revert ranks. induction Hg as [|sh idx sharded rows Hsh _ IH]; intros ranks Hr; inversion Hr as [|? [i m] ? rs Hm Hrs]; subst; [done|].
  destruct (rank_meta_Ok _ _ _ _ _ _ _ Hsh Hm) as [-> Hro]. destruct (IH _ Hrs) as [<- Hf]. split; [done|by constructor].
Qed.

(** Presharding deals out the samples.  Each rank gets metadata of the partition
    whose rows are those of the batch at its indices, with their ids, lengths and
    tags; the ranks' indices are those of the batch, each once; and the second result
    says where each sample of the batch is in the ranks' order, absent exactly when
    that is the order of the batch. *)
Theorem presharding_deals_out_the_samples meta dp batch_size spa dba metas unsorted :
  (forall args lens, spa = Some args -> sequence_lengths meta = Some lens -> packs lens args) ->
  shard_meta_for_dp shuffle meta dp batch_size spa dba = Ok (metas, unsorted) ->
  exists idxs sharded, length metas = dp /\ length sharded = dp /\ mjoin idxs ≡ₚ seq 0 (length (sample_ids meta))
    /\ (forall s m, metas !! s = Some m -> exists idx sh, idxs !! s = Some idx /\ sharded !! s = Some sh /\ rank_of meta sh idx m)
    /\ match unsorted with
       | None => mjoin idxs = seq 0 (length (sample_ids meta))
       | Some back => length back = length (sample_ids meta) /\ select_indices (mjoin idxs) back = seq 0 (length (sample_ids meta))
       end.
Proof.
  intros Hpk H. destruct (shard_meta_Ok _ _ _ _ _ _ _ H) as (lens & mode & w & sharded & order & ranks & Hl & Hle & Hne & Hmode & Hs & Hr & -> & Hu).
  assert (packable (skeleton lens w) mode) as Hp by (destruct mode as [| |args]; [done|done|apply skeleton_packable; [done|]; apply Hpk; [by apply Hmode|done]]).
  destruct (sharded_rows shuffle Hshuffle _ _ _ _ _ _ _ (skeleton_keys lens w) Hp Hs) as (plan & total & Hb & _ & Hpl & Hg & Hperm & _).
  rewrite skeleton_rows in Hb. injection Hb as <-. rewrite Hle in Hperm. destruct (ranks_given _ _ _ _ _ _ Hg Hr) as [Hidx Hro].
  assert (length sharded = dp) as Hsl by (rewrite (Forall2_length _ _ _ Hg); unfold rank_rows; by rewrite length_fmap).
  exists ranks.*1, sharded. rewrite Hidx in Hu |- *. split_and!; try done.
  - rewrite length_fmap. rewrite <- (Forall2_length _ _ _ Hr). done.
  - rewrite <- Hidx. intros s m Hm. rewrite list_lookup_fmap in Hm. destruct (ranks !! s) as [[idx m']|] eqn:E; [|done]. injection Hm as <-.
    destruct (Forall2_lookup_r _ _ _ _ _ Hro E) as (sh & Hsh & Hrk). exists idx, sh. rewrite list_lookup_fmap, E. done.
  - destruct Hu as [[-> Hu]|(u & -> & Hu)]; [done|]. by apply inverted.
Qed.

(** The run behind presharded metadata. *)
Lemma presharded_run meta dp batch_size args lens metas unsorted :
  sequence_lengths meta = Some lens -> packs lens args -> shard_meta_for_dp shuffle meta dp batch_size (Some args) None = Ok (metas, unsorted) ->
  exists w sz ps o chunks runs ranks, length (sample_ids meta) = (num_chunks sz * chunk_size sz)%nat /\ dp <> 0%nat /\ metas = ranks.*2 /\ length ranks = dp
    /\ packed_run args dp sz (skeleton lens w) ps o lens chunks runs /\ ranks.*1 = rank_rows (packed_plan runs)
    /\ dealt (chunk_size sz) (num_chunks sz) dp (packed_plan runs) /\ Forall2 (fun sh r => rank_of meta sh r.1 r.2) ps ranks.
Proof.
  intros Hl Hpk H. destruct (shard_meta_Ok _ _ _ _ _ _ _ H) as (lens' & mode & w & sharded & order & ranks & Hl' & Hle & Hne & Hmode & Hs & Hr & -> & _).
  rewrite Hl in Hl'. injection Hl' as <-. rewrite (proj2 (Hmode args) eq_refl) in Hs. unfold shard_by_batch_size in Hs.
  apply bind_Ok in Hs as (sz & (Hz & _)%sizes_checked & ([ps o] & Hp & [= <- <-])%bind_Ok). pose proof Hz as [Hb _ Ht Hn0 _ _].
  rewrite skeleton_rows in Hb. injection Hb as Hb. rewrite Hle in Hb.
  destruct (packable_run shuffle Hshuffle args _ dp false sz ps o Hz (skeleton_keys lens w) (skeleton_packable _ w args Hne Hpk) Hp) as (lens' & chunks & runs & Hrun).
  destruct (packed_plan_dealt args dp sz (skeleton lens w) ps o lens' chunks runs) as (Hd & Hg & _); [lia|done|]. pose proof Hrun as [(c0 & Hc0 & Hls) _ [Hrl _] Hparts _].
  assert (lens' = lens) as ->.
  { rewrite (proj1 Hpk) in Hc0. destruct (skeleton_lengths lens w) as [Hcol Hlc]. rewrite Hcol in Hc0. injection Hc0 as <-. rewrite Hlc in Hls. by injection Hls. }
  destruct (ranks_given _ _ _ _ _ _ Hg Hr) as [Hidx Hro]. exists w, sz, ps, o, chunks, runs, ranks. split_and!; try done; [by rewrite Hb|].
  by rewrite <- (Forall2_length _ _ _ Hr), (Forall2_length _ _ _ Hparts).
Qed.

(** A rank that fetched its rows attaches the run's plan and reads its bins. *)
Lemma attached_reads meta args lens w sz dp ps o chunks runs sh run s m idx c bins padded k B data cfg :
  packed_run args dp sz (skeleton lens w) ps o lens chunks runs -> (s < dp)%nat -> ps !! s = Some sh -> runs !! s = Some run -> rank_of meta sh idx m ->
  batch_rows B = Ok (length (sample_ids meta)) -> holds B data (mjoin (sc_rows <$> run)) -> chunks !! c = Some (bins, padded) -> length bins = (k * dp)%nat ->
  exists sh mb tables sb, _attach_or_repack_pack_metadata shuffle cfg data m = Ok sh /\ get_batch sh c None = Ok mb /\ microbatches mb = Ok tables
    /\ length tables = k /\ sb ≡ₚ every dp s bins /\ runs_bins B (c * chunk_size sz) padded (p_max_tokens_per_microbatch args) tables sb.
Proof.
  intros [_ [Hcl Hch] [Hrl Hrs] Hparts _] Hlt Hsh Hrn Hro HB Hh Hck Hk. destruct (Hrs s run Hrn) as [Hrlen Hsc].
  destruct (Forall2_lookup_l _ _ _ _ _ Hparts Hsh) as (run' & Hrn' & _ & Hmi & Hml & Hme). rewrite Hrn in Hrn'. injection Hrn' as <-.
  exists (mkShard data (Some (sc_indices <$> run)) (Some (sc_lengths <$> run)) (Some (sc_count <$> run))).
  destruct (run_reads args B _ dp sz lens chunks run s (mkShard data (Some (sc_indices <$> run)) (Some (sc_lengths <$> run)) (Some (sc_count <$> run)))
    c bins padded k HB) as (mb & tables & sb & H1 & H2 & H3 & H4 & H5 & _); try done; [lia|].
  exists mb, tables, sb. split_and!; try done. eapply attach_plan; [apply Hro|done..].
Qed.

(** C9 Presharded ranks run in step.  Take the samples of the batch as rows of a
    table, and let each rank fetch the rows of its metadata.  Whatever the chunk, the
    rank attaches the plan it was shipped and iterates over as many microbatches as any
    other rank: the bins that the driver packed from the lengths alone, of the rows
    that were fetched, none over the capacity. *)
Theorem presharded_ranks_run_in_step meta dp batch_size args lens metas unsorted :
  sequence_lengths meta = Some lens -> packs lens args -> shard_meta_for_dp shuffle meta dp batch_size (Some args) None = Ok (metas, unsorted) ->
  exists size chunks idxs, length (sample_ids meta) = (chunks * size)%nat /\ length metas = dp /\ length idxs = dp /\ mjoin idxs ≡ₚ seq 0 (length (sample_ids meta))
    /\ (forall s m idx, metas !! s = Some m -> idxs !! s = Some idx -> exists sh, rank_of meta sh idx m)
    /\ forall c, (c < chunks)%nat -> exists bins padded k, chunk_packed args dp size lens c bins padded /\ length bins = (k * dp)%nat /\ (0 < k)%nat
       /\ forall s m idx B data cfg, metas !! s = Some m -> idxs !! s = Some idx -> batch_rows B = Ok (length (sample_ids meta)) -> holds B data idx ->
          exists sh mb tables sb, _attach_or_repack_pack_metadata shuffle cfg data m = Ok sh /\ get_batch sh c None = Ok mb /\ microbatches mb = Ok tables
            /\ length tables = k /\ sb ≡ₚ every dp s bins /\ runs_bins B (c * size) padded (p_max_tokens_per_microbatch args) tables sb.
Proof.
  intros Hl Hpk H. destruct (presharded_run _ _ _ _ _ _ _ Hl Hpk H) as (w & sz & ps & o & chunks & runs & ranks & Hn & Hdp & -> & Hrk & Hrun & Hidx & Hd & Hro).
  pose proof Hrun as [_ [Hcl Hch] _ _ _]. exists (chunk_size sz), (num_chunks sz), ranks.*1. split_and!; [done|by rewrite length_fmap|by rewrite length_fmap| | |].
  - rewrite Hidx, Hn. by eapply dealt_rows.
  - intros s m idx Hm Hi. rewrite list_lookup_fmap in Hm. rewrite list_lookup_fmap in Hi. destruct (ranks !! s) as [[idx' m']|] eqn:E; [|done]. injection Hm as <-. injection Hi as <-.
    destruct (Forall2_lookup_r _ _ _ _ _ Hro E) as (sh & _ & Hrko). by exists sh.
  - intros c Hc. destruct (lookup_lt_is_Some_2 chunks c) as [[bins padded] Hck]; [lia|]. pose proof (Hch c bins padded Hck) as Hcp.
    pose proof Hcp as [_ _ [_ _ _ (k & Hk & Hk0)]]. exists bins, padded, k. split_and!; try done. intros s m idx B data cfg Hm Hi HB Hh.
    rewrite list_lookup_fmap in Hm. destruct (ranks !! s) as [[idx' m']|] eqn:E; [|done]. injection Hm as <-.
    destruct (Forall2_lookup_r _ _ _ _ _ Hro E) as (sh & Hsh & Hrko). rewrite Hidx in Hi. unfold rank_rows, packed_plan in Hi.
    rewrite <- list_fmap_compose, list_lookup_fmap in Hi. destruct (runs !! s) as [run|] eqn:Er; [|done]. injection Hi as <-.
    eapply (attached_reads meta args lens w sz dp ps o chunks runs sh run s); try done. rewrite <- Hrk. by eapply lookup_lt_Some.
Qed.
End properties.

(** ** Witnesses *)

Module Demo.
Import ShardingProps.Demo.

Definition meta : KVBatchMeta :=
  mkMeta "rollout" (Some "train") ["a"; "b"; "c"; "d"; "e"; "f"; "g"; "h"] (Some ["input_ids"]) (Some [3; 7; 2; 8; 5; 5; 1; 4]) [(VStr "step", VInt 7)] None.
Definition sent := match shard_meta_for_dp shuffle meta 2 (Some 4%nat) (Some packing) None with Ok r => r | Raise _ => ([], None) end.

Lemma meta_packs : packs [3; 7; 2; 8; 5; 5; 1; 4] packing.
Proof. split_and!; [done..|]. by apply (bool_decide_unpack _). Qed.

Lemma deals_witness : shard_meta_for_dp shuffle meta 2 (Some 4%nat) (Some packing) None = Ok (sent.1, Some [1; 4; 5; 0; 2; 6; 7; 3]%nat)
  /\ exists idxs, length sent.1 = 2%nat /\ mjoin idxs ≡ₚ seq 0 8 /\ select_indices (mjoin idxs) [1; 4; 5; 0; 2; 6; 7; 3]%nat = seq 0 8.
Proof.
  split; [by vm_compute|].
  destruct (presharding_deals_out_the_samples shuffle shuffle_perm meta 2 (Some 4%nat) (Some packing) None sent.1 (Some [1; 4; 5; 0; 2; 6; 7; 3]%nat)
    ltac:(intros args lens [= <-] [= <-]; exact meta_packs) ltac:(by vm_compute)) as (idxs & sharded & H1 & _ & H2 & _ & _ & H3).
  by exists idxs.
Defined.

Lemma step_witness : batch_rows batch = Ok 8%nat /\ exists size chunks idxs, 8%nat = (chunks * size)%nat /\ length idxs = 2%nat
  /\ forall c, (c < chunks)%nat -> exists bins padded k, chunk_packed packing 2 size [3; 7; 2; 8; 5; 5; 1; 4] c bins padded /\ length bins = (k * 2)%nat
     /\ forall s m idx data, sent.1 !! s = Some m -> idxs !! s = Some idx -> holds batch data idx ->
          exists sh mb tables sb, _attach_or_repack_pack_metadata shuffle VNone data m = Ok sh /\ get_batch sh c None = Ok mb /\ microbatches mb = Ok tables
            /\ length tables = k /\ sb ≡ₚ every 2 s bins /\ runs_bins batch (c * size) padded 8 tables sb.
Proof.
  split; [by vm_compute|].
  destruct (presharded_ranks_run_in_step shuffle shuffle_perm meta 2 (Some 4%nat) packing [3; 7; 2; 8; 5; 5; 1; 4] sent.1 (Some [1; 4; 5; 0; 2; 6; 7; 3]%nat)
    eq_refl meta_packs ltac:(by vm_compute)) as (size & chunks & idxs & Hn & _ & Hi & _ & _ & Hc).
  exists size, chunks, idxs. split_and!; [exact Hn|done|]. intros c Hlt. destruct (Hc c Hlt) as (bins & padded & k & H1 & H2 & _ & H3).
  exists bins, padded, k. split_and!; [done|done|]. intros s m idx data Hm Hidx Hh. apply (H3 s m idx batch data VNone Hm Hidx eq_refl Hh).
Defined.

(** The second result is an index into the ranks' order: selecting by it restores
    the batch, [reorder_data] by it does not, since that takes the order itself. *)
Lemma unsorted_selects_back : exists flat, flat = [3; 0; 4; 7; 1; 2; 5; 6]%nat
  /\ sent.2 = Some [1; 4; 5; 0; 2; 6; 7; 3]%nat
  /\ (out ← select flat batch; select [1; 4; 5; 0; 2; 6; 7; 3]%nat out) = Ok batch
  /\ (out ← select flat batch; reorder_data flat out) = Ok batch
  /\ (out ← select flat batch; reorder_data [1; 4; 5; 0; 2; 6; 7; 3]%nat out) <> Ok batch.
Proof. eexists. split_and!; [done|by vm_compute..|]. vm_compute. congruence. Qed.

(** A worker that packs locally leaves its rows in the order of the bins. *)
Definition worker_cfg : PyVal :=
  str_dict [("make_sequence_length_divisible_by", VInt 1);
    ("sequence_packing", str_dict [("enabled", VBool true); ("algorithm", VStr "modified_first_fit_decreasing"); ("train_mb_tokens", VInt 8)])].
Lemma local_packing_reorders : exists sh, _attach_or_repack_pack_metadata shuffle worker_cfg batch meta = Ok sh
  /\ column_at "names" (sh_data sh) = Ok (ListCol ((fun z => Obj (VInt z)) <$> [3; 1; 6; 4; 0; 5; 2; 7])).
Proof. eexists. split; [by vm_compute|done]. Qed.
End Demo.
