(* ===== verification/SparseCodec.v ===== *)
(** * Sparse weight updates on the wire
    ([utils/weight_transfer_sparse_codec.py], and its reader in
    [models/generation/vllm/vllm_sparse_delta.py])

    The trainer sends the changed elements of each weight: where they are, and
    their bits.  Locations that follow one another are sent as a range, others as
    the gaps between them in the narrowest width that holds them all; values are
    pooled by the size of their elements.  Payloads of several chunks are merged
    into one without looking at the weights again.

    A tensor is the list of its elements' bits, in order; an element of [s] bytes
    is a number below [256 ^ s]. *)

From S2P Require Import Prelude.
From S2P Require Import PyVal.
From S2P Require Import DataPlaneMeta.
#[local] Open Scope string_scope.
#[local] Open Scope Z_scope.

(** ** Tensors and their integer views *)

Record Tensor := mkTensor { t_shape : list Z; t_dtype : string; t_itemsize : Z; t_bits : list Z }.
Definition numel (t : Tensor) : nat := length (t_bits t).

(** A tensor of integers of some size. *)
Record Ints := mkInts { i_size : Z; ints : list Z }.

Definition integer_dtype_for_element_size (element_size : Z) : res Z :=
  if bool_decide (element_size ∈ [1; 2; 4; 8]) then Ok element_size else Raise ValueError.
Definition integer_view (t : Tensor) : res Ints := s ← integer_dtype_for_element_size (t_itemsize t); Ok (mkInts s (t_bits t)).

Inductive SparseOperation := Xor | Overwrite.
#[export] Instance SparseOperation_eq_dec : EqDecision SparseOperation.
Proof. solve_decision. Defined.
Definition sparse_operation (value : string) : res SparseOperation :=
  if String.eqb value "xor" then Ok Xor else if String.eqb value "overwrite" then Ok Overwrite else Raise ValueError.

Record SparseInfo := mkInfo {
  si_name : string;
  si_tensor : Tensor;
  si_locations : list Z;
  si_values : Ints;
  si_operation : SparseOperation }.

(** ** Payloads *)

Inductive Encoding := Range (range_start : Z) | Deltas.

(** The metadata of one weight. *)
Record Item := mkItem {
  it_name : string;
  it_shape : list Z;
  it_dtype : string;
  it_operation : SparseOperation;
  index_start : nat;
  index_end : nat;
  value_group : nat;
  value_start : nat;
  value_end : nat;
  index_encoding : Encoding;
  verification_samples : option Z }.

(** [TensorPayload]. *)
Record Payload := mkPayload { indices : list Z; values : list Ints; metadata : list Item }.

(** [_TensorPayloadBuilder]. *)
Record Builder := mkBuilder {
  locations : list (list Z);
  value_parts : list (list Ints);
  value_group_by_dtype : list (Z * nat);
  value_offsets : list nat;
  b_metadata : list Item;
  index_offset : nat }.
Definition new_builder : Builder := mkBuilder [] [] [] [] [] 0.

Definition add_locations (locs : list Z) (b : Builder) : Builder * (nat * nat) :=
  let start := index_offset b in
  match locs with
  | [] => (b, (start, start))
  | _ => (mkBuilder (locations b ++ [locs])%list (value_parts b) (value_group_by_dtype b) (value_offsets b) (b_metadata b) (start + length locs),
          (start, (start + length locs)%nat))
  end.

Definition group_of (dtype : Z) (b : Builder) : Builder * nat :=
  match list_find (fun kv : Z * nat => kv.1 = dtype) (value_group_by_dtype b) with
  | Some (_, (_, g)) => (b, g)
  | None =>
      let g := length (value_parts b) in
      (mkBuilder (locations b) (value_parts b ++ [[]])%list (value_group_by_dtype b ++ [(dtype, g)])%list (value_offsets b ++ [0%nat])%list (b_metadata b) (index_offset b), g)
  end.
Definition add_values (vs : Ints) (b : Builder) : Builder * (nat * nat * nat) :=
  let '(b, g) := group_of (i_size vs) b in
  let start := default 0%nat (value_offsets b !! g) in
  let stop := (start + length (ints vs))%nat in
  (mkBuilder (locations b) (alter (fun parts : list Ints => (parts ++ [vs])%list) g (value_parts b)) (value_group_by_dtype b) (<[g := stop]> (value_offsets b)) (b_metadata b) (index_offset b),
   (g, start, stop)).
Definition add_metadata (it : Item) (b : Builder) : Builder :=
  mkBuilder (locations b) (value_parts b) (value_group_by_dtype b) (value_offsets b) (b_metadata b ++ [it])%list (index_offset b).

(** [torch.cat] of parts of one dtype; [parts[0]] of none fails. *)
Definition cat_parts (parts : list Ints) : res Ints :=
  match parts with p :: _ => Ok (mkInts (i_size p) (mjoin (ints <$> parts))) | [] => Raise IndexError end.
Definition finish (b : Builder) : res Payload :=
  vs ← traverse cat_parts (value_parts b); Ok (mkPayload (mjoin (locations b)) vs (b_metadata b)).

(** ** Encoding *)

(** [np.diff(indices, prepend=-1) - 1]. *)
Fixpoint gaps (previous : Z) (locs : list Z) : list Z := match locs with [] => [] | x :: locs => x - previous - 1 :: gaps x locs end.
Definition max_of (l : list Z) : res Z := match l with [] => Raise ValueError | x :: l => Ok (foldl Z.max x l) end.
Definition delta_width (max_delta : Z) : nat := if max_delta <=? 0xFFFF then 2 else if max_delta <=? 0xFFFFFFFF then 4 else 8.
Definition _encode_explicit_locations (locs : list Z) : res (list Z) :=
  let deltas := gaps (-1) locs in
  m ← max_of deltas; Ok (deltas ≫= le_bytes (delta_width m)).

(** [raw_locations[-1]]. *)
Definition last_of (l : list Z) : res Z := match last l with Some x => Ok x | None => Raise IndexError end.
Definition first_of (l : list Z) : res Z := match l with x :: _ => Ok x | [] => Raise IndexError end.
Definition is_range (locs : list Z) (count : nat) : res bool :=
  if (count =? 1)%nat then Ok true else l ← last_of locs; f ← first_of locs; Ok (l - f + 1 =? Z.of_nat count).

(** Where the locations of a weight go: nowhere, as a range, or as gaps. *)
Definition place_locations (locs : list Z) (count : nat) (b : Builder) : res (Builder * (nat * nat) * Encoding) :=
  range ← is_range locs count;
  if range : bool then f ← first_of locs; Ok (b, (index_offset b, index_offset b), Range f)
  else raw ← _encode_explicit_locations locs; let '(b', se) := add_locations raw b in Ok (b', se, Deltas).
Definition encode_one (info : SparseInfo) (b : Builder) : res Builder :=
  '(b1, (i0, i1), enc) ← place_locations (si_locations info) (length (ints (si_values info))) b;
  let '(b2, (g, v0, v1)) := add_values (si_values info) b1 in
  Ok (add_metadata (mkItem (si_name info) (t_shape (si_tensor info)) (t_dtype (si_tensor info)) (si_operation info) i0 i1 g v0 v1 enc None) b2).

Fixpoint encode_into (infos : list SparseInfo) (b : Builder) : res Builder :=
  match infos with [] => Ok b | info :: infos => b ← encode_one info b; encode_into infos b end.
Definition encode_sparse_infos (infos : list SparseInfo) : res Payload := b ← encode_into infos new_builder; finish b.

(** ** Merging *)

(** [group_remap] and [group_starts], by old group. *)
Fixpoint merge_groups (groups : list Ints) (b : Builder) : Builder * list (nat * nat) :=
  match groups with
  | [] => (b, [])
  | vs :: groups =>
      let '(b, (g, start, _)) := add_values vs b in
      let '(b, remap) := merge_groups groups b in
      (b, (g, start) :: remap)
  end.
Definition merge_item (remap : list (nat * nat)) (offset : nat) (it : Item) : res Item :=
  match remap !! value_group it with
  | None => Raise KeyError
  | Some (g, start) =>
      Ok (mkItem (it_name it) (it_shape it) (it_dtype it) (it_operation it) (index_start it + offset) (index_end it + offset) g
            (value_start it + start) (value_end it + start) (index_encoding it) (verification_samples it))
  end.
Definition merge_one (p : Payload) (b : Builder) : res Builder :=
  let '(b, remap) := merge_groups (values p) b in
  let '(b, (offset, _)) := add_locations (indices p) b in
  items ← traverse (merge_item remap offset) (metadata p);
  Ok (foldl (fun b it => add_metadata it b) b items).
Fixpoint merge_into (payloads : list Payload) (b : Builder) : res Builder :=
  match payloads with [] => Ok b | p :: payloads => b ← merge_one p b; merge_into payloads b end.
Definition merge_sparse_payloads (payloads : list Payload) : res Payload := b ← merge_into payloads new_builder; finish b.

(** ** Decoding *)

(** A number in [bits] bits, signed. *)
Definition wrap (bits : Z) (z : Z) : Z := (z + 2 ^ (bits - 1)) mod 2 ^ bits - 2 ^ (bits - 1).

Fixpoint of_le (l : list Z) : Z := match l with [] => 0 | b :: l => b + 256 * of_le l end.
(** [raw.view(dtype)], little endian. *)
Definition view_words (w : nat) (raw : list Z) : res (list Z) :=
  _ ← raise_if (negb (length raw mod w =? 0)%nat) ValueError;
  Ok ((fun i => of_le (list_slice (i * w) (i * w + w) raw)) <$> seq 0 (length raw / w)).
(** [locations += 1; np.cumsum; locations -= 1] in the location dtype. *)
Fixpoint unfold_gaps (bits : Z) (total : Z) (deltas : list Z) : list Z :=
  match deltas with
  | [] => []
  | d :: deltas => let total := wrap bits (total + wrap bits (wrap bits d + 1)) in wrap bits (total - 1) :: unfold_gaps bits total deltas
  end.

Definition sparse_locations_for_item (it : Item) (packed_locations : list Z) (bits : Z) : res (list Z) :=
  _ ← raise_if (negb (bool_decide (bits ∈ [32; 64]))) ValueError;
  let count := Z.of_nat (value_end it) - Z.of_nat (value_start it) in
  match index_encoding it with
  | Range start => _ ← raise_if (count <? 0) RuntimeError; Ok ((fun i => start + Z.of_nat i) <$> seq 0 (Z.to_nat count))
  | Deltas =>
      let raw := list_slice (index_start it) (index_end it) packed_locations in
      _ ← raise_if (count =? 0) ZeroDivisionError;
      let w := Z.of_nat (length raw) / count in
      _ ← raise_if (negb (bool_decide (w ∈ [2; 4; 8]))) KeyError;
      words ← view_words (Z.to_nat w) raw;
      Ok (unfold_gaps bits 0 words)
  end.

Definition zprod (l : list Z) : Z := foldr Z.mul 1 l.
Definition int32_max : Z := 2 ^ 31 - 1.

(** One item of a payload as the receiver reads it. *)
Definition read_item (p : Payload) (it : Item) : res (Item * list Z * Ints) :=
  locs ← sparse_locations_for_item it (indices p) (if zprod (it_shape it) <=? int32_max then 32 else 64);
  group ← get_index (values p) (value_group it);
  Ok (it, locs, mkInts (i_size group) (list_slice (value_start it) (value_end it) (ints group))).
Definition _iter_sparse_payload (skipped : list string) (p : Payload) : res (list (Item * list Z * Ints)) :=
  traverse (read_item p) (List.filter (fun it => negb (bool_decide (it_name it ∈ skipped))) (metadata p)).
