(* ===== verification/SparseCodecProps.v ===== *)
(** * Sparse updates come back as they were

    What the receiver reads of merged payloads ([SparseCodec]) are the updates that
    were encoded, in order: their locations, whatever the way and width they were
    packed in, and their bits. *)

From S2P Require Import Prelude.
From S2P Require Import PyVal.
From S2P Require Import DataPlaneMeta.
From S2P Require Import SparseCodec.
#[local] Open Scope string_scope.
#[local] Open Scope Z_scope.

(** ** Bytes *)

Lemma length_le_bytes w z : length (le_bytes w z) = w.
Proof. revert z. induction w as [|w IH]; intros z; [done|]. cbn. by rewrite IH. Qed.

Lemma of_le_bytes w : forall z, of_le (le_bytes w z) = z mod 256 ^ Z.of_nat w.
Proof.
  induction w as [|w IH]; intros z; [cbn; by rewrite Z.mod_1_r|]. cbn [le_bytes of_le]. rewrite IH, Nat2Z.inj_succ, Z.pow_succ_r by lia.
  assert (0 < 256 ^ Z.of_nat w) by (apply Z.pow_pos_nonneg; lia). rewrite Z.rem_mul_r by lia. lia.
Qed.

Lemma bind_join {A B} (f : A -> list B) l : l ≫= f = mjoin (f <$> l).
Proof. induction l as [|x l IH]; [done|]. rewrite fmap_cons, join_cons, <- IH. done. Qed.

Lemma view_words_bytes w ds : (0 < w)%nat -> view_words w (ds ≫= le_bytes w) = Ok ((fun d => d mod 256 ^ Z.of_nat w) <$> ds).
Proof.
  intros Hw. rewrite bind_join. set (bs := le_bytes w <$> ds). assert (Forall (fun x => length x = w) bs) as Hf.
  { apply Forall_fmap, Forall_forall. intros d _. apply length_le_bytes. }
  assert (length bs = length ds) as Hl by apply length_fmap. unfold view_words. rewrite (length_join_same w) by done. rewrite Hl, Nat.Div0.mod_mul, Nat.div_mul by lia.
  cbn [Nat.eqb negb raise_if mbind res_bind]. f_equal. apply list_eq. intros i. rewrite !list_lookup_fmap. destruct (ds !! i) as [d|] eqn:Ed.
  - rewrite lookup_seq_lt by (by eapply lookup_lt_Some). cbn [fmap option_fmap option_map Nat.add]. f_equal. rewrite <- of_le_bytes. f_equal.
    replace (i * w + w)%nat with ((i + 1) * w)%nat by lia. apply slice_even; [done|]. unfold bs. by rewrite list_lookup_fmap, Ed.
  - rewrite lookup_seq_ge; [done|]. by apply lookup_ge_None in Ed.
Qed.

(** ** Gaps *)

(** Strictly increasing, from above [previous]. *)
Fixpoint increasing (previous : Z) (l : list Z) : Prop := match l with [] => True | x :: l => previous < x /\ increasing x l end.

Lemma wrap_add_l b x y : 0 < b -> wrap b (wrap b x + y) = wrap b (x + y).
Proof.
  intros Hb. unfold wrap. f_equal. assert (0 < 2 ^ b) by (apply Z.pow_pos_nonneg; lia).
  replace ((x + 2 ^ (b - 1)) mod 2 ^ b - 2 ^ (b - 1) + y + 2 ^ (b - 1)) with ((x + 2 ^ (b - 1)) mod 2 ^ b + y) by lia.
  rewrite Zplus_mod_idemp_l. f_equal. lia.
Qed.
Lemma wrap_add_r b x y : 0 < b -> wrap b (x + wrap b y) = wrap b (x + y).
Proof. intros Hb. rewrite Z.add_comm, wrap_add_l, Z.add_comm by done. done. Qed.
Lemma wrap_sub_l b x y : 0 < b -> wrap b (wrap b x - y) = wrap b (x - y).
Proof. intros Hb. rewrite <- !Z.add_opp_r. by apply wrap_add_l. Qed.
Lemma wrap_id b z : 0 < b -> - 2 ^ (b - 1) <= z < 2 ^ (b - 1) -> wrap b z = z.
Proof.
  intros Hb Hz. unfold wrap. assert (2 ^ b = 2 * 2 ^ (b - 1)) as Hp by (rewrite <- Z.pow_succ_r by lia; f_equal; lia). rewrite Z.mod_small by lia. lia.
Qed.
Lemma wrap_wrap b z : 0 < b -> wrap b (wrap b z) = wrap b z.
Proof. intros Hb. pose proof (wrap_add_l b z 0 Hb) as H. by rewrite !Z.add_0_r in H. Qed.

(** Summing the gaps gives the locations, whatever overflows on the way. *)
Lemma unfold_gaps_of b locs : 0 < b -> forall previous total, -1 <= previous -> wrap b total = wrap b (previous + 1) -> increasing previous locs ->
  Forall (fun x => x < 2 ^ (b - 1)) locs -> unfold_gaps b total (gaps previous locs) = locs.
Proof.
  intros Hb. induction locs as [|x locs IH]; intros previous total Hp Ht Hi Hf; [done|]. destruct Hi as [Hx Hi]. apply Forall_cons in Hf as [Hxb Hf].
  cbn [gaps unfold_gaps].
  assert (wrap b (total + wrap b (wrap b (x - previous - 1) + 1)) = wrap b (x + 1)) as Hsum.
  { rewrite wrap_add_r by done. replace (total + (wrap b (x - previous - 1) + 1)) with (total + 1 + wrap b (x - previous - 1)) by lia. rewrite wrap_add_r by done.
    replace (total + 1 + (x - previous - 1)) with (total + (x - previous)) by lia. rewrite <- wrap_add_l, Ht, wrap_add_l by done. f_equal. lia. }
  rewrite Hsum, wrap_sub_l by done. f_equal.
  - replace (x + 1 - 1) with x by lia. apply wrap_id; [done|]. assert (0 < 2 ^ (b - 1)) by (apply Z.pow_pos_nonneg; lia). lia.
  - apply IH; [lia|by rewrite wrap_wrap|done|done].
Qed.

Lemma gaps_bound locs : forall previous m, -1 <= previous -> increasing previous locs -> Forall (fun x => x <= m) locs -> Forall (fun d => 0 <= d <= m) (gaps previous locs).
Proof.
  induction locs as [|x locs IH]; intros previous m Hp Hi Hf; [constructor|]. destruct Hi as [Hx Hi]. apply Forall_cons in Hf as [Hm Hf].
  cbn [gaps]. constructor; [lia|]. apply IH; [lia|done|done].
Qed.

Lemma max_of_spec l m : max_of l = Ok m -> Forall (fun x => x <= m) l /\ m ∈ l.
Proof.
  destruct l as [|x l]; [done|]. cbn. intros [= <-]. revert x. induction l as [|y l IH]; intros x; cbn; [split; [by repeat constructor|by left]|].
  destruct (IH (Z.max x y)) as [[H1 H2]%Forall_cons Hin]. split; [constructor; [lia|constructor; [lia|done]]|].
  apply elem_of_cons in Hin as [Hin|Hin]; [|by do 2 right]. rewrite Hin. destruct (Z.max_spec x y) as [[_ ->]|[_ ->]]; [right; by left|by left].
Qed.

Lemma length_gaps previous locs : length (gaps previous locs) = length locs.
Proof. revert previous. induction locs as [|x locs IH]; intros previous; [done|]. cbn. by rewrite IH. Qed.

Lemma delta_width_fits m : m < 2 ^ 64 -> m < 256 ^ Z.of_nat (delta_width m).
Proof. intros Hm. unfold delta_width. repeat case_match; try apply Z.leb_le in H; try apply Z.leb_le in H0; cbn; lia. Qed.

Lemma delta_width_cases m : delta_width m ∈ [2; 4; 8]%nat.
Proof. unfold delta_width. repeat case_match; set_solver. Qed.

(** The bytes of the locations of an item, and that they are read back at any
    location width that holds them. *)
Lemma explicit_locations locs : locs <> [] -> increasing (-1) locs -> Forall (fun x => x < 2 ^ 63) locs ->
  exists raw w, _encode_explicit_locations locs = Ok raw /\ length raw = (length locs * w)%nat /\ w ∈ [2; 4; 8]%nat
    /\ forall b, 0 < b -> Forall (fun x => x < 2 ^ (b - 1)) locs -> exists words, view_words w raw = Ok words /\ unfold_gaps b 0 words = locs.
Proof.
  intros Hne Hi Hf. unfold _encode_explicit_locations. destruct (max_of (gaps (-1) locs)) as [m|] eqn:Em; [|by destruct locs]. cbn [mbind res_bind].
  eexists _, (delta_width m). split; [done|]. pose proof (delta_width_cases m) as Hw. assert (0 < delta_width m)%nat as Hw0 by (unfold delta_width; repeat case_match; lia).
  split_and!; [|done|].
  - rewrite bind_join, (length_join_same (delta_width m)), length_fmap, length_gaps; [done|]. apply Forall_fmap, Forall_forall. intros d _. apply length_le_bytes.
  - intros b Hb Hfb. rewrite view_words_bytes by done. eexists. split; [done|].
    assert ((fun d => d mod 256 ^ Z.of_nat (delta_width m)) <$> gaps (-1) locs = gaps (-1) locs) as ->; [|apply unfold_gaps_of; try done; lia].
    destruct (max_of_spec _ _ Em) as [Hmax Hin]. assert (Forall (fun d => 0 <= d <= 2 ^ 63 - 1) (gaps (-1) locs)) as Hg.
    { apply gaps_bound; [lia|done|]. eapply Forall_impl; [exact Hf|]. cbn. lia. }
    rewrite Forall_forall in Hg. pose proof (Hg _ Hin) as Hm. pose proof (delta_width_fits m ltac:(lia)) as Hfit.
    etrans; [|apply list_fmap_id]. apply list_fmap_ext. intros i d Hd%list_elem_of_lookup_2. cbn. rewrite Forall_forall in Hmax.
    specialize (Hmax _ Hd). specialize (Hg _ Hd). apply Z.mod_small. lia.
Qed.

(** ** Ranges *)

Lemma increasing_last x l y : increasing x l -> last (x :: l) = Some y -> x + Z.of_nat (length l) <= y.
Proof.
  revert x. induction l as [|z l IH]; intros x; cbn [increasing]; [cbn; intros _ [= ->]; lia|]. intros [Hz Hl] Hy. rewrite last_cons_cons in Hy.
  specialize (IH z Hl Hy). cbn [length]. lia.
Qed.

(** Increasing locations that span no more than their number are consecutive. *)
Lemma increasing_range x l y : increasing x l -> last (x :: l) = Some y -> y - x + 1 = Z.of_nat (length (x :: l)) ->
  x :: l = (fun i => x + Z.of_nat i) <$> seq 0 (length (x :: l)).
Proof.
  revert x. induction l as [|z l IH]; intros x Hi Hy Hc; [cbn; f_equal; lia|]. destruct Hi as [Hz Hl]. rewrite last_cons_cons in Hy.
  pose proof (increasing_last _ _ _ Hl Hy) as Hle. cbn [length] in Hc. assert (z = x + 1) as -> by lia.
  etrans; [apply (f_equal (cons x)), (IH (x + 1) Hl Hy); cbn [length]; lia|]. change (length (x :: x + 1 :: l)) with (S (length (x + 1 :: l))).
  generalize (length (x + 1 :: l)). intros m. change (seq 0 (S m)) with (0%nat :: seq 1 m). rewrite fmap_cons, <- fmap_S_seq, <- list_fmap_compose.
  apply (f_equal2 cons); [lia|]. apply list_fmap_ext. intros i j _. cbn. lia.
Qed.

Lemma range_or_gaps locs count : locs <> [] -> increasing (-1) locs -> length locs = count ->
  exists r, is_range locs count = Ok r /\ (r = true -> exists f, first_of locs = Ok f /\ locs = (fun i => f + Z.of_nat i) <$> seq 0 count).
Proof.
  intros Hne Hi <-. destruct locs as [|x l]; [done|]. destruct Hi as [_ Hi]. unfold is_range, last_of. destruct (last (x :: l)) as [y|] eqn:Ey; [|by apply last_None in Ey].
  destruct (Nat.eqb_spec (length (x :: l)) 1) as [H1|_].
  - exists true. split; [done|]. intros _. exists x. split; [done|]. destruct l; [|done]. cbn. f_equal. lia.
  - cbn [mbind res_bind first_of]. eexists. split; [done|]. intros Hr%Z.eqb_eq. exists x. split; [done|]. by eapply increasing_range.
Qed.

(** ** Builders *)

(** What is pooled of a group so far. *)
Definition held_in (groups : list (list Ints)) (g : nat) : option Ints :=
  match groups !! g with Some (p :: parts) => Some (mkInts (i_size p) (mjoin (ints <$> p :: parts))) | _ => None end.
Definition held (b : Builder) : nat -> option Ints := held_in (value_parts b).
Definition packed (b : Builder) : list Z := mjoin (locations b).

Record builder_ok (b : Builder) : Prop := {
  bo_index : index_offset b = length (packed b);
  bo_offsets : length (value_offsets b) = length (value_parts b);
  bo_held : forall g, (g < length (value_parts b))%nat -> exists vs, held b g = Some vs /\ value_offsets b !! g = Some (length (ints vs));
  bo_dtypes : forall s g, (s, g) ∈ value_group_by_dtype b -> exists vs, held b g = Some vs /\ i_size vs = s }.

(** One builder goes on from another. *)
Record extends (b b' : Builder) : Prop := {
  ex_packed : exists more, packed b' = (packed b ++ more)%list;
  ex_held : forall g vs, held b g = Some vs -> exists more, held b' g = Some (mkInts (i_size vs) (ints vs ++ more)) }.

#[export] Instance extends_preorder : PreOrder extends.
Proof.
  split.
  - intros b. constructor; [exists []; by rewrite app_nil_r|]. intros g [s vs] Hg. exists []. cbn. by rewrite app_nil_r.
  - intros b1 b2 b3 [[m1 H1] H2] [[m3 H3] H4]. constructor; [exists (m1 ++ m3)%list; by rewrite H3, H1, app_assoc|].
    intros g vs (m & Hm)%H2. destruct (H4 _ _ Hm) as [m' Hm']. exists (m ++ m')%list. rewrite Hm'. cbn. by rewrite app_assoc.
Qed.

Lemma builder_new : builder_ok new_builder.
Proof. constructor; cbn; try done; [lia|set_solver]. Qed.

Lemma finish_Ok b : builder_ok b -> exists vs, finish b = Ok (mkPayload (packed b) vs (b_metadata b)) /\ forall g, vs !! g = held b g.
Proof.
  intros [_ _ Hh _]. unfold finish, packed. assert (exists vs, Forall2 (fun parts v => cat_parts parts = Ok v) (value_parts b) vs) as [vs Hvs].
  { assert (Forall (fun parts => parts <> []) (value_parts b)) as Hf.
    { apply Forall_lookup. intros g parts Hg ->. destruct (Hh g) as (vs & Hvs & _); [by eapply lookup_lt_Some|]. unfold held, held_in in Hvs. by rewrite Hg in Hvs. }
    clear -Hf. induction Hf as [|parts l Hp _ [vs IH]]; [by exists []|]. destruct parts as [|p parts]; [done|]. eexists (_ :: vs). by constructor. }
  rewrite (proj2 (traverse_Ok _ _ _) Hvs). cbn [mbind res_bind]. exists vs. split; [done|]. intros g. unfold held, held_in.
  destruct (value_parts b !! g) as [parts|] eqn:E.
  - destruct (Forall2_lookup_l _ _ _ _ _ Hvs E) as (v & -> & Hv). destruct parts; [done|]. by injection Hv as <-.
  - apply lookup_ge_None in E. rewrite (Forall2_length _ _ _ Hvs) in E. by apply lookup_ge_None.
Qed.

Lemma add_metadata_ok it b : builder_ok b -> builder_ok (add_metadata it b) /\ extends b (add_metadata it b).
Proof. intros [H1 H2 H3 H4]. split; [by constructor|]. constructor; [exists []; by rewrite app_nil_r|]. intros g [s vs] Hg. exists []. cbn. by rewrite app_nil_r. Qed.

Lemma add_locations_spec locs b b' i0 i1 : builder_ok b -> add_locations locs b = (b', (i0, i1)) ->
  builder_ok b' /\ extends b b' /\ b_metadata b' = b_metadata b /\ i0 = length (packed b) /\ packed b' = (packed b ++ locs)%list /\ i1 = length (packed b').
Proof.
  intros Hb Ha. pose proof Hb as [H1 H2 H3 H4]. unfold add_locations in Ha. destruct locs as [|x locs]; injection Ha as <- <- <-.
  - split_and!; try done. by rewrite app_nil_r.
  - assert (forall l, packed (mkBuilder (locations b ++ [x :: locs]) (value_parts b) (value_group_by_dtype b) (value_offsets b) (b_metadata b) l) = (packed b ++ x :: locs)%list) as Hp.
    { intros l. unfold packed. cbn [locations]. by rewrite join_app, join_cons, app_nil_r. }
    split_and!; [constructor; try done|constructor; [by eexists|]|done|done|apply Hp|].
    + rewrite Hp, length_app. cbn [index_offset length]. lia.
    + intros g [s vs] Hg. exists []. cbn. by rewrite app_nil_r.
    + rewrite Hp, length_app. cbn [length]. lia.
Qed.

Lemma held_append groups g old vs : held_in groups g = Some old -> let groups' := alter (fun parts : list Ints => (parts ++ [vs])%list) g groups in
  held_in groups' g = Some (mkInts (i_size old) (ints old ++ ints vs)) /\ forall h, h <> g -> held_in groups' h = held_in groups h.
Proof.
  intros Hold groups'. unfold groups', held_in in *. split.
  - rewrite list_lookup_alter_eq. destruct (groups !! g) as [[|p parts]|]; [done| |done]. injection Hold as <-. cbn [fmap option_fmap option_map app i_size ints].
    do 2 f_equal. rewrite app_comm_cons, fmap_app, join_app. f_equal. apply app_nil_r.
  - intros h Hne. by rewrite list_lookup_alter_ne.
Qed.

Lemma held_fresh groups vs : let groups' := alter (fun parts : list Ints => (parts ++ [vs])%list) (length groups) (groups ++ [[]])%list in
  held_in groups' (length groups) = Some vs /\ (forall h, (h < length groups)%nat -> held_in groups' h = held_in groups h) /\ length groups' = S (length groups).
Proof.
  cbv zeta. unfold held_in. rewrite length_alter, length_app. split_and!; [| |cbn; lia].
  - rewrite list_lookup_alter_eq, list_lookup_middle by done. cbn. destruct vs. by rewrite app_nil_r.
  - intros h Hh. by rewrite list_lookup_alter_ne, lookup_app_l by lia.
Qed.

(** Values of a dtype go to the end of its group. *)
Lemma add_values_spec vs b b' g v0 v1 : builder_ok b -> add_values vs b = (b', (g, v0, v1)) ->
  builder_ok b' /\ extends b b' /\ b_metadata b' = b_metadata b /\ packed b' = packed b
  /\ exists before, held b' g = Some (mkInts (i_size vs) (before ++ ints vs)) /\ v0 = length before /\ v1 = (length before + length (ints vs))%nat.
Proof.
  intros [H1 H2 H3 H4] Ha. unfold add_values, group_of in Ha. destruct (list_find _ _) as [[k [s g']]|] eqn:Ef.
  - apply list_find_Some in Ef as (Hk & Hs & _). cbn in Hs. subst s. destruct (H4 (i_size vs) g') as (old & Hold & Hsz); [by eapply list_elem_of_lookup_2|].
    injection Ha as <- <- <- <-. assert (g' < length (value_parts b))%nat as Hg.
    { unfold held, held_in in Hold. destruct (value_parts b !! g') eqn:E; [by eapply lookup_lt_Some|done]. }
    destruct (H3 g' Hg) as (old' & Hold' & Hoff). rewrite Hold in Hold'. injection Hold' as <-.
    destruct (held_append (value_parts b) g' old vs Hold) as [Hnew Hother]. rewrite Hoff. cbn [default]. unfold id. split_and!; [|constructor|done|done|].
    + constructor; cbn [index_offset value_offsets value_parts value_group_by_dtype]; [done|by rewrite length_insert, length_alter| |].
      * rewrite length_alter. intros h Hh. unfold held. cbn [value_parts]. destruct (decide (h = g')) as [->|Hne].
        -- eexists. rewrite Hnew. split; [done|]. rewrite list_lookup_insert_eq by lia. cbn [ints]. by rewrite length_app.
        -- rewrite Hother, list_lookup_insert_ne by done. by apply H3.
      * intros s h Hin. destruct (H4 s h Hin) as (w & Hw & Hws). unfold held in *. cbn [value_parts]. destruct (decide (h = g')) as [->|Hne].
        -- rewrite Hold in Hw. injection Hw as <-. eexists. by rewrite Hnew.
        -- rewrite Hother by done. by exists w.
    + exists []. by rewrite app_nil_r.
    + intros h w Hw. unfold held in *. cbn [value_parts]. destruct (decide (h = g')) as [->|Hne].
      * rewrite Hold in Hw. injection Hw as <-. exists (ints vs). exact Hnew.
      * rewrite Hother, Hw by done. exists []. rewrite app_nil_r. by destruct w.
    + exists (ints old). unfold held. cbn [value_parts]. by rewrite Hnew, Hsz.
  - injection Ha as <- <- <- <-. destruct (held_fresh (value_parts b) vs) as (Hnew & Hother & Hlen). set (groups' := alter _ _ _) in *.
    assert (forall h w, held b h = Some w -> (h < length (value_parts b))%nat) as Hlt.
    { intros h w Hw. unfold held, held_in in Hw. destruct (value_parts b !! h) eqn:E; [by eapply lookup_lt_Some|done]. }
    rewrite <- H2, list_lookup_middle by done. cbn [default]. unfold id. rewrite H2. split_and!; [|constructor|done|done|].
    + constructor; cbn [index_offset value_offsets value_parts value_group_by_dtype]; [done|rewrite length_insert, length_app, Hlen, H2; cbn; lia| |].
      * rewrite Hlen. intros h Hh. unfold held. cbn [value_parts]. destruct (decide (h = length (value_parts b))) as [->|Hne].
        -- exists vs. rewrite Hnew. split; [done|]. rewrite list_lookup_insert_eq; [done|rewrite length_app, H2; cbn; lia].
        -- rewrite Hother, list_lookup_insert_ne, lookup_app_l by lia. apply H3. lia.
      * intros s h [Hin|Hin]%elem_of_app; unfold held; cbn [value_parts].
        -- destruct (H4 s h Hin) as (w & Hw & Hws). rewrite Hother by (by eapply Hlt). by exists w.
        -- apply list_elem_of_singleton in Hin as [= -> ->]. by exists vs.
    + exists []. by rewrite app_nil_r.
    + intros h w Hw. unfold held. cbn [value_parts]. rewrite Hother by (by eapply Hlt). exists []. rewrite app_nil_r. unfold held in Hw. rewrite Hw. by destruct w.
    + exists []. unfold held. cbn [value_parts app length]. rewrite Hnew. by destruct vs.
Qed.

(** ** Reading items *)

(** An update as the receiver sees it. *)
Record Update := mkUpdate {
  u_name : string;
  u_shape : list Z;
  u_dtype : string;
  u_operation : SparseOperation;
  u_samples : option Z;
  u_locations : list Z;
  u_values : Ints }.
Definition update_of (r : Item * list Z * Ints) : Update :=
  let '(it, locs, vals) := r in mkUpdate (it_name it) (it_shape it) (it_dtype it) (it_operation it) (verification_samples it) locs vals.
Definition update_of_info (info : SparseInfo) : Update :=
  mkUpdate (si_name info) (t_shape (si_tensor info)) (t_dtype (si_tensor info)) (si_operation info) None (si_locations info) (si_values info).

Definition location_bits (shape : list Z) : Z := if zprod shape <=? int32_max then 32 else 64.

(** An item read over pools of locations and values. *)
Record reads (L : list Z) (h : nat -> option Ints) (it : Item) (u : Update) : Prop := {
  rd_update : update_of (it, u_locations u, u_values u) = u;
  rd_locations : sparse_locations_for_item it L (location_bits (it_shape it)) = Ok (u_locations u);
  rd_index : (index_start it <= index_end it <= length L)%nat;
  rd_values : exists vs, h (value_group it) = Some vs /\ (value_start it <= value_end it <= length (ints vs))%nat
    /\ u_values u = mkInts (i_size vs) (list_slice (value_start it) (value_end it) (ints vs)) }.

Lemma slice_inside {A} (a l c : list A) i j : (i <= j <= length l)%nat -> list_slice (i + length a) (j + length a) (a ++ l ++ c)%list = list_slice i j l.
Proof.
  intros Hj. unfold list_slice. replace (j + length a - (i + length a))%nat with (j - i)%nat by lia.
  rewrite Nat.add_comm, <- drop_drop, drop_app_length, drop_app_le by lia. rewrite take_app_le; [done|]. rewrite length_drop. lia.
Qed.

Lemma slice_prefix {A} (l c : list A) i j : (i <= j <= length l)%nat -> list_slice i j (l ++ c)%list = list_slice i j l.
Proof. intros Hj. pose proof (slice_inside [] l c i j Hj) as H. cbn [length app] in H. by rewrite !Nat.add_0_r in H. Qed.

(** Locations depend on the encoding, the count and the bytes alone. *)
Lemma locations_same it it' L L' b : index_encoding it' = index_encoding it ->
  Z.of_nat (value_end it') - Z.of_nat (value_start it') = Z.of_nat (value_end it) - Z.of_nat (value_start it) ->
  list_slice (index_start it') (index_end it') L' = list_slice (index_start it) (index_end it) L ->
  sparse_locations_for_item it' L' b = sparse_locations_for_item it L b.
Proof. intros He Hc Hs. unfold sparse_locations_for_item. by rewrite He, Hc, Hs. Qed.

Lemma reads_extends b b' it u : extends b b' -> reads (packed b) (held b) it u -> reads (packed b') (held b') it u.
Proof.
  intros [[more Hp] Hh] [H1 H2 H3 (vs & Hv & Hr & Hu)]. constructor; [done| | |].
  - rewrite <- H2. apply locations_same; [done|done|]. rewrite Hp. by apply slice_prefix.
  - rewrite Hp, length_app. lia.
  - destruct (Hh _ _ Hv) as [m Hm]. eexists. split; [exact Hm|]. cbn [i_size ints]. split; [rewrite length_app; lia|]. by rewrite slice_prefix.
Qed.

(** An item of a payload that was poured into pools. *)
Lemma reads_moved L h it u L' h' before more g vs b m : reads L h it u -> L' = (before ++ L ++ more)%list ->
  h (value_group it) = Some vs -> h' g = Some (mkInts (i_size vs) (b ++ ints vs ++ m)) ->
  reads L' h' (mkItem (it_name it) (it_shape it) (it_dtype it) (it_operation it) (index_start it + length before) (index_end it + length before) g
    (value_start it + length b) (value_end it + length b) (index_encoding it) (verification_samples it)) u.
Proof.
  intros [H1 H2 H3 (vs' & Hv & Hr & Hu)] -> Hg Hg'. rewrite Hg in Hv. injection Hv as <-. constructor; cbn [it_shape index_start index_end value_group value_start value_end].
  - exact H1.
  - rewrite <- H2. apply locations_same; cbn [index_encoding value_start value_end index_start index_end]; [done|lia|]. by apply slice_inside.
  - rewrite !length_app. lia.
  - eexists. split; [exact Hg'|]. cbn [i_size ints]. split; [rewrite !length_app; lia|]. by rewrite slice_inside.
Qed.

Definition carries (b : Builder) (us : list Update) : Prop := Forall2 (reads (packed b) (held b)) (b_metadata b) us.
Definition payload_carries (p : Payload) (us : list Update) : Prop := Forall2 (reads (indices p) (values p !!.)) (metadata p) us.

Lemma carries_extends b b' us : extends b b' -> b_metadata b' = b_metadata b -> carries b us -> carries b' us.
Proof. intros He Hm Hc. unfold carries in *. rewrite Hm. eapply Forall2_impl; [exact Hc|]. intros it u. by apply reads_extends. Qed.

Lemma finish_carries b us : builder_ok b -> carries b us -> exists p, finish b = Ok p /\ payload_carries p us.
Proof.
  intros Hb Hc. destruct (finish_Ok b Hb) as (vs & Hf & Hg). eexists. split; [exact Hf|]. unfold payload_carries. cbn [indices values metadata].
  eapply Forall2_impl; [exact Hc|]. intros it u [H1 H2 H3 (w & Hw & H4)]. constructor; try done. exists w. by rewrite Hg.
Qed.

(** What a payload carries is what the receiver reads, but for the names it skips. *)
Lemma carried_is_read p us skipped : payload_carries p us ->
  exists items, _iter_sparse_payload skipped p = Ok items /\ update_of <$> items = List.filter (fun u => negb (bool_decide (u_name u ∈ skipped))) us.
Proof.
  unfold _iter_sparse_payload. intros Hc. induction Hc as [|it u its us Hr _ (items & Hi & Hu)]; [by exists []|]. cbn [List.filter].
  destruct Hr as [H1 H2 H3 (vs & Hv & H4 & H5)]. assert (u_name u = it_name it) as Hn by (by rewrite <- H1). rewrite Hn. destruct (negb _); [|by exists items].
  cbn [traverse]. exists ((it, u_locations u, u_values u) :: items). rewrite Hi. unfold read_item. fold (location_bits (it_shape it)). rewrite H2. cbn [mbind res_bind].
  rewrite (proj2 (get_index_Ok _ _ _) Hv). cbn [mbind res_bind]. rewrite fmap_cons, Hu, H1, <- H5. done.
Qed.

(** ** Encoding and merging *)

(** What the trainer has to send of a weight: increasing locations within it, and
    a value for each. *)
Record sendable (info : SparseInfo) : Prop := {
  sd_some : si_locations info <> [];
  sd_increasing : increasing (-1) (si_locations info);
  sd_within : Forall (fun x => x < zprod (t_shape (si_tensor info))) (si_locations info);
  sd_shape : zprod (t_shape (si_tensor info)) <= 2 ^ 63;
  sd_values : length (ints (si_values info)) = length (si_locations info) }.

Lemma location_bits_fit info : sendable info -> let b := location_bits (t_shape (si_tensor info)) in
  bool_decide (b ∈ [32; 64]) = true /\ 0 < b /\ Forall (fun x => x < 2 ^ (b - 1)) (si_locations info).
Proof.
  intros [_ _ Hw Hs _]. cbv zeta. unfold location_bits. destruct (Z.leb_spec (zprod (t_shape (si_tensor info))) int32_max) as [Hle|]; (split_and!; [done|done|]);
    eapply Forall_impl; try exact Hw; cbn; unfold int32_max in *; lia.
Qed.

(** Locations are read back from where they were put. *)
Lemma place_locations_spec info b : builder_ok b -> sendable info -> exists b' i0 i1 enc,
  place_locations (si_locations info) (length (ints (si_values info))) b = Ok (b', (i0, i1), enc)
  /\ builder_ok b' /\ extends b b' /\ b_metadata b' = b_metadata b /\ (i0 <= i1 <= length (packed b'))%nat
  /\ forall it v0, index_start it = i0 -> index_end it = i1 -> index_encoding it = enc -> it_shape it = t_shape (si_tensor info) ->
       value_start it = v0 -> value_end it = (v0 + length (ints (si_values info)))%nat ->
       sparse_locations_for_item it (packed b') (location_bits (it_shape it)) = Ok (si_locations info).
Proof.
  intros Hb Hsd. destruct (location_bits_fit info Hsd) as (Hbits & Hb0 & Hfit). pose proof Hsd as [Hne Hi Hw Hs Hv]. unfold place_locations.
  destruct (range_or_gaps (si_locations info) _ Hne Hi (eq_sym Hv)) as (r & Hr & Hrange). rewrite Hr. cbn [mbind res_bind]. destruct r.
  - destruct (Hrange eq_refl) as (f & Hf & Hlocs). rewrite Hf. cbn [mbind res_bind]. exists b, (index_offset b), (index_offset b), (Range f). split_and!; try done.
    + by rewrite (bo_index _ Hb).
    + intros it v0 _ _ He Hsh H1 H2. unfold sparse_locations_for_item. rewrite He, Hsh, Hbits, H1, H2. cbn [negb raise_if mbind res_bind].
      replace (Z.of_nat (v0 + length (ints (si_values info))) - Z.of_nat v0) with (Z.of_nat (length (ints (si_values info)))) by lia.
      destruct (Z.ltb_spec (Z.of_nat (length (ints (si_values info)))) 0); [lia|]. cbn. by rewrite Nat2Z.id, <- Hlocs.
  - destruct (explicit_locations (si_locations info) Hne Hi) as (raw & w & Hraw & Hlen & Hwid & Hread); [eapply Forall_impl; [exact Hw|]; cbn; lia|].
    rewrite Hraw. cbn [mbind res_bind]. destruct (add_locations raw b) as [b' [i0 i1]] eqn:Ea. destruct (add_locations_spec _ _ _ _ _ Hb Ea) as (Hb' & He & Hm & -> & Hp & ->).
    exists b', (length (packed b)), (length (packed b')), Deltas. split_and!; try done; [rewrite Hp, length_app; lia|].
    intros it v0 H0 H1 Henc Hsh H2 H3. unfold sparse_locations_for_item. rewrite Henc, Hsh, Hbits, H0, H1, H2, H3. cbn [negb raise_if mbind res_bind].
    assert (list_slice (length (packed b)) (length (packed b')) (packed b') = raw) as ->.
    { rewrite Hp, length_app. unfold list_slice. rewrite drop_app_length, firstn_all2; [done|lia]. }
    replace (Z.of_nat (v0 + length (ints (si_values info))) - Z.of_nat v0) with (Z.of_nat (length (si_locations info))) by lia.
    assert (length (si_locations info) <> 0%nat) as Hn0 by (by intros H%length_zero_iff_nil).
    destruct (Z.eqb_spec (Z.of_nat (length (si_locations info))) 0); [lia|]. cbn [raise_if mbind res_bind].
    assert (Z.of_nat (length raw) / Z.of_nat (length (si_locations info)) = Z.of_nat w) as -> by (rewrite Hlen, Nat2Z.inj_mul, Z.mul_comm; apply Z.div_mul; lia).
    assert (bool_decide (Z.of_nat w ∈ [2; 4; 8]) = true) as -> by (apply bool_decide_eq_true; set_unfold; lia).
    cbn [negb raise_if mbind res_bind]. destruct (Hread _ Hb0 Hfit) as (words & Hwords & Hu). by rewrite Nat2Z.id, Hwords, <- Hu.
Qed.

Lemma encode_one_carries info b us : builder_ok b -> carries b us -> sendable info ->
  exists b', encode_one info b = Ok b' /\ builder_ok b' /\ carries b' (us ++ [update_of_info info]).
Proof.
  intros Hb Hc Hsd. destruct (place_locations_spec info b Hb Hsd) as (b1 & i0 & i1 & enc & Hp & Hb1 & He1 & Hm1 & Hidx & Hloc). unfold encode_one. rewrite Hp.
  cbn [mbind res_bind]. destruct (add_values (si_values info) b1) as [b2 [[g v0] v1]] eqn:Ea.
  destruct (add_values_spec _ _ _ _ _ _ Hb1 Ea) as (Hb2 & He2 & Hm2 & Hp2 & before & Hg & -> & ->).
  set (it := mkItem _ _ _ _ _ _ _ _ _ _ _). destruct (add_metadata_ok it b2 Hb2) as [Hb3 _]. exists (add_metadata it b2). split_and!; [done|done|].
  unfold carries. cbn [add_metadata b_metadata]. apply Forall2_app; [|constructor; [|done]].
  - change (carries b2 us). eapply (carries_extends b b2); [by etrans|by rewrite Hm2|done].
  - change (reads (packed b2) (held b2) it (update_of_info info)). rewrite Hp2. constructor.
    + done.
    + by apply (Hloc it (length before)).
    + done.
    + eexists. split; [exact Hg|]. cbn [it value_start value_end i_size ints]. split; [rewrite length_app; lia|]. unfold list_slice.
      rewrite drop_app_length, firstn_all2 by lia. cbn. by destruct (si_values info).
Qed.

Lemma encode_into_carries infos : forall b us, builder_ok b -> carries b us -> Forall sendable infos ->
  exists b', encode_into infos b = Ok b' /\ builder_ok b' /\ carries b' (us ++ (update_of_info <$> infos)).
Proof.
  induction infos as [|info infos IH]; intros b us Hb Hc Hs; [exists b; by rewrite app_nil_r|]. apply Forall_cons in Hs as [Hi Hs].
  destruct (encode_one_carries _ _ _ Hb Hc Hi) as (b1 & H1 & Hb1 & Hc1). destruct (IH _ _ Hb1 Hc1 Hs) as (b2 & H2 & Hb2 & Hc2). exists b2.
  cbn [encode_into]. rewrite H1. cbn [mbind res_bind]. split_and!; [done|done|]. by rewrite <- app_assoc in Hc2.
Qed.

Lemma carries_new : carries new_builder [].
Proof. constructor. Qed.

Lemma encode_carries infos : Forall sendable infos -> exists p, encode_sparse_infos infos = Ok p /\ payload_carries p (update_of_info <$> infos).
Proof.
  intros Hs. destruct (encode_into_carries infos _ _ builder_new carries_new Hs) as (b & He & Hb & Hc). unfold encode_sparse_infos. rewrite He.
  cbn [mbind res_bind]. by apply finish_carries.
Qed.

Lemma merge_groups_spec groups : forall b b' remap, builder_ok b -> merge_groups groups b = (b', remap) ->
  builder_ok b' /\ extends b b' /\ b_metadata b' = b_metadata b /\ packed b' = packed b
  /\ forall g vs, groups !! g = Some vs -> exists g' before more, remap !! g = Some (g', length before)
     /\ held b' g' = Some (mkInts (i_size vs) (before ++ ints vs ++ more)).
Proof.
  induction groups as [|vs groups IH]; intros b b' remap Hb; cbn [merge_groups]; [by intros [= <- <-]|].
  destruct (add_values vs b) as [b1 [[g0 v0] v1]] eqn:Ea. destruct (merge_groups groups b1) as [b2 remap'] eqn:Em. intros [= <- <-].
  destruct (add_values_spec _ _ _ _ _ _ Hb Ea) as (Hb1 & He1 & Hm1 & Hp1 & before & Hg & -> & _). destruct (IH _ _ _ Hb1 Em) as (Hb2 & He2 & Hm2 & Hp2 & Hr).
  split_and!; [done|by etrans|by rewrite Hm2|by rewrite Hp2|]. intros [|g] w; cbn [lookup list_lookup]; [|by apply Hr]. intros [= <-].
  destruct (ex_held _ _ He2 _ _ Hg) as [more Hmore]. exists g0, before, more. split; [done|]. rewrite Hmore. cbn [i_size ints]. by rewrite <- app_assoc.
Qed.

Lemma add_items_spec items : forall b, builder_ok b -> let b' := foldl (fun b it => add_metadata it b) b items in
  builder_ok b' /\ packed b' = packed b /\ held b' = held b /\ b_metadata b' = (b_metadata b ++ items)%list.
Proof.
  induction items as [|it items IH]; intros b Hb; cbn [foldl]; [by rewrite app_nil_r|]. destruct (add_metadata_ok it b Hb) as [Hb' _].
  destruct (IH _ Hb') as (H1 & H2 & H3 & H4). cbv zeta in *. split_and!; [done|by rewrite H2|by rewrite H3|]. rewrite H4. cbn [add_metadata b_metadata]. by rewrite <- app_assoc.
Qed.

Lemma merge_one_carries p b us us' : builder_ok b -> carries b us -> payload_carries p us' ->
  exists b', merge_one p b = Ok b' /\ builder_ok b' /\ carries b' (us ++ us').
Proof.
  intros Hb Hc Hp. unfold merge_one. destruct (merge_groups (values p) b) as [b1 remap] eqn:Eg. destruct (merge_groups_spec _ _ _ _ Hb Eg) as (Hb1 & He1 & Hm1 & Hp1 & Hr).
  destruct (add_locations (indices p) b1) as [b2 [offset i1]] eqn:El. destruct (add_locations_spec _ _ _ _ _ Hb1 El) as (Hb2 & He2 & Hm2 & -> & Hp2 & _).
  assert (exists items, traverse (merge_item remap (length (packed b1))) (metadata p) = Ok items /\ Forall2 (reads (packed b2) (held b2)) items us') as (items & Hi & Hits).
  { induction Hp as [|it u its us' Hit _ (items & Hi & Hits)]; [by exists []|]. destruct (rd_values _ _ _ _ Hit) as (vs & Hv & _).
    destruct (Hr _ _ Hv) as (g' & before & more & Hrm & Hg'). destruct (ex_held _ _ He2 _ _ Hg') as [more' Hg2]. cbn [i_size ints] in Hg2. rewrite <- !app_assoc in Hg2.
    assert (exists it', merge_item remap (length (packed b1)) it = Ok it' /\ reads (packed b2) (held b2) it' u) as (it' & Hmi & Hrd).
    { unfold merge_item. rewrite Hrm. eexists. split; [reflexivity|].
      eapply (reads_moved (indices p) (values p !!.) it u _ _ (packed b1) []); [done|by rewrite app_nil_r|exact Hv|exact Hg2]. }
    exists (it' :: items). split; [cbn [traverse]; by rewrite Hmi, Hi|by constructor]. }
  rewrite Hi. cbn [mbind res_bind]. destruct (add_items_spec items b2 Hb2) as (H1 & H2 & H3 & H4). eexists. split; [done|]. split; [done|]. unfold carries. rewrite H2, H3, H4.
  apply Forall2_app; [|done]. change (carries b2 us). eapply (carries_extends b b2); [by etrans|by rewrite Hm2|done].
Qed.

Lemma merge_into_carries ps uss : Forall2 payload_carries ps uss -> forall b us, builder_ok b -> carries b us ->
  exists b', merge_into ps b = Ok b' /\ builder_ok b' /\ carries b' (us ++ mjoin uss).
Proof.
  induction 1 as [|p us' ps uss Hp _ IH]; intros b us Hb Hc; [exists b; by rewrite app_nil_r|].
  destruct (merge_one_carries _ _ _ _ Hb Hc Hp) as (b1 & H1 & Hb1 & Hc1). destruct (IH _ _ Hb1 Hc1) as (b2 & H2 & Hb2 & Hc2). exists b2. cbn [merge_into]. rewrite H1.
  cbn [mbind res_bind]. split_and!; [done|done|]. by rewrite join_cons, app_assoc.
Qed.

Lemma merge_carries ps uss : Forall2 payload_carries ps uss -> exists p, merge_sparse_payloads ps = Ok p /\ payload_carries p (mjoin uss).
Proof.
  intros H. destruct (merge_into_carries _ _ H _ _ builder_new carries_new) as (b & Hm & Hb & Hc). unfold merge_sparse_payloads. rewrite Hm. cbn [mbind res_bind].
  by apply finish_carries.
Qed.

(** C7 Sparse updates come back as they were.  Encode the chunks of a bucket one by
    one, merge the payloads, and read the merged payload on the other side: encoding
    and merging succeed, and the updates read are those of the chunks, in order, less
    the names the receiver skips, each with its shape, its operation, its locations
    and the bits of its values. *)
Theorem payload_round_trip chunks skipped : Forall (Forall sendable) chunks ->
  exists ps p items, Forall2 (fun infos p => encode_sparse_infos infos = Ok p) chunks ps /\ merge_sparse_payloads ps = Ok p
    /\ _iter_sparse_payload skipped p = Ok items
    /\ update_of <$> items = List.filter (fun u => negb (bool_decide (u_name u ∈ skipped))) (mjoin ((fun infos : list SparseInfo => update_of_info <$> infos) <$> chunks)).
Proof.
  intros Hs. assert (exists ps, Forall2 (fun infos p => encode_sparse_infos infos = Ok p) chunks ps
      /\ Forall2 payload_carries ps ((fun infos : list SparseInfo => update_of_info <$> infos) <$> chunks)) as (ps & H1 & H2).
  { induction Hs as [|infos chunks Hi _ (ps & H1 & H2)]; [by exists []|]. destruct (encode_carries infos Hi) as (p & Hp & Hc). exists (p :: ps). split; by constructor. }
  destruct (merge_carries _ _ H2) as (p & Hp & Hc). destruct (carried_is_read p _ skipped Hc) as (items & Hit & Hu). by exists ps, p, items.
Qed.

(** Two chunks: gaps and a range of the same size, then wide gaps of single bytes; one
    name is skipped. *)
Module Demo.
Definition info (name dtype : string) (size n : Z) (locs bits : list Z) (op : SparseOperation) : SparseInfo :=
  mkInfo name (mkTensor [n] dtype size (repeat 0 (Z.to_nat n))) locs (mkInts size bits) op.
Definition chunks : list (list SparseInfo) :=
  [[info "w" "bfloat16" 2 100 [3; 7; 90] [5; 0x3F80; 6] Xor; info "v" "bfloat16" 2 6 [2; 3; 4] [1; 2; 3] Xor];
   [info "s" "float8" 1 3 [0; 2] [9; 9] Overwrite; info "u" "bfloat16" 2 1 [0] [77] Overwrite]].
End Demo.

Lemma payload_round_trip_witness : exists ps p items, Forall2 (fun infos p => encode_sparse_infos infos = Ok p) Demo.chunks ps /\ merge_sparse_payloads ps = Ok p
  /\ _iter_sparse_payload ["s"] p = Ok items
  /\ update_of <$> items = update_of_info <$>
      [Demo.info "w" "bfloat16" 2 100 [3; 7; 90] [5; 0x3F80; 6] Xor; Demo.info "v" "bfloat16" 2 6 [2; 3; 4] [1; 2; 3] Xor; Demo.info "u" "bfloat16" 2 1 [0] [77] Overwrite].
Proof.
  apply (payload_round_trip Demo.chunks ["s"]). repeat constructor; cbn; lia || done.
Defined.
