(* ===== verification/SparseRefit.v ===== *)
(** * Refit by sparse updates
    ([DeltaCompressionTracker] of [utils/weight_transfer_sparse_codec.py], the
    pipeline of [utils/weight_transfer_stream.py], and the receiver of
    [models/generation/vllm/vllm_sparse_delta.py])

    The trainer keeps a baseline of what the engines hold, and sends the elements
    that differ from it ([SparseCodec]).  The baseline follows once the engines
    confirm.  Weights are cut into chunks that are encoded on their own, chunks are
    dealt out to the shards of the trainer, and payloads are gathered into buckets.
    The receiver scatters each update over a neutral tensor and has the engine's own
    loader copy it onto the parameter; what the loader does is the engine's. *)

From S2P Require Import Prelude.
From S2P Require Import PyVal.
From S2P Require Import DataPlaneMeta.
From S2P Require Import SparseCodec.
#[local] Open Scope string_scope.
#[local] Open Scope Z_scope.

(** ** Bits *)

(** [a.ne(b).nonzero()]. *)
Fixpoint differ_from (k : Z) (a b : list Z) : list Z :=
  match a, b with
  | x :: a, y :: b => if x =? y then differ_from (k + 1) a b else k :: differ_from (k + 1) a b
  | _, _ => []
  end.

(** [t[locations]]. *)
Definition at_locations (locs : list Z) (t : list Z) : list Z := omap (fun x => t !! Z.to_nat x) locs.

(** [index_copy_], and [copy_] into a range, which is the same. *)
Definition write_at (t : list Z) (kv : Z * Z) : list Z := <[Z.to_nat kv.1 := kv.2]> t.
Definition scatter (locs vals : list Z) (t : list Z) : res (list Z) :=
  _ ← raise_if (negb (length locs =? length vals)%nat || existsb (fun x => (x <? 0) || (Z.of_nat (length t) <=? x)) locs) RuntimeError;
  Ok (foldl write_at t (zip locs vals)).

(** ** The tracker *)

Abbreviation table := (list (string * Tensor)) (only parsing).

Record Tracker := mkTracker {
  encoding : SparseOperation;
  overwrite_names : list string;
  samples_per_payload : Z;
  baseline : list (string * Tensor);
  _pending_updates : list (string * (list Z * list Z));
  (** The updates handed to the workers that write the baseline. *)
  _baseline_commits : list (string * (list Z * list Z)) }.
Definition with_baseline (b : table) (c : list (string * (list Z * list Z))) (t : Tracker) : Tracker :=
  mkTracker (encoding t) (overwrite_names t) (samples_per_payload t) b (_pending_updates t) c.
Definition with_pending (p : list (string * (list Z * list Z))) (t : Tracker) : Tracker :=
  mkTracker (encoding t) (overwrite_names t) (samples_per_payload t) (baseline t) p (_baseline_commits t).
Definition with_bits (t : Tensor) (bits : list Z) : Tensor := mkTensor (t_shape t) (t_dtype t) (t_itemsize t) bits.

(** [_commit_baseline_updates], of one name. *)
Definition commit_one (b : table) (u : string * (list Z * list Z)) : res table :=
  match kv_get u.1 b with
  | None => Raise KeyError
  | Some t => v ← integer_view t; bits ← scatter u.2.1 u.2.2 (ints v); Ok (kv_set u.1 (with_bits t bits) b)
  end.
Fixpoint commit_all (b : table) (us : list (string * (list Z * list Z))) : res table :=
  match us with [] => Ok b | u :: us => b ← commit_one b u; commit_all b us end.

(** [_wait_for_baseline_commits]: the workers finish, in an order of theirs. *)
Definition _wait_for_baseline_commits (order : list (string * (list Z * list Z)) -> list (string * (list Z * list Z))) (t : Tracker) : res Tracker :=
  b ← commit_all (baseline t) (order (_baseline_commits t)); Ok (with_baseline b [] t).

Definition on_sync_succeeded (t : Tracker) : Tracker :=
  mkTracker (encoding t) (overwrite_names t) (samples_per_payload t) (baseline t) [] (_pending_updates t).
Definition on_sync_failed (t : Tracker) : Tracker := with_pending [] t.

(** One weight against its baseline: what to send of it, if anything. *)
Definition diff_one (t : Tracker) (name : string) (current : Tensor) : res (list Z * option (SparseInfo * (list Z * list Z))) :=
  match kv_get name (baseline t) with
  | None => Raise RuntimeError
  | Some base =>
      b ← integer_view base;
      c ← integer_view current;
      _ ← raise_if (negb (length (ints c) =? length (ints b))%nat) RuntimeError;
      let locs := differ_from 0 (ints c) (ints b) in
      match locs with
      | [] => Ok (locs, None)
      | _ =>
          let current_values := at_locations locs (ints c) in
          let operation := if bool_decide (name ∈ overwrite_names t) then Overwrite else encoding t in
          let vals := match operation with
                      | Xor => zip_with Z.lxor current_values (at_locations locs (ints b))
                      | Overwrite => current_values
                      end in
          Ok (locs, Some (mkInfo name current locs (mkInts (i_size c) vals) operation, (locs, current_values)))
      end
  end.
Fixpoint diff_all (t : Tracker) (tensors : table) : res (list SparseInfo * list (string * (list Z * list Z)) * (Z * Z)) :=
  match tensors with
  | [] => Ok ([], [], (0, 0))
  | (name, current) :: tensors =>
      '(locs, r) ← diff_one t name current;
      '(infos, pending, (changed, total)) ← diff_all t tensors;
      Ok (match r with Some (info, _) => info :: infos | None => infos end,
          match r with Some (_, u) => (name, u) :: pending | None => pending end,
          (Z.of_nat (length locs) + changed, Z.of_nat (numel current) + total))
  end.

(** [_add_verification_samples]: [count] ranks, evenly spaced over the elements of
    the payload, are counted per item. *)
Definition sample_ranks (count total : Z) : list Z := (fun i => (2 * Z.of_nat i + 1) * total / (2 * count)) <$> seq 0 (Z.to_nat count).
Definition with_samples (it : Item) (n : nat) : Item :=
  match n with
  | O => it
  | _ => mkItem (it_name it) (it_shape it) (it_dtype it) (it_operation it) (index_start it) (index_end it) (value_group it) (value_start it) (value_end it)
           (index_encoding it) (Some (Z.of_nat n))
  end.
Fixpoint below (stop : Z) (ranks : list Z) : nat := match ranks with r :: ranks => if r <? stop then S (below stop ranks) else 0 | [] => 0 end.
Fixpoint deal_samples (ranks : list Z) (offset : Z) (items : list Item) : list Item :=
  match items with
  | [] => []
  | it :: items =>
      let stop := offset + (Z.of_nat (value_end it) - Z.of_nat (value_start it)) in
      let n := below stop ranks in
      with_samples it n :: deal_samples (drop n ranks) stop items
  end.
Definition _add_verification_samples (samples : Z) (items : list Item) : list Item :=
  let total := foldr (fun it s => Z.of_nat (value_end it) - Z.of_nat (value_start it) + s) 0 items in
  deal_samples (sample_ranks (Z.min samples total) total) 0 items.

Definition prepare_sparse_delta_payload (order : list (string * (list Z * list Z)) -> list (string * (list Z * list Z))) (tensors : table) (t : Tracker)
  : res (Tracker * (Payload * Z * Z)) :=
  t ← _wait_for_baseline_commits order t;
  '(infos, pending, (changed, total)) ← diff_all t tensors;
  let t := with_pending (foldl (fun d kv => kv_set kv.1 kv.2 d) (_pending_updates t) pending) t in
  p ← encode_sparse_infos infos;
  let p := if samples_per_payload t =? 0 then p else mkPayload (indices p) (values p) (_add_verification_samples (samples_per_payload t) (metadata p)) in
  Ok (t, (p, changed, total)).

(** [snapshot_baseline]; a baseline keeps its first dtype and shape. *)
Definition snapshot_one (b : table) (kv : string * Tensor) : res table :=
  match kv_get kv.1 b with
  | None => Ok (kv_set kv.1 kv.2 b)
  | Some base =>
      _ ← raise_if (negb ((numel base =? numel kv.2)%nat && (t_itemsize base =? t_itemsize kv.2))) RuntimeError;
      Ok (kv_set kv.1 (with_bits base (t_bits kv.2)) b)
  end.
Fixpoint snapshot_all (b : table) (tensors : table) : res table :=
  match tensors with [] => Ok b | kv :: tensors => b ← snapshot_one b kv; snapshot_all b tensors end.
Definition snapshot_baseline (order : list (string * (list Z * list Z)) -> list (string * (list Z * list Z))) (tensors : table) (t : Tracker) : res Tracker :=
  t ← _wait_for_baseline_commits order t;
  b ← snapshot_all (baseline t) tensors; Ok (with_baseline b [] t).

(** ** Chunks and buckets *)

Section batches.
Context {A : Type} (bytes : A -> Z).

(** The loop over the items of one chunk: the chunk, the item that was too much for
    it, and what is left. *)
Fixpoint fill_chunk (target : Z) (chunk : list A) (size : Z) (items : list A) : list A * option A * list A :=
  match items with
  | [] => (chunk, None, [])
  | item :: items =>
      if negb (bool_decide (length chunk = 0%nat)) && (target <? size + bytes item) then (chunk, Some item, items)
      else
        let chunk := (chunk ++ [item])%list in
        let size := size + bytes item in
        if target <=? size then (chunk, None, items) else fill_chunk target chunk size items
  end.
Fixpoint chunks_from (fuel : nat) (target : Z) (pending : option A) (items : list A) : list (list A) :=
  match fuel with
  | O => []
  | S fuel =>
      let '(chunk, pending, items) :=
        match pending with Some p => fill_chunk target [p] (bytes p) items | None => fill_chunk target [] 0 items end in
      match chunk with [] => [] | _ => chunk :: chunks_from fuel target pending items end
  end.
Definition iter_sparse_weight_chunks (target : Z) (items : list A) : list (list A) := chunks_from (S (length items)) target None items.

(** The bucket, and those that were submitted. *)
Record Buckets := mkBuckets { payloads : list A; dense_bytes : Z; submitted : list (list A) }.
Definition submit_bucket (b : Buckets) : Buckets :=
  match payloads b with [] => b | ps => mkBuckets [] 0 (submitted b ++ [ps]) end.
Definition consume_encoded (limit : Z) (b : Buckets) (p : A) : Buckets :=
  let b := if negb (bool_decide (length (payloads b) = 0%nat)) && (limit <? dense_bytes b + bytes p) then submit_bucket b else b in
  let b := mkBuckets (payloads b ++ [p]) (dense_bytes b + bytes p) (submitted b) in
  if limit <=? dense_bytes b then submit_bucket b else b.
Definition gather_buckets (limit : Z) (ps : list A) : list (list A) := submitted (submit_bucket (foldl (consume_encoded limit) (mkBuckets [] 0 []) ps)).
End batches.

Definition tensor_bytes (kv : string * Tensor) : Z := Z.of_nat (numel kv.2) * t_itemsize kv.2.

(** [encode_chunk] of chunk after chunk: the payloads that are not empty, with the
    bytes of their chunks. *)
Fixpoint encode_chunks (order : list (string * (list Z * list Z)) -> list (string * (list Z * list Z))) (chunks : list (list (string * Tensor))) (t : Tracker)
  : res (Tracker * list (Payload * Z)) :=
  match chunks with
  | [] => Ok (t, [])
  | chunk :: chunks =>
      '(t, (p, _, _)) ← prepare_sparse_delta_payload order chunk t;
      '(t, ps) ← encode_chunks order chunks t;
      Ok (t, match metadata p with [] => ps | _ => (p, foldr (fun kv s => tensor_bytes kv + s) 0 chunk) :: ps end)
  end.
(** [serialize_payloads], up to the bytes. *)
Definition merge_bucket (bucket : list (Payload * Z)) : res Payload := merge_sparse_payloads bucket.*1.

(** The chunks of one shard of the trainer. *)
Definition shard_chunks {A} (rank count : nat) (chunks : list A) : res (list A) :=
  _ ← raise_if (negb (length chunks =? 0)%nat && (count =? 0)%nat) ZeroDivisionError;
  Ok ((List.filter (fun ic : nat * A => (ic.1 mod count =? rank)%nat) (enumerate chunks)).*2).

(** ** The receiver *)

Section receiver.
(** The NaN that fills a tensor of a floating dtype, and which bits are NaN. *)
Context (nan_fill : string -> option Z) (is_nan : string -> Z -> bool).
(** A dtype by its name, with its element size. *)
Context (torch_dtype : string -> option Z).

Definition dtype_from_name (name : string) : res Z :=
  match torch_dtype name with None => Raise ValueError | Some s => integer_dtype_for_element_size s end.

(** A weight as the loader gets it. *)
Record LoaderWeight := mkWeight { w_name : string; w_source : Tensor; w_operation : SparseOperation; w_sample_limit : Z; w_exact_sentinel : option Z }.

(** The neutral bits of an overwrite: a NaN, or for single bytes one of two
    patterns that the update does not use; the NaN's own bits are read off the
    filled tensor. *)
Definition overwrite_fill (n : nat) (size : Z) (nan : Z) (vals : list Z) : res (Z * option Z) :=
  if size =? 1 then
    _ ← raise_if (n =? 0)%nat IndexError;
    if bool_decide (nan ∈ vals) then
      let other := Z.lxor nan 0x80 in
      _ ← raise_if (bool_decide (other ∈ vals)) RuntimeError; Ok (other, Some other)
    else Ok (nan, Some nan)
  else Ok (nan, None).

Definition _prepare_loader_weight (it : Item) (locs : list Z) (vals : Ints) : res LoaderWeight :=
  size ← dtype_from_name (it_dtype it);
  let n := Z.to_nat (zprod (it_shape it)) in
  '(fill, sentinel) ← match it_operation it with
                      | Xor => Ok (0, None)
                      | Overwrite => match nan_fill (it_dtype it) with None => Raise RuntimeError | Some nan => overwrite_fill n size nan (ints vals) end
                      end;
  _ ← raise_if (negb (i_size vals =? size)) RuntimeError;
  bits ← scatter locs (ints vals) (repeat fill n);
  Ok (mkWeight (it_name it) (mkTensor (it_shape it) (it_dtype it) size bits) (it_operation it) (default 0 (verification_samples it)) sentinel).

(** The loader's [copy_] of a whole source onto a destination of its dtype, as the
    dispatch mode turns it. *)
Definition copy_bits (op : SparseOperation) (sentinel : option Z) (dtype : string) (d s : Z) : Z :=
  match op, sentinel with
  | Overwrite, Some e => if s =? e then d else s
  | Overwrite, None => if is_nan dtype s then d else s
  | Xor, _ => if s =? 0 then d else Z.lxor d s
  end.
Definition dispatch_copy (w : LoaderWeight) (destination : Tensor) : res Tensor :=
  let source := w_source w in
  _ ← raise_if (negb (String.eqb (t_dtype source) (t_dtype destination) && (numel source =? numel destination)%nat)) RuntimeError;
  _ ← raise_if (match w_operation w with Overwrite => bool_decide (nan_fill (t_dtype source) = None) | Xor => false end) RuntimeError;
  Ok (with_bits destination (zip_with (copy_bits (w_operation w) (w_exact_sentinel w) (t_dtype source)) (t_bits destination) (t_bits source))).

(** [load_weights], one weight at a time: the engine's loader copies the weight onto
    the parameter, or the part of one, that it names. *)
Context {Engine : Type} (load_weight : Engine -> string -> (Tensor -> res Tensor) -> res Engine).

Fixpoint _apply_decoded_items (engine : Engine) (items : list (Item * list Z * Ints)) : res Engine :=
  match items with
  | [] => Ok engine
  | (it, locs, vals) :: items =>
      w ← _prepare_loader_weight it locs vals;
      engine ← load_weight engine (w_name w) (dispatch_copy w);
      _apply_decoded_items engine items
  end.
Definition apply_payload (skipped : list string) (engine : Engine) (p : Payload) : res Engine :=
  items ← _iter_sparse_payload skipped p; _apply_decoded_items engine items.
Fixpoint apply_payloads (skipped : list string) (engine : Engine) (ps : list Payload) : res Engine :=
  match ps with [] => Ok engine | p :: ps => engine ← apply_payload skipped engine p; apply_payloads skipped engine ps end.
End receiver.
