(* ===== verification/SparseRefitProps.v ===== *)
(** * Sparse refit brings the engines up to date

    Chunks and buckets lose nothing and stay within their limits; after a sync, the
    engines hold the trainer's weights bit for bit, and so does the baseline
    ([SparseRefit]). *)

From S2P Require Import Prelude.
From S2P Require Import PyVal.
From S2P Require Import DataPlaneMeta.
From S2P Require Import SparseCodec.
From S2P Require Import SparseCodecProps.
From S2P Require Import SparseRefit.
#[local] Open Scope string_scope.
#[local] Open Scope Z_scope.

(** ** Bits that differ *)

Lemma differ_from_elem a : forall k b x, x ∈ differ_from k a b <-> exists (i : nat) y z, x = k + Z.of_nat i /\ a !! i = Some y /\ b !! i = Some z /\ y <> z.
Proof.
  induction a as [|y a IH]; intros k b x; cbn [differ_from]; [split; [set_solver|]; by intros (i & ? & ? & _ & H & _)|].
  destruct b as [|z b]; [split; [set_solver|]; by intros (i & ? & ? & _ & _ & H & _)|].
  assert (x ∈ differ_from (k + 1) a b <-> exists (i : nat) y' z', x = k + Z.of_nat (S i) /\ a !! i = Some y' /\ b !! i = Some z' /\ y' <> z') as IH'.
  { rewrite IH. split; intros (i & y' & z' & -> & H); exists i, y', z'; (split; [lia|done]). }
  destruct (Z.eqb_spec y z) as [->|Hne]; [|rewrite elem_of_cons]; rewrite IH'; clear IH IH'.
  - split; [intros (i & y' & z' & H1 & H2); by exists (S i), y', z'|]. intros ([|i] & y' & z' & H1 & H2 & H3 & H4); [cbn in *; congruence|]. by exists i, y', z'.
  - split.
    + intros [->|(i & y' & z' & H1 & H2)]; [exists 0%nat, y, z; split_and!; [lia|done..]|by exists (S i), y', z'].
    + intros ([|i] & y' & z' & H1 & H2 & H3 & H4); [left; lia|right; by exists i, y', z'].
Qed.

Lemma differ_from_increasing a : forall k b p, p < k -> increasing p (differ_from k a b).
Proof.
  induction a as [|y a IH]; intros k b p Hp; [done|]. destruct b as [|z b]; [done|]. cbn [differ_from]. destruct (y =? z); [apply IH; lia|].
  cbn [increasing]. split; [done|]. apply IH. lia.
Qed.

Lemma differ_from_bound a b : Forall (fun x => 0 <= x < Z.of_nat (length a)) (differ_from 0 a b).
Proof. apply Forall_forall. intros x (i & y & z & -> & Hi & _)%differ_from_elem. apply lookup_lt_Some in Hi. lia. Qed.

Lemma differ_from_nil a b : length a = length b -> differ_from 0 a b = [] -> a = b.
Proof.
  intros Hl Hd. apply list_eq. intros i. destruct (a !! i) as [y|] eqn:Ea.
  - destruct (lookup_lt_is_Some_2 b i) as [z Hz]; [rewrite <- Hl; by eapply lookup_lt_Some|]. rewrite Hz. destruct (decide (y = z)) as [->|Hne]; [done|].
    assert (Z.of_nat i ∈ differ_from 0 a b) as H by (apply differ_from_elem; by exists i, y, z). rewrite Hd in H. by apply elem_of_nil in H.
  - apply lookup_ge_None in Ea. symmetry. apply lookup_ge_None. lia.
Qed.

(** ** Scattering *)

Lemma at_locations_total locs v : Forall (fun x => 0 <= x < Z.of_nat (length v)) locs ->
  Forall2 (fun x y => v !! Z.to_nat x = Some y) locs (at_locations locs v).
Proof.
  induction 1 as [|x locs Hx _ IH]; [constructor|]. unfold at_locations. cbn [omap list_omap]. destruct (lookup_lt_is_Some_2 v (Z.to_nat x)) as [y Hy]; [lia|].
  rewrite Hy. by constructor.
Qed.

Lemma scatter_spec locs v base : length base = length v -> Forall (fun x => 0 <= x < Z.of_nat (length v)) locs ->
  exists r, scatter locs (at_locations locs v) base = Ok r /\ length r = length base
    /\ forall i, r !! i = if decide (Z.of_nat i ∈ locs) then v !! i else base !! i.
Proof.
  intros Hl Hf. pose proof (at_locations_total _ _ Hf) as Hat. unfold scatter. rewrite (Forall2_length _ _ _ Hat), Nat.eqb_refl. cbn [negb orb].
  assert (existsb (fun x => (x <? 0) || (Z.of_nat (length base) <=? x)) locs = false) as ->.
  { apply not_true_iff_false. intros (x & Hx%list_elem_of_In & Hb)%existsb_exists. rewrite Forall_forall in Hf. specialize (Hf x Hx).
    apply orb_true_iff in Hb as [Hb%Z.ltb_lt|Hb%Z.leb_le]; lia. }
  cbn [raise_if mbind res_bind]. eexists. split; [done|]. revert base Hl. generalize (at_locations locs v) Hat. intros vals Hv. induction Hv as [|x y locs vals Hxy Hv IH]; intros base Hl.
  - split; [done|]. intros i. by rewrite decide_False by set_solver.
  - apply Forall_cons in Hf as [Hx Hf]. pose proof (at_locations_total _ _ Hf) as Hat'. cbn [zip zip_with foldl]. unfold write_at at 2 4. cbn [fst snd].
    destruct (IH Hf Hat' (<[Z.to_nat x := y]> base)) as [H1 H2]; [by rewrite length_insert|]. cbn [zip] in *. split; [by rewrite H1, length_insert|]. intros i. rewrite H2.
    destruct (decide (Z.of_nat i ∈ locs)) as [Hi|Hi]; [by rewrite decide_True by (by right)|]. destruct (decide (Z.of_nat i = x)) as [<-|Hne].
    + rewrite decide_True by left. rewrite Nat2Z.id in *. rewrite list_lookup_insert_eq by lia. done.
    + rewrite decide_False by (intros [?|?]%elem_of_cons; done). apply list_lookup_insert_ne. lia.
Qed.

Lemma at_locations_zip (f : Z -> Z -> Z) locs a b : length a = length b -> zip_with f (at_locations locs a) (at_locations locs b) = at_locations locs (zip_with f a b).
Proof.
  intros Hl. unfold at_locations. induction locs as [|x locs IH]; [done|]. cbn [omap list_omap]. rewrite lookup_zip_with.
  destruct (a !! Z.to_nat x) as [y|] eqn:Ea.
  - destruct (lookup_lt_is_Some_2 b (Z.to_nat x)) as [z Hz]; [rewrite <- Hl; by eapply lookup_lt_Some|]. rewrite Hz. cbn. by rewrite IH.
  - apply lookup_ge_None in Ea. rewrite (lookup_ge_None_2 b) by lia. cbn. exact IH.
Qed.

Lemma at_locations_length locs v : Forall (fun x => 0 <= x < Z.of_nat (length v)) locs -> length (at_locations locs v) = length locs.
Proof. intros Hf. symmetry. eapply Forall2_length. by apply at_locations_total. Qed.

Lemma unchanged_lookup cur base i : length cur = length base -> Z.of_nat i ∉ differ_from 0 cur base -> cur !! i = base !! i.
Proof.
  intros Hl Hi. destruct (cur !! i) as [y|] eqn:Ec.
  - destruct (lookup_lt_is_Some_2 base i) as [z Hz]; [rewrite <- Hl; by eapply lookup_lt_Some|]. rewrite Hz. destruct (decide (y = z)) as [->|Hne]; [done|].
    destruct Hi. apply differ_from_elem. by exists i, y, z.
  - apply lookup_ge_None in Ec. symmetry. apply lookup_ge_None. lia.
Qed.

(** Writing the changed elements makes the old bits the new ones. *)
Lemma scatter_changed cur base : length cur = length base -> let locs := differ_from 0 cur base in scatter locs (at_locations locs cur) base = Ok cur.
Proof.
  intros Hl locs. destruct (scatter_spec locs cur base) as (r & Hr & Hlen & Hlk); [done|apply differ_from_bound|]. rewrite Hr. f_equal. apply list_eq. intros i. rewrite Hlk.
  destruct (decide _) as [_|Hi]; [done|]. symmetry. by apply unchanged_lookup.
Qed.

Lemma lookup_repeat {A} (x : A) n : forall i, (i < n)%nat -> repeat x n !! i = Some x.
Proof. induction n as [|n IH]; intros [|i] Hi; [lia|lia|done|]. apply IH. lia. Qed.

(** Copying what was scattered over a neutral fill changes the old bits to the new
    ones, if the copy takes the values for what they mean and leaves the fill be. *)
Lemma copy_scattered cur base v fill source (copy : Z -> Z -> Z) : length cur = length base -> length v = length base ->
  (forall i d x y, base !! i = Some d -> v !! i = Some x -> cur !! i = Some y -> d <> y -> copy d x = y) -> (forall d, copy d fill = d) ->
  let locs := differ_from 0 cur base in scatter locs (at_locations locs v) (repeat fill (length base)) = Ok source ->
  length source = length base /\ zip_with copy base source = cur.
Proof.
  intros Hl Hv Hcopy Hfill locs Hs. destruct (scatter_spec locs v (repeat fill (length base))) as (r & Hr & Hlen & Hlk).
  { by rewrite repeat_length, Hv. }
  { rewrite Hv, <- Hl. apply differ_from_bound. }
  rewrite Hs in Hr. injection Hr as <-. rewrite repeat_length in Hlen. split; [done|]. apply list_eq. intros i. rewrite lookup_zip_with, Hlk.
  destruct (base !! i) as [d|] eqn:Eb; cbn [mbind option_bind].
  - pose proof (lookup_lt_Some _ _ _ Eb) as Hi. destruct (decide (Z.of_nat i ∈ locs)) as [Hin|Hin].
    + destruct (lookup_lt_is_Some_2 v i) as [x Hx]; [lia|]. rewrite Hx. cbn. apply differ_from_elem in Hin as (j & y & z & Hj & Hy & Hz & Hne).
      assert (j = i) as -> by lia. rewrite Eb in Hz. injection Hz as <-. rewrite Hy. f_equal. by eapply Hcopy.
    + rewrite (unchanged_lookup cur base i Hl Hin), Eb. rewrite lookup_repeat by done.
      cbn. by rewrite Hfill.
  - apply lookup_ge_None in Eb. symmetry. apply lookup_ge_None. lia.
Qed.

(** ** Chunks and buckets *)

Section batches.
Context {A : Type} (bytes : A -> Z).

Definition total_bytes (l : list A) : Z := foldr (fun x s => bytes x + s) 0 l.
Lemma total_bytes_app l l' : total_bytes (l ++ l') = total_bytes l + total_bytes l'.
Proof. unfold total_bytes. induction l as [|x l IH]; cbn; [done|]. rewrite IH. lia. Qed.

(** A batch within the limit, or of one element that is not. *)
Definition bounded (limit : Z) (l : list A) : Prop := l <> [] /\ (total_bytes l <= limit \/ length l = 1%nat).

Lemma fill_chunk_spec target items : forall chunk chunk' pending rest, chunk = [] \/ bounded target chunk ->
  fill_chunk bytes target chunk (total_bytes chunk) items = (chunk', pending, rest) ->
  (chunk ++ items)%list = (chunk' ++ option_list pending ++ rest)%list /\ (chunk' = [] \/ bounded target chunk') /\ (chunk' = [] -> chunk = [] /\ items = [])
  /\ (length (option_list pending) + length rest <= length items)%nat /\ (chunk = [] -> items <> [] -> (length (option_list pending) + length rest < length items)%nat).
Proof.
  induction items as [|x items IH]; intros chunk chunk' pending rest Hc; cbn [fill_chunk].
  { intros [= <- <- <-]. cbn [option_list app]. split; [|split_and!; try done; cbn; lia]. rewrite !app_nil_r. done. }
  destruct (negb _ && _) eqn:E.
  - intros [= <- <- <-]. apply andb_true_iff in E as [E1%negb_true_iff%bool_decide_eq_false _]. split_and!; [done|done|intros ->; by destruct E1|cbn; lia|intros ->; by destruct E1].
  - replace (total_bytes chunk + bytes x) with (total_bytes (chunk ++ [x])) by (rewrite total_bytes_app; cbn; lia).
    assert (bounded target (chunk ++ [x])) as Hb.
    { split; [by destruct chunk|]. apply andb_false_iff in E as [E%negb_false_iff%bool_decide_eq_true|E%Z.ltb_ge]; [right|left].
      - apply length_zero_iff_nil in E as ->. done.
      - rewrite total_bytes_app. cbn. lia. }
    destruct (target <=? total_bytes (chunk ++ [x])).
    + intros [= <- <- <-]. cbn. split_and!; [by rewrite <- app_assoc|by right|by destruct chunk|lia|lia].
    + intros H. apply IH in H as (H1 & H2 & H3 & H4 & H5); [|by right]. rewrite <- app_assoc in H1. split_and!; [done|done| |cbn; lia|cbn; lia].
      intros ->. destruct (H3 eq_refl) as [H _]. by destruct chunk.
Qed.

Lemma chunks_from_spec target fuel : forall pending items, (length (option_list pending) + length items < fuel)%nat ->
  mjoin (chunks_from bytes fuel target pending items) = (option_list pending ++ items)%list /\ Forall (bounded target) (chunks_from bytes fuel target pending items).
Proof.
  induction fuel as [|fuel IH]; intros pending items Hf; [lia|]. cbn [chunks_from].
  destruct (match pending with Some p => fill_chunk bytes target [p] (bytes p) items | None => fill_chunk bytes target [] 0 items end) as [[chunk pending'] rest] eqn:E.
  assert ((option_list pending ++ items)%list = (chunk ++ option_list pending' ++ rest)%list /\ (chunk = [] \/ bounded target chunk)
    /\ (chunk = [] -> pending = None /\ items = []) /\ (chunk <> [] -> (length (option_list pending') + length rest < fuel)%nat)) as (H1 & H2 & H3 & H4).
  { destruct pending as [p|].
    - replace (bytes p) with (total_bytes [p]) in E by (cbn; lia). apply fill_chunk_spec in E as (H1 & H2 & H3 & H4 & _); [|right; split; [done|by right]].
      split_and!; [done|done|intros ->; by destruct (H3 eq_refl)|]. cbn in Hf. lia.
    - change 0 with (total_bytes []) in E. apply fill_chunk_spec in E as (H1 & H2 & H3 & H4 & H5); [|by left]. split_and!; [done|done|intros ->; by destruct (H3 eq_refl)|].
      intros Hne. cbn in Hf. destruct items; [|specialize (H5 eq_refl ltac:(done)); cbn in *; lia]. cbn in H1. symmetry in H1. apply app_eq_nil in H1 as [? _]. done. }
  destruct chunk as [|x chunk]; [destruct (H3 eq_refl) as [-> ->]; by split|]. destruct (IH pending' rest) as [H5 H6]; [by apply H4|].
  rewrite join_cons, H5, H1. split; [done|]. constructor; [by destruct H2|done].
Qed.

Definition buckets_ok (limit : Z) (b : Buckets (A := A)) : Prop :=
  dense_bytes b = total_bytes (payloads b) /\ (payloads b = [] \/ bounded limit (payloads b)) /\ Forall (bounded limit) (submitted b).

Lemma submit_bucket_ok limit b : buckets_ok limit b -> buckets_ok limit (submit_bucket b) /\ payloads (submit_bucket b) = []
  /\ mjoin (submitted (submit_bucket b)) = (mjoin (submitted b) ++ payloads b)%list.
Proof.
  intros (H1 & H2 & H3). unfold submit_bucket. destruct (payloads b) as [|p ps] eqn:E; [rewrite app_nil_r; split_and!; [|done|done]; split_and!; [by rewrite E|by left|done]|].
  unfold buckets_ok. cbn [payloads dense_bytes submitted]. rewrite join_app, join_cons, app_nil_r. split_and!; try done; [by left|]. apply Forall_app. split; [done|]. constructor; [by destruct H2|done].
Qed.

Lemma consume_encoded_ok limit b p : buckets_ok limit b -> buckets_ok limit (consume_encoded bytes limit b p)
  /\ (mjoin (submitted (consume_encoded bytes limit b p)) ++ payloads (consume_encoded bytes limit b p))%list = (mjoin (submitted b) ++ payloads b ++ [p])%list.
Proof.
  intros Hb. unfold consume_encoded. destruct (negb _ && _) eqn:E.
  - destruct (submit_bucket_ok limit b Hb) as ((H1 & _ & H3) & H4 & H5). set (b1 := mkBuckets _ _ _).
    assert (buckets_ok limit b1 /\ (mjoin (submitted b1) ++ payloads b1)%list = (mjoin (submitted b) ++ payloads b ++ [p])%list) as [Hb1 Hj].
    { unfold b1, buckets_ok. cbn [payloads dense_bytes submitted]. rewrite H1, H4, H5. cbn. split_and!; try done; [lia|right; split; [done|by right]|by rewrite <- app_assoc]. }
    destruct (limit <=? dense_bytes b1); [|done]. destruct (submit_bucket_ok limit b1 Hb1) as (H6 & H7 & H8). split; [done|]. by rewrite H7, app_nil_r, H8.
  - destruct Hb as (H1 & H2 & H3). set (b1 := mkBuckets _ _ _).
    assert (buckets_ok limit b1 /\ (mjoin (submitted b1) ++ payloads b1)%list = (mjoin (submitted b) ++ payloads b ++ [p])%list) as [Hb1 Hj].
    { unfold b1, buckets_ok. cbn [payloads dense_bytes submitted]. split_and!; try done; [rewrite H1, total_bytes_app; cbn; lia|right; split; [by destruct (payloads b)|]].
      apply andb_false_iff in E as [E%negb_false_iff%bool_decide_eq_true|E%Z.ltb_ge]; [right; apply length_zero_iff_nil in E; by rewrite E|left].
      rewrite total_bytes_app, <- H1. cbn. lia. }
    destruct (limit <=? dense_bytes b1); [|done]. destruct (submit_bucket_ok limit b1 Hb1) as (H6 & H7 & H8). split; [done|]. by rewrite H7, app_nil_r, H8.
Qed.

Lemma gather_buckets_spec limit ps : mjoin (gather_buckets bytes limit ps) = ps /\ Forall (bounded limit) (gather_buckets bytes limit ps).
Proof.
  unfold gather_buckets.
  assert (forall b, buckets_ok limit b -> let b' := foldl (consume_encoded bytes limit) b ps in
    buckets_ok limit b' /\ (mjoin (submitted b') ++ payloads b')%list = (mjoin (submitted b) ++ payloads b ++ ps)%list) as H.
  { induction ps as [|p ps IH]; intros b Hb; cbn [foldl]; [by rewrite app_nil_r|]. destruct (consume_encoded_ok limit b p Hb) as [H1 H2]. destruct (IH _ H1) as [H3 H4].
    split; [done|]. rewrite H4, app_assoc, H2, <- !app_assoc. done. }
  destruct (H (mkBuckets [] 0 [])) as [H1 H2]; [split_and!; [done|by left|done]|]. destruct (submit_bucket_ok limit _ H1) as ((_ & _ & H3) & _ & H4). by rewrite H4, H2.
Qed.
End batches.

Lemma snd_enumerate_from {A} (l : list A) : forall k, (enumerate_from k l).*2 = l.
Proof. induction l as [|x l IH]; intros k; [done|]. cbn [enumerate_from]. by rewrite fmap_cons, IH. Qed.

(** The chunks of the shards are the chunks. *)
Lemma shards_partition {A} count (l : list A) : count <> 0%nat -> exists shards, traverse (fun rank => shard_chunks rank count l) (seq 0 count) = Ok shards /\ mjoin shards ≡ₚ l.
Proof.
  intros Hn. exists ((fun rank => (List.filter (fun ic : nat * A => (ic.1 mod count =? rank)%nat) (enumerate l)).*2) <$> seq 0 count). split.
  - apply traverse_Ok. apply Forall2_fmap_r. apply Forall_Forall2_diag, Forall_forall. intros rank _. unfold shard_chunks.
    destruct (Nat.eqb_spec count 0); [done|]. by rewrite andb_false_r.
  - transitivity ((enumerate l).*2); [|by unfold enumerate; rewrite snd_enumerate_from]. generalize (enumerate l). intros es. induction es as [|[i x] es IH].
    + assert (forall s : list nat, mjoin ((fun _ : nat => @nil A) <$> s) = []) as H by (by induction s). cbn. by rewrite H.
    + rewrite fmap_cons, <- IH. cbn [snd].
      assert (forall s : list nat, NoDup s -> mjoin ((fun rank => (List.filter (fun ic : nat * A => (ic.1 mod count =? rank)%nat) ((i, x) :: es)).*2) <$> s)
        ≡ₚ (if decide ((i mod count)%nat ∈ s) then [x] else []) ++ mjoin ((fun rank => (List.filter (fun ic : nat * A => (ic.1 mod count =? rank)%nat) es).*2) <$> s)) as H.
      { induction 1 as [|r s Hr _ IHs]; [done|]. rewrite !fmap_cons, !join_cons, IHs. cbn [List.filter fst]. destruct (Nat.eqb_spec (i mod count) r) as [<-|Hne].
        - rewrite decide_False, decide_True by (done || by left). done.
        - destruct (decide (i mod count ∈ s)%nat) as [Hi|Hi]; [rewrite decide_True by (by right)|rewrite decide_False by (by intros [?|?]%elem_of_cons)]; [|done].
          rewrite Permutation_app_swap_app. done. }
      rewrite H by apply NoDup_seq. rewrite decide_True; [done|]. apply elem_of_seq. pose proof (Nat.mod_upper_bound i count Hn). lia.
Qed.

(** C14 Chunks and buckets lose nothing.  The weights are cut into chunks, and the
    payloads of chunks gathered into buckets, in order and each in exactly one; a chunk
    or a bucket is never empty, and it is within the limit unless it holds a single
    weight, or a single payload.  Every chunk belongs to exactly one shard of the
    trainer. *)
Theorem batches_lose_nothing (target limit : Z) (tensors : list (string * Tensor)) (ps : list (Payload * Z)) count :
  mjoin (iter_sparse_weight_chunks tensor_bytes target tensors) = tensors
  /\ Forall (bounded tensor_bytes target) (iter_sparse_weight_chunks tensor_bytes target tensors)
  /\ mjoin (gather_buckets snd limit ps) = ps /\ Forall (bounded snd limit) (gather_buckets snd limit ps)
  /\ (count <> 0%nat -> exists shards, traverse (fun rank => shard_chunks rank count (iter_sparse_weight_chunks tensor_bytes target tensors)) (seq 0 count) = Ok shards
      /\ mjoin shards ≡ₚ iter_sparse_weight_chunks tensor_bytes target tensors).
Proof.
  destruct (chunks_from_spec tensor_bytes target (S (length tensors)) None tensors) as [H1 H2]; [cbn; lia|].
  destruct (gather_buckets_spec snd limit ps) as [H3 H4]. split_and!; [exact H1|exact H2|exact H3|exact H4|]. intros Hn. by apply shards_partition.
Qed.

(** ** The tracker *)

(** The dtypes and the weights that can be sent. *)
Section props.
Context (nan_fill : string -> option Z) (is_nan : string -> Z -> bool) (torch_dtype : string -> option Z).

Record tensor_ok (t : Tensor) : Prop := {
  to_size : t_itemsize t ∈ [1; 2; 4; 8];
  to_dtype : torch_dtype (t_dtype t) = Some (t_itemsize t);
  to_shape : zprod (t_shape t) = Z.of_nat (numel t);
  to_numel : zprod (t_shape t) <= 2 ^ 63 }.

(** One tensor is another with other bits. *)
Record like (a b : Tensor) : Prop := {
  lk_shape : t_shape a = t_shape b;
  lk_dtype : t_dtype a = t_dtype b;
  lk_size : t_itemsize a = t_itemsize b;
  lk_numel : numel a = numel b }.

Lemma integer_view_ok t : tensor_ok t -> integer_view t = Ok (mkInts (t_itemsize t) (t_bits t)).
Proof. intros [Hs _ _ _]. unfold integer_view, integer_dtype_for_element_size. by rewrite bool_decide_eq_true_2. Qed.

Lemma like_ok a b : like a b -> tensor_ok a -> tensor_ok b.
Proof. intros [H1 H2 H3 H4] [H5 H6 H7 H8]. constructor; [by rewrite <- H3|by rewrite <- H2, <- H3|by rewrite <- H1, <- H4|by rewrite <- H1]. Qed.

(** A weight that can be overwritten: floating, and for single bytes with a pattern
    to spare, otherwise without a NaN of its own. *)
Definition overwritable (cur : Tensor) : Prop :=
  exists nan, nan_fill (t_dtype cur) = Some nan
    /\ if decide (t_itemsize cur = 1) then nan ∉ t_bits cur \/ Z.lxor nan 0x80 ∉ t_bits cur
       else is_nan (t_dtype cur) nan = true /\ Forall (fun x => is_nan (t_dtype cur) x = false) (t_bits cur).

Definition operation_for (t : Tracker) (name : string) : SparseOperation := if bool_decide (name ∈ overwrite_names t) then Overwrite else encoding t.

(** A weight against its baseline. *)
Record fits (t : Tracker) (kv : string * Tensor) : Prop := {
  ft_ok : tensor_ok kv.2;
  ft_base : exists base, kv_get kv.1 (baseline t) = Some base /\ like kv.2 base;
  ft_operation : operation_for t kv.1 = Overwrite -> overwritable kv.2 }.

(** A weight as its loader gets it, given an update. *)
Definition loader_weight (u : Update) : res LoaderWeight :=
  _prepare_loader_weight nan_fill torch_dtype
    (mkItem (u_name u) (u_shape u) (u_dtype u) (u_operation u) 0 0 0 0 0 Deltas (u_samples u)) (u_locations u) (u_values u).

(** An update that takes a weight from some bits to others. *)
Record delivers (u : Update) (name : string) (base cur : Tensor) : Prop := {
  dl_name : u_name u = name;
  dl_apply : exists w, loader_weight u = Ok w /\ w_name w = name
    /\ forall p, like base p -> t_bits p = t_bits base -> dispatch_copy nan_fill is_nan w p = Ok (with_bits p (t_bits cur)) }.

(** The values that stand for the changed elements. *)
Definition update_values (op : SparseOperation) (base cur : list Z) : list Z := match op with Xor => zip_with Z.lxor cur base | Overwrite => cur end.
Definition changed_update (op : SparseOperation) (name : string) (base cur : Tensor) : SparseInfo :=
  let locs := differ_from 0 (t_bits cur) (t_bits base) in
  mkInfo name cur locs (mkInts (t_itemsize cur) (at_locations locs (update_values op (t_bits base) (t_bits cur)))) op.

Lemma update_values_length op base cur : length cur = length base -> length (update_values op base cur) = length base.
Proof. intros Hl. destruct op; cbn; [rewrite length_zip_with; lia|done]. Qed.

Lemma diff_one_spec t name cur : fits t (name, cur) -> exists base locs r, kv_get name (baseline t) = Some base /\ like cur base /\ tensor_ok base
  /\ diff_one t name cur = Ok (locs, r) /\ locs = differ_from 0 (t_bits cur) (t_bits base)
  /\ match r with
     | None => locs = []
     | Some (info, u) => locs <> [] /\ info = changed_update (operation_for t name) name base cur /\ u = (locs, at_locations locs (t_bits cur))
     end.
Proof.
  intros [Hok (base & Hb & Hlk) _]. cbn [fst snd] in *. pose proof (like_ok _ _ Hlk Hok) as Hokb. pose proof (lk_numel _ _ Hlk) as Hn. unfold numel in Hn.
  unfold diff_one. rewrite Hb, (integer_view_ok _ Hokb), (integer_view_ok _ Hok). cbn [mbind res_bind ints i_size]. rewrite Hn, Nat.eqb_refl. cbn [negb raise_if mbind res_bind].
  set (locs := differ_from 0 (t_bits cur) (t_bits base)). exists base. destruct locs as [|x locs'] eqn:El; [by exists [], None|]. rewrite <- El.
  eexists locs, (Some _). split_and!; try done. fold (operation_for t name). unfold changed_update. fold locs.
  split_and!; [by rewrite El| |done]. destruct (operation_for t name); cbn [update_values]; [by rewrite at_locations_zip|done].
Qed.

Lemma changed_sendable op name base cur : tensor_ok cur -> like cur base -> differ_from 0 (t_bits cur) (t_bits base) <> [] -> sendable (changed_update op name base cur).
Proof.
  intros [_ _ Hsh Hn] Hlk Hne. pose proof (differ_from_bound (t_bits cur) (t_bits base)) as Hb. pose proof (lk_numel _ _ Hlk) as Hl. unfold numel in *. constructor; cbn.
  - done.
  - apply differ_from_increasing. lia.
  - eapply Forall_impl; [exact Hb|]. cbn. lia.
  - done.
  - apply at_locations_length. rewrite update_values_length by done. by rewrite <- Hl.
Qed.

Lemma at_locations_sub locs v x : x ∈ at_locations locs v -> x ∈ v.
Proof. intros (y & _ & Hy)%list_elem_of_omap. by eapply list_elem_of_lookup_2. Qed.

(** The neutral fill of an overwrite, and that copying over it keeps it out. *)
Lemma overwrite_copy cur locs nan : numel cur <> 0%nat -> nan_fill (t_dtype cur) = Some nan -> overwritable cur -> exists fill sentinel,
  overwrite_fill (numel cur) (t_itemsize cur) nan (at_locations locs (t_bits cur)) = Ok (fill, sentinel)
  /\ (forall d, copy_bits is_nan Overwrite sentinel (t_dtype cur) d fill = d)
  /\ forall d x, x ∈ at_locations locs (t_bits cur) -> copy_bits is_nan Overwrite sentinel (t_dtype cur) d x = x.
Proof.
  intros Hne Hnan (nan' & Hnan' & Hov). rewrite Hnan in Hnan'. injection Hnan' as <-. unfold overwrite_fill. apply Nat.eqb_neq in Hne. rewrite Hne. cbn [raise_if mbind res_bind]. destruct (Z.eqb_spec (t_itemsize cur) 1) as [H1|H1].
  - rewrite decide_True in Hov by done. assert (forall fill, fill ∉ at_locations locs (t_bits cur) -> (forall d, copy_bits is_nan Overwrite (Some fill) (t_dtype cur) d fill = d)
      /\ forall d x, x ∈ at_locations locs (t_bits cur) -> copy_bits is_nan Overwrite (Some fill) (t_dtype cur) d x = x) as Hc.
    { intros fill Hf. split; [intros d; cbn; by rewrite Z.eqb_refl|]. intros d x Hx. cbn. destruct (Z.eqb_spec x fill) as [->|]; done. }
    case_bool_decide as Hin; [|destruct (Hc nan Hin); by exists nan, (Some nan)]. destruct Hov as [Hov|Hov]; [by apply at_locations_sub in Hin|].
    assert (Z.lxor nan 0x80 ∉ at_locations locs (t_bits cur)) as Hn by (by intros ?%at_locations_sub). rewrite bool_decide_eq_false_2 by done.
    destruct (Hc _ Hn). by exists (Z.lxor nan 0x80), (Some (Z.lxor nan 0x80)).
  - rewrite decide_False in Hov by done. destruct Hov as [Hn Hf]. exists nan, None. split_and!; [done|intros d; cbn; by rewrite Hn|].
    intros d x Hx%at_locations_sub. rewrite Forall_forall in Hf. cbn. by rewrite Hf.
Qed.

Lemma changed_delivers op name base cur samples : tensor_ok cur -> like cur base -> differ_from 0 (t_bits cur) (t_bits base) <> [] -> (op = Overwrite -> overwritable cur) ->
  let info := changed_update op name base cur in
  delivers (mkUpdate name (t_shape cur) (t_dtype cur) op samples (si_locations info) (si_values info)) name base cur.
Proof.
  intros Hok Hlk Hdiff Hov info. assert (numel cur <> 0%nat) as Hnum by (intros H%length_zero_iff_nil; by rewrite H in Hdiff). constructor; [done|]. pose proof (lk_numel _ _ Hlk) as Hl. unfold numel in Hl. unfold loader_weight, _prepare_loader_weight, dtype_from_name.
  cbn [u_name u_shape u_dtype u_operation u_samples u_locations u_values it_name it_shape it_dtype it_operation verification_samples]. rewrite (to_dtype _ Hok).
  unfold integer_dtype_for_element_size. rewrite (bool_decide_eq_true_2 _ (to_size _ Hok)). cbn [mbind res_bind]. rewrite (to_shape _ Hok), Nat2Z.id.
  set (v := update_values op (t_bits base) (t_bits cur)). set (locs := differ_from 0 (t_bits cur) (t_bits base)).
  assert (length v = length (t_bits base)) as Hv by (by apply update_values_length).
  assert (exists fill sentinel, match op with
      | Xor => Ok (0, None)
      | Overwrite => match nan_fill (t_dtype cur) with None => Raise RuntimeError | Some nan => overwrite_fill (numel cur) (t_itemsize cur) nan (at_locations locs v) end
      end = Ok (fill, sentinel) /\ (op = Overwrite -> nan_fill (t_dtype cur) <> None) /\ (forall d, copy_bits is_nan op sentinel (t_dtype cur) d fill = d)
      /\ forall i d x y, t_bits base !! i = Some d -> v !! i = Some x -> t_bits cur !! i = Some y -> d <> y -> copy_bits is_nan op sentinel (t_dtype cur) d x = y)
    as (fill & sentinel & Hfill & Hnn & Hc1 & Hc2).
  { unfold v. destruct op; cbn [update_values].
    - exists 0, None. split_and!; [done|done|done|]. intros i d x y Hd Hx Hy Hne. rewrite lookup_zip_with, Hy, Hd in Hx. injection Hx as <-. cbn.
      destruct (Z.eqb_spec (Z.lxor y d) 0) as [H%Z.lxor_eq|_]; [congruence|]. by rewrite (Z.lxor_comm y d), <- Z.lxor_assoc, Z.lxor_nilpotent, Z.lxor_0_l.
    - destruct (Hov eq_refl) as (nan & Hnan & Hn2). rewrite Hnan. destruct (overwrite_copy cur locs nan Hnum Hnan (Hov eq_refl)) as (fill & sentinel & H1 & H2 & H3).
      exists fill, sentinel. split_and!; [done|done|done|]. intros i d x y Hd Hx Hy Hne. rewrite Hx in Hy. injection Hy as <-. apply H3.
      apply list_elem_of_omap. exists (Z.of_nat i). rewrite Nat2Z.id. split; [|done]. apply differ_from_elem. exists i, x, d. split_and!; [lia|done|done|congruence]. }
  change (si_values info) with (mkInts (t_itemsize cur) (at_locations locs v)). change (si_locations info) with locs. cbn [i_size ints].
  rewrite Hfill. cbn [mbind res_bind]. unfold numel. rewrite Hl, Z.eqb_refl. cbn [negb raise_if mbind res_bind].
  destruct (scatter_spec locs v (repeat fill (length (t_bits base)))) as (source & Hs & _); [by rewrite repeat_length, Hv|rewrite Hv, <- Hl; apply differ_from_bound|].
  rewrite Hs. cbn [mbind res_bind]. eexists. split_and!; [done|done|]. intros p Hlp Hp.
  destruct (copy_scattered (t_bits cur) (t_bits base) v fill source (copy_bits is_nan op sentinel (t_dtype cur)) Hl Hv Hc2 Hc1 Hs) as [Hlen Hzip].
  unfold dispatch_copy. cbn [w_source w_operation w_exact_sentinel t_dtype t_bits]. rewrite <- (lk_dtype _ _ Hlp), <- (lk_dtype _ _ Hlk), String.eqb_refl. unfold numel.
  cbn [t_bits]. rewrite Hlen, Hp, Nat.eqb_refl, Hzip. cbn [andb negb raise_if mbind res_bind].
  assert (match op with Overwrite => bool_decide (nan_fill (t_dtype cur) = None) | Xor => false end = false) as ->; [|done].
  destruct op; [done|]. apply bool_decide_eq_false_2. by apply Hnn.
Qed.
End props.
