(* ===== verification/SparseSync.v ===== *)
(** * A sync brings the engines up to date

    The whole way of an update: a trainer's weights against its baseline, the
    payloads and their buckets in whatever order they are ready, the receiver in
    whatever order they arrive, and the baseline that follows or does not
    ([SparseRefit]). *)

From S2P Require Import Prelude.
From S2P Require Import PyVal.
From S2P Require Import DataPlaneMeta.
From S2P Require Import SparseCodec.
From S2P Require Import SparseCodecProps.
From S2P Require Import SparseRefit.
From S2P Require Import SparseRefitProps.
#[local] Open Scope string_scope.
#[local] Open Scope Z_scope.

(** ** Updating tensors by name *)

Section steps.
Context {S X : Type} (view : S -> string -> option Tensor) (nm : X -> string) (step : S -> X -> res S).
(** An update that can be made of a tensor, and the bits it leads to. *)
Context (ready : X -> Tensor -> Prop) (goal : string -> list Z).

Fixpoint steps (s : S) (xs : list X) : res S := match xs with [] => Ok s | x :: xs => s ← step s x; steps s xs end.

Lemma steps_app s xs ys : steps s (xs ++ ys)%list = (s ← steps s xs; steps s ys).
Proof. revert s. induction xs as [|x xs IH]; intros s; [done|]. cbn [steps app]. destruct (step s x); [apply IH|done]. Qed.

Definition reached (names : list string) (s s' : S) : Prop :=
  forall n, view s' n = if decide (n ∈ names) then (fun p => with_bits p (goal n)) <$> view s n else view s n.

(** Updates of different tensors all happen, in any order. *)
Lemma steps_reach :
  (forall s x p, view s (nm x) = Some p -> ready x p ->
    exists s', step s x = Ok s' /\ view s' (nm x) = Some (with_bits p (goal (nm x))) /\ forall n, n <> nm x -> view s' n = view s n) ->
  forall xs s, NoDup (nm <$> xs) -> Forall (fun x => exists p, view s (nm x) = Some p /\ ready x p) xs ->
  exists s', steps s xs = Ok s' /\ reached (nm <$> xs) s s'.
Proof.
  intros Hstep. induction xs as [|x xs IH]; intros s Hn Hr; [exists s; split; [done|]; intros n; by rewrite decide_False by set_solver|].
  rewrite fmap_cons in Hn. apply NoDup_cons in Hn as [Hx Hn]. apply Forall_cons in Hr as [(p & Hp & Hr) Hrs]. destruct (Hstep s x p Hp Hr) as (s1 & H1 & H2 & H3).
  destruct (IH s1 Hn) as (s2 & H4 & H5).
  { apply Forall_forall. intros y Hy. rewrite Forall_forall in Hrs. destruct (Hrs y Hy) as (q & Hq & Hrq). exists q. split; [|done]. rewrite H3; [done|].
    intros He. destruct Hx. rewrite <- He. by apply list_elem_of_fmap_2. }
  exists s2. cbn [steps]. rewrite H1. split; [exact H4|]. intros n. rewrite H5, fmap_cons. destruct (decide (n = nm x)) as [->|Hne].
  - rewrite decide_False, decide_True by (done || by left). by rewrite H2, Hp.
  - rewrite H3 by done. destruct (decide (n ∈ nm <$> xs)); [rewrite decide_True by (by right)|rewrite decide_False by (by intros [?|?]%elem_of_cons)]; done.
Qed.
End steps.

(** ** What a tracker sends *)

(** What has changed of a weight. *)
Definition change_of (t : Tracker) (kv : string * Tensor) : option (SparseInfo * (list Z * list Z)) :=
  base ← kv_get kv.1 (baseline t);
  let locs := differ_from 0 (t_bits kv.2) (t_bits base) in
  match locs with [] => None | _ => Some (changed_update (operation_for t kv.1) kv.1 base kv.2, (locs, at_locations locs (t_bits kv.2))) end.
Definition info_of (t : Tracker) (kv : string * Tensor) : option SparseInfo := fst <$> change_of t kv.
Definition pending_of (t : Tracker) (kv : string * Tensor) : option (string * (list Z * list Z)) := pair kv.1 <$> (snd <$> change_of t kv).

(** An update but for its samples. *)
Definition unsampled (u : Update) : Update := mkUpdate (u_name u) (u_shape u) (u_dtype u) (u_operation u) None (u_locations u) (u_values u).

Lemma with_samples_reads L h it u n : reads L h it u -> exists u', reads L h (with_samples it n) u' /\ unsampled u' = unsampled u.
Proof.
  intros [H1 H2 H3 H4]. destruct n as [|n]; [by exists u|]. exists (update_of (with_samples it (S n), u_locations u, u_values u)). split; [by constructor|].
  transitivity (unsampled (update_of (it, u_locations u, u_values u))); [done|by rewrite H1].
Qed.

Lemma deal_samples_reads L h items us : Forall2 (reads L h) items us -> forall ranks offset, exists us',
  Forall2 (reads L h) (deal_samples ranks offset items) us' /\ unsampled <$> us' = unsampled <$> us.
Proof.
  induction 1 as [|it u its us Hr _ IH]; intros ranks offset; [by exists []|]. cbn [deal_samples]. set (stop := offset + _).
  destruct (with_samples_reads _ _ _ _ (below stop ranks) Hr) as (u' & Hu & He). destruct (IH (drop (below stop ranks) ranks) stop) as (us' & H1 & H2).
  exists (u' :: us'). split; [by constructor|]. by rewrite !fmap_cons, He, H2.
Qed.
Lemma samples_carried samples p us : payload_carries p us -> exists us',
  payload_carries (mkPayload (indices p) (values p) (_add_verification_samples samples (metadata p))) us' /\ unsampled <$> us' = unsampled <$> us.
Proof. intros H. exact (deal_samples_reads _ _ _ _ H _ _). Qed.

Lemma differ_like t kv base : kv_get kv.1 (baseline t) = Some base ->
  change_of t kv = match differ_from 0 (t_bits kv.2) (t_bits base) with
                   | [] => None
                   | locs => Some (changed_update (operation_for t kv.1) kv.1 base kv.2, (locs, at_locations locs (t_bits kv.2)))
                   end.
Proof. intros H. unfold change_of. rewrite H. cbn [mbind option_bind]. by destruct (differ_from _ _ _). Qed.

Lemma kv_set_fresh {A} k (v : A) d : k ∉ d.*1 -> kv_set k v d = (d ++ [(k, v)])%list.
Proof.
  induction d as [|[k' v'] d IH]; [done|]. cbn [kv_set]. rewrite fmap_cons. intros [Hk Hd]%not_elem_of_cons. rewrite decide_False by (by apply not_eq_sym). by rewrite IH.
Qed.
Lemma kv_update_fresh {A} (new : list (string * A)) : forall d, NoDup (d ++ new)%list.*1 -> foldl (fun d kv => kv_set kv.1 kv.2 d) d new = (d ++ new)%list.
Proof.
  induction new as [|[k v] new IH]; intros d Hn; cbn [foldl]; [by rewrite app_nil_r|]. rewrite kv_set_fresh.
  - rewrite IH; rewrite <- app_assoc; done.
  - rewrite fmap_app in Hn. apply NoDup_app in Hn as (_ & Hd & _). intros Hk. apply (Hd _ Hk). by left.
Qed.

Lemma pending_of_names t tensors : (omap (pending_of t) tensors).*1 `sublist_of` tensors.*1.
Proof.
  induction tensors as [|kv tensors IH]; [done|]. rewrite fmap_cons. cbn [omap list_omap]. unfold pending_of at 1. destruct (change_of t kv) as [[info u]|]; cbn; by constructor.
Qed.

Section sync.
Context (nan_fill : string -> option Z) (is_nan : string -> Z -> bool) (torch_dtype : string -> option Z).
#[local] Abbreviation fits := (fits nan_fill is_nan torch_dtype).

Lemma diff_all_spec t tensors : Forall (fits t) tensors -> exists n, diff_all t tensors = Ok (omap (info_of t) tensors, omap (pending_of t) tensors, n).
Proof.
  induction 1 as [|[name cur] tensors Hf _ (n & IH)]; [by eexists|]. destruct (diff_one_spec _ _ _ _ _ _ Hf) as (base & locs & r & Hb & Hlk & _ & Hd & -> & Hr).
  assert (change_of t (name, cur) = r) as Hc.
  { rewrite (differ_like t (name, cur) base Hb). cbn [fst snd]. destruct r as [[info u]|]; [|by rewrite Hr]. destruct Hr as (Hne & -> & ->). by destruct (differ_from _ _ _). }
  cbn [diff_all]. rewrite Hd. cbn [mbind res_bind]. rewrite IH. cbn [mbind res_bind]. destruct n as [changed total]. eexists. cbn [omap list_omap].
  assert (info_of t (name, cur) = fst <$> r) as -> by (unfold info_of; by rewrite Hc). assert (pending_of t (name, cur) = pair name <$> (snd <$> r)) as -> by (unfold pending_of; by rewrite Hc).
  by destruct r as [[info u]|].
Qed.

Lemma infos_sendable t tensors : Forall (fits t) tensors -> Forall sendable (omap (info_of t) tensors).
Proof.
  induction 1 as [|kv tensors [Hok (base & Hb & Hlk) _] _ IH]; [constructor|]. cbn [omap list_omap]. unfold info_of at 1. rewrite (differ_like t _ base Hb).
  destruct (differ_from 0 (t_bits kv.2) (t_bits base)) as [|x locs] eqn:E; [done|]. cbn. constructor; [|done]. eapply changed_sendable; [done|done|]. by rewrite E.
Qed.

(** ** Encoding the chunks *)

Section encode.
Context (order : list (string * (list Z * list Z)) -> list (string * (list Z * list Z))) (Horder : forall l, order l ≡ₚ l).

Lemma wait_settled t : _baseline_commits t = [] -> _wait_for_baseline_commits order t = Ok t.
Proof.
  intros H. unfold _wait_for_baseline_commits. pose proof (Horder (_baseline_commits t)) as Hp. rewrite H in *. symmetry in Hp. apply Permutation_nil in Hp. rewrite Hp.
  destruct t. cbn in *. by subst.
Qed.

Lemma prepared_payload t tensors : _baseline_commits t = [] -> Forall (fits t) tensors -> NoDup ((_pending_updates t).*1 ++ tensors.*1)%list ->
  exists p n m us, prepare_sparse_delta_payload order tensors t = Ok (with_pending (_pending_updates t ++ omap (pending_of t) tensors) t, (p, n, m))
    /\ payload_carries p us /\ unsampled <$> us = update_of_info <$> omap (info_of t) tensors.
Proof.
  intros Hc Hf Hn. unfold prepare_sparse_delta_payload. rewrite (wait_settled t Hc). cbn [mbind res_bind]. destruct (diff_all_spec t tensors Hf) as ([changed total] & ->).
  cbn [mbind res_bind]. rewrite kv_update_fresh.
  2: { rewrite fmap_app. eapply sublist_NoDup; [exact Hn|]. by apply sublist_app, pending_of_names. }
  destruct (encode_carries _ (infos_sendable t tensors Hf)) as (p & Hp & Hcar). rewrite Hp. cbn [mbind res_bind].
  assert (unsampled <$> (update_of_info <$> omap (info_of t) tensors) = update_of_info <$> omap (info_of t) tensors) as Hu.
  { rewrite <- list_fmap_compose. by apply list_fmap_ext. }
  destruct (samples_per_payload _ =? 0); [by eexists _, _, _, _|]. destruct (samples_carried (samples_per_payload t) p _ Hcar) as (us' & H1 & H2).
  eexists _, _, _, us'. split; [done|]. split; [exact H1|]. by rewrite H2, Hu.
Qed.

Lemma fits_pending t p kv : fits t kv -> fits (with_pending p t) kv.
Proof. by intros [H1 H2 H3]. Qed.

Lemma encode_chunks_spec chunks : forall t, _baseline_commits t = [] -> Forall (fits t) (mjoin chunks) -> NoDup ((_pending_updates t).*1 ++ (mjoin chunks).*1)%list ->
  exists ps uss, encode_chunks order chunks t = Ok (with_pending (_pending_updates t ++ omap (pending_of t) (mjoin chunks)) t, ps)
    /\ Forall2 payload_carries ps.*1 uss /\ unsampled <$> mjoin uss = update_of_info <$> omap (info_of t) (mjoin chunks).
Proof.
  induction chunks as [|chunk chunks IH]; intros t Hc; [intros _ _; exists [], []; split_and!; [|done|done]; destruct t; cbn; by rewrite app_nil_r|].
  rewrite join_cons, fmap_app, Forall_app. intros [Hf Hfs] Hn. destruct (prepared_payload t chunk Hc Hf) as (p & n & m & us & Hp & Hcar & Hu); [rewrite app_assoc in Hn; by apply NoDup_app in Hn as [? _]|].
  set (t1 := with_pending _ _) in Hp. destruct (IH t1) as (ps & uss & H1 & H2 & H3).
  { exact Hc. }
  { eapply Forall_impl; [exact Hfs|]. intros kv. apply fits_pending. }
  { unfold t1. cbn [with_pending _pending_updates]. rewrite fmap_app, <- app_assoc. eapply sublist_NoDup; [exact Hn|]. apply sublist_app; [done|]. by apply sublist_app; [apply pending_of_names|]. }
  cbn [encode_chunks]. rewrite Hp. cbn [mbind res_bind]. rewrite H1. cbn [mbind res_bind].
  assert (with_pending (_pending_updates t1 ++ omap (pending_of t1) (mjoin chunks)) t1 = with_pending (_pending_updates t ++ omap (pending_of t) (chunk ++ mjoin chunks)%list) t) as ->.
  { rewrite omap_app, app_assoc. reflexivity. }
  rewrite (omap_app (info_of t)), fmap_app, <- Hu. change (info_of t1) with (info_of t) in H3. rewrite <- H3, <- fmap_app. destruct (metadata p) as [|it its] eqn:E.
  - eexists ps, uss. split_and!; [done|done|]. unfold payload_carries in Hcar. rewrite E in Hcar. inversion Hcar. done.
  - eexists _, (us :: uss). split_and!; [done|by constructor|]. by rewrite join_cons.
Qed.
End encode.

(** ** Buckets *)

Lemma merge_buckets buckets : forall uss, Forall2 payload_carries (mjoin buckets : list (Payload * Z)).*1 uss ->
  exists merged muss, traverse merge_bucket buckets = Ok merged /\ Forall2 payload_carries merged muss /\ mjoin muss = mjoin uss.
Proof.
  induction buckets as [|b buckets IH]; intros uss H; [inversion H; by exists [], []|]. rewrite join_cons, fmap_app in H. apply Forall2_app_inv_l in H as (uss1 & uss2 & H1 & H2 & ->).
  destruct (merge_carries _ _ H1) as (p & Hp & Hc). destruct (IH _ H2) as (merged & muss & H3 & H4 & H5). exists (p :: merged), (mjoin uss1 :: muss).
  cbn [traverse]. change (merge_bucket b) with (merge_sparse_payloads b.*1). rewrite Hp, H3. split_and!; [done|by constructor|]. by rewrite join_cons, H5, join_app.
Qed.

(** ** The receiver *)

Section receive.
Context {Engine : Type} (view : Engine -> string -> option Tensor) (load_weight : Engine -> string -> (Tensor -> res Tensor) -> res Engine).

(** What the engine's loader does with a weight: it copies it onto the parameter of
    its name, and onto nothing else. *)
Definition loads : Prop := forall engine name copy p p', view engine name = Some p -> copy p = Ok p' ->
  exists engine', load_weight engine name copy = Ok engine' /\ view engine' name = Some p' /\ forall n, n <> name -> view engine' n = view engine n.

Definition apply_item (engine : Engine) (r : Item * list Z * Ints) : res Engine :=
  let '(it, locs, vals) := r in
  w ← _prepare_loader_weight nan_fill torch_dtype it locs vals; load_weight engine (w_name w) (dispatch_copy nan_fill is_nan w).
Definition item_name (r : Item * list Z * Ints) : string := it_name r.1.1.

Lemma apply_items_steps items : forall engine, _apply_decoded_items nan_fill is_nan torch_dtype load_weight engine items = steps apply_item engine items.
Proof.
  induction items as [|[[it locs] vals] items IH]; intros engine; [done|]. cbn [_apply_decoded_items steps apply_item].
  destruct (_prepare_loader_weight _ _ _ _ _) as [w|e]; [|done]. cbn [mbind res_bind]. destruct (load_weight _ _ _) as [engine'|e]; [apply IH|done].
Qed.

Lemma apply_payloads_steps skipped ps uss : Forall2 payload_carries ps uss -> exists items,
  update_of <$> items = List.filter (fun u => negb (bool_decide (u_name u ∈ skipped))) (mjoin uss)
  /\ forall engine, apply_payloads nan_fill is_nan torch_dtype load_weight skipped engine ps = steps apply_item engine items.
Proof.
  induction 1 as [|p us ps uss Hp _ (items & Hu & Ha)]; [by exists []|]. destruct (carried_is_read p us skipped Hp) as (its & Hi & Hus). exists (its ++ items)%list. split.
  - by rewrite join_cons, List.filter_app, fmap_app, Hus, Hu.
  - intros engine. cbn [apply_payloads]. unfold apply_payload. rewrite Hi. cbn [mbind res_bind]. rewrite apply_items_steps, steps_app.
    destruct (steps apply_item engine its) as [engine'|e]; [apply Ha|done].
Qed.

(** An update that takes a parameter to some bits. *)
Definition takes_to (goal : string -> list Z) (r : Item * list Z * Ints) (p : Tensor) : Prop :=
  exists w, loader_weight nan_fill torch_dtype (update_of r) = Ok w /\ w_name w = item_name r /\ dispatch_copy nan_fill is_nan w p = Ok (with_bits p (goal (item_name r))).

Lemma apply_item_step goal : loads -> forall engine r p, view engine (item_name r) = Some p -> takes_to goal r p ->
  exists engine', apply_item engine r = Ok engine' /\ view engine' (item_name r) = Some (with_bits p (goal (item_name r))) /\ forall n, n <> item_name r -> view engine' n = view engine n.
Proof.
  intros Hl engine [[it locs] vals] p Hv (w & Hw & Hn & Hd). unfold apply_item. change (_prepare_loader_weight nan_fill torch_dtype it locs vals = Ok w) in Hw.
  rewrite Hw. cbn [mbind res_bind]. rewrite Hn. by apply (Hl _ _ _ p).
Qed.
End receive.

(** ** The baseline *)

Definition commits_to (goal : string -> list Z) (u : string * (list Z * list Z)) (base : Tensor) : Prop :=
  (exists v, integer_view base = Ok v /\ ints v = t_bits base) /\ scatter u.2.1 u.2.2 (t_bits base) = Ok (goal u.1).

Lemma commit_all_steps us : forall b, commit_all b us = steps commit_one b us.
Proof. induction us as [|u us IH]; intros b; [done|]. cbn [commit_all steps]. destruct (commit_one b u); [apply IH|done]. Qed.

Lemma commit_one_step goal (b : list (string * Tensor)) u base : kv_get u.1 b = Some base -> commits_to goal u base ->
  exists b', commit_one b u = Ok b' /\ kv_get u.1 b' = Some (with_bits base (goal u.1)) /\ forall n, n <> u.1 -> kv_get n b' = kv_get n b.
Proof.
  intros Hb [(v & Hv & Hi) Hs]. unfold commit_one. rewrite Hb, Hv. cbn [mbind res_bind]. rewrite Hi, Hs. cbn [mbind res_bind]. eexists. split; [done|].
  split; [by rewrite kv_get_set, decide_True|]. intros n Hn. rewrite kv_get_set, decide_False; [done|]. by apply not_eq_sym.
Qed.

(** ** The sync *)

(** What is looked up has the bits of a weight. *)
Definition holds (cur : Tensor) (found : option Tensor) : Prop := exists p, found = Some p /\ like cur p /\ t_bits p = t_bits cur.

Lemma holds_new base cur p : like cur base -> like base p -> holds cur (Some (with_bits p (t_bits cur))).
Proof. intros [H1 H2 H3 H4] [H5 H6 H7 H8]. eexists. split; [done|]. split; [|done]. constructor; cbn; [by rewrite H1|by rewrite H2|by rewrite H3|done]. Qed.

Lemma change_of_Some t kv info u : change_of t kv = Some (info, u) -> exists base, kv_get kv.1 (baseline t) = Some base
  /\ info = changed_update (operation_for t kv.1) kv.1 base kv.2 /\ differ_from 0 (t_bits kv.2) (t_bits base) <> [] /\ u = (differ_from 0 (t_bits kv.2) (t_bits base), at_locations (differ_from 0 (t_bits kv.2) (t_bits base)) (t_bits kv.2)).
Proof.
  unfold change_of. destruct (kv_get kv.1 (baseline t)) as [base|]; [|done]. cbn [mbind option_bind]. intros H. exists base. split; [done|].
  destruct (differ_from _ _ _) eqn:E; [done|]. rewrite <- E in *. injection H as <- <-. split_and!; [done|by rewrite E|done].
Qed.

Lemma sent_names t tensors : u_name <$> (update_of_info <$> omap (info_of t) tensors) = (omap (pending_of t) tensors).*1.
Proof.
  induction tensors as [|kv tensors IH]; [done|]. cbn [omap list_omap]. unfold info_of at 1, pending_of at 1. destruct (change_of t kv) as [[info u]|] eqn:E; [|exact IH].
  apply change_of_Some in E as (base & _ & -> & _). cbn [fmap option_fmap option_map fst snd]. rewrite !fmap_cons, IH. done.
Qed.

(** Bits that were not sent were the same. *)
Lemma unsent_same t tensors kv base : Forall (fits t) tensors -> kv ∈ tensors -> kv.1 ∉ (omap (pending_of t) tensors).*1 -> kv_get kv.1 (baseline t) = Some base -> t_bits kv.2 = t_bits base.
Proof.
  intros Hf Hkv Hn Hb. rewrite Forall_forall in Hf. destruct (Hf kv Hkv) as [_ (base' & Hb' & Hlk) _]. rewrite Hb in Hb'. injection Hb' as <-.
  apply differ_from_nil; [exact (lk_numel _ _ Hlk)|]. destruct (differ_from 0 (t_bits kv.2) (t_bits base)) as [|x locs] eqn:E; [done|]. destruct Hn.
  apply list_elem_of_fmap. eexists (_, _). split; [|apply list_elem_of_omap; exists kv; split; [done|]; unfold pending_of; rewrite (differ_like t kv base Hb), E; reflexivity]. done.
Qed.

(** What the tensors of a sync are to become. *)
Definition current (tensors : list (string * Tensor)) (n : string) : list Z := default [] (t_bits <$> kv_get n tensors).
Lemma current_of tensors kv : NoDup tensors.*1 -> kv ∈ tensors -> current tensors kv.1 = t_bits kv.2.
Proof. intros Hn Hkv. unfold current. assert (kv_get kv.1 tensors = Some kv.2) as -> by (apply kv_get_elem; by destruct kv). done. Qed.

Lemma sent_takes_to t tensors r info kv : NoDup tensors.*1 -> kv ∈ tensors -> fits t kv -> info_of t kv = Some info -> unsampled (update_of r) = update_of_info info ->
  item_name r = kv.1 /\ forall base p, kv_get kv.1 (baseline t) = Some base -> like base p -> t_bits p = t_bits base -> takes_to (current tensors) r p.
Proof.
  intros Hn Hkv [Hok (base & Hb & Hlk) Hov] Hi Hu. unfold info_of in Hi. destruct (change_of t kv) as [[info' u]|] eqn:E; [|done]. injection Hi as ->.
  apply change_of_Some in E as (base' & Hb' & -> & Hd & _). rewrite Hb in Hb'. injection Hb' as <-.
  assert (update_of r = mkUpdate kv.1 (t_shape kv.2) (t_dtype kv.2) (operation_for t kv.1) (u_samples (update_of r))
    (si_locations (changed_update (operation_for t kv.1) kv.1 base kv.2)) (si_values (changed_update (operation_for t kv.1) kv.1 base kv.2))) as Hr.
  { destruct (update_of r) as [n sh dt op sa lo va]. unfold unsampled, update_of_info in Hu. cbn in *. by injection Hu as -> -> -> -> -> ->. }
  assert (item_name r = kv.1) as Hname by (transitivity (u_name (update_of r)); [by destruct r as [[]]|by rewrite Hr]). split; [done|].
  intros base' p Hb' Hlp Hp. rewrite Hb in Hb'. injection Hb' as <-. destruct (changed_delivers nan_fill is_nan torch_dtype (operation_for t kv.1) kv.1 base kv.2 (u_samples (update_of r)) Hok Hlk Hd Hov) as [_ (w & Hw & Hwn & Hc)].
  exists w. rewrite Hr, Hname, (current_of tensors kv Hn Hkv). split_and!; [exact Hw|done|by apply Hc].
Qed.

Lemma updates_origin t (tensors : list (string * Tensor)) (us : list Update) u : unsampled <$> us = update_of_info <$> omap (info_of t) tensors -> u ∈ us ->
  exists kv info, kv ∈ tensors /\ info_of t kv = Some info /\ unsampled u = update_of_info info.
Proof.
  intros Hu Hin. assert (unsampled u ∈ update_of_info <$> omap (info_of t) tensors) as H by (rewrite <- Hu; by apply list_elem_of_fmap_2).
  apply list_elem_of_fmap in H as (info & H1 & (kv & H2 & H3)%list_elem_of_omap). by exists kv, info.
Qed.

Lemma names_unsampled (us : list Update) : u_name <$> (unsampled <$> us) = u_name <$> us.
Proof. rewrite <- list_fmap_compose. by apply list_fmap_ext. Qed.

Lemma item_names (items : list (Item * list Z * Ints)) : item_name <$> items = u_name <$> (update_of <$> items).
Proof. rewrite <- list_fmap_compose. apply list_fmap_ext. by intros _ [[]] _. Qed.

Lemma sent_NoDup t tensors : NoDup tensors.*1 -> NoDup (omap (pending_of t) tensors).*1.
Proof. intros Hn. eapply sublist_NoDup; [exact Hn|]. apply pending_of_names. Qed.

(** The receiver's part. *)
Lemma engine_takes_updates {Engine} (view : Engine -> string -> option Tensor) load_weight skipped t tensors (us : list Update) arrived uss engine : loads view load_weight ->
  NoDup tensors.*1 -> Forall (fits t) tensors -> unsampled <$> us = update_of_info <$> omap (info_of t) tensors -> Forall2 payload_carries arrived uss -> mjoin uss ≡ₚ us ->
  (forall name cur base, (name, cur) ∈ tensors -> name ∉ skipped -> kv_get name (baseline t) = Some base -> holds base (view engine name)) ->
  exists names engine', apply_payloads nan_fill is_nan torch_dtype load_weight skipped engine arrived = Ok engine'
    /\ (forall n, n ∈ names <-> n ∈ (omap (pending_of t) tensors).*1 /\ n ∉ skipped) /\ reached view (current tensors) names engine engine'.
Proof.
  intros Hl Hn Hf Hu Ha Hp He. destruct (apply_payloads_steps load_weight skipped arrived uss Ha) as (items & Hi & Hs). exists (item_name <$> items).
  assert (forall n, n ∈ item_name <$> items <-> n ∈ (omap (pending_of t) tensors).*1 /\ n ∉ skipped) as Hnames.
  { intros n. rewrite <- sent_names, <- Hu, names_unsampled, item_names, Hi, <- Hp. rewrite !list_elem_of_fmap. split.
    - intros (u & -> & [H1 H2]%list_filter_elem_of). apply negb_true_iff, bool_decide_eq_false in H2. split; [by exists u|done].
    - intros [(u & -> & H1) H2]. exists u. split; [done|]. apply list_filter_elem_of. split; [done|]. by apply negb_true_iff, bool_decide_eq_false. }
  destruct (steps_reach view item_name (apply_item load_weight) (takes_to (current tensors)) (current tensors) (apply_item_step view load_weight (current tensors) Hl) items engine) as (engine' & H1 & H2).
  - rewrite item_names, Hi. eapply sublist_NoDup; [|apply fmap_sublist, filter_sublist]. rewrite Hp, <- names_unsampled, Hu, sent_names. by apply sent_NoDup.
  - apply Forall_forall. intros r Hr. assert (update_of r ∈ mjoin uss /\ item_name r ∉ skipped) as [Hin Hsk].
    { assert (update_of r ∈ update_of <$> items) as H by (by apply list_elem_of_fmap_2). rewrite Hi in H. apply list_filter_elem_of in H as [H H'%negb_true_iff%bool_decide_eq_false].
      split; [done|]. by destruct r as [[]]. }
    rewrite Hp in Hin. destruct (updates_origin _ _ _ _ Hu Hin) as (kv & info & Hkv & Hinfo & Hui). pose proof Hf as Hf'. rewrite Forall_forall in Hf'. specialize (Hf' kv Hkv).
    destruct (sent_takes_to _ _ _ _ _ Hn Hkv Hf' Hinfo Hui) as [Hname Ht]. destruct Hf' as [_ (base & Hb & Hlk) _].
    destruct (He kv.1 kv.2 base) as (p & Hv & Hlp & Hbits); [by destruct kv|by rewrite <- Hname|done|]. exists p. rewrite Hname. split; [done|]. by apply (Ht base).
  - exists engine'. by rewrite Hs.
Qed.

(** The baseline's part. *)
Lemma baseline_takes_updates t tensors us : NoDup tensors.*1 -> Forall (fits t) tensors -> us ≡ₚ omap (pending_of t) tensors ->
  exists b, commit_all (baseline t) us = Ok b /\ reached (fun b n => kv_get n b) (current tensors) (omap (pending_of t) tensors).*1 (baseline t) b.
Proof.
  intros Hn Hf Hp. destruct (steps_reach (fun (b : list (string * Tensor)) n => kv_get n b) fst commit_one (commits_to (current tensors)) (current tensors)
    (commit_one_step (current tensors)) us (baseline t)) as (b & H1 & H2).
  - rewrite Hp. by apply sent_NoDup.
  - apply Forall_forall. intros u Hu. rewrite Hp in Hu. apply list_elem_of_omap in Hu as (kv & Hkv & Hu). unfold pending_of in Hu.
    destruct (change_of t kv) as [[info w]|] eqn:E; [|done]. injection Hu as <-. apply change_of_Some in E as (base & Hb & _ & _ & ->). exists base. split; [done|].
    rewrite Forall_forall in Hf. destruct (Hf kv Hkv) as [Hok (base' & Hb' & Hlk) _]. rewrite Hb in Hb'. injection Hb' as <-. split.
    + eexists. by rewrite (integer_view_ok torch_dtype base (like_ok torch_dtype _ _ Hlk Hok)).
    + cbn [fst snd]. rewrite (current_of tensors kv Hn Hkv). apply scatter_changed. exact (lk_numel _ _ Hlk).
  - exists b. rewrite commit_all_steps. split; [done|]. intros n. rewrite H2. apply decide_ext. by rewrite Hp.
Qed.

(** Outstanding commits are waited for by the first chunk. *)
Lemma encode_waits order t t0 chunks : (forall l, order l ≡ₚ l) -> _wait_for_baseline_commits order t = Ok t0 -> chunks <> [] ->
  encode_chunks order chunks t = encode_chunks order chunks t0 /\ _baseline_commits t0 = [].
Proof.
  intros Ho Hw Hne. assert (_baseline_commits t0 = []) as Hc by (unfold _wait_for_baseline_commits in Hw; apply bind_Ok in Hw as (b & _ & [= <-]); done).
  split; [|done]. destruct chunks as [|chunk chunks]; [done|]. cbn [encode_chunks].
  assert (prepare_sparse_delta_payload order chunk t = prepare_sparse_delta_payload order chunk t0) as ->; [|done].
  unfold prepare_sparse_delta_payload. by rewrite Hw, (wait_settled order Ho t0 Hc).
Qed.

Lemma Forall2_permuted {A B} (R : A -> B -> Prop) xs xs' ys : Forall2 R xs ys -> xs' ≡ₚ xs -> exists ys', Forall2 R xs' ys' /\ ys' ≡ₚ ys.
Proof.
  intros H Hp. symmetry in Hp. revert ys H. induction Hp as [|x l l' _ IH|x y l|l l' l'' _ IH1 _ IH2]; intros ys H.
  - by exists ys.
  - inversion H as [|? y ? ys1 Hx Hl]; subst. destruct (IH _ Hl) as (ys' & H1 & H2). exists (y :: ys'). split; [by constructor|by rewrite H2].
  - inversion H as [|? a ? ys1 Hy Hl]; subst. inversion Hl as [|? b ? ys2 Hx Hl']; subst. exists (b :: a :: ys2). split; [by repeat constructor|by constructor].
  - destruct (IH1 _ H) as (ys1 & H1 & H2). destruct (IH2 _ H1) as (ys2 & H3 & H4). exists ys2. split; [done|by etrans].
Qed.

(** A tensor that was reached, or had nothing to reach, holds the bits of its weight. *)
Lemma reached_holds {S} (view : S -> string -> option Tensor) t tensors names s s' kv base : NoDup tensors.*1 -> Forall (fits t) tensors -> kv ∈ tensors ->
  reached view (current tensors) names s s' -> (kv.1 ∈ (omap (pending_of t) tensors).*1 -> kv.1 ∈ names) -> kv_get kv.1 (baseline t) = Some base ->
  holds base (view s kv.1) -> holds kv.2 (view s' kv.1).
Proof.
  intros Hn Hf Hkv Hr Hs Hb (p & Hp & Hlp & Hbits). pose proof Hf as Hf'. rewrite Forall_forall in Hf'. destruct (Hf' kv Hkv) as [_ (base' & Hb' & Hlk) _].
  rewrite Hb in Hb'. injection Hb' as <-. rewrite Hr, Hp. destruct (decide (kv.1 ∈ names)) as [_|Hni].
  - cbn [fmap option_fmap option_map]. rewrite (current_of tensors kv Hn Hkv). by apply (holds_new base).
  - assert (t_bits kv.2 = t_bits base) as He by (eapply unsent_same; [done|done|by intros ?%Hs|done]). exists p. split; [done|]. split; [|by rewrite He].
    destruct Hlk as [H1 H2 H3 H4], Hlp as [H5 H6 H7 H8]. constructor; [by rewrite H1|by rewrite H2|by rewrite H3|by rewrite H4].
Qed.

End sync.

(** A commit of an earlier sync is outstanding; one weight is sent by exclusive or,
    one of single bytes is overwritten, one has not changed and one is skipped. *)
Module Demo.
Definition nan_fill (dtype : string) : option Z := if String.eqb dtype "bfloat16" then Some 0x7FC0 else if String.eqb dtype "float8" then Some 0x7F else None.
Definition is_nan (dtype : string) (bits : Z) : bool := String.eqb dtype "bfloat16" && (0x7F80 <? Z.land bits 0x7FFF).
Definition torch_dtype (dtype : string) : option Z := if String.eqb dtype "bfloat16" then Some 2 else if String.eqb dtype "float8" then Some 1 else None.

Definition view (engine : list (string * Tensor)) (name : string) : option Tensor := kv_get name engine.
Definition load_weight (engine : list (string * Tensor)) (name : string) (copy : Tensor -> res Tensor) : res (list (string * Tensor)) :=
  match kv_get name engine with None => Raise KeyError | Some p => p' ← copy p; Ok (kv_set name p' engine) end.
Lemma loads_weight : loads view load_weight.
Proof.
  intros engine name copy p p' Hv Hc. unfold view, load_weight in *. rewrite Hv, Hc. cbn [mbind res_bind]. eexists. split; [done|].
  split; [by rewrite kv_get_set, decide_True|]. intros n Hn. rewrite kv_get_set, decide_False; [done|]. by apply not_eq_sym.
Qed.

Definition bf (bits : list Z) : Tensor := mkTensor [Z.of_nat (length bits)] "bfloat16" 2 bits.
Definition fp8 (bits : list Z) : Tensor := mkTensor [Z.of_nat (length bits)] "float8" 1 bits.
Definition before : list (string * Tensor) := [("w", bf [1; 2; 3; 4]); ("s", fp8 [5; 6; 7]); ("v", bf [8]); ("k", bf [9; 9])].
Definition tracker : Tracker := mkTracker Xor ["s"] 2 [("w", bf [1; 0; 3; 4]); ("s", fp8 [5; 6; 7]); ("v", bf [8]); ("k", bf [9; 9])] [] [("w", ([1], [2]))].
Definition settled : Tracker := mkTracker Xor ["s"] 2 before [] [].
Definition chunks : list (list (string * Tensor)) := [[("w", bf [1; 12; 3; 14])]; [("s", fp8 [5; 0x7F; 8]); ("v", bf [8])]; [("k", bf [0; 9])]].
End Demo.

