(* ===== verification/Checkpoints.v ===== *)
(** * Training checkpoints
    ([utils/checkpoint.py], [utils/checkpoint_storage.py])

    A checkpoint is written into a directory of its own, published, and old ones are
    removed by the retention rules.  Local storage publishes by a rename, object
    storage by a marker.  Publishing runs on a thread of its own and removals on
    another, while training goes on to the next checkpoint.

    What a thread does is a program of calls on the store ([prog]); it is run alone
    ([run]), or a call at a time among others.  A directory is what it holds by
    relative path; a file is what [json.loads] makes of it. *)

From S2P Require Import Prelude.
From S2P Require Import PyVal.
From S2P Require Import PyStr.
From S2P Require Import StateErr.
From S2P Require Import SnapshotDir.
From Stdlib Require Import Ascii.
#[local] Open Scope string_scope.
#[local] Open Scope Z_scope.

(** ** Programs over a store *)

Abbreviation files := (gmap string content) (only parsing).

(** Calls on one directory. *)
Inductive op : Type -> Type :=
| Exists : op bool
| IsDir : op bool
| Mkdir : op unit
| ListDir : op (list string)
| Unlink (file : string) : op unit
| Rmdir : op unit
| Truncate (file : string) : op unit
| Fill (file : string) (c : content) : op unit
| Read (file : string) : op content.

Inductive sys : Type -> Type :=
| At {X} (name : string) (o : op X) : sys X
| Rename (src dst : string) : sys unit
| ListRoot : sys (list string).

(** What a call does to its directory. *)
Definition with_files (f : files -> option node * res unit) (e : option node) : option node * res unit :=
  match e with Some (NDir fs) => f fs | Some NFile => (e, Raise OSError) | None => (e, Raise FileNotFoundError) end.
Section store.
Context (order : list string -> list string).

Definition exec_op {X} (o : op X) (e : option node) : option node * res X :=
  match o with
  | Exists => (e, Ok (bool_decide (is_Some e)))
  | IsDir => (e, Ok (match e with Some (NDir _) => true | _ => false end))
  | Mkdir => match e with None => (Some (NDir ∅), Ok tt) | Some (NDir _) => (e, Ok tt) | Some NFile => (e, Raise OSError) end
  | ListDir => (e, match e with Some (NDir fs) => Ok (order (elements (dom fs))) | Some NFile => Raise OSError | None => Raise FileNotFoundError end)
  | Unlink f => with_files (fun fs => match fs !! f with Some _ => (Some (NDir (delete f fs)), Ok tt) | None => (Some (NDir fs), Raise FileNotFoundError) end) e
  | Rmdir => with_files (fun fs => if (size fs =? 0)%nat then (None, Ok tt) else (Some (NDir fs), Raise OSError)) e
  | Truncate f => with_files (fun fs => (Some (NDir (<[f := Raise ValueError]> fs)), Ok tt)) e
  | Fill f c => with_files (fun fs => (Some (NDir (<[f := c]> fs)), Ok tt)) e
  | Read f => (e, match e with Some (NDir fs) => match fs !! f with Some c => Ok c | None => Raise FileNotFoundError end | Some NFile => Raise OSError | None => Raise FileNotFoundError end)
  end.

Definition exec {X} (c : sys X) (d : dirmap) : dirmap * res X :=
  match c with
  | At name o => let '(e, r) := exec_op o (d !! name) in (partial_alter (fun _ => e) name d, r)
  | Rename src dst =>
      match d !! src, d !! dst with
      | None, _ => (d, Raise FileNotFoundError)
      | Some (NDir fs), None => (<[dst := NDir fs]> (delete src d), Ok tt)
      | Some (NDir fs), Some (NDir old) => if (size old =? 0)%nat then (<[dst := NDir fs]> (delete src d), Ok tt) else (d, Raise OSError)
      | Some (NDir _), Some NFile | Some NFile, Some (NDir _) => (d, Raise OSError)
      | Some NFile, _ => (<[dst := NFile]> (delete src d), Ok tt)
      end
  | ListRoot => (d, Ok (order (elements (dom d))))
  end.

(** A program: the next call, and what follows its answer. *)
Inductive prog (A : Type) : Type :=
| Ret (a : A)
| Throw (e : exc)
| Vis {X : Type} (c : sys X) (k : res X -> prog A).
#[global] Arguments Ret {A} a.
#[global] Arguments Throw {A} e.
#[global] Arguments Vis {A X} c k.

#[export] Instance prog_ret : MRet prog := fun A => Ret.
#[export] Instance prog_bind : MBind prog := fun A B f =>
  fix bind (p : prog A) : prog B :=
    match p with Ret a => f a | Throw e => Throw e | Vis c k => Vis c (fun r => bind (k r)) end.

Definition of_res {A} (r : res A) : prog A := match r with Ok a => Ret a | Raise e => Throw e end.
Definition call {X} (c : sys X) : prog X := Vis c of_res.

Fixpoint run {A} (p : prog A) (d : dirmap) : dirmap * res A :=
  match p with
  | Ret a => (d, Ok a)
  | Throw e => (d, Raise e)
  | Vis c k => let '(d', r) := exec c d in run (k r) d'
  end.
End store.
#[export] Existing Instance prog_ret.
#[export] Existing Instance prog_bind.

(** [for x in l: body(x)], and a comprehension. *)
Fixpoint for_each {A} (l : list A) (body : A -> prog unit) : prog unit :=
  match l with [] => Ret tt | x :: l => _ ← body x; for_each l body end.
Fixpoint collect {A B} (l : list A) (f : A -> prog B) : prog (list B) :=
  match l with [] => Ret [] | x :: l => y ← f x; ys ← collect l f; Ret (y :: ys) end.

(** ** The storages *)

(** [_parse_step(name)]. *)
Definition _parse_step (name : string) : option nat :=
  rest ← strip_prefix "step_" name;
  if isdigit rest then int_of_digits rest else None.
Definition step_name (n : nat) : string := "step_" +:+ str_of_nat n.
Definition tmp_step_name (n : nat) : string := "tmp_" +:+ step_name n.

(** [name.split("_")]. *)
Fixpoint split_on (c : ascii) (s : string) : list string :=
  match s with
  | EmptyString => [""]
  | String a s => if Ascii.eqb a c then "" :: split_on c s else match split_on c s with w :: ws => String a w :: ws | [] => [String a ""] end
  end.

Definition rmtree (name : string) : prog unit :=
  fs ← call (At name ListDir);
  _ ← for_each fs (fun f => call (At name (Unlink f)));
  call (At name Rmdir).
Definition write (name file : string) (c : content) : prog unit := _ ← call (At name (Truncate file)); call (At name (Fill file c)).

(** Steps with their directories, in order; the order of equals is that of names. *)
Definition step_ltb (a b : nat * string) : bool := (a.1 <? b.1)%nat || ((a.1 =? b.1)%nat && string_ltb a.2 b.2).
Definition parsed (names : list string) : list (nat * string) := omap (fun name => n ← _parse_step name; Some (n, name)) names.

(** [CheckpointStorage]. *)
Class CheckpointStorage := {
  begin : nat -> prog string;
  publish : string -> prog unit;
  published_steps : prog (list (nat * string)) }.

Definition local_begin (step : nat) : prog string :=
  let save_dir := tmp_step_name step in
  b ← call (At save_dir Exists);
  _ ← (if b : bool then rmtree save_dir else Ret tt);
  _ ← call (At save_dir Mkdir);
  Ret save_dir.
Definition local_publish (path : string) : prog unit :=
  step ← of_res (get_index (split_on "_"%char path) 2);
  let final_path := "step_" +:+ step in
  b ← call (At final_path Exists);
  if b : bool then
    let old_path := "old_step_" +:+ step in
    _ ← call (Rename final_path old_path);
    _ ← call (Rename path final_path);
    b ← call (At old_path Exists);
    if b : bool then rmtree old_path else Ret tt
  else call (Rename path final_path).
Definition local_published_steps : prog (list (nat * string)) :=
  names ← call ListRoot; Ret (py_sort step_ltb (parsed names)).
Definition LocalStorage : CheckpointStorage := {| begin := local_begin; publish := local_publish; published_steps := local_published_steps |}.

(** On an object store a directory is a prefix. *)
Definition msc_begin (step : nat) : prog string :=
  let save_dir := step_name step in
  fs ← call (At save_dir IsDir);
  marked ← (if fs : bool then names ← call (At save_dir ListDir); Ret (bool_decide ("_SUCCESS" ∈ names)) else Ret false);
  _ ← (if marked : bool then Throw OSError else Ret tt);
  b ← call (At save_dir IsDir);
  _ ← (if b : bool then rmtree save_dir else Ret tt);
  _ ← call (At save_dir Mkdir);
  Ret save_dir.
Definition msc_publish (path : string) : prog unit := write path "_SUCCESS" (Ok (str_dict [("version", VInt 1)])).
Definition msc_marked (c : nat * string) : prog (option (nat * string)) :=
  fs ← call (At c.2 IsDir);
  if fs : bool then names ← call (At c.2 ListDir); Ret (if bool_decide ("_SUCCESS" ∈ names) then Some c else None) else Ret None.
Definition msc_published_steps : prog (list (nat * string)) :=
  names ← call ListRoot;
  found ← collect (parsed names) msc_marked;
  Ret (py_sort step_ltb (omap id found)).
Definition MscStorage : CheckpointStorage := {| begin := msc_begin; publish := msc_publish; published_steps := msc_published_steps |}.

(** ** The manager *)

Record Config := mkConfig {
  metric_name : option string;
  higher_is_better : bool;
  keep_top_k : option Z;
  save_period : Z;
  ft_keep_latest_k : option Z }.

(** A checkpoint with its training info. *)
Record Checkpoint := mkCheckpoint { ck_step : nat; ck_path : string; ck_info : PyVal }.

(** Metrics are numbers, compared as floats are. *)
Definition float_ltb (x y : pyfloat) : bool :=
  match x, y with
  | Fin m e, Fin m' e' => m * 2 ^ (e - Z.min e e') <? m' * 2 ^ (e' - Z.min e e')
  | Inf true, Fin _ _ | Inf true, Inf false | Fin _ _, Inf false => true
  | _, _ => false
  end.
(** [a < b] of pairs [(metric, step)]. *)
Definition key_ltb (a b : pyfloat * Z) : bool := if float_eqb a.1 b.1 then a.2 <? b.2 else float_ltb a.1 b.1.

(** [l.sort(key=..., reverse=...)]: equals keep their order. *)
Definition sort_by {A} (ltb : A -> A -> bool) (descending : bool) (l : list A) : list A :=
  if descending then reverse (py_sort ltb (reverse l)) else py_sort ltb l.
Definition as_number (v : PyVal) : res pyfloat := match as_num v with Some x => Ok x | None => Raise TypeError end.
(** [info.get(metric, default)]. *)
Definition metric_or (metric : string) (missing : pyfloat) (info : PyVal) : res pyfloat :=
  match info with
  | VDict d => match dict_get metric d with Some v => as_number v | None => Ok missing end
  | _ => Raise AttributeError
  end.
(** [metric in info]; training info is a dict wherever the code writes it, and lists or
    strings, which Python would search, are refused here. *)
Definition has_metric (metric : option string) (info : PyVal) : res bool :=
  match info with VDict d => Ok (match metric with Some m => has_key m d | None => false end) | _ => Raise TypeError end.
(** The sort keys of the best first. *)
Definition metric_key (higher : bool) (metric : string) (c : Checkpoint) : res (pyfloat * Z) :=
  m ← metric_or metric (Inf higher) (ck_info c);
  Ok (m, if higher then Z.of_nat (ck_step c) else - Z.of_nat (ck_step c)).
Definition sort_by_metric (higher : bool) (metric : string) (l : list Checkpoint) : res (list Checkpoint) :=
  keys ← traverse (metric_key higher metric) l;
  Ok (snd <$> sort_by (fun a b : (pyfloat * Z) * Checkpoint => key_ltb a.1 b.1) higher (zip keys l)).

Definition read_info (name : string) : prog (option PyVal) :=
  Vis (At name (Read "training_info.json")) (fun r =>
    match r with
    | Ok (Ok VNone) => Ret None
    | Ok (Ok v) => Ret (Some v)
    | Ok (Raise e) => Throw e
    | Raise FileNotFoundError => Ret None
    | Raise e => Throw e
    end).

(** The rules of retention, on the history. *)
Definition most_recent (l : list Checkpoint) : list Checkpoint := sort_by (fun a b => (ck_step a <? ck_step b)%nat) true l.
Definition py_take {A} (k : Z) (l : list A) : list A := py_slice 0 k l.
Definition periodic_of (cfg : Config) (history : list Checkpoint) : res (list Checkpoint) :=
  _ ← raise_if ((save_period cfg =? 0) && negb (bool_decide (history = []))) ZeroDivisionError;
  Ok (List.filter (fun c => Z.of_nat (ck_step c) mod save_period cfg =? 0) history).
Definition best_periodic (cfg : Config) (periodic : list Checkpoint) : res (list Checkpoint) :=
  match keep_top_k cfg with
  | None => Ok periodic
  | Some k => l ← match metric_name cfg with None => Ok (most_recent periodic) | Some m => sort_by_metric (higher_is_better cfg) m periodic end; Ok (py_take k l)
  end.
Definition latest_step (history : list Checkpoint) : nat := foldr Nat.max 0%nat (ck_step <$> history).
Definition protected_steps (cfg : Config) (exclude_latest : bool) (history : list Checkpoint) : res (list nat) :=
  periodic ← periodic_of cfg history;
  best ← best_periodic cfg periodic;
  Ok ((if exclude_latest then [latest_step history] else []) ++ (ck_step <$> best)
      ++ match ft_keep_latest_k cfg with Some k => ck_step <$> py_take k (most_recent history) | None => [] end)%list.

Section manager.
Context `{CheckpointStorage} (cfg : Config).

(** [_load_checkpoint_history]. *)
Definition with_info (c : nat * string) (info : option PyVal) : option Checkpoint := i ← info; Some (mkCheckpoint c.1 c.2 i).
Definition _load_checkpoint_history : prog (list Checkpoint) :=
  steps ← published_steps;
  infos ← collect steps (fun c : nat * string => read_info c.2);
  Ret (omap id (zip_with with_info steps infos)).

Definition remove_old_checkpoints (exclude_latest : bool) : prog unit :=
  history ← _load_checkpoint_history;
  match history with
  | [] => Ret tt
  | _ =>
      if bool_decide (keep_top_k cfg = None) && bool_decide (ft_keep_latest_k cfg = None) then Ret tt
      else
        protected ← of_res (protected_steps cfg exclude_latest history);
        for_each history (fun c => if bool_decide (ck_step c ∈ protected) then Ret tt else rmtree (ck_path c))
  end.

Definition get_latest_checkpoint_path : prog (option string) :=
  steps ← published_steps; Ret (snd <$> last steps).

(** The metric of a checkpoint that has it. *)
Definition valid_of (history : list Checkpoint) : res (list Checkpoint) :=
  flags ← traverse (fun c => has_metric (metric_name cfg) (ck_info c)) history;
  Ok (omap (fun fc : bool * Checkpoint => if fc.1 then Some fc.2 else None) (zip flags history)).
Definition get_best_checkpoint_path : prog (option string) :=
  history ← _load_checkpoint_history;
  match history with
  | [] => Ret None
  | _ =>
      valid ← of_res (valid_of history);
      match valid, metric_name cfg with
      | _ :: _, Some m => l ← of_res (sort_by_metric (higher_is_better cfg) m valid); c ← of_res (get_index l 0); Ret (Some (ck_path c))
      | _, _ => get_latest_checkpoint_path
      end
  end.

(** The directory of a new checkpoint, with its training info and configuration. *)
Definition init_tmp_checkpoint (step : nat) (training_info : list (PyVal * PyVal)) (run_config : option content) : prog string :=
  save_dir ← begin step;
  _ ← write save_dir "training_info.json" (Ok (VDict training_info));
  _ ← match run_config with Some c => write save_dir "config.yaml" c | None => Ret tt end;
  Ret save_dir.

Definition finalize_checkpoint (path : string) : prog unit := _ ← publish path; remove_old_checkpoints true.
End manager.

(** ** The threads

    The trainer writes a checkpoint and hands it to [begin_finalization]; a thread of
    its own publishes it, and queues a removal for the thread that removes.  [m_saves]
    is not in the code: it records what the trainer asked to save. *)
Section threads.
Context (order : list string -> list string) `{CheckpointStorage} (cfg : Config).

Record Manager := mkManager {
  m_store : dirmap;
  (** The step the trainer saves, with what is left to do of it. *)
  m_saving : option (nat * prog string);
  (** [_finalize_thread]. *)
  m_finalize : option (prog unit);
  (** The queue of [_delete_executor], the running job first. *)
  m_deletes : list (prog unit);
  (** [_finalize_error is not None]. *)
  m_error : bool;
  (** The last step the trainer began to save, or resumed from. *)
  m_last : option nat;
  m_saves : list (nat * gmap string content) }.

(** A save: the directory, and what the algorithm writes into it. *)
Definition save (step : nat) (training_info : list (PyVal * PyVal)) (run_config : option content) (extra : list (string * content)) : prog string :=
  path ← init_tmp_checkpoint step training_info run_config;
  _ ← for_each extra (fun fc => write path fc.1 fc.2);
  Ret path.
Definition saved_files (training_info : list (PyVal * PyVal)) (run_config : option content) (extra : list (string * content)) : gmap string content :=
  foldl (fun fs fc => <[fc.1 := fc.2]> fs)
    (match run_config with Some c => <["config.yaml" := c]> | None => id end {["training_info.json" := Ok (VDict training_info)]}) extra.

(** [_finalize], where [wait_fn] succeeds or not. *)
Definition finalize (path : string) (waited : bool) : prog unit := if waited then publish path else Throw RuntimeError.

(** [latest step >= step]. *)
Definition above (last : option nat) (step : nat) : Prop := match last with Some l => (l < step)%nat | None => True end.

Inductive mstep : Manager -> Manager -> Prop :=
| step_save d fin del err last saves n info config extra :
    above last n -> "training_info.json" ∉ extra.*1 ->
    mstep (mkManager d None fin del err last saves)
          (mkManager d (Some (n, save n info config extra)) fin del err (Some n) ((n, saved_files info config extra) :: saves))
| step_save_error d n e fin del err last saves :
    mstep (mkManager d (Some (n, Throw e)) fin del err last saves) (mkManager d None fin del err last saves)
| step_save_call d n X (c : sys X) k fin del err last saves d' r : exec order c d = (d', r) ->
    mstep (mkManager d (Some (n, Vis c k)) fin del err last saves) (mkManager d' (Some (n, k r)) fin del err last saves)
| step_begin_finalization d n path del last saves waited :
    mstep (mkManager d (Some (n, Ret path)) None del false last saves) (mkManager d None (Some (finalize path waited)) del false last saves)
| step_finalize_call d sav X (c : sys X) k del err last saves d' r : exec order c d = (d', r) ->
    mstep (mkManager d sav (Some (Vis c k)) del err last saves) (mkManager d' sav (Some (k r)) del err last saves)
| step_finalize_done d sav del err last saves :
    mstep (mkManager d sav (Some (Ret tt)) del err last saves) (mkManager d sav None (del ++ [remove_old_checkpoints cfg true])%list err last saves)
| step_finalize_error d sav e del err last saves :
    mstep (mkManager d sav (Some (Throw e)) del err last saves) (mkManager d sav None del true last saves)
| step_finalize_pending d sav del last saves :
    mstep (mkManager d sav None del true last saves) (mkManager d sav None del false last saves)
| step_delete_call d sav fin X (c : sys X) k del err last saves d' r : exec order c d = (d', r) ->
    mstep (mkManager d sav fin (Vis c k :: del) err last saves) (mkManager d' sav fin (k r :: del) err last saves)
| step_delete_done d sav fin del err last saves :
    mstep (mkManager d sav fin (Ret tt :: del) err last saves) (mkManager d sav fin del err last saves)
| step_delete_error d sav fin e del err last saves :
    mstep (mkManager d sav fin (Throw e :: del) err last saves) (mkManager d sav fin del err last saves)
(** A crash, and a run that resumes from the latest checkpoint. *)
| step_crash d sav fin del err last saves steps : run order published_steps d = (d, Ok steps) ->
    mstep (mkManager d sav fin del err last saves) (mkManager d None None [] false (fst <$> list.last steps) saves).

Definition initial : Manager := mkManager ∅ None None [] false None [].
Definition reachable (m : Manager) : Prop := rtc mstep initial m.
End threads.
