(* ===== verification/CheckpointProps.v ===== *)
(** * The newest checkpoint survives

    What a run would resume from, whatever its threads were doing when it stopped
    ([Checkpoints], on local storage). *)

From S2P Require Import Prelude.
From S2P Require Import PyVal.
From S2P Require Import PyStr.
From S2P Require Import StateErr.
From S2P Require Import SnapshotDir.
From S2P Require Import Checkpoints.
From Stdlib Require Import Ascii.
#[local] Open Scope string_scope.

(** ** Names *)

Lemma parse_step_name n : _parse_step (step_name n) = Some n.
Proof. unfold _parse_step, step_name. rewrite strip_prefix_app. cbn [mbind option_bind]. by rewrite isdigit_str_of_nat, int_of_str_of_nat. Qed.
Lemma step_name_inj n m : step_name n = step_name m -> n = m.
Proof. intros H. apply (f_equal _parse_step) in H. rewrite !parse_step_name in H. by injection H. Qed.
Lemma tmp_not_step n name k : _parse_step name = Some k -> tmp_step_name n <> name.
Proof. intros H <-. done. Qed.
Lemma tmp_name_inj n m : tmp_step_name n = tmp_step_name m -> n = m.
Proof. intros H. apply string_append_inj_l in H. by apply step_name_inj. Qed.

Lemma split_digits s : all_chars is_digit s = true -> split_on "_"%char s = [s].
Proof.
  induction s as [|a s IH]; [done|]. cbn [all_chars]. intros [Ha Hs]%andb_true_iff. cbn [split_on]. destruct (Ascii.eqb_spec a "_"%char) as [->|_]; [done|]. by rewrite (IH Hs).
Qed.
Lemma publish_tmp n : local_publish (tmp_step_name n) =
  (b ← call (At (step_name n) Exists);
   if b : bool then
     _ ← call (Rename (step_name n) ("old_" +:+ step_name n)); _ ← call (Rename (tmp_step_name n) (step_name n));
     b ← call (At ("old_" +:+ step_name n) Exists); if b : bool then rmtree ("old_" +:+ step_name n) else Ret tt
   else call (Rename (tmp_step_name n) (step_name n))).
Proof.
  unfold local_publish. assert (split_on "_"%char (tmp_step_name n) = ["tmp"; "step"; str_of_nat n]) as ->; [|done].
  unfold tmp_step_name, step_name. change ("tmp_" +:+ "step_" +:+ str_of_nat n) with ("tmp_step_" +:+ str_of_nat n).
  pose proof (split_digits _ (str_of_nat_digits n)) as H. generalize dependent (str_of_nat n). intros s H. rewrite !string_app_cons. change ("" +:+ s) with s. cbn. by rewrite H.
Qed.

(** ** The steps of a store *)

Definition published (d : dirmap) (n : nat) : Prop := is_Some (d !! step_name n).
Definition newest (d : dirmap) (n : nat) : Prop := published d n /\ forall k, published d k -> (k <= n)%nat.
(** Steps have directories of their own name. *)
Definition canonical (d : dirmap) : Prop := forall name n, is_Some (d !! name) -> _parse_step name = Some n -> name = step_name n /\ exists fs, d !! name = Some (NDir fs).

Lemma newest_unique d n m : newest d n -> newest d m -> n = m.
Proof. intros [H1 H2] [H3 H4]. apply H2 in H3. apply H4 in H1. lia. Qed.

Lemma elem_of_parsed names n name : (n, name) ∈ parsed names <-> name ∈ names /\ _parse_step name = Some n.
Proof.
  unfold parsed. rewrite list_elem_of_omap. split.
  - intros (x & Hx & H). destruct (_parse_step x) eqn:E; [|done]. injection H as <- <-. done.
  - intros [H1 H2]. exists name. by rewrite H2.
Qed.

Lemma StronglySorted_weaken {A} (R S : A -> A -> Prop) l : (forall a b, R a b -> S a b) -> StronglySorted R l -> StronglySorted S l.
Proof. intros H. induction 1 as [|x l _ IH Hx]; constructor; [done|]. eapply Forall_impl; eauto. Qed.

Definition step_le (a b : nat * string) : Prop := (a.1 < b.1)%nat \/ (a.1 = b.1 /\ String.le a.2 b.2).
Lemma step_ltb_ge a b : step_ltb b a = false <-> step_le a b.
Proof.
  unfold step_ltb, step_le. rewrite orb_false_iff, andb_false_iff, Nat.ltb_ge, Nat.eqb_neq, string_ltb_ge. split; [|lia || intuition lia].
  intros [H1 [H2|H2]]; [left; lia|]. destruct (decide (a.1 = b.1)); [by right|left; lia].
Qed.
Lemma step_le_trans a b c : step_le a b -> step_le b c -> step_le a c.
Proof. unfold step_le. intros [H1|[H1 H1']] [H2|[H2 H2']]; [left; lia..|]. right. split; [lia|]. by transitivity b.2. Qed.
Lemma sorted_steps l : StronglySorted (fun a b : nat * string => (a.1 <= b.1)%nat) (py_sort step_ltb l).
Proof.
  eapply (StronglySorted_weaken (fun a b => step_ltb b a = false)); [|apply py_sort_sorted].
  - intros a b [H|[H _]]%step_ltb_ge; lia.
  - intros a b c. rewrite !step_ltb_ge. apply step_le_trans.
  - intros a b H. apply step_ltb_ge. unfold step_ltb in H. apply orb_true_iff in H as [H%Nat.ltb_lt|[H1%Nat.eqb_eq H2]%andb_true_iff]; [by left|right].
    split; [done|]. pose proof (string_ltb_le a.2 b.2) as Hl. by rewrite H2 in Hl.
Qed.

Section props.
Context (order : list string -> list string) (Horder : forall l, order l ≡ₚ l).

Lemma listed (d : dirmap) name : name ∈ order (elements (dom d)) <-> is_Some (d !! name).
Proof. by rewrite Horder, elem_of_elements, elem_of_dom. Qed.

(** The published steps, in order. *)
Lemma published_steps_spec d : exists steps, run order local_published_steps d = (d, Ok steps)
  /\ (canonical d -> forall n name, (n, name) ∈ steps <-> published d n /\ name = step_name n)
  /\ StronglySorted (fun a b : nat * string => (a.1 <= b.1)%nat) steps.
Proof.
  eexists. split; [reflexivity|]. split.
  - intros Hc n name. rewrite py_sort_perm, elem_of_parsed, listed. split.
    + intros [H1 H2]. destruct (Hc name n H1 H2) as [-> _]. done.
    + intros [H1 ->]. split; [done|]. apply parse_step_name.
  - apply sorted_steps.
Qed.

(** The newest of the published steps is the last. *)
Lemma last_of_steps d steps : canonical d -> run order local_published_steps d = (d, Ok steps) ->
  match last steps with Some (n, name) => newest d n /\ name = step_name n | None => forall n, ~ published d n end.
Proof.
  intros Hc Hr. destruct (published_steps_spec d) as (steps' & Hr' & He & Hs). rewrite Hr in Hr'. injection Hr' as <-. specialize (He Hc).
  destruct (last steps) as [[n name]|] eqn:El.
  - apply last_Some in El as [l ->]. assert ((n, name) ∈ (l ++ [(n, name)])%list) as Hin by set_solver. apply He in Hin as [Hn ->]. split; [|done]. split; [done|].
    intros k Hk. assert ((k, step_name k) ∈ (l ++ [(n, step_name n)])%list) as Hin by (by apply He). apply elem_of_app in Hin as [Hin|Hin]; [|set_solver].
    apply StronglySorted_app_1_elem_of with (x1 := (k, step_name k)) (x2 := (n, step_name n)) in Hs; [done|done|by left].
  - apply last_None in El as ->. intros n Hn. assert ((n, step_name n) ∈ ([] : list (nat * string))) as H by (by apply He). by apply elem_of_nil in H.
Qed.

(** ** What threads may do *)

(** A call that changes nothing but one directory. *)
Definition only {X} (c : sys X) (name : string) : Prop := match c with At n _ => n = name | _ => False end.
Lemma only_frame {X} (c : sys X) name d k : only c name -> k <> name -> (exec order c d).1 !! k = d !! k.
Proof. destruct c as [Y n o| |]; cbn; [|done..]. intros -> Hk. destruct (exec_op order o (d !! name)). cbn. by rewrite lookup_partial_alter_ne. Qed.

(** A program on a directory of its own: what it does depends on that directory alone. *)
Fixpoint alone {A} (name : string) (Q : A -> option node -> Prop) (p : prog A) (e : option node) : Prop :=
  match p with
  | Ret a => Q a e
  | Throw _ => True
  | Vis c k => only c name /\ forall d, d !! name = e -> alone name Q (k (exec order c d).2) ((exec order c d).1 !! name)
  end.

Lemma alone_bind {A B} name (Q : B -> option node -> Prop) (f : A -> prog B) p : forall e,
  alone name (fun a e => alone name Q (f a) e) p e -> alone name Q (p ≫= f) e.
Proof. induction p as [a|x|X c k IH]; intros e; cbn; [done|done|]. intros [H1 H2]. split; [done|]. intros d Hd. apply IH, H2, Hd. Qed.

Lemma alone_call {X} name (o : op X) (Q : X -> option node -> Prop) e :
  (forall x, (exec_op order o e).2 = Ok x -> Q x (exec_op order o e).1) -> alone name Q (call (At name o)) e.
Proof.
  intros H. split; [done|]. intros d Hd. cbn [exec]. rewrite Hd. destruct (exec_op order o e) as [e' r]. cbn in *. rewrite lookup_partial_alter_eq. destruct r; cbn; [by apply H|done].
Qed.

Lemma alone_mono {A} name (Q Q' : A -> option node -> Prop) p : forall e, (forall a e, Q a e -> Q' a e) -> alone name Q p e -> alone name Q' p e.
Proof. induction p as [a|x|X c k IH]; intros e HQ; cbn; [apply HQ|done|]. intros [H1 H2]. split; [done|]. intros d Hd. by apply IH, H2. Qed.

Lemma alone_for {A} name (I : option node -> Prop) (l : list A) (body : A -> prog unit) : forall e, I e ->
  (forall x e, x ∈ l -> I e -> alone name (fun _ => I) (body x) e) -> alone name (fun _ => I) (for_each l body) e.
Proof.
  induction l as [|x l IH]; intros e He Hb; [done|]. cbn [for_each]. apply alone_bind. eapply alone_mono; [|apply Hb; [by left|done]]. intros [] e' He'.
  apply IH; [done|]. intros y e2 Hy. apply Hb. by right.
Qed.

(** Writing files one after another. *)
Lemma alone_write name f c fs (Q : unit -> option node -> Prop) : Q tt (Some (NDir (<[f := c]> fs))) -> alone name Q (write name f c) (Some (NDir fs)).
Proof.
  intros HQ. apply alone_bind, alone_call. intros x _. cbn [exec_op with_files fst]. apply alone_call. intros [] _. cbn [exec_op with_files fst]. by rewrite insert_insert_eq.
Qed.

(** Removing the directory: if it succeeds, it is gone. *)
Lemma alone_rmtree name e : alone name (fun _ e => e = None) (rmtree name) e.
Proof.
  apply alone_bind, alone_call. intros fs _. apply alone_bind. eapply alone_mono; [|apply (alone_for name (fun _ => True)); [done|]].
  - intros [] e' _. apply alone_call. intros [] H. destruct e' as [[|gs]|]; [done| |done]. cbn in *. by destruct (size gs =? 0)%nat.
  - intros f e' _ _. by apply alone_call.
Qed.

(** A save leaves its directory with the files the trainer saved. *)
Lemma alone_save step info config extra e :
  alone (tmp_step_name step) (fun path e => path = tmp_step_name step /\ e = Some (NDir (saved_files info config extra))) (@save LocalStorage step info config extra) e.
Proof.
  unfold save, init_tmp_checkpoint. cbn [begin LocalStorage]. unfold local_begin. set (name := tmp_step_name step).
  apply alone_bind, alone_bind, alone_bind, alone_call. intros b Hb. cbn [exec_op fst snd] in *. injection Hb as <-.
  apply alone_bind. eapply (alone_mono name (fun _ e => e = None)); [|case_bool_decide as He; [apply alone_rmtree|]].
  2: { by destruct e; [destruct He|]. }
  intros [] e' ->. apply alone_bind, alone_call. intros [] _. cbn [exec_op fst alone].
  apply alone_bind, alone_write. rewrite insert_empty. apply alone_bind.
  apply (alone_mono name (fun _ e => e = Some (NDir (match config with Some c => <["config.yaml" := c]> | None => id end {["training_info.json" := Ok (VDict info)]})))).
  - intros [] e1 ->. cbn [alone]. apply alone_bind. unfold saved_files. generalize (match config with Some c => <["config.yaml" := c]> | None => id end {["training_info.json" := Ok (VDict info)]} : files).
    induction extra as [|[f c] extra IH]; intros fs; cbn [for_each foldl]; [done|]. apply alone_bind, alone_write. apply IH.
  - destruct config as [c|]; [by apply alone_write|done].
Qed.

(** A job of the remover, from its listing on: it changes only steps before [L], which
    has its training info and keeps it. *)
Definition below_step (L : nat) (name : string) : Prop := exists n, name = step_name n /\ (n < L)%nat.
Definition reads_only {X} (o : op X) : Prop := match o with Exists | IsDir | ListDir | Read _ => True | _ => False end.
Definition removes {X} (o : op X) : Prop := match o with Unlink _ | Rmdir => True | _ => False end.
Definition permitted {X} (L : nat) (c : sys X) : Prop := match c with At name o => reads_only o \/ (removes o /\ below_step L name) | _ => False end.
(** What a call can answer. *)
Definition honest {X} (L : nat) (c : sys X) : res X -> Prop :=
  match c with
  | At name o => fun r => match o in op X return res X -> Prop with
                          | Read f => fun r => name = step_name L -> f = "training_info.json" -> exists info, r = Ok (Ok (VDict info))
                          | _ => fun _ => True
                          end r
  | _ => fun _ => True
  end.
Fixpoint spares {A} (L : nat) (Q : A -> Prop) (p : prog A) : Prop :=
  match p with
  | Ret a => Q a
  | Throw _ => True
  | Vis c k => permitted L c /\ forall r, honest L c r -> spares L Q (k r)
  end.

Lemma spares_bind {A B} L (Q : B -> Prop) (f : A -> prog B) p : spares L (fun a => spares L Q (f a)) p -> spares L Q (p ≫= f).
Proof. induction p as [a|x|X c k IH]; cbn; [done|done|]. intros [H1 H2]. split; [done|]. intros r Hr. by apply IH, H2. Qed.
Lemma spares_mono {A} L (Q Q' : A -> Prop) p : (forall a, Q a -> Q' a) -> spares L Q p -> spares L Q' p.
Proof. intros HQ. induction p as [a|x|X c k IH]; cbn; [apply HQ|done|]. intros [H1 H2]. split; [done|]. intros r Hr. by apply IH, H2. Qed.
Lemma spares_of_res {A} L (Q : A -> Prop) r : (forall a, r = Ok a -> Q a) -> spares L Q (of_res r).
Proof. intros H. destruct r; cbn; [by apply H|done]. Qed.
Lemma spares_call {X} L (c : sys X) : permitted L c -> spares L (fun _ => True) (call c).
Proof. intros H. split; [done|]. intros r _. by apply spares_of_res. Qed.
Lemma spares_for {A} L (l : list A) body : (forall x, x ∈ l -> spares L (fun _ => True) (body x)) -> spares L (fun _ => True) (for_each l body).
Proof.
  induction l as [|x l IH]; intros H; [done|]. cbn [for_each]. apply spares_bind. eapply spares_mono; [|apply H; by left]. intros [] _. apply IH. intros y Hy. apply H. by right.
Qed.
Lemma spares_collect {A B} L (R : A -> B -> Prop) (l : list A) f : (forall x, x ∈ l -> spares L (R x) (f x)) -> spares L (Forall2 R l) (collect l f).
Proof.
  induction l as [|x l IH]; intros H; [constructor|]. cbn [collect]. apply spares_bind. eapply spares_mono; [|apply H; by left]. intros y Hy. apply spares_bind.
  eapply spares_mono; [|apply IH; intros z Hz; apply H; by right]. intros ys Hys. by constructor.
Qed.

Lemma spares_rmtree L name : below_step L name -> spares L (fun _ => True) (rmtree name).
Proof.
  intros Hb. apply spares_bind. eapply spares_mono; [|apply spares_call; by left]. intros fs _. apply spares_bind.
  eapply spares_mono; [|apply spares_for; intros f _; apply spares_call; by right]. intros [] _. apply spares_call. by right.
Qed.
Lemma spares_read_info L name : spares L (fun i => name = step_name L -> i <> None) (read_info name).
Proof.
  split; [by left|]. intros r Hr. cbn in Hr. destruct (decide (name = step_name L)) as [->|Hne].
  - destruct (Hr eq_refl eq_refl) as [info ->]. done.
  - destruct r as [[[]|]|[]]; cbn; done.
Qed.

Lemma latest_step_ge history c : c ∈ history -> (ck_step c <= latest_step history)%nat.
Proof. unfold latest_step. induction 1 as [|x y l _ IH]; cbn; lia. Qed.
Lemma latest_step_le history L : (forall c, c ∈ history -> (ck_step c <= L)%nat) -> (latest_step history <= L)%nat.
Proof. unfold latest_step. induction history as [|x l IH]; intros H; cbn; [lia|]. apply Nat.max_lub; [apply H; by left|]. apply IH. intros c Hc. apply H. by right. Qed.

Lemma latest_protected cfg history protected : protected_steps cfg true history = Ok protected -> latest_step history ∈ protected.
Proof. unfold protected_steps. intros (periodic & _ & H)%bind_Ok. apply bind_Ok in H as (best & _ & [= <-]). by left. Qed.

(** The history of a job has the newest step, and nothing newer. *)
Definition history_of (steps : list (nat * string)) (infos : list (option PyVal)) : list Checkpoint := omap id (zip_with with_info steps infos).
Lemma elem_of_history steps infos c : c ∈ history_of steps infos <-> exists i, steps !! i = Some (ck_step c, ck_path c) /\ infos !! i = Some (Some (ck_info c)).
Proof.
  unfold history_of. rewrite list_elem_of_omap. split.
  - intros (x & (i & Hi)%list_elem_of_lookup_1 & Hx). exists i. rewrite lookup_zip_with in Hi. destruct (steps !! i) as [[n name]|]; [|done]. destruct (infos !! i) as [[info|]|]; [|by injection Hi as <-|done].
    injection Hi as <-. by injection Hx as <-.
  - intros (i & H1 & H2). exists (Some c). split; [|done]. apply list_elem_of_lookup. exists i. rewrite lookup_zip_with, H1, H2. cbn. by destruct c.
Qed.

Lemma spares_removal cfg L steps : (forall n name, (n, name) ∈ steps -> name = step_name n /\ (n <= L)%nat) -> (L, step_name L) ∈ steps ->
  spares L (fun _ => True) (history ← (infos ← collect steps (fun c : nat * string => read_info c.2); Ret (history_of steps infos));
    match history with
    | [] => Ret tt
    | _ => if bool_decide (keep_top_k cfg = None) && bool_decide (ft_keep_latest_k cfg = None) then Ret tt
           else protected ← of_res (protected_steps cfg true history);
                for_each history (fun c => if bool_decide (ck_step c ∈ protected) then Ret tt else rmtree (ck_path c))
    end).
Proof.
  intros Hs HL. apply spares_bind, spares_bind. eapply spares_mono; [|apply (spares_collect L (fun c i => c.2 = step_name L -> i <> None)); intros c _; apply spares_read_info].
  intros infos Hi. cbn [spares]. assert (latest_step (history_of steps infos) = L) as Hlatest.
  { apply Nat.le_antisymm; [apply latest_step_le; intros c (i & Hc & _)%elem_of_history; apply list_elem_of_lookup_2 in Hc; by apply Hs in Hc as [_ ?]|].
    apply list_elem_of_lookup in HL as [i HL]. destruct (Forall2_lookup_l _ _ _ _ _ Hi HL) as ([info|] & Hinfo & H); [|by destruct H].
    apply (latest_step_ge _ (mkCheckpoint L (step_name L) info)). apply elem_of_history. by exists i. }
  destruct (history_of steps infos) as [|c0 history] eqn:Eh; [done|]. rewrite <- Eh in *. destruct (_ && _); [done|]. apply spares_bind, spares_of_res. intros protected Hp.
  apply spares_for. intros c Hc. case_bool_decide as Hin; [done|]. apply elem_of_history in Hc as (i & Hc & _). apply list_elem_of_lookup_2 in Hc. apply Hs in Hc as [-> Hle].
  apply spares_rmtree. exists (ck_step c). split; [done|]. apply latest_protected in Hp. rewrite Hlatest in Hp. assert (ck_step c <> L) by congruence. lia.
Qed.

(** What is left of a removal once it has listed the steps. *)
Definition after_listing (cfg : Config) (r : res (list string)) : prog unit :=
  history ← (steps ← (names ← of_res r; Ret (py_sort step_ltb (parsed names)));
    infos ← collect steps (fun c : nat * string => read_info c.2); Ret (history_of steps infos));
  match history with
  | [] => Ret tt
  | _ => if bool_decide (keep_top_k cfg = None) && bool_decide (ft_keep_latest_k cfg = None) then Ret tt
         else protected ← of_res (protected_steps cfg true history);
              for_each history (fun c => if bool_decide (ck_step c ∈ protected) then Ret tt else rmtree (ck_path c))
  end.
Lemma removal_lists cfg : @remove_old_checkpoints LocalStorage cfg true = Vis ListRoot (after_listing cfg).
Proof. reflexivity. Qed.

Lemma after_listing_spares cfg d L : canonical d -> newest d L -> spares L (fun _ => True) (after_listing cfg (exec order ListRoot d).2).
Proof.
  intros Hc [HL Hmax]. destruct (published_steps_spec d) as (steps & Hr & He & _). cbn in Hr. injection Hr as <-. specialize (He Hc). apply spares_removal.
  - intros n name [Hn ->]%He. split; [done|]. by apply Hmax.
  - by apply He.
Qed.
Lemma after_listing_none cfg d : canonical d -> (forall n, ~ published d n) -> after_listing cfg (exec order ListRoot d).2 = Ret tt.
Proof.
  intros Hc Hn. destruct (published_steps_spec d) as (steps & Hr & He & _). cbn in Hr. injection Hr as <-. specialize (He Hc). unfold after_listing. cbn [exec snd of_res mbind prog_bind].
  destruct (py_sort step_ltb _) as [|[n name] l]; [done|]. destruct (Hn n). apply (He n name). by left.
Qed.
Lemma newest_or_none d : canonical d -> (exists L, newest d L) \/ (forall n, ~ published d n).
Proof.
  intros Hc. destruct (published_steps_spec d) as (steps & Hr & _). pose proof (last_of_steps d steps Hc Hr) as H. destruct (last steps) as [[L name]|]; [left|by right]. exists L. by destruct H.
Qed.

(** ** The invariant *)

Definition complete (saves : list (nat * files)) (n : nat) (e : option node) : Prop :=
  exists fs info, e = Some (NDir fs) /\ (n, fs) ∈ saves /\ fs !! "training_info.json" = Some (Ok (VDict info)).

Definition before (d : dirmap) (n : nat) : Prop := forall k, published d k -> (k < n)%nat.
Definition finalizing (d : dirmap) (saving : option (nat * prog string)) (last : option nat) (saves : list (nat * files)) (p : prog unit) : Prop :=
  (exists n, before d n /\ (exists l, last = Some l /\ (n <= l)%nat) /\ (forall k q, saving = Some (k, q) -> (n < k)%nat) /\ complete saves n (d !! tmp_step_name n)
    /\ (p = local_publish (tmp_step_name n) \/ p = call (Rename (tmp_step_name n) (step_name n))))
  \/ p = Ret tt \/ (exists e, p = Throw e).
Definition removing (cfg : Config) (d : dirmap) (p : prog unit) : Prop :=
  p = @remove_old_checkpoints LocalStorage cfg true \/ p = Ret tt
  \/ exists L, published d L /\ spares L (fun _ => True) p /\ exists fs info, d !! step_name L = Some (NDir fs) /\ fs !! "training_info.json" = Some (Ok (VDict info)).

Record inv (cfg : Config) (m : Manager) : Prop := {
  i_canonical : canonical (m_store m);
  i_newest : forall L, newest (m_store m) L -> complete (m_saves m) L (m_store m !! step_name L);
  i_last : forall n, published (m_store m) n -> exists l, m_last m = Some l /\ (n <= l)%nat;
  i_saving : forall n p, m_saving m = Some (n, p) -> m_last m = Some n /\ before (m_store m) n
    /\ alone (tmp_step_name n) (fun path e => path = tmp_step_name n /\ complete (m_saves m) n e) p (m_store m !! tmp_step_name n);
  i_finalize : forall p, m_finalize m = Some p -> finalizing (m_store m) (m_saving m) (m_last m) (m_saves m) p;
  i_deletes : match m_deletes m with [] => True | p :: ps => removing cfg (m_store m) p /\ Forall (fun p => p = @remove_old_checkpoints LocalStorage cfg true) ps end }.

(** ** Each step keeps it *)

(** A program's next call, done. *)
Definition advance {A} (p : prog A) (d : dirmap) : option (dirmap * prog A) :=
  match p with Vis c k => Some ((exec order c d).1, k (exec order c d).2) | _ => None end.

Lemma complete_more saves saves' n e : saves ⊆ saves' -> complete saves n e -> complete saves' n e.
Proof. intros Hs (fs & info & H1 & H2 & H3). exists fs, info. split_and!; [done|by apply Hs|done]. Qed.

Lemma tmp_not_below n L : ~ below_step L (tmp_step_name n).
Proof. intros (k & H & _). apply (tmp_not_step n (step_name k) k); [apply parse_step_name|done]. Qed.
Lemma tmp_ne_step n k : tmp_step_name n <> step_name k.
Proof. apply (tmp_not_step n (step_name k) k), parse_step_name. Qed.

(** What removing leaves of a store. *)
Record removed (L : nat) (d d' : dirmap) : Prop := {
  rm_frame : forall name, ~ below_step L name -> d' !! name = d !! name;
  rm_fewer : forall name, is_Some (d' !! name) -> is_Some (d !! name);
  rm_dirs : forall name fs, d !! name = Some (NDir fs) -> d' !! name = None \/ exists fs', d' !! name = Some (NDir fs') }.

Lemma exec_removes {X} L (c : sys X) d : permitted L c -> removed L d (exec order c d).1.
Proof.
  destruct c as [Y name o| |]; [|done..]. cbn [permitted exec]. intros H. destruct (exec_op order o (d !! name)) as [e r] eqn:E. cbn [fst].
  assert (reads_only o -> e = d !! name) as Hr by (destruct o; cbn in *; intros []; by injection E).
  assert (reads_only o \/ removes o) as Hor by (by destruct H as [H|[H _]]; [left|right]).
  assert (is_Some e -> is_Some (d !! name)) as Hfew.
  { destruct Hor as [Ho|Ho]; [by rewrite Hr|]. destruct (d !! name) as [[|fs]|]; [done..|]. destruct o; cbn in *; try done; by injection E as <- <-. }
  assert (forall fs, d !! name = Some (NDir fs) -> e = None \/ exists fs', e = Some (NDir fs')) as Hdirs.
  { intros fs Hd. destruct Hor as [Ho|Ho]; [right; exists fs; by rewrite Hr|]. rewrite Hd in E. destruct o; cbn in *; try done.
    - destruct (fs !! file); injection E as <- <-; right; by eexists.
    - destruct (size fs =? 0)%nat; injection E as <- <-; [by left|right; by eexists]. }
  constructor.
  - intros k Hk. destruct (decide (k = name)) as [->|Hne]; [|by rewrite lookup_partial_alter_ne]. rewrite lookup_partial_alter_eq. destruct H as [H|[_ H]]; [by apply Hr|done].
  - intros k Hk. destruct (decide (k = name)) as [->|Hne]; [rewrite lookup_partial_alter_eq in Hk; by apply Hfew|by rewrite lookup_partial_alter_ne in Hk].
  - intros k fs Hk. destruct (decide (k = name)) as [->|Hne]; [rewrite lookup_partial_alter_eq; by eapply Hdirs|]. rewrite lookup_partial_alter_ne by done. right. by exists fs.
Qed.

Section removed.
Context (L : nat) (d d' : dirmap) (Hrm : removed L d d') (HL : published d L).

Lemma removed_published n : published d' n -> published d n.
Proof. apply (rm_fewer _ _ _ Hrm). Qed.
Lemma removed_keeps n : (L <= n)%nat -> d' !! step_name n = d !! step_name n.
Proof. intros Hn. apply (rm_frame _ _ _ Hrm). intros (k & ->%step_name_inj & Hk). lia. Qed.
Lemma removed_tmp n : d' !! tmp_step_name n = d !! tmp_step_name n.
Proof. apply (rm_frame _ _ _ Hrm), tmp_not_below. Qed.
Lemma removed_before n : before d n -> before d' n.
Proof. intros H k Hk. by apply H, removed_published. Qed.
Lemma removed_canonical : canonical d -> canonical d'.
Proof.
  intros Hc name n Hn Hp. destruct (Hc name n (rm_fewer _ _ _ Hrm _ Hn) Hp) as [-> (fs & Hfs)]. split; [done|].
  destruct (rm_dirs _ _ _ Hrm _ _ Hfs) as [H|H]; [rewrite H in Hn; by destruct Hn|done].
Qed.
Lemma removed_newest n : newest d' n -> newest d n /\ (L <= n)%nat.
Proof.
  intros [H1 H2]. assert (L <= n)%nat as Hle by (apply H2; unfold published; by rewrite removed_keeps). split; [|done]. split; [by apply removed_published|].
  intros k Hk. destruct (decide (L <= k)%nat); [|lia]. apply H2. unfold published. by rewrite removed_keeps.
Qed.
End removed.

Lemma finalizing_frame d d' sav last saves p : (forall n, before d n -> before d' n) ->
  (forall n, before d n -> (forall k q, sav = Some (k, q) -> (n < k)%nat) -> d' !! tmp_step_name n = d !! tmp_step_name n) ->
  finalizing d sav last saves p -> finalizing d' sav last saves p.
Proof.
  intros Hb Ht [(n & H1 & H2 & H3 & H4 & H5)|H]; [|by right]. left. exists n. split_and!; [by apply Hb|done|done| |done]. by rewrite Ht.
Qed.

Lemma inv_removed cfg d d' L sav fin p p' del err last saves : inv cfg (mkManager d sav fin (p :: del) err last saves) -> published d L -> removed L d d' -> removing cfg d' p' ->
  inv cfg (mkManager d' sav fin (p' :: del) err last saves).
Proof.
  intros [Hc Hn Hl Hs Hf [_ Hds]] HL Hrm Hr. cbn [m_store m_saving m_finalize m_deletes m_last m_saves] in *. constructor; cbn [m_store m_saving m_finalize m_deletes m_last m_saves].
  - by apply (removed_canonical L d).
  - intros n Hnew. destruct (removed_newest L d _ Hrm HL n Hnew) as [H1 H2]. rewrite (removed_keeps L d _ Hrm) by done. by apply Hn.
  - intros n Hp'. apply Hl. by eapply removed_published.
  - intros n q Hsav. destruct (Hs n q Hsav) as (H1 & H2 & H3). split_and!; [done|by eapply removed_before|]. by rewrite (removed_tmp L d _ Hrm).
  - intros q Hfin. eapply finalizing_frame; [| |by apply Hf]; [intros n; by eapply removed_before|intros n _ _; by eapply removed_tmp].
  - by split.
Qed.

Lemma removed_same L d : removed L d d.
Proof. constructor; [done|done|]. intros name fs H. right. by exists fs. Qed.

Lemma inv_delete cfg d d' sav fin p p' del err last saves : inv cfg (mkManager d sav fin (p :: del) err last saves) -> advance p d = Some (d', p') ->
  inv cfg (mkManager d' sav fin (p' :: del) err last saves).
Proof.
  intros Hi Ha. pose proof Hi as [Hc Hn _ _ _ [Hd _]]. cbn [m_store m_deletes m_saves] in *. destruct Hd as [->|[->|(L & HL & Hsp & fs & info & Hfs & Hinfo)]]; [|done|].
  - rewrite removal_lists in Ha. injection Ha as <- <-. destruct (newest_or_none d Hc) as [(L & HL)|Hnone].
    + destruct (Hn L HL) as (fs & info & Hfs & _ & Hinfo). apply (inv_removed cfg d d L _ _ _ _ _ _ _ _ Hi (proj1 HL) (removed_same L d)). right. right. exists L.
      split_and!; [apply HL|by apply after_listing_spares|by exists fs, info].
    + change (order (elements (dom d))) with (order (elements (dom d))). pose proof (after_listing_none cfg d Hc Hnone) as Hret. cbn [exec snd] in Hret. rewrite Hret.
      destruct Hi as [? ? ? ? ? [_ ?]]. constructor; try done. cbn. split; [by right; left|done].
  - destruct p as [a|e|X c k]; [done..|]. injection Ha as <- <-. destruct Hsp as [Hp Hsp]. pose proof (exec_removes L c d Hp) as Hrm.
    apply (inv_removed cfg d _ L _ _ _ _ _ _ _ _ Hi HL Hrm). right. right. exists L. split_and!.
    + unfold published. by rewrite (removed_keeps L d _ Hrm).
    + apply Hsp. destruct c as [Y name o| |]; [|done..]. cbn [honest exec]. destruct o; try done. intros -> ->. rewrite Hfs. cbn. rewrite Hinfo. by exists info.
    + exists fs, info. by rewrite (removed_keeps L d _ Hrm).
Qed.

(** A save works in a directory of its own. *)
Lemma inv_save cfg d d' n p p' fin del err last saves : inv cfg (mkManager d (Some (n, p)) fin del err last saves) -> advance p d = Some (d', p') ->
  inv cfg (mkManager d' (Some (n, p')) fin del err last saves).
Proof.
  intros [Hc Hn Hl Hs Hf Hd] Ha. cbn [m_store m_saving m_finalize m_deletes m_last m_saves] in *. destruct p as [a|e|X c k]; [done..|]. injection Ha as <- <-.
  destruct (Hs n _ eq_refl) as (Hlast & Hb & Ho & Halone). set (d' := (exec order c d).1).
  assert (forall name, name <> tmp_step_name n -> d' !! name = d !! name) as Hfr by (intros name; by apply only_frame).
  assert (forall k, d' !! step_name k = d !! step_name k) as Hst by (intros k'; by apply Hfr, not_eq_sym, tmp_ne_step).
  assert (forall k, published d' k <-> published d k) as Hpub by (intros k'; unfold published; by rewrite Hst).
  assert (forall k, before d' k <-> before d k) as Hbef by (intros k'; unfold before; split; intros H j Hj; apply H, Hpub, Hj).
  constructor; cbn [m_store m_saving m_finalize m_deletes m_last m_saves].
  - intros name j Hsome Hp. assert (name <> tmp_step_name n) as Hne by (intros ->; by eapply tmp_not_step). rewrite Hfr in * by done. by apply Hc.
  - intros L [H1 H2]. rewrite Hst. apply Hn. split; [by apply Hpub|]. intros j Hj. by apply H2, Hpub.
  - intros j Hj. by apply Hl, Hpub.
  - intros j q [= <- <-]. split_and!; [done|by apply Hbef|]. by apply Halone.
  - intros q Hfin. eapply finalizing_frame; [intros j; apply Hbef| |].
    + intros j _ Hj. apply Hfr. intros H%tmp_name_inj. specialize (Hj n _ eq_refl). lia.
    + destruct (Hf q Hfin) as [(j & H1 & H2 & H3 & H4)|H]; [|by right]. left. exists j. split_and!; [done|done|intros j' q' [= <- <-]; by eapply H3|apply H4..].
  - destruct del as [|q del]; [done|]. destruct Hd as [[Hr|[Hr|(L & H1 & H2 & fs & info & H3 & H4)]] Hds]; (split; [|done]); [by left|by right; left|].
    right. right. exists L. split_and!; [by apply Hpub|done|]. exists fs, info. by rewrite Hst.
Qed.

(** The rename makes a complete directory the newest step. *)
Lemma published_rename d n fs k : published (<[step_name n := NDir fs]> (delete (tmp_step_name n) d)) k <-> k = n \/ published d k.
Proof.
  unfold published. destruct (decide (k = n)) as [->|Hne]; [rewrite lookup_insert_eq; naive_solver|].
  rewrite lookup_insert_ne by (by intros H%step_name_inj). rewrite lookup_delete_ne by apply tmp_ne_step. naive_solver.
Qed.

Lemma inv_rename cfg d n fs sav fin p del err last saves l : inv cfg (mkManager d sav (Some p) del err last saves) -> before d n -> last = Some l -> (n <= l)%nat ->
  (forall k q, sav = Some (k, q) -> (n < k)%nat) -> complete saves n (Some (NDir fs)) -> fin = Ret tt \/ (exists e, fin = Throw e) ->
  inv cfg (mkManager (<[step_name n := NDir fs]> (delete (tmp_step_name n) d)) sav (Some fin) del err last saves).
Proof.
  intros [Hc Hn Hl Hs _ Hd] Hb -> Hle Hsav Hcomp Hfin. cbn [m_store m_saving m_finalize m_deletes m_last m_saves] in *. set (d' := <[_ := _]> _).
  assert (forall name, name <> step_name n -> name <> tmp_step_name n -> d' !! name = d !! name) as Hfr by (intros name H1 H2; unfold d'; by rewrite lookup_insert_ne, lookup_delete_ne by done).
  assert (forall k, published d' k <-> k = n \/ published d k) as Hpub by (intros k; apply published_rename).
  constructor; cbn [m_store m_saving m_finalize m_deletes m_last m_saves].
  - intros name j Hsome Hp. destruct (decide (name = step_name n)) as [->|Hne].
    + rewrite parse_step_name in Hp. injection Hp as <-. split; [done|]. exists fs. unfold d'. by rewrite lookup_insert_eq.
    + assert (name <> tmp_step_name n) by (intros ->; by eapply tmp_not_step). rewrite Hfr in * by done. by apply Hc.
  - intros L [HL Hmax]. assert (L = n) as ->. { apply Hpub in HL as [->|HL]; [done|]. apply Hb in HL. assert (n <= L)%nat by (apply Hmax, Hpub; by left). lia. }
    unfold d'. by rewrite lookup_insert_eq.
  - intros j [->|Hj]%Hpub; [by exists l|by apply Hl].
  - intros j q Hj. destruct (Hs j q Hj) as (H1 & H2 & H3). split_and!; [done| |].
    + intros k [->|Hk]%Hpub; [by eapply Hsav|by apply H2].
    + rewrite Hfr; [done|apply tmp_ne_step|]. intros ->%tmp_name_inj. specialize (Hsav n q Hj). lia.
  - intros q [= <-]. right. done.
  - destruct del as [|q del]; [done|]. destruct Hd as [[Hr|[Hr|(L & H1 & H2 & gs & info & H3 & H4)]] Hds]; (split; [|done]); [by left|by right; left|].
    right. right. exists L. split_and!; [apply Hpub; by right|done|]. exists gs, info. rewrite Hfr; [done| |by apply not_eq_sym, tmp_ne_step]. intros ->%step_name_inj. apply Hb in H1. lia.
Qed.

Lemma partial_alter_id {A} (m : gmap string A) k : partial_alter (fun _ => m !! k) k m = m.
Proof. apply map_eq. intros j. destruct (decide (j = k)) as [->|Hne]; [apply lookup_partial_alter_eq|by apply lookup_partial_alter_ne]. Qed.

Lemma inv_finalize cfg d d' sav p p' del err last saves : inv cfg (mkManager d sav (Some p) del err last saves) -> advance p d = Some (d', p') ->
  inv cfg (mkManager d' sav (Some p') del err last saves).
Proof.
  intros Hi Ha. pose proof (i_finalize _ _ Hi p eq_refl) as Hf. cbn [m_store m_saving m_last m_saves] in Hf.
  destruct Hf as [(n & Hb & (l & Hlast & Hle) & Hsav & Hcomp & Hp)|[->|[e ->]]]; [|done..]. assert (~ published d n) as Hnp by (intros H%Hb; lia).
  assert (d !! step_name n = None) as Hnone by (by apply eq_None_not_Some). destruct Hp as [->| ->].
  - rewrite publish_tmp in Ha. cbn [advance mbind prog_bind call of_res exec exec_op snd fst] in Ha. injection Ha as <- <-.
    rewrite Hnone, <- Hnone, partial_alter_id, Hnone, bool_decide_eq_false_2 by (by intros []). cbn [of_res prog_bind].
    destruct Hi as [? ? ? ? ? ?]. constructor; try done. cbn. intros q [= <-]. left. exists n. split_and!; [done|by exists l|done|done|by right].
  - destruct Hcomp as (fs & info & Htmp & Hin & Hinfo). cbn [advance call exec] in Ha. rewrite Htmp, Hnone in Ha. injection Ha as <- <-.
    eapply inv_rename; [exact Hi|done|done|done|done| |by left]. by exists fs, info.
Qed.

Lemma saved_info info config extra : "training_info.json" ∉ extra.*1 -> saved_files info config extra !! "training_info.json" = Some (Ok (VDict info)).
Proof.
  unfold saved_files. intros Hx. assert (forall fs : files, fs !! "training_info.json" = Some (Ok (VDict info)) ->
    foldl (fun fs fc => <[fc.1 := fc.2]> fs) fs extra !! "training_info.json" = Some (Ok (VDict info))) as H.
  { induction extra as [|[f c] extra IH]; intros fs Hfs; [done|]. cbn [foldl fst snd]. rewrite fmap_cons in Hx. apply not_elem_of_cons in Hx as [Hne Hx].
    apply IH; [done|]. by rewrite lookup_insert_ne by (by apply not_eq_sym). }
  apply H. destruct config as [c|]; [rewrite lookup_insert_ne by done|]; apply lookup_singleton_eq.
Qed.

Lemma inv_start cfg d fin del err last saves n info config extra : inv cfg (mkManager d None fin del err last saves) -> above last n -> "training_info.json" ∉ extra.*1 ->
  inv cfg (mkManager d (Some (n, @save LocalStorage n info config extra)) fin del err (Some n) ((n, saved_files info config extra) :: saves)).
Proof.
  intros [Hc Hn Hl Hs Hf Hd] Ha Hx. cbn [m_store m_saving m_finalize m_deletes m_last m_saves] in *. set (saves' := _ :: saves). assert (saves ⊆ saves') as Hsub by (intros z Hz; by right).
  assert (before d n) as Hb by (intros k Hk; destruct (Hl k Hk) as (l & -> & Hle); cbn in Ha; lia).
  constructor; cbn [m_store m_saving m_finalize m_deletes m_last m_saves].
  - done.
  - intros L HL. by apply (complete_more saves), Hn.
  - intros k Hk. exists n. split; [done|]. apply Hb in Hk. lia.
  - intros k q [= <- <-]. split_and!; [done|done|]. eapply alone_mono; [|apply alone_save]. intros path e [-> ->]. split; [done|]. eexists _, info. split_and!; [done|by left|by apply saved_info].
  - intros q Hq. destruct (Hf q Hq) as [(j & H1 & (l & -> & Hle) & _ & H4 & H5)|H]; [|by right]. left. cbn in Ha. exists j. split_and!; [done|exists n; split; [done|lia]| | |done].
    + intros k q' [= <- <-]. lia.
    + by apply (complete_more saves).
  - done.
Qed.

(** ** Every step *)

Definition keeps_newest (d d' : dirmap) : Prop := forall n, newest d n -> published d' n.

Lemma delete_keeps cfg d d' p p' : removing cfg d p -> advance p d = Some (d', p') -> keeps_newest d d'.
Proof.
  intros [->|[->|(L & HL & Hsp & _)]] Ha n [Hn Hmax]; [by injection Ha as <- <-|done|]. destruct p as [a|e|X c k]; [done..|]. injection Ha as <- <-. destruct Hsp as [Hp _].
  unfold published. by rewrite (removed_keeps L d _ (exec_removes L c d Hp)) by (by apply Hmax).
Qed.
Lemma save_keeps {A} d d' name (Q : A -> option node -> Prop) p p' e n : name = tmp_step_name n -> alone name Q p e -> advance p d = Some (d', p') -> keeps_newest d d'.
Proof.
  intros -> Hal Ha k [Hk _]. destruct p as [a|x|X c K]; [done..|]. injection Ha as <- <-. destruct Hal as [Ho _]. unfold published. rewrite (only_frame c (tmp_step_name n)); [done|done|].
  apply not_eq_sym, tmp_ne_step.
Qed.
Lemma finalize_keeps d d' sav last saves p p' : finalizing d sav last saves p -> advance p d = Some (d', p') -> keeps_newest d d'.
Proof.
  intros [(n & Hb & _ & _ & (fs & info & Htmp & _) & Hp)|[->|[e ->]]] Ha; [|done..]. assert (d !! step_name n = None) as Hnone.
  { apply eq_None_not_Some. intros H%Hb. lia. }
  destruct Hp as [->| ->].
  - rewrite publish_tmp in Ha. cbn [advance mbind prog_bind call of_res exec exec_op snd fst] in Ha. injection Ha as <- _. rewrite partial_alter_id. by intros k [Hk _].
  - cbn [advance call exec] in Ha. rewrite Htmp, Hnone in Ha. injection Ha as <- <-. intros k [Hk _]. apply published_rename. by right.
Qed.

Lemma inv_step cfg m m' : @mstep order LocalStorage cfg m m' -> inv cfg m -> inv cfg m' /\ keeps_newest (m_store m) (m_store m').
Proof.
  assert (forall d : dirmap, keeps_newest d d) as Hsame by (by intros d n [Hn _]).
  destruct 1 as [d fin del err last saves n info config extra Ha Hx|d n e fin del err last saves|d n X c k fin del err last saves d' r He|d n path del last saves waited
    |d sav X c k del err last saves d' r He|d sav del err last saves|d sav e del err last saves|d sav del last saves|d sav fin X c k del err last saves d' r He
    |d sav fin del err last saves|d sav fin e del err last saves|d sav fin del err last saves steps Hr]; intros Hi; cbn [m_store]; (split; [|try apply Hsame]).
  - by eapply inv_start.
  - destruct Hi as [? ? ? ? Hf ?]. constructor; try done. cbn. intros p Hp. destruct (Hf p Hp) as [(j & ? & ? & _ & ? & ?)|H]; [left; exists j; by split_and!|by right].
  - apply (inv_save cfg d _ _ _ _ _ _ _ _ _ Hi). cbn. by rewrite He.
  - destruct (i_saving _ _ Hi n _ eq_refl) as (_ & _ & H3). eapply save_keeps; [done|exact H3|]. cbn. by rewrite He.
  - destruct Hi as [? ? ? Hs _ ?]. destruct (Hs n _ eq_refl) as (Hlast & Hb & -> & Hcomp). constructor; try done. cbn in *. intros p [= <-]. destruct waited; [|right; right; by eexists].
    left. exists n. split_and!; [done|by exists n|done|done|by left].
  - apply (inv_finalize cfg d _ _ _ _ _ _ _ _ Hi). cbn. by rewrite He.
  - eapply finalize_keeps; [exact (i_finalize _ _ Hi _ eq_refl)|]. cbn. by rewrite He.
  - destruct Hi as [? ? ? ? _ Hd]. constructor; try done. cbn in *. destruct del as [|p del]; cbn; [split; [by left|done]|]. destruct Hd as [? ?]. split; [done|]. apply Forall_app. split; [done|by repeat constructor].
  - destruct Hi as [? ? ? ? _ ?]. by constructor.
  - destruct Hi. by constructor.
  - apply (inv_delete cfg d _ _ _ _ _ _ _ _ _ Hi). cbn. by rewrite He.
  - destruct (i_deletes _ _ Hi) as [Hrm _]. eapply delete_keeps; [exact Hrm|]. cbn. by rewrite He.
  - destruct Hi as [? ? ? ? ? [_ Hd]]. constructor; try done. cbn in *. destruct del as [|p del]; [done|]. apply Forall_cons in Hd as [-> Hd]. split; [by left|done].
  - destruct Hi as [? ? ? ? ? [_ Hd]]. constructor; try done. cbn in *. destruct del as [|p del]; [done|]. apply Forall_cons in Hd as [-> Hd]. split; [by left|done].
  - destruct Hi as [Hc Hn _ _ _ _]. constructor; try done. cbn in *. intros n Hpub. pose proof (last_of_steps d steps Hc Hr) as Hl. destruct (list.last steps) as [[L name]|]; [|by destruct (Hl n)].
    destruct Hl as [[_ Hmax] _]. exists L. split; [done|]. by apply Hmax.
Qed.

Lemma inv_initial cfg : inv cfg initial.
Proof.
  assert (forall n, ~ published ∅ n) as Hn by (intros n [e He]; by rewrite lookup_empty in He). constructor; cbn.
  - intros name n [e He]. by rewrite lookup_empty in He.
  - intros L [HL _]. by destruct (Hn L).
  - intros n H. by destruct (Hn n).
  - done.
  - done.
  - done.
Qed.

Lemma inv_steps cfg m m' : rtc (@mstep order LocalStorage cfg) m m' -> inv cfg m -> inv cfg m' /\ forall n, newest (m_store m) n -> exists n', newest (m_store m') n' /\ (n <= n')%nat.
Proof.
  induction 1 as [m|m1 m2 m3 H12 _ IH]; intros Hi; [split; [done|]; intros n Hn; by exists n|]. destruct (inv_step _ _ _ H12 Hi) as [Hi2 Hk]. destruct (IH Hi2) as [Hi3 H3]. split; [done|].
  intros n Hn. destruct (newest_or_none _ (i_canonical _ _ Hi2)) as [[n2 Hn2]|Hnone]; [|by destruct (Hnone n (Hk n Hn))]. destruct (H3 n2 Hn2) as (n3 & Hn3 & Hle). exists n3. split; [done|].
  assert (n <= n2)%nat by (apply Hn2, Hk, Hn). lia.
Qed.

(** What a run can resume from: nothing if nothing was ever published; otherwise the
    newest step, holding what the trainer saved. *)
Definition resumable (m : Manager) (found : option string) : Prop :=
  match found with
  | None => forall n, ~ published (m_store m) n
  | Some name => exists n fs, newest (m_store m) n /\ name = step_name n /\ m_store m !! name = Some (NDir fs) /\ (n, fs) ∈ m_saves m
  end.

(** C1 The newest checkpoint survives.  Let the trainer save, the finalizer publish
    and the remover remove, each a call of the file system at a time in any
    interleaving, with failing waits and with crashes at any point, after which a run
    resumes from what it finds.  At every moment the latest path is that of a
    complete checkpoint, with the files the trainer saved for that step, unless
    nothing was ever published; and the newest step never goes back. *)
Theorem newest_checkpoint_survives cfg m : @reachable order LocalStorage cfg m ->
  (exists found, run order (@get_latest_checkpoint_path LocalStorage) (m_store m) = (m_store m, Ok found) /\ resumable m found)
  /\ forall m', rtc (@mstep order LocalStorage cfg) m m' -> forall n, newest (m_store m) n -> exists n', newest (m_store m') n' /\ (n <= n')%nat.
Proof.
  intros Hr. destruct (inv_steps cfg _ _ Hr (inv_initial cfg)) as [Hi _]. split; [|intros m' Hm'; exact (proj2 (inv_steps cfg _ _ Hm' Hi))].
  destruct (published_steps_spec (m_store m)) as (steps & Hrun & _). pose proof (last_of_steps _ _ (i_canonical _ _ Hi) Hrun) as Hl.
  exists (snd <$> last steps). split; [cbn in *; by injection Hrun as <-|]. destruct (last steps) as [[n name]|]; [|done]. destruct Hl as [Hn ->].
  destruct (i_newest _ _ Hi n Hn) as (fs & info & Hfs & Hin & _). by exists n, fs.
Qed.

(** Threads that run alone. *)
Lemma save_runs cfg n p : forall d d' path fin del err last saves, run order p d = (d', Ok path) ->
  rtc (@mstep order LocalStorage cfg) (mkManager d (Some (n, p)) fin del err last saves) (mkManager d' (Some (n, Ret path)) fin del err last saves).
Proof.
  induction p as [a|e|X c k IH]; intros d d' path fin del err last saves H; cbn [run] in H; [by injection H as <- <-|done|]. destruct (exec order c d) as [d1 r] eqn:E.
  eapply rtc_l; [by eapply step_save_call|]. by apply IH.
Qed.
Lemma finalize_runs cfg p : forall d d' sav del err last saves, run order p d = (d', Ok tt) ->
  rtc (@mstep order LocalStorage cfg) (mkManager d sav (Some p) del err last saves) (mkManager d' sav (Some (Ret tt)) del err last saves).
Proof.
  induction p as [[]|e|X c k IH]; intros d d' sav del err last saves H; cbn [run] in H; [by injection H as <-|done|]. destruct (exec order c d) as [d1 r] eqn:E.
  eapply rtc_l; [by eapply step_finalize_call|]. by apply IH.
Qed.
End props.

(** Step 7 is saved and published, and a save of step 8 has begun. *)
Module Demo.
Definition cfg : Config := mkConfig (Some "val:accuracy") true (Some 1%Z) 5%Z (Some 1%Z).
Definition info : list (PyVal * PyVal) := [(VStr "val:accuracy", VFloat (Fin 3 (-2)))].
Definition extra : list (string * content) := [("policy/weights/model.pt", Ok VNone)].
Definition fs : gmap string content := saved_files info None extra.
Definition after : Manager := mkManager {["step_7" := NDir fs]} (Some (8%nat, @save LocalStorage 8 info None extra)) (Some (Ret tt)) [] false (Some 8%nat) [(8%nat, fs); (7%nat, fs)].
Lemma reached : @reachable (fun l => l) LocalStorage cfg after.
Proof.
  eapply rtc_l; [by apply (step_save _ _ _ _ _ _ _ _ 7 info None extra); [|apply (bool_decide_unpack _)]|].
  etransitivity; [apply (save_runs (fun l => l) cfg 7 _ ∅ {["tmp_step_7" := NDir fs]} "tmp_step_7"); by vm_compute|].
  eapply rtc_l; [apply (step_begin_finalization _ _ _ _ _ _ _ _ true)|].
  etransitivity; [apply (finalize_runs (fun l => l) cfg _ _ {["step_7" := NDir fs]}); by vm_compute|].
  apply rtc_once. apply (step_save _ _ _ _ _ _ _ _ 8 info None extra); [cbn; lia|by apply (bool_decide_unpack _)].
Qed.
End Demo.

Lemma newest_checkpoint_survives_witness : exists found, run (fun l => l) (@get_latest_checkpoint_path LocalStorage) (m_store Demo.after) = (m_store Demo.after, Ok found) /\ resumable Demo.after found.
Proof. exact (proj1 (newest_checkpoint_survives (fun l => l) (fun l => reflexivity l) Demo.cfg Demo.after Demo.reached)). Defined.
