(* ===== verification/CheckpointRetention.v ===== *)
(** * Which checkpoints are kept

    The rules of retention of [Checkpoints], without its sorts and slices, and that
    the best checkpoint is kept. *)

From S2P Require Import Prelude.
From S2P Require Import PyVal.
From S2P Require Import PyStr.
From S2P Require Import StateErr.
From S2P Require Import SnapshotDir.
From S2P Require Import Checkpoints.
From S2P Require Import CheckpointProps.
#[local] Open Scope string_scope.
#[local] Open Scope Z_scope.

(** ** Floats in order *)

(** NaNs are put below everything; the code's comparison agrees elsewhere. *)
Definition fclass (x : pyfloat) : Z := match x with NaN => -2 | Inf true => -1 | Fin _ _ => 0 | Inf false => 1 end.
Definition fscaled (E : Z) (x : pyfloat) : Z := match x with Fin m e => m * 2 ^ (e - E) | _ => 0 end.
Definition fexp (x : pyfloat) : Z := match x with Fin _ e => e | _ => 0 end.
Definition fkey (E : Z) (x : pyfloat) : Z * Z := (fclass x, fscaled E x).
Definition lex_ltb (a b : Z * Z) : bool := (a.1 <? b.1) || ((a.1 =? b.1) && (a.2 <? b.2)).

Lemma scaled_at E E' x y : E <= E' -> E' <= fexp x -> E' <= fexp y -> fclass x = 0 -> fclass y = 0 ->
  (fscaled E x <? fscaled E y) = (fscaled E' x <? fscaled E' y) /\ (fscaled E x =? fscaled E y) = (fscaled E' x =? fscaled E' y).
Proof.
  destruct x as [m e|[]|], y as [m' e'|[]|]; try (intros; discriminate). cbn [fscaled fexp]. intros H1 H2 H3 _ _.
  assert (forall a b, E' <= b -> a * 2 ^ (b - E) = a * 2 ^ (b - E') * 2 ^ (E' - E)) as Hp.
  { intros a b Hb. rewrite <- Z.mul_assoc, <- Z.pow_add_r by lia. do 2 f_equal. lia. }
  rewrite (Hp m e), (Hp m' e') by done. assert (0 < 2 ^ (E' - E)) by (apply Z.pow_pos_nonneg; lia). split.
  - apply eq_true_iff_eq. rewrite !Z.ltb_lt. split; [apply Z.mul_lt_mono_pos_r; lia|intros; by apply Z.mul_lt_mono_pos_r].
  - apply eq_true_iff_eq. rewrite !Z.eqb_eq. split; [intros; by eapply Z.mul_cancel_r; [|eassumption]; lia|by intros ->].
Qed.

Lemma float_cmp E x y : E <= fexp x -> E <= fexp y -> x <> NaN -> y <> NaN ->
  float_ltb x y = lex_ltb (fkey E x) (fkey E y) /\ float_eqb x y = bool_decide (fkey E x = fkey E y).
Proof.
  intros Hx Hy Hnx Hny. destruct x as [m e|[]|], y as [m' e'|[]|]; try (by destruct Hnx); try (by destruct Hny); try (by split). cbn [fexp] in *.
  destruct (scaled_at E (Z.min e e') (Fin m e) (Fin m' e')) as [H1 H2]; [lia|cbn; lia|cbn; lia|reflexivity|reflexivity|]. cbn [fscaled] in H1, H2. cbn [float_ltb float_eqb].
  split; [unfold lex_ltb, fkey; cbn; by rewrite <- H1|]. unfold fkey. cbn. apply eq_true_iff_eq. rewrite bool_decide_eq_true, <- H2, Z.eqb_eq. split; [by intros ->|by intros [= ->]].
Qed.

(** ** Sorting *)

Lemma sort_insert_ext {A} (f g : A -> A -> bool) x l : Forall (fun y => f y x = g y x) l -> sort_insert f x l = sort_insert g x l.
Proof. induction 1 as [|y l Hy _ IH]; [done|]. cbn. by rewrite Hy, IH. Qed.
Lemma py_sort_ext {A} (P : A -> Prop) (f g : A -> A -> bool) l : (forall x y, P x -> P y -> f x y = g x y) -> Forall P l -> py_sort f l = py_sort g l.
Proof.
  intros Hfg. induction 1 as [|x l Hx Hl IH]; [done|]. cbn [py_sort]. rewrite IH. apply sort_insert_ext. rewrite py_sort_perm.
  eapply Forall_impl; [exact Hl|]. intros y Hy. by apply Hfg.
Qed.
Lemma sort_insert_fmap {A B} (h : A -> B) (f : B -> B -> bool) x l : sort_insert f (h x) (h <$> l) = h <$> sort_insert (fun a b => f (h a) (h b)) x l.
Proof. induction l as [|y l IH]; [done|]. rewrite fmap_cons. cbn [sort_insert]. destruct (f (h y) (h x)); [|done]. by rewrite fmap_cons, <- IH. Qed.
Lemma py_sort_fmap {A B} (h : A -> B) (f : B -> B -> bool) l : py_sort f (h <$> l) = h <$> py_sort (fun a b => f (h a) (h b)) l.
Proof. induction l as [|x l IH]; [done|]. rewrite fmap_cons. cbn [py_sort]. by rewrite IH, sort_insert_fmap. Qed.
Lemma sort_by_fmap {A B} (h : A -> B) (f : B -> B -> bool) descending l : sort_by f descending (h <$> l) = h <$> sort_by (fun a b => f (h a) (h b)) descending l.
Proof. destruct descending; cbn; [|apply py_sort_fmap]. by rewrite <- fmap_reverse, py_sort_fmap, fmap_reverse. Qed.

(** A sort of things that differ puts the better first. *)
Lemma sort_by_better {A} (ltb g : A -> A -> bool) descending l (P : A -> Prop) : Forall P l -> (forall x y, P x -> P y -> ltb x y = g x y) ->
  (forall x y z, g y x = false -> g z y = false -> g z x = false) -> (forall x y, g x y = true -> g y x = false) ->
  sort_by ltb descending l ≡ₚ l /\ StronglySorted (fun a b => (if descending then ltb a b else ltb b a) = false) (sort_by ltb descending l).
Proof.
  intros HP Heq Htr Has. assert (forall l', l' ≡ₚ l -> StronglySorted (fun a b => ltb b a = false) (py_sort ltb l')) as Hs.
  { intros l' Hp. assert (Forall P l') as HP' by (by rewrite Hp). rewrite (py_sort_ext P ltb g l' Heq HP').
    assert (Forall P (py_sort g l')) as HPs by (by rewrite py_sort_perm). pose proof (py_sort_sorted g Htr Has l') as Hsort.
    induction Hsort as [|x l0 _ IH Hx]; [constructor|]. apply Forall_cons in HPs as [Hpx Hps]. constructor; [by apply IH|].
    apply Forall_forall. intros y Hy. rewrite Forall_forall in Hx, Hps. rewrite Heq; [by apply Hx|by apply Hps|done]. }
  destruct descending; cbn [sort_by].
  - split; [by rewrite reverse_Permutation, py_sort_perm, reverse_Permutation|]. apply StronglySorted_reverse, Hs. by rewrite reverse_Permutation.
  - split; [apply py_sort_perm|by apply Hs].
Qed.

(** The first [k] of the best are those that fewer than [k] are better than. *)
Lemma top_k {A} (better : A -> A -> bool) s k x : StronglySorted (fun a b => better a b = true) s ->
  (forall a b, a ∈ s -> b ∈ s -> better a b = true -> better b a = false) -> (forall a, a ∈ s -> better a a = false) -> x ∈ s ->
  x ∈ take k s <-> (length (List.filter (fun y => better y x) s) < k)%nat.
Proof.
  intros Hs. revert k. induction Hs as [|y s Hs IH Hy]; intros k Has Hir Hx; [by apply elem_of_nil in Hx|]. rewrite Forall_forall in Hy.
  assert (forall a b, a ∈ s -> b ∈ s -> better a b = true -> better b a = false) as Has' by (intros a b Ha Hb; by apply Has; right).
  assert (forall a, a ∈ s -> better a a = false) as Hir' by (intros a Ha; by apply Hir; right). cbn [List.filter]. apply elem_of_cons in Hx as [->|Hx].
  - rewrite Hir by left. rewrite (filter_none (fun z => better z y) s).
    + cbn. destruct k as [|k]; cbn; [split; [set_solver|lia]|]. split; [lia|by left].
    + intros z Hz. apply Has; [by left|by right|by apply Hy].
  - rewrite Hy by done. destruct k as [|k]; [cbn; split; [set_solver|lia]|]. cbn [take length]. rewrite elem_of_cons. rewrite <- Nat.succ_lt_mono, <- IH by done.
    split; [|by right]. intros [->|H]; [|done]. specialize (Hy y Hx). by rewrite (Hir y) in Hy by left.
Qed.

(** ** The rules *)

(** The metric of a checkpoint, the worst if it has none. *)
Definition metric_value (higher : bool) (metric : string) (c : Checkpoint) : pyfloat := match metric_or metric (Inf higher) (ck_info c) with Ok x => x | Raise _ => NaN end.
(** Better: by metric, then by recency. *)
Definition better (cfg : Config) (a b : Checkpoint) : bool :=
  match metric_name cfg with
  | None => (ck_step b <? ck_step a)%nat
  | Some m =>
      let x := metric_value (higher_is_better cfg) m a in
      let y := metric_value (higher_is_better cfg) m b in
      if float_eqb x y then (ck_step b <? ck_step a)%nat else if higher_is_better cfg then float_ltb y x else float_ltb x y
  end.
Definition periodic (cfg : Config) (c : Checkpoint) : bool := Z.of_nat (ck_step c) mod save_period cfg =? 0.
(** How many of [l] are better, or newer. *)
Definition rank (cfg : Config) (l : list Checkpoint) (c : Checkpoint) : nat := length (List.filter (fun b => better cfg b c) l).
Definition newer (l : list Checkpoint) (c : Checkpoint) : nat := length (List.filter (fun b => (ck_step c <? ck_step b)%nat) l).

Definition kept (cfg : Config) (h : list Checkpoint) (c : Checkpoint) : Prop :=
  ck_step c = latest_step h
  \/ (periodic cfg c = true /\ match keep_top_k cfg with Some k => Z.of_nat (rank cfg (List.filter (periodic cfg) h) c) < k | None => True end)
  \/ match ft_keep_latest_k cfg with Some k => Z.of_nat (newer h c) < k | None => False end.

#[export] Instance kept_dec cfg h c : Decision (kept cfg h c).
Proof. unfold kept. apply or_dec; [apply _|apply or_dec]; [apply and_dec; [apply _|]|]; case_match; apply _. Defined.

(** What the rules rely on, of a history: as [rules_ok] below, and steps that differ. *)
Record sound (cfg : Config) (h : list Checkpoint) : Prop := {
  so_period : save_period cfg <> 0;
  so_top : forall k, keep_top_k cfg = Some k -> 0 <= k;
  so_latest : forall k, ft_keep_latest_k cfg = Some k -> 0 <= k;
  so_metrics : forall m c, metric_name cfg = Some m -> c ∈ h -> exists x, metric_or m (Inf (higher_is_better cfg)) (ck_info c) = Ok x /\ x <> NaN;
  so_steps : NoDup (ck_step <$> h) }.

Lemma py_take_take {A} k (l : list A) : 0 <= k -> py_take k l = take (Z.to_nat k) l.
Proof.
  intros Hk. unfold py_take, py_slice. assert (py_bound (length l) 0 = 0%nat) as -> by (apply (py_bound_nat _ 0); lia). unfold py_bound. rewrite (proj2 (Z.ltb_ge k 0)) by lia.
  rewrite Nat.sub_0_r. cbn [drop]. destruct (Z.leb_spec k (Z.of_nat (length l))); [f_equal; lia|].
  rewrite (firstn_all2 l (n := Z.to_nat (Z.min _ _))), (firstn_all2 l (n := Z.to_nat k)) by lia. done.
Qed.

Lemma same_step h a b : NoDup (ck_step <$> h) -> a ∈ h -> b ∈ h -> ck_step a = ck_step b -> a = b.
Proof.
  intros Hn (i & Hi)%list_elem_of_lookup_1 (j & Hj)%list_elem_of_lookup_1 He. assert (i = j) as ->; [|congruence].
  eapply NoDup_lookup; [exact Hn| |]; rewrite list_lookup_fmap; [by rewrite Hi|rewrite Hj; cbn; by rewrite He].
Qed.

Definition key_of (higher : bool) (metric : string) (c : Checkpoint) : pyfloat * Z :=
  (metric_value higher metric c, if higher then Z.of_nat (ck_step c) else - Z.of_nat (ck_step c)).
Definition triple_ltb (a b : Z * Z * Z) : bool := (a.1.1 <? b.1.1) || ((a.1.1 =? b.1.1) && ((a.1.2 <? b.1.2) || ((a.1.2 =? b.1.2) && (a.2 <? b.2)))).
Definition triple_of (E : Z) (k : pyfloat * Z) : Z * Z * Z := (fkey E k.1, k.2).

Lemma key_triple E a b : E <= fexp a.1 -> E <= fexp b.1 -> a.1 <> NaN -> b.1 <> NaN -> key_ltb a b = triple_ltb (triple_of E a) (triple_of E b).
Proof.
  intros H1 H2 H3 H4. unfold key_ltb, triple_ltb, triple_of. destruct (float_cmp E a.1 b.1 H1 H2 H3 H4) as [-> ->]. unfold lex_ltb, fkey. cbn [fst snd].
  case_bool_decide as He; [injection He as -> ->; lia|]. destruct (Z.eqb_spec (fclass a.1) (fclass b.1)) as [Hc|]; [|cbn; by rewrite !orb_false_r].
  destruct (Z.eqb_spec (fscaled E a.1) (fscaled E b.1)) as [Hs|]; [by rewrite Hc, Hs in He|]. cbn. by rewrite orb_false_r.
Qed.

Lemma some_exponent (l : list pyfloat) : exists E, Forall (fun x => E <= fexp x) l.
Proof.
  induction l as [|x l [E IH]]; [by exists 0|]. exists (Z.min (fexp x) E). constructor; [lia|]. eapply Forall_impl; [exact IH|]. cbn. lia.
Qed.

Lemma better_key cfg m a b : metric_name cfg = Some m -> let key := key_of (higher_is_better cfg) m in
  metric_value (higher_is_better cfg) m a <> NaN -> metric_value (higher_is_better cfg) m b <> NaN ->
  better cfg a b = if higher_is_better cfg then key_ltb (key b) (key a) else key_ltb (key a) (key b).
Proof.
  intros Hm key Ha Hb. unfold better. rewrite Hm. unfold key, key_of, key_ltb. cbn [fst snd]. set (x := metric_value _ m a) in *. set (y := metric_value _ m b) in *.
  destruct (higher_is_better cfg).
  - assert (float_eqb y x = float_eqb x y) as ->.
    { destruct (some_exponent [x; y]) as [E HE]. apply Forall_cons in HE as [H1 [H2 _]%Forall_cons]. rewrite (proj2 (float_cmp E x y H1 H2 Ha Hb)), (proj2 (float_cmp E y x H2 H1 Hb Ha)).
      apply bool_decide_ext. split; by intros ->. }
    destruct (float_eqb x y); [|done]. apply eq_true_iff_eq. rewrite Nat.ltb_lt, Z.ltb_lt. lia.
  - destruct (float_eqb x y); [|done]. apply eq_true_iff_eq. rewrite Nat.ltb_lt, Z.ltb_lt. lia.
Qed.

(** The best first. *)
Lemma sort_by_metric_spec cfg h m l : sound cfg h -> metric_name cfg = Some m -> l ⊆ h -> NoDup (ck_step <$> l) ->
  exists s, sort_by_metric (higher_is_better cfg) m l = Ok s /\ s ≡ₚ l /\ StronglySorted (fun a b => better cfg a b = true) s.
Proof.
  intros [_ _ _ Hmet Hst] Hm Hsub Hnd. set (higher := higher_is_better cfg) in *. set (key := key_of higher m).
  assert (forall c, c ∈ l -> metric_key higher m c = Ok (key c) /\ (key c).1 <> NaN) as Hkey.
  { intros c Hc. destruct (Hmet m c Hm (Hsub c Hc)) as (x & Hx & Hn). unfold metric_key, key, key_of, metric_value. cbn [fst]. rewrite Hx. by split. }
  assert (traverse (metric_key higher m) l = Ok (key <$> l)) as Hkeys.
  { apply traverse_Ok, Forall2_fmap_r, Forall_Forall2_diag, Forall_forall. intros c Hc. by apply Hkey. }
  unfold sort_by_metric. rewrite Hkeys. cbn [mbind res_bind]. eexists. split; [done|].
  assert (zip (key <$> l) l = (fun c => (key c, c)) <$> l) as -> by (clear; induction l as [|c l IH]; [done|]; rewrite !fmap_cons, <- IH; done).
  rewrite sort_by_fmap, <- list_fmap_compose. cbn [fst]. assert (forall l' : list Checkpoint, snd ∘ (fun c => (key c, c)) <$> l' = l') as -> by (intros l'; etrans; [|apply list_fmap_id]; done).
  destruct (some_exponent ((fun c => (key c).1) <$> l)) as [E HE]. rewrite Forall_fmap in HE. rewrite Forall_forall in HE. cbn [compose] in HE.
  assert (forall a b, a ∈ l -> b ∈ l -> key_ltb (key a) (key b) = triple_ltb (triple_of E (key a)) (triple_of E (key b))) as Htri.
  { intros a b Ha Hb. apply key_triple; [by apply HE|by apply HE|by apply Hkey|by apply Hkey]. }
  destruct (sort_by_better (fun a b => key_ltb (key a) (key b)) (fun a b => triple_ltb (triple_of E (key a)) (triple_of E (key b))) higher l (fun c => c ∈ l)) as [Hp Hs].
  - by apply Forall_forall.
  - exact Htri.
  - unfold triple_ltb. lia.
  - unfold triple_ltb. lia.
  - split; [exact Hp|]. assert (NoDup (ck_step <$> sort_by (fun a b => key_ltb (key a) (key b)) higher l)) as Hns by (by rewrite Hp).
    assert (forall c, c ∈ sort_by (fun a b => key_ltb (key a) (key b)) higher l -> c ∈ l) as Hin by (intros c; by rewrite Hp). clear Hp.
    induction Hs as [|a s _ IH Ha]; [constructor|]. rewrite fmap_cons in Hns. apply NoDup_cons in Hns as [Hna Hns]. constructor; [apply IH; [done|]; intros c Hc; apply Hin; by right|].
    apply Forall_forall. intros b Hb. rewrite Forall_forall in Ha. specialize (Ha b Hb). assert (a ∈ l) as Hal by (apply Hin; by left). assert (b ∈ l) as Hbl by (apply Hin; by right).
    assert (ck_step a <> ck_step b) as Hne by (intros He; apply Hna; rewrite He; by apply list_elem_of_fmap_2).
    rewrite (better_key cfg m) by (done || (by apply Hkey)). fold higher. fold key. cbn beta zeta in Ha. rewrite !Htri in * by done. unfold triple_ltb, triple_of in *.
    unfold key, key_of in *. cbn [fst snd] in *. destruct higher; lia.
Qed.

Lemma most_recent_spec l : NoDup (ck_step <$> l) -> most_recent l ≡ₚ l /\ StronglySorted (fun a b => (ck_step b <? ck_step a)%nat = true) (most_recent l).
Proof.
  intros Hnd. destruct (sort_by_better (fun a b => (ck_step a <? ck_step b)%nat) (fun a b => (ck_step a <? ck_step b)%nat) true l (fun _ => True)) as [Hp Hs].
  - by apply Forall_true.
  - done.
  - intros x y z. rewrite !Nat.ltb_ge. lia.
  - intros x y. rewrite Nat.ltb_lt, Nat.ltb_ge. lia.
  - split; [exact Hp|]. fold (most_recent l) in *. assert (NoDup (ck_step <$> most_recent l)) as Hns by (by rewrite Hp). clear Hp.
    induction Hs as [|a s _ IH Ha]; [constructor|]. rewrite fmap_cons in Hns. apply NoDup_cons in Hns as [Hna Hns]. constructor; [by apply IH|].
    apply Forall_forall. intros b Hb. rewrite Forall_forall in Ha. specialize (Ha b Hb). apply Nat.ltb_ge in Ha. apply Nat.ltb_lt.
    assert (ck_step a <> ck_step b) by (intros He; apply Hna; rewrite He; by apply list_elem_of_fmap_2). lia.
Qed.

(** [better] is an order of the history. *)
Lemma better_sound cfg h : sound cfg h -> (forall a b, a ∈ h -> b ∈ h -> better cfg a b = true -> better cfg b a = false) /\ (forall a, better cfg a a = false).
Proof.
  intros Hso. unfold better. destruct (metric_name cfg) as [m|] eqn:Em.
  - split.
    + intros a b Ha Hb. assert (forall c, c ∈ h -> metric_value (higher_is_better cfg) m c <> NaN) as Hn.
      { intros c Hc. destruct (so_metrics _ _ Hso m c Em Hc) as (x & Hx & Hne). unfold metric_value. by rewrite Hx. }
      set (x := metric_value _ m a). set (y := metric_value _ m b). destruct (some_exponent [x; y]) as [E HE]. apply Forall_cons in HE as [H1 [H2 _]%Forall_cons].
      destruct (float_cmp E x y H1 H2 (Hn a Ha) (Hn b Hb)) as [-> ->]. destruct (float_cmp E y x H2 H1 (Hn b Hb) (Hn a Ha)) as [-> ->].
      unfold lex_ltb, fkey. case_bool_decide as He.
      * rewrite bool_decide_eq_true_2 by done. rewrite Nat.ltb_lt, Nat.ltb_ge. lia.
      * rewrite bool_decide_eq_false_2 by (by intros ?). destruct (higher_is_better cfg); cbn [fst snd]; lia.
    + intros a. set (x := metric_value _ m a). assert (float_eqb x x = true \/ float_ltb x x = false) as Hx by (destruct x as [?e ?|[]|]; cbn; [left; apply Z.eqb_refl|by left|by left|by right]).
      destruct (float_eqb x x); [apply Nat.ltb_irrefl|]. destruct Hx as [|Hx]; [done|]. by destruct (higher_is_better cfg).
  - split; [intros a b _ _; rewrite Nat.ltb_lt, Nat.ltb_ge; lia|]. intros a. apply Nat.ltb_irrefl.
Qed.

Lemma sublist_steps P h : NoDup (ck_step <$> h) -> NoDup (ck_step <$> List.filter P h).
Proof. intros H. eapply sublist_NoDup; [exact H|]. apply fmap_sublist, filter_sublist. Qed.

Lemma filter_perm {A} (P : A -> bool) l l' : l ≡ₚ l' -> length (List.filter P l) = length (List.filter P l').
Proof. induction 1 as [|x l l' _ IH|x y l|l1 l2 l3 _ IH1 _ IH2]; cbn; [done| | |congruence]; repeat case_match; cbn; lia. Qed.

(** What the top of the periodic checkpoints is. *)
Lemma best_periodic_spec cfg h : sound cfg h -> let l := List.filter (periodic cfg) h in
  exists best, best_periodic cfg l = Ok best /\ forall c, c ∈ best <-> c ∈ l /\ match keep_top_k cfg with Some k => Z.of_nat (rank cfg l c) < k | None => True end.
Proof.
  intros Hso l. unfold best_periodic. destruct (keep_top_k cfg) as [k|] eqn:Ek; [|exists l; split; [done|]; intros c; naive_solver].
  assert (l ⊆ h) as Hsub by (intros c; unfold l; rewrite list_elem_of_In, filter_In, <- list_elem_of_In; by intros [? _]).
  assert (NoDup (ck_step <$> l)) as Hnd by (by apply sublist_steps, so_steps with cfg). destruct (better_sound cfg h Hso) as [Has Hir].
  assert (exists s, match metric_name cfg with None => Ok (most_recent l) | Some m => sort_by_metric (higher_is_better cfg) m l end = Ok s /\ s ≡ₚ l
    /\ StronglySorted (fun a b => better cfg a b = true) s) as (s & Hs & Hp & Hsort).
  { destruct (metric_name cfg) as [m|] eqn:Em; [by apply (sort_by_metric_spec cfg h)|]. destruct (most_recent_spec l Hnd) as [H1 H2]. exists (most_recent l). split_and!; [done|done|].
    eapply StronglySorted_weaken; [|exact H2]. intros a b. unfold better. by rewrite Em. }
  rewrite Hs. cbn [mbind res_bind]. exists (py_take k s). split; [done|]. intros c. pose proof (so_top _ _ Hso k Ek) as Hk. rewrite py_take_take by done.
  assert (c ∈ s -> c ∈ take (Z.to_nat k) s <-> (length (List.filter (fun y => better cfg y c) s) < Z.to_nat k)%nat) as Ht.
  { apply top_k; [done| |by intros a _]. intros a b Ha Hb. rewrite Hp in Ha, Hb. apply Has; by apply Hsub. }
  unfold rank. rewrite <- (filter_perm _ _ _ Hp), <- Hp. split.
  - intros Hc. assert (c ∈ s) as Hcs by (by eapply elem_of_sublist; [|apply sublist_take]). split; [done|]. apply Ht in Hc; [lia|done].
  - intros [Hc Hr]. apply Ht; [done|lia].
Qed.

Lemma newest_k_spec h k : NoDup (ck_step <$> h) -> 0 <= k -> forall c, c ∈ py_take k (most_recent h) <-> c ∈ h /\ Z.of_nat (newer h c) < k.
Proof.
  intros Hnd Hk c. destruct (most_recent_spec h Hnd) as [Hp Hs]. rewrite py_take_take by done.
  assert (c ∈ most_recent h -> c ∈ take (Z.to_nat k) (most_recent h) <-> (length (List.filter (fun y => (ck_step c <? ck_step y)%nat) (most_recent h)) < Z.to_nat k)%nat) as Ht.
  { apply (top_k (fun a b => (ck_step b <? ck_step a)%nat)); [done| |intros a _; apply Nat.ltb_irrefl]. intros a b _ _. rewrite Nat.ltb_lt, Nat.ltb_ge. lia. }
  unfold newer. rewrite <- (filter_perm _ _ _ Hp). assert (c ∈ h <-> c ∈ most_recent h) as -> by (by rewrite Hp). split.
  - intros Hc. assert (c ∈ most_recent h) as Hcs by (by eapply elem_of_sublist; [|apply sublist_take]). split; [done|]. apply Ht in Hc; [lia|done].
  - intros [Hc Hr]. apply Ht; [done|lia].
Qed.

(** The protected steps are the kept ones. *)
Lemma protected_spec cfg h : sound cfg h -> exists protected, protected_steps cfg true h = Ok protected /\ forall c, c ∈ h -> ck_step c ∈ protected <-> kept cfg h c.
Proof.
  intros Hso. destruct (best_periodic_spec cfg h Hso) as (best & Hb & Hbest). pose proof (so_steps _ _ Hso) as Hnd.
  unfold protected_steps, periodic_of. rewrite (proj2 (Z.eqb_neq _ _) (so_period _ _ Hso)). cbn [andb raise_if mbind res_bind].
  change (List.filter (fun c => Z.of_nat (ck_step c) mod save_period cfg =? 0) h) with (List.filter (periodic cfg) h). rewrite Hb. cbn [mbind res_bind]. eexists. split; [done|]. intros c Hc. unfold kept.
  assert (forall l : list Checkpoint, l ⊆ h -> ck_step c ∈ ck_step <$> l <-> c ∈ l) as Hst.
  { intros l Hl. rewrite list_elem_of_fmap. split; [|intros H; by exists c]. intros (b & He & Hin). by rewrite (same_step h c b Hnd Hc (Hl b Hin) He). }
  rewrite !elem_of_app, list_elem_of_singleton, (Hst best), Hbest by (intros b [Hin _]%Hbest; by apply list_elem_of_In, filter_In in Hin as [Hin _]; apply list_elem_of_In).
  rewrite list_filter_elem_of. destruct (ft_keep_latest_k cfg) as [k|] eqn:Ek.
  - pose proof (newest_k_spec h k Hnd (so_latest _ _ Hso k Ek)) as Hk. rewrite (Hst (py_take k (most_recent h))) by (by intros b [Hin _]%Hk). rewrite Hk. naive_solver.
  - assert (ck_step c ∈ ([] : list nat) <-> False) as -> by (by rewrite elem_of_nil). naive_solver.
Qed.

(** ** Running a removal *)

Section run.
Context (order : list string -> list string) (Horder : forall l, order l ≡ₚ l).
#[local] Abbreviation run := (run order).

Lemma run_bind {A B} (p : prog A) (f : A -> prog B) d : run (p ≫= f) d = match run p d with (d', Ok a) => run (f a) d' | (d', Raise e) => (d', Raise e) end.
Proof. revert d. induction p as [a|e|X c k IH]; intros d; [done|done|]. cbn. destruct (exec order c d) as [d' r]. apply IH. Qed.

Lemma run_call {X} (c : sys X) d : run (call c) d = exec order c d.
Proof. cbn. by destruct (exec order c d) as [d' [x|e]]. Qed.

(** The checkpoints of a store. *)
Definition info_of (d : dirmap) (name : string) : option PyVal :=
  match d !! name with Some (NDir fs) => match fs !! "training_info.json" with Some (Ok VNone) => None | Some (Ok v) => Some v | _ => None end | _ => None end.
Definition steps_of (d : dirmap) : list (nat * string) := py_sort step_ltb (parsed (order (elements (dom d)))).
Definition history (d : dirmap) : list Checkpoint := history_of (steps_of d) ((fun c => info_of d c.2) <$> steps_of d).
(** Training info can be read where it is. *)
Definition readable (d : dirmap) : Prop := forall n fs, d !! step_name n = Some (NDir fs) -> forall e, fs !! "training_info.json" <> Some (Raise e).

Lemma run_read_info d name n : canonical d -> readable d -> (n, name) ∈ steps_of d -> run (read_info name) d = (d, Ok (info_of d name)).
Proof.
  intros Hc Hr Hin. unfold steps_of in Hin. rewrite py_sort_perm, elem_of_parsed, (listed order Horder) in Hin. destruct Hin as [H1 H2]. destruct (Hc name n H1 H2) as [-> (fs & Hfs)].
  cbn [read_info Checkpoints.run exec]. unfold info_of. rewrite Hfs. cbn [exec_op]. rewrite <- Hfs, partial_alter_id. destruct (fs !! "training_info.json") as [[v|e]|] eqn:E; [|by destruct (Hr n fs Hfs e)|done].
  by destruct v.
Qed.

Lemma run_collect {A B} (l : list A) (f : A -> prog B) (g : A -> B) d : (forall x, x ∈ l -> run (f x) d = (d, Ok (g x))) -> run (collect l f) d = (d, Ok (g <$> l)).
Proof.
  induction l as [|x l IH]; intros H; [done|]. cbn [collect]. rewrite run_bind, (H x) by left. rewrite run_bind, IH by (intros y Hy; apply H; by right). done.
Qed.

Lemma run_history d : canonical d -> readable d -> run (@_load_checkpoint_history LocalStorage) d = (d, Ok (history d)).
Proof.
  intros Hc Hr. unfold _load_checkpoint_history. rewrite run_bind. change (run published_steps d) with (d, Ok (steps_of d)). cbn beta iota. rewrite run_bind.
  rewrite (run_collect _ _ (fun c => info_of d c.2)); [done|]. intros [n name] Hin. by apply (run_read_info d name n).
Qed.

Lemma elem_of_history_run d c : canonical d -> c ∈ history d <-> published d (ck_step c) /\ ck_path c = step_name (ck_step c) /\ info_of d (ck_path c) = Some (ck_info c).
Proof.
  intros Hc. unfold history. rewrite elem_of_history. split.
  - intros (i & H1 & H2). rewrite list_lookup_fmap, H1 in H2. injection H2 as H2. apply list_elem_of_lookup_2 in H1. unfold steps_of in H1.
    rewrite py_sort_perm, elem_of_parsed, (listed order Horder) in H1. destruct H1 as [H1 H3]. destruct (Hc _ _ H1 H3) as [He _]. unfold published. by rewrite <- He.
  - intros (H1 & H2 & H3). assert ((ck_step c, ck_path c) ∈ steps_of d) as [i Hi]%list_elem_of_lookup_1.
    { unfold steps_of. rewrite py_sort_perm, elem_of_parsed, (listed order Horder), H2. split; [done|]. apply parse_step_name. }
    exists i. rewrite list_lookup_fmap, Hi. cbn. by rewrite H3.
Qed.

Lemma run_unlinks name l : forall d fs, NoDup l -> (forall f, f ∈ l <-> is_Some (fs !! f)) -> d !! name = Some (NDir fs) ->
  run (for_each l (fun f => call (At name (Unlink f)))) d = (<[name := NDir ∅]> d, Ok tt).
Proof.
  induction l as [|f l IH]; intros d fs Hnd Hl Hd; cbn [for_each].
  - assert (fs = ∅) as ->; [|cbn; by rewrite insert_id]. apply map_eq. intros f. rewrite lookup_empty. apply eq_None_not_Some. rewrite <- Hl. apply not_elem_of_nil.
  - apply NoDup_cons in Hnd as [Hf Hnd]. destruct (proj1 (Hl f)) as [c Hc]; [by left|]. rewrite run_bind, run_call. cbn [exec]. rewrite Hd. cbn [exec_op with_files]. rewrite Hc.
    rewrite (IH _ (delete f fs)); [|done| |by rewrite lookup_partial_alter_eq].
    + f_equal. apply map_eq. intros k. destruct (decide (k = name)) as [->|Hne]; [by rewrite !lookup_insert_eq|by rewrite !lookup_insert_ne, lookup_partial_alter_ne by done].
    + intros g. destruct (decide (g = f)) as [->|Hne]; [rewrite lookup_delete_eq; split; [done|by intros []]|]. rewrite lookup_delete_ne by done. rewrite <- Hl, elem_of_cons. naive_solver.
Qed.

Lemma run_rmtree d name fs : d !! name = Some (NDir fs) -> run (rmtree name) d = (delete name d, Ok tt).
Proof.
  intros Hd. unfold rmtree. rewrite run_bind, run_call. cbn [exec]. rewrite Hd. cbn [exec_op]. rewrite <- Hd, partial_alter_id. rewrite run_bind, (run_unlinks name _ d fs); [| | |done].
  - rewrite run_call. cbn [exec]. rewrite lookup_insert_eq. cbn. f_equal. apply map_eq. intros k. destruct (decide (k = name)) as [->|Hne]; [by rewrite lookup_partial_alter_eq, lookup_delete_eq|].
    by rewrite lookup_partial_alter_ne, lookup_insert_ne, lookup_delete_ne by done.
  - rewrite Horder. apply NoDup_elements.
  - intros f. by rewrite Horder, elem_of_elements, elem_of_dom.
Qed.

(** Removing some of a list of directories. *)
Lemma run_removals (h : list Checkpoint) (P : Checkpoint -> Prop) `{!forall c, Decision (P c)} : forall d, NoDup (ck_path <$> h) -> (forall c, c ∈ h -> exists fs, d !! ck_path c = Some (NDir fs)) ->
  exists d', run (for_each h (fun c => if bool_decide (P c) then Ret tt else rmtree (ck_path c))) d = (d', Ok tt)
    /\ (forall c, c ∈ h -> d' !! ck_path c = if decide (P c) then d !! ck_path c else None) /\ (forall name, name ∉ ck_path <$> h -> d' !! name = d !! name).
Proof.
  induction h as [|c h IH]; intros d Hnd Hd; [exists d; split_and!; [done|intros c Hc; by apply elem_of_nil in Hc|done]|]. rewrite fmap_cons in Hnd. apply NoDup_cons in Hnd as [Hc Hnd].
  cbn [for_each]. set (d1 := if decide (P c) then d else delete (ck_path c) d).
  assert (run (if bool_decide (P c) then Ret tt else rmtree (ck_path c)) d = (d1, Ok tt)) as H1.
  { unfold d1. destruct (decide (P c)); [by rewrite bool_decide_eq_true_2|rewrite bool_decide_eq_false_2 by done]. destruct (Hd c) as [fs Hfs]; [by left|]. by apply (run_rmtree d _ fs). }
  assert (forall name, name <> ck_path c -> d1 !! name = d !! name) as Hfr by (intros name Hne; unfold d1; destruct (decide (P c)); [done|by rewrite lookup_delete_ne by (by apply not_eq_sym)]).
  destruct (IH d1 Hnd) as (d' & H2 & H3 & H4).
  { intros b Hb. rewrite Hfr; [apply Hd; by right|]. intros He. apply Hc. rewrite <- He. by apply list_elem_of_fmap_2. }
  exists d'. rewrite run_bind, H1. split_and!; [exact H2| |].
  - intros b [->|Hb]%elem_of_cons.
    + rewrite H4 by done. unfold d1. destruct (decide (P c)); [done|apply lookup_delete_eq].
    + rewrite H3 by done. rewrite Hfr; [done|]. intros He. apply Hc. rewrite <- He. by apply list_elem_of_fmap_2.
  - intros name Hname. rewrite fmap_cons in Hname. apply not_elem_of_cons in Hname as [Hne Hn]. rewrite H4 by done. by apply Hfr.
Qed.

(** What the rules rely on: a period, bounds that are not negative, and metrics that
    are numbers. *)
Record rules_ok (cfg : Config) (d : dirmap) : Prop := {
  ro_period : save_period cfg <> 0;
  ro_top : forall k, keep_top_k cfg = Some k -> 0 <= k;
  ro_latest : forall k, ft_keep_latest_k cfg = Some k -> 0 <= k;
  ro_metrics : forall m c, metric_name cfg = Some m -> c ∈ history d -> exists x, metric_or m (Inf (higher_is_better cfg)) (ck_info c) = Ok x /\ x <> NaN }.

Lemma history_steps_sublist steps : forall infos, sublist ((fun c => (ck_step c, ck_path c)) <$> history_of steps infos) steps.
Proof.
  induction steps as [|[n name] steps IH]; intros infos; [done|]. destruct infos as [|[info|] infos]; [apply sublist_nil_l|by apply sublist_skip, IH|by apply sublist_cons, IH].
Qed.
Lemma history_NoDup d : canonical d -> NoDup (ck_step <$> history d) /\ NoDup (ck_path <$> history d).
Proof.
  intros Hc. assert (NoDup ((fun c => (ck_step c, ck_path c)) <$> history d)) as Hnd.
  { eapply sublist_NoDup; [|apply history_steps_sublist]. unfold steps_of. rewrite py_sort_perm. unfold parsed. assert (NoDup (order (elements (dom d)))) as Hn by (rewrite Horder; apply NoDup_elements).
    induction Hn as [|name l Hname _ IH]; [constructor|]. cbn [omap list_omap]. destruct (_parse_step name) as [n|]; [|done]. constructor; [|done].
    intros (x & Hx & H)%list_elem_of_omap. destruct (_parse_step x); [|done]. injection H as _ <-. done. }
  split; (eapply (NoDup_fmap_2_strong _ (history d)); [|by eapply NoDup_fmap_1]).
  - intros a b (H1 & H2 & H3)%elem_of_history_run (H4 & H5 & H6)%elem_of_history_run He; [|done..]. destruct a as [n p i], b as [n' p' i']. cbn in *. congruence.
  - intros a b (H1 & H2 & H3)%elem_of_history_run (H4 & H5 & H6)%elem_of_history_run He; [|done..]. destruct a as [n p i], b as [n' p' i']. cbn in *. subst. apply step_name_inj in He as ->. congruence.
Qed.
Lemma rules_sound cfg d : canonical d -> rules_ok cfg d -> sound cfg (history d).
Proof. intros Hc [H1 H2 H3 H4]. constructor; [done..|]. by apply history_NoDup. Qed.

(** What is left of a history. *)
Record pruned (keep : Checkpoint -> Prop) (d d' : dirmap) : Prop := {
  pr_kept : forall c, c ∈ history d -> keep c -> d' !! ck_path c = d !! ck_path c;
  pr_removed : forall c, c ∈ history d -> ~ keep c -> d' !! ck_path c = None;
  pr_rest : forall name, name ∉ ck_path <$> history d -> d' !! name = d !! name }.

Lemma run_prunes cfg d : canonical d -> readable d -> rules_ok cfg d -> exists d', run (@remove_old_checkpoints LocalStorage cfg true) d = (d', Ok tt)
  /\ pruned (fun c => kept cfg (history d) c \/ (keep_top_k cfg = None /\ ft_keep_latest_k cfg = None)) d d'.
Proof.
  intros Hc Hr Hro. pose proof (rules_sound cfg d Hc Hro) as Hso. unfold remove_old_checkpoints. rewrite run_bind, run_history by done. destruct (history_NoDup d Hc) as [_ Hnp].
  assert (forall P : Checkpoint -> Prop, (forall c, P c) -> pruned P d d) as Hsame by (intros P HP; constructor; [done|intros c _ Hk; by destruct Hk|done]).
  destruct (history d) as [|c0 h0] eqn:Eh; [exists d; split; [done|]; constructor; rewrite ?Eh; [done| |done]; intros c Hin; by apply elem_of_nil in Hin|]. rewrite <- Eh in *.
  destruct (bool_decide (keep_top_k cfg = None) && bool_decide (ft_keep_latest_k cfg = None)) eqn:En.
  - apply andb_true_iff in En as [H1%bool_decide_eq_true H2%bool_decide_eq_true]. exists d. split; [done|]. apply Hsame. intros c. by right.
  - assert (~ (keep_top_k cfg = None /\ ft_keep_latest_k cfg = None)) as Hne by (intros [H1 H2]; by rewrite H1, H2 in En).
    destruct (protected_spec cfg (history d) Hso) as (protected & Hp & Hk). rewrite run_bind, Hp. cbn [of_res Checkpoints.run].
    destruct (run_removals (history d) (fun c => ck_step c ∈ protected) d Hnp) as (d' & H1 & H2 & H3).
    { intros c Hin. apply elem_of_history_run in Hin as (_ & Hpath & Hinfo); [|done]. unfold info_of in Hinfo. destruct (d !! ck_path c) as [[|fs]|]; [done|by exists fs|done]. }
    exists d'. split; [exact H1|]. constructor.
    + intros c Hin [Hkc|Hkc]; [|done]. rewrite H2 by done. apply decide_True. by apply Hk.
    + intros c Hin Hkc. rewrite H2 by done. apply decide_False. intros Hin'. apply Hkc. left. by apply Hk.
    + exact H3.
Qed.


(** ** The best checkpoint *)

Definition has (m : string) (c : Checkpoint) : bool := match ck_info c with VDict d => has_key m d | _ => false end.

Lemma valid_of_spec cfg m h : metric_name cfg = Some m -> (forall c, c ∈ h -> exists i, ck_info c = VDict i) -> valid_of cfg h = Ok (List.filter (has m) h).
Proof.
  intros Hm Hd. unfold valid_of. rewrite Hm. assert (traverse (fun c => has_metric (Some m) (ck_info c)) h = Ok (has m <$> h)) as ->.
  { apply traverse_Ok, Forall2_fmap_r, Forall_Forall2_diag, Forall_forall. intros c Hc. destruct (Hd c Hc) as [i Hi]. unfold has, has_metric, compose. by rewrite Hi. }
  cbn [mbind res_bind]. f_equal. clear. induction h as [|c h IH]; [done|]. rewrite fmap_cons. cbn [zip zip_with omap list_omap List.filter]. cbn [fst snd]. destruct (has m c); [f_equal|]; exact IH.
Qed.

(** The best of the checkpoints that have the metric. *)
Definition best_of (cfg : Config) (m : string) (d : dirmap) (c : Checkpoint) : Prop :=
  c ∈ history d /\ has m c = true /\ forall b, b ∈ history d -> has m b = true -> b = c \/ better cfg c b = true.

Lemma run_best cfg m d : canonical d -> readable d -> rules_ok cfg d -> metric_name cfg = Some m -> (exists c, c ∈ history d /\ has m c = true) ->
  exists c, best_of cfg m d c /\ run (@get_best_checkpoint_path LocalStorage cfg) d = (d, Ok (Some (ck_path c))).
Proof.
  intros Hc Hr Hro Hm (c0 & Hc0 & Hh0). pose proof (rules_sound cfg d Hc Hro) as Hso. unfold get_best_checkpoint_path. rewrite run_bind, run_history by done.
  destruct (history d) as [|c1 h1] eqn:Eh; [by apply elem_of_nil in Hc0|]. rewrite <- Eh in *. rewrite run_bind, (valid_of_spec cfg m (history d) Hm).
  2: { intros c Hin. destruct (ro_metrics _ _ Hro m c Hm Hin) as (x & Hx & _). unfold metric_or in Hx. destruct (ck_info c); try done. by eexists. }
  cbn [of_res Checkpoints.run]. set (valid := List.filter (has m) (history d)). assert (c0 ∈ valid) as Hv0 by (by apply list_filter_elem_of).
  destruct (sort_by_metric_spec cfg (history d) m valid Hso Hm) as (s & Hs & Hp & Hsort).
  { intros c Hin. by apply list_filter_elem_of in Hin as [? _]. }
  { apply sublist_steps. by apply history_NoDup. }
  destruct valid as [|v1 vs] eqn:Ev; [by apply elem_of_nil in Hv0|]. rewrite <- Ev in *. rewrite Hm, run_bind, Hs. cbn [of_res Checkpoints.run].
  destruct s as [|c s]; [apply Permutation_nil in Hp; by rewrite Ev in Hp|]. exists c. split; [|done].
  assert (forall b, b ∈ history d -> has m b = true -> b ∈ c :: s) as Hall by (intros b H1 H2; rewrite Hp; unfold valid; rewrite list_filter_elem_of; done).
  assert (c ∈ valid) as [H1 H2]%list_filter_elem_of by (rewrite <- Hp; by left). split_and!; [done|done|]. intros b H3 H4. destruct (proj1 (elem_of_cons _ _ _) (Hall b H3 H4)) as [->|Hb]; [by left|right].
  inversion Hsort as [|? ? _ Hf]. rewrite Forall_forall in Hf. by apply Hf.
Qed.

(** The history of what is left is what is left of the history. *)
Lemma pruned_history P d d' : canonical d -> pruned P d d' -> (forall c, P c \/ ~ P c) -> canonical d' /\ forall c, c ∈ history d' <-> c ∈ history d /\ P c.
Proof.
  intros Hc [Hk Hr Hrest] Hdec.
  assert (forall name, d' !! name = d !! name \/ (d' !! name = None /\ exists c, c ∈ history d /\ ck_path c = name /\ ~ P c)) as Heach.
  { intros name. destruct (decide (name ∈ ck_path <$> history d)) as [(c & -> & Hin)%list_elem_of_fmap|Hn]; [|left; by apply Hrest].
    destruct (Hdec c) as [HP|HP]; [left; by apply Hk|right]. split; [by apply Hr|by exists c]. }
  assert (canonical d') as Hc'.
  { intros name n Hsome Hp. destruct (Heach name) as [He|[He _]]; rewrite He in *; [by apply Hc|by destruct Hsome]. }
  split; [done|]. intros c. rewrite !elem_of_history_run by done. split.
  - intros (H1 & H2 & H3). destruct (Heach (ck_path c)) as [He|[He _]]; [|unfold info_of in H3; by rewrite He in H3]. assert (c ∈ history d) as Hin.
    { apply elem_of_history_run; [done|]. unfold published, info_of in *. rewrite <- H2, He in H1. rewrite He in H3. by rewrite <- H2. }
    split; [by apply elem_of_history_run|]. destruct (Hdec c) as [HP|HP]; [done|]. rewrite (Hr c Hin HP) in He. unfold published in H1. rewrite <- H2, (Hr c Hin HP) in H1. by destruct H1.
  - intros [Hin HP]. assert (c ∈ history d) as Hh by (by apply elem_of_history_run). destruct Hin as (H1 & H2 & H3). pose proof (Hk c Hh HP) as He. unfold published, info_of in *.
    rewrite <- H2, He in *. done.
Qed.

Lemma pruned_readable P d d' : canonical d -> pruned P d d' -> (forall c, P c \/ ~ P c) -> readable d -> readable d'.
Proof.
  intros Hc [Hk Hr Hrest] Hdec Hread n fs Hfs. destruct (decide (step_name n ∈ ck_path <$> history d)) as [(c & He & Hin)%list_elem_of_fmap|Hn].
  - destruct (Hdec c) as [HP|HP]; [|rewrite He, (Hr c Hin HP) in Hfs; done]. apply (Hread n). by rewrite He, <- (Hk c Hin HP), <- He.
  - apply (Hread n). by rewrite <- Hrest.
Qed.

Lemma best_of_unique cfg m d d' c c' : canonical d -> rules_ok cfg d -> best_of cfg m d c -> best_of cfg m d' c' -> c ∈ history d' -> c' ∈ history d -> c = c'.
Proof.
  intros Hc Hro (H1 & H2 & H3) (H4 & H5 & H6) H7 H8. destruct (H3 c' H8 H5) as [|Hb]; [done|]. destruct (H6 c H7 H2) as [|Hb']; [done|].
  pose proof (proj1 (better_sound cfg (history d) (rules_sound cfg d Hc Hro)) c c' H1 H8 Hb). congruence.
Qed.

End run.

(** ** Three checkpoints *)

Module Three.
Definition at_metric (x : Z) : node := NDir {["training_info.json" := Ok (str_dict [("val", VFloat (Fin x 0))])]}.
Definition store : dirmap := {["step_5" := at_metric 3; "step_10" := at_metric 1; "step_15" := at_metric 2]}.
Definition cfg : Config := mkConfig (Some "val") true (Some 1) 5 None.
Definition ordered (l : list string) : list string := l.
Abbreviation ckpt n x := (mkCheckpoint n (step_name n) (str_dict [("val", VFloat (Fin x 0))])).

Lemma ordered_perm l : ordered l ≡ₚ l.
Proof. done. Qed.
Lemma of_store (P : string -> option node -> Prop) name : is_Some (store !! name) -> P "step_5" (Some (at_metric 3)) -> P "step_10" (Some (at_metric 1)) -> P "step_15" (Some (at_metric 2)) -> P name (store !! name).
Proof.
  intros [x Hx] H5 H10 H15. assert ((name, x) ∈ map_to_list store) as H by (by apply elem_of_map_to_list).
  assert (map_to_list store ≡ₚ [("step_5", at_metric 3); ("step_10", at_metric 1); ("step_15", at_metric 2)]) as Hl.
  { unfold store. rewrite !map_to_list_insert by (vm_compute; reflexivity). by rewrite map_to_list_singleton. }
  rewrite Hl in H. rewrite Hx. repeat (apply elem_of_cons in H as [[= -> ->]|H]; [assumption|]). by apply elem_of_nil in H.
Qed.
Lemma store_canonical : canonical store.
Proof.
  intros name n Hs. apply (of_store (fun name e => _parse_step name = Some n -> name = step_name n /\ exists fs, e = Some (NDir fs)) name Hs);
    vm_compute; intros [= <-]; (split; [reflexivity|eexists; reflexivity]).
Qed.
Lemma store_readable : readable store.
Proof.
  intros n fs Hfs e. apply (of_store (fun _ x => forall fs, x = Some (NDir fs) -> fs !! "training_info.json" <> Some (Raise e)) (step_name n)) with (fs := fs); [by eexists|..|exact Hfs];
    intros fs' [= <-]; vm_compute; discriminate.
Qed.
Lemma store_history : history ordered store = [ckpt 5 3; ckpt 10 1; ckpt 15 2].
Proof. vm_compute. reflexivity. Qed.
Lemma store_rules : rules_ok ordered cfg store.
Proof.
  constructor; [by vm_compute|by intros k [= <-]|by intros k [=]|]. intros m c [= <-]. rewrite store_history. intros H.
  repeat (apply elem_of_cons in H as [->|H]; [eexists; split; [vm_compute; reflexivity|discriminate]|]). by apply elem_of_nil in H.
Qed.
End Three.


